(* ===== verification/_CoqProject ===== *)
-Q . S2P
Prelude.v
Codec.v
QueueId.v
Record.v
Hostname.v
MacExpand.v
Dsn.v
Table.v
Htable.v
Utf8.v
Attr.v
Quote822.v
Tok822.v
Header.v
Mime.v
Master.v
QmgrList.v
QmgrState.v
QmgrJob.v
QmgrSched.v
QmgrLink.v
QmgrPreempt.v
QmgrMessage.v
QmgrTransport.v
Double.v
QmgrQueue.v
QmgrEntry.v
QmgrBooks.v
QmgrDelivery.v
QmgrDefer.v
QmgrDeliver.v
DeliverRequest.v
QmgrLoad.v
QmgrSelect.v
QmgrMachine.v
QmgrRuns.v
IpMatch.v
Ring.v
Events.v
Ctable.v
Anvil.v
