(* ===== verification/Prelude.v ===== *)
(** * A verification library for the Postfix mail system

    ** The program and its parts

    Postfix is a set of cooperating daemons.  master(8) starts and supervises them;
    a queue manager, qmgr(8), reads messages from queue files and schedules their
    delivery; delivery agents, the SMTP server and many small services do the rest.
    All of them are built on two libraries, src/src/util (strings, tables, events,
    syntax checks) and src/src/global (mail formats, queue files, encodings).  This
    development models the parts that carry logic of their own: the scheduler of the
    queue manager, the process manager, the event manager, the tables and caches,
    the connection and rate
    counters of anvil(8), the macros of configuration files, the queue file format, the MIME processor with the parsers of headers and
    addresses, and the text formats and syntax checks.

    The files, in dependency order; each names the C file it follows, and keeps its
    function, field and constant names.

    - Prelude.v: C characters and strings as lists of codes, the [outcome] of a
      computation ([Ret], [Panic] for msg_panic(), [Undef] for undefined behaviour),
      list, option and integer lemmas, the tactics [zb] (boolean tests to propositions)
      and [inv_ret] (successful runs to their steps).
    - Codec.v: util/base64_code.c, util/hex_code.c, global/xtext.c.
    - QueueId.v: global/safe_ultostr.c, the queue ID macros of global/mail_queue.h,
      the path construction of global/mail_queue.c, util/dir_forest.c.
    - Record.v: global/record.c, global/rec_type.h, global/off_cvt.c.
    - Hostname.v: util/valid_hostname.c, util/alldig.c.
    - MacExpand.v: util/mac_parse.c, util/mac_expand.c, util/printable.c, util/name_code.c:
      the macros of main.cf and their conditionals, and their language as syntax trees.
    - Dsn.v: global/dsn_util.c.
    - Table.v: the interface of a string table; Htable.v: util/htable.c, which
      implements it.
    - Utf8.v: util/allascii.c, util/valid_utf8_string.c.
    - Attr.v: util/attr_print0.c, util/attr_scan0.c, the protocol between processes.
    - Quote822.v: global/quote_822_local.c, global/quote_821_local.c.
    - Tok822.v: global/tok822_parse.c: the scanner, the parser and the printers of
      addresses.
    - Header.v: global/is_header.c, global/header_token.c, global/header_opts.c,
      util/trimblanks.c.
    - Mime.v: global/mime_state.c.
    - Master.v: src/master, the parent process.
    - QmgrList.v: the list macros of qmgr/qmgr.h, on a store of links.  It proves
      that they are the list operations of QmgrState.v.
    - QmgrState.v: the structures of qmgr/qmgr.h as records in finite maps by address,
      and the state-and-error monad [M] with its weakest precondition [wp].
    - QmgrJob.v, QmgrSched.v, QmgrLink.v, QmgrPreempt.v: qmgr/qmgr_job.c.  QmgrJob.v has
      the operations and the invariant [wf]; the others prove retiring and freeing,
      linking and obtaining, and preemption correct.
    - QmgrMessage.v: the end of a message's jobs in qmgr/qmgr_message.c.
    - QmgrTransport.v: qmgr/qmgr_transport.c with the transport's part of
      qmgr_active.c, qmgr_deliver.c and qmgr_enable.c, as a state machine.
    - Double.v: what binary64 addition, subtraction and division do to bounds.
    - QmgrQueue.v: qmgr/qmgr_queue.c, qmgr/qmgr_feedback.c, qmgr_transport_create().
    - QmgrEntry.v: the operations of qmgr/qmgr_peer.c and qmgr/qmgr_entry.c.
      QmgrBooks.v: the invariant [books], what every counter, list and back pointer
      says about the others, as a relation between the columns of the state.
      QmgrDelivery.v: every operation of QmgrEntry.v keeps [sound], which is [wf] and
      [books] together.
    - QmgrDefer.v: qmgr/qmgr_defer.c, qmgr/qmgr_error.c.  QmgrDeliver.v:
      qmgr_deliver_update() of qmgr/qmgr_deliver.c and the timers of queues.
    - DeliverRequest.v: the conversation between the queue manager and a delivery agent:
      the requests and replies of qmgr/qmgr_deliver.c, global/deliver_request.c, and what
      they are made of (global/recipient_list.c, rcpt_print.c, rcpt_buf.c, dsn_print.c,
      dsb_scan.c, msg_stats_print.c, msg_stats_scan.c, verp_sender.c, mail_open_ok.c).
    - QmgrLoad.v: resolving and assigning the recipients of a message, allocating and
      refilling it, in qmgr/qmgr_message.c.  QmgrSelect.v: qmgr_job_entry_select() of
      qmgr/qmgr_job.c and qmgr_deliver() of qmgr/qmgr_deliver.c.
    - QmgrMachine.v: the queue manager as a machine: a handler for each event, and the
      states that can be reached.  QmgrRuns.v: what holds in all of them.
    - IpMatch.v: util/ip_match.c.
    - Ring.v: util/ring.c; Events.v: util/events.c with epoll(7).
    - Ctable.v: util/ctable.c, a client of Table.v.
    - Anvil.v: anvil/anvil.c on top of master/multi_server.c, another client of Table.v.

    How they interact.  The queue manager files share the state [qmgr] of QmgrState.v:
    a transport holds queues (destinations) and a stack of jobs (messages); a job
    holds peers (one for each of its queues) and a peer the entries (delivery
    requests) that wait.  A message arrives (QmgrLoad.v), its recipients become entries
    (QmgrEntry.v), a delivery process is offered and gets an entry (QmgrSelect.v), and
    its report (QmgrDeliver.v) disposes of the entry, slows down the destination
    (QmgrQueue.v), or sends the waiting entries to the retry service (QmgrDefer.v).
    Every operation keeps the scheduler's invariant and the books, so that their
    composition in QmgrMachine.v does.  QmgrTransport.v is a machine of its own, over the
    connections of transports, with what happens to entries as outcomes.  DeliverRequest.v
    sends over Attr.v, which uses the base64 code of Codec.v and the tables of Htable.v; it
    checks queue file names with QueueId.v, and the reports that it reads are those that
    QmgrDeliver.v handles.  Tok822.v prints
    addresses with the quoting of Quote822.v; Mime.v recognizes and tokenizes headers with
    Header.v.  Ctable.v is proved against the interface
    class [TableLaws] of Table.v, and Htable.v discharges it; Anvil.v finds its clients
    through the same interface.  Events.v and Ctable.v use
    the list operations that Ring.v proves the pointer operations to be.

    ** How the code is modelled

    A routine that changes shared structures is a function of a state: the monad [M] of
    QmgrState.v, the [outcome] of a state in Master.v, Events.v, Htable.v.  A null or
    dangling pointer that is followed is [Undef], msg_panic() is [Panic]: a theorem that
    a run gives [Ret] ([wp] for the monad) excludes both.  An object that is freed
    leaves its map, so that a use after free is [Undef].  The linked lists of objects
    are lists of addresses, justified by QmgrList.v and Ring.v.

    In Tok822.v the two pointers of the parser into its token list are the lists of tokens
    that they divide it into.  In Mime.v every call-back is made, and the state carries the
    list of the calls; a text record is a list of characters, of which the one after the
    last reads as 0.  In Attr.v a stream is a list of bytes, a variable argument list a list
    of requests, and what is stored through its pointers the list of the values; print and
    scan functions that are passed as arguments are functions on streams.  MSG_STATS is the
    88 bytes of its representation on a 64-bit system.

    Integers are [Z].  Where the code depends on the width it is written out:
    [unsigned long] in safe_strtoul(), [int] and [long] in Attr.v, [off_t] in off_cvt_string(), [int] delays below
    2^31 in the event manager, [double] as binary64 in the feedback of QmgrQueue.v and
    the scores of QmgrJob.v.  Counters of the queue manager are [int] in C; they count
    objects in memory, and their overflow is not modelled.

    What the world does is an argument or an event: the results of fork() and
    waitpid() in Master.v (of which [event_ok] says what the operating system
    guarantees: process ids of live children are not reused, and a status message has
    one of the four sizes read() can return), the callbacks of the event
    manager ([notify], limited by [command_ok] to requests the interface allows), the
    constructor and destructor of cached values in Ctable.v, the numbers that sscanf()
    finds in a feedback parameter in QmgrQueue.v ([scanned]), the outcome of a
    connection or a delivery in QmgrTransport.v ([deliver_outcome]), the queue files,
    with the addresses in them already resolved, and qsort() in QmgrLoad.v
    ([surroundings_ok] says that the files name transports that exist, and that sorting
    permutes), the offers and reports of delivery agents in QmgrMachine.v, the requests of the
    SMTP servers and the readings of the clock in Anvil.v, the attributes and errno in MacExpand.v ([event_ok],
    [readings_ok]: the clock does not go back).  Configuration
    values are constrained as the programs check them on start-up ([conf_ok]).

    ** Fuel

    Loops that are not structural take fuel, and a theorem says how much is enough:
    rec_get_raw() needs one more round than the file has bytes and reverse jumps
    ([rec_get_raw_total]); the event loop, the number of timers and of requests that
    callbacks make ([event_loop_ok]); free_jobs, the jobs of the message
    ([message_free_no_leak]); qmgr_active_drain(), the connections that can still start
    ([active_drain_terminates]); a hash chain, its length ([htable_refines_map]); the
    two feedback loops run at most twice, so that [feedback_fuel] is 3
    ([queue_feedback_bounds]); the loops of QmgrDefer.v, the entries or queues that there
    are when they start; the loop of qmgr_job_entry_select(), the jobs on the list
    ([selection_ok]); the scanners of Tok822.v and Header.v and the parameters of a content
    type, the characters of the text; attr_scan0(), the requests and the bytes of the stream
    ([attr_scan0_safe]); the parser of Tok822.v, the tokens
    ([tok822_parse_complete]); the calls of mac_expand(), 102 for each brace of the pattern
    ([mac_expand_ends]).  In the machine all fuel is computed from the state:
    [handlers_complete] says that it always suffices.

    ** What the theorems show

    - No panic, no undefined behaviour: [handlers_complete], [master_never_panics],
      [transport_machine_safe] for every reachable state; [job_obtain_ok],
      [job_preempt_ok], [message_free_no_leak] for every well-formed one;
      [dsn_split_safe] with the texts for which it fails; [mime_state_bounded] for every
      sequence of records; [attr_scan0_safe] for every stream of bytes,
      [deliver_request_get_safe] with the two requests for which it fails.
    - The protocol between processes: [attr_roundtrip], [deliver_request_roundtrip] (the
      agent gets the request that was sent), [delivery_reports] (the queue manager gets the
      report, or finds out that there is none).
    - Mail text: [mime_state_lossless] (what comes in goes out),
      [mime_state_downgrade_roundtrip], [mime_state_errors_explained],
      [tok822_parse_complete] (the parser takes any text and loses no token),
      [tok822_scan_externalize] and [quote_822_roundtrip] (what is printed is read back).
    - Types and invariants: [pointers_typed], [counters_count], [master_bookkeeping] (process counts, socket monitoring and
      timers agree), [transport_control_invariant], [anvil_bookkeeping], the scheduler's [wf] (job list, time
      list, stack of preempting jobs, candidate cache) and [conserved] (no recipient
      slot is lost).
    - What deliveries do: [report_outcome], [unavailable_outcome],
      [move_todo_keeps_recipients], [out_of_service_recovers].
    - Specifications: [transport_select_spec], [valid_hostname_spec] and its siblings,
      [valid_utf8_string_spec], [ip_match_correct], [safe_strtoul_spec],
      [mac_expand_meaning] (a template expands to its meaning), [mac_exp_eval_compare].
    - Refinement: [anvil_counts] (the replies are those of a server that counts the connections
      and the requests that there are), [qmgr_list_macros], [ring_operations], [htable_refines_map],
      [ctable_refines_lru].
    - Round trips: queue IDs, records, offsets, base64, xtext, address patterns.
    - Termination and fairness: [event_loop_ok], [rec_get_raw_total], [mac_expand_ends],
      [active_drain_terminates], [selection_ok], [transport_select_fair],
      [master_remove_service].
    - Accounting and bounds: [preempt_accounting], [concurrency_limited],
      [queue_feedback_bounds],
      [master_spawn_within_limit], [rec_get_raw_limit].

    Some theorems document that the code and its comments differ; the lemmas that
    execute such a case stand next to them ([rate_lock_stuck], [ipv6_short_accepted],
    [capital_n_accepted], [level_zero_order_differs], [sequence_past_end],
    [retry_queue_leaks], [domain_literal_bracket], [digest_application_is_message],
    [header_offset_next_record], [table_not_skipped], [duplicate_counted],
    [time_stamps_missing], [recipient_count_underflow], [unknown_attribute_refused],
    [mac_expand_recurse_diverges]).

    ** Not modelled

    Input and output as such: sockets, files, processes, DNS, TLS, SASL, databases.
    The SMTP server and client, cleanup, the rewriting and local delivery programs are
    sessions and table lookups around those, with little state of their own.  Of the address
    routines, the clients of the rewriting service and the list operations under Tok822.v
    are left out; of the MIME processor, an application without call-backs.  Logging
    is left out everywhere, as are the other encodings of attributes (attr_print64.c,
    attr_print_plain.c), the one between anvil(8) and its clients among them.  oqmgr is the previous queue manager.

    Of the queue manager: parsing the records of a queue file, the requests to the
    resolver, and the order of recipients are arguments; the defer log, message flags,
    watchdog timers are left out.  Retry and other
    transports exist from the start, where the code creates them on demand.
    qmgr_active_done(), which decides what happens to a message without deliveries, is
    not modelled: the handlers return the messages it is called for, and these stay in
    memory. *)

From stdpp Require Export base numbers list gmap.
From Stdlib Require Export ZArith Lia ZifyNat ZifyBool.
From Stdlib Require Ascii String.

#[export] Set Default Proof Using "Type".
#[export] Set Default Goal Selector "!".

Open Scope Z_scope.

(** ** Characters

    A C [unsigned char] is a [Z] between 0 and 255.  The string notation below
    lets a one-letter literal such as ["a"%ch] stand for its ASCII code, so that
    comparisons read as in the C source and [lia] sees plain numerals. *)

Definition char_of_bytes (l : list Byte.byte) : option Z :=
  match l with [b] => Some (Z.of_N (Byte.to_N b)) | _ => None end.

Definition char_to_bytes (z : Z) : option (list Byte.byte) :=
  match Byte.of_N (Z.to_N z) with Some b => Some [b] | None => None end.

Declare Scope cchar_scope.
Delimit Scope cchar_scope with ch.
String Notation Z char_of_bytes char_to_bytes : cchar_scope.

(** A string literal as a list of character codes (without the terminator). *)
Definition str (s : String.string) : list Z :=
  map (fun a => Z.of_N (Ascii.N_of_ascii a)) (String.list_ascii_of_string s).
Export String.StringSyntax.
Arguments str s%_string_scope.

Abbreviation bytes := (list Z).

Definition is_byte (c : Z) : Prop := 0 <= c < 256.

(** A byte that is not the C string terminator. *)
Definition is_cchar (c : Z) : Prop := 0 < c < 256.

#[export] Instance is_byte_dec c : Decision (is_byte c).
Proof. unfold is_byte. apply _. Defined.
#[export] Instance is_cchar_dec c : Decision (is_cchar c).
Proof. unfold is_cchar. apply _. Defined.

(** [p[i]] for a pointer [p] into a C string: the string is the list of the
    characters before the terminator, and the terminator reads as 0. *)
Definition cp (s : bytes) (i : nat) : Z := nth i s 0.

(** sys_defs.h wraps the <ctype.h> predicates in ISASCII(); these are the
    resulting predicates in the C locale. *)
Definition in_range (lo hi c : Z) : bool := (lo <=? c) && (c <=? hi).
Definition ISDIGIT (c : Z) : bool := in_range "0"%ch "9"%ch c.
Definition ISUPPER (c : Z) : bool := in_range "A"%ch "Z"%ch c.
Definition ISLOWER (c : Z) : bool := in_range "a"%ch "z"%ch c.
Definition ISALPHA (c : Z) : bool := ISUPPER c || ISLOWER c.
Definition ISALNUM (c : Z) : bool := ISALPHA c || ISDIGIT c.
Definition ISSPACE (c : Z) : bool := (c =? 32) || in_range 9 13 c.

(** ** Outcomes

    [Panic] is msg_panic(): the program stops itself on an internal
    inconsistency.  [Undef] is undefined behaviour of C (a read outside an
    object, a null pointer). *)
Inductive outcome (A : Type) : Type :=
  | Ret (a : A)
  | Panic
  | Undef.
Arguments Ret {A} a.
Arguments Panic {A}.
Arguments Undef {A}.

#[export] Instance outcome_ret : MRet outcome := fun A a => Ret a.
#[export] Instance outcome_bind : MBind outcome := fun A B f m =>
  match m with Ret a => f a | Panic => Panic | Undef => Undef end.

Definition assert_or_panic (b : bool) : outcome unit := if b then Ret tt else Panic.

Lemma outcome_bind_ret {A B} (a : A) (f : A -> outcome B) : (Ret a ≫= f) = f a.
Proof. reflexivity. Qed.

Lemma outcome_bind_Ret_inv {A B} (m : outcome A) (f : A -> outcome B) b :
  (m ≫= f) = Ret b -> exists a, m = Ret a /\ f a = Ret b.
Proof. destruct m; simpl; intros H; try discriminate. eauto. Qed.

(** Take a successful run apart into its steps. *)
Ltac inv_ret :=
  repeat match goal with
  | H : (_ ≫= _) = Ret _ |- _ =>
      let a := fresh "r" in let Ha := fresh "Hr" in
      apply outcome_bind_Ret_inv in H as (a & Ha & H)
  | H : Ret _ = Ret _ |- _ => injection H as H
  | H : Panic = Ret _ |- _ => discriminate H
  | H : Undef = Ret _ |- _ => discriminate H
  end.

(** ** Boolean comparisons *)

(** Turn the boolean tests of the code into the propositions [lia] knows. *)
Ltac zb :=
  unfold ISDIGIT, ISUPPER, ISLOWER, ISSPACE, in_range, is_byte, is_cchar in *;
  repeat match goal with
  | H : _ && _ = true |- _ => apply andb_true_iff in H as [? ?]
  | H : _ && _ = false |- _ => apply andb_false_iff in H
  | H : _ || _ = false |- _ => apply orb_false_iff in H as [? ?]
  | H : _ || _ = true |- _ => apply orb_true_iff in H
  | H : negb _ = true |- _ => apply negb_true_iff in H
  | H : negb _ = false |- _ => apply negb_false_iff in H
  | H : (_ =? _) = true |- _ => apply Z.eqb_eq in H
  | H : (_ =? _) = false |- _ => apply Z.eqb_neq in H
  | H : (_ <=? _) = true |- _ => apply Z.leb_le in H
  | H : (_ <=? _) = false |- _ => apply Z.leb_gt in H
  | H : (_ <? _) = true |- _ => apply Z.ltb_lt in H
  | H : (_ <? _) = false |- _ => apply Z.ltb_ge in H
  end.

(** Case split on the comparisons of the goal, closing the impossible cases. *)
Ltac zcases :=
  repeat match goal with
  | |- context [?a =? ?b] => destruct (Z.eqb_spec a b); try lia
  | |- context [?a <=? ?b] => destruct (Z.leb_spec a b); try lia
  | |- context [?a <? ?b] => destruct (Z.ltb_spec a b); try lia
  end; simpl; try lia.

(** Evaluate the constant powers of two; [plia] is [lia] with these and with
    division and remainder by constants. *)
Ltac eval_pow :=
  repeat match goal with
  | |- context [2 ^ Zpos ?n] =>
      let v := eval vm_compute in (2 ^ Zpos n) in change (2 ^ Zpos n) with v
  | H : context [2 ^ Zpos ?n] |- _ =>
      let v := eval vm_compute in (2 ^ Zpos n) in change (2 ^ Zpos n) with v in H
  end.
Ltac plia := eval_pow; zify; Z.to_euclidean_division_equations; lia.

(** Equality of explicit lists of numbers. *)
Ltac list_plia := repeat first [reflexivity | apply (f_equal2 cons); [plia|]].

Create HintDb postfix.

(** ** Bit operations as arithmetic *)

Lemma land_mask a n : 0 <= n -> Z.land a (2 ^ n - 1) = a mod 2 ^ n.
Proof. intros Hn. rewrite <- Z.land_ones by done. by rewrite Z.ones_equiv. Qed.

Lemma land_shiftl_low a b n :
  0 <= n -> 0 <= b < 2 ^ n -> Z.land (Z.shiftl a n) b = 0.
Proof.
  intros Hn Hb. apply Z.bits_inj'. intros i Hi.
  rewrite Z.land_spec, Z.bits_0, Z.shiftl_spec by done.
  destruct (Z.ltb_spec i n); [rewrite Z.testbit_neg_r by lia; done|].
  rewrite <- (Z.mod_small b (2 ^ n)) by done.
  rewrite Z.mod_pow2_bits_high by lia. apply andb_false_r.
Qed.

Lemma lor_range a b n : 0 <= n -> 0 <= a < 2 ^ n -> 0 <= b < 2 ^ n -> 0 <= Z.lor a b < 2 ^ n.
Proof.
  intros Hn Ha Hb. rewrite <- (Z.mod_small a (2 ^ n)), <- (Z.mod_small b (2 ^ n)) by done. rewrite <- !land_mask, <- Z.land_lor_distr_l by done.
  rewrite land_mask by done. apply Z.mod_pos_bound. lia.
Qed.

(** [a << n | b] is a sum when [b] fits below bit [n]. *)
Lemma lor_shiftl a b n :
  0 <= n -> 0 <= b < 2 ^ n -> Z.lor (Z.shiftl a n) b = a * 2 ^ n + b.
Proof.
  intros Hn Hb. pose proof (Z.add_lor_land (Z.shiftl a n) b) as H.
  rewrite land_shiftl_low in H by done.
  rewrite Z.shiftl_mul_pow2 in * by done. lia.
Qed.

(** ** Lists *)

Lemma Forall_str (s : String.string) : Forall is_byte (str s).
Proof.
  unfold str. apply Forall_forall. intros c Hc%list_elem_of_In%in_map_iff.
  destruct Hc as (a & <- & _). unfold is_byte.
  destruct a as [[] [] [] [] [] [] [] []]; vm_compute; split; congruence.
Qed.

Lemma list_ind3 {A} (P : list A -> Prop) :
  P [] -> (forall x, P [x]) -> (forall x y, P [x; y]) ->
  (forall x y z l, P l -> P (x :: y :: z :: l)) -> forall l, P l.
Proof.
  intros H0 H1 H2 H3. fix IH 1. intros [|x [|y [|z l]]]; [exact H0|exact (H1 x)|exact (H2 x y)|exact (H3 x y z l (IH l))].
Qed.
#[export] Hint Resolve Forall_str : postfix.

(** Split a text at every occurrence of a separator; [cur] is the field read so
    far.  The result has one more field than the text has separators. *)
Fixpoint split_from (sep : Z) (cur s : bytes) : list bytes :=
  match s with
  | [] => [cur]
  | c :: s => if c =? sep then cur :: split_from sep [] s else split_from sep (cur ++ [c]) s
  end.
Definition split_on (sep : Z) (s : bytes) : list bytes := split_from sep [] s.

(** The first field extends what has been read of it. *)
Lemma split_from_prefix sep s : forall cur,
  exists t fs, split_from sep cur s = (cur ++ t) :: fs.
Proof.
  induction s as [|c s IH]; intros cur; cbn.
  { exists [], []. by rewrite app_nil_r. }
  case_match; [exists [], (split_from sep [] s); by rewrite app_nil_r|].
  destruct (IH (cur ++ [c])) as (t & fs & ->). exists (c :: t), fs.
  by rewrite <- app_assoc.
Qed.

Lemma split_from_nonempty sep cur s : split_from sep cur s <> [].
Proof. by destruct (split_from_prefix sep s cur) as (? & ? & ->). Qed.

(** strspn(): the length of the longest prefix of characters that pass a test. *)
Fixpoint strspn (p : Z -> bool) (s : bytes) : nat :=
  match s with
  | c :: s => if p c then S (strspn p s) else O
  | [] => O
  end.

Lemma strspn_le p s : (strspn p s <= length s)%nat.
Proof. induction s; cbn; [lia|]. case_match; lia. Qed.

Lemma strspn_all p s : strspn p s = length s <-> forallb p s = true.
Proof.
  induction s as [|c s IH]; cbn; [done|]. destruct (p c); cbn; [|split; [lia|done]].
  rewrite <- IH. lia.
Qed.

Lemma strspn_take p s : forallb p (take (strspn p s) s) = true.
Proof. induction s as [|c s IH]; cbn; [done|]. destruct (p c) eqn:Hc; cbn; [by rewrite Hc|done]. Qed.

Lemma strspn_drop p s c r : drop (strspn p s) s = c :: r -> p c = false.
Proof.
  induction s as [|x s IH]; cbn; [done|]. destruct (p x) eqn:Hx; cbn; [exact IH|congruence].
Qed.

(** Text tests as propositions. *)
Lemma forallb_Forall {A} (p : A -> bool) l : forallb p l = true <-> Forall (fun x => p x = true) l.
Proof. rewrite forallb_forall, Forall_forall. setoid_rewrite list_elem_of_In. done. Qed.

(** ** Sums over finite maps *)

Section map_sum.
Context {K A : Type} `{Countable K}.
Implicit Types (f : A -> Z) (m : gmap K A).

(** The sum of [f] over the values of a map. *)
Definition map_sum f m : Z := map_fold (fun _ x acc => f x + acc) 0 m.

Lemma map_sum_empty f : map_sum f ∅ = 0.
Proof. unfold map_sum. by rewrite map_fold_empty. Qed.

Lemma map_sum_insert_new f m i x : m !! i = None -> map_sum f (<[i := x]> m) = f x + map_sum f m.
Proof.
  intros Hi. unfold map_sum. rewrite map_fold_insert_L; [done|intros; lia|done].
Qed.

Lemma map_sum_delete f m i x : m !! i = Some x -> map_sum f (delete i m) = map_sum f m - f x.
Proof.
  intros Hi. assert (E : map_sum f m = map_sum f (<[i := x]> (delete i m)))
    by by rewrite insert_delete_id.
  rewrite map_sum_insert_new in E by apply lookup_delete_eq. lia.
Qed.

Lemma map_sum_insert f m i x y :
  m !! i = Some y -> map_sum f (<[i := x]> m) = map_sum f m - f y + f x.
Proof.
  intros Hi. rewrite <- insert_delete_eq, map_sum_insert_new by apply lookup_delete_eq.
  rewrite (map_sum_delete _ _ _ _ Hi). lia.
Qed.

Lemma map_sum_alter f (g : A -> A) m i x :
  m !! i = Some x -> map_sum f (alter g i m) = map_sum f m - f x + f (g x).
Proof.
  intros Hi. replace (alter g i m) with (<[i := g x]> m).
  - by apply map_sum_insert.
  - apply map_eq. intros j. destruct (decide (i = j)) as [->|Hn].
    + by rewrite lookup_insert_eq, lookup_alter_eq, Hi.
    + by rewrite lookup_insert_ne, lookup_alter_ne.
Qed.

Lemma map_sum_nonneg f m : (forall x, 0 <= f x) -> 0 <= map_sum f m.
Proof.
  intros Hf. induction m as [|i x m Hi IH] using map_ind; [by rewrite map_sum_empty|].
  rewrite map_sum_insert_new by done. specialize (Hf x). lia.
Qed.

Lemma map_sum_nonneg_in f m : (forall i x, m !! i = Some x -> 0 <= f x) -> 0 <= map_sum f m.
Proof.
  induction m as [|i x m Hi IH] using map_ind; intros Hf; [by rewrite map_sum_empty|].
  rewrite map_sum_insert_new by done. assert (H0 : 0 <= f x) by (apply (Hf i), lookup_insert_eq).
  enough (0 <= map_sum f m) by lia. apply IH. intros j y Hj. apply (Hf j).
  rewrite lookup_insert_ne; [done|]. by intros ->; congruence.
Qed.

Lemma map_sum_ge_in f m i x : (forall j y, m !! j = Some y -> 0 <= f y) -> m !! i = Some x -> f x <= map_sum f m.
Proof.
  intros Hf Hi. enough (H1 : 0 <= map_sum f (delete i m)) by (rewrite (map_sum_delete _ _ _ _ Hi) in H1; lia).
  apply map_sum_nonneg_in. intros j y [_ Hj]%lookup_delete_Some. by apply (Hf j).
Qed.

Lemma map_sum_ge f m i x : (forall x, 0 <= f x) -> m !! i = Some x -> f x <= map_sum f m.
Proof.
  intros Hf Hi. pose proof (map_sum_nonneg f (delete i m) Hf) as H1.
  rewrite (map_sum_delete _ _ _ _ Hi) in H1. lia.
Qed.
End map_sum.

Lemma map_sum_ext `{Countable K} {A} (f g : A -> Z) (m : gmap K A) :
  (forall i x, m !! i = Some x -> f x = g x) -> map_sum f m = map_sum g m.
Proof.
  induction m as [|i x m Hi IH] using map_ind; intros E; [done|]. rewrite !map_sum_insert_new by done.
  rewrite (E i x) by apply lookup_insert_eq. f_equal. apply IH. intros j y Hj. apply (E j).
  rewrite lookup_insert_ne; [done|]. intros ->. congruence.
Qed.
Lemma map_sum_zero `{Countable K} {A} (m : gmap K A) : map_sum (fun _ => 0) m = 0.
Proof. induction m as [|i x m Hi IH] using map_ind; [apply map_sum_empty|]. by rewrite map_sum_insert_new. Qed.
Lemma map_sum_fmap `{Countable K} {A B} (f : B -> Z) (g : A -> B) (m : gmap K A) :
  map_sum f (g <$> m) = map_sum (fun x => f (g x)) m.
Proof.
  induction m as [|i x m Hi IH] using map_ind; [by rewrite fmap_empty|].
  rewrite fmap_insert, !map_sum_insert_new, IH; [done..|]. by rewrite lookup_fmap, Hi.
Qed.

Lemma delete_alter_eq `{Countable K} {A} (f : A -> A) (m : gmap K A) i :
  delete i (alter f i m) = delete i m.
Proof.
  apply map_eq. intros j. destruct (decide (i = j)) as [->|Hn].
  - by rewrite !lookup_delete_eq.
  - by rewrite !lookup_delete_ne, lookup_alter_ne.
Qed.

(** ** Flag bits *)

(** Testing, setting and clearing bit [k] of a flag word. *)
Lemma flag_test f k : 0 <= k -> negb (Z.land f (Z.shiftl 1 k) =? 0) = Z.testbit f k.
Proof.
  intros Hk. rewrite Z.shiftl_1_l. destruct (Z.testbit f k) eqn:E.
  - apply negb_true_iff, Z.eqb_neq. intros H. apply (f_equal (fun z => Z.testbit z k)) in H.
    rewrite Z.land_spec, E, Z.pow2_bits_true, Z.bits_0 in H by done. done.
  - apply negb_false_iff, Z.eqb_eq, Z.bits_inj'. intros i Hi.
    rewrite Z.land_spec, Z.bits_0. destruct (Z.eq_dec i k) as [->|Hn].
    + by rewrite E.
    + by rewrite Z.pow2_bits_false, andb_false_r by lia.
Qed.

Lemma flag_set f k i : 0 <= k -> 0 <= i ->
  Z.testbit (Z.lor f (Z.shiftl 1 k)) i = if i =? k then true else Z.testbit f i.
Proof.
  intros Hk Hi. rewrite Z.lor_spec, Z.shiftl_1_l. destruct (Z.eqb_spec i k) as [->|Hn].
  - by rewrite Z.pow2_bits_true, orb_true_r.
  - by rewrite Z.pow2_bits_false, orb_false_r by lia.
Qed.

Lemma flag_clear f k i : 0 <= k -> 0 <= i ->
  Z.testbit (Z.land f (Z.lnot (Z.shiftl 1 k))) i = if i =? k then false else Z.testbit f i.
Proof.
  intros Hk Hi. rewrite Z.land_spec, Z.lnot_spec, Z.shiftl_1_l by done.
  destruct (Z.eqb_spec i k) as [->|Hn].
  - by rewrite Z.pow2_bits_true, andb_false_r.
  - by rewrite Z.pow2_bits_false, andb_true_r by lia.
Qed.
