(* ===== verification/Codec.v ===== *)
(** Text encodings: base64_code.c, hex_code.c (src/src/util) and xtext.c
    (src/src/global).  A VSTRING result buffer is the list of the bytes it
    holds; a decoder that returns a null pointer returns [None]. *)

From S2P Require Import Prelude.

(** A byte stored through VSTRING_ADDCH() keeps its low eight bits. *)
Definition u8 (x : Z) : Z := Z.land x 255.

Lemma u8_mod x : u8 x = x mod 256.
Proof. unfold u8. apply (land_mask x 8). lia. Qed.

Module Base64.

Definition BASE64_FLAG_NONE : Z := 0.
Definition BASE64_FLAG_APPEND : Z := 1.
Definition INVALID : Z := 255.

Definition to_b64 : bytes :=
  str "ABCDEFGHIJKLMNOPQRSTUVWXYZabcdefghijklmnopqrstuvwxyz0123456789+/".

(** Encode 3 -> 4: the body of the encoding loop. *)
Fixpoint encode_loop (inp : bytes) : bytes :=
  match inp with
  | [] => []
  | [c0] =>
      [cp to_b64 (Z.to_nat (Z.shiftr c0 2));
       cp to_b64 (Z.to_nat (Z.shiftl (Z.land c0 3) 4));
       "="%ch; "="%ch]
  | [c0; c1] =>
      [cp to_b64 (Z.to_nat (Z.shiftr c0 2));
       cp to_b64 (Z.to_nat (Z.lor (Z.shiftl (Z.land c0 3) 4) (Z.shiftr c1 4)));
       cp to_b64 (Z.to_nat (Z.shiftl (Z.land c1 15) 2));
       "="%ch]
  | c0 :: c1 :: c2 :: rest =>
      cp to_b64 (Z.to_nat (Z.shiftr c0 2)) ::
      cp to_b64 (Z.to_nat (Z.lor (Z.shiftl (Z.land c0 3) 4) (Z.shiftr c1 4))) ::
      cp to_b64 (Z.to_nat (Z.lor (Z.shiftl (Z.land c1 15) 2) (Z.shiftr c2 6))) ::
      cp to_b64 (Z.to_nat (Z.land c2 63)) :: encode_loop rest
  end.

Definition base64_encode_opt (result inp : bytes) (flags : Z) : bytes :=
  let result := if Z.land flags BASE64_FLAG_APPEND =? 0 then [] else result in
  result ++ encode_loop inp.

Definition base64_encode (result inp : bytes) : bytes :=
  base64_encode_opt result inp BASE64_FLAG_NONE.

(** The decoding table, filled the way the one-time initialization does it. *)
Definition un_b64 : list Z :=
  foldl (fun tab i => <[Z.to_nat (cp to_b64 i) := Z.of_nat i]> tab)
    (replicate 256 INVALID) (seq 0 64).

Definition unb (c : Z) : Z := nth (Z.to_nat c) un_b64 INVALID.

(** Decode 4 -> 3. *)
Fixpoint decode_loop (inp result : bytes) : option bytes :=
  match inp with
  | c0 :: c1 :: c2 :: c3 :: rest =>
      let ch0 := unb c0 in
      let ch1 := unb c1 in
      if (ch0 =? INVALID) || (ch1 =? INVALID) then None else
      let result := result ++ [u8 (Z.lor (Z.shiftl ch0 2) (Z.shiftr ch1 4))] in
      if c2 =? "="%ch then Some result else
      let ch2 := unb c2 in
      if ch2 =? INVALID then None else
      let result := result ++ [u8 (Z.lor (Z.shiftl ch1 4) (Z.shiftr ch2 2))] in
      if c3 =? "="%ch then Some result else
      let ch3 := unb c3 in
      if ch3 =? INVALID then None else
      let result := result ++ [u8 (Z.lor (Z.shiftl ch2 6) ch3)] in
      decode_loop rest result
  | _ => Some result
  end.

Definition base64_decode_opt (result inp : bytes) (flags : Z) : option bytes :=
  if negb (Z.rem (Z.of_nat (length inp)) 4 =? 0) then None else
  let result := if Z.land flags BASE64_FLAG_APPEND =? 0 then [] else result in
  decode_loop inp result.

Definition base64_decode (result inp : bytes) : option bytes :=
  base64_decode_opt result inp BASE64_FLAG_NONE.

(** *** Lemmas about the tables *)

Lemma seq_forall (P : nat -> bool) n :
  forallb P (seq 0 n) = true -> forall i, (i < n)%nat -> P i = true.
Proof.
  intros H i Hi. rewrite forallb_forall in H. apply H, in_seq. lia.
Qed.

Definition table_ok (i : nat) : bool :=
  (unb (cp to_b64 i) =? Z.of_nat i) && negb (cp to_b64 i =? "="%ch).

Lemma unb_to_b64 i : 0 <= i < 64 ->
  unb (cp to_b64 (Z.to_nat i)) = i /\ (cp to_b64 (Z.to_nat i) =? "="%ch) = false.
Proof.
  intros Hi.
  assert (H : table_ok (Z.to_nat i) = true).
  { apply (seq_forall table_ok 64); [vm_compute; reflexivity|lia]. }
  unfold table_ok in H. zb. split; [lia|]. by apply Z.eqb_neq.
Qed.

(** The three sextet computations of the encoder, as arithmetic. *)
Lemma sextets c0 c1 c2 :
  is_byte c0 -> is_byte c1 -> is_byte c2 ->
  Z.shiftr c0 2 = c0 / 4 /\
  Z.shiftl (Z.land c0 3) 4 = (c0 mod 4) * 16 /\
  Z.lor (Z.shiftl (Z.land c0 3) 4) (Z.shiftr c1 4) = (c0 mod 4) * 16 + c1 / 16 /\
  Z.shiftl (Z.land c1 15) 2 = (c1 mod 16) * 4 /\
  Z.lor (Z.shiftl (Z.land c1 15) 2) (Z.shiftr c2 6) = (c1 mod 16) * 4 + c2 / 64 /\
  Z.land c2 63 = c2 mod 64.
Proof.
  unfold is_byte. intros H0 H1 H2.
  assert (Z.land c0 3 = c0 mod 4) as -> by (apply (land_mask c0 2); lia).
  assert (Z.land c1 15 = c1 mod 16) as -> by (apply (land_mask c1 4); lia).
  assert (Z.land c2 63 = c2 mod 64) as -> by (apply (land_mask c2 6); lia).
  rewrite !Z.shiftr_div_pow2 by lia.
  eval_pow. rewrite !lor_shiftl by plia. rewrite !Z.shiftl_mul_pow2 by lia. plia.
Qed.

(** The octet computations of the decoder, as arithmetic. *)
Lemma octets a b c d :
  0 <= a < 64 -> 0 <= b < 64 -> 0 <= c < 64 -> 0 <= d < 64 ->
  u8 (Z.lor (Z.shiftl a 2) (Z.shiftr b 4)) = a * 4 + b / 16 /\
  u8 (Z.lor (Z.shiftl b 4) (Z.shiftr c 2)) = (b mod 16) * 16 + c / 4 /\
  u8 (Z.lor (Z.shiftl c 6) d) = (c mod 4) * 64 + d.
Proof.
  intros Ha Hb Hc Hd. rewrite !u8_mod, !Z.shiftr_div_pow2 by lia.
  eval_pow. rewrite !lor_shiftl by plia. plia.
Qed.

Ltac b64_step :=
  match goal with
  | |- context [unb (cp to_b64 (Z.to_nat ?i))] =>
      destruct (unb_to_b64 i) as [-> ?]; [plia|]
  | H : (?x =? ?y) = false |- context [?x =? ?y] => rewrite H
  | |- context [?i =? INVALID] => rewrite (proj2 (Z.eqb_neq i INVALID)) by (unfold INVALID; plia)
  end.

(** Decoding the encoder's output appends the input to the buffer. *)
Lemma decode_encode_loop inp : Forall is_byte inp ->
  forall result, decode_loop (encode_loop inp) result = Some (result ++ inp).
Proof.
  induction inp as [|c0|c0 c1|c0 c1 c2 inp IH] using list_ind3; intros Hin result;
    repeat match goal with H : Forall _ (_ :: _) |- _ => apply Forall_cons in H as [? ?] end;
    unfold is_byte in *; cbn [encode_loop decode_loop].
  - by rewrite app_nil_r.
  - destruct (sextets c0 0 0) as (-> & -> & _); [unfold is_byte; plia..|].
    repeat b64_step. cbn [orb]. rewrite Z.eqb_refl.
    destruct (octets (c0 / 4) (c0 mod 4 * 16) 0 0) as (-> & _); try plia.
    do 2 f_equal. list_plia.
  - destruct (sextets c0 c1 0) as (-> & _ & -> & -> & _); [unfold is_byte; plia..|].
    repeat b64_step. cbn [orb]. rewrite Z.eqb_refl.
    destruct (octets (c0 / 4) (c0 mod 4 * 16 + c1 / 16) (c1 mod 16 * 4) 0)
      as (-> & -> & _); try plia.
    rewrite <- app_assoc. simpl. do 2 f_equal. list_plia.
  - destruct (sextets c0 c1 c2) as (-> & _ & -> & _ & -> & ->); [unfold is_byte; plia..|].
    repeat b64_step. cbn [orb].
    destruct (octets (c0 / 4) (c0 mod 4 * 16 + c1 / 16) (c1 mod 16 * 4 + c2 / 64) (c2 mod 64))
      as (-> & -> & ->); try plia.
    rewrite IH by done. rewrite <- !app_assoc. simpl. do 2 f_equal. list_plia.
Qed.

Lemma encode_loop_length inp :
  Z.rem (Z.of_nat (length (encode_loop inp))) 4 = 0.
Proof.
  induction inp as [| | |c0 c1 c2 inp IH] using list_ind3; try reflexivity.
  cbn [encode_loop length]. plia.
Qed.

(** The text base64_decode() accepts: quartets of alphabet characters; a
    quartet padded with "=" ends the decoded part. *)
Definition in_alphabet (c : Z) : bool := negb (unb c =? INVALID).

Inductive b64_text : bytes -> Prop :=
  | b64_end : b64_text []
  | b64_quad c0 c1 c2 c3 rest :
      in_alphabet c0 = true -> in_alphabet c1 = true ->
      in_alphabet c2 = true -> c2 <> "="%ch ->
      in_alphabet c3 = true -> c3 <> "="%ch ->
      b64_text rest -> b64_text (c0 :: c1 :: c2 :: c3 :: rest)
  | b64_pad1 c0 c1 c2 rest :
      in_alphabet c0 = true -> in_alphabet c1 = true ->
      in_alphabet c2 = true -> c2 <> "="%ch ->
      b64_text (c0 :: c1 :: c2 :: "="%ch :: rest)
  | b64_pad2 c0 c1 c3 rest :
      in_alphabet c0 = true -> in_alphabet c1 = true ->
      b64_text (c0 :: c1 :: "="%ch :: c3 :: rest).

Lemma list_ind4 {A} (P : list A -> Prop) :
  (forall l, (length l < 4)%nat -> P l) ->
  (forall x y z w l, P l -> P (x :: y :: z :: w :: l)) -> forall l, P l.
Proof.
  intros H0 H1 l. induction l as [l IH] using (induction_ltof1 _ length).
  destruct l as [|x [|y [|z [|w l]]]]; try (apply H0; simpl; lia).
  apply H1, IH. unfold ltof. simpl. lia.
Qed.

Lemma decode_loop_accepts inp : (length inp mod 4 = 0)%nat ->
  forall result, (exists out, decode_loop inp result = Some out) <-> b64_text inp.
Proof.
  induction inp as [inp Hs|c0 c1 c2 c3 rest IH] using list_ind4; intros Hlen result.
  { destruct inp as [|? [|? [|? [|]]]]; simpl in *; try lia.
    split; [constructor|eauto]. }
  assert (Hlen' : (length rest mod 4 = 0)%nat).
  { cbn [length] in Hlen. replace (S (S (S (S (length rest)))))%nat
      with (length rest + 1 * 4)%nat in Hlen by lia.
    by rewrite Nat.Div0.mod_add in Hlen. }
  cbn [decode_loop]. split.
  - intros [out H].
    destruct (unb c0 =? INVALID) eqn:E0; [done|].
    destruct (unb c1 =? INVALID) eqn:E1; [done|]. cbn [orb] in H.
    assert (in_alphabet c0 = true) by (unfold in_alphabet; by rewrite E0).
    assert (in_alphabet c1 = true) by (unfold in_alphabet; by rewrite E1).
    destruct (Z.eqb_spec c2 "="%ch) as [->|]; [by constructor|].
    destruct (unb c2 =? INVALID) eqn:E2; [done|].
    assert (in_alphabet c2 = true) by (unfold in_alphabet; by rewrite E2).
    destruct (Z.eqb_spec c3 "="%ch) as [->|]; [by constructor|].
    destruct (unb c3 =? INVALID) eqn:E3; [done|].
    assert (in_alphabet c3 = true) by (unfold in_alphabet; by rewrite E3).
    constructor; try done. eapply IH; eauto.
  - inversion 1; subst; unfold in_alphabet in *;
      repeat match goal with H : negb _ = true |- _ => apply negb_true_iff in H; rewrite H end;
      cbn [orb]; rewrite ?Z.eqb_refl; eauto.
    + rewrite (proj2 (Z.eqb_neq c2 _)), (proj2 (Z.eqb_neq c3 _)) by done. by apply IH.
    + rewrite (proj2 (Z.eqb_neq c2 _)) by done. eauto.
Qed.

End Base64.

Module Hex.

Definition hex_chars : bytes := str "0123456789ABCDEF".

Fixpoint hex_encode_loop (inp : bytes) : bytes :=
  match inp with
  | [] => []
  | ch :: rest =>
      cp hex_chars (Z.to_nat (Z.land (Z.shiftr ch 4) 15)) ::
      cp hex_chars (Z.to_nat (Z.land ch 15)) :: hex_encode_loop rest
  end.

Definition hex_encode (result inp : bytes) : bytes :=
  let result := [] in result ++ hex_encode_loop inp.

(** The value of one hexadecimal digit: the if-else chain of the decoder. *)
Definition hex_digit (hex : Z) : option Z :=
  if (hex >=? "0"%ch) && (hex <=? "9"%ch) then Some (hex - "0"%ch)
  else if (hex >=? "A"%ch) && (hex <=? "F"%ch) then Some (hex - "A"%ch + 10)
  else if (hex >=? "a"%ch) && (hex <=? "f"%ch) then Some (hex - "a"%ch + 10)
  else None.

Fixpoint hex_decode_loop (inp result : bytes) : option bytes :=
  match inp with
  | [] => Some result
  | [_] => None
  | c0 :: c1 :: rest =>
      hi ← hex_digit c0;
      let bin := Z.shiftl hi 4 in
      lo ← hex_digit c1;
      let bin := Z.lor bin lo in
      hex_decode_loop rest (result ++ [u8 bin])
  end.

Definition hex_decode (result inp : bytes) : option bytes :=
  let result := [] in hex_decode_loop inp result.

Lemma hex_digit_range c v : hex_digit c = Some v -> 0 <= v < 16.
Proof.
  unfold hex_digit. rewrite !Z.geb_leb.
  repeat case_match; intros [= <-]; zb; lia.
Qed.

Lemma hex_digit_chars v : 0 <= v < 16 -> hex_digit (cp hex_chars (Z.to_nat v)) = Some v.
Proof.
  intros Hv. assert (v ∈ seqZ 0 16) as H%list_elem_of_In by (apply elem_of_seqZ; lia).
  cbv in H. intuition subst; reflexivity.
Qed.

Lemma nibbles hi lo : 0 <= hi < 16 -> 0 <= lo < 16 ->
  u8 (Z.lor (Z.shiftl hi 4) lo) = hi * 16 + lo.
Proof. intros ??. rewrite u8_mod, lor_shiftl by plia. plia. Qed.

Lemma nibble_hi ch : is_byte ch -> Z.land (Z.shiftr ch 4) 15 = ch / 16.
Proof.
  intros H. zb. rewrite Z.shiftr_div_pow2 by lia.
  transitivity ((ch / 2 ^ 4) mod 2 ^ 4); [apply (land_mask _ 4); lia|plia].
Qed.

Lemma nibble_lo ch : Z.land ch 15 = ch mod 16.
Proof. apply (land_mask _ 4). lia. Qed.

Lemma hex_decode_encode_loop inp : Forall is_byte inp ->
  forall result, hex_decode_loop (hex_encode_loop inp) result = Some (result ++ inp).
Proof.
  induction 1 as [|ch inp Hch _ IH]; intros result; cbn [hex_encode_loop hex_decode_loop].
  { by rewrite app_nil_r. }
  rewrite nibble_hi, nibble_lo by done. zb.
  rewrite !hex_digit_chars by plia. cbn [mbind option_bind].
  rewrite nibbles by plia. rewrite IH, <- app_assoc. simpl. do 2 f_equal. list_plia.
Qed.

(** What hex_decode() computes on any input: pairs of hexadecimal digits. *)
Fixpoint hex_pairs (inp : bytes) : option bytes :=
  match inp with
  | [] => Some []
  | [_] => None
  | c0 :: c1 :: rest =>
      match hex_digit c0, hex_digit c1, hex_pairs rest with
      | Some hi, Some lo, Some out => Some (hi * 16 + lo :: out)
      | _, _, _ => None
      end
  end.

Lemma list_ind2 {A} (P : list A -> Prop) :
  P [] -> (forall x, P [x]) -> (forall x y l, P l -> P (x :: y :: l)) -> forall l, P l.
Proof.
  intros H0 H1 H2. fix IH 1. intros [|x [|y l]]; [exact H0|exact (H1 x)|exact (H2 x y l (IH l))].
Qed.

Lemma hex_decode_loop_pairs inp : forall result,
  hex_decode_loop inp result = (fun out => result ++ out) <$> hex_pairs inp.
Proof.
  induction inp as [|x|c0 c1 rest IH] using list_ind2; intros result; cbn.
  - by rewrite app_nil_r.
  - done.
  - destruct (hex_digit c0) as [hi|] eqn:Hhi; [|done]. cbn.
    destruct (hex_digit c1) as [lo|] eqn:Hlo; [|done]. cbn.
    apply hex_digit_range in Hhi, Hlo. rewrite IH, nibbles by done.
    destruct (hex_pairs rest); [|done]. cbn. by rewrite <- app_assoc.
Qed.

End Hex.

Module Xtext.

(** [strchr(special, ch) != 0] for a non-null [ch]. *)
Definition strchr (s : bytes) (c : Z) : bool := existsb (Z.eqb c) s.

(** The conversion "+%02X" of vstring_sprintf_append(). *)
Definition plus_hex (ch : Z) : bytes :=
  ["+"%ch; cp Hex.hex_chars (Z.to_nat (ch / 16)); cp Hex.hex_chars (Z.to_nat (ch mod 16))].

Fixpoint xtext_quote_append (quoted unquoted special : bytes) : bytes :=
  match unquoted with
  | [] => quoted
  | ch :: unquoted =>
      if negb (ch =? "+"%ch) && (ch >? 32) && (ch <? 127)
         && ((cp special 0 =? 0) || negb (strchr special ch))
      then xtext_quote_append (quoted ++ [ch]) unquoted special
      else xtext_quote_append (quoted ++ plus_hex ch) unquoted special
  end.

Definition xtext_quote (quoted unquoted special : bytes) : bytes :=
  let quoted := [] in xtext_quote_append quoted unquoted special.

(** The two if-else chains of the decoder; [None] is the null result. *)
Definition xdigit (c : Z) : option Z :=
  if ISDIGIT c then Some (c - "0"%ch)
  else if (c >=? "a"%ch) && (c <=? "f"%ch) then Some (c - "a"%ch + 10)
  else if (c >=? "A"%ch) && (c <=? "F"%ch) then Some (c - "A"%ch + 10)
  else None.

(** The pointer [cp] is the rest of the quoted string: [cp[1]] and [cp[2]] read
    the terminator when the string ends, and [cp += 2] skips two characters. *)
Fixpoint xtext_unquote_append (unquoted quoted : bytes) : option bytes :=
  match quoted with
  | [] => Some unquoted
  | ch :: rest =>
      if ch =? "+"%ch then
        hi ← xdigit (cp rest 0);
        let ch := Z.shiftl hi 4 in
        lo ← xdigit (cp rest 1);
        let ch := Z.lor ch lo in
        match rest with
        | _ :: _ :: rest => xtext_unquote_append (unquoted ++ [u8 ch]) rest
        | _ => None
        end
      else xtext_unquote_append (unquoted ++ [u8 ch]) rest
  end.

Definition xtext_unquote (unquoted quoted : bytes) : option bytes :=
  let unquoted := [] in xtext_unquote_append unquoted quoted.

Lemma xdigit_chars v : 0 <= v < 16 -> xdigit (cp Hex.hex_chars (Z.to_nat v)) = Some v.
Proof.
  intros Hv. assert (v ∈ seqZ 0 16) as H%list_elem_of_In by (apply elem_of_seqZ; lia).
  cbv in H. intuition subst; reflexivity.
Qed.

Lemma quote_append_acc special s : forall acc,
  xtext_quote_append acc s special = acc ++ xtext_quote_append [] s special.
Proof.
  induction s as [|c s IH]; intros acc; cbn [xtext_quote_append]; [by rewrite app_nil_r|].
  case_match; rewrite IH; rewrite (IH (_ ++ _)), <- app_assoc; done.
Qed.

Lemma unquote_quote_append special s : Forall is_cchar s -> forall acc,
  xtext_unquote_append acc (xtext_quote_append [] s special) = Some (acc ++ s).
Proof.
  induction 1 as [|c s Hc _ IH]; intros acc; cbn [xtext_quote_append].
  { by rewrite app_nil_r. }
  case_match eqn:Hq; rewrite quote_append_acc; cbn [app].
  - cbn [xtext_unquote_append]. zb.
    rewrite (proj2 (Z.eqb_neq c _)) by done. rewrite IH, <- app_assoc, u8_mod. simpl.
    do 2 f_equal. list_plia.
  - unfold plus_hex. cbn [app xtext_unquote_append]. rewrite Z.eqb_refl.
    cbn [cp nth]. zb. rewrite !xdigit_chars by plia. cbn [mbind option_bind].
    rewrite Hex.nibbles by plia. rewrite IH, <- app_assoc. simpl. do 2 f_equal. list_plia.
Qed.

(** The characters that RFC 3461 xtext may contain: printable ASCII except "=",
    here with "+" only as the escape character. *)
Definition xchar (special : bytes) (c : Z) : bool :=
  (33 <=? c) && (c <=? 126) && negb (strchr special c).

Lemma quote_append_xchar special s :
  Forall is_cchar special ->
  (forall c, In c (str "+0123456789ABCDEF") -> ~ In c special) ->
  Forall is_cchar s ->
  forallb (xchar special) (xtext_quote_append [] s special) = true.
Proof.
  intros Hcs Hsp. assert (Hok : forall c, In c (str "+0123456789ABCDEF") -> xchar special c = true).
  { intros c Hc. unfold xchar. specialize (Hsp c Hc). apply andb_true_iff. split.
    - cbv in Hc. intuition subst; reflexivity.
    - apply negb_true_iff, not_true_is_false. unfold strchr. rewrite existsb_exists.
      intros (x & Hx & ->%Z.eqb_eq). contradiction. }
  induction 1 as [|c s Hc _ IH]; cbn [xtext_quote_append]; [done|].
  case_match eqn:Hq; rewrite quote_append_acc, forallb_app, IH, andb_true_r; cbn [forallb app].
  - rewrite andb_true_r. apply andb_true_iff in Hq as [Hq Hs]. unfold xchar.
    rewrite Z.gtb_ltb in Hq. zb.
    apply andb_true_iff; split; [apply andb_true_iff; split; apply Z.leb_le; lia|].
    destruct special as [|x special]; [done|]. apply Forall_cons in Hcs as [Hx _].
    cbn [cp nth] in Hs. rewrite (proj2 (Z.eqb_neq x 0)) in Hs by (zb; lia).
    destruct Hs as [Hs|Hs]; [discriminate|exact Hs].
  - unfold plus_hex. cbn [forallb]. rewrite !andb_true_iff. zb.
    assert (Hx : forall v, 0 <= v < 16 -> In (cp Hex.hex_chars (Z.to_nat v)) (str "+0123456789ABCDEF")).
    { intros v Hv. right. apply nth_In. cbn. lia. }
    repeat split; apply Hok; [by left|apply Hx; plia..].
Qed.

End Xtext.

(** base64_decode() is the inverse of base64_encode(), for every block of
    bytes and every previous contents of the result buffers. *)
Theorem base64_roundtrip (inp old1 old2 : bytes) :
  Forall is_byte inp ->
  Base64.base64_decode old2 (Base64.base64_encode old1 inp) = Some inp.
Proof.
  intros Hin. unfold Base64.base64_decode, Base64.base64_decode_opt.
  change (Base64.base64_encode old1 inp) with (Base64.encode_loop inp).
  rewrite Base64.encode_loop_length. apply (Base64.decode_encode_loop inp Hin []).
Qed.

Lemma base64_roundtrip_witness :
  Base64.base64_decode [] (Base64.base64_encode [] [0; 255; 16; 98]) = Some [0; 255; 16; 98].
Proof.
  apply (base64_roundtrip [0; 255; 16; 98] [] []).
  repeat constructor; unfold is_byte; lia.
Defined.

(** base64_decode() accepts exactly the texts whose length is a multiple of
    four and that consist of quartets of alphabet characters up to the end or up
    to the first padded quartet; what follows a padded quartet is not looked at. *)
Theorem base64_decode_accepts (inp old : bytes) :
  (exists out, Base64.base64_decode old inp = Some out) <->
  (length inp mod 4 = 0)%nat /\ Base64.b64_text inp.
Proof.
  unfold Base64.base64_decode, Base64.base64_decode_opt.
  destruct (Z.eqb_spec (Z.rem (Z.of_nat (length inp)) 4) 0) as [Hl|Hl]; cbn [negb].
  - assert ((length inp mod 4 = 0)%nat) by plia.
    rewrite (Base64.decode_loop_accepts inp) by done. tauto.
  - split; [intros [? [=]]|intros [? _]; plia].
Qed.

(** The documentation promises a null result for a character outside the
    alphabet; after padding such characters go unnoticed. *)
Lemma base64_decode_garbage_after_pad :
  Base64.base64_decode [] (str "YQ==!!!!") = Some (str "a").
Proof. vm_compute. reflexivity. Qed.

(** hex_decode() returns the bytes of the digit pairs, lower or upper case,
    and null exactly when a digit is missing or not hexadecimal; in particular it
    is the inverse of hex_encode(). *)
Theorem hex_roundtrip (inp text old1 old2 : bytes) :
  Forall is_byte inp ->
  Hex.hex_decode old2 (Hex.hex_encode old1 inp) = Some inp /\
  Hex.hex_decode old2 text = Hex.hex_pairs text.
Proof.
  intros Hin. split.
  - apply (Hex.hex_decode_encode_loop inp Hin []).
  - unfold Hex.hex_decode. rewrite Hex.hex_decode_loop_pairs. by destruct (Hex.hex_pairs text).
Qed.

Lemma hex_roundtrip_witness :
  Hex.hex_decode [] (Hex.hex_encode [] [0; 171; 255]) = Some [0; 171; 255] /\
  Hex.hex_decode [] (str "4a4G") = None.
Proof.
  apply (hex_roundtrip [0; 171; 255] (str "4a4G") [] []).
  repeat constructor; unfold is_byte; lia.
Defined.

(** xtext_unquote() undoes xtext_quote() on every C string, whatever the set
    of special characters, and when the specials exclude "+" and the hexadecimal
    digits the quoted text is printable ASCII without any special character. *)
Theorem xtext_roundtrip (s special old1 old2 : bytes) :
  Forall is_cchar s -> Forall is_cchar special ->
  Xtext.xtext_unquote old2 (Xtext.xtext_quote old1 s special) = Some s /\
  ((forall c, In c (str "+0123456789ABCDEF") -> ~ In c special) ->
   forallb (Xtext.xchar special) (Xtext.xtext_quote old1 s special) = true).
Proof.
  intros Hs Hsp. split.
  - by apply (Xtext.unquote_quote_append special s Hs []).
  - intros Hd. by apply Xtext.quote_append_xchar.
Qed.

Lemma xtext_roundtrip_witness :
  Xtext.xtext_unquote [] (Xtext.xtext_quote [] (str "a+b c=") (str "=")) = Some (str "a+b c=") /\
  forallb (Xtext.xchar (str "=")) (Xtext.xtext_quote [] (str "a+b c=") (str "=")) = true.
Proof.
  destruct (xtext_roundtrip (str "a+b c=") (str "=") [] []) as [H1 H2];
    [repeat constructor; unfold is_cchar; lia..|].
  split; [exact H1|apply H2]. intros c Hc Hin. cbv in Hc, Hin. lia.
Defined.
