(* ===== verification/QueueId.v ===== *)
(** Queue identifiers and queue file paths: safe_ultostr.c, the MQID macros of
    mail_queue.h, and the path construction of mail_queue.c (src/src/global)
    with dir_forest.c (src/src/util). *)

From S2P Require Import Prelude Codec.

(** ** safe_ultostr.c: numbers in an alphabet without vowels *)

Module SafeUltostr.

Definition safe_chars : bytes :=
  str "0123456789BCDFGHJKLMNPQRSTVWXYZbcdfghjklmnpqrstvwxyz".
Definition SAFE_MAX_BASE : Z := 52.
Definition SAFE_MIN_BASE : Z := 2.
Definition ULONG_MAX : Z := 2 ^ 64 - 1.

(** errno values *)
Definition EINVAL : Z := 22.
Definition ERANGE : Z := 34.

(** [while (ulval != 0)]: one character per digit, least significant first.
    An unsigned long has at most 64 digits in any base from 2 up. *)
Fixpoint digits_loop (fuel : nat) (ulval base : Z) (buf : bytes) : bytes :=
  match fuel with
  | O => buf
  | S fuel =>
      if ulval =? 0 then buf
      else digits_loop fuel (ulval / base) base
             (buf ++ [cp safe_chars (Z.to_nat (ulval mod base))])
  end.

(** [while (VSTRING_LEN(buf) < padlen) VSTRING_ADDCH(buf, padchar)] *)
Definition pad_loop (buf : bytes) (padlen padchar : Z) : bytes :=
  buf ++ replicate (Z.to_nat (padlen - Z.of_nat (length buf))) padchar.

(** [SWAP(int, start[i], last[-i])] *)
Definition swap_ends (buf : bytes) (i : nat) : bytes :=
  let j := (length buf - 1 - i)%nat in
  let temp := cp buf i in
  let buf := <[i := cp buf j]> buf in
  <[j := temp]> buf.

Fixpoint reverse_loop (count i : nat) (buf : bytes) : bytes :=
  match count with
  | O => buf
  | S count => reverse_loop count (S i) (swap_ends buf i)
  end.

Definition safe_ultostr (ulval base padlen padchar : Z) : outcome bytes :=
  if (base <? SAFE_MIN_BASE) || (base >? SAFE_MAX_BASE) then Panic else
  let buf := digits_loop 64 ulval base [] in
  let buf := pad_loop buf padlen padchar in
  Ret (reverse_loop (length buf / 2) 0 buf).

(** The one-time initialization of the character map. *)
Definition char_map : list Z :=
  foldl (fun tab i => <[Z.to_nat (cp safe_chars i) := Z.of_nat i]> tab)
    (replicate 256 SAFE_MAX_BASE) (seq 0 52).

Definition char_val (c : Z) : Z := nth (Z.to_nat c) char_map SAFE_MAX_BASE.
#[global] Arguments char_val : simpl never.

Fixpoint skip_space (start : bytes) : bytes :=
  match start with
  | c :: rest => if ISSPACE c then skip_space rest else start
  | [] => []
  end.

(** [while (char_map[*++cp] < base)], started after the current character.
    The terminator is never a digit: its map entry is SAFE_MAX_BASE. *)
Fixpoint skip_digits (base : Z) (s : bytes) : bytes :=
  match s with
  | c :: rest => if char_val c <? base then skip_digits base rest else s
  | [] => []
  end.

(** The conversion loop: the sum, errno, and the final value of [cp]. *)
Fixpoint convert_loop (base : Z) (s : bytes) (sum : Z) : Z * Z * bytes :=
  match s with
  | [] => (sum, 0, [])
  | c :: rest =>
      let v := char_val c in
      if v <? base then
        let div_limit := ULONG_MAX / base in
        let mod_limit := ULONG_MAX mod base in
        if (sum >? div_limit) || ((sum =? div_limit) && (v >? mod_limit))
        then (ULONG_MAX, ERANGE, skip_digits base rest)
        else convert_loop base rest ((sum * base + v) mod 2 ^ 64)
      else (sum, 0, s)
  end.

(** The result, errno, and the rest of the input at [*end]. *)
Definition safe_strtoul (start : bytes) (base : Z) : outcome (Z * Z * bytes) :=
  if (base <? SAFE_MIN_BASE) || (base >? SAFE_MAX_BASE) then Panic else
  let cp0 := skip_space start in
  let '(sum, errno, cp) := convert_loop base cp0 0 in
  if (length cp =? length cp0)%nat then Ret (sum, EINVAL, start)
  else Ret (sum, errno, cp).

(** *** The specification: the number that a digit string denotes *)

Definition is_digit (base c : Z) : bool := char_val c <? base.

Fixpoint digit_prefix (base : Z) (s : bytes) : bytes :=
  match s with
  | c :: rest => if is_digit base c then c :: digit_prefix base rest else []
  | [] => []
  end.

Definition value_from (base : Z) (acc : Z) (ds : bytes) : Z :=
  foldl (fun acc c => acc * base + char_val c) acc ds.
Definition value (base : Z) (ds : bytes) : Z := value_from base 0 ds.

(** *** Lemmas *)

Definition chars_ok (i : nat) : bool :=
  (char_val (cp safe_chars i) =? Z.of_nat i) && ISALNUM (cp safe_chars i).

Lemma safe_chars_spec i : 0 <= i < 52 ->
  char_val (cp safe_chars (Z.to_nat i)) = i /\
  ISALNUM (cp safe_chars (Z.to_nat i)) = true.
Proof.
  intros Hi. assert (H : chars_ok (Z.to_nat i) = true).
  { apply (Base64.seq_forall chars_ok 52); [vm_compute; reflexivity|lia]. }
  unfold chars_ok in H. apply andb_true_iff in H as [H ->]. zb. split; [lia|done].
Qed.

Lemma char_val_nonneg c : 0 <= char_val c.
Proof.
  unfold char_val. destruct (nth_in_or_default (Z.to_nat c) char_map SAFE_MAX_BASE) as [H| ->];
    [|done].
  assert (Hall : forallb (fun v => 0 <=? v) char_map = true) by (vm_compute; reflexivity).
  rewrite forallb_forall in Hall. specialize (Hall _ H). zb. done.
Qed.

Lemma length_swap_ends buf i : length (swap_ends buf i) = length buf.
Proof. unfold swap_ends. by rewrite !length_insert. Qed.

Lemma lookup_swap_ends buf i k :
  (i < length buf / 2)%nat ->
  swap_ends buf i !! k =
    (if decide (k = i \/ k = (length buf - 1 - i)%nat)
     then buf !! (length buf - 1 - k)%nat else buf !! k).
Proof.
  intros Hi. set (n := length buf) in *.
  assert (Hn : (n / 2 * 2 <= n)%nat) by plia.
  assert (Hcp : forall j, (j < n)%nat -> buf !! j = Some (cp buf j)).
  { intros j Hj. unfold cp. destruct (nth_lookup_or_length buf j 0); [done|unfold n in *; lia]. }
  unfold swap_ends. fold n. rewrite list_lookup_insert, length_insert, list_lookup_insert. fold n.
  repeat case_decide; try lia.
  all: try done.
  all: rewrite Hcp by lia; do 2 f_equal; lia.
Qed.

Lemma length_reverse_loop count : forall i buf, length (reverse_loop count i buf) = length buf.
Proof. induction count; intros i buf; simpl; [done|]. by rewrite IHcount, length_swap_ends. Qed.

(** Each swap mirrors one pair of positions; together they mirror all. *)
Lemma lookup_reverse_loop count : forall i buf k,
  (i + count <= length buf / 2)%nat -> (k < length buf)%nat ->
  reverse_loop count i buf !! k =
    (if decide ((i <= k < i + count) \/ (i <= length buf - 1 - k < i + count))%nat
     then buf !! (length buf - 1 - k)%nat else buf !! k).
Proof.
  induction count as [|count IH]; intros i buf k Hi Hk; simpl.
  { case_decide; [lia|done]. }
  assert (Hn : (length buf / 2 * 2 <= length buf)%nat) by plia.
  rewrite IH by (rewrite length_swap_ends; lia).
  rewrite length_swap_ends, !lookup_swap_ends by lia.
  repeat case_decide; try lia; try done; f_equal; lia.
Qed.

Lemma reverse_loop_spec buf : reverse_loop (length buf / 2) 0 buf = reverse buf.
Proof.
  apply list_eq. intros k. destruct (decide (k < length buf)%nat) as [Hk|Hk].
  - rewrite lookup_reverse_loop, reverse_lookup by lia.
    assert (Hn : (length buf / 2 * 2 <= length buf <= length buf / 2 * 2 + 1)%nat) by plia.
    case_decide; f_equal; lia.
  - rewrite !lookup_ge_None_2; [done| |]; rewrite ?length_reverse, ?length_reverse_loop; lia.
Qed.

(** The digits, least significant first, without the accumulator. *)
Fixpoint digits_lsb (fuel : nat) (v base : Z) : bytes :=
  match fuel with
  | O => []
  | S fuel =>
      if v =? 0 then []
      else cp safe_chars (Z.to_nat (v mod base)) :: digits_lsb fuel (v / base) base
  end.

Lemma digits_lsb_nil fuel v base : length (digits_lsb (S fuel) v base) = 0%nat <-> v = 0.
Proof. cbn. destruct (Z.eqb_spec v 0); cbn; split; lia. Qed.

Lemma digits_loop_lsb fuel base : forall v buf,
  digits_loop fuel v base buf = buf ++ digits_lsb fuel v base.
Proof.
  induction fuel; intros v buf; simpl; [by rewrite app_nil_r|].
  case_match; [by rewrite app_nil_r|]. by rewrite IHfuel, <- app_assoc.
Qed.

Lemma value_from_app base acc l1 l2 :
  value_from base acc (l1 ++ l2) = value_from base (value_from base acc l1) l2.
Proof. apply foldl_app. Qed.

Lemma value_zeros base n ds : value base (replicate n "0"%ch ++ ds) = value base ds.
Proof.
  unfold value. rewrite value_from_app. f_equal.
  induction n; [done|]. simpl. rewrite <- IHn at 2. done.
Qed.

Lemma digits_lsb_value fuel base : 2 <= base <= 52 -> forall v,
  0 <= v < 2 ^ Z.of_nat fuel -> value base (reverse (digits_lsb fuel v base)) = v.
Proof.
  intros Hb. induction fuel as [|fuel IH]; intros v Hv; simpl.
  { change (2 ^ Z.of_nat 0) with 1 in Hv. cbn. lia. }
  rewrite Nat2Z.inj_succ, Z.pow_succ_r in Hv by lia.
  destruct (Z.eqb_spec v 0) as [->|Hv0]; [done|].
  assert (Hm : 0 <= v mod base < base) by (apply Z.mod_pos_bound; lia).
  pose proof (Z.div_mod v base ltac:(lia)) as Hdm.
  rewrite reverse_cons. unfold value. rewrite value_from_app. fold (value base (reverse (digits_lsb fuel (v / base) base))).
  rewrite IH by (split; [apply Z.div_pos|apply Z.div_lt_upper_bound]; nia).
  unfold value_from. cbn [foldl].
  rewrite (proj1 (safe_chars_spec (v mod base) ltac:(lia))). lia.
Qed.

Lemma digits_lsb_digits fuel base : 2 <= base <= 52 -> forall v, 0 <= v ->
  Forall (fun c => is_digit base c = true /\ ISALNUM c = true) (digits_lsb fuel v base).
Proof.
  intros Hb. induction fuel as [|fuel IH]; intros v Hv; simpl; [constructor|].
  case_match; [constructor|].
  assert (Hm : 0 <= v mod base < base) by (apply Z.mod_pos_bound; lia).
  destruct (safe_chars_spec (v mod base) ltac:(lia)) as [H1 H2].
  constructor; [|apply IH, Z.div_pos; lia].
  split; [|done]. unfold is_digit. rewrite H1. apply Z.ltb_lt. lia.
Qed.

(** The text safe_ultostr() produces: padding, then the digits. *)
Definition ultostr_text (v base padlen : Z) : bytes :=
  let ds := digits_lsb 64 v base in
  replicate (Z.to_nat (padlen - Z.of_nat (length ds))) "0"%ch ++ reverse ds.

Lemma safe_ultostr_text v base padlen : 2 <= base <= 52 ->
  safe_ultostr v base padlen "0"%ch = Ret (ultostr_text v base padlen).
Proof.
  intros Hb. unfold safe_ultostr, SAFE_MIN_BASE, SAFE_MAX_BASE.
  rewrite Z.gtb_ltb, (proj2 (Z.ltb_ge base 2)), (proj2 (Z.ltb_ge 52 base)) by lia.
  cbn [orb]. rewrite reverse_loop_spec, digits_loop_lsb. unfold pad_loop, ultostr_text.
  rewrite app_nil_l, reverse_app, reverse_replicate. done.
Qed.

Lemma ultostr_text_digits v base padlen : 2 <= base <= 52 -> 0 <= v ->
  Forall (fun c => is_digit base c = true /\ ISALNUM c = true) (ultostr_text v base padlen).
Proof.
  intros Hb Hv. unfold ultostr_text. apply Forall_app. split.
  - apply Forall_replicate. split; [|done]. unfold is_digit. apply Z.ltb_lt.
    change (char_val "0"%ch) with 0. lia.
  - apply Forall_reverse. by apply digits_lsb_digits.
Qed.

Lemma ultostr_text_value v base padlen : 2 <= base <= 52 -> 0 <= v <= ULONG_MAX ->
  value base (ultostr_text v base padlen) = v.
Proof.
  intros Hb Hv. unfold ultostr_text. rewrite value_zeros. apply digits_lsb_value; [done|].
  unfold ULONG_MAX in Hv. change (Z.of_nat 64) with 64. lia.
Qed.

Lemma value_from_mono base ds : 2 <= base -> forall acc, 0 <= acc -> acc <= value_from base acc ds.
Proof.
  intros Hb. induction ds as [|c ds IH]; intros acc Ha; [cbn; lia|].
  pose proof (char_val_nonneg c). change (value_from base acc (c :: ds))
    with (value_from base (acc * base + char_val c) ds).
  etransitivity; [|apply IH; nia]. nia.
Qed.

Lemma overflow_test base sum v : 2 <= base -> 0 <= sum -> 0 <= v < base ->
  (ULONG_MAX / base <? sum) || ((sum =? ULONG_MAX / base) && (ULONG_MAX mod base <? v))
  = (ULONG_MAX <? sum * base + v).
Proof.
  intros Hb Hs Hv. pose proof (Z.div_mod ULONG_MAX base ltac:(lia)) as Hdm.
  pose proof (Z.mod_pos_bound ULONG_MAX base ltac:(lia)) as Hm.
  generalize dependent (ULONG_MAX mod base). generalize dependent (ULONG_MAX / base).
  intros q m Hdm r.
  destruct (Z.ltb_spec ULONG_MAX (sum * base + v)), (Z.ltb_spec q sum), (Z.eqb_spec sum q),
    (Z.ltb_spec m v); try done; nia.
Qed.

Lemma convert_loop_spec base : 2 <= base <= 52 -> forall s sum, 0 <= sum <= ULONG_MAX ->
  convert_loop base s sum =
    (let v := value_from base sum (digit_prefix base s) in
     if v >? ULONG_MAX then (ULONG_MAX, ERANGE, skip_digits base s)
     else (v, 0, skip_digits base s)).
Proof.
  intros Hb. induction s as [|c s IH]; intros sum Hsum;
    cbn [convert_loop digit_prefix skip_digits]; cbv zeta; rewrite !Z.gtb_ltb.
  { change (value_from base sum []) with sum. by rewrite (proj2 (Z.ltb_ge ULONG_MAX sum)) by lia. }
  unfold is_digit. destruct (Z.ltb_spec (char_val c) base) as [Hc|Hc].
  - pose proof (char_val_nonneg c).
    change (value_from base sum (c :: digit_prefix base s))
      with (value_from base (sum * base + char_val c) (digit_prefix base s)).
    rewrite overflow_test by lia.
    destruct (Z.ltb_spec ULONG_MAX (sum * base + char_val c)) as [Ho|Ho].
    + assert (sum * base + char_val c <=
              value_from base (sum * base + char_val c) (digit_prefix base s))
        by (apply value_from_mono; nia).
      by rewrite (proj2 (Z.ltb_lt ULONG_MAX _)) by lia.
    + assert (0 <= sum * base + char_val c) by nia.
      rewrite Z.mod_small by (unfold ULONG_MAX in *; lia).
      rewrite IH by lia. cbn zeta. by rewrite Z.gtb_ltb.
  - change (value_from base sum []) with sum.
    by rewrite (proj2 (Z.ltb_ge ULONG_MAX sum)) by lia.
Qed.

Lemma digit_prefix_all base ds rest :
  Forall (fun c => is_digit base c = true) ds ->
  digit_prefix base (ds ++ rest) = ds ++ digit_prefix base rest /\
  skip_digits base (ds ++ rest) = skip_digits base rest.
Proof.
  induction 1 as [|c ds Hc _ [IH1 IH2]]; [done|]. cbn. unfold is_digit in *. rewrite Hc.
  by rewrite IH1, IH2.
Qed.

Lemma skip_digits_length base s :
  (length (skip_digits base s) + length (digit_prefix base s) = length s)%nat.
Proof. induction s as [|c s IH]; cbn; [done|]. unfold is_digit. case_match; cbn; lia. Qed.

Lemma skip_digits_drop base s : skip_digits base s = drop (length (digit_prefix base s)) s.
Proof. induction s as [|c s IH]; cbn; [done|]. unfold is_digit. by case_match. Qed.

Lemma digit_prefix_length base s : (length (digit_prefix base s) <= length s)%nat.
Proof. pose proof (skip_digits_length base s). lia. Qed.

Lemma skip_space_digit base s c rest :
  s = c :: rest -> is_digit base c = true -> base <= 52 -> skip_space s = s.
Proof.
  intros -> Hd Hb. cbn. destruct (ISSPACE c) eqn:Hsp; [exfalso|done].
  assert (Hc : c = 32 \/ 9 <= c <= 13).
  { zb. destruct Hsp as [Hsp|Hsp]; zb; lia. }
  assert (c ∈ [32; 9; 10; 11; 12; 13]) as Hin.
  { rewrite !elem_of_cons. lia. }
  unfold is_digit in Hd. apply Z.ltb_lt in Hd.
  apply list_elem_of_In in Hin. simpl in Hin.
  assert (char_val c = 52); [|lia]. intuition subst; reflexivity.
Qed.

End SafeUltostr.

(** ** mail_queue.h, mail_queue.c: queue file names *)

Module MailQueue.
Import SafeUltostr.

Definition MQID_LG_SEC_BASE : Z := 52.
Definition MQID_LG_SEC_PAD : Z := 6.
Definition MQID_LG_USEC_BASE : Z := 52.
Definition MQID_LG_USEC_PAD : Z := 4.
Definition MQID_LG_TIME_PAD : Z := MQID_LG_SEC_PAD + MQID_LG_USEC_PAD.
Definition MQID_LG_INUM_SEP : Z := "z"%ch.
Definition MQID_LG_INUM_BASE : Z := 51.
Definition MQID_LG_INUM_PAD : Z := 0.
Definition VALID_HOSTNAME_LEN : Z := 255.

Definition MQID_LG_ENCODE (val base padlen : Z) : outcome bytes :=
  safe_ultostr val base padlen "0"%ch.

(** The value, and whether the text is malformed. *)
Definition MQID_LG_DECODE (s : bytes) (base : Z) : outcome (Z * bool) :=
  r ← safe_strtoul s base;
  let '(ulval, errno, end_) := r in
  Ret (ulval, negb (cp end_ 0 =? 0) || ((ulval =? ULONG_MAX) && (errno =? ERANGE))).

(** The index of the last occurrence. *)
Fixpoint strrchr (s : bytes) (c : Z) : option nat :=
  match s with
  | [] => None
  | x :: rest =>
      match strrchr rest c with
      | Some n => Some (S n)
      | None => if x =? c then Some O else None
      end
  end.

Definition MQID_FIND_LG_INUM_SEPARATOR (path : bytes) : option nat :=
  match strrchr path MQID_LG_INUM_SEP with
  | Some n => if Z.of_nat n >=? MQID_LG_TIME_PAD then Some n else None
  | None => None
  end.

(** get_file_id_st() with long_flag set: the encoded inode number. *)
Definition get_file_id_long (st_ino : Z) : outcome bytes :=
  MQID_LG_ENCODE st_ino MQID_LG_INUM_BASE MQID_LG_INUM_PAD.

(** The long queue ID that mail_queue_enter() makes up. *)
Definition mail_queue_long_id (tv_sec tv_usec st_ino : Z) : outcome bytes :=
  file_id ← get_file_id_long st_ino;
  sec ← MQID_LG_ENCODE tv_sec MQID_LG_SEC_BASE MQID_LG_SEC_PAD;
  usec ← MQID_LG_ENCODE tv_usec MQID_LG_USEC_BASE MQID_LG_USEC_PAD;
  Ret (sec ++ usec ++ [MQID_LG_INUM_SEP] ++ file_id).

(** The conversion "%05X" of a non-negative int. *)
Fixpoint hex_lsb (fuel : nat) (v : Z) : bytes :=
  match fuel with
  | O => []
  | S fuel =>
      if v =? 0 then []
      else cp Hex.hex_chars (Z.to_nat (v mod 16)) :: hex_lsb fuel (v / 16)
  end.
Definition MQID_SH_ENCODE_USEC (usec : Z) : bytes :=
  let ds := hex_lsb 8 (usec mod 2 ^ 32) in
  replicate (5 - length ds) "0"%ch ++ reverse ds.

(** The microsecond field of a long queue ID, in short queue ID form. *)
Definition MQID_LG_GET_HEX_USEC (path : bytes) (zp : nat) : outcome bytes :=
  let field := take (Z.to_nat MQID_LG_USEC_PAD)
                 (drop (zp - Z.to_nat MQID_LG_USEC_PAD) path) in
  r ← MQID_LG_DECODE field MQID_LG_USEC_BASE;
  let '(us_val, error) := r in
  let us_val := if (error : bool) then 0 else us_val in
  Ret (MQID_SH_ENCODE_USEC us_val).

Definition mail_queue_name_ok (queue_name : bytes) : bool :=
  if (cp queue_name 0 =? 0) || (Z.of_nat (length queue_name) >? 100) then false
  else forallb ISALNUM queue_name.

Definition mail_queue_id_ok (queue_id : bytes) : bool :=
  if (cp queue_id 0 =? 0) || (Z.of_nat (length queue_id) >? VALID_HOSTNAME_LEN) then false
  else forallb (fun c => ISALNUM c || (c =? "_"%ch)) queue_id.

Definition TOLOWER (c : Z) : Z := if ISUPPER c then c - "A"%ch + "a"%ch else c.
Definition strcasecmp_eq (s t : bytes) : bool :=
  bool_decide (TOLOWER <$> s = TOLOWER <$> t).

Definition ISPRINT (c : Z) : bool := in_range 32 126 c.

(** The loop of dir_forest(): one directory level per step. *)
Fixpoint dir_forest_loop (n : nat) (cpath buf : bytes) : outcome bytes :=
  match n with
  | O => Ret buf
  | S n =>
      match cpath with
      | [] => dir_forest_loop n [] (buf ++ ["_"%ch; "/"%ch])
      | ch :: rest =>
          if negb (ISPRINT ch) || (ch =? "."%ch) || (ch =? "/"%ch) then Panic
          else dir_forest_loop n rest (buf ++ [ch; "/"%ch])
      end
  end.

Definition dir_forest (path : bytes) (depth : Z) : outcome bytes :=
  if cp path 0 =? 0 then Panic else
  if depth <? 1 then Panic else
  dir_forest_loop (Z.to_nat depth) path [].

Section queue_path.
(** main.cf: hash_queue_names, split into words, and hash_queue_depth. *)
Context (hash_queue_names : list bytes) (var_hash_queue_depth : Z).

Definition mail_queue_dir (queue_name queue_id : bytes) : outcome bytes :=
  if negb (mail_queue_name_ok queue_name) then Panic else
  if negb (mail_queue_id_ok queue_id) then Panic else
  let buf := queue_name ++ ["/"%ch] in
  if existsb (fun name => strcasecmp_eq name queue_name) hash_queue_names then
    queue_id ←
      match MQID_FIND_LG_INUM_SEPARATOR queue_id with
      | Some delim => MQID_LG_GET_HEX_USEC queue_id delim
      | None => Ret queue_id
      end;
    hash ← dir_forest queue_id var_hash_queue_depth;
    Ret (buf ++ hash)
  else Ret buf.

Definition mail_queue_path (queue_name queue_id : bytes) : outcome bytes :=
  dir ← mail_queue_dir queue_name queue_id;
  Ret (dir ++ queue_id).
End queue_path.

(** *** Lemmas *)

Lemma strrchr_app s c t : ~ In c t -> strrchr (s ++ c :: t) c = Some (length s).
Proof.
  intros Ht. assert (Hn : strrchr t c = None).
  { induction t as [|x t IH]; [done|]. cbn. rewrite IH by (intros ?; apply Ht; by right).
    rewrite (proj2 (Z.eqb_neq x c)); [done|]. intros ->. apply Ht. by left. }
  induction s as [|x s IH]; cbn; [by rewrite Hn, Z.eqb_refl|]. by rewrite IH.
Qed.

(** The base 51 alphabet has no separator character. *)
Lemma inum_digits_no_sep v padlen : 0 <= v ->
  ~ In MQID_LG_INUM_SEP (ultostr_text v MQID_LG_INUM_BASE padlen).
Proof.
  intros Hv Hin. pose proof (ultostr_text_digits v 51 padlen ltac:(lia) Hv) as Hall.
  rewrite Forall_forall in Hall. apply list_elem_of_In in Hin.
  destruct (Hall _ Hin) as [H _]. discriminate H.
Qed.

Lemma digits_lsb_length fuel v base : (length (digits_lsb fuel v base) <= fuel)%nat.
Proof. revert v. induction fuel; intros v; cbn; [lia|]. case_match; cbn; [lia|].
  specialize (IHfuel (v / base)). lia.
Qed.

(** A number below base^k has at most k digits. *)
Lemma digits_lsb_short fuel base : 2 <= base -> forall (k : nat) v,
  0 <= v < base ^ Z.of_nat k -> (length (digits_lsb fuel v base) <= k)%nat.
Proof.
  intros Hb. induction fuel as [|fuel IH]; intros k v Hv; cbn; [lia|].
  destruct (Z.eqb_spec v 0); cbn; [lia|].
  destruct k as [|k]; [change (base ^ Z.of_nat 0) with 1 in Hv; lia|].
  rewrite Nat2Z.inj_succ, Z.pow_succ_r in Hv by lia. apply le_n_S, IH.
  split; [apply Z.div_pos|apply Z.div_lt_upper_bound]; lia.
Qed.

Lemma ultostr_text_length v base padlen :
  length (ultostr_text v base padlen) =
    Nat.max (Z.to_nat padlen) (length (digits_lsb 64 v base)).
Proof. unfold ultostr_text. rewrite length_app, length_replicate, length_reverse. lia. Qed.

Lemma strtoul_text v base padlen : 2 <= base <= 52 -> 0 <= v <= ULONG_MAX ->
  let t := ultostr_text v base padlen in
  safe_strtoul t base = Ret (v, (if (length t =? 0)%nat then EINVAL else 0), []).
Proof.
  intros Hb Hv t.
  assert (Hd : Forall (fun c => is_digit base c = true) t).
  { eapply Forall_impl; [apply ultostr_text_digits; lia|tauto]. }
  assert (Hsp : skip_space t = t).
  { destruct t as [|c rest] eqn:E; [done|]. apply Forall_cons in Hd as [Hc _].
    eapply skip_space_digit; [done|exact Hc|lia]. }
  unfold safe_strtoul, SAFE_MIN_BASE, SAFE_MAX_BASE.
  rewrite Z.gtb_ltb, (proj2 (Z.ltb_ge base 2)), (proj2 (Z.ltb_ge 52 base)) by lia.
  cbn [orb]. rewrite Hsp, convert_loop_spec by (unfold ULONG_MAX in *; lia). cbv zeta.
  destruct (digit_prefix_all base t [] Hd) as [Hp Hs]. rewrite app_nil_r in Hp, Hs.
  cbn [digit_prefix skip_digits] in Hp, Hs. rewrite app_nil_r in Hp. rewrite Hp, Hs.
  change (value_from base 0 t) with (value base t). unfold t.
  rewrite ultostr_text_value by (unfold ULONG_MAX in *; lia). fold t.
  rewrite Z.gtb_ltb, (proj2 (Z.ltb_ge ULONG_MAX v)) by lia. cbn [length].
  rewrite Nat.eqb_sym. destruct (Nat.eqb_spec (length t) 0) as [Hl|Hl]; [|done].
  by apply nil_length_inv in Hl as ->.
Qed.

Lemma decode_text v base padlen : 2 <= base <= 52 -> 0 <= v < ULONG_MAX ->
  MQID_LG_DECODE (ultostr_text v base padlen) base = Ret (v, false).
Proof.
  intros Hb Hv. unfold MQID_LG_DECODE. rewrite strtoul_text by lia.
  cbn [mbind outcome_bind cp nth]. by rewrite (proj2 (Z.eqb_neq v ULONG_MAX)) by lia.
Qed.

(** The three fields of a long queue ID. *)
Lemma long_id_text sec usec inum : 
  mail_queue_long_id sec usec inum =
    Ret (ultostr_text sec 52 6 ++ ultostr_text usec 52 4 ++ MQID_LG_INUM_SEP ::
         ultostr_text inum 51 0).
Proof.
  unfold mail_queue_long_id, get_file_id_long, MQID_LG_ENCODE, MQID_LG_INUM_BASE,
    MQID_LG_SEC_BASE, MQID_LG_USEC_BASE.
  by rewrite !safe_ultostr_text by lia.
Qed.

Lemma usec_field_length usec : 0 <= usec < 1000000 ->
  length (ultostr_text usec 52 4) = 4%nat.
Proof.
  intros Hu. rewrite ultostr_text_length.
  pose proof (digits_lsb_short 64 52 ltac:(lia) 4 usec) as H.
  change (52 ^ Z.of_nat 4) with 7311616 in H. lia.
Qed.

Lemma find_separator sec usec inum :
  0 <= usec < 1000000 -> 0 <= inum ->
  let t := ultostr_text sec 52 6 in
  MQID_FIND_LG_INUM_SEPARATOR
    (t ++ ultostr_text usec 52 4 ++ MQID_LG_INUM_SEP :: ultostr_text inum 51 0)
  = Some (length t + 4)%nat.
Proof.
  intros Hu Hi t. unfold MQID_FIND_LG_INUM_SEPARATOR.
  rewrite app_assoc, strrchr_app by (by apply inum_digits_no_sep).
  rewrite length_app, usec_field_length by done. rewrite Z.geb_leb.
  pose proof (ultostr_text_length sec 52 6). fold t in H.
  unfold MQID_LG_TIME_PAD, MQID_LG_SEC_PAD, MQID_LG_USEC_PAD.
  by rewrite (proj2 (Z.leb_le _ _)) by lia.
Qed.

Definition path_char (c : Z) : bool := ISALNUM c || (c =? "_"%ch).

Lemma path_char_forest c : path_char c = true ->
  negb (ISPRINT c) || (c =? "."%ch) || (c =? "/"%ch) = false.
Proof.
  unfold path_char, ISPRINT, ISALNUM, ISALPHA, ISUPPER, ISLOWER, ISDIGIT, in_range. intros H.
  destruct (Z.leb_spec 32 c), (Z.leb_spec c 126), (Z.eqb_spec c 46), (Z.eqb_spec c 47);
    cbn; try done; lia.
Qed.

Lemma dir_forest_loop_ok n : forall cpath buf,
  Forall (fun c => path_char c = true) cpath ->
  exists dirs, length dirs = n /\ Forall (fun c => path_char c = true) dirs /\
    dir_forest_loop n cpath buf = Ret (buf ++ flat_map (fun d => [d; "/"%ch]) dirs).
Proof.
  induction n as [|n IH]; intros cpath buf Hp.
  { exists []. cbn. by rewrite app_nil_r. }
  destruct cpath as [|c rest].
  - destruct (IH [] (buf ++ ["_"%ch; "/"%ch]) Hp) as (dirs & Hl & Hd & He).
    exists ("_"%ch :: dirs). cbn [dir_forest_loop flat_map length]. rewrite He, <- app_assoc.
    split; [lia|]. split; [by constructor|done].
  - apply Forall_cons in Hp as [Hc Hp].
    destruct (IH rest (buf ++ [c; "/"%ch]) Hp) as (dirs & Hl & Hd & He).
    exists (c :: dirs). cbn [dir_forest_loop flat_map length].
    rewrite path_char_forest, He, <- app_assoc by done.
    split; [lia|]. split; [by constructor|done].
Qed.

Lemma hex_chars_path v : path_char (cp Hex.hex_chars (Z.to_nat (v mod 16))) = true.
Proof.
  assert (v mod 16 ∈ seqZ 0 16) as H%list_elem_of_In.
  { apply elem_of_seqZ. pose proof (Z.mod_pos_bound v 16). lia. }
  revert H. generalize (v mod 16). intros x H. cbv in H. intuition subst; reflexivity.
Qed.

Lemma usec_hex_ok v :
  let t := MQID_SH_ENCODE_USEC v in
  Forall (fun c => path_char c = true) t /\ cp t 0 <> 0.
Proof.
  assert (Hf : forall fuel w, Forall (fun c => path_char c = true) (hex_lsb fuel w)).
  { induction fuel; intros w; cbn; [constructor|].
    case_match; constructor; [apply hex_chars_path|apply IHfuel]. }
  cbv zeta. assert (Ht : Forall (fun c => path_char c = true) (MQID_SH_ENCODE_USEC v)).
  { apply Forall_app. split; [by apply Forall_replicate|by apply Forall_reverse]. }
  split; [done|].
  assert (Hl : (5 <= length (MQID_SH_ENCODE_USEC v))%nat).
  { unfold MQID_SH_ENCODE_USEC. rewrite length_app, length_replicate, length_reverse. lia. }
  destruct (MQID_SH_ENCODE_USEC v) as [|c t]; [cbn in Hl; lia|].
  apply Forall_cons in Ht as [Hc _]. cbn. intros ->. discriminate Hc.
Qed.

Lemma get_hex_usec_ok path zp : exists v,
  MQID_LG_GET_HEX_USEC path zp = Ret (MQID_SH_ENCODE_USEC v).
Proof.
  unfold MQID_LG_GET_HEX_USEC, MQID_LG_DECODE, safe_strtoul. cbn -[convert_loop skip_space].
  destruct (convert_loop _ _ 0) as [[sum errno] rest].
  case_match; cbn; eexists; reflexivity.
Qed.

Lemma long_id_ok sec usec inum : 0 <= sec -> 0 <= usec -> 0 <= inum ->
  mail_queue_id_ok (ultostr_text sec 52 6 ++ ultostr_text usec 52 4 ++ MQID_LG_INUM_SEP ::
                    ultostr_text inum 51 0) = true.
Proof.
  intros Hs Hu Hi. unfold mail_queue_id_ok.
  assert (Hc : forall v base padlen, 2 <= base <= 52 -> 0 <= v ->
    forallb (fun c => ISALNUM c || (c =? "_"%ch)) (ultostr_text v base padlen) = true).
  { intros v base padlen Hb Hv. apply forallb_forall. intros c Hin%list_elem_of_In.
    pose proof (ultostr_text_digits v base padlen Hb Hv) as Hall.
    rewrite Forall_forall in Hall. destruct (Hall c Hin) as [_ ->]. done. }
  rewrite !forallb_app. cbn [forallb]. rewrite !Hc by lia.
  rewrite !length_app. cbn [length]. rewrite !ultostr_text_length.
  pose proof (digits_lsb_length 64 sec 52). pose proof (digits_lsb_length 64 usec 52).
  pose proof (digits_lsb_length 64 inum 51). unfold VALID_HOSTNAME_LEN.
  rewrite Z.gtb_ltb, (proj2 (Z.ltb_ge 255 _)) by lia. rewrite orb_false_r.
  destruct (ultostr_text sec 52 6) as [|c t] eqn:E.
  { apply (f_equal length) in E. rewrite ultostr_text_length in E. cbn [length] in E. lia. }
  cbn [app cp nth]. specialize (Hc sec 52 6 ltac:(lia) Hs). rewrite E in Hc.
  destruct (Z.eqb_spec c 0) as [->|]; [discriminate Hc|done].
Qed.

(** The string that mail_queue_dir() hashes. *)
Lemma hash_key_ok queue_id : mail_queue_id_ok queue_id = true ->
  exists key,
    match MQID_FIND_LG_INUM_SEPARATOR queue_id with
    | Some delim => MQID_LG_GET_HEX_USEC queue_id delim
    | None => Ret queue_id
    end = Ret key /\ Forall (fun c => path_char c = true) key /\ cp key 0 <> 0.
Proof.
  intros Hid. destruct (MQID_FIND_LG_INUM_SEPARATOR queue_id) as [n|].
  - destruct (get_hex_usec_ok queue_id n) as [v ->]. eexists. split; [done|]. apply usec_hex_ok.
  - exists queue_id. split; [done|]. unfold mail_queue_id_ok in Hid.
    destruct (Z.eqb_spec (cp queue_id 0) 0); [discriminate Hid|]. cbn [orb] in Hid.
    destruct (_ >? _); [discriminate Hid|]. split; [|done].
    apply Forall_forall. intros c Hc%list_elem_of_In.
    rewrite forallb_forall in Hid. by apply Hid.
Qed.

End MailQueue.

Import SafeUltostr MailQueue.

(** every unsigned long, written in any base from 2 to 52 with any amount of
    zero padding, is read back by safe_strtoul() from that text followed by
    nothing else; errno is 0, except that the empty text of the number 0 without
    padding is reported as "no conversion" (value 0, EINVAL). *)
Theorem safe_ultostr_roundtrip (v base padlen : Z) :
  2 <= base <= 52 -> 0 <= v <= ULONG_MAX ->
  exists t, safe_ultostr v base padlen "0"%ch = Ret t /\
    Z.of_nat (length t) = Z.max padlen (Z.of_nat (length (digits_lsb 64 v base))) /\
    safe_strtoul t base =
      Ret (v, (if decide (v = 0 /\ padlen <= 0) then EINVAL else 0), []).
Proof.
  intros Hb Hv. exists (ultostr_text v base padlen). split; [by apply safe_ultostr_text|].
  pose proof (ultostr_text_length v base padlen) as Hlen. split; [lia|].
  rewrite strtoul_text by done. do 3 f_equal.
  pose proof (digits_lsb_nil 63 v base) as Hnil.
  set (n := length (digits_lsb 64 v base)) in *.
  case_decide; destruct (Nat.eqb_spec (length (ultostr_text v base padlen)) 0); try done; lia.
Qed.

Lemma safe_ultostr_roundtrip_witness :
  exists t, safe_ultostr 1234567 51 0 "0"%ch = Ret t /\
    Z.of_nat (length t) = Z.max 0 (Z.of_nat (length (digits_lsb 64 1234567 51))) /\
    safe_strtoul t 51 =
      Ret (1234567, (if decide (1234567 = 0 /\ 0 <= 0) then EINVAL else 0), []).
Proof. apply (safe_ultostr_roundtrip 1234567 51 0); [lia|unfold ULONG_MAX; lia]. Defined.

(** what safe_strtoul() computes on any text: it skips white space, takes the
    longest run of digits of the base, and returns its value, or (ULONG_MAX,
    ERANGE) exactly when that value does not fit in an unsigned long; the end
    pointer is after the digits.  Without digits the result is (0, EINVAL) and the
    end pointer is the start.  It panics exactly for a base outside 2..52. *)
Theorem safe_strtoul_spec (s : bytes) (base : Z) :
  safe_strtoul s base =
    if (base <? 2) || (52 <? base) then Panic else
    let s0 := skip_space s in
    let ds := digit_prefix base s0 in
    let rest := drop (length ds) s0 in
    if (length ds =? 0)%nat then Ret (0, EINVAL, s)
    else if ULONG_MAX <? value base ds then Ret (ULONG_MAX, ERANGE, rest)
    else Ret (value base ds, 0, rest).
Proof.
  unfold safe_strtoul, SAFE_MIN_BASE, SAFE_MAX_BASE. rewrite Z.gtb_ltb.
  destruct (Z.ltb_spec base 2), (Z.ltb_spec 52 base); cbn [orb]; try done.
  cbv zeta. set (s0 := skip_space s).
  rewrite convert_loop_spec by (unfold ULONG_MAX; lia). cbv zeta.
  rewrite Z.gtb_ltb, skip_digits_drop. fold (value base (digit_prefix base s0)).
  pose proof (digit_prefix_length base s0) as Hl.
  destruct (Nat.eqb_spec (length (digit_prefix base s0)) 0) as [E|E].
  - apply nil_length_inv in E. rewrite E.
    change (ULONG_MAX <? value base []) with false. cbn [length]. rewrite drop_0.
    by rewrite Nat.eqb_refl.
  - destruct (ULONG_MAX <? _); rewrite length_drop, (proj2 (Nat.eqb_neq _ _)) by lia; done.
Qed.

(** A long queue ID can be taken apart again: the last "z" is the separator
    between time and inode number (the inode alphabet lacks it, and the time part
    is long enough), the inode number and the microseconds decode without error
    to the numbers that went in, and the ID is an acceptable queue file name. *)
Theorem queue_id_decode (sec usec inum : Z) :
  0 <= sec < ULONG_MAX -> 0 <= usec < 1000000 -> 0 <= inum < ULONG_MAX ->
  exists id sep, mail_queue_long_id sec usec inum = Ret id /\
    MQID_FIND_LG_INUM_SEPARATOR id = Some sep /\
    MQID_LG_DECODE (drop (S sep) id) MQID_LG_INUM_BASE = Ret (inum, false) /\
    MQID_LG_DECODE (take 4 (drop (sep - 4) id)) MQID_LG_USEC_BASE = Ret (usec, false) /\
    MQID_LG_DECODE (take (sep - 4) id) MQID_LG_SEC_BASE = Ret (sec, false) /\
    mail_queue_id_ok id = true.
Proof.
  intros Hs Hu Hi. rewrite long_id_text.
  pose proof (find_separator sec usec inum Hu ltac:(lia)) as Hf. cbv zeta in Hf.
  set (ts := ultostr_text sec 52 6) in *. set (tu := ultostr_text usec 52 4) in *.
  set (ti := ultostr_text inum 51 0) in *.
  assert (Hl : length tu = 4%nat) by (by apply usec_field_length).
  exists (ts ++ tu ++ MQID_LG_INUM_SEP :: ti), (length ts + 4)%nat.
  replace (length ts + 4 - 4)%nat with (length ts) by lia.
  assert (Hdrop : drop (S (length ts + 4)) (ts ++ tu ++ MQID_LG_INUM_SEP :: ti) = ti).
  { rewrite app_assoc, cons_middle, app_assoc, drop_app_length'; [done|].
    rewrite !length_app. simpl. lia. }
  rewrite Hdrop, drop_app_length, take_app_length, take_app_length' by done.
  split; [done|]. split; [done|].
  unfold MQID_LG_INUM_BASE, MQID_LG_USEC_BASE, MQID_LG_SEC_BASE.
  unfold ts, tu, ti. rewrite !decode_text by (unfold ULONG_MAX in *; lia).
  split; [done|]. split; [done|]. split; [done|]. by apply long_id_ok; lia.
Qed.

Lemma queue_id_decode_witness :
  exists id sep, mail_queue_long_id 1700000000 54321 98765432 = Ret id /\
    MQID_FIND_LG_INUM_SEPARATOR id = Some sep /\
    MQID_LG_DECODE (drop (S sep) id) MQID_LG_INUM_BASE = Ret (98765432, false) /\
    MQID_LG_DECODE (take 4 (drop (sep - 4) id)) MQID_LG_USEC_BASE = Ret (54321, false) /\
    MQID_LG_DECODE (take (sep - 4) id) MQID_LG_SEC_BASE = Ret (1700000000, false) /\
    mail_queue_id_ok id = true.
Proof. apply (queue_id_decode 1700000000 54321 98765432); unfold ULONG_MAX; lia. Defined.

(** mail_queue_path() cannot leave the queue directory: for an acceptable
    queue name and queue ID it does not panic, and the path is the queue name, a
    slash, either no or exactly hash_queue_depth one-character directories (each
    alphanumeric or "_", so never "." or "/"), and the queue ID. *)
Theorem mail_queue_path_safe (names : list bytes) (depth : Z) (queue_name queue_id : bytes) :
  1 <= depth ->
  mail_queue_name_ok queue_name = true -> mail_queue_id_ok queue_id = true ->
  exists dirs,
    mail_queue_path names depth queue_name queue_id =
      Ret (queue_name ++ ["/"%ch] ++ flat_map (fun d => [d; "/"%ch]) dirs ++ queue_id) /\
    Forall (fun c => path_char c = true) dirs /\
    (dirs = [] \/ Z.of_nat (length dirs) = depth).
Proof.
  intros Hd Hq Hid. unfold mail_queue_path, mail_queue_dir. rewrite Hq, Hid. cbn [negb].
  destruct (existsb _ names).
  - destruct (hash_key_ok queue_id Hid) as (key & -> & Hkey & Hne). cbn [mbind outcome_bind].
    unfold dir_forest. rewrite (proj2 (Z.eqb_neq _ _)), (proj2 (Z.ltb_ge _ _)) by done.
    destruct (dir_forest_loop_ok (Z.to_nat depth) key [] Hkey) as (dirs & Hl & Hdirs & ->).
    exists dirs. cbn [mbind outcome_bind app]. rewrite <- !app_assoc. split; [done|].
    split; [done|]. right. lia.
  - exists []. cbn. rewrite <- app_assoc. split; [done|]. split; [constructor|by left].
Qed.

Lemma mail_queue_path_safe_witness :
  exists dirs,
    mail_queue_path [str "deferred"] 2 (str "deferred") (str "4Rxyz23kLmz8Tq") =
      Ret (str "deferred" ++ ["/"%ch] ++ flat_map (fun d => [d; "/"%ch]) dirs ++
           str "4Rxyz23kLmz8Tq") /\
    Forall (fun c => path_char c = true) dirs /\
    (dirs = [] \/ Z.of_nat (length dirs) = 2).
Proof.
  apply (mail_queue_path_safe [str "deferred"] 2 (str "deferred") (str "4Rxyz23kLmz8Tq"));
    [lia|reflexivity..].
Defined.
