(* ===== verification/Record.v ===== *)
(** Queue file records: record.c and off_cvt.c (src/src/global).

    A VSTREAM is the contents of the queue file with a read/write position.  The
    static variables of rec_goto() are an explicit state. *)

From S2P Require Import Prelude Codec QueueId.

(** ** off_cvt.c: file offsets in decimal *)

Module OffCvt.

Definition OFF_T_MAX : Z := 2 ^ 63 - 1.

Fixpoint off_cvt_string_loop (s : bytes) (result : Z) : Z :=
  match s with
  | [] => result
  | ch :: s =>
      if negb (ISDIGIT ch) then -1 else
      let digit_value := ch - "0"%ch in
      if result >? OFF_T_MAX / 10 then -1 else
      let result := result * 10 in
      if result >? OFF_T_MAX - digit_value then -1 else
      off_cvt_string_loop s (result + digit_value)
  end.

Definition off_cvt_string (s : bytes) : Z := off_cvt_string_loop s 0.

Definition digs : bytes := str "0123456789".

(** [while (offset != 0)]; an off_t has at most 63 digits. *)
Fixpoint off_digits_loop (fuel : nat) (offset : Z) (buf : bytes) : bytes :=
  match fuel with
  | O => buf
  | S fuel =>
      if offset =? 0 then buf
      else off_digits_loop fuel (offset / 10) (buf ++ [cp digs (Z.to_nat (offset mod 10))])
  end.

Definition off_cvt_number (offset : Z) : outcome bytes :=
  if offset <? 0 then Panic else
  let buf := off_digits_loop 63 offset [] in
  Ret (SafeUltostr.reverse_loop (length buf / 2) 0 buf).

(** The value of a decimal text. *)
Definition dec_value (acc : Z) (s : bytes) : Z :=
  foldl (fun acc c => acc * 10 + (c - "0"%ch)) acc s.

Lemma dec_value_mono s : Forall (fun c => ISDIGIT c = true) s ->
  forall acc, 0 <= acc -> acc <= dec_value acc s.
Proof.
  induction 1 as [|c s Hc _ IH]; intros acc Ha; cbn; [lia|]. zb.
  etransitivity; [|apply IH; lia]. lia.
Qed.

Lemma off_cvt_string_loop_spec s : forall acc, 0 <= acc <= OFF_T_MAX ->
  off_cvt_string_loop s acc =
    if forallb ISDIGIT s && (dec_value acc s <=? OFF_T_MAX) then dec_value acc s else -1.
Proof.
  induction s as [|c s IH]; intros acc Ha; cbn [off_cvt_string_loop forallb].
  { change (dec_value acc []) with acc. by rewrite (proj2 (Z.leb_le acc _)) by lia. }
  change (dec_value acc (c :: s)) with (dec_value (acc * 10 + (c - 48)) s).
  destruct (ISDIGIT c) eqn:Hc; cbn [negb andb]; [|done]. rewrite !Z.gtb_ltb.
  assert (Hov : forallb ISDIGIT s = true -> OFF_T_MAX < acc * 10 + (c - 48) ->
    OFF_T_MAX < dec_value (acc * 10 + (c - 48)) s).
  { intros Hs Ho. assert (Forall (fun c => ISDIGIT c = true) s).
    { apply Forall_forall. intros x Hx%list_elem_of_In. rewrite forallb_forall in Hs. auto. }
    pose proof (dec_value_mono s H (acc * 10 + (c - 48))). zb. lia. }
  assert (Hr : 48 <= c <= 57) by (clear -Hc; zb; lia).
  unfold OFF_T_MAX in *. change ((2 ^ 63 - 1) / 10) with 922337203685477580.
  change (2 ^ 63) with 9223372036854775808 in *.
  destruct (Z.ltb_spec 922337203685477580 acc) as [H1|H1];
    [|destruct (Z.ltb_spec (9223372036854775808 - 1 - (c - 48)) (acc * 10)) as [H2|H2]].
  - destruct (forallb ISDIGIT s) eqn:Hs; cbn [andb]; [|done]. specialize (Hov eq_refl ltac:(lia)).
    by rewrite (proj2 (Z.leb_gt _ _)) by done.
  - destruct (forallb ISDIGIT s) eqn:Hs; cbn [andb]; [|done]. specialize (Hov eq_refl ltac:(lia)).
    by rewrite (proj2 (Z.leb_gt _ _)) by done.
  - apply IH. lia.
Qed.

Fixpoint off_lsb (fuel : nat) (v : Z) : bytes :=
  match fuel with
  | O => []
  | S fuel => if v =? 0 then [] else cp digs (Z.to_nat (v mod 10)) :: off_lsb fuel (v / 10)
  end.

Lemma off_digits_loop_lsb fuel : forall v buf,
  off_digits_loop fuel v buf = buf ++ off_lsb fuel v.
Proof.
  induction fuel; intros v buf; simpl; [by rewrite app_nil_r|].
  case_match; [by rewrite app_nil_r|]. by rewrite IHfuel, <- app_assoc.
Qed.

Lemma digs_spec v : 0 <= v < 10 -> cp digs (Z.to_nat v) = "0"%ch + v.
Proof.
  intros Hv. assert (v ∈ seqZ 0 10) as H%list_elem_of_In by (apply elem_of_seqZ; lia).
  cbv in H. intuition subst; reflexivity.
Qed.

Lemma off_lsb_spec fuel : forall v, 0 <= v < 2 ^ Z.of_nat fuel ->
  forallb ISDIGIT (reverse (off_lsb fuel v)) = true /\
  dec_value 0 (reverse (off_lsb fuel v)) = v.
Proof.
  induction fuel as [|fuel IH]; intros v Hv; cbn [off_lsb].
  { change (2 ^ Z.of_nat 0) with 1 in Hv. cbn. split; [done|lia]. }
  rewrite Nat2Z.inj_succ, Z.pow_succ_r in Hv by lia.
  destruct (Z.eqb_spec v 0) as [->|Hv0]; [done|].
  destruct (IH (v / 10)) as [H1 H2]; [split; [apply Z.div_pos|apply Z.div_lt_upper_bound]; lia|].
  assert (0 <= v mod 10 < 10) by (apply Z.mod_pos_bound; lia).
  rewrite reverse_cons, forallb_app, H1. unfold dec_value. rewrite foldl_app.
  fold (dec_value 0 (reverse (off_lsb fuel (v / 10)))). rewrite H2.
  cbn [foldl forallb andb]. rewrite digs_spec by done. unfold ISDIGIT, in_range.
  split; [|plia]. rewrite andb_true_r. apply andb_true_iff; split; apply Z.leb_le; lia.
Qed.

End OffCvt.

(** ** record.c *)

Record VSTREAM := {
  path : nat;      (** VSTREAM_PATH: the identity of the path string *)
  file : bytes;    (** the contents of the file *)
  pos : Z;         (** the current offset *)
  limit : Z;       (** writes at or after this offset fail *)
  seekable : bool; (** whether vstream_fseek() can succeed *)
}.

Definition set_pos (s : VSTREAM) (p : Z) : VSTREAM :=
  {| path := path s; file := file s; pos := p; limit := limit s; seekable := seekable s |}.

(** VSTREAM_GETC(): [None] is VSTREAM_EOF. *)
Definition vstream_getc (s : VSTREAM) : option Z * VSTREAM :=
  if pos s <? Z.of_nat (length (file s))
  then (Some (cp (file s) (Z.to_nat (pos s))), set_pos s (pos s + 1))
  else (None, s).

(** VSTREAM_PUTC(): overwrite or extend the file; [None] is VSTREAM_EOF. *)
Definition vstream_putc (c : Z) (s : VSTREAM) : option VSTREAM :=
  if pos s <? limit s then
    let p := Z.to_nat (pos s) in
    let fill := replicate (p - length (file s)) 0 in
    Some {| path := path s;
            file := take p (file s ++ fill) ++ [c] ++ drop (S p) (file s);
            pos := pos s + 1; limit := limit s; seekable := seekable s |}
  else None.

(** vstream_fwrite(): stops at the first write error. *)
Fixpoint vstream_fwrite (data : bytes) (s : VSTREAM) : option VSTREAM :=
  match data with
  | [] => Some s
  | c :: data => s ← vstream_putc c s; vstream_fwrite data s
  end.

(** vstream_fread_buf(): the bytes that are there, at most [len]. *)
Definition vstream_fread_buf (s : VSTREAM) (len : Z) : bytes * VSTREAM :=
  let data := take (Z.to_nat len) (drop (Z.to_nat (pos s)) (file s)) in
  (data, set_pos s (pos s + Z.of_nat (length data))).

Definition vstream_fseek (s : VSTREAM) (offset : Z) : option VSTREAM :=
  if seekable s then Some (set_pos s offset) else None.

Definition REC_TYPE_EOF : Z := -1.
Definition REC_TYPE_ERROR : Z := -2.
Definition REC_TYPE_PTR : Z := "p"%ch.
Definition REC_TYPE_DTXT : Z := "w"%ch.
Definition REC_TYPE_END : Z := "E"%ch.
Definition REC_FLAG_FOLLOW_PTR : Z := 1.
Definition REC_FLAG_SKIP_DTXT : Z := 2.
Definition REC_FLAG_SEEK_END : Z := 4.

Definition rec_put_type (s : VSTREAM) (type offset : Z) : outcome (Z * VSTREAM) :=
  if (type <? 0) || (type >? 255) then Panic else
  match vstream_fseek s offset with
  | None => Ret (REC_TYPE_ERROR, s)
  | Some s =>
      match vstream_putc type s with
      | None => Ret (REC_TYPE_ERROR, s)
      | Some s => Ret (type, s)
      end
  end.

(** The length bytes: 7-bit portions, least significant first, with the 8th bit
    set on all but the last.  A 64-bit length needs at most ten of them. *)
Fixpoint put_length (fuel : nat) (len_rest : Z) (s : VSTREAM) : option VSTREAM :=
  match fuel with
  | O => None
  | S fuel =>
      let len_byte := Z.land len_rest 127 in
      let len_rest := Z.shiftr len_rest 7 in
      let len_byte := if negb (len_rest =? 0) then Z.lor len_byte 128 else len_byte in
      s ← vstream_putc len_byte s;
      if len_rest =? 0 then Some s else put_length fuel len_rest s
  end.

Definition rec_put (s : VSTREAM) (type : Z) (data : bytes) : outcome (Z * VSTREAM) :=
  if (type <? 0) || (type >? 255) then Panic else
  match vstream_putc type s with
  | None => Ret (REC_TYPE_ERROR, s)
  | Some s =>
      match put_length 10 (Z.of_nat (length data)) s with
      | None => Ret (REC_TYPE_ERROR, s)
      | Some s =>
          match vstream_fwrite data s with
          | None => Ret (REC_TYPE_ERROR, s)
          | Some s => Ret (type, s)
          end
      end
  end.

(** A value of C type int: 32 bits, two's complement. *)
Definition s32 (z : Z) : Z := (z + 2 ^ 31) mod 2 ^ 32 - 2 ^ 31.

Inductive length_result :=
  | LenBad (s : VSTREAM)           (** too many length bits, or EOF *)
  | LenOk (len : Z) (s : VSTREAM).

(** The length loop.  [(len_byte & 0177) << shift] is computed as an int; the
    sixth round stops at the shift test. *)
Fixpoint get_length (fuel : nat) (len shift : Z) (s : VSTREAM) : length_result :=
  match fuel with
  | O => LenBad s
  | S fuel =>
      if shift >=? 32 then LenBad s else
      match vstream_getc s with
      | (None, s) => LenBad s
      | (Some len_byte, s) =>
          let len := Z.lor len (s32 (Z.shiftl (Z.land len_byte 127) shift)) in
          if Z.land len_byte 128 =? 0 then LenOk len s
          else get_length fuel len (shift + 7) s
      end
  end.

(** [while (len-- > 0 && VSTREAM_GETC(stream) != VSTREAM_EOF)]: [Z.to_nat len]
    characters, or up to the end of the file. *)
Definition skip_data (s : VSTREAM) (len : Z) : VSTREAM :=
  set_pos s (pos s + Z.max 0 (Z.min len (Z.of_nat (length (file s)) - pos s))).

(** The static variables of rec_goto(). *)
Record goto_state := {
  saved_path : option nat;
  saved_offset : Z;
  reverse_count : Z;
}.

Definition REVERSE_JUMP_LIMIT : Z := 10000.

(** A VSTRING as a C string: up to the first null byte. *)
Fixpoint c_str (buf : bytes) : bytes :=
  match buf with
  | [] => []
  | c :: rest => if c =? 0 then [] else c :: c_str rest
  end.

Definition rec_goto (g : goto_state) (s : VSTREAM) (buf : bytes)
    : Z * goto_state * VSTREAM :=
  let g := if bool_decide (saved_path g = Some (path s)) then g
           else {| saved_path := Some (path s); saved_offset := 0; reverse_count := 0 |} in
  let buf := SafeUltostr.skip_space (c_str buf) in
  let offset := OffCvt.off_cvt_string buf in
  if offset <? 0 then (REC_TYPE_ERROR, g, s)
  else if offset =? 0 then (0, g, s)
  else
    let reverse := offset <=? saved_offset g in
    let g := if reverse
             then {| saved_path := saved_path g; saved_offset := saved_offset g;
                     reverse_count := reverse_count g + 1 |}
             else g in
    if reverse && (reverse_count g >? REVERSE_JUMP_LIMIT) then (REC_TYPE_ERROR, g, s)
    else match vstream_fseek s offset with
         | None => (REC_TYPE_ERROR, g, s)
         | Some s =>
             (0, {| saved_path := saved_path g; saved_offset := offset;
                    reverse_count := reverse_count g |}, s)
         end.

(** One round of rec_get_raw(): [inl] is a return, [inr] a continue. *)
Definition get_round (maxsize flags : Z) (g : goto_state) (s : VSTREAM)
    : (Z * bytes * goto_state * VSTREAM) + (goto_state * VSTREAM) :=
  match vstream_getc s with
  | (None, s) => inl (REC_TYPE_EOF, [], g, s)
  | (Some type, s) =>
      match get_length 6 0 0 s with
      | LenBad s => inl (REC_TYPE_ERROR, [], g, s)
      | LenOk len s =>
          if (len <? 0) || ((maxsize >? 0) && (len >? maxsize))
          then inl (REC_TYPE_ERROR, [], g, skip_data s len) else
          let '(buf, s) := vstream_fread_buf s len in
          if negb (Z.of_nat (length buf) =? len) then inl (REC_TYPE_ERROR, buf, g, s) else
          if flags =? 0 then inl (type, buf, g, s) else
          let '(type, g, s, followed) :=
            if (type =? REC_TYPE_PTR) && negb (Z.land flags REC_FLAG_FOLLOW_PTR =? 0)
            then let '(type, g, s) := rec_goto g s buf in
                 (type, g, s, negb (type =? REC_TYPE_ERROR))
            else (type, g, s, false) in
          if followed then inr (g, s) else
          if (type =? REC_TYPE_DTXT) && negb (Z.land flags REC_FLAG_SKIP_DTXT =? 0)
          then inr (g, s) else
          if (type =? REC_TYPE_END) && negb (Z.land flags REC_FLAG_SEEK_END =? 0) then
            match vstream_fseek s (Z.of_nat (length (file s))) with
            | None => inl (REC_TYPE_ERROR, buf, g, s)
            | Some s => inl (type, buf, g, s)
            end
          else inl (type, buf, g, s)
      end
  end.

(** The loop of rec_get_raw(); [None] is out of fuel (see rec_get_raw_total). *)
Fixpoint get_rounds (fuel : nat) (maxsize flags : Z) (g : goto_state) (s : VSTREAM)
    : option (Z * bytes * goto_state * VSTREAM) :=
  match fuel with
  | O => None
  | S fuel =>
      match get_round maxsize flags g s with
      | inl r => Some r
      | inr (g, s) => get_rounds fuel maxsize flags g s
      end
  end.

Definition rec_get_raw (fuel : nat) (maxsize flags : Z) (g : goto_state) (s : VSTREAM)
    : outcome (option (Z * bytes * goto_state * VSTREAM)) :=
  if maxsize <? 0 then Panic else Ret (get_rounds fuel maxsize flags g s).

(** rec_fputs(): a string without its terminator. *)
Definition rec_fputs (s : VSTREAM) (type : Z) (string : option bytes) : outcome (Z * VSTREAM) :=
  rec_put s type (default [] string).

(** rec_pad(): the conversion "%*s" of "0" to the width. *)
Definition rec_pad (s : VSTREAM) (type len : Z) : outcome (Z * VSTREAM) :=
  let width := len - 2 in
  let width := if width <? 1 then 1 else width in
  rec_put s type (replicate (Z.to_nat (width - 1)) 32 ++ ["0"%ch]).

(** ** Lemmas *)

(** The bytes of a record. *)
Fixpoint length_bytes (fuel : nat) (len : Z) : bytes :=
  match fuel with
  | O => []
  | S fuel =>
      if len / 128 =? 0 then [len mod 128]
      else len mod 128 + 128 :: length_bytes fuel (len / 128)
  end.

Definition rec_bytes (type : Z) (data : bytes) : bytes :=
  type :: length_bytes 10 (Z.of_nat (length data)) ++ data.

(** A stream positioned at the end of its contents. *)
Definition at_end (s : VSTREAM) : Prop := pos s = Z.of_nat (length (file s)).

Definition append (s : VSTREAM) (b : bytes) : VSTREAM :=
  {| path := path s; file := file s ++ b; pos := pos s + Z.of_nat (length b);
     limit := limit s; seekable := seekable s |}.

Lemma at_end_append s b : at_end s -> at_end (append s b).
Proof. unfold at_end. intros H. cbn. rewrite length_app. lia. Qed.

Lemma append_app s a b : append (append s a) b = append s (a ++ b).
Proof. unfold append. cbn. f_equal; [by rewrite app_assoc|]. rewrite length_app. lia. Qed.

Lemma putc_append s c : at_end s -> pos s < limit s -> vstream_putc c s = Some (append s [c]).
Proof.
  intros He Hl. unfold vstream_putc. rewrite (proj2 (Z.ltb_lt _ _)) by done.
  unfold append. do 2 f_equal. unfold at_end in He. rewrite He, Nat2Z.id.
  rewrite Nat.sub_diag. cbn [replicate]. rewrite app_nil_r, firstn_all.
  rewrite drop_ge by lia. done.
Qed.

Lemma fwrite_append data : forall s, at_end s ->
  pos s + Z.of_nat (length data) <= limit s -> vstream_fwrite data s = Some (append s data).
Proof.
  induction data as [|c data IH]; intros s He Hl; cbn [vstream_fwrite].
  { destruct s; unfold append; cbn. by rewrite app_nil_r, Z.add_0_r. }
  cbn [length] in Hl. rewrite putc_append by (done || lia). cbn [mbind option_bind].
  rewrite IH; [by rewrite append_app|by apply at_end_append|cbn; lia].
Qed.

Lemma land_127 x : Z.land x 127 = x mod 128.
Proof. apply (land_mask x 7). lia. Qed.

Lemma land_128_high x : 0 <= x < 128 -> Z.land (x + 128) 127 = x /\ Z.land (x + 128) 128 = 128 /\
  Z.land x 128 = 0.
Proof.
  intros Hx. rewrite land_127. split; [plia|]. rewrite (Z.land_comm x 128).
  assert (x ∈ seqZ 0 128) as H%list_elem_of_In by (apply elem_of_seqZ; lia).
  revert H. clear. generalize x. clear x. intros x H.
  assert (Hall : forallb (fun x => (Z.land (x + 128) 128 =? 128) && (Z.land 128 x =? 0)) (seqZ 0 128)
    = true) by (vm_compute; reflexivity).
  rewrite forallb_forall in Hall. specialize (Hall x H). zb. done.
Qed.

Lemma put_length_append fuel : forall len s, at_end s -> 0 <= len < 128 ^ Z.of_nat fuel ->
  (0 < fuel)%nat ->
  pos s + Z.of_nat (length (length_bytes fuel len)) <= limit s ->
  put_length fuel len s = Some (append s (length_bytes fuel len)).
Proof.
  induction fuel as [|fuel IH]; intros len s He Hlen Hf Hl; [lia|].
  cbn [put_length length_bytes] in *. rewrite land_127.
  rewrite Z.shiftr_div_pow2 by lia. change (2 ^ 7) with 128.
  destruct (Z.eqb_spec (len / 128) 0) as [E|E]; cbn [negb].
  - cbn [length] in Hl. by rewrite putc_append by (done || lia).
  - assert (Z.lor (len mod 128) 128 = len mod 128 + 128) as ->.
    { pose proof (Z.mod_pos_bound len 128). rewrite Z.lor_comm.
      change 128 with (Z.shiftl 1 7) at 1. rewrite lor_shiftl by plia. lia. }
    cbn [length] in Hl. rewrite putc_append by (done || lia). cbn [mbind option_bind].
    rewrite Nat2Z.inj_succ, Z.pow_succ_r in Hlen by lia.
    destruct fuel as [|fuel]; [change (128 ^ Z.of_nat 0) with 1 in Hlen; plia|].
    rewrite IH; [by rewrite append_app|by apply at_end_append| |lia|cbn [append pos limit length]; lia].
    split; [apply Z.div_pos|apply Z.div_lt_upper_bound]; lia.
Qed.

(** rec_put() at the end of the file appends the bytes of the record. *)
Lemma rec_put_append s type data :
  at_end s -> 0 <= type <= 255 -> Z.of_nat (length data) < 2 ^ 63 ->
  pos s + Z.of_nat (length (rec_bytes type data)) <= limit s ->
  rec_put s type data = Ret (type, append s (rec_bytes type data)).
Proof.
  intros He Ht Hd Hl. unfold rec_bytes in Hl. cbn [length] in Hl. rewrite length_app in Hl.
  unfold rec_put. rewrite Z.gtb_ltb, (proj2 (Z.ltb_ge type 0)), (proj2 (Z.ltb_ge 255 type)) by lia.
  cbn [orb]. rewrite putc_append by (done || lia).
  rewrite put_length_append; [|by apply at_end_append|plia|lia|cbn [append pos limit length]; lia].
  rewrite fwrite_append; [by rewrite !append_app|by repeat apply at_end_append|].
  cbn [append pos limit length]. lia.
Qed.

(** What is left to read. *)
Definition rest (s : VSTREAM) : bytes := drop (Z.to_nat (pos s)) (file s).

Lemma rest_set_pos s n : 0 <= pos s -> rest (set_pos s (pos s + Z.of_nat n)) = drop n (rest s).
Proof. intros Hp. unfold rest. cbn. rewrite drop_drop. f_equal. lia. Qed.

Lemma set_pos_set_pos s p q : set_pos (set_pos s p) q = set_pos s q.
Proof. done. Qed.

Lemma set_pos_id s : set_pos s (pos s) = s.
Proof. by destruct s. Qed.

Lemma getc_rest s c r : 0 <= pos s -> rest s = c :: r ->
  vstream_getc s = (Some c, set_pos s (pos s + 1)) /\ rest (set_pos s (pos s + 1)) = r.
Proof.
  intros Hp Hr. assert (Hlk : file s !! Z.to_nat (pos s) = Some c).
  { rewrite <- (Nat.add_0_r (Z.to_nat (pos s))), <- lookup_drop.
    fold (rest s). by rewrite Hr. }
  pose proof (lookup_lt_Some _ _ _ Hlk). unfold vstream_getc.
  rewrite (proj2 (Z.ltb_lt _ _)) by lia. unfold cp. rewrite nth_lookup, Hlk.
  split; [done|]. change (pos s + 1) with (pos s + Z.of_nat 1).
  rewrite rest_set_pos by done. by rewrite Hr.
Qed.

Lemma getc_eof s : 0 <= pos s -> rest s = [] -> vstream_getc s = (None, s).
Proof.
  intros Hp Hr. apply (f_equal length) in Hr. unfold rest in Hr. rewrite length_drop in Hr.
  unfold vstream_getc. by rewrite (proj2 (Z.ltb_ge _ _)) by (cbn in Hr; lia).
Qed.

Lemma fread_rest s data post : 0 <= pos s -> rest s = data ++ post ->
  vstream_fread_buf s (Z.of_nat (length data)) =
    (data, set_pos s (pos s + Z.of_nat (length data))).
Proof.
  intros Hp Hr. unfold vstream_fread_buf. fold (rest s). by rewrite Hr, Nat2Z.id, take_app_length.
Qed.

Lemma s32_small z : 0 <= z < 2 ^ 31 -> s32 z = z.
Proof. intros Hz. unfold s32. rewrite Z.mod_small; plia. Qed.

Lemma get_length_rest fuel : forall n len acc shift s post,
  0 <= pos s -> rest s = length_bytes n len ++ post ->
  (0 < n)%nat -> 0 <= len < 128 ^ Z.of_nat n -> 0 <= shift -> len * 2 ^ shift < 2 ^ 31 ->
  0 <= acc < 2 ^ shift -> shift < 32 -> 35 <= shift + 7 * Z.of_nat fuel ->
  get_length fuel acc shift s =
    LenOk (acc + len * 2 ^ shift)
      (set_pos s (pos s + Z.of_nat (length (length_bytes n len)))).
Proof.
  induction fuel as [|fuel IH]; intros n len acc shift s post Hp Hr Hn Hlen Hs Hl Ha Hsh Hf; [lia|].
  destruct n as [|n]; [lia|]. cbn [get_length length_bytes] in *.
  rewrite Z.geb_leb, (proj2 (Z.leb_gt 32 shift)) by lia.
  assert (Hpw : 0 < 2 ^ shift) by (apply Z.pow_pos_nonneg; lia).
  assert (Hm : 0 <= len mod 128 < 128) by (apply Z.mod_pos_bound; lia).
  assert (Hdm : len = 128 * (len / 128) + len mod 128) by (apply Z.div_mod; lia).
  assert (Hdp : 0 <= len / 128) by (apply Z.div_pos; lia).
  destruct (land_128_high (len mod 128) Hm) as (L1 & L2 & L3).
  assert (Hacc : Z.lor acc (s32 (Z.shiftl (len mod 128) shift)) = acc + len mod 128 * 2 ^ shift).
  { rewrite s32_small by (rewrite Z.shiftl_mul_pow2 by lia; nia).
    rewrite Z.lor_comm, lor_shiftl by done. lia. }
  destruct (Z.eqb_spec (len / 128) 0) as [E|E].
  - destruct (getc_rest s (len mod 128) post Hp Hr) as [-> _]. cbn beta iota zeta.
    rewrite land_127, Z.mod_mod, L3 by lia. cbn [Z.eqb length]. rewrite Hacc. do 2 f_equal. nia.
  - cbn [app] in Hr. destruct (getc_rest s _ _ Hp Hr) as [-> Hr']. cbn beta iota zeta.
    rewrite L1, L2, Hacc. cbn [Z.eqb Pos.eqb].
    rewrite Nat2Z.inj_succ, Z.pow_succ_r in Hlen by lia.
    assert (Hsh' : 2 ^ (shift + 7) = 128 * 2 ^ shift) by (rewrite Z.pow_add_r; plia).
    assert (shift < 24) by (apply (Z.pow_lt_mono_r_iff 2); [lia|lia|plia || nia]).
    destruct n as [|n]; [change (128 ^ Z.of_nat 0) with 1 in Hlen; lia|].
    rewrite (IH (S n) (len / 128) _ _ _ post); try done; try lia; try nia; [|cbn; lia].
    cbn [pos set_pos length]. rewrite set_pos_set_pos. f_equal; [nia|].
    f_equal. rewrite Nat2Z.inj_succ. lia.
Qed.

Lemma get_round_rest maxsize g s type data post :
  0 <= pos s -> rest s = rec_bytes type data ++ post ->
  Z.of_nat (length data) < 2 ^ 31 -> (maxsize = 0 \/ 0 < maxsize /\ Z.of_nat (length data) <= maxsize) ->
  get_round maxsize 0 g s =
    inl (type, data, g, set_pos s (pos s + Z.of_nat (length (rec_bytes type data)))).
Proof.
  intros Hp Hr Hl Hm. unfold rec_bytes in *. cbn [app] in Hr. unfold get_round.
  destruct (getc_rest s _ _ Hp Hr) as [-> Hr1]. rewrite <- app_assoc in Hr1.
  rewrite (get_length_rest 6 10 (Z.of_nat (length data)) 0 0 _ (data ++ post));
    try done; try lia; [|cbn; lia].
  change (2 ^ 0) with 1. rewrite Z.mul_1_r, Z.add_0_l, Z.gtb_ltb, Z.gtb_ltb.
  rewrite (proj2 (Z.ltb_ge _ 0)) by lia. cbn [orb].
  destruct ((0 <? maxsize) && (maxsize <? Z.of_nat (length data))) eqn:Hbad; [zb; lia|].
  set (lb := length_bytes 10 (Z.of_nat (length data))) in *. cbn [pos set_pos].
  rewrite (fread_rest _ data post); [|cbn; lia|].
  - rewrite Z.eqb_refl. cbn [negb Z.eqb pos set_pos length]. rewrite length_app.
    rewrite !set_pos_set_pos. do 2 f_equal. f_equal. lia.
  - rewrite set_pos_set_pos. pose proof (rest_set_pos (set_pos s (pos s + 1)) (length lb)) as H.
    rewrite Hr1, drop_app_length in H. cbn [pos set_pos] in H. rewrite set_pos_set_pos in H.
    apply H. lia.
Qed.

(** Writing a list of records, and reading back until the end of the file. *)
Fixpoint put_all (s : VSTREAM) (rs : list (Z * bytes)) : outcome (list Z * VSTREAM) :=
  match rs with
  | [] => Ret ([], s)
  | (type, data) :: rs =>
      r ← rec_put s type data;
      let '(t, s) := r in
      r ← put_all s rs;
      let '(ts, s) := r in Ret (t :: ts, s)
  end.

Fixpoint get_all (n : nat) (maxsize : Z) (g : goto_state) (s : VSTREAM)
    : outcome (list (option (Z * bytes))) :=
  match n with
  | O => Ret []
  | S n =>
      r ← rec_get_raw 1 maxsize 0 g s;
      match r with
      | None => Ret [None]
      | Some (t, buf, g, s) => rs ← get_all n maxsize g s; Ret (Some (t, buf) :: rs)
      end
  end.

Definition rec_ok (maxsize : Z) (r : Z * bytes) : Prop :=
  0 <= fst r <= 255 /\ Z.of_nat (length (snd r)) < 2 ^ 31 /\
  (maxsize = 0 \/ 0 < maxsize /\ Z.of_nat (length (snd r)) <= maxsize).

Definition recs_bytes (rs : list (Z * bytes)) : bytes :=
  flat_map (fun r => rec_bytes (fst r) (snd r)) rs.

Lemma put_all_append maxsize rs : Forall (rec_ok maxsize) rs -> forall s, at_end s ->
  pos s + Z.of_nat (length (recs_bytes rs)) <= limit s ->
  put_all s rs = Ret (map fst rs, append s (recs_bytes rs)).
Proof.
  induction 1 as [|[type data] rs (Ht & Hl & _) _ IH]; intros s He Hlim.
  { destruct s; unfold append; cbn. by rewrite app_nil_r, Z.add_0_r. }
  cbn [put_all fst snd recs_bytes flat_map] in *. fold (recs_bytes rs) in *.
  rewrite length_app in Hlim. rewrite rec_put_append; try done; [|plia|lia].
  cbn [mbind outcome_bind]. rewrite IH; [|by apply at_end_append|cbn [append pos limit]; lia].
  cbn [mbind outcome_bind map fst]. by rewrite append_app.
Qed.

Lemma get_all_rest maxsize rs : Forall (rec_ok maxsize) rs -> 0 <= maxsize -> forall g s,
  0 <= pos s -> rest s = recs_bytes rs ->
  get_all (S (length rs)) maxsize g s =
    Ret (map Some rs ++ [Some (REC_TYPE_EOF, [])]).
Proof.
  intros Hall Hm. unfold get_all; fold get_all.
  induction Hall as [|[type data] rs (Ht & Hl & Hmax) _ IH]; intros g s Hp Hr.
  - unfold rec_get_raw. rewrite (proj2 (Z.ltb_ge maxsize 0)) by done. cbn [get_rounds].
    unfold get_round. by rewrite getc_eof by done.
  - cbn [fst snd recs_bytes flat_map length] in *. fold (recs_bytes rs) in Hr.
    unfold rec_get_raw at 1. rewrite (proj2 (Z.ltb_ge maxsize 0)) by done. cbn [get_rounds].
    rewrite (get_round_rest maxsize g s type data (recs_bytes rs)) by done.
    cbn [mbind outcome_bind]. cbn [get_all] in *. rewrite IH; [done|cbn; lia|].
    rewrite rest_set_pos, Hr by done. apply drop_app_length.
Qed.

(** *** Termination: what makes the next round closer to the end *)

Lemma getc_inv s c s' : vstream_getc s = (Some c, s') ->
  s' = set_pos s (pos s + 1) /\ pos s < Z.of_nat (length (file s)).
Proof. unfold vstream_getc. case_match; intros [= <- <-]. zb. done. Qed.

Lemma get_length_inv fuel : forall len shift s len' s',
  get_length fuel len shift s = LenOk len' s' ->
  exists k, 0 < k /\ s' = set_pos s (pos s + k).
Proof.
  induction fuel as [|fuel IH]; intros len shift s len' s' H; cbn in H; [done|].
  case_match; [done|]. destruct (vstream_getc s) as [[c|] s1] eqn:Hg; [|done].
  apply getc_inv in Hg as [-> _]. case_match.
  - injection H as <- <-. exists 1. split; [lia|done].
  - apply IH in H as (k & Hk & ->). exists (1 + k). cbn. split; [lia|].
    rewrite set_pos_set_pos. f_equal. lia.
Qed.

Section measure.
Context (n : Z).

Definition mP (g : goto_state) (s : VSTREAM) : nat :=
  if decide (saved_path g = Some (path s)) then 0 else 1.
Definition mA (g : goto_state) : nat := Z.to_nat (REVERSE_JUMP_LIMIT - reverse_count g).
Definition mB (g : goto_state) : nat := Z.to_nat (n + 1 - saved_offset g).
Definition mC (s : VSTREAM) : nat := Z.to_nat (n + 1 - pos s).

Definition closer (g' : goto_state) (s' : VSTREAM) (g : goto_state) (s : VSTREAM) : Prop :=
  (mP g' s' < mP g s)%nat \/ mP g' s' = mP g s /\
  ((mA g' < mA g)%nat \/ mA g' = mA g /\
  ((mB g' < mB g)%nat \/ mB g' = mB g /\ (mC s' < mC s)%nat)).
End measure.

(** A followed pointer: the first jump on this path, a counted reverse jump, a
    forward jump, or no jump at all (offset 0). *)
Lemma rec_goto_closer g s buf g' s' p0 :
  rec_goto g s buf = (0, g', s') ->
  p0 < pos s -> p0 < Z.of_nat (length (file s)) ->
  closer (Z.of_nat (length (file s))) g' s' g (set_pos s p0) /\
  file s' = file s.
Proof.
  intros H Hp Hn. unfold rec_goto in H.
  set (g0 := if bool_decide _ then g else _) in H.
  assert (Hg0 : g0 = g /\ saved_path g = Some (path s) \/
    mP g (set_pos s p0) = 1%nat /\ saved_path g0 = Some (path s)).
  { unfold g0, mP. cbn. case_bool_decide; [by left|right]. by rewrite decide_False by done. }
  assert (Hsp : saved_path g0 = Some (path s)) by (destruct Hg0 as [[-> ?]|[_ ?]]; done).
  clearbody g0.
  assert (HP : forall g1 s1, path s1 = path s -> saved_path g1 = saved_path g0 -> mP g1 s1 = 0%nat).
  { intros g1 s1 E1 E2. unfold mP. rewrite decide_True; [done|]. by rewrite E2, E1. }
  set (off := OffCvt.off_cvt_string _) in H. clearbody off.
  repeat case_match; try discriminate H; injection H as <- <-;
    rewrite ?Z.gtb_ltb in *; unfold vstream_fseek in *;
    repeat match goal with H : (if ?b then _ else _) = Some _ |- _ => destruct b; [|done] end;
    simplify_eq/=; (split; [|done]); unfold closer;
    (destruct Hg0 as [[-> Hg0]|[Hg0 _]];
      [right; split; [rewrite !HP by done; done|]|left; rewrite Hg0, HP by done; lia]).
  - right. split; [done|]. right. split; [done|]. unfold mC. cbn. lia.
  - left. unfold mA. cbn. zb. cbn in *. unfold REVERSE_JUMP_LIMIT in *. lia.
  - right. split; [done|]. unfold mB, mC. cbn. zb. lia.
Qed.

Lemma get_round_closer maxsize flags g s g' s' :
  get_round maxsize flags g s = inr (g', s') ->
  closer (Z.of_nat (length (file s))) g' s' g s /\ file s' = file s.
Proof.
  unfold get_round. destruct (vstream_getc s) as [[type|] s1] eqn:Hg; [|done].
  apply getc_inv in Hg as [-> Hpos].
  destruct (get_length 6 0 0 _) as [|len s2] eqn:Hl; [done|].
  apply get_length_inv in Hl as (k & Hk & ->). cbn [pos set_pos].
  case_match; [done|]. unfold vstream_fread_buf. cbn [pos set_pos file].
  set (buf := take _ _). case_match; [done|]. case_match; [done|].
  assert (Hread : forall q, pos s < q -> closer (Z.of_nat (length (file s))) g (set_pos s q) g s).
  { intros q Hq. right. split; [done|]. right. split; [done|]. right. split; [done|].
    unfold mC. cbn. lia. }
  rewrite !set_pos_set_pos. set (s3 := set_pos s _) in *. set (X := if _ && _ then _ else _).
  assert (Hd : forall t g1 s1, X = (t, g1, s1, true) ->
      closer (Z.of_nat (length (file s))) g1 s1 g s /\ file s1 = file s).
  { intros t g1 s1. unfold X. case_match; [|discriminate].
    destruct (rec_goto _ _ _) as [[t' g''] s''] eqn:Hgo. intros [= -> -> -> Ht].
    assert (t = 0) as ->.
    { unfold rec_goto in Hgo. repeat case_match; simplify_eq; done. }
    eapply rec_goto_closer in Hgo as [Hc Hf]; cbn [file set_pos pos s3] in *.
    - unfold s3 in Hc. rewrite set_pos_set_pos, set_pos_id in Hc. done.
    - lia.
    - done. }
  assert (Hs : forall t g1 s1, X = (t, g1, s1, false) ->
      t = REC_TYPE_ERROR \/ t = type /\ g1 = g /\ s1 = s3).
  { intros t g1 s1. unfold X. case_match; [left|right; by simplify_eq].
    destruct (rec_goto _ _ _) as [[t' ?] ?]. simplify_eq.
    match goal with H : negb _ = false |- _ => apply negb_false_iff, Z.eqb_eq in H; done end. }
  clearbody X. destruct X as [[[t g1] s1] []].
  { intros [= <- <-]. by apply (Hd t). }
  destruct (Hs t g1 s1 eq_refl) as [->|(-> & -> & ->)]; [cbn; done|].
  case_match; [|repeat case_match; done].
  intros [= <- <-]. split; [apply Hread; lia|done].
Qed.

Lemma get_rounds_mono fuel : forall fuel' maxsize flags g s r, (fuel <= fuel')%nat ->
  get_rounds fuel maxsize flags g s = Some r -> get_rounds fuel' maxsize flags g s = Some r.
Proof.
  induction fuel as [|fuel IH]; intros fuel' maxsize flags g s r Hle H; [done|].
  destruct fuel' as [|fuel']; [lia|]. cbn [get_rounds] in *.
  case_match; [done|]. destruct p. apply IH; [lia|done].
Qed.

Lemma get_rounds_terminate maxsize flags g s :
  exists fuel r, get_rounds fuel maxsize flags g s = Some r.
Proof.
  set (n := Z.of_nat (length (file s))).
  enough (H : forall p a b c g s, n = Z.of_nat (length (file s)) ->
    mP g s = p -> mA g = a -> mB n g = b -> mC n s = c ->
    exists fuel r, get_rounds fuel maxsize flags g s = Some r) by (eapply H; eauto).
  clear g. induction p as [p IHp] using lt_wf_ind. induction a as [a IHa] using lt_wf_ind.
  induction b as [b IHb] using lt_wf_ind. induction c as [c IHc] using lt_wf_ind.
  intros g s' Hn <- <- <- <-.
  destruct (get_round maxsize flags g s') as [r|[g1 s1]] eqn:Hr.
  { exists 1%nat, r. cbn. by rewrite Hr. }
  destruct (get_round_closer _ _ _ _ _ _ Hr) as [Hc Hf]. rewrite <- Hn in Hc.
  assert (Hn1 : n = Z.of_nat (length (file s1))) by (by rewrite Hf).
  assert (exists fuel r, get_rounds fuel maxsize flags g1 s1 = Some r) as (fuel & r & Hfr).
  { destruct Hc as [H|[E1 [H|[E2 [H|[E3 H]]]]]].
    - exact (IHp _ H _ _ _ g1 s1 Hn1 eq_refl eq_refl eq_refl eq_refl).
    - exact (IHa _ H _ _ g1 s1 Hn1 E1 eq_refl eq_refl eq_refl).
    - exact (IHb _ H _ g1 s1 Hn1 E1 E2 eq_refl eq_refl).
    - exact (IHc _ H g1 s1 Hn1 E1 E2 E3 eq_refl). }
  exists (S fuel), r. cbn. by rewrite Hr.
Qed.

(** What one round can return. *)
Lemma get_round_result maxsize flags g s t buf g' s' : 0 <= maxsize ->
  get_round maxsize flags g s = inl (t, buf, g', s') ->
  t = REC_TYPE_EOF \/ t = REC_TYPE_ERROR \/
  (exists s0, fst (vstream_getc s0) = Some t) /\ (0 < maxsize -> Z.of_nat (length buf) <= maxsize).
Proof.
  intros Hm. unfold get_round.
  destruct (vstream_getc s) as [[type|] s1] eqn:Hg; [|intros [= <- <- <- <-]; by left].
  destruct (get_length 6 0 0 _) as [|len s2]; [intros [= <- <- <- <-]; by right; left|].
  destruct (_ || _) eqn:Hbad; [intros [= <- <- <- <-]; by right; left|].
  destruct (vstream_fread_buf s2 len) as [buf' s3].
  destruct (negb _) eqn:Hlen; [intros [= <- <- <- <-]; by right; left|].
  assert (Hok : (exists s0, fst (vstream_getc s0) = Some type) /\
    (0 < maxsize -> Z.of_nat (length buf') <= maxsize)).
  { split; [exists s; by rewrite Hg|]. intros Hpos. rewrite !Z.gtb_ltb in Hbad.
    rewrite (proj2 (Z.ltb_lt 0 maxsize)) in Hbad by done. zb. lia. }
  case_match; [intros [= <- <- <- <-]; by right; right|].
  destruct (if (type =? REC_TYPE_PTR) && _ then _ else _) as [[[t1 g1] s1'] followed] eqn:Hf.
  destruct followed; [done|].
  assert (Ht1 : t1 = REC_TYPE_ERROR \/ t1 = type).
  { case_match; [left|right; by simplify_eq]. destruct (rec_goto _ _ _) as [[t' ?] ?]. simplify_eq.
    match goal with H : negb _ = false |- _ => apply negb_false_iff, Z.eqb_eq in H; done end. }
  repeat case_match; intros; simplify_eq; try (by right; left);
    destruct Ht1; simplify_eq; first [by right; left|by right; right].
Qed.

Lemma get_rounds_result fuel maxsize flags : 0 <= maxsize -> forall g s t buf g' s',
  get_rounds fuel maxsize flags g s = Some (t, buf, g', s') ->
  t = REC_TYPE_EOF \/ t = REC_TYPE_ERROR \/
  (exists s0, fst (vstream_getc s0) = Some t) /\ (0 < maxsize -> Z.of_nat (length buf) <= maxsize).
Proof.
  intros Hm. induction fuel as [|fuel IH]; intros g s t buf g' s' H; cbn in H; [done|].
  destruct (get_round maxsize flags g s) as [r|[g1 s1]] eqn:Hr.
  - injection H as ->. by eapply get_round_result.
  - by eapply IH.
Qed.

(** C39: records survive the queue file: a sequence of records with types 0..255
    and contents below 2^31 bytes, written with rec_put() at the end of a file
    with room for them, reports each type as the result, and rec_get_raw() without
    transparency flags reads back the same types and contents in the same order,
    then reports the end of the file. *)
Theorem rec_stream_roundtrip (s : VSTREAM) (g : goto_state) (maxsize : Z) (rs : list (Z * bytes)) :
  0 <= maxsize -> at_end s -> Forall (rec_ok maxsize) rs ->
  pos s + Z.of_nat (length (recs_bytes rs)) <= limit s ->
  exists s', put_all s rs = Ret (map fst rs, s') /\
    get_all (S (length rs)) maxsize g (set_pos s' (pos s)) =
      Ret (map Some rs ++ [Some (REC_TYPE_EOF, [])]).
Proof.
  intros Hm He Hrs Hlim. exists (append s (recs_bytes rs)). split.
  - by eapply put_all_append.
  - apply get_all_rest; try done; unfold at_end in He; cbn [pos set_pos]; [lia|].
    unfold rest. cbn. rewrite He, Nat2Z.id. apply drop_app_length.
Qed.

Lemma rec_stream_roundtrip_witness :
  let s := {| path := 0; file := [69]; pos := 1; limit := 4000; seekable := true |} in
  let g := {| saved_path := None; saved_offset := 0; reverse_count := 0 |} in
  let rs := [("T"%ch, str "1700000000"); ("S"%ch, []); ("R"%ch, str "user@example.com");
             ("N"%ch, replicate 200 97)] in
  exists s', put_all s rs = Ret (map fst rs, s') /\
    get_all (S (length rs)) 1000 g (set_pos s' 1) = Ret (map Some rs ++ [Some (REC_TYPE_EOF, [])]).
Proof.
  intros s g rs. apply (rec_stream_roundtrip s g 1000 rs);
    [lia|reflexivity| |vm_compute; discriminate].
  repeat (constructor; [vm_compute; intuition discriminate|]); constructor.
Defined.

(** rec_get_raw() always returns, with any flags and any queue file contents,
    pointer records that form loops included: the number of rounds is finite,
    because each round reads forward, jumps forward, or uses up one of the
    REVERSE_JUMP_LIMIT reverse jumps.  It panics exactly on a negative size limit. *)
Theorem rec_get_raw_total (maxsize flags : Z) (g : goto_state) (s : VSTREAM) :
  if maxsize <? 0 then forall fuel, rec_get_raw fuel maxsize flags g s = Panic
  else exists fuel0 r, forall fuel, (fuel0 <= fuel)%nat ->
    rec_get_raw fuel maxsize flags g s = Ret (Some r).
Proof.
  unfold rec_get_raw. destruct (maxsize <? 0); [done|].
  destruct (get_rounds_terminate maxsize flags g s) as (fuel0 & r & Hr).
  exists fuel0, r. intros fuel Hf. by rewrite (get_rounds_mono fuel0 fuel _ _ _ _ _ Hf Hr).
Qed.

(** whatever the file contains, a result of rec_get_raw() is end-of-file, an
    error, or the type byte of a record whose contents respect the size limit
    when one was specified. *)
Theorem rec_get_raw_limit (fuel : nat) (maxsize flags : Z) (g g' : goto_state) (s s' : VSTREAM)
    (t : Z) (buf : bytes) :
  rec_get_raw fuel maxsize flags g s = Ret (Some (t, buf, g', s')) ->
  t = REC_TYPE_EOF \/ t = REC_TYPE_ERROR \/
  (exists s0, fst (vstream_getc s0) = Some t) /\ (0 < maxsize -> Z.of_nat (length buf) <= maxsize).
Proof.
  unfold rec_get_raw. destruct (Z.ltb_spec maxsize 0); [done|]. intros [= Hr].
  by eapply get_rounds_result.
Qed.

Lemma rec_get_raw_limit_witness :
  let s := {| path := 0; file := [83; 2; 97; 98]; pos := 0; limit := 4; seekable := true |} in
  let g := {| saved_path := None; saved_offset := 0; reverse_count := 0 |} in
  83 = REC_TYPE_EOF \/ 83 = REC_TYPE_ERROR \/
  (exists s0, fst (vstream_getc s0) = Some 83) /\ (0 < 2 -> Z.of_nat (length [97; 98]) <= 2).
Proof.
  intros s g. apply (rec_get_raw_limit 1 2 0 g g s (set_pos s 4) 83 [97; 98]).
  vm_compute. reflexivity.
Defined.

(** off_cvt_string() reads back what off_cvt_number() writes, for every file
    offset, and on any text it returns the decimal value exactly when the text has
    only digits and the value fits in an off_t, else -1. *)
Theorem off_cvt_roundtrip (offset : Z) (s : bytes) :
  0 <= offset <= OffCvt.OFF_T_MAX ->
  (exists t, OffCvt.off_cvt_number offset = Ret t /\ OffCvt.off_cvt_string t = offset) /\
  OffCvt.off_cvt_string s =
    (if forallb ISDIGIT s && (OffCvt.dec_value 0 s <=? OffCvt.OFF_T_MAX)
     then OffCvt.dec_value 0 s else -1).
Proof.
  intros Ho. split; [|apply OffCvt.off_cvt_string_loop_spec; unfold OffCvt.OFF_T_MAX; lia].
  exists (reverse (OffCvt.off_lsb 63 offset)). unfold OffCvt.off_cvt_number.
  rewrite (proj2 (Z.ltb_ge offset 0)) by lia.
  rewrite SafeUltostr.reverse_loop_spec, OffCvt.off_digits_loop_lsb, app_nil_l. split; [done|].
  destruct (OffCvt.off_lsb_spec 63 offset) as [H1 H2];
    [unfold OffCvt.OFF_T_MAX in Ho; change (Z.of_nat 63) with 63; lia|].
  unfold OffCvt.off_cvt_string. rewrite OffCvt.off_cvt_string_loop_spec, H1, H2
    by (unfold OffCvt.OFF_T_MAX; lia).
  by rewrite (proj2 (Z.leb_le _ _)) by lia.
Qed.

Lemma off_cvt_roundtrip_witness :
  (exists t, OffCvt.off_cvt_number 9223372036854775807 = Ret t /\
     OffCvt.off_cvt_string t = 9223372036854775807) /\
  OffCvt.off_cvt_string (str "9223372036854775808") = -1.
Proof.
  apply (off_cvt_roundtrip 9223372036854775807 (str "9223372036854775808")).
  unfold OffCvt.OFF_T_MAX. lia.
Defined.
