(* ===== verification/Hostname.v ===== *)
(** Host name and address syntax: valid_hostname.c and alldig.c (src/src/util).
    The gripe argument only controls logging and is left out.  Each routine is
    proved equivalent to a declarative description of the texts it accepts. *)

From S2P Require Import Prelude.

Definition VALID_HOSTNAME_LEN : Z := 255.
Definition VALID_LABEL_LEN : Z := 63.

(** ** valid_hostname() *)

(** The scanning loop: [None] is a rejected name, otherwise the final value of
    non_numeric.  (label_count is maintained but never read.) *)
Fixpoint hostname_loop (cpos : bytes) (label_length : Z) (non_numeric : bool) : option bool :=
  match cpos with
  | [] => Some non_numeric
  | ch :: next =>
      if ISALNUM ch || (ch =? "_"%ch) then
        let label_length := label_length + 1 in
        if label_length >? VALID_LABEL_LEN then None else
        let non_numeric := if negb (ISDIGIT ch) then true else non_numeric in
        hostname_loop next label_length non_numeric
      else if ch =? "."%ch then
        if (label_length =? 0) || (cp next 0 =? 0) then None
        else hostname_loop next 0 non_numeric
      else if ch =? "-"%ch then
        let label_length := label_length + 1 in
        if (label_length =? 1) || (cp next 0 =? 0) || (cp next 0 =? "."%ch) then None
        else hostname_loop next label_length true
      else None
  end.

Definition valid_hostname (name : bytes) : bool :=
  if cp name 0 =? 0 then false else
  match hostname_loop name 0 false with
  | None => false
  | Some non_numeric =>
      if negb non_numeric then false
      else if Z.of_nat (length name) >? VALID_HOSTNAME_LEN then false
      else true
  end.

(** The description: dot-separated labels of 1 to 63 letters, digits, "_" or "-",
    no "-" at either end of a label; at most 255 characters, not all of them
    digits and dots. *)
Definition host_char (c : Z) : bool := ISALNUM c || (c =? "_"%ch) || (c =? "-"%ch).

Definition label_ok (l : bytes) : bool :=
  negb (length l =? 0)%nat && (Z.of_nat (length l) <=? VALID_LABEL_LEN) &&
  forallb host_char l && negb (cp l 0 =? "-"%ch) && negb (cp l (length l - 1) =? "-"%ch).

Definition non_numeric_char (c : Z) : bool := negb (ISDIGIT c) && negb (c =? "."%ch).

Definition hostname_ok (name : bytes) : bool :=
  forallb label_ok (split_on "."%ch name) && existsb non_numeric_char name &&
  (Z.of_nat (length name) <=? VALID_HOSTNAME_LEN).

(** ** valid_ipv4_hostaddr() *)

Definition zero_dot (c : Z) : bool := (c =? "0"%ch) || (c =? "."%ch).

Section ipv4.
(** The whole address, for the test of the initial octet. *)
Context (addr : bytes).

(** [addr[strspn(addr, "0.")] != 0] *)
Definition other_than_zeros : bool := negb (cp addr (strspn zero_dot addr) =? 0).

Fixpoint ipv4_loop (cpos : bytes) (in_byte : bool) (byte_count byte_val : Z) : option Z :=
  match cpos with
  | [] => Some byte_count
  | ch :: next =>
      if ISDIGIT ch then
        let '(byte_count, byte_val) :=
          if negb in_byte then (byte_count + 1, 0) else (byte_count, byte_val) in
        let byte_val := byte_val * 10 in
        let byte_val := byte_val + (ch - "0"%ch) in
        if byte_val >? 255 then None
        else ipv4_loop next true byte_count byte_val
      else if ch =? "."%ch then
        if negb in_byte || (cp next 0 =? 0) then None
        else if (byte_count =? 1) && (byte_val =? 0) && other_than_zeros then None
        else ipv4_loop next false byte_count byte_val
      else None
  end.
End ipv4.

Definition BYTES_NEEDED : Z := 4.

Definition valid_ipv4_hostaddr (addr : bytes) : bool :=
  match ipv4_loop addr addr false 0 0 with
  | None => false
  | Some byte_count => byte_count =? BYTES_NEEDED
  end.

(** The description: four dot-separated decimal numbers up to 255 (leading zeros
    allowed); the first may be 0 only when all are. *)
Definition octet_val (acc : Z) (f : bytes) : Z := foldl (fun v c => v * 10 + (c - "0"%ch)) acc f.
Arguments octet_val : simpl never.

Definition octet_ok (f : bytes) : bool :=
  negb (length f =? 0)%nat && forallb ISDIGIT f && (octet_val 0 f <=? 255).

Definition ipv4_ok (addr : bytes) : bool :=
  let fs := split_on "."%ch addr in
  (length fs =? 4)%nat && forallb octet_ok fs &&
  (negb (octet_val 0 (hd [] fs) =? 0) || forallb zero_dot addr).

(** ** valid_ipv6_hostaddr() *)

Definition hex_char (c : Z) : bool :=
  ISDIGIT c || in_range "a"%ch "f"%ch c || in_range "A"%ch "F"%ch c.

(** The state of the loop is the position [cp - len] where the current field
    starts, and [len].  Every round that continues moves [cp] forward, so one
    more round than the address has characters is enough. *)
Fixpoint ipv6_loop (fuel : nat) (start : bytes) (len : nat) (field null_field : Z) : bool :=
  match fuel with
  | O => false
  | S fuel =>
      match drop len start with
      | [] =>
          if field <? 2 then false
          else if (Z.of_nat len =? 0) && negb (null_field =? field - 1) then false
          else true
      | ch :: next =>
          if ch =? "."%ch then
            if (field <? 2) || (field >? 6) then false
            else valid_ipv4_hostaddr start
          else if ch =? ":"%ch then
            if (field =? 0) && (Z.of_nat len =? 0) && ISALNUM (cp next 0) then false else
            let field := field + 1 in
            if field >? 7 then false else
            if cp next 0 =? ":"%ch then
              if null_field >? 0 then false
              else ipv6_loop fuel next 0 field field
            else ipv6_loop fuel next 0 field null_field
          else
            let start := drop len start in
            let len := strspn hex_char start in
            if Z.of_nat len >? 4 then false
            else if Z.of_nat len <=? 0 then false
            else ipv6_loop fuel start len field null_field
      end
  end.

Definition valid_ipv6_hostaddr (addr : bytes) : bool :=
  ipv6_loop (S (length addr)) addr 0 0 0.

(** The description, by the fields between colons: three to eight fields, of up to
    four hexadecimal digits; at most one of the fields between the first and the
    last is empty; the first field may be empty when the second is; the last field
    may be empty when the one before it is, or, with at most seven fields, it may
    be an IPv4 address. *)
Definition hex_field (f : bytes) : bool := forallb hex_char f && (length f <=? 4)%nat.

Definition is_empty (f : bytes) : bool := (length f =? 0)%nat.

Definition count_empty (fs : list bytes) : nat := length (List.filter is_empty fs).

Definition ipv6_last_ok (n : Z) (prev f : bytes) : bool :=
  (hex_field f && (negb (is_empty f) || is_empty prev)) ||
  ((n <=? 6) && (strspn hex_char f <=? 4)%nat && ipv4_ok f).

Definition ipv6_ok (addr : bytes) : bool :=
  let fs := split_on ":"%ch addr in
  let n := Z.of_nat (length fs) - 1 in
  let front := removelast fs in
  (2 <=? n) && (n <=? 7) && forallb hex_field front &&
  (negb (is_empty (nth 0 fs [])) || is_empty (nth 1 fs [])) &&
  (count_empty (tl front) <=? 1)%nat &&
  ipv6_last_ok n (List.last front []) (List.last fs []).

(** ** valid_hostaddr(), alldig() and valid_hostport() *)

Definition valid_hostaddr (addr : bytes) : bool :=
  if cp addr 0 =? 0 then false
  else if existsb (Z.eqb ":"%ch) addr then valid_ipv6_hostaddr addr
  else valid_ipv4_hostaddr addr.

Definition alldig (s : bytes) : bool :=
  if cp s 0 =? 0 then false else forallb ISDIGIT s.

(** atoi() of a text of at most five digits. *)
Definition atoi (s : bytes) : Z := octet_val 0 s.

Definition valid_hostport (s : bytes) : bool :=
  if (cp s 0 =? "0"%ch) && negb (cp s 1 =? 0) then false
  else if negb (alldig s) then false
  else if (Z.of_nat (length s) >? 5) || (atoi s >? 65535) || (atoi s <? 0) then false
  else true.

(** ** Lemmas: host names *)

Lemma host_char_cchar c : host_char c = true -> c <> 0 /\ c <> "."%ch.
Proof. intros H. split; intros ->; discriminate H. Qed.

Lemma cp_nonzero s : Forall is_cchar s -> (cp s 0 =? 0) = bool_decide (s = []).
Proof.
  intros H. destruct s as [|c s]; [done|]. apply Forall_cons in H as [Hc _]. cbn.
  zb. by rewrite (proj2 (Z.eqb_neq c 0)) by lia.
Qed.

Lemma cp_last cur c : cp (cur ++ [c]) (length (cur ++ [c]) - 1) = c.
Proof.
  unfold cp. rewrite app_nth2; rewrite length_app; cbn; [|lia].
  by replace (length cur + 1 - 1 - length cur)%nat with 0%nat by lia.
Qed.

(** The scan is inside a label that may still become a good one. *)
Definition scan_ok (cur s : bytes) : Prop :=
  forallb host_char cur = true /\ (cur <> [] -> cp cur 0 <> "-"%ch) /\
  (cur <> [] -> cp cur (length cur - 1) = "-"%ch -> s <> [] /\ cp s 0 <> "."%ch) /\
  (Z.of_nat (length cur) <= 63 \/ (cur <> [] /\ cp cur (length cur - 1) = "-"%ch)).

Lemma scan_ok_nil s : scan_ok [] s.
Proof. repeat split; try done; by left. Qed.

Lemma scan_ok_label cur s :
  scan_ok cur s -> (s = [] \/ cp s 0 = "."%ch) -> label_ok cur = negb (length cur =? 0)%nat.
Proof.
  intros (H1 & H2 & H3 & H4) Hs. unfold label_ok. destruct cur as [|c cur]; [done|].
  assert (Hl : cp (c :: cur) (length (c :: cur) - 1) <> "-"%ch).
  { intros Hl. destruct (H3 ltac:(done) Hl), Hs; done. }
  destruct H4 as [H4|[_ H4]]; [|done]. rewrite H1, (proj2 (Z.leb_le _ _)) by done.
  rewrite (proj2 (Z.eqb_neq (cp (c :: cur) 0) _)) by auto.
  by rewrite (proj2 (Z.eqb_neq (cp (c :: cur) (length (c :: cur) - 1)) _)).
Qed.

(** A label that starts with a bad prefix is bad. *)
Lemma bad_first cur s : (forall t, label_ok (cur ++ t) = false) ->
  forallb label_ok (split_from "."%ch cur s) = false.
Proof. intros H. destruct (split_from_prefix "."%ch s cur) as (t & fs & ->). cbn. by rewrite H. Qed.

Lemma label_ok_long l : 63 < Z.of_nat (length l) -> label_ok l = false.
Proof.
  intros H. unfold label_ok, VALID_LABEL_LEN.
  rewrite (proj2 (Z.leb_gt _ 63)) by done. by rewrite andb_false_r.
Qed.

Lemma label_ok_char l c : In c l -> host_char c = false -> label_ok l = false.
Proof.
  intros Hin Hc. unfold label_ok. destruct (forallb host_char l) eqn:E; [|by rewrite andb_false_r].
  rewrite forallb_forall in E. by rewrite (E c Hin) in Hc.
Qed.

Lemma label_ok_ends l : cp l 0 = "-"%ch \/ cp l (length l - 1) = "-"%ch -> label_ok l = false.
Proof. unfold label_ok. intros [->| ->]; cbn; by rewrite ?andb_false_r. Qed.

Lemma cp_app_l cur t : cur <> [] -> cp (cur ++ t) 0 = cp cur 0.
Proof. by destruct cur. Qed.

Lemma scan_ok_snoc cur c s :
  scan_ok cur (c :: s) -> host_char c = true ->
  (cur = [] -> c <> "-"%ch) -> (c = "-"%ch -> s <> [] /\ cp s 0 <> "."%ch) ->
  (c <> "-"%ch -> Z.of_nat (length cur) < 63) -> scan_ok (cur ++ [c]) s.
Proof.
  intros (H1 & H2 & H3 & H4) Hc Hfirst Hlast Hlen. split_and!.
  - by rewrite forallb_app, H1; cbn; rewrite Hc.
  - intros _. destruct cur as [|x cur]; [by apply Hfirst|by apply H2].
  - intros _. rewrite cp_last. exact Hlast.
  - rewrite cp_last, length_app. cbn. destruct (Z.eq_dec c "-"%ch) as [->|Hn].
    + right. by destruct cur.
    + left. specialize (Hlen Hn). lia.
Qed.

Lemma non_numeric_alt c b :
  c <> "."%ch -> (if negb (ISDIGIT c) then true else b) = b || non_numeric_char c.
Proof.
  intros H. unfold non_numeric_char. rewrite (proj2 (Z.eqb_neq _ _) H).
  destruct (ISDIGIT c); cbn; by rewrite ?orb_false_r, ?orb_true_r.
Qed.

(** The scanner is right from any point inside a label. *)
Lemma hostname_loop_spec s : forall cur nn, Forall is_cchar s -> scan_ok cur s -> cur ++ s <> [] ->
  hostname_loop s (Z.of_nat (length cur)) nn =
    if forallb label_ok (split_from "."%ch cur s) then Some (nn || existsb non_numeric_char s) else None.
Proof.
  induction s as [|c s IH]; intros cur nn Hs Hok Hne.
  { rewrite app_nil_r in Hne. cbn. rewrite (scan_ok_label cur []) by auto.
    destruct cur; [done|]. cbn. by rewrite orb_false_r. }
  apply Forall_cons in Hs as [Hc Hs].
  assert (Hsnoc : Z.of_nat (length cur) + 1 = Z.of_nat (length (cur ++ [c])))
    by (rewrite length_app; cbn; lia).
  cbn [hostname_loop split_from existsb]. rewrite orb_assoc.
  destruct (ISALNUM c || (c =? "_"%ch)) eqn:Ha.
  { assert (Hd : c <> "-"%ch /\ c <> "."%ch) by (split; intros ->; discriminate Ha).
    destruct Hd as [Hd Hp]. rewrite (proj2 (Z.eqb_neq _ _) Hp), Hsnoc, (non_numeric_alt c nn Hp).
    assert (Hhc : host_char c = true) by (unfold host_char; by rewrite Ha).
    destruct (Z.gtb_spec (Z.of_nat (length (cur ++ [c]))) VALID_LABEL_LEN) as [Hl|Hl].
    - rewrite bad_first; [done|]. intros t. apply label_ok_long.
      rewrite length_app. unfold VALID_LABEL_LEN in Hl. lia.
    - rewrite IH; [done|done| |by destruct cur].
      apply scan_ok_snoc; [done..|]. intros _. unfold VALID_LABEL_LEN in Hl.
      rewrite length_app in Hl. cbn in Hl. lia. }
  destruct (Z.eqb_spec c "."%ch) as [->|Hp].
  { cbn [forallb]. rewrite (scan_ok_label cur ("."%ch :: s)), cp_nonzero by auto.
    replace (Z.of_nat (length cur) =? 0) with (length cur =? 0)%nat by lia.
    destruct (length cur =? 0)%nat; cbn; [done|]. destruct s as [|d s]; [done|].
    rewrite bool_decide_false by done. change 0 with (Z.of_nat (length (@nil Z))).
    rewrite (IH [] nn); [|done|apply scan_ok_nil|done].
    unfold non_numeric_char at 2. cbn. by rewrite orb_false_r. }
  destruct (Z.eqb_spec c "-"%ch) as [->|Hd].
  { rewrite Hsnoc, cp_nonzero by done.
    destruct (Z.eqb_spec (Z.of_nat (length (cur ++ ["-"%ch]))) 1) as [Hl|Hl]; cbn [orb].
    { destruct cur as [|x cur]; [|rewrite length_app in Hl; cbn in Hl; lia].
      rewrite bad_first; [done|]. intros t. apply label_ok_ends. by left. }
    case_bool_decide as Hs0; cbn [orb].
    { subst s. cbn. rewrite label_ok_ends; [done|]. right. apply cp_last. }
    destruct (Z.eqb_spec (cp s 0) "."%ch) as [Hs1|Hs1].
    { destruct s as [|d s]; [done|]. cbn in Hs1. subst d. cbn.
      rewrite label_ok_ends; [done|]. right. apply cp_last. }
    rewrite IH; [|done| |by destruct cur].
    - by rewrite orb_true_r.
    - apply scan_ok_snoc; auto; [|done]. intros ->. by cbn in Hl. }
  rewrite bad_first; [done|]. intros t. apply (label_ok_char _ c).
  - rewrite !in_app_iff. left. right. by left.
  - unfold host_char. rewrite Ha. cbn. by apply Z.eqb_neq.
Qed.

(** valid_hostname() accepts exactly the names that hostname_ok describes:
    one or more dot-separated labels of 1 to 63 letters, digits, underscores and
    hyphens, no label with a hyphen at either end, 255 characters at most in all,
    and not a name of digits and dots only. *)
Theorem valid_hostname_spec name :
  Forall is_cchar name -> valid_hostname name = hostname_ok name.
Proof.
  intros H. unfold valid_hostname, hostname_ok. rewrite cp_nonzero by done.
  case_bool_decide as Hn; [by subst name|].
  change 0 with (Z.of_nat (length (@nil Z))).
  rewrite (hostname_loop_spec name [] false); [|done|apply scan_ok_nil|done].
  unfold split_on. destruct (forallb label_ok _); cbn; [|done].
  destruct (existsb _ _); cbn; [|done].
  rewrite Z.gtb_ltb. destruct (Z.ltb_spec VALID_HOSTNAME_LEN (Z.of_nat (length name))); lia.
Qed.

Lemma valid_hostname_spec_witness :
  valid_hostname (str "mail-1.example.com") = true /\ valid_hostname (str "10.0.0.1") = false /\
  valid_hostname (str "a.-b") = hostname_ok (str "a.-b").
Proof.
  split_and!; [reflexivity|reflexivity|].
  apply (valid_hostname_spec (str "a.-b")). repeat constructor.
Defined.

(** ** Lemmas: IPv4 addresses *)

Lemma octet_val_ge t : forall acc, 0 <= acc -> forallb ISDIGIT t = true -> acc <= octet_val acc t.
Proof.
  unfold octet_val. induction t as [|c t IH]; cbn; intros acc Hacc Ht; [lia|].
  apply andb_true_iff in Ht as [Hc Ht]. zb.
  specialize (IH (acc * 10 + (c - 48)) ltac:(lia) Ht). lia.
Qed.

Lemma octet_val_snoc acc l c : octet_val acc (l ++ [c]) = octet_val acc l * 10 + (c - "0"%ch).
Proof. unfold octet_val. by rewrite foldl_snoc. Qed.

Lemma octet_val_app acc l t : octet_val acc (l ++ t) = octet_val (octet_val acc l) t.
Proof. unfold octet_val. by rewrite foldl_app. Qed.

Lemma octet_ok_bad l t :
  forallb ISDIGIT l = true -> 255 < octet_val 0 l -> octet_ok (l ++ t) = false.
Proof.
  intros Hl Hv. unfold octet_ok. rewrite forallb_app, octet_val_app.
  destruct (forallb ISDIGIT t) eqn:Ht; [|by rewrite !andb_false_r].
  rewrite (proj2 (Z.leb_gt _ 255)); [by rewrite andb_false_r|].
  pose proof (octet_val_ge t (octet_val 0 l)). lia.
Qed.

Lemma octet_ok_char l c : In c l -> ISDIGIT c = false -> octet_ok l = false.
Proof.
  intros Hin Hc. unfold octet_ok. destruct (forallb ISDIGIT l) eqn:E; [|by rewrite andb_false_r].
  rewrite forallb_forall in E. by rewrite (E c Hin) in Hc.
Qed.

Lemma octet_first cur s : (forall t, octet_ok (cur ++ t) = false) ->
  forallb octet_ok (split_from "."%ch cur s) = false.
Proof. intros H. destruct (split_from_prefix "."%ch s cur) as (t & fs & ->). cbn. by rewrite H. Qed.

Lemma other_than_zeros_spec addr :
  Forall is_cchar addr -> other_than_zeros addr = negb (forallb zero_dot addr).
Proof.
  intros H. unfold other_than_zeros, cp. f_equal.
  destruct (forallb zero_dot addr) eqn:E.
  - rewrite (proj2 (strspn_all _ _) E), nth_overflow; [done|lia].
  - assert (Hlt : (strspn zero_dot addr < length addr)%nat).
    { pose proof (strspn_le zero_dot addr). pose proof (strspn_all zero_dot addr).
      assert (strspn zero_dot addr <> length addr) by (intros ?%H1; congruence). lia. }
    apply Z.eqb_neq. pose proof (proj1 (Forall_nth is_cchar 0 addr) H _ Hlt) as Hc. zb. lia.
Qed.

(** The initial octet is refused: it is complete, it is zero, and the address
    holds something else than zeros and dots. *)
Definition bad_initial (addr : bytes) (bc : Z) (fs : list bytes) : bool :=
  (bc =? 0) && (1 <? length fs)%nat && (octet_val 0 (hd [] fs) =? 0) && other_than_zeros addr.

Lemma bad_initial_later addr bc fs : 0 < bc -> bad_initial addr bc fs = false.
Proof. intros H. unfold bad_initial. by rewrite (proj2 (Z.eqb_neq bc 0)) by lia. Qed.

(** The scanner is right from any point inside an octet: [bc] octets are behind
    it, [cur] holds the digits of the present one. *)
Lemma ipv4_loop_spec addr s : forall cur bc bv,
  Forall is_cchar s -> forallb ISDIGIT cur = true -> octet_val 0 cur <= 255 -> 0 <= bc ->
  cur ++ s <> [] -> (cur <> [] -> bv = octet_val 0 cur) ->
  ipv4_loop addr s (negb (length cur =? 0)%nat) (if (length cur =? 0)%nat then bc else bc + 1) bv =
    let fs := split_from "."%ch cur s in
    if forallb octet_ok fs && negb (bad_initial addr bc fs)
    then Some (bc + Z.of_nat (length fs)) else None.
Proof.
  induction s as [|c s IH]; intros cur bc bv Hs Hcur Hv Hbc Hne Hbv.
  { rewrite app_nil_r in Hne. destruct cur as [|x cur]; [done|].
    cbn [ipv4_loop split_from forallb]. unfold octet_ok, bad_initial. rewrite Hcur.
    rewrite (proj2 (Z.leb_le _ 255)) by done. cbn. by rewrite andb_false_r. }
  apply Forall_cons in Hs as [Hc Hs]. cbn [ipv4_loop split_from].
  destruct (ISDIGIT c) eqn:Hd.
  { assert (Hp : (c =? "."%ch) = false) by (apply Z.eqb_neq; intros ->; discriminate Hd).
    rewrite Hp, negb_involutive.
    assert (Hval : octet_val 0 (cur ++ [c]) =
      (if (length cur =? 0)%nat then 0 else bv) * 10 + (c - "0"%ch)).
    { rewrite octet_val_snoc. destruct cur; [done|]. by rewrite Hbv. }
    assert (Hcur' : forallb ISDIGIT (cur ++ [c]) = true) by (rewrite forallb_app, Hcur; cbn; by rewrite Hd).
    specialize (IH (cur ++ [c]) bc (octet_val 0 (cur ++ [c])) Hs Hcur').
    replace (length (cur ++ [c]) =? 0)%nat with false in IH by (rewrite length_app; cbn; lia).
    assert (Hsel : (if (length cur =? 0)%nat
       then ((if (length cur =? 0)%nat then bc else bc + 1) + 1, 0)
       else (if (length cur =? 0)%nat then bc else bc + 1, bv)) =
       (bc + 1, if (length cur =? 0)%nat then 0 else bv)) by (by destruct (length cur =? 0)%nat).
    rewrite Hsel, <- Hval. destruct (Z.gtb_spec (octet_val 0 (cur ++ [c])) 255) as [Hg|Hg].
    - rewrite octet_first; [done|]. intros t. by apply octet_ok_bad.
    - apply IH; [done|done|by destruct cur|done]. }
  destruct (Z.eqb_spec c "."%ch) as [->|Hp].
  { rewrite negb_involutive, cp_nonzero by done. cbn [forallb].
    destruct cur as [|x cur]; [done|]. cbn [length Nat.eqb orb].
    replace (octet_ok (x :: cur)) with true
      by (unfold octet_ok; rewrite Hcur; symmetry; by apply Z.leb_le).
    case_bool_decide as Hs0; [by subst s|]. cbn [andb].
    assert (H1 : (bc + 1 =? 1) = (bc =? 0)) by lia.
    assert (H2 : (1 <? S (length (split_from "."%ch [] s)))%nat = true).
    { pose proof (split_from_nonempty "."%ch [] s). destruct (split_from "."%ch [] s); [done|]. cbn. lia. }
    rewrite H1, Hbv by done. unfold bad_initial. cbn [hd length]. rewrite H2, andb_true_r.
    destruct ((bc =? 0) && (octet_val 0 (x :: cur) =? 0) && other_than_zeros addr) eqn:Hb.
    { by rewrite andb_false_r. }
    specialize (IH [] (bc + 1) (octet_val 0 (x :: cur))). cbn in IH. rewrite IH; [|done..|lia|done|done].
    rewrite bad_initial_later by lia. cbn [negb]. rewrite !andb_true_r.
    destruct (forallb _ _); [|done]. f_equal. cbn [length]. lia. }
  rewrite octet_first; [done|]. intros t. apply (octet_ok_char _ c); [|done].
  rewrite !in_app_iff. left. right. by left.
Qed.

Lemma valid_ipv4_hostaddr_eq addr :
  Forall is_cchar addr -> valid_ipv4_hostaddr addr = ipv4_ok addr.
Proof.
  intros H. unfold valid_ipv4_hostaddr, ipv4_ok.
  destruct (decide (addr = [])) as [->|Hn]; [done|].
  pose proof (ipv4_loop_spec addr addr [] 0 0 H) as Hl. cbn in Hl. rewrite Hl; [|done..].
  unfold split_on, bad_initial, BYTES_NEEDED. rewrite other_than_zeros_spec by done.
  set (fs := split_from "."%ch [] addr). cbn [Z.eqb].
  destruct (forallb octet_ok fs); cbn [andb]; [|by rewrite andb_false_r].
  destruct (length fs =? 4)%nat eqn:E4.
  - apply Nat.eqb_eq in E4. rewrite E4. cbn.
    destruct (octet_val 0 (hd [] fs) =? 0), (forallb zero_dot addr); done.
  - apply Nat.eqb_neq in E4. cbn [andb].
    repeat case_match; simplify_eq; try done; apply Z.eqb_neq; lia.
Qed.

(** valid_ipv4_hostaddr() accepts exactly four dot-separated decimal
    numbers, each with at least one digit and at most 255, where the first may be
    zero only in an address of zeros and dots (0.0.0.0 but not 0.1.2.3). *)
Theorem valid_ipv4_hostaddr_spec addr :
  Forall is_cchar addr -> valid_ipv4_hostaddr addr = ipv4_ok addr.
Proof. exact (valid_ipv4_hostaddr_eq addr). Qed.

Lemma valid_ipv4_hostaddr_spec_witness :
  valid_ipv4_hostaddr (str "0.0.0.0") = true /\ valid_ipv4_hostaddr (str "0.1.2.3") = false /\
  valid_ipv4_hostaddr (str "127.0.0.256") = ipv4_ok (str "127.0.0.256").
Proof.
  split_and!; [reflexivity|reflexivity|].
  apply (valid_ipv4_hostaddr_spec (str "127.0.0.256")). repeat constructor.
Defined.

(** ** Lemmas: IPv6 addresses *)

(** The scan, field by field: [i] colons are behind it, [nf] is null_field. *)
Fixpoint fields_ok (i nf : Z) (fs : list bytes) : bool :=
  match fs with
  | [] => false
  | f :: rest =>
      match rest with
      | [] => (2 <=? i) && ((hex_field f && (negb (is_empty f) || (nf =? i - 1))) ||
                ((i <=? 6) && (strspn hex_char f <=? 4)%nat && ipv4_ok f))
      | g :: r =>
          let null := is_empty g && negb (length r =? 0)%nat in
          hex_field f && (negb (i =? 0) || negb (is_empty f) || null) && (i + 1 <=? 7) &&
          (if null then (nf <=? 0) && fields_ok (i + 1) (i + 1) rest
           else fields_ok (i + 1) nf rest)
      end
  end.

Lemma is_empty_true f : is_empty f = true <-> f = [].
Proof. by destruct f. Qed.

Lemma fields_ok_spec fs : forall f (prev : bytes) i nf,
  1 <= i <= 7 -> 0 <= nf <= i -> (nf = i <-> f = [] /\ fs <> []) ->
  (2 <= i -> f = [] -> fs = [] -> (nf = i - 1 <-> prev = [])) ->
  fields_ok i nf (f :: fs) =
    let n := i + Z.of_nat (length fs) in
    (2 <=? n) && (n <=? 7) && forallb hex_field (removelast (f :: fs)) &&
    ((if (0 <? nf)%Z then 1 else 0) + count_empty (tl (removelast (f :: fs))) <=? 1)%nat &&
    ipv6_last_ok n (List.last (prev :: removelast (f :: fs)) []) (List.last (f :: fs) []).
Proof.
  induction fs as [|g r IH]; intros f prev i nf Hi Hnf H1 H2.
  { cbn -[hex_field ipv4_ok strspn]. rewrite Z.add_0_r, (proj2 (Z.leb_le i 7)) by lia.
    unfold ipv6_last_ok. destruct (Z.leb_spec 2 i); cbn; [|done].
    replace ((if (0 <? nf)%Z then 1 else 0) + 0 <=? 1)%nat with true by (case_match; done).
    cbn. f_equal. f_equal. destruct (is_empty f) eqn:Ef; cbn; [|done].
    apply is_empty_true in Ef. specialize (H2 ltac:(done) Ef eq_refl).
    apply eq_true_iff_eq. by rewrite Z.eqb_eq, is_empty_true. }
  set (null := is_empty g && negb (length r =? 0)%nat).
  assert (Hnull : null = true <-> g = [] /\ r <> []).
  { unfold null. rewrite andb_true_iff, is_empty_true. clear; destruct r; cbn; naive_solver. }
  change (fields_ok i nf (f :: g :: r)) with
    (hex_field f && (negb (i =? 0) || negb (is_empty f) || null) && (i + 1 <=? 7) &&
     (if null then (nf <=? 0) && fields_ok (i + 1) (i + 1) (g :: r)
      else fields_ok (i + 1) nf (g :: r))).
  rewrite (proj2 (Z.eqb_neq i 0)) by lia. cbn [negb orb]. rewrite andb_true_r.
  cbn zeta. replace (i + Z.of_nat (length (g :: r))) with (i + 1 + Z.of_nat (length r)) by (cbn [length]; lia).
  destruct (Z.leb_spec (i + 1) 7) as [Hle|Hgt].
  2:{ rewrite (proj2 (Z.leb_gt (i + 1 + _) 7)) by lia. by rewrite !andb_false_r. }
  rewrite (proj2 (Z.leb_le 2 (i + 1 + _))) by lia.
  assert (Hlast : List.last (prev :: removelast (f :: g :: r)) [] =
    List.last (f :: removelast (g :: r)) []) by done.
  rewrite Hlast. change (removelast (f :: g :: r)) with (f :: removelast (g :: r)).
  change (List.last (f :: g :: r) []) with (List.last (g :: r) []). cbn [forallb tl andb].
  assert (Hcount : count_empty (removelast (g :: r)) =
    ((if null then 1 else 0) + count_empty (tl (removelast (g :: r))))%nat).
  { unfold null. destruct r as [|h r]; cbn -[removelast]; [by rewrite andb_false_r|].
    change (removelast (g :: h :: r)) with (g :: removelast (h :: r)). unfold count_empty.
    cbn -[removelast]. rewrite andb_true_r. by destruct (is_empty g). }
  rewrite Hcount.
  assert (Hprev : forall nf', 2 <= i + 1 -> g = [] -> r = [] -> nf' = nf -> (nf' = i + 1 - 1 <-> f = [])).
  { intros nf' _ Hg Hr ->. subst. replace (i + 1 - 1) with i by lia. rewrite H1. naive_solver. }
  destruct null.
  - destruct (proj1 Hnull eq_refl) as [-> Hr]. rewrite (IH [] f (i + 1) (i + 1)); [|lia..|naive_solver lia|naive_solver].
    cbn zeta. rewrite (proj2 (Z.leb_le 2 (i + 1 + _))), (proj2 (Z.ltb_lt 0 (i + 1))) by lia. cbn [andb].
    destruct (Z.leb_spec nf 0), (Z.ltb_spec 0 nf); lia.
  - rewrite (IH g f (i + 1) nf); [|lia..| |].
    + cbn zeta. rewrite (proj2 (Z.leb_le 2 (i + 1 + _))) by lia. cbn [andb].
      by destruct (hex_field f), (i + 1 + _ <=? 7).
    + split; [lia|]. intros H%Hnull. done.
    + intros. by apply Hprev.
Qed.

Lemma fields_ok_top addr : fields_ok 0 0 (split_on ":"%ch addr) = ipv6_ok addr.
Proof.
  unfold ipv6_ok. destruct (split_on ":"%ch addr) as [|f0 [|g r]]; [done..|].
  change (fields_ok 0 0 (f0 :: g :: r)) with
    (hex_field f0 && (negb (is_empty f0) || (is_empty g && negb (length r =? 0)%nat)) && true &&
     (if is_empty g && negb (length r =? 0)%nat then fields_ok 1 1 (g :: r)
      else fields_ok 1 0 (g :: r))).
  cbn zeta. replace (Z.of_nat (length (f0 :: g :: r)) - 1) with (1 + Z.of_nat (length r)) by (cbn [length]; lia).
  change (removelast (f0 :: g :: r)) with (f0 :: removelast (g :: r)).
  change (List.last (f0 :: g :: r) []) with (List.last (g :: r) []). cbn [forallb tl nth].
  rewrite andb_true_r.
  destruct r as [|h r]; [cbn -[hex_field ipv4_ok]; by rewrite !andb_false_r|].
  cbn [length Nat.eqb negb]. rewrite andb_true_r.
  assert (Hc : count_empty (removelast (g :: h :: r)) =
    ((if is_empty g then 1 else 0) + count_empty (tl (removelast (g :: h :: r))))%nat).
  { change (removelast (g :: h :: r)) with (g :: removelast (h :: r)). unfold count_empty.
    cbn -[removelast]. by destruct (is_empty g). }
  rewrite Hc. destruct (is_empty g) eqn:Eg.
  - apply is_empty_true in Eg as ->. rewrite (fields_ok_spec (h :: r) [] f0); [|lia..|naive_solver|lia].
    rewrite orb_true_r. cbn zeta. change (0 <? 1) with true. cbv iota.
    cbn [length]. lia.
  - rewrite (fields_ok_spec (h :: r) g f0); [|lia..| |lia].
    + cbn zeta. change (0 <? 0) with false. cbv iota.
      cbn [length]. lia.
    + split; [lia|]. intros [-> _]. done.
Qed.

Lemma strspn_prefix p s : exists t, s = take (strspn p s) s ++ t /\ forallb p (take (strspn p s) s) = true /\
  t = drop (strspn p s) s.
Proof. exists (drop (strspn p s) s). split_and!; [by rewrite take_drop|apply strspn_take|done]. Qed.

Lemma split_from_app sep f t : forall cur,
  forallb (fun c => negb (c =? sep)) f = true ->
  split_from sep cur (f ++ t) = split_from sep (cur ++ f) t.
Proof.
  induction f as [|c f IH]; intros cur Hf; cbn; [by rewrite app_nil_r|].
  cbn in Hf. apply andb_true_iff in Hf as [Hc Hf]. apply negb_true_iff in Hc. rewrite Hc, IH by done.
  by rewrite <- app_assoc.
Qed.

Lemma ipv4_ok_char l c : In c l -> ISDIGIT c = false -> c <> "."%ch -> ipv4_ok l = false.
Proof.
  intros Hin Hd Hp. unfold ipv4_ok.
  replace (forallb octet_ok (split_on "."%ch l)) with false; [by rewrite andb_false_r|].
  symmetry. unfold split_on. generalize (@nil Z). induction l as [|x l IH]; [done|].
  intros cur. destruct Hin as [->|Hin]; cbn.
  - rewrite (proj2 (Z.eqb_neq _ _) Hp). apply octet_first. intros t. apply (octet_ok_char _ c); [|done].
    rewrite !in_app_iff. left. right. by left.
  - case_match; cbn; [by rewrite IH, andb_false_r|by apply IH].
Qed.

(** The first field of what follows a prefix without colons. *)
Lemma split_colon s : forall cur,
  (forallb (fun c => negb (c =? ":"%ch)) s = true /\ split_from ":"%ch cur s = [cur ++ s]) \/
  (In ":"%ch s /\ exists t g r, split_from ":"%ch cur s = (cur ++ t) :: g :: r).
Proof.
  induction s as [|c s IH]; intros cur; cbn; [left; by rewrite app_nil_r|].
  destruct (Z.eqb_spec c ":"%ch) as [->|Hc]; cbn.
  - right. split; [by left|]. destruct (split_from_prefix ":"%ch s []) as (t & fs & ->).
    exists [], ([] ++ t), fs. by rewrite app_nil_r.
  - destruct (IH (cur ++ [c])) as [[Ha ->]|(Ha & t & g & r & ->)].
    + left. by rewrite <- app_assoc.
    + right. split; [by right|]. exists (c :: t), g, r. by rewrite <- app_assoc.
Qed.

Lemma hex_field_char l c : In c l -> hex_char c = false -> hex_field l = false.
Proof.
  intros Hin Hc. unfold hex_field. destruct (forallb hex_char l) eqn:E; [|done].
  rewrite forallb_forall in E. by rewrite (E c Hin) in Hc.
Qed.

(** A field with a character that is not hexadecimal is fatal, unless it is the
    last one and an IPv4 address. *)
Lemma fields_ok_bad i nf f c g r :
  In c f -> hex_char c = false -> fields_ok i nf (f :: g :: r) = false.
Proof.
  intros Hin Hc. change (fields_ok i nf (f :: g :: r)) with
    (hex_field f && (negb (i =? 0) || negb (is_empty f) || (is_empty g && negb (length r =? 0)%nat))
      && (i + 1 <=? 7) &&
     (if is_empty g && negb (length r =? 0)%nat then (nf <=? 0) && fields_ok (i + 1) (i + 1) (g :: r)
      else fields_ok (i + 1) nf (g :: r))).
  by rewrite (hex_field_char f c).
Qed.

Lemma fields_ok_last i nf f : fields_ok i nf [f] =
  (2 <=? i) && ((hex_field f && (negb (is_empty f) || (nf =? i - 1))) ||
                ((i <=? 6) && (strspn hex_char f <=? 4)%nat && ipv4_ok f)).
Proof. reflexivity. Qed.

(** The scan leaves the hexadecimal prefix [f] of a field at a dot. *)
Lemma fields_ok_dot i nf f r :
  (length f <= 4)%nat -> Forall is_cchar (f ++ "."%ch :: r) ->
  strspn hex_char (f ++ "."%ch :: r) = length f ->
  fields_ok i nf (split_from ":"%ch f ("."%ch :: r)) =
    if (i <? 2) || (i >? 6) then false else valid_ipv4_hostaddr (f ++ "."%ch :: r).
Proof.
  intros Hlen Hc Hspan. rewrite valid_ipv4_hostaddr_eq by done. cbn [split_from].
  change ("."%ch =? ":"%ch) with false. cbv iota.
  assert (Hdot : forall t, In "."%ch ((f ++ ["."%ch]) ++ t)) by (intros; rewrite !in_app_iff; cbn; auto).
  destruct (split_colon r (f ++ ["."%ch])) as [[_ ->]|(Hin & t & g & r' & ->)].
  - rewrite fields_ok_last, (hex_field_char _ _ (Hdot r)) by done.
    rewrite <- app_assoc. change (["."%ch] ++ r) with ("."%ch :: r). rewrite Hspan.
    rewrite (proj2 (Nat.leb_le (length f) 4)) by done.
    rewrite Z.gtb_ltb. destruct (Z.leb_spec 2 i), (Z.leb_spec i 6), (Z.ltb_spec i 2), (Z.ltb_spec 6 i); try lia; done.
  - rewrite (fields_ok_bad _ _ _ _ _ _ (Hdot t)) by done.
    rewrite (ipv4_ok_char _ ":"%ch); [by case_match| |done..].
    rewrite in_app_iff. right. by right.
Qed.

Lemma fields_ok_other i nf f c r :
  hex_char c = false -> c <> "."%ch -> c <> ":"%ch ->
  fields_ok i nf (split_from ":"%ch f (c :: r)) = false.
Proof.
  intros Hc Hp Hs. cbn [split_from]. rewrite (proj2 (Z.eqb_neq _ _) Hs).
  assert (Hin : forall t, In c ((f ++ [c]) ++ t)) by (intros; rewrite !in_app_iff; cbn; auto).
  destruct (split_colon r (f ++ [c])) as [[_ ->]|(_ & t & g & r' & ->)].
  - rewrite fields_ok_last, (hex_field_char _ _ (Hin r)) by done. cbn.
    rewrite (ipv4_ok_char _ _ (Hin r)); [by rewrite !andb_false_r| |done].
    destruct (ISDIGIT c) eqn:E; [|done]. unfold hex_char in Hc. by rewrite E in Hc.
  - by rewrite (fields_ok_bad _ _ _ _ _ _ (Hin t)).
Qed.

Lemma hex_not_delim c : hex_char c = true -> c <> "."%ch /\ c <> ":"%ch.
Proof. intros H. split; intros ->; discriminate H. Qed.

(** The fields after a colon: the next one is empty and not the last exactly when
    another colon follows. *)
Lemma split_null r g gs :
  split_on ":"%ch r = g :: gs ->
  is_empty g && negb (length gs =? 0)%nat = (cp r 0 =? ":"%ch) /\
  (cp r 0 <> ":"%ch -> is_empty g = bool_decide (r = [])).
Proof.
  unfold split_on. destruct r as [|c r]; cbn; intros H; [by injection H as <- <-|].
  destruct (Z.eqb_spec c ":"%ch) as [->|Hc].
  - injection H as <- <-. split; [|done]. cbn.
    pose proof (split_from_nonempty ":"%ch [] r). by destruct (split_from ":"%ch [] r).
  - destruct (split_from_prefix ":"%ch r [c]) as (t & fs & E). rewrite E in H. by injection H as <- <-.
Qed.

(** A first field that is empty must be followed by an empty one. *)
Lemma fields_ok_first r nf :
  cp r 0 <> ":"%ch -> ISALNUM (cp r 0) = false -> fields_ok 1 nf (split_on ":"%ch r) = false.
Proof.
  intros Hc Ha. unfold split_on. destruct r as [|c r]; [done|]. cbn [cp nth] in *.
  destruct (decide (c = "."%ch)) as [->|Hp].
  - cbn [split_from]. change ("."%ch =? ":"%ch) with false. cbv iota.
    destruct (split_colon r ([] ++ ["."%ch])) as [[_ ->]|(_ & t & g & r' & ->)].
    + by rewrite fields_ok_last.
    + rewrite (fields_ok_bad _ _ _ "."%ch); [done| |done].
      by left.
  - apply fields_ok_other; [|done..]. destruct (hex_char c) eqn:Eh; [|done].
    unfold hex_char, ISALNUM, ISALPHA in *. zb. lia.
Qed.

(** The delimiter after the hexadecimal prefix [f] of a field; [Hrec] is the claim
    for the address after the colon. *)
Lemma ipv6_delim fuel f rest i nf :
  (length f <= 4)%nat -> forallb hex_char f = true -> Forall is_cchar (f ++ rest) ->
  strspn hex_char (f ++ rest) = length f -> 0 <= i <= 7 -> 0 <= nf <= i ->
  (forall r i' nf', rest = ":"%ch :: r -> 0 <= i' <= 7 -> 0 <= nf' <= i' ->
     ipv6_loop fuel r 0 i' nf' = fields_ok i' nf' (split_on ":"%ch r)) ->
  (f <> [] \/ exists d r, rest = d :: r /\ (d = "."%ch \/ d = ":"%ch)) ->
  ipv6_loop (S fuel) (f ++ rest) (length f) i nf = fields_ok i nf (split_from ":"%ch f rest).
Proof.
  intros Hlen Hf Hc Hspan Hi Hnf Hrec Hsome. cbn -[split_from fields_ok strspn].
  rewrite drop_app_length. destruct rest as [|c r].
  { cbn [split_from]. rewrite fields_ok_last. unfold hex_field, is_empty. rewrite Hf.
    rewrite (proj2 (Nat.leb_le (length f) 4)) by done. destruct f as [|x f].
    - destruct Hsome as [|(d & r & H & _)]; done.
    - destruct (Z.ltb_spec i 2), (Z.leb_spec 2 i); try lia; done. }
  destruct (Z.eqb_spec c "."%ch) as [->|Hp]; [by rewrite fields_ok_dot|].
  destruct (Z.eqb_spec c ":"%ch) as [->|Hs].
  2:{ rewrite fields_ok_other; [|by destruct (strspn_drop hex_char (f ++ c :: r) c r); rewrite ?Hspan, ?drop_app_length|done..].
      assert (Hh : hex_char c = false).
      { apply (strspn_drop hex_char (f ++ c :: r) c r). by rewrite Hspan, drop_app_length. }
      cbn. by rewrite Hh. }
  cbn [split_from]. rewrite Z.eqb_refl. pose proof (split_null r) as Hnull. unfold split_on in *.
  pose proof (fields_ok_first r) as Hfirst. unfold split_on in Hfirst.
  pose proof (fun i' nf' => Hrec r i' nf' eq_refl) as Hr. clear Hrec.
  destruct (split_from ":"%ch [] r) as [|g gs] eqn:Eg; [by destruct (split_from_nonempty ":"%ch [] r)|].
  destruct (Hnull g gs eq_refl) as [Hn _].
  change (fields_ok i nf (f :: g :: gs)) with
    (hex_field f && (negb (i =? 0) || negb (is_empty f) || (is_empty g && negb (length gs =? 0)%nat))
      && (i + 1 <=? 7) &&
     (if is_empty g && negb (length gs =? 0)%nat then (nf <=? 0) && fields_ok (i + 1) (i + 1) (g :: gs)
      else fields_ok (i + 1) nf (g :: gs))).
  rewrite Hn. unfold hex_field. rewrite Hf, (proj2 (Nat.leb_le (length f) 4)) by done. cbn [andb].
  replace (Z.of_nat (length f) =? 0) with (is_empty f) by (unfold is_empty; lia).
  rewrite !Z.gtb_ltb. destruct (Z.ltb_spec 7 (i + 1)), (Z.leb_spec (i + 1) 7); try lia.
  { rewrite andb_false_r. by repeat case_match. }
  rewrite andb_true_r. destruct (Z.eqb_spec (cp r 0) ":"%ch) as [Hcr|Hcr].
  - rewrite Hcr, orb_true_r, andb_false_r. cbn [andb]. rewrite Hr by lia.
    destruct (Z.ltb_spec 0 nf), (Z.leb_spec nf 0); try lia; done.
  - rewrite Hr, orb_false_r by lia. destruct (Z.eqb_spec i 0) as [->|Hi0]; cbn [negb orb andb]; [|done].
    destruct (is_empty f); cbn [negb andb]; [|done].
    destruct (ISALNUM (cp r 0)) eqn:Ea; [done|]. by apply Hfirst.
Qed.

Lemma fields_ok_long i nf f rest :
  (4 < length f)%nat -> strspn hex_char (f ++ rest) = length f ->
  fields_ok i nf (split_from ":"%ch f rest) = false.
Proof.
  intros Hlen Hspan. assert (Hh : forall t, hex_field (f ++ t) = false).
  { intros t. unfold hex_field. rewrite length_app, (proj2 (Nat.leb_gt _ 4)) by lia. apply andb_false_r. }
  destruct (split_colon rest f) as [[_ ->]|(_ & t & g & r & ->)].
  - rewrite fields_ok_last, Hh, Hspan, (proj2 (Nat.leb_gt _ 4)) by done. cbn. by rewrite !andb_false_r.
  - change (fields_ok i nf ((f ++ t) :: g :: r)) with
    (hex_field (f ++ t) && (negb (i =? 0) || negb (is_empty (f ++ t)) || (is_empty g && negb (length r =? 0)%nat))
      && (i + 1 <=? 7) &&
     (if is_empty g && negb (length r =? 0)%nat then (nf <=? 0) && fields_ok (i + 1) (i + 1) (g :: r)
      else fields_ok (i + 1) nf (g :: r))).
    by rewrite Hh.
Qed.

Lemma hex_prefix_colonless f :
  forallb hex_char f = true -> forallb (fun c => negb (c =? ":"%ch)) f = true.
Proof.
  induction f as [|c f IH]; cbn; [done|]. intros [Hc Hf]%andb_true_iff.
  rewrite IH by done. destruct (hex_not_delim c Hc) as [_ Hn]. by rewrite (proj2 (Z.eqb_neq _ _) Hn).
Qed.

Lemma ipv6_loop_spec n : forall s fuel i nf,
  (length s < n)%nat -> (length s < fuel)%nat -> Forall is_cchar s -> 0 <= i <= 7 -> 0 <= nf <= i ->
  ipv6_loop fuel s 0 i nf = fields_ok i nf (split_on ":"%ch s).
Proof.
  induction n as [|n IH]; intros s fuel i nf Hn Hfuel Hs Hi Hnf; [lia|].
  destruct fuel as [|fuel]; [lia|]. unfold split_on. destruct s as [|c s].
  { change (split_from ":"%ch [] []) with [@nil Z]. rewrite fields_ok_last.
    change (ipv4_ok []) with false. rewrite andb_false_r, orb_false_r.
    change (ipv6_loop (S fuel) [] 0 i nf) with
      (if i <? 2 then false else if true && negb (nf =? i - 1) then false else true).
    change (hex_field []) with true. change (is_empty []) with true.
    destruct (Z.ltb_spec i 2), (Z.eqb_spec nf (i - 1)); cbn; lia. }
  set (h := strspn hex_char (c :: s)) in *.
  assert (Hsplit : take h (c :: s) ++ drop h (c :: s) = c :: s) by apply take_drop.
  assert (Hh : length (take h (c :: s)) = h).
  { rewrite length_take. pose proof (strspn_le hex_char (c :: s)). lia. }
  assert (Hhex : forallb hex_char (take h (c :: s)) = true) by apply strspn_take.
  assert (Hrec : forall fuel' d r i' nf', drop h (c :: s) = d :: r -> (length r < fuel')%nat ->
    0 <= i' <= 7 -> 0 <= nf' <= i' ->
    ipv6_loop fuel' r 0 i' nf' = fields_ok i' nf' (split_on ":"%ch r)).
  { intros fuel' d r i' nf' Hd Hfuel' Hi' Hnf'.
    assert (Hl : length (c :: s) = (h + S (length r))%nat).
    { rewrite <- Hsplit, length_app, Hh, Hd. cbn. lia. }
    apply IH; [lia|done| |done..]. rewrite <- Hsplit, Hd in Hs.
    apply Forall_app in Hs as [_ Hs]. by inversion Hs. }
  destruct (hex_char c) eqn:Hc.
  - destruct (hex_not_delim c Hc) as [Hp Hd].
    assert (Hh1 : (1 <= h)%nat) by (unfold h; cbn; rewrite Hc; lia).
    assert (Hstep : ipv6_loop (S fuel) (c :: s) 0 i nf =
      if Z.of_nat h >? 4 then false else if Z.of_nat h <=? 0 then false
      else ipv6_loop fuel (c :: s) h i nf).
    { cbn -[strspn]. rewrite (proj2 (Z.eqb_neq _ _) Hp), (proj2 (Z.eqb_neq _ _) Hd). reflexivity. }
    rewrite Hstep. rewrite <- Hsplit at 2.
    rewrite (split_from_app _ _ _ []) by (by apply hex_prefix_colonless). cbn [app].
    rewrite Z.gtb_ltb. destruct (Z.ltb_spec 4 (Z.of_nat h)) as [Hg|Hg].
    { rewrite fields_ok_long; [done|lia|by rewrite Hsplit, Hh]. }
    rewrite (proj2 (Z.leb_gt _ 0)) by lia. destruct fuel as [|fuel]; [cbn in Hfuel; lia|].
    pose proof (ipv6_delim fuel (take h (c :: s)) (drop h (c :: s)) i nf) as H.
    rewrite Hsplit, Hh in H. apply H; [lia|done..| |].
    + intros r i' nf' E ??. eapply Hrec; [done| |done..].
      apply (f_equal length) in Hsplit. rewrite length_app, Hh, E in Hsplit. cbn [length] in Hsplit, Hfuel. lia.
    + left. intros E. rewrite E in Hh. cbn [length] in Hh. lia.
  - assert (h = 0%nat) as Hh0 by (unfold h; cbn; by rewrite Hc).
    rewrite Hh0 in *. cbn [drop take] in *.
    destruct (decide (c = "."%ch \/ c = ":"%ch)) as [Hd|Hd].
    + apply (ipv6_delim fuel [] (c :: s)); [cbn; lia|done|done|by fold h|done|done| |].
      * intros r i' nf' E ??. eapply Hrec; [done| |done..]. injection E as _ ->. cbn in Hfuel. lia.
      * right. by exists c, s.
    + rewrite fields_ok_other; [|done|tauto..]. cbn -[strspn]. fold h. rewrite Hh0.
      destruct (Z.eqb_spec c "."%ch); [tauto|]. destruct (Z.eqb_spec c ":"%ch); [tauto|]. done.
Qed.

(** valid_ipv6_hostaddr() accepts exactly the texts that ipv6_ok describes:
    three to eight colon-separated fields of at most four hexadecimal digits, at
    most one of the inner ones empty, an empty first or last field only next to an
    empty inner one, and an IPv4 address in place of the last field when there are
    at most seven fields.  (An address without :: may thus have fewer than eight
    fields.) *)
Theorem valid_ipv6_hostaddr_spec addr :
  Forall is_cchar addr -> valid_ipv6_hostaddr addr = ipv6_ok addr.
Proof.
  intros H. rewrite <- fields_ok_top. unfold valid_ipv6_hostaddr.
  apply (ipv6_loop_spec (S (length addr))); [lia|lia|done|lia|lia].
Qed.

Lemma valid_ipv6_hostaddr_spec_witness :
  valid_ipv6_hostaddr (str "2001:db8::1") = true /\ valid_ipv6_hostaddr (str "::ffff:10.0.0.1") = true /\
  valid_ipv6_hostaddr (str "1::2::3") = false /\
  valid_ipv6_hostaddr (str "1:2:3:4:5:6:7:8") = ipv6_ok (str "1:2:3:4:5:6:7:8").
Proof.
  split_and!; [reflexivity..|].
  apply (valid_ipv6_hostaddr_spec (str "1:2:3:4:5:6:7:8")). repeat constructor.
Defined.

(** The comment in the routine asks for eight fields or a :: compression; the code
    does not. *)
Lemma ipv6_short_accepted :
  valid_ipv6_hostaddr (str "1:2:3") = true /\ valid_ipv6_hostaddr (str "1:2:10.0.0.1") = true.
Proof. split; reflexivity. Qed.

(** ** Ports *)

Lemma octet_val_bound s : forall acc, 0 <= acc -> forallb ISDIGIT s = true ->
  acc * 10 ^ Z.of_nat (length s) <= octet_val acc s < (acc + 1) * 10 ^ Z.of_nat (length s).
Proof.
  unfold octet_val. induction s as [|c s IH]; intros acc Hacc H; [cbn; lia|].
  cbn in H. apply andb_true_iff in H as [Hc H].
  specialize (IH (acc * 10 + (c - 48)) ltac:(zb; lia) H).
  cbn [foldl length]. rewrite Nat2Z.inj_succ, Z.pow_succ_r by lia. zb. nia.
Qed.

(** Without a leading zero, at most five digits are enough for 65535. *)
Lemma octet_val_long c s :
  "1"%ch <= c <= "9"%ch -> forallb ISDIGIT s = true -> (5 <= length s)%nat -> 65535 < octet_val 0 (c :: s).
Proof.
  intros Hc Hs Hl. change (octet_val 0 (c :: s)) with (octet_val (c - 48) s).
  pose proof (octet_val_bound s (c - 48) ltac:(lia) Hs) as [Hlow _].
  pose proof (Z.pow_le_mono_r 10 5 (Z.of_nat (length s)) ltac:(lia) ltac:(lia)).
  change (10 ^ 5) with 100000 in *. nia.
Qed.

(** valid_hostport() accepts exactly the decimal numbers from 0 to 65535
    written without sign and without superfluous leading zeros; the test for at
    most five characters, which protects the atoi() call, refuses nothing else. *)
Theorem valid_hostport_spec s :
  Forall is_cchar s ->
  valid_hostport s = true <->
  s <> [] /\ forallb ISDIGIT s = true /\ octet_val 0 s <= 65535 /\
  (s = ["0"%ch] \/ cp s 0 <> "0"%ch).
Proof.
  intros Hs. unfold valid_hostport, alldig, atoi. rewrite cp_nonzero by done.
  destruct s as [|c s]; [cbn; naive_solver|]. apply Forall_cons in Hs as [Hc Hs].
  change (cp (c :: s) 1) with (cp s 0). rewrite cp_nonzero by done. cbn [cp nth].
  rewrite (bool_decide_false (c :: s = [])) by done. rewrite !Z.gtb_ltb.
  destruct (forallb ISDIGIT (c :: s)) eqn:Hd.
  2:{ destruct ((c =? "0"%ch) && _); cbn; naive_solver. }
  pose proof (octet_val_bound (c :: s) 0 ltac:(lia) Hd) as [Hge _].
  rewrite (proj2 (Z.ltb_ge (octet_val 0 (c :: s)) 0)) by lia. rewrite orb_false_r.
  destruct (Z.eqb_spec c "0"%ch) as [->|Hc0]; cbn [andb].
  - case_bool_decide as Hn; cbn [negb]; [subst s; split; [|done]; intros _; split_and!; [done|done|by vm_compute|by left]|].
    split; [done|]. intros (_ & _ & _ & [[= ->]|]); done.
  - cbn in Hd. apply andb_true_iff in Hd as [Hd1 Hd2].
    destruct (Z.ltb_spec 5 (Z.of_nat (length (c :: s)))) as [Hl|Hl]; cbn [orb negb].
    + pose proof (octet_val_long c s ltac:(zb; lia) Hd2 ltac:(cbn in Hl; lia)). split; [done|]. lia.
    + destruct (Z.ltb_spec 65535 (octet_val 0 (c :: s))); split; try done; [lia|]. intros _. by auto.
Qed.

Lemma valid_hostport_spec_witness :
  valid_hostport (str "0025") = false /\ valid_hostport (str "65536") = false /\
  (valid_hostport (str "65535") = true -> octet_val 0 (str "65535") <= 65535).
Proof.
  split_and!; [reflexivity..|]. intros H.
  apply (valid_hostport_spec (str "65535")) in H; [|repeat constructor]. exact (proj1 (proj2 (proj2 H))).
Defined.
