(* ===== verification/MacExpand.v ===== *)
(** Macro expansion: util/mac_parse.c and util/mac_expand.c, with printable() and name_code().

    mac_parse() cuts a text into literal text and macro expressions, $name or ${...}, and
    calls an action for each; mac_expand() is such an action, which evaluates conditional
    and relational expressions.  The text of a conditional or of an attribute is cut in
    turn, so that the two call each other: [fuel] bounds how deep.

    A buffer is a list of bytes without its terminator, the result buffer and the status
    are in the context.  What the lookup function returns, the filter, the UTF-8 setting
    and whether errno is ERANGE when a comparison is evaluated are arguments.

    [mac_expand_ends] says how deep the calls go and what the result can contain.  The second
    half is the language as syntax trees, their spelling and their meaning, which
    [mac_expand_meaning] says mac_expand() computes.  [mac_expand_recurse_diverges] is an
    attribute that is expanded forever. *)

From stdpp Require Import strings.
From S2P Require Export Prelude.
From S2P Require Import QueueId Hostname.

(** ** Results

    msg_fatal() terminates the program. *)
Inductive run (A : Type) : Type :=
  | Value (a : A)
  | Fatal
  | Panicked
  | OutOfFuel.
Arguments Value {A} a.
Arguments Fatal {A}.
Arguments Panicked {A}.
Arguments OutOfFuel {A}.
#[export] Instance run_ret : MRet run := fun A a => Value a.
#[export] Instance run_bind : MBind run := fun A B f m =>
  match m with Value a => f a | Fatal => Fatal | Panicked => Panicked | OutOfFuel => OutOfFuel end.

(** ** mac_parse() *)

Definition MAC_PARSE_LITERAL : Z := 1.
Definition MAC_PARSE_EXPR : Z := 2.
Definition MAC_PARSE_OK : Z := 0.
Definition MAC_PARSE_ERROR : Z := 1.
Definition MAC_PARSE_UNDEF : Z := 2.

Definition has_flag (flags mask : Z) : bool := negb (Z.land flags mask =? 0).

(** The text up to the closing parenthesis, and the text after it. *)
Fixpoint find_close (open close : Z) (level : nat) (s : bytes) : option (bytes * bytes) :=
  match s with
  | [] => None
  | ch :: s =>
      let level := if ch =? open then S level else level in
      let level := if ch =? close then pred level else level in
      match level with
      | O => Some ([], s)
      | _ => '(payload, rest) ← find_close open close level s; Some (ch :: payload, rest)
      end
  end.

Definition name_char (c : Z) : bool := ISALNUM c || (c =? "_"%ch).

(** The expression after a bare $, and the text after it; [None] if it is truncated. *)
Definition parse_expr (vp : bytes) : option (bytes * bytes) :=
  if cp vp 0 =? "("%ch then find_close "("%ch ")"%ch 1 (drop 1 vp)
  else if cp vp 0 =? "{"%ch then find_close "{"%ch "}"%ch 1 (drop 1 vp)
  else let n := strspn name_char vp in Some (take n vp, drop n vp).

(** The type of the action: from the type and the text to a status. *)
Definition MAC_PARSE_FN (C : Type) : Type := Z -> bytes -> C -> run (Z * C).

Section mac_parse.
Context {C : Type} (action : MAC_PARSE_FN C).

(** MAC_PARSE_ACTION: the status so far, and the context. *)
Definition MAC_PARSE_ACTION (status type : Z) (buf : bytes) (context : C) : run (Z * C) :=
  '(st, context) ← action type buf context;
  Value (Z.lor status st, context).

(** The loop over the value; the second result is the content of the buffer after it. *)
Fixpoint parse_loop (n : nat) (vp buf : bytes) (status : Z) (context : C) : run (Z * bytes * C) :=
  match n with
  | O => OutOfFuel
  | S n =>
      match vp with
      | [] => Value (status, buf, context)
      | ch :: vp =>
          if negb (ch =? "$"%ch) then parse_loop n vp (buf ++ [ch]) status context
          else if cp vp 0 =? "$"%ch then parse_loop n (drop 1 vp) (buf ++ [ch]) status context
          else
            '(status, context) ← match buf with
              | [] => Value (status, context)
              | _ => MAC_PARSE_ACTION status MAC_PARSE_LITERAL buf context
              end;
            let bracket := (cp vp 0 =? "("%ch) || (cp vp 0 =? "{"%ch) in
            match parse_expr vp with
            | None => Value (Z.lor status MAC_PARSE_ERROR, [], context)       (* truncated *)
            | Some (name, vp) =>
                if bracket && has_flag status MAC_PARSE_ERROR then Value (status, [], context)
                else if bool_decide (name = []) then Value (Z.lor status MAC_PARSE_ERROR, [], context)
                else
                  '(status, context) ← MAC_PARSE_ACTION status MAC_PARSE_EXPR name context;
                  parse_loop n vp [] status context
            end
      end
  end.

(** The text after the last macro. *)
Definition last_literal (p : Z * bytes * C) : run (Z * C) :=
  let '(status, buf, context) := p in
  match buf with
  | [] => Value (status, context)
  | _ => if has_flag status MAC_PARSE_ERROR then Value (status, context)
         else MAC_PARSE_ACTION status MAC_PARSE_LITERAL buf context
  end.
Definition mac_parse (value : bytes) (context : C) : run (Z * C) :=
  p ← parse_loop (S (length value)) value [] 0 context;
  last_literal p.
End mac_parse.

(** ** printable() *)

(** The bytes that continue a UTF-8 character. *)
Definition utf8_tail (c : Z) : bool := (128 <=? c) && (c <? 192).
Fixpoint printable (utf8_enable : bool) (n : nat) (s : bytes) (replacement : Z) : bytes :=
  match n, s with
  | S n, ch :: s =>
      if (ch <? 128) && MailQueue.ISPRINT ch then ch :: printable utf8_enable n s replacement
      else if utf8_enable && (194 <=? ch) && (ch <=? 254) && utf8_tail (cp s 0) then
        let k := strspn utf8_tail s in ch :: take k s ++ printable utf8_enable n (drop k s) replacement
      else replacement :: printable utf8_enable n s replacement
  | _, _ => []
  end.

(** ** mac_expand() *)

Definition MAC_EXP_FLAG_NONE : Z := 0.
Definition MAC_EXP_FLAG_RECURSE : Z := 1.
Definition MAC_EXP_FLAG_APPEND : Z := 2.
Definition MAC_EXP_FLAG_SCAN : Z := 4.
Definition MAC_EXP_FLAG_PRINTABLE : Z := 8.
Definition MAC_EXP_MODE_TEST : Z := 0.
Definition MAC_EXP_MODE_USE : Z := 1.

Definition MAC_EXP_BVAL_TRUE : bytes := str "true".
Definition MAC_EXP_BVAL_FALSE : bytes := [].

Definition MAC_EXP_OP_TOK_NONE : Z := 0.
Definition MAC_EXP_OP_TOK_EQ : Z := 1.
Definition MAC_EXP_OP_TOK_NE : Z := 2.
Definition MAC_EXP_OP_TOK_LT : Z := 3.
Definition MAC_EXP_OP_TOK_LE : Z := 4.
Definition MAC_EXP_OP_TOK_GE : Z := 5.
Definition MAC_EXP_OP_TOK_GT : Z := 6.
Definition mac_exp_op_table : list (bytes * Z) :=
  [(str "==", MAC_EXP_OP_TOK_EQ); (str "!=", MAC_EXP_OP_TOK_NE); (str "<", MAC_EXP_OP_TOK_LT);
   (str "<=", MAC_EXP_OP_TOK_LE); (str ">=", MAC_EXP_OP_TOK_GE); (str ">", MAC_EXP_OP_TOK_GT)].

(** The names of the table have no letters, so that strcasecmp() compares as equality does. *)
Fixpoint name_code (table : list (bytes * Z)) (name : bytes) : Z :=
  match table with
  | [] => MAC_EXP_OP_TOK_NONE
  | (np_name, np_code) :: table => if decide (name = np_name) then np_code else name_code table name
  end.

Definition MAC_EXP_WHITESPACE (c : Z) : bool := existsb (Z.eqb c) [32; 9; 13; 10].
Definition operator_char (c : Z) : bool := existsb (Z.eqb c) (str "<>!=?+-*/~&|%").

Definition LONG_MAX : Z := 2 ^ 63 - 1.

Record MAC_EXP_CONTEXT := mk_context { mc_result : bytes; mc_status : Z; mc_level : Z }.
Definition with_result (r : bytes) (mc : MAC_EXP_CONTEXT) : MAC_EXP_CONTEXT := mk_context r (mc_status mc) (mc_level mc).
Definition or_status (st : Z) (mc : MAC_EXP_CONTEXT) : MAC_EXP_CONTEXT := mk_context (mc_result mc) (Z.lor (mc_status mc) st) (mc_level mc).
Definition with_level (l : Z) (mc : MAC_EXP_CONTEXT) : MAC_EXP_CONTEXT := mk_context (mc_result mc) (mc_status mc) l.

(** mac_exp_parse_error(): set the error flag; the callers return the status. *)
Definition mac_exp_parse_error (mc : MAC_EXP_CONTEXT) : run (Z * MAC_EXP_CONTEXT) :=
  let mc := or_status MAC_PARSE_ERROR mc in Value (mc_status mc, mc).

Definition MAC_EXP_FIND_LEFT_CURLY (s : bytes) : option bytes :=
  let s := drop (strspn MAC_EXP_WHITESPACE s) s in
  if cp s 0 =? "{"%ch then Some s else None.

(** mac_exp_extract_curly_payload(): of a text that begins with the left brace, the payload
    and the text after the whitespace that follows. *)
Definition mac_exp_extract_curly_payload (bp : bytes) : option (bytes * bytes) :=
  '(payload, rest) ← find_close "{"%ch "}"%ch 1 (drop 1 bp);
  Some (payload, drop (strspn MAC_EXP_WHITESPACE rest) rest).

(** A result operand: in braces, or all the text that is left. *)
Definition result_operand (s : bytes) : option (bytes * bytes) :=
  match MAC_EXP_FIND_LEFT_CURLY s with
  | Some s => mac_exp_extract_curly_payload s
  | None => Some (s, [])
  end.

(** The name of an attribute with the lookup mode, the operator or 0, and the text after the
    operator; [None] for a syntax error. *)
Fixpoint attribute_name (s name : bytes) : option (bytes * Z * Z * bytes) :=
  let n := strspn MAC_EXP_WHITESPACE s in
  let ch := cp (drop n s) 0 in
  if ch =? 0 then Some (name, MAC_EXP_MODE_USE, 0, [])
  else if (ch =? "?"%ch) || (ch =? ":"%ch) then Some (name, MAC_EXP_MODE_TEST, ch, drop (S n) s)
  else
    match s with
    | [] => None
    | c :: s => if name_char c then attribute_name s (name ++ [c]) else None
    end.

Section mac_expand.
Context (flags : Z) (filter : option bytes) (lookup : bytes -> Z -> option bytes).
(** The state of the C library and of the process: errno is ERANGE from an earlier failure;
    util_utf8_enable. *)
Context (errno_erange utf8_enable : bool).

(** strtol() does not clear errno. *)
Definition atol_or_die (strval : bytes) : run Z :=
  let result := fold_left (fun n c => n * 10 + (c - "0"%ch)) strval 0 in
  if errno_erange || (LONG_MAX <? result) then Fatal else Value result.

(** The sign of strcmp(). *)
Fixpoint strcmp (s t : bytes) : Z :=
  match s, t with
  | [], [] => 0
  | [], _ => -1
  | _, [] => 1
  | c :: s, d :: t => if c <? d then -1 else if d <? c then 1 else strcmp s t
  end.

Definition mac_exp_eval (left : bytes) (tok_val : Z) (rite : bytes) : run bool :=
  delta ← if alldig left && alldig rite
    then l ← atol_or_die left; r ← atol_or_die rite; Value (l - r)
    else Value (strcmp left rite);
  if tok_val =? MAC_EXP_OP_TOK_EQ then Value (delta =? 0)
  else if tok_val =? MAC_EXP_OP_TOK_NE then Value (negb (delta =? 0))
  else if tok_val =? MAC_EXP_OP_TOK_LT then Value (delta <? 0)
  else if tok_val =? MAC_EXP_OP_TOK_LE then Value (delta <=? 0)
  else if tok_val =? MAC_EXP_OP_TOK_GE then Value (0 <=? delta)
  else if tok_val =? MAC_EXP_OP_TOK_GT then Value (0 <? delta)
  else Panicked.

(** The value of an attribute, with the characters that may appear. *)
Definition filter_value (value : bytes) : bytes :=
  if has_flag flags MAC_EXP_FLAG_PRINTABLE then printable utf8_enable (length value) value "_"%ch
  else match filter with
    | Some f => map (fun c => if existsb (Z.eqb c) f then c else "_"%ch) value
    | None => value
    end.

(** A lookup result that is defined and not empty. *)
Definition nonempty (value : option bytes) : bool := match value with Some (_ :: _) => true | _ => false end.

(** mac_expand() with its callback function. *)
Definition expand_with (callback : MAC_PARSE_FN MAC_EXP_CONTEXT) (result pattern : bytes) : run (Z * bytes) :=
  let result := if has_flag flags (Z.lor MAC_EXP_FLAG_APPEND MAC_EXP_FLAG_SCAN) then result else [] in
  '(status, mc) ← mac_parse callback pattern (mk_context result 0 0);
  Value (status, mc_result mc).

(** mac_exp_parse_relational(): the value of the expression, and the text after it; or the
    status to return. *)
Definition mac_exp_parse_relational (callback : MAC_PARSE_FN MAC_EXP_CONTEXT)
    (cp : bytes) (mc : MAC_EXP_CONTEXT) : run (option (bytes * bytes) * MAC_EXP_CONTEXT) :=
  let error := Value (None, or_status MAC_PARSE_ERROR mc) in
  match mac_exp_extract_curly_payload cp with
  | None => error
  | Some (left_op, cp) =>
      let op_len := strspn operator_char cp in
      let op_tokval := name_code mac_exp_op_table (take op_len cp) in
      if op_tokval =? MAC_EXP_OP_TOK_NONE then error
      else
        match MAC_EXP_FIND_LEFT_CURLY (drop op_len cp) with
        | None => error
        | Some cp =>
            match mac_exp_extract_curly_payload cp with
            | None => error
            | Some (rite_op, cp) =>
                '(st, left_buf) ← expand_with callback [] left_op;
                let mc := or_status st mc in
                '(st, rite_buf) ← expand_with callback [] rite_op;
                let mc := or_status st mc in
                op_result ← mac_exp_eval left_buf op_tokval rite_buf;
                if has_flag (mc_status mc) MAC_PARSE_ERROR then Value (None, mc)
                else Value (Some (if op_result : bool then MAC_EXP_BVAL_TRUE else MAC_EXP_BVAL_FALSE, cp), mc)
            end
        end
  end.

(** The value to test or to use, the operator or 0, and the text after the operator. *)
Definition macro_value (callback : MAC_PARSE_FN MAC_EXP_CONTEXT)
    (buf : bytes) (mc : MAC_EXP_CONTEXT) : run (option (option bytes * Z * bytes) * MAC_EXP_CONTEXT) :=
  match MAC_EXP_FIND_LEFT_CURLY buf with
  | Some cp =>
      '(r, mc) ← mac_exp_parse_relational callback cp mc;
      match r with
      | None => Value (None, mc)
      | Some (value, cp) =>
          match cp with
          | [] => Value (Some (Some value, 0, []), mc)
          | ch :: cp => if (ch =? "?"%ch) || (ch =? ":"%ch) then Value (Some (Some value, ch, cp), mc)
                        else Value (None, or_status MAC_PARSE_ERROR mc)
          end
      end
  | None =>
      match attribute_name (drop (strspn MAC_EXP_WHITESPACE buf) buf) [] with
      | None => Value (None, or_status MAC_PARSE_ERROR mc)
      | Some (name, mode, ch, cp) => Value (Some (lookup name mode, ch, cp), mc)
      end
  end.

(** mac_parse() of a text in a macro, with the status in the context. *)
Definition parse_operand (callback : MAC_PARSE_FN MAC_EXP_CONTEXT) (text : bytes) (mc : MAC_EXP_CONTEXT) : run MAC_EXP_CONTEXT :=
  '(st, mc) ← mac_parse callback text mc;
  Value (or_status st mc).

(** The switch on the operator: whether it was completed, rather than an error returned. *)
Definition case_colon (callback : MAC_PARSE_FN MAC_EXP_CONTEXT)
    (value : option bytes) (cp : bytes) (mc : MAC_EXP_CONTEXT) : run (bool * MAC_EXP_CONTEXT) :=
  match result_operand cp with
  | None => Value (false, or_status MAC_PARSE_ERROR mc)
  | Some (res_iffalse, cp) =>
      mc ← if negb (nonempty value) || has_flag flags MAC_EXP_FLAG_SCAN then parse_operand callback res_iffalse mc else Value mc;
      match cp with
      | [] => Value (true, mc)
      | _ => Value (false, or_status MAC_PARSE_ERROR mc)
      end
  end.
Definition case_question (callback : MAC_PARSE_FN MAC_EXP_CONTEXT)
    (value : option bytes) (cp : bytes) (mc : MAC_EXP_CONTEXT) : run (bool * MAC_EXP_CONTEXT) :=
  match result_operand cp with
  | None => Value (false, or_status MAC_PARSE_ERROR mc)
  | Some (res_iftrue, cp) =>
      mc ← if nonempty value || has_flag flags MAC_EXP_FLAG_SCAN then parse_operand callback res_iftrue mc else Value mc;
      match cp with
      | [] => Value (true, mc)
      | ch :: cp => if ch =? ":"%ch then case_colon callback value cp mc else Value (false, or_status MAC_PARSE_ERROR mc)
      end
  end.
Definition case_end (callback : MAC_PARSE_FN MAC_EXP_CONTEXT)
    (value : option bytes) (mc : MAC_EXP_CONTEXT) : run (bool * MAC_EXP_CONTEXT) :=
  match value with
  | None => Value (true, or_status MAC_PARSE_UNDEF mc)
  | Some v =>
      if bool_decide (v = []) || has_flag flags MAC_EXP_FLAG_SCAN then Value (true, mc)
      else if has_flag flags MAC_EXP_FLAG_RECURSE then mc ← parse_operand callback v mc; Value (true, mc)
      else Value (true, with_result (mc_result mc ++ filter_value v) mc)
  end.
Definition expand_macro (callback : MAC_PARSE_FN MAC_EXP_CONTEXT)
    (buf : bytes) (mc : MAC_EXP_CONTEXT) : run (bool * MAC_EXP_CONTEXT) :=
  '(r, mc) ← macro_value callback buf mc;
  match r with
  | None => Value (false, mc)
  | Some (value, ch, cp) =>
      if ch =? "?"%ch then case_question callback value cp mc
      else if ch =? ":"%ch then case_colon callback value cp mc
      else if ch =? 0 then case_end callback value mc
      else Panicked
  end.

(** A text that ends with an error leaves the level as it is. *)
Fixpoint mac_expand_callback (fuel : nat) (type : Z) (buf : bytes) (mc : MAC_EXP_CONTEXT) : run (Z * MAC_EXP_CONTEXT) :=
  match fuel with
  | O => OutOfFuel
  | S fuel =>
      let deep := 100 <? mc_level mc in
      let mc := with_level (mc_level mc + 1) mc in
      let mc := if deep then or_status MAC_PARSE_ERROR mc else mc in
      if has_flag (mc_status mc) MAC_PARSE_ERROR then Value (mc_status mc, mc)
      else
        '(completed, mc) ←
          if type =? MAC_PARSE_EXPR then expand_macro (mac_expand_callback fuel) buf mc
          else Value (true, if has_flag flags MAC_EXP_FLAG_SCAN then mc else with_result (mc_result mc ++ buf) mc);
        let mc := if completed : bool then with_level (mc_level mc - 1) mc else mc in
        Value (mc_status mc, mc)
  end.

Definition mac_expand (fuel : nat) (result pattern : bytes) : run (Z * bytes) :=
  expand_with (mac_expand_callback fuel) result pattern.
End mac_expand.

(** ** Every expansion ends *)

Lemma has_flag_error st : 0 <= st < 4 -> has_flag st MAC_PARSE_ERROR = Z.odd st.
Proof. intros H. assert (st = 0 \/ st = 1 \/ st = 2 \/ st = 3) as [->|[->|[->| ->]]] by lia; reflexivity. Qed.
Lemma lor_status a b : 0 <= a < 4 -> 0 <= b < 4 -> 0 <= Z.lor a b < 4.
Proof. apply (lor_range a b 2). lia. Qed.

(** The left braces of a text: each relational expression has one of its own. *)
Definition braces (s : bytes) : Z := Z.of_nat (length (filter (fun c => c = "{"%ch) s)).
Lemma braces_app s t : braces (s ++ t) = braces s + braces t.
Proof. unfold braces. rewrite filter_app, length_app. lia. Qed.
Lemma braces_cons c s : braces (c :: s) = (if decide (c = "{"%ch) then 1 else 0) + braces s.
Proof. unfold braces. rewrite filter_cons. case_decide; cbn [length]; lia. Qed.
Lemma braces_nonneg s : 0 <= braces s.
Proof. unfold braces. lia. Qed.

(** A piece of a text. *)
Definition part (s t : bytes) : Prop := braces s <= braces t /\ forall c, c ∈ s -> c ∈ t.
Lemma part_refl s : part s s.
Proof. done. Qed.
Lemma part_trans s t u : part s t -> part t u -> part s u.
Proof. intros [H1 H2] [H3 H4]. split; [lia|auto]. Qed.
Lemma part_app_l s t : part s (s ++ t).
Proof. split; [rewrite braces_app; pose proof (braces_nonneg t); lia|]. intros c Hc. apply elem_of_app. by left. Qed.
Lemma part_app_r s t : part t (s ++ t).
Proof. split; [rewrite braces_app; pose proof (braces_nonneg s); lia|]. intros c Hc. apply elem_of_app. by right. Qed.
Lemma part_take n s : part (take n s) s.
Proof. rewrite <- (take_drop n s) at 2. apply part_app_l. Qed.
Lemma part_drop n s : part (drop n s) s.
Proof. rewrite <- (take_drop n s) at 2. apply part_app_r. Qed.
Lemma part_nil s : part [] s.
Proof. apply (part_app_l [] s). Qed.

(** A text is the parenthesized part, the closing character, and the rest. *)
Lemma find_close_app open close s : forall level payload rest, level <> O -> find_close open close level s = Some (payload, rest) ->
  s = payload ++ close :: rest.
Proof.
  induction s as [|ch s IH]; intros level payload rest Hl; cbn; [done|].
  set (l1 := if ch =? open then S level else level). assert (Hl1 : l1 <> O) by (unfold l1; by case_match).
  destruct (Z.eqb_spec ch close) as [->|].
  - destruct (pred l1) eqn:E; [by intros [= <- <-]|]. intros ([p r] & H & [= <- <-])%bind_Some. apply IH in H; [|done]. by rewrite H at 1.
  - destruct l1 eqn:E; [done|]. intros ([p r] & H & [= <- <-])%bind_Some. apply IH in H; [|done]. by rewrite H at 1.
Qed.

Lemma find_close_part open close s payload rest : find_close open close 1 s = Some (payload, rest) -> part payload s /\ part rest s.
Proof.
  intros ->%find_close_app; [|done]. split; [apply part_app_l|]. apply (part_trans _ (close :: rest)); [|apply part_app_r]. apply (part_app_r [close]).
Qed.

Lemma find_curly_part s r : MAC_EXP_FIND_LEFT_CURLY s = Some r -> part r s /\ exists r', r = "{"%ch :: r'.
Proof.
  unfold MAC_EXP_FIND_LEFT_CURLY. destruct (Z.eqb_spec (cp (drop (strspn MAC_EXP_WHITESPACE s) s) 0) "{"%ch) as [E|]; [|done].
  intros [= <-]. split; [apply part_drop|]. destruct (drop _ s) as [|c r']; [done|]. cbn in E. subst c. by eexists.
Qed.

(** The payload in braces has a brace less. *)
Lemma extract_part s payload rest : mac_exp_extract_curly_payload ("{"%ch :: s) = Some (payload, rest) ->
  part payload s /\ part rest s.
Proof.
  unfold mac_exp_extract_curly_payload. cbn [drop]. rewrite drop_0. intros ([p r] & H & [= <- <-])%bind_Some.
  apply find_close_part in H as [H1 H2]. split; [done|]. eapply part_trans; [apply part_drop|done].
Qed.
Lemma braces_curly s : braces ("{"%ch :: s) = 1 + braces s.
Proof. rewrite braces_cons. by case_decide. Qed.
Lemma part_tail c s : part s (c :: s).
Proof. apply (part_app_r [c]). Qed.

Lemma operand_part s payload rest : result_operand s = Some (payload, rest) -> part payload s /\ part rest s.
Proof.
  unfold result_operand. destruct (MAC_EXP_FIND_LEFT_CURLY s) as [r|] eqn:E.
  - apply find_curly_part in E as [Hp [r' ->]]. intros [H1 H2]%extract_part.
    split; (eapply part_trans; [|exact Hp]); (eapply part_trans; [|apply part_tail]); done.
  - intros [= <- <-]. split; [apply part_refl|apply part_nil].
Qed.

Lemma attribute_name_part s : forall name n mode ch rest, attribute_name s name = Some (n, mode, ch, rest) ->
  part rest s /\ (ch = 0 \/ ch = "?"%ch \/ ch = ":"%ch).
Proof.
  induction s as [|c s IH]; intros name n mode ch rest; cbn [attribute_name].
  - cbn. intros [= <- <- <- <-]. split; [apply part_refl|by left].
  - set (ch' := cp _ 0). destruct (ch' =? 0); [intros [= _ _ <- <-]; split; [apply part_nil|by left]|].
    destruct ((ch' =? "?"%ch) || (ch' =? ":"%ch)) eqn:E.
    + intros [= _ _ <- <-]. split; [apply (part_drop (S _) (c :: s))|]. right. zb. destruct E as [E|E]; zb; auto.
    + destruct (name_char c); [|done]. intros [H1 H2]%IH. split; [|done]. eapply part_trans; [exact H1|apply part_tail].
Qed.

Lemma parse_expr_part vp name rest : parse_expr vp = Some (name, rest) -> part name vp /\ part rest vp.
Proof.
  unfold parse_expr. assert (H : forall o c, find_close o c 1 (drop 1 vp) = Some (name, rest) -> part name vp /\ part rest vp).
  { intros o c [H1 H2]%find_close_part. split; (eapply part_trans; [|apply (part_drop 1)]); done. }
  repeat case_match; [apply H..|]. intros [= <- <-]. split; [apply part_take|apply part_drop].
Qed.

Lemma parse_expr_length vp name rest : parse_expr vp = Some (name, rest) -> (length rest <= length vp)%nat.
Proof.
  unfold parse_expr. assert (H : forall o c, find_close o c 1 (drop 1 vp) = Some (name, rest) -> (length rest <= length vp)%nat).
  { intros o c E%find_close_app; [|done]. apply (f_equal length) in E. rewrite length_drop, length_app in E. cbn in E. lia. }
  destruct (_ =? _); [apply H|]. destruct (_ =? _); [apply H|]. intros [= _ <-]. rewrite length_drop. lia.
Qed.

(** *** The loop of mac_parse() *)

Section parse_ok.
Context {C : Type} (action : MAC_PARSE_FN C) (R : C -> C -> Prop) (value : bytes).
Context (R_refl : forall c, R c c) (R_trans : forall c1 c2 c3, R c1 c2 -> R c2 c3 -> R c1 c3).
#[local] Set Default Proof Using "All".

(** A step that ends, with a relation between the contexts before and after. *)
Definition ends (c : C) (m : run (Z * C)) : Prop :=
  match m with Value (st, c') => 0 <= st < 4 /\ R c c' | Fatal => True | _ => False end.
Context (c0 : C) (action_ok : forall type buf c, type = MAC_PARSE_LITERAL \/ type = MAC_PARSE_EXPR -> part buf value -> R c0 c -> ends c (action type buf c)).

Lemma action_ends status type buf c : type = MAC_PARSE_LITERAL \/ type = MAC_PARSE_EXPR -> part buf value -> R c0 c -> 0 <= status < 4 ->
  ends c (MAC_PARSE_ACTION action status type buf c).
Proof.
  intros Ht Hb Hc Hs. pose proof (action_ok type buf c Ht Hb Hc) as H. unfold MAC_PARSE_ACTION.
  destruct (action type buf c) as [[st c']| | |]; [|done..]. cbn. destruct H as [H1 H2]. split; [by apply lor_status|done].
Qed.

Lemma parse_loop_ends n : forall vp buf status c, (length vp < n)%nat -> braces buf + braces vp <= braces value ->
  (forall x, x ∈ buf ++ vp -> x ∈ value) -> 0 <= status < 4 -> R c0 c ->
  match parse_loop action n vp buf status c with
  | Value (st, buf', c') => 0 <= st < 4 /\ R c c' /\ part buf' value
  | Fatal => True
  | _ => False
  end.
Proof.
  induction n as [|n IH]; intros vp buf status c Hn Hb Hv Hs Hc; [lia|].
  destruct vp as [|ch vp]; [cbn; rewrite app_nil_r in Hv; change (braces []) with 0 in Hb; split_and!; [lia|lia|apply R_refl|split; [lia|done]]|].
  cbn [parse_loop length] in *. rewrite braces_cons in Hb. pose proof (braces_nonneg buf) as Hb0. pose proof (braces_nonneg vp) as Hv0.
  assert (Hbuf : part buf value) by (split; [repeat case_decide; lia|intros x Hx; apply Hv, elem_of_app; by left]).
  assert (Hvp : part vp value) by (split; [repeat case_decide; lia|intros x Hx; apply Hv, elem_of_app; right; by right]).
  assert (Hskip : forall k, (k <= 1)%nat -> match parse_loop action n (drop k vp) (buf ++ [ch]) status c with
    | Value (st, buf', c') => 0 <= st < 4 /\ R c c' /\ part buf' value | Fatal => True | _ => False end).
  { intros k Hk. apply IH; [rewrite length_drop; lia| | |done|done].
    - pose proof (proj1 (part_drop k vp)). rewrite braces_app, braces_cons. change (braces []) with 0. lia.
    - intros x. rewrite <- app_assoc. intros [Hx|[->|Hx]%elem_of_cons]%elem_of_app; apply Hv, elem_of_app; [by left|right; by left|].
      right. right. by eapply part_drop. }
  destruct (negb _); [specialize (Hskip 0%nat ltac:(lia)); by rewrite drop_0 in Hskip|].
  destruct (cp vp 0 =? "$"%ch); [by apply Hskip|].
  assert (Hflush : ends c match buf with [] => Value (status, c) | _ => MAC_PARSE_ACTION action status MAC_PARSE_LITERAL buf c end)
    by (destruct buf; [by split|apply action_ends; auto]).
  destruct (match buf with [] => _ | _ => _ end) as [[st c1]| | |]; [|done..]. cbn [mbind run_bind]. destruct Hflush as [Hst Hc1].
  assert (Hnil : part [] value) by apply part_nil. assert (He : 0 <= Z.lor st MAC_PARSE_ERROR < 4) by (apply lor_status; [done|unfold MAC_PARSE_ERROR; lia]).
  destruct (parse_expr vp) as [[name rest]|] eqn:Ee; [|by split; [|split]].
  destruct (_ && _); [by split; [|split]|]. destruct (bool_decide_reflect (name = [])); [by split; [|split]|].
  pose proof (parse_expr_part _ _ _ Ee) as [Hname Hrest].
  assert (Hc01 : R c0 c1) by (by eapply R_trans).
  pose proof (action_ends st MAC_PARSE_EXPR name c1 ltac:(auto) ltac:(by eapply part_trans) Hc01 Hst) as Ha.
  destruct (MAC_PARSE_ACTION _ _ _ _ _) as [[st2 c2]| | |]; [|done..]. cbn [mbind run_bind]. destruct Ha as [Hst2 Hc2].
  assert (Hlen : (length rest <= length vp)%nat).
  { by eapply parse_expr_length. }
  destruct (part_trans _ _ _ Hrest Hvp) as [Hr1 Hr2].
  specialize (IH rest [] st2 c2 ltac:(lia) ltac:(change (braces []) with 0; lia) Hr2 Hst2 ltac:(by eapply R_trans)).
  destruct (parse_loop _ _ _ _ _ _) as [[[st3 buf3] c3]| | |]; [|done..]. destruct IH as (H1 & H2 & H3).
  split_and!; [lia|lia| |exact H3]. eapply R_trans; [exact Hc1|]. by eapply R_trans.
Qed.

Lemma mac_parse_ends : ends c0 (mac_parse action value c0).
Proof.
  unfold mac_parse. pose proof (parse_loop_ends (S (length value)) value [] 0 c0 ltac:(lia) ltac:(change (braces []) with 0; lia) ltac:(done) ltac:(lia) (R_refl c0)) as H.
  destruct (parse_loop _ _ _ _ _ _) as [[[st buf] c]| | |]; [|done..]. cbn [mbind run_bind]. destruct H as (Hst & Hc & Hb).
  unfold last_literal. destruct buf as [|b buf]; [by split|]. destruct (has_flag st MAC_PARSE_ERROR); [by split|].
  pose proof (action_ends st MAC_PARSE_LITERAL (b :: buf) c ltac:(auto) Hb Hc Hst) as Ha. unfold ends in *.
  destruct (MAC_PARSE_ACTION _ _ _ _ _) as [[st2 c2]| | |]; [|done..]. destruct Ha as [H1 H2]. split; [done|by eapply R_trans].
Qed.
End parse_ok.

(** *** The callback *)

(** A computation that ends, with a property of its result; [Fatal] ends the program. *)
Definition okm {A} (P : A -> Prop) (m : run A) : Prop :=
  match m with Value a => P a | Fatal => True | _ => False end.
Lemma okm_bind {A B} (P : A -> Prop) (Q : B -> Prop) (m : run A) (f : A -> run B) :
  okm P m -> (forall a, P a -> okm Q (f a)) -> okm Q (m ≫= f).
Proof. destruct m; cbn; auto. Qed.
Lemma okm_mono {A} (P Q : A -> Prop) (m : run A) : okm P m -> (forall a, P a -> Q a) -> okm Q m.
Proof. destruct m; cbn; auto. Qed.

Lemma op_token s : name_code mac_exp_op_table s = MAC_EXP_OP_TOK_NONE \/ 1 <= name_code mac_exp_op_table s <= 6.
Proof. unfold mac_exp_op_table. cbn [name_code]. repeat (case_decide; [right; unfold MAC_EXP_OP_TOK_EQ, MAC_EXP_OP_TOK_NE, MAC_EXP_OP_TOK_LT, MAC_EXP_OP_TOK_LE, MAC_EXP_OP_TOK_GE, MAC_EXP_OP_TOK_GT; lia|]). by left. Qed.

(** How deep the callback can go for a text with so many braces, at a nesting level. *)
Definition need (b level : Z) : Z := 102 * b + Z.max 1 (102 - level).
Lemma need_mono b b' l l' : b <= b' -> l' <= l -> need b l <= need b' l'.
Proof. unfold need. lia. Qed.

Section callback.
Context (flags : Z) (filter : option bytes) (lookup : bytes -> Z -> option bytes) (errno_erange utf8_enable : bool).
(** What characters the result can have. *)
Context (allowed : Z -> Prop) (Hval : forall v, Forall allowed (filter_value flags filter utf8_enable v)).
Context (Hrec : has_flag flags MAC_EXP_FLAG_RECURSE = true -> Forall allowed MAC_EXP_BVAL_TRUE
  /\ forall name mode v, lookup name mode = Some v -> braces v = 0 /\ Forall allowed v).
#[local] Set Default Proof Using "All".
#[local] Notation scan := (has_flag flags MAC_EXP_FLAG_SCAN).
#[local] Notation callback := (mac_expand_callback flags filter lookup errno_erange utf8_enable).

Definition status_ok (mc : MAC_EXP_CONTEXT) : Prop := 0 <= mc_status mc < 4.
(** The result only grows, by characters that are allowed. *)
Definition grows (mc mc' : MAC_EXP_CONTEXT) : Prop :=
  (status_ok mc -> status_ok mc') /\ mc_level mc <= mc_level mc'
  /\ exists ext, mc_result mc' = mc_result mc ++ ext /\ Forall allowed ext /\ (scan = true -> ext = []).

Lemma grows_refl mc : grows mc mc.
Proof. split_and!; [done|lia|]. exists []. by rewrite app_nil_r. Qed.
Lemma grows_trans a b c : grows a b -> grows b c -> grows a c.
Proof.
  intros (H1 & L1 & e1 & E1 & F1 & S1) (H2 & L2 & e2 & E2 & F2 & S2). split_and!; [auto|lia|]. exists (e1 ++ e2).
  split_and!; [by rewrite E2, E1, app_assoc|by apply Forall_app|]. intros Hs. by rewrite S1, S2.
Qed.
Lemma grows_status st mc : 0 <= st < 4 -> grows mc (or_status st mc).
Proof. intros Hs. split_and!; [intros H; by apply lor_status|cbn; lia|]. exists []. cbn. by rewrite app_nil_r. Qed.
Lemma grows_error mc : grows mc (or_status MAC_PARSE_ERROR mc).
Proof. apply grows_status. unfold MAC_PARSE_ERROR. lia. Qed.
Lemma grows_add s mc : Forall allowed s -> scan = false -> grows mc (with_result (mc_result mc ++ s) mc).
Proof. intros Hf Hs. split_and!; [done|cbn; lia|]. exists s. split_and!; [done..|congruence]. Qed.

(** The callback for texts that are not too deep. *)
Definition callback_good (fuel : nat) : Prop := forall type buf mc, type = MAC_PARSE_LITERAL \/ type = MAC_PARSE_EXPR ->
  Forall allowed buf -> status_ok mc -> 0 <= mc_level mc -> need (braces buf) (mc_level mc) <= Z.of_nat fuel ->
  okm (fun p => p.1 = mc_status p.2 /\ grows mc p.2) (callback fuel type buf mc).

Section step.
Context (fuel : nat) (IH : callback_good fuel).

Lemma parse_good text mc : Forall allowed text -> status_ok mc -> 0 <= mc_level mc -> need (braces text) (mc_level mc) <= Z.of_nat fuel ->
  okm (fun p => 0 <= p.1 < 4 /\ grows mc p.2) (mac_parse (callback fuel) text mc).
Proof.
  intros Ht Hs Hl Hn. pose proof (mac_parse_ends (callback fuel) grows text grows_refl grows_trans mc) as H.
  unfold ends in H. assert (Ha : forall type buf c, type = MAC_PARSE_LITERAL \/ type = MAC_PARSE_EXPR -> part buf text -> grows mc c ->
    okm (fun p => 0 <= p.1 < 4 /\ grows c p.2) (callback fuel type buf c)).
  { intros type buf c Hty [Hb Hin] Hg. pose proof Hg as (Hst & Hlv & _). specialize (Hst Hs).
    eapply okm_mono; [apply IH; try done|].
    - apply Forall_forall. intros x Hx. rewrite Forall_forall in Ht. auto.
    - lia.
    - etrans; [|exact Hn]. by apply need_mono.
    - intros [st c'] [E Hg']. cbn in *. split; [|done]. rewrite E. by apply Hg'. }
  specialize (H ltac:(intros type buf c H1 H2 H3; specialize (Ha type buf c H1 H2 H3); by destruct (callback fuel type buf c) as [[? ?]| | |])).
  by destruct (mac_parse _ _ _) as [[? ?]| | |].
Qed.

Lemma operand_good text mc : Forall allowed text -> status_ok mc -> 0 <= mc_level mc -> need (braces text) (mc_level mc) <= Z.of_nat fuel ->
  okm (grows mc) (parse_operand (callback fuel) text mc).
Proof.
  intros. eapply okm_bind; [by apply parse_good|]. intros [st mc'] [Hst Hg]. cbn. eapply grows_trans; [exact Hg|]. by apply grows_status.
Qed.

Lemma expand_good text : Forall allowed text -> need (braces text) 0 <= Z.of_nat fuel ->
  okm (fun p => 0 <= p.1 < 4) (expand_with flags (callback fuel) [] text).
Proof.
  intros Ht Hn. unfold expand_with. eapply okm_bind; [apply parse_good; [done|split; cbn; lia|cbn; lia|exact Hn]|].
  intros [st mc'] [Hst _]. exact Hst.
Qed.

Lemma eval_good l tok r : 1 <= tok <= 6 -> okm (fun _ => True) (mac_exp_eval errno_erange l tok r).
Proof.
  intros Ht. unfold mac_exp_eval. eapply (okm_bind (fun _ => True)).
  - destruct (_ && _); [|done]. unfold atol_or_die. by repeat (case_match; cbn; try done).
  - intros delta _. unfold MAC_EXP_OP_TOK_EQ, MAC_EXP_OP_TOK_NE, MAC_EXP_OP_TOK_LT, MAC_EXP_OP_TOK_LE, MAC_EXP_OP_TOK_GE, MAC_EXP_OP_TOK_GT.
    repeat (case_match; [done|]). zb. lia.
Qed.

(** A value of the condition, and a text that is a piece of the macro. *)
Definition value_good (buf : bytes) (mc : MAC_EXP_CONTEXT) (p : option (option bytes * Z * bytes) * MAC_EXP_CONTEXT) : Prop :=
  grows mc p.2 /\ match p.1 with
  | None => True
  | Some (value, ch, cp) => part cp buf /\ (ch = 0 \/ ch = "?"%ch \/ ch = ":"%ch)
      /\ forall v, value = Some v -> v = MAC_EXP_BVAL_TRUE \/ v = [] \/ exists name mode, lookup name mode = Some v
  end.

Lemma part_forall s t : part s t -> Forall allowed t -> Forall allowed s.
Proof. intros [_ H] Ht. apply Forall_forall. intros x Hx. rewrite Forall_forall in Ht. auto. Qed.

Lemma relational_good buf s mc : Forall allowed buf -> status_ok mc -> 102 * braces buf <= Z.of_nat fuel -> part ("{"%ch :: s) buf ->
  okm (fun p => grows mc p.2 /\ match p.1 with None => True | Some (v, cp) => part cp buf /\ (v = MAC_EXP_BVAL_TRUE \/ v = []) end)
    (mac_exp_parse_relational flags errno_erange (callback fuel) ("{"%ch :: s) mc).
Proof.
  intros Hb Hs Hf Hp. unfold mac_exp_parse_relational.
  assert (Herr : grows mc (or_status MAC_PARSE_ERROR mc) /\ True) by (split; [apply grows_error|done]).
  assert (Hps : part s buf) by (eapply part_trans; [apply part_tail|exact Hp]).
  assert (Hop : forall t, part t s -> Forall allowed t /\ need (braces t) 0 <= Z.of_nat fuel).
  { intros t Ht. split; [eapply part_forall; [|exact Hb]; by eapply part_trans|]. destruct Ht as [Ht _], Hp as [Hp _].
    rewrite braces_curly in Hp. unfold need. lia. }
  destruct (mac_exp_extract_curly_payload _) as [[left_op cp1]|] eqn:El; [|exact Herr]. apply extract_part in El as [Hl1 Hl2].
  destruct (_ =? MAC_EXP_OP_TOK_NONE) eqn:Et; [exact Herr|]. zb.
  destruct (MAC_EXP_FIND_LEFT_CURLY _) as [r|] eqn:Ec; [|exact Herr]. apply find_curly_part in Ec as [Hr [r' ->]].
  assert (Hr' : part r' s).
  { eapply part_trans; [apply part_tail|]. eapply part_trans; [exact Hr|]. eapply part_trans; [apply part_drop|exact Hl2]. }
  destruct (mac_exp_extract_curly_payload _) as [[rite_op cp2]|] eqn:Er; [|exact Herr]. apply extract_part in Er as [Hr1 Hr2].
  eapply okm_bind; [apply expand_good; by apply Hop|]. intros [st1 left_buf] Hst1. cbn in Hst1.
  eapply okm_bind; [apply expand_good; apply Hop; by eapply part_trans|]. intros [st2 rite_buf] Hst2. cbn in Hst2.
  eapply okm_bind; [apply eval_good; destruct (op_token (take (strspn operator_char cp1) cp1)); [done|lia]|]. intros b _.
  assert (Hg : grows mc (or_status st2 (or_status st1 mc))) by (eapply grows_trans; by apply grows_status).
  destruct (has_flag (mc_status _) _); [exact (conj Hg I)|]. apply (conj Hg). split; [|destruct b; auto].
  eapply part_trans; [exact Hr2|]. by eapply part_trans.
Qed.

Lemma value_ok buf mc : Forall allowed buf -> status_ok mc -> 102 * braces buf <= Z.of_nat fuel ->
  okm (value_good buf mc) (macro_value flags lookup errno_erange (callback fuel) buf mc).
Proof.
  intros Hb Hs Hf. unfold macro_value. destruct (MAC_EXP_FIND_LEFT_CURLY buf) as [r|] eqn:Ec.
  - apply find_curly_part in Ec as [Hr [s ->]]. eapply okm_bind; [by apply (relational_good buf)|].
    intros [o mc1] [Hg Ho]. cbn in Hg, Ho. destruct o as [[v cp]|]; [|by apply (conj Hg)]. destruct Ho as [Hp Hv].
    assert (Hv' : forall w, Some v = Some w -> w = MAC_EXP_BVAL_TRUE \/ w = [] \/ exists name mode, lookup name mode = Some w)
      by (intros w [= <-]; destruct Hv; auto).
    destruct cp as [|ch cp]; [split; [done|split_and!; [apply part_nil|by left|done]]|].
    destruct ((ch =? "?"%ch) || (ch =? ":"%ch)) eqn:E; [|split; [|done]; eapply grows_trans; [exact Hg|apply grows_error]].
    split; [done|]. split_and!; [eapply part_trans; [apply part_tail|exact Hp]| |done]. zb. right. destruct E as [E|E]; zb; auto.
  - destruct (attribute_name _ _) as [[[[name mode] ch] cp]|] eqn:E; [|split; [apply grows_error|done]].
    apply attribute_name_part in E as [Hp Hch]. split; [apply grows_refl|]. split_and!; [|done|].
    + eapply part_trans; [exact Hp|apply part_drop].
    + intros v Hv. right. right. by exists name, mode.
Qed.

(** The operator and what follows, at a level that leaves room for the text. *)
Definition room (buf : bytes) (mc : MAC_EXP_CONTEXT) : Prop :=
  status_ok mc /\ 0 <= mc_level mc /\ need (braces buf) (mc_level mc) <= Z.of_nat fuel.
Lemma room_grows buf mc mc' : room buf mc -> grows mc mc' -> room buf mc'.
Proof.
  intros (Hs & Hl & Hn) (H1 & H2 & _). split_and!; [auto|lia|]. etrans; [|exact Hn]. by apply need_mono.
Qed.
Lemma room_operand buf text mc : Forall allowed buf -> room buf mc -> part text buf -> okm (grows mc) (parse_operand (callback fuel) text mc).
Proof.
  intros Hb (Hs & Hl & Hn) Hp. apply operand_good; [by eapply part_forall|done..|]. etrans; [|exact Hn]. apply need_mono; [apply Hp|lia].
Qed.
Lemma room_optional buf text mc (b : bool) : Forall allowed buf -> room buf mc -> part text buf ->
  okm (grows mc) (if b then parse_operand (callback fuel) text mc else Value mc).
Proof. intros. destruct b; [by eapply room_operand|apply grows_refl]. Qed.

Lemma colon_good buf value cp mc : Forall allowed buf -> room buf mc -> part cp buf ->
  okm (fun p => grows mc p.2) (case_colon flags (callback fuel) value cp mc).
Proof.
  intros Hb Hr Hp. unfold case_colon. destruct (result_operand cp) as [[res cp']|] eqn:E; [|apply grows_error].
  apply operand_part in E as [H1 H2]. eapply okm_bind; [apply (room_optional buf); [done..|by eapply part_trans]|].
  intros mc1 Hg. destruct cp' as [|c cp']; [exact Hg|]. cbn. eapply grows_trans; [exact Hg|apply grows_error].
Qed.
Lemma question_good buf value cp mc : Forall allowed buf -> room buf mc -> part cp buf ->
  okm (fun p => grows mc p.2) (case_question flags (callback fuel) value cp mc).
Proof.
  intros Hb Hr Hp. unfold case_question. destruct (result_operand cp) as [[res cp']|] eqn:E; [|apply grows_error].
  apply operand_part in E as [H1 H2]. eapply okm_bind; [apply (room_optional buf); [done..|by eapply part_trans]|].
  intros mc1 Hg. destruct cp' as [|c cp']; [exact Hg|]. destruct (c =? ":"%ch).
  - eapply okm_mono; [apply (colon_good buf); [done|by eapply room_grows|]|].
    + eapply part_trans; [apply part_tail|]. by eapply part_trans.
    + intros p Hg'. by eapply grows_trans.
  - cbn. eapply grows_trans; [exact Hg|apply grows_error].
Qed.
Lemma end_good buf value mc : room buf mc ->
  (forall v, value = Some v -> v = MAC_EXP_BVAL_TRUE \/ v = [] \/ exists name mode, lookup name mode = Some v) ->
  okm (fun p => grows mc p.2) (case_end flags filter utf8_enable (callback fuel) value mc).
Proof.
  intros Hr Hv. unfold case_end. destruct value as [v|]; [|apply grows_status; unfold MAC_PARSE_UNDEF; lia].
  destruct (bool_decide _ || scan) eqn:E; [apply grows_refl|]. zb. destruct (has_flag flags MAC_EXP_FLAG_RECURSE) eqn:Er in |- *.
  - eapply okm_bind; [|intros mc' Hg; exact Hg]. destruct (Hrec Er) as [Htrue Hlook]. destruct Hr as (Hs & Hl & Hn).
    assert (Hv' : braces v = 0 /\ Forall allowed v).
    { destruct (Hv v eq_refl) as [->|[->|(name & mode & Hn')]]; [done|done|by eapply Hlook]. }
    apply operand_good; [apply Hv'|done..|]. etrans; [|exact Hn]. apply need_mono; [|lia]. pose proof (braces_nonneg buf). lia.
  - by apply grows_add.
Qed.

Lemma macro_good buf mc : Forall allowed buf -> room buf mc -> 102 * braces buf <= Z.of_nat fuel ->
  okm (fun p => grows mc p.2) (expand_macro flags filter lookup errno_erange utf8_enable (callback fuel) buf mc).
Proof.
  intros Hb Hr Hf. unfold expand_macro. eapply okm_bind; [apply value_ok; [done|apply Hr|done]|].
  intros [o mc1] [Hg Ho]. cbn in Hg, Ho. destruct o as [[[value ch] cp]|]; [|exact Hg]. destruct Ho as (Hp & Hch & Hv).
  assert (Hr1 : room buf mc1) by (by eapply room_grows).
  assert (Htrans : forall m : run (bool * MAC_EXP_CONTEXT), okm (fun p => grows mc1 p.2) m -> okm (fun p => grows mc p.2) m)
    by (intros m Hm; eapply okm_mono; [exact Hm|]; intros p Hp'; by eapply grows_trans).
  destruct (Z.eqb_spec ch "?"%ch); [by apply Htrans, (question_good buf)|].
  destruct (Z.eqb_spec ch ":"%ch); [by apply Htrans, (colon_good buf)|].
  destruct (Z.eqb_spec ch 0); [by apply Htrans, (end_good buf)|]. naive_solver.
Qed.
End step.

Lemma callback_ok fuel : callback_good fuel.
Proof.
  induction fuel as [|fuel IH]; intros type buf mc Hty Hb Hs Hl Hn; [unfold need in Hn; pose proof (braces_nonneg buf); lia|].
  cbn [mac_expand_callback]. set (mc1 := with_level (mc_level mc + 1) mc).
  assert (Hg1 : grows mc mc1) by (split_and!; [done|cbn; lia|]; exists []; cbn; by rewrite app_nil_r).
  destruct (Z.ltb_spec 100 (mc_level mc)) as [Hd|Hd].
  { assert (Ho : has_flag (mc_status (or_status MAC_PARSE_ERROR mc1)) MAC_PARSE_ERROR = true).
    { rewrite has_flag_error by (apply lor_status; [done|unfold MAC_PARSE_ERROR; lia]). cbn.
      rewrite <- Z.bit0_odd, Z.lor_spec. by rewrite orb_true_r. }
    rewrite Ho. cbn. split; [done|]. eapply grows_trans; [exact Hg1|apply grows_error]. }
  destruct (has_flag (mc_status mc1) MAC_PARSE_ERROR); [by apply conj|].
  assert (Hr1 : room fuel buf mc1).
  { split_and!; [done|cbn; lia|]. unfold need in *. cbn. lia. }
  eapply (okm_bind (fun p => grows mc1 p.2)).
  - destruct (type =? MAC_PARSE_EXPR).
    + apply macro_good; [done..|]. unfold need in Hn. lia.
    + destruct scan eqn:Es; [apply grows_refl|]. by apply grows_add.
  - intros [completed mc2] (Hst2 & Hl2 & Hext). cbn in *. split; [done|]. destruct completed; [|split_and!; [done|cbn in *; lia|done]].
    split_and!; [done|cbn in *; lia|done].
Qed.
End callback.

(** ** The language

    A template is a text with macros; a macro has a condition, which is an attribute or a
    comparison, and texts for when it holds or does not. *)

Inductive template : Type :=
  | T_end
  | T_text (s : bytes) (rest : template)
  | T_macro (c : condition) (b : branches) (rest : template)
with condition : Type :=
  | Attribute (name : bytes)
  | Compare (left : template) (op : Z) (right : template)
with branches : Type :=
  | NoBranch
  | IfTrue (t : template)
  | IfFalse (t : template)
  | IfElse (t1 t2 : template).

Scheme template_mut := Induction for template Sort Prop
  with condition_mut := Induction for condition Sort Prop
  with branches_mut := Induction for branches Sort Prop.
Combined Scheme template_ind3 from template_mut, condition_mut, branches_mut.

(** *** How it is spelled *)

Definition spell_char (c : Z) : bytes := if c =? "$"%ch then [c; c] else [c].
Fixpoint code_name (table : list (bytes * Z)) (op : Z) : bytes :=
  match table with
  | [] => []
  | (name, code) :: table => if code =? op then name else code_name table op
  end.
Definition curly (s : bytes) : bytes := "{"%ch :: s ++ ["}"%ch].
Fixpoint spell (t : template) : bytes :=
  match t with
  | T_end => []
  | T_text s rest => flat_map spell_char s ++ spell rest
  | T_macro c b rest => "$"%ch :: curly (spell_condition c ++ spell_branches b) ++ spell rest
  end
with spell_condition (c : condition) : bytes :=
  match c with
  | Attribute name => name
  | Compare l op r => curly (spell l) ++ code_name mac_exp_op_table op ++ curly (spell r)
  end
with spell_branches (b : branches) : bytes :=
  match b with
  | NoBranch => []
  | IfTrue t => "?"%ch :: curly (spell t)
  | IfFalse t => ":"%ch :: curly (spell t)
  | IfElse t1 t2 => "?"%ch :: curly (spell t1) ++ ":"%ch :: curly (spell t2)
  end.

(** What can be spelled: texts without braces, names of name characters, and the six
    operators. *)
Definition text_ok (s : bytes) : Prop := Forall (fun c => c <> "{"%ch /\ c <> "}"%ch /\ c <> 0) s.
Fixpoint spelled_ok (t : template) : Prop :=
  match t with
  | T_end => True
  | T_text s rest => text_ok s /\ spelled_ok rest
  | T_macro c b rest => condition_ok c /\ branches_ok b /\ spelled_ok rest
  end
with condition_ok (c : condition) : Prop :=
  match c with
  | Attribute name => name <> [] /\ Forall (fun c => name_char c = true) name
  | Compare l op r => spelled_ok l /\ 1 <= op <= 6 /\ spelled_ok r
  end
with branches_ok (b : branches) : Prop :=
  match b with
  | NoBranch => True
  | IfTrue t => spelled_ok t
  | IfFalse t => spelled_ok t
  | IfElse t1 t2 => spelled_ok t1 /\ spelled_ok t2
  end.

(** The nesting of conditional texts at a level is limited; the operands of a comparison
    start at level 0. *)
Fixpoint nesting_ok (level : Z) (t : template) : Prop :=
  match t with
  | T_end => True
  | T_text s rest => level <= 100 /\ nesting_ok level rest
  | T_macro c b rest => level <= 100 /\ condition_nesting_ok c /\ branches_nesting_ok (level + 1) b /\ nesting_ok level rest
  end
with condition_nesting_ok (c : condition) : Prop :=
  match c with
  | Attribute _ => True
  | Compare l _ r => nesting_ok 0 l /\ nesting_ok 0 r
  end
with branches_nesting_ok (level : Z) (b : branches) : Prop :=
  match b with
  | NoBranch => True
  | IfTrue t => nesting_ok level t
  | IfFalse t => nesting_ok level t
  | IfElse t1 t2 => nesting_ok level t1 /\ nesting_ok level t2
  end.

(** How deep the program recurs. *)
Fixpoint height (t : template) : nat :=
  match t with
  | T_end => 0
  | T_text s rest => Nat.max 1 (height rest)
  | T_macro c b rest => Nat.max (S (Nat.max (condition_height c) (branches_height b))) (height rest)
  end
with condition_height (c : condition) : nat :=
  match c with Attribute _ => 0 | Compare l _ r => Nat.max (height l) (height r) end
with branches_height (b : branches) : nat :=
  match b with
  | NoBranch => 0
  | IfTrue t => height t
  | IfFalse t => height t
  | IfElse t1 t2 => Nat.max (height t1) (height t2)
  end.

(** *** What it means *)

Section meaning.
Context (flags : Z) (filter : option bytes) (lookup : bytes -> Z -> option bytes) (errno_erange utf8_enable : bool).

(** A comparison is of numbers if both operands are, and of texts otherwise. *)
Definition relation_holds (op : Z) (c : comparison) : bool :=
  match c with
  | Eq => existsb (Z.eqb op) [MAC_EXP_OP_TOK_EQ; MAC_EXP_OP_TOK_LE; MAC_EXP_OP_TOK_GE]
  | Lt => existsb (Z.eqb op) [MAC_EXP_OP_TOK_NE; MAC_EXP_OP_TOK_LT; MAC_EXP_OP_TOK_LE]
  | Gt => existsb (Z.eqb op) [MAC_EXP_OP_TOK_NE; MAC_EXP_OP_TOK_GE; MAC_EXP_OP_TOK_GT]
  end.
Fixpoint lexicographic (s t : bytes) : comparison :=
  match s, t with
  | [], [] => Eq
  | [], _ => Lt
  | _, [] => Gt
  | c :: s, d :: t => match c ?= d with Eq => lexicographic s t | o => o end
  end.
Fixpoint number (s : bytes) : Z :=
  match s with [] => 0 | c :: s => (c - "0"%ch) * 10 ^ Z.of_nat (length s) + number s end.
Definition compare_values (l : bytes) (op : Z) (r : bytes) : run bool :=
  if alldig l && alldig r then
    if errno_erange || (LONG_MAX <? Z.max (number l) (number r)) then Fatal else Value (relation_holds op (number l ?= number r))
  else Value (relation_holds op (lexicographic l r)).

(** A condition holds unless its value is undefined or empty. *)
Definition condition_holds (v : option bytes) : bool := negb (bool_decide (default [] v = [])).

Definition mode_of (b : branches) : Z := match b with NoBranch => MAC_EXP_MODE_USE | _ => MAC_EXP_MODE_TEST end.

(** The text, and whether an attribute that it uses is undefined. *)
Fixpoint meaning (t : template) : run (bool * bytes) :=
  match t with
  | T_end => Value (false, [])
  | T_text s rest => '(u, out) ← meaning rest; Value (u, s ++ out)
  | T_macro c b rest =>
      '(u1, v) ← condition_value (mode_of b) c;
      '(u2, out1) ← branch_value v b;
      '(u3, out2) ← meaning rest;
      Value (u1 || u2 || u3, out1 ++ out2)
  end
with condition_value (mode : Z) (c : condition) : run (bool * option bytes) :=
  match c with
  | Attribute name => Value (false, lookup name mode)
  | Compare l op r =>
      '(u1, lv) ← meaning l;
      '(u2, rv) ← meaning r;
      b ← compare_values lv op rv;
      Value (u1 || u2, Some (if b : bool then MAC_EXP_BVAL_TRUE else MAC_EXP_BVAL_FALSE))
  end
with branch_value (v : option bytes) (b : branches) : run (bool * bytes) :=
  match b with
  | NoBranch => Value (match v with
                       | None => (true, [])
                       | Some [] => (false, [])
                       | Some v => (false, filter_value flags filter utf8_enable v)
                       end)
  | IfTrue t => if condition_holds v then meaning t else Value (false, [])
  | IfFalse t => if condition_holds v then Value (false, []) else meaning t
  | IfElse t1 t2 => if condition_holds v then meaning t1 else meaning t2
  end.
End meaning.

(** *** Comparing *)

Lemma nonempty_holds v : nonempty v = condition_holds v.
Proof. by destruct v as [[|c v]|]. Qed.

Lemma fold_number s n : fold_left (fun n c => n * 10 + (c - "0"%ch)) s n = n * 10 ^ Z.of_nat (length s) + number s.
Proof.
  revert n. induction s as [|c s IH]; intros n; cbn [fold_left length number]; [lia|].
  rewrite IH, Nat2Z.inj_succ, Z.pow_succ_r by lia. lia.
Qed.
Lemma strcmp_lexicographic s t : strcmp s t = match lexicographic s t with Eq => 0 | Lt => -1 | Gt => 1 end.
Proof.
  revert t. induction s as [|c s IH]; intros [|d t]; [done..|]. cbn. destruct (Z.compare_spec c d) as [->|H|H].
  - by rewrite Z.ltb_irrefl.
  - by rewrite (proj2 (Z.ltb_lt c d)).
  - by rewrite (proj2 (Z.ltb_ge c d)), (proj2 (Z.ltb_lt d c)) by lia.
Qed.
Lemma mac_exp_eval_compare errno_erange l op r : 1 <= op <= 6 -> mac_exp_eval errno_erange l op r = compare_values errno_erange l op r.
Proof.
  intros H. assert (op = 1 \/ op = 2 \/ op = 3 \/ op = 4 \/ op = 5 \/ op = 6) as Hop by lia. unfold mac_exp_eval, compare_values.
  destruct (alldig l && alldig r).
  - unfold atol_or_die. rewrite !fold_number. cbn [Z.mul Z.add]. rewrite !Z.mul_0_l, !Z.add_0_l. destruct errno_erange; [done|]. cbn [orb].
    destruct (Z.ltb_spec LONG_MAX (number l)) as [Hl|Hl]; [by rewrite (proj2 (Z.ltb_lt LONG_MAX (Z.max (number l) (number r)))) by lia|].
    destruct (Z.ltb_spec LONG_MAX (number r)) as [Hr|Hr]; [by rewrite (proj2 (Z.ltb_lt LONG_MAX (Z.max (number l) (number r)))) by lia|].
    rewrite (proj2 (Z.ltb_ge LONG_MAX _)) by lia. cbn [mbind run_bind].
    destruct Hop as [->|[->|[->|[->|[->| ->]]]]], (Z.compare_spec (number l) (number r)); 
      match goal with |- context[relation_holds ?o ?c] => let v := eval vm_compute in (relation_holds o c) in change (relation_holds o c) with v end;
      cbn -[Z.eqb Z.ltb Z.leb Z.sub number]; f_equal; lia.
  - rewrite strcmp_lexicographic. cbn [mbind run_bind].
    destruct (lexicographic l r), Hop as [->|[->|[->|[->|[->| ->]]]]]; done.
Qed.

(** *** Reading what is spelled *)

(** A text with matching braces. *)
Definition balanced (s : bytes) : Prop := forall level r, level <> O ->
  find_close "{"%ch "}"%ch level (s ++ r) = p ← find_close "{"%ch "}"%ch level r; Some (s ++ p.1, p.2).
Lemma balanced_nil : balanced [].
Proof. intros level r _. cbn. by destruct (find_close _ _ _ _) as [[? ?]|]. Qed.
Lemma balanced_app s t : balanced s -> balanced t -> balanced (s ++ t).
Proof.
  intros Hs Ht level r Hl. rewrite <- app_assoc, Hs, Ht by done. destruct (find_close _ _ _ _) as [[p q]|]; [|done]. cbn. by rewrite app_assoc.
Qed.
Lemma balanced_char c : c <> "{"%ch -> c <> "}"%ch -> balanced [c].
Proof.
  intros H1 H2 level r Hl. cbn. rewrite (proj2 (Z.eqb_neq _ _) H1), (proj2 (Z.eqb_neq _ _) H2). destruct level; [done|].
  by destruct (find_close _ _ _ _) as [[p q]|].
Qed.
Lemma balanced_cons c s : c <> "{"%ch -> c <> "}"%ch -> balanced s -> balanced (c :: s).
Proof. intros H1 H2 Hs. apply (balanced_app [c]); [by apply balanced_char|done]. Qed.
Lemma balanced_Forall s : Forall (fun c => c <> "{"%ch /\ c <> "}"%ch) s -> balanced s.
Proof. induction 1 as [|c s [H1 H2] _ IH]; [apply balanced_nil|by apply balanced_cons]. Qed.
Lemma balanced_curly s : balanced s -> balanced (curly s).
Proof.
  intros Hs level r Hl. unfold curly. cbn. destruct level as [|level]; [done|]. rewrite <- app_assoc, Hs by done. cbn.
  by destruct (find_close _ _ _ _) as [[p q]|]; cbn; [rewrite <- app_assoc|].
Qed.

(** The payload in braces is found. *)
Lemma find_curly_payload s r : balanced s -> find_close "{"%ch "}"%ch 1 (s ++ "}"%ch :: r) = Some (s, r).
Proof. intros Hs. rewrite Hs by done. cbn. by rewrite app_nil_r. Qed.

Lemma name_char_plain c : name_char c = true -> c <> "{"%ch /\ c <> "}"%ch /\ c <> "$"%ch /\ c <> "?"%ch /\ c <> ":"%ch /\ c <> 0 /\ MAC_EXP_WHITESPACE c = false.
Proof.
  unfold name_char, ISALNUM, ISALPHA, MAC_EXP_WHITESPACE. cbn [existsb]. intros H.
  assert (Hc : 48 <= c /\ c <> 58 /\ c <> 63 /\ c <> 123 /\ c <> 125)
    by (repeat match goal with Ho : _ \/ _ |- _ => destruct Ho | _ => progress zb end; lia).
  split_and!; lia.
Qed.

Lemma op_spelled op : 1 <= op <= 6 -> exists o, code_name mac_exp_op_table op = o /\ o <> [] /\ Forall (fun c => operator_char c = true) o
  /\ name_code mac_exp_op_table o = op /\ Forall (fun c => c <> "{"%ch /\ c <> "}"%ch) o.
Proof.
  intros H. assert (op = 1 \/ op = 2 \/ op = 3 \/ op = 4 \/ op = 5 \/ op = 6) as [->|[->|[->|[->|[->| ->]]]]] by lia;
    (eexists; split; [reflexivity|]; split_and!; [done|repeat constructor|reflexivity|repeat constructor; done]).
Qed.

Lemma spell_balanced :
  (forall t, spelled_ok t -> balanced (spell t)) /\ (forall c, condition_ok c -> balanced (spell_condition c))
  /\ (forall b, branches_ok b -> balanced (spell_branches b)).
Proof.
  apply template_ind3.
  - intros _. apply balanced_nil.
  - intros s rest IH [Hs Hr]. apply balanced_app; [|by apply IH]. apply balanced_Forall.
    induction Hs as [|c s (H1 & H2 & _) _ IHs]; [constructor|]. cbn. apply Forall_app. split; [|done]. unfold spell_char. case_match; by repeat constructor.
  - intros c IHc b IHb rest IH (Hc & Hb & Hr). apply balanced_cons; [done..|].
    apply balanced_app; [apply balanced_curly, balanced_app; auto|auto].
  - intros name [_ Hn]. apply balanced_Forall. eapply Forall_impl; [exact Hn|]. intros c Hc%name_char_plain. tauto.
  - intros l IHl op r IHr (Hl & Ho & Hr). destruct (op_spelled op Ho) as (o & E & _ & _ & _ & Hob).
    change (balanced (curly (spell l) ++ code_name mac_exp_op_table op ++ curly (spell r))). rewrite E.
    apply balanced_app; [apply balanced_curly; auto|]. apply balanced_app; [by apply balanced_Forall|apply balanced_curly; auto].
  - intros _. apply balanced_nil.
  - intros t IH Ht. apply balanced_cons; [done..|]. apply balanced_curly; auto.
  - intros t IH Ht. apply balanced_cons; [done..|]. apply balanced_curly; auto.
  - intros t1 IH1 t2 IH2 [H1 H2]. apply balanced_cons; [done..|]. apply balanced_app; [apply balanced_curly; auto|].
    apply balanced_cons; [done..|]. apply balanced_curly; auto.
Qed.

(** The loop does not depend on the fuel. *)
Lemma parse_loop_fuel {C} (action : MAC_PARSE_FN C) n : forall n' vp buf status c, (length vp < n)%nat -> (length vp < n')%nat ->
  parse_loop action n vp buf status c = parse_loop action n' vp buf status c.
Proof.
  induction n as [|n IH]; intros n' vp buf status c H1 H2; [lia|]. destruct n' as [|n']; [lia|].
  destruct vp as [|ch vp]; [done|]. cbn [parse_loop length] in *. destruct (negb _); [apply IH; lia|].
  destruct (_ =? _); [apply IH; rewrite length_drop; lia|]. destruct (match buf with [] => _ | _ => _ end) as [[st c1]| | |]; [|done..].
  cbn [mbind run_bind]. destruct (parse_expr vp) as [[name rest]|] eqn:Ee; [|done]. destruct (_ && _); [done|]. destruct (bool_decide _); [done|].
  apply parse_expr_length in Ee. destruct (MAC_PARSE_ACTION _ _ _ _ _) as [[st2 c2]| | |]; [|done..]. cbn [mbind run_bind]. apply IH; lia.
Qed.

Section loop.
Context {C : Type} (action : MAC_PARSE_FN C).

(** What is left to do for a text and the characters before it. *)
Definition parse_rest (vp buf : bytes) (status : Z) (c : C) : run (Z * C) :=
  p ← parse_loop action (S (length vp)) vp buf status c; last_literal action p.

Lemma parse_rest_nil buf status c : parse_rest [] buf status c = last_literal action (status, buf, c).
Proof. done. Qed.
Lemma parse_loop_char n ch vp buf status c : ch <> "$"%ch ->
  parse_loop action (S n) (ch :: vp) buf status c = parse_loop action n vp (buf ++ [ch]) status c.
Proof. intros Hc. cbn [parse_loop]. by rewrite (proj2 (Z.eqb_neq _ _) Hc). Qed.
Lemma parse_loop_dollar n vp buf status c :
  parse_loop action (S n) ("$"%ch :: "$"%ch :: vp) buf status c = parse_loop action n vp (buf ++ ["$"%ch]) status c.
Proof. reflexivity. Qed.
Definition flush (buf : bytes) (status : Z) (c : C) : run (Z * C) :=
  match buf with [] => Value (status, c) | _ => MAC_PARSE_ACTION action status MAC_PARSE_LITERAL buf c end.
Lemma parse_loop_bare n vp buf status c name rest : cp vp 0 <> "$"%ch -> parse_expr vp = Some (name, rest) -> name <> [] ->
  parse_loop action (S n) ("$"%ch :: vp) buf status c =
    '(st, c1) ← flush buf status c;
    if ((cp vp 0 =? "("%ch) || (cp vp 0 =? "{"%ch)) && has_flag st MAC_PARSE_ERROR then Value (st, [], c1)
    else '(st2, c2) ← MAC_PARSE_ACTION action st MAC_PARSE_EXPR name c1; parse_loop action n rest [] st2 c2.
Proof.
  intros Hd He Hn. cbn [parse_loop]. rewrite Z.eqb_refl. cbn [negb]. rewrite (proj2 (Z.eqb_neq _ _) Hd), He. by rewrite bool_decide_false.
Qed.
Lemma parse_rest_text s vp buf status c : parse_rest (flat_map spell_char s ++ vp) buf status c = parse_rest vp (buf ++ s) status c.
Proof.
  revert buf. induction s as [|ch s IH]; intros buf; cbn [flat_map]; [by rewrite app_nil_r|]. rewrite <- app_assoc.
  replace (buf ++ ch :: s) with ((buf ++ [ch]) ++ s) by (by rewrite <- app_assoc). rewrite <- IH. unfold parse_rest.
  destruct (Z.eqb_spec ch "$"%ch) as [->|Hne].
  - change (spell_char "$"%ch) with ["$"%ch; "$"%ch]. f_equal. cbn [app length]. etrans; [apply (parse_loop_dollar (S (S (length (flat_map spell_char s ++ vp)))))|]. apply parse_loop_fuel; lia.
  - replace (spell_char ch) with [ch] by (unfold spell_char; by rewrite (proj2 (Z.eqb_neq _ _) Hne)).
    f_equal. cbn [app length]. by apply parse_loop_char.
Qed.
(** A macro in braces, after the text before it is flushed. *)
Lemma parse_rest_macro s vp buf status c : balanced s -> s <> [] ->
  (forall st c1, flush buf status c = Value (st, c1) -> has_flag st MAC_PARSE_ERROR = false) ->
  parse_rest ("$"%ch :: curly s ++ vp) buf status c =
    '(status, c) ← flush buf status c;
    '(status, c) ← MAC_PARSE_ACTION action status MAC_PARSE_EXPR s c;
    parse_rest vp [] status c.
Proof.
  intros Hb Hs Hf.
  assert (Ep : parse_expr (curly s ++ vp) = Some (s, vp)).
  { unfold parse_expr, curly. cbn [app cp nth drop]. rewrite drop_0, <- app_assoc. cbn [app].
    rewrite (proj2 (Z.eqb_neq "{"%ch "("%ch)) by done. rewrite Z.eqb_refl. by apply find_curly_payload. }
  unfold parse_rest. cbn [length]. rewrite (parse_loop_bare _ _ _ _ _ s vp) by done.
  destruct (flush buf status c) as [[st c1]| | |]; [|done..]. cbn [mbind run_bind]. rewrite (Hf st c1), andb_false_r by done.
  destruct (MAC_PARSE_ACTION _ _ _ _ _) as [[st2 c2]| | |]; [|done..]. cbn [mbind run_bind].
  f_equal. apply parse_loop_fuel; [unfold curly; rewrite !length_app; cbn; lia|lia].
Qed.
Lemma mac_parse_rest value c : mac_parse action value c = parse_rest value [] 0 c.
Proof. done. Qed.
End loop.

(** *** Spelling and meaning agree *)

Definition st_of (u : bool) : Z := if u then MAC_PARSE_UNDEF else MAC_PARSE_OK.
Lemma st_of_error u : has_flag (st_of u) MAC_PARSE_ERROR = false.
Proof. by destruct u. Qed.
Lemma st_of_or a b : Z.lor (st_of a) (st_of b) = st_of (a || b).
Proof. by destruct a, b. Qed.
Lemma or_status_ctx a r u l : or_status (st_of a) (mk_context r (st_of u) l) = mk_context r (st_of (u || a)) l.
Proof. unfold or_status. cbn. by rewrite st_of_or. Qed.

Definition is_nil (s : bytes) : bool := match s with [] => true | _ => false end.

(** No callback is made for the template. *)
Fixpoint silent (t : template) : bool :=
  match t with T_end => true | T_text s rest => is_nil s && silent rest | T_macro _ _ _ => false end.

(** The operator of the branches, and what follows it. *)
Definition branch_op (b : branches) : Z := match b with NoBranch => 0 | IfFalse _ => ":"%ch | _ => "?"%ch end.
Definition branch_text (b : branches) : bytes := drop 1 (spell_branches b).
Lemma spell_branches_op b : (b = NoBranch /\ spell_branches b = []) \/ (b <> NoBranch /\ spell_branches b = branch_op b :: branch_text b).
Proof. destruct b; [by left|right..]; by split. Qed.

Lemma strspn_stop p c s : p c = false -> strspn p (c :: s) = 0%nat.
Proof. intros H. cbn. by rewrite H. Qed.
Lemma strspn_run p s c r : Forall (fun x => p x = true) s -> p c = false -> strspn p (s ++ c :: r) = length s.
Proof. induction 1 as [|x s Hx _ IH]; intros Hc; cbn; [by rewrite Hc|]. by rewrite Hx, IH. Qed.

Lemma find_curly_here s r : MAC_EXP_FIND_LEFT_CURLY (curly s ++ r) = Some (curly s ++ r).
Proof. reflexivity. Qed.
Lemma extract_curly s r : balanced s -> (forall c r', r = c :: r' -> MAC_EXP_WHITESPACE c = false) ->
  mac_exp_extract_curly_payload (curly s ++ r) = Some (s, r).
Proof.
  intros Hs Hr. unfold mac_exp_extract_curly_payload, curly. cbn [app drop]. rewrite drop_0, <- app_assoc. cbn [app].
  rewrite find_curly_payload by done. cbn [mbind option_bind]. destruct r as [|c r]; [done|]. by rewrite (strspn_stop _ c r) by by eapply Hr.
Qed.
Lemma result_operand_curly s r : balanced s -> (forall c r', r = c :: r' -> MAC_EXP_WHITESPACE c = false) ->
  result_operand (curly s ++ r) = Some (s, r).
Proof. intros. unfold result_operand. rewrite find_curly_here. by apply extract_curly. Qed.

Lemma attribute_name_spelled b name : forall acc, Forall (fun c => name_char c = true) name ->
  attribute_name (name ++ spell_branches b) acc = Some (acc ++ name, mode_of b, branch_op b, branch_text b).
Proof.
  induction name as [|c name IH]; intros acc H.
  - rewrite app_nil_r. destruct b; reflexivity.
  - apply Forall_cons in H as [Hc H]. pose proof (name_char_plain c Hc) as (_ & _ & _ & H1 & H2 & H3 & H4). cbn [app attribute_name].
    rewrite (strspn_stop _ c) by done. cbn [drop cp nth]. rewrite !(proj2 (Z.eqb_neq _ _)) by done. cbn [orb]. rewrite Hc, IH by done.
    by rewrite <- app_assoc.
Qed.

Section meaning_ok.
Context (flags : Z) (filter : option bytes) (lookup : bytes -> Z -> option bytes) (errno_erange utf8_enable : bool).
Context (Hrec : has_flag flags MAC_EXP_FLAG_RECURSE = false) (Hscan : has_flag flags MAC_EXP_FLAG_SCAN = false).
#[local] Set Default Proof Using "All".
#[local] Notation callback := (mac_expand_callback flags filter lookup errno_erange utf8_enable).
#[local] Notation meaning := (meaning flags filter lookup errno_erange utf8_enable).
#[local] Notation condition_value := (condition_value flags filter lookup errno_erange utf8_enable).
#[local] Notation branch_value := (branch_value flags filter lookup errno_erange utf8_enable).

Lemma callback_literal fuel buf r u l : l <= 100 ->
  callback (S fuel) MAC_PARSE_LITERAL buf (mk_context r (st_of u) l) = Value (st_of u, mk_context (r ++ buf) (st_of u) l).
Proof.
  intros Hl. cbn [mac_expand_callback mc_level]. rewrite (proj2 (Z.ltb_ge 100 l)) by lia. cbn [with_level mc_status].
  rewrite st_of_error. change (MAC_PARSE_LITERAL =? MAC_PARSE_EXPR) with false. rewrite Hscan. cbn. by rewrite Z.add_simpl_r.
Qed.

(** What the parser does with a template, after some text. *)
Definition template_ok (t : template) : Prop := spelled_ok t -> forall fuel l buf w u r,
  (height t <= fuel)%nat -> (buf <> [] -> (1 <= fuel)%nat /\ l <= 100) -> nesting_ok l t -> 0 <= l -> implb w u = true ->
  parse_rest (callback fuel) (spell t) buf (st_of w) (mk_context r (st_of u) l) =
    '(v, out) ← meaning t;
    Value (st_of (if silent t && is_nil buf then w else u || v), mk_context (r ++ buf ++ out) (st_of (u || v)) l).

Definition cond_ok (c : condition) : Prop := condition_ok c -> forall fuel b u r l,
  (condition_height c <= fuel)%nat -> condition_nesting_ok c ->
  macro_value flags lookup errno_erange (callback fuel) (spell_condition c ++ spell_branches b) (mk_context r (st_of u) l) =
    '(v, value) ← condition_value (mode_of b) c;
    Value (Some (value, branch_op b, branch_text b), mk_context r (st_of (u || v)) l).

(** The switch of expand_macro(). *)
Definition operator_switch (fuel : nat) (value : option bytes) (ch : Z) (cp : bytes) (mc : MAC_EXP_CONTEXT) : run (bool * MAC_EXP_CONTEXT) :=
  if ch =? "?"%ch then case_question flags (callback fuel) value cp mc
  else if ch =? ":"%ch then case_colon flags (callback fuel) value cp mc
  else if ch =? 0 then case_end flags filter utf8_enable (callback fuel) value mc
  else Panicked.
Definition branch_ok (b : branches) : Prop := branches_ok b -> forall fuel value u r l,
  (branches_height b <= fuel)%nat -> branches_nesting_ok l b -> 0 <= l ->
  operator_switch fuel value (branch_op b) (branch_text b) (mk_context r (st_of u) l) =
    '(v, out) ← branch_value value b;
    Value (true, mk_context (r ++ out) (st_of (u || v)) l).

(** A text in a macro. *)
Lemma operand_ok t fuel u r l : template_ok t -> spelled_ok t -> (height t <= fuel)%nat -> nesting_ok l t -> 0 <= l ->
  parse_operand (callback fuel) (spell t) (mk_context r (st_of u) l) =
    '(v, out) ← meaning t; Value (mk_context (r ++ out) (st_of (u || v)) l).
Proof.
  intros Ht Hs Hh Hn Hl. unfold parse_operand. rewrite mac_parse_rest. change 0 with (st_of false) at 1.
  rewrite (Ht Hs fuel l [] false u r) by done. destruct (meaning t) as [[v out]| | |]; [|done..]. cbn [mbind run_bind app].
  rewrite or_status_ctx. do 2 f_equal. destruct (silent t && _), u, v; done.
Qed.

Lemma silent_meaning t : silent t = true -> meaning t = Value (false, []).
Proof.
  induction t as [|s t IH|c b t IH]; cbn; [done| |done]. intros [Hs H]%andb_prop. destruct s; [|done]. by rewrite IH.
Qed.

(** An operand of a comparison. *)
Lemma expand_ok t fuel : template_ok t -> spelled_ok t -> (height t <= fuel)%nat -> nesting_ok 0 t ->
  expand_with flags (callback fuel) [] (spell t) = '(v, out) ← meaning t; Value (st_of v, out).
Proof.
  intros Ht Hs Hh Hn. unfold expand_with. rewrite mac_parse_rest.
  replace (if has_flag flags _ then [] else []) with (@nil Z) by (by case_match).
  change (parse_rest (callback fuel) (spell t) [] 0 (mk_context [] 0 0)) with (parse_rest (callback fuel) (spell t) [] (st_of false) (mk_context [] (st_of false) 0)).
  rewrite (Ht Hs fuel 0 [] false false []) by done. destruct (silent t) eqn:Es; [by rewrite (silent_meaning t Es)|].
  by destruct (meaning t) as [[v out]| | |].
Qed.

(** *** The cases *)

Lemma meaning_macro c b t : meaning (T_macro c b t) =
  '(u1, v) ← condition_value (mode_of b) c; '(u2, out1) ← branch_value v b; '(u3, out2) ← meaning t; Value (u1 || u2 || u3, out1 ++ out2).
Proof. reflexivity. Qed.
Lemma spell_macro c b t : spell (T_macro c b t) = "$"%ch :: curly (spell_condition c ++ spell_branches b) ++ spell t.
Proof. reflexivity. Qed.
Lemma height_macro c b t : height (T_macro c b t) = Nat.max (S (Nat.max (condition_height c) (branches_height b))) (height t).
Proof. reflexivity. Qed.

Lemma end_ok : template_ok T_end.
Proof.
  intros _ fuel l buf w u r Hh Hb _ Hl Hw. cbn [spell silent meaning mbind run_bind]. rewrite parse_rest_nil. cbn [last_literal].
  destruct buf as [|c buf]; [by rewrite orb_false_r, app_nil_r|]. rewrite st_of_error. destruct (Hb ltac:(done)) as [Hf Hl2].
  destruct fuel as [|fuel]; [lia|]. unfold MAC_PARSE_ACTION. rewrite callback_literal by done. cbn [mbind run_bind].
  rewrite st_of_or, !app_nil_r, orb_false_r. cbn [andb is_nil]. do 3 f_equal. by destruct w, u.
Qed.

Lemma text_ok_case s t : template_ok t -> template_ok (T_text s t).
Proof.
  intros IH [Hs Ht] fuel l buf w u r Hh Hb [Hl1 Hn] Hl Hw. cbn [spell silent meaning height] in *. rewrite parse_rest_text.
  rewrite (IH Ht fuel l (buf ++ s) w u r) by (try done; lia).
  destruct (meaning t) as [[v out]| | |]; [|done..]. cbn [mbind run_bind].
  rewrite <- !app_assoc. do 3 f_equal. by destruct buf, s, (silent t).
Qed.

(** Flushing the text before a macro. *)
Lemma flush_ok fuel buf w u r l : (buf <> [] -> (1 <= fuel)%nat /\ l <= 100) -> implb w u = true ->
  flush (callback fuel) buf (st_of w) (mk_context r (st_of u) l) =
    Value (st_of (if is_nil buf then w else u), mk_context (r ++ buf) (st_of u) l).
Proof.
  intros Hb Hw. unfold flush. destruct buf as [|c buf]; [by rewrite app_nil_r|]. destruct (Hb ltac:(done)) as [Hf Hl].
  destruct fuel as [|fuel]; [lia|]. unfold MAC_PARSE_ACTION. rewrite callback_literal by done. cbn [mbind run_bind].
  rewrite st_of_or. cbn [is_nil]. do 3 f_equal. by destruct w, u.
Qed.

(** The callback for a macro. *)
Lemma callback_macro fuel c b r u l : cond_ok c -> branch_ok b -> condition_ok c -> branches_ok b ->
  (Nat.max (condition_height c) (branches_height b) <= fuel)%nat -> l <= 100 -> 0 <= l -> condition_nesting_ok c -> branches_nesting_ok (l + 1) b ->
  callback (S fuel) MAC_PARSE_EXPR (spell_condition c ++ spell_branches b) (mk_context r (st_of u) l) =
    '(v1, value) ← condition_value (mode_of b) c;
    '(v2, out) ← branch_value value b;
    Value (st_of (u || v1 || v2), mk_context (r ++ out) (st_of (u || v1 || v2)) l).
Proof.
  intros IHc IHb Hc Hb Hh Hl Hl0 Hnc Hnb. cbn [mac_expand_callback mc_level]. rewrite (proj2 (Z.ltb_ge 100 l)) by lia.
  cbn [with_level mc_status mc_result mc_level]. rewrite st_of_error, Z.eqb_refl. unfold expand_macro.
  change (with_level (l + 1) (mk_context r (st_of u) l)) with (mk_context r (st_of u) (l + 1)).
  rewrite IHc by (done || lia). destruct (condition_value _ c) as [[v1 value]| | |]; [|done..]. cbn [mbind run_bind].
  pose proof (IHb Hb fuel value (u || v1) r (l + 1) ltac:(lia) Hnb ltac:(lia)) as E. unfold operator_switch in E. rewrite E.
  destruct (branch_value value b) as [[v2 out]| | |]; [|done..]. cbn. by rewrite Z.add_simpl_r.
Qed.

Lemma macro_ok c b t : cond_ok c -> branch_ok b -> template_ok t -> template_ok (T_macro c b t).
Proof.
  intros IHc IHb IH (Hc & Hbr & Ht) fuel l buf w u r Hh Hb (Hl1 & Hnc & Hnb & Hn) Hl Hw. rewrite height_macro in Hh.
  rewrite meaning_macro, spell_macro. cbn [silent andb]. destruct fuel as [|fuel]; [lia|].
  assert (Hbal : balanced (spell_condition c ++ spell_branches b)) by (apply balanced_app; by apply spell_balanced).
  assert (Hne : spell_condition c ++ spell_branches b <> []).
  { destruct c as [name|lt op rt]; cbn; [|done]. destruct Hc as [Hne _]. by destruct name. }
  rewrite parse_rest_macro; [|done|done|].
  2: { intros st c1. rewrite flush_ok by done. intros [= <- <-]. apply st_of_error. }
  rewrite flush_ok by done. cbn [mbind run_bind]. unfold MAC_PARSE_ACTION. rewrite callback_macro by (done || lia).
  destruct (condition_value _ c) as [[v1 value]| | |]; [|done..]. cbn [mbind run_bind].
  destruct (branch_value value b) as [[v2 out1]| | |]; [|done..]. cbn [mbind run_bind]. rewrite st_of_or.
  set (w' := _ || _). assert (Ew : w' = u || v1 || v2) by (unfold w'; destruct (is_nil buf), w, u, v1, v2; done).
  clearbody w'. subst w'. rewrite (IH Ht (S fuel) l [] (u || v1 || v2) (u || v1 || v2) _) by (try done; try lia; by destruct u, v1, v2).
  destruct (silent t) eqn:Es.
  - rewrite (silent_meaning t Es). cbn [mbind run_bind app is_nil andb]. rewrite <- !app_assoc, !orb_assoc, !orb_false_r. done.
  - destruct (meaning t) as [[v3 out2]| | |]; [|done..]. cbn [mbind run_bind app andb]. by rewrite <- !app_assoc, !orb_assoc.
Qed.
Lemma attribute_ok name : cond_ok (Attribute name).
Proof.
  intros [Hne Hn] fuel b u r l _ _. change (spell_condition (Attribute name)) with name. unfold macro_value.
  destruct name as [|c name]; [done|]. pose proof (Forall_inv Hn) as Hc. apply name_char_plain in Hc as (H1 & _ & _ & _ & _ & _ & H4).
  assert (Hws : strspn MAC_EXP_WHITESPACE ((c :: name) ++ spell_branches b) = 0%nat) by (by apply (strspn_stop _ c)).
  unfold MAC_EXP_FIND_LEFT_CURLY. rewrite Hws. cbn [drop app cp nth]. rewrite (proj2 (Z.eqb_neq _ _) H1).
  change (c :: name ++ spell_branches b) with ((c :: name) ++ spell_branches b). rewrite attribute_name_spelled by done.
  cbn [mbind run_bind app]. change (condition_value (mode_of b) (Attribute (c :: name))) with (Value (false, lookup (c :: name) (mode_of b))).
  cbn [mbind run_bind]. by rewrite orb_false_r.
Qed.

Lemma compare_ok lt op rt : template_ok lt -> template_ok rt -> cond_ok (Compare lt op rt).
Proof.
  intros IHl IHr (Hl & Ho & Hr) fuel b u r l Hh [Hnl Hnr].
  change (spell_condition (Compare lt op rt)) with (curly (spell lt) ++ code_name mac_exp_op_table op ++ curly (spell rt)).
  change (condition_height (Compare lt op rt)) with (Nat.max (height lt) (height rt)) in Hh.
  destruct (op_spelled op Ho) as (o & -> & Hone & Hoc & Hcode & _). rewrite <- !app_assoc. unfold macro_value. rewrite find_curly_here.
  unfold mac_exp_parse_relational. rewrite extract_curly.
  2: { by apply spell_balanced. } 2: { destruct o as [|x o]; [done|]. intros c r' [= <- _]. apply Forall_inv in Hoc. unfold operator_char in Hoc.
       unfold MAC_EXP_WHITESPACE. apply existsb_exists in Hoc as (y & Hy & Hxy). zb. subst y. cbn in Hy. naive_solver. }
  assert (Hspan : strspn operator_char (o ++ curly (spell rt) ++ spell_branches b) = length o) by (apply strspn_run; [done|reflexivity]).
  rewrite Hspan, take_app_length, drop_app_length, Hcode. rewrite (proj2 (Z.eqb_neq op MAC_EXP_OP_TOK_NONE)) by (unfold MAC_EXP_OP_TOK_NONE; lia).
  rewrite find_curly_here, extract_curly.
  2: { by apply spell_balanced. } 2: { destruct b; cbn; intros c r' [= <- _]; reflexivity. }
  rewrite (expand_ok lt) by (try done; lia).
  change (condition_value (mode_of b) (Compare lt op rt)) with ('(u1, lv) ← meaning lt; '(u2, rv) ← meaning rt;
    b ← compare_values errno_erange lv op rv; Value (u1 || u2, Some (if b : bool then MAC_EXP_BVAL_TRUE else MAC_EXP_BVAL_FALSE))).
  destruct (meaning lt) as [[v1 lv]| | |]; [|done..]. cbn [mbind run_bind]. rewrite (expand_ok rt) by (try done; lia).
  destruct (meaning rt) as [[v2 rv]| | |]; [|done..]. cbn [mbind run_bind]. rewrite !or_status_ctx.
  rewrite mac_exp_eval_compare by done. destruct (compare_values errno_erange lv op rv) as [res| | |]; [|done..]. cbn [mbind run_bind mc_status]. rewrite st_of_error. cbn [mbind run_bind].
  rewrite <- orb_assoc. by destruct b.
Qed.

Lemma no_branch_ok : branch_ok NoBranch.
Proof.
  intros _ fuel value u r l _ _ _. unfold operator_switch. change (branch_op NoBranch) with 0. cbn [Z.eqb]. unfold case_end.
  destruct value as [v|].
  - destruct v as [|c v]; cbn -[filter_value]; [by rewrite app_nil_r, orb_false_r|]. rewrite Hscan, Hrec. cbn -[filter_value]. by rewrite orb_false_r.
  - change MAC_PARSE_UNDEF with (st_of true) at 1. rewrite or_status_ctx. cbn. by rewrite app_nil_r.
Qed.

(** One of the texts of a macro, or nothing. *)
Lemma optional_ok (p : bool) t fuel u r l : template_ok t -> spelled_ok t -> (height t <= fuel)%nat -> nesting_ok l t -> 0 <= l ->
  (if p || has_flag flags MAC_EXP_FLAG_SCAN then parse_operand (callback fuel) (spell t) (mk_context r (st_of u) l) else Value (mk_context r (st_of u) l)) =
    '(v, out) ← (if p then meaning t else Value (false, [])); Value (mk_context (r ++ out) (st_of (u || v)) l).
Proof.
  intros. rewrite Hscan, orb_false_r. destruct p; [by apply operand_ok|]. cbn. by rewrite app_nil_r, orb_false_r.
Qed.
Lemma if_true_ok t : template_ok t -> branch_ok (IfTrue t).
Proof.
  intros IH Ht fuel value u r l Hh Hn Hl. unfold operator_switch, case_question. rewrite nonempty_holds. change (branch_op (IfTrue t)) with "?"%ch. rewrite Z.eqb_refl.
  change (branch_text (IfTrue t)) with (curly (spell t)). rewrite <- (app_nil_r (curly (spell t))).
  rewrite result_operand_curly; [|by apply spell_balanced|done]. rewrite optional_ok by done.
  change (branch_value value (IfTrue t)) with (if condition_holds value then meaning t else Value (false, [])).
  by destruct (if condition_holds value then _ else _) as [[v out]| | |].
Qed.
Lemma colon_ok t fuel value u r l : template_ok t -> spelled_ok t -> (height t <= fuel)%nat -> nesting_ok l t -> 0 <= l ->
  case_colon flags (callback fuel) value (curly (spell t)) (mk_context r (st_of u) l) =
    '(v, out) ← (if condition_holds value then Value (false, []) else meaning t); Value (true, mk_context (r ++ out) (st_of (u || v)) l).
Proof.
  intros IH Ht Hh Hn Hl. unfold case_colon. rewrite nonempty_holds. rewrite <- (app_nil_r (curly (spell t))).
  rewrite result_operand_curly; [|by apply spell_balanced|done]. rewrite optional_ok by done.
  destruct (condition_holds value); cbn [negb]; [done|]. by destruct (meaning t) as [[v out]| | |].
Qed.
Lemma if_false_ok t : template_ok t -> branch_ok (IfFalse t).
Proof.
  intros IH Ht fuel value u r l Hh Hn Hl. unfold operator_switch. change (branch_op (IfFalse t)) with ":"%ch.
  change (branch_text (IfFalse t)) with (curly (spell t)). rewrite (proj2 (Z.eqb_neq ":"%ch "?"%ch)), Z.eqb_refl by done. by apply colon_ok.
Qed.
Lemma if_else_ok t1 t2 : template_ok t1 -> template_ok t2 -> branch_ok (IfElse t1 t2).
Proof.
  intros IH1 IH2 [H1 H2] fuel value u r l Hh [Hn1 Hn2] Hl. unfold operator_switch, case_question. rewrite nonempty_holds. change (branch_op (IfElse t1 t2)) with "?"%ch.
  change (branch_text (IfElse t1 t2)) with (curly (spell t1) ++ ":"%ch :: curly (spell t2)).
  change (branches_height (IfElse t1 t2)) with (Nat.max (height t1) (height t2)) in Hh. rewrite Z.eqb_refl.
  rewrite result_operand_curly; [|by apply spell_balanced|by intros c r' [= <- _]]. rewrite optional_ok by (try done; lia).
  change (branch_value value (IfElse t1 t2)) with (if condition_holds value then meaning t1 else meaning t2).
  destruct (condition_holds value) eqn:En.
  - destruct (meaning t1) as [[v out]| | |]; [|done..]. cbn [mbind run_bind]. rewrite Z.eqb_refl, colon_ok by (try done; lia).
    rewrite En. cbn. by rewrite app_nil_r, orb_false_r.
  - cbn [mbind run_bind]. rewrite Z.eqb_refl, colon_ok by (try done; lia). rewrite En, app_nil_r, orb_false_r. done.
Qed.

Lemma all_ok : (forall t, template_ok t) /\ (forall c, cond_ok c) /\ (forall b, branch_ok b).
Proof.
  apply template_ind3; intros.
  - apply end_ok.
  - by apply text_ok_case.
  - by apply macro_ok.
  - apply attribute_ok.
  - by apply compare_ok.
  - apply no_branch_ok.
  - by apply if_true_ok.
  - by apply if_false_ok.
  - by apply if_else_ok.
Qed.
End meaning_ok.

(** ** The properties *)

(** A character of the result comes from the pattern, or is an underscore, or may appear. *)
Definition value_char (flags : Z) (filter : option bytes) (utf8_enable : bool) (c : Z) : Prop :=
  if has_flag flags MAC_EXP_FLAG_PRINTABLE then (c < 128 /\ MailQueue.ISPRINT c = true) \/ (utf8_enable = true /\ 128 <= c)
  else match filter with Some f => c ∈ f | None => True end.
Definition result_char (flags : Z) (filter : option bytes) (utf8_enable : bool) (pattern : bytes) (c : Z) : Prop :=
  c = "_"%ch \/ c ∈ pattern \/ value_char flags filter utf8_enable c.

Lemma strspn_Forall p s : Forall (fun c => p c = true) (take (strspn p s) s).
Proof. induction s as [|c s IH]; cbn; [constructor|]. destruct (p c) eqn:E; [by constructor|constructor]. Qed.

Lemma printable_chars utf8 (P : Z -> Prop) : P "_"%ch -> (forall c, c < 128 -> MailQueue.ISPRINT c = true -> P c) ->
  (forall c, utf8 = true -> 128 <= c -> P c) -> forall n s, Forall P (printable utf8 n s "_"%ch).
Proof.
  intros H1 H2 H3. induction n as [|n IH]; intros s; [constructor|]. destruct s as [|c s]; [constructor|]. cbn [printable].
  destruct ((c <? 128) && MailQueue.ISPRINT c) eqn:E1.
  { apply andb_prop in E1 as [E1 E2]. constructor; [apply H2; [lia|done]|apply IH]. }
  destruct (utf8 && _ && _ && _) eqn:E2; [|by constructor]. apply andb_prop in E2 as [E2 _]. apply andb_prop in E2 as [E2 _].
  apply andb_prop in E2 as [-> E2]. constructor; [apply H3; [done|lia]|]. apply Forall_app. split; [|apply IH].
  eapply Forall_impl; [apply strspn_Forall|]. cbn. intros x Hx. apply H3; [done|]. unfold utf8_tail in Hx. lia.
Qed.
Lemma filter_value_chars flags filter utf8 pattern v : Forall (result_char flags filter utf8 pattern) (filter_value flags filter utf8 v).
Proof.
  unfold filter_value, result_char, value_char. destruct (has_flag _ _).
  - apply printable_chars; auto.
  - destruct filter as [f|]; [|apply Forall_forall; auto]. apply Forall_forall. intros x (c & -> & Hc)%list_elem_of_fmap.
    destruct (existsb (Z.eqb c) f) eqn:E; [|by left]. apply existsb_exists in E as (y & Hy & E). zb. subst y.
    right. right. by apply list_elem_of_In.
Qed.


(** C25: what a template means is what mac_expand() makes of its spelling: literal text as it
    is, attributes by their filtered values, one of the texts of a conditional by its
    condition, comparisons by the values of their operands; the status tells whether an
    attribute that was used is undefined.  The conditional texts are nested at most 100 deep,
    as the code requires. *)
Theorem mac_expand_meaning flags filter lookup errno_erange utf8_enable fuel result t :
  has_flag flags MAC_EXP_FLAG_RECURSE = false -> has_flag flags MAC_EXP_FLAG_SCAN = false ->
  spelled_ok t -> nesting_ok 0 t -> (height t <= fuel)%nat ->
  mac_expand flags filter lookup errno_erange utf8_enable fuel result (spell t) =
    '(undef, out) ← meaning flags filter lookup errno_erange utf8_enable t;
    Value (if undef : bool then MAC_PARSE_UNDEF else MAC_PARSE_OK,
           (if has_flag flags (Z.lor MAC_EXP_FLAG_APPEND MAC_EXP_FLAG_SCAN) then result else []) ++ out).
Proof.
  intros Hrec Hscan Hs Hn Hh. unfold mac_expand, expand_with. set (base := if has_flag _ _ then result else []).
  rewrite mac_parse_rest.
  change (mk_context base 0 0) with (mk_context base (st_of false) 0). change 0 with (st_of false) at 1.
  rewrite (proj1 (all_ok flags filter lookup errno_erange utf8_enable Hrec Hscan) t Hs fuel 0 [] false false base) by done.
  destruct (silent t) eqn:Es; [by rewrite silent_meaning|]. by destruct (meaning _ _ _ _ _ t) as [[v out]| | |].
Qed.

(** *** A nesting that is not limited

    The operands of a comparison are expanded by a mac_expand() of their own, that starts
    at level 0. *)
Definition self_comparison (name : bytes) (mode : Z) : option bytes := Some (str "${{$a} == {}}").
Lemma callback_loops filter errno_erange utf8_enable fuel :
  mac_expand_callback MAC_EXP_FLAG_RECURSE filter self_comparison errno_erange utf8_enable fuel MAC_PARSE_EXPR (str "a") (mk_context [] 0 0) = OutOfFuel.
Proof.
  induction fuel as [fuel IH] using lt_wf_ind. destruct fuel as [|[|fuel]]; [reflexivity..|].
  specialize (IH fuel ltac:(lia)). cbn [mac_expand_callback].
  set (cb := mac_expand_callback _ _ _ _ _ fuel) in *. clearbody cb. vm_compute in IH. vm_compute. by rewrite IH.
Qed.

(** With MAC_EXP_FLAG_RECURSE the limit of 100 levels does not end every expansion: an
    attribute whose value compares the attribute itself is expanded forever. *)
Theorem mac_expand_recurse_diverges filter errno_erange utf8_enable fuel result :
  mac_expand MAC_EXP_FLAG_RECURSE filter self_comparison errno_erange utf8_enable fuel result (str "$a") = OutOfFuel.
Proof.
  unfold mac_expand, expand_with, mac_parse, MAC_PARSE_ACTION. pose proof (callback_loops filter errno_erange utf8_enable fuel) as H.
  set (cb := mac_expand_callback _ _ _ _ _ fuel) in *. clearbody cb. vm_compute in H. vm_compute. by rewrite H.
Qed.

(** ** Witnesses *)

Definition one_attribute (name : bytes) (mode : Z) : option bytes := if decide (name = str "name1") then Some (str "name1-value") else None.

(** Cases of mac_expand.ref. *)
Example ref_conditional : mac_expand 0 None one_attribute false false 8 [] (str "${{$name1} != {}?{name 1 defined, |$name1|$name2|}}")
  = Value (MAC_PARSE_UNDEF, str "name 1 defined, |name1-value||").
Proof. reflexivity. Qed.
Example ref_garbage : mac_expand 0 None one_attribute false false 8 [] (str "${{$name1} != {}?{name 1 defined, |$name1|$name2|}x}")
  = Value (Z.lor MAC_PARSE_ERROR MAC_PARSE_UNDEF, str "name 1 defined, |name1-value||").
Proof. reflexivity. Qed.
Example ref_old_syntax : mac_expand 0 None one_attribute false false 8 [] (str "${{${name1??bug}} != {?bug}?{Error: NOT}:{Good:}} Postfix 2.11 compatible")
  = Value (MAC_PARSE_OK, str "Good: Postfix 2.11 compatible").
Proof. reflexivity. Qed.


Definition example_template : template :=
  T_text (str "The name ")
   (T_macro (Compare (T_macro (Attribute (str "name1")) NoBranch T_end) MAC_EXP_OP_TOK_NE (T_text (str "x") T_end))
     (IfElse (T_text (str "is ") (T_macro (Attribute (str "name2")) (IfFalse (T_text (str "$ one") T_end)) T_end)) T_end)
     (T_text (str ".") T_end)).
Lemma mac_expand_meaning_witness :
  spell example_template = str "The name ${{${name1}}!={x}?{is ${name2:{$$ one}}}:{}}."
  /\ mac_expand 0 None one_attribute false false 3 [] (spell example_template) = Value (MAC_PARSE_OK, str "The name is $ one.").
Proof.
  split; [reflexivity|].
  rewrite (mac_expand_meaning 0 None one_attribute false false 3 [] example_template eq_refl eq_refl); [reflexivity| | |].
  - cbn. unfold text_ok. repeat (split || constructor); done.
  - cbn. repeat (split || constructor); done.
  - vm_compute. lia.
Defined.
