(* ===== verification/Dsn.v ===== *)
(** Enhanced status codes (RFC 3463): dsn_util.c (src/src/global).

    A string is its characters before the terminator. A read at the terminator gives 0,
    and a read after it is undefined. *)

From S2P Require Export Prelude.

(** ** Operations *)

Definition DSN_DIGS1 : Z := 1.
Definition DSN_DIGS2 : Z := 3.
Definition DSN_DIGS3 : Z := 3.
Definition DSN_LEN : Z := DSN_DIGS1 + 1 + DSN_DIGS2 + 1 + DSN_DIGS3.

(** The length of the status code at the beginning of [text], or zero. *)
Definition dsn_valid (text : bytes) : nat :=
  if negb ((cp text 0 =? "2"%ch) || (cp text 0 =? "4"%ch) || (cp text 0 =? "5"%ch)) || negb (cp text 1 =? "."%ch) then O
  else
    let c2 := drop 2 text in
    let len := strspn ISDIGIT c2 in
    if (len <? 1)%nat || (DSN_DIGS2 <? Z.of_nat len) || negb (cp c2 len =? "."%ch) then O
    else
      let c3 := drop (len + 1) c2 in
      let len3 := strspn ISDIGIT c3 in
      if (len3 <? 1)%nat || (DSN_DIGS3 <? Z.of_nat len3) || (negb (cp c3 len3 =? 0) && negb (ISSPACE (cp c3 len3))) then O
      else (2 + len + 1 + len3)%nat.

(** [while (ISSPACE(cp[0])) cp++;] from position [i] *)
Definition skip_space (text : bytes) (i : nat) : outcome nat :=
  if (i <=? length text)%nat then Ret (i + strspn ISSPACE (drop i text))%nat else Undef.

(** The status code and the free text. *)
Definition dsn_split (def_dsn text : bytes) : outcome (bytes * bytes) :=
  i ← skip_space text 0;
  let len := dsn_valid (drop i text) in
  '(status, i) ← (if (0 <? len)%nat then Ret (take len (drop i text), (i + len + 1)%nat)
                  else
                    let len := dsn_valid def_dsn in
                    if (0 <? len)%nat then Ret (take len def_dsn, i) else Panic);
  i ← skip_space text i;
  Ret (status, drop i text).

Definition dsn_prepend (def_dsn text : bytes) : outcome bytes :=
  '(status, text) ← dsn_split def_dsn text;
  Ret (status ++ [" "%ch] ++ text).

(** ** Status codes *)

Definition digits (n : Z) (d : bytes) : Prop := forallb ISDIGIT d = true /\ (1 <= length d)%nat /\ Z.of_nat (length d) <= n.
Definition status_code (s : bytes) : Prop := exists c d2 d3, s = c :: "."%ch :: d2 ++ "."%ch :: d3 /\
  (c = "2"%ch \/ c = "4"%ch \/ c = "5"%ch) /\ digits DSN_DIGS2 d2 /\ digits DSN_DIGS3 d3.
Definition at_boundary (rest : bytes) : Prop := match rest with [] => True | c :: _ => ISSPACE c = true end.

Lemma status_code_length s : status_code s -> (5 <= length s)%nat /\ Z.of_nat (length s) <= DSN_LEN.
Proof.
  intros (c & d2 & d3 & -> & _ & (_ & L2 & U2) & (_ & L3 & U3)). cbn. rewrite length_app. cbn.
  unfold DSN_LEN, DSN_DIGS1, DSN_DIGS2, DSN_DIGS3 in *. lia.
Qed.

Lemma strspn_app_stop p (d r : bytes) : forallb p d = true -> match r with [] => True | c :: _ => p c = false end ->
  strspn p (d ++ r) = length d.
Proof.
  intros Hd Hr. induction d as [|c d IH]; cbn in *.
  - destruct r as [|c r]; [done|]. cbn. by rewrite Hr.
  - apply andb_prop in Hd as [-> Hd]. by rewrite IH.
Qed.

Lemma cp_app_length (d r : bytes) : cp (d ++ r) (length d) = cp r 0.
Proof. unfold cp. rewrite app_nth2 by lia. by rewrite Nat.sub_diag. Qed.

Lemma dot_not_digit : ISDIGIT "."%ch = false.
Proof. done. Qed.
Lemma space_not_digit c : ISSPACE c = true -> ISDIGIT c = false.
Proof. unfold ISSPACE, ISDIGIT, in_range. intros H. zcases; cbn in *; try lia; done. Qed.

Lemma dsn_valid_code s rest : status_code s -> at_boundary rest -> dsn_valid (s ++ rest) = length s.
Proof.
  intros (c & d2 & d3 & -> & Hc & (D2 & L2 & U2) & (D3 & L3 & U3)) Hr. unfold dsn_valid.
  assert (Hc' : ((c =? "2"%ch) || (c =? "4"%ch) || (c =? "5"%ch)) = true).
  { destruct Hc as [->|[->| ->]]; reflexivity. }
  change (cp _ 0) with c at 1 2 3. change (cp _ 1) with ("."%ch). rewrite Hc', Z.eqb_refl. cbn [negb orb].
  change (drop 2 _) with ((d2 ++ "."%ch :: d3) ++ rest). rewrite <- app_assoc.
  rewrite (strspn_app_stop _ d2) by done. rewrite cp_app_length. change (cp (("."%ch :: d3) ++ rest) 0) with ("."%ch). rewrite Z.eqb_refl.
  replace (length d2 <? 1)%nat with false by (symmetry; by apply Nat.ltb_ge).
  replace (DSN_DIGS2 <? Z.of_nat (length d2)) with false by (symmetry; by apply Z.ltb_ge). cbn [negb orb].
  rewrite drop_app_ge by lia. replace (length d2 + 1 - length d2)%nat with 1%nat by lia.
  change (drop 1 (("."%ch :: d3) ++ rest)) with (d3 ++ rest). rewrite (strspn_app_stop _ d3); [|done|].
  2:{ destruct rest as [|x rest]; [done|]. by apply space_not_digit. }
  rewrite cp_app_length.
  replace (length d3 <? 1)%nat with false by (symmetry; by apply Nat.ltb_ge).
  replace (DSN_DIGS3 <? Z.of_nat (length d3)) with false by (symmetry; by apply Z.ltb_ge).
  assert (Hb : negb (cp rest 0 =? 0) && negb (ISSPACE (cp rest 0)) = false).
  { destruct rest as [|x rest]; [done|]. cbn -[ISSPACE]. rewrite Hr. by rewrite andb_false_r. }
  rewrite Hb. cbn. rewrite length_app. cbn. lia.
Qed.

Lemma dsn_valid_inv text n : Forall is_cchar text -> dsn_valid text = n -> (0 < n)%nat -> exists s rest, text = s ++ rest /\ status_code s /\
  at_boundary rest /\ n = length s.
Proof.
  intros Hch E Hn. unfold dsn_valid in E.
  destruct (negb ((cp text 0 =? "2"%ch) || _ || _) || _) eqn:E1 in E; [lia|].
  apply orb_false_elim in E1 as [E1 E1']. apply negb_false_iff in E1, E1'.
  destruct text as [|c [|dot text]]; [done|done|]. cbn -[Z.eqb] in E1, E1'. apply Z.eqb_eq in E1' as ->.
  cbn [drop] in E. rewrite drop_0 in E. set (l2 := strspn ISDIGIT text) in *.
  destruct ((l2 <? 1)%nat || (DSN_DIGS2 <? Z.of_nat l2) || _) eqn:E2 in E; [lia|].
  apply orb_false_elim in E2 as [[E2a E2b]%orb_false_elim E2c]. apply negb_false_iff, Z.eqb_eq in E2c.
  set (d2 := take l2 text). set (r2 := drop l2 text).
  assert (Ht : text = d2 ++ r2) by (symmetry; apply take_drop).
  assert (Ll2 : length d2 = l2) by (unfold d2; rewrite length_take; pose proof (strspn_le ISDIGIT text); lia).
  assert (Hr2 : exists r, r2 = "."%ch :: r).
  { destruct r2 as [|x r] eqn:Er.
    - unfold cp in E2c. rewrite nth_overflow in E2c; [done|]. rewrite Ht, app_nil_r. lia.
    - exists r. f_equal. rewrite Ht, <- Ll2, cp_app_length in E2c. done. }
  destruct Hr2 as [r Er2].
  assert (Edrop : drop (l2 + 1) text = r).
  { rewrite Ht, <- Ll2, drop_app_ge by lia. replace (length d2 + 1 - length d2)%nat with 1%nat by lia. by rewrite Er2. }
  rewrite Edrop in E. set (l3 := strspn ISDIGIT r) in *.
  destruct ((l3 <? 1)%nat || (DSN_DIGS3 <? Z.of_nat l3) || _) eqn:E3 in E; [lia|].
  apply orb_false_elim in E3 as [[E3a E3b]%orb_false_elim E3c].
  set (d3 := take l3 r). assert (Ll3 : length d3 = l3) by (unfold d3; rewrite length_take; pose proof (strspn_le ISDIGIT r); lia).
  exists (c :: "."%ch :: d2 ++ "."%ch :: d3), (drop l3 r). split; [|split; [|split]].
  - rewrite Ht, Er2. cbn. rewrite <- app_assoc. cbn. unfold d3. by rewrite take_drop.
  - exists c, d2, d3. split; [done|]. split.
    { apply orb_prop in E1 as [[?|?]%orb_prop|?]; [left|right; left|right; right]; by apply Z.eqb_eq. }
    split; (split; [apply strspn_take|]); rewrite ?Ll2, ?Ll3; [split; [by apply Nat.ltb_ge in E2a|by apply Z.ltb_ge in E2b]|].
    split; [by apply Nat.ltb_ge in E3a|by apply Z.ltb_ge in E3b].
  - assert (Er : r = d3 ++ drop l3 r) by (unfold d3; by rewrite take_drop).
    assert (Hch' : Forall is_cchar (drop l3 r)).
    { apply Forall_drop. rewrite <- Edrop. apply Forall_drop. by inversion Hch as [|? ? _ H']; inversion H'. }
    destruct (drop l3 r) as [|x rest] eqn:Ed; [done|]. cbn. rewrite Er, <- Ll3, cp_app_length in E3c. cbn -[ISSPACE] in E3c.
    inversion Hch' as [|? ? Hx _]. unfold is_cchar in Hx. destruct (x =? 0) eqn:Ex; [lia|]. cbn in E3c. by apply negb_false_iff in E3c.
  - rewrite <- E. cbn. rewrite length_app. cbn. lia.
Qed.

(** ** Splitting *)

Lemma skip_space_ok text i : (i <= length text)%nat -> skip_space text i = Ret (i + strspn ISSPACE (drop i text))%nat.
Proof. intros H. unfold skip_space. by rewrite (proj2 (Nat.leb_le _ _)). Qed.

Definition no_leading_space (t : bytes) : Prop := match t with [] => True | c :: _ => ISSPACE c = false end.

Lemma strspn_zero p t : match t with [] => True | c :: _ => p c = false end -> strspn p t = O.
Proof. destruct t as [|c t]; [done|]. cbn. by intros ->. Qed.

Lemma code_head s : status_code s -> exists c r, s = c :: r /\ ISSPACE c = false.
Proof. intros (c & d2 & d3 & -> & Hc & _). eexists c, _. split; [done|]. by destruct Hc as [->|[->| ->]]. Qed.

(** White space, a status code, and the rest. *)
Lemma dsn_split_code def_dsn ws s rest : forallb ISSPACE ws = true -> status_code s -> at_boundary rest ->
  dsn_split def_dsn (ws ++ s ++ rest) =
    match rest with [] => Undef | _ :: t => Ret (s, drop (strspn ISSPACE t) t) end.
Proof.
  intros Hw Hs Hr. unfold dsn_split. rewrite skip_space_ok by lia. cbn [mbind outcome_bind]. rewrite drop_0.
  destruct (code_head s Hs) as (c & s' & Es & Hc).
  assert (Esp : strspn ISSPACE (ws ++ s ++ rest) = length ws) by (apply strspn_app_stop; [done|]; by rewrite Es).
  rewrite Esp. cbn [Nat.add]. rewrite drop_app_length, dsn_valid_code by done.
  pose proof (status_code_length s Hs) as [Hl _]. rewrite (proj2 (Nat.ltb_lt 0 (length s))) by lia.
  cbn [mbind outcome_bind]. rewrite take_app_length. unfold skip_space. rewrite !length_app.
  destruct rest as [|x t].
  - rewrite (proj2 (Nat.leb_gt _ _)); [done|]. cbn. lia.
  - rewrite (proj2 (Nat.leb_le _ _)) by (cbn; lia). cbn [mbind outcome_bind].
    assert (Ed : forall k, drop (length ws + length s + 1 + k) (ws ++ s ++ x :: t) = drop k t).
    { intros k. rewrite app_assoc, drop_app_ge by (rewrite length_app; lia). rewrite length_app.
      replace (length ws + length s + 1 + k - (length ws + length s))%nat with (S k) by lia. done. }
    pose proof (Ed 0%nat) as E0. rewrite Nat.add_0_r, drop_0 in E0. by rewrite E0, Ed.
Qed.

(** White space and free text. *)
Lemma dsn_split_text def_dsn ws t : forallb ISSPACE ws = true -> no_leading_space t -> dsn_valid t = O ->
  dsn_split def_dsn (ws ++ t) =
    if (0 <? dsn_valid def_dsn)%nat then Ret (take (dsn_valid def_dsn) def_dsn, t) else Panic.
Proof.
  intros Hw Ht Hv. unfold dsn_split. rewrite skip_space_ok by lia. cbn [mbind outcome_bind]. rewrite drop_0.
  assert (Esp : strspn ISSPACE (ws ++ t) = length ws) by (apply strspn_app_stop; done).
  rewrite Esp. cbn [Nat.add]. rewrite drop_app_length, Hv. cbn [Nat.ltb Nat.leb]. case_match; [|done].
  cbn [mbind outcome_bind]. rewrite skip_space_ok by (rewrite length_app; lia). rewrite drop_app_length, strspn_zero by done.
  cbn [mbind outcome_bind]. by rewrite Nat.add_0_r, drop_app_length.
Qed.

Lemma spaces_split text : exists ws t, text = ws ++ t /\ forallb ISSPACE ws = true /\ no_leading_space t.
Proof.
  exists (take (strspn ISSPACE text) text), (drop (strspn ISSPACE text) text). rewrite take_drop. split; [done|].
  split; [apply strspn_take|]. destruct (drop _ text) as [|c r] eqn:E; [done|]. by apply (strspn_drop ISSPACE text c r).
Qed.

(** Only text that is a status code and nothing else is read past its end. *)
Definition bare_code (text : bytes) : Prop := exists ws s, text = ws ++ s /\ forallb ISSPACE ws = true /\ status_code s.

(** C40: [dsn_split] with a valid default stays inside its input and does not panic, unless the
    text is a status code that nothing follows: then the white space after the code is looked
    for beyond the terminator of the string. *)
Theorem dsn_split_safe def_dsn text : Forall is_cchar text -> Forall is_cchar def_dsn -> dsn_valid def_dsn <> O ->
  (dsn_split def_dsn text = Undef <-> bare_code text) /\
  (~ bare_code text -> exists status t, dsn_split def_dsn text = Ret (status, t) /\ status_code status /\ no_leading_space t).
Proof.
  intros Hch Hdch Hd. destruct (spaces_split text) as (ws & t & -> & Hw & Ht).
  assert (Hcht : Forall is_cchar t) by (by apply Forall_app in Hch as [_ ?]).
  destruct (dsn_valid t) as [|n] eqn:Ev.
  - rewrite (dsn_split_text _ _ _ Hw Ht Ev). rewrite (proj2 (Nat.ltb_lt 0 (dsn_valid def_dsn))) by lia.
    assert (Hnb : ~ bare_code (ws ++ t)).
    { intros (ws' & s & E & Hw' & Hs). destruct (code_head s Hs) as (c & s' & Es & Hc).
      assert (E1 : length ws' = length ws).
      { rewrite <- (strspn_app_stop ISSPACE ws' s), <- (strspn_app_stop ISSPACE ws t); [by rewrite E|done|done|done|by rewrite Es]. }
      apply app_inj_1 in E as [_ E]; [|done]. subst t. pose proof (dsn_valid_code s [] Hs I) as Ev'. rewrite app_nil_r, Ev in Ev'.
      pose proof (status_code_length s Hs). lia. }
    split; [split; [done|intros; by destruct Hnb]|]. intros _. eexists _, _. split; [done|]. split; [|done].
    destruct (dsn_valid_inv def_dsn (dsn_valid def_dsn)) as (s & r & E & Hs & _ & En); [done|done|lia|].
    rewrite En, E, take_app_length. done.
  - destruct (dsn_valid_inv t (S n)) as (s & r & -> & Hs & Hr & En); [done|done|lia|].
    rewrite dsn_split_code by done. destruct r as [|x r].
    + rewrite app_nil_r. split; [split; [|done]|]; [intros _; by exists ws, s|]. intros Hnb. destruct Hnb. by exists ws, s.
    + assert (Hnb : ~ bare_code (ws ++ s ++ x :: r)).
      { intros (ws' & s' & E & Hw' & Hs'). pose proof (dsn_split_code def_dsn ws' s' [] Hw' Hs' I) as E'. rewrite app_nil_r, <- E in E'.
        by rewrite dsn_split_code in E'. }
      split; [split; [done|intros; by destruct Hnb]|]. intros _. eexists _, _. split; [done|]. split; [done|].
      destruct (drop (strspn ISSPACE r) r) as [|y q] eqn:Eq; [done|]. by apply (strspn_drop ISSPACE r y q).
Qed.

Lemma dsn_split_safe_witness : dsn_split (str "4.7.1") (str " 5.7.1") = Undef /\
  dsn_split (str "4.7.1") (str "go away") = Ret (str "4.7.1", str "go away").
Proof.
  split; [|reflexivity].
  apply (dsn_split_safe (str "4.7.1") (str " 5.7.1")); [repeat constructor|repeat constructor|done|].
  exists [32], (str "5.7.1"). split; [done|]. split; [done|]. exists "5"%ch, [55], [49]. split; [done|].
  split; [by right; right|]. by vm_compute.
Defined.

(** What [dsn_prepend] makes splits into the same status code and text, whatever the
    default; in particular when the text is empty. *)
Theorem dsn_split_prepend def_dsn text r other : Forall is_cchar text -> Forall is_cchar def_dsn ->
  dsn_prepend def_dsn text = Ret r -> exists status t, dsn_split def_dsn text = Ret (status, t) /\
    r = status ++ [" "%ch] ++ t /\ dsn_split other r = Ret (status, t).
Proof.
  intros Hch Hdch Hp. unfold dsn_prepend in Hp. destruct (dsn_split def_dsn text) as [[status t]| |] eqn:E; [|done..].
  cbn [mbind outcome_bind] in Hp. injection Hp as <-. exists status, t. split; [done|]. split; [done|].
  assert (Hg : status_code status /\ no_leading_space t).
  { destruct (spaces_split text) as (ws & t0 & -> & Hw & Ht). assert (Hcht : Forall is_cchar t0) by (by apply Forall_app in Hch as [_ ?]).
    destruct (dsn_valid t0) as [|n] eqn:Ev.
    - rewrite (dsn_split_text _ _ _ Hw Ht Ev) in E. destruct (0 <? dsn_valid def_dsn)%nat eqn:El; [|done]. apply Nat.ltb_lt in El. injection E as <- <-.
      split; [|done]. destruct (dsn_valid_inv def_dsn (dsn_valid def_dsn)) as (s & q & E & Hs & _ & En); [done|done|lia|].
      rewrite En, E, take_app_length. done.
    - destruct (dsn_valid_inv t0 (S n)) as (s & q & -> & Hs & Hr & En); [done|done|lia|]. rewrite dsn_split_code in E by done.
      destruct q as [|x q]; [done|]. injection E as <- <-. split; [done|].
      destruct (drop (strspn ISSPACE q) q) as [|y z] eqn:Eq; [done|]. by apply (strspn_drop ISSPACE q y z). }
  destruct Hg as [Hs Ht]. pose proof (dsn_split_code other [] status (" "%ch :: t) eq_refl Hs eq_refl) as E2. cbn [app] in E2 |- *.
  rewrite E2. by rewrite strspn_zero.
Qed.

Lemma dsn_split_prepend_witness : exists status t, dsn_split (str "4.7.1") (str "5.1.1 x") = Ret (status, t) /\
  str "5.1.1 x" = status ++ [" "%ch] ++ t /\ dsn_split [] (str "5.1.1 x") = Ret (status, t).
Proof. apply (dsn_split_prepend (str "4.7.1") (str "5.1.1 x")); [repeat constructor|repeat constructor|reflexivity]. Defined.
