(* ===== verification/Table.v ===== *)
(** The interface of a table with string keys, between the hash table (Htable.v) and
    its clients. *)

From S2P Require Export Prelude.

(** A table is created with a size hint.  Finding a key gives its value, if any; a key
    is entered once, and deleting an unknown key is an error of the client. *)
Class TableOps (T V : Type) := {
  table_create : Z -> T;
  table_find : T -> bytes -> outcome (option V);
  table_enter : T -> bytes -> V -> outcome T;
  table_delete : T -> bytes -> outcome T;
  table_used : T -> Z;                   (* the number of keys *)
  table_free : T -> outcome (list V)     (* the values that are passed to the destructor *)
}.

(** What a table promises: it behaves like a finite map. *)
Class TableLaws (T V : Type) `{TableOps T V} := {
  table_rep : T -> gmap bytes V -> Prop;
  create_rep n : table_rep (table_create n) ∅;
  find_rep t m k : table_rep t m -> table_find t k = Ret (m !! k);
  enter_rep t m k v : table_rep t m -> m !! k = None ->
    exists t', table_enter t k v = Ret t' /\ table_rep t' (<[k := v]> m);
  delete_rep t m k v : table_rep t m -> m !! k = Some v ->
    exists t', table_delete t k = Ret t' /\ table_rep t' (delete k m);
  delete_unknown t m k : table_rep t m -> m !! k = None -> table_delete t k = Panic;
  used_rep t m : table_rep t m -> table_used t = Z.of_nat (size m);
  free_rep t m : table_rep t m -> exists l, table_free t = Ret l /\ l ≡ₚ (map_to_list m).*2
}.
