(* ===== verification/Htable.v ===== *)
(** Hash tables with chaining: htable.c (src/src/util).

    The elements of a table are objects with the links of their chain.  A table
    implements a finite map from strings (Table.v). *)

From S2P Require Export Table.

Section htable.
Context {V : Type}.

(** ** State *)

Record HTABLE_INFO := mk_info {
  ht_key : bytes;
  ht_value : option V;          (* null: None *)
  ht_next : option nat;
  ht_prev : option nat
}.

(** A table with its elements by address, the next address to allocate, and the state of
    htable_sequence(): the elements that it has still to give, if a sequence was
    started; [Some None] is a pointer past the end of the array. *)
Record HTABLE := mk_htable {
  ht_size : Z;
  ht_used : Z;
  ht_data : list (option nat);
  ht_infos : gmap nat HTABLE_INFO;
  ht_fresh : nat;
  ht_seq : option (option (list nat))
}.

Definition with_infos (m : gmap nat HTABLE_INFO) (t : HTABLE) : HTABLE :=
  mk_htable (ht_size t) (ht_used t) (ht_data t) m (ht_fresh t) (ht_seq t).
Definition with_data (d : list (option nat)) (used : Z) (t : HTABLE) : HTABLE :=
  mk_htable (ht_size t) used d (ht_infos t) (ht_fresh t) (ht_seq t).
Definition with_seq (s : option (option (list nat))) (t : HTABLE) : HTABLE :=
  mk_htable (ht_size t) (ht_used t) (ht_data t) (ht_infos t) (ht_fresh t) s.

Definition info_at (x : nat) (t : HTABLE) : outcome HTABLE_INFO :=
  match ht_infos t !! x with Some i => Ret i | None => Undef end.
Definition set_next (x : nat) (v : option nat) (t : HTABLE) : outcome HTABLE :=
  i ← info_at x t;
  Ret (with_infos (<[x := mk_info (ht_key i) (ht_value i) v (ht_prev i)]> (ht_infos t)) t).
Definition set_prev (x : nat) (v : option nat) (t : HTABLE) : outcome HTABLE :=
  i ← info_at x t;
  Ret (with_infos (<[x := mk_info (ht_key i) (ht_value i) (ht_next i) v]> (ht_infos t)) t).

(** ** Operations *)

(** [size_t] has 64 bits. *)
Fixpoint hash_loop (h : Z) (s : bytes) : Z :=
  match s with
  | [] => h
  | c :: s =>
      let h := ((Z.shiftl h 4) mod 2 ^ 64 + c) mod 2 ^ 64 in
      let g := Z.land h (Z.shiftl 15 28) in
      hash_loop (if negb (g =? 0) then Z.lxor (Z.lxor h (Z.shiftr g 24)) g else h) s
  end.
Definition htable_hash (s : bytes) (size : Z) : Z := hash_loop 0 s mod size.

Definition bucket (i : Z) (t : HTABLE) : outcome (option nat) :=
  match ht_data t !! Z.to_nat i with Some p => Ret p | None => Undef end.

Definition htable_link (x : nat) (t : HTABLE) : outcome HTABLE :=
  element ← info_at x t;
  let h := htable_hash (ht_key element) (ht_size t) in
  t ← set_prev x None t;
  p ← bucket h t;
  t ← set_next x p t;
  t ← match p with Some y => set_prev y (Some x) t | None => Ret t end;
  Ret (with_data (<[Z.to_nat h := Some x]> (ht_data t)) (ht_used t + 1) t).

Definition htable_size (size : Z) (t : HTABLE) : HTABLE :=
  let size := Z.lor size 1 in
  mk_htable size 0 (replicate (Z.to_nat size) None) (ht_infos t) (ht_fresh t) (ht_seq t).

Definition htable_create (size : Z) : HTABLE :=
  htable_size (if size <? 13 then 13 else size) (mk_htable 0 0 [] ∅ 0 None).

(** A chain has no more elements than there are; [S] of that is enough fuel. *)
Definition chain_fuel (t : HTABLE) : nat := S (size (ht_infos t)).

Fixpoint grow_chain (fuel : nat) (ht : option nat) (t : HTABLE) : outcome HTABLE :=
  match ht, fuel with
  | None, _ => Ret t
  | Some _, O => Undef
  | Some x, S fuel =>
      info ← info_at x t;
      let next := ht_next info in
      t ← htable_link x t;
      grow_chain fuel next t
  end.
Fixpoint grow_loop (old_entries : list (option nat)) (t : HTABLE) : outcome HTABLE :=
  match old_entries with
  | [] => Ret t
  | ht :: old_entries => t ← grow_chain (chain_fuel t) ht t; grow_loop old_entries t
  end.
Definition htable_grow (t : HTABLE) : outcome HTABLE :=
  grow_loop (ht_data t) (htable_size (2 * ht_size t) t).

(** The address of the new element, and the table. *)
Definition htable_enter (t : HTABLE) (key : bytes) (value : option V) : outcome (nat * HTABLE) :=
  t ← (if ht_used t >=? ht_size t then htable_grow t else Ret t);
  let x := ht_fresh t in
  let t := mk_htable (ht_size t) (ht_used t) (ht_data t)
             (<[x := mk_info key value None None]> (ht_infos t)) (S x) (ht_seq t) in
  t ← htable_link x t;
  Ret (x, t).

Fixpoint locate_chain (fuel : nat) (key : bytes) (ht : option nat) (t : HTABLE) : outcome (option nat) :=
  match ht, fuel with
  | None, _ => Ret None
  | Some _, O => Undef
  | Some x, S fuel =>
      info ← info_at x t;
      if decide (key = ht_key info) then Ret (Some x) else locate_chain fuel key (ht_next info) t
  end.

Definition htable_locate (t : HTABLE) (key : bytes) : outcome (option nat) :=
  p ← bucket (htable_hash key (ht_size t)) t;
  locate_chain (chain_fuel t) key p t.

Definition htable_find (t : HTABLE) (key : bytes) : outcome (option V) :=
  p ← htable_locate t key;
  match p with
  | Some x => info ← info_at x t; Ret (ht_value info)
  | None => Ret None
  end.

(** The value that is passed to the destructor, if any, and the table. *)
Definition htable_delete (t : HTABLE) (key : bytes) : outcome (option V * HTABLE) :=
  let h := htable_hash key (ht_size t) in
  p ← bucket h t;
  ht ← locate_chain (chain_fuel t) key p t;
  match ht with
  | None => Panic
  | Some x =>
      info ← info_at x t;
      t ← match ht_next info with Some y => set_prev y (ht_prev info) t | None => Ret t end;
      t ← match ht_prev info with
          | Some y => set_next y (ht_next info) t
          | None => Ret (with_data (<[Z.to_nat h := ht_next info]> (ht_data t)) (ht_used t) t)
          end;
      let t := with_data (ht_data t) (ht_used t - 1) t in
      Ret (ht_value info, with_infos (delete x (ht_infos t)) t)
  end.

(** htable_list(): the elements of all chains, in the order of the buckets. *)
Fixpoint list_chain (fuel : nat) (ht : option nat) (t : HTABLE) : outcome (list nat) :=
  match ht, fuel with
  | None, _ => Ret []
  | Some _, O => Undef
  | Some x, S fuel =>
      info ← info_at x t;
      l ← list_chain fuel (ht_next info) t;
      Ret (x :: l)
  end.
Fixpoint list_buckets (data : list (option nat)) (t : HTABLE) : outcome (list nat) :=
  match data with
  | [] => Ret []
  | p :: data => l1 ← list_chain (chain_fuel t) p t; l2 ← list_buckets data t; Ret (l1 ++ l2)
  end.
Definition htable_list (t : HTABLE) : outcome (list nat) := list_buckets (ht_data t) t.

(** htable_free() visits the elements as htable_list() does; the values that it passes to
    the destructor. *)
Fixpoint free_values (l : list nat) (t : HTABLE) : outcome (list V) :=
  match l with
  | [] => Ret []
  | x :: l =>
      info ← info_at x t;
      vs ← free_values l t;
      Ret (match ht_value info with Some v => v :: vs | None => vs end)
  end.
Definition htable_free (t : HTABLE) : outcome (list V) :=
  l ← htable_list t;
  free_values l t.

Inductive seq_how := HTABLE_SEQ_FIRST | HTABLE_SEQ_NEXT | HTABLE_SEQ_STOP.

Definition htable_sequence (how : seq_how) (t : HTABLE) : outcome (option nat * HTABLE) :=
  let stop := Ret (None, with_seq None t) in
  match how with
  | HTABLE_SEQ_FIRST =>
      l ← htable_list t;
      Ret (head l, with_seq (Some (match l with _ :: l => Some l | [] => None end)) t)
  | HTABLE_SEQ_NEXT =>
      match ht_seq t with
      | Some (Some (x :: l)) => Ret (Some x, with_seq (Some (Some l)) t)
      | Some None => Undef
      | _ => stop
      end
  | HTABLE_SEQ_STOP => stop
  end.

(** ** Chains *)

Definition next_of (m : gmap nat HTABLE_INFO) (x : nat) : option (option nat) := ht_next <$> m !! x.
Definition prev_of (m : gmap nat HTABLE_INFO) (x : nat) : option (option nat) := ht_prev <$> m !! x.
(** The contents of an element: its key and value. *)
Definition item_of (m : gmap nat HTABLE_INFO) (x : nat) : option (bytes * option V) := (fun i => (ht_key i, ht_value i)) <$> m !! x.

(** [l] is the chain from [p] on; [prev] is the element in front of it. *)
Fixpoint chain (m : gmap nat HTABLE_INFO) (prev p : option nat) (l : list nat) : Prop :=
  match l with
  | [] => p = None
  | x :: l => p = Some x /\ prev_of m x = Some prev /\ exists next, next_of m x = Some next /\ chain m (Some x) next l
  end.

Lemma chain_frame m m' l : (forall x, x ∈ l -> next_of m' x = next_of m x /\ prev_of m' x = prev_of m x) ->
  forall prev p, chain m prev p l -> chain m' prev p l.
Proof.
  induction l as [|x l IH]; intros H prev p; [done|]. cbn. intros (-> & Hp & next & Hn & Hc).
  destruct (H x) as [E1 E2]; [by left|]. rewrite E1, E2. split_and!; [done..|]. exists next. split; [done|].
  apply IH; [|done]. intros y Hy. apply H. by right.
Qed.

Lemma chain_in m l : forall prev p x, chain m prev p l -> x ∈ l -> is_Some (m !! x).
Proof.
  induction l as [|y l IH]; intros prev p x Hc Hx; [by apply not_elem_of_nil in Hx|].
  destruct Hc as (_ & Hp & next & _ & Hc). apply elem_of_cons in Hx as [->|Hx]; [|by eapply IH].
  unfold prev_of in Hp. by destruct (m !! y).
Qed.

(** Only the first element knows what is in front of the chain. *)
Lemma chain_prev m m' l prev prev' p : NoDup l ->
  (forall x, x ∈ l -> next_of m' x = next_of m x) ->
  (forall x, x ∈ l -> prev_of m' x = if decide (p = Some x) then Some prev' else prev_of m x) ->
  chain m prev p l -> chain m' prev' p l.
Proof.
  intros Hnd Hn Hp Hc. destruct l as [|x l]; [done|]. cbn in *. destruct Hc as (-> & Hpx & next & Hnx & Hc).
  rewrite (Hp x), (Hn x) by (by left). rewrite decide_True by done. split_and!; [done..|]. exists next. split; [done|].
  eapply chain_frame; [|exact Hc]. intros y Hy. apply NoDup_cons in Hnd as [Hx _].
  rewrite (Hn y), (Hp y) by (by right). rewrite decide_False; [done|]. intros [= ->]. done.
Qed.

(** Unlinking an element from its chain. *)
Lemma chain_delete m m' x next prevx l1 l2 : NoDup (l1 ++ x :: l2) -> next_of m x = Some next -> prev_of m x = Some prevx ->
  (forall y, next_of m' y = if decide (y <> x /\ prevx = Some y) then Some next else next_of m y) ->
  (forall y, prev_of m' y = if decide (y <> x /\ next = Some y) then Some prevx else prev_of m y) ->
  forall prev p, (forall y, prev = Some y -> y ∉ l1 ++ x :: l2) -> chain m prev p (l1 ++ x :: l2) ->
  chain m' prev (if decide (l1 = []) then next else p) (l1 ++ l2).
Proof.
  intros Hnd Hn Hp Hn' Hp'. induction l1 as [|y l1 IH]; intros prev p Hprev Hc.
  - rewrite decide_True by done. cbn in *. destruct Hc as (-> & Hpx & next' & Hnx & Hc).
    rewrite Hn in Hnx. injection Hnx as <-. rewrite Hp in Hpx. injection Hpx as ->.
    apply NoDup_cons in Hnd as [Hx Hnd].
    apply (chain_prev m _ l2 (Some x)); [done| | |exact Hc]; intros y Hy.
    + rewrite Hn', decide_False; [done|]. intros [_ E]. apply (Hprev y E). by right.
    + rewrite Hp'. destruct (decide (next = Some y)) as [E|E].
      * rewrite decide_True by (split; [by intros ->|done]). done.
      * rewrite decide_False by tauto. done.
  - rewrite decide_False by done. cbn [app] in *. destruct Hc as (-> & Hpy & nexty & Hny & Hc).
    apply NoDup_cons in Hnd as [Hy Hnd]. assert (Hyx : y <> x) by (intros ->; apply Hy; set_solver).
    cbn. split; [done|]. split.
    { rewrite Hp', decide_False; [done|]. intros [_ E]. apply Hy.
      assert (Hx : exists next', next_of m x = Some next' /\ chain m (Some x) next' l2).
      { clear -Hc. revert Hc. generalize (Some y) as pr. revert nexty. induction l1 as [|z l1 IH]; intros nexty pr; cbn.
        - intros (_ & _ & n & H1 & H2). by exists n.
        - intros (_ & _ & n & _ & H). by apply (IH n _ H). }
      destruct Hx as (n2 & Hn2 & Hc2). rewrite Hn in Hn2. injection Hn2 as <-. rewrite E in Hc2.
      destruct l2 as [|z l2]; [done|]. destruct Hc2 as ([= ->] & _). set_solver. }
    specialize (IH Hnd (Some y) nexty ltac:(by intros ? [= <-]) Hc).
    destruct (decide (l1 = [])) as [->|Hne].
    + exists next. split; [|done]. rewrite Hn', decide_True; [done|]. split; [done|].
      cbn in Hc. destruct Hc as (_ & Hpx & _). congruence.
    + exists nexty. split; [|done]. rewrite Hn', decide_False; [done|]. intros [_ E].
      destruct l1 as [|z l1]; [done|].
      assert (Hx : exists w, w ∈ z :: l1 /\ prev_of m x = Some (Some w)).
      { clear -Hc. revert Hc. generalize (Some y) as pr. revert z nexty. induction l1 as [|w l1 IH]; intros z nexty pr; cbn.
        - intros (_ & _ & n & _ & _ & Hx & _). exists z. split; [by left|done].
        - intros (_ & _ & n & _ & H). destruct (IH w n _ H) as (u & Hu & E). exists u. split; [by right|done]. }
      destruct Hx as (w & Hw & Ew). rewrite Hp in Ew. injection Ew as ->. injection E as ->. apply Hy, elem_of_app. by left.
Qed.
(** ** The chains of a table *)

Record linked (t : HTABLE) (cs : list (list nat)) : Prop := mk_linked {
  li_size : Z.of_nat (length (ht_data t)) = ht_size t /\ 0 < ht_size t;
  li_chains : Forall2 (chain (ht_infos t) None) (ht_data t) cs;
  li_nodup : NoDup (concat cs);
  li_hash : forall i l x item, cs !! i = Some l -> x ∈ l -> item_of (ht_infos t) x = Some item ->
              htable_hash item.1 (ht_size t) = Z.of_nat i;
  li_used : ht_used t = Z.of_nat (length (concat cs))
}.

(** The elements, apart from their links. *)
Definition same_items (m m' : gmap nat HTABLE_INFO) : Prop := forall x, item_of m' x = item_of m x.

Lemma same_items_dom m m' x : same_items m m' -> is_Some (m' !! x) <-> is_Some (m !! x).
Proof. intros H. specialize (H x). unfold item_of in H. by destruct (m !! x), (m' !! x). Qed.

Lemma item_in m x : is_Some (m !! x) <-> is_Some (item_of m x).
Proof. unfold item_of. by rewrite fmap_is_Some. Qed.

Lemma hash_range s size : 0 < size -> 0 <= htable_hash s size < size.
Proof. intros H. unfold htable_hash. by apply Z.mod_pos_bound. Qed.

(** Assignments to the links. *)
Lemma set_ht_next_ok x v t : is_Some (ht_infos t !! x) -> exists m', set_next x v t = Ret (with_infos m' t)
  /\ same_items (ht_infos t) m' /\ (forall y, next_of m' y = if decide (y = x) then Some v else next_of (ht_infos t) y)
  /\ (forall y, prev_of m' y = prev_of (ht_infos t) y).
Proof.
  intros [i Hi]. unfold set_next, info_at. rewrite Hi. cbn. eexists. split; [done|].
  unfold same_items, item_of, next_of, prev_of. split_and!; intros y; (destruct (decide (y = x)) as [->|Hn];
    [rewrite lookup_insert_eq, ?Hi, ?decide_True by done|rewrite lookup_insert_ne, ?decide_False by done]; done).
Qed.
Lemma set_ht_prev_ok x v t : is_Some (ht_infos t !! x) -> exists m', set_prev x v t = Ret (with_infos m' t)
  /\ same_items (ht_infos t) m' /\ (forall y, prev_of m' y = if decide (y = x) then Some v else prev_of (ht_infos t) y)
  /\ (forall y, next_of m' y = next_of (ht_infos t) y).
Proof.
  intros [i Hi]. unfold set_prev, info_at. rewrite Hi. cbn. eexists. split; [done|].
  unfold same_items, item_of, next_of, prev_of. split_and!; intros y; (destruct (decide (y = x)) as [->|Hn];
    [rewrite lookup_insert_eq, ?Hi, ?decide_True by done|rewrite lookup_insert_ne, ?decide_False by done]; done).
Qed.

(** Setting the link of a neighbour, if there is one. *)
Lemma set_prev_opt o v t : (forall y, o = Some y -> is_Some (ht_infos t !! y)) ->
  exists m', match o with Some y => set_prev y v t | None => Ret t end = Ret (with_infos m' t)
  /\ same_items (ht_infos t) m' /\ (forall y, prev_of m' y = if decide (o = Some y) then Some v else prev_of (ht_infos t) y)
  /\ (forall y, next_of m' y = next_of (ht_infos t) y).
Proof.
  intros Ho. destruct o as [y|]; [|exists (ht_infos t); split_and!; [by destruct t|done..]].
  destruct (set_ht_prev_ok y v t (Ho y eq_refl)) as (m' & E & I & P & N). exists m'. split_and!; [done|done| |done].
  intros z. rewrite P. repeat case_decide; naive_solver.
Qed.

Lemma linked_bucket t cs i : linked t cs -> 0 <= i < ht_size t ->
  exists p l, ht_data t !! Z.to_nat i = Some p /\ bucket i t = Ret p /\ cs !! Z.to_nat i = Some l /\ chain (ht_infos t) None p l.
Proof.
  intros H Hi. destruct (li_size _ _ H) as [Hs _].
  destruct (lookup_lt_is_Some_2 (ht_data t) (Z.to_nat i)) as [p Hp]; [lia|].
  destruct (Forall2_lookup_l _ _ _ _ _ (li_chains _ _ H) Hp) as (l & Hl & Hc).
  exists p, l. unfold bucket. by rewrite Hp.
Qed.

Lemma in_concat (cs : list (list nat)) i l x : cs !! i = Some l -> x ∈ l -> x ∈ concat cs.
Proof.
  intros Hl Hx. revert i Hl. induction cs as [|c cs IH]; intros [|i] Hl; cbn in *; [done..| |]; apply elem_of_app.
  - injection Hl as ->. by left.
  - right. by eapply IH.
Qed.

Lemma in_concat_inv (cs : list (list nat)) x : x ∈ concat cs -> exists i l, cs !! i = Some l /\ x ∈ l.
Proof.
  induction cs as [|c cs IH]; cbn; [by intros ?%not_elem_of_nil|]. intros [H|H]%elem_of_app; [by exists O, c|].
  destruct (IH H) as (i & l & Hl & Hx). by exists (S i), l.
Qed.

Lemma linked_in_concat t cs x : linked t cs -> x ∈ concat cs -> is_Some (ht_infos t !! x).
Proof.
  intros H (i & l & Hl & Hx)%in_concat_inv.
  destruct (Forall2_lookup_r _ _ _ _ _ (li_chains _ _ H) Hl) as (p & _ & Hc). by eapply chain_in.
Qed.

(** Replacing one chain. *)
Lemma concat_insert (cs : list (list nat)) i l l' : cs !! i = Some l ->
  concat (<[i := l']> cs) ≡ₚ l' ++ concat (take i cs ++ drop (S i) cs) /\ concat cs ≡ₚ l ++ concat (take i cs ++ drop (S i) cs).
Proof.
  intros Hl. assert (Hi : (i < length cs)%nat) by by apply lookup_lt_Some in Hl.
  assert (E : cs = take i cs ++ l :: drop (S i) cs) by (symmetry; by apply take_drop_middle).
  split.
  - rewrite insert_take_drop by done. rewrite !concat_app. cbn. rewrite Permutation_app_swap_app. done.
  - rewrite E at 1. rewrite !concat_app. cbn. rewrite Permutation_app_swap_app. done.
Qed.

Lemma concat_nodup_other (cs : list (list nat)) i j l l' x : NoDup (concat cs) -> cs !! i = Some l -> cs !! j = Some l' ->
  i <> j -> x ∈ l -> x ∉ l'.
Proof.
  intros Hnd Hl Hl' Hij Hx Hx'. destruct (concat_insert cs i l [] Hl) as [_ E]. rewrite E in Hnd.
  apply NoDup_app in Hnd as (_ & Hd & _). apply (Hd x Hx). apply in_concat with (l := l') (i := if decide (j < i)%nat then j else pred j); [|done].
  destruct (decide (j < i)%nat) as [Hlt|Hge].
  - rewrite lookup_app_l by (rewrite length_take; apply lookup_lt_Some in Hl; lia). by rewrite lookup_take_lt.
  - rewrite lookup_app_r by (rewrite length_take; lia). apply lookup_lt_Some in Hl. rewrite length_take_le by lia.
    rewrite lookup_drop. replace (S i + (pred j - i))%nat with j by lia. done.
Qed.

(** A chain is replaced by another, and the other chains keep their links. *)
Lemma linked_replace t t' cs h l l' p : linked t cs -> cs !! h = Some l ->
  ht_size t' = ht_size t -> ht_data t' = <[h := p]> (ht_data t) -> chain (ht_infos t') None p l' ->
  NoDup (concat (<[h := l']> cs)) -> ht_used t' = Z.of_nat (length (concat (<[h := l']> cs))) ->
  (forall y, y ∈ concat cs -> y ∉ l -> (next_of (ht_infos t') y = next_of (ht_infos t) y /\ prev_of (ht_infos t') y = prev_of (ht_infos t) y)
    /\ item_of (ht_infos t') y = item_of (ht_infos t) y) ->
  (forall x item, x ∈ l' -> item_of (ht_infos t') x = Some item -> htable_hash item.1 (ht_size t) = Z.of_nat h) ->
  linked t' (<[h := l']> cs).
Proof.
  intros H Hl Es Ed Hc Hnd Hu Hother Hhash. pose proof (li_chains _ _ H) as Hch.
  assert (Hh : (h < length cs)%nat /\ (h < length (ht_data t))%nat) by (rewrite (Forall2_length _ _ _ Hch); by apply lookup_lt_Some in Hl).
  assert (Hj : forall j lj y, j <> h -> cs !! j = Some lj -> y ∈ lj -> y ∈ concat cs /\ y ∉ l).
  { intros j lj y Hne Hlj Hy. split; [by eapply in_concat|]. by eapply (concat_nodup_other cs j h lj); [apply H|..]. }
  split; [|rewrite Ed|done| |done].
  - rewrite Es, Ed, length_insert. apply H.
  - apply Forall2_same_length_lookup. split; [rewrite !length_insert; by eapply Forall2_length|]. intros j q lj Hq Hlj.
    destruct (decide (j = h)) as [->|Hne].
    + rewrite list_lookup_insert_eq in Hq by tauto. rewrite list_lookup_insert_eq in Hlj by tauto. by injection Hq as <-; injection Hlj as <-.
    + rewrite list_lookup_insert_ne in Hq by done. rewrite list_lookup_insert_ne in Hlj by done. apply (chain_frame (ht_infos t)); [|by eapply Forall2_lookup_lr].
      intros y Hy. by apply Hother; eapply Hj.
  - intros j lj y item Hlj Hy. rewrite Es. destruct (decide (j = h)) as [->|Hne].
    + rewrite list_lookup_insert_eq in Hlj by tauto. injection Hlj as <-. by apply Hhash.
    + rewrite list_lookup_insert_ne in Hlj by done. destruct (Hj j lj y Hne Hlj Hy) as [H1 H2].
      rewrite (proj2 (Hother y H1 H2)). by eapply (li_hash _ _ H).
Qed.

Lemma htable_link_ok t cs x key v : linked t cs -> item_of (ht_infos t) x = Some (key, v) -> x ∉ concat cs ->
  exists t' l i, htable_link x t = Ret t' /\ cs !! i = Some l /\ linked t' (<[i := x :: l]> cs)
    /\ same_items (ht_infos t) (ht_infos t') /\ ht_size t' = ht_size t /\ ht_fresh t' = ht_fresh t /\ ht_seq t' = ht_seq t
    /\ (forall y, y ∉ x :: concat cs -> next_of (ht_infos t') y = next_of (ht_infos t) y /\ prev_of (ht_infos t') y = prev_of (ht_infos t) y).
Proof.
  intros H Hx Hnx. pose proof (li_size _ _ H) as [Hs Hs0]. pose proof (hash_range key (ht_size t) Hs0) as Hr.
  assert (Hxin : is_Some (ht_infos t !! x)) by (apply item_in; by eexists).
  unfold htable_link, info_at. destruct (ht_infos t !! x) as [info|] eqn:Ei; [|by destruct Hxin].
  cbn [mbind outcome_bind]. assert (Ek : ht_key info = key) by (unfold item_of in Hx; rewrite Ei in Hx; by injection Hx).
  rewrite Ek. set (h := htable_hash key (ht_size t)) in *.
  destruct (set_ht_prev_ok x None t) as (m1 & E1 & I1 & P1 & N1); [by eexists|]. rewrite E1. cbn [mbind outcome_bind].
  destruct (linked_bucket t cs h H Hr) as (p & l & Hp & Hb & Hl & Hc).
  change (bucket h (with_infos m1 t)) with (bucket h t). rewrite Hb. cbn [mbind outcome_bind].
  destruct (set_ht_next_ok x p (with_infos m1 t)) as (m2 & E2 & I2 & N2 & P2); [by apply (same_items_dom _ _ _ I1); eexists|].
  rewrite E2. cbn [mbind outcome_bind with_infos ht_infos] in *.
  assert (I12 : same_items (ht_infos t) m2) by (intros y; by rewrite I2).
  assert (Hpl : forall y, p = Some y -> y ∈ l) by (intros y ->; destruct l as [|w l]; [done|]; destruct Hc as ([= ->] & _); by left).
  destruct (set_prev_opt p (Some x) (with_infos m2 (with_infos m1 t))) as (m3 & -> & I3 & P3 & N3).
  { intros y Hy%Hpl. apply (same_items_dom _ _ _ I12). eapply linked_in_concat; [exact H|]. by eapply in_concat. }
  cbn [mbind outcome_bind ht_infos with_infos] in *. eexists _, l, (Z.to_nat h). split; [reflexivity|]. split; [done|].
  assert (Hxl : x ∉ l) by (intros Hi; apply Hnx; by eapply in_concat).
  destruct (concat_insert cs (Z.to_nat h) l (x :: l) Hl) as [C1 C2].
  assert (Cx : concat (<[Z.to_nat h := x :: l]> cs) ≡ₚ x :: concat cs) by (rewrite C1, C2; done).
  assert (I123 : same_items (ht_infos t) m3) by (intros y; by rewrite I3).
  assert (Hoth : forall y, y <> x -> y ∉ l -> next_of m3 y = next_of (ht_infos t) y /\ prev_of m3 y = prev_of (ht_infos t) y).
  { intros y Hyx Hyl. rewrite N3, N2, P3, P2, P1, N1. rewrite !decide_False; [done|done|intros Hz; by apply Hyl, Hpl|done]. }
  split_and!; [|exact I123|done|done|done|].
  - apply (linked_replace t _ cs _ l _ (Some x) H Hl); [done|done| | | | |].
    + cbn. split; [done|]. split; [rewrite P3, decide_False; [by rewrite P2, P1, decide_True|by intros ?%Hpl]|].
      exists p. split; [by rewrite N3, N2, decide_True|]. apply (chain_prev (ht_infos t) _ l None); [| | |exact Hc].
      * pose proof (li_nodup _ _ H) as Hnd. rewrite C2 in Hnd. by apply NoDup_app in Hnd as [? _].
      * intros y Hy. rewrite N3, N2, N1, decide_False; [done|]. by intros ->.
      * intros y Hy. rewrite P3, P2, P1. case_decide; [done|]. rewrite decide_False; [done|]. by intros ->.
    + rewrite Cx. constructor; [done|apply H].
    + rewrite Cx. cbn. rewrite (li_used _ _ H). lia.
    + intros y Hy Hyl. split; [apply Hoth; [by intros ->|done]|apply I123].
    + intros y item Hy Hitem. cbn in Hitem. rewrite I123 in Hitem. apply elem_of_cons in Hy as [->|Hy]; [|by eapply (li_hash _ _ H)].
      rewrite Hx in Hitem. injection Hitem as <-. cbn. fold h. lia.
  - intros y [Hyx Hy]%not_elem_of_cons. apply Hoth; [done|]. intros Hyl. apply Hy. by eapply in_concat.
Qed.

(** ** Growing *)

Lemma nodup_size (m : gmap nat HTABLE_INFO) l : NoDup l -> (forall x, x ∈ l -> is_Some (m !! x)) -> (length l <= size m)%nat.
Proof.
  intros Hnd Hl. rewrite <- size_dom. rewrite <- (size_list_to_set (C := gset nat) l Hnd).
  apply subseteq_size. intros x Hx%elem_of_list_to_set. apply elem_of_dom. by apply Hl.
Qed.

(** What linking other elements leaves alone. *)
Record relinked (t t' : HTABLE) (ours : list nat) : Prop := mk_relinked {
  rl_items : same_items (ht_infos t) (ht_infos t');
  rl_size : ht_size t' = ht_size t;
  rl_fresh : ht_fresh t' = ht_fresh t;
  rl_seq : ht_seq t' = ht_seq t;
  rl_links : forall y, y ∉ ours -> next_of (ht_infos t') y = next_of (ht_infos t) y /\ prev_of (ht_infos t') y = prev_of (ht_infos t) y
}.

Lemma relinked_trans t1 t2 t3 l l' : relinked t1 t2 l -> relinked t2 t3 l' -> (forall x, x ∈ l -> x ∈ l') -> relinked t1 t3 l'.
Proof.
  intros [H1 H2 H3 H4 H5] [K1 K2 K3 K4 K5] Hl. split; [intros x; by rewrite K1|congruence..|].
  intros y Hy. destruct (K5 y Hy) as [-> ->]. apply H5. by intros Hi%Hl.
Qed.

Lemma grow_chain_ok l : forall fuel prev p t cs, linked t cs -> chain (ht_infos t) prev p l -> NoDup (l ++ concat cs) ->
  (length l <= fuel)%nat ->
  exists t' cs', grow_chain fuel p t = Ret t' /\ linked t' cs' /\ concat cs' ≡ₚ l ++ concat cs /\ relinked t t' (l ++ concat cs).
Proof.
  induction l as [|x l IH]; intros fuel prev p t cs H Hc Hnd Hf.
  { cbn in Hc. subst p. exists t, cs. split_and!; [by destruct fuel|done|done|done]. }
  destruct Hc as (-> & Hp & next & Hn & Hc). destruct fuel as [|fuel]; [cbn in Hf; lia|]. cbn [app] in Hnd.
  apply NoDup_cons in Hnd as [Hx Hnd]. apply not_elem_of_app in Hx as [Hxl Hxc].
  cbn [grow_chain]. unfold info_at. unfold next_of in Hn. destruct (ht_infos t !! x) as [info|] eqn:Ei; [|done].
  injection Hn as <-. cbn [mbind outcome_bind].
  destruct (htable_link_ok t cs x (ht_key info) (ht_value info) H) as (t1 & lx & i & E1 & Hlx & H1 & R1 & R2 & R3 & R4 & R5);
    [unfold item_of; by rewrite Ei|done|]. rewrite E1. cbn [mbind outcome_bind].
  destruct (concat_insert cs i lx (x :: lx) Hlx) as [C1 C2].
  assert (Cx : concat (<[i := x :: lx]> cs) ≡ₚ x :: concat cs) by (rewrite C1, C2; done).
  destruct (IH fuel (Some x) (ht_next info) t1 _ H1) as (t2 & cs2 & E2 & H2 & C3 & R).
  - eapply chain_frame; [|exact Hc]. intros y Hy. apply R5. intros [->|Hi]%elem_of_cons; [done|].
    apply NoDup_app in Hnd as (_ & Hd & _). by apply (Hd y).
  - rewrite Cx. rewrite <- Permutation_middle. constructor; [by apply not_elem_of_app|done].
  - cbn in Hf. lia.
  - exists t2, cs2. split_and!; [done|done|by rewrite C3, Cx, <- Permutation_middle|].
    eapply relinked_trans; [split; [exact R1|exact R2|exact R3|exact R4|exact R5]| |].
    + destruct R as [Q1 Q2 Q3 Q4 Q5]. split; [done..|]. intros y Hy. apply Q5. rewrite Cx, <- Permutation_middle. exact Hy.
    + intros y. cbn. rewrite !elem_of_cons, elem_of_app. tauto.
Qed.

Lemma grow_loop_ok old ds : forall t cs, linked t cs -> Forall2 (chain (ht_infos t) None) old ds -> NoDup (concat ds ++ concat cs) ->
  exists t' cs', grow_loop old t = Ret t' /\ linked t' cs' /\ concat cs' ≡ₚ concat ds ++ concat cs /\ relinked t t' (concat ds ++ concat cs).
Proof.
  revert ds. induction old as [|p old IH]; intros ds t cs H Hds Hnd; inversion Hds as [|? l ? ds' Hc Hds' E1 E2]; subst.
  { exists t, cs. by split_and!. }
  cbn [concat] in *. rewrite <- app_assoc in Hnd.
  assert (Hnd2 := Hnd). apply NoDup_app in Hnd2 as (Hl & Hd & Hr). apply NoDup_app in Hr as (Hds2 & Hd2 & Hcs).
  cbn [grow_loop]. destruct (grow_chain_ok l (chain_fuel t) None p t cs H Hc) as (t1 & cs1 & E1 & H1 & C1 & R1).
  - apply NoDup_app. split_and!; [done| |done]. intros x Hx Hx'. apply (Hd x Hx), elem_of_app. by right.
  - unfold chain_fuel. enough (length l <= size (ht_infos t))%nat by lia. apply nodup_size; [done|]. intros x Hx. by eapply chain_in.
  - rewrite E1. cbn [mbind outcome_bind].
    destruct (IH ds' t1 cs1 H1) as (t2 & cs2 & E2 & H2 & C2 & R2).
    + eapply Forall2_impl; [|]. 2:{ intros q lq Hq. exact Hq. }
      apply Forall2_same_length_lookup. split; [by eapply Forall2_length|]. intros j q lj Hq Hlj.
      eapply chain_frame; [|by eapply Forall2_lookup_lr; [exact Hds'|..]]. intros y Hy. apply (rl_links _ _ _ R1).
      pose proof (in_concat ds' j lj y Hlj Hy) as Hyc. intros [Hi|Hi]%elem_of_app.
      * apply (Hd y Hi), elem_of_app. by left.
      * by apply (Hd2 y Hyc).
    + rewrite C1. rewrite Permutation_app_swap_app. done.
    + exists t2, cs2. split_and!; [done|done| |].
      * rewrite C2, C1, <- app_assoc. apply Permutation_app_swap_app.
      * eapply relinked_trans; [exact R1| |].
        -- destruct R2 as [Q1 Q2 Q3 Q4 Q5]. split; [done..|]. intros y Hy. apply Q5. rewrite C1, Permutation_app_swap_app, app_assoc. exact Hy.
        -- intros y. rewrite !elem_of_app. tauto.
Qed.

Lemma lor_1_pos z : 0 <= z -> 0 < Z.lor z 1 /\ z <= Z.lor z 1.
Proof.
  intros Hz. pose proof (Z.lor_nonneg z 1) as Hn. pose proof (Z.add_lor_land z 1) as H.
  assert (Hl : 0 <= Z.land z 1 <= 1).
  { change 1 with (Z.ones 1) at 1 2. rewrite Z.land_ones by lia. change (2 ^ 1) with 2. pose proof (Z.mod_pos_bound z 2). lia. }
  destruct (decide (z = 0)) as [->|Hz0]; [done|]. lia.
Qed.

Lemma concat_replicate_nil n : concat (replicate n ([] : list nat)) = [].
Proof. induction n; [done|exact IHn]. Qed.

Lemma size_linked n t : 0 <= n -> linked (htable_size n t) (replicate (Z.to_nat (Z.lor n 1)) []).
Proof.
  intros Hn. destruct (lor_1_pos n Hn) as [Hp _]. split; cbn.
  - rewrite length_replicate. lia.
  - apply Forall2_replicate. done.
  - rewrite concat_replicate_nil. constructor.
  - intros i l x item Hl Hx. apply lookup_replicate in Hl as [-> _]. by apply not_elem_of_nil in Hx.
  - by rewrite concat_replicate_nil.
Qed.

Lemma grow_ok t cs : linked t cs ->
  exists t' cs', htable_grow t = Ret t' /\ linked t' cs' /\ concat cs' ≡ₚ concat cs
    /\ same_items (ht_infos t) (ht_infos t') /\ ht_fresh t' = ht_fresh t /\ ht_seq t' = ht_seq t.
Proof.
  intros H. destruct (li_size _ _ H) as [Hs Hs0]. unfold htable_grow.
  destruct (grow_loop_ok (ht_data t) cs (htable_size (2 * ht_size t) t) _ (size_linked (2 * ht_size t) t ltac:(lia)) (li_chains _ _ H))
    as (t' & cs' & E & H' & C & R).
  - rewrite concat_replicate_nil, app_nil_r. apply H.
  - exists t', cs'. rewrite concat_replicate_nil, app_nil_r in C. split_and!; [done|done|done|apply R|apply (rl_fresh _ _ _ R)|apply (rl_seq _ _ _ R)].
Qed.

(** ** A table as a finite map *)

(** The keys of different elements differ, and the table has all elements. *)
Definition represents (t : HTABLE) (m : gmap bytes (option V)) : Prop :=
  exists cs, linked t cs
    /\ (forall x, is_Some (ht_infos t !! x) <-> x ∈ concat cs)
    /\ (forall x, is_Some (ht_infos t !! x) -> (x < ht_fresh t)%nat)
    /\ (forall x y k v w, item_of (ht_infos t) x = Some (k, v) -> item_of (ht_infos t) y = Some (k, w) -> x = y)
    /\ (forall k v, m !! k = Some v <-> exists x, item_of (ht_infos t) x = Some (k, v)).

Lemma locate_chain_ok t key l : forall fuel prev p, chain (ht_infos t) prev p l -> (length l <= fuel)%nat ->
  exists r, locate_chain fuel key p t = Ret r
    /\ match r with
       | Some x => x ∈ l /\ exists v, item_of (ht_infos t) x = Some (key, v)
       | None => forall x v, x ∈ l -> item_of (ht_infos t) x <> Some (key, v)
       end.
Proof.
  induction l as [|x l IH]; intros fuel prev p Hc Hf.
  { cbn in Hc. subst p. exists None. split; [by destruct fuel|]. by intros x v ?%not_elem_of_nil. }
  destruct Hc as (-> & _ & next & Hn & Hc). destruct fuel as [|fuel]; [cbn in Hf; lia|]. cbn [locate_chain]. unfold info_at.
  unfold next_of in Hn. destruct (ht_infos t !! x) as [info|] eqn:Ei; [|done]. injection Hn as <-. cbn [mbind outcome_bind].
  assert (Eit : item_of (ht_infos t) x = Some (ht_key info, ht_value info)) by (unfold item_of; by rewrite Ei).
  case_decide as Hk.
  - exists (Some x). split; [done|]. split; [by left|]. exists (ht_value info). by rewrite Eit, Hk.
  - cbn in Hf. destruct (IH fuel (Some x) (ht_next info) Hc) as (r & E & Hr); [lia|]. exists r. split; [done|].
    destruct r as [y|]; [destruct Hr as [Hy Hv]; split; [by right|done]|].
    intros y v [->|Hy]%elem_of_cons; [|by apply Hr]. rewrite Eit. congruence.
Qed.

(** Looking up a key in the chain of its bucket is looking it up in the table. *)
Lemma locate_ok t cs key : linked t cs -> (forall x, is_Some (ht_infos t !! x) <-> x ∈ concat cs) ->
  exists p l r, bucket (htable_hash key (ht_size t)) t = Ret p
    /\ cs !! Z.to_nat (htable_hash key (ht_size t)) = Some l /\ chain (ht_infos t) None p l
    /\ locate_chain (chain_fuel t) key p t = Ret r
    /\ match r with
       | Some x => x ∈ l /\ exists v, item_of (ht_infos t) x = Some (key, v)
       | None => forall x v, item_of (ht_infos t) x <> Some (key, v)
       end.
Proof.
  intros H Hdom. pose proof (li_size _ _ H) as [_ Hs0]. pose proof (hash_range key (ht_size t) Hs0) as Hr.
  destruct (linked_bucket t cs _ H Hr) as (p & l & _ & Hb & Hl & Hc). exists p, l.
  destruct (locate_chain_ok t key l (chain_fuel t) None p Hc) as (r & E & Hres).
  { unfold chain_fuel. enough (length l <= size (ht_infos t))%nat by lia. apply nodup_size.
    - destruct (concat_insert cs _ l [] Hl) as [_ C]. pose proof (li_nodup _ _ H) as Hnd. rewrite C in Hnd. by apply NoDup_app in Hnd as [? _].
    - intros x Hx. by eapply chain_in. }
  exists r. split_and!; [done..|]. destruct r as [x|]; [done|]. intros x v Hx.
  assert (Hin : x ∈ concat cs) by (apply Hdom, item_in; by eexists).
  apply in_concat_inv in Hin as (i & l' & Hl' & Hx'). pose proof (li_hash _ _ H i l' x _ Hl' Hx' Hx) as Hh. cbn in Hh.
  rewrite Hh, Nat2Z.id, Hl' in Hl. injection Hl as ->. by apply (Hres x v).
Qed.

Lemma represents_create n : represents (htable_create n) ∅.
Proof.
  unfold htable_create. set (z := if n <? 13 then 13 else n). assert (Hz : 0 <= z) by (unfold z; case_match; zb; lia).
  exists (replicate (Z.to_nat (Z.lor z 1)) []). split_and!.
  - by apply size_linked.
  - intros x. rewrite concat_replicate_nil. cbn. rewrite lookup_empty. split; [by intros []|by intros ?%not_elem_of_nil].
  - intros x. cbn. rewrite lookup_empty. by intros [].
  - intros x y k v w. unfold item_of. cbn. by rewrite lookup_empty.
  - intros k v. rewrite lookup_empty. split; [done|]. intros [x Hx]. unfold item_of in Hx. cbn in Hx. by rewrite lookup_empty in Hx.
Qed.

Lemma represents_find t m key : represents t m -> htable_find t key = Ret (m !! key ≫= id).
Proof.
  intros (cs & H & Hdom & _ & Hu & Hm). destruct (locate_ok t cs key H Hdom) as (p & l & r & Eb & _ & _ & E & Hr).
  unfold htable_find, htable_locate. rewrite Eb. cbn [mbind outcome_bind]. rewrite E. cbn [mbind outcome_bind].
  destruct r as [x|].
  - destruct Hr as (_ & v & Hx). assert (Hmk : m !! key = Some v) by (apply Hm; by exists x). rewrite Hmk. cbn.
    unfold info_at. unfold item_of in Hx. destruct (ht_infos t !! x) as [info|]; [|done]. cbn. injection Hx as _ ->. done.
  - destruct (m !! key) as [v|] eqn:Emk; [|done]. apply Hm in Emk as [x Hx]. by destruct (Hr x v).
Qed.

(** Adding an element that is not yet in a chain. *)
Lemma alloc_linked t cs x info : linked t cs -> x ∉ concat cs ->
  linked (mk_htable (ht_size t) (ht_used t) (ht_data t) (<[x := info]> (ht_infos t)) (S x) (ht_seq t)) cs.
Proof.
  intros [H1 H2 H3 H4 H5] Hx. split; cbn; [done| |done| |done].
  - apply Forall2_same_length_lookup. split; [by eapply Forall2_length|]. intros j q lj Hq Hlj.
    eapply chain_frame; [|by eapply Forall2_lookup_lr; [exact H2|..]]. intros y Hy. unfold next_of, prev_of.
    rewrite lookup_insert_ne; [done|]. intros ->. apply Hx. by eapply in_concat.
  - intros i l y item Hl Hy. unfold item_of. rewrite lookup_insert_ne; [by apply (H4 i l)|]. intros ->. apply Hx. by eapply in_concat.
Qed.

Lemma represents_enter t m key v : represents t m -> m !! key = None ->
  exists x t', htable_enter t key v = Ret (x, t') /\ represents t' (<[key := v]> m)
    /\ item_of (ht_infos t') x = Some (key, v).
Proof.
  intros (cs & H & Hdom & Hfr & Hu & Hm) Hk. unfold htable_enter.
  assert (Hg : exists t1 cs1, (if ht_used t >=? ht_size t then htable_grow t else Ret t) = Ret t1 /\ linked t1 cs1
    /\ concat cs1 ≡ₚ concat cs /\ same_items (ht_infos t) (ht_infos t1) /\ ht_fresh t1 = ht_fresh t).
  { destruct (ht_used t >=? ht_size t); [|by exists t, cs].
    destruct (grow_ok t cs H) as (t1 & cs1 & E & H1 & C & I & F & _). by exists t1, cs1. }
  destruct Hg as (t1 & cs1 & -> & H1 & C & I & F). cbn [mbind outcome_bind].
  set (x := ht_fresh t1) in *. assert (Hxn : ht_infos t !! x = None).
  { destruct (ht_infos t !! x) as [i|] eqn:E; [|done]. specialize (Hfr x ltac:(by eexists)). unfold x in Hfr. lia. }
  assert (Hxc : x ∉ concat cs1) by (rewrite C; intros Hi; apply Hdom in Hi; rewrite Hxn in Hi; by destruct Hi).
  set (t2 := mk_htable (ht_size t1) (ht_used t1) (ht_data t1) _ _ _).
  pose proof (alloc_linked t1 cs1 x (mk_info key v None None) H1 Hxc : linked t2 cs1) as H2.
  assert (I2 : forall y, item_of (ht_infos t2) y = if decide (y = x) then Some (key, v) else item_of (ht_infos t) y).
  { intros y. unfold t2, item_of. cbn. case_decide as Hy; [subst; by rewrite lookup_insert_eq|].
    rewrite lookup_insert_ne by done. apply I. }
  destruct (htable_link_ok t2 cs1 x key v H2) as (t3 & l & i & E3 & Hl & H3 & I3 & S3 & F3 & _ & _); [by rewrite I2, decide_True|done|].
  rewrite E3. cbn [mbind outcome_bind]. exists x, t3.
  assert (Iall : forall y, item_of (ht_infos t3) y = if decide (y = x) then Some (key, v) else item_of (ht_infos t) y)
    by (intros y; by rewrite I3, I2).
  assert (Hnok : forall y w, item_of (ht_infos t) y <> Some (key, w)).
  { intros y w Hy. assert (m !! key = Some w) by (apply Hm; by exists y). congruence. }
  split; [done|]. split; [|by rewrite Iall, decide_True].
  destruct (concat_insert cs1 i l (x :: l) Hl) as [C1 C2].
  assert (Cx : concat (<[i := x :: l]> cs1) ≡ₚ x :: concat cs) by (rewrite C1, <- C, C2; done).
  eexists. split_and!; [exact H3| | | |].
  - intros y. rewrite Cx, elem_of_cons, <- Hdom, !item_in, Iall. case_decide; [subst; split; [by left|by eexists]|naive_solver].
  - intros y. rewrite item_in, Iall, F3. unfold t2. cbn. case_decide as Hy; [intros _; lia|]. rewrite <- item_in. intros Hy'%Hfr. unfold x. lia.
  - intros y z k w u. rewrite !Iall. repeat case_decide; subst; try done.
    + intros [= <- <-] Hz. by destruct (Hnok z u).
    + intros Hy [= <- <-]. by destruct (Hnok y w).
    + apply Hu.
  - intros k w. destruct (decide (k = key)) as [->|Hkn].
    + rewrite lookup_insert_eq. split; [intros [= ->]; exists x; by rewrite Iall, decide_True|].
      intros [y Hy]. rewrite Iall in Hy. case_decide; [by injection Hy as ->|]. by destruct (Hnok y w).
    + rewrite lookup_insert_ne by done. rewrite Hm. split; intros [y Hy]; exists y; rewrite Iall in *.
      * rewrite decide_False; [done|]. intros ->. unfold item_of in Hy. by rewrite Hxn in Hy.
      * case_decide; [|done]. injection Hy as -> _. done.
Qed.

(** The neighbours of an element in its chain. *)
Lemma chain_mid m x l1 l2 : forall prev p, chain m prev p (l1 ++ x :: l2) ->
  prev_of m x = Some (match last l1 with Some w => Some w | None => prev end) /\ next_of m x = Some (head l2).
Proof.
  induction l1 as [|y l1 IH]; intros prev p; cbn [app chain].
  - intros (_ & Hp & next & Hn & Hc). split; [done|]. rewrite Hn. by destruct l2; [rewrite Hc|destruct Hc as [-> _]].
  - intros (_ & _ & next & _ & Hc). apply IH in Hc as [H1 H2]. split; [|done]. rewrite H1. destruct l1 as [|z l1]; [done|].
    rewrite last_cons_cons. by destruct (last (z :: l1)) eqn:E; [|apply last_None in E].
Qed.

(** The pointer updates of htable_delete() take an element out of its chain. *)
Lemma delete_links t h p l1 x l2 info : chain (ht_infos t) None p (l1 ++ x :: l2) -> NoDup (l1 ++ x :: l2) ->
  ht_data t !! h = Some p -> (forall y, y ∈ l1 ++ l2 -> is_Some (ht_infos t !! y)) -> ht_infos t !! x = Some info ->
  exists m' p',
    (t ← match ht_next info with Some y => set_prev y (ht_prev info) t | None => Ret t end;
     match ht_prev info with
     | Some y => set_next y (ht_next info) t
     | None => Ret (with_data (<[h := ht_next info]> (ht_data t)) (ht_used t) t)
     end) = Ret (with_data (<[h := p']> (ht_data t)) (ht_used t) (with_infos m' t))
    /\ same_items (ht_infos t) m' /\ chain m' None p' (l1 ++ l2)
    /\ forall y, y ∉ l1 ++ x :: l2 -> next_of m' y = next_of (ht_infos t) y /\ prev_of m' y = prev_of (ht_infos t) y.
Proof.
  intros Hc Hnd Hp Hin Ei. destruct (chain_mid _ _ _ _ _ _ Hc) as [Hpx Hnx]. unfold prev_of in Hpx. unfold next_of in Hnx. rewrite Ei in Hpx, Hnx.
  assert (Ep : ht_prev info = last l1) by (injection Hpx as ->; by destruct (last l1)). assert (En : ht_next info = head l2) by (by injection Hnx).
  rewrite Ep, En. assert (Hx12 : x ∉ l1 ++ l2) by (rewrite <- Permutation_middle in Hnd; by apply NoDup_cons in Hnd as [? _]).
  rewrite not_elem_of_app in Hx12. destruct Hx12 as [Hx1 Hx2].
  assert (Hl1 : forall y, last l1 = Some y -> y ∈ l1) by (intros y Hy; by apply last_Some_elem_of).
  assert (Hl2 : forall y, head l2 = Some y -> y ∈ l2) by (intros y Hy; by apply head_Some_elem_of).
  destruct (set_prev_opt (head l2) (last l1) t) as (m1 & -> & I1 & P1 & N1); [intros y Hy; apply Hin, elem_of_app; right; by apply Hl2|].
  cbn [mbind outcome_bind]. set (p' := if decide (l1 = []) then head l2 else p).
  assert (H2 : exists m2, match last l1 with
      | Some y => set_next y (head l2) (with_infos m1 t)
      | None => Ret (with_data (<[h := head l2]> (ht_data (with_infos m1 t))) (ht_used (with_infos m1 t)) (with_infos m1 t))
      end = Ret (with_data (<[h := p']> (ht_data t)) (ht_used t) (with_infos m2 t))
    /\ same_items (ht_infos t) m2 /\ (forall y, prev_of m2 y = prev_of m1 y)
    /\ (forall y, next_of m2 y = if decide (last l1 = Some y) then Some (head l2) else next_of m1 y)).
  { unfold p'. destruct (last l1) as [y|] eqn:El.
    - rewrite decide_False by (by intros ->). rewrite list_insert_id by done. destruct (set_ht_next_ok y (head l2) (with_infos m1 t)) as (m2 & E2 & I2 & N2 & P2).
      { apply (same_items_dom _ _ _ I1), Hin, elem_of_app. left. by apply Hl1. }
      exists m2. rewrite E2. split_and!; [done|intros z; by rewrite I2|done|]. intros z. rewrite N2. cbn. repeat case_decide; naive_solver.
    - apply last_None in El as ->. rewrite decide_True by done. exists m1. by split_and!. }
  destruct H2 as (m2 & -> & I2 & P2 & N2). exists m2, p'. split_and!; [done..| |].
  - apply (chain_delete (ht_infos t) m2 x (head l2) (last l1)); [done|unfold next_of; rewrite Ei; by rewrite <- En|unfold prev_of; rewrite Ei; by rewrite <- Ep| | |by intros ?|exact Hc].
    + intros y. rewrite N2, N1. apply decide_ext. split; [|tauto]. intros Ey. split; [|done]. intros ->. by apply Hx1, Hl1.
    + intros y. rewrite P2, P1. apply decide_ext. split; [|tauto]. intros Ey. split; [|done]. intros ->. by apply Hx2, Hl2.
  - intros y Hy. rewrite not_elem_of_app, not_elem_of_cons in Hy. destruct Hy as (Hy1 & _ & Hy2). rewrite N2, N1, P2, P1.
    split; (rewrite decide_False; [done|]); intros Ey; [by apply Hy1, Hl1|by apply Hy2, Hl2].
Qed.

(** A table without an element, by the chains that it leaves. *)
Lemma represents_removed t t' m key v x cs cs' : represents t m -> linked t cs -> (forall y, is_Some (ht_infos t !! y) <-> y ∈ concat cs) ->
  item_of (ht_infos t) x = Some (key, v) -> linked t' cs' -> concat cs ≡ₚ x :: concat cs' ->
  (forall y, item_of (ht_infos t') y = if decide (y = x) then None else item_of (ht_infos t) y) -> ht_fresh t' = ht_fresh t ->
  represents t' (delete key m).
Proof.
  intros (_ & _ & _ & Hfr & Hu & Hm) H Hdom Hx H' Cx I F. exists cs'. split_and!; [done| | | |].
  - intros y. rewrite item_in, I. pose proof (li_nodup _ _ H) as Hnd. rewrite Cx in Hnd. apply NoDup_cons in Hnd as [Hxc _].
    case_decide as Hy; [subst; split; [by intros []|done]|]. rewrite <- item_in, Hdom, Cx, elem_of_cons. tauto.
  - intros y. rewrite item_in, I, F. case_decide; [by intros []|]. rewrite <- item_in. apply Hfr.
  - intros y z k w u. rewrite !I. repeat case_decide; [done..|]. apply Hu.
  - intros k w. destruct (decide (k = key)) as [->|Hkn].
    + rewrite lookup_delete_eq. split; [done|]. intros [y Hy]. rewrite I in Hy. case_decide as Hyx; [done|]. destruct (Hyx (Hu _ _ _ _ _ Hy Hx)).
    + rewrite lookup_delete_ne by done. rewrite Hm. split; intros [y Hy]; exists y; rewrite I in *.
      * rewrite decide_False; [done|]. intros ->. rewrite Hx in Hy. injection Hy as -> _. done.
      * by case_decide.
Qed.

Lemma represents_delete t m key v : represents t m -> m !! key = Some v ->
  exists t', htable_delete t key = Ret (v, t') /\ represents t' (delete key m).
Proof.
  intros Hrep Hk. pose proof Hrep as (cs & H & Hdom & Hfr & Hu & Hm).
  destruct (locate_ok t cs key H Hdom) as (p & l & r & Eb & Hl & Hc & E & Hr).
  unfold htable_delete. rewrite Eb. cbn [mbind outcome_bind]. rewrite E. cbn [mbind outcome_bind].
  destruct r as [x|]; [|apply Hm in Hk as [y Hy]; by destruct (Hr y v)]. destruct Hr as (Hx & v' & Hxi).
  assert (v' = v) by (assert (m !! key = Some v') by (apply Hm; by exists x); congruence). subst v'.
  set (h := Z.to_nat (htable_hash key (ht_size t))) in *.
  apply list_elem_of_split in Hx as (l1 & l2 & ->). destruct (concat_insert cs h _ (l1 ++ l2) Hl) as [C1 C2].
  pose proof (li_nodup _ _ H) as Hnd. assert (Hndl : NoDup (l1 ++ x :: l2)) by (rewrite C2 in Hnd; by apply NoDup_app in Hnd as [? _]).
  assert (Cx : concat cs ≡ₚ x :: concat (<[h := l1 ++ l2]> cs)) by (by rewrite C1, C2, <- Permutation_middle).
  assert (Hxc : x ∉ concat (<[h := l1 ++ l2]> cs)) by (rewrite Cx in Hnd; by apply NoDup_cons in Hnd as [? _]).
  unfold info_at. destruct (ht_infos t !! x) as [info|] eqn:Ei; [|unfold item_of in Hxi; by rewrite Ei in Hxi]. cbn [mbind outcome_bind].
  assert (Hp : ht_data t !! h = Some p) by (unfold bucket in Eb; fold h in Eb; destruct (ht_data t !! h); [by injection Eb as ->|done]).
  destruct (delete_links t h p l1 x l2 info Hc Hndl Hp) as (m' & p' & E2 & I & Hc' & Hframe); [intros y Hy; apply Hdom; rewrite C2; set_solver|done|].
  destruct (match ht_next info with Some _ => _ | None => _ end) as [t1| |]; [|done..]. cbn [mbind outcome_bind] in E2 |- *. rewrite E2. cbn [mbind outcome_bind].
  eexists. split; [unfold item_of in Hxi; rewrite Ei in Hxi; injection Hxi as _ ->; reflexivity|]. set (t' := with_infos _ _).
  assert (I' : forall y, item_of (ht_infos t') y = if decide (y = x) then None else item_of (ht_infos t) y).
  { intros y. unfold t', item_of. cbn. case_decide as Hy; [by rewrite Hy, lookup_delete_eq|]. rewrite lookup_delete_ne by done. apply I. }
  assert (L' : forall y, y <> x -> next_of (ht_infos t') y = next_of m' y /\ prev_of (ht_infos t') y = prev_of m' y)
    by (intros y Hy; unfold t', next_of, prev_of; cbn; by rewrite lookup_delete_ne).
  assert (Hx12 : x ∉ l1 ++ l2) by (rewrite <- Permutation_middle in Hndl; by apply NoDup_cons in Hndl as [? _]).
  apply (represents_removed t t' m key v x cs (<[h := l1 ++ l2]> cs)); try done.
  apply (linked_replace t t' cs h _ _ p' H Hl); [done..| | | | |].
  - apply (chain_frame m'); [|done]. intros y Hy. apply L'. by intros ->.
  - rewrite Cx in Hnd. by apply NoDup_cons in Hnd as [_ ?].
  - cbn. rewrite (li_used _ _ H), Cx. cbn. lia.
  - intros y Hy Hyl. assert (Hyx : y <> x) by (intros ->; apply Hyl, elem_of_app; right; by left).
    rewrite I', decide_False by done. destruct (L' y Hyx) as [-> ->]. split; [by apply Hframe|done].
  - intros y item Hy Hi. rewrite I', decide_False in Hi by (by intros ->). eapply (li_hash _ _ H); [exact Hl| |exact Hi].
    apply elem_of_app in Hy as [Hy|Hy]; apply elem_of_app; [by left|right; by right].
Qed.

Lemma delete_unknown_panics t m key : represents t m -> m !! key = None -> htable_delete t key = Panic.
Proof.
  intros (cs & H & Hdom & Hfr & Hu & Hm) Hk. destruct (locate_ok t cs key H Hdom) as (p & l & r & Eb & Hl & Hc & E & Hr).
  unfold htable_delete. rewrite Eb. cbn [mbind outcome_bind]. rewrite E. cbn [mbind outcome_bind].
  destruct r as [x|]; [|done]. destruct Hr as (_ & v & Hx). assert (m !! key = Some v) by (apply Hm; by exists x). congruence.
Qed.

(** ** Listing *)

Lemma list_chain_ok t l : forall fuel prev p, chain (ht_infos t) prev p l -> (length l <= fuel)%nat -> list_chain fuel p t = Ret l.
Proof.
  induction l as [|x l IH]; intros fuel prev p Hc Hf; [cbn in Hc; subst p; by destruct fuel|].
  destruct Hc as (-> & _ & next & Hn & Hc). destruct fuel as [|fuel]; [cbn in Hf; lia|]. cbn [list_chain]. unfold info_at.
  unfold next_of in Hn. destruct (ht_infos t !! x) as [info|]; [|done]. injection Hn as <-. cbn [mbind outcome_bind].
  cbn in Hf. rewrite (IH fuel _ _ Hc) by lia. done.
Qed.

Lemma list_buckets_ok t data ds : Forall2 (chain (ht_infos t) None) data ds -> NoDup (concat ds) -> list_buckets data t = Ret (concat ds).
Proof.
  induction 1 as [|p l data ds Hc _ IH]; [done|]. cbn [concat]. intros Hnd. apply NoDup_app in Hnd as (Hl & _ & Hds).
  cbn [list_buckets]. rewrite (list_chain_ok t l _ _ _ Hc); [cbn [mbind outcome_bind]; by rewrite IH|].
  unfold chain_fuel. enough (length l <= size (ht_infos t))%nat by lia. apply nodup_size; [done|]. intros x Hx. by eapply chain_in.
Qed.

Lemma represents_list t m : represents t m -> exists l, htable_list t = Ret l /\ NoDup l
  /\ forall k v, m !! k = Some v <-> exists x, x ∈ l /\ item_of (ht_infos t) x = Some (k, v).
Proof.
  intros (cs & H & Hdom & _ & _ & Hm). exists (concat cs). split; [|split; [apply H|]].
  - apply list_buckets_ok; apply H.
  - intros k v. rewrite Hm. split; intros [x Hx]; exists x; [|by destruct Hx].
    split; [|done]. apply Hdom, item_in. by eexists.
Qed.

(** The elements' keys and values are the entries of the map. *)
Lemma represents_items t m l : represents t m -> htable_list t = Ret l ->
  map (item_of (ht_infos t)) l ≡ₚ map Some (map_to_list m) /\ forall x, x ∈ l -> is_Some (ht_infos t !! x).
Proof.
  intros H E. pose proof H as (cs & Hli & Hdom & _ & Hu & Hm).
  assert (El : l = concat cs) by (unfold htable_list in E; rewrite (list_buckets_ok t _ cs) in E by apply Hli; by injection E).
  assert (Hin : forall x, x ∈ l -> is_Some (ht_infos t !! x)) by (intros x Hx; apply Hdom; by rewrite <- El).
  split; [|done]. apply NoDup_Permutation.
  - apply (NoDup_fmap_2_strong (item_of (ht_infos t))); [|rewrite El; apply Hli]. intros x y Hx _ Exy.
    apply Hin, item_in in Hx as [[k v] Hx]. rewrite Hx in Exy. by apply (Hu x y k v v).
  - apply (NoDup_fmap_2 Some), NoDup_map_to_list.
  - intros z. rewrite (list_elem_of_fmap (item_of (ht_infos t))), (list_elem_of_fmap Some). split.
    + intros (x & -> & Hx). pose proof Hx as Hx'. apply Hin, item_in in Hx' as [[k v] Hx']. exists (k, v). split; [done|].
      apply elem_of_map_to_list, Hm. by exists x.
    + intros ([k v] & -> & Hkv). apply elem_of_map_to_list, Hm in Hkv as [x Hx]. exists x. split; [done|].
      rewrite El. apply Hdom, item_in. by eexists.
Qed.

Lemma free_values_eq t l : (forall x, x ∈ l -> is_Some (ht_infos t !! x)) ->
  free_values l t = Ret (omap (fun z => z ≫= snd) (map (item_of (ht_infos t)) l)).
Proof.
  induction l as [|x l IH]; intros H; [done|]. destruct (H x) as [info Hx]; [by left|].
  cbn. unfold info_at, item_of at 1. rewrite Hx. cbn. rewrite IH by (intros y Hy; apply H; by right). cbn.
  by destruct (ht_value info).
Qed.

Lemma represents_free t m : represents t m -> exists l, htable_free t = Ret l /\ l ≡ₚ omap snd (map_to_list m).
Proof.
  intros H. destruct (represents_list t m H) as (l & E & _). destruct (represents_items t m l H E) as [Hp Hin].
  unfold htable_free. rewrite E. cbn [mbind outcome_bind]. rewrite free_values_eq by done. eexists. split; [done|].
  rewrite Hp. clear. induction (map_to_list m) as [|[k v] its IH]; [done|]. cbn. destruct v; cbn; by rewrite IH.
Qed.

Lemma represents_locate t m key : represents t m -> exists r, htable_locate t key = Ret r /\ (is_Some r <-> is_Some (m !! key)).
Proof.
  intros (cs & H & Hdom & _ & _ & Hm). destruct (locate_ok t cs key H Hdom) as (p & l & r & Eb & _ & _ & E & Hr).
  exists r. unfold htable_locate. rewrite Eb. cbn [mbind outcome_bind]. split; [done|]. destruct r as [x|].
  - destruct Hr as (_ & v & Hx). split; [|done]. intros _. exists v. apply Hm. by exists x.
  - split; [by intros []|]. intros [v [x Hx]%Hm]. by destruct (Hr x v).
Qed.

(** The number of elements is that of the map's entries. *)
Lemma represents_used t m : represents t m -> ht_used t = Z.of_nat (size m).
Proof.
  intros H. pose proof H as (cs & Hli & _). assert (E : htable_list t = Ret (concat cs)) by (apply list_buckets_ok; apply Hli).
  destruct (represents_items t m _ H E) as [Hp _]. apply Permutation_length in Hp. rewrite !length_map in Hp.
  rewrite (li_used _ _ Hli), Hp. by rewrite length_map_to_list.
Qed.
End htable.
Arguments HTABLE V : clear implicits.
Arguments HTABLE_INFO V : clear implicits.

(** ** The interface *)

#[export] Instance htable_ops (V : Type) : TableOps (HTABLE V) V := {|
  table_create := htable_create;
  table_find := htable_find;
  table_enter t k v := '(_, t) ← htable_enter t k (Some v); Ret t;
  table_delete t k := '(_, t) ← htable_delete t k; Ret t;
  table_used := ht_used;
  table_free := htable_free
|}.

#[export] Program Instance htable_laws (V : Type) : TableLaws (HTABLE V) V := {|
  table_rep t m := represents t (Some <$> m)
|}.
Next Obligation. intros V n. cbn. replace (Some <$> (∅ : gmap bytes V)) with (∅ : gmap bytes (option V)) by (symmetry; apply fmap_empty). apply represents_create. Qed.
Next Obligation.
  intros V t m k H. cbn in *. rewrite (represents_find _ _ k H), lookup_fmap. by destruct (m !! k).
Qed.
Next Obligation.
  intros V t m k v H Hk. destruct (represents_enter t _ k (Some v) H) as (x & t' & E & H' & _); [by rewrite lookup_fmap, Hk|].
  exists t'. cbn. rewrite E. split; [done|]. by rewrite fmap_insert.
Qed.
Next Obligation.
  intros V t m k v H Hk. destruct (represents_delete t _ k (Some v) H) as (t' & E & H'); [by rewrite lookup_fmap, Hk|].
  exists t'. cbn. rewrite E. split; [done|]. by rewrite fmap_delete.
Qed.
Next Obligation.
  intros V t m k H Hk. cbn. by rewrite (delete_unknown_panics t _ k H) by (by rewrite lookup_fmap, Hk).
Qed.
Next Obligation. intros V t m H. cbn. by rewrite (represents_used t _ H), map_size_fmap. Qed.
Next Obligation.
  intros V t m H. cbn in *. destruct (represents_free t _ H) as (l & E & Hl). exists l. split; [done|].
  rewrite Hl, map_to_list_fmap. clear. induction (map_to_list m) as [|[k v] its IH]; [done|]. cbn. by rewrite IH.
Qed.



(** htable_sequence() with HTABLE_SEQ_NEXT after HTABLE_SEQ_FIRST found the table empty
    reads past the end of the array of elements. *)
Example sequence_past_end :
  ('(_, t) ← htable_sequence HTABLE_SEQ_FIRST (htable_create 1 : HTABLE nat); htable_sequence HTABLE_SEQ_NEXT t) = Undef.
Proof. reflexivity. Qed.

(** Fourteen entries in a table of thirteen buckets make it grow. *)
Example htable_grows :
  let enter t i := ('(_, t) ← t; htable_enter t (str "k" ++ [i]) (Some i)) in
  match foldl enter (Ret (O, htable_create 1)) (seqZ 48 20) with
  | Ret (_, t) => (ht_size t, ht_used t, htable_find t (str "k" ++ [50]))
  | _ => (0, 0, Undef)
  end = (27, 20, Ret (Some 50)).
Proof. by vm_compute. Qed.
