(* ===== verification/Utf8.v ===== *)
(** Character sets of strings: allascii.c and valid_utf8_string.c (src/src/util).

    A string with its length is the list of its bytes.  The validator is compared with
    the definition of UTF-8: the text is the encoding of a sequence of Unicode scalar
    values, each in its shortest form. *)

From S2P Require Import Prelude.

(** ** Operations *)

Definition ISASCII (c : Z) : bool := in_range 0 127 c.

(** The loop of allascii_len(): it ends at the string terminator. *)
Fixpoint allascii_loop (s : bytes) : bool :=
  match s with
  | [] => true
  | ch :: s => if ch =? 0 then true else if negb (ISASCII ch) then false else allascii_loop s
  end.

(** allascii(string) is allascii_len(string, -1). *)
Definition allascii_len (string : bytes) (len : Z) : bool :=
  let len := if len <? 0 then Z.of_nat (length string) else len in
  if len =? 0 then false else allascii_loop (take (Z.to_nat len) string).

(** A tail byte. *)
Definition is_tail (ch : Z) : bool := Z.land ch 0xc0 =? 0x80.

Fixpoint valid_utf8_loop (cp : bytes) : bool :=
  match cp with
  | [] => true
  | c0 :: cp =>
      (* Single-byte encodings. *)
      if c0 <=? 0x7f then valid_utf8_loop cp
      (* Two-byte encodings. *)
      else if c0 <=? 0xdf then
        if c0 <? 0xc2 then false else
        match cp with
        | ch1 :: cp => if negb (is_tail ch1) then false else valid_utf8_loop cp
        | _ => false
        end
      (* Three-byte encodings. *)
      else if c0 <=? 0xef then
        match cp with
        | ch1 :: ch2 :: cp =>
            if ch1 <? (if c0 =? 0xe0 then 0xa0 else 0x80) then false else
            if ch1 >? (if c0 =? 0xed then 0x9f else 0xbf) then false else
            if negb (is_tail ch2) then false else valid_utf8_loop cp
        | _ => false
        end
      (* Four-byte encodings. *)
      else if c0 <=? 0xf4 then
        match cp with
        | ch1 :: ch2 :: ch3 :: cp =>
            if ch1 <? (if c0 =? 0xf0 then 0x90 else 0x80) then false else
            if ch1 >? (if c0 =? 0xf4 then 0x8f else 0xbf) then false else
            if negb (is_tail ch2) then false else
            if negb (is_tail ch3) then false else valid_utf8_loop cp
        | _ => false
        end
      else false
  end.

Definition valid_utf8_string (str : bytes) (len : Z) : bool :=
  if len <? 0 then false else
  if len <=? 0 then true else valid_utf8_loop (take (Z.to_nat len) str).

(** ** The definition of UTF-8 *)

(** Unicode scalar values: the code points that are not surrogates. *)
Definition scalar (u : Z) : Prop := 0 <= u < 0xd800 \/ 0xdfff < u <= 0x10ffff.

(** The table of RFC 3629, section 3. *)
Definition utf8_encode (u : Z) : bytes :=
  if u <? 0x80 then [u]
  else if u <? 0x800 then [0xc0 + u / 64; 0x80 + u mod 64]
  else if u <? 0x10000 then [0xe0 + u / 4096; 0x80 + u / 64 mod 64; 0x80 + u mod 64]
  else [0xf0 + u / 262144; 0x80 + u / 4096 mod 64; 0x80 + u / 64 mod 64; 0x80 + u mod 64].

Definition is_utf8 (s : bytes) : Prop := exists us, Forall scalar us /\ s = concat (map utf8_encode us).

(** *** Lemmas *)

Definition tail_ok (i : nat) : bool := Bool.eqb (is_tail (Z.of_nat i)) (in_range 0x80 0xbf (Z.of_nat i)).

Lemma is_tail_range c : is_byte c -> is_tail c = in_range 0x80 0xbf c.
Proof.
  intros Hc. apply Bool.eqb_prop. rewrite <- (Z2Nat.id c) by (unfold is_byte in Hc; lia).
  assert (H : forallb tail_ok (seq 0 256) = true) by (vm_compute; reflexivity).
  rewrite forallb_forall in H. apply H, in_seq. unfold is_byte in Hc. lia.
Qed.

Lemma utf8_nil : is_utf8 [].
Proof. by exists []. Qed.

Lemma utf8_app u s : scalar u -> is_utf8 s -> is_utf8 (utf8_encode u ++ s).
Proof. intros Hu (us & Hus & ->). exists (u :: us). split; [by constructor|done]. Qed.

Lemma loop_encode u s : scalar u -> valid_utf8_loop (utf8_encode u ++ s) = valid_utf8_loop s.
Proof.
  intros Hu. unfold scalar in Hu. unfold utf8_encode.
  assert (Ht : forall x, is_tail (0x80 + x mod 64) = true).
  { intros x. rewrite is_tail_range by (unfold is_byte; plia). unfold in_range. zb. plia. }
  repeat case_match; zb; cbn [app valid_utf8_loop]; rewrite ?Ht; cbn [negb].
  - rewrite (proj2 (Z.leb_le _ _)) by lia. done.
  - rewrite (proj2 (Z.leb_gt _ _)), (proj2 (Z.leb_le _ _)), (proj2 (Z.ltb_ge _ _)) by plia. done.
  - rewrite (proj2 (Z.leb_gt _ 0x7f)), (proj2 (Z.leb_gt _ 0xdf)), (proj2 (Z.leb_le _ _)) by plia.
    repeat case_match; zb; solve [done|plia].
  - rewrite (proj2 (Z.leb_gt _ 0x7f)), (proj2 (Z.leb_gt _ 0xdf)), (proj2 (Z.leb_gt _ 0xef)), (proj2 (Z.leb_le _ _)) by plia.
    repeat case_match; zb; solve [done|plia].
Qed.

(** The code point of a sequence, from its first byte and the tail bytes. *)
Lemma decode_step u s t : scalar u -> s = utf8_encode u ++ t -> is_utf8 t -> is_utf8 s.
Proof. intros Hu -> Ht. by apply utf8_app. Qed.

Lemma is_utf8_1 c s : is_byte c -> c <= 0x7f -> is_utf8 s -> is_utf8 (c :: s).
Proof.
  unfold is_byte. intros Hc H. apply (decode_step c); [unfold scalar; lia|]. unfold utf8_encode.
  by rewrite (proj2 (Z.ltb_lt _ _)) by lia.
Qed.

Lemma is_utf8_2 c0 c1 s : 0xc2 <= c0 <= 0xdf -> 0x80 <= c1 <= 0xbf -> is_utf8 s -> is_utf8 (c0 :: c1 :: s).
Proof.
  intros H0 H1. apply (decode_step ((c0 - 0xc0) * 64 + (c1 - 0x80))); [unfold scalar; lia|]. unfold utf8_encode.
  rewrite (proj2 (Z.ltb_ge _ 0x80)), (proj2 (Z.ltb_lt _ _)) by lia. cbn [app]. list_plia.
Qed.

Lemma is_utf8_3 c0 c1 c2 s : 0xe0 <= c0 <= 0xef -> (if c0 =? 0xe0 then 0xa0 else 0x80) <= c1 <= (if c0 =? 0xed then 0x9f else 0xbf) ->
  0x80 <= c2 <= 0xbf -> is_utf8 s -> is_utf8 (c0 :: c1 :: c2 :: s).
Proof.
  intros H0 H1 H2. apply (decode_step ((c0 - 0xe0) * 4096 + (c1 - 0x80) * 64 + (c2 - 0x80))).
  { unfold scalar. repeat case_match; zb; lia. }
  unfold utf8_encode.
  rewrite (proj2 (Z.ltb_ge _ 0x80)), (proj2 (Z.ltb_ge _ 0x800)), (proj2 (Z.ltb_lt _ _)) by (repeat case_match; zb; lia).
  cbn [app]. assert (0x80 <= c1 <= 0xbf) by (repeat case_match; zb; lia). clear H1. list_plia.
Qed.

Lemma is_utf8_4 c0 c1 c2 c3 s : 0xf0 <= c0 <= 0xf4 -> (if c0 =? 0xf0 then 0x90 else 0x80) <= c1 <= (if c0 =? 0xf4 then 0x8f else 0xbf) ->
  0x80 <= c2 <= 0xbf -> 0x80 <= c3 <= 0xbf -> is_utf8 s -> is_utf8 (c0 :: c1 :: c2 :: c3 :: s).
Proof.
  intros H0 H1 H2 H3. apply (decode_step ((c0 - 0xf0) * 262144 + (c1 - 0x80) * 4096 + (c2 - 0x80) * 64 + (c3 - 0x80))).
  { unfold scalar. repeat case_match; zb; lia. }
  unfold utf8_encode.
  rewrite (proj2 (Z.ltb_ge _ 0x80)), (proj2 (Z.ltb_ge _ 0x800)), (proj2 (Z.ltb_ge _ 0x10000)) by (repeat case_match; zb; lia).
  cbn [app]. assert (0x80 <= c1 <= 0xbf) by (repeat case_match; zb; lia). clear H1. list_plia.
Qed.

(** Take apart the tests that a valid text has passed. *)
Ltac utf8_tests :=
  repeat match goal with
  | H : (if ?b then false else _) = true |- _ => destruct b eqn:?; [discriminate H|]
  | H : negb (is_tail _) = false |- _ => rewrite is_tail_range in H by done
  end.

Lemma loop_decode n : forall s, (length s < n)%nat -> Forall is_byte s -> valid_utf8_loop s = true -> is_utf8 s.
Proof.
  induction n as [|n IH]; [lia|]. intros [|c0 s] Hn Hs H; [apply utf8_nil|].
  apply Forall_cons in Hs as [H0 Hs]. cbn [valid_utf8_loop length] in *.
  destruct (c0 <=? 0x7f) eqn:E1; [zb; apply is_utf8_1; [done|lia|apply IH; [lia|done..]]|].
  destruct (c0 <=? 0xdf) eqn:E2.
  { destruct (c0 <? 0xc2) eqn:?; [done|]. destruct s as [|c1 s]; [done|]. apply Forall_cons in Hs as [H1 Hs].
    utf8_tests. zb. apply is_utf8_2; [lia..|]. apply IH; [cbn in Hn; lia|done..]. }
  destruct (c0 <=? 0xef) eqn:E3.
  { destruct s as [|c1 [|c2 s]]; [done..|]. decompose_Forall_hyps. utf8_tests. zb.
    apply is_utf8_3; [lia..|]. apply IH; [cbn in Hn; lia|done..]. }
  destruct (c0 <=? 0xf4) eqn:E4; [|done].
  destruct s as [|c1 [|c2 [|c3 s]]]; [done..|]. decompose_Forall_hyps. utf8_tests. zb.
  apply is_utf8_4; [lia..|]. apply IH; [cbn in Hn; lia|done..].
Qed.

(** ** Theorems *)

(** [valid_utf8_string] accepts exactly the well-formed texts of RFC 3629: the
    encodings of sequences of Unicode scalar values (no surrogates, nothing above
    U+10FFFF), each in its shortest form.  It looks only at the first [len] bytes. *)
Theorem valid_utf8_string_spec (str : bytes) (len : Z) : Forall is_byte str ->
  valid_utf8_string str len = true <-> 0 <= len /\ is_utf8 (take (Z.to_nat len) str).
Proof.
  intros Hs. unfold valid_utf8_string. destruct (len <? 0) eqn:E; zb; [split; [done|lia]|].
  destruct (len <=? 0) eqn:E0; zb.
  { assert (len = 0) as -> by lia. split; [|done]. split; [lia|apply utf8_nil]. }
  split.
  - intros H. split; [lia|]. eapply loop_decode; [apply Nat.lt_succ_diag_r|by apply Forall_take|done].
  - intros (_ & us & Hus & ->). induction Hus as [|u us Hu Hus IH]; [done|].
    cbn [map concat]. by rewrite loop_encode.
Qed.

Lemma valid_utf8_string_spec_witness :
  valid_utf8_string [0x6e; 0xc3; 0xaf] 3 = true <-> 0 <= 3 /\ is_utf8 (take 3 [0x6e; 0xc3; 0xaf]).
Proof.
  apply (valid_utf8_string_spec [0x6e; 0xc3; 0xaf] 3).
  repeat constructor; unfold is_byte; lia.
Defined.

(** A string of printable or control ASCII characters is all ASCII, unless it is empty. *)
Theorem allascii_spec (string : bytes) : Forall is_cchar string ->
  allascii_len string (-1) = true <-> string <> [] /\ Forall (fun c => c < 128) string.
Proof.
  intros Hs. unfold allascii_len. cbn [Z.ltb Z.compare]. rewrite Nat2Z.id, firstn_all.
  destruct string as [|c s]; [cbn; split; [done|by intros []]|]. cbn [length].
  rewrite (proj2 (Z.eqb_neq _ _)) by lia. transitivity (Forall (fun c => c < 128) (c :: s)); [|split; [done|by intros [_ ?]]].
  induction Hs as [|x l Hx Hl IH]; [done|]. cbn [allascii_loop]. unfold is_cchar in Hx.
  rewrite (proj2 (Z.eqb_neq _ _)) by lia. rewrite Forall_cons, <- IH. unfold ISASCII, in_range.
  destruct (x <=? 127) eqn:E; zb; rewrite ?andb_false_r, ?andb_true_r; cbn [negb].
  - rewrite (proj2 (Z.leb_le 0 x)) by lia. cbn. split; [intros ?; split; [lia|done]|by intros []].
  - split; [done|lia].
Qed.

Lemma allascii_spec_witness :
  allascii_len (str "user@example.com") (-1) = true <-> str "user@example.com" <> [] /\ Forall (fun c => c < 128) (str "user@example.com").
Proof. apply (allascii_spec (str "user@example.com")). repeat constructor; unfold is_cchar; lia. Defined.
