(* ===== verification/Attr.v ===== *)
(** The attribute protocol between Postfix processes: attr_print0.c and attr_scan0.c, with
    attr.h (src/src/util).

    An attribute list is a sequence of strings on a stream, each with a null byte at its
    end: names and values in turn, and an empty string at the end of the list.  A stream
    is the list of the bytes that are written to it, or that can still be read; errors
    and timeouts of the stream itself look like its end.  A variable argument list is a
    list of [send_attr] or [recv_attr], and what a scan stores through the pointers in
    its argument list is a list of [recv_value], in the order of the arguments.  What a
    conversion that fails leaves behind is not in the list: no caller looks at it. *)

From S2P Require Import Prelude Codec Htable.

(** ** Flags *)

Definition ATTR_FLAG_NONE : Z := 0.
Definition ATTR_FLAG_MISSING : Z := Z.shiftl 1 0.
Definition ATTR_FLAG_EXTRA : Z := Z.shiftl 1 1.
Definition ATTR_FLAG_MORE : Z := Z.shiftl 1 2.
Definition ATTR_FLAG_STRICT : Z := Z.lor ATTR_FLAG_MISSING ATTR_FLAG_EXTRA.
Definition ATTR_FLAG_ALL : Z := 7.

Definition ATTR_NAME_OPEN : bytes := str "{".
Definition ATTR_NAME_CLOSE : bytes := str "}".
Definition ATTR_HASH_LIMIT : Z := 1024.

Definition has (flags flag : Z) : bool := negb (Z.land flags flag =? 0).
(** The sanity check. *)
Definition flags_ok (flags : Z) : bool := Z.land flags (Z.lnot ATTR_FLAG_ALL) =? 0.

(** ** Machine integers

    [int] has 32 bits and [long] has 64. *)
Definition as_unsigned (w v : Z) : Z := v mod 2 ^ w.
Definition as_signed (w v : Z) : Z := (v + 2 ^ (w - 1)) mod 2 ^ w - 2 ^ (w - 1).

(** The conversions "%u" and "%lu" of printf(3): the decimal digits of a number below
    10^20. *)
Fixpoint decimal_loop (fuel : nat) (v : Z) : bytes :=
  match fuel with
  | O => []
  | S fuel => (if v <? 10 then [] else decimal_loop fuel (v / 10)) ++ ["0"%ch + v mod 10]
  end.
Definition decimal (v : Z) : bytes := decimal_loop 20 v.

(** ** attr_print0.c *)

(** A print function that is passed with SEND_ATTR_FUNC is the function from flags to the
    output that it makes with attr_print0(); a block of data has its length. *)
Inductive send_attr :=
  | SEND_ATTR_INT (name : bytes) (val : Z)
  | SEND_ATTR_LONG (name : bytes) (val : Z)
  | SEND_ATTR_STR (name val : bytes)
  | SEND_ATTR_DATA (name val : bytes)
  | SEND_ATTR_FUNC (print_fn : Z -> outcome bytes)
  | SEND_ATTR_HASH (table : HTABLE bytes).

(** A string with its terminator. *)
Definition put_string (s : bytes) : bytes := s ++ [0].

(** The elements of a table in the order of htable_list(), with their values. *)
Fixpoint print_items (ht : list nat) (table : HTABLE bytes) : outcome bytes :=
  match ht with
  | [] => Ret []
  | x :: ht =>
      info ← info_at x table;
      match ht_value info with
      | Some value =>
          out ← print_items ht table;
          Ret (put_string (ht_key info) ++ put_string value ++ out)
      | None => Undef
      end
  end.

Definition print_attr (flags : Z) (a : send_attr) : outcome bytes :=
  match a with
  | SEND_ATTR_INT attr_name int_val => Ret (put_string attr_name ++ put_string (decimal (as_unsigned 32 int_val)))
  | SEND_ATTR_LONG attr_name long_val => Ret (put_string attr_name ++ put_string (decimal (as_unsigned 64 long_val)))
  | SEND_ATTR_STR attr_name str_val => Ret (put_string attr_name ++ put_string str_val)
  | SEND_ATTR_DATA attr_name str_val => Ret (put_string attr_name ++ put_string (Base64.base64_encode [] str_val))
  | SEND_ATTR_FUNC print_fn => print_fn (Z.lor flags ATTR_FLAG_MORE)
  | SEND_ATTR_HASH table =>
      ht_info_list ← htable_list table;
      items ← print_items ht_info_list table;
      Ret (put_string ATTR_NAME_OPEN ++ items ++ put_string ATTR_NAME_CLOSE)
  end.

Fixpoint print_attrs (flags : Z) (ap : list send_attr) : outcome bytes :=
  match ap with
  | [] => Ret []
  | a :: ap => out ← print_attr flags a; rest ← print_attrs flags ap; Ret (out ++ rest)
  end.

Definition attr_print0 (flags : Z) (ap : list send_attr) : outcome bytes :=
  if negb (flags_ok flags) then Panic else
  out ← print_attrs flags ap;
  Ret (out ++ (if has flags ATTR_FLAG_MORE then [] else [0])).

(** ** attr_scan0.c *)

Inductive recv_value :=
  | V_INT (v : Z)
  | V_LONG (v : Z)
  | V_STR (s : bytes)
  | V_DATA (s : bytes)
  | V_FUNC (vs : list recv_value)
  | V_HASH (table : HTABLE bytes).

(** The return value, what is stored, and what is left of the stream. *)
Definition scan_result : Type := Z * list recv_value * bytes.

(** A scan function that is passed with RECV_ATTR_FUNC is a function from flags and the
    stream. *)
Inductive recv_attr :=
  | RECV_ATTR_INT (name : bytes)
  | RECV_ATTR_LONG (name : bytes)
  | RECV_ATTR_STR (name : bytes)
  | RECV_ATTR_DATA (name : bytes)
  | RECV_ATTR_FUNC (scan_fn : Z -> bytes -> outcome scan_result)
  | RECV_ATTR_HASH (table : HTABLE bytes).

(** vstring_get_null() as attr_scan0_string() uses it: the end of the stream is an error,
    also in the middle of a string.  The string, and the rest of the stream. *)
Fixpoint attr_scan0_string (fp : bytes) : option (bytes * bytes) :=
  match fp with
  | [] => None
  | c :: fp => if c =? 0 then Some ([], fp) else '(s, fp) ← attr_scan0_string fp; Some (c :: s, fp)
  end.

(** sscanf(s, "%u%c", ptr, &junk), or "%lu%c": the number of conversions and the number
    that is stored.  As strtoul(3) does, it skips white space, accepts a sign, and
    saturates at 64 bits; [w] is the width of the variable. *)
Fixpoint skip_spaces (s : bytes) : bytes :=
  match s with c :: s' => if ISSPACE c then skip_spaces s' else s | [] => [] end.
Definition digits_value (ds : bytes) : Z := foldl (fun v c => v * 10 + (c - "0"%ch)) 0 ds.
Definition sscanf_number (w : Z) (s : bytes) : Z * Z :=
  let s := skip_spaces s in
  let '(negative, s) := match s with
                        | c :: s' => if c =? "-"%ch then (true, s') else if c =? "+"%ch then (false, s') else (false, s)
                        | [] => (false, [])
                        end in
  let n := strspn ISDIGIT s in
  if (n =? 0)%nat then (0, 0) else
  let v := digits_value (take n s) in
  let v := if v >=? 2 ^ 64 then 2 ^ 64 - 1 else if negative then as_unsigned 64 (- v) else v in
  (match drop n s with [] => 1 | _ => 2 end, as_unsigned w v).

(** attr_scan0_number() and attr_scan0_long_number(). *)
Definition attr_scan0_number (w : Z) (fp : bytes) : option (Z * bytes) :=
  '(s, fp) ← attr_scan0_string fp;
  let '(conversions, v) := sscanf_number w s in
  if negb (conversions =? 1) then None else Some (v, fp).

Definition attr_scan0_data (fp : bytes) : option (bytes * bytes) :=
  '(s, fp) ← attr_scan0_string fp;
  data ← Base64.base64_decode [] s;
  Some (data, fp).

(** The attribute on top of the caller's wish list, as the search in the input sees it. *)
Inductive wanted := W_END | W_NAME (name : bytes) | W_HASH | W_CLOSE.

(** How the search ends: the attribute is found, with the type that is wanted now and the
    name in the input; the end of a hash table; return the number of conversions; the
    stream has ended. *)
Inductive located :=
  | L_FOUND (wanted_type : wanted) (name fp : bytes)
  | L_CLOSED (fp : bytes)
  | L_STOP (fp : bytes)
  | L_EOF.

(** Skip an attribute that the caller does not ask for. *)
Definition skip_value (fp : bytes) : bytes :=
  match attr_scan0_string fp with Some (_, fp) => fp | None => [] end.

(** Locate the next attribute of interest in the input stream.  Every step reads a name,
    so that the length of the stream is enough fuel. *)
Fixpoint locate (fuel : nat) (flags : Z) (wanted_type : wanted) (fp : bytes) : located :=
  match fuel with
  | O => L_EOF
  | S fuel =>
      match attr_scan0_string fp with
      | None => L_EOF
      | Some (name, fp) =>
          let unexpected :=
            if has flags ATTR_FLAG_EXTRA then L_STOP fp else locate fuel flags wanted_type (skip_value fp) in
          if bool_decide (name = []) then L_STOP fp else
          match wanted_type with
          | W_HASH => if bool_decide (name = ATTR_NAME_OPEN) then locate fuel flags W_CLOSE fp else L_FOUND W_HASH name fp
          | W_CLOSE => if bool_decide (name = ATTR_NAME_CLOSE) then L_CLOSED fp else L_FOUND W_CLOSE name fp
          | W_NAME wanted_name => if bool_decide (wanted_name = name) then L_FOUND wanted_type name fp else unexpected
          | W_END => unexpected
          end
      end
  end.

(** The requested conversion of a single value. *)
Definition convert (a : recv_attr) (fp : bytes) : option (recv_value * bytes) :=
  match a with
  | RECV_ATTR_INT _ => '(v, fp) ← attr_scan0_number 32 fp; Some (V_INT (as_signed 32 v), fp)
  | RECV_ATTR_LONG _ => '(v, fp) ← attr_scan0_number 64 fp; Some (V_LONG (as_signed 64 v), fp)
  | RECV_ATTR_STR _ => '(s, fp) ← attr_scan0_string fp; Some (V_STR s, fp)
  | RECV_ATTR_DATA _ => '(s, fp) ← attr_scan0_data fp; Some (V_DATA s, fp)
  | _ => None
  end.

(** The hash table that is being filled, if any, and whether it has an opening brace. *)
Inductive filling := NEXT | FILLING (close : bool) (hash_table : HTABLE bytes).

(** The loop over all (type, name, value) triples. *)
Fixpoint scan_loop (fuel : nat) (flags : Z) (ap : list recv_attr) (mode : filling) (conversions : Z)
    (stored : list recv_value) (fp : bytes) : outcome scan_result :=
  match fuel with
  | O => Undef
  | S fuel =>
      let find wanted_type := locate (S (length fp)) flags wanted_type fp in
      match mode with
      | NEXT =>
          match ap with
          | [] =>
              if has flags ATTR_FLAG_MORE then Ret (conversions, stored, fp) else
              match find W_END with
              | L_EOF => Ret (-1, stored, [])
              | L_STOP fp => Ret (conversions, stored, fp)
              | _ => Panic
              end
          | RECV_ATTR_HASH hash_table :: ap => scan_loop fuel flags ap (FILLING false hash_table) conversions stored fp
          | RECV_ATTR_FUNC scan_fn :: ap =>
              r ← scan_fn (Z.lor flags ATTR_FLAG_MORE) fp;
              let '(ret, vs, fp) := r in
              if ret <? 0 then Ret (-1, stored ++ [V_FUNC vs], fp)
              else scan_loop fuel flags ap NEXT (conversions + 1) (stored ++ [V_FUNC vs]) fp
          | (RECV_ATTR_INT name | RECV_ATTR_LONG name | RECV_ATTR_STR name | RECV_ATTR_DATA name) as a :: ap =>
              match find (W_NAME name) with
              | L_EOF => Ret (-1, stored, [])
              | L_FOUND _ _ fp =>
                  match convert a fp with
                  | Some (v, fp) => scan_loop fuel flags ap NEXT (conversions + 1) (stored ++ [v]) fp
                  | None => Ret (-1, stored, skip_value fp)
                  end
              | L_STOP fp | L_CLOSED fp => Ret (conversions, stored, fp)
              end
          end
      | FILLING close hash_table =>
          let stored' := stored ++ [V_HASH hash_table] in
          match find (if close then W_CLOSE else W_HASH) with
          | L_EOF => Ret (-1, stored', [])
          | L_STOP fp => Ret (conversions, stored', fp)
          | L_CLOSED fp => scan_loop fuel flags ap NEXT conversions stored' fp
          | L_FOUND wanted_type name fp =>
              match attr_scan0_string fp with
              | None => Ret (-1, stored', [])
              | Some (value, fp) =>
                  let mode t := FILLING (match wanted_type with W_CLOSE => true | _ => false end) t in
                  found ← htable_locate hash_table name;
                  match found with
                  | Some _ =>
                      if has flags ATTR_FLAG_EXTRA then Ret (conversions, stored', fp)
                      else scan_loop fuel flags ap (mode hash_table) (conversions + 1) stored fp
                  | None =>
                      if ht_used hash_table >=? ATTR_HASH_LIMIT then Ret (conversions, stored', fp) else
                      '(_, hash_table) ← htable_enter hash_table name (Some value);
                      scan_loop fuel flags ap (mode hash_table) (conversions + 1) stored fp
                  end
              end
          end
      end
  end.

(** An iteration takes an argument or reads a string. *)
Definition attr_scan0 (flags : Z) (ap : list recv_attr) (fp : bytes) : outcome scan_result :=
  if negb (flags_ok flags) then Panic else
  match fp with
  | [] => Ret (0, [], [])
  | _ => scan_loop (S (length fp + length ap)) flags ap NEXT 0 [] fp
  end.

(** Is there more in this list?  The terminator is consumed. *)
Definition attr_scan_more0 (fp : bytes) : Z * bytes :=
  match fp with
  | [] => (-1, [])
  | c :: fp' => if c =? 0 then (0, fp') else (1, fp)
  end.

(** ** Lemmas *)

Lemma string_of_put s rest : Forall is_cchar s -> attr_scan0_string (put_string s ++ rest) = Some (s, rest).
Proof.
  intros Hs. unfold put_string. rewrite <- app_assoc. cbn [app].
  induction Hs as [|c s Hc Hs IH]; [done|]. cbn [app attr_scan0_string]. unfold is_cchar in Hc.
  rewrite (proj2 (Z.eqb_neq _ _)) by lia. by rewrite IH.
Qed.

(** A string that is read was there, up to its terminator. *)
Lemma string_inv fp : forall s fp', attr_scan0_string fp = Some (s, fp') -> fp = put_string s ++ fp' /\ 0 ∉ s.
Proof.
  induction fp as [|c fp IH]; intros s fp' H; [done|]. cbn [attr_scan0_string] in H.
  destruct (Z.eqb_spec c 0) as [->|Hc].
  - injection H as <- <-. split; [done|]. apply not_elem_of_nil.
  - destruct (attr_scan0_string fp) as [[s1 fp1]|]; [|done]. cbn in H. injection H as <- <-.
    destruct (IH s1 fp1 eq_refl) as [-> Hs]. split; [done|]. by rewrite not_elem_of_cons.
Qed.

Lemma string_suffix fp s fp' : attr_scan0_string fp = Some (s, fp') -> fp' `suffix_of` fp /\ (length fp' < length fp)%nat.
Proof.
  intros H. apply string_inv in H as [-> _]. split; [by exists (put_string s)|].
  unfold put_string. rewrite !length_app. cbn. lia.
Qed.

Lemma skip_value_suffix fp : skip_value fp `suffix_of` fp.
Proof.
  unfold skip_value. destruct (attr_scan0_string fp) as [[s fp']|] eqn:E; [|apply suffix_nil].
  by apply string_suffix in E as [].
Qed.

(** *** Numbers *)

Lemma decimal_loop_digits fuel : forall v, 0 <= v -> Forall (fun c => ISDIGIT c = true) (decimal_loop fuel v).
Proof.
  induction fuel as [|fuel IH]; intros v Hv; [constructor|]. cbn [decimal_loop]. apply Forall_app. split.
  - case_match; [constructor|]. apply IH. apply Z.div_pos; lia.
  - repeat constructor. unfold ISDIGIT, in_range. pose proof (Z.mod_pos_bound v 10).
    apply andb_true_iff. rewrite !Z.leb_le. lia.
Qed.

Lemma decimal_loop_value fuel : forall v, 0 <= v < 10 ^ Z.of_nat fuel -> digits_value (decimal_loop fuel v) = v.
Proof.
  induction fuel as [|fuel IH]; intros v Hv; [cbn in *; lia|]. cbn [decimal_loop]. unfold digits_value.
  rewrite foldl_app. cbn [foldl]. rewrite Nat2Z.inj_succ, Z.pow_succ_r in Hv by lia.
  destruct (Z.ltb_spec v 10) as [H|H].
  - cbn [foldl]. rewrite Z.mod_small by lia. lia.
  - fold (digits_value (decimal_loop fuel (v / 10))). rewrite IH by (split; [apply Z.div_pos|apply Z.div_lt_upper_bound]; lia).
    pose proof (Z.div_mod v 10). lia.
Qed.

Lemma decimal_digits v : 0 <= v -> Forall (fun c => ISDIGIT c = true) (decimal v).
Proof. apply decimal_loop_digits. Qed.

Lemma digit_range c : ISDIGIT c = true -> 48 <= c <= 57.
Proof. intros H. zb. lia. Qed.

Lemma digit_cchar c : ISDIGIT c = true -> is_cchar c.
Proof. intros H%digit_range. unfold is_cchar. lia. Qed.

Lemma decimal_cchar v : 0 <= v -> Forall is_cchar (decimal v).
Proof. intros Hv. eapply Forall_impl; [by apply decimal_digits|]. intros c. apply digit_cchar. Qed.

Lemma decimal_nonempty v : decimal v <> [].
Proof. unfold decimal. change 20%nat with (S 19). cbn [decimal_loop]. by intros [_ ?]%app_nil. Qed.

(** A text of digits is read as its value. *)
Lemma sscanf_digits w ds : ds <> [] -> Forall (fun c => ISDIGIT c = true) ds -> digits_value ds < 2 ^ 64 ->
  sscanf_number w ds = (1, as_unsigned w (digits_value ds)).
Proof.
  intros Hne Hds Hv. unfold sscanf_number.
  assert (Hsk : skip_spaces ds = ds).
  { destruct Hds as [|c ds Hc _]; [done|]. cbn. apply digit_range in Hc. unfold ISSPACE, in_range.
    rewrite (proj2 (Z.eqb_neq _ _)), (proj2 (Z.leb_gt c 13)) by lia. by rewrite andb_false_r. }
  rewrite Hsk. destruct ds as [|c ds']; [done|]. pose proof Hds as [Hc%digit_range _]%Forall_cons.
  rewrite (proj2 (Z.eqb_neq c _)), (proj2 (Z.eqb_neq c _)) by lia.
  assert (Hn : strspn ISDIGIT (c :: ds') = length (c :: ds')) by (apply strspn_all, forallb_Forall; done).
  rewrite Hn, firstn_all, skipn_all. cbn [length Nat.eqb].
  destruct (Z.geb_spec (digits_value (c :: ds')) (2 ^ 64)); [lia|done].
Qed.

Lemma number_of_put w v rest : w = 32 \/ w = 64 ->
  attr_scan0_number w (put_string (decimal (as_unsigned w v)) ++ rest) = Some (as_unsigned w v, rest).
Proof.
  intros Hw. assert (Hr : 0 <= as_unsigned w v < 2 ^ w) by (apply Z.mod_pos_bound; destruct Hw as [-> | ->]; lia).
  assert (H64 : 2 ^ w <= 2 ^ 64) by (destruct Hw as [-> | ->]; lia).
  unfold attr_scan0_number. rewrite string_of_put by (apply decimal_cchar; lia). cbn [mbind option_bind].
  assert (Hval : digits_value (decimal (as_unsigned w v)) = as_unsigned w v).
  { apply decimal_loop_value. split; [lia|]. eapply Z.lt_le_trans; [apply Hr|]. cbn in *. lia. }
  rewrite sscanf_digits, Hval; [|apply decimal_nonempty|apply decimal_digits; lia|rewrite Hval; lia].
  unfold as_unsigned at 1. by rewrite Z.mod_small.
Qed.

Lemma signed_unsigned w v : 0 < w -> - 2 ^ (w - 1) <= v < 2 ^ (w - 1) -> as_signed w (as_unsigned w v) = v.
Proof.
  intros Hw Hv. unfold as_signed, as_unsigned. rewrite Z.add_mod_idemp_l by (apply Z.pow_nonzero; lia).
  assert (2 ^ w = 2 * 2 ^ (w - 1)) by (rewrite <- Z.pow_succ_r by lia; f_equal; lia).
  rewrite Z.mod_small by lia. lia.
Qed.

(** *** Encoded data *)

Lemma to_b64_cchar i : is_cchar (cp Base64.to_b64 i) \/ (64 <= i)%nat.
Proof.
  destruct (Nat.lt_ge_cases i 64) as [H|H]; [left|by right].
  assert (Hall : forallb (fun i => in_range 1 255 (cp Base64.to_b64 i)) (seq 0 64) = true) by (vm_compute; reflexivity).
  rewrite forallb_forall in Hall. specialize (Hall i ltac:(apply in_seq; lia)). zb. lia.
Qed.

Lemma encoded_cchar data : Forall is_byte data -> Forall is_cchar (Base64.base64_encode [] data).
Proof.
  unfold Base64.base64_encode, Base64.base64_encode_opt. cbn [app Z.land Z.eqb].
  assert (Hsix : forall x, 0 <= x < 64 -> is_cchar (cp Base64.to_b64 (Z.to_nat x))).
  { intros x Hx. destruct (to_b64_cchar (Z.to_nat x)) as [?|?]; [done|lia]. }
  induction data as [|x|x y|x y z data IH] using list_ind3; intros Hd; decompose_Forall_hyps; cbn [Base64.encode_loop].
  - constructor.
  - destruct (Base64.sextets x 0 0) as (-> & -> & _); [done|unfold is_byte; lia..|]. unfold is_byte in *.
    repeat constructor; try (apply Hsix; plia); unfold is_cchar; lia.
  - destruct (Base64.sextets x y 0) as (-> & _ & -> & -> & _); [done|done|unfold is_byte; lia..|]. unfold is_byte in *.
    repeat constructor; try (apply Hsix; plia); unfold is_cchar; lia.
  - destruct (Base64.sextets x y z) as (-> & _ & -> & _ & -> & ->); [done..|]. unfold is_byte in *.
    repeat constructor; try (apply Hsix; plia). by apply IH.
Qed.

Lemma data_of_put data rest : Forall is_byte data ->
  attr_scan0_data (put_string (Base64.base64_encode [] data) ++ rest) = Some (data, rest).
Proof.
  intros Hd. unfold attr_scan0_data. rewrite string_of_put by (by apply encoded_cchar). cbn [mbind option_bind].
  by rewrite (base64_roundtrip data [] []).
Qed.

(** *** Tables *)

Definition enter_pair (t : HTABLE bytes) (item : bytes * bytes) : outcome (HTABLE bytes) :=
  '(_, t) ← htable_enter t item.1 (Some item.2); Ret t.
Fixpoint fill_table (t : HTABLE bytes) (items : list (bytes * bytes)) : outcome (HTABLE bytes) :=
  match items with
  | [] => Ret t
  | item :: items => t ← enter_pair t item; fill_table t items
  end.

Definition put_items (items : list (bytes * bytes)) : bytes := flat_map (fun item => put_string item.1 ++ put_string item.2) items.

(** A table of strings is a map. *)
Definition string_table (t : HTABLE bytes) (m : gmap bytes bytes) : Prop := represents t (Some <$> m).

Lemma enter_pair_ok t m k v : string_table t m -> m !! k = None ->
  exists x t', htable_enter t k (Some v) = Ret (x, t') /\ string_table t' (<[k := v]> m).
Proof.
  intros H Hk. destruct (represents_enter t _ k (Some v) H) as (x & t' & E & H' & _); [by rewrite lookup_fmap, Hk|].
  exists x, t'. split; [done|]. unfold string_table. by rewrite fmap_insert.
Qed.

Lemma fill_table_ok items : forall t m, string_table t m -> NoDup items.*1 -> (forall k, k ∈ items.*1 -> m !! k = None) ->
  exists t', fill_table t items = Ret t' /\ string_table t' (list_to_map items ∪ m).
Proof.
  induction items as [|[k v] items IH]; intros t m H Hnd Hnew.
  { exists t. split; [done|]. rewrite list_to_map_nil. by rewrite map_empty_union. }
  cbn [fmap list_fmap fst] in *. apply NoDup_cons in Hnd as [Hk Hnd].
  destruct (enter_pair_ok t m k v H) as (x & t1 & E & H1); [apply Hnew; by left|].
  destruct (IH t1 _ H1 Hnd) as (t' & E' & H').
  { intros j Hj. rewrite lookup_insert_ne by (intros ->; done). apply Hnew. by right. }
  exists t'. cbn [fill_table]. unfold enter_pair. cbn [fst snd]. rewrite E. cbn [mbind outcome_bind].
  split; [done|]. rewrite list_to_map_cons.
  replace (<[k:=v]> (list_to_map items) ∪ m) with (list_to_map items ∪ <[k:=v]> m); [done|].
  rewrite <- insert_union_r, insert_union_l; [done|]. by apply not_elem_of_list_to_map_1.
Qed.

(** What is sent of a table are its entries, in some order. *)
Lemma print_table_ok t m : string_table t m -> exists l items,
  htable_list t = Ret l /\ print_items l t = Ret (put_items items) /\ items ≡ₚ map_to_list m.
Proof.
  intros H. destruct (represents_list t _ H) as (l & E & _). destruct (represents_items t _ l H E) as [Hp Hin].
  assert (Hprint : forall l, (forall x, x ∈ l -> is_Some (ht_infos t !! x)) ->
    (forall x i, x ∈ l -> item_of (ht_infos t) x = Some i -> is_Some i.2) ->
    exists items, print_items l t = Ret (put_items items) /\ map (item_of (ht_infos t)) l = map (fun i => Some (i.1, Some i.2)) items).
  { clear. induction l as [|x l IH]; intros Hin Hv; [by exists []|].
    destruct (Hin x) as [info Hx]; [by left|]. destruct (Hv x (ht_key info, ht_value info)) as [v Ev]; [by left|unfold item_of; by rewrite Hx|].
    cbn in Ev. destruct IH as (items & Ei & Em); [intros y Hy; apply Hin; by right|intros y i Hy; apply Hv; by right|].
    exists ((ht_key info, v) :: items). cbn [print_items]. unfold info_at. rewrite Hx. cbn [mbind outcome_bind]. rewrite Ev, Ei. split.
    - cbn. by rewrite <- app_assoc.
    - cbn [map fst snd]. rewrite Em. f_equal. unfold item_of. rewrite Hx. cbn. by rewrite Ev. }
  assert (Hsome : forall z, z ∈ map Some (map_to_list (Some <$> m)) -> exists k v, z = Some (k, Some v) /\ (k, v) ∈ map_to_list m).
  { intros z (i & -> & Hi)%(list_elem_of_fmap Some). destruct i as [k v].
    apply elem_of_map_to_list in Hi. rewrite lookup_fmap in Hi. destruct (m !! k) as [w|] eqn:Ew; [|done]. injection Hi as <-.
    exists k, w. split; [done|]. by apply elem_of_map_to_list. }
  destruct (Hprint l Hin) as (items & Ei & Em).
  { intros x i Hx Hi. assert (Hz : Some i ∈ map Some (map_to_list (Some <$> m))).
    { rewrite <- Hp. rewrite <- Hi. by apply (list_elem_of_fmap_2 (item_of (ht_infos t))). }
    destruct (Hsome _ Hz) as (k & v & [= ->] & _). by eexists. }
  exists l, items. split; [done|]. split; [done|]. rewrite Em in Hp. rewrite map_to_list_fmap in Hp.
  apply (Permutation_map (fun z => match z with Some (k, Some v) => (k, v) | _ => ([], []) end)) in Hp.
  rewrite !map_map in Hp. cbn in Hp.
  erewrite (map_ext _ id) in Hp by (by intros []). rewrite map_id in Hp. rewrite Hp.
  replace (map _ _) with (map_to_list m); [done|]. clear. induction (map_to_list m) as [|[k v] l IH]; [done|]. cbn in *. by rewrite <- IH.
Qed.

(** *** The search *)

(** The name of an attribute. *)
Definition c_name (name : bytes) : Prop := name <> [] /\ Forall is_cchar name.

Lemma length_put s : length (put_string s) = S (length s).
Proof. unfold put_string. rewrite length_app. cbn. lia. Qed.

Lemma locate_fuel f1 : forall f2 flags w fp, (length fp < f1)%nat -> (length fp < f2)%nat -> locate f1 flags w fp = locate f2 flags w fp.
Proof.
  induction f1 as [|f1 IH]; intros f2 flags w fp H1 H2; [lia|]. destruct f2 as [|f2]; [lia|]. cbn [locate].
  destruct (attr_scan0_string fp) as [[name fp']|] eqn:E; [|done].
  apply string_suffix in E as [_ E]. pose proof (suffix_length _ _ (skip_value_suffix fp')) as Hs.
  rewrite (IH f2 flags w (skip_value fp')), (IH f2 flags W_CLOSE fp') by lia. done.
Qed.

Notation find flags w fp := (locate (S (length fp)) flags w fp).

Lemma find_name flags name rest : c_name name -> find flags (W_NAME name) (put_string name ++ rest) = L_FOUND (W_NAME name) name rest.
Proof.
  intros [Hn Hc]. cbn [locate]. rewrite string_of_put by done. rewrite bool_decide_eq_false_2 by done.
  by rewrite bool_decide_eq_true_2.
Qed.

Lemma find_end flags w rest : find flags w (put_string [] ++ rest) = L_STOP rest.
Proof. cbn [locate]. by rewrite string_of_put. Qed.

(** The attribute is not the one that is looked for. *)
Definition other (w : wanted) (name : bytes) : Prop :=
  match w with W_END => True | W_NAME wanted_name => wanted_name <> name | _ => False end.

Lemma find_skip flags w name value rest : has flags ATTR_FLAG_EXTRA = false -> other w name -> c_name name -> Forall is_cchar value ->
  find flags w (put_string name ++ put_string value ++ rest) = find flags w rest.
Proof.
  intros Hx Hw [Hn Hc] Hv. set (r := find flags w rest). cbn [locate]. rewrite string_of_put by done. rewrite bool_decide_eq_false_2, Hx by done.
  unfold skip_value. rewrite string_of_put by done.
  transitivity (locate (length (put_string name ++ put_string value ++ rest)) flags w rest).
  - destruct w; [done| |by destruct Hw..]. by rewrite bool_decide_eq_false_2.
  - unfold r. apply locate_fuel; rewrite ?length_app, ?length_put; lia.
Qed.

Lemma find_open flags rest : find flags W_HASH (put_string ATTR_NAME_OPEN ++ rest) = find flags W_CLOSE rest.
Proof.
  set (r := find flags W_CLOSE rest). cbn [locate]. rewrite string_of_put by (repeat constructor; unfold is_cchar; cbn; lia).
  rewrite bool_decide_eq_false_2, bool_decide_eq_true_2 by done. unfold r. apply locate_fuel; rewrite ?length_app, ?length_put; cbn; lia.
Qed.

Lemma find_close flags rest : find flags W_CLOSE (put_string ATTR_NAME_CLOSE ++ rest) = L_CLOSED rest.
Proof.
  cbn [locate]. rewrite string_of_put by (repeat constructor; unfold is_cchar; cbn; lia).
  by rewrite bool_decide_eq_false_2, bool_decide_eq_true_2.
Qed.

Lemma find_key flags key rest : c_name key -> key <> ATTR_NAME_CLOSE ->
  find flags W_CLOSE (put_string key ++ rest) = L_FOUND W_CLOSE key rest.
Proof.
  intros [Hn Hc] Hk. cbn [locate]. rewrite string_of_put by done. by rewrite !bool_decide_eq_false_2.
Qed.

(** *** Tables on the stream *)

(** What a sender may put in a table; [m] is what the receiver has already. *)
Record sendable (m : gmap bytes bytes) (item : bytes * bytes) : Prop := mk_sendable {
  sn_key : c_name item.1;
  sn_close : item.1 <> ATTR_NAME_CLOSE;
  sn_value : Forall is_cchar item.2;
  sn_new : m !! item.1 = None
}.

Lemma scan_items flags ap items : forall t m fuel conversions stored rest,
  string_table t m -> NoDup items.*1 -> Forall (sendable m) items -> Z.of_nat (length items + size m) <= ATTR_HASH_LIMIT ->
  (length items < fuel)%nat ->
  exists t', fill_table t items = Ret t' /\
    scan_loop fuel flags ap (FILLING true t) conversions stored (put_items items ++ put_string ATTR_NAME_CLOSE ++ rest)
    = scan_loop (fuel - S (length items)) flags ap NEXT (conversions + Z.of_nat (length items)) (stored ++ [V_HASH t']) rest.
Proof.
  induction items as [|[k v] items IH]; intros t m fuel conversions stored rest Ht Hnd Hs Hlim Hf; (destruct fuel as [|fuel]; [lia|]).
  - exists t. split; [done|]. cbn [put_items flat_map app scan_loop]. rewrite find_close. rewrite Nat.sub_succ, Nat.sub_0_r, Z.add_0_r. done.
  - apply Forall_cons in Hs as [[Hk Hc Hv Hm] Hs]. cbn [fst snd fmap list_fmap length] in *. apply NoDup_cons in Hnd as [Hkn Hnd].
    destruct (enter_pair_ok t m k v Ht Hm) as (x & t1 & E & H1).
    destruct (IH t1 (<[k:=v]> m) fuel (conversions + 1) stored rest H1 Hnd) as (t' & Et & IH').
    { rewrite Forall_forall in Hs |- *. intros [j w] Hin. destruct (Hs _ Hin) as [A B C D]. split; [done..|]. cbn [fst] in *.
      rewrite lookup_insert_ne; [done|]. intros ->. apply Hkn. by apply (list_elem_of_fmap_2 fst _ (j, w)). }
    { rewrite map_size_insert_None by done. lia. }
    { lia. }
    exists t'. cbn [fill_table]. unfold enter_pair. cbn [fst snd]. rewrite E. cbn [mbind outcome_bind]. split; [done|].
    cbn [put_items flat_map fst snd]. fold (put_items items). rewrite <- !app_assoc. cbn [scan_loop].
    rewrite find_key by done. rewrite string_of_put by done.
    destruct (represents_locate t _ k Ht) as (r & -> & Hr). cbn [mbind outcome_bind].
    destruct r as [y|]. { destruct Hr as [Hr _]. destruct Hr as [z Hz]; [by eexists|]. by rewrite lookup_fmap, Hm in Hz. }
    destruct (Z.geb_spec (ht_used t) ATTR_HASH_LIMIT) as [Hu|Hu].
    { rewrite (represents_used _ _ Ht), map_size_fmap in Hu. lia. }
    rewrite E. cbn [mbind outcome_bind]. rewrite IH'. f_equal; lia.
Qed.

(** ** The contract of the protocol

    What a receiver gets when it asks a sender for attributes. *)

Definition int_range (w v : Z) : Prop := - 2 ^ (w - 1) <= v < 2 ^ (w - 1).

(** A single value that is sent, and the request and the result that go with it. *)
Inductive answers : send_attr -> recv_attr -> recv_value -> Prop :=
  | ans_int name v : int_range 32 v -> answers (SEND_ATTR_INT name v) (RECV_ATTR_INT name) (V_INT v)
  | ans_long name v : int_range 64 v -> answers (SEND_ATTR_LONG name v) (RECV_ATTR_LONG name) (V_LONG v)
  | ans_str name s : Forall is_cchar s -> answers (SEND_ATTR_STR name s) (RECV_ATTR_STR name) (V_STR s)
  | ans_data name data : Forall is_byte data -> answers (SEND_ATTR_DATA name data) (RECV_ATTR_DATA name) (V_DATA data).

Definition send_name (s : send_attr) : option bytes :=
  match s with
  | SEND_ATTR_INT name _ | SEND_ATTR_LONG name _ | SEND_ATTR_STR name _ | SEND_ATTR_DATA name _ => Some name
  | _ => None
  end.
Definition recv_name (r : recv_attr) : option bytes :=
  match r with
  | RECV_ATTR_INT name | RECV_ATTR_LONG name | RECV_ATTR_STR name | RECV_ATTR_DATA name => Some name
  | _ => None
  end.

(** The first of the requests is for something else than [name]. *)
Definition unwanted (rf : Z) (rs : list recv_attr) (name : bytes) : Prop :=
  match rs with
  | [] => has rf ATTR_FLAG_MORE = false
  | r :: _ => exists wanted_name, recv_name r = Some wanted_name /\ wanted_name <> name
  end.

(** The attributes that are sent with flags [pf] answer the requests that are made with
    flags [rf]: each result satisfies its description, and [n] is the number of
    conversions.  Without ATTR_FLAG_EXTRA, attributes that are not requested do not
    matter; a list may end before the requests do. *)
Inductive delivers (pf rf : Z) : list send_attr -> list recv_attr -> list (recv_value -> Prop) -> Z -> Prop :=
  | dl_nil : delivers pf rf [] [] [] 0
  | dl_value s r v name ss rs ps n :
      answers s r v -> send_name s = Some name -> c_name name -> delivers pf rf ss rs ps n ->
      delivers pf rf (s :: ss) (r :: rs) ((fun v' => v' = v) :: ps) (1 + n)
  | dl_func print_fn scan_fn wire vs ret ss rs ps n :
      print_fn (Z.lor pf ATTR_FLAG_MORE) = Ret wire ->
      (forall rest, scan_fn (Z.lor rf ATTR_FLAG_MORE) (wire ++ rest) = Ret (ret, vs, rest)) -> wire <> [] -> 0 <= ret ->
      delivers pf rf ss rs ps n ->
      delivers pf rf (SEND_ATTR_FUNC print_fn :: ss) (RECV_ATTR_FUNC scan_fn :: rs) ((fun v' => v' = V_FUNC vs) :: ps) (1 + n)
  | dl_hash table table' m m' ss rs ps n :
      string_table table m -> string_table table' m' -> Forall (sendable m') (map_to_list m) ->
      Z.of_nat (size m + size m') <= ATTR_HASH_LIMIT -> delivers pf rf ss rs ps n ->
      delivers pf rf (SEND_ATTR_HASH table :: ss) (RECV_ATTR_HASH table' :: rs)
        ((fun v' => exists t, v' = V_HASH t /\ string_table t (m ∪ m')) :: ps) (Z.of_nat (size m) + n)
  | dl_extra s r v name ss rs ps n :
      answers s r v -> send_name s = Some name -> c_name name ->
      has rf ATTR_FLAG_EXTRA = false -> unwanted rf rs name -> delivers pf rf ss rs ps n ->
      delivers pf rf (s :: ss) rs ps n
  | dl_missing r wanted_name rs : recv_name r = Some wanted_name -> has pf ATTR_FLAG_MORE = false -> delivers pf rf [] (r :: rs) [] 0.

(** A single value on the wire: its name and a text without null byte, which the requested
    conversion reads. *)
Lemma answers_wire pf s r v name : answers s r v -> send_name s = Some name ->
  recv_name r = Some name /\ exists text, print_attr pf s = Ret (put_string name ++ put_string text) /\ Forall is_cchar text /\
    forall rest, convert r (put_string text ++ rest) = Some (v, rest).
Proof.
  intros H Hn. destruct H as [n v Hv|n v Hv|n str Hs|n data Hd]; injection Hn as ->; (split; [done|]).
  - exists (decimal (as_unsigned 32 v)). split; [done|]. split; [apply decimal_cchar, Z.mod_pos_bound; lia|]. intros rest.
    cbn [convert]. rewrite number_of_put by lia. cbn [mbind option_bind]. by rewrite signed_unsigned by (done || lia).
  - exists (decimal (as_unsigned 64 v)). split; [done|]. split; [apply decimal_cchar, Z.mod_pos_bound; lia|]. intros rest.
    cbn [convert]. rewrite number_of_put by lia. cbn [mbind option_bind]. by rewrite signed_unsigned by (done || lia).
  - exists str. split; [done|]. split; [done|]. intros rest. cbn [convert]. by rewrite string_of_put.
  - exists (Base64.base64_encode [] data). split; [done|]. split; [by apply encoded_cchar|]. intros rest. cbn [convert]. by rewrite data_of_put.
Qed.

(** What a list ends with. *)
Definition terminator (pf : Z) : bytes := if has pf ATTR_FLAG_MORE then [] else put_string [].

(** One step of the scan, for a request of a single value that is there. *)
Lemma scan_value fuel flags r rs name v text conversions stored rest :
  recv_name r = Some name -> c_name name -> Forall is_cchar text -> (forall rest, convert r (put_string text ++ rest) = Some (v, rest)) ->
  scan_loop (S fuel) flags (r :: rs) NEXT conversions stored ((put_string name ++ put_string text) ++ rest)
  = scan_loop fuel flags rs NEXT (conversions + 1) (stored ++ [v]) rest.
Proof.
  intros Hr Hn Ht Hc. rewrite <- app_assoc. destruct r; try discriminate Hr; injection Hr as ->;
    cbn [scan_loop]; rewrite find_name, Hc by done; done.
Qed.

(** An attribute that is not requested is skipped. *)
Lemma scan_extra fuel rf rs name text conversions stored rest : has rf ATTR_FLAG_EXTRA = false -> unwanted rf rs name -> c_name name ->
  Forall is_cchar text ->
  scan_loop (S fuel) rf rs NEXT conversions stored ((put_string name ++ put_string text) ++ rest)
  = scan_loop (S fuel) rf rs NEXT conversions stored rest.
Proof.
  intros Hx Hu Hn Ht. rewrite <- app_assoc. destruct rs as [|r rs]; cbn [unwanted] in Hu.
  - cbn [scan_loop]. by rewrite Hu, find_skip.
  - destruct Hu as (wanted_name & Hr & Hw). destruct r; try discriminate Hr; injection Hr as ->;
      cbn [scan_loop]; rewrite find_skip by done; done.
Qed.

(** A table that is sent. *)
Lemma scan_table pf rf rs table table' m m' : string_table table m -> string_table table' m' ->
  Forall (sendable m') (map_to_list m) -> Z.of_nat (size m + size m') <= ATTR_HASH_LIMIT ->
  exists wire t', print_attr pf (SEND_ATTR_HASH table) = Ret wire /\ string_table t' (m ∪ m') /\ (size m + 2 < length wire)%nat /\
    forall fuel conversions stored rest, (size m + 1 < fuel)%nat ->
    scan_loop fuel rf (RECV_ATTR_HASH table' :: rs) NEXT conversions stored (wire ++ rest)
    = scan_loop (fuel - (2 + size m)) rf rs NEXT (conversions + Z.of_nat (size m)) (stored ++ [V_HASH t']) rest.
Proof.
  intros Ht Ht' Hs Hlim. destruct (print_table_ok _ _ Ht) as (l & items & El & Ei & Hp).
  assert (Hlen : length items = size m) by (rewrite Hp; apply length_map_to_list).
  assert (Hnd : NoDup items.*1) by (rewrite Hp; apply NoDup_fst_map_to_list).
  assert (Hs' : Forall (sendable m') items) by (by rewrite Hp).
  destruct (fill_table_ok items table' m') as (t' & Et & Htt); [done|done| |].
  { intros k [[k' v] [-> Hin]]%(list_elem_of_fmap fst). rewrite Forall_forall in Hs'. by apply (Hs' _ Hin). }
  assert (Hu : list_to_map items = m) by (rewrite <- (list_to_map_to_list m); by apply list_to_map_proper). rewrite Hu in Htt.
  exists (put_string ATTR_NAME_OPEN ++ put_items items ++ put_string ATTR_NAME_CLOSE), t'.
  split; [cbn [print_attr]; rewrite El; cbn [mbind outcome_bind]; by rewrite Ei|]. split; [done|]. split.
  { rewrite !length_app, !length_put, <- Hlen. assert (length items <= length (put_items items))%nat; [|cbn; lia].
    clear. unfold put_items. induction items as [|item items IH]; [done|]. cbn [flat_map length].
    rewrite !length_app, !length_put. lia. }
  intros fuel conversions stored rest Hf. rewrite <- !app_assoc. destruct fuel as [|[|fuel]]; [lia..|].
  assert (Hopen : scan_loop (S (S fuel)) rf (RECV_ATTR_HASH table' :: rs) NEXT conversions stored (put_string ATTR_NAME_OPEN ++ put_items items ++ put_string ATTR_NAME_CLOSE ++ rest)
    = scan_loop (S fuel) rf rs (FILLING true table') conversions stored (put_items items ++ put_string ATTR_NAME_CLOSE ++ rest)).
  { cbn [scan_loop]. by rewrite find_open. }
  rewrite Hopen. destruct (scan_items rf rs items table' m' (S fuel) conversions stored rest) as (t1 & Et1 & ->); [done|done|done|lia|lia|].
  rewrite Et in Et1. injection Et1 as <-. rewrite Hlen. done.
Qed.

Lemma put_nonempty name text wire rest : ((put_string name ++ put_string text) ++ wire) ++ rest <> [].
Proof. unfold put_string. by destruct name. Qed.

(** The scan of an attribute list, in the middle of a larger one. *)
Lemma scan_delivers pf rf ss rs ps n : has pf ATTR_FLAG_MORE = has rf ATTR_FLAG_MORE -> delivers pf rf ss rs ps n ->
  exists wire vs, print_attrs pf ss = Ret wire /\ Forall2 (fun (p : recv_value -> Prop) v => p v) ps vs /\
    (wire ++ terminator pf = [] -> n = 0 /\ vs = []) /\
    forall fuel conversions stored rest, (length (wire ++ terminator pf ++ rest) + length rs < fuel)%nat ->
    scan_loop fuel rf rs NEXT conversions stored (wire ++ terminator pf ++ rest) = Ret (conversions + n, stored ++ vs, rest).
Proof.
  intros Hmore H. induction H as [|s r v name ss rs ps n Ha Hs Hn _ IH|print_fn scan_fn wire1 vs1 ret ss rs ps n Hp Hscan Hwire Hret _ IH
    |table table' m m' ss rs ps n Ht Ht' Hsend Hlim _ IH|s r v name ss rs ps n Ha Hs Hn Hx Hu _ IH|r wanted_name rs Hr Hpm].
  - exists [], []. split_and!; [done|constructor|done|]. intros fuel conversions stored rest Hf. destruct fuel as [|fuel]; [lia|].
    cbn [scan_loop app]. rewrite Z.add_0_r, app_nil_r. unfold terminator. rewrite Hmore. destruct (has rf ATTR_FLAG_MORE); [done|].
    by rewrite find_end.
  - destruct IH as (wire & vs & Ew & Hvs & _ & IH). destruct (answers_wire pf s r v name Ha Hs) as (Hr & text & Et & Hc & Hconv).
    exists ((put_string name ++ put_string text) ++ wire), (v :: vs). split_and!; [|by constructor|by intros ?%put_nonempty|].
    { cbn [print_attrs]. rewrite Et. cbn [mbind outcome_bind]. by rewrite Ew. }
    intros fuel conversions stored rest Hf. rewrite <- (app_assoc _ wire) in *. destruct fuel as [|fuel]; [lia|].
    rewrite (scan_value fuel rf r rs name v) by done. rewrite IH.
    + by rewrite <- Z.add_assoc, <- app_assoc.
    + rewrite length_app in Hf. cbn [length] in Hf. lia.
  - destruct IH as (wire & vs & Ew & Hvs & _ & IH). exists (wire1 ++ wire), (V_FUNC vs1 :: vs). split_and!; [|by constructor|by intros [[? _]%app_nil _]%app_nil|].
    { cbn [print_attrs print_attr]. rewrite Hp. cbn [mbind outcome_bind]. by rewrite Ew. }
    intros fuel conversions stored rest Hf. rewrite <- app_assoc in *. destruct fuel as [|fuel]; [lia|].
    cbn [scan_loop]. rewrite Hscan. cbn [mbind outcome_bind]. rewrite (proj2 (Z.ltb_ge _ _)) by done. rewrite IH.
    + by rewrite <- Z.add_assoc, <- app_assoc.
    + rewrite length_app in Hf. cbn [length] in Hf. lia.
  - destruct IH as (wire & vs & Ew & Hvs & _ & IH).
    destruct (scan_table pf rf rs table table' m m' Ht Ht' Hsend Hlim) as (wire1 & t' & Ew1 & Htt & Hlen & Hs1).
    exists (wire1 ++ wire), (V_HASH t' :: vs). split_and!; [|constructor; [by exists t'|done]|intros [[-> _]%app_nil _]%app_nil; cbn in Hlen; lia|].
    { cbn [print_attrs]. rewrite Ew1. cbn [mbind outcome_bind]. by rewrite Ew. }
    intros fuel conversions stored rest Hf. rewrite <- app_assoc in *. rewrite length_app in Hf. cbn [length] in Hf.
    rewrite Hs1 by lia. rewrite IH by (rewrite !length_app in *; lia). by rewrite <- Z.add_assoc, <- app_assoc.
  - destruct IH as (wire & vs & Ew & Hvs & _ & IH). destruct (answers_wire pf s r v name Ha Hs) as (_ & text & Et & Hc & _).
    exists ((put_string name ++ put_string text) ++ wire), vs. split_and!; [|done|by intros ?%put_nonempty|].
    { cbn [print_attrs]. rewrite Et. cbn [mbind outcome_bind]. by rewrite Ew. }
    intros fuel conversions stored rest Hf. rewrite <- (app_assoc _ wire) in *. destruct fuel as [|fuel]; [lia|].
    rewrite scan_extra by done. apply IH. rewrite length_app in Hf. lia.
  - exists [], []. split_and!; [done|constructor|done|]. intros fuel conversions stored rest Hf. destruct fuel as [|fuel]; [lia|].
    rewrite Z.add_0_r, app_nil_r. unfold terminator. rewrite Hpm. cbn [app].
    destruct r; try discriminate Hr; cbn [scan_loop]; by rewrite find_end.
Qed.

(** A sender and a receiver that agree. *)
Lemma attr_exchange pf rf ss rs ps n : flags_ok pf = true -> flags_ok rf = true -> has pf ATTR_FLAG_MORE = has rf ATTR_FLAG_MORE ->
  delivers pf rf ss rs ps n ->
  exists wire vs, attr_print0 pf ss = Ret wire /\ Forall2 (fun (p : recv_value -> Prop) v => p v) ps vs /\
    (n <> 0 -> wire <> []) /\ forall rest, attr_scan0 rf rs (wire ++ rest) = Ret (n, vs, rest).
Proof.
  intros Hpf Hrf Hmore H. destruct (scan_delivers pf rf ss rs ps n Hmore H) as (wire & vs & Ew & Hvs & Hnil & Hscan).
  exists (wire ++ terminator pf), vs. split_and!; [|done|intros Hn E; by destruct (Hnil E)|].
  - unfold attr_print0. rewrite Hpf. cbn [negb]. by rewrite Ew.
  - intros rest. unfold attr_scan0. rewrite Hrf. cbn [negb]. destruct ((wire ++ terminator pf) ++ rest) as [|c fp] eqn:E.
    + apply app_nil in E as [E ->]. by destruct (Hnil E) as [-> ->].
    + rewrite <- E, <- app_assoc, Hscan; [done|]. lia.
Qed.

(** The same for print and scan functions that use one list each. *)
Lemma has_more flags : has (Z.lor flags ATTR_FLAG_MORE) ATTR_FLAG_MORE = true.
Proof.
  unfold has, ATTR_FLAG_MORE. rewrite flag_test by lia. rewrite Z.lor_spec. cbn. by rewrite orb_true_r.
Qed.

(** ** Input from anyone *)

(** A scan function leaves the rest of its stream. *)
Definition scan_fn_ok (scan_fn : Z -> bytes -> outcome scan_result) : Prop :=
  forall flags fp, flags_ok flags = true -> Forall is_byte fp ->
  exists ret vs fp', scan_fn flags fp = Ret (ret, vs, fp') /\ fp' `suffix_of` fp.

Definition recv_ok (r : recv_attr) : Prop :=
  match r with
  | RECV_ATTR_FUNC scan_fn => scan_fn_ok scan_fn
  | RECV_ATTR_HASH table => exists m, string_table table m
  | _ => True
  end.
Definition is_table (r : recv_attr) : bool := match r with RECV_ATTR_HASH _ => true | _ => false end.

(** A result has the type that was requested: a number in range, a C string, or what a scan
    function has stored in a scan that succeeded. *)
Definition typed (r : recv_attr) (v : recv_value) : Prop :=
  match r, v with
  | RECV_ATTR_INT _, V_INT v => int_range 32 v
  | RECV_ATTR_LONG _, V_LONG v => int_range 64 v
  | RECV_ATTR_STR _, V_STR s => Forall is_cchar s
  | RECV_ATTR_DATA _, V_DATA _ => True
  | RECV_ATTR_FUNC scan_fn, V_FUNC vs => exists flags fp ret fp', flags_ok flags = true /\ Forall is_byte fp /\ scan_fn flags fp = Ret (ret, vs, fp') /\ 0 <= ret
  | RECV_ATTR_HASH _, V_HASH table => exists m, string_table table m
  | _, _ => False
  end.

Lemma flags_ok_more flags : flags_ok flags = true -> flags_ok (Z.lor flags ATTR_FLAG_MORE) = true.
Proof.
  unfold flags_ok. rewrite !Z.eqb_eq. intros H. rewrite Z.land_comm, Z.land_lor_distr_r, (Z.land_comm _ flags), H. done.
Qed.

Lemma signed_range w v : 0 < w -> int_range w (as_signed w v).
Proof.
  intros Hw. unfold int_range, as_signed. pose proof (Z.mod_pos_bound (v + 2 ^ (w - 1)) (2 ^ w) ltac:(lia)).
  assert (2 ^ w = 2 * 2 ^ (w - 1)) by (rewrite <- Z.pow_succ_r by lia; f_equal; lia). lia.
Qed.

Lemma string_cchar fp s fp' : Forall is_byte fp -> attr_scan0_string fp = Some (s, fp') -> Forall is_cchar s.
Proof.
  intros Hfp H. apply string_inv in H as [-> Hs]. apply Forall_app in Hfp as [Hfp _]. unfold put_string in Hfp.
  apply Forall_app in Hfp as [Hfp _]. rewrite Forall_forall in *. intros c Hc. specialize (Hfp c Hc).
  assert (c <> 0) by (by intros ->). unfold is_byte, is_cchar in *. lia.
Qed.

Lemma locate_suffix fuel : forall flags w fp,
  match locate fuel flags w fp with
  | L_FOUND w' name fp' => fp' `suffix_of` fp /\ (length fp' < length fp)%nat /\ (w = W_END -> False)
  | L_CLOSED fp' => fp' `suffix_of` fp /\ (length fp' < length fp)%nat /\ (w = W_HASH \/ w = W_CLOSE)
  | L_STOP fp' => fp' `suffix_of` fp
  | L_EOF => True
  end.
Proof.
  induction fuel as [|fuel IH]; intros flags w fp; [done|]. cbn [locate].
  destruct (attr_scan0_string fp) as [[name fp1]|] eqn:E; [|done]. apply string_suffix in E as [Hs Hl].
  assert (Hstep : forall w' fp2, fp2 `suffix_of` fp1 -> (w' = w \/ (w = W_HASH /\ w' = W_CLOSE)) ->
    match locate fuel flags w' fp2 with
    | L_FOUND w' name fp' => fp' `suffix_of` fp /\ (length fp' < length fp)%nat /\ (w = W_END -> False)
    | L_CLOSED fp' => fp' `suffix_of` fp /\ (length fp' < length fp)%nat /\ (w = W_HASH \/ w = W_CLOSE)
    | L_STOP fp' => fp' `suffix_of` fp
    | L_EOF => True
    end).
  { intros w' fp2 H2 Hw. specialize (IH flags w' fp2). pose proof (suffix_length _ _ H2).
    destruct (locate fuel flags w' fp2); [| | |done].
    - destruct IH as (H3 & H4 & H5). split_and!; [by do 2 (etrans; [eassumption|])|lia|]. intros ->. by destruct Hw as [-> | [? _]]; [apply H5|].
    - destruct IH as (H3 & H4 & H5). split_and!; [by do 2 (etrans; [eassumption|])|lia|]. destruct Hw as [-> | [-> _]]; [done|by left].
    - by do 2 (etrans; [eassumption|]). }
  pose proof (skip_value_suffix fp1) as Hskip.
  destruct (bool_decide (name = [])); [done|]. destruct w as [|wanted_name| |].
  - destruct (has flags ATTR_FLAG_EXTRA); [done|]. apply Hstep; [done|by left].
  - destruct (bool_decide (wanted_name = name)); [by split_and!|]. destruct (has flags ATTR_FLAG_EXTRA); [done|]. apply Hstep; [done|by left].
  - destruct (bool_decide (name = ATTR_NAME_OPEN)); [|by split_and!]. apply Hstep; [done|by right].
  - destruct (bool_decide (name = ATTR_NAME_CLOSE)); [|by split_and!]. split_and!; [done|done|by right].
Qed.

Lemma convert_ok r name fp v fp' : recv_name r = Some name -> Forall is_byte fp -> convert r fp = Some (v, fp') -> fp' `suffix_of` fp /\ typed r v.
Proof.
  intros Hr Hfp H. destruct r; try discriminate Hr; cbn [convert] in H.
  1,2: unfold attr_scan0_number in H; destruct (attr_scan0_string fp) as [[s fp1]|] eqn:E; [|done]; cbn [mbind option_bind] in H;
    destruct (sscanf_number _ s) as [c v1]; destruct (negb (c =? 1)); [done|]; cbn in H; injection H as <- <-;
    split; [by apply string_suffix in E as []|apply signed_range; lia].
  - destruct (attr_scan0_string fp) as [[s fp1]|] eqn:E; [|done]. cbn in H. injection H as <- <-.
    split; [by apply string_suffix in E as []|by eapply string_cchar].
  - unfold attr_scan0_data in H. destruct (attr_scan0_string fp) as [[s fp1]|] eqn:E; [|done]. cbn [mbind option_bind] in H.
    destruct (Base64.base64_decode [] s); [|done]. cbn in H. injection H as <- <-. split; [by apply string_suffix in E as []|done].
Qed.

(** What a scan promises: it returns, having read a part of the stream; and when there are
    no tables, its result counts the requests that are answered. *)
Definition scan_post (ap : list recv_attr) (conversions : Z) (stored : list recv_value) (fp : bytes) (next : bool) (o : outcome scan_result) : Prop :=
  exists ret vs fp', o = Ret (ret, stored ++ vs, fp') /\ fp' `suffix_of` fp /\ -1 <= ret /\
    (next = true -> forallb (fun r => negb (is_table r)) ap = true ->
     ret <= conversions + Z.of_nat (length ap) /\ (ret = conversions + Z.of_nat (length ap) -> Forall2 typed ap vs)).

Lemma post_done ap conversions stored fp next ret fp' vs : fp' `suffix_of` fp -> -1 <= ret ->
  (next = true -> ret < conversions + Z.of_nat (length ap) \/ (ret <= conversions + Z.of_nat (length ap) /\ ap = [] /\ vs = [])) ->
  scan_post ap conversions stored fp next (Ret (ret, stored ++ vs, fp')).
Proof.
  intros Hs Hr H. exists ret, vs, fp'. split_and!; [done..|]. intros Hn _. destruct (H Hn) as [H1|(H1 & -> & ->)]; [|done]. lia.
Qed.

(** After a conversion. *)
Lemma post_step r ap conversions stored v fp fp' o : typed r v -> fp' `suffix_of` fp ->
  scan_post ap (conversions + 1) (stored ++ [v]) fp' true o -> scan_post (r :: ap) conversions stored fp true o.
Proof.
  intros Hv Hs (ret & vs & fp2 & -> & Hs2 & Hr & H). exists ret, (v :: vs), fp2. rewrite <- app_assoc.
  split_and!; [done|by etrans|done|]. intros _ Hap. cbn [forallb] in Hap. apply andb_true_iff in Hap as [_ Hap].
  destruct (H eq_refl Hap) as [H1 H2]. cbn [length]. split; [lia|]. intros E. constructor; [done|]. apply H2. lia.
Qed.

(** Inside or after a table, only the end of the scan matters. *)
Lemma post_table r ap ap' conversions conversions' stored stored' v fp fp' next next' o : is_table r = true \/ next = false ->
  stored' = stored ++ v -> fp' `suffix_of` fp ->
  scan_post ap conversions' stored' fp' next' o -> scan_post (if next then r :: ap' else ap') conversions stored fp next o.
Proof.
  intros Ht -> Hs (ret & vs & fp2 & -> & Hs2 & Hr & _). exists ret, (v ++ vs), fp2. rewrite <- app_assoc.
  split_and!; [done|by etrans|done|]. intros -> Hap. destruct Ht as [Ht|Ht]; [|done]. cbn [forallb] in Hap. by rewrite Ht in Hap.
Qed.

Lemma suffix_is_byte fp fp' : Forall is_byte fp -> fp' `suffix_of` fp -> Forall is_byte fp'.
Proof. intros H [k ->]. by apply Forall_app in H as [_ ?]. Qed.

(** A request of a single value; [next] is the rest of the scan. *)
Lemma value_post r name ap flags conversions stored fp (next : recv_value -> bytes -> outcome scan_result) :
  recv_name r = Some name -> Forall is_byte fp -> 0 <= conversions ->
  (forall v fp', fp' `suffix_of` fp -> scan_post ap (conversions + 1) (stored ++ [v]) fp' true (next v fp')) ->
  scan_post (r :: ap) conversions stored fp true
    match find flags (W_NAME name) fp with
    | L_EOF => Ret (-1, stored, [])
    | L_FOUND _ _ fp => match convert r fp with Some (v, fp) => next v fp | None => Ret (-1, stored, skip_value fp) end
    | L_STOP fp | L_CLOSED fp => Ret (conversions, stored, fp)
    end.
Proof.
  intros Er Hfp Hc Hnext.
  assert (Hend : forall ret fp', fp' `suffix_of` fp -> -1 <= ret <= conversions -> scan_post (r :: ap) conversions stored fp true (Ret (ret, stored, fp'))).
  { intros ret fp' Hs Hret. rewrite <- (app_nil_r stored) at 2. apply post_done; [done|lia|]. intros _. left. cbn [length]. lia. }
  pose proof (locate_suffix (S (length fp)) flags (W_NAME name) fp) as Hloc.
  destruct (find flags (W_NAME name) fp) as [w n fp1|fp1|fp1|].
  - destruct Hloc as (Hs & Hl & _). destruct (convert r fp1) as [[v fp2]|] eqn:Ec.
    + destruct (convert_ok r name fp1 v fp2 Er) as [Hs2 Hv]; [by eapply suffix_is_byte|done|].
      eapply (post_step r ap _ _ v fp fp2); [done|by etrans|]. apply Hnext. by etrans.
    + apply Hend; [|lia]. etrans; [apply skip_value_suffix|done].
  - destruct Hloc as (Hs & _). apply Hend; [done|lia].
  - apply Hend; [done|lia].
  - apply Hend; [apply suffix_nil|lia].
Qed.

(** An entry of a table. *)
Lemma entry_post ap flags table m conversions stored name value fp (next : Z -> HTABLE bytes -> outcome scan_result) fp' :
  string_table table m -> fp' `suffix_of` fp -> 0 <= conversions ->
  (forall conversions' t m', 0 <= conversions' -> string_table t m' -> scan_post ap conversions stored fp false (next conversions' t)) ->
  scan_post ap conversions stored fp false
    (found ← htable_locate table name;
     match found with
     | Some _ => if has flags ATTR_FLAG_EXTRA then Ret (conversions, stored ++ [V_HASH table], fp') else next (conversions + 1) table
     | None =>
         if ht_used table >=? ATTR_HASH_LIMIT then Ret (conversions, stored ++ [V_HASH table], fp') else
         '(_, table) ← htable_enter table name (Some value); next (conversions + 1) table
     end).
Proof.
  intros Hm Hs Hc Hnext. destruct (represents_locate table _ name Hm) as (found & -> & Hfound). cbn [mbind outcome_bind].
  assert (Hstop : scan_post ap conversions stored fp false (Ret (conversions, stored ++ [V_HASH table], fp'))) by (apply post_done; [done|lia|done]).
  destruct found as [x|].
  - destruct (has flags ATTR_FLAG_EXTRA); [done|]. apply (Hnext _ _ m); [lia|done].
  - destruct (ht_used table >=? ATTR_HASH_LIMIT); [done|].
    assert (Hmn : m !! name = None).
    { destruct (m !! name) eqn:Emn; [|done]. destruct Hfound as [_ Hfound]. destruct Hfound as [? [=]]. rewrite lookup_fmap, Emn. by eexists. }
    destruct (enter_pair_ok table m name value Hm Hmn) as (x & t' & -> & Ht'). cbn [mbind outcome_bind]. eapply Hnext; [lia|done].
Qed.

Definition mode_ok (mode : filling) : Prop := match mode with NEXT => True | FILLING _ table => exists m, string_table table m end.
Definition mode_next (mode : filling) : bool := match mode with NEXT => true | _ => false end.

Lemma scan_loop_total fuel : forall flags ap mode conversions stored fp, flags_ok flags = true -> Forall recv_ok ap -> mode_ok mode ->
  Forall is_byte fp -> (length ap + length fp < fuel)%nat -> 0 <= conversions ->
  scan_post ap conversions stored fp (mode_next mode) (scan_loop fuel flags ap mode conversions stored fp).
Proof.
  induction fuel as [|fuel IH]; intros flags ap mode conversions stored fp Hfl Hap Hm Hfp Hf Hc; [lia|]. cbn [scan_loop].
  pose proof (fun w => locate_suffix (S (length fp)) flags w fp) as Hloc. remember (S (length fp)) as k eqn:Ek.
  destruct mode as [|close table].
  - destruct ap as [|r ap].
    { destruct (has flags ATTR_FLAG_MORE).
      { rewrite <- (app_nil_r stored) at 2. apply post_done; [done|lia|]. intros _. right. cbn. split_and!; [lia|done..]. }
      specialize (Hloc W_END). destruct (locate k flags W_END fp).
      - by destruct Hloc as (_ & _ & []).
      - by destruct Hloc as (_ & _ & [|]).
      - rewrite <- (app_nil_r stored) at 2. apply post_done; [done|lia|]. intros _. right. cbn. split_and!; [lia|done..].
      - rewrite <- (app_nil_r stored) at 2. apply post_done; [apply suffix_nil|lia|]. intros _. left. cbn. lia. }
    apply Forall_cons in Hap as [Hr Hap]. cbn [length] in Hf.
    destruct (recv_name r) as [name|] eqn:Er.
    { assert (Hstep := value_post r name ap flags conversions stored fp (fun v fp => scan_loop fuel flags ap NEXT (conversions + 1) (stored ++ [v]) fp) Er Hfp Hc).
      rewrite <- Ek in Hstep. ospecialize (Hstep _).
      { intros v fp' Hs. pose proof (suffix_length _ _ Hs). apply IH; [done|done|done|by eapply suffix_is_byte|lia|lia]. }
      destruct r; try discriminate Er; injection Er as ->; exact Hstep. }
    destruct r as [| | | |scan_fn|table]; try discriminate Er.
    + destruct (Hr (Z.lor flags ATTR_FLAG_MORE) fp (flags_ok_more _ Hfl) Hfp) as (ret & vs & fp1 & E & Hs). rewrite E. cbn [mbind outcome_bind].
      destruct (ret <? 0) eqn:Eret; zb.
      * apply post_done; [done|lia|]. intros _. left. cbn [length]. lia.
      * pose proof (suffix_length _ _ Hs). apply (post_step _ _ _ _ (V_FUNC vs) fp fp1); [|done|].
        { cbn. exists (Z.lor flags ATTR_FLAG_MORE), fp, ret, fp1. split_and!; [by apply flags_ok_more|done..]. }
        apply IH; [done|done|done|by eapply suffix_is_byte|lia|lia].
    + apply (post_table _ ap ap conversions conversions stored stored [] fp fp true false); [by left|by rewrite app_nil_r|done|].
      apply (IH flags ap (FILLING false table)); [done|done|done|done|cbn; lia|done].
  - assert (Hany : forall ret fp', fp' `suffix_of` fp -> -1 <= ret -> scan_post ap conversions stored fp false (Ret (ret, stored ++ [V_HASH table], fp'))).
    { intros ret fp' Hs Hret. by apply post_done. }
    assert (Hcont : forall mode conversions' stored' v fp', fp' `suffix_of` fp -> (length fp' < length fp)%nat -> mode_ok mode -> 0 <= conversions' -> stored' = stored ++ v ->
      scan_post ap conversions stored fp false (scan_loop fuel flags ap mode conversions' stored' fp')).
    { intros mode conversions' stored' v fp' Hs Hl Hmode Hc' Ev.
      apply (post_table (RECV_ATTR_INT []) ap ap conversions conversions' stored stored' v fp fp' false (mode_next mode)); [by right|done|done|].
      apply IH; [done|done|done|by eapply suffix_is_byte|lia|done]. }
    cbn [mode_next]. specialize (Hloc (if close then W_CLOSE else W_HASH)).
    destruct (locate k flags (if close then W_CLOSE else W_HASH) fp) as [w name fp1|fp1|fp1|].
    + destruct Hloc as (Hs & Hl & _). destruct (attr_scan0_string fp1) as [[value fp2]|] eqn:E; [|apply Hany; [apply suffix_nil|lia]].
      apply string_suffix in E as [Hs2 Hl2]. assert (Hs3 : fp2 `suffix_of` fp) by (by etrans). destruct Hm as [m Hm].
      apply (entry_post ap flags table m conversions stored name value fp
        (fun c t => scan_loop fuel flags ap (FILLING (match w with W_CLOSE => true | _ => false end) t) c stored fp2)); [done..|].
      intros c t m' Hc' Ht. apply (Hcont _ _ _ []); [done|lia|by exists m'|lia|by rewrite app_nil_r].
    + destruct Hloc as (Hs & Hl & _). by apply (Hcont _ _ _ [V_HASH table]).
    + apply Hany; [done|lia].
    + apply Hany; [apply suffix_nil|lia].
Qed.

Lemma attr_scan0_post flags ap fp : flags_ok flags = true -> Forall recv_ok ap -> Forall is_byte fp ->
  scan_post ap 0 [] fp true (attr_scan0 flags ap fp).
Proof.
  intros Hfl Hap Hfp. unfold attr_scan0. rewrite Hfl. cbn [negb]. destruct fp as [|c fp].
  - apply (post_done ap 0 [] [] true 0 [] []); [done|lia|]. intros _. destruct ap; [right; cbn; done|left; cbn; lia].
  - apply (scan_loop_total _ flags ap NEXT); [done..|lia|lia].
Qed.

(** A scan that answers its first request has read something. *)
Lemma scan_value_reads flags r name rs fp ret vs fp' : flags_ok flags = true -> recv_name r = Some name -> Forall recv_ok rs -> Forall is_byte fp ->
  attr_scan0 flags (r :: rs) fp = Ret (ret, vs, fp') -> 0 < ret -> (length fp' < length fp)%nat.
Proof.
  intros Hfl Hr Hrs Hfp E Hret. unfold attr_scan0 in E. rewrite Hfl in E. cbn [negb] in E.
  destruct fp as [|c fp]; [injection E as <- _ _; lia|]. remember (c :: fp) as fp0 eqn:Efp. clear Efp c fp.
  pose proof (locate_suffix (S (length fp0)) flags (W_NAME name) fp0) as Hloc.
  assert (Hval : forall v fp1 fp2 fuel, (length fp1 < length fp0)%nat -> fp1 `suffix_of` fp0 -> convert r fp1 = Some (v, fp2) -> (length rs + length fp0 < fuel)%nat ->
    scan_loop fuel flags rs NEXT 1 [v] fp2 = Ret (ret, vs, fp') -> (length fp' < length fp0)%nat).
  { intros v fp1 fp2 fuel Hl1 Hs1 Ec Hf Es. destruct (convert_ok r name fp1 v fp2 Hr) as [Hs2 _]; [by eapply suffix_is_byte|done|].
    apply suffix_length in Hs2 as Hl2.
    destruct (scan_loop_total fuel flags rs NEXT 1 [v] fp2) as (ret' & vs' & fp3 & E3 & Hs3 & _); [done|done|done| |lia|lia|].
    { eapply suffix_is_byte; [|by etrans]. done. }
    rewrite E3 in Es. injection Es as <- <- <-. apply suffix_length in Hs3. lia. }
  destruct r; try discriminate Hr; injection Hr as ->; cbn [scan_loop] in E;
    destruct (find flags (W_NAME name) fp0) as [w n fp1|fp1|fp1|]; try (injection E as <- _ _; lia);
    destruct Hloc as (Hs1 & Hl1 & _); destruct (convert _ fp1) as [[v fp2]|] eqn:Ec; try (injection E as <- _ _; lia);
    apply (Hval v fp1 fp2 _ Hl1 Hs1 Ec) in E; cbn [length]; solve [done|lia].
Qed.

Lemma scan_func_reads flags scan_fn fp ret vs fp' : flags_ok flags = true -> Forall is_byte fp ->
  (forall flags r vs fp1, flags_ok flags = true -> scan_fn flags fp = Ret (r, vs, fp1) -> 0 <= r -> (length fp1 < length fp)%nat /\ fp1 `suffix_of` fp) ->
  attr_scan0 flags [RECV_ATTR_FUNC scan_fn] fp = Ret (ret, vs, fp') -> 0 < ret -> (length fp' < length fp)%nat.
Proof.
  intros Hfl Hfp Hfn E Hret. unfold attr_scan0 in E. rewrite Hfl in E. cbn [negb] in E.
  destruct fp as [|c fp]; [injection E as <- _ _; lia|]. remember (c :: fp) as fp0 eqn:Efp. clear Efp c fp.
  replace (S (length fp0 + length [RECV_ATTR_FUNC scan_fn]))%nat with (S (S (length fp0))) in E by (cbn [length]; lia).
  remember (S (length fp0)) as k eqn:Ek. cbn [scan_loop] in E.
  destruct (scan_fn (Z.lor flags ATTR_FLAG_MORE) fp0) as [[[r vs1] fp1]| |] eqn:Ef; try discriminate E. cbn [mbind outcome_bind] in E.
  destruct (r <? 0) eqn:Er; zb; [injection E as <- _ _; lia|]. destruct (Hfn _ _ _ _ (flags_ok_more _ Hfl) Ef Er) as [Hl Hs].
  destruct (scan_loop_total k flags [] NEXT (0 + 1) ([] ++ [V_FUNC vs1]) fp1) as (ret' & vs' & fp3 & E3 & Hs3 & _); [done|done|done|by eapply suffix_is_byte|cbn; lia|lia|].
  rewrite E3 in E. injection E as <- <- <-. apply suffix_length in Hs3. lia.
Qed.

(** ** Theorems *)

(** C17: the attribute protocol transports what is sent: when a receiver asks for the
    attributes of a sender in their order, attr_print0() completes, and attr_scan0() of
    its output, with whatever follows, returns the number of conversions and the values
    that were sent (numbers with their sign, strings, data, what print and scan functions
    have agreed on, and tables, which are added to what the receiver's tables have), and
    leaves exactly what follows.  Unless ATTR_FLAG_EXTRA is given, single attributes that
    are not requested make no difference; a list may end early. *)
Theorem attr_roundtrip (pf rf : Z) (ss : list send_attr) (rs : list recv_attr) (ps : list (recv_value -> Prop)) (n : Z)
  (Hpf : flags_ok pf = true) (Hrf : flags_ok rf = true) (Hmore : has pf ATTR_FLAG_MORE = has rf ATTR_FLAG_MORE)
  (Hd : delivers pf rf ss rs ps n) :
  exists wire vs, attr_print0 pf ss = Ret wire /\ Forall2 (fun (p : recv_value -> Prop) v => p v) ps vs /\
    forall rest, attr_scan0 rf rs (wire ++ rest) = Ret (n, vs, rest).
Proof.
  destruct (attr_exchange pf rf ss rs ps n Hpf Hrf Hmore Hd) as (wire & vs & E & Hvs & _ & H). by exists wire, vs.
Qed.

Definition one_entry (key value : bytes) : HTABLE bytes :=
  match htable_enter (htable_create 1) key (Some value) with Ret (_, t) => t | _ => htable_create 1 end.

Lemma one_entry_table key value : string_table (one_entry key value) {[ key := value ]}.
Proof.
  destruct (enter_pair_ok (htable_create 1) ∅ key value) as (x & t & E & H); [|done|].
  - unfold string_table. rewrite fmap_empty. apply represents_create.
  - unfold one_entry. by rewrite E.
Qed.

Lemma attr_roundtrip_witness :
  exists wire vs,
    attr_print0 ATTR_FLAG_NONE [SEND_ATTR_INT (str "n") (-1); SEND_ATTR_STR (str "junk") []; SEND_ATTR_DATA (str "d") [0; 255]; SEND_ATTR_HASH (one_entry (str "k") (str "v"))]
      = Ret wire /\
    Forall2 (fun (p : recv_value -> Prop) v => p v)
      [(fun v => v = V_INT (-1)); (fun v => v = V_DATA [0; 255]);
       (fun v => exists t, v = V_HASH t /\ string_table t ({[ str "k" := str "v" ]} ∪ {[ str "k0" := str "v0" ]}))] vs /\
    forall rest, attr_scan0 ATTR_FLAG_NONE [RECV_ATTR_INT (str "n"); RECV_ATTR_DATA (str "d"); RECV_ATTR_HASH (one_entry (str "k0") (str "v0"))] (wire ++ rest)
      = Ret (3, vs, rest).
Proof.
  assert (Hc : forall c : Z, 0 < c < 256 -> c_name [c]) by (intros c Hc; split; [done|by constructor; [exact Hc|constructor]]).
  apply (attr_roundtrip ATTR_FLAG_NONE ATTR_FLAG_NONE); [reflexivity..|].
  apply (dl_value _ _ _ _ _ (str "n") _ _ _ 2); [apply ans_int; unfold int_range; lia|reflexivity|apply Hc; cbn; lia|].
  apply (dl_extra _ _ _ (RECV_ATTR_STR (str "junk")) (V_STR []) (str "junk")); [by constructor|reflexivity| |reflexivity|by exists (str "d")|].
  { split; [done|]. repeat constructor; cbn; unfold is_cchar; lia. }
  apply (dl_value _ _ _ _ _ (str "d") _ _ _ 1); [apply ans_data; repeat constructor; unfold is_byte; lia|reflexivity|apply Hc; cbn; lia|].
  replace 1 with (Z.of_nat (size ({[ str "k" := str "v" ]} : gmap bytes bytes)) + 0) by (by rewrite map_size_singleton).
  apply (dl_hash _ _ _ _ {[ str "k" := str "v" ]} {[ str "k0" := str "v0" ]} _ _ _ 0); [apply one_entry_table..| |rewrite !map_size_singleton; unfold ATTR_HASH_LIMIT; lia|constructor].
  rewrite map_to_list_singleton. repeat constructor; cbn; try done; unfold is_cchar; lia.
Defined.

(** C18: the receiver is safe from its peer: whatever bytes arrive, attr_scan0() returns
    without panic and without looping, having read a part of the stream, and its result
    is -1 or a count; unless tables are requested, the count is at most the number of
    requests, and when it is that number every request has a result of its type.  The
    scan functions and tables that are passed to it must be good ones. *)
Theorem attr_scan0_safe (flags : Z) (ap : list recv_attr) (fp : bytes)
  (Hflags : flags_ok flags = true) (Hap : Forall recv_ok ap) (Hfp : Forall is_byte fp) :
  exists ret vs fp', attr_scan0 flags ap fp = Ret (ret, vs, fp') /\ fp' `suffix_of` fp /\ -1 <= ret /\
    (forallb (fun r => negb (is_table r)) ap = true ->
     ret <= Z.of_nat (length ap) /\ (ret = Z.of_nat (length ap) -> Forall2 typed ap vs)).
Proof.
  destruct (attr_scan0_post flags ap fp Hflags Hap Hfp) as (ret & vs & fp' & E & Hs & Hr & H).
  exists ret, vs, fp'. split_and!; [done..|]. by apply H.
Qed.

Lemma attr_scan0_safe_witness :
  exists ret vs fp', attr_scan0 ATTR_FLAG_STRICT [RECV_ATTR_INT (str "n"); RECV_ATTR_STR (str "s")] (str "n" ++ [0; 57; 57; 0; 115; 0; 7]) = Ret (ret, vs, fp')
    /\ fp' `suffix_of` (str "n" ++ [0; 57; 57; 0; 115; 0; 7]) /\ -1 <= ret /\
    (true = true -> ret <= 2 /\ (ret = 2 -> Forall2 typed [RECV_ATTR_INT (str "n"); RECV_ATTR_STR (str "s")] vs)).
Proof.
  apply (attr_scan0_safe ATTR_FLAG_STRICT [RECV_ATTR_INT (str "n"); RECV_ATTR_STR (str "s")]); [reflexivity|by repeat constructor|].
  repeat constructor; unfold is_byte; cbn; lia.
Defined.

(** An attribute that is not requested is skipped "silently", but not when it is a table:
    the scan takes its strings for pairs of names and values from the brace on, so that a
    value in the table is taken for the name of an attribute.  Here the number that is
    asked for follows the table, and the scan fails. *)
Example table_not_skipped :
  (wire ← attr_print0 ATTR_FLAG_NONE [SEND_ATTR_HASH (one_entry (str "key") (str "status")); SEND_ATTR_INT (str "status") 0];
   '(ret, vs, _) ← attr_scan0 ATTR_FLAG_NONE [RECV_ATTR_INT (str "status")] wire; Ret (ret, vs)) = Ret (-1, []).
Proof. vm_compute. reflexivity. Qed.

(** A table does not count as the number of entries that are stored: an entry that the
    receiver has already is counted, although it is not stored. *)
Example duplicate_counted :
  (wire ← attr_print0 ATTR_FLAG_NONE [SEND_ATTR_HASH (one_entry (str "k") (str "new"))];
   '(ret, vs, _) ← attr_scan0 ATTR_FLAG_NONE [RECV_ATTR_HASH (one_entry (str "k") (str "old"))] wire;
   match vs with [V_HASH t] => v ← htable_find t (str "k"); Ret (ret, ht_used t, v) | _ => Undef end) = Ret (1, 1, Some (str "old")).
Proof. vm_compute. reflexivity. Qed.
