(* ===== verification/Quote822.v ===== *)
(** Quoting the local part of mail addresses: quote_822_local.c and quote_821_local.c
    (src/src/global).

    A [VSTRING] is the list of its characters; an address is a C string without its
    terminator. *)

From S2P Require Export Prelude.

(** ** Library functions *)

(** isascii() and iscntrl() *)
Definition ISCNTRL (c : Z) : bool := in_range 0 31 c || (c =? 127).

(** ** White space and special characters (lex_822.h) *)

Definition IS_SPACE_TAB (ch : Z) : bool := (ch =? " "%ch) || (ch =? 9).
Definition IS_SPACE_TAB_CR_LF (ch : Z) : bool := IS_SPACE_TAB ch || (ch =? 13) || (ch =? 10).

(** 92 is the backslash and 34 the quote. *)
Definition LEX_822_SPECIALS : bytes := str "()<>@,;:" ++ [92; 34] ++ str ".[]".

(** The positions that strchr() and strrchr() find. *)
Fixpoint strchr (s : bytes) (c : Z) : option nat :=
  match s with
  | [] => None
  | x :: s => if x =? c then Some O else S <$> strchr s c
  end.
Fixpoint strrchr (s : bytes) (c : Z) : option nat :=
  match s with
  | [] => None
  | x :: s => match strrchr s c with
              | Some i => Some (S i)
              | None => if x =? c then Some O else None
              end
  end.

(** ** Operations *)

Definition QUOTE_FLAG_8BITCLEAN : Z := Z.shiftl 1 0.
Definition QUOTE_FLAG_EXPOSE_AT : Z := Z.shiftl 1 1.
Definition QUOTE_FLAG_APPEND : Z := Z.shiftl 1 2.
Definition QUOTE_FLAG_BARE_LOCALPART : Z := Z.shiftl 1 3.
Definition has (flags flag : Z) : bool := negb (Z.land flags flag =? 0).

(** A character that cannot be in a dot-string. *)
Definition breaks_822 (flags ch : Z) : bool :=
  ((ch >? 127) && negb (has flags QUOTE_FLAG_8BITCLEAN))
  || (ch =? " "%ch) || ISCNTRL ch
  || (ch =? "("%ch) || (ch =? ")"%ch) || (ch =? "<"%ch) || (ch =? ">"%ch)
  || ((ch =? "@"%ch) && negb (has flags QUOTE_FLAG_EXPOSE_AT)) || (ch =? ","%ch)
  || (ch =? ";"%ch) || (ch =? ":"%ch) || (ch =? 92) || (ch =? 34) || (ch =? "["%ch) || (ch =? "]"%ch).

(** The loop over the local part; [rest] is the text after it, as far as it is looked at. *)
Fixpoint dot_string_loop (flags : Z) (local_part rest : bytes) : bool :=
  match local_part with
  | [] => true
  | ch :: l =>
      if (ch =? "."%ch) && (cp (l ++ rest) 0 =? "."%ch) then false
      else if breaks_822 flags ch then false
      else dot_string_loop flags l rest
  end.

Definition is_822_dot_string (local_part : bytes) (flags : Z) : bool :=
  if bool_decide (local_part = []) || (cp local_part 0 =? 0) || (cp local_part 0 =? "."%ch) then false
  else dot_string_loop flags local_part [] && negb (cp local_part (length local_part - 1) =? "."%ch).

(** The body of a quoted string, with a backslash before characters that need one. *)
Definition escape (needed : Z -> bool) (s : bytes) : bytes :=
  concat (map (fun ch => if needed ch then [92; ch] else [ch]) s).

Definition needs_822 (flags ch : Z) : bool :=
  ((ch >? 127) && negb (has flags QUOTE_FLAG_8BITCLEAN)) || (ch =? 34) || (ch =? 92) || (ch =? 13).
Definition make_822_quoted_string (dst local_part : bytes) (flags : Z) : bytes :=
  dst ++ [34] ++ escape (needs_822 flags) local_part ++ [34].

(** The length of a source route: up to the first colon, of an address that starts with @. *)
Definition route_length (mbox : bytes) : nat :=
  if cp mbox 0 =? "@"%ch then match strchr mbox ":"%ch with Some colon => S colon | None => O end else O.

Definition quote_822_local_flags (dst mbox : bytes) (flags : Z) : bytes :=
  let start := route_length mbox in
  let text := drop start mbox in
  let end_ := if has flags QUOTE_FLAG_BARE_LOCALPART then length text
              else match strrchr text "@"%ch with Some at_ => at_ | None => length text end in
  let dst := if has flags QUOTE_FLAG_APPEND then dst else [] in
  if is_822_dot_string (take end_ text) flags then dst ++ mbox
  else make_822_quoted_string (dst ++ take start mbox) (take end_ text) (Z.land flags QUOTE_FLAG_8BITCLEAN) ++ drop end_ text.

(** The loop of unquote_822_local(): the result so far, whether it is inside quotes, and the
    last bare @ with what follows, and its position in the result. *)
Fixpoint unquote_loop (s dst : bytes) (in_quote : bool) (bare_at : option (nat * bytes)) : bytes * option (nat * bytes) :=
  match s with
  | [] => (dst, bare_at)
  | c :: s' =>
      if c =? 34 then unquote_loop s' dst (negb in_quote) bare_at
      else if c =? "@"%ch then
        unquote_loop s' (dst ++ [c]) in_quote (if in_quote then bare_at else Some (length dst, s))
      else if c =? 92 then
        match s' with
        | [] => unquote_loop s' dst in_quote bare_at
        | d :: s'' => unquote_loop s'' (dst ++ [d]) in_quote bare_at
        end
      else unquote_loop s' (dst ++ [c]) in_quote bare_at
  end.
Definition unquote_822_local (mbox : bytes) : bytes :=
  let start := route_length mbox in
  match unquote_loop (drop start mbox) (take start mbox) false None with
  | (dst, Some (pos, src)) => take pos dst ++ src
  | (dst, None) => dst
  end.

(** The same characters as for RFC 822. *)
Definition is_821_dot_string (local_part rest : bytes) (flags : Z) : bool :=
  if bool_decide (local_part = []) || (cp local_part 0 =? 0) || (cp local_part 0 =? "."%ch) then false
  else dot_string_loop flags local_part rest && negb (cp local_part (length local_part - 1) =? "."%ch).
Definition needs_821 (flags ch : Z) : bool :=
  ((ch >? 127) && negb (has flags QUOTE_FLAG_8BITCLEAN)) || (ch =? 13) || (ch =? 10) || (ch =? 34) || (ch =? 92).
Definition make_821_quoted_string (dst local_part : bytes) (flags : Z) : bytes :=
  dst ++ [34] ++ escape (needs_821 flags) local_part ++ [34].
Definition quote_821_local_flags (dst addr : bytes) (flags : Z) : bytes :=
  let at_ := match strrchr addr "@"%ch with Some i => i | None => length addr end in
  let dst := if has flags QUOTE_FLAG_APPEND then dst else [] in
  if is_821_dot_string (take at_ addr) (drop at_ addr) flags then dst ++ addr
  else make_821_quoted_string dst (take at_ addr) (Z.land flags QUOTE_FLAG_8BITCLEAN) ++ drop at_ addr.

(** ** Dot-strings *)

(** RFC 822: atoms with dots between them. *)
Definition atom (flags : Z) (s : bytes) : Prop := s <> [] /\ Forall (fun ch => breaks_822 flags ch = false) s.
Definition dot_atoms (flags : Z) (s : bytes) : Prop := Forall (atom flags) (split_on "."%ch s).

Lemma dot_not_breaking flags : breaks_822 flags "."%ch = false.
Proof. reflexivity. Qed.

Lemma cp_last_char s : s <> [] -> last s = Some (cp s (length s - 1)).
Proof.
  intros Hs. destruct s as [|x s] using rev_ind; [done|]. clear IHs. rewrite last_snoc, length_app. cbn.
  unfold cp. rewrite Nat.add_sub, app_nth2, Nat.sub_diag by lia. done.
Qed.

(** The loop over the rest of a dot-string, after the part [cur] of an atom. *)
Lemma dot_string_loop_spec flags rest s : cp rest 0 <> "."%ch -> forall cur,
  Forall (fun ch => breaks_822 flags ch = false /\ ch <> "."%ch) cur -> (cur <> [] \/ cp s 0 <> "."%ch) ->
  (dot_string_loop flags s rest = true /\ last (cur ++ s) <> Some "."%ch /\ cur ++ s <> []) <->
  Forall (atom flags) (split_from "."%ch cur s).
Proof.
  intros Hrest. induction s as [|c s IH]; intros cur Hcur Hfirst; cbn [dot_string_loop split_from].
  - rewrite app_nil_r. split.
    + intros (_ & _ & Hne). repeat constructor; [done|]. eapply Forall_impl; [exact Hcur|]. by intros ? [].
    + intros [[Hne _] _]%Forall_cons. split; [done|]. split; [|done]. intros Hl%last_Some_elem_of.
      rewrite Forall_forall in Hcur. by apply Hcur in Hl as [].
  - destruct (Z.eqb_spec c "."%ch) as [-> |Hc].
    + cbn [andb]. assert (Hne : cur <> []) by (destruct Hfirst; [done|]; by cbn in *).
      assert (Hat : atom flags cur) by (split; [done|]; eapply Forall_impl; [exact Hcur|]; by intros ? []).
      rewrite dot_not_breaking, Forall_cons. destruct s as [|d s].
      * cbn [app]. rewrite (proj2 (Z.eqb_neq _ _)) by done. split.
        -- intros (_ & Hl & _). by rewrite last_snoc in Hl.
        -- by intros [_ [[] _]%Forall_cons].
      * cbn [app]. change (cp (d :: s ++ rest) 0) with d. destruct (Z.eqb_spec d "."%ch) as [-> |Hd].
        -- split; [by intros []|]. cbn [split_from]. rewrite Z.eqb_refl. by intros [_ [[] _]%Forall_cons].
        -- rewrite <- (IH []) by first [by constructor|by right]. cbn [app].
           assert (El : last (cur ++ "."%ch :: d :: s) = last (d :: s)).
           { change ("."%ch :: d :: s) with (["."%ch] ++ d :: s). rewrite app_assoc, last_app.
             destruct (last (d :: s)) eqn:E; [done|]. by apply last_None in E. }
           rewrite El. split; [intros (H1 & H2 & _); by split_and!|intros (_ & H1 & H2 & _); split_and!; [done..|by destruct cur]].
    + cbn [andb]. destruct (breaks_822 flags c) eqn:Eb.
      * split; [by intros []|]. destruct (split_from_prefix "."%ch s (cur ++ [c])) as (t & fs & ->).
        intros [[_ Hf] _]%Forall_cons. rewrite Forall_app, Forall_app, Forall_singleton in Hf. destruct Hf as [[_ Hf] _]. congruence.
      * rewrite <- (IH (cur ++ [c])).
        -- rewrite <- app_assoc. done.
        -- apply Forall_app. by repeat constructor.
        -- left. by destruct cur.
Qed.

Lemma is_821_dot_string_spec local_part rest flags : Forall is_cchar local_part -> cp rest 0 <> "."%ch ->
  is_821_dot_string local_part rest flags = true <-> dot_atoms flags local_part.
Proof.
  intros Hc Hr. unfold is_821_dot_string, dot_atoms, split_on. destruct local_part as [|c l]; [cbn; split; [done|]; by intros [[] _]%Forall_cons|].
  apply Forall_cons in Hc as [Hc _]. rewrite bool_decide_false by done. change (cp (c :: l) 0) with c.
  rewrite (proj2 (Z.eqb_neq c 0)) by (unfold is_cchar in Hc; lia). cbn [orb]. destruct (Z.eqb_spec c "."%ch) as [-> |Hd].
  - split; [done|]. cbn [split_from]. rewrite Z.eqb_refl. by intros [[] _]%Forall_cons.
  - rewrite <- (dot_string_loop_spec flags rest (c :: l) Hr []) by first [by constructor|by right].
    cbn [app]. rewrite andb_true_iff, negb_true_iff, Z.eqb_neq, cp_last_char by done.
    split; [intros [? ?]; split_and!; congruence|intros (? & ? & _); split; congruence].
Qed.
Lemma is_822_dot_string_spec local_part flags : Forall is_cchar local_part ->
  is_822_dot_string local_part flags = true <-> dot_atoms flags local_part.
Proof. intros Hc. by apply (is_821_dot_string_spec local_part []). Qed.

(** ** Quoted strings *)

(** RFC 822: what is in a quoted string, and what it stands for. *)
Inductive quoted_text (flags : Z) : bytes -> bytes -> Prop :=
  | qt_end : quoted_text flags [] []
  | qt_char c q s : c <> 34 -> c <> 92 -> c <> 13 -> (c <= 127 \/ has flags QUOTE_FLAG_8BITCLEAN = true) ->
      quoted_text flags q s -> quoted_text flags (c :: q) (c :: s)
  | qt_pair c q s : quoted_text flags q s -> quoted_text flags (92 :: c :: q) (c :: s).

Lemma escape_quoted flags (needed : Z -> bool) s :
  (forall c, needed c = false -> c <> 34 /\ c <> 92 /\ c <> 13 /\ (c <= 127 \/ has flags QUOTE_FLAG_8BITCLEAN = true)) ->
  quoted_text flags (escape needed s) s.
Proof.
  intros Hn. induction s as [|c s IH]; [constructor|]. unfold escape. cbn [map concat]. destruct (needed c) eqn:E; cbn [app].
  - by constructor.
  - destruct (Hn _ E) as (? & ? & ? & ?). by constructor.
Qed.

(** Clearing the other flags keeps this one. *)
Lemma has_8bit flags : has (Z.land flags QUOTE_FLAG_8BITCLEAN) QUOTE_FLAG_8BITCLEAN = has flags QUOTE_FLAG_8BITCLEAN.
Proof. unfold has. by rewrite <- Z.land_assoc, Z.land_diag. Qed.

Lemma needs_822_spec flags c : needs_822 (Z.land flags QUOTE_FLAG_8BITCLEAN) c = false ->
  c <> 34 /\ c <> 92 /\ c <> 13 /\ (c <= 127 \/ has flags QUOTE_FLAG_8BITCLEAN = true).
Proof. unfold needs_822. rewrite has_8bit. intros H. destruct (has flags _); zb; lia. Qed.
Lemma needs_821_spec flags c : needs_821 (Z.land flags QUOTE_FLAG_8BITCLEAN) c = false ->
  c <> 34 /\ c <> 92 /\ c <> 13 /\ (c <= 127 \/ has flags QUOTE_FLAG_8BITCLEAN = true).
Proof. unfold needs_821. rewrite has_8bit. intros H. destruct (has flags _); zb; lia. Qed.

(** ** Unquoting *)

Lemma unquote_quoted_text flags q s : quoted_text flags q s -> forall t dst b,
  unquote_loop (q ++ t) dst true b = unquote_loop t (dst ++ s) true b.
Proof.
  induction 1 as [|c q s H1 H2 H3 H4 Hq IH|c q s Hq IH]; intros t dst b; cbn [app unquote_loop].
  - by rewrite app_nil_r.
  - rewrite (proj2 (Z.eqb_neq _ _) H1), (proj2 (Z.eqb_neq _ _) H2). case_match; by rewrite IH, <- app_assoc.
  - change (92 =? 34) with false. change (92 =? "@"%ch) with false. cbn match. by rewrite IH, <- app_assoc.
Qed.

Definition plain (c : Z) : Prop := c <> 34 /\ c <> 92.

(** Text without quotes and backslashes stays; an @ in it may be the last one. *)
Lemma unquote_plain s : forall t dst b, Forall plain s -> exists b',
  unquote_loop (s ++ t) dst false b = unquote_loop t (dst ++ s) false b' /\
  (b' = b \/ exists i, (i < length s)%nat /\ b' = Some (length dst + i, drop i (s ++ t))%nat).
Proof.
  induction s as [|c s IH]; intros t dst b Hs.
  { exists b. rewrite app_nil_r. split; [done|by left]. }
  apply Forall_cons in Hs as [[H1 H2] Hs]. cbn [app unquote_loop].
  rewrite (proj2 (Z.eqb_neq _ _) H1), (proj2 (Z.eqb_neq _ _) H2).
  set (b1 := if c =? "@"%ch then Some (length dst, c :: s ++ t) else b).
  destruct (IH t (dst ++ [c]) b1 Hs) as (b' & E & Hb). exists b'.
  assert (E' : (if c =? "@"%ch then unquote_loop (s ++ t) (dst ++ [c]) false (Some (length dst, c :: s ++ t))
                else unquote_loop (s ++ t) (dst ++ [c]) false b) = unquote_loop (s ++ t) (dst ++ [c]) false b1).
  { unfold b1. by case_match. }
  rewrite E', E, <- app_assoc. split; [done|]. destruct Hb as [-> |(i & Hi & ->)].
  - unfold b1. case_match; [|by left]. right. exists 0%nat. cbn. split; [lia|]. by rewrite Nat.add_0_r.
  - right. exists (S i). rewrite length_app. cbn. split; [lia|]. by rewrite <- Nat.add_assoc.
Qed.

(** Text without @ keeps the last one. *)
Lemma unquote_no_at n : forall s dst q b, (length s <= n)%nat -> ~ In "@"%ch s ->
  exists r, unquote_loop s dst q b = (dst ++ r, b).
Proof.
  induction n as [|n IH]; intros s dst q b Hn Hs.
  { destruct s; [|cbn in Hn; lia]. exists []. by rewrite app_nil_r. }
  destruct s as [|c s]; [exists []; by rewrite app_nil_r|]. cbn in Hn. assert (Hs' : ~ In "@"%ch s) by (intros H; apply Hs; by right).
  cbn [unquote_loop]. case_match; [apply IH; [lia|done]|]. case_match; [exfalso; apply Hs; left; lia|].
  case_match.
  - destruct s as [|d s]; [apply IH; [lia|done]|]. cbn in Hn.
    destruct (IH s (dst ++ [d]) q b) as [r ->]; [lia|intros H'; apply Hs'; by right|]. exists (d :: r). by rewrite <- app_assoc.
  - destruct (IH s (dst ++ [c]) q b) as [r ->]; [lia|done|]. exists (c :: r). by rewrite <- app_assoc.
Qed.

(** Nothing, or an @ and text without one. *)
Definition is_domain (d : bytes) : Prop := d = [] \/ exists t, d = "@"%ch :: t /\ ~ In "@"%ch t.

(** What unquote_822_local() makes of the result of the loop. *)
Definition unquoted (r : bytes * option (nat * bytes)) : bytes :=
  match r with (dst, Some (pos, src)) => take pos dst ++ src | (dst, None) => dst end.

Lemma unquote_domain d dst b : is_domain d -> (d = [] -> match b with Some (pos, src) => take pos dst ++ src = dst | None => True end) ->
  unquoted (unquote_loop d dst false b) = dst ++ d.
Proof.
  intros [-> |(t & -> & Ht)] Hb.
  - cbn. rewrite app_nil_r. destruct b as [[pos src]|]; [by apply Hb|done].
  - cbn [unquote_loop]. change ("@"%ch =? 34) with false. change ("@"%ch =? "@"%ch) with true. cbn match.
    destruct (unquote_no_at (length t) t (dst ++ ["@"%ch]) false (Some (length dst, "@"%ch :: t))) as [r ->]; [done..|].
    cbn. by rewrite <- app_assoc, take_app_length.
Qed.

Lemma unquote_plain_domain s d dst : Forall plain s -> is_domain d -> unquoted (unquote_loop (s ++ d) dst false None) = dst ++ s ++ d.
Proof.
  intros Hs Hd. destruct (unquote_plain s d dst None Hs) as (b' & -> & Hb). rewrite unquote_domain; [by rewrite app_assoc|done|].
  intros ->. destruct Hb as [-> |(i & Hi & ->)]; [done|]. rewrite app_nil_r, take_app, take_ge by lia.
  replace (length dst + i - length dst)%nat with i by lia. by rewrite <- app_assoc, take_drop.
Qed.

Lemma unquote_quoted_domain flags q s d dst : quoted_text flags q s -> is_domain d ->
  unquoted (unquote_loop (34 :: q ++ 34 :: d) dst false None) = dst ++ s ++ d.
Proof.
  intros Hq Hd. cbn [unquote_loop]. change (34 =? 34) with true. cbn match. cbn [negb].
  rewrite (unquote_quoted_text _ _ _ Hq). cbn [unquote_loop]. change (34 =? 34) with true. cbn match. cbn [negb].
  by rewrite unquote_domain, app_assoc.
Qed.

(** ** Quoting *)

Lemma strchr_spec s c i : strchr s c = Some i -> (i < length s)%nat /\ forall x, strchr (take (S i) s ++ x) c = Some i.
Proof.
  revert i. induction s as [|y s IH]; intros i; cbn [strchr]; [done|]. destruct (Z.eqb_spec y c) as [-> |Hn].
  - intros [= <-]. cbn. split; [lia|]. intros x. by rewrite Z.eqb_refl.
  - destruct (strchr s c) as [j|]; [|done]. intros [= <-]. destruct (IH j eq_refl) as [H1 H2]. split; [cbn; lia|].
    intros x. change (take (S (S j)) (y :: s) ++ x) with (y :: take (S j) s ++ x). cbn [strchr].
    by rewrite (proj2 (Z.eqb_neq _ _) Hn), H2.
Qed.

Lemma strrchr_spec s c : match strrchr s c with
  | Some i => exists t, drop i s = c :: t /\ ~ In c t
  | None => ~ In c s
  end.
Proof.
  induction s as [|y s IH]; cbn [strrchr]; [by intros []|]. destruct (strrchr s c) as [i|]; [exact IH|].
  destruct (Z.eqb_spec y c) as [-> |Hn]; [by exists s|]. by intros [|].
Qed.

(** The part of the address that starts at the last @. *)
Lemma strrchr_domain s : is_domain (drop (default (length s) (strrchr s "@"%ch)) s).
Proof. pose proof (strrchr_spec s "@"%ch) as H. destruct (strrchr s _) as [i|]; cbn; [by right|]. rewrite drop_all. by left. Qed.

Lemma route_length_route mbox x : (route_length mbox <> 0)%nat -> route_length (take (route_length mbox) mbox ++ x) = route_length mbox.
Proof.
  unfold route_length. destruct (Z.eqb_spec (cp mbox 0) "@"%ch) as [E|]; [|done]. destruct (strchr mbox ":"%ch) as [i|] eqn:Ei; [|done].
  intros _. destruct (strchr_spec _ _ _ Ei) as [Hi Hx]. rewrite Hx. destruct mbox as [|c mbox]; [cbn in Hi; lia|]. cbn in E. subst c. done.
Qed.

Lemma route_length_le mbox : (route_length mbox <= length mbox)%nat.
Proof.
  unfold route_length. case_match; [|lia]. destruct (strchr mbox ":"%ch) as [i|] eqn:Ei; [|lia]. by apply strchr_spec in Ei as [? _].
Qed.

(** Unquoting an address with the route of [mbox]. *)
Lemma unquote_route mbox y z : (route_length mbox = O -> route_length y = O) ->
  unquoted (unquote_loop y (take (route_length mbox) mbox) false None) = take (route_length mbox) mbox ++ z ->
  unquote_822_local (take (route_length mbox) mbox ++ y) = take (route_length mbox) mbox ++ z.
Proof.
  intros H0 <-. pose proof (route_length_le mbox) as Hle.
  assert (E : route_length (take (route_length mbox) mbox ++ y) = route_length mbox).
  { destruct (decide (route_length mbox = O)) as [E|Hn]; [|by apply route_length_route]. rewrite E in *. cbn. auto. }
  unfold unquote_822_local. rewrite E. rewrite drop_app_ge by (rewrite length_take; lia). rewrite length_take, Nat.min_l, Nat.sub_diag, drop_0 by lia.
  rewrite take_app_le by (rewrite length_take; lia). by rewrite take_take, Nat.min_id.
Qed.

Lemma dot_atoms_plain flags s : dot_atoms flags s -> Forall plain s.
Proof.
  unfold dot_atoms, split_on. enough (H : forall cur, Forall (atom flags) (split_from "."%ch cur s) -> Forall plain s) by apply H.
  induction s as [|c s IH]; intros cur; [constructor|]. cbn [split_from]. destruct (Z.eqb_spec c "."%ch) as [-> |Hc].
  - intros [_ H]%Forall_cons. constructor; [by split|]. by apply (IH []).
  - intros H. constructor; [|by apply (IH (cur ++ [c]))]. destruct (split_from_prefix "."%ch s (cur ++ [c])) as (t & fs & E). rewrite E in H.
    apply Forall_cons in H as [[_ H] _]. rewrite !Forall_app, Forall_singleton in H. destruct H as [[_ H] _]. unfold breaks_822 in H. zb. by split.
Qed.

(** A quoted address: the route and the domain of [mbox] around a local part that is
    spelled as RFC 822 has it. *)
Record quoted_address (flags : Z) (mbox out : bytes) : Prop := mk_quoted_address {
  qa_parts : exists route local domain q, mbox = route ++ local ++ domain /\ out = route ++ q ++ domain /\ is_domain domain /\
    (dot_atoms flags local /\ q = local \/ ~ dot_atoms flags local /\ exists body, quoted_text flags body local /\ q = 34 :: body ++ [34]);
  qa_unquote : unquote_822_local out = mbox
}.

(** C24: [quote_822_local_flags] spells the local part of any address as RFC 822 requires:
    a dot-string is left alone, anything else becomes a quoted string with the characters
    that need it escaped, and the source route and the domain stay as they are; and
    [unquote_822_local] gives the original address back, whatever it contains. *)
Theorem quote_822_roundtrip dst mbox flags : Forall is_cchar mbox -> exists out,
  quote_822_local_flags dst mbox flags = (if has flags QUOTE_FLAG_APPEND then dst else []) ++ out /\ quoted_address flags mbox out.
Proof.
  intros Hc. unfold quote_822_local_flags. set (route := take (route_length mbox) mbox). set (text := drop (route_length mbox) mbox).
  set (end_ := if has flags QUOTE_FLAG_BARE_LOCALPART then _ else _). set (d := if has flags QUOTE_FLAG_APPEND then dst else []).
  assert (Em : mbox = route ++ take end_ text ++ drop end_ text) by (by rewrite take_drop; unfold route, text; rewrite take_drop).
  assert (Hd : is_domain (drop end_ text)).
  { unfold end_. case_match; [rewrite drop_all; by left|]. pose proof (strrchr_domain text) as H1. by destruct (strrchr text _). }
  assert (Hl : Forall is_cchar (take end_ text)) by (apply Forall_take, Forall_drop, Hc).
  destruct (is_822_dot_string (take end_ text) flags) eqn:Eb.
  - apply is_822_dot_string_spec in Eb; [|done]. exists mbox. split; [done|]. split.
    + exists route, (take end_ text), (drop end_ text), (take end_ text). split_and!; [done..|]. by left.
    + rewrite Em at 1. rewrite Em at 1. unfold route. apply unquote_route.
      * intros E. by rewrite take_drop; unfold text; rewrite E.
      * apply unquote_plain_domain; [by eapply dot_atoms_plain|done].
  - unfold make_822_quoted_string. set (body := escape _ _).
    assert (Hq : quoted_text flags body (take end_ text)) by (apply escape_quoted, needs_822_spec).
    assert (Eo : ((d ++ route) ++ [34] ++ body ++ [34]) ++ drop end_ text = d ++ route ++ 34 :: body ++ 34 :: drop end_ text).
    { by rewrite <- !app_assoc. }
    fold route. rewrite Eo. eexists. split; [done|]. split.
    + exists route, (take end_ text), (drop end_ text), (34 :: body ++ [34]). split; [done|]. split; [cbn [app]; by rewrite <- app_assoc|]. split; [done|].
      right. split; [|by exists body]. intros H%is_822_dot_string_spec; [congruence|done].
    + rewrite Em at 1. unfold route. apply unquote_route; [done|]. by apply (unquote_quoted_domain flags).
Qed.

Lemma quote_822_roundtrip_witness : exists out,
  quote_822_local_flags [] (str "@relay:a b@example.com") 1 = [] ++ out /\ quoted_address 1 (str "@relay:a b@example.com") out.
Proof. apply (quote_822_roundtrip [] (str "@relay:a b@example.com") 1). repeat constructor. Defined.

(** The same holds of [quote_821_local_flags], which takes a source route for a part of the
    local part, unless it may leave an @ there. *)
Theorem quote_821_unquotes dst addr flags : Forall is_cchar addr -> has flags QUOTE_FLAG_EXPOSE_AT = false -> exists out,
  quote_821_local_flags dst addr flags = (if has flags QUOTE_FLAG_APPEND then dst else []) ++ out /\ unquote_822_local out = addr.
Proof.
  intros Hc Hx. unfold quote_821_local_flags. set (at_ := match strrchr addr _ with Some i => i | None => _ end).
  set (d := if has flags QUOTE_FLAG_APPEND then dst else []).
  assert (Hd : is_domain (drop at_ addr)).
  { unfold at_. pose proof (strrchr_domain addr) as H1. by destruct (strrchr addr _). }
  assert (Hl : Forall is_cchar (take at_ addr)) by (apply Forall_take, Hc).
  assert (Hr : cp (drop at_ addr) 0 <> "."%ch) by (destruct Hd as [-> |(t & -> & _)]; done).
  pose proof (unquote_route [] : forall y z, _) as Hu. cbn [route_length cp nth] in Hu. change (route_length []) with O in Hu. cbn [take app] in Hu.
  destruct (is_821_dot_string (take at_ addr) (drop at_ addr) flags) eqn:Eb.
  - apply is_821_dot_string_spec in Eb; [|done..]. exists addr. split; [done|]. apply Hu.
    + intros _. unfold route_length. destruct (Z.eqb_spec (cp addr 0) "@"%ch) as [E|]; [|done]. exfalso.
      unfold dot_atoms, split_on in Eb. destruct (take at_ addr) as [|c l] eqn:El; [by apply Forall_cons in Eb as [[] _]|].
      assert (c = "@"%ch) as -> by (destruct addr; [by rewrite take_nil in El|]; destruct at_; [done|]; cbn in El, E; congruence).
      cbn [split_from] in Eb. change ("@"%ch =? "."%ch) with false in Eb. cbn match in Eb.
      destruct (split_from_prefix "."%ch l ([] ++ ["@"%ch])) as (t & fs & Et). rewrite Et in Eb. apply Forall_cons in Eb as [[_ Hb] _].
      apply Forall_cons in Hb as [Hb _]. unfold breaks_822 in Hb. rewrite Hx in Hb. cbn in Hb. by destruct (has flags _).
    + rewrite <- (take_drop at_ addr) at 1. rewrite (unquote_plain_domain _ _ []); [cbn; by rewrite take_drop|by eapply dot_atoms_plain|done].
  - unfold make_821_quoted_string. set (body := escape _ _).
    assert (Hq : quoted_text flags body (take at_ addr)) by (apply escape_quoted, needs_821_spec).
    exists (34 :: body ++ 34 :: drop at_ addr). split; [by rewrite <- !app_assoc|]. apply Hu; [done|].
    rewrite (unquote_quoted_domain flags _ _ _ [] Hq Hd). cbn. by rewrite take_drop.
Qed.
