(* ===== verification/Tok822.v ===== *)
(** RFC 822 address tokens: the tokenizer, the parser and the printers of tok822_parse.c
    and tok822_tree.c (src/src/global).

    A token list is a list; moving tokens between lists is what tok822_append(),
    tok822_prepend(), tok822_unlink(), tok822_cut_before() and tok822_sub_append() do with
    pointers. *)

From S2P Require Export Quote822.

(** ** Tokens *)

(** [Op] is a single-character operator. The members of an [Addr] know their owner when
    tok822_sub_append() put them there, and do not when tok822_scan_addr() did. *)
Inductive token :=
  | Op (c : Z)
  | Atom (s : bytes)
  | Qstring (s : bytes)
  | Comment (s : bytes)
  | Domlit (s : bytes)
  | Addr (owned : bool) (members : list token)
  | Startgrp.

Definition tok822_opchar : bytes := str "|%!" ++ LEX_822_SPECIALS.
Definition is_opchar (ch : Z) : bool := existsb (Z.eqb ch) tok822_opchar.

(** ** The tokenizer *)

(** COLLECT(): the text up to a character for which [stop] holds, and the rest. *)
Fixpoint collect (stop : Z -> bool) (s : bytes) : bytes * bytes :=
  match s with
  | [] => ([], [])
  | c :: s' =>
      if c =? 92 then
        match s' with
        | [] => ([], [])
        | d :: s'' => let '(text, rest) := collect stop s'' in ((if IS_SPACE_TAB_CR_LF d then " "%ch else d) :: text, rest)
        end
      else if stop c then ([], s)
      else let '(text, rest) := collect stop s' in ((if IS_SPACE_TAB_CR_LF c then " "%ch else c) :: text, rest)
  end.
(** COLLECT_SKIP_LAST() *)
Definition collect_skip_last (stop : Z -> bool) (s : bytes) : bytes * bytes :=
  let '(text, rest) := collect stop s in (text, tail rest).

(** The loop of tok822_comment(). *)
Fixpoint comment_loop (level : Z) (s : bytes) : bytes * bytes :=
  match s with
  | [] => ([], [])
  | ch :: s' =>
      if ch =? "("%ch then let '(text, rest) := comment_loop (level + 1) s' in (ch :: text, rest)
      else if ch =? ")"%ch then
        if level - 1 =? 0 then ([ch], s')
        else let '(text, rest) := comment_loop (level - 1) s' in (ch :: text, rest)
      else if ch =? 92 then
        match s' with
        | [] => ([ch], [])
        | d :: s'' => let '(text, rest) := comment_loop level s'' in (ch :: d :: text, rest)
        end
      else let '(text, rest) := comment_loop level s' in (ch :: text, rest)
  end.
Definition tok822_comment (s : bytes) : bytes * bytes :=
  let '(text, rest) := comment_loop 1 s in ("("%ch :: text, rest).

Definition needs_quotes (ch : Z) : bool := (ch =? " "%ch) || ISCNTRL ch || is_opchar ch.
Definition tok822_quote_atom (s : bytes) : token := if existsb needs_quotes s then Qstring s else Atom s.

(** The token that starts with [ch], where [s] follows. *)
Definition scan_token (ch : Z) (s : bytes) : token * bytes :=
  if ch =? "("%ch then let '(text, rest) := tok822_comment s in (Comment text, rest)
  else if ch =? "["%ch then let '(text, rest) := collect_skip_last (fun c => c =? "]"%ch) s in (Domlit text, rest)
  else if ch =? 34 then let '(text, rest) := collect_skip_last (fun c => c =? 34) s in (Qstring text, rest)
  else if negb (ch =? 92) && is_opchar ch then (Op ch, s)
  else let '(text, rest) := collect (fun c => IS_SPACE_TAB_CR_LF c || is_opchar c) (ch :: s) in (tok822_quote_atom text, rest).

(** Each round takes at least one character: the length of the string is enough fuel. *)
Fixpoint scan_loop (fuel : nat) (tok_count_limit tok_count : Z) (s : bytes) : list token :=
  match fuel, s with
  | S fuel, ch :: s =>
      if IS_SPACE_TAB_CR_LF ch then scan_loop fuel tok_count_limit tok_count s
      else
        let '(tp, rest) := scan_token ch s in
        let tok_count := if tok_count_limit >? 0 then tok_count + 1 else tok_count in
        if (tok_count_limit >? 0) && (tok_count >=? tok_count_limit) then [tp]
        else tp :: scan_loop fuel tok_count_limit tok_count rest
  | _, _ => []
  end.
Definition tok822_scan_limit (s : bytes) (tok_count_limit : Z) : list token := scan_loop (length s) tok_count_limit 0 s.
Definition tok822_scan (s : bytes) : list token := tok822_scan_limit s 0.
Definition tok822_scan_addr (addr : bytes) : token := Addr false (tok822_scan addr).

(** ** The parser *)

Definition DO_WORD : Z := Z.shiftl 1 0.
Definition DO_GROUP : Z := Z.shiftl 1 1.

Definition is_op (c : Z) (tp : token) : bool := match tp with Op x => x =? c | _ => false end.
Definition is_comment (tp : token) : bool := match tp with Comment _ => true | _ => false end.
Definition is_word (tp : token) : bool := match tp with Atom _ | Qstring _ | Domlit _ => true | _ => false end.

(** Where the pointers [tp] and [right] are: [pa_left] are the tokens up to [tp], last one
    first. [pa_gap] are the tokens between [tp] and [right], and [pa_right] those from [right]
    on; or [right] is [tp], and [pa_right] are those after it. *)
Record parser := mk_parser {
  pa_left : list token;
  pa_gap : option (list token);
  pa_right : list token;
  pa_state : Z
}.

(** tok822_group(): the tokens after [tp] when those in the gap are clustered. *)
Definition tok822_group (gap : option (list token)) (right : list token) (sync : bool) : list token :=
  match gap with
  | None | Some [] => right
  | Some mid => (if sync then [Op ","%ch] else []) ++ Addr true mid :: right
  end.

(** SKIP(): go left while [cond] holds. *)
Fixpoint skip (cond : token -> bool) (before after : list token) : list token * list token :=
  match before with
  | tp :: before' => if cond tp then skip cond before' (tp :: after) else (before, after)
  | [] => ([], after)
  end.
(** SKIP_MOVE_COMMENT(): the same, and comments move to [right]. *)
Fixpoint skip_move_comment (cond : token -> bool) (before mid after : list token) : list token * list token * list token :=
  match before with
  | tp :: before' =>
      if cond tp then
        if is_comment tp then skip_move_comment cond before' mid (tp :: after)
        else skip_move_comment cond before' (tp :: mid) after
      else (before, mid, after)
  | [] => ([], mid, after)
  end.

(** [tp = tp->prev] *)
Definition go_left (tp : token) (before : list token) (gap : option (list token)) (after : list token) (state : Z) : parser :=
  match gap with
  | Some mid => mk_parser before (Some (tp :: mid)) after state
  | None => mk_parser before (Some []) (tp :: after) state
  end.

(** One round of the loop of tok822_parse_limit(), at token [tp]. *)
Definition parse_step (tp : token) (before : list token) (gap : option (list token)) (after : list token) (state : Z) : outcome parser :=
  if is_comment tp then
    match gap with
    | Some mid => Ret (mk_parser before (Some mid) (tp :: after) state)
    | None => Undef
    end
  else if is_op ";"%ch tp then
    Ret (mk_parser before (Some []) (tp :: tok822_group gap after true) (Z.lor DO_GROUP DO_WORD))
  else if is_op ":"%ch tp && has state DO_GROUP then
    let '(before, after) := skip (fun tp => negb (is_op ","%ch tp)) before (Startgrp :: tok822_group gap after false) in
    Ret (mk_parser before None after state)
  else if is_op ">"%ch tp then
    let '(before, mid, after) := skip_move_comment (fun tp => negb (is_op "<"%ch tp)) before [] (tp :: tok822_group gap after true) in
    let after := tok822_group (Some mid) after false in
    let '(before, after) := skip (fun tp => negb (is_op ">"%ch tp || is_op ";"%ch tp || is_op ","%ch tp || is_op ":"%ch tp)) before after in
    Ret (mk_parser before None after (Z.lor state DO_WORD))
  else if is_word tp then
    if has state DO_WORD then Ret (go_left tp before gap after (Z.land state (Z.lnot DO_WORD)))
    else Ret (mk_parser before (Some [tp]) (tok822_group gap after true) (Z.land state (Z.lnot DO_WORD)))
  else if is_op ","%ch tp then
    Ret (mk_parser before (Some []) (tp :: tok822_group gap after false) (Z.lor state DO_WORD))
  else Ret (go_left tp before gap after (Z.lor state DO_WORD)).

(** The number of tokens is enough fuel: every round goes left. *)
Fixpoint parse_loop (fuel : nat) (pa : parser) : outcome (list token) :=
  match pa_left pa, fuel with
  | [], _ => Ret (tok822_group (pa_gap pa) (pa_right pa) false)
  | tp :: before, S fuel => pa ← parse_step tp before (pa_gap pa) (pa_right pa) (pa_state pa); parse_loop fuel pa
  | _ :: _, O => Undef
  end.
Definition tok822_parse_limit (s : bytes) (tok_count_limit : Z) : outcome (list token) :=
  let toks := tok822_scan_limit s tok_count_limit in
  parse_loop (length toks) (mk_parser (reverse toks) (Some []) [] DO_WORD).

(** ** The printers *)

Definition TOK822_STR_WIPE : Z := Z.shiftl 1 0.
Definition TOK822_STR_LINE : Z := Z.shiftl 1 2.
Definition TOK822_STR_TRNC : Z := Z.shiftl 1 3.

Definition NON_OPERATOR (tp : token) : bool := match tp with Atom _ | Qstring _ | Comment _ | Domlit _ | Addr _ _ => true | _ => false end.
(** Whether space is needed after a token; [owned] tells whether it has an owner. *)
Definition tok822_append_space (owned : bool) (tp : token) (rest : list token) : bool :=
  match rest with
  | [] => false
  | next :: _ =>
      if owned then false
      else if is_op ","%ch tp || (match tp with Startgrp => true | _ => false end) || is_op "<"%ch next then true
      else NON_OPERATOR tp && NON_OPERATOR next
  end.
Definition space_after (owned : bool) (tp : token) (rest : list token) : bytes := if tok822_append_space owned tp rest then [" "%ch] else [].

(** The internal form of a token, on a line. *)
Fixpoint token_text (tp : token) : bytes :=
  match tp with
  | Op c => [c]
  | Atom s | Qstring s | Comment s => s
  | Domlit s => "["%ch :: s ++ ["]"%ch]
  | Startgrp => [":"%ch]
  | Addr owned members =>
      (fix members_text (l : list token) : bytes :=
         match l with
         | [] => []
         | tp :: l => token_text tp ++ space_after owned tp l ++ members_text l
         end) members
  end.
Fixpoint internalize_loop (owned : bool) (flags : Z) (tree : list token) : bytes :=
  match tree with
  | [] => []
  | tp :: rest =>
      (if is_op ","%ch tp && has flags TOK822_STR_LINE then [","%ch; 10] else token_text tp ++ space_after owned tp rest)
      ++ internalize_loop owned flags rest
  end.
Definition tok822_internalize (vp : bytes) (owned : bool) (tree : list token) (flags : Z) : bytes :=
  (if has flags TOK822_STR_WIPE then [] else vp) ++ internalize_loop owned flags tree.

Definition tok822_copy_quoted (str quote_set : bytes) : bytes := escape (fun ch => existsb (Z.eqb ch) quote_set) str.

(** Plain <address>; [head] is the list of the address, empty if there is none. *)
Definition strip_address (vp : bytes) (start : nat) (owned : bool) (head : list token) : bytes :=
  let vp := take start vp ++ ["<"%ch] in
  (match head with
   | [] => vp
   | _ => quote_822_local_flags vp (tok822_internalize [] owned head 0) (Z.lor QUOTE_FLAG_8BITCLEAN QUOTE_FLAG_APPEND)
   end) ++ [">"%ch].

Definition MAX_NONADDR_LENGTH : Z := 250.
(** ENFORCE_NONADDR_LENGTH *)
Definition enforce_nonaddr_length (vp : bytes) (start : nat) (addr : option (bool * list token)) (addr_len : Z) : bytes :=
  match addr with
  | Some (owned, head) =>
      if Z.of_nat (length vp) - addr_len >? Z.of_nat start + MAX_NONADDR_LENGTH then strip_address vp start owned head else vp
  | None => vp
  end.

(** The loop of tok822_externalize(), with its variables. *)
Fixpoint externalize_loop (owned : bool) (flags : Z) (tree : list token) (vp : bytes) (start : nat)
    (addr : option (bool * list token)) (addr_len : Z) : bytes :=
  match tree with
  | [] => if has flags TOK822_STR_TRNC then enforce_nonaddr_length vp start addr addr_len else vp
  | tp :: rest =>
      let space := space_after owned tp rest in
      match tp with
      | Op c =>
          if c =? ","%ch then
            let vp := if has flags TOK822_STR_TRNC then enforce_nonaddr_length vp start addr addr_len else vp in
            let vp := vp ++ [","%ch; if has flags TOK822_STR_LINE then 10 else " "%ch] in
            if has flags TOK822_STR_TRNC then externalize_loop owned flags rest vp (length vp) None 0
            else externalize_loop owned flags rest vp start addr addr_len
          else if (c =? "<"%ch) && (match rest with next :: _ => is_op ">"%ch next | [] => false end) then
            externalize_loop owned flags rest (vp ++ ["<"%ch] ++ space) start (Some (false, [])) 0
          else externalize_loop owned flags rest (vp ++ [c] ++ space) start addr addr_len
      | Addr o head =>
          let text := quote_822_local_flags [] (tok822_internalize [] o head 0) (Z.lor QUOTE_FLAG_8BITCLEAN QUOTE_FLAG_APPEND) in
          externalize_loop owned flags rest (vp ++ text ++ space) start (Some (o, head)) (Z.of_nat (length text))
      | Atom s | Comment s => externalize_loop owned flags rest (vp ++ s ++ space) start addr addr_len
      | Qstring s =>
          externalize_loop owned flags rest (vp ++ [34] ++ tok822_copy_quoted s [34; 92; 13; 10] ++ [34] ++ space) start addr addr_len
      | Domlit s =>
          externalize_loop owned flags rest (vp ++ ["["%ch] ++ tok822_copy_quoted s [92; 13; 10] ++ ["]"%ch] ++ space) start addr addr_len
      | Startgrp => externalize_loop owned flags rest (vp ++ [":"%ch] ++ space) start addr addr_len
      end
  end.
Definition tok822_externalize (vp : bytes) (owned : bool) (tree : list token) (flags : Z) : bytes :=
  let vp := if has flags TOK822_STR_WIPE then [] else vp in
  externalize_loop owned flags tree vp (length vp) None 0.

(** ** Parsing loses nothing *)

(** The tokens of a tree, as the tokenizer gave them. *)
Fixpoint flatten (tp : token) : list token :=
  match tp with
  | Addr _ members => flat_map flatten members
  | Startgrp => [Op ":"%ch]
  | _ => [tp]
  end.
Definition words (l : list token) : list token := List.filter (fun tp => negb (is_comment tp)) (flat_map flatten l).
Definition comments (l : list token) : list token := List.filter is_comment (flat_map flatten l).

Lemma words_app l1 l2 : words (l1 ++ l2) = words l1 ++ words l2.
Proof. unfold words. by rewrite flat_map_app, List.filter_app. Qed.
Lemma comments_app l1 l2 : comments (l1 ++ l2) = comments l1 ++ comments l2.
Proof. unfold comments. by rewrite flat_map_app, List.filter_app. Qed.

(** The second list is the first one with commas added. *)
Inductive adds_commas : list token -> list token -> Prop :=
  | ac_nil : adds_commas [] []
  | ac_keep tp l l' : adds_commas l l' -> adds_commas (tp :: l) (tp :: l')
  | ac_comma l l' : adds_commas l l' -> adds_commas l (Op ","%ch :: l').
Create HintDb tok822.
#[export] Hint Constructors adds_commas : tok822.

Lemma adds_commas_refl l : adds_commas l l.
Proof. induction l; auto with tok822. Qed.
Lemma adds_commas_trans l1 l2 l3 : adds_commas l1 l2 -> adds_commas l2 l3 -> adds_commas l1 l3.
Proof.
  intros H1 H2. revert l1 H1. induction H2 as [|tp l l' H IH|l l' H IH]; intros l1 H1; [done| |auto with tok822].
  inversion H1; subst; auto with tok822.
Qed.
Lemma adds_commas_app l1 l2 r1 r2 : adds_commas l1 r1 -> adds_commas l2 r2 -> adds_commas (l1 ++ l2) (r1 ++ r2).
Proof. induction 1; cbn; auto with tok822. Qed.

(** The same comments, and the same other tokens up to added commas, in the same order. *)
Definition same_text (l l' : list token) : Prop := adds_commas (words l) (words l') /\ comments l = comments l'.
#[export] Instance same_text_preorder : PreOrder same_text.
Proof.
  split; [intros l; split; [apply adds_commas_refl|done]|].
  intros l1 l2 l3 [A1 A2] [B1 B2]. split; [by eapply adds_commas_trans|congruence].
Qed.
#[export] Instance same_text_app : Proper (same_text ==> same_text ==> same_text) app.
Proof.
  intros l1 l1' [A1 A2] l2 l2' [B1 B2]. unfold same_text. rewrite !words_app, !comments_app, A2, B2. split; [by apply adds_commas_app|done].
Qed.

Lemma same_text_reflexive l l' : l = l' -> same_text l l'.
Proof. by intros ->. Qed.

(** A comment moves to the right of tokens that are not comments. *)
Lemma same_text_comment tp mid after : is_comment tp = true -> comments mid = [] -> same_text (tp :: mid ++ after) (mid ++ tp :: after).
Proof.
  intros Ht Hm. destruct tp; try done. unfold same_text. change (?x :: ?l) with ([x] ++ l).
  rewrite !words_app, !comments_app, Hm. split; [apply adds_commas_refl|done].
Qed.

Lemma same_text_group gap after sync : same_text (default [] gap ++ after) (tok822_group gap after sync).
Proof.
  destruct gap as [[|tp mid]|]; cbn [tok822_group default]; [done| |done].
  set (m := tp :: mid). change (Addr true m :: after) with ([Addr true m] ++ after).
  assert (E : words [Addr true m] = words m /\ comments [Addr true m] = comments m) by (unfold words, comments; cbn; by rewrite app_nil_r).
  destruct E as [E1 E2]. unfold same_text. rewrite !words_app, !comments_app, E1, E2. destruct sync; cbn; (split; [|done]).
  - constructor. apply adds_commas_refl.
  - apply adds_commas_refl.
Qed.

Lemma skip_spec cond before after : forall before' after', skip cond before after = (before', after') ->
  reverse before ++ after = reverse before' ++ after' /\ (length before' <= length before)%nat /\
  match before' with tp :: _ => cond tp = false | [] => True end.
Proof.
  revert after. induction before as [|tp before IH]; intros after before' after'; cbn [skip]; [by intros [= <- <-]|].
  destruct (cond tp) eqn:E; [|by intros [= <- <-]]. intros H. destruct (IH _ _ _ H) as (H1 & H2 & H3).
  rewrite <- H1, reverse_cons, <- app_assoc. split; [done|]. split; [cbn; lia|done].
Qed.

(** What the tokenizer gives has no groups. *)
Definition ungrouped (tp : token) : Prop := match tp with Addr _ _ | Startgrp => False | _ => True end.

(** What an address is made of. *)
Definition member (tp : token) : Prop := ungrouped tp /\ is_comment tp = false.
Definition well_grouped (tp : token) : Prop :=
  match tp with Addr owned members => owned = true /\ members <> [] /\ Forall member members | _ => True end.

Lemma members_no_comments mid : Forall member mid -> comments mid = [].
Proof.
  induction 1 as [|tp mid [Hu Hc] _ IH]; [done|]. change (tp :: mid) with ([tp] ++ mid). rewrite comments_app, IH. by destruct tp.
Qed.
Lemma ungrouped_well_grouped tp : ungrouped tp -> well_grouped tp.
Proof. by destruct tp. Qed.
Lemma group_well_grouped gap after sync : Forall member (default [] gap) -> Forall well_grouped after -> Forall well_grouped (tok822_group gap after sync).
Proof.
  destruct gap as [[|tp mid]|]; cbn [tok822_group default]; [done| |done]. intros Hm Ha.
  assert (Hw : well_grouped (Addr true (tp :: mid))) by by split_and!. destruct sync; cbn [app]; by repeat apply Forall_cons_2.
Qed.

Lemma skip_move_spec cond before : Forall ungrouped before -> forall mid after before' mid' after',
  skip_move_comment cond before mid after = (before', mid', after') -> Forall member mid -> Forall well_grouped after ->
  same_text (reverse before ++ mid ++ after) (reverse before' ++ mid' ++ after') /\ (length before' <= length before)%nat /\
  Forall ungrouped before' /\ Forall member mid' /\ Forall well_grouped after'.
Proof.
  induction 1 as [|tp before Htp Hb IH]; intros mid after before' mid' after'; cbn [skip_move_comment]; [by intros [= <- <- <-]|].
  destruct (cond tp); [|intros [= <- <- <-] ? ?; split_and!; [done|done|by constructor|done|done]]. destruct (is_comment tp) eqn:Ec; intros H Hm Ha.
  - destruct (IH _ _ _ _ _ H Hm) as (H1 & H2 & H3); [by constructor; [apply ungrouped_well_grouped|]|]. split; [|split; [cbn; lia|done]].
    rewrite reverse_cons, <- app_assoc. cbn [app]. etrans; [|exact H1]. apply same_text_app; [done|]. by apply same_text_comment, members_no_comments.
  - destruct (IH _ _ _ _ _ H) as (H1 & H2 & H3); [by constructor|done|]. split; [|split; [cbn; lia|done]].
    rewrite reverse_cons, <- app_assoc. exact H1.
Qed.

Lemma skip_ungrouped cond before after before' after' : skip cond before after = (before', after') -> Forall ungrouped before -> Forall well_grouped after ->
  Forall ungrouped before' /\ Forall well_grouped after'.
Proof.
  revert after. induction before as [|tp before IH]; intros after; cbn [skip]; [by intros [= <- <-]|].
  destruct (cond tp); [|by intros [= <- <-]]. intros H [Ht Hb]%Forall_cons Ha. eapply IH; [exact H|done|]. constructor; [by apply ungrouped_well_grouped|done].
Qed.

(** All tokens, in the order of the list that the pointers make. *)
Definition pa_tokens (pa : parser) : list token := reverse (pa_left pa) ++ default [] (pa_gap pa) ++ pa_right pa.
Record parser_ok (pa : parser) : Prop := mk_parser_ok {
  po_left : Forall ungrouped (pa_left pa);
  po_gap : Forall member (default [] (pa_gap pa));
  po_right : Forall well_grouped (pa_right pa);
  po_same : pa_gap pa = None -> match pa_left pa with tp :: _ => is_comment tp = false | [] => True end
}.

Lemma cons_group tp gap after sync : same_text (tp :: default [] gap ++ after) (tp :: tok822_group gap after sync).
Proof. change (?x :: ?l) with ([x] ++ l). apply (same_text_app [tp]); [done|apply same_text_group]. Qed.

Lemma parse_step_ok tp before gap after state : parser_ok (mk_parser (tp :: before) gap after state) ->
  exists pa, parse_step tp before gap after state = Ret pa /\ parser_ok pa /\ (length (pa_left pa) <= length before)%nat /\
    same_text (pa_tokens (mk_parser (tp :: before) gap after state)) (pa_tokens pa).
Proof.
  intros [Hl Hg Hr Hs]. cbn in Hl, Hg, Hr, Hs. apply Forall_cons in Hl as [Htp Hl]. unfold pa_tokens. cbn [pa_left pa_gap pa_right].
  rewrite reverse_cons, <- app_assoc. cbn [app]. unfold parse_step. pose proof (ungrouped_well_grouped tp Htp) as Hw.
  assert (Hgr : forall sync, Forall well_grouped (tp :: tok822_group gap after sync)) by (intros sync; constructor; [done|by apply group_well_grouped]).
  destruct (is_comment tp) eqn:Ec.
  { destruct gap as [mid|]; [|by specialize (Hs eq_refl)]. eexists. split; [done|]. cbn [pa_left pa_gap pa_right default]. split; [by repeat constructor|].
    split; [done|]. apply same_text_app; [done|]. by apply same_text_comment, members_no_comments. }
  assert (Hgo : forall st, exists pa, Ret (go_left tp before gap after st) = Ret pa /\ parser_ok pa /\ (length (pa_left pa) <= length before)%nat /\
    same_text (reverse before ++ tp :: default [] gap ++ after) (reverse (pa_left pa) ++ default [] (pa_gap pa) ++ pa_right pa)).
  { intros st. eexists. split; [done|]. unfold go_left. destruct gap as [mid|]; cbn [pa_left pa_gap pa_right default app]; split; try done; by repeat constructor. }
  case_match.
  { eexists. split; [done|]. cbn [pa_left pa_gap pa_right default app]. split; [by split; [|constructor|apply Hgr|]|]. split; [done|]. apply same_text_app; [done|]. apply cons_group. }
  destruct (is_op ":"%ch tp && has state DO_GROUP) eqn:Eg.
  { destruct (skip _ before _) as [b r] eqn:E. eexists. split; [done|]. cbn [pa_left pa_gap pa_right default app].
    destruct (skip_ungrouped _ _ _ _ _ E Hl) as [Hl' Hr']; [by constructor; [|apply group_well_grouped]|].
    apply skip_spec in E as (E1 & E2 & E3). split; [|split; [done|]].
    - split; [done..|]. intros _. cbn. destruct b as [|y b]; [done|]. apply negb_false_iff in E3. by destruct y.
    - rewrite <- E1. apply same_text_app; [done|]. apply andb_prop in Eg as [Eg _]. destruct tp; try done. apply Z.eqb_eq in Eg as ->.
      change (?x :: ?l) with ([x] ++ l). apply same_text_app; [|apply same_text_group]. split; [apply adds_commas_refl|done]. }
  case_match.
  { destruct (skip_move_comment _ before _ _) as [[b m] r] eqn:E. destruct (skip _ b _) as [b2 r2] eqn:E'. eexists. split; [done|].
    cbn [pa_left pa_gap pa_right default app]. destruct (skip_move_spec _ _ Hl _ _ _ _ _ E ltac:(done) (Hgr _)) as (E1 & E2 & Hl1 & Hm1 & Hr1).
    destruct (skip_ungrouped _ _ _ _ _ E' Hl1) as [Hl2 Hr2]; [by apply group_well_grouped|]. apply skip_spec in E' as (E3 & E4 & E5). split; [|split; [lia|]].
    - split; [done..|]. intros _. cbn. destruct b2 as [|y b2]; [done|]. apply negb_false_iff in E5. by destruct y.
    - rewrite <- E3. etrans; [apply same_text_app; [reflexivity|apply cons_group]|]. etrans; [exact E1|]. apply same_text_app; [done|].
      apply (same_text_group (Some m)). }
  case_match.
  { case_match; [apply Hgo|]. eexists. split; [done|]. cbn [pa_left pa_gap pa_right default app]. split; [|split; [done|]].
    - split; [done|by repeat constructor|by apply group_well_grouped|done].
    - apply same_text_app; [done|]. apply cons_group. }
  case_match; [|apply Hgo].
  eexists. split; [done|]. cbn [pa_left pa_gap pa_right default app]. split; [by split; [|constructor|apply Hgr|]|]. split; [done|]. apply same_text_app; [done|]. apply cons_group.
Qed.

Lemma parse_loop_ok fuel pa : parser_ok pa -> (length (pa_left pa) <= fuel)%nat ->
  exists tree, parse_loop fuel pa = Ret tree /\ same_text (pa_tokens pa) tree /\ Forall well_grouped tree.
Proof.
  revert pa. induction fuel as [|fuel IH]; intros [before gap after state] Hok Hf; cbn [pa_left] in Hf; destruct before as [|tp before]; cbn [length] in Hf; try lia.
  1,2: eexists; split; [done|]; unfold pa_tokens; cbn [pa_left pa_gap pa_right]; split; [apply same_text_group|]; apply group_well_grouped; apply Hok.
  cbn [parse_loop pa_left pa_gap pa_right pa_state]. destruct (parse_step_ok _ _ _ _ _ Hok) as (pa & -> & Hok' & Hlen & Hsame).
  cbn [mbind outcome_bind]. destruct (IH pa Hok') as (tree & -> & H & Hw); [lia|]. exists tree. split; [done|]. split; [by etrans|done].
Qed.

(** ** Scanning *)

Lemma collect_length stop s : (length (snd (collect stop s)) <= length s)%nat.
Proof.
  enough (H : forall n s, (length s <= n)%nat -> (length (snd (collect stop s)) <= length s)%nat) by by apply (H (length s)).
  clear s. induction n as [|n IH]; intros s Hn; destruct s as [|c s]; cbn [length] in Hn; try lia; [done..|]. cbn [collect].
  case_match; [destruct s as [|d s]; [cbn; lia|]|case_match; [done|]].
  - specialize (IH s ltac:(cbn in Hn; lia)). destruct (collect stop s). cbn in *. lia.
  - specialize (IH s ltac:(lia)). destruct (collect stop s). cbn in *. lia.
Qed.
Lemma comment_length s : forall level, (length (snd (comment_loop level s)) <= length s)%nat.
Proof.
  enough (H : forall n s level, (length s <= n)%nat -> (length (snd (comment_loop level s)) <= length s)%nat) by (intros level; by apply (H (length s))).
  clear s. induction n as [|n IH]; intros s level Hn; destruct s as [|c s]; cbn [length] in Hn; try lia; [done..|]. cbn [comment_loop].
  assert (IH' : forall level, (length (snd (comment_loop level s)) <= length s)%nat) by (intros; apply IH; lia).
  repeat case_match; cbn [snd length]; try lia; try (by specialize (IH' (level + 1)); case_match; cbn in *; lia).
  all: match goal with H : comment_loop ?l ?x = _ |- _ => pose proof (IH x l ltac:(cbn in Hn; lia)) as H'; rewrite H in H'; cbn in H'; cbn; lia end.
Qed.

Definition atom_end (c : Z) : bool := IS_SPACE_TAB_CR_LF c || is_opchar c.

Lemma scan_token_rest ch s tp rest : IS_SPACE_TAB_CR_LF ch = false -> scan_token ch s = (tp, rest) -> (length rest <= length s)%nat /\ ungrouped tp.
Proof.
  intros Hsp. unfold scan_token, tok822_comment, collect_skip_last.
  assert (Hc : forall stop, (length (tail (snd (collect stop s))) <= length s)%nat).
  { intros stop. pose proof (collect_length stop s). destruct (snd _); cbn in *; lia. }
  case_match.
  { pose proof (comment_length s 1) as Hl. destruct (comment_loop 1 s). by intros [= <- <-]. }
  case_match; [specialize (Hc (fun c => c =? "]"%ch)); destruct (collect _ s); by intros [= <- <-]|].
  case_match; [specialize (Hc (fun c => c =? 34)); destruct (collect _ s); by intros [= <- <-]|].
  case_match; [by intros [= <- <-]|]. fold atom_end. destruct (collect atom_end (ch :: s)) as [text r] eqn:E. intros [= <- <-].
  split; [|unfold tok822_quote_atom; by case_match]. cbn [collect] in E. destruct (Z.eqb_spec ch 92) as [-> |Hn].
  - destruct s as [|d s]; [by injection E as <- <-|]. pose proof (collect_length atom_end s) as Hl. destruct (collect atom_end s). injection E as <- <-. cbn in *. lia.
  - unfold atom_end in E at 1. rewrite Hsp in E. cbn [orb] in E. destruct (is_opchar ch); [done|]. pose proof (collect_length atom_end s) as Hl.
    destruct (collect atom_end s). by injection E as <- <-.
Qed.

Lemma scan_loop_fuel n : forall m limit count s, (length s <= n)%nat -> (length s <= m)%nat -> scan_loop n limit count s = scan_loop m limit count s.
Proof.
  induction n as [|n IH]; intros m limit count s Hn Hm; destruct s as [|ch s]; cbn [length] in *; try lia; [by destruct m..|].
  destruct m as [|m]; [lia|]. cbn [scan_loop]. destruct (IS_SPACE_TAB_CR_LF ch) eqn:Es; [apply IH; lia|].
  destruct (scan_token ch s) as [tp rest] eqn:E. destruct (scan_token_rest _ _ _ _ Es E) as [Hr _]. case_match; [done|]. f_equal. apply IH; lia.
Qed.

Lemma scan_space ch s : IS_SPACE_TAB_CR_LF ch = true -> tok822_scan (ch :: s) = tok822_scan s.
Proof. intros H. unfold tok822_scan, tok822_scan_limit. cbn [length scan_loop]. by rewrite H. Qed.
Lemma scan_cons ch s tp rest : IS_SPACE_TAB_CR_LF ch = false -> scan_token ch s = (tp, rest) -> tok822_scan (ch :: s) = tp :: tok822_scan rest.
Proof.
  intros Hs H. unfold tok822_scan, tok822_scan_limit. cbn [length scan_loop]. rewrite Hs, H. change (0 >? 0) with false. cbn [andb]. f_equal.
  destruct (scan_token_rest _ _ _ _ Hs H). by apply scan_loop_fuel.
Qed.

Lemma scan_loop_ungrouped n : forall limit count s, Forall ungrouped (scan_loop n limit count s).
Proof.
  induction n as [|n IH]; intros limit count s; cbn [scan_loop]; [constructor|]. destruct s as [|ch s]; [constructor|].
  destruct (IS_SPACE_TAB_CR_LF ch) eqn:Es; [done|]. destruct (scan_token ch s) as [tp rest] eqn:E.
  destruct (scan_token_rest _ _ _ _ Es E) as [_ Hu]. case_match; by repeat constructor.
Qed.

(** A limit on the number of tokens leaves out the others. *)
Lemma scan_loop_limit n : forall limit count s, 0 < limit -> 0 <= count < limit ->
  scan_loop n limit count s = take (Z.to_nat (limit - count)) (scan_loop n 0 0 s).
Proof.
  induction n as [|n IH]; intros limit count s Hl Hc; cbn [scan_loop]; [by rewrite take_nil|]. destruct s as [|ch s]; [by rewrite take_nil|].
  case_match; [by apply IH|]. destruct (scan_token ch s) as [tp rest]. rewrite (proj2 (Z.gtb_lt limit 0)) by lia. change (0 >? 0) with false. cbn [andb].
  destruct (Z.to_nat (limit - count)) as [|k] eqn:Ek; [lia|]. cbn [take]. case_match.
  - assert (k = 0%nat) as -> by lia. done.
  - f_equal. rewrite IH by lia. f_equal. lia.
Qed.

Lemma scan_loop_no_limit n : forall limit count s, limit <= 0 -> scan_loop n limit count s = scan_loop n 0 0 s.
Proof.
  induction n as [|n IH]; intros limit count s Hl; cbn [scan_loop]; [done|]. destruct s as [|ch s]; [done|].
  assert ((limit >? 0) = false) as -> by lia. change (0 >? 0) with false. cbn [andb]. case_match; [by apply IH|]. case_match. by rewrite IH.
Qed.

(** C22: Parsing an address list never fails, and throws nothing away that it does not
    understand: the tree has the tokens of the string, in order and at most as many as the
    limit allows, with the comments moved out of addresses and commas added between
    addresses; and every address is a nonempty list of tokens that are neither comments nor
    addresses. *)
Theorem tok822_parse_complete s limit : exists tree, tok822_parse_limit s limit = Ret tree /\
  same_text (if decide (0 < limit) then take (Z.to_nat limit) (tok822_scan s) else tok822_scan s) tree /\ Forall well_grouped tree.
Proof.
  unfold tok822_parse_limit. set (toks := tok822_scan_limit s limit).
  assert (Et : toks = if decide (0 < limit) then take (Z.to_nat limit) (tok822_scan s) else tok822_scan s).
  { unfold toks, tok822_scan, tok822_scan_limit. case_decide as Hl; [rewrite scan_loop_limit by lia; f_equal; lia|].
    by apply scan_loop_no_limit; lia. }
  rewrite <- Et. destruct (parse_loop_ok (length toks) (mk_parser (reverse toks) (Some []) [] DO_WORD)) as (tree & E & H & Hw).
  - split; cbn; [|constructor|constructor|done]. apply Forall_reverse, scan_loop_ungrouped.
  - cbn. by rewrite length_reverse.
  - exists tree. split; [done|]. split; [|done]. unfold pa_tokens in H. cbn [pa_left pa_gap pa_right default app] in H. by rewrite reverse_involutive, app_nil_r in H.
Qed.

(** ** Printing and scanning *)

Definition not_white (c : Z) : Prop := c <> 9 /\ c <> 13 /\ c <> 10.
Definition closed_comment (s : bytes) : Prop := exists body, s = "("%ch :: body /\ forall t, comment_loop 1 (body ++ t) = (body, t).
Definition open_comment (tp : token) : Prop := exists body, tp = Comment ("("%ch :: body) /\ comment_loop 1 body = (body, []).

(** What a token of the tokenizer looks like; only the last one can be an unfinished
    comment. *)
Definition scanned_token (tp : token) : Prop :=
  match tp with
  | Op c => is_opchar c = true /\ c <> "("%ch /\ c <> "["%ch /\ c <> 34 /\ c <> 92
  | Atom s => Forall (fun c => needs_quotes c = false) s
  | Qstring s | Domlit s => Forall not_white s
  | Comment s => closed_comment s
  | _ => False
  end.
Fixpoint scanned (l : list token) : Prop :=
  match l with
  | [] => True
  | tp :: rest => (scanned_token tp \/ rest = [] /\ open_comment tp) /\ scanned rest
  end.

Lemma collect_not_white stop s : Forall not_white (fst (collect stop s)).
Proof.
  enough (H : forall n s, (length s <= n)%nat -> Forall not_white (fst (collect stop s))) by by apply (H (length s)).
  assert (Hc : forall c, not_white (if IS_SPACE_TAB_CR_LF c then " "%ch else c)).
  { intros c. unfold not_white, IS_SPACE_TAB_CR_LF, IS_SPACE_TAB. case_match eqn:E; [done|]. zb. lia. }
  clear s. induction n as [|n IH]; intros s Hn; destruct s as [|c s]; cbn [length] in Hn; try lia; [constructor..|]. cbn [collect].
  case_match; [destruct s as [|d s]; [constructor|]|case_match; [constructor|]].
  - specialize (IH s ltac:(cbn in Hn; lia)). destruct (collect stop s). by constructor.
  - specialize (IH s ltac:(lia)). destruct (collect stop s). by constructor.
Qed.

Lemma comment_loop_spec n : forall s level text rest, (length s <= n)%nat -> comment_loop level s = (text, rest) ->
  (forall t, comment_loop level (text ++ t) = (text, t)) \/ (rest = [] /\ text = s).
Proof.
  induction n as [|n IH]; intros s level text rest Hn; destruct s as [|c s]; cbn [length] in Hn; try lia.
  1,2: cbn; intros [= <- <-]; by right.
  cbn [comment_loop]. destruct (c =? "("%ch) eqn:E1.
  { destruct (comment_loop (level + 1) s) as [x r] eqn:E. intros [= <- <-]. destruct (IH s _ _ _ ltac:(lia) E) as [H|[-> ->]]; [left|by right].
    intros t. cbn [app comment_loop]. by rewrite E1, H. }
  destruct (c =? ")"%ch) eqn:E2.
  { destruct (level - 1 =? 0) eqn:E3; [intros [= <- <-]; left; intros t; cbn [app comment_loop]; by rewrite E1, E2, E3|].
    destruct (comment_loop (level - 1) s) as [x r] eqn:E. intros [= <- <-]. destruct (IH s _ _ _ ltac:(lia) E) as [H|[-> ->]]; [left|by right].
    intros t. cbn [app comment_loop]. by rewrite E1, E2, E3, H. }
  destruct (c =? 92) eqn:E3.
  - destruct s as [|d s]; [intros [= <- <-]; by right|]. destruct (comment_loop level s) as [x r] eqn:E. intros [= <- <-].
    destruct (IH s _ _ _ ltac:(cbn in Hn; lia) E) as [H|[-> ->]]; [left|by right]. intros t. cbn [app comment_loop]. by rewrite E1, E2, E3, H.
  - destruct (comment_loop level s) as [x r] eqn:E. intros [= <- <-]. destruct (IH s _ _ _ ltac:(lia) E) as [H|[-> ->]]; [left|by right].
    intros t. cbn [app comment_loop]. by rewrite E1, E2, E3, H.
Qed.

Lemma scan_token_scanned ch s tp rest : scan_token ch s = (tp, rest) -> scanned_token tp \/ (rest = [] /\ open_comment tp).
Proof.
  unfold scan_token, tok822_comment, collect_skip_last. destruct (Z.eqb_spec ch "("%ch) as [-> |N1].
  { destruct (comment_loop 1 s) as [text r] eqn:E. intros [= <- <-].
    destruct (comment_loop_spec _ _ _ _ _ (le_n _) E) as [H|[-> ->]]; [left; by exists text|right; split; [done|]; by exists s]. }
  destruct (Z.eqb_spec ch "["%ch) as [-> |N2].
  { pose proof (collect_not_white (fun c => c =? "]"%ch) s) as H. destruct (collect _ s). intros [= <- <-]. by left. }
  destruct (Z.eqb_spec ch 34) as [-> |N3].
  { pose proof (collect_not_white (fun c => c =? 34) s) as H. destruct (collect _ s). intros [= <- <-]. by left. }
  destruct (Z.eqb_spec ch 92) as [-> |N4]; cbn [negb andb].
  2: destruct (is_opchar ch) eqn:Eo; [intros [= <- <-]; by left|].
  all: match goal with |- context [collect ?f ?x] => pose proof (collect_not_white f x) as H; destruct (collect f x) as [text r] end;
    intros [= <- <-]; left; unfold tok822_quote_atom; destruct (existsb needs_quotes text) eqn:Eq; [done|]; cbn;
    apply Forall_forall; intros c Hc%list_elem_of_In; apply not_true_is_false; intros Hb; assert (existsb needs_quotes text = true) by (apply existsb_exists; by exists c); congruence.
Qed.

Lemma scan_scanned s : scanned (tok822_scan s).
Proof.
  enough (H : forall n s, (length s <= n)%nat -> scanned (tok822_scan s)) by by apply (H (length s)). clear s.
  induction n as [|n IH]; intros s Hn; destruct s as [|ch s]; cbn [length] in Hn; try lia; [done..|].
  destruct (IS_SPACE_TAB_CR_LF ch) eqn:Es; [rewrite scan_space by done; apply IH; lia|]. destruct (scan_token ch s) as [tp rest] eqn:E.
  rewrite (scan_cons _ _ _ _ Es E). destruct (scan_token_rest _ _ _ _ Es E). split; [|apply IH; lia].
  destruct (scan_token_scanned _ _ _ _ E) as [|[-> ?]]; [by left|by right].
Qed.

(** The external form of tokens without groups, as far as no text is left out. *)
Definition external_text (tp : token) : bytes :=
  match tp with
  | Op c => [c]
  | Atom s | Comment s => s
  | Qstring s => [34] ++ tok822_copy_quoted s [34; 92; 13; 10] ++ [34]
  | Domlit s => ["["%ch] ++ tok822_copy_quoted s [92; 13; 10] ++ ["]"%ch]
  | _ => []
  end.
Definition separator (flags : Z) (tp : token) (rest : list token) : bytes :=
  if is_op ","%ch tp then [if has flags TOK822_STR_LINE then 10 else " "%ch] else space_after false tp rest.
Fixpoint external_list (flags : Z) (l : list token) : bytes :=
  match l with
  | [] => []
  | tp :: rest => external_text tp ++ separator flags tp rest ++ external_list flags rest
  end.

Lemma externalize_loop_flat flags l : has flags TOK822_STR_TRNC = false -> Forall ungrouped l -> forall vp start addr len,
  externalize_loop false flags l vp start addr len = vp ++ external_list flags l.
Proof.
  intros Hf. induction 1 as [|tp rest Hu _ IH]; intros vp start addr len; cbn [externalize_loop external_list]; rewrite ?Hf; [by rewrite app_nil_r|].
  unfold separator. destruct tp; cbn [ungrouped] in Hu; try done; cbn [is_op external_text].
  - destruct (c =? ","%ch) eqn:Ec; [apply Z.eqb_eq in Ec as ->; rewrite IH, <- app_assoc; by destruct (has flags TOK822_STR_LINE)|].
    case_match eqn:El; rewrite IH, <- !app_assoc; [|done]. by apply andb_prop in El as [->%Z.eqb_eq _].
  - by rewrite IH, <- !app_assoc.
  - rewrite IH, <- !app_assoc. done.
  - by rewrite IH, <- !app_assoc.
  - rewrite IH, <- !app_assoc. done.
Qed.

Lemma not_white_same c : not_white c -> (if IS_SPACE_TAB_CR_LF c then " "%ch else c) = c.
Proof. unfold not_white, IS_SPACE_TAB_CR_LF, IS_SPACE_TAB. intros H. case_match eqn:E; [|done]. zb. lia. Qed.

Lemma collect_escape stop needed s c t : Forall not_white s -> (forall x, x ∈ s -> needed x = true \/ x <> 92 /\ stop x = false) ->
  stop c = true -> c <> 92 -> collect stop (escape needed s ++ c :: t) = (s, c :: t).
Proof.
  intros Hs. induction Hs as [|x s Hx Hs IH]; intros Hn Hc H92.
  - cbn [escape map concat app collect]. by rewrite (proj2 (Z.eqb_neq _ _) H92), Hc.
  - pose proof (Hn x ltac:(by left)) as Hnx. unfold escape. cbn [map concat]. fold (escape needed s).
    specialize (IH (fun y Hy => Hn y (list_elem_of_further _ _ _ Hy)) Hc H92).
    destruct (needed x) eqn:E; cbn [app collect].
    + change (92 =? 92) with true. cbn match. by rewrite IH, not_white_same.
    + destruct Hnx as [|[H1 H2]]; [done|]. rewrite (proj2 (Z.eqb_neq _ _) H1), H2, IH. by rewrite not_white_same.
Qed.

Lemma existsb_none {A} (f : A -> bool) l : Forall (fun x => f x = false) l -> existsb f l = false.
Proof. induction 1 as [|x l Hx _ IH]; [done|]. cbn. by rewrite Hx. Qed.

Definition atom_stops (t : bytes) : Prop := match t with [] => True | c :: _ => atom_end c = true /\ c <> 92 end.
Lemma atom_char c : needs_quotes c = false -> not_white c /\ c <> 92 /\ atom_end c = false /\ c <> "("%ch /\ c <> "["%ch /\ c <> 34.
Proof.
  unfold needs_quotes, atom_end, not_white, ISCNTRL, IS_SPACE_TAB_CR_LF, IS_SPACE_TAB. intros H. zb. split; [lia|].
  assert (Hno : forall x, is_opchar x = true -> c <> x) by (intros x Hx ->; congruence).
  split; [by apply Hno|]. split; [|by split_and!; apply Hno]. match goal with H : is_opchar c = false |- _ => rewrite H end.
  rewrite !orb_false_r. repeat (apply orb_false_intro); apply Z.eqb_neq; lia.
Qed.

Lemma collect_atom s t : Forall (fun c => needs_quotes c = false) s -> atom_stops t -> collect atom_end (s ++ t) = (s, t).
Proof.
  intros Hs Ht. induction Hs as [|c s Hc _ IH].
  - destruct t as [|c t]; [done|]. destruct Ht as [H1 H2]. cbn [app collect]. by rewrite (proj2 (Z.eqb_neq _ _) H2), H1.
  - destruct (atom_char c Hc) as (H1 & H2 & H3 & _). cbn [app collect]. by rewrite (proj2 (Z.eqb_neq _ _) H2), H3, IH, not_white_same.
Qed.

Lemma opchar_end c : is_opchar c = true -> atom_end c = true /\ IS_SPACE_TAB_CR_LF c = false.
Proof.
  intros H. unfold atom_end. rewrite H, orb_true_r. split; [done|]. unfold is_opchar in H. apply existsb_exists in H as (x & Hx & ->%Z.eqb_eq).
  assert (Hf : forallb (fun x => negb (IS_SPACE_TAB_CR_LF x)) tok822_opchar = true) by by vm_compute.
  rewrite forallb_forall in Hf. by apply negb_true_iff, Hf.
Qed.

(** Tokens that are printed as they are scanned: no empty atom, which stands for a lone
    backslash at the end of a string, and no bracket in a domain literal. *)
Definition printable_token (tp : token) : Prop := match tp with Atom s => s <> [] | Domlit s => "]"%ch ∉ s | _ => True end.

Lemma scan_external tp t : scanned_token tp -> printable_token tp -> (is_word tp = true -> atom_stops t) ->
  tok822_scan (external_text tp ++ t) = tp :: tok822_scan t.
Proof.
  intros Hs Hp Ht. destruct tp as [c|s|s|s|s|o l|]; cbn [scanned_token printable_token external_text is_word] in *; try done.
  - destruct Hs as (Ho & N1 & N2 & N3 & N4). destruct (opchar_end c Ho) as [_ Hsp]. apply scan_cons; [done|]. unfold scan_token.
    by rewrite (proj2 (Z.eqb_neq _ _) N1), (proj2 (Z.eqb_neq _ _) N2), (proj2 (Z.eqb_neq _ _) N3), (proj2 (Z.eqb_neq _ _) N4), Ho.
  - destruct s as [|c s]; [done|]. pose proof (collect_atom (c :: s) t Hs (Ht eq_refl)) as Hcol. pose proof Hs as Hs'. apply Forall_cons in Hs' as [Hc _].
    destruct (atom_char c Hc) as (_ & N4 & He & N1 & N2 & N3). unfold atom_end in He. apply orb_false_iff in He as [Hsp Ho].
    apply scan_cons; [done|]. unfold scan_token.
    rewrite (proj2 (Z.eqb_neq _ _) N1), (proj2 (Z.eqb_neq _ _) N2), (proj2 (Z.eqb_neq _ _) N3), Ho, andb_false_r. fold atom_end.
    match goal with |- context [collect atom_end ?x] => change x with ((c :: s) ++ t) end. rewrite Hcol. unfold tok822_quote_atom. by rewrite existsb_none.
  - cbn [app]. rewrite <- app_assoc. cbn [app]. apply scan_cons; [done|]. unfold scan_token, collect_skip_last, tok822_copy_quoted.
    change (34 =? "("%ch) with false. change (34 =? "["%ch) with false. change (34 =? 34) with true. cbn match.
    rewrite collect_escape; [done|done| |done|done]. intros x _. cbn. zcases; auto.
  - destruct Hs as (body & -> & Hb). cbn [app]. apply scan_cons; [done|]. unfold scan_token, tok822_comment.
    change ("("%ch =? "("%ch) with true. cbn match. by rewrite Hb.
  - cbn [app]. rewrite <- app_assoc. cbn [app]. apply scan_cons; [done|]. unfold scan_token, collect_skip_last, tok822_copy_quoted.
    change ("["%ch =? "("%ch) with false. change ("["%ch =? "["%ch) with true. cbn match.
    rewrite collect_escape; [done|done| |done|done]. intros x Hx. assert (Hn : x <> "]"%ch) by (intros ->; done). cbn. zcases; auto.
Qed.

Lemma separator_space flags tp rest t : tok822_scan (separator flags tp rest ++ t) = tok822_scan t.
Proof. unfold separator, space_after. repeat case_match; cbn [app]; [..|done]; by rewrite scan_space. Qed.

(** A word is followed by space, an operator, or nothing. *)
Lemma separator_stops flags tp rest : is_word tp = true -> scanned rest -> atom_stops (separator flags tp rest ++ external_list flags rest).
Proof.
  intros Hw Hs. assert (Hno : NON_OPERATOR tp = true /\ is_op ","%ch tp = false /\ match tp with Startgrp => true | _ => false end = false) by by destruct tp.
  destruct Hno as (Hno & Hc & Hg). unfold separator, space_after, tok822_append_space. rewrite Hc, Hno, Hg. cbn [orb andb].
  destruct rest as [|next rest]; [done|]. destruct (is_op "<"%ch next) eqn:El; [by split|]. destruct (NON_OPERATOR next) eqn:En; [by split|].
  cbn [external_list app]. destruct Hs as [Hs _]. destruct next; try done.
  - destruct Hs as [(Ho & _ & _ & _ & N)|[_ (body & [=] & _)]]. cbn [external_text app]. split; [by apply opchar_end|done].
  - by destruct Hs as [|[_ (body & [=] & _)]].
Qed.

Lemma scan_external_list flags l : scanned l -> Forall printable_token l -> tok822_scan (external_list flags l) = l.
Proof.
  intros Hs Hp. induction Hp as [|tp rest Htp _ IH]; [done|]. cbn [external_list]. destruct Hs as [[Hs|[-> (body & -> & Hb)]] Hr].
  - rewrite scan_external; [by rewrite separator_space, IH|done|done|]. intros Hw. by apply separator_stops.
  - cbn [external_list app external_text separator is_op space_after tok822_append_space]. rewrite app_nil_r.
    rewrite (scan_cons _ _ (Comment ("("%ch :: body)) []); [done|done|]. unfold scan_token, tok822_comment. change ("("%ch =? "("%ch) with true. cbn match. by rewrite Hb.
Qed.

(** C23: Printing the tokens of a string in external form and scanning the result gives the
    same tokens, on one line or on several, whatever the string is; except that an empty
    atom (a backslash at the end of the string) and a domain literal with a closing
    bracket inside are not printed as they are scanned. *)
Theorem tok822_scan_externalize s vp flags : has flags TOK822_STR_WIPE = true -> has flags TOK822_STR_TRNC = false ->
  Forall printable_token (tok822_scan s) -> tok822_scan (tok822_externalize vp false (tok822_scan s) flags) = tok822_scan s.
Proof.
  intros Hw Ht Hp. unfold tok822_externalize. rewrite Hw. pose proof (scan_loop_ungrouped (length s) 0 0 s) as Hu.
  rewrite externalize_loop_flat by done. cbn [app]. apply scan_external_list; [apply scan_scanned|done].
Qed.
Lemma tok822_scan_externalize_witness :
  tok822_scan (tok822_externalize [] false (tok822_scan (str "a.b@[1.2] (c \) d) <x>, y")) 1) = tok822_scan (str "a.b@[1.2] (c \) d) <x>, y").
Proof.
  apply (tok822_scan_externalize (str "a.b@[1.2] (c \) d) <x>, y") [] 1); [reflexivity|reflexivity|].
  vm_compute. repeat constructor; try (intros H; discriminate H). intros H. apply list_elem_of_In in H. cbn in H. lia.
Defined.

(** The bracket of a domain literal is scanned, but not printed, with its backslash. *)
Lemma domain_literal_bracket : tok822_scan (str "[a\]b]") = [Domlit (str "a]b")] /\
  tok822_externalize [] false [Domlit (str "a]b")] TOK822_STR_WIPE = str "[a]b]" /\
  tok822_scan (str "[a]b]") = [Domlit (str "a"); Atom (str "b"); Op "]"%ch].
Proof. by vm_compute. Qed.
