(* ===== verification/Header.v ===== *)
(** Message headers: is_header.c, header_token.c and header_opts.c (src/src/global). *)

From S2P Require Export Quote822.

(** ** Header lines *)

Inductive header_state := INIT | IN_CHAR | IN_CHAR_SPACE.

(** The loop of is_header_buf(): the length of the label at the start of the text, or 0. *)
Fixpoint is_header_loop (s : bytes) (state : header_state) (len : nat) : nat :=
  match s with
  | [] => O
  | c :: s =>
      if (c =? " "%ch) || (c =? 9) then
        match state with INIT => O | _ => is_header_loop s IN_CHAR_SPACE len end
      else if c =? ":"%ch then
        match state with INIT => O | _ => len end
      else if (c =? 0) || (c >? 127) || ISCNTRL c then O
      else match state with IN_CHAR_SPACE => O | _ => is_header_loop s IN_CHAR (S len) end
  end.
Definition is_header_buf (s : bytes) : nat := is_header_loop s INIT O.

(** ** Header tokens *)

(** Specials and controls are represented by themselves. *)
Definition HEADER_TOK_TOKEN : Z := 256.
Definition HEADER_TOK_QSTRING : Z := 257.
Record header_tok := mk_header_tok { tok_type : Z; tok_value : bytes }.

(** The text after a comment. *)
Fixpoint skip_comment (level : Z) (s : bytes) : bytes :=
  match s with
  | [] => []
  | ch :: s' =>
      if ch =? "("%ch then skip_comment (level + 1) s'
      else if ch =? ")"%ch then if level - 1 =? 0 then s' else skip_comment (level - 1) s'
      else if ch =? 92 then match s' with [] => [] | _ :: s'' => skip_comment level s'' end
      else skip_comment level s'
  end.

(** Trailing white space goes when a quoted string is unfolded. *)
Definition trim_space (value : bytes) : bytes := reverse (drop (strspn IS_SPACE_TAB_CR_LF (reverse value)) (reverse value)).

(** The value of a quoted string, and the text after it. *)
Fixpoint quoted_value (s value : bytes) : bytes * bytes :=
  match s with
  | [] => (value, [])
  | ch :: s' =>
      if ch =? 34 then (value, s')
      else if ch =? 10 then quoted_value s' (trim_space value)
      else if ch =? 92 then match s' with [] => (value, []) | d :: s'' => quoted_value s'' (value ++ [d]) end
      else quoted_value s' (value ++ [ch])
  end.

Definition is_special (specials : bytes) (ch : Z) : bool := existsb (Z.eqb ch) specials.
Definition token_end (specials : bytes) (ch : Z) : bool := IS_SPACE_TAB_CR_LF ch || ISCNTRL ch || is_special specials ch.
Fixpoint token_value (specials s : bytes) : bytes * bytes :=
  match s with
  | [] => ([], [])
  | ch :: s' => if token_end specials ch then ([], s) else let '(value, rest) := token_value specials s' in (ch :: value, rest)
  end.

(** The main loop: the tokens, the text after them, and whether the string ended. A round
    takes at least one character, so that the length of the string is enough fuel. *)
Fixpoint header_token_loop (fuel : nat) (token_len : nat) (specials : bytes) (terminator : Z) (s : bytes) (toks : list header_tok) : list header_tok * bytes * bool :=
  match fuel, s with
  | S fuel, ch :: s' =>
      if (terminator =? 0) && (token_len <=? length toks)%nat then (toks, s, false)
      else
        let add tok := if (length toks <? token_len)%nat then toks ++ [tok] else toks in
        let continue := header_token_loop fuel token_len specials terminator in
        if IS_SPACE_TAB_CR_LF ch then continue s' toks
        else if ch =? terminator then (toks, s', false)
        else if ch =? "("%ch then continue (skip_comment 1 s') toks
        else if ch =? 34 then let '(value, rest) := quoted_value s' [] in continue rest (add (mk_header_tok HEADER_TOK_QSTRING value))
        else if is_special specials ch || ISCNTRL ch then continue s' (add (mk_header_tok ch [ch]))
        else let '(value, rest) := token_value specials s' in continue rest (add (mk_header_tok HEADER_TOK_TOKEN (ch :: value)))
  | _, _ => (toks, s, true)
  end.
(** Nothing when there is no item after the last terminator. *)
Definition header_token (token_len : nat) (s specials : bytes) (terminator : Z) : option (list header_tok * bytes) :=
  let '(toks, rest, ended) := header_token_loop (length s) token_len specials terminator s [] in
  if bool_decide (toks = []) && ended then None else Some (toks, rest).

(** ** Header names *)

Inductive header_type :=
  | HDR_OTHER | HDR_APPARENTLY_TO | HDR_BCC | HDR_CC | HDR_CONTENT_LENGTH | HDR_CONTENT_TRANSFER_ENCODING | HDR_CONTENT_TYPE
  | HDR_DATE | HDR_DELIVERED_TO | HDR_ERRORS_TO | HDR_FROM | HDR_MESSAGE_ID | HDR_RECEIVED | HDR_REPLY_TO | HDR_RESENT_BCC
  | HDR_RESENT_CC | HDR_RESENT_DATE | HDR_RESENT_FROM | HDR_RESENT_MESSAGE_ID | HDR_RESENT_REPLY_TO | HDR_RESENT_SENDER
  | HDR_RESENT_TO | HDR_RETURN_PATH | HDR_RETURN_RECEIPT_TO | HDR_SENDER | HDR_TO | HDR_MAIL_FOLLOWUP_TO
  | HDR_CONTENT_DESCRIPTION | HDR_CONTENT_DISPOSITION | HDR_CONTENT_ID | HDR_MIME_VERSION | HDR_DISP_NOTIFICATION.
#[export] Instance header_type_eq_dec : EqDecision header_type.
Proof. solve_decision. Defined.

Definition HDR_OPT_DROP : Z := Z.shiftl 1 0.
Definition HDR_OPT_SENDER : Z := Z.shiftl 1 1.
Definition HDR_OPT_RECIP : Z := Z.shiftl 1 2.
Definition HDR_OPT_RR : Z := Z.shiftl 1 3.
Definition HDR_OPT_EXTRACT : Z := Z.shiftl 1 4.
Definition HDR_OPT_MIME : Z := Z.shiftl 1 5.
Definition HDR_OPT_XRECIP : Z := Z.lor HDR_OPT_RECIP HDR_OPT_EXTRACT.

Record HEADER_OPTS := mk_header_opts { h_name : bytes; h_type : header_type; h_flags : Z }.
Definition opt (name : String.string) (type : header_type) (flags : Z) : HEADER_OPTS := mk_header_opts (str name) type flags.
Arguments opt name%_string_scope type flags.
Definition header_opts : list HEADER_OPTS := [
  opt "Apparently-To" HDR_APPARENTLY_TO HDR_OPT_RECIP;
  opt "Bcc" HDR_BCC HDR_OPT_XRECIP;
  opt "Cc" HDR_CC HDR_OPT_XRECIP;
  opt "Content-Description" HDR_CONTENT_DESCRIPTION HDR_OPT_MIME;
  opt "Content-Disposition" HDR_CONTENT_DISPOSITION HDR_OPT_MIME;
  opt "Content-ID" HDR_CONTENT_ID HDR_OPT_MIME;
  opt "Content-Length" HDR_CONTENT_LENGTH 0;
  opt "Content-Transfer-Encoding" HDR_CONTENT_TRANSFER_ENCODING HDR_OPT_MIME;
  opt "Content-Type" HDR_CONTENT_TYPE HDR_OPT_MIME;
  opt "Delivered-To" HDR_DELIVERED_TO 0;
  opt "Disposition-Notification-To" HDR_DISP_NOTIFICATION HDR_OPT_SENDER;
  opt "Date" HDR_DATE 0;
  opt "Errors-To" HDR_ERRORS_TO HDR_OPT_SENDER;
  opt "From" HDR_FROM HDR_OPT_SENDER;
  opt "Mail-Followup-To" HDR_MAIL_FOLLOWUP_TO HDR_OPT_SENDER;
  opt "Message-Id" HDR_MESSAGE_ID 0;
  opt "MIME-Version" HDR_MIME_VERSION HDR_OPT_MIME;
  opt "Received" HDR_RECEIVED 0;
  opt "Reply-To" HDR_REPLY_TO HDR_OPT_SENDER;
  opt "Resent-Bcc" HDR_RESENT_BCC (Z.lor HDR_OPT_XRECIP HDR_OPT_RR);
  opt "Resent-Cc" HDR_RESENT_CC (Z.lor HDR_OPT_XRECIP HDR_OPT_RR);
  opt "Resent-Date" HDR_RESENT_DATE HDR_OPT_RR;
  opt "Resent-From" HDR_RESENT_FROM (Z.lor HDR_OPT_SENDER HDR_OPT_RR);
  opt "Resent-Message-Id" HDR_RESENT_MESSAGE_ID HDR_OPT_RR;
  opt "Resent-Reply-To" HDR_RESENT_REPLY_TO (Z.lor HDR_OPT_RECIP HDR_OPT_RR);
  opt "Resent-Sender" HDR_RESENT_SENDER (Z.lor HDR_OPT_SENDER HDR_OPT_RR);
  opt "Resent-To" HDR_RESENT_TO (Z.lor HDR_OPT_XRECIP HDR_OPT_RR);
  opt "Return-Path" HDR_RETURN_PATH HDR_OPT_SENDER;
  opt "Return-Receipt-To" HDR_RETURN_RECEIPT_TO HDR_OPT_SENDER;
  opt "Sender" HDR_SENDER HDR_OPT_SENDER;
  opt "To" HDR_TO HDR_OPT_XRECIP ].

Definition lower (s : bytes) : bytes := map (fun c => if ISUPPER c then c + 32 else c) s.

(** The table by lower-case name; header_drop_init() adds the names in [drop_hdrs]. *)
Definition header_hash (drop_hdrs : list bytes) (key : bytes) : option HEADER_OPTS :=
  let dropped := existsb (fun name => bool_decide (lower name = key)) drop_hdrs in
  match List.find (fun hp => bool_decide (lower (h_name hp) = key)) header_opts with
  | Some hp => Some (if dropped then mk_header_opts (h_name hp) (h_type hp) (Z.lor (h_flags hp) HDR_OPT_DROP) else hp)
  | None => if dropped then Some (mk_header_opts key HDR_OTHER HDR_OPT_DROP) else None
  end.

(** trimblanks() *)
Definition trimblanks (s : bytes) : bytes := reverse (drop (strspn ISSPACE (reverse s)) (reverse s)).

Definition header_opts_find (drop_hdrs : list bytes) (s : bytes) : outcome (option HEADER_OPTS) :=
  match strchr s ":"%ch with
  | Some colon => Ret (header_hash drop_hdrs (trimblanks (lower (take colon s))))
  | None => Panic
  end.
