(* ===== verification/Mime.v ===== *)
(** The MIME parser state machine (src/src/global/mime_state.c, mime_state.h).

    A [MIME_STATE] carries the list of the call-backs it has made, the first one first;
    every call-back is present.  [mime_state_update] is one input record: a text record
    that ends a line ([REC_TYPE_NORM]) or not ([REC_TYPE_CONT]), or any other record. *)

From S2P Require Export Header.
From S2P Require Import QueueId.

(** ** Data *)

Definition REC_TYPE_NORM : Z := "N"%ch.
Definition REC_TYPE_CONT : Z := "L"%ch.

Definition MIME_MAX_TOKEN : nat := 3.

Definition MIME_CTYPE_OTHER : Z := 0.
Definition MIME_CTYPE_TEXT : Z := 1.
Definition MIME_CTYPE_MESSAGE : Z := 2.
Definition MIME_CTYPE_MULTIPART : Z := 3.

Definition MIME_STYPE_OTHER : Z := 0.
Definition MIME_STYPE_PLAIN : Z := 1.
Definition MIME_STYPE_RFC822 : Z := 2.
Definition MIME_STYPE_PARTIAL : Z := 3.
Definition MIME_STYPE_EXTERN_BODY : Z := 4.
Definition MIME_STYPE_GLOBAL : Z := 5.

Definition MIME_STATE_PRIMARY : Z := 1.
Definition MIME_STATE_MULTIPART : Z := 2.
Definition MIME_STATE_NESTED : Z := 3.
Definition MIME_STATE_BODY : Z := 4.

Definition MIME_ENC_QP : Z := 1.
Definition MIME_ENC_BASE64 : Z := 2.
Definition MIME_ENC_7BIT : Z := 7.
Definition MIME_ENC_8BIT : Z := 8.
Definition MIME_ENC_BINARY : Z := 9.
(** Name, encoding and domain. *)
Definition mime_encoding_map : list (bytes * Z * Z) := [
  (str "7bit", MIME_ENC_7BIT, MIME_ENC_7BIT);
  (str "8bit", MIME_ENC_8BIT, MIME_ENC_8BIT);
  (str "binary", MIME_ENC_BINARY, MIME_ENC_BINARY);
  (str "base64", MIME_ENC_BASE64, MIME_ENC_7BIT);
  (str "quoted-printable", MIME_ENC_QP, MIME_ENC_7BIT) ].

Definition MIME_OPT_DOWNGRADE : Z := Z.shiftl 1 0.
Definition MIME_OPT_REPORT_8BIT_IN_7BIT_BODY : Z := Z.shiftl 1 1.
Definition MIME_OPT_REPORT_8BIT_IN_HEADER : Z := Z.shiftl 1 2.
Definition MIME_OPT_REPORT_ENCODING_DOMAIN : Z := Z.shiftl 1 3.
Definition MIME_OPT_REPORT_TRUNC_HEADER : Z := Z.shiftl 1 5.
Definition MIME_OPT_DISABLE_MIME : Z := Z.shiftl 1 6.
Definition MIME_OPT_REPORT_NESTING : Z := Z.shiftl 1 7.

Definition MIME_ERR_NESTING : Z := Z.shiftl 1 0.
Definition MIME_ERR_TRUNC_HEADER : Z := Z.shiftl 1 1.
Definition MIME_ERR_8BIT_IN_HEADER : Z := Z.shiftl 1 2.
Definition MIME_ERR_8BIT_IN_7BIT_BODY : Z := Z.shiftl 1 3.
Definition MIME_ERR_ENCODING_DOMAIN : Z := Z.shiftl 1 4.

Record MIME_STACK := mk_mime_stack { def_ctype : Z; def_stype : Z; boundary : bytes }.

Inductive callback :=
  | head_out (header_class : Z) (info : option HEADER_OPTS) (buf : bytes) (offset : Z)
  | head_end
  | body_out (rec_type : Z) (buf : bytes) (offset : Z)
  | body_end
  | err_print (err_type : Z) (text : bytes).

(** [stack] has the innermost boundary first. *)
Record MIME_STATE := mk_mime_state {
  curr_state : Z;
  curr_ctype : Z;
  curr_stype : Z;
  curr_encoding : Z;
  curr_domain : Z;
  output_buffer : bytes;
  prev_rec_type : Z;
  nesting_level : Z;
  stack : list MIME_STACK;
  err_flags : Z;
  head_offset : Z;
  body_offset : Z;
  static_flags : Z;
  calls : list callback
}.

(** Field updates. *)
Definition set_curr_state (x : Z) (st : MIME_STATE) : MIME_STATE :=
  mk_mime_state x (curr_ctype st) (curr_stype st) (curr_encoding st) (curr_domain st) (output_buffer st)
    (prev_rec_type st) (nesting_level st) (stack st) (err_flags st) (head_offset st) (body_offset st) (static_flags st)
    (calls st).
Definition set_curr_ctype (x : Z) (st : MIME_STATE) : MIME_STATE :=
  mk_mime_state (curr_state st) x (curr_stype st) (curr_encoding st) (curr_domain st) (output_buffer st)
    (prev_rec_type st) (nesting_level st) (stack st) (err_flags st) (head_offset st) (body_offset st) (static_flags st)
    (calls st).
Definition set_curr_stype (x : Z) (st : MIME_STATE) : MIME_STATE :=
  mk_mime_state (curr_state st) (curr_ctype st) x (curr_encoding st) (curr_domain st) (output_buffer st)
    (prev_rec_type st) (nesting_level st) (stack st) (err_flags st) (head_offset st) (body_offset st) (static_flags st)
    (calls st).
Definition set_curr_encoding (x : Z) (st : MIME_STATE) : MIME_STATE :=
  mk_mime_state (curr_state st) (curr_ctype st) (curr_stype st) x (curr_domain st) (output_buffer st) (prev_rec_type st)
    (nesting_level st) (stack st) (err_flags st) (head_offset st) (body_offset st) (static_flags st) (calls st).
Definition set_curr_domain (x : Z) (st : MIME_STATE) : MIME_STATE :=
  mk_mime_state (curr_state st) (curr_ctype st) (curr_stype st) (curr_encoding st) x (output_buffer st)
    (prev_rec_type st) (nesting_level st) (stack st) (err_flags st) (head_offset st) (body_offset st) (static_flags st)
    (calls st).
Definition set_output_buffer (x : bytes) (st : MIME_STATE) : MIME_STATE :=
  mk_mime_state (curr_state st) (curr_ctype st) (curr_stype st) (curr_encoding st) (curr_domain st) x (prev_rec_type st)
    (nesting_level st) (stack st) (err_flags st) (head_offset st) (body_offset st) (static_flags st) (calls st).
Definition set_prev_rec_type (x : Z) (st : MIME_STATE) : MIME_STATE :=
  mk_mime_state (curr_state st) (curr_ctype st) (curr_stype st) (curr_encoding st) (curr_domain st) (output_buffer st) x
    (nesting_level st) (stack st) (err_flags st) (head_offset st) (body_offset st) (static_flags st) (calls st).
Definition set_nesting_level (x : Z) (st : MIME_STATE) : MIME_STATE :=
  mk_mime_state (curr_state st) (curr_ctype st) (curr_stype st) (curr_encoding st) (curr_domain st) (output_buffer st)
    (prev_rec_type st) x (stack st) (err_flags st) (head_offset st) (body_offset st) (static_flags st) (calls st).
Definition set_stack (x : list MIME_STACK) (st : MIME_STATE) : MIME_STATE :=
  mk_mime_state (curr_state st) (curr_ctype st) (curr_stype st) (curr_encoding st) (curr_domain st) (output_buffer st)
    (prev_rec_type st) (nesting_level st) x (err_flags st) (head_offset st) (body_offset st) (static_flags st)
    (calls st).
Definition set_err_flags (x : Z) (st : MIME_STATE) : MIME_STATE :=
  mk_mime_state (curr_state st) (curr_ctype st) (curr_stype st) (curr_encoding st) (curr_domain st) (output_buffer st)
    (prev_rec_type st) (nesting_level st) (stack st) x (head_offset st) (body_offset st) (static_flags st) (calls st).
Definition set_head_offset (x : Z) (st : MIME_STATE) : MIME_STATE :=
  mk_mime_state (curr_state st) (curr_ctype st) (curr_stype st) (curr_encoding st) (curr_domain st) (output_buffer st)
    (prev_rec_type st) (nesting_level st) (stack st) (err_flags st) x (body_offset st) (static_flags st) (calls st).
Definition set_body_offset (x : Z) (st : MIME_STATE) : MIME_STATE :=
  mk_mime_state (curr_state st) (curr_ctype st) (curr_stype st) (curr_encoding st) (curr_domain st) (output_buffer st)
    (prev_rec_type st) (nesting_level st) (stack st) (err_flags st) (head_offset st) x (static_flags st) (calls st).
Definition set_static_flags (x : Z) (st : MIME_STATE) : MIME_STATE :=
  mk_mime_state (curr_state st) (curr_ctype st) (curr_stype st) (curr_encoding st) (curr_domain st) (output_buffer st)
    (prev_rec_type st) (nesting_level st) (stack st) (err_flags st) (head_offset st) (body_offset st) x (calls st).
Definition set_calls (x : list callback) (st : MIME_STATE) : MIME_STATE :=
  mk_mime_state (curr_state st) (curr_ctype st) (curr_stype st) (curr_encoding st) (curr_domain st) (output_buffer st)
    (prev_rec_type st) (nesting_level st) (stack st) (err_flags st) (head_offset st) (body_offset st) (static_flags st)
    x.

Definition SET_CURR_STATE (state : Z) (st : MIME_STATE) : MIME_STATE :=
  let st := set_curr_state state st in
  if state =? MIME_STATE_BODY then set_body_offset 0 st else set_head_offset 0 st.
Definition SET_MIME_STATE (state ctype stype encoding domain : Z) (st : MIME_STATE) : MIME_STATE :=
  SET_CURR_STATE state (set_curr_domain domain (set_curr_encoding encoding (set_curr_stype stype (set_curr_ctype ctype st)))).

(** ** Call-backs *)

Definition call (c : callback) (st : MIME_STATE) : MIME_STATE := set_calls (calls st ++ [c]) st.

(** One report per error type. *)
Definition REPORT_ERROR_LEN (err_type : Z) (text : bytes) (st : MIME_STATE) : MIME_STATE :=
  if Z.land (err_flags st) err_type =? 0
  then set_err_flags (Z.lor (err_flags st) err_type) (call (err_print err_type text) st)
  else st.

Definition HEAD_OUT (info : option HEADER_OPTS) (len : nat) (st : MIME_STATE) : MIME_STATE :=
  set_head_offset (head_offset st + Z.of_nat len + 1) (call (head_out (curr_state st) info (output_buffer st) (head_offset st)) st).
Definition BODY_OUT (rec_type : Z) (text : bytes) (st : MIME_STATE) : MIME_STATE :=
  set_body_offset (body_offset st + Z.of_nat (length text) + 1) (call (body_out rec_type text (body_offset st)) st).

Definition has_opt (st : MIME_STATE) (opt : Z) : bool := negb (Z.land (static_flags st) opt =? 0).
Definition eight_bit (text : bytes) : bool := existsb (fun c => negb (Z.land c 128 =? 0)) text.

(** The text that vstring_strncat() takes: up to a null character. *)
Definition c_text (text : bytes) : bytes := take (strspn (fun c => negb (c =? 0)) text) text.

Section mime_state.

Context (var_header_limit var_mime_bound_len var_mime_maxdepth : Z) (drop_hdrs : list bytes).

(** ** The boundary stack *)

Definition mime_state_push (def_ctype def_stype : Z) (bound : bytes) (st : MIME_STATE) : MIME_STATE :=
  set_stack (mk_mime_stack def_ctype def_stype (take (Z.to_nat var_mime_bound_len) bound) :: stack st)
    (set_nesting_level (nesting_level st + 1) st).

Definition mime_state_pop (st : MIME_STATE) : outcome MIME_STATE :=
  match stack st with
  | [] => Panic
  | _ :: next => Ret (set_stack next (set_nesting_level (nesting_level st - 1) st))
  end.

Definition mime_state_alloc (flags : Z) : MIME_STATE :=
  SET_MIME_STATE MIME_STATE_PRIMARY MIME_CTYPE_TEXT MIME_STYPE_PLAIN MIME_ENC_7BIT MIME_ENC_7BIT
    (mk_mime_state 0 0 0 0 0 [] 0 (-1) [] 0 0 0 flags []).

(** ** Content headers *)

Definition token_type (toks : list header_tok) (i : nat) : Z := from_option tok_type 0 (toks !! i).
Definition TOKEN_MATCH (toks : list header_tok) (i : nat) (text : bytes) : bool :=
  match toks !! i with
  | Some tok => (tok_type tok =? HEADER_TOK_TOKEN) && MailQueue.strcasecmp_eq (tok_value tok) text
  | None => false
  end.

Definition RFC2045_TSPECIALS : bytes := str "()<>@,;:" ++ [92; 34] ++ str "/[]?=".

Definition PARSE_CONTENT_TYPE_HEADER (s : bytes) : option (list header_tok * bytes) :=
  header_token MIME_MAX_TOKEN s RFC2045_TSPECIALS ";"%ch.

(** The parameters of a multipart content type. *)
Fixpoint push_boundaries (fuel : nat) (def_ctype def_stype : Z) (s : bytes) (st : MIME_STATE) : MIME_STATE :=
  match fuel with
  | O => st
  | S fuel =>
      match PARSE_CONTENT_TYPE_HEADER s with
      | None => st
      | Some (toks, s) =>
          let st :=
            if (3 <=? length toks)%nat && TOKEN_MATCH toks 0 (str "boundary") && (token_type toks 1 =? "="%ch) then
              if nesting_level st >? var_mime_maxdepth then
                if has_opt st MIME_OPT_REPORT_NESTING then REPORT_ERROR_LEN MIME_ERR_NESTING (output_buffer st) st else st
              else mime_state_push def_ctype def_stype (from_option tok_value [] (toks !! 2%nat)) st
            else st in
          push_boundaries fuel def_ctype def_stype s st
      end
  end.

Definition mime_state_content_type (info : HEADER_OPTS) (st : MIME_STATE) : MIME_STATE :=
  match PARSE_CONTENT_TYPE_HEADER (drop (S (length (h_name info))) (output_buffer st)) with
  | Some (toks, rest) =>
      if (0 <? length toks)%nat then
        let slash := (3 <=? length toks)%nat && (token_type toks 1 =? "/"%ch) in
        if TOKEN_MATCH toks 0 (str "text") then
          set_curr_stype (if slash && TOKEN_MATCH toks 2 (str "plain") then MIME_STYPE_PLAIN else MIME_STYPE_OTHER)
            (set_curr_ctype MIME_CTYPE_TEXT st)
        else if TOKEN_MATCH toks 0 (str "message") then
          set_curr_stype
            (if slash then
               if TOKEN_MATCH toks 2 (str "rfc822") then MIME_STYPE_RFC822
               else if TOKEN_MATCH toks 2 (str "partial") then MIME_STYPE_PARTIAL
               else if TOKEN_MATCH toks 2 (str "external-body") then MIME_STYPE_EXTERN_BODY
               else if TOKEN_MATCH toks 2 (str "global") then MIME_STYPE_GLOBAL
               else MIME_STYPE_OTHER
             else MIME_STYPE_OTHER)
            (set_curr_ctype MIME_CTYPE_MESSAGE st)
        else if TOKEN_MATCH toks 0 (str "multipart") then
          let digest := slash && TOKEN_MATCH toks 2 (str "digest") in
          push_boundaries (S (length rest)) (if digest then MIME_CTYPE_MESSAGE else MIME_CTYPE_TEXT)
            (if digest then MIME_STYPE_RFC822 else MIME_STYPE_PLAIN) rest (set_curr_ctype MIME_CTYPE_MULTIPART st)
        else st
      else set_curr_ctype MIME_CTYPE_OTHER st
  | None => set_curr_ctype MIME_CTYPE_OTHER st
  end.

Definition mime_state_content_encoding (info : HEADER_OPTS) (st : MIME_STATE) : MIME_STATE :=
  match header_token 1 (drop (S (length (h_name info))) (output_buffer st)) LEX_822_SPECIALS 0 with
  | Some (tok :: _, _) =>
      if tok_type tok =? HEADER_TOK_TOKEN then
        match List.find (fun cmp => MailQueue.strcasecmp_eq (tok_value tok) (fst (fst cmp))) mime_encoding_map with
        | Some (_, encoding, domain) => set_curr_domain domain (set_curr_encoding encoding st)
        | None => st
        end
      else st
  | _ => st
  end.

Definition mime_state_enc_name (encoding : Z) : bytes :=
  match List.find (fun cmp => encoding =? snd (fst cmp)) mime_encoding_map with
  | Some (name, _, _) => name
  | None => str "unknown"
  end.

(** ** Quoted-printable output *)

Definition hexchars : bytes := str "0123456789ABCDEF".
Definition QP_ENCODE (ch : Z) : bytes :=
  ["="%ch; cp hexchars (Z.to_nat (Z.land (Z.shiftr ch 4) 255)); cp hexchars (Z.to_nat (Z.land ch 15))].

(** One character of the text. *)
Definition downgrade_char (ch : Z) (st : MIME_STATE) : MIME_STATE :=
  let st :=
    if (72 <? length (output_buffer st))%nat
    then let st := set_output_buffer (output_buffer st ++ ["="%ch]) st in
         set_output_buffer [] (BODY_OUT REC_TYPE_NORM (output_buffer st) st)
    else st in
  if ((ch <? 32) && negb (ch =? 9)) || (ch =? "="%ch) || (ch >? 126)
  then set_output_buffer (output_buffer st ++ QP_ENCODE ch) st
  else set_output_buffer (output_buffer st ++ [ch]) st.

(** White space at the end of a line is encoded. *)
Definition fix_trailing (buf : bytes) : bytes :=
  match last buf with
  | Some ch => if (ch =? " "%ch) || (ch =? 9) then take (length buf - 1) buf ++ QP_ENCODE ch else buf
  | None => buf
  end.

Definition mime_state_downgrade (rec_type : Z) (text : bytes) (st : MIME_STATE) : MIME_STATE :=
  let st := fold_left (fun st ch => downgrade_char ch st) text st in
  if rec_type =? REC_TYPE_NORM
  then let st := set_output_buffer (fix_trailing (output_buffer st)) st in
       set_output_buffer [] (BODY_OUT REC_TYPE_NORM (output_buffer st) st)
  else st.

(** ** Updates *)

Definition input_is_text (rec_type : Z) : bool := (rec_type =? REC_TYPE_NORM) || (rec_type =? REC_TYPE_CONT).

Definition header_text (text : bytes) (st : MIME_STATE) : MIME_STATE :=
  set_output_buffer (output_buffer st ++ text) st.

(** The text is added to the saved header, up to the limit. *)
Definition append_header (text : bytes) (st : MIME_STATE) : MIME_STATE :=
  if Z.of_nat (length (output_buffer st)) <? var_header_limit then header_text text st
  else if has_opt st MIME_OPT_REPORT_TRUNC_HEADER then REPORT_ERROR_LEN MIME_ERR_TRUNC_HEADER (output_buffer st) st
  else st.

(** The content headers that the parser looks at. *)
Definition process_header (info : option HEADER_OPTS) (st : MIME_STATE) : MIME_STATE :=
  match info with
  | Some hp =>
      if has_opt st MIME_OPT_DISABLE_MIME then st
      else if decide (h_type hp = HDR_CONTENT_TYPE) then mime_state_content_type hp st
      else if decide (h_type hp = HDR_CONTENT_TRANSFER_ENCODING) then mime_state_content_encoding hp st
      else st
  | None => st
  end.

Definition report_8bit_header (st : MIME_STATE) : MIME_STATE :=
  if has_opt st MIME_OPT_REPORT_8BIT_IN_HEADER && (Z.land (err_flags st) MIME_ERR_8BIT_IN_HEADER =? 0) && eight_bit (output_buffer st)
  then REPORT_ERROR_LEN MIME_ERR_8BIT_IN_HEADER (output_buffer st) st else st.

(** Output of the saved header; [len] is the length of the input record. *)
Definition flush_header (len : nat) (st : MIME_STATE) : outcome MIME_STATE :=
  info ← header_opts_find drop_hdrs (output_buffer st);
  let st := report_8bit_header (process_header info st) in
  let encoding_header := match info with Some hp => bool_decide (h_type hp = HDR_CONTENT_TRANSFER_ENCODING) | None => false end in
  let st :=
    if negb encoding_header || negb (has_opt st MIME_OPT_DOWNGRADE) || (curr_domain st =? MIME_ENC_7BIT)
    then HEAD_OUT info len st else st in
  Ret (set_output_buffer [] (set_prev_rec_type 0 st)).

(** The beginning of a message header, without the blanks before the colon. *)
Definition start_header (text : bytes) (st : MIME_STATE) : MIME_STATE :=
  let header_len := is_header_buf text in
  let rest := drop header_len text in
  set_output_buffer (take header_len text ++ c_text (drop (strspn IS_SPACE_TAB rest) rest)) st.

(** The encoding header of an entity that is converted. *)
Definition encoding_header (len : nat) (st : MIME_STATE) : MIME_STATE :=
  if has_opt st MIME_OPT_DOWNGRADE && negb (curr_domain st =? MIME_ENC_7BIT) then
    let encoding :=
      if ((curr_ctype st =? MIME_CTYPE_MESSAGE) && negb (curr_stype st =? MIME_STYPE_GLOBAL)) || (curr_ctype st =? MIME_CTYPE_MULTIPART)
      then str "7bit" else str "quoted-printable" in
    let st := set_output_buffer (str "Content-Transfer-Encoding: " ++ encoding) st in
    set_output_buffer [] (HEAD_OUT None len st)
  else st.

Definition report_domain (st : MIME_STATE) : MIME_STATE :=
  let report := REPORT_ERROR_LEN MIME_ERR_ENCODING_DOMAIN (mime_state_enc_name (curr_encoding st)) st in
  if has_opt st MIME_OPT_REPORT_ENCODING_DOMAIN then
    if curr_ctype st =? MIME_CTYPE_MESSAGE then
      if (curr_stype st =? MIME_STYPE_PARTIAL) || (curr_stype st =? MIME_STYPE_EXTERN_BODY)
      then if negb (curr_domain st =? MIME_ENC_7BIT) then report else st
      else if curr_stype st =? MIME_STYPE_RFC822
      then if negb (curr_encoding st =? curr_domain st) then report else st
      else st
    else if curr_ctype st =? MIME_CTYPE_MULTIPART
    then if negb (curr_encoding st =? curr_domain st) then report else st
    else st
  else st.

(** The state after the blank line that ends the headers. *)
Definition after_headers (st : MIME_STATE) : MIME_STATE :=
  let st := set_body_offset 0 st in
  let nested := SET_MIME_STATE MIME_STATE_NESTED MIME_CTYPE_TEXT MIME_STYPE_PLAIN MIME_ENC_7BIT MIME_ENC_7BIT st in
  if curr_ctype st =? MIME_CTYPE_MESSAGE then
    if curr_stype st =? MIME_STYPE_RFC822 then nested
    else if (curr_stype st =? MIME_STYPE_GLOBAL) && (negb (has_opt st MIME_OPT_DOWNGRADE) || (curr_domain st =? MIME_ENC_7BIT)) then nested
    else SET_CURR_STATE MIME_STATE_BODY st
  else if curr_ctype st =? MIME_CTYPE_MULTIPART
  then SET_MIME_STATE MIME_STATE_BODY MIME_CTYPE_OTHER MIME_STYPE_OTHER MIME_ENC_7BIT MIME_ENC_7BIT st
  else SET_CURR_STATE MIME_STATE_BODY st.

(** The end of a block of headers. *)
Definition end_headers (rec_type : Z) (text : bytes) (st : MIME_STATE) : MIME_STATE :=
  let st := encoding_header (length text) st in
  let st := if curr_state st =? MIME_STATE_PRIMARY then call head_end st else st in
  let st := report_domain st in
  if input_is_text rec_type then
    if (length text =? 0)%nat then after_headers st
    else if curr_state st =? MIME_STATE_PRIMARY then SET_CURR_STATE MIME_STATE_BODY (BODY_OUT REC_TYPE_NORM [] st)
    else SET_CURR_STATE MIME_STATE_BODY st
  else SET_CURR_STATE MIME_STATE_BODY st.

Definition bound_len (sp : MIME_STACK) : nat := length (boundary sp).
Definition boundary_match (sp : MIME_STACK) (text : bytes) : bool :=
  (2 + bound_len sp <=? length text)%nat && bool_decide (take (bound_len sp) (drop 2 text) = boundary sp).

(** The stack from the first element that matches, and the number of elements before it. *)
Fixpoint find_boundary (sp : list MIME_STACK) (text : bytes) (depth : nat) : option (nat * MIME_STACK) :=
  match sp with
  | [] => None
  | s :: sp => if boundary_match s text then Some (depth, s) else find_boundary sp text (S depth)
  end.
Fixpoint pop_until (n : nat) (st : MIME_STATE) : outcome MIME_STATE :=
  match n with
  | O => Ret st
  | S n => st ← mime_state_pop st; pop_until n st
  end.

Definition check_boundary (text : bytes) (st : MIME_STATE) : outcome MIME_STATE :=
  if negb (bool_decide (stack st = [])) && negb (prev_rec_type st =? REC_TYPE_CONT)
     && (2 <? length text)%nat && (cp text 0 =? "-"%ch) && (cp text 1 =? "-"%ch) then
    match find_boundary (stack st) text 0 with
    | None => Ret st
    | Some (n, sp) =>
        st ← pop_until n st;
        if (4 + bound_len sp <=? length text)%nat && bool_decide (take 2 (drop (2 + bound_len sp) text) = str "--") then
          st ← mime_state_pop st;
          Ret (SET_MIME_STATE MIME_STATE_BODY MIME_CTYPE_OTHER MIME_STYPE_OTHER MIME_ENC_7BIT MIME_ENC_7BIT st)
        else Ret (SET_MIME_STATE MIME_STATE_MULTIPART (def_ctype sp) (def_stype sp) MIME_ENC_7BIT MIME_ENC_7BIT st)
    end
  else Ret st.

Definition report_8bit_body (text : bytes) (st : MIME_STATE) : MIME_STATE :=
  if has_opt st MIME_OPT_REPORT_8BIT_IN_7BIT_BODY && (curr_encoding st =? MIME_ENC_7BIT)
     && (Z.land (err_flags st) MIME_ERR_8BIT_IN_7BIT_BODY =? 0) && eight_bit text
  then REPORT_ERROR_LEN MIME_ERR_8BIT_IN_7BIT_BODY text st else st.

Definition body_record (rec_type : Z) (text : bytes) (st : MIME_STATE) : outcome MIME_STATE :=
  if input_is_text rec_type then
    st ← check_boundary text (report_8bit_body text st);
    let st :=
      if has_opt st MIME_OPT_DOWNGRADE && negb (curr_domain st =? MIME_ENC_7BIT)
      then mime_state_downgrade rec_type text st else BODY_OUT rec_type text st in
    Ret (set_prev_rec_type rec_type st)
  else Ret (set_prev_rec_type rec_type (call body_end st)).

Definition header_state (st : MIME_STATE) : bool :=
  (curr_state st =? MIME_STATE_PRIMARY) || (curr_state st =? MIME_STATE_MULTIPART) || (curr_state st =? MIME_STATE_NESTED).

(** A record after the flush of a partial line.  The text of an empty record starts with its terminator. *)
Definition update_record (rec_type : Z) (text : bytes) (st : MIME_STATE) : outcome MIME_STATE :=
  let saved := (0 <? length (output_buffer st))%nat in
  if header_state st then
    if saved && input_is_text rec_type && (prev_rec_type st =? REC_TYPE_CONT) then
      Ret (set_prev_rec_type rec_type (append_header (c_text text) st))
    else if saved && input_is_text rec_type && IS_SPACE_TAB (cp text 0) then
      Ret (set_prev_rec_type rec_type (append_header (10 :: c_text text) st))
    else
      st ← (if saved then flush_header (length text) st else Ret st);
      if input_is_text rec_type && (0 <? is_header_buf text)%nat
      then Ret (set_prev_rec_type rec_type (start_header text st))
      else body_record rec_type text (end_headers rec_type text st)
  else if curr_state st =? MIME_STATE_BODY then body_record rec_type text st
  else Panic.

Definition mime_state_update (rec_type : Z) (text : bytes) (st : MIME_STATE) : outcome MIME_STATE :=
  st ← (if negb (input_is_text rec_type) && (prev_rec_type st =? REC_TYPE_CONT) then update_record REC_TYPE_NORM [] st else Ret st);
  update_record rec_type text st.

Definition mime_state_free (st : MIME_STATE) : outcome MIME_STATE := pop_until (length (stack st)) st.

(** A message is a sequence of records. *)
Fixpoint mime_state_run (recs : list (Z * bytes)) (st : MIME_STATE) : outcome MIME_STATE :=
  match recs with
  | [] => Ret st
  | (rec_type, text) :: recs => st ← mime_state_update rec_type text st; mime_state_run recs st
  end.

End mime_state.

(** ** Error texts *)

(** The most serious errors first. *)
Definition mime_err_detail : list (Z * bytes * bytes) := [
  (MIME_ERR_NESTING, str "5.6.0", str "MIME nesting exceeds safety limit");
  (MIME_ERR_TRUNC_HEADER, str "5.6.0", str "message header length exceeds safety limit");
  (MIME_ERR_8BIT_IN_HEADER, str "5.6.0", str "improper use of 8-bit data in message header");
  (MIME_ERR_8BIT_IN_7BIT_BODY, str "5.6.0", str "improper use of 8-bit data in message body");
  (MIME_ERR_ENCODING_DOMAIN, str "5.6.0", str "invalid message/* or multipart/* encoding domain") ].

Definition mime_state_detail (error_code : Z) : outcome (Z * bytes * bytes) :=
  if error_code =? 0 then Panic
  else match List.find (fun mp => negb (Z.land (fst (fst mp)) error_code =? 0)) mime_err_detail with
       | Some mp => Ret mp
       | None => Panic
       end.
Definition mime_state_error (error_code : Z) : outcome bytes :=
  mp ← mime_state_detail error_code; Ret (snd mp).

(** ** Specification *)

(** The text that an input record stands for, and what the call-backs have passed on. *)
Definition line (rec_type : Z) (text : bytes) : bytes := if rec_type =? REC_TYPE_NORM then text ++ [10] else text.
Definition sent (c : callback) : bytes :=
  match c with head_out _ _ buf _ => buf ++ [10] | body_out rec_type text _ => line rec_type text | _ => [] end.
Definition sent_text (st : MIME_STATE) : bytes := flat_map sent (calls st).

(** A header without the blanks between its label and the colon. *)
Definition tidied (text : bytes) : bytes :=
  let rest := drop (is_header_buf text) text in take (is_header_buf text) text ++ drop (strspn IS_SPACE_TAB rest) rest.

(** [echo blank recs out]: [out] is the text of [recs], with some headers tidied, and with
    one blank line more when [blank]. *)
Inductive echo : bool -> list (Z * bytes) -> bytes -> Prop :=
  | echo_nil : echo false [] []
  | echo_text blank recs out rec_type text : echo blank recs out -> echo blank (recs ++ [(rec_type, text)]) (out ++ line rec_type text)
  | echo_header blank recs out rec_type text :
      (0 < is_header_buf text)%nat -> echo blank recs out -> echo blank (recs ++ [(rec_type, text)]) (out ++ line rec_type (tidied text))
  | echo_blank recs out : echo false recs out -> echo true recs (out ++ [10]).

(** The decoder of RFC 2045, section 6.7. *)
Definition hex_value (c : Z) : Z := if ISDIGIT c then c - "0"%ch else c - "A"%ch + 10.
Fixpoint qp_decode (s : bytes) : bytes :=
  match s with
  | [] => []
  | c :: s' =>
      if c =? "="%ch then
        match s' with
        | 10 :: s'' => qp_decode s''
        | a :: b :: s'' => hex_value a * 16 + hex_value b :: qp_decode s''
        | _ => []
        end
      else c :: qp_decode s'
  end.

(** ** Steps that keep the text *)

Lemma sent_call c st : sent_text (call c st) = sent_text st ++ sent c.
Proof. unfold sent_text, call; simpl. rewrite flat_map_app. simpl. by rewrite app_nil_r. Qed.

Section proofs.

Context (var_header_limit var_mime_bound_len var_mime_maxdepth : Z) (drop_hdrs : list bytes).
Context (Hmax : 0 <= var_mime_maxdepth) (Hbound : 0 <= var_mime_bound_len).
#[local] Set Default Proof Using "All".

Record stack_ok (st : MIME_STATE) : Prop := {
  stack_level : nesting_level st = Z.of_nat (length (stack st)) - 1;
  stack_depth : Z.of_nat (length (stack st)) <= var_mime_maxdepth + 2;
  stack_bounds : Forall (fun sp => Z.of_nat (bound_len sp) <= var_mime_bound_len) (stack st)
}.

(** The state may change, and errors may be reported. *)
Record calm (st st' : MIME_STATE) : Prop := {
  calm_buffer : output_buffer st' = output_buffer st;
  calm_prev : prev_rec_type st' = prev_rec_type st;
  calm_flags : static_flags st' = static_flags st;
  calm_sent : sent_text st' = sent_text st;
  calm_errors i : Z.testbit (err_flags st) i = true -> Z.testbit (err_flags st') i = true;
  calm_range : 0 <= err_flags st < 32 -> 0 <= err_flags st' < 32;
  calm_stack : stack_ok st -> stack_ok st'
}.
#[local] Instance calm_preorder : PreOrder calm.
Proof.
  split; [by split|].
  intros ??? [] []; split; try congruence; auto.
Qed.

Definition quiet (st st' : MIME_STATE) : Prop := calm st st' /\ curr_state st' = curr_state st.
#[local] Instance quiet_preorder : PreOrder quiet.
Proof.
  split; [by intros ?; split|]. intros ??? [H1 E1] [H2 E2]. split; [by rewrite H1|congruence].
Qed.

Lemma quiet_if (b : bool) st f : quiet st (f st) -> quiet st (if b then f st else st).
Proof. destruct b; [done|reflexivity]. Qed.

(** An update of fields that [quiet] does not look at. *)
Lemma quiet_same st st' :
  curr_state st' = curr_state st -> output_buffer st' = output_buffer st -> prev_rec_type st' = prev_rec_type st ->
  static_flags st' = static_flags st -> sent_text st' = sent_text st -> err_flags st' = err_flags st ->
  stack st' = stack st -> nesting_level st' = nesting_level st -> quiet st st'.
Proof.
  intros ????? He Hs Hn. split; [|done]. split; try done; [congruence|by rewrite He|]. intros [Hl Hd Hb]. split; by rewrite Hs, ?Hn.
Qed.

Lemma quiet_report err text st : 0 <= err < 32 -> quiet st (REPORT_ERROR_LEN err text st).
Proof.
  intros Herr. unfold REPORT_ERROR_LEN. destruct (_ =? 0); [|reflexivity]. split; [|done]. split; try done.
  - change (sent_text (call (err_print err text) st) = sent_text st). by rewrite sent_call, app_nil_r.
  - intros i Hi. simpl. by rewrite Z.lor_spec, Hi.
  - intros Hr. by apply (lor_range _ _ 5).
  - intros []. by split.
Qed.

Lemma quiet_push ctype stype b st :
  nesting_level st <= var_mime_maxdepth -> quiet st (mime_state_push var_mime_bound_len ctype stype b st).
Proof.
  intros Hle. split; [|done]. split; try done. intros [H1 H2 H3]. split; simpl; [lia|lia|].
  constructor; [|done]. unfold bound_len; simpl. rewrite length_take. lia.
Qed.

Lemma quiet_push_boundaries fuel ctype stype s st :
  quiet st (push_boundaries var_mime_bound_len var_mime_maxdepth fuel ctype stype s st).
Proof.
  revert s st. induction fuel as [|fuel IH]; intros s st; simpl; [reflexivity|].
  destruct (PARSE_CONTENT_TYPE_HEADER s) as [[toks rest]|]; [|reflexivity].
  etransitivity; [|apply IH]. destruct (_ && _); [|reflexivity].
  destruct (Z.gtb_spec (nesting_level st) var_mime_maxdepth); [by apply (quiet_if _ st (REPORT_ERROR_LEN _ _)), quiet_report|].
  by apply quiet_push.
Qed.

Lemma quiet_content_type hp st : quiet st (mime_state_content_type var_mime_bound_len var_mime_maxdepth hp st).
Proof.
  unfold mime_state_content_type. cbv zeta.
  destruct (PARSE_CONTENT_TYPE_HEADER _) as [[toks rest]|]; [|by apply quiet_same].
  destruct (_ <? _)%nat; [|by apply quiet_same]. destruct (TOKEN_MATCH _ _ _); [by apply quiet_same|].
  destruct (TOKEN_MATCH _ _ _); [by apply quiet_same|]. destruct (TOKEN_MATCH toks 0 _); [|reflexivity].
  etransitivity; [|apply quiet_push_boundaries]. by apply quiet_same.
Qed.

Lemma quiet_content_encoding hp st : quiet st (mime_state_content_encoding hp st).
Proof.
  unfold mime_state_content_encoding. destruct (header_token _ _ _ _) as [[[|tok toks] rest]|]; try reflexivity.
  destruct (_ =? _); [|reflexivity]. destruct (List.find _ _) as [[[name enc] dom]|]; [|reflexivity]. by apply quiet_same.
Qed.

Lemma quiet_report_domain st : quiet st (report_domain st).
Proof.
  unfold report_domain. cbv zeta. repeat match goal with |- context [if ?b then _ else _] => destruct b end;
    first [reflexivity | by apply quiet_report].
Qed.

(** ** The operations of an update *)

Lemma calm_set_mime_state state ctype stype enc dom st : calm st (SET_MIME_STATE state ctype stype enc dom st).
Proof. unfold SET_MIME_STATE, SET_CURR_STATE. destruct (_ =? _); split; try done; intros []; by split. Qed.
Lemma calm_set_curr_state state st : calm st (SET_CURR_STATE state st).
Proof. unfold SET_CURR_STATE. destruct (_ =? _); split; try done; intros []; by split. Qed.
Lemma state_set_mime_state state ctype stype enc dom st : curr_state (SET_MIME_STATE state ctype stype enc dom st) = state.
Proof. unfold SET_MIME_STATE, SET_CURR_STATE. by destruct (_ =? _). Qed.
Lemma state_set_curr_state state st : curr_state (SET_CURR_STATE state st) = state.
Proof. unfold SET_CURR_STATE. by destruct (_ =? _). Qed.
Lemma domain_set_mime_state state ctype stype enc dom st : curr_domain (SET_MIME_STATE state ctype stype enc dom st) = dom.
Proof. unfold SET_MIME_STATE, SET_CURR_STATE. by destruct (_ =? _). Qed.

Lemma pop_until_calm n st :
  (n <= length (stack st))%nat ->
  exists st', pop_until n st = Ret st' /\ calm st st' /\ stack st' = drop n (stack st).
Proof.
  revert st. induction n as [|n IH]; intros st Hn; simpl; [eexists; split; [done|by split; [reflexivity|]]|].
  unfold mime_state_pop. destruct (stack st) as [|s l] eqn:E; simpl in Hn; [lia|]. simpl.
  edestruct (IH (set_stack l (set_nesting_level (nesting_level st - 1) st))) as (st' & -> & Hc & Hs); [simpl; lia|].
  eexists; split; [done|]. split; [|done]. etransitivity; [|done]. split; try done.
  intros [Hl Hd Hb]. rewrite E in *. simpl in *. split; simpl; [lia|lia|by inversion Hb].
Qed.

Lemma find_boundary_some sp text depth n s :
  find_boundary sp text depth = Some (n, s) -> (depth <= n < depth + length sp)%nat.
Proof.
  revert depth. induction sp as [|x sp IH]; intros depth H; simpl in *; [done|].
  destruct (boundary_match x text); [simplify_eq; lia|]. apply IH in H. lia.
Qed.

(** A boundary is looked for at the start of a line only; after it there is nothing to convert. *)
Lemma check_boundary_spec text st :
  exists st', check_boundary text st = Ret st' /\ calm st st'
    /\ (st' = st \/ prev_rec_type st <> REC_TYPE_CONT /\ curr_domain st' = MIME_ENC_7BIT
        /\ (curr_state st' = MIME_STATE_BODY \/ curr_state st' = MIME_STATE_MULTIPART)).
Proof.
  assert (Hsame : exists st', Ret st = Ret st' /\ calm st st' /\ (st' = st \/ prev_rec_type st <> REC_TYPE_CONT
    /\ curr_domain st' = MIME_ENC_7BIT /\ (curr_state st' = MIME_STATE_BODY \/ curr_state st' = MIME_STATE_MULTIPART))).
  { exists st. split; [done|]. split; [reflexivity|]. by left. }
  unfold check_boundary. destruct (_ && _) eqn:Hb; [|done].
  apply andb_true_iff in Hb as [Hb _]. apply andb_true_iff in Hb as [Hb _]. apply andb_true_iff in Hb as [Hb _].
  apply andb_true_iff in Hb as [_ Hp]. rewrite negb_true_iff, Z.eqb_neq in Hp.
  destruct (find_boundary (stack st) text 0) as [[n sp]|] eqn:Hf; [|done].
  apply find_boundary_some in Hf.
  destruct (pop_until_calm n st) as (st1 & -> & Hc & Hs); [lia|]. simpl.
  destruct (_ && _).
  - destruct (pop_until_calm 1 st1) as (st2 & Hpop & Hc2 & _); [rewrite Hs, length_drop; lia|]. simpl in Hpop.
    destruct (mime_state_pop st1) as [st3| |] eqn:Hpop1; simpl in Hpop; simplify_eq. simpl.
    eexists; split; [done|]. split; [by rewrite Hc, Hc2; apply calm_set_mime_state|]. right.
    rewrite domain_set_mime_state, state_set_mime_state. auto.
  - eexists; split; [done|]. split; [by rewrite Hc; apply calm_set_mime_state|]. right.
    rewrite domain_set_mime_state, state_set_mime_state. auto.
Qed.

(** What every operation keeps. *)
Record keeps (st st' : MIME_STATE) : Prop := {
  keeps_flags : static_flags st' = static_flags st;
  keeps_errors i : Z.testbit (err_flags st) i = true -> Z.testbit (err_flags st') i = true;
  keeps_range : 0 <= err_flags st < 32 -> 0 <= err_flags st' < 32;
  keeps_stack : stack_ok st -> stack_ok st'
}.
#[local] Instance keeps_preorder : PreOrder keeps.
Proof.
  split; [by split|]. intros ??? [] []; split; try congruence; auto.
Qed.
Lemma calm_keeps st st' : calm st st' -> keeps st st'.
Proof. intros []. by split. Qed.
#[local] Hint Resolve calm_keeps : core.

Lemma keeps_same st st' :
  static_flags st' = static_flags st -> err_flags st' = err_flags st -> stack st' = stack st -> nesting_level st' = nesting_level st ->
  keeps st st'.
Proof. intros ? He Hs Hn. split; [done|congruence|by rewrite He|]. intros [Hl Hd Hb]. split; by rewrite Hs, ?Hn. Qed.

Definition downgrading (st : MIME_STATE) : bool := has_opt st MIME_OPT_DOWNGRADE && negb (curr_domain st =? MIME_ENC_7BIT).
Definition downgrades (st : MIME_STATE) : bool := has_opt st MIME_OPT_DOWNGRADE.

Lemma in_strchr s c : In c s -> strchr s c <> None.
Proof.
  induction s as [|x s IH]; intros H; [done|]. simpl. destruct (Z.eqb_spec x c); [done|].
  destruct H as [|H]; [done|]. apply IH in H. by destruct (strchr s c).
Qed.

Lemma quiet_process_header info st : quiet st (process_header var_mime_bound_len var_mime_maxdepth info st).
Proof.
  unfold process_header. destruct info as [hp|]; [|reflexivity]. destruct (has_opt _ _); [reflexivity|].
  destruct (decide _); [apply quiet_content_type|]. destruct (decide _); [apply quiet_content_encoding|reflexivity].
Qed.

Lemma quiet_report_8bit_header st : quiet st (report_8bit_header st).
Proof. by apply (quiet_if _ st (REPORT_ERROR_LEN _ _)), quiet_report. Qed.

Lemma flush_header_spec len st :
  In ":"%ch (output_buffer st) ->
  exists st', flush_header var_mime_bound_len var_mime_maxdepth drop_hdrs len st = Ret st'
    /\ keeps st st' /\ curr_state st' = curr_state st /\ output_buffer st' = [] /\ prev_rec_type st' = 0
    /\ (downgrades st = false -> sent_text st' = sent_text st ++ output_buffer st ++ [10]).
Proof.
  intros Hc%in_strchr. unfold flush_header, header_opts_find. destruct (strchr _ _) as [colon|]; [|done].
  cbv zeta. rewrite outcome_bind_ret.
  set (info := header_hash _ _). clearbody info. set (st2 := report_8bit_header _).
  assert (Hq2 : quiet st st2) by (etransitivity; [apply quiet_process_header|apply quiet_report_8bit_header]).
  clearbody st2. destruct Hq2 as [Hq Hs].
  eexists; split; [done|].
  assert (Hd : has_opt st2 MIME_OPT_DOWNGRADE = downgrades st) by (unfold downgrades, has_opt; by rewrite (calm_flags _ _ Hq)).
  rewrite Hd. destruct (negb _ || negb (downgrades st) || _) eqn:Ho.
  - split; [etransitivity; [by apply calm_keeps|by apply keeps_same]|]. do 3 (split; [done|]). intros _.
    change (sent_text (call (head_out (curr_state st2) info (output_buffer st2) (head_offset st2)) st2) = sent_text st ++ output_buffer st ++ [10]).
    by rewrite sent_call, (calm_sent _ _ Hq), <- (calm_buffer _ _ Hq).
  - split; [etransitivity; [by apply calm_keeps|by apply keeps_same]|]. do 3 (split; [done|]). intros Hn.
    rewrite Hn in Ho. simpl in Ho. by rewrite orb_true_r in Ho.
Qed.

(** The downgrade of a text. *)
Lemma downgrade_char_spec ch st :
  let st' := downgrade_char ch st in
  keeps st st' /\ curr_state st' = curr_state st /\ prev_rec_type st' = prev_rec_type st /\ curr_domain st' = curr_domain st
    /\ (length (output_buffer st') <= 75)%nat.
Proof.
  unfold downgrade_char. cbv zeta. destruct (Nat.ltb_spec 72 (length (output_buffer st))); destruct (_ || _); simpl;
    rewrite ?length_app; simpl; do 4 (split; [by first [apply keeps_same|done]|]); lia.
Qed.

Lemma downgrade_text_spec text st :
  let st' := fold_left (fun st ch => downgrade_char ch st) text st in
  keeps st st' /\ curr_state st' = curr_state st /\ prev_rec_type st' = prev_rec_type st /\ curr_domain st' = curr_domain st
    /\ (length (output_buffer st') <= Nat.max 75 (length (output_buffer st)))%nat.
Proof.
  revert st. induction text as [|ch text IH]; intros st; simpl; [by split; [reflexivity|repeat split; lia]|].
  destruct (IH (downgrade_char ch st)) as (H1 & H2 & H3 & H4 & H5).
  destruct (downgrade_char_spec ch st) as (G1 & G2 & G3 & G4 & G5).
  split; [by etransitivity|]. do 3 (split; [congruence|]). lia.
Qed.

Lemma mime_state_downgrade_spec rec_type text st :
  let st' := mime_state_downgrade rec_type text st in
  keeps st st' /\ curr_state st' = curr_state st /\ curr_domain st' = curr_domain st
    /\ (if rec_type =? REC_TYPE_NORM then output_buffer st' = []
        else (length (output_buffer st') <= Nat.max 75 (length (output_buffer st)))%nat).
Proof.
  unfold mime_state_downgrade. cbv zeta. destruct (downgrade_text_spec text st) as (H1 & H2 & H3 & H4 & H5).
  destruct (rec_type =? REC_TYPE_NORM); simpl; [|done]. split; [|done].
  etransitivity; [exact H1|by apply keeps_same].
Qed.

Lemma end_headers_spec rec_type text st :
  output_buffer st = [] ->
  let st' := end_headers rec_type text st in
  keeps st st' /\ output_buffer st' = [] /\ prev_rec_type st' = prev_rec_type st
    /\ (curr_state st' = MIME_STATE_BODY \/ curr_state st' = MIME_STATE_NESTED /\ curr_domain st' = MIME_ENC_7BIT)
    /\ (downgrades st = false -> sent_text st' = sent_text st \/ (curr_state st = MIME_STATE_PRIMARY /\ sent_text st' = sent_text st ++ [10])).
Proof.
  intros Hb. unfold end_headers. cbv zeta.
  set (st1 := encoding_header (length text) st).
  assert (H1 : keeps st st1 /\ output_buffer st1 = [] /\ prev_rec_type st1 = prev_rec_type st /\ curr_state st1 = curr_state st
    /\ (downgrades st = false -> sent_text st1 = sent_text st)).
  { unfold st1, encoding_header, downgrades. destruct (has_opt st _); simpl; [destruct (_ =? _); simpl|];
    (split; [by first [reflexivity|apply keeps_same]|by repeat split]). }
  clearbody st1. destruct H1 as (K1 & B1 & P1 & S1 & T1).
  set (st2 := if curr_state st1 =? _ then call head_end st1 else st1).
  assert (Hq2 : quiet st1 st2).
  { apply (quiet_if _ st1 (call head_end)). apply quiet_same; try done. by rewrite sent_call, app_nil_r. }
  clearbody st2. assert (Hq3 : quiet st1 (report_domain st2)) by (etransitivity; [exact Hq2|apply quiet_report_domain]).
  set (st3 := report_domain st2) in *. clearbody st3. clear Hq2 st2. destruct Hq3 as [Hc Hs].
  assert (Hfin : forall st', calm st3 st' -> keeps st st' /\ output_buffer st' = [] /\ prev_rec_type st' = prev_rec_type st
    /\ (downgrades st = false -> sent_text st' = sent_text st)).
  { intros st' Hc'. assert (Hall : calm st1 st') by (etransitivity; eauto).
    split; [etransitivity; eauto|]. rewrite (calm_buffer _ _ Hall), (calm_prev _ _ Hall), (calm_sent _ _ Hall). auto. }
  assert (Hfin' : forall st', calm st3 st' -> (curr_state st' = MIME_STATE_BODY \/ curr_state st' = MIME_STATE_NESTED /\ curr_domain st' = MIME_ENC_7BIT) ->
    keeps st st' /\ output_buffer st' = [] /\ prev_rec_type st' = prev_rec_type st
    /\ (curr_state st' = MIME_STATE_BODY \/ curr_state st' = MIME_STATE_NESTED /\ curr_domain st' = MIME_ENC_7BIT)
    /\ (downgrades st = false -> sent_text st' = sent_text st \/ (curr_state st = MIME_STATE_PRIMARY /\ sent_text st' = sent_text st ++ [10]))).
  { intros st' Hc' Hst. apply Hfin in Hc' as (? & ? & ? & ?). do 4 (split; [done|]). auto. }
  pose proof (calm_set_curr_state MIME_STATE_BODY) as Hcs.
  destruct (input_is_text rec_type); [|apply Hfin'; [apply Hcs|left; apply state_set_curr_state]].
  destruct (_ =? _)%nat.
  - assert (Hc0 : calm st3 (set_body_offset 0 st3)) by (split; try done; intros []; by split).
    unfold after_headers. cbv zeta.
    repeat match goal with |- context [if ?b then _ else _] => destruct b end; apply Hfin';
      try (etransitivity; [exact Hc0|first [apply calm_set_curr_state | apply calm_set_mime_state]]);
      rewrite ?state_set_curr_state, ?state_set_mime_state, ?domain_set_mime_state; auto.
  - destruct (Z.eqb_spec (curr_state st3) MIME_STATE_PRIMARY) as [Hp|]; [|apply Hfin'; [apply Hcs|left; apply state_set_curr_state]].
    destruct (Hfin st3) as (F1 & F2 & F3 & F4); [reflexivity|].
    assert (Hk : keeps st3 (SET_CURR_STATE MIME_STATE_BODY (BODY_OUT REC_TYPE_NORM [] st3)))
      by (etransitivity; [|apply calm_keeps, Hcs]; by apply keeps_same).
    split; [etransitivity; eauto|]. do 2 (split; [done|]). split; [left; apply state_set_curr_state|]. intros Hd. right.
    split; [congruence|]. rewrite (calm_sent _ _ (Hcs _)).
    change (sent_text (call (body_out REC_TYPE_NORM [] (body_offset st3)) st3) = sent_text st ++ [10]).
    by rewrite sent_call, F4.
Qed.

(** Only a body line that is being converted leaves text in the buffer. *)
Definition partial_ok (st : MIME_STATE) : Prop :=
  output_buffer st <> [] -> curr_state st = MIME_STATE_BODY /\ prev_rec_type st = REC_TYPE_CONT /\ downgrading st = true.

Lemma body_record_spec rec_type text st :
  1 <= curr_state st <= 4 -> (curr_state st = MIME_STATE_BODY \/ downgrading st = false) -> partial_ok st ->
  (input_is_text rec_type = false -> output_buffer st = []) ->
  exists st', body_record rec_type text st = Ret st' /\ keeps st st' /\ prev_rec_type st' = rec_type
    /\ 1 <= curr_state st' <= 4 /\ (curr_state st <> MIME_STATE_PRIMARY -> curr_state st' <> MIME_STATE_PRIMARY)
    /\ partial_ok st' /\ (length (output_buffer st') <= Nat.max 75 (length (output_buffer st)))%nat
    /\ (downgrades st = false -> sent_text st' = sent_text st ++ (if input_is_text rec_type then line rec_type text else [])).
Proof.
  intros Hr Hb Hp Ht. unfold body_record. destruct (input_is_text rec_type) eqn:Htext; cbv zeta.
  2: { eexists; split; [done|]. split; [by apply keeps_same|]. simpl. rewrite Ht by done. simpl.
       do 3 (split; [done|]). split; [intros G; simpl in G; by rewrite Ht in G|]. split; [lia|]. intros _.
       change (sent_text (call body_end st) = sent_text st ++ []). by rewrite sent_call. }
  set (st1 := report_8bit_body text st).
  assert (Hq1 : quiet st st1 /\ curr_domain st1 = curr_domain st).
  { split; [by apply (quiet_if _ st (REPORT_ERROR_LEN _ _)), quiet_report|]. unfold st1, report_8bit_body, REPORT_ERROR_LEN.
    by repeat match goal with |- context [if ?b then _ else _] => destruct b end. }
  clearbody st1. destruct Hq1 as [[Hc1 Hs1] Hd1].
  destruct (check_boundary_spec text st1) as (st2 & -> & Hc2 & Hst2). simpl.
  assert (Hc : calm st st2) by (etransitivity; eauto).
  assert (Hdg : has_opt st2 MIME_OPT_DOWNGRADE = downgrades st) by (unfold downgrades, has_opt; by rewrite (calm_flags _ _ Hc)).
  assert (Hst : (curr_state st2 = curr_state st /\ downgrading st2 = downgrading st)
    \/ (output_buffer st = [] /\ downgrading st2 = false /\ 1 <= curr_state st2 <= 4 /\ curr_state st2 <> MIME_STATE_PRIMARY)).
  { destruct Hst2 as [->|(Hne & Hdom & Hor)].
    - left. split; [done|]. unfold downgrading. by rewrite Hdg, Hd1.
    - right. split; [|split; [unfold downgrading; by rewrite Hdom, andb_false_r|by destruct Hor as [-> | ->]]].
      destruct (decide (output_buffer st = [])) as [|Hbuf]; [done|]. apply Hp in Hbuf as (_ & Hcont & _).
      by rewrite (calm_prev _ _ Hc1) in Hne. }
  fold (downgrading st2). destruct (downgrading st2) eqn:Hdown.
  - destruct Hst as [[Hs2 Hd2]|(_ & ? & _)]; [|done].
    destruct (mime_state_downgrade_spec rec_type text st2) as (K & S & D & B). cbv zeta in K, S, D, B.
    eexists; split; [done|]. split; [etransitivity; [by apply calm_keeps|]; etransitivity; [exact K|by apply keeps_same]|]. simpl.
    split; [done|]. split; [by rewrite S, Hs2|]. split; [by rewrite S, Hs2|]. rewrite (calm_buffer _ _ Hc) in B. split; [|split].
    + intros G. simpl in *. destruct (Z.eqb_spec rec_type REC_TYPE_NORM) as [|Hn]; [done|].
      split; [rewrite S, Hs2; destruct Hb; congruence|]. split.
      * unfold input_is_text in Htext. apply orb_true_iff in Htext as [?%Z.eqb_eq|?%Z.eqb_eq]; congruence.
      * rewrite <- Hdown. unfold downgrading, has_opt. simpl. by rewrite (keeps_flags _ _ K), D.
    + destruct (rec_type =? REC_TYPE_NORM); [rewrite B; simpl; lia|exact B].
    + intros Hn. unfold downgrading in Hdown. by rewrite Hdg, Hn in Hdown.
  - assert (Hempty : output_buffer st = []).
    { destruct (decide (output_buffer st = [])) as [|Hbuf]; [done|]. apply Hp in Hbuf as (_ & _ & Hd).
      destruct Hst as [[_ Hd2]|(? & _)]; [congruence|done]. }
    eexists; split; [done|]. split; [etransitivity; [by apply calm_keeps|by apply keeps_same]|]. simpl.
    split; [done|]. do 2 (split; [by destruct Hst as [[-> _]|(_ & _ & ? & ?)]|]).
    rewrite (calm_buffer _ _ Hc), Hempty. split; [intros G; simpl in G; by rewrite (calm_buffer _ _ Hc), Hempty in G|].
    split; [simpl; lia|]. intros _.
    change (sent_text (call (body_out rec_type text (body_offset st2)) st2) = sent_text st ++ line rec_type text).
    by rewrite sent_call, (calm_sent _ _ Hc).
Qed.

(** ** The invariant *)

(** [n] bounds the length of the records. *)
Record wf (n : nat) (st : MIME_STATE) : Prop := {
  wf_state : 1 <= curr_state st <= 4;
  wf_stack : stack_ok st;
  wf_errors : 0 <= err_flags st < 32;
  wf_header : curr_state st <> MIME_STATE_BODY -> output_buffer st <> [] ->
    In ":"%ch (output_buffer st) /\ input_is_text (prev_rec_type st) = true;
  wf_body : curr_state st = MIME_STATE_BODY -> partial_ok st;
  wf_size : Z.of_nat (length (output_buffer st)) <= Z.max 75 (Z.max 0 var_header_limit + Z.of_nat n)
}.

Lemma header_state_spec st : 1 <= curr_state st <= 4 -> header_state st = negb (curr_state st =? MIME_STATE_BODY).
Proof.
  intros H. unfold header_state, MIME_STATE_PRIMARY, MIME_STATE_MULTIPART, MIME_STATE_NESTED, MIME_STATE_BODY. zcases.
Qed.


Lemma strspn_app p s t : forallb p s = true -> strspn p (s ++ t) = (length s + strspn p t)%nat.
Proof. induction s as [|c s IH]; simpl; [done|]. intros [-> H]%andb_true_iff. by rewrite IH. Qed.

Lemma is_header_loop_spec s state len n :
  is_header_loop s state len = n -> (0 < n)%nat ->
  exists label blanks rest, s = label ++ blanks ++ ":"%ch :: rest /\ forallb IS_SPACE_TAB blanks = true /\ n = (len + length label)%nat
    /\ (state = IN_CHAR_SPACE -> label = []).
Proof.
  revert state len. induction s as [|c s IH]; intros state len H Hn; simpl in H; [lia|].
  destruct ((c =? " "%ch) || (c =? 9)) eqn:Hb.
  - destruct state; [lia| |]; destruct (IH _ _ H Hn) as (label & blanks & rest & -> & Hbl & -> & Hl); specialize (Hl eq_refl) as ->;
      (exists [], (c :: blanks), rest; simpl; split; [done|]; split; [unfold IS_SPACE_TAB at 1; by rewrite Hb, Hbl|done]).
  - destruct (Z.eqb_spec c ":"%ch) as [-> |Hc].
    + destruct state; [lia| |]; (exists [], [], s; simpl; split; [done|]; split; [done|]; split; [lia|done]).
    + destruct ((c =? 0) || _ || _); [destruct state; lia|]. destruct state; [| |lia];
        destruct (IH _ _ H Hn) as (label & blanks & rest & -> & Hbl & -> & Hl);
        (exists (c :: label), blanks, rest; simpl; split; [done|]; split; [done|]; split; [lia|done]).
Qed.

Lemma is_header_buf_spec text :
  (0 < is_header_buf text)%nat ->
  exists label blanks rest, text = label ++ blanks ++ ":"%ch :: rest /\ forallb IS_SPACE_TAB blanks = true /\ is_header_buf text = length label.
Proof.
  intros H. destruct (is_header_loop_spec text INIT O _ eq_refl H) as (label & blanks & rest & E & Hb & Hn & _).
  exists label, blanks, rest. auto.
Qed.

Lemma tidied_spec text label blanks rest :
  text = label ++ blanks ++ ":"%ch :: rest -> forallb IS_SPACE_TAB blanks = true -> is_header_buf text = length label ->
  tidied text = label ++ ":"%ch :: rest.
Proof.
  intros -> Hb Hn. unfold tidied. rewrite Hn, take_app_length, drop_app_length. rewrite strspn_app by done. simpl.
  by rewrite Nat.add_0_r, drop_app_length.
Qed.

(** ** One record *)

(** The text of the records so far has been passed on, but for a header that is saved. *)
Definition pending (st : MIME_STATE) : bytes :=
  if decide (output_buffer st = []) then [] else line (prev_rec_type st) (output_buffer st).
Definition echoed (recs : list (Z * bytes)) (st : MIME_STATE) : Prop :=
  Z.testbit (err_flags st) 1 = true
  \/ exists blank, echo blank recs (sent_text st ++ pending st) /\ (blank = true -> curr_state st <> MIME_STATE_PRIMARY).

Definition reports_truncation (st : MIME_STATE) : bool := has_opt st MIME_OPT_REPORT_TRUNC_HEADER.
Definition no_null (text : bytes) : Prop := Forall (fun c => c <> 0) text.

Lemma c_text_no_null text : no_null text -> c_text text = text.
Proof.
  intros H. unfold c_text. rewrite (proj2 (strspn_all _ _)); [apply take_ge; lia|].
  apply forallb_forall. intros c Hc%list_elem_of_In. pose proof (proj1 (Forall_forall _ _) H _ Hc) as Hc0.
  by apply negb_true_iff, Z.eqb_neq.
Qed.

Lemma in_c_text_app label c rest : c <> 0 -> In c (label ++ c_text (c :: rest)).
Proof. intros H. apply in_or_app. right. unfold c_text. simpl. rewrite (proj2 (Z.eqb_neq _ _) H). by left. Qed.

Lemma keeps_opt st st' opt : keeps st st' -> has_opt st' opt = has_opt st opt.
Proof. intros K. unfold has_opt. by rewrite (keeps_flags _ _ K). Qed.

Lemma not_downgrading st : downgrades st = false -> downgrading st = false.
Proof. unfold downgrades, downgrading. by intros ->. Qed.

Lemma pending_partial st : partial_ok st -> downgrades st = false -> pending st = [].
Proof.
  intros H Hd. unfold pending. destruct (decide _) as [|Hne]; [done|]. apply H in Hne as (_ & _ & G).
  by rewrite not_downgrading in G.
Qed.

Lemma report_truncation text st : Z.testbit (err_flags (REPORT_ERROR_LEN MIME_ERR_TRUNC_HEADER text st)) 1 = true.
Proof.
  unfold REPORT_ERROR_LEN. destruct (Z.eqb_spec (Z.land (err_flags st) MIME_ERR_TRUNC_HEADER) 0) as [|Hn].
  - change (Z.testbit (Z.lor (err_flags st) MIME_ERR_TRUNC_HEADER) 1 = true). by rewrite Z.lor_spec, orb_true_r.
  - apply not_false_iff_true. intros Hb. apply Hn. apply Z.bits_inj'. intros i Hi. rewrite Z.land_spec, Z.bits_0.
    destruct (decide (i = 1)) as [-> |Hi1]; [by rewrite Hb|].
    change MIME_ERR_TRUNC_HEADER with (2 ^ 1). rewrite Z.pow2_bits_false by done. apply andb_false_r.
Qed.

(** A continued header. *)
Lemma append_header_spec n add text rec_type recs st :
  wf n st -> curr_state st <> MIME_STATE_BODY -> output_buffer st <> [] -> (length text <= n)%nat ->
  input_is_text rec_type = true -> add = c_text text /\ prev_rec_type st = REC_TYPE_CONT \/ add = 10 :: c_text text /\ prev_rec_type st = REC_TYPE_NORM ->
  let st' := set_prev_rec_type rec_type (append_header var_header_limit add st) in
  wf n st' /\ keeps st st'
  /\ (no_null text -> reports_truncation st = true -> echoed recs st -> echoed (recs ++ [(rec_type, text)]) st').
Proof.
  intros Hwf Hnb Hne Hn Ht Hadd. cbv zeta. unfold append_header.
  assert (Hlen : (length add <= S (length text))%nat).
  { destruct Hadd as [[-> _]|[-> _]]; simpl; unfold c_text; rewrite length_take; lia. }
  destruct (wf_header _ _ Hwf Hnb Hne) as [Hin _]. pose proof Hwf as [H1 H2 H6 H3 H4 H5].
  destruct (Z.ltb_spec (Z.of_nat (length (output_buffer st))) var_header_limit) as [Hlt|Hge].
  - split; [|split; [by apply keeps_same|]].
    + split; simpl; try done; [destruct H2; by split| |]; [intros _ _; split; [by apply in_or_app; left|done]|].
      rewrite length_app. lia.
    + intros Hnul _ [Herr|(blank & He & Hb)]; [by left|]. right. exists blank. split; [|done].
      set (st' := set_prev_rec_type rec_type (header_text add st)).
      assert (E : sent_text st' ++ pending st' = (sent_text st ++ pending st) ++ line rec_type text); [|rewrite E; by apply echo_text].
      change (sent_text st') with (sent_text st).
      unfold pending; simpl. rewrite !decide_False by (by destruct (output_buffer st)). rewrite <- app_assoc. f_equal.
      destruct Hadd as [[-> ->]|[-> ->]]; rewrite c_text_no_null by done; unfold line; simpl; destruct (_ =? _); by rewrite <- ?app_assoc.
  - set (st1 := if has_opt _ _ then _ else _).
    assert (Hq : quiet st st1) by (by apply (quiet_if _ st (REPORT_ERROR_LEN _ _)), quiet_report).
    split; [|split; [etransitivity; [by apply calm_keeps, Hq|by apply keeps_same]|]].
    + destruct Hq as [Hc Hs]. split; simpl; rewrite ?Hs, ?(calm_buffer _ _ Hc); try done.
      * apply (keeps_stack st1); [by apply keeps_same|by apply (calm_stack _ _ Hc)].
      * by apply (calm_range _ _ Hc).
    + intros _ Hr _. left. unfold st1, reports_truncation in *. simpl. rewrite Hr. apply report_truncation.
Qed.

Lemma start_header_spec n text rec_type recs st :
  wf n st -> curr_state st <> MIME_STATE_BODY -> output_buffer st = [] -> (length text <= n)%nat ->
  input_is_text rec_type = true -> (0 < is_header_buf text)%nat ->
  let st' := set_prev_rec_type rec_type (start_header text st) in
  wf n st' /\ keeps st st' /\ (no_null text -> echoed recs st -> echoed (recs ++ [(rec_type, text)]) st').
Proof.
  intros Hwf Hnb He Hn Ht Hh. cbv zeta. pose proof Hwf as [H1 H2 H6 H3 H4 H5].
  destruct (is_header_buf_spec text Hh) as (label & blanks & rest & Etext & Hbl & Elen).
  assert (Hbuf : output_buffer (start_header text st) = label ++ c_text (":"%ch :: rest)).
  { unfold start_header. simpl. rewrite Elen, Etext, take_app_length, drop_app_length, strspn_app by done. simpl.
    by rewrite Nat.add_0_r, drop_app_length. }
  split; [|split; [by apply keeps_same|]].
  - split; try done.
    + apply (keeps_stack st); [by apply keeps_same|done].
    + intros _ _. split; [|done]. change (In ":"%ch (output_buffer (start_header text st))). rewrite Hbuf. by apply in_c_text_app.
    + change (Z.of_nat (length (output_buffer (start_header text st))) <= Z.max 75 (Z.max 0 var_header_limit + Z.of_nat n)).
      rewrite Hbuf. rewrite Etext in Hn. rewrite !length_app in *. unfold c_text. rewrite length_take. simpl in *. lia.
  - intros Hnul [Herr|(blank & Hecho & Hb)]; [by left|]. right. exists blank. split; [|done].
    set (st' := set_prev_rec_type _ _).
    assert (E : sent_text st' ++ pending st' = (sent_text st ++ pending st) ++ line rec_type (tidied text)); [|rewrite E; by apply echo_header].
    change (sent_text st') with (sent_text st). unfold pending at 2. rewrite decide_True by done. rewrite app_nil_r. f_equal.
    unfold pending. change (output_buffer st') with (output_buffer (start_header text st)). rewrite Hbuf.
    change (prev_rec_type st') with rec_type. rewrite (tidied_spec _ _ _ _ Etext Hbl Elen).
    rewrite decide_False by (unfold c_text; simpl; by destruct label). do 2 f_equal. apply c_text_no_null.
    subst text. unfold no_null in *. rewrite !Forall_app in Hnul. tauto.
Qed.

(** The end of the headers, or a body line. *)
Lemma flushed_spec n (text : bytes) st :
  wf n st -> curr_state st <> MIME_STATE_BODY -> (output_buffer st <> [] -> prev_rec_type st = REC_TYPE_NORM) ->
  exists st', (if (0 <? length (output_buffer st))%nat then flush_header var_mime_bound_len var_mime_maxdepth drop_hdrs (length text) st else Ret st) = Ret st'
    /\ wf n st' /\ keeps st st' /\ curr_state st' = curr_state st /\ output_buffer st' = []
    /\ (downgrades st = false -> forall recs, echoed recs st -> echoed recs st')
    /\ (prev_rec_type st' = 0 \/ prev_rec_type st' = prev_rec_type st).
Proof.
  intros Hwf Hnb Hp. destruct (Nat.ltb_spec 0 (length (output_buffer st))) as [Hlt|Hge].
  - assert (Hne : output_buffer st <> []) by (by destruct (output_buffer st); simpl in *; [lia|]).
    destruct (wf_header _ _ Hwf Hnb Hne) as [Hin _].
    destruct (flush_header_spec (length text) st Hin) as (st' & -> & K & S & B & P & T).
    exists st'. split; [done|]. pose proof Hwf as [H1 H2 H6 H3 H4 H5]. split; [|split; [done|split; [done|split; [done|split; [|by left]]]]].
    + split; rewrite ?S, ?B; try done; [by apply (keeps_stack _ _ K)|by apply (keeps_range _ _ K)|simpl; lia].
    + intros Hd recs [Herr|(blank & He & Hb)]; [left; by apply (keeps_errors _ _ K)|]. right. exists blank. rewrite S. split; [|done].
      unfold pending in *. rewrite B. rewrite decide_True by done. rewrite decide_False in He by done.
      rewrite T, Hp in * by done. unfold line in He. simpl in He. by rewrite app_nil_r.
  - exists st. assert (output_buffer st = []) by (destruct (output_buffer st); simpl in *; [done|lia]).
    split; [done|]. split; [done|]. split; [reflexivity|]. auto.
Qed.

Lemma body_wf n st : 1 <= curr_state st <= 4 -> stack_ok st -> 0 <= err_flags st < 32 -> partial_ok st ->
  Z.of_nat (length (output_buffer st)) <= Z.max 75 (Z.max 0 var_header_limit + Z.of_nat n) -> wf n st.
Proof. intros Hr Hs He Hp Hl. split; [done|done|done| |done|done]. intros Hnb Hne. by apply Hp in Hne as [? _]. Qed.

Definition add_text (rec_type : Z) (text : bytes) (recs : list (Z * bytes)) : list (Z * bytes) :=
  if input_is_text rec_type then recs ++ [(rec_type, text)] else recs.

Lemma body_echoed n rec_type text st :
  wf n st -> partial_ok st -> (curr_state st = MIME_STATE_BODY \/ downgrading st = false) ->
  (input_is_text rec_type = false -> output_buffer st = []) ->
  exists st', body_record rec_type text st = Ret st' /\ wf n st' /\ keeps st st' /\ prev_rec_type st' = rec_type
    /\ (input_is_text rec_type = false -> output_buffer st' = [])
    /\ (downgrades st = false -> forall recs, echoed recs st -> echoed (add_text rec_type text recs) st').
Proof.
  intros Hwf Hp Hb Ht. pose proof Hwf as [H1 H2 H6 H3 H4 H5].
  destruct (body_record_spec rec_type text st H1 Hb Hp Ht) as (st' & E & K & P & S & Sp & Hp' & L & T).
  exists st'. split; [done|]. split; [apply body_wf; [done|by apply (keeps_stack _ _ K)|by apply (keeps_range _ _ K)|done|lia]|].
  do 2 (split; [done|]). split.
  { intros Hn. destruct (decide (output_buffer st' = [])) as [|Hne]; [done|]. apply Hp' in Hne as (_ & Hc & _).
    by rewrite <- P, Hc in Hn. }
  intros Hd recs [Herr|(blank & He & Hbl)]; [left; by apply (keeps_errors _ _ K)|]. right. exists blank. split; [|auto].
  rewrite pending_partial in * by (first [done | unfold downgrades; by rewrite (keeps_opt _ _ _ K)]).
  rewrite T, app_nil_r by done. rewrite app_nil_r in He. unfold add_text. destruct (input_is_text rec_type); [by apply echo_text|].
  by rewrite app_nil_r.
Qed.

(** At the end of the headers nothing is saved; a blank line may be inserted once. *)
Lemma echoed_end_headers rec_type text recs st :
  output_buffer st = [] -> downgrades st = false -> echoed recs st -> echoed recs (end_headers rec_type text st).
Proof.
  intros B Hd [Herr|(blank & He & Hb)]; destruct (end_headers_spec rec_type text st B) as (K & B' & _ & S & T).
  { left. by apply (keeps_errors _ _ K). }
  right. unfold pending in *. rewrite B in He. rewrite B', decide_True in * by done. rewrite app_nil_r in *.
  assert (Hs : curr_state (end_headers rec_type text st) <> MIME_STATE_PRIMARY) by (by destruct S as [-> |[-> _]]).
  destruct (T Hd) as [-> |[Hp ->]]; [by exists blank|]. exists true. split; [|done].
  destruct blank; [by destruct Hb|]. by apply echo_blank.
Qed.

Lemma new_record_spec n rec_type text st :
  wf n st -> (length text <= n)%nat -> curr_state st <> MIME_STATE_BODY -> (output_buffer st <> [] -> prev_rec_type st = REC_TYPE_NORM) ->
  exists st',
    (st ← (if (0 <? length (output_buffer st))%nat then flush_header var_mime_bound_len var_mime_maxdepth drop_hdrs (length text) st else Ret st);
     if input_is_text rec_type && (0 <? is_header_buf text)%nat
     then Ret (set_prev_rec_type rec_type (start_header text st))
     else body_record rec_type text (end_headers rec_type text st)) = Ret st'
    /\ wf n st' /\ keeps st st' /\ prev_rec_type st' = rec_type /\ (input_is_text rec_type = false -> output_buffer st' = [])
    /\ (no_null text -> downgrades st = false -> forall recs, echoed recs st -> echoed (add_text rec_type text recs) st').
Proof.
  intros Hwf Hn Hnb Hp. destruct (flushed_spec n text st Hwf Hnb Hp) as (st1 & -> & W & K & S & B & T & _). simpl.
  destruct (input_is_text rec_type) eqn:Ht; [destruct (Nat.ltb_spec 0 (is_header_buf text)) as [Hh|_]|]; simpl.
  { destruct (start_header_spec n text rec_type [] st1) as (W' & K' & _); try done; [congruence|].
    eexists; split; [done|]. split; [done|]. split; [by etransitivity|]. split; [done|]. split; [done|].
    intros Hnul Hd recs He. unfold add_text. rewrite Ht. apply (start_header_spec n); try done; [congruence|auto]. }
  all: destruct (end_headers_spec rec_type text st1 B) as (K2 & B2 & P2 & S2 & T2);
    set (st2 := end_headers rec_type text st1) in *;
    pose proof W as [H1 H2 H6 H3 H4 H5];
    (assert (W2 : wf n st2) by
      (apply body_wf; [destruct S2 as [-> |[-> _]]; done|by apply (keeps_stack _ _ K2)|by apply (keeps_range _ _ K2)|by intros Hne; rewrite B2 in Hne|rewrite B2; simpl; lia]));
    (destruct (body_echoed n rec_type text st2) as (st' & E & W3 & K3 & P3 & B3 & T3);
      [done|by intros Hne; rewrite B2 in Hne|destruct S2 as [?|[_ Hd]]; [by left|right; unfold downgrading; by rewrite Hd, andb_false_r]|done|]);
    (exists st'; split; [done|]; split; [done|]; split; [by do 2 (etransitivity; [eassumption|])|]; split; [done|]; split; [by intros; first [discriminate|apply B3]|]);
    intros _ Hd recs He; apply T3; [unfold downgrades; by rewrite (keeps_opt _ _ _ K2), (keeps_opt _ _ _ K)|];
    apply echoed_end_headers; [done|unfold downgrades; by rewrite (keeps_opt _ _ _ K)|auto].
Qed.

Lemma update_record_spec n rec_type text st :
  wf n st -> (length text <= n)%nat -> (input_is_text rec_type = true \/ prev_rec_type st <> REC_TYPE_CONT) ->
  exists st', update_record var_header_limit var_mime_bound_len var_mime_maxdepth drop_hdrs rec_type text st = Ret st'
    /\ wf n st' /\ keeps st st' /\ prev_rec_type st' = rec_type /\ (input_is_text rec_type = false -> output_buffer st' = [])
    /\ (no_null text -> reports_truncation st = true -> downgrades st = false ->
        forall recs, echoed recs st -> echoed (add_text rec_type text recs) st').
Proof.
  intros Hwf Hn Hrec. pose proof Hwf as [H1 H2 H6 H3 H4 H5]. unfold update_record. cbv zeta.
  rewrite header_state_spec by done. destruct (Z.eqb_spec (curr_state st) MIME_STATE_BODY) as [Hbody|Hnb]; cbn [negb].
  { specialize (H4 Hbody). destruct (body_echoed n rec_type text st) as (st' & E & W & K & P & B & T); try done; [by left| |].
    - intros Hnt. destruct (decide (output_buffer st = [])) as [|Hne]; [done|]. apply H4 in Hne as (_ & Hc & _).
      destruct Hrec; congruence.
    - exists st'. do 5 (split; [done|]). intros _ _ Hd. by apply T. }
  assert (Happend : forall add, input_is_text rec_type = true -> output_buffer st <> [] ->
    add = c_text text /\ prev_rec_type st = REC_TYPE_CONT \/ add = 10 :: c_text text /\ prev_rec_type st = REC_TYPE_NORM ->
    exists st', Ret (set_prev_rec_type rec_type (append_header var_header_limit add st)) = Ret st'
    /\ wf n st' /\ keeps st st' /\ prev_rec_type st' = rec_type /\ (input_is_text rec_type = false -> output_buffer st' = [])
    /\ (no_null text -> reports_truncation st = true -> downgrades st = false ->
        forall recs, echoed recs st -> echoed (add_text rec_type text recs) st')).
  { intros add Ht Hne Hadd. unfold add_text. rewrite Ht. eexists; split; [done|].
    destruct (append_header_spec n add text rec_type [] st Hwf Hnb Hne Hn Ht Hadd) as (W & K & _).
    do 4 (split; [done|]). intros. eapply append_header_spec; eauto. }
  assert (Hsaved : (0 <? length (output_buffer st))%nat = true <-> output_buffer st <> []).
  { rewrite Nat.ltb_lt. destruct (output_buffer st); simpl; split; (done || lia). }
  destruct (_ && (prev_rec_type st =? REC_TYPE_CONT)) eqn:Hcont.
  { apply andb_true_iff in Hcont as [[Hs Ht]%andb_true_iff Hc%Z.eqb_eq]. apply Happend; auto. by apply Hsaved. }
  assert (Hnorm : output_buffer st <> [] -> prev_rec_type st = REC_TYPE_NORM).
  { intros Hne. destruct (H3 Hnb Hne) as [_ [?%Z.eqb_eq|Hc%Z.eqb_eq]%orb_true_iff]; [done|].
    rewrite (proj2 Hsaved Hne), Hc, Z.eqb_refl in Hcont. destruct Hrec as [Ht|]; [by rewrite Ht in Hcont|done]. }
  destruct (_ && IS_SPACE_TAB (cp text 0)) eqn:Hblank.
  { apply andb_true_iff in Hblank as [[Hs Ht]%andb_true_iff _]. apply Hsaved in Hs. apply Happend; auto. }
  destruct (new_record_spec n rec_type text st Hwf Hn Hnb Hnorm) as (st' & E & W & K & P & B & T).
  exists st'. do 5 (split; [done|]). auto.
Qed.

Lemma update_spec n rec_type text st :
  wf n st -> (length text <= n)%nat ->
  exists st', mime_state_update var_header_limit var_mime_bound_len var_mime_maxdepth drop_hdrs rec_type text st = Ret st'
    /\ wf n st' /\ keeps st st' /\ prev_rec_type st' = rec_type /\ (input_is_text rec_type = false -> output_buffer st' = [])
    /\ (no_null text -> reports_truncation st = true -> downgrades st = false -> forall recs, echoed recs st ->
        echoed (add_text rec_type text (recs ++ (if negb (input_is_text rec_type) && (prev_rec_type st =? REC_TYPE_CONT) then [(REC_TYPE_NORM, [])] else []))) st').
Proof.
  intros Hwf Hn. unfold mime_state_update. destruct (negb _ && _) eqn:Hpart.
  - apply andb_true_iff in Hpart as [Ht%negb_true_iff Hc].
    destruct (update_record_spec n REC_TYPE_NORM [] st) as (st1 & -> & W1 & K1 & P1 & _ & T1); [done|simpl; lia|by left|]. simpl.
    destruct (update_record_spec n rec_type text st1) as (st2 & E & W2 & K2 & P2 & B2 & T2); [done|done|right; by rewrite P1|].
    exists st2. do 2 (split; [done|]). split; [by etransitivity|]. do 2 (split; [done|]). intros Hnul Hr Hd recs He.
    apply T2; unfold reports_truncation, downgrades in *; rewrite ?(keeps_opt _ _ _ K1); auto. by apply T1; [constructor|..].
  - simpl. assert (Hpre : input_is_text rec_type = true \/ prev_rec_type st <> REC_TYPE_CONT).
    { apply andb_false_iff in Hpart as [?%negb_false_iff|?%Z.eqb_neq]; auto. }
    destruct (update_record_spec n rec_type text st Hwf Hn Hpre) as (st2 & E & W2 & K2 & P2 & B2 & T2).
    exists st2. do 5 (split; [done|]). intros. rewrite app_nil_r. by apply T2.
Qed.

Lemma run_wf n recs st :
  wf n st -> Forall (fun r => length (snd r) <= n)%nat recs ->
  exists st', mime_state_run var_header_limit var_mime_bound_len var_mime_maxdepth drop_hdrs recs st = Ret st' /\ wf n st'.
Proof.
  revert st. induction recs as [|[rec_type text] recs IH]; intros st Hwf Hl; simpl; [by exists st|].
  apply Forall_cons in Hl as [Hn Hl]. destruct (update_spec n rec_type text st Hwf Hn) as (st1 & -> & W & _). simpl. by apply IH.
Qed.

Definition closing (rec_type : Z) : list (Z * bytes) := if rec_type =? REC_TYPE_CONT then [(REC_TYPE_NORM, [])] else [].

(** Text records, and then the end of the text. *)
Lemma run_echoed n recs done_recs rec_type st :
  wf n st -> Forall (fun r => length (snd r) <= n)%nat recs ->
  Forall (fun r => input_is_text (fst r) = true /\ no_null (snd r)) recs -> input_is_text rec_type = false ->
  reports_truncation st = true -> downgrades st = false -> echoed done_recs st ->
  exists st', mime_state_run var_header_limit var_mime_bound_len var_mime_maxdepth drop_hdrs (recs ++ [(rec_type, [])]) st = Ret st'
    /\ output_buffer st' = []
    /\ echoed (done_recs ++ recs ++ closing (from_option fst (prev_rec_type st) (last recs))) st'.
Proof.
  revert done_recs st. induction recs as [|[t text] recs IH]; intros done_recs st Hwf Hl Hr Hnt Hrep Hdn He; simpl.
  - destruct (update_spec n rec_type [] st Hwf) as (st1 & -> & W & K & P & B & T); [simpl; lia|].
    exists st1. split; [done|]. split; [by apply B|]. specialize (T (List.Forall_nil _) Hrep Hdn _ He).
    unfold add_text, closing in *. by rewrite Hnt in T.
  - apply Forall_cons in Hl as [Hn Hl]. apply Forall_cons in Hr as [[Ht Hnul] Hr]. simpl in *.
    destruct (update_spec n t text st Hwf Hn) as (st1 & -> & W & K & P & B & T). simpl.
    specialize (T Hnul Hrep Hdn _ He). rewrite Ht in T. simpl in T. unfold add_text in T. rewrite Ht, app_nil_r in T.
    destruct (IH (done_recs ++ [(t, text)]) st1 W Hl Hr Hnt) as (st2 & E & B2 & T2);
      [by unfold reports_truncation; rewrite (keeps_opt _ _ _ K)|by unfold downgrades; rewrite (keeps_opt _ _ _ K)|exact T|].
    exists st2. do 2 (split; [done|]). rewrite <- app_assoc in T2. simpl in T2. rewrite P in T2.
    change (last ((t, text) :: recs)) with (last ([(t, text)] ++ recs)). rewrite last_app.
    by destruct (last recs).
Qed.

Lemma alloc_wf n flags : wf n (mime_state_alloc flags).
Proof.
  split; try done; [|simpl; lia]. split; simpl; [done|lia|done].
Qed.

Lemma records_bounded (recs : list (Z * bytes)) :
  Forall (fun r => length (snd r) <= max_list (length ∘ snd <$> recs))%nat recs.
Proof.
  apply Forall_forall. intros r Hr. apply max_list_elem_of_le. apply (list_elem_of_fmap_2 (length ∘ snd)). exact Hr.
Qed.

(** C20: The parser stays within its limits, whatever the input is.  For every sequence of
    records, with every setting of the options, the run ends without a panic (no pop from an
    empty boundary stack, no saved header without a colon, no unknown state), in a header or
    body state, with at most two boundaries more than var_mime_maxdepth on the stack, no
    boundary longer than var_mime_bound_len, and at most var_header_limit characters and one
    more record, or a line of 75 characters, in the buffer; and it can be freed. *)
Theorem mime_state_bounded flags recs :
  exists st, mime_state_run var_header_limit var_mime_bound_len var_mime_maxdepth drop_hdrs recs (mime_state_alloc flags) = Ret st
    /\ 1 <= curr_state st <= 4
    /\ nesting_level st = Z.of_nat (length (stack st)) - 1 /\ Z.of_nat (length (stack st)) <= var_mime_maxdepth + 2
    /\ Forall (fun sp => Z.of_nat (bound_len sp) <= var_mime_bound_len) (stack st)
    /\ Z.of_nat (length (output_buffer st)) <= Z.max 75 (Z.max 0 var_header_limit + Z.of_nat (max_list (length ∘ snd <$> recs)))
    /\ exists st', mime_state_free st = Ret st' /\ stack st' = [].
Proof.
  destruct (run_wf (max_list (length ∘ snd <$> recs)) recs (mime_state_alloc flags)) as (st & E & [H1 [H2 H3 H4] _ _ _ H5]);
    [apply alloc_wf|apply records_bounded|].
  exists st. do 6 (split; [done|]). destruct (pop_until_calm (length (stack st)) st) as (st' & Ef & _ & Es); [lia|].
  exists st'. split; [done|]. by rewrite Es, drop_all.
Qed.


Lemma list_find_split {A} (f : A -> bool) l x :
  List.find f l = Some x -> exists pre post, l = pre ++ x :: post /\ f x = true /\ Forall (fun y => f y = false) pre.
Proof.
  induction l as [|y l IH]; simpl; [done|]. destruct (f y) eqn:E.
  - intros [= <-]. by exists [], l.
  - intros H. destruct (IH H) as (pre & post & -> & Hx & Hp). exists (y :: pre), post. split; [done|]. split; [done|by constructor].
Qed.

Lemma detail_found e : 0 < e < 32 -> exists mp, List.find (fun mp : Z * bytes * bytes => negb (Z.land (fst (fst mp)) e =? 0)) mime_err_detail = Some mp.
Proof.
  intros He. assert (Hall : forallb (fun n => match List.find (fun mp : Z * bytes * bytes => negb (Z.land (fst (fst mp)) (Z.of_nat n) =? 0)) mime_err_detail with
    Some _ => true | None => false end) (seq 1 31) = true) by (vm_compute; reflexivity).
  rewrite forallb_forall in Hall. specialize (Hall (Z.to_nat e)). rewrite Z2Nat.id in Hall by lia.
  destruct (List.find _ _) as [mp|]; [by exists mp|]. assert (false = true) by (apply Hall, in_seq; lia). done.
Qed.

(** C27: Every result of the parser can be explained: for each error that a message can have,
    and for each combination of them, mime_state_detail() finds the table entry of an error
    that occurred, none that stands before it in the table has occurred, and
    mime_state_error() returns its text; neither panics. *)
Theorem mime_state_errors_explained flags recs st :
  mime_state_run var_header_limit var_mime_bound_len var_mime_maxdepth drop_hdrs recs (mime_state_alloc flags) = Ret st ->
  err_flags st <> 0 ->
  exists code dsn text before after,
    mime_err_detail = before ++ (code, dsn, text) :: after
    /\ mime_state_detail (err_flags st) = Ret (code, dsn, text) /\ mime_state_error (err_flags st) = Ret text
    /\ Z.land code (err_flags st) <> 0 /\ Forall (fun mp => Z.land (fst (fst mp)) (err_flags st) = 0) before.
Proof.
  intros E He. destruct (run_wf (max_list (length ∘ snd <$> recs)) recs (mime_state_alloc flags)) as (st' & E' & W);
    [apply alloc_wf|apply records_bounded|]. rewrite E in E'. injection E' as <-. pose proof (wf_errors _ _ W) as Hr.
  destruct (detail_found (err_flags st)) as [[[code dsn] text] Hf]; [lia|]. pose proof Hf as Hf'.
  apply list_find_split in Hf as (pre & post & Hl & Hx & Hp). exists code, dsn, text, pre, post. unfold mime_state_error, mime_state_detail.
  rewrite (proj2 (Z.eqb_neq _ _) He), Hf'. split; [done|]. split; [done|]. split; [done|]. split.
  - by apply negb_true_iff, Z.eqb_neq in Hx.
  - eapply Forall_impl; [exact Hp|]. intros mp Hmp. by apply negb_false_iff, Z.eqb_eq in Hmp.
Qed.

End proofs.

(** ** Quoted-printable *)

(** An encoded text and what it stands for. *)
Inductive qp_text : bytes -> bytes -> Prop :=
  | qp_nil : qp_text [] []
  | qp_plain enc dec c : c <> "="%ch -> qp_text enc dec -> qp_text (enc ++ [c]) (dec ++ [c])
  | qp_coded enc dec c : is_byte c -> qp_text enc dec -> qp_text (enc ++ QP_ENCODE c) (dec ++ [c])
  | qp_soft enc dec : qp_text enc dec -> qp_text (enc ++ ["="%ch; 10]) dec.

Lemma hexchar_spec k : 0 <= k < 16 -> let d := cp hexchars (Z.to_nat k) in hex_value d = k /\ 48 <= d <= 70.
Proof.
  intros Hk. assert (Hall : forallb (fun k => let d := cp hexchars k in (hex_value d =? Z.of_nat k) && (48 <=? d) && (d <=? 70)) (seq 0 16) = true) by reflexivity.
  rewrite forallb_forall in Hall. specialize (Hall (Z.to_nat k)). cbv zeta in *. rewrite !andb_true_iff, Z.eqb_eq, !Z.leb_le in Hall.
  rewrite Z2Nat.id in Hall by lia. destruct Hall as [[? ?] ?]; [|by split]. apply in_seq. lia.
Qed.

Lemma QP_ENCODE_eq c : is_byte c -> QP_ENCODE c = ["="%ch; cp hexchars (Z.to_nat (c / 16)); cp hexchars (Z.to_nat (c mod 16))].
Proof.
  intros Hc. unfold QP_ENCODE, is_byte in *. change 255 with (2 ^ 8 - 1). change 15 with (2 ^ 4 - 1).
  rewrite !land_mask, Z.shiftr_div_pow2 by lia. change (2 ^ 4) with 16. rewrite (Z.mod_small (c / 16)) by plia. done.
Qed.

Lemma qp_decode_coded c rest : is_byte c -> qp_decode (QP_ENCODE c ++ rest) = c :: qp_decode rest.
Proof.
  intros Hc. rewrite QP_ENCODE_eq by done. unfold is_byte in Hc.
  destruct (hexchar_spec (c / 16)) as [H1 G1]; [plia|]. destruct (hexchar_spec (c mod 16)) as [H2 G2]; [plia|]. cbv zeta in *.
  set (a := cp hexchars (Z.to_nat (c / 16))) in *. set (b := cp hexchars (Z.to_nat (c mod 16))) in *. clearbody a b.
  assert (Hd : qp_decode (["="%ch; a; b] ++ rest) = hex_value a * 16 + hex_value b :: qp_decode rest).
  { simpl. destruct a as [|p|p]; try lia. destruct (decide (p = 10%positive)) as [-> |Hp]; [lia|].
    do 4 (destruct p as [p|p|]; try done). }
  rewrite Hd, H1, H2. f_equal. plia.
Qed.

Lemma qp_text_decode enc dec rest : qp_text enc dec -> qp_decode (enc ++ rest) = dec ++ qp_decode rest.
Proof.
  intros H. revert rest. induction H as [|enc dec c Hc H IH|enc dec c Hc H IH|enc dec H IH]; intros rest; [done|..];
    rewrite <- !app_assoc, IH.
  - simpl. by rewrite (proj2 (Z.eqb_neq _ _) Hc).
  - by rewrite qp_decode_coded.
  - done.
Qed.

Lemma qp_text_app enc dec enc' dec' : qp_text enc dec -> qp_text enc' dec' -> qp_text (enc ++ enc') (dec ++ dec').
Proof.
  intros H H'. induction H' as [|enc' dec' c Hc H' IH|enc' dec' c Hc H' IH|enc' dec' H' IH];
    rewrite ?app_nil_r, ?app_assoc; [done|by apply qp_plain|by apply qp_coded|by apply qp_soft].
Qed.

Definition blank (c : Z) : Prop := c = " "%ch \/ c = 9.
Definition qp_char (c : Z) : Prop := 32 <= c <= 126 \/ c = 9.

(** White space at the end of an encoded text stands for itself. *)
Lemma qp_text_last enc dec c : qp_text enc dec -> last enc = Some c -> blank c ->
  exists enc' dec', enc = enc' ++ [c] /\ dec = dec' ++ [c] /\ qp_text enc' dec'.
Proof.
  intros H Hl Hb. destruct H as [|enc dec d Hd H|enc dec d Hd H|enc dec H].
  - done.
  - rewrite last_snoc in Hl. simplify_eq. by exists enc, dec.
  - rewrite QP_ENCODE_eq in * by done. rewrite last_app in Hl. simpl in Hl. simplify_eq.
    destruct (hexchar_spec (d mod 16)) as [_ G]; [plia|]. cbv zeta in G. unfold blank in Hb. destruct Hb; lia.
  - rewrite last_app in Hl. simpl in Hl. simplify_eq. destruct Hb; lia.
Qed.

(** The lines that are passed on, and a line that is being made. *)
Definition qp_line (l : bytes) : Prop :=
  (length l <= 76)%nat /\ Forall qp_char l /\ (forall c, last l = Some c -> ~ blank c).
Definition with_newlines (lines : list bytes) : bytes := concat ((fun l => l ++ [10]) <$> lines).
Definition qp_buffer (b : bytes) : Prop :=
  (length b <= 75)%nat /\ Forall qp_char b /\ (forall c, last b = Some c -> blank c -> (length b <= 73)%nat).

(** The conversion of [dec], since [before] was passed on. *)
Definition converting (before dec : bytes) (st : MIME_STATE) : Prop :=
  exists lines, sent_text st = before ++ with_newlines lines /\ Forall qp_line lines
    /\ qp_text (with_newlines lines ++ output_buffer st) dec /\ qp_buffer (output_buffer st).

Lemma qp_encode_chars c : is_byte c -> Forall qp_char (QP_ENCODE c) /\ forall x d, last (x ++ QP_ENCODE c) = Some d -> ~ blank d.
Proof.
  intros Hc. rewrite QP_ENCODE_eq by done. unfold is_byte in Hc.
  destruct (hexchar_spec (c / 16)) as [_ G1]; [plia|]. destruct (hexchar_spec (c mod 16)) as [_ G2]; [plia|]. cbv zeta in *.
  split; [repeat constructor; lia|]. intros x d Hl. rewrite last_app in Hl. simpl in Hl. simplify_eq. unfold blank. lia.
Qed.

Lemma with_newlines_snoc lines l : with_newlines (lines ++ [l]) = with_newlines lines ++ l ++ [10].
Proof. unfold with_newlines. rewrite fmap_app, concat_app. simpl. by rewrite app_nil_r. Qed.

(** A line break when the line is long. *)
Lemma converting_char before dec ch st :
  is_byte ch -> converting before dec st -> converting before (dec ++ [ch]) (downgrade_char ch st).
Proof.
  intros Hch (lines & Hs & Hl & Hq & (Hb1 & Hb2 & Hb3)). unfold downgrade_char. cbv zeta.
  set (st1 := if (72 <? length (output_buffer st))%nat then _ else st).
  assert (Hst1 : converting before dec st1 /\ (length (output_buffer st1) <= 72)%nat).
  { unfold st1. destruct (Nat.ltb_spec 72 (length (output_buffer st))) as [Hlong|]; [|split; [|lia]; exists lines; by repeat split].
    split; [|simpl; lia]. exists (lines ++ [output_buffer st ++ ["="%ch]]). rewrite with_newlines_snoc. split; [|split; [|split]].
    - change (sent_text (call (body_out REC_TYPE_NORM (output_buffer st ++ ["="%ch]) (body_offset st)) st)
        = before ++ with_newlines lines ++ (output_buffer st ++ ["="%ch]) ++ [10]).
      rewrite sent_call, Hs. by rewrite <- app_assoc.
    - apply Forall_app; split; [done|]. apply Forall_singleton. split; [|split].
      + rewrite length_app. simpl. lia.
      + apply Forall_app; split; [done|]. apply Forall_singleton. unfold qp_char. lia.
      + intros c Hc. rewrite last_snoc in Hc. simplify_eq. unfold blank. lia.
    - simpl. rewrite app_nil_r, <- app_assoc, app_assoc. by apply qp_soft.
    - split; [simpl; lia|]. by split. }
  clearbody st1. destruct Hst1 as [(lines1 & Hs1 & Hl1 & Hq1 & (B1 & B2 & B3)) Hshort].
  destruct (_ || _) eqn:Hspecial; exists lines1; (do 2 (split; [done|])); simpl; rewrite app_assoc.
  - destruct (qp_encode_chars ch Hch) as [E1 E2]. split; [by apply qp_coded|]. split; [rewrite length_app; simpl; lia|].
    split; [by apply Forall_app|]. intros c Hc Hbl. by apply E2 in Hc.
  - apply orb_false_iff in Hspecial as [Hspecial Hhigh]. apply orb_false_iff in Hspecial as [Hlow Heq%Z.eqb_neq].
    split; [by apply qp_plain|]. split; [rewrite length_app; simpl; lia|]. split; [|intros; rewrite length_app; simpl; lia].
    apply Forall_app; split; [done|]. apply Forall_singleton. unfold qp_char. apply andb_false_iff in Hlow. rewrite negb_false_iff in Hlow. lia.
Qed.

Lemma converting_text before dec text st :
  Forall is_byte text -> converting before dec st ->
  converting before (dec ++ text) (fold_left (fun st ch => downgrade_char ch st) text st).
Proof.
  revert dec st. induction text as [|ch text IH]; intros dec st Hb Hc; simpl; [by rewrite app_nil_r|].
  apply Forall_cons in Hb as [Hch Hb]. change (dec ++ ch :: text) with (dec ++ [ch] ++ text). rewrite app_assoc.
  apply IH; [done|]. by apply converting_char.
Qed.

(** The end of a line. *)
Lemma converting_end before dec st :
  Forall is_byte dec -> converting before dec st ->
  let st' := set_output_buffer (fix_trailing (output_buffer st)) st in
  converting before (dec ++ [10]) (set_output_buffer [] (BODY_OUT REC_TYPE_NORM (output_buffer st') st')).
Proof.
  intros Hdec (lines & Hs & Hl & Hq & (Hb1 & Hb2 & Hb3)). cbv zeta. exists (lines ++ [fix_trailing (output_buffer st)]). rewrite with_newlines_snoc.
  set (st' := set_output_buffer (fix_trailing (output_buffer st)) st).
  split; [change (sent_text (call (body_out REC_TYPE_NORM (fix_trailing (output_buffer st)) (body_offset st)) st)
        = before ++ with_newlines lines ++ fix_trailing (output_buffer st) ++ [10]); rewrite sent_call, Hs; by rewrite <- app_assoc|].
  assert (Hfix : qp_line (fix_trailing (output_buffer st)) /\ qp_text (with_newlines lines ++ fix_trailing (output_buffer st)) dec).
  { unfold fix_trailing. destruct (last (output_buffer st)) as [c|] eqn:Elast.
    2: { apply last_None in Elast. rewrite Elast in *. split; [|done]. split; [simpl; lia|]. by split. }
    destruct ((c =? " "%ch) || (c =? 9)) eqn:Hbl.
    2: { split; [|done]. split; [lia|]. split; [done|]. intros d Hd. rewrite Elast in Hd. simplify_eq.
         apply orb_false_iff in Hbl as [?%Z.eqb_neq ?%Z.eqb_neq]. unfold blank. tauto. }
    assert (Hblank : blank c) by (apply orb_true_iff in Hbl as [?%Z.eqb_eq|?%Z.eqb_eq]; unfold blank; auto).
    assert (Hc : is_byte c) by (unfold is_byte; destruct Hblank; lia).
    pose proof (Hb3 _ eq_refl Hblank) as Hshort. apply last_Some in Elast as [b Eb]. rewrite Eb in *.
    rewrite app_assoc in Hq. destruct (qp_text_last _ _ c Hq) as (enc & dec' & E1 & -> & Hq'); [by rewrite last_snoc|done|].
    apply app_inj_tail in E1 as [<- _]. rewrite length_app in *. simpl in *. replace (length b + 1 - 1)%nat with (length b) by lia.
    rewrite take_app_length. destruct (qp_encode_chars c Hc) as [E1 E2]. apply Forall_app in Hb2 as [Hb2 _].
    split; [split; [rewrite length_app; simpl; lia|split; [by apply Forall_app|intros d Hd; by apply E2 in Hd]]|].
    rewrite app_assoc. by apply qp_coded. }
  destruct Hfix as [F1 F2]. split; [apply Forall_app; split; [done|by constructor]|]. split.
  - simpl. rewrite app_nil_r, app_assoc. by apply qp_plain.
  - split; [simpl; lia|by split].
Qed.

(** C21: The conversion to quoted-printable can be undone.  A line that comes as any number of
    continued records and a last one is passed on as lines of at most 76 printable
    characters, none of which ends in white space, and the decoder of RFC 2045 makes of them
    the text of the records. *)
Theorem mime_state_downgrade_roundtrip texts text st :
  output_buffer st = [] -> Forall (Forall is_byte) texts -> Forall is_byte text ->
  exists lines,
    let st' := mime_state_downgrade REC_TYPE_NORM text (fold_left (fun st text => mime_state_downgrade REC_TYPE_CONT text st) texts st) in
    sent_text st' = sent_text st ++ with_newlines lines /\ output_buffer st' = []
    /\ Forall qp_line lines
    /\ qp_decode (with_newlines lines) = concat texts ++ text ++ [10].
Proof.
  intros He Htexts Htext.
  assert (H0 : converting (sent_text st) [] st).
  { exists []. rewrite He. split; [by rewrite app_nil_r|]. split; [done|]. split; [apply qp_nil|]. split; [simpl; lia|by split]. }
  assert (Hconts : forall dec st1, converting (sent_text st) dec st1 ->
    converting (sent_text st) (dec ++ concat texts) (fold_left (fun st text => mime_state_downgrade REC_TYPE_CONT text st) texts st1)).
  { clear H0. induction Htexts as [|t texts Ht Htexts IH]; intros dec st1 Hc; simpl; [by rewrite app_nil_r|].
    rewrite app_assoc. apply IH. unfold mime_state_downgrade. simpl. by apply converting_text. }
  specialize (Hconts _ _ H0). simpl in Hconts. apply (converting_text _ _ text) in Hconts; [|done].
  apply converting_end in Hconts; [|apply Forall_app; split; [by apply Forall_concat|done]].
  destruct Hconts as (lines & Hs & Hl & Hq & _). exists lines. cbv zeta. split; [exact Hs|]. split; [done|]. split; [done|].
  simpl in Hq. rewrite app_nil_r in Hq. apply (qp_text_decode _ _ []) in Hq. rewrite !app_nil_r in Hq. by rewrite Hq, <- app_assoc.
Qed.

Lemma mime_state_downgrade_roundtrip_witness :
  exists lines, qp_decode (with_newlines lines) = [200; 32; 32; 10].
Proof.
  destruct (mime_state_downgrade_roundtrip [[200]; []] [32; 32] (mime_state_alloc 1)) as (lines & _ & _ & _ & H);
    [done|repeat constructor; lia|repeat constructor; lia|]. exists lines. exact H.
Defined.

(** ** Examples *)

Lemma mime_state_bounded_witness :
  exists st, mime_state_run 100 20 1 [] [(REC_TYPE_NORM, str "Content-Type: multipart/x; boundary=b")] (mime_state_alloc 0) = Ret st
    /\ curr_state st <= 4.
Proof.
  destruct (mime_state_bounded 100 20 1 [] ltac:(lia) ltac:(lia) 0 [(REC_TYPE_NORM, str "Content-Type: multipart/x; boundary=b")])
    as (st & E & [_ H] & _). exists st. split; [exact E|exact H].
Defined.


Lemma mime_state_errors_explained_witness :
  exists st, mime_state_run 100 20 1 [] [(REC_TYPE_NORM, [65; 58; 200]); (REC_TYPE_NORM, [])] (mime_state_alloc MIME_OPT_REPORT_8BIT_IN_HEADER) = Ret st
    /\ exists text, mime_state_error (err_flags st) = Ret text.
Proof.
  assert (E : exists st, mime_state_run 100 20 1 [] [(REC_TYPE_NORM, [65; 58; 200]); (REC_TYPE_NORM, [])]
    (mime_state_alloc MIME_OPT_REPORT_8BIT_IN_HEADER) = Ret st /\ err_flags st <> 0).
  { eexists. split; [vm_compute; reflexivity|]. discriminate. }
  destruct E as (st & E & He). exists st. split; [exact E|].
  destruct (mime_state_errors_explained 100 20 1 [] ltac:(lia) ltac:(lia) MIME_OPT_REPORT_8BIT_IN_HEADER
    [(REC_TYPE_NORM, [65; 58; 200]); (REC_TYPE_NORM, [])] st E He) as (code & dsn & text & before & after & _ & _ & H & _).
  exists text. exact H.
Defined.

Definition calls_of (flags : Z) (lines : list bytes) : list callback :=
  match mime_state_run 2000 2000 20 [] (((fun l => (REC_TYPE_NORM, l)) <$> lines) ++ [(0, [])]) (mime_state_alloc flags) with
  | Ret st => calls st
  | _ => []
  end.

(** In a digest, a part that is declared as an application is taken for a message: the
    content type that is not text, message or multipart leaves the type as it was. *)
Lemma digest_application_is_message :
  exists info offset, head_out MIME_STATE_NESTED info (str "Subject: data") offset ∈
    calls_of 0 [str "Content-Type: multipart/digest; boundary=b"; []; str "--b"; str "Content-Type: application/octet-stream"; [];
                str "Subject: data"; []; str "--b--"].
Proof.
  eexists _, _. set (l := calls_of 0 _). vm_compute in l. unfold l. clear l.
  repeat first [apply list_elem_of_here | apply list_elem_of_further].
Qed.

(** The offset of the second header counts the length of the second header instead of the first. *)
Lemma header_offset_next_record :
  exists info, head_out MIME_STATE_PRIMARY info (str "B: 1") 5 ∈ calls_of 0 [str "A: 1234567890"; str "B: 1"; []].
Proof.
  eexists. set (l := calls_of 0 _). vm_compute in l. unfold l. clear l.
  repeat first [apply list_elem_of_here | apply list_elem_of_further].
Qed.
