(* ===== verification/Master.v ===== *)
(** The master(8) process manager: master_avail.c, master_spawn.c,
    master_status.c, master_wakeup.c and master_service.c (src/src/master).

    The state holds the services, the table of child processes and what the
    master has asked of the event manager (read events on listen sockets, timers).
    Operating-system results (fork, waitpid, read) are arguments of the handlers;
    [event_ok] says which results can occur. *)

From S2P Require Import Prelude.

(** ** Data (master.h, master_proto.h) *)

Definition MASTER_FLAG_THROTTLE : Z := Z.shiftl 1 0.
Definition MASTER_FLAG_MARK : Z := Z.shiftl 1 1.
Definition MASTER_FLAG_CONDWAKE : Z := Z.shiftl 1 2.
Definition MASTER_FLAG_LISTEN : Z := Z.shiftl 1 5.

Definition MASTER_STAT_TAKEN : Z := 0.
Definition MASTER_STAT_AVAIL : Z := 1.

(** The fields that process management reads or writes.  [stress_param] is
    [stress_param_val != 0]; [status_open] is [status_fd[0] >= 0]. *)
Record MASTER_SERV := mk_serv {
  flags : Z;
  busy_warn_time : Z;
  wakeup_time : Z;
  listen_fd : list Z;
  max_proc : Z;
  stress_param : bool;
  stress_expire_time : Z;
  avail_proc : Z;
  total_proc : Z;
  status_open : bool
}.

Record MASTER_PROC := mk_proc {
  gen : Z;
  avail : Z;
  serv : nat;
  use_count : Z
}.

Inductive ext_call := Trigger (s : nat) | Kill (pid : Z).

(** The state of the program.  A pointer to a service is its key in [servs];
    [child_table] is master_child_table.  [reads] holds the listen sockets that
    the event manager watches with master_avail_event, [throttle_timers] and
    [wakeup_timers] the services with a pending timer of either kind; [now] is
    event_time(); [log] records the external calls, latest first. *)
Record master := mk_master {
  servs : gmap nat MASTER_SERV;
  child_table : gmap Z MASTER_PROC;
  master_generation : Z;
  reads : gmap Z nat;
  throttle_timers : gset nat;
  wakeup_timers : gset nat;
  now : Z;
  log : list ext_call
}.

Definition set_flags (f : Z) (sv : MASTER_SERV) : MASTER_SERV :=
  mk_serv f (busy_warn_time sv) (wakeup_time sv) (listen_fd sv) (max_proc sv) (stress_param sv)
    (stress_expire_time sv) (avail_proc sv) (total_proc sv) (status_open sv).
Definition set_busy_warn_time (t : Z) (sv : MASTER_SERV) : MASTER_SERV :=
  mk_serv (flags sv) t (wakeup_time sv) (listen_fd sv) (max_proc sv) (stress_param sv)
    (stress_expire_time sv) (avail_proc sv) (total_proc sv) (status_open sv).
Definition set_limits (n w : Z) (sv : MASTER_SERV) : MASTER_SERV :=
  mk_serv (flags sv) (busy_warn_time sv) w (listen_fd sv) n (stress_param sv)
    (stress_expire_time sv) (avail_proc sv) (total_proc sv) (status_open sv).
Definition set_stress_expire_time (t : Z) (sv : MASTER_SERV) : MASTER_SERV :=
  mk_serv (flags sv) (busy_warn_time sv) (wakeup_time sv) (listen_fd sv) (max_proc sv)
    (stress_param sv) t (avail_proc sv) (total_proc sv) (status_open sv).
Definition set_avail_proc (n : Z) (sv : MASTER_SERV) : MASTER_SERV :=
  mk_serv (flags sv) (busy_warn_time sv) (wakeup_time sv) (listen_fd sv) (max_proc sv)
    (stress_param sv) (stress_expire_time sv) n (total_proc sv) (status_open sv).
Definition set_total_proc (n : Z) (sv : MASTER_SERV) : MASTER_SERV :=
  mk_serv (flags sv) (busy_warn_time sv) (wakeup_time sv) (listen_fd sv) (max_proc sv)
    (stress_param sv) (stress_expire_time sv) (avail_proc sv) n (status_open sv).
Definition set_status_open (b : bool) (sv : MASTER_SERV) : MASTER_SERV :=
  mk_serv (flags sv) (busy_warn_time sv) (wakeup_time sv) (listen_fd sv) (max_proc sv)
    (stress_param sv) (stress_expire_time sv) (avail_proc sv) (total_proc sv) b.

Definition set_avail (a : Z) (p : MASTER_PROC) : MASTER_PROC :=
  mk_proc (gen p) a (serv p) (use_count p).
Definition set_use_count (n : Z) (p : MASTER_PROC) : MASTER_PROC :=
  mk_proc (gen p) (avail p) (serv p) n.

Definition set_servs (x : gmap nat MASTER_SERV) (m : master) : master :=
  mk_master x (child_table m) (master_generation m) (reads m) (throttle_timers m)
    (wakeup_timers m) (now m) (log m).
Definition set_child_table (x : gmap Z MASTER_PROC) (m : master) : master :=
  mk_master (servs m) x (master_generation m) (reads m) (throttle_timers m)
    (wakeup_timers m) (now m) (log m).
Definition set_master_generation (x : Z) (m : master) : master :=
  mk_master (servs m) (child_table m) x (reads m) (throttle_timers m)
    (wakeup_timers m) (now m) (log m).
Definition set_reads (x : gmap Z nat) (m : master) : master :=
  mk_master (servs m) (child_table m) (master_generation m) x (throttle_timers m)
    (wakeup_timers m) (now m) (log m).
Definition set_throttle_timers (x : gset nat) (m : master) : master :=
  mk_master (servs m) (child_table m) (master_generation m) (reads m) x
    (wakeup_timers m) (now m) (log m).
Definition set_wakeup_timers (x : gset nat) (m : master) : master :=
  mk_master (servs m) (child_table m) (master_generation m) (reads m) (throttle_timers m)
    x (now m) (log m).
Definition set_now (x : Z) (m : master) : master :=
  mk_master (servs m) (child_table m) (master_generation m) (reads m) (throttle_timers m)
    (wakeup_timers m) x (log m).
Definition add_log (c : ext_call) (m : master) : master :=
  mk_master (servs m) (child_table m) (master_generation m) (reads m) (throttle_timers m)
    (wakeup_timers m) (now m) (c :: log m).

Definition set_listen_fd (fds : list Z) (sv : MASTER_SERV) : MASTER_SERV :=
  mk_serv (flags sv) (busy_warn_time sv) (wakeup_time sv) fds (max_proc sv) (stress_param sv)
    (stress_expire_time sv) (avail_proc sv) (total_proc sv) (status_open sv).

(** Follow a service or process pointer; a dangling one is undefined. *)
Definition get_serv (s : nat) (m : master) : outcome MASTER_SERV :=
  match servs m !! s with Some sv => Ret sv | None => Undef end.
Definition get_proc (pid : Z) (m : master) : outcome MASTER_PROC :=
  match child_table m !! pid with Some p => Ret p | None => Undef end.
Definition upd_serv (s : nat) (f : MASTER_SERV -> MASTER_SERV) (m : master) : master :=
  set_servs (alter f s (servs m)) m.
Definition upd_proc (pid : Z) (f : MASTER_PROC -> MASTER_PROC) (m : master) : master :=
  set_child_table (alter f pid (child_table m)) m.

Definition MASTER_THROTTLED (sv : MASTER_SERV) : bool :=
  negb (Z.land (flags sv) MASTER_FLAG_THROTTLE =? 0).
Definition MASTER_LISTENING (sv : MASTER_SERV) : bool :=
  negb (Z.land (flags sv) MASTER_FLAG_LISTEN =? 0).
Definition MASTER_LIMIT_OK (limit count : Z) : bool := (limit =? 0) || (count <? limit).

(** ** master_avail.c, except for its event handler *)

Definition event_enable_reads (fds : list Z) (s : nat) (m : master) : master :=
  set_reads (foldl (fun r fd => <[fd := s]> r) (reads m) fds) m.
Definition event_disable_reads (fds : list Z) (m : master) : master :=
  set_reads (foldl (fun r fd => delete fd r) (reads m) fds) m.

Definition listen_wanted (sv : MASTER_SERV) : bool :=
  if MASTER_THROTTLED sv || (avail_proc sv >? 0) then false
  else if MASTER_LIMIT_OK (max_proc sv) (total_proc sv) then true
  else false.

Definition master_avail_listen (s : nat) (m : master) : outcome master :=
  sv ← get_serv s m;
  let listen_flag := listen_wanted sv in
  let m :=
    if MASTER_THROTTLED sv || (avail_proc sv >? 0) then m
    else if MASTER_LIMIT_OK (max_proc sv) (total_proc sv) then m
    else if stress_param sv && (busy_warn_time sv <? now m - 1000)
    then upd_serv s (set_busy_warn_time (now m)) m else m in
  if listen_flag && negb (MASTER_LISTENING sv) then
    let m := event_enable_reads (listen_fd sv) s m in
    Ret (upd_serv s (fun sv => set_flags (Z.lor (flags sv) MASTER_FLAG_LISTEN) sv) m)
  else if negb listen_flag && MASTER_LISTENING sv then
    let m := event_disable_reads (listen_fd sv) m in
    Ret (upd_serv s (fun sv => set_flags (Z.land (flags sv) (Z.lnot MASTER_FLAG_LISTEN)) sv) m)
  else Ret m.

Definition master_avail_more (s : nat) (pid : Z) (m : master) : outcome master :=
  proc ← get_proc pid m;
  if avail proc =? MASTER_STAT_AVAIL then Panic else
  let m := upd_serv s (fun sv => set_avail_proc (avail_proc sv + 1) sv) m in
  let m := upd_proc pid (set_avail MASTER_STAT_AVAIL) m in
  master_avail_listen s m.

Definition master_avail_less (s : nat) (pid : Z) (m : master) : outcome master :=
  proc ← get_proc pid m;
  if negb (avail proc =? MASTER_STAT_AVAIL) then Panic else
  let m := upd_serv s (fun sv => set_avail_proc (avail_proc sv - 1) sv) m in
  let m := upd_proc pid (set_avail MASTER_STAT_TAKEN) m in
  master_avail_listen s m.

(** ** master_wakeup.c *)

Definition master_wakeup_timer_event (s : nat) (m : master) : outcome master :=
  sv ← get_serv s m;
  if wakeup_time sv =? 0 then Ret m else
  let m := if negb (MASTER_THROTTLED sv) then add_log (Trigger s) m else m in
  Ret (set_wakeup_timers ({[s]} ∪ wakeup_timers m) m).

Definition master_wakeup_init (s : nat) (m : master) : outcome master :=
  sv ← get_serv s m;
  if (wakeup_time sv =? 0) || negb (Z.land (flags sv) MASTER_FLAG_CONDWAKE =? 0) then Ret m
  else master_wakeup_timer_event s m.

Definition master_wakeup_cleanup (s : nat) (m : master) : outcome master :=
  Ret (set_wakeup_timers (wakeup_timers m ∖ {[s]}) m).

(** ** master_spawn.c *)

Definition master_unthrottle (s : nat) (m : master) : outcome master :=
  sv ← get_serv s m;
  if MASTER_THROTTLED sv then
    let m := upd_serv s (fun sv => set_flags (Z.land (flags sv) (Z.lnot MASTER_FLAG_THROTTLE)) sv) m in
    let m := set_throttle_timers (throttle_timers m ∖ {[s]}) m in
    master_avail_listen s m
  else Ret m.

Definition master_throttle (s : nat) (m : master) : outcome master :=
  sv ← get_serv s m;
  if negb (MASTER_THROTTLED sv) then
    let m := upd_serv s (fun sv => set_flags (Z.lor (flags sv) MASTER_FLAG_THROTTLE) sv) m in
    let m := set_throttle_timers ({[s]} ∪ throttle_timers m) m in
    master_avail_listen s m
  else Ret m.

(** [pid] is the result of fork() in the parent, [None] when it fails. *)
Definition master_spawn (s : nat) (pid : option Z) (m : master) : outcome master :=
  sv ← get_serv s m;
  _ ← assert_or_panic (MASTER_LIMIT_OK (max_proc sv) (total_proc sv));
  _ ← assert_or_panic (negb (avail_proc sv >? 0));
  _ ← assert_or_panic (negb (MASTER_THROTTLED sv));
  let m := set_master_generation ((master_generation m + 1) mod 2 ^ 32) m in
  match pid with
  | None => master_throttle s m
  | Some pid =>
      let proc := mk_proc (master_generation m) 0 s 0 in
      let m := set_child_table (<[pid := proc]> (child_table m)) m in
      let m := upd_serv s (fun sv => set_total_proc (total_proc sv + 1) sv) m in
      m ← master_avail_more s pid m;
      sv ← get_serv s m;
      if negb (Z.land (flags sv) MASTER_FLAG_CONDWAKE =? 0) then
        let m := upd_serv s (fun sv => set_flags (Z.land (flags sv) (Z.lnot MASTER_FLAG_CONDWAKE)) sv) m in
        master_wakeup_init s m
      else Ret m
  end.

Definition master_delete_child (pid : Z) (m : master) : outcome master :=
  proc ← get_proc pid m;
  let s := serv proc in
  let m := upd_serv s (fun sv => set_total_proc (total_proc sv - 1) sv) m in
  m ← (if avail proc =? MASTER_STAT_AVAIL then master_avail_less s pid m
       else master_avail_listen s m);
  Ret (set_child_table (delete pid (child_table m)) m).

(** What waitpid() reports of a child. *)
Inductive wait_status := Exited (code : Z) | Signaled (sig : Z) | Stopped (sig : Z).

Definition NORMAL_EXIT_STATUS (st : wait_status) : bool :=
  match st with Exited c => c =? 0 | _ => false end.

(** One call of master_reap_child(): the list is what the waitpid() calls return
    until there is no more to report. *)
Fixpoint master_reap_child (init_mode : bool) (reaped : list (Z * wait_status)) (m : master)
    : outcome master :=
  match reaped with
  | [] => Ret m
  | (pid, status) :: reaped =>
      match child_table m !! pid with
      | None => if init_mode then master_reap_child init_mode reaped m else Panic
      | Some proc =>
          let s := serv proc in
          sv ← get_serv s m;
          let stopped := match status with Stopped _ => true | _ => false end in
          if negb (NORMAL_EXIT_STATUS status) && stopped then
            master_reap_child init_mode reaped m
          else
            m ← (if negb (NORMAL_EXIT_STATUS status) &&
                    ((use_count proc =? 0) && negb (MASTER_THROTTLED sv))
                 then master_throttle s m else Ret m);
            m ← master_delete_child pid m;
            master_reap_child init_mode reaped m
      end
  end.

(** The loop [while (serv->total_proc > 0) master_reap_child()]; each element is
    what one call reaps.  [None]: more calls are needed. *)
Fixpoint reap_until_gone (s : nat) (batches : list (list (Z * wait_status))) (m : master)
    : outcome (option master) :=
  sv ← get_serv s m;
  if total_proc sv >? 0 then
    match batches with
    | [] => Ret None
    | b :: batches => m ← master_reap_child false b m; reap_until_gone s batches m
    end
  else Ret (Some m).

Definition kill_children (s : nat) (m : master) : master :=
  foldl (fun m '(pid, proc) => if bool_decide (serv proc = s) then add_log (Kill pid) m else m)
    m (map_to_list (child_table m)).

Definition master_delete_children (s : nat) (batches : list (list (Z * wait_status))) (m : master)
    : outcome (option master) :=
  m ← master_throttle s m;
  let m := kill_children s m in
  r ← reap_until_gone s batches m;
  match r with
  | None => Ret None
  | Some m => m ← master_unthrottle s m; Ret (Some m)
  end.

Definition master_avail_cleanup (s : nat) (batches : list (list (Z * wait_status))) (m : master)
    : outcome (option master) :=
  r ← master_delete_children s batches m;
  match r with
  | None => Ret None
  | Some m =>
      sv ← get_serv s m;
      if MASTER_LISTENING sv then
        let m := event_disable_reads (listen_fd sv) m in
        Ret (Some (upd_serv s (fun sv => set_flags (Z.land (flags sv) (Z.lnot MASTER_FLAG_LISTEN)) sv) m))
      else Ret (Some m)
  end.

(** ** master_status.c *)

Definition master_status_init (s : nat) (m : master) : outcome master :=
  sv ← get_serv s m;
  if status_open sv then Panic else Ret (upd_serv s (set_status_open true) m).

Definition master_status_cleanup (s : nat) (m : master) : outcome master :=
  sv ← get_serv s m;
  if negb (status_open sv) then Panic else Ret (upd_serv s (set_status_open false) m).

(** MASTER_STATUS, and the result of the read() on the status pipe. *)
Record MASTER_STATUS := mk_status { st_pid : Z; st_gen : Z; st_avail : Z }.
Inductive read_result := ReadError | ReadEof | ReadPartial | ReadStatus (stat : MASTER_STATUS).

Definition master_status_event (s : nat) (r : read_result) (m : master) : outcome master :=
  match r with
  | ReadError => Ret m
  | ReadEof => Panic
  | ReadPartial => Ret m
  | ReadStatus stat =>
      match child_table m !! st_pid stat with
      | None => Ret m
      | Some proc =>
          if negb (gen proc =? st_gen stat) then Ret m
          else if negb (serv proc =? s)%nat then Panic
          else if avail proc =? st_avail stat then Ret m
          else if st_avail stat =? MASTER_STAT_AVAIL then
            let m := upd_proc (st_pid stat) (set_use_count (use_count proc + 1)) m in
            master_avail_more s (st_pid stat) m
          else if st_avail stat =? MASTER_STAT_TAKEN then master_avail_less s (st_pid stat) m
          else Ret m
      end
  end.

(** ** master_service.c and the event handler of master_avail.c *)

Definition master_restart_service (s : nat) (conf_reload : bool) (m : master) : outcome master :=
  m ← master_wakeup_cleanup s m;
  m ← master_status_cleanup s m;
  m ← master_status_init s m;
  m ← master_wakeup_init s m;
  if conf_reload then master_avail_listen s m else Ret m.

(** master_listen_init() and master_listen_cleanup(), as far as the descriptors
    are concerned: [fds] are the sockets that the former opens. *)
Definition master_listen_init (s : nat) (fds : list Z) (m : master) : outcome master :=
  Ret (upd_serv s (set_listen_fd fds) m).
Definition master_listen_cleanup (s : nat) (m : master) : outcome master :=
  Ret (upd_serv s (set_listen_fd []) m).

Definition master_start_service (s : nat) (fds : list Z) (m : master) : outcome master :=
  m ← master_listen_init s fds m;
  m ← master_avail_listen s m;
  m ← master_status_init s m;
  master_wakeup_init s m.

Definition master_stop_service (s : nat) (batches : list (list (Z * wait_status))) (m : master)
    : outcome (option master) :=
  m ← master_wakeup_cleanup s m;
  m ← master_status_cleanup s m;
  r ← master_avail_cleanup s batches m;
  match r with
  | None => Ret None
  | Some m => m ← master_listen_cleanup s m; Ret (Some m)
  end.

Definition master_avail_event (s : nat) (pid : option Z) (m : master) : outcome master :=
  sv ← get_serv s m;
  m ← (if stress_param sv && negb (MASTER_LIMIT_OK (max_proc sv) (total_proc sv + 1)) then
         m ← (if stress_expire_time sv <? now m then master_restart_service s false m else Ret m);
         Ret (upd_serv s (set_stress_expire_time (now m + 1000)) m)
       else Ret m);
  master_spawn s pid m.

(** ** master_conf.c: one entry of master.cf, and a service that is no longer there

    The entry comes from get_master_ent(), which is born unthrottled, not
    listening, with no processes; [fds] are the sockets that a new service opens. *)
Record master_ent := mk_ent {
  ent_condwake : bool;
  ent_wakeup_time : Z;
  ent_max_proc : Z;
  ent_stress_param : bool
}.

Definition get_master_ent (e : master_ent) : MASTER_SERV :=
  mk_serv (if ent_condwake e then MASTER_FLAG_CONDWAKE else 0) 0 (ent_wakeup_time e) [] (ent_max_proc e)
    (ent_stress_param e) 0 0 0 false.

Definition config_entry (s : nat) (e : master_ent) (fds : list Z) (m : master) : outcome master :=
  match servs m !! s with
  | None =>
      let m := set_servs (<[s := get_master_ent e]> (servs m)) m in
      master_start_service s fds m
  | Some _ =>
      let update sv :=
        let fl := Z.land (flags sv) (Z.lnot MASTER_FLAG_MARK) in
        let fl := if ent_condwake e then Z.lor fl MASTER_FLAG_CONDWAKE
                  else Z.land fl (Z.lnot MASTER_FLAG_CONDWAKE) in
        mk_serv fl (busy_warn_time sv) (ent_wakeup_time e) (listen_fd sv) (ent_max_proc e)
          (ent_stress_param e) (stress_expire_time sv) (avail_proc sv) (total_proc sv)
          (status_open sv) in
      master_restart_service s true (upd_serv s update m)
  end.

Definition mark_services (m : master) : master :=
  set_servs ((fun sv => set_flags (Z.lor (flags sv) MASTER_FLAG_MARK) sv) <$> servs m) m.

(** The body of the loop that deletes the services that are still marked. *)
Definition remove_marked (s : nat) (batches : list (list (Z * wait_status))) (m : master)
    : outcome (option master) :=
  sv ← get_serv s m;
  if negb (Z.land (flags sv) MASTER_FLAG_MARK =? 0) then
    r ← master_stop_service s batches m;
    match r with
    | None => Ret None
    | Some m => Ret (Some (set_servs (delete s (servs m)) m))
    end
  else Ret (Some m).

(** ** The invariant *)

(** Is this process a child of service [s]; is it an idle one? *)
Definition child_of (s : nat) (p : MASTER_PROC) : Z := if bool_decide (serv p = s) then 1 else 0.
Definition idle_of (s : nat) (p : MASTER_PROC) : Z :=
  if bool_decide (serv p = s) && (avail p =? MASTER_STAT_AVAIL) then 1 else 0.

(** The bookkeeping per service counts its processes. *)
Definition counted (m : master) : Prop :=
  forall s sv, servs m !! s = Some sv ->
    total_proc sv = map_sum (child_of s) (child_table m) /\
    avail_proc sv = map_sum (idle_of s) (child_table m).

(** No pointer dangles, the throttle flag stands for a pending timer, and the
    listen flag for read events on all the listen sockets. *)
Record linked (m : master) : Prop := {
  lk_proc pid p : child_table m !! pid = Some p ->
    is_Some (servs m !! serv p) /\ (avail p = MASTER_STAT_TAKEN \/ avail p = MASTER_STAT_AVAIL);
  lk_throttle s : s ∈ throttle_timers m <->
    exists sv, servs m !! s = Some sv /\ MASTER_THROTTLED sv = true;
  lk_wakeup s : s ∈ wakeup_timers m -> is_Some (servs m !! s);
  lk_reads fd s : reads m !! fd = Some s <->
    exists sv, servs m !! s = Some sv /\ fd ∈ listen_fd sv /\ MASTER_LISTENING sv = true;
  lk_disjoint s1 s2 sv1 sv2 fd : servs m !! s1 = Some sv1 -> servs m !! s2 = Some sv2 ->
    fd ∈ listen_fd sv1 -> fd ∈ listen_fd sv2 -> s1 = s2
}.

(** The master listens for a service exactly when it could and must start a
    process to serve it. *)
Definition listening_right (sv : MASTER_SERV) : Prop := MASTER_LISTENING sv = listen_wanted sv.
Definition listens (ex : nat -> Prop) (m : master) : Prop :=
  forall s sv, servs m !! s = Some sv -> ~ ex s -> listening_right sv.

Definition status_up (m : master) : Prop :=
  forall s sv, servs m !! s = Some sv -> status_open sv = true.

Record sound (m : master) : Prop := {
  sd_linked : linked m;
  sd_counted : counted m;
  sd_listens : listens (fun _ => False) m
}.

Definition inv (m : master) : Prop := sound m /\ status_up m.

(** ** Flags *)

Lemma throttled_bit sv : MASTER_THROTTLED sv = Z.testbit (flags sv) 0.
Proof. unfold MASTER_THROTTLED, MASTER_FLAG_THROTTLE. by apply flag_test. Qed.
Lemma listening_bit sv : MASTER_LISTENING sv = Z.testbit (flags sv) 5.
Proof. unfold MASTER_LISTENING, MASTER_FLAG_LISTEN. by apply flag_test. Qed.

(** What master_avail_listen() leaves alone in a service. *)
Definition view (sv : MASTER_SERV) :=
  (wakeup_time sv, listen_fd sv, max_proc sv, stress_param sv, stress_expire_time sv,
   avail_proc sv, total_proc sv, status_open sv,
   (Z.testbit (flags sv) 0, Z.testbit (flags sv) 1, Z.testbit (flags sv) 2)).

(** The states differ at most in the listen flags, the read events and the times
    of warnings. *)
Record listen_frame (m m' : master) : Prop := {
  lf_view s : view <$> servs m' !! s = view <$> servs m !! s;
  lf_child : child_table m' = child_table m;
  lf_throttle : throttle_timers m' = throttle_timers m;
  lf_wakeup : wakeup_timers m' = wakeup_timers m;
  lf_log : log m' = log m;
  lf_now : now m' = now m
}.

Lemma lf_refl m : listen_frame m m.
Proof. done. Qed.

Lemma lf_trans m1 m2 m3 : listen_frame m1 m2 -> listen_frame m2 m3 -> listen_frame m1 m3.
Proof. intros H1 H2. destruct H1, H2. split; [intros s; by rewrite lf_view1|congruence..]. Qed.

Lemma view_inv sv sv' : view sv' = view sv ->
  wakeup_time sv' = wakeup_time sv /\ listen_fd sv' = listen_fd sv /\ max_proc sv' = max_proc sv /\
  stress_param sv' = stress_param sv /\ stress_expire_time sv' = stress_expire_time sv /\
  avail_proc sv' = avail_proc sv /\ total_proc sv' = total_proc sv /\
  status_open sv' = status_open sv /\ MASTER_THROTTLED sv' = MASTER_THROTTLED sv /\
  Z.testbit (flags sv') 1 = Z.testbit (flags sv) 1 /\ Z.testbit (flags sv') 2 = Z.testbit (flags sv) 2.
Proof. rewrite !throttled_bit. unfold view. injection 1 as ????? ??????. by split_and!. Qed.

Lemma lf_serv m m' s sv : listen_frame m m' -> servs m !! s = Some sv ->
  exists sv', servs m' !! s = Some sv' /\ view sv' = view sv.
Proof.
  intros Hf Hs. pose proof (lf_view _ _ Hf s) as H. rewrite Hs in H.
  destruct (servs m' !! s) as [sv'|]; [|done]. exists sv'. split; [done|]. cbn in H. congruence.
Qed.

Lemma lf_serv_inv m m' s sv' : listen_frame m m' -> servs m' !! s = Some sv' ->
  exists sv, servs m !! s = Some sv /\ view sv' = view sv.
Proof.
  intros Hf Hs. pose proof (lf_view _ _ Hf s) as H. rewrite Hs in H.
  destruct (servs m !! s) as [sv|]; [|done]. exists sv. split; [done|]. cbn in H. congruence.
Qed.

(** ** Updates that keep the links *)

Lemma lookup_upd_serv s s' f m :
  servs (upd_serv s f m) !! s' = if decide (s = s') then f <$> servs m !! s' else servs m !! s'.
Proof.
  cbn. destruct (decide (s = s')) as [->|Hn]; [apply lookup_alter_eq|by apply lookup_alter_ne].
Qed.

Lemma lookup_upd_proc pid pid' f m :
  child_table (upd_proc pid f m) !! pid' =
    if decide (pid = pid') then f <$> child_table m !! pid' else child_table m !! pid'.
Proof.
  cbn. destruct (decide (pid = pid')) as [->|Hn]; [apply lookup_alter_eq|by apply lookup_alter_ne].
Qed.

(** The service after an update of service [s]. *)
Lemma upd_serv_inv s f m s' sv' : servs (upd_serv s f m) !! s' = Some sv' ->
  exists sv, servs m !! s' = Some sv /\ sv' = if decide (s = s') then f sv else sv.
Proof.
  rewrite lookup_upd_serv. case_decide; [|by exists sv'].
  intros (sv & Hs & ->)%fmap_Some. by exists sv.
Qed.

Lemma upd_serv_is_Some s f m s' : is_Some (servs m !! s') -> is_Some (servs (upd_serv s f m) !! s').
Proof. rewrite lookup_upd_serv. intros [sv ->]. by case_decide. Qed.

(** An update of fields that the links do not mention. *)
Lemma linked_upd_serv s f m :
  (forall sv, servs m !! s = Some sv -> listen_fd (f sv) = listen_fd sv /\
     MASTER_THROTTLED (f sv) = MASTER_THROTTLED sv /\ MASTER_LISTENING (f sv) = MASTER_LISTENING sv) ->
  linked m -> linked (upd_serv s f m).
Proof.
  intros Hf [H1 H2 H3 H4 H5].
  assert (Hsv : forall s' sv', servs (upd_serv s f m) !! s' = Some sv' -> exists sv, servs m !! s' = Some sv /\
    listen_fd sv' = listen_fd sv /\ MASTER_THROTTLED sv' = MASTER_THROTTLED sv /\
    MASTER_LISTENING sv' = MASTER_LISTENING sv).
  { intros s' sv' (sv & Hs & ->)%upd_serv_inv. exists sv. split; [done|].
    case_decide; [subst; by apply Hf|done]. }
  assert (Hback : forall s' sv, servs m !! s' = Some sv -> exists sv', servs (upd_serv s f m) !! s' = Some sv' /\
    listen_fd sv' = listen_fd sv /\ MASTER_THROTTLED sv' = MASTER_THROTTLED sv /\
    MASTER_LISTENING sv' = MASTER_LISTENING sv).
  { intros s' sv Hs. destruct (upd_serv_is_Some s f m s' (ex_intro _ sv Hs)) as [sv' Hs'].
    exists sv'. split; [done|]. destruct (Hsv _ _ Hs') as (sv0 & Hs0 & Hrest). by simplify_eq. }
  split; cbn [child_table throttle_timers wakeup_timers reads upd_serv set_servs].
  - intros pid p Hp. destruct (H1 pid p Hp) as [Hs Ha]. split; [by apply upd_serv_is_Some|done].
  - intros s'. rewrite H2. split.
    + intros (sv & Hs & Ht). destruct (Hback _ _ Hs) as (sv' & Hs' & _ & Ht' & _). exists sv'. by rewrite Ht'.
    + intros (sv & Hs & Ht). destruct (Hsv _ _ Hs) as (sv' & Hs' & _ & Ht' & _). exists sv'. by rewrite <- Ht'.
  - intros s' Hs. by apply upd_serv_is_Some, H3.
  - intros fd s'. rewrite H4. split.
    + intros (sv & Hs & Hfd & Hl). destruct (Hback _ _ Hs) as (sv' & Hs' & Hfd' & _ & Hl').
      exists sv'. by rewrite Hfd', Hl'.
    + intros (sv & Hs & Hfd & Hl). destruct (Hsv _ _ Hs) as (sv' & Hs' & Hfd' & _ & Hl').
      exists sv'. by rewrite <- Hfd', <- Hl'.
  - intros s1 s2 sv1 sv2 fd Hs1 Hs2 Hf1 Hf2.
    destruct (Hsv _ _ Hs1) as (v1 & Hv1 & E1 & _), (Hsv _ _ Hs2) as (v2 & Hv2 & E2 & _).
    rewrite E1 in Hf1. rewrite E2 in Hf2. by apply (H5 s1 s2 v1 v2 fd).
Qed.

Lemma linked_upd_proc pid f m :
  (forall p, child_table m !! pid = Some p -> serv (f p) = serv p /\
     (avail (f p) = MASTER_STAT_TAKEN \/ avail (f p) = MASTER_STAT_AVAIL)) ->
  linked m -> linked (upd_proc pid f m).
Proof.
  intros Hf [H1 H2 H3 H4 H5]. split; [|done..].
  intros pid' p'. rewrite lookup_upd_proc. case_decide; [|apply H1].
  intros (p & Hp & ->)%fmap_Some. subst. destruct (Hf p Hp) as [-> Ha]. split; [|done].
  by destruct (H1 _ _ Hp).
Qed.

Lemma counted_frame m m' : listen_frame m m' -> counted m -> counted m'.
Proof.
  intros Hf Hc s sv' Hs. destruct (lf_serv_inv _ _ _ _ Hf Hs) as (sv & Hsv & Hv).
  apply view_inv in Hv as (_ & _ & _ & _ & _ & -> & -> & _). rewrite (lf_child _ _ Hf). by apply Hc.
Qed.

Lemma status_frame m m' : listen_frame m m' -> status_up m -> status_up m'.
Proof.
  intros Hf Hc s sv' Hs. destruct (lf_serv_inv _ _ _ _ Hf Hs) as (sv & Hsv & Hv).
  apply view_inv in Hv as (_ & _ & _ & _ & _ & _ & _ & -> & _). by apply (Hc s).
Qed.

(** ** master_avail_listen() *)

Lemma foldl_insert_lookup (fds : list Z) (s : nat) fd : forall r : gmap Z nat,
  foldl (fun r fd => <[fd := s]> r) r fds !! fd = if decide (fd ∈ fds) then Some s else r !! fd.
Proof.
  induction fds as [|x fds IH]; intros r; cbn [foldl].
  { rewrite decide_False; [done|apply not_elem_of_nil]. }
  rewrite IH. destruct (decide (fd ∈ fds)) as [Hin|Hn].
  - by rewrite decide_True by (by right).
  - destruct (decide (fd = x)) as [->|Hx].
    + by rewrite lookup_insert_eq, decide_True by (by left).
    + rewrite lookup_insert_ne, decide_False by (rewrite ?elem_of_cons; naive_solver). done.
Qed.

Lemma foldl_delete_lookup (fds : list Z) fd : forall r : gmap Z nat,
  foldl (fun r fd => delete fd r) r fds !! fd = if decide (fd ∈ fds) then None else r !! fd.
Proof.
  induction fds as [|x fds IH]; intros r; cbn [foldl].
  { rewrite decide_False; [done|apply not_elem_of_nil]. }
  rewrite IH. destruct (decide (fd ∈ fds)) as [Hin|Hn].
  - by rewrite decide_True by (by right).
  - destruct (decide (fd = x)) as [->|Hx].
    + by rewrite lookup_delete_eq, decide_True by (by left).
    + rewrite lookup_delete_ne, decide_False by (rewrite ?elem_of_cons; naive_solver). done.
Qed.

(** Set or clear the listen flag of a service along with its read events. *)
Definition switch_listen (on : bool) (s : nat) (sv : MASTER_SERV) (m : master) : master :=
  if on then
    upd_serv s (fun sv => set_flags (Z.lor (flags sv) MASTER_FLAG_LISTEN) sv)
      (event_enable_reads (listen_fd sv) s m)
  else
    upd_serv s (fun sv => set_flags (Z.land (flags sv) (Z.lnot MASTER_FLAG_LISTEN)) sv)
      (event_disable_reads (listen_fd sv) m).

(** What switching does to the flag word. *)
Definition listen_flags (on : bool) (f : Z) : Z :=
  if on then Z.lor f MASTER_FLAG_LISTEN else Z.land f (Z.lnot MASTER_FLAG_LISTEN).

Lemma listen_flags_bit on f k : 0 <= k ->
  Z.testbit (listen_flags on f) k = if k =? 5 then on else Z.testbit f k.
Proof.
  intros Hk. unfold listen_flags, MASTER_FLAG_LISTEN.
  destruct on; [rewrite flag_set by done|rewrite flag_clear by done]; by case_match.
Qed.

Lemma switch_servs on s sv m :
  servs (switch_listen on s sv m) = alter (fun sv => set_flags (listen_flags on (flags sv)) sv) s (servs m).
Proof. by destruct on. Qed.

Lemma switch_reads on s sv m fd :
  reads (switch_listen on s sv m) !! fd =
    if decide (fd ∈ listen_fd sv) then (if on then Some s else None) else reads m !! fd.
Proof. destruct on; cbn; [apply foldl_insert_lookup|apply foldl_delete_lookup]. Qed.

Lemma switch_frame on s sv m : listen_frame m (switch_listen on s sv m).
Proof.
  split; [|by destruct on..]. intros s'. rewrite switch_servs.
  destruct (decide (s = s')) as [<-|Hn]; [|by rewrite lookup_alter_ne].
  rewrite lookup_alter_eq. destruct (servs m !! s) as [sv'|]; [|done]. cbn -[view].
  f_equal. unfold view. cbn -[Z.testbit listen_flags]. by rewrite !listen_flags_bit.
Qed.

Lemma set_flags_listening on sv :
  MASTER_LISTENING (set_flags (listen_flags on (flags sv)) sv) = on.
Proof. rewrite listening_bit. cbn -[Z.testbit listen_flags]. by rewrite listen_flags_bit. Qed.

Lemma set_flags_throttled on sv :
  MASTER_THROTTLED (set_flags (listen_flags on (flags sv)) sv) = MASTER_THROTTLED sv.
Proof. rewrite !throttled_bit. cbn -[Z.testbit listen_flags]. by rewrite listen_flags_bit. Qed.

Lemma switch_serv_inv on s sv m s' sv' : servs (switch_listen on s sv m) !! s' = Some sv' ->
  exists sv0, servs m !! s' = Some sv0 /\
    sv' = if decide (s = s') then set_flags (listen_flags on (flags sv0)) sv0 else sv0.
Proof. intros H. apply (upd_serv_inv s _ m s' sv'). rewrite <- H. by rewrite switch_servs. Qed.

Lemma switch_linked on s sv m :
  servs m !! s = Some sv -> linked m -> linked (switch_listen on s sv m).
Proof.
  intros Hs [H1 H2 H3 H4 H5]. pose proof (switch_frame on s sv m) as Hf. split.
  - intros pid p. rewrite (lf_child _ _ Hf). intros Hp. destruct (H1 pid p Hp) as [[x Hx] Ha].
    split; [|done]. destruct (lf_serv _ _ _ _ Hf Hx) as (x' & Hx' & _). by exists x'.
  - intros s'. rewrite (lf_throttle _ _ Hf), H2. split; intros (x & Hx & Ht).
    + destruct (lf_serv _ _ _ _ Hf Hx) as (x' & Hx' & Hv). exists x'.
      apply view_inv in Hv as (_&_&_&_&_&_&_&_&->&_). done.
    + destruct (lf_serv_inv _ _ _ _ Hf Hx) as (x' & Hx' & Hv). exists x'.
      apply view_inv in Hv as (_&_&_&_&_&_&_&_&<-&_). done.
  - intros s'. rewrite (lf_wakeup _ _ Hf). intros [x Hx]%H3.
    destruct (lf_serv _ _ _ _ Hf Hx) as (x' & Hx' & _). by exists x'.
  - intros fd s'. rewrite switch_reads. case_decide as Hfd.
    + split.
      * intros Hr. destruct on; [|done]. injection Hr as <-.
        exists (set_flags (listen_flags true (flags sv)) sv). rewrite switch_servs, lookup_alter_eq, Hs.
        split_and!; [done|done|apply set_flags_listening].
      * intros (x & (x0 & Hx0 & ->)%switch_serv_inv & Hin & Hl).
        assert (s = s') as <-.
        { apply (H5 s s' sv x0 fd); [done|done|done|]. by case_decide. }
        rewrite decide_True in Hl by done. rewrite set_flags_listening in Hl. by subst on.
    + rewrite H4. split.
      * intros (x & Hx & Hin & Hl). assert (s <> s') by (intros <-; rewrite Hs in Hx; by simplify_eq).
        exists x. rewrite switch_servs, lookup_alter_ne by done. done.
      * intros (x & (x0 & Hx0 & ->)%switch_serv_inv & Hin & Hl). exists x0.
        case_decide; [|done]. subst s'. rewrite Hs in Hx0. injection Hx0 as <-. done.
  - intros s1 s2 x1 x2 fd (y1 & Hy1 & ->)%switch_serv_inv (y2 & Hy2 & ->)%switch_serv_inv Hf1 Hf2.
    apply (H5 s1 s2 y1 y2 fd); [done|done| |]; repeat case_decide; done.
Qed.

(** master_avail_listen() runs for any service, repairs its listening status and
    changes nothing else that matters. *)
Lemma avail_listen_ok s m :
  linked m -> is_Some (servs m !! s) -> listens (fun x => x = s) m ->
  exists m', master_avail_listen s m = Ret m' /\ linked m' /\ listens (fun _ => False) m' /\
    listen_frame m m'.
Proof.
  intros Hl [sv Hs] Hlis. unfold master_avail_listen, get_serv. rewrite Hs. cbn [mbind outcome_bind].
  set (m1 := if MASTER_THROTTLED sv || (avail_proc sv >? 0) then m else _).
  assert (H1 : exists sv1, servs m1 = <[s := sv1]> (servs m) /\ view sv1 = view sv /\ flags sv1 = flags sv /\
    listen_frame m m1 /\ linked m1).
  { subst m1. assert (Hid : exists sv1, servs m = <[s := sv1]> (servs m) /\ view sv1 = view sv /\ flags sv1 = flags sv /\
      listen_frame m m /\ linked m) by (exists sv; by rewrite insert_id).
    case_match; [done|]. case_match; [done|]. case_match; [|done].
    exists (set_busy_warn_time (now m) sv). split_and!; [|done|done| |].
    - cbn. apply map_eq. intros s'. destruct (decide (s = s')) as [<-|]; [|by rewrite lookup_alter_ne, lookup_insert_ne].
      by rewrite lookup_alter_eq, lookup_insert_eq, Hs.
    - split; [|done..]. intros s'. rewrite lookup_upd_serv. case_decide; [|done]. subst.
      by destruct (servs m !! s').
    - by apply linked_upd_serv. }
  destruct H1 as (sv1 & Hs1 & Hv & Hfl & Hf1 & Hl1). clearbody m1.
  assert (Hsv1 : servs m1 !! s = Some sv1) by (rewrite Hs1; apply lookup_insert_eq).
  assert (Hw : listen_wanted sv1 = listen_wanted sv).
  { unfold listen_wanted. by apply view_inv in Hv as (_&_&->&_&_&->&->&_&->&_). }
  assert (Hlv : MASTER_LISTENING sv1 = MASTER_LISTENING sv) by (unfold MASTER_LISTENING; by rewrite Hfl).
  assert (Hfd : listen_fd sv1 = listen_fd sv) by (by apply view_inv in Hv as (_&->&_)).
  assert (Hsw : forall on, on = listen_wanted sv ->
    linked (switch_listen on s sv1 m1) /\ listens (fun _ => False) (switch_listen on s sv1 m1) /\
    listen_frame m (switch_listen on s sv1 m1)).
  { intros on Hon. split_and!; [by apply switch_linked| |eapply lf_trans; [done|apply switch_frame]].
    intros s' x (x0 & Hx0 & ->)%switch_serv_inv _. unfold listening_right. case_decide as Hd.
    - subst s'. simplify_eq. rewrite set_flags_listening.
      unfold listen_wanted in *. rewrite set_flags_throttled. cbn. congruence.
    - rewrite Hs1, lookup_insert_ne in Hx0 by done. apply (Hlis s' x0 Hx0). by intros ->. }
  destruct (listen_wanted sv) eqn:Ew, (MASTER_LISTENING sv) eqn:El; cbn [andb negb].
  2:{ exists (switch_listen true s sv1 m1). split; [by rewrite <- Hfd|by apply Hsw]. }
  2:{ exists (switch_listen false s sv1 m1). split; [by rewrite <- Hfd|by apply Hsw]. }
  all: exists m1; split_and!; [done|done| |done].
  all: intros s' x Hx _; unfold listening_right; rewrite Hs1 in Hx.
  all: destruct (decide (s = s')) as [<-|Hn];
    [rewrite lookup_insert_eq in Hx; simplify_eq; congruence
    |rewrite lookup_insert_ne in Hx by done; apply (Hlis s' x Hx); by intros ->].
Qed.

(** ** Availability of processes *)

(** What throttling leaves alone, too. *)
Definition core (sv : MASTER_SERV) :=
  (wakeup_time sv, listen_fd sv, max_proc sv, avail_proc sv, total_proc sv, status_open sv).

Record count_frame (m m' : master) : Prop := {
  cf_core s : core <$> servs m' !! s = core <$> servs m !! s;
  cf_child : child_table m' = child_table m;
  cf_wakeup : wakeup_timers m' = wakeup_timers m;
  cf_log : log m' = log m
}.

Lemma core_inv sv sv' : core sv' = core sv ->
  wakeup_time sv' = wakeup_time sv /\ listen_fd sv' = listen_fd sv /\ max_proc sv' = max_proc sv /\
  avail_proc sv' = avail_proc sv /\ total_proc sv' = total_proc sv /\ status_open sv' = status_open sv.
Proof. injection 1 as ??????. by split_and!. Qed.

Lemma cf_refl m : count_frame m m.
Proof. done. Qed.

Lemma cf_trans m1 m2 m3 : count_frame m1 m2 -> count_frame m2 m3 -> count_frame m1 m3.
Proof. intros H1 H2. destruct H1, H2. split; [intros s; by rewrite cf_core1|congruence..]. Qed.

Lemma lf_cf m m' : listen_frame m m' -> count_frame m m'.
Proof.
  intros Hf. split; [|by destruct Hf..]. intros s.
  pose proof (lf_view _ _ Hf s) as H. destruct (servs m' !! s) as [sv'|], (servs m !! s) as [sv|]; [|done..].
  cbn -[core]. f_equal. cbn in H. injection H as H. unfold core. congruence.
Qed.

Lemma cf_serv m m' s sv : count_frame m m' -> servs m !! s = Some sv ->
  exists sv', servs m' !! s = Some sv' /\ core sv' = core sv.
Proof.
  intros Hf Hs. pose proof (cf_core _ _ Hf s) as H. rewrite Hs in H.
  destruct (servs m' !! s) as [sv'|]; [|done]. exists sv'. split; [done|]. cbn in H. congruence.
Qed.

Lemma cf_serv_inv m m' s sv' : count_frame m m' -> servs m' !! s = Some sv' ->
  exists sv, servs m !! s = Some sv /\ core sv' = core sv.
Proof.
  intros Hf Hs. pose proof (cf_core _ _ Hf s) as H. rewrite Hs in H.
  destruct (servs m !! s) as [sv|]; [|done]. exists sv. split; [done|]. cbn in H. congruence.
Qed.

Lemma counted_cf m m' : count_frame m m' -> counted m -> counted m'.
Proof.
  intros Hf Hc s sv' Hs. destruct (cf_serv_inv _ _ _ _ Hf Hs) as (sv & Hsv & Hv).
  apply core_inv in Hv as (_ & _ & _ & -> & -> & _). rewrite (cf_child _ _ Hf). by apply Hc.
Qed.

Lemma status_cf m m' : count_frame m m' -> status_up m -> status_up m'.
Proof.
  intros Hf Hc s sv' Hs. destruct (cf_serv_inv _ _ _ _ Hf Hs) as (sv & Hsv & Hv).
  apply core_inv in Hv as (_ & _ & _ & _ & _ & ->). by apply (Hc s).
Qed.

Lemma listens_all m s sv :
  listens (fun _ => False) m -> servs m !! s = Some sv -> listening_right sv.
Proof. intros H Hs. apply (H s sv Hs). by intros []. Qed.

(** An update of one service affects only its own listening status. *)
Lemma listens_upd_serv s f m :
  listens (fun _ => False) m -> listens (fun x => x = s) (upd_serv s f m).
Proof.
  intros H s' sv' (sv & Hs & ->)%upd_serv_inv Hn. rewrite decide_False by congruence.
  by apply (listens_all m s').
Qed.

(** avail_proc moves by [d] and the process changes its mind. *)
Definition move_avail (s : nat) (pid : Z) (d a : Z) (m : master) : master :=
  upd_proc pid (set_avail a) (upd_serv s (fun sv => set_avail_proc (avail_proc sv + d) sv) m).

Lemma move_avail_linked s pid d a m :
  (a = MASTER_STAT_TAKEN \/ a = MASTER_STAT_AVAIL) -> linked m -> linked (move_avail s pid d a m).
Proof. intros Ha Hl. apply linked_upd_proc; [by intros|]. by apply linked_upd_serv. Qed.

Lemma listens_move s pid d a m :
  listens (fun x => x = s) m -> listens (fun x => x = s) (move_avail s pid d a m).
Proof.
  intros H s' sv' Hs Hn. cbn in Hs. apply (upd_serv_inv s _ m) in Hs as (sv & Hs & ->).
  rewrite decide_False by congruence. by apply (H s').
Qed.

Lemma avail_more_ok s pid p m :
  linked m -> listens (fun x => x = s) m -> is_Some (servs m !! s) ->
  child_table m !! pid = Some p -> avail p = MASTER_STAT_TAKEN ->
  exists m', master_avail_more s pid m = Ret m' /\ linked m' /\ listens (fun _ => False) m' /\
    listen_frame (move_avail s pid 1 MASTER_STAT_AVAIL m) m'.
Proof.
  intros Hl Hlis Hs Hp Ha. unfold master_avail_more, get_proc. rewrite Hp. cbn [mbind outcome_bind].
  rewrite Ha. cbv [MASTER_STAT_TAKEN MASTER_STAT_AVAIL Z.eqb].
  apply (avail_listen_ok s (move_avail s pid 1 MASTER_STAT_AVAIL m));
    [apply move_avail_linked; auto|by apply upd_serv_is_Some|by apply listens_move].
Qed.

Lemma avail_less_ok s pid p m :
  linked m -> listens (fun x => x = s) m -> is_Some (servs m !! s) ->
  child_table m !! pid = Some p -> avail p = MASTER_STAT_AVAIL ->
  exists m', master_avail_less s pid m = Ret m' /\ linked m' /\ listens (fun _ => False) m' /\
    listen_frame (move_avail s pid (-1) MASTER_STAT_TAKEN m) m'.
Proof.
  intros Hl Hlis Hs Hp Ha. unfold master_avail_less, get_proc. rewrite Hp. cbn [mbind outcome_bind].
  rewrite Ha. cbv [MASTER_STAT_TAKEN MASTER_STAT_AVAIL Z.eqb negb Pos.eqb].
  apply (avail_listen_ok s (move_avail s pid (-1) MASTER_STAT_TAKEN m));
    [apply move_avail_linked; auto|by apply upd_serv_is_Some|by apply listens_move].
Qed.

Lemma listens_weaken s m : listens (fun _ => False) m -> listens (fun x => x = s) m.
Proof. intros H s' sv Hs _. by apply (listens_all m s'). Qed.

(** ** Throttling *)

Definition throttle_flags (on : bool) (f : Z) : Z :=
  if on then Z.lor f MASTER_FLAG_THROTTLE else Z.land f (Z.lnot MASTER_FLAG_THROTTLE).

Lemma throttle_flags_bit on f k : 0 <= k ->
  Z.testbit (throttle_flags on f) k = if k =? 0 then on else Z.testbit f k.
Proof.
  intros Hk. unfold throttle_flags, MASTER_FLAG_THROTTLE.
  destruct on; [rewrite flag_set by done|rewrite flag_clear by done]; by case_match.
Qed.

(** Set or clear the throttle flag along with its timer. *)
Definition switch_throttle (on : bool) (s : nat) (m : master) : master :=
  set_throttle_timers (if on then {[s]} ∪ throttle_timers m else throttle_timers m ∖ {[s]})
    (upd_serv s (fun sv => set_flags (throttle_flags on (flags sv)) sv) m).

Lemma switch_throttle_linked on s m :
  is_Some (servs m !! s) -> linked m -> linked (switch_throttle on s m).
Proof.
  intros [sv Hs] [H1 H2 H3 H4 H5].
  assert (Hinv : forall s' sv', servs (switch_throttle on s m) !! s' = Some sv' ->
    exists sv, servs m !! s' = Some sv /\
      sv' = if decide (s = s') then set_flags (throttle_flags on (flags sv)) sv else sv)
    by (intros s' sv'; apply (upd_serv_inv s _ m)).
  assert (Hlis : forall sv, MASTER_LISTENING (set_flags (throttle_flags on (flags sv)) sv) = MASTER_LISTENING sv).
  { intros x. rewrite !listening_bit. cbn -[Z.testbit throttle_flags]. by rewrite throttle_flags_bit. }
  assert (Hthr : forall sv, MASTER_THROTTLED (set_flags (throttle_flags on (flags sv)) sv) = on).
  { intros x. rewrite !throttled_bit. cbn -[Z.testbit throttle_flags]. by rewrite throttle_flags_bit. }
  split.
  - intros pid p Hp. destruct (H1 pid p Hp). split; [by apply upd_serv_is_Some|done].
  - intros s'. assert (Hin : s' ∈ throttle_timers (switch_throttle on s m) <->
      if decide (s = s') then on = true else s' ∈ throttle_timers m).
    { cbn. case_decide; destruct on; set_solver. }
    rewrite Hin. destruct (decide (s = s')) as [<-|Hn].
    + split.
      * intros ->. exists (set_flags (throttle_flags true (flags sv)) sv). split; [|done].
        cbn. by rewrite lookup_alter_eq, Hs.
      * intros (x & (x0 & Hx0 & ->)%Hinv & Ht). rewrite decide_True in Ht by done. by rewrite Hthr in Ht.
    + rewrite H2. split.
      * intros (x & Hx & Ht). exists x. split; [|done]. cbn. by rewrite lookup_alter_ne.
      * intros (x & (x0 & Hx0 & ->)%Hinv & Ht). rewrite decide_False in Ht by done. by exists x0.
  - intros s' Hs'. by apply upd_serv_is_Some, H3.
  - intros fd s'. cbn [reads switch_throttle set_throttle_timers upd_serv set_servs]. rewrite H4. split.
    + intros (x & Hx & Hfd & Hl). exists (if decide (s = s') then set_flags (throttle_flags on (flags x)) x else x).
      split_and!; [|by case_decide|by case_decide; rewrite ?Hlis].
      cbn. destruct (decide (s = s')) as [<-|Hn]; [by rewrite lookup_alter_eq, Hx|by rewrite lookup_alter_ne].
    + intros (x & (x0 & Hx0 & ->)%Hinv & Hfd & Hl). exists x0. case_decide; [|done]. by rewrite Hlis in Hl.
  - intros s1 s2 x1 x2 fd (y1 & Hy1 & ->)%Hinv (y2 & Hy2 & ->)%Hinv Hf1 Hf2.
    apply (H5 s1 s2 y1 y2 fd); [done|done| |]; repeat case_decide; done.
Qed.

Lemma switch_throttle_frame on s m : count_frame m (switch_throttle on s m).
Proof.
  split; [|done..]. intros s'. cbn. destruct (decide (s = s')) as [<-|Hn]; [|by rewrite lookup_alter_ne].
  rewrite lookup_alter_eq. by destruct (servs m !! s).
Qed.

Lemma listens_switch_throttle on s m :
  listens (fun x => x = s) m -> listens (fun x => x = s) (switch_throttle on s m).
Proof.
  intros H s' sv' Hs Hn. apply (upd_serv_inv s _ m) in Hs as (sv & Hs & ->).
  rewrite decide_False by congruence. by apply (H s').
Qed.

(** Both routines establish the wanted state of the flag, whatever it was. *)
Lemma set_throttle_ok (on : bool) s m :
  linked m -> listens (fun _ => False) m -> is_Some (servs m !! s) ->
  exists m', (if on then master_throttle s m else master_unthrottle s m) = Ret m' /\
    linked m' /\ listens (fun _ => False) m' /\ count_frame m m' /\
    (s ∈ throttle_timers m' <-> on = true) /\
    (forall s', s' <> s -> s' ∈ throttle_timers m' <-> s' ∈ throttle_timers m).
Proof.
  intros Hl Hlis [sv Hs].
  assert (Hrun : exists m', master_avail_listen s (switch_throttle on s m) = Ret m' /\
    linked m' /\ listens (fun _ => False) m' /\ count_frame m m' /\
    (s ∈ throttle_timers m' <-> on = true) /\
    (forall s', s' <> s -> s' ∈ throttle_timers m' <-> s' ∈ throttle_timers m)).
  { destruct (avail_listen_ok s (switch_throttle on s m)) as (m' & Hr & Hl' & Hlis' & Hf).
    - by apply switch_throttle_linked.
    - by apply upd_serv_is_Some.
    - by apply listens_switch_throttle, listens_weaken.
    - exists m'. split_and!; [done..| | |].
      + eapply cf_trans; [apply switch_throttle_frame|by apply lf_cf].
      + rewrite (lf_throttle _ _ Hf). cbn. destruct on; set_solver.
      + intros s' Hn. rewrite (lf_throttle _ _ Hf). cbn. destruct on; set_solver. }
  assert (Hnow : s ∈ throttle_timers m <-> MASTER_THROTTLED sv = true).
  { rewrite (lk_throttle _ Hl). split; [|eauto]. intros (x & Hx & Ht). by simplify_eq. }
  unfold master_throttle, master_unthrottle, get_serv. rewrite Hs. cbn [mbind outcome_bind].
  destruct on, (MASTER_THROTTLED sv); cbn [negb]; [|exact Hrun|exact Hrun|].
  all: exists m; split_and!; [done..|by rewrite Hnow|done].
Qed.

(** ** The end of a process *)

(** What no child process can change. *)
Definition setup (sv : MASTER_SERV) := (wakeup_time sv, listen_fd sv, max_proc sv, status_open sv).

Record op_frame (m m' : master) : Prop := {
  of_setup s : setup <$> servs m' !! s = setup <$> servs m !! s;
  of_wakeup : wakeup_timers m' = wakeup_timers m
}.

Lemma of_trans m1 m2 m3 : op_frame m1 m2 -> op_frame m2 m3 -> op_frame m1 m3.
Proof. intros H1 H2. destruct H1, H2. split; [intros s; by rewrite of_setup1|congruence..]. Qed.

Lemma setup_inv sv sv' : setup sv' = setup sv ->
  wakeup_time sv' = wakeup_time sv /\ listen_fd sv' = listen_fd sv /\ max_proc sv' = max_proc sv /\
  status_open sv' = status_open sv.
Proof. injection 1 as ????. by split_and!. Qed.

Lemma cf_of m m' : count_frame m m' -> op_frame m m'.
Proof.
  intros Hf. split; [|by destruct Hf..]. intros s. pose proof (cf_core _ _ Hf s) as H.
  destruct (servs m' !! s) as [sv'|], (servs m !! s) as [sv|]; [|done..].
  cbn -[setup]. f_equal. cbn in H. injection H as H. unfold setup. congruence.
Qed.

Lemma of_upd_serv s f m : (forall sv, setup (f sv) = setup sv) -> op_frame m (upd_serv s f m).
Proof.
  intros Hf. split; [|done]. intros s'. rewrite lookup_upd_serv. case_decide; [|done].
  destruct (servs m !! s'); [|done]. cbn -[setup]. by rewrite Hf.
Qed.

Lemma of_move_avail s pid d a m : op_frame m (move_avail s pid d a m).
Proof.
  destruct (of_upd_serv s (fun sv => set_avail_proc (avail_proc sv + d) sv) m) as [H1 H2]; [done|].
  by split.
Qed.

Lemma of_serv_inv m m' s sv' : op_frame m m' -> servs m' !! s = Some sv' ->
  exists sv, servs m !! s = Some sv /\ setup sv' = setup sv.
Proof.
  intros Hf Hs. pose proof (of_setup _ _ Hf s) as H. rewrite Hs in H.
  destruct (servs m !! s) as [sv|]; [|done]. exists sv. split; [done|]. cbn in H. congruence.
Qed.

Lemma of_is_Some m m' s : op_frame m m' -> is_Some (servs m' !! s) <-> is_Some (servs m !! s).
Proof.
  intros Hf. pose proof (of_setup _ _ Hf s) as H.
  destruct (servs m' !! s), (servs m !! s); try done; split; by intros [].
Qed.

Lemma status_of m m' : op_frame m m' -> status_up m -> status_up m'.
Proof.
  intros Hf Hc s sv' Hs. destruct (of_serv_inv _ _ _ _ Hf Hs) as (sv & Hsv & Hv).
  apply setup_inv in Hv as (_ & _ & _ & ->). by apply (Hc s).
Qed.

Lemma linked_set_child t m :
  (forall pid p, t !! pid = Some p ->
     is_Some (servs m !! serv p) /\ (avail p = MASTER_STAT_TAKEN \/ avail p = MASTER_STAT_AVAIL)) ->
  linked m -> linked (set_child_table t m).
Proof. intros Ht [H1 H2 H3 H4 H5]. by split. Qed.

Lemma delete_child_ok pid p m :
  sound m -> child_table m !! pid = Some p ->
  exists m', master_delete_child pid m = Ret m' /\ sound m' /\ op_frame m m' /\
    child_table m' = delete pid (child_table m) /\ throttle_timers m' = throttle_timers m /\ log m' = log m.
Proof.
  intros [Hl Hc Hlis] Hp. unfold master_delete_child, get_proc. rewrite Hp. cbn [mbind outcome_bind].
  destruct (lk_proc _ Hl _ _ Hp) as [[sv Hs] Hav]. set (s := serv p) in *.
  set (m1 := upd_serv s (fun sv => set_total_proc (total_proc sv - 1) sv) m).
  assert (Hl1 : linked m1) by (by apply linked_upd_serv).
  assert (Hlis1 : listens (fun x => x = s) m1) by (by apply listens_upd_serv).
  assert (Hs1 : is_Some (servs m1 !! s)) by (by apply upd_serv_is_Some).
  set (d := if avail p =? MASTER_STAT_AVAIL then -1 else 0).
  assert (H2 : exists m2, (if avail p =? MASTER_STAT_AVAIL then master_avail_less s pid m1
       else master_avail_listen s m1) = Ret m2 /\ linked m2 /\ listens (fun _ => False) m2 /\
     delete pid (child_table m2) = delete pid (child_table m) /\ op_frame m1 m2 /\
     throttle_timers m2 = throttle_timers m /\ log m2 = log m /\
     (forall s' sv2, servs m2 !! s' = Some sv2 -> exists sv1, servs m1 !! s' = Some sv1 /\
        total_proc sv2 = total_proc sv1 /\ avail_proc sv2 = avail_proc sv1 + (if decide (s = s') then d else 0))).
  { subst d. destruct (Z.eqb_spec (avail p) MASTER_STAT_AVAIL) as [Ha|Ha].
    - destruct (avail_less_ok s pid p m1) as (m2 & -> & Hl2 & Hlis2 & Hf); [done..|].
      exists m2. split_and!; [done..| | | | |].
      + rewrite (lf_child _ _ Hf). apply delete_alter_eq.
      + eapply of_trans; [apply of_move_avail|by apply cf_of, lf_cf].
      + by rewrite (lf_throttle _ _ Hf).
      + by rewrite (lf_log _ _ Hf).
      + intros s' sv2 Hs2. destruct (lf_serv_inv _ _ _ _ Hf Hs2) as (svx & Hx & Hv).
        apply (upd_serv_inv s _ m1) in Hx as (sv1 & Hx & ->). exists sv1.
        apply view_inv in Hv as (_&_&_&_&_&->&->&_). case_decide; cbn; split_and!; [done|done|lia|done|done|lia].
    - destruct (avail_listen_ok s m1) as (m2 & -> & Hl2 & Hlis2 & Hf); [done..|].
      exists m2. split_and!; [done..| | | | |].
      + by rewrite (lf_child _ _ Hf).
      + by apply cf_of, lf_cf.
      + by rewrite (lf_throttle _ _ Hf).
      + by rewrite (lf_log _ _ Hf).
      + intros s' sv2 Hs2. destruct (lf_serv_inv _ _ _ _ Hf Hs2) as (sv1 & Hx & Hv). exists sv1.
        apply view_inv in Hv as (_&_&_&_&_&->&->&_). split_and!; [done|done|case_decide; lia]. }
  destruct H2 as (m2 & -> & Hl2 & Hlis2 & Ht2 & Hof & Hth & Hlog & Hcount). cbn [mbind outcome_bind].
  eexists. split; [done|].
  assert (Hof' : op_frame m m2) by (eapply of_trans; [|done]; by apply of_upd_serv).
  split; [split|split_and!; [split; [apply (of_setup _ _ Hof')|apply (of_wakeup _ _ Hof')]|done..]].
  - apply linked_set_child; [|done]. intros pid' p'. rewrite Ht2. intros [_ H']%lookup_delete_Some.
    destruct (lk_proc _ Hl _ _ H'). split; [|done]. by apply (of_is_Some m m2).
  - intros s' sv2 Hs2. cbn [set_child_table servs child_table] in *. rewrite Ht2.
    destruct (Hcount s' sv2 Hs2) as (sv1 & Hs1' & -> & ->).
    apply upd_serv_inv in Hs1' as (sv0 & Hs0 & ->). destruct (Hc _ _ Hs0) as [Hct Hca].
    rewrite !(map_sum_delete _ _ _ _ Hp). unfold child_of at 2, idle_of at 2. fold s.
    rewrite <- Hct, <- Hca. unfold d. case_decide as Hd; [rewrite bool_decide_true by done|rewrite bool_decide_false by done];
      cbn; [|lia]. case_match; lia.
  - done.
Qed.

(** waitpid() reports children that the master forked and has not yet been told
    the end of; a stopped child is not gone. *)
Definition is_stopped (st : wait_status) : bool := match st with Stopped _ => true | _ => false end.

Fixpoint reap_ok (t : gmap Z MASTER_PROC) (reaped : list (Z * wait_status)) : Prop :=
  match reaped with
  | [] => True
  | (pid, st) :: reaped =>
      is_Some (t !! pid) /\ reap_ok (if is_stopped st then t else delete pid t) reaped
  end.

(** The table after the reports. *)
Fixpoint reap_table (t : gmap Z MASTER_PROC) (reaped : list (Z * wait_status)) : gmap Z MASTER_PROC :=
  match reaped with
  | [] => t
  | (pid, st) :: reaped => reap_table (if is_stopped st then t else delete pid t) reaped
  end.

(** Services that are throttled stay so, others only become so. *)
Definition throttles_grow (m m' : master) : Prop := throttle_timers m ⊆ throttle_timers m'.

#[local] Instance throttles_grow_preorder : PreOrder throttles_grow.
Proof. split; unfold throttles_grow; [intros m; done|intros m1 m2 m3; set_solver]. Qed.
#[local] Instance op_frame_preorder : PreOrder op_frame.
Proof. split; [done|exact of_trans]. Qed.

Lemma throttle_ok s m :
  linked m -> listens (fun _ => False) m -> is_Some (servs m !! s) ->
  exists m', master_throttle s m = Ret m' /\ linked m' /\ listens (fun _ => False) m' /\ count_frame m m' /\
    s ∈ throttle_timers m' /\ (forall s', s' <> s -> s' ∈ throttle_timers m' <-> s' ∈ throttle_timers m).
Proof.
  intros Hl Hlis Hs. destruct (set_throttle_ok true s m Hl Hlis Hs) as (m' & ? & ? & ? & ? & Ht & ?).
  exists m'. split_and!; [done..|by apply Ht|done].
Qed.

Lemma unthrottle_ok s m :
  linked m -> listens (fun _ => False) m -> is_Some (servs m !! s) ->
  exists m', master_unthrottle s m = Ret m' /\ linked m' /\ listens (fun _ => False) m' /\ count_frame m m' /\
    s ∉ throttle_timers m' /\ (forall s', s' <> s -> s' ∈ throttle_timers m' <-> s' ∈ throttle_timers m).
Proof.
  intros Hl Hlis Hs. destruct (set_throttle_ok false s m Hl Hlis Hs) as (m' & ? & ? & ? & ? & Ht & ?).
  exists m'. split_and!; [done..|by rewrite Ht|done].
Qed.

Lemma sound_cf m m' :
  sound m -> count_frame m m' -> linked m' -> listens (fun _ => False) m' -> sound m'.
Proof. intros [Hl Hc Hlis] Hf Hl' Hlis'. split; [done|by apply (counted_cf m)|done]. Qed.

(** One report of waitpid() about a process that ended. *)
Definition ended_badly (st : wait_status) (p : MASTER_PROC) : bool :=
  negb (NORMAL_EXIT_STATUS st) && (use_count p =? 0).

Lemma reap_one_ok pid st p m (rest : master -> outcome master) :
  sound m -> child_table m !! pid = Some p -> is_stopped st = false ->
  exists m', sound m' /\ op_frame m m' /\ child_table m' = delete pid (child_table m) /\
    throttles_grow m m' /\ log m' = log m /\
    (ended_badly st p = true -> serv p ∈ throttle_timers m') /\
    (sv ← get_serv (serv p) m;
     m ← (if negb (NORMAL_EXIT_STATUS st) && ((use_count p =? 0) && negb (MASTER_THROTTLED sv))
          then master_throttle (serv p) m else Ret m);
     m ← master_delete_child pid m; rest m) = rest m'.
Proof.
  intros Hi Hp Hst. pose proof Hi as [Hl Hc Hlis].
  destruct (lk_proc _ Hl _ _ Hp) as [[sv Hs] Hav]. unfold get_serv. rewrite Hs. cbn [mbind outcome_bind].
  assert (H1 : exists m1, (if negb (NORMAL_EXIT_STATUS st) && ((use_count p =? 0) && negb (MASTER_THROTTLED sv))
      then master_throttle (serv p) m else Ret m) = Ret m1 /\ sound m1 /\ count_frame m m1 /\
      throttles_grow m m1 /\ (ended_badly st p = true -> serv p ∈ throttle_timers m1)).
  { unfold ended_badly. rewrite andb_assoc.
    destruct (negb (NORMAL_EXIT_STATUS st) && (use_count p =? 0)); cbn [andb].
    2:{ exists m. by split_and!. }
    destruct (MASTER_THROTTLED sv) eqn:Et; cbn [negb].
    - exists m. split_and!; [done..|]. intros _. apply (lk_throttle _ Hl). by exists sv.
    - destruct (throttle_ok (serv p) m) as (m1 & -> & Hl1 & Hlis1 & Hf & Ht & Hother); [done..|].
      exists m1. split_and!; [done|by apply (sound_cf m)|done| |done].
      intros s' Hs'. destruct (decide (s' = serv p)) as [->|Hn]; [done|by apply Hother]. }
  destruct H1 as (m1 & -> & Hi1 & Hf1 & Hg1 & Hbad). cbn [mbind outcome_bind].
  destruct (delete_child_ok pid p m1) as (m2 & -> & Hi2 & Hf2 & Ht2 & Hth & Hlog); [done|by rewrite (cf_child _ _ Hf1)|].
  cbn [mbind outcome_bind]. exists m2. split_and!; [done| | | | | |done].
  - eapply of_trans; [by apply cf_of|done].
  - by rewrite Ht2, (cf_child _ _ Hf1).
  - unfold throttles_grow. by rewrite Hth.
  - by rewrite Hlog, (cf_log _ _ Hf1).
  - by rewrite Hth.
Qed.

Lemma reap_step pid st p reaped m :
  child_table m !! pid = Some p -> is_Some (servs m !! serv p) ->
  master_reap_child false ((pid, st) :: reaped) m =
    if is_stopped st then master_reap_child false reaped m else
    sv ← get_serv (serv p) m;
    m ← (if negb (NORMAL_EXIT_STATUS st) && ((use_count p =? 0) && negb (MASTER_THROTTLED sv))
         then master_throttle (serv p) m else Ret m);
    m ← master_delete_child pid m; master_reap_child false reaped m.
Proof.
  intros Hp [sv Hs]. cbn [master_reap_child]. rewrite Hp. unfold get_serv. rewrite Hs.
  cbn [mbind outcome_bind]. destruct st; cbn [is_stopped]; by rewrite ?andb_false_r.
Qed.

Lemma reap_child_ok reaped : forall m,
  sound m -> reap_ok (child_table m) reaped ->
  exists m', master_reap_child false reaped m = Ret m' /\ sound m' /\ op_frame m m' /\
    child_table m' = reap_table (child_table m) reaped /\ throttles_grow m m' /\ log m' = log m.
Proof.
  induction reaped as [|[pid st] reaped IH]; intros m Hi Hok.
  { exists m. by split_and!. }
  destruct Hok as [[p Hp] Hok]. destruct (lk_proc _ (sd_linked _ Hi) _ _ Hp) as [Hs _].
  rewrite (reap_step _ _ p) by done. cbn [reap_table].
  destruct (is_stopped st) eqn:Est; [exact (IH m Hi Hok)|].
  destruct (reap_one_ok pid st p m (master_reap_child false reaped)) as
    (m1 & Hi1 & Hf1 & Ht1 & Hg1 & Hlog1 & _ & ->); [done..|].
  rewrite <- Ht1 in *. destruct (IH m1 Hi1 Hok) as (m2 & -> & Hi2 & Hf2 & Ht2 & Hg2 & Hlog2).
  exists m2. split_and!; [done|done|by eapply of_trans|done| |congruence].
  unfold throttles_grow in *. set_solver.
Qed.

Fixpoint batches_ok (t : gmap Z MASTER_PROC) (batches : list (list (Z * wait_status))) : Prop :=
  match batches with
  | [] => True
  | b :: batches => reap_ok t b /\ batches_ok (reap_table t b) batches
  end.

(** No process of the service is left. *)
Definition no_children (s : nat) (t : gmap Z MASTER_PROC) : Prop :=
  forall pid p, t !! pid = Some p -> serv p <> s.

Lemma total_zero s sv m : counted m -> servs m !! s = Some sv -> total_proc sv <= 0 -> no_children s (child_table m).
Proof.
  intros Hc Hs Ht pid p Hp Heq. destruct (Hc _ _ Hs) as [Htot _].
  assert (H : child_of s p <= map_sum (child_of s) (child_table m)).
  { apply (map_sum_ge _ _ pid); [|done]. intros x. unfold child_of. case_match; lia. }
  unfold child_of in H at 1. rewrite bool_decide_true in H by done. lia.
Qed.

Lemma reap_until_gone_ok s batches : forall m,
  sound m -> is_Some (servs m !! s) -> batches_ok (child_table m) batches ->
  exists r, reap_until_gone s batches m = Ret r /\
    match r with
    | None => ~ no_children s (foldl reap_table (child_table m) batches)
    | Some m' => sound m' /\ op_frame m m' /\ no_children s (child_table m') /\ throttles_grow m m' /\ log m' = log m
    end.
Proof.
  induction batches as [|b batches IH]; intros m Hi [sv Hs] Hb; cbn [reap_until_gone].
  all: unfold get_serv; rewrite Hs; cbn [mbind outcome_bind]; rewrite Z.gtb_ltb.
  all: destruct (Z.ltb_spec 0 (total_proc sv)) as [Ht|Ht];
    [|exists (Some m); split_and!; [done..|by apply (total_zero s sv); [apply Hi|..]|done|done]].
  - exists None. split; [done|]. intros Hno. destruct (sd_counted _ Hi _ _ Hs) as [Htot _].
    assert (Hz : map_sum (child_of s) (child_table m) = 0); [|lia].
    cbn in Hno. clear -Hno. revert Hno. generalize (child_table m). intros t.
    induction t as [|pid p t Hp IH] using map_ind; intros Hno; [apply map_sum_empty|].
    rewrite map_sum_insert_new by done. unfold child_of at 1.
    rewrite bool_decide_false by (apply (Hno pid); by rewrite lookup_insert_eq). rewrite IH; [done|].
    intros pid' p' Hp'. apply (Hno pid'). rewrite lookup_insert_ne; [done|]. by intros ->; simplify_eq.
  - destruct Hb as [Hb1 Hb2]. destruct (reap_child_ok b m) as (m1 & -> & Hi1 & Hf1 & Ht1 & Hg1 & Hlog1); [done..|].
    cbn [mbind outcome_bind]. destruct (IH m1 Hi1) as (r & Hr & Hpost).
    + apply (of_is_Some _ _ s Hf1). by exists sv.
    + by rewrite Ht1.
    + exists r. split; [done|]. destruct r as [m'|]; [|cbn [foldl]; by rewrite <- Ht1].
      destruct Hpost as (Hi' & Hf' & Hno & Hg' & Hlog').
      split_and!; [done|by eapply of_trans|done|unfold throttles_grow in *; set_solver|congruence].
Qed.

(** ** Stopping a service *)

Lemma sound_log c m : sound m -> sound (add_log c m).
Proof. intros [[H1 H2 H3 H4 H5] Hc Hl]. split; [by split|done..]. Qed.

Lemma kill_children_ok s m :
  sound m -> sound (kill_children s m) /\ op_frame m (kill_children s m) /\
    child_table (kill_children s m) = child_table m /\ servs (kill_children s m) = servs m /\
    throttle_timers (kill_children s m) = throttle_timers m.
Proof.
  unfold kill_children. generalize (map_to_list (child_table m)). intros l. revert m.
  induction l as [|[pid p] l IH]; intros m Hm; cbn [foldl]; [by split_and!|].
  case_bool_decide; [|by apply IH].
  destruct (IH (add_log (Kill pid) m) (sound_log _ _ Hm)) as (H1 & H2 & H3 & H4 & H5). split_and!; [done|..].
  - etrans; [|exact H2]. done.
  - by rewrite H3.
  - by rewrite H4.
  - by rewrite H5.
Qed.

Lemma delete_children_ok s batches m :
  sound m -> is_Some (servs m !! s) -> batches_ok (child_table m) batches ->
  exists r, master_delete_children s batches m = Ret r /\
    match r with
    | None => ~ no_children s (foldl reap_table (child_table m) batches)
    | Some m' => sound m' /\ op_frame m m' /\ no_children s (child_table m') /\ s ∉ throttle_timers m'
    end.
Proof.
  intros Hi Hs Hb. unfold master_delete_children.
  destruct (throttle_ok s m) as (m1 & -> & Hl1 & Hlis1 & Hf1 & _); [apply Hi..|done|].
  cbn [mbind outcome_bind]. assert (Hi1 : sound m1) by (by apply (sound_cf m)).
  destruct (kill_children_ok s m1 Hi1) as (Hi2 & Hf2 & Ht2 & Hs2 & _).
  assert (Hf : op_frame m (kill_children s m1)) by (etrans; [by apply cf_of|done]).
  destruct (reap_until_gone_ok s batches (kill_children s m1)) as (r & -> & Hr); [done| | |].
  { by apply (of_is_Some _ _ s Hf). }
  { by rewrite Ht2, (cf_child _ _ Hf1). }
  cbn [mbind outcome_bind]. rewrite Ht2, (cf_child _ _ Hf1) in Hr. destruct r as [m3|]; [|by exists None].
  destruct Hr as (Hi3 & Hf3 & Hno & _).
  destruct (unthrottle_ok s m3) as (m4 & -> & Hl4 & Hlis4 & Hf4 & Ht4 & _); [apply Hi3..| |].
  { apply (of_is_Some _ _ s Hf3). by apply (of_is_Some _ _ s Hf). }
  exists (Some m4). split_and!; [done|by apply (sound_cf m3)| |by rewrite (cf_child _ _ Hf4)|done].
  etrans; [exact Hf|]. etrans; [exact Hf3|]. by apply cf_of.
Qed.

(** The service is out of action: not listening, not throttled, childless. *)
Definition stopped (s : nat) (m : master) : Prop :=
  no_children s (child_table m) /\ s ∉ throttle_timers m /\ forall fd, reads m !! fd <> Some s.

Lemma switch_off_ok s sv m :
  sound m -> servs m !! s = Some sv ->
  linked (switch_listen false s sv m) /\ counted (switch_listen false s sv m) /\
  listens (fun x => x = s) (switch_listen false s sv m) /\ op_frame m (switch_listen false s sv m) /\
  forall fd, reads (switch_listen false s sv m) !! fd <> Some s.
Proof.
  intros [Hl Hc Hlis] Hs. pose proof (switch_linked false s sv m Hs Hl) as Hl'. split_and!; [done| | | |].
  - eapply counted_frame; [apply switch_frame|done].
  - intros s' x (x0 & Hx0 & ->)%switch_serv_inv Hn. rewrite decide_False by congruence.
    by apply (listens_all m s').
  - apply cf_of, lf_cf, switch_frame.
  - intros fd (x & (x0 & Hx0 & ->)%switch_serv_inv & _ & Hx)%(lk_reads _ Hl').
    rewrite decide_True in Hx by done. by rewrite set_flags_listening in Hx.
Qed.

Lemma avail_cleanup_ok s batches m :
  sound m -> is_Some (servs m !! s) -> batches_ok (child_table m) batches ->
  exists r, master_avail_cleanup s batches m = Ret r /\
    match r with
    | None => ~ no_children s (foldl reap_table (child_table m) batches)
    | Some m' => linked m' /\ counted m' /\ listens (fun x => x = s) m' /\ op_frame m m' /\ stopped s m'
    end.
Proof.
  intros Hi Hs Hb. unfold master_avail_cleanup.
  destruct (delete_children_ok s batches m) as (r & -> & Hr); [done..|]. cbn [mbind outcome_bind].
  destruct r as [m1|]; [|by exists None]. destruct Hr as (Hi1 & Hf1 & Hno & Hth).
  destruct (proj2 (of_is_Some m m1 s Hf1) Hs) as [sv Hsv]. unfold get_serv. rewrite Hsv.
  cbn [mbind outcome_bind]. destruct (MASTER_LISTENING sv) eqn:El.
  - exists (Some (switch_listen false s sv m1)). split; [done|].
    destruct (switch_off_ok s sv m1) as (H1 & H2 & H3 & H4 & H5); [done..|].
    split_and!; [done..|by etrans|]. unfold stopped. by rewrite (lf_child _ _ (switch_frame false s sv m1)),
      (lf_throttle _ _ (switch_frame false s sv m1)).
  - exists (Some m1). split; [done|]. destruct Hi1 as [Hl1 Hc1 Hlis1].
    split_and!; [done..|by apply listens_weaken|done|].
    split_and!; [done..|]. intros fd (x & Hx & _ & Hlx)%(lk_reads _ Hl1). congruence.
Qed.

Lemma sound_wakeup w m :
  (forall s, s ∈ w -> is_Some (servs m !! s)) -> sound m -> sound (set_wakeup_timers w m).
Proof. intros Hw [[H1 H2 H3 H4 H5] Hc Hl]. split; [by split|done..]. Qed.

(** Updates of a service that change nothing the invariant looks at. *)
Definition quiet (f : MASTER_SERV -> MASTER_SERV) : Prop := forall sv,
  listen_fd (f sv) = listen_fd sv /\ max_proc (f sv) = max_proc sv /\ avail_proc (f sv) = avail_proc sv /\
  total_proc (f sv) = total_proc sv /\ MASTER_THROTTLED (f sv) = MASTER_THROTTLED sv /\
  MASTER_LISTENING (f sv) = MASTER_LISTENING sv.

Lemma counted_upd s f m :
  (forall sv, avail_proc (f sv) = avail_proc sv /\ total_proc (f sv) = total_proc sv) ->
  counted m -> counted (upd_serv s f m).
Proof.
  intros Hf Hc s' sv' (sv & Hs & ->)%upd_serv_inv. destruct (Hc _ _ Hs).
  case_decide; [|done]. by destruct (Hf sv) as [-> ->].
Qed.

Lemma quiet_upd s f m : quiet f -> sound m -> sound (upd_serv s f m).
Proof.
  intros Hf [Hl Hc Hlis]. split.
  - apply linked_upd_serv; [|done]. intros sv _. by destruct (Hf sv) as (? & ? & ? & ? & ? & ?).
  - apply counted_upd; [|done]. intros sv. by destruct (Hf sv) as (? & ? & ? & ? & ? & ?).
  - intros s' sv' (sv & Hs & ->)%upd_serv_inv _. pose proof (listens_all m s' sv Hlis Hs) as H.
    case_decide; [|done]. destruct (Hf sv) as (E1 & E2 & E3 & E4 & E5 & E6).
    unfold listening_right, listen_wanted in *. by rewrite E2, E3, E4, E5, E6.
Qed.

Lemma stop_service_ok s batches m :
  inv m -> is_Some (servs m !! s) -> batches_ok (child_table m) batches ->
  exists r, master_stop_service s batches m = Ret r /\
    match r with
    | None => ~ no_children s (foldl reap_table (child_table m) batches)
    | Some m' => linked m' /\ counted m' /\ listens (fun x => x = s) m' /\ stopped s m' /\ s ∉ wakeup_timers m' /\
        forall s', s' <> s -> setup <$> servs m' !! s' = setup <$> servs m !! s'
    end.
Proof.
  intros [Hi Hup] [sv Hs] Hb. unfold master_stop_service, master_wakeup_cleanup, master_status_cleanup, get_serv.
  cbn [mbind outcome_bind]. set (m1 := set_wakeup_timers (wakeup_timers m ∖ {[s]}) m).
  change (servs m1) with (servs m). rewrite Hs. cbn [mbind outcome_bind]. rewrite (Hup _ _ Hs). cbn [negb].
  set (m2 := upd_serv s (set_status_open false) m1).
  assert (Hi2 : sound m2).
  { apply quiet_upd; [done|]. apply sound_wakeup; [|done]. intros x Hx. apply (lk_wakeup _ (sd_linked _ Hi)). set_solver. }
  cbn [mbind outcome_bind].
  destruct (avail_cleanup_ok s batches m2) as (r & -> & Hr); [done|by apply upd_serv_is_Some; exists sv|done|].
  cbn [mbind outcome_bind]. destruct r as [m3|]; [|by exists None].
  destruct Hr as (Hl3 & Hc3 & Hlis3 & Hf3 & Hst & Hth & Hrd).
  exists (Some (upd_serv s (set_listen_fd []) m3)). split; [done|]. split_and!.
  - destruct Hl3 as [H1 H2 H3 H4 H5].
    assert (Hinv : forall s' x, servs (upd_serv s (set_listen_fd []) m3) !! s' = Some x ->
      exists x0, servs m3 !! s' = Some x0 /\ x = if decide (s = s') then set_listen_fd [] x0 else x0)
      by (intros; by apply upd_serv_inv).
    split.
    + intros pid p Hp. destruct (H1 pid p Hp). split; [by apply upd_serv_is_Some|done].
    + intros s'. change (throttle_timers (upd_serv s (set_listen_fd []) m3)) with (throttle_timers m3).
      rewrite H2, lookup_upd_serv. case_decide; [|done]. subst s'. split.
      * intros (x & Hx & Ht). exists (set_listen_fd [] x). by rewrite Hx.
      * intros (x & (x0 & Hx0 & ->)%fmap_Some & Ht). by exists x0.
    + intros s' Hs'. by apply upd_serv_is_Some, H3.
    + intros fd s'. change (reads (upd_serv s (set_listen_fd []) m3)) with (reads m3). split.
      * intros Hr. assert (s' <> s) by (intros ->; by apply (Hrd fd)).
        apply H4 in Hr as (x & Hx & ?). exists x. split; [|done]. by rewrite lookup_upd_serv, decide_False.
      * intros (x & (x0 & Hx0 & ->)%Hinv & Hfd & Hlx). case_decide; [by apply not_elem_of_nil in Hfd|].
        apply H4. by exists x0.
    + intros s1 s2 x1 x2 fd (y1 & Hy1 & ->)%Hinv (y2 & Hy2 & ->)%Hinv Hf1 Hf2.
      assert (Hno : forall x0 : MASTER_SERV, fd ∉ listen_fd (set_listen_fd [] x0))
        by (intros; apply not_elem_of_nil).
      case_decide; [by destruct (Hno y1)|]. case_decide; [by destruct (Hno y2)|].
      by apply (H5 s1 s2 y1 y2 fd).
  - by apply counted_upd.
  - intros s' x (x0 & Hx0 & ->)%upd_serv_inv Hn. rewrite decide_False by congruence. by apply (Hlis3 s').
  - done.
  - cbn. rewrite (of_wakeup _ _ Hf3). cbn. set_solver.
  - intros s' Hn. rewrite lookup_upd_serv, decide_False by congruence. rewrite (of_setup _ _ Hf3 s').
    unfold m2. by rewrite lookup_upd_serv, decide_False by congruence.
Qed.

(** ** Wakeup, restart and configuration *)

Lemma wakeup_event_ok s m :
  sound m -> is_Some (servs m !! s) ->
  exists m', master_wakeup_timer_event s m = Ret m' /\ sound m' /\ servs m' = servs m /\
    child_table m' = child_table m /\ now m' = now m.
Proof.
  intros Hi [sv Hs]. unfold master_wakeup_timer_event, get_serv. rewrite Hs. cbn [mbind outcome_bind].
  destruct (wakeup_time sv =? 0); [by exists m|]. eexists. split; [done|].
  assert (Hw : forall m0, servs m0 = servs m -> wakeup_timers m0 = wakeup_timers m -> sound m0 ->
    sound (set_wakeup_timers ({[s]} ∪ wakeup_timers m0) m0)).
  { intros m0 Hsv Hwt Hm0. apply sound_wakeup; [|done]. rewrite Hsv, Hwt. intros x [Hx|Hx]%elem_of_union.
    - apply elem_of_singleton in Hx as ->. by exists sv.
    - apply (lk_wakeup _ (sd_linked _ Hi)). done. }
  destruct (negb (MASTER_THROTTLED sv)); split_and!; try done;
    [apply (Hw (add_log (Trigger s) m)); [done..|by apply sound_log]|by apply (Hw m)].
Qed.

Lemma wakeup_init_ok s m :
  sound m -> is_Some (servs m !! s) ->
  exists m', master_wakeup_init s m = Ret m' /\ sound m' /\ servs m' = servs m /\
    child_table m' = child_table m /\ now m' = now m.
Proof.
  intros Hi [sv Hs]. unfold master_wakeup_init, get_serv. rewrite Hs. cbn [mbind outcome_bind].
  case_match; [by exists m|]. apply wakeup_event_ok; [done|by exists sv].
Qed.

(** Everything but the listening status of one service. *)
Definition nearly (s : nat) (m : master) : Prop :=
  linked m /\ counted m /\ listens (fun x => x = s) m.

Lemma sound_nearly s m : sound m -> nearly s m.
Proof. intros [H1 H2 H3]. split_and!; [done..|by apply listens_weaken]. Qed.

Lemma avail_listen_nearly s m :
  nearly s m -> is_Some (servs m !! s) ->
  exists m', master_avail_listen s m = Ret m' /\ sound m' /\ listen_frame m m'.
Proof.
  intros (Hl & Hc & Hlis) Hs. destruct (avail_listen_ok s m) as (m' & ? & ? & ? & ?); [done..|].
  exists m'. split_and!; [done| |done]. split; [done|by apply (counted_frame m)|done].
Qed.

(** A change of the configuration of service [s]. *)
Definition reconfigures (f : MASTER_SERV -> MASTER_SERV) : Prop := forall sv,
  listen_fd (f sv) = listen_fd sv /\ avail_proc (f sv) = avail_proc sv /\
  total_proc (f sv) = total_proc sv /\ MASTER_THROTTLED (f sv) = MASTER_THROTTLED sv /\
  MASTER_LISTENING (f sv) = MASTER_LISTENING sv.

Lemma nearly_upd s f m : reconfigures f -> nearly s m -> nearly s (upd_serv s f m).
Proof.
  intros Hf (Hl & Hc & Hlis). split_and!.
  - apply linked_upd_serv; [|done]. intros sv _. by destruct (Hf sv) as (? & ? & ? & ? & ?).
  - apply counted_upd; [|done]. intros sv. by destruct (Hf sv) as (? & ? & ? & ? & ?).
  - intros s' sv' (sv & Hs & ->)%upd_serv_inv Hn. rewrite decide_False by congruence. by apply (Hlis s').
Qed.

Lemma nearly_wakeup s w m :
  (forall x, x ∈ w -> is_Some (servs m !! x)) -> nearly s m -> nearly s (set_wakeup_timers w m).
Proof. intros Hw ([H1 H2 H3 H4 H5] & Hc & Hl). split_and!; [by split|done..]. Qed.

Lemma wakeup_init_nearly s m :
  nearly s m -> is_Some (servs m !! s) ->
  exists m', master_wakeup_init s m = Ret m' /\ nearly s m' /\ servs m' = servs m /\
    child_table m' = child_table m.
Proof.
  intros Hi [sv Hs]. unfold master_wakeup_init, master_wakeup_timer_event, get_serv. rewrite Hs.
  cbn [mbind outcome_bind]. case_match; [by exists m|]. 
  case_match; [by exists m|]. eexists. split; [done|].
  assert (Hw : forall m0, servs m0 = servs m -> wakeup_timers m0 = wakeup_timers m -> nearly s m0 ->
    nearly s (set_wakeup_timers ({[s]} ∪ wakeup_timers m0) m0)).
  { intros m0 Hsv Hwt Hm0. apply nearly_wakeup; [|done]. rewrite Hsv, Hwt. intros x [Hx|Hx]%elem_of_union.
    - apply elem_of_singleton in Hx as ->. by exists sv.
    - by apply (lk_wakeup _ (proj1 Hi)). }
  destruct (negb (MASTER_THROTTLED sv)); split_and!; try done;
    [apply (Hw (add_log (Trigger s) m)); [done..|]|by apply (Hw m)].
  destruct Hi as ([H1 H2 H3 H4 H5] & Hc & Hl). split_and!; [by split|done..].
Qed.

(** The part of master_restart_service() before the optional reaction to new
    settings. *)
Lemma restart_prefix_ok s sv m (rest : master -> outcome master) :
  nearly s m -> servs m !! s = Some sv -> status_open sv = true ->
  exists m', (m ← master_wakeup_cleanup s m; m ← master_status_cleanup s m; m ← master_status_init s m;
     m ← master_wakeup_init s m; rest m) = rest m' /\ nearly s m' /\ child_table m' = child_table m /\
     servs m' = alter (set_status_open true) s (servs m).
Proof.
  intros Hi Hs Hup. unfold master_wakeup_cleanup, master_status_cleanup, master_status_init, get_serv.
  cbn [mbind outcome_bind]. set (m1 := set_wakeup_timers (wakeup_timers m ∖ {[s]}) m).
  change (servs m1) with (servs m). rewrite Hs. cbn [mbind outcome_bind]. rewrite Hup. cbn [negb mbind outcome_bind].
  set (m2 := upd_serv s (set_status_open false) m1). cbn [mbind outcome_bind].
  assert (Hs2 : servs m2 !! s = Some (set_status_open false sv)).
  { unfold m2. rewrite lookup_upd_serv, decide_True by done. change (servs m1) with (servs m). by rewrite Hs. }
  rewrite Hs2. cbn [mbind outcome_bind status_open set_status_open].
  set (m3 := upd_serv s (set_status_open true) m2). cbn [mbind outcome_bind].
  assert (Hi3 : nearly s m3).
  { apply nearly_upd; [done|]. apply nearly_upd; [done|]. apply nearly_wakeup; [|done].
    intros x Hx. apply (lk_wakeup _ (proj1 Hi)). set_solver. }
  destruct (wakeup_init_nearly s m3) as (m4 & -> & Hi4 & Hs4 & Ht4); [done|by do 2 apply upd_serv_is_Some; exists sv|].
  exists m4. split_and!; [done|done|by rewrite Ht4|]. rewrite Hs4. cbn.
  apply map_eq. intros s'. destruct (decide (s = s')) as [<-|Hn]; [|by rewrite !lookup_alter_ne].
  by rewrite !lookup_alter_eq, Hs.
Qed.

Lemma status_alter s f m m' :
  (forall sv, status_open (f sv) = true) -> status_up m -> servs m' = alter f s (servs m) -> status_up m'.
Proof.
  intros Hf Hup Hs s' sv' H. rewrite Hs in H. apply (upd_serv_inv s f m) in H as (sv & Hsv & ->).
  case_decide; [done|by apply (Hup s')].
Qed.

Lemma restart_reload_ok s f m :
  inv m -> is_Some (servs m !! s) -> reconfigures f -> (forall sv, status_open (f sv) = status_open sv) ->
  exists m', master_restart_service s true (upd_serv s f m) = Ret m' /\ inv m' /\
    child_table m' = child_table m.
Proof.
  intros [Hi Hup] [sv Hs] Hf Hst. unfold master_restart_service.
  assert (Hs1 : servs (upd_serv s f m) !! s = Some (f sv)) by (by rewrite lookup_upd_serv, decide_True, Hs).
  destruct (restart_prefix_ok s (f sv) (upd_serv s f m) (master_avail_listen s)) as (m1 & -> & Hi1 & Ht1 & Hs1');
    [apply nearly_upd, sound_nearly; done|done|rewrite Hst; by apply (Hup s)|].
  destruct (avail_listen_nearly s m1) as (m2 & -> & Hi2 & Hf2); [done|rewrite Hs1', lookup_alter_eq, Hs1; done|].
  exists m2. split_and!; [done| |by rewrite (lf_child _ _ Hf2)]. split; [done|].
  apply (status_frame m1); [done|]. eapply (status_alter s (set_status_open true) (upd_serv s f m)); [done| |done].
  intros s' x (x0 & Hx0 & ->)%upd_serv_inv. case_decide; rewrite ?Hst; by apply (Hup s').
Qed.

(** The stress-mode restart, which leaves the settings alone. *)
Lemma restart_stress_ok s m :
  inv m -> is_Some (servs m !! s) ->
  exists m', master_restart_service s false m = Ret m' /\ inv m' /\
    child_table m' = child_table m /\ servs m' = servs m.
Proof.
  intros [Hi Hup] [sv Hs]. unfold master_restart_service.
  destruct (restart_prefix_ok s sv m (fun m => Ret m)) as (m1 & -> & Hi1 & Ht1 & Hs1);
    [by apply sound_nearly|done|by apply (Hup s)|].
  assert (Hid : servs m1 = servs m).
  { rewrite Hs1. apply map_eq. intros s'. destruct (decide (s = s')) as [<-|Hn]; [|by rewrite lookup_alter_ne].
    rewrite lookup_alter_eq, Hs. cbn. f_equal. pose proof (Hup s sv Hs) as Ho. destruct sv. cbn in *. by subst. }
  exists m1. split_and!; [done| |done|done]. destruct Hi1 as (Hl1 & Hc1 & _). split; [split|].
  - done.
  - done.
  - intros s' x Hx. rewrite Hid in Hx. by apply (sd_listens _ Hi s').
  - intros s' x Hx. rewrite Hid in Hx. by apply (Hup s').
Qed.

(** ** Creating processes *)

Lemma limit_ok_wanted sv : listen_wanted sv = true <->
  MASTER_THROTTLED sv = false /\ avail_proc sv <= 0 /\ MASTER_LIMIT_OK (max_proc sv) (total_proc sv) = true.
Proof.
  unfold listen_wanted. rewrite Z.gtb_ltb.
  destruct (MASTER_THROTTLED sv), (Z.ltb_spec 0 (avail_proc sv)), (MASTER_LIMIT_OK _ _);
    cbn; naive_solver lia.
Qed.

(** The state of a service is fit for master_spawn(). *)
Definition can_spawn (s : nat) (m : master) : Prop :=
  exists sv, servs m !! s = Some sv /\ listen_wanted sv = true.

(** Filling in the data of the new process, up to the call of
    master_avail_more(). *)
Definition add_child (s : nat) (pid : Z) (m : master) : master :=
  upd_serv s (fun sv => set_total_proc (total_proc sv + 1) sv)
    (set_child_table (<[pid := mk_proc (master_generation m) 0 s 0]> (child_table m)) m).

Lemma of_add_child s pid m : op_frame m (add_child s pid m).
Proof.
  destruct (of_upd_serv s (fun sv => set_total_proc (total_proc sv + 1) sv)
    (set_child_table (<[pid := mk_proc (master_generation m) 0 s 0]> (child_table m)) m)) as [H1 H2]; [done|].
  by split.
Qed.

Lemma add_child_ok s pid m :
  sound m -> is_Some (servs m !! s) -> child_table m !! pid = None ->
  exists m', master_avail_more s pid (add_child s pid m) = Ret m' /\ sound m' /\
    listen_frame (move_avail s pid 1 MASTER_STAT_AVAIL (add_child s pid m)) m'.
Proof.
  intros [Hl Hc Hlis] Hs Hnew. set (p := mk_proc (master_generation m) 0 s 0).
  assert (Hl1 : linked (set_child_table (<[pid := p]> (child_table m)) m)).
  { apply linked_set_child; [|done]. intros pid' p' [[<- <-]|[_ H]]%lookup_insert_Some.
    - split; [done|by left].
    - by apply (lk_proc _ Hl pid'). }
  destruct (avail_more_ok s pid p (add_child s pid m)) as (m' & Hr & Hl' & Hlis' & Hf);
    [by apply linked_upd_serv|by apply (listens_upd_serv s _ (set_child_table _ m))
    |by apply upd_serv_is_Some|apply lookup_insert_eq|done|].
  exists m'. split_and!; [done| |done]. split; [done| |done].
  apply (counted_frame _ _ Hf). intros s' sv' Hs'. unfold move_avail in *.
  cbn [servs child_table upd_proc set_child_table] in *.
  apply (upd_serv_inv s _ (add_child s pid m)) in Hs' as (sv1 & Hs1 & ->).
  apply (upd_serv_inv s _ (set_child_table _ m)) in Hs1 as (sv & Hsv & ->). cbn in Hsv.
  destruct (Hc _ _ Hsv) as [Ht Ha].
  assert (Hp : child_table (upd_serv s (fun sv => set_avail_proc (avail_proc sv + 1) sv) (add_child s pid m))
    = <[pid := p]> (child_table m)) by done.
  rewrite Hp, !(map_sum_alter _ _ _ pid p), !map_sum_insert_new by (try done; apply lookup_insert_eq).
  unfold child_of at 1 3 4, idle_of at 1 3 4. cbn [serv set_avail avail]. fold p. cbn [p serv avail].
  case_decide; [rewrite bool_decide_true by done|rewrite bool_decide_false by done]; cbn; lia.
Qed.

Lemma spawn_ok s pid m :
  inv m -> can_spawn s m -> (forall n, pid = Some n -> child_table m !! n = None) ->
  exists m', master_spawn s pid m = Ret m' /\ inv m' /\
    (forall n, pid = Some n -> exists g, child_table m' = <[n := mk_proc g MASTER_STAT_AVAIL s 0]> (child_table m)) /\
    (pid = None -> child_table m' = child_table m /\ s ∈ throttle_timers m').
Proof.
  intros [Hi Hup] (sv & Hs & Hw) Hpid. apply limit_ok_wanted in Hw as (Ht & Ha & Hlim).
  unfold master_spawn, get_serv. rewrite Hs. cbn [mbind outcome_bind]. rewrite Hlim, Ht.
  rewrite Z.gtb_ltb, (proj2 (Z.ltb_ge 0 (avail_proc sv))) by done.
  cbn [negb assert_or_panic mbind outcome_bind].
  set (m1 := set_master_generation ((master_generation m + 1) mod 2 ^ 32) m).
  assert (Hi1 : sound m1) by (destruct Hi as [[H1 H2 H3 H4 H5] Hc Hl]; split; [by split|done..]).
  destruct pid as [n|].
  - specialize (Hpid n eq_refl).
    destruct (add_child_ok s n m1) as (m2 & Hr & Hi2 & Hf2); [done|by exists sv|done|].
    fold (add_child s n m1). rewrite Hr. cbn [mbind outcome_bind].
    assert (Hf : op_frame m m2).
    { etrans; [|apply cf_of, lf_cf; exact Hf2]. etrans; [|apply of_move_avail].
      etrans; [|apply of_add_child]. done. }
    assert (Hct : child_table m2 = <[n := mk_proc (master_generation m1) MASTER_STAT_AVAIL s 0]> (child_table m)).
    { rewrite (lf_child _ _ Hf2). cbn. apply map_eq. intros x. destruct (decide (n = x)) as [<-|Hn].
      - by rewrite lookup_alter_eq, !lookup_insert_eq.
      - by rewrite lookup_alter_ne, !lookup_insert_ne. }
    destruct (proj2 (of_is_Some m m2 s Hf) (ex_intro _ sv Hs)) as [sv2 Hs2]. rewrite Hs2. cbn [mbind outcome_bind].
    assert (Hup2 : status_up m2) by (by apply (status_of m)).
    destruct (negb (Z.land (flags sv2) MASTER_FLAG_CONDWAKE =? 0)).
    + set (f := fun sv => set_flags (Z.land (flags sv) (Z.lnot MASTER_FLAG_CONDWAKE)) sv).
      assert (Hq : quiet f).
      { intros x. split_and!; [done..| |]; rewrite ?throttled_bit, ?listening_bit; unfold f, MASTER_FLAG_CONDWAKE;
          cbn -[Z.testbit Z.land Z.shiftl]; by rewrite flag_clear. }
      destruct (wakeup_init_ok s (upd_serv s f m2)) as (m3 & -> & Hi3 & Hs3 & Ht3 & _);
        [by apply quiet_upd|apply upd_serv_is_Some; by exists sv2|].
      exists m3. split_and!; [done| | |done].
      * split; [done|]. intros x svx Hx. rewrite Hs3 in Hx. apply upd_serv_inv in Hx as (sv0 & Hx0 & ->).
        case_decide; exact (Hup2 x sv0 Hx0).
      * intros n' [= <-]. exists (master_generation m1). by rewrite Ht3.
    + exists m2. split_and!; [done|by split| |done]. intros n' [= <-]. by exists (master_generation m1).
  - destruct (throttle_ok s m1) as (m2 & -> & Hl2 & Hlis2 & Hf2 & Hth & _); [apply Hi1..|by exists sv|].
    exists m2. split_and!; [done| |done|].
    + split; [by apply (sound_cf m1)|]. apply (status_cf m1); done.
    + intros _. by rewrite (cf_child _ _ Hf2).
Qed.

Lemma avail_event_ok s pid m :
  inv m -> can_spawn s m -> (forall n, pid = Some n -> child_table m !! n = None) ->
  exists m', master_avail_event s pid m = Ret m' /\ inv m' /\
    (forall n, pid = Some n -> exists g, child_table m' = <[n := mk_proc g MASTER_STAT_AVAIL s 0]> (child_table m)) /\
    (pid = None -> child_table m' = child_table m /\ s ∈ throttle_timers m').
Proof.
  intros Hi (sv & Hs & Hw) Hpid. unfold master_avail_event, get_serv. rewrite Hs. cbn [mbind outcome_bind].
  assert (H1 : exists m1, (if stress_param sv && negb (MASTER_LIMIT_OK (max_proc sv) (total_proc sv + 1)) then
       m ← (if stress_expire_time sv <? now m then master_restart_service s false m else Ret m);
       Ret (upd_serv s (set_stress_expire_time (now m + 1000)) m)
     else Ret m) = Ret m1 /\ inv m1 /\ can_spawn s m1 /\ child_table m1 = child_table m).
  { case_match; [|exists m; split_and!; [done..|by exists sv|done]].
    assert (H1 : exists m1, (if stress_expire_time sv <? now m then master_restart_service s false m else Ret m) = Ret m1 /\
      inv m1 /\ child_table m1 = child_table m /\ servs m1 = servs m).
    { case_match; [|by exists m]. by apply restart_stress_ok; [|exists sv]. }
    destruct H1 as (m1 & -> & Hi1 & Ht1 & Hs1). cbn [mbind outcome_bind]. eexists. split; [done|].
    destruct Hi1 as [Hi1 Hup1]. split_and!; [split; [by apply quiet_upd|]| |done].
    - intros x svx (sv0 & Hx0 & ->)%upd_serv_inv. case_decide; exact (Hup1 x sv0 Hx0).
    - exists (set_stress_expire_time (now m1 + 1000) sv). rewrite lookup_upd_serv, decide_True, Hs1, Hs by done. done. }
  destruct H1 as (m1 & -> & Hi1 & Hcan & Ht1). cbn [mbind outcome_bind]. rewrite <- Ht1.
  apply spawn_ok; [done|done|]. by rewrite Ht1.
Qed.

(** ** Status messages *)

Lemma idle_positive s pid p m :
  sound m -> child_table m !! pid = Some p -> serv p = s -> avail p = MASTER_STAT_AVAIL ->
  exists sv, servs m !! s = Some sv /\ 0 < avail_proc sv.
Proof.
  intros Hi Hp <- Ha. destruct (lk_proc _ (sd_linked _ Hi) _ _ Hp) as [[sv Hs] _].
  exists sv. split; [done|]. destruct (sd_counted _ Hi _ _ Hs) as [_ ->].
  assert (H : idle_of (serv p) p <= map_sum (idle_of (serv p)) (child_table m)).
  { apply (map_sum_ge _ _ pid); [|done]. intros x. unfold idle_of. case_match; lia. }
  unfold idle_of in H at 1. rewrite bool_decide_true, Ha in H by done. cbn in H. lia.
Qed.

(** A process of the service changes its availability. *)
Lemma moved_counted s pid p d a m m' :
  counted m -> child_table m !! pid = Some p -> serv p = s ->
  d = (if a =? MASTER_STAT_AVAIL then 1 else 0) - (if avail p =? MASTER_STAT_AVAIL then 1 else 0) ->
  listen_frame (move_avail s pid d a m) m' -> counted m'.
Proof.
  intros Hc Hp Hsp Hd Hf. apply (counted_frame _ _ Hf). intros s' sv' Hs'. unfold move_avail in *.
  cbn [servs child_table upd_proc set_child_table] in *.
  apply (upd_serv_inv s _ m) in Hs' as (sv & Hs & ->). destruct (Hc _ _ Hs) as [Ht Ha].
  change (child_table (upd_serv s _ m)) with (child_table m).
  rewrite !(map_sum_alter _ _ _ _ _ Hp). unfold child_of at 2 3, idle_of at 2 3.
  cbn [serv set_avail avail]. rewrite Hsp.
  case_decide; [rewrite bool_decide_true by done|rewrite bool_decide_false by done]; cbn -[Z.eqb]; [|lia].
  rewrite Hd. lia.
Qed.

Lemma status_event_ok s r m :
  inv m -> is_Some (servs m !! s) ->
  match r with
  | ReadEof => False
  | ReadStatus stat => forall p, child_table m !! st_pid stat = Some p -> gen p = st_gen stat -> serv p = s
  | _ => True
  end ->
  exists m', master_status_event s r m = Ret m' /\ inv m' /\
    dom (child_table m') = dom (child_table m).
Proof.
  intros [Hi Hup] Hs Hr. destruct r as [| | |stat]; [by exists m|done|by exists m|]. cbn [master_status_event].
  destruct (child_table m !! st_pid stat) as [p|] eqn:Hp; [|by exists m].
  destruct (Z.eqb_spec (gen p) (st_gen stat)) as [Hg|Hg]; cbn [negb]; [|by exists m].
  specialize (Hr p eq_refl Hg). rewrite (proj2 (Nat.eqb_eq _ _) Hr). cbn [negb].
  destruct (lk_proc _ (sd_linked _ Hi) _ _ Hp) as [_ Hav].
  destruct (Z.eqb_spec (avail p) (st_avail stat)) as [He|He]; [by exists m|].
  destruct (Z.eqb_spec (st_avail stat) MASTER_STAT_AVAIL) as [Ea|Ea].
  - assert (Ht : avail p = MASTER_STAT_TAKEN) by (destruct Hav; [done|congruence]).
    set (f := set_use_count (use_count p + 1)). set (m1 := upd_proc (st_pid stat) f m).
    assert (Hl1 : linked m1).
    { apply linked_upd_proc; [|apply Hi]. intros p0 Hp0. assert (p0 = p) as -> by congruence. by split. }
    assert (Hp1 : child_table m1 !! st_pid stat = Some (f p)).
    { unfold m1. by rewrite lookup_upd_proc, decide_True, Hp. }
    assert (Hc1 : counted m1).
    { intros s' sv' Hs'. destruct (sd_counted _ Hi s' sv' Hs') as [-> ->]. cbn [m1 child_table upd_proc set_child_table].
      rewrite !(map_sum_alter _ _ _ _ _ Hp).
      change (child_of s' (f p)) with (child_of s' p). change (idle_of s' (f p)) with (idle_of s' p). lia. }
    destruct (avail_more_ok s (st_pid stat) (f p) m1) as (m2 & -> & Hl2 & Hlis2 & Hf);
      [done|by apply listens_weaken, Hi|done|done|done|].
    exists m2. split_and!; [done| |].
    + split; [split; [done| |done]|].
      * apply (moved_counted s (st_pid stat) (f p) 1 MASTER_STAT_AVAIL m1); [done..| |done].
        cbn [avail f set_use_count]. by rewrite Ht.
      * apply (status_frame _ _ Hf). apply (status_of m1); [apply of_move_avail|done].
    + rewrite (lf_child _ _ Hf). cbn. by rewrite !dom_alter_L.
  - destruct (Z.eqb_spec (st_avail stat) MASTER_STAT_TAKEN) as [Et|Et]; [|by exists m].
    assert (Ha : avail p = MASTER_STAT_AVAIL) by (destruct Hav; [congruence|done]).
    destruct (avail_less_ok s (st_pid stat) p m) as (m2 & -> & Hl2 & Hlis2 & Hf);
      [apply Hi|by apply listens_weaken, Hi|done..|].
    exists m2. split_and!; [done| |].
    + split; [split; [done| |done]|].
      * apply (moved_counted s (st_pid stat) p (-1) MASTER_STAT_TAKEN m); [apply Hi|done..| |done].
        by rewrite Ha.
      * apply (status_frame _ _ Hf). apply (status_of m); [apply of_move_avail|done].
    + rewrite (lf_child _ _ Hf). cbn. by rewrite !dom_alter_L.
Qed.

(** ** Configuration changes *)

(** The descriptors of a new service are not those of another one. *)
Definition fds_fresh (fds : list Z) (m : master) : Prop :=
  forall s sv fd, servs m !! s = Some sv -> fd ∈ fds -> fd ∉ listen_fd sv.

Lemma new_service_linked s sv fds m :
  linked m -> servs m !! s = None -> fds_fresh fds m -> listen_fd sv = fds ->
  MASTER_LISTENING sv = false -> MASTER_THROTTLED sv = false ->
  linked (set_servs (<[s := sv]> (servs m)) m).
Proof.
  intros [H1 H2 H3 H4 H5] Hnew Hfresh Hfd Hlis Hthr.
  assert (Hne : forall s' x, servs m !! s' = Some x -> <[s := sv]> (servs m) !! s' = Some x).
  { intros s' x Hx. rewrite lookup_insert_ne; [done|]. by intros ->; simplify_eq. }
  split; cbn.
  - intros pid p Hp. destruct (H1 pid p Hp) as [[x Hx] Ha]. split; [|done]. exists x. by apply Hne.
  - intros s'. rewrite H2. split; intros (x & Hx & Ht); exists x; (split; [|done]); [by apply Hne|].
    apply lookup_insert_Some in Hx as [[<- <-]|[_ Hx]]; [congruence|done].
  - intros s' [x Hx]%H3. exists x. by apply Hne.
  - intros fd s'. rewrite H4. split; intros (x & Hx & Hin & Hl); exists x; (split; [|done]); [by apply Hne|].
    apply lookup_insert_Some in Hx as [[<- <-]|[_ Hx]]; [congruence|done].
  - intros s1 s2 x1 x2 fd Hx1 Hx2 Hf1 Hf2.
    apply lookup_insert_Some in Hx1 as [[<- <-]|[_ Hx1]], Hx2 as [[<- <-]|[_ Hx2]].
    + done.
    + rewrite Hfd in Hf1. by destruct (Hfresh s2 x2 fd).
    + rewrite Hfd in Hf2. by destruct (Hfresh s1 x1 fd).
    + by apply (H5 s1 s2 x1 x2 fd).
Qed.

(** No process refers to a service that does not exist. *)
Lemma unknown_counts s m : linked m -> servs m !! s = None ->
  map_sum (child_of s) (child_table m) = 0 /\ map_sum (idle_of s) (child_table m) = 0.
Proof.
  intros Hl Hs. assert (Hno : no_children s (child_table m)).
  { intros pid p Hp <-. destruct (lk_proc _ Hl _ _ Hp) as [[x Hx] _]. congruence. }
  clear Hl Hs. revert Hno. generalize (child_table m). intros t.
  induction t as [|pid p t Hp IH] using map_ind; intros Hno; [by rewrite !map_sum_empty|].
  rewrite !map_sum_insert_new by done. unfold child_of at 1, idle_of at 1.
  rewrite bool_decide_false by (apply (Hno pid); by rewrite lookup_insert_eq).
  destruct IH as [-> ->]; [|done]. intros pid' p' Hp'. apply (Hno pid').
  rewrite lookup_insert_ne; [done|]. by intros ->; simplify_eq.
Qed.

Lemma config_new_ok s e fds m :
  inv m -> servs m !! s = None -> fds_fresh fds m ->
  exists m', config_entry s e fds m = Ret m' /\ inv m' /\ child_table m' = child_table m.
Proof.
  intros [Hi Hup] Hnew Hfresh. unfold config_entry, master_start_service, master_listen_init. rewrite Hnew.
  cbn [mbind outcome_bind]. set (sv0 := set_listen_fd fds (get_master_ent e)).
  set (m1 := upd_serv s (set_listen_fd fds) _).
  assert (Hm1 : m1 = set_servs (<[s := sv0]> (servs m)) m).
  { unfold m1, upd_serv, set_servs. cbn. f_equal. apply map_eq. intros x.
    destruct (decide (s = x)) as [<-|Hn].
    - by rewrite lookup_alter_eq, !lookup_insert_eq.
    - by rewrite lookup_alter_ne, !lookup_insert_ne. }
  rewrite Hm1. clear m1 Hm1. set (m1 := set_servs _ m).
  assert (Hl1 : linked m1).
  { apply (new_service_linked s sv0 fds); [apply Hi|done..| |]; unfold MASTER_LISTENING, MASTER_THROTTLED; cbn;
      by destruct (ent_condwake e). }
  assert (Hn1 : nearly s m1).
  { split_and!; [done| |].
    - intros s' x [[<- <-]|[_ Hx]]%(lookup_insert_Some (servs m)); [|by apply Hi].
      destruct (unknown_counts s m (sd_linked _ Hi) Hnew) as [E1 E2]. cbn. by rewrite E1, E2.
    - intros s' x [[<- <-]|[_ Hx]]%(lookup_insert_Some (servs m)) Hn; [done|].
      apply (listens_all m s'); [apply Hi|done]. }
  destruct (avail_listen_nearly s m1) as (m2 & -> & Hi2 & Hf2); [done|exists sv0; apply lookup_insert_eq|].
  destruct (lf_serv _ _ s sv0 Hf2) as (sv2 & Hs2 & Hv2); [apply lookup_insert_eq|].
  apply view_inv in Hv2 as (_&_&_&_&_&_&_&Ho&_). cbn in Ho.
  unfold master_status_init, get_serv. cbn [mbind outcome_bind]. rewrite Hs2. cbn [mbind outcome_bind]. rewrite Ho.
  cbn [mbind outcome_bind].
  destruct (wakeup_init_ok s (upd_serv s (set_status_open true) m2)) as (m3 & -> & Hi3 & Hs3 & Ht3 & _);
    [by apply quiet_upd|apply upd_serv_is_Some; by exists sv2|].
  exists m3. split_and!; [done| |by rewrite Ht3; cbn; rewrite (lf_child _ _ Hf2)]. split; [done|].
  intros s' x Hx. rewrite Hs3 in Hx. apply upd_serv_inv in Hx as (x0 & Hx0 & ->). case_decide; [done|].
  destruct (lf_serv_inv _ _ _ _ Hf2 Hx0) as (x1 & Hx1 & Hv). apply view_inv in Hv as (_&_&_&_&_&_&_&->&_).
  apply (lookup_insert_Some (servs m)) in Hx1 as [[? _]|[_ Hx1]]; [done|by apply (Hup s')].
Qed.

Lemma config_update_ok s e fds m :
  inv m -> is_Some (servs m !! s) ->
  exists m', config_entry s e fds m = Ret m' /\ inv m' /\ child_table m' = child_table m.
Proof.
  intros Hi [sv Hs]. unfold config_entry. rewrite Hs. apply restart_reload_ok; [done|by exists sv| |done].
  intros x. split_and!; [done..| |]; rewrite ?throttled_bit, ?listening_bit;
    unfold MASTER_FLAG_MARK, MASTER_FLAG_CONDWAKE; cbn -[Z.testbit Z.land Z.lor Z.shiftl];
    destruct (ent_condwake e); rewrite ?flag_set, ?flag_clear by done; cbn -[Z.testbit Z.land Z.lor Z.shiftl];
    by rewrite ?flag_clear.
Qed.

Lemma mark_ok m : inv m -> inv (mark_services m) /\ child_table (mark_services m) = child_table m.
Proof.
  intros [[[H1 H2 H3 H4 H5] Hc Hlis] Hup]. split; [|done].
  set (f := fun sv => set_flags (Z.lor (flags sv) MASTER_FLAG_MARK) sv).
  assert (Hinv : forall s sv', servs (mark_services m) !! s = Some sv' -> exists sv, servs m !! s = Some sv /\ sv' = f sv).
  { intros s sv'. cbn. rewrite lookup_fmap. intros (sv & Hs & ->)%fmap_Some. by exists sv. }
  assert (Hfwd : forall s sv, servs m !! s = Some sv -> servs (mark_services m) !! s = Some (f sv)).
  { intros s sv Hs. cbn. by rewrite lookup_fmap, Hs. }
  assert (Ht : forall sv, MASTER_THROTTLED (f sv) = MASTER_THROTTLED sv).
  { intros sv. rewrite !throttled_bit. unfold f, MASTER_FLAG_MARK. cbn -[Z.testbit Z.lor Z.shiftl]. by rewrite flag_set. }
  assert (Hl : forall sv, MASTER_LISTENING (f sv) = MASTER_LISTENING sv).
  { intros sv. rewrite !listening_bit. unfold f, MASTER_FLAG_MARK. cbn -[Z.testbit Z.lor Z.shiftl]. by rewrite flag_set. }
  split; [split; [split| |]|].
  - intros pid p Hp. destruct (H1 pid p Hp) as [[x Hx] Ha]. split; [|done]. exists (f x). by apply Hfwd.
  - intros s. change (throttle_timers (mark_services m)) with (throttle_timers m). rewrite H2. split.
    + intros (x & Hx & Hthr). exists (f x). rewrite Ht. split; [by apply Hfwd|done].
    + intros (x & (x0 & Hx0 & ->)%Hinv & Hthr). exists x0. by rewrite Ht in Hthr.
  - intros s [x Hx]%H3. exists (f x). by apply Hfwd.
  - intros fd s. change (reads (mark_services m)) with (reads m). rewrite H4. split.
    + intros (x & Hx & Hfd & Hlx). exists (f x). rewrite Hl. split; [by apply Hfwd|done].
    + intros (x & (x0 & Hx0 & ->)%Hinv & Hfd & Hlx). exists x0. by rewrite Hl in Hlx.
  - intros s1 s2 x1 x2 fd (y1 & Hy1 & ->)%Hinv (y2 & Hy2 & ->)%Hinv. exact (H5 s1 s2 y1 y2 fd Hy1 Hy2).
  - intros s x (x0 & Hx0 & ->)%Hinv. exact (Hc s x0 Hx0).
  - intros s x (x0 & Hx0 & ->)%Hinv _. pose proof (listens_all m s x0 Hlis Hx0) as H.
    unfold listening_right, listen_wanted in *. by rewrite Ht, Hl.
  - intros s x (x0 & Hx0 & ->)%Hinv. by apply (Hup s x0).
Qed.

Lemma remove_marked_ok s batches m :
  inv m -> is_Some (servs m !! s) -> batches_ok (child_table m) batches ->
  exists r, remove_marked s batches m = Ret r /\ forall m', r = Some m' -> inv m'.
Proof.
  intros Hi [sv Hs] Hb. unfold remove_marked, get_serv. rewrite Hs. cbn [mbind outcome_bind].
  case_match; [|exists (Some m); split; [done|by intros m' [= <-]]].
  destruct (stop_service_ok s batches m) as (r & -> & Hr); [done|by exists sv|done|]. cbn [mbind outcome_bind].
  destruct r as [m1|]; [|by exists None]. eexists. split; [done|]. intros m' [= <-].
  destruct Hr as ([H1 H2 H3 H4 H5] & Hc & Hlis & (Hno & Hth & Hrd) & Hwk & Hsame).
  assert (Hd : forall s' x, delete s (servs m1) !! s' = Some x <-> s' <> s /\ servs m1 !! s' = Some x).
  { intros s' x. rewrite lookup_delete_Some. naive_solver. }
  split; [split; [split| |]|]; cbn.
  - intros pid p Hp. destruct (H1 pid p Hp) as [[x Hx] Ha]. split; [|done]. exists x. apply Hd.
    split; [by apply (Hno pid)|done].
  - intros s'. rewrite H2. split; intros (x & Hx & Ht); exists x; (split; [|done]).
    + apply Hd. split; [|done]. intros ->. apply Hth, H2. by exists x.
    + by apply Hd in Hx as [_ ?].
  - intros s' Hs'. destruct (H3 _ Hs') as [x Hx]. exists x. apply Hd. split; [by intros ->|done].
  - intros fd s'. rewrite H4. split; intros (x & Hx & Hin & Hl); exists x; (split; [|done]).
    + apply Hd. split; [|done]. intros ->. apply (Hrd fd), H4. by exists x.
    + by apply Hd in Hx as [_ ?].
  - intros s1 s2 x1 x2 fd [_ Hx1]%Hd [_ Hx2]%Hd. exact (H5 s1 s2 x1 x2 fd Hx1 Hx2).
  - intros s' x [_ Hx]%Hd. exact (Hc s' x Hx).
  - intros s' x [Hn Hx]%Hd _. exact (Hlis s' x Hx Hn).
  - intros s' x [Hn Hx]%Hd. specialize (Hsame s' Hn). rewrite Hx in Hsame.
    destruct (servs m !! s') as [y|] eqn:Hy; [|done].
    cbn -[setup] in Hsame. assert (E : setup x = setup y) by congruence.
    apply setup_inv in E as (_ & _ & _ & ->). by apply (proj2 Hi s').
Qed.

(** ** The process as a whole *)

(** What can happen to the master, with what the operating system returns to the
    handler. *)
Inductive event :=
  | Connection (s : nat) (fork : option Z)
  | StatusUpdate (s : nat) (r : read_result)
  | ChildDeath (reaped : list (Z * wait_status))
  | ThrottleExpiry (s : nat)
  | WakeupTime (s : nat)
  | MarkAll
  | ConfigEntry (s : nat) (e : master_ent) (fds : list Z)
  | RemoveMarked (s : nat) (batches : list (list (Z * wait_status)))
  | Clock (t : Z).

(** The event manager removes a timer before it calls the handler. *)
Definition handle (e : event) (m : master) : outcome (option master) :=
  match e with
  | Connection s fork => m ← master_avail_event s fork m; Ret (Some m)
  | StatusUpdate s r => m ← master_status_event s r m; Ret (Some m)
  | ChildDeath reaped => m ← master_reap_child false reaped m; Ret (Some m)
  | ThrottleExpiry s =>
      m ← master_unthrottle s (set_throttle_timers (throttle_timers m ∖ {[s]}) m); Ret (Some m)
  | WakeupTime s =>
      m ← master_wakeup_timer_event s (set_wakeup_timers (wakeup_timers m ∖ {[s]}) m); Ret (Some m)
  | MarkAll => Ret (Some (mark_services m))
  | ConfigEntry s e fds => m ← config_entry s e fds m; Ret (Some m)
  | RemoveMarked s batches => remove_marked s batches m
  | Clock t => Ret (Some (set_now t m))
  end.

(** The environment: a connection event comes only from a socket that is being
    watched; fork() returns no process id of a child that was not waited for;
    waitpid() reports such children only; the master's own end keeps the status
    pipe from end-of-file, and a child that passes the generation test writes to
    the pipe of its own service; timers fire when they are set. *)
Definition event_ok (m : master) (e : event) : Prop :=
  match e with
  | Connection s fork => (exists fd, reads m !! fd = Some s) /\
      forall n, fork = Some n -> child_table m !! n = None
  | StatusUpdate s r => is_Some (servs m !! s) /\
      match r with
      | ReadEof => False
      | ReadStatus stat => forall p, child_table m !! st_pid stat = Some p -> gen p = st_gen stat -> serv p = s
      | _ => True
      end
  | ChildDeath reaped => reap_ok (child_table m) reaped
  | ThrottleExpiry s => s ∈ throttle_timers m
  | WakeupTime s => s ∈ wakeup_timers m
  | ConfigEntry s _ fds => servs m !! s = None -> fds_fresh fds m
  | RemoveMarked s batches => is_Some (servs m !! s) /\ batches_ok (child_table m) batches
  | MarkAll | Clock _ => True
  end.

Lemma watched_can_spawn s fd m : inv m -> reads m !! fd = Some s -> can_spawn s m.
Proof.
  intros [Hi _] (sv & Hs & _ & Hl)%(lk_reads _ (sd_linked _ Hi)). exists sv. split; [done|].
  pose proof (listens_all m s sv (sd_listens _ Hi) Hs) as H. unfold listening_right in H. congruence.
Qed.

Lemma unthrottle_expired s m :
  linked m -> s ∈ throttle_timers m ->
  is_Some (servs m !! s) /\
  master_unthrottle s (set_throttle_timers (throttle_timers m ∖ {[s]}) m) = master_unthrottle s m.
Proof.
  intros Hl (sv & Hs & Ht)%(lk_throttle _ Hl). split; [by exists sv|].
  unfold master_unthrottle, get_serv. cbn [servs set_throttle_timers]. rewrite Hs. cbn [mbind outcome_bind].
  rewrite Ht. f_equal. unfold upd_serv, set_servs, set_throttle_timers. cbn. f_equal. set_solver.
Qed.

Lemma handle_ok e m : inv m -> event_ok m e ->
  exists r, handle e m = Ret r /\ forall m', r = Some m' -> inv m'.
Proof.
  intros Hi He.
  assert (Hret : forall (o : outcome master) (P : master -> Prop), (exists m', o = Ret m' /\ inv m' /\ P m') ->
    exists r, (m ← o; Ret (Some m)) = Ret r /\ forall m', r = Some m' -> inv m').
  { intros o P (m' & -> & Hi' & _). exists (Some m'). split; [done|]. by intros m'' [= <-]. }
  destruct e as [s fork|s r|reaped|s|s| |s e fds|s batches|t]; cbn [handle]; cbn in He.
  - destruct He as [[fd Hfd] Hf]. eapply Hret, avail_event_ok; [done|by eapply watched_can_spawn|done].
  - destruct He. by eapply Hret, status_event_ok.
  - destruct (reap_child_ok reaped m) as (m' & -> & Hi' & Hf & _); [apply Hi|done|].
    exists (Some m'). split; [done|]. intros m'' [= <-]. split; [done|]. apply (status_of m); [done|apply Hi].
  - pose proof Hi as [[Hl Hc Hlis] Hup]. destruct (unthrottle_expired s m Hl He) as [Hs ->].
    destruct (unthrottle_ok s m) as (m' & -> & Hl' & Hlis' & Hf & _); [done..|].
    exists (Some m'). split; [done|]. intros m'' [= <-].
    split; [by apply (sound_cf m); [apply Hi|..]|by apply (status_cf m)].
  - pose proof (lk_wakeup _ (sd_linked _ (proj1 Hi)) s He) as Hs.
    destruct (wakeup_event_ok s (set_wakeup_timers (wakeup_timers m ∖ {[s]}) m)) as (m' & -> & Hi' & Hs' & _); [|done|].
    { apply sound_wakeup; [|apply Hi]. intros x Hx. apply (lk_wakeup _ (sd_linked _ (proj1 Hi))). set_solver. }
    exists (Some m'). split; [done|]. intros m'' [= <-]. split; [done|].
    intros x svx Hx. rewrite Hs' in Hx. by apply (proj2 Hi x).
  - exists (Some (mark_services m)). split; [done|]. intros m' [= <-]. by apply mark_ok.
  - destruct (servs m !! s) as [sv|] eqn:Hs.
    + eapply Hret, config_update_ok; [done|by exists sv].
    + eapply Hret, config_new_ok; [done|done|by apply He].
  - destruct He. by apply remove_marked_ok.
  - exists (Some (set_now t m)). split; [done|]. intros m' [= <-].
    destruct Hi as [[[H1 H2 H3 H4 H5] Hc Hlis] Hup]. split; [split; [by split|done..]|done].
Qed.

(** Runs of the master from an empty process table and configuration. *)
Definition start : master := mk_master ∅ ∅ 0 ∅ ∅ ∅ 0 [].

Inductive reachable : master -> Prop :=
  | reach_start : reachable start
  | reach_step m e m' : reachable m -> event_ok m e -> handle e m = Ret (Some m') -> reachable m'.

Lemma start_inv : inv start.
Proof.
  split; [split; [split|..]|]; cbn.
  - done.
  - intros s. split; [set_solver|]. by intros (sv & H & _).
  - set_solver.
  - intros fd s. split; [done|]. by intros (sv & H & _).
  - done.
  - by intros s sv Hs.
  - by intros s sv Hs.
  - by intros s sv Hs.
Qed.

Lemma reachable_inv m : reachable m -> inv m.
Proof.
  induction 1 as [|m e m' _ IH He Hr]; [exact start_inv|].
  destruct (handle_ok e m IH He) as (r & Hr' & Hi). rewrite Hr in Hr'. injection Hr' as <-. by apply Hi.
Qed.

(** ** Properties *)


(** C11: In every reachable state, for every service: total_proc counts its child
    processes and avail_proc the idle ones; the master watches its sockets (all of
    them, or none) exactly when the service is not throttled, no child is idle and
    the process limit leaves room; and it is throttled exactly when the timer that
    will end this is pending. *)
Theorem master_bookkeeping m s sv :
  reachable m -> servs m !! s = Some sv ->
  total_proc sv = map_sum (child_of s) (child_table m) /\
  avail_proc sv = map_sum (idle_of s) (child_table m) /\
  (forall fd, fd ∈ listen_fd sv ->
     (reads m !! fd = Some s <->
      MASTER_THROTTLED sv = false /\ avail_proc sv <= 0 /\ MASTER_LIMIT_OK (max_proc sv) (total_proc sv) = true)) /\
  (s ∈ throttle_timers m <-> MASTER_THROTTLED sv = true).
Proof.
  intros [[Hl Hc Hlis] _]%reachable_inv Hs. destruct (Hc _ _ Hs) as [Ht Ha]. split_and!; [done..| |].
  - intros fd Hfd. rewrite <- limit_ok_wanted, (lk_reads _ Hl).
    pose proof (listens_all m s sv Hlis Hs) as H. unfold listening_right in H. rewrite <- H. split.
    + intros (x & Hx & _ & Hlx). congruence.
    + intros Hlx. by exists sv.
  - rewrite (lk_throttle _ Hl). split; [|by exists sv]. intros (x & Hx & Hth). congruence.
Qed.

(** When a connection request arrives and fork() succeeds, exactly one process
    is added to the table, as an idle child of the service that has not served
    anything yet, and the service's number of processes stays within max_proc
    (0 means no limit). *)
Theorem master_spawn_within_limit m s sv n :
  reachable m -> servs m !! s = Some sv -> event_ok m (Connection s (Some n)) ->
  exists m' g, handle (Connection s (Some n)) m = Ret (Some m') /\
    child_table m' = <[n := mk_proc g MASTER_STAT_AVAIL s 0]> (child_table m) /\
    (max_proc sv = 0 \/ map_sum (child_of s) (child_table m') <= max_proc sv).
Proof.
  intros Hi%reachable_inv Hs [[fd Hfd] Hn]. pose proof (watched_can_spawn s fd m Hi Hfd) as Hcan.
  destruct (avail_event_ok s (Some n) m Hi Hcan Hn) as (m' & Hr & _ & Hone & _).
  destruct (Hone n eq_refl) as [g Hg]. exists m', g. split_and!; [by cbn; rewrite Hr|done|].
  destruct Hcan as (sv' & Hs' & Hw). assert (sv' = sv) as -> by congruence.
  apply limit_ok_wanted in Hw as (_ & _ & Hlim). destruct (sd_counted _ (proj1 Hi) _ _ Hs) as [Ht _].
  rewrite Hg, map_sum_insert_new by (by apply Hn). rewrite <- Ht.
  unfold child_of. rewrite bool_decide_true by done. unfold MASTER_LIMIT_OK in Hlim. lia.
Qed.

(** A child that ends abnormally before its first request throttles its
    service: the timer is started and none of the service's sockets is watched any
    more, so that no process is started until the timer goes off. *)
Theorem master_bad_startup m pid st p :
  reachable m -> child_table m !! pid = Some p -> is_stopped st = false -> ended_badly st p = true ->
  exists m', handle (ChildDeath [(pid, st)]) m = Ret (Some m') /\ serv p ∈ throttle_timers m' /\
    child_table m' = delete pid (child_table m) /\ forall fd, reads m' !! fd <> Some (serv p).
Proof.
  intros [Hi Hup]%reachable_inv Hp Hst Hbad.
  destruct (lk_proc _ (sd_linked _ Hi) _ _ Hp) as [Hs _]. cbn [handle].
  rewrite (reap_step _ _ p) by done. rewrite Hst.
  destruct (reap_one_ok pid st p m (master_reap_child false [])) as
    (m' & Hi' & _ & Ht & _ & _ & Hth & ->); [done..|].
  exists m'. split_and!; [done|by apply Hth|done|].
  intros fd (sv & Hsv & _ & Hlis)%(lk_reads _ (sd_linked _ Hi')).
  pose proof (listens_all m' _ sv (sd_listens _ Hi') Hsv) as H. unfold listening_right in H.
  rewrite Hlis in H. symmetry in H. apply limit_ok_wanted in H as (Hf & _).
  destruct (proj1 (lk_throttle _ (sd_linked _ Hi') _) (Hth Hbad)) as (x & Hx & Hxt). congruence.
Qed.

(** Removing a service that disappeared from master.cf: once waitpid() has
    reported the end of all its children, master_stop_service() returns, and then
    no process, no watched socket and no timer refers to the service. *)
Theorem master_remove_service m s sv batches :
  reachable m -> servs m !! s = Some sv -> Z.testbit (flags sv) 1 = true ->
  batches_ok (child_table m) batches ->
  no_children s (foldl reap_table (child_table m) batches) ->
  exists m', handle (RemoveMarked s batches) m = Ret (Some m') /\ servs m' !! s = None /\
    no_children s (child_table m') /\ s ∉ throttle_timers m' /\ s ∉ wakeup_timers m' /\
    forall fd, reads m' !! fd <> Some s.
Proof.
  intros Hi%reachable_inv Hs Hmark Hb Hgone. cbn [handle]. unfold remove_marked, get_serv. rewrite Hs.
  cbn [mbind outcome_bind]. unfold MASTER_FLAG_MARK. rewrite flag_test, Hmark by done.
  destruct (stop_service_ok s batches m) as (r & -> & Hr); [done|by exists sv|done|].
  destruct r as [m1|]; [|done]. destruct Hr as (_ & _ & _ & (Hno & Hth & Hrd) & Hwk & _).
  eexists. split; [done|]. cbn. split_and!; [apply lookup_delete_eq|done..].
Qed.

(** A status message can stop the master only by naming a process of another
    service along with that process's generation number; all other messages,
    unknown process ids, stale generations and unknown codes included, are
    processed or ignored. *)
Theorem master_status_message m s stat :
  reachable m -> is_Some (servs m !! s) ->
  (master_status_event s (ReadStatus stat) m = Panic <->
   exists p, child_table m !! st_pid stat = Some p /\ gen p = st_gen stat /\ serv p <> s) /\
  master_status_event s (ReadStatus stat) m <> Undef.
Proof.
  intros Hi%reachable_inv Hs.
  assert (Hgood : (forall p, child_table m !! st_pid stat = Some p -> gen p = st_gen stat -> serv p = s) ->
    exists m', master_status_event s (ReadStatus stat) m = Ret m').
  { intros H. destruct (status_event_ok s (ReadStatus stat) m Hi Hs H) as (m' & -> & _). by exists m'. }
  destruct (child_table m !! st_pid stat) as [p|] eqn:Hp.
  2:{ destruct Hgood as (m' & ->); [done|]. split; [|done]. split; [done|]. by intros (p & ? & _). }
  destruct (decide (gen p = st_gen stat /\ serv p <> s)) as [[Hg Hn]|Hok].
  - cbn. rewrite Hp, Hg, Z.eqb_refl, (proj2 (Nat.eqb_neq _ _) Hn). cbn. split; [|done].
    split; [|done]. intros _. by exists p.
  - destruct Hgood as (m' & ->).
    + intros p' [= <-] Hg. destruct (decide (serv p = s)); [done|]. by destruct Hok.
    + split; [|done]. split; [done|]. intros (p' & [= <-] & Hg & Hn). by destruct Hok.
Qed.

(** *** A concrete run: the master starts service 1 with at most two processes *)

Definition after (e : event) (m : master) : master :=
  match handle e m with Ret (Some m') => m' | _ => m end.

Lemma reach_after m e :
  reachable m -> event_ok m e -> match handle e m with Ret (Some _) => True | _ => False end ->
  reachable (after e m).
Proof.
  intros Hm He Hr. apply (reach_step m e); [done..|]. unfold after.
  by destruct (handle e m) as [[m'|]| |].
Qed.

Definition smtpd : master_ent := mk_ent false 0 2 true.
Definition run1 : master := after (ConfigEntry 1 smtpd [13]) start.
Definition run2 : master := after (Connection 1 (Some 500)) run1.
Definition run3 : master := after (StatusUpdate 1 (ReadStatus (mk_status 500 1 MASTER_STAT_TAKEN))) run2.
Definition run4 : master := after MarkAll run3.

Lemma run1_reachable : reachable run1.
Proof. apply reach_after; [apply reach_start|by intros _ s sv fd Hs|exact I]. Qed.

Lemma run2_reachable : reachable run2.
Proof.
  apply reach_after; [apply run1_reachable| |exact I].
  split; [exists 13; reflexivity|]. intros n [= <-]. reflexivity.
Qed.

Lemma run3_reachable : reachable run3.
Proof.
  apply reach_after; [apply run2_reachable| |exact I].
  split; [by eexists|]. intros p [= <-]. done.
Qed.

Lemma run4_reachable : reachable run4.
Proof. apply reach_after; [apply run3_reachable|exact I|exact I]. Qed.


Lemma master_bookkeeping_witness : exists sv,
  servs run2 !! 1%nat = Some sv /\ avail_proc sv = map_sum (idle_of 1) (child_table run2).
Proof.
  eexists. split; [reflexivity|].
  exact (proj1 (proj2 (master_bookkeeping run2 1 _ run2_reachable eq_refl))).
Defined.

Lemma master_spawn_within_limit_witness : exists m' g,
  handle (Connection 1 (Some 501)) run3 = Ret (Some m') /\
  child_table m' = <[501 := mk_proc g MASTER_STAT_AVAIL 1 0]> (child_table run3).
Proof.
  destruct (master_spawn_within_limit run3 1 _ 501 run3_reachable eq_refl) as (m' & g & H1 & H2 & _);
    [split; [exists 13; reflexivity|intros n [= <-]; reflexivity]|].
  exists m', g. split; assumption.
Defined.

Lemma master_bad_startup_witness : exists m',
  handle (ChildDeath [(500, Exited 1)]) run2 = Ret (Some m') /\ 1%nat ∈ throttle_timers m'.
Proof.
  destruct (master_bad_startup run2 500 (Exited 1) (mk_proc 1 MASTER_STAT_AVAIL 1 0) run2_reachable) as
    (m' & H1 & H2 & _); [reflexivity..|].
  exists m'. split; assumption.
Defined.

Lemma master_remove_service_witness : exists m',
  handle (RemoveMarked 1 [[(500, Signaled 15)]]) run4 = Ret (Some m') /\ servs m' !! 1%nat = None.
Proof.
  destruct (master_remove_service run4 1 _ [[(500, Signaled 15)]] run4_reachable eq_refl) as (m' & H1 & H2 & _).
  - reflexivity.
  - split; [|exact I]. split; [by eexists|exact I].
  - intros pid p Hp. change ((∅ : gmap Z MASTER_PROC) !! pid = Some p) in Hp.
    rewrite lookup_empty in Hp. discriminate Hp.
  - exists m'. split; assumption.
Defined.

Lemma master_status_message_witness :
  master_status_event 1 (ReadStatus (mk_status 500 7 0)) run2 <> Undef.
Proof.
  apply (master_status_message run2 1 (mk_status 500 7 0) run2_reachable). by eexists.
Defined.
