(* ===== verification/QmgrList.v ===== *)
(** The list macros of qmgr.h (src/src/qmgr): doubly-linked lists through
    pointers stored in the objects themselves.  They are modelled on a store of
    link pairs, and each is proved to implement the list operation that the other
    queue manager files of this development use in its place. *)

From S2P Require Import Prelude.

(** The [next] and [prev] members, in an object's linkage or in a list head. *)
Record links := mk_links { next : option nat; prev : option nat }.

(** The linkage of every object, by object address; a null pointer is [None]. *)
Abbreviation store := (gmap nat links).

(** [o->peers.next = v] and [o->peers.prev = v]; a null or dangling [o] is
    undefined behaviour. *)
Definition set_next (o : option nat) (v : option nat) (h : store) : outcome store :=
  match o with
  | Some x => match h !! x with Some n => Ret (<[x := mk_links v (prev n)]> h) | None => Undef end
  | None => Undef
  end.
Definition set_prev (o : option nat) (v : option nat) (h : store) : outcome store :=
  match o with
  | Some x => match h !! x with Some n => Ret (<[x := mk_links (next n) v]> h) | None => Undef end
  | None => Undef
  end.
Definition get_links (x : nat) (h : store) : outcome links :=
  match h !! x with Some n => Ret n | None => Undef end.

Definition QMGR_LIST_INIT : links := mk_links None None.

Definition QMGR_LIST_ROTATE (head : links) (object : nat) (h : store) : outcome (links * store) :=
  h ← set_prev (next head) (prev head) h;
  h ← set_next (prev head) (next head) h;
  n ← get_links object h;
  let head := mk_links (next n) (prev head) in
  h ← set_prev (next head) None h;
  let head := mk_links (next head) (Some object) in
  h ← set_next (Some object) None h;
  Ret (head, h).

Definition QMGR_LIST_UNLINK (head : links) (object : nat) (h : store) : outcome (links * store) :=
  n ← get_links object h;
  let _next := next n in
  let _prev := prev n in
  '(head, h) ← (match _prev with
               | Some _ => h ← set_next _prev _next h; Ret (head, h)
               | None => Ret (mk_links _next (prev head), h)
               end);
  '(head, h) ← (match _next with
               | Some _ => h ← set_prev _next _prev h; Ret (head, h)
               | None => Ret (mk_links (next head) _prev, h)
               end);
  h ← set_prev (Some object) None h;
  h ← set_next (Some object) None h;
  Ret (head, h).

Definition QMGR_LIST_LINK (head : links) (pred : option nat) (object : nat) (succ : option nat)
    (h : store) : outcome (links * store) :=
  h ← set_prev (Some object) pred h;
  h ← set_next (Some object) succ h;
  '(head, h) ← (match pred with
               | Some _ => h ← set_next pred (Some object) h; Ret (head, h)
               | None => Ret (mk_links (Some object) (prev head), h)
               end);
  match succ with
  | Some _ => h ← set_prev succ (Some object) h; Ret (head, h)
  | None => Ret (mk_links (next head) (Some object), h)
  end.

Definition QMGR_LIST_PREPEND (head : links) (object : nat) (h : store) : outcome (links * store) :=
  h ← set_next (Some object) (next head) h;
  h ← set_prev (Some object) None h;
  '(head, h) ← (match next head with
               | Some _ => h ← set_prev (next head) (Some object) h; Ret (head, h)
               | None => Ret (mk_links (next head) (Some object), h)
               end);
  Ret (mk_links (Some object) (prev head), h).

Definition QMGR_LIST_APPEND (head : links) (object : nat) (h : store) : outcome (links * store) :=
  h ← set_prev (Some object) (prev head) h;
  h ← set_next (Some object) None h;
  '(head, h) ← (match prev head with
               | Some _ => h ← set_next (prev head) (Some object) h; Ret (head, h)
               | None => Ret (mk_links (Some object) (prev head), h)
               end);
  Ret (mk_links (next head) (Some object), h).

(** ** The list that a head and a store represent *)

Definition first (l : list nat) (n : option nat) : option nat :=
  match l with [] => n | x :: _ => Some x end.
Definition final (p : option nat) (l : list nat) : option nat :=
  match last l with None => p | Some x => Some x end.

(** The objects [l] are linked in this order, after [p] and before [n]. *)
Fixpoint segment (h : store) (p : option nat) (l : list nat) (n : option nat) : Prop :=
  match l with
  | [] => True
  | x :: l => h !! x = Some (mk_links (first l n) p) /\ segment h (Some x) l n
  end.

Record represents (head : links) (h : store) (l : list nat) : Prop := {
  rep_nodup : NoDup l;
  rep_next : next head = first l None;
  rep_prev : prev head = final None l;
  rep_segment : segment h None l None
}.

(** The macros touch no object but those of the list and their argument. *)
Definition frame (h h' : store) (touched : list nat) : Prop :=
  forall y, y ∉ touched -> h' !! y = h !! y.

Lemma final_snoc p l x : final p (l ++ [x]) = Some x.
Proof. unfold final. by rewrite last_snoc. Qed.

Lemma final_cons p x l : final p (x :: l) = final (Some x) l.
Proof. unfold final. rewrite last_cons. by destruct (last l). Qed.

Lemma final_app p l1 l2 : final p (l1 ++ l2) = final (final p l1) l2.
Proof. revert p. induction l1 as [|x l1 IH]; intros p; [done|]. cbn [app]. by rewrite !final_cons. Qed.

Lemma first_app l1 l2 n : first (l1 ++ l2) n = first l1 (first l2 n).
Proof. by destruct l1. Qed.

Lemma segment_app h l1 l2 n : forall p,
  segment h p (l1 ++ l2) n <-> segment h p l1 (first l2 n) /\ segment h (final p l1) l2 n.
Proof.
  induction l1 as [|x l1 IH]; intros p; cbn [app segment]; [naive_solver|].
  rewrite first_app, IH, final_cons. naive_solver.
Qed.

Lemma segment_frame h h' l n : forall p,
  (forall y, y ∈ l -> h' !! y = h !! y) -> segment h p l n -> segment h' p l n.
Proof.
  induction l as [|x l IH]; intros p Hf; cbn [segment]; [done|]. intros [Hx Hl].
  rewrite Hf by (by left). split; [done|]. apply IH; [|done]. intros y Hy. apply Hf. by right.
Qed.

Lemma set_next_ok h x v n :
  h !! x = Some n -> set_next (Some x) v h = Ret (<[x := mk_links v (prev n)]> h).
Proof. intros H. cbn. by rewrite H. Qed.

Lemma set_prev_ok h x v n :
  h !! x = Some n -> set_prev (Some x) v h = Ret (<[x := mk_links (next n) v]> h).
Proof. intros H. cbn. by rewrite H. Qed.

(** Redirect what follows a segment. *)
Lemma segment_set_next h p l y n v :
  NoDup (l ++ [y]) -> segment h p (l ++ [y]) n ->
  exists h', set_next (Some y) v h = Ret h' /\ segment h' p (l ++ [y]) v /\ frame h h' [y].
Proof.
  intros Hnd Hs. apply segment_app in Hs as [Hl [Hy _]]. cbn [first] in *.
  rewrite (set_next_ok _ _ _ _ Hy). eexists. split; [done|]. split.
  - apply segment_app. cbn [first segment]. rewrite lookup_insert_eq. split; [|done].
    revert Hl. apply segment_frame. intros z Hz. rewrite lookup_insert_ne; [done|].
    intros ->. apply NoDup_app in Hnd as (_ & Hd & _). apply (Hd z Hz). by left.
  - intros z Hz. rewrite lookup_insert_ne; [done|]. intros ->. apply Hz. by left.
Qed.

(** Redirect what precedes a segment. *)
Lemma segment_set_prev h p y l n v :
  NoDup (y :: l) -> segment h p (y :: l) n ->
  exists h', set_prev (Some y) v h = Ret h' /\ segment h' v (y :: l) n /\ frame h h' [y].
Proof.
  intros Hnd [Hy Hl]. rewrite (set_prev_ok _ _ _ _ Hy). eexists. split; [done|]. split.
  - cbn [segment]. rewrite lookup_insert_eq. split; [done|].
    revert Hl. apply segment_frame. intros z Hz. rewrite lookup_insert_ne; [done|].
    intros ->. by apply NoDup_cons in Hnd as [Hn _].
  - intros z Hz. rewrite lookup_insert_ne; [done|]. intros ->. apply Hz. by left.
Qed.

Lemma frame_trans h1 h2 h3 t1 t2 :
  frame h1 h2 t1 -> frame h2 h3 t2 -> frame h1 h3 (t1 ++ t2).
Proof. intros H1 H2 y Hy. rewrite H2, H1; [done| |]; intros ?; apply Hy, elem_of_app; auto. Qed.

Lemma frame_weaken h h' t1 t2 : t1 ⊆ t2 -> frame h h' t1 -> frame h h' t2.
Proof. intros Hsub H y Hy. apply H. auto. Qed.

(** The neighbours of a position are the ends of the segments around it. *)
Lemma final_cases l : (l = [] /\ final None l = None) \/ exists l0 y, l = l0 ++ [y] /\ final None l = Some y.
Proof.
  destruct l as [|y l0] using rev_ind; [by left|]. right. exists l0, y. by rewrite final_snoc.
Qed.

Lemma first_cases l : (l = [] /\ first l None = None) \/ exists y l0, l = y :: l0 /\ first l None = Some y.
Proof. destruct l as [|y l0]; [by left|]. right. by exists y, l0. Qed.

Lemma nodup_mid (l1 l2 : list nat) x :
  NoDup (l1 ++ x :: l2) <-> x ∉ l1 /\ x ∉ l2 /\ NoDup (l1 ++ l2).
Proof.
  rewrite !NoDup_app, NoDup_cons. setoid_rewrite elem_of_cons. split.
  - intros (H1 & H2 & H3 & H4). split_and!; [|done|done|naive_solver|done]. intros Hx. by apply (H2 x Hx); left.
  - intros (H1 & H2 & H3 & H4 & H5). split_and!; [done| |done|done].
    intros y Hy [->|Hy2]; [done|by apply (H4 y)].
Qed.

Definition fix_pred (head : links) (pred v : option nat) (h : store) : outcome (links * store) :=
  match pred with
  | Some _ => h ← set_next pred v h; Ret (head, h)
  | None => Ret (mk_links v (prev head), h)
  end.
Definition fix_succ (head : links) (succ v : option nat) (h : store) : outcome (links * store) :=
  match succ with
  | Some _ => h ← set_prev succ v h; Ret (head, h)
  | None => Ret (mk_links (next head) v, h)
  end.

(** Make the segment at the front of a list continue with [v]. *)
Lemma fix_pred_ok head h l1 n0 v :
  NoDup l1 -> segment h None l1 n0 -> next head = first l1 n0 ->
  exists head' h', fix_pred head (final None l1) v h = Ret (head', h') /\ segment h' None l1 v /\
    frame h h' l1 /\ next head' = first l1 v /\ prev head' = prev head.
Proof.
  intros Hnd Hs Hn. unfold fix_pred. destruct (final_cases l1) as [[-> ->]|(l0 & y & -> & ->)].
  - by exists (mk_links v (prev head)), h.
  - destruct (segment_set_next h None l0 y n0 v Hnd Hs) as (h' & -> & Hs' & Hf).
    exists head, h'. split_and!; [done|done| | |done].
    + revert Hf. apply frame_weaken. set_solver.
    + rewrite Hn. by destruct l0.
Qed.

(** Make the segment at the end of a list start after [v]. *)
Lemma fix_succ_ok head h l2 p0 v :
  NoDup l2 -> segment h p0 l2 None -> prev head = final p0 l2 ->
  exists head' h', fix_succ head (first l2 None) v h = Ret (head', h') /\ segment h' v l2 None /\
    frame h h' l2 /\ prev head' = final v l2 /\ next head' = next head.
Proof.
  intros Hnd Hs Hp. unfold fix_succ. destruct (first_cases l2) as [[-> ->]|(y & l0 & -> & ->)].
  - by exists (mk_links (next head) v), h.
  - destruct (segment_set_prev h p0 y l0 None v Hnd Hs) as (h' & -> & Hs' & Hf).
    exists head, h'. split_and!; [done|done| | |done].
    + revert Hf. apply frame_weaken. set_solver.
    + by rewrite Hp, !final_cons.
Qed.

Lemma segment_untouched h h' p l n t :
  frame h h' t -> (forall y, y ∈ l -> y ∉ t) -> segment h p l n -> segment h' p l n.
Proof. intros Hf Hd. apply segment_frame. intros y Hy. by apply Hf, Hd. Qed.

Lemma object_untouched h h' x v t : frame h h' t -> x ∉ t -> h !! x = v -> h' !! x = v.
Proof. intros Hf Hx <-. by apply Hf. Qed.

(** Linking a fresh object between the two halves of a list. *)
Lemma links_link_ok head h l1 l2 x :
  represents head h (l1 ++ l2) -> x ∉ l1 ++ l2 -> is_Some (h !! x) ->
  exists head' h', QMGR_LIST_LINK head (final None l1) x (first l2 None) h = Ret (head', h') /\
    represents head' h' (l1 ++ x :: l2) /\ frame h h' (x :: l1 ++ l2).
Proof.
  intros [Hnd Hn Hp Hs] Hx [n Hxn]. apply not_elem_of_app in Hx as [Hx1 Hx2].
  apply segment_app in Hs as [Hs1 Hs2]. apply NoDup_app in Hnd as (Hd1 & Hd & Hd2).
  rewrite first_app in Hn. rewrite final_app in Hp.
  unfold QMGR_LIST_LINK. rewrite (set_prev_ok _ _ _ _ Hxn).
  cbn [mbind outcome_bind]. erewrite set_next_ok by apply lookup_insert_eq. cbn [mbind outcome_bind next prev].
  rewrite insert_insert_eq. set (h1 := <[x := _]> h).
  assert (Hxv : h1 !! x = Some (mk_links (first l2 None) (final None l1))) by apply lookup_insert_eq.
  assert (Hf1 : frame h h1 [x]).
  { intros y Hy. unfold h1. rewrite lookup_insert_ne; [done|]. intros ->. apply Hy. by left. }
  destruct (fix_pred_ok head h1 l1 (first l2 None) (Some x)) as (head2 & h2 & Hr2 & Hs2' & Hf2 & Hn2 & Hp2);
    [done|eapply segment_untouched; [exact Hf1|set_solver|done]|done|].
  unfold fix_pred in Hr2. rewrite Hr2. cbn [mbind outcome_bind].
  destruct (fix_succ_ok head2 h2 l2 (final None l1) (Some x)) as (head3 & h3 & Hr3 & Hs3 & Hf3 & Hp3 & Hn3);
    [done| |by rewrite Hp2|].
  { eapply segment_untouched; [exact Hf2|set_solver|]. eapply segment_untouched; [exact Hf1|set_solver|done]. }
  unfold fix_succ in Hr3. exists head3, h3. split; [exact Hr3|]. split.
  - split.
    + apply nodup_mid. rewrite NoDup_app. done.
    + rewrite Hn3, Hn2. by rewrite first_app.
    + by rewrite Hp3, final_app, final_cons.
    + apply segment_app. cbn [first segment]. split; [eapply segment_untouched; [exact Hf3|set_solver|done]|].
      split; [|done]. eapply object_untouched; [exact Hf3|done|]. by eapply object_untouched; [exact Hf2|done|].
  - apply (frame_trans _ _ _ _ (l1 ++ l2) Hf1), (frame_trans _ _ _ _ _ Hf2 Hf3).
Qed.

(** Removing the object at a position, whose own links become null. *)
Lemma links_unlink_ok head h l1 l2 x :
  represents head h (l1 ++ x :: l2) ->
  exists head' h', QMGR_LIST_UNLINK head x h = Ret (head', h') /\
    represents head' h' (l1 ++ l2) /\ h' !! x = Some QMGR_LIST_INIT /\ frame h h' (x :: l1 ++ l2).
Proof.
  intros [Hnd Hn Hp Hs]. apply nodup_mid in Hnd as (Hx1 & Hx2 & Hnd).
  apply segment_app in Hs as [Hs1 [Hxv Hs2]]. pose proof Hnd as Hnd'. apply NoDup_app in Hnd as (Hd1 & Hd & Hd2).
  rewrite first_app in Hn. rewrite final_app, final_cons in Hp. cbn [first] in *.
  unfold QMGR_LIST_UNLINK, get_links. rewrite Hxv. cbn [mbind outcome_bind next prev].
  destruct (fix_pred_ok head h l1 (Some x) (first l2 None)) as (head2 & h2 & Hr2 & Hs2' & Hf2 & Hn2 & Hp2); [done..|].
  unfold fix_pred in Hr2. rewrite Hr2. cbn [mbind outcome_bind].
  destruct (fix_succ_ok head2 h2 l2 (Some x) (final None l1)) as (head3 & h3 & Hr3 & Hs3 & Hf3 & Hp3 & Hn3);
    [done|eapply segment_untouched; [exact Hf2|set_solver|done]|by rewrite Hp2|].
  unfold fix_succ in Hr3. rewrite Hr3. cbn [mbind outcome_bind].
  assert (Hx3 : h3 !! x = Some (mk_links (first l2 None) (final None l1))).
  { eapply object_untouched; [exact Hf3|done|]. by eapply object_untouched; [exact Hf2|done|]. }
  rewrite (set_prev_ok _ _ _ _ Hx3). cbn [mbind outcome_bind].
  erewrite set_next_ok by apply lookup_insert_eq. cbn [mbind outcome_bind next prev]. rewrite insert_insert_eq.
  set (h4 := <[x := _]> h3). exists head3, h4.
  assert (Hf4 : frame h3 h4 [x]).
  { intros y Hy. unfold h4. rewrite lookup_insert_ne; [done|]. intros ->. apply Hy. by left. }
  split_and!; [done| |apply lookup_insert_eq|].
  - split; [done|by rewrite Hn3, Hn2, first_app|by rewrite Hp3, final_app|].
    apply segment_app. split.
    + eapply segment_untouched; [exact Hf4|set_solver|]. eapply segment_untouched; [exact Hf3|set_solver|done].
    + eapply segment_untouched; [exact Hf4|set_solver|done].
  - apply (frame_weaken _ _ (l1 ++ l2 ++ [x])); [set_solver|].
    apply (frame_trans _ _ _ _ _ Hf2), (frame_trans _ _ _ _ _ Hf3 Hf4).
Qed.

Lemma append_is_link head h x l :
  represents head h l -> x ∉ l -> is_Some (h !! x) ->
  QMGR_LIST_APPEND head x h = QMGR_LIST_LINK head (final None l) x None h.
Proof.
  intros [Hnd Hn Hp Hs] Hx [n Hxn]. unfold QMGR_LIST_APPEND, QMGR_LIST_LINK. rewrite Hp.
  rewrite (set_prev_ok _ _ _ _ Hxn). cbn [mbind outcome_bind].
  erewrite set_next_ok by apply lookup_insert_eq. cbn [mbind outcome_bind].
  destruct (final None l); cbn [mbind outcome_bind]; [|done].
  by destruct (set_next _ _ _).
Qed.

Lemma prepend_is_link head h x l :
  represents head h l -> x ∉ l -> is_Some (h !! x) ->
  exists head' h', QMGR_LIST_PREPEND head x h = Ret (head', h') /\
    QMGR_LIST_LINK head None x (first l None) h = Ret (head', h').
Proof.
  intros Hrep Hx Hsx. destruct (links_link_ok head h [] l x Hrep Hx Hsx) as (head' & h' & Hl & _).
  cbn [final last] in Hl. exists head', h'. split; [|done]. rewrite <- Hl. clear Hl.
  destruct Hrep as [Hnd Hn Hp Hs]. destruct Hsx as [n Hxn].
  unfold QMGR_LIST_PREPEND, QMGR_LIST_LINK. rewrite Hn.
  rewrite (set_next_ok _ _ _ _ Hxn), (set_prev_ok _ _ _ _ Hxn). cbn [mbind outcome_bind].
  erewrite set_next_ok, set_prev_ok by apply lookup_insert_eq. cbn [mbind outcome_bind next prev].
  rewrite !insert_insert_eq. destruct (first l None); cbn [mbind outcome_bind]; [|done].
  by destruct (set_prev _ _ _).
Qed.

Lemma set_prev_first h p l n v y :
  first l None = Some y -> NoDup l -> segment h p l n ->
  exists h', set_prev (Some y) v h = Ret h' /\ segment h' v l n /\ frame h h' l.
Proof.
  intros Hy Hnd Hs. destruct l as [|y' l]; [done|]. injection Hy as ->.
  destruct (segment_set_prev h p y l n v Hnd Hs) as (h' & ? & ? & Hf). exists h'. split_and!; [done..|].
  revert Hf. apply frame_weaken. set_solver.
Qed.

Lemma set_next_final h p l n v y :
  final None l = Some y -> NoDup l -> segment h p l n ->
  exists h', set_next (Some y) v h = Ret h' /\ segment h' p l v /\ frame h h' l.
Proof.
  intros Hy Hnd Hs. destruct (final_cases l) as [[-> E]|(l0 & y' & -> & E)]; [done|].
  rewrite E in Hy. injection Hy as ->.
  destruct (segment_set_next h p l0 y n v Hnd Hs) as (h' & ? & ? & Hf). exists h'. split_and!; [done..|].
  revert Hf. apply frame_weaken. set_solver.
Qed.

Lemma final_some p l : l <> [] -> final p l = final None l.
Proof. intros Hl. destruct l as [|x l]; [done|]. by rewrite !final_cons. Qed.

(** Close a non-empty list into a ring, the first two steps of a rotation. *)
Lemma close_ring head h l :
  represents head h l -> l <> [] ->
  exists h', (h ← set_prev (next head) (prev head) h; set_next (prev head) (next head) h) = Ret h' /\
    segment h' (prev head) l (next head) /\ frame h h' l.
Proof.
  intros [Hnd Hn Hp Hs] Hl.
  destruct (first_cases l) as [[-> _]|(f & l0 & El & Ef)]; [done|].
  destruct (final_cases l) as [[-> _]|(l1 & e & El' & Ee)]; [done|].
  rewrite Hn, Hp, Ef, Ee.
  destruct (set_prev_first h None l None (Some e) f) as (h1 & -> & Hs1 & Hf1); [done..|].
  cbn [mbind outcome_bind].
  destruct (set_next_final h1 (Some e) l None (Some f) e) as (h2 & -> & Hs2 & Hf2); [done..|].
  exists h2. split_and!; [done..|]. intros y Hy. by rewrite Hf2, Hf1.
Qed.

(** Rotating the list so that an object of it comes last. *)
Lemma rotate_ok head h l1 l2 x :
  represents head h (l1 ++ x :: l2) ->
  exists head' h', QMGR_LIST_ROTATE head x h = Ret (head', h') /\
    represents head' h' (l2 ++ l1 ++ [x]) /\ frame h h' (l1 ++ x :: l2).
Proof.
  intros Hrep. destruct (close_ring head h (l1 ++ x :: l2) Hrep) as (h2 & Hr & Hs2 & Hf2); [by destruct l1|].
  pose proof Hrep as [Hnd Hn Hp _]. assert (Hsplit : l1 ++ x :: l2 = (l1 ++ [x]) ++ l2) by (by rewrite <- app_assoc).
  rewrite Hsplit in *. apply NoDup_app in Hnd as (Hnd1 & Hd & Hnd2). apply segment_app in Hs2 as [Hsa Hsb].
  rewrite final_snoc in Hsb. rewrite first_app in Hn. rewrite final_app, final_snoc in Hp.
  assert (Hxv : exists n, h2 !! x = Some n /\ next n = first l2 (next head)).
  { apply segment_app in Hsa as [_ [Hx _]]. eexists. split; [exact Hx|done]. }
  destruct Hxv as (n & Hxv & Hnx).
  assert (Hnd' : NoDup (l2 ++ l1 ++ [x])).
  { apply NoDup_app. split_and!; [done| |done]. intros y Hy Hy'. by apply (Hd y). }
  assert (Hrun : QMGR_LIST_ROTATE head x h =
    (h3 ← set_prev (first l2 (next head)) None h2;
     h4 ← set_next (Some x) None h3; Ret (mk_links (first l2 (next head)) (Some x), h4))).
  { unfold QMGR_LIST_ROTATE. destruct (set_prev (next head) (prev head) h) as [h1| |]; cbn in Hr |- *; [|done..].
    rewrite Hr. cbn [mbind outcome_bind]. unfold get_links. rewrite Hxv. cbn [mbind outcome_bind next prev].
    by rewrite Hnx. }
  rewrite Hrun. clear Hrun Hr Hxv Hnx n.
  destruct (first_cases l2) as [[-> _]|(z & l20 & El2 & Ez)].
  - cbn [first app] in *. rewrite Hn in *. destruct (first_cases (l1 ++ [x])) as [[E _]|(f & l0 & El & Ef)].
    { by destruct l1. }
    rewrite Ef in *.
    destruct (set_prev_first h2 (prev head) (l1 ++ [x]) (Some f) None f) as (h3 & -> & Hs3 & Hf3); [done..|].
    cbn [mbind outcome_bind].
    destruct (set_next_final h3 None (l1 ++ [x]) (Some f) None x) as (h4 & -> & Hs4 & Hf4); [apply final_snoc|done..|].
    cbn [mbind outcome_bind]. eexists _, h4. split; [done|]. split.
    + split; [done|by cbn; rewrite Ef|by cbn; rewrite final_snoc|done].
    + rewrite app_nil_r in *. intros y Hy. by rewrite Hf4, Hf3, Hf2.
  - assert (Efz : forall n, first l2 n = Some z) by (by subst l2). rewrite !Efz in *.
    destruct (set_prev_first h2 (Some x) l2 (next head) None z) as (h3 & -> & Hs3 & Hf3); [done..|].
    cbn [mbind outcome_bind].
    assert (Hsa3 : segment h3 (prev head) (l1 ++ [x]) (Some z)).
    { eapply segment_untouched; [exact Hf3| |done]. intros y Hy Hy2. by apply (Hd y). }
    destruct (set_next_final h3 (prev head) (l1 ++ [x]) (Some z) None x) as (h4 & -> & Hs4 & Hf4); [apply final_snoc|done..|].
    cbn [mbind outcome_bind]. eexists _, h4. split; [done|]. split.
    + split; [done|cbn; by rewrite first_app, Efz|cbn; by rewrite (app_assoc l2), final_snoc|].
      apply segment_app. split.
      * eapply segment_untouched; [exact Hf4|intros y Hy Hy2; by apply (Hd y)|].
        replace (first (l1 ++ [x]) None) with (next head) by (rewrite Hn; by destruct l1). done.
      * rewrite <- (final_some (Some x) l2), <- Hp by (by subst l2). done.
    + intros y Hy. apply not_elem_of_app in Hy as [Hy1 Hy2]. rewrite Hf4, Hf3, Hf2; [done|set_solver..].
Qed.

(** ** Properties *)

(** C38: The list macros of the queue manager are correct: on a list in memory,
    LINK puts an object between two neighbours, APPEND and PREPEND put it at the
    ends, UNLINK takes it out and clears its links, and ROTATE turns the list so
    that the object comes last and its successors first.  Each leaves a
    well-formed list in both directions and touches no other object. *)
Theorem qmgr_list_macros head h l1 x l2 :
  (represents head h (l1 ++ l2) -> x ∉ l1 ++ l2 -> is_Some (h !! x) ->
     (exists head' h', QMGR_LIST_LINK head (final None l1) x (first l2 None) h = Ret (head', h') /\
        represents head' h' (l1 ++ x :: l2) /\ frame h h' (x :: l1 ++ l2)) /\
     (exists head' h', QMGR_LIST_APPEND head x h = Ret (head', h') /\
        represents head' h' ((l1 ++ l2) ++ [x]) /\ frame h h' (x :: l1 ++ l2)) /\
     (exists head' h', QMGR_LIST_PREPEND head x h = Ret (head', h') /\
        represents head' h' (x :: l1 ++ l2) /\ frame h h' (x :: l1 ++ l2))) /\
  (represents head h (l1 ++ x :: l2) ->
     (exists head' h', QMGR_LIST_UNLINK head x h = Ret (head', h') /\
        represents head' h' (l1 ++ l2) /\ h' !! x = Some QMGR_LIST_INIT /\ frame h h' (x :: l1 ++ l2)) /\
     (exists head' h', QMGR_LIST_ROTATE head x h = Ret (head', h') /\
        represents head' h' (l2 ++ l1 ++ [x]) /\ frame h h' (l1 ++ x :: l2))).
Proof.
  split; [intros Hr Hx Hs; split_and!|intros Hr; split].
  - by apply links_link_ok.
  - rewrite (append_is_link _ _ _ (l1 ++ l2)) by done.
    destruct (links_link_ok head h (l1 ++ l2) [] x) as (head' & h' & H); rewrite ?app_nil_r in *; [done..|].
    by exists head', h'.
  - destruct (prepend_is_link head h x (l1 ++ l2)) as (head' & h' & -> & Hl); [done..|].
    destruct (links_link_ok head h [] (l1 ++ l2) x) as (head2 & h2 & Hl2 & H); [done..|].
    cbn [final last] in Hl2. rewrite Hl in Hl2. injection Hl2 as <- <-. by exists head', h'.
  - by apply links_unlink_ok.
  - by apply rotate_ok.
Qed.

(** Objects 1, 2 and 3 in a list, and an object 4 that is not in it. *)
Definition three : links * store :=
  (mk_links (Some 1%nat) (Some 3%nat),
   {[1%nat := mk_links (Some 2%nat) None; 2%nat := mk_links (Some 3%nat) (Some 1%nat);
     3%nat := mk_links None (Some 2%nat); 4%nat := QMGR_LIST_INIT]}).

Lemma three_represents : represents three.1 three.2 [1%nat; 2%nat; 3%nat].
Proof. split; [apply (bool_decide_unpack _); reflexivity|done|done|by split_and!]. Qed.

Lemma qmgr_list_macros_witness :
  (exists head' h', QMGR_LIST_ROTATE three.1 1 three.2 = Ret (head', h') /\
     represents head' h' [2%nat; 3%nat; 1%nat]) /\
  (exists head' h', QMGR_LIST_LINK three.1 (Some 1%nat) 4 (Some 2%nat) three.2 = Ret (head', h') /\
     represents head' h' [1%nat; 4%nat; 2%nat; 3%nat]).
Proof.
  split.
  - destruct (proj2 (proj2 (qmgr_list_macros three.1 three.2 [] 1 [2%nat; 3%nat]) three_represents)) as
      (head' & h' & H1 & H2 & _). exists head', h'. split; assumption.
  - destruct (proj1 (proj1 (qmgr_list_macros three.1 three.2 [1%nat] 4 [2%nat; 3%nat]) three_represents
      ltac:(apply (bool_decide_unpack _); reflexivity) ltac:(by eexists))) as (head' & h' & H1 & H2 & _).
    exists head', h'. split; assumption.
Defined.
