(* ===== verification/QmgrState.v ===== *)
(** The data of the queue manager (qmgr.h, src/src/qmgr), its state, and the
    state-and-error monad in which its routines are written.

    Objects live in finite maps by address.  The linked lists that thread through
    the objects are lists of addresses: QmgrList.v proves that the pointer macros
    implement the list operations used here. *)

From Stdlib Require Export SpecFloat.
From S2P Require Export Prelude.

(** ** Data *)

(** The feedback parameters of a transport; doubles are IEEE binary64. *)
Record QMGR_FEEDBACK := mk_qmgr_feedback {
  f_hysteresis : Z;
  f_base : spec_float;
  f_index : Z
}.

(** A message transport.  A linked list is the list of its objects (QmgrList.v), a
    hash table a finite map; a null pointer is [None]. *)
Record QMGR_TRANSPORT := mk_qmgr_transport {
  t_flags : Z;
  t_pending : Z;
  t_dest_concurrency_limit : Z;
  t_init_dest_concurrency : Z;
  t_rcpt_per_stack : Z;
  t_rcpt_unused : Z;
  t_refill_limit : Z;
  t_refill_delay : Z;
  t_slot_cost : Z;
  t_slot_loan : Z;
  t_slot_loan_factor : Z;
  t_min_slots : Z;
  t_queue_byname : gmap bytes nat;
  t_queue_list : list nat;
  t_job_byname : gmap bytes nat;
  t_job_list : list nat;
  t_job_bytime : list nat;
  t_job_current : option nat;
  t_job_next_unread : option nat;
  t_candidate_cache : option nat;
  t_candidate_cache_current : option nat;
  t_candidate_cache_time : Z;
  t_blocker_tag : Z;
  t_dsn : option bytes;
  t_pos_feedback : QMGR_FEEDBACK;
  t_neg_feedback : QMGR_FEEDBACK;
  t_fail_cohort_limit : Z;
  t_xport_rate_delay : Z;
  t_rate_delay : Z
}.

(** The queue of one destination. *)
Record QMGR_QUEUE := mk_qmgr_queue {
  q_dflags : Z;
  q_last_done : Z;
  q_name : bytes;
  q_todo_refcount : Z;
  q_busy_refcount : Z;
  q_window : Z;
  q_success : spec_float;
  q_failure : spec_float;
  q_fail_cohorts : spec_float;
  q_transport : nat;
  q_todo : list nat;
  q_busy : list nat;
  q_dsn : option bytes;
  q_blocker_tag : Z
}.

(** A delivery request: some recipients of one message at one destination.
    [e_stream] is [stream != 0]; recipients are numbers. *)
Record QMGR_ENTRY := mk_qmgr_entry {
  e_stream : bool;
  e_message : nat;
  e_rcpt_list : list Z;
  e_queue : nat;
  e_peer : nat
}.

(** A message, as far as scheduling is concerned. *)
Record QMGR_MESSAGE := mk_qmgr_message {
  m_queue_id : bytes;
  m_refcount : Z;
  m_queued_time : Z;
  m_refill_time : Z;
  m_rcpt_offset : Z;
  m_rcpt_count : Z;
  m_rcpt_limit : Z;
  m_rcpt_unread : Z;
  m_job_list : list nat
}.

(** The part of a message that goes through one transport. *)
Record QMGR_JOB := mk_qmgr_job {
  j_message : nat;
  j_transport : nat;
  j_stack_parent : option nat;
  j_stack_children : list nat;
  j_stack_level : Z;
  j_blocker_tag : Z;
  j_peer_byname : gmap bytes nat;
  j_peer_list : list nat;
  j_slots_used : Z;
  j_slots_available : Z;
  j_selected_entries : Z;
  j_read_entries : Z;
  j_rcpt_count : Z;
  j_rcpt_limit : Z
}.

(** The part of a job that goes to one queue. *)
Record QMGR_PEER := mk_qmgr_peer {
  p_job : nat;
  p_queue : nat;
  p_refcount : Z;
  p_entry_list : list nat
}.

(** The state of the queue manager: the objects by address, the transports in
    round-robin order, the next address to allocate, the time, the global
    counters, and the pending timers of qmgr_queue_resume(),
    qmgr_queue_unthrottle_wrapper() and qmgr_transport_unthrottle_wrapper(). *)
Record qmgr := mk_qmgr {
  transports : gmap nat QMGR_TRANSPORT;
  queues : gmap nat QMGR_QUEUE;
  entries : gmap nat QMGR_ENTRY;
  messages : gmap nat QMGR_MESSAGE;
  jobs : gmap nat QMGR_JOB;
  peers : gmap nat QMGR_PEER;
  transport_list : list nat;
  next_addr : nat;
  sane_time : Z;
  qmgr_recipient_count : Z;
  qmgr_queue_count : Z;
  var_qmgr_rcpt_limit : Z;
  resume_timers : gset nat;
  queue_timers : gset nat;
  transport_timers : gset nat
}.

(** ** Field updates *)

Definition set_t_flags (x : Z) (r : QMGR_TRANSPORT) : QMGR_TRANSPORT :=
  mk_qmgr_transport x (t_pending r) (t_dest_concurrency_limit r) (t_init_dest_concurrency r)
    (t_rcpt_per_stack r) (t_rcpt_unused r) (t_refill_limit r) (t_refill_delay r) (t_slot_cost r)
    (t_slot_loan r) (t_slot_loan_factor r) (t_min_slots r) (t_queue_byname r) (t_queue_list r)
    (t_job_byname r) (t_job_list r) (t_job_bytime r) (t_job_current r) (t_job_next_unread r)
    (t_candidate_cache r) (t_candidate_cache_current r) (t_candidate_cache_time r)
    (t_blocker_tag r) (t_dsn r) (t_pos_feedback r) (t_neg_feedback r) (t_fail_cohort_limit r)
    (t_xport_rate_delay r) (t_rate_delay r).
Definition set_t_pending (x : Z) (r : QMGR_TRANSPORT) : QMGR_TRANSPORT :=
  mk_qmgr_transport (t_flags r) x (t_dest_concurrency_limit r) (t_init_dest_concurrency r)
    (t_rcpt_per_stack r) (t_rcpt_unused r) (t_refill_limit r) (t_refill_delay r) (t_slot_cost r)
    (t_slot_loan r) (t_slot_loan_factor r) (t_min_slots r) (t_queue_byname r) (t_queue_list r)
    (t_job_byname r) (t_job_list r) (t_job_bytime r) (t_job_current r) (t_job_next_unread r)
    (t_candidate_cache r) (t_candidate_cache_current r) (t_candidate_cache_time r)
    (t_blocker_tag r) (t_dsn r) (t_pos_feedback r) (t_neg_feedback r) (t_fail_cohort_limit r)
    (t_xport_rate_delay r) (t_rate_delay r).
Definition set_t_dest_concurrency_limit (x : Z) (r : QMGR_TRANSPORT) : QMGR_TRANSPORT :=
  mk_qmgr_transport (t_flags r) (t_pending r) x (t_init_dest_concurrency r) (t_rcpt_per_stack r)
    (t_rcpt_unused r) (t_refill_limit r) (t_refill_delay r) (t_slot_cost r) (t_slot_loan r)
    (t_slot_loan_factor r) (t_min_slots r) (t_queue_byname r) (t_queue_list r) (t_job_byname r)
    (t_job_list r) (t_job_bytime r) (t_job_current r) (t_job_next_unread r)
    (t_candidate_cache r) (t_candidate_cache_current r) (t_candidate_cache_time r)
    (t_blocker_tag r) (t_dsn r) (t_pos_feedback r) (t_neg_feedback r) (t_fail_cohort_limit r)
    (t_xport_rate_delay r) (t_rate_delay r).
Definition set_t_init_dest_concurrency (x : Z) (r : QMGR_TRANSPORT) : QMGR_TRANSPORT :=
  mk_qmgr_transport (t_flags r) (t_pending r) (t_dest_concurrency_limit r) x
    (t_rcpt_per_stack r) (t_rcpt_unused r) (t_refill_limit r) (t_refill_delay r) (t_slot_cost r)
    (t_slot_loan r) (t_slot_loan_factor r) (t_min_slots r) (t_queue_byname r) (t_queue_list r)
    (t_job_byname r) (t_job_list r) (t_job_bytime r) (t_job_current r) (t_job_next_unread r)
    (t_candidate_cache r) (t_candidate_cache_current r) (t_candidate_cache_time r)
    (t_blocker_tag r) (t_dsn r) (t_pos_feedback r) (t_neg_feedback r) (t_fail_cohort_limit r)
    (t_xport_rate_delay r) (t_rate_delay r).
Definition set_t_rcpt_per_stack (x : Z) (r : QMGR_TRANSPORT) : QMGR_TRANSPORT :=
  mk_qmgr_transport (t_flags r) (t_pending r) (t_dest_concurrency_limit r)
    (t_init_dest_concurrency r) x (t_rcpt_unused r) (t_refill_limit r) (t_refill_delay r)
    (t_slot_cost r) (t_slot_loan r) (t_slot_loan_factor r) (t_min_slots r) (t_queue_byname r)
    (t_queue_list r) (t_job_byname r) (t_job_list r) (t_job_bytime r) (t_job_current r)
    (t_job_next_unread r) (t_candidate_cache r) (t_candidate_cache_current r)
    (t_candidate_cache_time r) (t_blocker_tag r) (t_dsn r) (t_pos_feedback r) (t_neg_feedback r)
    (t_fail_cohort_limit r) (t_xport_rate_delay r) (t_rate_delay r).
Definition set_t_rcpt_unused (x : Z) (r : QMGR_TRANSPORT) : QMGR_TRANSPORT :=
  mk_qmgr_transport (t_flags r) (t_pending r) (t_dest_concurrency_limit r)
    (t_init_dest_concurrency r) (t_rcpt_per_stack r) x (t_refill_limit r) (t_refill_delay r)
    (t_slot_cost r) (t_slot_loan r) (t_slot_loan_factor r) (t_min_slots r) (t_queue_byname r)
    (t_queue_list r) (t_job_byname r) (t_job_list r) (t_job_bytime r) (t_job_current r)
    (t_job_next_unread r) (t_candidate_cache r) (t_candidate_cache_current r)
    (t_candidate_cache_time r) (t_blocker_tag r) (t_dsn r) (t_pos_feedback r) (t_neg_feedback r)
    (t_fail_cohort_limit r) (t_xport_rate_delay r) (t_rate_delay r).
Definition set_t_refill_limit (x : Z) (r : QMGR_TRANSPORT) : QMGR_TRANSPORT :=
  mk_qmgr_transport (t_flags r) (t_pending r) (t_dest_concurrency_limit r)
    (t_init_dest_concurrency r) (t_rcpt_per_stack r) (t_rcpt_unused r) x (t_refill_delay r)
    (t_slot_cost r) (t_slot_loan r) (t_slot_loan_factor r) (t_min_slots r) (t_queue_byname r)
    (t_queue_list r) (t_job_byname r) (t_job_list r) (t_job_bytime r) (t_job_current r)
    (t_job_next_unread r) (t_candidate_cache r) (t_candidate_cache_current r)
    (t_candidate_cache_time r) (t_blocker_tag r) (t_dsn r) (t_pos_feedback r) (t_neg_feedback r)
    (t_fail_cohort_limit r) (t_xport_rate_delay r) (t_rate_delay r).
Definition set_t_refill_delay (x : Z) (r : QMGR_TRANSPORT) : QMGR_TRANSPORT :=
  mk_qmgr_transport (t_flags r) (t_pending r) (t_dest_concurrency_limit r)
    (t_init_dest_concurrency r) (t_rcpt_per_stack r) (t_rcpt_unused r) (t_refill_limit r) x
    (t_slot_cost r) (t_slot_loan r) (t_slot_loan_factor r) (t_min_slots r) (t_queue_byname r)
    (t_queue_list r) (t_job_byname r) (t_job_list r) (t_job_bytime r) (t_job_current r)
    (t_job_next_unread r) (t_candidate_cache r) (t_candidate_cache_current r)
    (t_candidate_cache_time r) (t_blocker_tag r) (t_dsn r) (t_pos_feedback r) (t_neg_feedback r)
    (t_fail_cohort_limit r) (t_xport_rate_delay r) (t_rate_delay r).
Definition set_t_slot_cost (x : Z) (r : QMGR_TRANSPORT) : QMGR_TRANSPORT :=
  mk_qmgr_transport (t_flags r) (t_pending r) (t_dest_concurrency_limit r)
    (t_init_dest_concurrency r) (t_rcpt_per_stack r) (t_rcpt_unused r) (t_refill_limit r)
    (t_refill_delay r) x (t_slot_loan r) (t_slot_loan_factor r) (t_min_slots r)
    (t_queue_byname r) (t_queue_list r) (t_job_byname r) (t_job_list r) (t_job_bytime r)
    (t_job_current r) (t_job_next_unread r) (t_candidate_cache r) (t_candidate_cache_current r)
    (t_candidate_cache_time r) (t_blocker_tag r) (t_dsn r) (t_pos_feedback r) (t_neg_feedback r)
    (t_fail_cohort_limit r) (t_xport_rate_delay r) (t_rate_delay r).
Definition set_t_slot_loan (x : Z) (r : QMGR_TRANSPORT) : QMGR_TRANSPORT :=
  mk_qmgr_transport (t_flags r) (t_pending r) (t_dest_concurrency_limit r)
    (t_init_dest_concurrency r) (t_rcpt_per_stack r) (t_rcpt_unused r) (t_refill_limit r)
    (t_refill_delay r) (t_slot_cost r) x (t_slot_loan_factor r) (t_min_slots r)
    (t_queue_byname r) (t_queue_list r) (t_job_byname r) (t_job_list r) (t_job_bytime r)
    (t_job_current r) (t_job_next_unread r) (t_candidate_cache r) (t_candidate_cache_current r)
    (t_candidate_cache_time r) (t_blocker_tag r) (t_dsn r) (t_pos_feedback r) (t_neg_feedback r)
    (t_fail_cohort_limit r) (t_xport_rate_delay r) (t_rate_delay r).
Definition set_t_slot_loan_factor (x : Z) (r : QMGR_TRANSPORT) : QMGR_TRANSPORT :=
  mk_qmgr_transport (t_flags r) (t_pending r) (t_dest_concurrency_limit r)
    (t_init_dest_concurrency r) (t_rcpt_per_stack r) (t_rcpt_unused r) (t_refill_limit r)
    (t_refill_delay r) (t_slot_cost r) (t_slot_loan r) x (t_min_slots r) (t_queue_byname r)
    (t_queue_list r) (t_job_byname r) (t_job_list r) (t_job_bytime r) (t_job_current r)
    (t_job_next_unread r) (t_candidate_cache r) (t_candidate_cache_current r)
    (t_candidate_cache_time r) (t_blocker_tag r) (t_dsn r) (t_pos_feedback r) (t_neg_feedback r)
    (t_fail_cohort_limit r) (t_xport_rate_delay r) (t_rate_delay r).
Definition set_t_min_slots (x : Z) (r : QMGR_TRANSPORT) : QMGR_TRANSPORT :=
  mk_qmgr_transport (t_flags r) (t_pending r) (t_dest_concurrency_limit r)
    (t_init_dest_concurrency r) (t_rcpt_per_stack r) (t_rcpt_unused r) (t_refill_limit r)
    (t_refill_delay r) (t_slot_cost r) (t_slot_loan r) (t_slot_loan_factor r) x
    (t_queue_byname r) (t_queue_list r) (t_job_byname r) (t_job_list r) (t_job_bytime r)
    (t_job_current r) (t_job_next_unread r) (t_candidate_cache r) (t_candidate_cache_current r)
    (t_candidate_cache_time r) (t_blocker_tag r) (t_dsn r) (t_pos_feedback r) (t_neg_feedback r)
    (t_fail_cohort_limit r) (t_xport_rate_delay r) (t_rate_delay r).
Definition set_t_queue_byname (x : gmap bytes nat) (r : QMGR_TRANSPORT) : QMGR_TRANSPORT :=
  mk_qmgr_transport (t_flags r) (t_pending r) (t_dest_concurrency_limit r)
    (t_init_dest_concurrency r) (t_rcpt_per_stack r) (t_rcpt_unused r) (t_refill_limit r)
    (t_refill_delay r) (t_slot_cost r) (t_slot_loan r) (t_slot_loan_factor r) (t_min_slots r) x
    (t_queue_list r) (t_job_byname r) (t_job_list r) (t_job_bytime r) (t_job_current r)
    (t_job_next_unread r) (t_candidate_cache r) (t_candidate_cache_current r)
    (t_candidate_cache_time r) (t_blocker_tag r) (t_dsn r) (t_pos_feedback r) (t_neg_feedback r)
    (t_fail_cohort_limit r) (t_xport_rate_delay r) (t_rate_delay r).
Definition set_t_queue_list (x : list nat) (r : QMGR_TRANSPORT) : QMGR_TRANSPORT :=
  mk_qmgr_transport (t_flags r) (t_pending r) (t_dest_concurrency_limit r)
    (t_init_dest_concurrency r) (t_rcpt_per_stack r) (t_rcpt_unused r) (t_refill_limit r)
    (t_refill_delay r) (t_slot_cost r) (t_slot_loan r) (t_slot_loan_factor r) (t_min_slots r)
    (t_queue_byname r) x (t_job_byname r) (t_job_list r) (t_job_bytime r) (t_job_current r)
    (t_job_next_unread r) (t_candidate_cache r) (t_candidate_cache_current r)
    (t_candidate_cache_time r) (t_blocker_tag r) (t_dsn r) (t_pos_feedback r) (t_neg_feedback r)
    (t_fail_cohort_limit r) (t_xport_rate_delay r) (t_rate_delay r).
Definition set_t_job_byname (x : gmap bytes nat) (r : QMGR_TRANSPORT) : QMGR_TRANSPORT :=
  mk_qmgr_transport (t_flags r) (t_pending r) (t_dest_concurrency_limit r)
    (t_init_dest_concurrency r) (t_rcpt_per_stack r) (t_rcpt_unused r) (t_refill_limit r)
    (t_refill_delay r) (t_slot_cost r) (t_slot_loan r) (t_slot_loan_factor r) (t_min_slots r)
    (t_queue_byname r) (t_queue_list r) x (t_job_list r) (t_job_bytime r) (t_job_current r)
    (t_job_next_unread r) (t_candidate_cache r) (t_candidate_cache_current r)
    (t_candidate_cache_time r) (t_blocker_tag r) (t_dsn r) (t_pos_feedback r) (t_neg_feedback r)
    (t_fail_cohort_limit r) (t_xport_rate_delay r) (t_rate_delay r).
Definition set_t_job_list (x : list nat) (r : QMGR_TRANSPORT) : QMGR_TRANSPORT :=
  mk_qmgr_transport (t_flags r) (t_pending r) (t_dest_concurrency_limit r)
    (t_init_dest_concurrency r) (t_rcpt_per_stack r) (t_rcpt_unused r) (t_refill_limit r)
    (t_refill_delay r) (t_slot_cost r) (t_slot_loan r) (t_slot_loan_factor r) (t_min_slots r)
    (t_queue_byname r) (t_queue_list r) (t_job_byname r) x (t_job_bytime r) (t_job_current r)
    (t_job_next_unread r) (t_candidate_cache r) (t_candidate_cache_current r)
    (t_candidate_cache_time r) (t_blocker_tag r) (t_dsn r) (t_pos_feedback r) (t_neg_feedback r)
    (t_fail_cohort_limit r) (t_xport_rate_delay r) (t_rate_delay r).
Definition set_t_job_bytime (x : list nat) (r : QMGR_TRANSPORT) : QMGR_TRANSPORT :=
  mk_qmgr_transport (t_flags r) (t_pending r) (t_dest_concurrency_limit r)
    (t_init_dest_concurrency r) (t_rcpt_per_stack r) (t_rcpt_unused r) (t_refill_limit r)
    (t_refill_delay r) (t_slot_cost r) (t_slot_loan r) (t_slot_loan_factor r) (t_min_slots r)
    (t_queue_byname r) (t_queue_list r) (t_job_byname r) (t_job_list r) x (t_job_current r)
    (t_job_next_unread r) (t_candidate_cache r) (t_candidate_cache_current r)
    (t_candidate_cache_time r) (t_blocker_tag r) (t_dsn r) (t_pos_feedback r) (t_neg_feedback r)
    (t_fail_cohort_limit r) (t_xport_rate_delay r) (t_rate_delay r).
Definition set_t_job_current (x : option nat) (r : QMGR_TRANSPORT) : QMGR_TRANSPORT :=
  mk_qmgr_transport (t_flags r) (t_pending r) (t_dest_concurrency_limit r)
    (t_init_dest_concurrency r) (t_rcpt_per_stack r) (t_rcpt_unused r) (t_refill_limit r)
    (t_refill_delay r) (t_slot_cost r) (t_slot_loan r) (t_slot_loan_factor r) (t_min_slots r)
    (t_queue_byname r) (t_queue_list r) (t_job_byname r) (t_job_list r) (t_job_bytime r) x
    (t_job_next_unread r) (t_candidate_cache r) (t_candidate_cache_current r)
    (t_candidate_cache_time r) (t_blocker_tag r) (t_dsn r) (t_pos_feedback r) (t_neg_feedback r)
    (t_fail_cohort_limit r) (t_xport_rate_delay r) (t_rate_delay r).
Definition set_t_job_next_unread (x : option nat) (r : QMGR_TRANSPORT) : QMGR_TRANSPORT :=
  mk_qmgr_transport (t_flags r) (t_pending r) (t_dest_concurrency_limit r)
    (t_init_dest_concurrency r) (t_rcpt_per_stack r) (t_rcpt_unused r) (t_refill_limit r)
    (t_refill_delay r) (t_slot_cost r) (t_slot_loan r) (t_slot_loan_factor r) (t_min_slots r)
    (t_queue_byname r) (t_queue_list r) (t_job_byname r) (t_job_list r) (t_job_bytime r)
    (t_job_current r) x (t_candidate_cache r) (t_candidate_cache_current r)
    (t_candidate_cache_time r) (t_blocker_tag r) (t_dsn r) (t_pos_feedback r) (t_neg_feedback r)
    (t_fail_cohort_limit r) (t_xport_rate_delay r) (t_rate_delay r).
Definition set_t_candidate_cache (x : option nat) (r : QMGR_TRANSPORT) : QMGR_TRANSPORT :=
  mk_qmgr_transport (t_flags r) (t_pending r) (t_dest_concurrency_limit r)
    (t_init_dest_concurrency r) (t_rcpt_per_stack r) (t_rcpt_unused r) (t_refill_limit r)
    (t_refill_delay r) (t_slot_cost r) (t_slot_loan r) (t_slot_loan_factor r) (t_min_slots r)
    (t_queue_byname r) (t_queue_list r) (t_job_byname r) (t_job_list r) (t_job_bytime r)
    (t_job_current r) (t_job_next_unread r) x (t_candidate_cache_current r)
    (t_candidate_cache_time r) (t_blocker_tag r) (t_dsn r) (t_pos_feedback r) (t_neg_feedback r)
    (t_fail_cohort_limit r) (t_xport_rate_delay r) (t_rate_delay r).
Definition set_t_candidate_cache_current (x : option nat) (r : QMGR_TRANSPORT) : QMGR_TRANSPORT :=
  mk_qmgr_transport (t_flags r) (t_pending r) (t_dest_concurrency_limit r)
    (t_init_dest_concurrency r) (t_rcpt_per_stack r) (t_rcpt_unused r) (t_refill_limit r)
    (t_refill_delay r) (t_slot_cost r) (t_slot_loan r) (t_slot_loan_factor r) (t_min_slots r)
    (t_queue_byname r) (t_queue_list r) (t_job_byname r) (t_job_list r) (t_job_bytime r)
    (t_job_current r) (t_job_next_unread r) (t_candidate_cache r) x (t_candidate_cache_time r)
    (t_blocker_tag r) (t_dsn r) (t_pos_feedback r) (t_neg_feedback r) (t_fail_cohort_limit r)
    (t_xport_rate_delay r) (t_rate_delay r).
Definition set_t_candidate_cache_time (x : Z) (r : QMGR_TRANSPORT) : QMGR_TRANSPORT :=
  mk_qmgr_transport (t_flags r) (t_pending r) (t_dest_concurrency_limit r)
    (t_init_dest_concurrency r) (t_rcpt_per_stack r) (t_rcpt_unused r) (t_refill_limit r)
    (t_refill_delay r) (t_slot_cost r) (t_slot_loan r) (t_slot_loan_factor r) (t_min_slots r)
    (t_queue_byname r) (t_queue_list r) (t_job_byname r) (t_job_list r) (t_job_bytime r)
    (t_job_current r) (t_job_next_unread r) (t_candidate_cache r) (t_candidate_cache_current r)
    x (t_blocker_tag r) (t_dsn r) (t_pos_feedback r) (t_neg_feedback r) (t_fail_cohort_limit r)
    (t_xport_rate_delay r) (t_rate_delay r).
Definition set_t_blocker_tag (x : Z) (r : QMGR_TRANSPORT) : QMGR_TRANSPORT :=
  mk_qmgr_transport (t_flags r) (t_pending r) (t_dest_concurrency_limit r)
    (t_init_dest_concurrency r) (t_rcpt_per_stack r) (t_rcpt_unused r) (t_refill_limit r)
    (t_refill_delay r) (t_slot_cost r) (t_slot_loan r) (t_slot_loan_factor r) (t_min_slots r)
    (t_queue_byname r) (t_queue_list r) (t_job_byname r) (t_job_list r) (t_job_bytime r)
    (t_job_current r) (t_job_next_unread r) (t_candidate_cache r) (t_candidate_cache_current r)
    (t_candidate_cache_time r) x (t_dsn r) (t_pos_feedback r) (t_neg_feedback r)
    (t_fail_cohort_limit r) (t_xport_rate_delay r) (t_rate_delay r).
Definition set_t_dsn (x : option bytes) (r : QMGR_TRANSPORT) : QMGR_TRANSPORT :=
  mk_qmgr_transport (t_flags r) (t_pending r) (t_dest_concurrency_limit r)
    (t_init_dest_concurrency r) (t_rcpt_per_stack r) (t_rcpt_unused r) (t_refill_limit r)
    (t_refill_delay r) (t_slot_cost r) (t_slot_loan r) (t_slot_loan_factor r) (t_min_slots r)
    (t_queue_byname r) (t_queue_list r) (t_job_byname r) (t_job_list r) (t_job_bytime r)
    (t_job_current r) (t_job_next_unread r) (t_candidate_cache r) (t_candidate_cache_current r)
    (t_candidate_cache_time r) (t_blocker_tag r) x (t_pos_feedback r) (t_neg_feedback r)
    (t_fail_cohort_limit r) (t_xport_rate_delay r) (t_rate_delay r).
Definition set_t_pos_feedback (x : QMGR_FEEDBACK) (r : QMGR_TRANSPORT) : QMGR_TRANSPORT :=
  mk_qmgr_transport (t_flags r) (t_pending r) (t_dest_concurrency_limit r)
    (t_init_dest_concurrency r) (t_rcpt_per_stack r) (t_rcpt_unused r) (t_refill_limit r)
    (t_refill_delay r) (t_slot_cost r) (t_slot_loan r) (t_slot_loan_factor r) (t_min_slots r)
    (t_queue_byname r) (t_queue_list r) (t_job_byname r) (t_job_list r) (t_job_bytime r)
    (t_job_current r) (t_job_next_unread r) (t_candidate_cache r) (t_candidate_cache_current r)
    (t_candidate_cache_time r) (t_blocker_tag r) (t_dsn r) x (t_neg_feedback r)
    (t_fail_cohort_limit r) (t_xport_rate_delay r) (t_rate_delay r).
Definition set_t_neg_feedback (x : QMGR_FEEDBACK) (r : QMGR_TRANSPORT) : QMGR_TRANSPORT :=
  mk_qmgr_transport (t_flags r) (t_pending r) (t_dest_concurrency_limit r)
    (t_init_dest_concurrency r) (t_rcpt_per_stack r) (t_rcpt_unused r) (t_refill_limit r)
    (t_refill_delay r) (t_slot_cost r) (t_slot_loan r) (t_slot_loan_factor r) (t_min_slots r)
    (t_queue_byname r) (t_queue_list r) (t_job_byname r) (t_job_list r) (t_job_bytime r)
    (t_job_current r) (t_job_next_unread r) (t_candidate_cache r) (t_candidate_cache_current r)
    (t_candidate_cache_time r) (t_blocker_tag r) (t_dsn r) (t_pos_feedback r) x
    (t_fail_cohort_limit r) (t_xport_rate_delay r) (t_rate_delay r).
Definition set_t_fail_cohort_limit (x : Z) (r : QMGR_TRANSPORT) : QMGR_TRANSPORT :=
  mk_qmgr_transport (t_flags r) (t_pending r) (t_dest_concurrency_limit r)
    (t_init_dest_concurrency r) (t_rcpt_per_stack r) (t_rcpt_unused r) (t_refill_limit r)
    (t_refill_delay r) (t_slot_cost r) (t_slot_loan r) (t_slot_loan_factor r) (t_min_slots r)
    (t_queue_byname r) (t_queue_list r) (t_job_byname r) (t_job_list r) (t_job_bytime r)
    (t_job_current r) (t_job_next_unread r) (t_candidate_cache r) (t_candidate_cache_current r)
    (t_candidate_cache_time r) (t_blocker_tag r) (t_dsn r) (t_pos_feedback r) (t_neg_feedback r)
    x (t_xport_rate_delay r) (t_rate_delay r).
Definition set_t_xport_rate_delay (x : Z) (r : QMGR_TRANSPORT) : QMGR_TRANSPORT :=
  mk_qmgr_transport (t_flags r) (t_pending r) (t_dest_concurrency_limit r)
    (t_init_dest_concurrency r) (t_rcpt_per_stack r) (t_rcpt_unused r) (t_refill_limit r)
    (t_refill_delay r) (t_slot_cost r) (t_slot_loan r) (t_slot_loan_factor r) (t_min_slots r)
    (t_queue_byname r) (t_queue_list r) (t_job_byname r) (t_job_list r) (t_job_bytime r)
    (t_job_current r) (t_job_next_unread r) (t_candidate_cache r) (t_candidate_cache_current r)
    (t_candidate_cache_time r) (t_blocker_tag r) (t_dsn r) (t_pos_feedback r) (t_neg_feedback r)
    (t_fail_cohort_limit r) x (t_rate_delay r).
Definition set_t_rate_delay (x : Z) (r : QMGR_TRANSPORT) : QMGR_TRANSPORT :=
  mk_qmgr_transport (t_flags r) (t_pending r) (t_dest_concurrency_limit r)
    (t_init_dest_concurrency r) (t_rcpt_per_stack r) (t_rcpt_unused r) (t_refill_limit r)
    (t_refill_delay r) (t_slot_cost r) (t_slot_loan r) (t_slot_loan_factor r) (t_min_slots r)
    (t_queue_byname r) (t_queue_list r) (t_job_byname r) (t_job_list r) (t_job_bytime r)
    (t_job_current r) (t_job_next_unread r) (t_candidate_cache r) (t_candidate_cache_current r)
    (t_candidate_cache_time r) (t_blocker_tag r) (t_dsn r) (t_pos_feedback r) (t_neg_feedback r)
    (t_fail_cohort_limit r) (t_xport_rate_delay r) x.

Definition set_q_dflags (x : Z) (r : QMGR_QUEUE) : QMGR_QUEUE :=
  mk_qmgr_queue x (q_last_done r) (q_name r) (q_todo_refcount r) (q_busy_refcount r)
    (q_window r) (q_success r) (q_failure r) (q_fail_cohorts r) (q_transport r) (q_todo r)
    (q_busy r) (q_dsn r) (q_blocker_tag r).
Definition set_q_last_done (x : Z) (r : QMGR_QUEUE) : QMGR_QUEUE :=
  mk_qmgr_queue (q_dflags r) x (q_name r) (q_todo_refcount r) (q_busy_refcount r) (q_window r)
    (q_success r) (q_failure r) (q_fail_cohorts r) (q_transport r) (q_todo r) (q_busy r)
    (q_dsn r) (q_blocker_tag r).
Definition set_q_name (x : bytes) (r : QMGR_QUEUE) : QMGR_QUEUE :=
  mk_qmgr_queue (q_dflags r) (q_last_done r) x (q_todo_refcount r) (q_busy_refcount r)
    (q_window r) (q_success r) (q_failure r) (q_fail_cohorts r) (q_transport r) (q_todo r)
    (q_busy r) (q_dsn r) (q_blocker_tag r).
Definition set_q_todo_refcount (x : Z) (r : QMGR_QUEUE) : QMGR_QUEUE :=
  mk_qmgr_queue (q_dflags r) (q_last_done r) (q_name r) x (q_busy_refcount r) (q_window r)
    (q_success r) (q_failure r) (q_fail_cohorts r) (q_transport r) (q_todo r) (q_busy r)
    (q_dsn r) (q_blocker_tag r).
Definition set_q_busy_refcount (x : Z) (r : QMGR_QUEUE) : QMGR_QUEUE :=
  mk_qmgr_queue (q_dflags r) (q_last_done r) (q_name r) (q_todo_refcount r) x (q_window r)
    (q_success r) (q_failure r) (q_fail_cohorts r) (q_transport r) (q_todo r) (q_busy r)
    (q_dsn r) (q_blocker_tag r).
Definition set_q_window (x : Z) (r : QMGR_QUEUE) : QMGR_QUEUE :=
  mk_qmgr_queue (q_dflags r) (q_last_done r) (q_name r) (q_todo_refcount r) (q_busy_refcount r)
    x (q_success r) (q_failure r) (q_fail_cohorts r) (q_transport r) (q_todo r) (q_busy r)
    (q_dsn r) (q_blocker_tag r).
Definition set_q_success (x : spec_float) (r : QMGR_QUEUE) : QMGR_QUEUE :=
  mk_qmgr_queue (q_dflags r) (q_last_done r) (q_name r) (q_todo_refcount r) (q_busy_refcount r)
    (q_window r) x (q_failure r) (q_fail_cohorts r) (q_transport r) (q_todo r) (q_busy r)
    (q_dsn r) (q_blocker_tag r).
Definition set_q_failure (x : spec_float) (r : QMGR_QUEUE) : QMGR_QUEUE :=
  mk_qmgr_queue (q_dflags r) (q_last_done r) (q_name r) (q_todo_refcount r) (q_busy_refcount r)
    (q_window r) (q_success r) x (q_fail_cohorts r) (q_transport r) (q_todo r) (q_busy r)
    (q_dsn r) (q_blocker_tag r).
Definition set_q_fail_cohorts (x : spec_float) (r : QMGR_QUEUE) : QMGR_QUEUE :=
  mk_qmgr_queue (q_dflags r) (q_last_done r) (q_name r) (q_todo_refcount r) (q_busy_refcount r)
    (q_window r) (q_success r) (q_failure r) x (q_transport r) (q_todo r) (q_busy r) (q_dsn r)
    (q_blocker_tag r).
Definition set_q_transport (x : nat) (r : QMGR_QUEUE) : QMGR_QUEUE :=
  mk_qmgr_queue (q_dflags r) (q_last_done r) (q_name r) (q_todo_refcount r) (q_busy_refcount r)
    (q_window r) (q_success r) (q_failure r) (q_fail_cohorts r) x (q_todo r) (q_busy r)
    (q_dsn r) (q_blocker_tag r).
Definition set_q_todo (x : list nat) (r : QMGR_QUEUE) : QMGR_QUEUE :=
  mk_qmgr_queue (q_dflags r) (q_last_done r) (q_name r) (q_todo_refcount r) (q_busy_refcount r)
    (q_window r) (q_success r) (q_failure r) (q_fail_cohorts r) (q_transport r) x (q_busy r)
    (q_dsn r) (q_blocker_tag r).
Definition set_q_busy (x : list nat) (r : QMGR_QUEUE) : QMGR_QUEUE :=
  mk_qmgr_queue (q_dflags r) (q_last_done r) (q_name r) (q_todo_refcount r) (q_busy_refcount r)
    (q_window r) (q_success r) (q_failure r) (q_fail_cohorts r) (q_transport r) (q_todo r) x
    (q_dsn r) (q_blocker_tag r).
Definition set_q_dsn (x : option bytes) (r : QMGR_QUEUE) : QMGR_QUEUE :=
  mk_qmgr_queue (q_dflags r) (q_last_done r) (q_name r) (q_todo_refcount r) (q_busy_refcount r)
    (q_window r) (q_success r) (q_failure r) (q_fail_cohorts r) (q_transport r) (q_todo r)
    (q_busy r) x (q_blocker_tag r).
Definition set_q_blocker_tag (x : Z) (r : QMGR_QUEUE) : QMGR_QUEUE :=
  mk_qmgr_queue (q_dflags r) (q_last_done r) (q_name r) (q_todo_refcount r) (q_busy_refcount r)
    (q_window r) (q_success r) (q_failure r) (q_fail_cohorts r) (q_transport r) (q_todo r)
    (q_busy r) (q_dsn r) x.

Definition set_e_stream (x : bool) (r : QMGR_ENTRY) : QMGR_ENTRY :=
  mk_qmgr_entry x (e_message r) (e_rcpt_list r) (e_queue r) (e_peer r).
Definition set_e_message (x : nat) (r : QMGR_ENTRY) : QMGR_ENTRY :=
  mk_qmgr_entry (e_stream r) x (e_rcpt_list r) (e_queue r) (e_peer r).
Definition set_e_rcpt_list (x : list Z) (r : QMGR_ENTRY) : QMGR_ENTRY :=
  mk_qmgr_entry (e_stream r) (e_message r) x (e_queue r) (e_peer r).
Definition set_e_queue (x : nat) (r : QMGR_ENTRY) : QMGR_ENTRY :=
  mk_qmgr_entry (e_stream r) (e_message r) (e_rcpt_list r) x (e_peer r).
Definition set_e_peer (x : nat) (r : QMGR_ENTRY) : QMGR_ENTRY :=
  mk_qmgr_entry (e_stream r) (e_message r) (e_rcpt_list r) (e_queue r) x.

Definition set_m_queue_id (x : bytes) (r : QMGR_MESSAGE) : QMGR_MESSAGE :=
  mk_qmgr_message x (m_refcount r) (m_queued_time r) (m_refill_time r) (m_rcpt_offset r)
    (m_rcpt_count r) (m_rcpt_limit r) (m_rcpt_unread r) (m_job_list r).
Definition set_m_refcount (x : Z) (r : QMGR_MESSAGE) : QMGR_MESSAGE :=
  mk_qmgr_message (m_queue_id r) x (m_queued_time r) (m_refill_time r) (m_rcpt_offset r)
    (m_rcpt_count r) (m_rcpt_limit r) (m_rcpt_unread r) (m_job_list r).
Definition set_m_queued_time (x : Z) (r : QMGR_MESSAGE) : QMGR_MESSAGE :=
  mk_qmgr_message (m_queue_id r) (m_refcount r) x (m_refill_time r) (m_rcpt_offset r)
    (m_rcpt_count r) (m_rcpt_limit r) (m_rcpt_unread r) (m_job_list r).
Definition set_m_refill_time (x : Z) (r : QMGR_MESSAGE) : QMGR_MESSAGE :=
  mk_qmgr_message (m_queue_id r) (m_refcount r) (m_queued_time r) x (m_rcpt_offset r)
    (m_rcpt_count r) (m_rcpt_limit r) (m_rcpt_unread r) (m_job_list r).
Definition set_m_rcpt_offset (x : Z) (r : QMGR_MESSAGE) : QMGR_MESSAGE :=
  mk_qmgr_message (m_queue_id r) (m_refcount r) (m_queued_time r) (m_refill_time r) x
    (m_rcpt_count r) (m_rcpt_limit r) (m_rcpt_unread r) (m_job_list r).
Definition set_m_rcpt_count (x : Z) (r : QMGR_MESSAGE) : QMGR_MESSAGE :=
  mk_qmgr_message (m_queue_id r) (m_refcount r) (m_queued_time r) (m_refill_time r)
    (m_rcpt_offset r) x (m_rcpt_limit r) (m_rcpt_unread r) (m_job_list r).
Definition set_m_rcpt_limit (x : Z) (r : QMGR_MESSAGE) : QMGR_MESSAGE :=
  mk_qmgr_message (m_queue_id r) (m_refcount r) (m_queued_time r) (m_refill_time r)
    (m_rcpt_offset r) (m_rcpt_count r) x (m_rcpt_unread r) (m_job_list r).
Definition set_m_rcpt_unread (x : Z) (r : QMGR_MESSAGE) : QMGR_MESSAGE :=
  mk_qmgr_message (m_queue_id r) (m_refcount r) (m_queued_time r) (m_refill_time r)
    (m_rcpt_offset r) (m_rcpt_count r) (m_rcpt_limit r) x (m_job_list r).
Definition set_m_job_list (x : list nat) (r : QMGR_MESSAGE) : QMGR_MESSAGE :=
  mk_qmgr_message (m_queue_id r) (m_refcount r) (m_queued_time r) (m_refill_time r)
    (m_rcpt_offset r) (m_rcpt_count r) (m_rcpt_limit r) (m_rcpt_unread r) x.

Definition set_j_message (x : nat) (r : QMGR_JOB) : QMGR_JOB :=
  mk_qmgr_job x (j_transport r) (j_stack_parent r) (j_stack_children r) (j_stack_level r)
    (j_blocker_tag r) (j_peer_byname r) (j_peer_list r) (j_slots_used r) (j_slots_available r)
    (j_selected_entries r) (j_read_entries r) (j_rcpt_count r) (j_rcpt_limit r).
Definition set_j_transport (x : nat) (r : QMGR_JOB) : QMGR_JOB :=
  mk_qmgr_job (j_message r) x (j_stack_parent r) (j_stack_children r) (j_stack_level r)
    (j_blocker_tag r) (j_peer_byname r) (j_peer_list r) (j_slots_used r) (j_slots_available r)
    (j_selected_entries r) (j_read_entries r) (j_rcpt_count r) (j_rcpt_limit r).
Definition set_j_stack_parent (x : option nat) (r : QMGR_JOB) : QMGR_JOB :=
  mk_qmgr_job (j_message r) (j_transport r) x (j_stack_children r) (j_stack_level r)
    (j_blocker_tag r) (j_peer_byname r) (j_peer_list r) (j_slots_used r) (j_slots_available r)
    (j_selected_entries r) (j_read_entries r) (j_rcpt_count r) (j_rcpt_limit r).
Definition set_j_stack_children (x : list nat) (r : QMGR_JOB) : QMGR_JOB :=
  mk_qmgr_job (j_message r) (j_transport r) (j_stack_parent r) x (j_stack_level r)
    (j_blocker_tag r) (j_peer_byname r) (j_peer_list r) (j_slots_used r) (j_slots_available r)
    (j_selected_entries r) (j_read_entries r) (j_rcpt_count r) (j_rcpt_limit r).
Definition set_j_stack_level (x : Z) (r : QMGR_JOB) : QMGR_JOB :=
  mk_qmgr_job (j_message r) (j_transport r) (j_stack_parent r) (j_stack_children r) x
    (j_blocker_tag r) (j_peer_byname r) (j_peer_list r) (j_slots_used r) (j_slots_available r)
    (j_selected_entries r) (j_read_entries r) (j_rcpt_count r) (j_rcpt_limit r).
Definition set_j_blocker_tag (x : Z) (r : QMGR_JOB) : QMGR_JOB :=
  mk_qmgr_job (j_message r) (j_transport r) (j_stack_parent r) (j_stack_children r)
    (j_stack_level r) x (j_peer_byname r) (j_peer_list r) (j_slots_used r) (j_slots_available r)
    (j_selected_entries r) (j_read_entries r) (j_rcpt_count r) (j_rcpt_limit r).
Definition set_j_peer_byname (x : gmap bytes nat) (r : QMGR_JOB) : QMGR_JOB :=
  mk_qmgr_job (j_message r) (j_transport r) (j_stack_parent r) (j_stack_children r)
    (j_stack_level r) (j_blocker_tag r) x (j_peer_list r) (j_slots_used r) (j_slots_available r)
    (j_selected_entries r) (j_read_entries r) (j_rcpt_count r) (j_rcpt_limit r).
Definition set_j_peer_list (x : list nat) (r : QMGR_JOB) : QMGR_JOB :=
  mk_qmgr_job (j_message r) (j_transport r) (j_stack_parent r) (j_stack_children r)
    (j_stack_level r) (j_blocker_tag r) (j_peer_byname r) x (j_slots_used r)
    (j_slots_available r) (j_selected_entries r) (j_read_entries r) (j_rcpt_count r)
    (j_rcpt_limit r).
Definition set_j_slots_used (x : Z) (r : QMGR_JOB) : QMGR_JOB :=
  mk_qmgr_job (j_message r) (j_transport r) (j_stack_parent r) (j_stack_children r)
    (j_stack_level r) (j_blocker_tag r) (j_peer_byname r) (j_peer_list r) x
    (j_slots_available r) (j_selected_entries r) (j_read_entries r) (j_rcpt_count r)
    (j_rcpt_limit r).
Definition set_j_slots_available (x : Z) (r : QMGR_JOB) : QMGR_JOB :=
  mk_qmgr_job (j_message r) (j_transport r) (j_stack_parent r) (j_stack_children r)
    (j_stack_level r) (j_blocker_tag r) (j_peer_byname r) (j_peer_list r) (j_slots_used r) x
    (j_selected_entries r) (j_read_entries r) (j_rcpt_count r) (j_rcpt_limit r).
Definition set_j_selected_entries (x : Z) (r : QMGR_JOB) : QMGR_JOB :=
  mk_qmgr_job (j_message r) (j_transport r) (j_stack_parent r) (j_stack_children r)
    (j_stack_level r) (j_blocker_tag r) (j_peer_byname r) (j_peer_list r) (j_slots_used r)
    (j_slots_available r) x (j_read_entries r) (j_rcpt_count r) (j_rcpt_limit r).
Definition set_j_read_entries (x : Z) (r : QMGR_JOB) : QMGR_JOB :=
  mk_qmgr_job (j_message r) (j_transport r) (j_stack_parent r) (j_stack_children r)
    (j_stack_level r) (j_blocker_tag r) (j_peer_byname r) (j_peer_list r) (j_slots_used r)
    (j_slots_available r) (j_selected_entries r) x (j_rcpt_count r) (j_rcpt_limit r).
Definition set_j_rcpt_count (x : Z) (r : QMGR_JOB) : QMGR_JOB :=
  mk_qmgr_job (j_message r) (j_transport r) (j_stack_parent r) (j_stack_children r)
    (j_stack_level r) (j_blocker_tag r) (j_peer_byname r) (j_peer_list r) (j_slots_used r)
    (j_slots_available r) (j_selected_entries r) (j_read_entries r) x (j_rcpt_limit r).
Definition set_j_rcpt_limit (x : Z) (r : QMGR_JOB) : QMGR_JOB :=
  mk_qmgr_job (j_message r) (j_transport r) (j_stack_parent r) (j_stack_children r)
    (j_stack_level r) (j_blocker_tag r) (j_peer_byname r) (j_peer_list r) (j_slots_used r)
    (j_slots_available r) (j_selected_entries r) (j_read_entries r) (j_rcpt_count r) x.

Definition set_p_job (x : nat) (r : QMGR_PEER) : QMGR_PEER :=
  mk_qmgr_peer x (p_queue r) (p_refcount r) (p_entry_list r).
Definition set_p_queue (x : nat) (r : QMGR_PEER) : QMGR_PEER :=
  mk_qmgr_peer (p_job r) x (p_refcount r) (p_entry_list r).
Definition set_p_refcount (x : Z) (r : QMGR_PEER) : QMGR_PEER :=
  mk_qmgr_peer (p_job r) (p_queue r) x (p_entry_list r).
Definition set_p_entry_list (x : list nat) (r : QMGR_PEER) : QMGR_PEER :=
  mk_qmgr_peer (p_job r) (p_queue r) (p_refcount r) x.

Definition set_transports (x : gmap nat QMGR_TRANSPORT) (r : qmgr) : qmgr :=
  mk_qmgr x (queues r) (entries r) (messages r) (jobs r) (peers r) (transport_list r)
    (next_addr r) (sane_time r) (qmgr_recipient_count r) (qmgr_queue_count r)
    (var_qmgr_rcpt_limit r) (resume_timers r) (queue_timers r) (transport_timers r).
Definition set_queues (x : gmap nat QMGR_QUEUE) (r : qmgr) : qmgr :=
  mk_qmgr (transports r) x (entries r) (messages r) (jobs r) (peers r) (transport_list r)
    (next_addr r) (sane_time r) (qmgr_recipient_count r) (qmgr_queue_count r)
    (var_qmgr_rcpt_limit r) (resume_timers r) (queue_timers r) (transport_timers r).
Definition set_entries (x : gmap nat QMGR_ENTRY) (r : qmgr) : qmgr :=
  mk_qmgr (transports r) (queues r) x (messages r) (jobs r) (peers r) (transport_list r)
    (next_addr r) (sane_time r) (qmgr_recipient_count r) (qmgr_queue_count r)
    (var_qmgr_rcpt_limit r) (resume_timers r) (queue_timers r) (transport_timers r).
Definition set_messages (x : gmap nat QMGR_MESSAGE) (r : qmgr) : qmgr :=
  mk_qmgr (transports r) (queues r) (entries r) x (jobs r) (peers r) (transport_list r)
    (next_addr r) (sane_time r) (qmgr_recipient_count r) (qmgr_queue_count r)
    (var_qmgr_rcpt_limit r) (resume_timers r) (queue_timers r) (transport_timers r).
Definition set_jobs (x : gmap nat QMGR_JOB) (r : qmgr) : qmgr :=
  mk_qmgr (transports r) (queues r) (entries r) (messages r) x (peers r) (transport_list r)
    (next_addr r) (sane_time r) (qmgr_recipient_count r) (qmgr_queue_count r)
    (var_qmgr_rcpt_limit r) (resume_timers r) (queue_timers r) (transport_timers r).
Definition set_peers (x : gmap nat QMGR_PEER) (r : qmgr) : qmgr :=
  mk_qmgr (transports r) (queues r) (entries r) (messages r) (jobs r) x (transport_list r)
    (next_addr r) (sane_time r) (qmgr_recipient_count r) (qmgr_queue_count r)
    (var_qmgr_rcpt_limit r) (resume_timers r) (queue_timers r) (transport_timers r).
Definition set_transport_list (x : list nat) (r : qmgr) : qmgr :=
  mk_qmgr (transports r) (queues r) (entries r) (messages r) (jobs r) (peers r) x (next_addr r)
    (sane_time r) (qmgr_recipient_count r) (qmgr_queue_count r) (var_qmgr_rcpt_limit r)
    (resume_timers r) (queue_timers r) (transport_timers r).
Definition set_next_addr (x : nat) (r : qmgr) : qmgr :=
  mk_qmgr (transports r) (queues r) (entries r) (messages r) (jobs r) (peers r)
    (transport_list r) x (sane_time r) (qmgr_recipient_count r) (qmgr_queue_count r)
    (var_qmgr_rcpt_limit r) (resume_timers r) (queue_timers r) (transport_timers r).
Definition set_sane_time (x : Z) (r : qmgr) : qmgr :=
  mk_qmgr (transports r) (queues r) (entries r) (messages r) (jobs r) (peers r)
    (transport_list r) (next_addr r) x (qmgr_recipient_count r) (qmgr_queue_count r)
    (var_qmgr_rcpt_limit r) (resume_timers r) (queue_timers r) (transport_timers r).
Definition set_qmgr_recipient_count (x : Z) (r : qmgr) : qmgr :=
  mk_qmgr (transports r) (queues r) (entries r) (messages r) (jobs r) (peers r)
    (transport_list r) (next_addr r) (sane_time r) x (qmgr_queue_count r)
    (var_qmgr_rcpt_limit r) (resume_timers r) (queue_timers r) (transport_timers r).
Definition set_qmgr_queue_count (x : Z) (r : qmgr) : qmgr :=
  mk_qmgr (transports r) (queues r) (entries r) (messages r) (jobs r) (peers r)
    (transport_list r) (next_addr r) (sane_time r) (qmgr_recipient_count r) x
    (var_qmgr_rcpt_limit r) (resume_timers r) (queue_timers r) (transport_timers r).
Definition set_var_qmgr_rcpt_limit (x : Z) (r : qmgr) : qmgr :=
  mk_qmgr (transports r) (queues r) (entries r) (messages r) (jobs r) (peers r)
    (transport_list r) (next_addr r) (sane_time r) (qmgr_recipient_count r) (qmgr_queue_count r)
    x (resume_timers r) (queue_timers r) (transport_timers r).
Definition set_resume_timers (x : gset nat) (r : qmgr) : qmgr :=
  mk_qmgr (transports r) (queues r) (entries r) (messages r) (jobs r) (peers r)
    (transport_list r) (next_addr r) (sane_time r) (qmgr_recipient_count r) (qmgr_queue_count r)
    (var_qmgr_rcpt_limit r) x (queue_timers r) (transport_timers r).
Definition set_queue_timers (x : gset nat) (r : qmgr) : qmgr :=
  mk_qmgr (transports r) (queues r) (entries r) (messages r) (jobs r) (peers r)
    (transport_list r) (next_addr r) (sane_time r) (qmgr_recipient_count r) (qmgr_queue_count r)
    (var_qmgr_rcpt_limit r) (resume_timers r) x (transport_timers r).
Definition set_transport_timers (x : gset nat) (r : qmgr) : qmgr :=
  mk_qmgr (transports r) (queues r) (entries r) (messages r) (jobs r) (peers r)
    (transport_list r) (next_addr r) (sane_time r) (qmgr_recipient_count r) (qmgr_queue_count r)
    (var_qmgr_rcpt_limit r) (resume_timers r) (queue_timers r) x.
(** ** Doubles

    [double] is IEEE binary64, with Stdlib's executable specification. *)
Definition double_of (z : Z) : spec_float := binary_normalize 53 1024 z 0 false.
Definition double_add (a b : spec_float) : spec_float := SFadd 53 1024 a b.
Definition double_sub (a b : spec_float) : spec_float := SFsub 53 1024 a b.
Definition double_mul (a b : spec_float) : spec_float := SFmul 53 1024 a b.
Definition double_div (a b : spec_float) : spec_float := SFdiv 53 1024 a b.

(** ** Linked lists

    The objects after [x]; the whole list is gone when [x] is not in it, as the
    links of an unlinked object are null. *)
Fixpoint after (x : nat) (l : list nat) : list nat :=
  match l with
  | [] => []
  | y :: l => if decide (y = x) then l else after x l
  end.
Fixpoint before (x : nat) (l : list nat) : list nat :=
  match l with
  | [] => []
  | y :: l => if decide (y = x) then [] else y :: before x l
  end.

(** [x->peers.next] *)
Definition next_in (x : nat) (l : list nat) : option nat := head (after x l).

(** QMGR_LIST_UNLINK, QMGR_LIST_LINK after [pred], and QMGR_LIST_ROTATE. *)
Definition list_unlink (x : nat) (l : list nat) : list nat := before x l ++ after x l.
Definition list_link (pred : option nat) (x : nat) (l : list nat) : list nat :=
  match pred with
  | None => x :: l
  | Some p => if decide (p ∈ l) then before p l ++ p :: x :: after p l else l
  end.
(** QMGR_LIST_LINK before [succ]. *)
Definition list_link_before (succ : nat) (x : nat) (l : list nat) : list nat :=
  before succ l ++ (if decide (succ ∈ l) then x :: succ :: after succ l else []).
Definition list_rotate (x : nat) (l : list nat) : list nat := after x l ++ before x l ++ [x].

(** ** The monad *)

Definition M (A : Type) : Type := qmgr -> outcome (A * qmgr).

#[export] Instance M_ret : MRet M := fun A a st => Ret (a, st).
#[export] Instance M_bind : MBind M := fun A B f m st =>
  match m st with
  | Ret (a, st') => f a st'
  | Panic => Panic
  | Undef => Undef
  end.

(** msg_panic() *)
Definition msg_panic {A} : M A := fun _ => Panic.
Definition panic_if (b : bool) : M unit := if b then msg_panic else mret tt.

Definition gets {A} (f : qmgr -> A) : M A := fun st => Ret (f st, st).
Definition modify (f : qmgr -> qmgr) : M unit := fun st => Ret (tt, f st).

(** Integer division truncates; by zero it is undefined. *)
Definition c_div (a b : Z) : M Z := fun st => if b =? 0 then Undef else Ret (Z.quot a b, st).

(** Dereference a pointer; assign through a pointer. *)
Definition deref {A} (o : option A) : M A :=
  fun st => match o with Some a => Ret (a, st) | None => Undef end.

Definition get_transport (t : nat) : M QMGR_TRANSPORT := fun st => deref (transports st !! t) st.
Definition get_queue (q : nat) : M QMGR_QUEUE := fun st => deref (queues st !! q) st.
Definition get_entry (e : nat) : M QMGR_ENTRY := fun st => deref (entries st !! e) st.
Definition get_message (m : nat) : M QMGR_MESSAGE := fun st => deref (messages st !! m) st.
Definition get_job (j : nat) : M QMGR_JOB := fun st => deref (jobs st !! j) st.
Definition get_peer (p : nat) : M QMGR_PEER := fun st => deref (peers st !! p) st.

Definition upd_transport (t : nat) (f : QMGR_TRANSPORT -> QMGR_TRANSPORT) : M unit :=
  fun st => match transports st !! t with
            | Some x => Ret (tt, set_transports (<[t := f x]> (transports st)) st)
            | None => Undef end.
Definition upd_queue (q : nat) (f : QMGR_QUEUE -> QMGR_QUEUE) : M unit :=
  fun st => match queues st !! q with
            | Some x => Ret (tt, set_queues (<[q := f x]> (queues st)) st)
            | None => Undef end.
Definition upd_entry (e : nat) (f : QMGR_ENTRY -> QMGR_ENTRY) : M unit :=
  fun st => match entries st !! e with
            | Some x => Ret (tt, set_entries (<[e := f x]> (entries st)) st)
            | None => Undef end.
Definition upd_message (m : nat) (f : QMGR_MESSAGE -> QMGR_MESSAGE) : M unit :=
  fun st => match messages st !! m with
            | Some x => Ret (tt, set_messages (<[m := f x]> (messages st)) st)
            | None => Undef end.
Definition upd_job (j : nat) (f : QMGR_JOB -> QMGR_JOB) : M unit :=
  fun st => match jobs st !! j with
            | Some x => Ret (tt, set_jobs (<[j := f x]> (jobs st)) st)
            | None => Undef end.
Definition upd_peer (p : nat) (f : QMGR_PEER -> QMGR_PEER) : M unit :=
  fun st => match peers st !! p with
            | Some x => Ret (tt, set_peers (<[p := f x]> (peers st)) st)
            | None => Undef end.

(** mymalloc(): an address that was never used. *)
Definition alloc : M nat := fun st => Ret (next_addr st, set_next_addr (S (next_addr st)) st).

(** ** Total correctness

    [wp m st Q]: from [st], [m] completes without panic or undefined behaviour,
    with a result and a state that satisfy [Q]. *)
Definition wp {A} (m : M A) (st : qmgr) (Q : A -> qmgr -> Prop) : Prop :=
  match m st with Ret (a, st') => Q a st' | _ => False end.

Lemma wp_ret {A} (a : A) st (Q : A -> qmgr -> Prop) : Q a st -> wp (mret a) st Q.
Proof. done. Qed.

Lemma wp_bind {A B} (m : M A) (f : A -> M B) st Q :
  wp m st (fun a st' => wp (f a) st' Q) -> wp (m ≫= f) st Q.
Proof. unfold wp, mbind, M_bind. by destruct (m st) as [[a st']| |]. Qed.

Lemma wp_mono {A} (m : M A) st (P Q : A -> qmgr -> Prop) :
  wp m st P -> (forall a st', P a st' -> Q a st') -> wp m st Q.
Proof. unfold wp. destruct (m st) as [[a st']| |]; auto. Qed.

Lemma wp_run {A} (m : M A) st Q : wp m st Q <-> exists a st', m st = Ret (a, st') /\ Q a st'.
Proof.
  unfold wp. split.
  - destruct (m st) as [[a st']| |]; [|done..]. intros H. by exists a, st'.
  - by intros (a & st' & -> & H).
Qed.

Lemma wp_gets {A} (f : qmgr -> A) st (Q : A -> qmgr -> Prop) : Q (f st) st -> wp (gets f) st Q.
Proof. done. Qed.

Lemma wp_modify f st (Q : unit -> qmgr -> Prop) : Q tt (f st) -> wp (modify f) st Q.
Proof. done. Qed.

Lemma wp_c_div a b st (Q : Z -> qmgr -> Prop) : b <> 0 -> Q (Z.quot a b) st -> wp (c_div a b) st Q.
Proof. intros Hb HQ. unfold wp, c_div. by rewrite (proj2 (Z.eqb_neq b 0) Hb). Qed.

Lemma wp_alloc st (Q : nat -> qmgr -> Prop) :
  Q (next_addr st) (set_next_addr (S (next_addr st)) st) -> wp alloc st Q.
Proof. done. Qed.

Lemma wp_panic_if b st (Q : unit -> qmgr -> Prop) : b = false -> Q tt st -> wp (panic_if b) st Q.
Proof. by intros ->. Qed.

Lemma wp_if {A} (b : bool) (m1 m2 : M A) st Q :
  (b = true -> wp m1 st Q) -> (b = false -> wp m2 st Q) -> wp (if b then m1 else m2) st Q.
Proof. destruct b; auto. Qed.

Lemma wp_decide {A} (P : Prop) `{Decision P} (m1 m2 : M A) st Q :
  (P -> wp m1 st Q) -> (~ P -> wp m2 st Q) -> wp (if decide P then m1 else m2) st Q.
Proof. intros H1 H2. destruct (decide P); auto. Qed.

(** The states after an assignment. *)
Definition put_transport t x st := set_transports (<[t := x]> (transports st)) st.
Definition put_queue q x st := set_queues (<[q := x]> (queues st)) st.
Definition put_entry e x st := set_entries (<[e := x]> (entries st)) st.
Definition put_message m x st := set_messages (<[m := x]> (messages st)) st.
Definition put_job j x st := set_jobs (<[j := x]> (jobs st)) st.
Definition put_peer p x st := set_peers (<[p := x]> (peers st)) st.

Section access.
Context (st : qmgr).

Lemma wp_get_transport t x (Q : _ -> _ -> Prop) :
  transports st !! t = Some x -> Q x st -> wp (get_transport t) st Q.
Proof. intros H. unfold wp, get_transport. by rewrite H. Qed.
Lemma wp_get_queue q x (Q : _ -> _ -> Prop) : queues st !! q = Some x -> Q x st -> wp (get_queue q) st Q.
Proof. intros H. unfold wp, get_queue. by rewrite H. Qed.
Lemma wp_get_entry e x (Q : _ -> _ -> Prop) : entries st !! e = Some x -> Q x st -> wp (get_entry e) st Q.
Proof. intros H. unfold wp, get_entry. by rewrite H. Qed.
Lemma wp_get_message m x (Q : _ -> _ -> Prop) : messages st !! m = Some x -> Q x st -> wp (get_message m) st Q.
Proof. intros H. unfold wp, get_message. by rewrite H. Qed.
Lemma wp_get_job j x (Q : _ -> _ -> Prop) : jobs st !! j = Some x -> Q x st -> wp (get_job j) st Q.
Proof. intros H. unfold wp, get_job. by rewrite H. Qed.
Lemma wp_get_peer p x (Q : _ -> _ -> Prop) : peers st !! p = Some x -> Q x st -> wp (get_peer p) st Q.
Proof. intros H. unfold wp, get_peer. by rewrite H. Qed.

Lemma wp_upd_transport t f x (Q : _ -> _ -> Prop) :
  transports st !! t = Some x -> Q tt (put_transport t (f x) st) -> wp (upd_transport t f) st Q.
Proof. intros H. unfold wp, upd_transport. by rewrite H. Qed.
Lemma wp_upd_queue q f x (Q : _ -> _ -> Prop) :
  queues st !! q = Some x -> Q tt (put_queue q (f x) st) -> wp (upd_queue q f) st Q.
Proof. intros H. unfold wp, upd_queue. by rewrite H. Qed.
Lemma wp_upd_entry e f x (Q : _ -> _ -> Prop) :
  entries st !! e = Some x -> Q tt (put_entry e (f x) st) -> wp (upd_entry e f) st Q.
Proof. intros H. unfold wp, upd_entry. by rewrite H. Qed.
Lemma wp_upd_message m f x (Q : _ -> _ -> Prop) :
  messages st !! m = Some x -> Q tt (put_message m (f x) st) -> wp (upd_message m f) st Q.
Proof. intros H. unfold wp, upd_message. by rewrite H. Qed.
Lemma wp_upd_job j f x (Q : _ -> _ -> Prop) :
  jobs st !! j = Some x -> Q tt (put_job j (f x) st) -> wp (upd_job j f) st Q.
Proof. intros H. unfold wp, upd_job. by rewrite H. Qed.
Lemma wp_upd_peer p f x (Q : _ -> _ -> Prop) :
  peers st !! p = Some x -> Q tt (put_peer p (f x) st) -> wp (upd_peer p f) st Q.
Proof. intros H. unfold wp, upd_peer. by rewrite H. Qed.
End access.

(** Lookups in an updated state. *)
Lemma lookup_insert_dec {A} (m : gmap nat A) i j x :
  <[i := x]> m !! j = if decide (i = j) then Some x else m !! j.
Proof. case_decide; [subst; apply lookup_insert_eq|by apply lookup_insert_ne]. Qed.

(** ** Lists *)

Lemma before_after x l : x ∈ l -> l = before x l ++ x :: after x l.
Proof.
  induction l as [|y l IH]; [by intros ?%not_elem_of_nil|]. intros Hx. cbn. case_decide; [by subst|].
  apply elem_of_cons in Hx as [->|Hx]; [done|]. cbn. by rewrite <- IH.
Qed.

Lemma not_in_after x l : x ∉ l -> after x l = [] /\ before x l = l.
Proof.
  induction l as [|y l IH]; [done|]. intros [Hn Hx]%not_elem_of_cons. cbn.
  rewrite !decide_False by congruence. destruct (IH Hx) as [H1 H2]. by rewrite H1, H2.
Qed.

Lemma list_unlink_perm x l : x ∈ l -> l ≡ₚ x :: list_unlink x l.
Proof.
  intros Hx. unfold list_unlink. trans (before x l ++ x :: after x l); [by rewrite <- before_after|].
  by rewrite Permutation_middle.
Qed.

Lemma list_unlink_not_in x l : x ∉ l -> list_unlink x l = l.
Proof. intros Hx. unfold list_unlink. destruct (not_in_after x l Hx) as [-> ->]. by rewrite app_nil_r. Qed.

Lemma list_unlink_elem x y l : NoDup l -> y ∈ list_unlink x l <-> y ∈ l /\ y <> x.
Proof.
  intros Hnd. destruct (decide (x ∈ l)) as [Hx|Hx].
  - pose proof (list_unlink_perm x l Hx) as Hp. rewrite Hp in Hnd. apply NoDup_cons in Hnd as [Hn _].
    rewrite Hp at 2. rewrite elem_of_cons. naive_solver.
  - rewrite list_unlink_not_in by done. naive_solver.
Qed.

Lemma list_unlink_nodup x l : NoDup l -> NoDup (list_unlink x l).
Proof.
  intros Hnd. destruct (decide (x ∈ l)) as [Hx|Hx]; [|by rewrite list_unlink_not_in].
  rewrite (list_unlink_perm x l Hx) in Hnd. by apply NoDup_cons in Hnd as [_ ?].
Qed.

Lemma list_link_perm pred x l :
  (forall p, pred = Some p -> p ∈ l) -> list_link pred x l ≡ₚ x :: l.
Proof.
  intros Hp. destruct pred as [p|]; [|done]. cbn. specialize (Hp p eq_refl). rewrite decide_True by done.
  trans (x :: (before p l ++ p :: after p l)); [|by rewrite <- before_after].
  change (p :: x :: after p l) with ([p] ++ x :: after p l).
  by rewrite app_assoc, <- Permutation_middle, <- app_assoc.
Qed.

Lemma list_link_before_perm succ x l : succ ∈ l -> list_link_before succ x l ≡ₚ x :: l.
Proof.
  intros Hs. unfold list_link_before. rewrite decide_True by done.
  trans (x :: (before succ l ++ succ :: after succ l)); [|by rewrite <- before_after].
  by rewrite Permutation_middle.
Qed.

Lemma after_elem x y l : y ∈ after x l -> y ∈ l.
Proof.
  induction l as [|z l IH]; [done|]. cbn. case_decide; intros Hy; [by right|right; by apply IH].
Qed.

Lemma after_not_self x l : NoDup l -> x ∉ after x l.
Proof.
  induction l as [|z l IH]; cbn; [intros _; apply not_elem_of_nil|]. intros [Hz Hl]%NoDup_cons.
  case_decide; [by subst|by apply IH].
Qed.

Lemma list_rotate_perm x l : x ∈ l -> list_rotate x l ≡ₚ l.
Proof.
  intros Hx. unfold list_rotate. trans (before x l ++ x :: after x l); [|by rewrite <- before_after].
  by rewrite Permutation_app_comm, <- app_assoc.
Qed.

(** ** What a routine leaves alone, whenever it completes *)

Definition keeps {A} (R : relation qmgr) (m : M A) : Prop := forall st a st', m st = Ret (a, st') -> R st st'.

Lemma bind_inv {A B} (m : M A) (f : A -> M B) st b st2 : (m ≫= f) st = Ret (b, st2) -> exists a st1, m st = Ret (a, st1) /\ f a st1 = Ret (b, st2).
Proof. unfold mbind, M_bind. destruct (m st) as [[a st1]| |] eqn:E; [|done..]. intros H. by exists a, st1. Qed.

Section keeps.
Context (R : relation qmgr) `{!PreOrder R}.

Lemma keeps_bind {A B} (m : M A) (f : A -> M B) : keeps R m -> (forall a, keeps R (f a)) -> keeps R (m ≫= f).
Proof using PreOrder0.
  intros Hm Hf st b st2. unfold mbind, M_bind. destruct (m st) as [[a st1]| |] eqn:E; [|done..]. intros E2.
  etrans; [by eapply Hm|by eapply Hf].
Qed.
Lemma keeps_ret {A} (a : A) : keeps R (mret a).
Proof using PreOrder0. by intros st b st' [= <- <-]. Qed.
Lemma keeps_panic_if b : keeps R (panic_if b).
Proof using PreOrder0. unfold panic_if. destruct b; [by intros st [] st'|apply keeps_ret]. Qed.
Lemma keeps_gets {A} (f : qmgr -> A) : keeps R (gets f).
Proof using PreOrder0. by intros st b st' [= <- <-]. Qed.
Lemma keeps_deref {A} (f : qmgr -> option A) : keeps R (fun st => deref (f st) st).
Proof using PreOrder0. intros st b st'. unfold deref. destruct (f st); [|done]. by intros [= <- <-]. Qed.
Lemma keeps_modify f : (forall st, R st (f st)) -> keeps R (modify f).
Proof using Type. intros H st b st' [= <- <-]. apply H. Qed.
Lemma keeps_alloc : (forall st, R st (set_next_addr (S (next_addr st)) st)) -> keeps R alloc.
Proof using Type. intros H st b st' [= <- <-]. apply H. Qed.
Lemma keeps_upd_transport t f : (forall st x, transports st !! t = Some x -> R st (put_transport t (f x) st)) -> keeps R (upd_transport t f).
Proof using Type. intros H st b st'. unfold upd_transport. destruct (transports st !! t) eqn:E; [|done]. intros [= <- <-]. by apply H. Qed.
Lemma keeps_upd_job j f : (forall st x, jobs st !! j = Some x -> R st (put_job j (f x) st)) -> keeps R (upd_job j f).
Proof using Type. intros H st b st'. unfold upd_job. destruct (jobs st !! j) eqn:E; [|done]. intros [= <- <-]. by apply H. Qed.
Lemma keeps_upd_message j f : (forall st x, messages st !! j = Some x -> R st (put_message j (f x) st)) -> keeps R (upd_message j f).
Proof using Type. intros H st b st'. unfold upd_message. destruct (messages st !! j) eqn:E; [|done]. intros [= <- <-]. by apply H. Qed.
Lemma keeps_upd_queue j f : (forall st x, queues st !! j = Some x -> R st (put_queue j (f x) st)) -> keeps R (upd_queue j f).
Proof using Type. intros H st b st'. unfold upd_queue. destruct (queues st !! j) eqn:E; [|done]. intros [= <- <-]. by apply H. Qed.
Lemma keeps_upd_entry j f : (forall st x, entries st !! j = Some x -> R st (put_entry j (f x) st)) -> keeps R (upd_entry j f).
Proof using Type. intros H st b st'. unfold upd_entry. destruct (entries st !! j) eqn:E; [|done]. intros [= <- <-]. by apply H. Qed.
Lemma keeps_upd_peer j f : (forall st x, peers st !! j = Some x -> R st (put_peer j (f x) st)) -> keeps R (upd_peer j f).
Proof using Type. intros H st b st'. unfold upd_peer. destruct (peers st !! j) eqn:E; [|done]. intros [= <- <-]. by apply H. Qed.
End keeps.

Lemma wp_keeps {A} (R : relation qmgr) (m : M A) st Q : keeps R m -> wp m st Q -> wp m st (fun a st' => Q a st' /\ R st st').
Proof. intros Hk. unfold wp. destruct (m st) as [[a st']| |] eqn:E; [|done..]. intros HQ. split; [done|by eapply Hk]. Qed.
Lemma wp_and_run {A} (m : M A) st (Q P : A -> qmgr -> Prop) : wp m st Q -> (forall a st', m st = Ret (a, st') -> P a st') -> wp m st (fun a st' => Q a st' /\ P a st').
Proof. unfold wp. destruct (m st) as [[a st']| |]; auto. Qed.
