(* ===== verification/QmgrJob.v ===== *)
(** The job scheduler of the queue manager: qmgr_job.c (src/src/qmgr), except for
    the selection of entries, which is in QmgrSelect.v. *)

From stdpp Require Export sorting.
From S2P Require Export QmgrState.

(** ** Operations *)

Definition MIN_ENTRIES (job : QMGR_JOB) : Z := j_read_entries job.
Definition MAX_ENTRIES (job : QMGR_JOB) (message : QMGR_MESSAGE) : Z :=
  j_read_entries job + m_rcpt_unread message.
Definition HAS_ENTRIES (job : QMGR_JOB) : bool := j_selected_entries job <? j_read_entries job.
Definition RESET_CANDIDATE_CACHE (transport : nat) : M unit :=
  upd_transport transport (set_t_candidate_cache_current None).
Definition IS_BLOCKER (job : QMGR_JOB) (transport : QMGR_TRANSPORT) : bool :=
  j_blocker_tag job =? t_blocker_tag transport.

Definition qmgr_job_create (message transport : nat) : M nat :=
  job ← alloc;
  msg ← get_message message;
  modify (fun st => set_jobs (<[job := mk_qmgr_job message transport None [] (-1) 0 ∅ [] 0 0 0 0 0 0]> (jobs st)) st);;
  upd_message message (set_m_job_list (m_job_list msg ++ [job]));;
  upd_transport transport (fun tr => set_t_job_byname (<[m_queue_id msg := job]> (t_job_byname tr)) tr);;
  mret job.

(** The next job on the time list with recipients left in the queue file. *)
Fixpoint next_unread_from (l : list nat) : M (option nat) :=
  match l with
  | [] => mret None
  | next :: l =>
      jb ← get_job next;
      msg ← get_message (j_message jb);
      if negb (m_rcpt_offset msg =? 0) then mret (Some next) else next_unread_from l
  end.

Definition qmgr_job_move_limits (job : nat) : M unit :=
  jb ← get_job job;
  let transport := j_transport jb in
  let message := j_message jb in
  tr ← get_transport transport;
  next ← (if decide (t_job_next_unread tr = Some job) then
            next ← next_unread_from (after job (t_job_bytime tr));
            upd_transport transport (set_t_job_next_unread next);;
            mret next
          else mret (t_job_next_unread tr));
  msg ← get_message message;
  let rcpt_unused := j_rcpt_limit jb - j_rcpt_count jb in
  let msg_rcpt_unused := m_rcpt_limit msg - m_rcpt_count msg in
  let rcpt_unused := if msg_rcpt_unused <? rcpt_unused then msg_rcpt_unused else rcpt_unused in
  if rcpt_unused >? 0 then
    upd_job job (fun jb => set_j_rcpt_limit (j_rcpt_limit jb - rcpt_unused) jb);;
    upd_message message (fun msg => set_m_rcpt_limit (m_rcpt_limit msg - rcpt_unused) msg);;
    upd_transport transport (fun tr => set_t_rcpt_unused (t_rcpt_unused tr + rcpt_unused) tr);;
    match next with
    | Some next =>
        tr ← get_transport transport;
        let rcpt_unused := t_rcpt_unused tr in
        if rcpt_unused >? 0 then
          nb ← get_job next;
          upd_job next (fun jb => set_j_rcpt_limit (j_rcpt_limit jb + rcpt_unused) jb);;
          upd_message (j_message nb) (fun msg => set_m_rcpt_limit (m_rcpt_limit msg + rcpt_unused) msg);;
          upd_transport transport (set_t_rcpt_unused 0)
        else mret tt
    | None => mret tt
    end
  else mret tt.

(** The traversals of qmgr_job_link() from the end of a list; the argument is the
    part of the list not yet seen, last object first.  The results are the last
    object that stays before the new one, and the [current] (or [unread]) pointer,
    null when the traversal met it. *)
Fixpoint job_list_scan (queued_time : Z) (rev_list : list nat) (current : option nat)
    : M (option nat * option nat) :=
  match rev_list with
  | [] => mret (None, current)
  | prev :: rest =>
      jb ← get_job prev;
      msg ← get_message (j_message jb);
      if decide (j_stack_parent jb = None) then
        if queued_time - m_queued_time msg >=? 0 then mret (Some prev, current)
        else job_list_scan queued_time rest (if decide (current = Some prev) then None else current)
      else job_list_scan queued_time rest (if decide (current = Some prev) then None else current)
  end.
Fixpoint job_bytime_scan (queued_time : Z) (rev_list : list nat) (unread : option nat)
    : M (option nat * option nat) :=
  match rev_list with
  | [] => mret (None, unread)
  | prev :: rest =>
      jb ← get_job prev;
      msg ← get_message (j_message jb);
      if queued_time - m_queued_time msg >=? 0 then mret (Some prev, unread)
      else job_bytime_scan queued_time rest (if decide (unread = Some prev) then None else unread)
  end.

Definition qmgr_job_link (job : nat) : M unit :=
  jb ← get_job job;
  panic_if (j_stack_level jb >=? 0);;
  let transport := j_transport jb in
  let message := j_message jb in
  msg ← get_message message;
  tr ← get_transport transport;
  '(list_prev, current) ← job_list_scan (m_queued_time msg) (reverse (t_job_list tr)) (t_job_current tr);
  '(prev, unread) ← job_bytime_scan (m_queued_time msg) (reverse (t_job_bytime tr)) (t_job_next_unread tr);
  upd_job job (set_j_stack_level 0);;
  upd_transport transport (fun tr => set_t_job_list (list_link list_prev job (t_job_list tr)) tr);;
  upd_transport transport (fun tr => set_t_job_bytime (list_link prev job (t_job_bytime tr)) tr);;
  (if decide (current = None) then upd_transport transport (set_t_job_current (Some job)) else mret tt);;
  (if decide (unread = None) then
     tr ← get_transport transport;
     let unread := t_job_next_unread tr in
     upd_transport transport (set_t_job_next_unread (Some job));;
     match unread with Some unread => qmgr_job_move_limits unread | None => mret tt end
   else mret tt);;
  tr ← get_transport transport;
  if t_rcpt_unused tr >? 0 then
    upd_job job (fun jb => set_j_rcpt_limit (j_rcpt_limit jb + t_rcpt_unused tr) jb);;
    upd_message message (fun msg => set_m_rcpt_limit (m_rcpt_limit msg + t_rcpt_unused tr) msg);;
    upd_transport transport (set_t_rcpt_unused 0)
  else mret tt.

Definition qmgr_job_find (message transport : nat) : M (option nat) :=
  msg ← get_message message;
  tr ← get_transport transport;
  mret (t_job_byname tr !! m_queue_id msg).

Definition qmgr_job_obtain (message transport : nat) : M nat :=
  found ← qmgr_job_find message transport;
  job ← (match found with Some job => mret job | None => qmgr_job_create message transport end);
  jb ← get_job job;
  (if j_stack_level jb <? 0 then qmgr_job_link job else mret tt);;
  RESET_CANDIDATE_CACHE transport;;
  jb ← get_job job;
  tr ← get_transport transport;
  (if IS_BLOCKER jb tr then
     upd_job job (set_j_blocker_tag 0);;
     upd_transport transport (set_t_job_current (head (t_job_list tr)))
   else mret tt);;
  mret job.

(** The loop takes the first child until there is none; the children of the job do
    not change otherwise. *)
Fixpoint parent_gone_loop (job : nat) (parent : option nat) (children : list nat) : M unit :=
  match children with
  | [] => mret tt
  | child :: children =>
      upd_job job (fun jb => set_j_stack_children (list_unlink child (j_stack_children jb)) jb);;
      (match parent with
       | Some parent => upd_job parent (fun pb => set_j_stack_children (j_stack_children pb ++ [child]) pb)
       | None => mret tt
       end);;
      upd_job child (set_j_stack_parent parent);;
      parent_gone_loop job parent children
  end.

Definition qmgr_job_parent_gone (job : nat) (parent : option nat) : M unit :=
  jb ← get_job job;
  parent_gone_loop job parent (j_stack_children jb).

(** [job->stack_siblings.next], null for a job without parent. *)
Definition stack_siblings_next (job : nat) (jb : QMGR_JOB) : M (option nat) :=
  match j_stack_parent jb with
  | Some parent => pb ← get_job parent; mret (next_in job (j_stack_children pb))
  | None => mret None
  end.

Definition qmgr_job_unlink (job : nat) : M unit :=
  jb ← get_job job;
  let transport := j_transport jb in
  panic_if (negb (j_stack_level jb =? 0));;
  panic_if (bool_decide (is_Some (j_stack_parent jb)));;
  sibling ← stack_siblings_next job jb;
  panic_if (bool_decide (is_Some sibling));;
  qmgr_job_parent_gone job None;;
  tr ← get_transport transport;
  (if decide (t_job_current tr = Some job) then
     upd_transport transport (set_t_job_current (next_in job (t_job_list tr)))
   else mret tt);;
  (if decide (t_candidate_cache tr = Some job \/ t_candidate_cache_current tr = Some job)
   then RESET_CANDIDATE_CACHE transport else mret tt);;
  upd_transport transport (fun tr => set_t_job_list (list_unlink job (t_job_list tr)) tr);;
  upd_transport transport (fun tr => set_t_job_bytime (list_unlink job (t_job_bytime tr)) tr);;
  upd_job job (set_j_stack_level (-1)).

Definition qmgr_job_pop (job : nat) : M unit :=
  jb ← get_job job;
  let transport := j_transport jb in
  tr ← get_transport transport;
  panic_if (j_stack_level jb <=? 0);;
  let parent := j_stack_parent jb in
  (match parent with
   | Some parent =>
       pb ← get_job parent;
       if j_stack_level jb =? j_stack_level pb + 1 then
         upd_job parent (fun pb => set_j_slots_available
           (j_slots_available pb - j_slots_used jb * t_slot_cost tr) pb)
       else mret tt
   | None => mret tt
   end);;
  (match parent with
   | Some parent =>
       upd_job parent (fun pb => set_j_stack_children (list_unlink job (j_stack_children pb)) pb);;
       upd_job job (set_j_stack_parent None)
   | None => mret tt
   end);;
  qmgr_job_parent_gone job parent;;
  upd_job job (set_j_stack_level 0);;
  RESET_CANDIDATE_CACHE transport.

Definition qmgr_job_retire (job : nat) : M unit :=
  jb ← get_job job;
  (if j_stack_level jb >? 0 then qmgr_job_pop job else mret tt);;
  qmgr_job_move_limits job;;
  qmgr_job_unlink job.

Definition qmgr_job_free (job : nat) : M unit :=
  jb ← get_job job;
  let message := j_message jb in
  let transport := j_transport jb in
  panic_if (negb (j_rcpt_count jb =? 0));;
  (if j_stack_level jb >? 0 then qmgr_job_pop job else mret tt);;
  qmgr_job_move_limits job;;
  jb ← get_job job;
  panic_if (negb (j_rcpt_limit jb =? 0));;
  (if j_stack_level jb >=? 0 then qmgr_job_unlink job else mret tt);;
  msg ← get_message message;
  upd_message message (set_m_job_list (list_unlink job (m_job_list msg)));;
  upd_transport transport (fun tr => set_t_job_byname (delete (m_queue_id msg) (t_job_byname tr)) tr);;
  modify (fun st => set_jobs (delete job (jobs st)) st).

Definition qmgr_job_count_slots (job : nat) : M unit :=
  upd_job job (fun jb => set_j_slots_available (j_slots_available jb + 1) jb);;
  upd_job job (fun jb => set_j_slots_used (j_slots_used jb + 1) jb);;
  jb ← get_job job;
  tr ← get_transport (j_transport jb);
  if decide (t_candidate_cache_current tr = Some job) then mret tt
  else RESET_CANDIDATE_CACHE (j_transport jb).

(** The search loop of qmgr_job_candidate() over the rest of the job list. *)
Fixpoint candidate_loop (tr : QMGR_TRANSPORT) (now max_slots : Z) (l : list nat)
    (best_job : option nat) (best_score : spec_float) : M (option nat) :=
  match l with
  | [] => mret best_job
  | job :: l =>
      jb ← get_job job;
      if negb (bool_decide (j_stack_children jb = [])) || IS_BLOCKER jb tr then
        candidate_loop tr now max_slots l best_job best_score
      else
        msg ← get_message (j_message jb);
        let max_total_entries := MAX_ENTRIES jb msg in
        let max_needed_entries := max_total_entries - j_selected_entries jb in
        let delay := now - m_queued_time msg + 1 in
        let '(best_job, best_score) :=
          if (max_needed_entries >? 0) && (max_needed_entries <=? max_slots) then
            let score := double_div (double_of delay) (double_of max_total_entries) in
            if SFltb best_score score then (Some job, score) else (best_job, best_score)
          else (best_job, best_score) in
        if SFleb (double_of delay) best_score && (j_stack_level jb =? 0) then mret best_job
        else candidate_loop tr now max_slots l best_job best_score
  end.

(** [(MIN_ENTRIES(current) - selected_entries + slots_available) / slot_cost] *)
Definition max_slots (cb : QMGR_JOB) (tr : QMGR_TRANSPORT) : M Z :=
  c_div (MIN_ENTRIES cb - j_selected_entries cb + j_slots_available cb) (t_slot_cost tr).

Definition qmgr_job_candidate (current : nat) : M (option nat) :=
  cb ← get_job current;
  let transport := j_transport cb in
  tr ← get_transport transport;
  now ← gets sane_time;
  if decide (t_candidate_cache_current tr = Some current /\
             (t_candidate_cache_time tr = now \/ t_candidate_cache tr = None))
  then mret (t_candidate_cache tr)
  else
    max_slots ← max_slots cb tr;
    best_job ← (if max_slots >? 0 then
                  candidate_loop tr now max_slots (after current (t_job_list tr)) None (S754_zero false)
                else mret None);
    upd_transport transport (set_t_candidate_cache best_job);;
    upd_transport transport (set_t_candidate_cache_current (Some current));;
    upd_transport transport (set_t_candidate_cache_time now);;
    mret best_job.

Definition qmgr_job_preempt (current : nat) : M nat :=
  cb ← get_job current;
  cmsg ← get_message (j_message cb);
  let transport := j_transport cb in
  tr ← get_transport transport;
  if (j_slots_available cb <=? 0) || (MAX_ENTRIES cb cmsg <? t_min_slots tr * t_slot_cost tr)
  then mret current
  else
  candidate ← qmgr_job_candidate current;
  match candidate with
  | None => mret current
  | Some job =>
      jb ← get_job job;
      panic_if (bool_decide (job = current));;
      panic_if (negb (bool_decide (j_stack_children jb = [])));;
      panic_if (j_stack_level jb <? 0);;
      msg ← get_message (j_message jb);
      let expected_slots := MAX_ENTRIES jb msg - j_selected_entries jb in
      slots ← c_div (j_slots_available cb) (t_slot_cost tr);
      if SFltb (double_of (slots + t_slot_loan tr))
               (double_div (double_of (expected_slots * t_slot_loan_factor tr)) (double_of 100))
      then mret current
      else
        (if j_stack_level jb >? 0 then qmgr_job_pop job else mret tt);;
        upd_transport transport (fun tr => set_t_job_list (list_unlink job (t_job_list tr)) tr);;
        upd_transport transport (fun tr => set_t_job_list (list_link_before current job (t_job_list tr)) tr);;
        upd_job job (set_j_stack_parent (Some current));;
        upd_job current (fun cb => set_j_stack_children (j_stack_children cb ++ [job]) cb);;
        cb ← get_job current;
        upd_job job (set_j_stack_level (j_stack_level cb + 1));;
        upd_transport transport (set_t_job_current (Some job));;
        RESET_CANDIDATE_CACHE transport;;
        upd_job current (fun cb => set_j_slots_available
          (j_slots_available cb - expected_slots * t_slot_cost tr) cb);;
        upd_job job (set_j_slots_used (- expected_slots));;
        (if negb (m_rcpt_offset msg =? 0) then
           tr ← get_transport transport;
           let rcpt_slots := Z.quot (t_rcpt_per_stack tr + t_rcpt_unused tr + 1) 2 in
           upd_job job (fun jb => set_j_rcpt_limit (j_rcpt_limit jb + rcpt_slots) jb);;
           upd_message (j_message jb) (fun msg => set_m_rcpt_limit (m_rcpt_limit msg + rcpt_slots) msg);;
           upd_transport transport (fun tr => set_t_rcpt_unused (t_rcpt_unused tr - rcpt_slots) tr)
         else mret tt);;
        mret job
  end.

Definition qmgr_job_blocker_update (queue : nat) : M unit :=
  qu ← get_queue queue;
  let transport := q_transport qu in
  tr ← get_transport transport;
  if q_blocker_tag qu =? t_blocker_tag tr then
    (if (q_window qu >? q_busy_refcount qu) && negb (bool_decide (q_todo qu = [])) then
       upd_transport transport (set_t_blocker_tag (t_blocker_tag tr + 2));;
       upd_transport transport (set_t_job_current (head (t_job_list tr)));;
       upd_transport transport (set_t_candidate_cache_current None)
     else mret tt);;
    (if (q_window qu >? q_busy_refcount qu) || (q_window qu =? 0)
     then upd_queue queue (set_q_blocker_tag 0) else mret tt)
  else mret tt.

(** ** Invariants *)

(** Job [j] of transport [t] is on the job lists. *)
Definition on_list (st : qmgr) (t j : nat) : Prop :=
  exists jb, jobs st !! j = Some jb /\ j_transport jb = t /\ 0 <= j_stack_level jb.

(** When the message of a job was queued. *)
Definition qtime (st : qmgr) (j : nat) : Z :=
  match jobs st !! j with
  | Some jb => match messages st !! j_message jb with Some msg => m_queued_time msg | None => 0 end
  | None => 0
  end.

Definition by_time (st : qmgr) (a b : nat) : Prop := qtime st a <= qtime st b.

(** The structure of jobs, lists and preemption stacks: pointers are valid; the
    lists of a transport hold the same jobs, each once, namely those with a
    non-negative stack level; the time list is in time order; parents and children
    on the stack name each other, and a child is on a higher level. *)
Record wf_core (st : qmgr) : Prop := {
  wf_refs j jb : jobs st !! j = Some jb ->
    is_Some (transports st !! j_transport jb) /\ is_Some (messages st !! j_message jb);
  wf_fresh j : is_Some (jobs st !! j) -> (j < next_addr st)%nat;
  wf_lists t tr : transports st !! t = Some tr ->
    NoDup (t_job_list tr) /\ t_job_bytime tr ≡ₚ t_job_list tr /\
    forall j, j ∈ t_job_list tr <-> on_list st t j;
  wf_sorted t tr : transports st !! t = Some tr -> StronglySorted (by_time st) (t_job_bytime tr);
  wf_level j jb : jobs st !! j = Some jb -> -1 <= j_stack_level jb;
  wf_parent j jb p : jobs st !! j = Some jb -> j_stack_parent jb = Some p ->
    exists pb, jobs st !! p = Some pb /\ j_transport pb = j_transport jb /\
      0 <= j_stack_level pb < j_stack_level jb /\ j ∈ j_stack_children pb;
  wf_children p pb c : jobs st !! p = Some pb -> c ∈ j_stack_children pb ->
    exists cb, jobs st !! c = Some cb /\ j_stack_parent cb = Some p;
  wf_children_nodup p pb : jobs st !! p = Some pb -> NoDup (j_stack_children pb);
  wf_names t tr name j : transports st !! t = Some tr -> t_job_byname tr !! name = Some j ->
    exists jb msg, jobs st !! j = Some jb /\ j_transport jb = t /\
      messages st !! j_message jb = Some msg /\ m_queue_id msg = name;
  wf_ids m1 m2 msg1 msg2 : messages st !! m1 = Some msg1 -> messages st !! m2 = Some msg2 ->
    m_queue_id msg1 = m_queue_id msg2 -> m1 = m2
}.

(** The cursors of a transport point to jobs on its lists. *)
Definition cursors_ok (st : qmgr) : Prop := forall t tr, transports st !! t = Some tr ->
  (forall j, t_job_current tr = Some j -> j ∈ t_job_list tr) /\
  (forall j, t_job_next_unread tr = Some j -> j ∈ t_job_list tr).

(** A cached candidate is another job on the list than the current one, and no
    parent on a stack. *)
Definition candidate_ok (st : qmgr) (tr : QMGR_TRANSPORT) : Prop := forall c k,
  t_candidate_cache_current tr = Some c -> t_candidate_cache tr = Some k ->
  k <> c /\ k ∈ t_job_list tr /\ exists kb, jobs st !! k = Some kb /\ j_stack_children kb = [].
Definition cache_ok (ex : nat -> Prop) (st : qmgr) : Prop := forall t tr,
  ~ ex t -> transports st !! t = Some tr -> candidate_ok st tr.

Record wf (st : qmgr) : Prop := {
  wf_wf_core : wf_core st;
  wf_wf_cursors : cursors_ok st;
  wf_wf_cache : cache_ok (fun _ => False) st
}.

(** *** Recipient slots

    A transport's slots are in its pool or lent to its jobs; a message's limit is
    the sum of the limits of its jobs. *)
Definition slots (st : qmgr) (t : nat) : Z :=
  match transports st !! t with Some tr => t_rcpt_unused tr | None => 0 end +
  map_sum (fun jb => if decide (j_transport jb = t) then j_rcpt_limit jb else 0) (jobs st).
Definition message_slots (st : qmgr) (m : nat) : Z :=
  match messages st !! m with Some msg => m_rcpt_limit msg | None => 0 end -
  map_sum (fun jb => if decide (j_message jb = m) then j_rcpt_limit jb else 0) (jobs st).

Definition conserved (st st' : qmgr) : Prop :=
  (forall t, slots st' t = slots st t) /\ (forall m, message_slots st' m = message_slots st m).

#[export] Instance conserved_preorder : PreOrder conserved.
Proof. split; [done|]. intros s1 s2 s3 [H1 H2] [H3 H4]. split; intros; by rewrite ?H3, ?H4, ?H1, ?H2. Qed.

(** ** Updates and slots *)

Lemma slots_put_job st j jb jb' t :
  jobs st !! j = Some jb ->
  slots (put_job j jb' st) t = slots st t
    - (if decide (j_transport jb = t) then j_rcpt_limit jb else 0)
    + (if decide (j_transport jb' = t) then j_rcpt_limit jb' else 0).
Proof. intros H. unfold slots. cbn. rewrite (map_sum_insert _ _ _ _ _ H). lia. Qed.

Lemma message_slots_put_job st j jb jb' m :
  jobs st !! j = Some jb ->
  message_slots (put_job j jb' st) m = message_slots st m
    + (if decide (j_message jb = m) then j_rcpt_limit jb else 0)
    - (if decide (j_message jb' = m) then j_rcpt_limit jb' else 0).
Proof. intros H. unfold message_slots. cbn. rewrite (map_sum_insert _ _ _ _ _ H). lia. Qed.

Lemma slots_put_transport st t tr tr' t' :
  transports st !! t = Some tr ->
  slots (put_transport t tr' st) t' = slots st t' +
    (if decide (t = t') then t_rcpt_unused tr' - t_rcpt_unused tr else 0).
Proof.
  intros H. unfold slots. cbn. rewrite lookup_insert_dec. case_decide; [subst; rewrite H|]; lia.
Qed.

Lemma message_slots_put_message st m msg msg' m' :
  messages st !! m = Some msg ->
  message_slots (put_message m msg' st) m' = message_slots st m' +
    (if decide (m = m') then m_rcpt_limit msg' - m_rcpt_limit msg else 0).
Proof.
  intros H. unfold message_slots. cbn. rewrite lookup_insert_dec. case_decide; [subst; rewrite H|]; lia.
Qed.

(** Job [j] gets [d] slots from the pool of its transport, and so does its
    message. *)
Lemma conserved_lend st j jb tr msg d :
  jobs st !! j = Some jb -> transports st !! j_transport jb = Some tr -> messages st !! j_message jb = Some msg ->
  conserved st
    (put_transport (j_transport jb) (set_t_rcpt_unused (t_rcpt_unused tr - d) tr)
      (put_message (j_message jb) (set_m_rcpt_limit (m_rcpt_limit msg + d) msg)
        (put_job j (set_j_rcpt_limit (j_rcpt_limit jb + d) jb) st))).
Proof.
  intros Hj Ht Hm. split; intros x.
  - rewrite (slots_put_transport _ _ tr) by done.
    change (slots (put_message _ _ ?s) x) with (slots s x).
    rewrite (slots_put_job _ _ _ _ _ Hj). cbn. case_decide; lia.
  - change (message_slots (put_transport _ _ ?s) x) with (message_slots s x).
    rewrite (message_slots_put_message _ _ msg) by done. rewrite (message_slots_put_job _ _ _ _ _ Hj).
    cbn. case_decide; lia.
Qed.

(** ** Frames *)

(** What the structural invariant looks at. *)
Definition tshape (tr : QMGR_TRANSPORT) := (t_job_byname tr, t_job_list tr, t_job_bytime tr).
Definition jshape (jb : QMGR_JOB) :=
  (j_message jb, j_transport jb, j_stack_parent jb, j_stack_children jb, j_stack_level jb).
Definition mshape (msg : QMGR_MESSAGE) := (m_queue_id msg, m_queued_time msg).

Record shape_eq (st st' : qmgr) : Prop := {
  se_t t : tshape <$> transports st' !! t = tshape <$> transports st !! t;
  se_j j : jshape <$> jobs st' !! j = jshape <$> jobs st !! j;
  se_m m : mshape <$> messages st' !! m = mshape <$> messages st !! m;
  se_addr : next_addr st' = next_addr st
}.

#[export] Instance shape_eq_preorder : PreOrder shape_eq.
Proof.
  split; [done|]. intros s1 s2 s3 H1 H2. split.
  - intros t. by rewrite (se_t _ _ H2), (se_t _ _ H1).
  - intros j. by rewrite (se_j _ _ H2), (se_j _ _ H1).
  - intros m. by rewrite (se_m _ _ H2), (se_m _ _ H1).
  - by rewrite (se_addr _ _ H2), (se_addr _ _ H1).
Qed.

Lemma sorted_ext (R S : nat -> nat -> Prop) l :
  (forall a b, R a b -> S a b) -> StronglySorted R l -> StronglySorted S l.
Proof.
  intros H. induction 1 as [|x l Hl IH Hx]; constructor; [done|].
  apply Forall_forall. intros y Hy. rewrite Forall_forall in Hx. auto.
Qed.

Lemma shape_eq_sym st st' : shape_eq st st' -> shape_eq st' st.
Proof. intros []. by split. Qed.

(** A map entry on one side of an equality of views has a counterpart. *)
Lemma view_some {A B} (f : A -> B) (o o' : option A) x :
  f <$> o' = f <$> o -> o = Some x -> exists x', o' = Some x' /\ f x' = f x.
Proof. intros H ->. destruct o' as [x'|]; [|done]. exists x'. split; [done|]. cbn in H. congruence. Qed.

Section shape.
Context (st st' : qmgr) (Hse : shape_eq st st').

Lemma shape_job j jb : jobs st !! j = Some jb -> exists jb', jobs st' !! j = Some jb' /\
  j_message jb' = j_message jb /\ j_transport jb' = j_transport jb /\ j_stack_parent jb' = j_stack_parent jb /\
  j_stack_children jb' = j_stack_children jb /\ j_stack_level jb' = j_stack_level jb.
Proof using Hse.
  intros H. destruct (view_some jshape _ _ _ (se_j _ _ Hse j) H) as (jb' & Hj' & Hv).
  exists jb'. split; [done|]. by injection Hv as -> -> -> -> ->.
Qed.

Lemma shape_transport t tr : transports st !! t = Some tr -> exists tr', transports st' !! t = Some tr' /\
  t_job_byname tr' = t_job_byname tr /\ t_job_list tr' = t_job_list tr /\ t_job_bytime tr' = t_job_bytime tr.
Proof using Hse.
  intros H. destruct (view_some tshape _ _ _ (se_t _ _ Hse t) H) as (tr' & Ht' & Hv).
  exists tr'. split; [done|]. by injection Hv as -> -> ->.
Qed.

Lemma shape_message m msg : messages st !! m = Some msg -> exists msg', messages st' !! m = Some msg' /\
  m_queue_id msg' = m_queue_id msg /\ m_queued_time msg' = m_queued_time msg.
Proof using Hse.
  intros H. destruct (view_some mshape _ _ _ (se_m _ _ Hse m) H) as (msg' & Hm' & Hv).
  exists msg'. split; [done|]. by injection Hv as -> ->.
Qed.
End shape.

Lemma shape_qtime st st' j : shape_eq st st' -> qtime st' j = qtime st j.
Proof.
  intros Hse. unfold qtime. destruct (jobs st !! j) as [jb|] eqn:Hj.
  - destruct (shape_job _ _ Hse _ _ Hj) as (jb' & -> & -> & _).
    destruct (messages st !! j_message jb) as [msg|] eqn:Hm.
    + by destruct (shape_message _ _ Hse _ _ Hm) as (msg' & -> & _ & ->).
    + pose proof (se_m _ _ Hse (j_message jb)) as H. rewrite Hm in H. by destruct (messages st' !! _).
  - pose proof (se_j _ _ Hse j) as H. rewrite Hj in H. by destruct (jobs st' !! j).
Qed.

Lemma shape_on_list st st' t j : shape_eq st st' -> on_list st t j -> on_list st' t j.
Proof.
  intros Hse (jb & Hj & Ht & Hl). destruct (shape_job _ _ Hse _ _ Hj) as (jb' & Hj' & _ & E1 & _ & _ & E2).
  exists jb'. rewrite E1, E2. done.
Qed.

Lemma wf_core_shape st st' : shape_eq st st' -> wf_core st -> wf_core st'.
Proof.
  intros Hse [W1 W2 W3 W4 W5 W6 W7 W8 W9 W10]. pose proof (shape_eq_sym _ _ Hse) as Hes. split.
  - intros j jb Hj. destruct (shape_job _ _ Hes _ _ Hj) as (jb0 & Hj0 & E1 & E2 & _).
    destruct (W1 _ _ Hj0) as [[tr Ht] [msg Hm]]. rewrite E1 in Hm. rewrite E2 in Ht.
    destruct (shape_transport _ _ Hse _ _ Ht) as (? & ? & _), (shape_message _ _ Hse _ _ Hm) as (? & ? & _).
    split; by eexists.
  - intros j [jb Hj]. destruct (shape_job _ _ Hes _ _ Hj) as (jb0 & Hj0 & _).
    rewrite (se_addr _ _ Hse). apply W2. by exists jb0.
  - intros t tr Ht. destruct (shape_transport _ _ Hes _ _ Ht) as (tr0 & Ht0 & _ & <- & <-).
    destruct (W3 _ _ Ht0) as (H1 & H2 & H3). split_and!; [done..|]. intros j. rewrite H3.
    split; by apply shape_on_list.
  - intros t tr Ht. destruct (shape_transport _ _ Hes _ _ Ht) as (tr0 & Ht0 & _ & _ & <-).
    eapply sorted_ext; [|by apply (W4 t)].
    intros a b. unfold by_time. by rewrite !(shape_qtime st st').
  - intros j jb Hj. destruct (shape_job _ _ Hes _ _ Hj) as (jb0 & Hj0 & _ & _ & _ & _ & <-). by apply (W5 j).
  - intros j jb p Hj Hp. destruct (shape_job _ _ Hes _ _ Hj) as (jb0 & Hj0 & _ & E1 & E2 & _ & E3).
    rewrite <- E2 in Hp. destruct (W6 _ _ _ Hj0 Hp) as (pb0 & Hpb0 & F1 & F2 & F3).
    destruct (shape_job _ _ Hse _ _ Hpb0) as (pb & Hpb & _ & G1 & _ & G2 & G3).
    exists pb. rewrite G1, G2, G3, F1, E1, <- E3. done.
  - intros p pb c Hp Hc. destruct (shape_job _ _ Hes _ _ Hp) as (pb0 & Hp0 & _ & _ & _ & E & _).
    rewrite <- E in Hc. destruct (W7 _ _ _ Hp0 Hc) as (cb0 & Hc0 & Hcp).
    destruct (shape_job _ _ Hse _ _ Hc0) as (cb & Hcb & _ & _ & E' & _). exists cb. by rewrite E'.
  - intros p pb Hp. destruct (shape_job _ _ Hes _ _ Hp) as (pb0 & Hp0 & _ & _ & _ & <- & _). by apply (W8 p).
  - intros t tr name j Ht Hn. destruct (shape_transport _ _ Hes _ _ Ht) as (tr0 & Ht0 & E & _).
    rewrite <- E in Hn. destruct (W9 _ _ _ _ Ht0 Hn) as (jb0 & msg0 & Hj0 & Htr0 & Hm0 & Hid).
    destruct (shape_job _ _ Hse _ _ Hj0) as (jb & Hj & E1 & E2 & _).
    destruct (shape_message _ _ Hse _ _ Hm0) as (msg & Hm & E3 & _).
    exists jb, msg. by rewrite E1, E2, E3.
  - intros m1 m2 msg1 msg2 Hm1 Hm2 Hid.
    destruct (shape_message _ _ Hes _ _ Hm1) as (a1 & Ha1 & E1 & _), (shape_message _ _ Hes _ _ Hm2) as (a2 & Ha2 & E2 & _).
    apply (W10 m1 m2 a1 a2); congruence.
Qed.

Lemma shape_put_job st j jb jb' :
  jobs st !! j = Some jb -> jshape jb' = jshape jb -> shape_eq st (put_job j jb' st).
Proof.
  intros Hj Hv. split; [done| |done..]. intros i. cbn. rewrite lookup_insert_dec.
  case_decide; [subst; by rewrite Hj; cbn; rewrite Hv|done].
Qed.
Lemma shape_put_transport st t tr tr' :
  transports st !! t = Some tr -> tshape tr' = tshape tr -> shape_eq st (put_transport t tr' st).
Proof.
  intros Ht Hv. split; [|done..]. intros i. cbn. rewrite lookup_insert_dec.
  case_decide; [subst; by rewrite Ht; cbn; rewrite Hv|done].
Qed.
Lemma shape_put_message st m msg msg' :
  messages st !! m = Some msg -> mshape msg' = mshape msg -> shape_eq st (put_message m msg' st).
Proof.
  intros Hm Hv. split; [done|done| |done]. intros i. cbn. rewrite lookup_insert_dec.
  case_decide; [subst; by rewrite Hm; cbn; rewrite Hv|done].
Qed.

(** *** Changes of limits only *)

Definition tmask (tr : QMGR_TRANSPORT) := set_t_rcpt_unused 0 (set_t_job_next_unread None tr).
Definition jmask (jb : QMGR_JOB) := set_j_rcpt_limit 0 jb.
Definition mmask (msg : QMGR_MESSAGE) := set_m_rcpt_limit 0 msg.
Definition others (st : qmgr) :=
  (queues st, entries st, peers st, transport_list st, next_addr st, sane_time st,
   qmgr_recipient_count st, qmgr_queue_count st,
   (var_qmgr_rcpt_limit st, resume_timers st, queue_timers st, transport_timers st)).

(** Nothing differs but slots, limits and the next-unread cursors. *)
Record limits_eq (st st' : qmgr) : Prop := {
  le_t t : tmask <$> transports st' !! t = tmask <$> transports st !! t;
  le_j j : jmask <$> jobs st' !! j = jmask <$> jobs st !! j;
  le_m m : mmask <$> messages st' !! m = mmask <$> messages st !! m;
  le_others : others st' = others st
}.

#[export] Instance limits_eq_preorder : PreOrder limits_eq.
Proof.
  split; [done|]. intros s1 s2 s3 H1 H2. split.
  - intros t. by rewrite (le_t _ _ H2), (le_t _ _ H1).
  - intros j. by rewrite (le_j _ _ H2), (le_j _ _ H1).
  - intros m. by rewrite (le_m _ _ H2), (le_m _ _ H1).
  - by rewrite (le_others _ _ H2), (le_others _ _ H1).
Qed.

(** A coarser view is a function of a finer one. *)
Lemma view_coarsen {A B C} (f : A -> B) (g : A -> C) (o o' : option A) :
  (forall x y, f x = f y -> g x = g y) -> f <$> o' = f <$> o -> g <$> o' = g <$> o.
Proof. intros H E. destruct o', o; cbn in *; try done. f_equal. apply H. congruence. Qed.

Lemma limits_shape st st' : limits_eq st st' -> shape_eq st st'.
Proof.
  intros Hle. split.
  - intros t. apply (view_coarsen tmask); [|apply (le_t _ _ Hle)].
    intros [] []. unfold tmask, tshape. cbn. intros H. injection H. intros. subst. done.
  - intros j. apply (view_coarsen jmask); [|apply (le_j _ _ Hle)].
    intros [] []. unfold jmask, jshape. cbn. intros H. injection H. intros. subst. done.
  - intros m. apply (view_coarsen mmask); [|apply (le_m _ _ Hle)].
    intros [] []. unfold mmask, mshape. cbn. intros H. injection H. intros. subst. done.
  - pose proof (le_others _ _ Hle) as H. unfold others in H. congruence.
Qed.

Lemma limits_put_job st j jb jb' :
  jobs st !! j = Some jb -> jmask jb' = jmask jb -> limits_eq st (put_job j jb' st).
Proof.
  intros Hj Hv. split; [done| |done..]. intros i. cbn. rewrite lookup_insert_dec.
  case_decide; [subst; by rewrite Hj; cbn; rewrite Hv|done].
Qed.
Lemma limits_put_transport st t tr tr' :
  transports st !! t = Some tr -> tmask tr' = tmask tr -> limits_eq st (put_transport t tr' st).
Proof.
  intros Ht Hv. split; [|done..]. intros i. cbn. rewrite lookup_insert_dec.
  case_decide; [subst; by rewrite Ht; cbn; rewrite Hv|done].
Qed.
Lemma limits_put_message st m msg msg' :
  messages st !! m = Some msg -> mmask msg' = mmask msg -> limits_eq st (put_message m msg' st).
Proof.
  intros Hm Hv. split; [done|done| |done]. intros i. cbn. rewrite lookup_insert_dec.
  case_decide; [subst; by rewrite Hm; cbn; rewrite Hv|done].
Qed.

(** Lending slots, in the three steps of the code. *)
Definition lend (j : nat) (d : Z) (jb : QMGR_JOB) (tr : QMGR_TRANSPORT) (msg : QMGR_MESSAGE) (st : qmgr) : qmgr :=
  put_transport (j_transport jb) (set_t_rcpt_unused (t_rcpt_unused tr - d) tr)
    (put_message (j_message jb) (set_m_rcpt_limit (m_rcpt_limit msg + d) msg)
      (put_job j (set_j_rcpt_limit (j_rcpt_limit jb + d) jb) st)).

Lemma lend_limits j d jb tr msg st :
  jobs st !! j = Some jb -> transports st !! j_transport jb = Some tr -> messages st !! j_message jb = Some msg ->
  limits_eq st (lend j d jb tr msg st).
Proof.
  intros Hj Ht Hm. unfold lend. etrans; [by apply (limits_put_job st j jb (set_j_rcpt_limit (j_rcpt_limit jb + d) jb))|].
  etrans; [by apply (limits_put_message _ (j_message jb) msg (set_m_rcpt_limit (m_rcpt_limit msg + d) msg))|].
  by apply (limits_put_transport _ (j_transport jb) tr).
Qed.

(** Changing a cursor changes no slots. *)
Lemma conserved_put_transport st t tr tr' :
  transports st !! t = Some tr -> t_rcpt_unused tr' = t_rcpt_unused tr -> conserved st (put_transport t tr' st).
Proof.
  intros Ht E. split; [|done]. intros x. rewrite (slots_put_transport _ _ _ _ _ Ht), E. case_decide; lia.
Qed.
Lemma conserved_put_job st j jb jb' :
  jobs st !! j = Some jb -> j_rcpt_limit jb' = j_rcpt_limit jb -> j_message jb' = j_message jb ->
  j_transport jb' = j_transport jb -> conserved st (put_job j jb' st).
Proof.
  intros Hj E1 E2 E3. split; intros x.
  - rewrite (slots_put_job _ _ _ _ _ Hj), E1, E3. lia.
  - rewrite (message_slots_put_job _ _ _ _ _ Hj), E1, E2. lia.
Qed.

Lemma next_unread_from_ok st l :
  wf_core st -> (forall j, j ∈ l -> is_Some (jobs st !! j)) ->
  wp (next_unread_from l) st (fun r st' => st' = st /\ forall n, r = Some n -> n ∈ l).
Proof.
  intros Hwf. induction l as [|j l IH]; intros Hl; cbn [next_unread_from]; [by apply wp_ret|].
  destruct (Hl j) as [jb Hj]; [by left|]. apply wp_bind. apply (wp_get_job _ _ jb); [done|].
  destruct (wf_refs _ Hwf _ _ Hj) as [_ [msg Hm]]. apply wp_bind. apply (wp_get_message _ _ msg); [done|].
  apply wp_if; intros _.
  - apply wp_ret. split; [done|]. intros n [= <-]. by left.
  - eapply wp_mono; [apply IH; intros; apply Hl; by right|].
    intros r st' [-> Hr]. split; [done|]. intros n Hn. right. by apply Hr.
Qed.

(** What qmgr_job_move_limits() does to the next-unread cursors: that of the job's
    transport passes over the job. *)
Definition unread_step (job t : nat) (st st' : qmgr) : Prop := forall t' tr',
  transports st' !! t' = Some tr' -> exists tr, transports st !! t' = Some tr /\
    ((t_job_next_unread tr' = t_job_next_unread tr /\ (t' = t -> t_job_next_unread tr <> Some job)) \/
     (t' = t /\ forall n, t_job_next_unread tr' = Some n -> n ∈ after job (t_job_bytime tr))).

Lemma lend_conserved j d jb tr msg st :
  jobs st !! j = Some jb -> transports st !! j_transport jb = Some tr -> messages st !! j_message jb = Some msg ->
  conserved st (lend j d jb tr msg st).
Proof. apply conserved_lend. Qed.

Lemma lend_transport j d jb tr msg st t :
  transports (lend j d jb tr msg st) !! t =
    if decide (j_transport jb = t) then Some (set_t_rcpt_unused (t_rcpt_unused tr - d) tr) else transports st !! t.
Proof. apply lookup_insert_dec. Qed.
Lemma lend_job j d jb tr msg st i :
  jobs (lend j d jb tr msg st) !! i =
    if decide (j = i) then Some (set_j_rcpt_limit (j_rcpt_limit jb + d) jb) else jobs st !! i.
Proof. apply lookup_insert_dec. Qed.
Lemma lend_message j d jb tr msg st m :
  messages (lend j d jb tr msg st) !! m =
    if decide (j_message jb = m) then Some (set_m_rcpt_limit (m_rcpt_limit msg + d) msg) else messages st !! m.
Proof. apply lookup_insert_dec. Qed.

(** A lender keeps its cursors. *)
Lemma unread_step_lend job t j d jb tr msg st st1 :
  transports st1 !! j_transport jb = Some tr -> unread_step job t st st1 ->
  unread_step job t st (lend j d jb tr msg st1).
Proof.
  intros Ht H t' tr'. rewrite lend_transport. case_decide as Hd; [|apply H].
  intros [= <-]. subst t'. destruct (H _ _ Ht) as (tr0 & Ht0 & Hor). exists tr0. split; [done|exact Hor].
Qed.

(** No limit goes down but those of the jobs in [ex], and no pool below what it
    was or zero. *)
Definition rise (ex : nat -> Prop) (st st' : qmgr) : Prop :=
  (forall i ib', jobs st' !! i = Some ib' -> exists ib, jobs st !! i = Some ib /\
     (~ ex i -> j_rcpt_limit ib <= j_rcpt_limit ib')) /\
  (forall t tr', transports st' !! t = Some tr' -> exists tr, transports st !! t = Some tr /\
     Z.min 0 (t_rcpt_unused tr) <= t_rcpt_unused tr').

#[export] Instance rise_preorder ex : PreOrder (rise ex).
Proof.
  split.
  - intros st. split; [intros i ib Hi; by exists ib|]. intros t tr Ht. exists tr. split; [done|lia].
  - intros s1 s2 s3 [H1 H2] [H3 H4]. split.
    + intros i ib3 Hi. destruct (H3 _ _ Hi) as (ib2 & Hi2 & E2), (H1 _ _ Hi2) as (ib1 & Hi1 & E1).
      exists ib1. split; [done|]. intros He. specialize (E1 He). specialize (E2 He). lia.
    + intros t tr3 Ht. destruct (H4 _ _ Ht) as (tr2 & Ht2 & E2), (H2 _ _ Ht2) as (tr1 & Ht1 & E1).
      exists tr1. split; [done|lia].
Qed.

Lemma rise_lend (ex : nat -> Prop) j d jb tr msg st :
  jobs st !! j = Some jb -> transports st !! j_transport jb = Some tr ->
  ex j \/ 0 <= d -> d <= Z.max 0 (t_rcpt_unused tr) -> rise ex st (lend j d jb tr msg st).
Proof.
  intros Hj Ht Hd Hu. split.
  - intros i ib'. rewrite lend_job. case_decide as Hi; [|intros H; by exists ib'].
    intros [= <-]. subst i. exists jb. split; [done|]. cbn. intros He. destruct Hd; [done|lia].
  - intros t tr'. rewrite lend_transport. case_decide as Hi.
    + intros [= <-]. subst t. exists tr. split; [done|]. cbn. lia.
    + intros H. exists tr'. split; [done|lia].
Qed.

Lemma rise_put_transport ex st t tr tr' :
  transports st !! t = Some tr -> t_rcpt_unused tr' = t_rcpt_unused tr -> rise ex st (put_transport t tr' st).
Proof.
  intros Ht E. split; [intros i ib Hi; by exists ib|]. intros x trx. cbn. rewrite lookup_insert_dec.
  case_decide as Hd; [intros [= <-]; subst x; exists tr; split; [done|lia]|].
  intros Hx. exists trx. split; [done|lia].
Qed.

(** The slots that a job can give back: no more than its message has unused. *)
Definition unused_slots (jb : QMGR_JOB) (msg : QMGR_MESSAGE) : Z :=
  Z.max 0 (Z.min (j_rcpt_limit jb - j_rcpt_count jb) (m_rcpt_limit msg - m_rcpt_count msg)).

Definition limits_moved (job : nat) (jb : QMGR_JOB) (msg : QMGR_MESSAGE) (st st' : qmgr) : Prop :=
  limits_eq st st' /\ conserved st st' /\ unread_step job (j_transport jb) st st' /\ rise (eq job) st st' /\
  exists jb', jobs st' !! job = Some jb' /\ j_rcpt_limit jb' = j_rcpt_limit jb - unused_slots jb msg.

(** The second half of the routine, once the next-unread job is known. *)
Lemma hand_over_ok job jb tr msg next st st1 :
  jobs st1 !! job = Some jb -> transports st1 !! j_transport jb = Some tr -> messages st1 !! j_message jb = Some msg ->
  limits_eq st st1 -> conserved st st1 -> unread_step job (j_transport jb) st st1 -> rise (eq job) st st1 ->
  (forall n, next = Some n -> n <> job /\ exists nb nmsg, jobs st1 !! n = Some nb /\
     j_transport nb = j_transport jb /\ messages st1 !! j_message nb = Some nmsg) ->
  wp (let rcpt_unused := j_rcpt_limit jb - j_rcpt_count jb in
      let msg_rcpt_unused := m_rcpt_limit msg - m_rcpt_count msg in
      let rcpt_unused := if msg_rcpt_unused <? rcpt_unused then msg_rcpt_unused else rcpt_unused in
      if rcpt_unused >? 0 then
        upd_job job (fun jb => set_j_rcpt_limit (j_rcpt_limit jb - rcpt_unused) jb);;
        upd_message (j_message jb) (fun msg => set_m_rcpt_limit (m_rcpt_limit msg - rcpt_unused) msg);;
        upd_transport (j_transport jb) (fun tr => set_t_rcpt_unused (t_rcpt_unused tr + rcpt_unused) tr);;
        match next with
        | Some next =>
            tr ← get_transport (j_transport jb);
            let rcpt_unused := t_rcpt_unused tr in
            if rcpt_unused >? 0 then
              nb ← get_job next;
              upd_job next (fun jb => set_j_rcpt_limit (j_rcpt_limit jb + rcpt_unused) jb);;
              upd_message (j_message nb) (fun msg => set_m_rcpt_limit (m_rcpt_limit msg + rcpt_unused) msg);;
              upd_transport (j_transport jb) (set_t_rcpt_unused 0)
            else mret tt
        | None => mret tt
        end
      else mret tt) st1 (fun _ st' => limits_moved job jb msg st st').
Proof.
  intros Hj Ht Hm Hle Hc Hu Hr Hnext. cbv zeta.
  set (d := if m_rcpt_limit msg - m_rcpt_count msg <? j_rcpt_limit jb - j_rcpt_count jb then _ else _).
  assert (Hd : unused_slots jb msg = Z.max 0 d).
  { unfold unused_slots, d. case_match; lia. }
  rewrite Z.gtb_ltb. apply wp_if; intros Hpos.
  2:{ apply wp_ret. split_and!; [done..|]. exists jb. split; [done|]. lia. }
  apply wp_bind, (wp_upd_job _ _ _ jb); [done|].
  apply wp_bind, (wp_upd_message _ _ _ msg); [done|]. apply wp_bind, (wp_upd_transport _ _ _ tr); [done|].
  assert (Hback : put_transport (j_transport jb) (set_t_rcpt_unused (t_rcpt_unused tr + d) tr)
     (put_message (j_message jb) (set_m_rcpt_limit (m_rcpt_limit msg - d) msg)
        (put_job job (set_j_rcpt_limit (j_rcpt_limit jb - d) jb) st1)) = lend job (- d) jb tr msg st1).
  { unfold lend. replace (t_rcpt_unused tr - - d) with (t_rcpt_unused tr + d) by lia. done. }
  rewrite Hback. set (st2 := lend job (- d) jb tr msg st1).
  assert (Hle2 : limits_eq st st2) by (etrans; [exact Hle|by apply lend_limits]).
  assert (Hc2 : conserved st st2) by (etrans; [exact Hc|by apply lend_conserved]).
  assert (Hu2 : unread_step job (j_transport jb) st st2) by (by apply unread_step_lend).
  assert (Hr2 : rise (eq job) st st2) by (etrans; [exact Hr|apply rise_lend; [done|done|by left|lia]]).
  assert (Hj2 : jobs st2 !! job = Some (set_j_rcpt_limit (j_rcpt_limit jb + - d) jb)).
  { unfold st2. by rewrite lend_job, decide_True. }
  assert (Hdone : limits_moved job jb msg st st2).
  { split_and!; [done..|]. eexists. split; [exact Hj2|]. cbn. lia. }
  destruct next as [n|]; [|by apply wp_ret].
  assert (Ht2 : transports st2 !! j_transport jb = Some (set_t_rcpt_unused (t_rcpt_unused tr - - d) tr)).
  { unfold st2. by rewrite lend_transport, decide_True. }
  set (tr2 := set_t_rcpt_unused (t_rcpt_unused tr - - d) tr) in *.
  apply wp_bind, (wp_get_transport _ _ tr2); [done|]. rewrite Z.gtb_ltb. apply wp_if; intros Hpool; [|by apply wp_ret].
  destruct (Hnext n eq_refl) as (Hnj & nb & nmsg & Hn & Hnt & Hnm).
  assert (Hn2 : jobs st2 !! n = Some nb) by (unfold st2; by rewrite lend_job, decide_False).
  assert (Hnm2 : exists nmsg2, messages st2 !! j_message nb = Some nmsg2).
  { unfold st2. rewrite lend_message. case_decide; by eexists. }
  destruct Hnm2 as [nmsg2 Hnm2].
  apply wp_bind, (wp_get_job _ _ nb); [done|]. apply wp_bind, (wp_upd_job _ _ _ nb); [done|].
  apply wp_bind, (wp_upd_message _ _ _ nmsg2); [done|]. apply (wp_upd_transport _ _ _ tr2); [done|].
  assert (Hgive : put_transport (j_transport jb) (set_t_rcpt_unused 0 tr2)
     (put_message (j_message nb) (set_m_rcpt_limit (m_rcpt_limit nmsg2 + t_rcpt_unused tr2) nmsg2)
        (put_job n (set_j_rcpt_limit (j_rcpt_limit nb + t_rcpt_unused tr2) nb) st2))
     = lend n (t_rcpt_unused tr2) nb tr2 nmsg2 st2).
  { unfold lend. rewrite Z.sub_diag, Hnt. done. }
  rewrite Hgive. rewrite <- Hnt in Ht2.
  split_and!; [etrans; [exact Hle2|by apply lend_limits]|etrans; [exact Hc2|by apply lend_conserved]
              |by apply unread_step_lend|etrans; [exact Hr2|apply rise_lend; [done|done|right; lia|lia]]|].
  eexists. rewrite lend_job, decide_False by done. split; [exact Hj2|]. cbn. lia.
Qed.

Lemma after_on_list st t tr j x : wf_core st -> transports st !! t = Some tr ->
  x ∈ after j (t_job_bytime tr) -> x ∈ t_job_list tr.
Proof.
  intros Hwf Ht Hx%after_elem. destruct (wf_lists _ Hwf _ _ Ht) as (_ & Hp & _). by rewrite <- Hp.
Qed.

Lemma on_list_msg st t tr x : wf_core st -> transports st !! t = Some tr -> x ∈ t_job_list tr ->
  exists xb xmsg, jobs st !! x = Some xb /\ j_transport xb = t /\ messages st !! j_message xb = Some xmsg /\
    0 <= j_stack_level xb.
Proof.
  intros Hwf Ht Hx. apply (wf_lists _ Hwf _ _ Ht) in Hx as (xb & Hxb & Hxt & Hl).
  destruct (wf_refs _ Hwf _ _ Hxb) as [_ [xmsg Hm]]. by exists xb, xmsg.
Qed.

Lemma bytime_nodup st t tr : wf_core st -> transports st !! t = Some tr -> NoDup (t_job_bytime tr).
Proof. intros Hwf Ht. destruct (wf_lists _ Hwf _ _ Ht) as (Hnd & Hp & _). by rewrite Hp. Qed.

(** qmgr_job_move_limits() completes, conserves slots, and changes nothing but
    limits and the next-unread cursor. *)
Lemma move_limits_ok job jb msg st :
  wf_core st -> cursors_ok st -> jobs st !! job = Some jb -> messages st !! j_message jb = Some msg ->
  wp (qmgr_job_move_limits job) st (fun _ st' => limits_moved job jb msg st st').
Proof.
  intros Hwf Hcur Hj Hm. destruct (wf_refs _ Hwf _ _ Hj) as [[tr Ht] _]. unfold qmgr_job_move_limits.
  apply wp_bind, (wp_get_job _ _ jb); [done|]. apply wp_bind, (wp_get_transport _ _ tr); [done|].
  apply wp_bind. apply wp_decide; intros Hun.
  - apply wp_bind. eapply wp_mono; [apply next_unread_from_ok; [done|]|].
    { intros x Hx. destruct (on_list_msg st _ tr x Hwf Ht) as (xb & _ & ? & _); [by eapply after_on_list|by exists xb]. }
    intros next st' [-> Hnext]. apply wp_bind, (wp_upd_transport _ _ _ tr); [done|]. apply wp_ret.
    set (tr1 := set_t_job_next_unread next tr). set (st1 := put_transport (j_transport jb) tr1 st).
    apply wp_bind, (wp_get_message _ _ msg); [done|].
    apply (hand_over_ok job jb tr1 msg next st st1); [done|apply lookup_insert_eq|done| | | | |].
    + by apply (limits_put_transport _ _ tr).
    + by apply (conserved_put_transport _ _ tr).
    + intros t' tr'. unfold st1, put_transport. cbn. rewrite lookup_insert_dec. case_decide as Hd.
      * intros [= <-]. subst t'. exists tr. split; [done|]. right. split; [done|]. exact Hnext.
      * intros Ht'. exists tr'. split; [done|]. left. split; [done|]. congruence.
    + by apply (rise_put_transport _ _ _ tr).
    + intros n Hn. specialize (Hnext n Hn). split.
      * intros ->. by apply (after_not_self job (t_job_bytime tr)); [eapply bytime_nodup|].
      * destruct (on_list_msg st _ tr n Hwf Ht) as (nb & nmsg & ? & ? & ? & _); [by eapply after_on_list|].
        by exists nb, nmsg.
  - apply wp_ret. apply wp_bind, (wp_get_message _ _ msg); [done|].
    apply (hand_over_ok job jb tr msg (t_job_next_unread tr) st st); [done..| | |].
    + intros t' tr' Ht'. exists tr'. split; [done|]. left. split; [done|]. intros ->. congruence.
    + done.
    + intros n Hn. split; [by intros ->|].
      destruct (on_list_msg st _ tr n Hwf Ht) as (nb & nmsg & ? & ? & ? & _); [by apply (Hcur _ _ Ht)|].
      by exists nb, nmsg.
Qed.

(** ** Structural changes *)

(** A job that is not on the lists has neither parent nor children. *)
Lemma off_list_alone st j jb : wf_core st -> jobs st !! j = Some jb -> j_stack_level jb < 0 ->
  j_stack_parent jb = None /\ j_stack_children jb = [].
Proof.
  intros Hwf Hj Hl. split.
  - destruct (j_stack_parent jb) as [p|] eqn:Hp; [|done].
    destruct (wf_parent _ Hwf _ _ _ Hj Hp) as (pb & _ & _ & H & _). lia.
  - destruct (j_stack_children jb) as [|c l] eqn:Hc; [done|].
    destruct (wf_children _ Hwf j jb c Hj) as (cb & Hcb & Hcp); [rewrite Hc; by left|].
    destruct (wf_parent _ Hwf _ _ _ Hcb Hcp) as (pb & Hpb & _ & H & _). simplify_eq. lia.
Qed.

Lemma level_zero_no_parent st j jb : wf_core st -> jobs st !! j = Some jb -> j_stack_level jb <= 0 ->
  j_stack_parent jb = None.
Proof.
  intros Hwf Hj Hl. destruct (j_stack_parent jb) as [p|] eqn:Hp; [|done].
  destruct (wf_parent _ Hwf _ _ _ Hj Hp) as (pb & _ & _ & H & _). lia.
Qed.

(** Move a job between stack levels, or onto or off the lists, while it has
    neither parent nor children. *)
Lemma wf_core_set_level st job jb tr tr' lv :
  wf_core st -> jobs st !! job = Some jb -> transports st !! j_transport jb = Some tr ->
  j_stack_parent jb = None -> j_stack_children jb = [] -> -1 <= lv ->
  t_job_byname tr' = t_job_byname tr -> NoDup (t_job_list tr') -> t_job_bytime tr' ≡ₚ t_job_list tr' ->
  StronglySorted (by_time st) (t_job_bytime tr') ->
  (forall j, j ∈ t_job_list tr' <-> (j = job /\ 0 <= lv) \/ (j <> job /\ j ∈ t_job_list tr)) ->
  wf_core (put_transport (j_transport jb) tr' (put_job job (set_j_stack_level lv jb) st)).
Proof.
  intros Hwf Hj Ht Hpar Hch Hlv Hnames Hnd Hperm Hsort Hin. set (st' := put_transport _ _ _).
  pose proof Hwf as [W1 W2 W3 W4 W5 W6 W7 W8 W9 W10].
  assert (Hjobs : forall i, jobs st' !! i = if decide (job = i) then Some (set_j_stack_level lv jb) else jobs st !! i)
    by (intros i; apply lookup_insert_dec).
  assert (Htr : forall t, transports st' !! t = if decide (j_transport jb = t) then Some tr' else transports st !! t)
    by (intros t; apply lookup_insert_dec).
  assert (Hback : forall i ib', jobs st' !! i = Some ib' -> exists ib, jobs st !! i = Some ib /\
    j_message ib' = j_message ib /\ j_transport ib' = j_transport ib /\ j_stack_parent ib' = j_stack_parent ib /\
    j_stack_children ib' = j_stack_children ib /\ (i <> job -> ib' = ib) /\ (i = job -> j_stack_level ib' = lv)).
  { intros i ib'. rewrite Hjobs. case_decide as Hd; intros H; [|by exists ib'].
    injection H as <-. subst i. by exists jb. }
  assert (Hq : forall a b, by_time st a b -> by_time st' a b).
  { assert (Hqt : forall x, qtime st' x = qtime st x).
    { intros x. unfold qtime. rewrite Hjobs. case_decide; [by subst; rewrite Hj|done]. }
    intros a b. unfold by_time. by rewrite !Hqt. }
  split.
  - intros i ib' Hi. destruct (Hback _ _ Hi) as (ib & Hib & E1 & E2 & _). rewrite E1, E2.
    destruct (W1 _ _ Hib) as [Htrs Hms]. split; [|done]. rewrite Htr. by case_decide.
  - intros i [ib' Hi]. destruct (Hback _ _ Hi) as (ib & Hib & _). apply W2. by exists ib.
  - intros t trx. rewrite Htr. case_decide as Hd.
    + intros [= <-]. subst t. split_and!; [done..|]. intros i. rewrite Hin. unfold on_list. rewrite Hjobs. split.
      * intros [[-> Hlv']|[Hn Hi]]; [rewrite decide_True by done; by exists (set_j_stack_level lv jb)|].
        rewrite decide_False by done. by apply (W3 _ _ Ht).
      * case_decide as Hd; [intros (x & [= <-] & _ & Hx); by left|].
        intros Hx. right. split; [done|]. by apply (W3 _ _ Ht).
    + intros Htx. destruct (W3 _ _ Htx) as (H1 & H2 & H3). split_and!; [done..|]. intros i. rewrite H3.
      unfold on_list. rewrite Hjobs. case_decide; [|done]. subst i. rewrite Hj. cbn.
      split; intros (x & [= <-] & Hx & _); done.
  - intros t trx. rewrite Htr. case_decide as Hd.
    + intros [= <-]. by eapply sorted_ext.
    + intros Htx. eapply sorted_ext; [exact Hq|by apply (W4 t)].
  - intros i ib' Hi. destruct (Hback _ _ Hi) as (ib & Hib & _ & _ & _ & _ & E1 & E2).
    destruct (decide (i = job)); [rewrite E2 by done; lia|rewrite E1 by done; by apply (W5 i)].
  - intros i ib' p Hi Hp. destruct (Hback _ _ Hi) as (ib & Hib & _ & E2 & E3 & _ & E5 & _). rewrite E3 in Hp.
    destruct (decide (i = job)) as [->|Hn]; [congruence|]. rewrite (E5 Hn) in *.
    destruct (W6 _ _ _ Hib Hp) as (pb & Hpb & H1 & H2 & H3). exists pb. rewrite Hjobs.
    rewrite decide_False; [done|]. intros <-. simplify_eq. rewrite Hch in H3. by apply not_elem_of_nil in H3.
  - intros p pb' c Hp Hc. destruct (Hback _ _ Hp) as (pb & Hpb & _ & _ & _ & E4 & _). rewrite E4 in Hc.
    destruct (W7 _ _ _ Hpb Hc) as (cb & Hcb & Hcp). rewrite Hjobs. case_decide; [subst; congruence|by exists cb].
  - intros p pb' Hp. destruct (Hback _ _ Hp) as (pb & Hpb & _ & _ & _ & E4 & _). rewrite E4. by apply (W8 p).
  - intros t trx name i Htx Hn. assert (Hn' : exists trx0, transports st !! t = Some trx0 /\ t_job_byname trx0 !! name = Some i).
    { rewrite Htr in Htx. case_decide; [|by exists trx]. subst t. injection Htx as <-. exists tr. by rewrite <- Hnames. }
    destruct Hn' as (trx0 & Htx0 & Hn0). destruct (W9 _ _ _ _ Htx0 Hn0) as (ib & msg & Hib & E1 & Hm & Hid).
    rewrite Hjobs. case_decide; [|by exists ib, msg]. subst i. simplify_eq. by exists (set_j_stack_level lv jb), msg.
  - exact W10.
Qed.

(** Give child [c] the parent [new] in place of [old]: the effect on job [i]. *)
Definition reparent (c : nat) (old new : option nat) (i : nat) (jb : QMGR_JOB) : QMGR_JOB :=
  let jb := if decide (Some i = old) then set_j_stack_children (list_unlink c (j_stack_children jb)) jb else jb in
  let jb := if decide (Some i = new) then set_j_stack_children (j_stack_children jb ++ [c]) jb else jb in
  if decide (i = c) then set_j_stack_parent new jb else jb.

Record jobs_changed (g : nat -> QMGR_JOB -> QMGR_JOB) (st st' : qmgr) : Prop := {
  jc_jobs i : jobs st' !! i = g i <$> jobs st !! i;
  jc_transports : transports st' = transports st;
  jc_messages : messages st' = messages st;
  jc_addr : next_addr st' = next_addr st
}.

Lemma reparent_fields c old new i jb :
  j_message (reparent c old new i jb) = j_message jb /\ j_transport (reparent c old new i jb) = j_transport jb /\
  j_stack_level (reparent c old new i jb) = j_stack_level jb /\
  j_rcpt_limit (reparent c old new i jb) = j_rcpt_limit jb /\
  j_stack_parent (reparent c old new i jb) = (if decide (i = c) then new else j_stack_parent jb) /\
  j_stack_children (reparent c old new i jb) =
    (let l := if decide (Some i = old) then list_unlink c (j_stack_children jb) else j_stack_children jb in
     if decide (Some i = new) then l ++ [c] else l).
Proof. unfold reparent. repeat case_decide; done. Qed.

Section reparent.
Context (st st' : qmgr) (c : nat) (cb : QMGR_JOB) (new : option nat).
#[local] Notation old := (j_stack_parent cb).
#[local] Notation moved := (reparent c old new).
Context (Hwf : wf_core st) (Hc : jobs st !! c = Some cb).
Context (Hnew : forall q, new = Some q -> old <> Some q /\ exists qb, jobs st !! q = Some qb /\
  j_transport qb = j_transport cb /\ 0 <= j_stack_level qb < j_stack_level cb).
Context (Hch : jobs_changed moved st st').
#[local] Set Default Proof Using "All".

Lemma moved_back i ib' : jobs st' !! i = Some ib' -> exists ib, jobs st !! i = Some ib /\ ib' = moved i ib.
Proof. rewrite (jc_jobs _ _ _ Hch). intros (ib & H & ->)%fmap_Some. by exists ib. Qed.
Lemma moved_forth i ib : jobs st !! i = Some ib -> jobs st' !! i = Some (moved i ib).
Proof. intros H. by rewrite (jc_jobs _ _ _ Hch), H. Qed.
Lemma moved_children i ib x : jobs st !! i = Some ib -> x ∈ j_stack_children (moved i ib) <->
  (x ∈ j_stack_children ib /\ (x = c -> Some i <> old)) \/ (x = c /\ Some i = new).
Proof.
  intros Hi. destruct (reparent_fields c old new i ib) as (_ & _ & _ & _ & _ & ->).
  pose proof (list_unlink_elem c x _ (wf_children_nodup _ Hwf _ _ Hi)) as Hu. cbv zeta.
  repeat case_decide; rewrite ?elem_of_app, ?list_elem_of_singleton, ?Hu; naive_solver.
Qed.

Lemma moved_parent i ib' p : jobs st' !! i = Some ib' -> j_stack_parent ib' = Some p -> exists pb, jobs st' !! p = Some pb /\
  j_transport pb = j_transport ib' /\ 0 <= j_stack_level pb < j_stack_level ib' /\ i ∈ j_stack_children pb.
Proof.
  intros Hi Hp. destruct (moved_back _ _ Hi) as (ib & Hib & ->).
  destruct (reparent_fields c old new i ib) as (_ & E2 & E3 & _ & E5 & _). rewrite E5 in Hp. rewrite E2, E3.
  destruct (decide (i = c)) as [->|Hn].
  - assert (ib = cb) as -> by congruence. destruct (Hnew p Hp) as (Hne & pb & Hpb & F1 & F2).
    exists (moved p pb). destruct (reparent_fields c old new p pb) as (_ & -> & -> & _).
    split_and!; [by apply moved_forth|done|lia|lia|]. apply moved_children; [done|]. by right.
  - destruct (wf_parent _ Hwf _ _ _ Hib Hp) as (pb & Hpb & F1 & F2 & F3).
    exists (moved p pb). destruct (reparent_fields c old new p pb) as (_ & -> & -> & _).
    split_and!; [by apply moved_forth|done|lia|lia|]. apply moved_children; [done|]. by left.
Qed.

Lemma moved_child p pb' x : jobs st' !! p = Some pb' -> x ∈ j_stack_children pb' -> exists xb, jobs st' !! x = Some xb /\ j_stack_parent xb = Some p.
Proof.
  intros Hp Hx. destruct (moved_back _ _ Hp) as (pb & Hpb & ->). apply moved_children in Hx; [|done].
  destruct Hx as [[Hx Hno]|[-> Hq']].
  - destruct (wf_children _ Hwf _ _ _ Hpb Hx) as (xb & Hxb & Hxp). exists (moved x xb). split; [by apply moved_forth|].
    destruct (reparent_fields c old new x xb) as (_ & _ & _ & _ & -> & _). case_decide as Hd; [|done].
    subst x. assert (xb = cb) as -> by congruence. by destruct (Hno eq_refl).
  - exists (moved c cb). split; [by apply moved_forth|].
    destruct (reparent_fields c old new c cb) as (_ & _ & _ & _ & -> & _). by rewrite decide_True.
Qed.

Lemma moved_nodup p pb' : jobs st' !! p = Some pb' -> NoDup (j_stack_children pb').
Proof.
  intros Hp. destruct (moved_back _ _ Hp) as (pb & Hpb & ->). destruct (reparent_fields c old new p pb) as (_ & _ & _ & _ & _ & ->). cbv zeta.
  pose proof (wf_children_nodup _ Hwf _ _ Hpb) as Hnd. pose proof (list_unlink_nodup c _ Hnd) as Hnd'.
  destruct (decide (Some p = new)) as [Hpn|Hpn]; [|by case_decide].
  destruct (Hnew p (eq_sym Hpn)) as (Hne & _). rewrite decide_False by (intros E; apply Hne; by rewrite <- E).
  apply NoDup_app. split_and!; [done| |apply NoDup_singleton].
  intros x Hx ->%list_elem_of_singleton. destruct (wf_children _ Hwf _ _ _ Hpb Hx) as (xb & Hxb & Hxp). simplify_eq.
Qed.

Lemma wf_core_reparent : wf_core st'.
Proof.
  pose proof Hwf as [W1 W2 W3 W4 W5 W6 W7 W8 W9 W10]. pose proof Hch as [Hjobs Htr Hms Ha].
  assert (Hq : forall x, qtime st' x = qtime st x).
  { intros x. unfold qtime. rewrite Hjobs, Hms. destruct (jobs st !! x) as [xb|]; [|done].
    cbn. by destruct (reparent_fields c old new x xb) as (-> & _). }
  split; [| | | | |exact moved_parent|exact moved_child|exact moved_nodup| |].
  - intros i ib' Hi. destruct (moved_back _ _ Hi) as (ib & Hib & ->).
    destruct (reparent_fields c old new i ib) as (-> & -> & _). rewrite Htr, Hms. by apply (W1 i).
  - intros i [ib' Hi]. destruct (moved_back _ _ Hi) as (ib & Hib & _). rewrite Ha. apply W2. by exists ib.
  - intros t trx. rewrite Htr. intros Ht. destruct (W3 _ _ Ht) as (H1 & H2 & H3). split_and!; [done..|].
    intros i. rewrite H3. unfold on_list. split.
    + intros (ib & Hib & E1 & E2). exists (moved i ib).
      destruct (reparent_fields c old new i ib) as (_ & -> & -> & _). split; [by apply moved_forth|done].
    + intros (ib' & Hib' & E1 & E2). destruct (moved_back _ _ Hib') as (ib & Hib & ->). exists ib.
      destruct (reparent_fields c old new i ib) as (_ & F1 & F2 & _). by rewrite F1, F2 in *.
  - intros t trx. rewrite Htr. intros Ht. eapply sorted_ext; [|by apply (W4 t)].
    intros a b. unfold by_time. by rewrite !Hq.
  - intros i ib' Hi. destruct (moved_back _ _ Hi) as (ib & Hib & ->).
    destruct (reparent_fields c old new i ib) as (_ & _ & -> & _). by apply (W5 i).
  - intros t trx name i. rewrite Htr. intros Ht Hn. destruct (W9 _ _ _ _ Ht Hn) as (ib & msg & Hib & E1 & Hm & Hid).
    exists (moved i ib), msg. destruct (reparent_fields c old new i ib) as (-> & -> & _). rewrite Hms.
    split; [by apply moved_forth|done].
  - rewrite Hms. exact W10.
Qed.
End reparent.

(** ** The preemption stack *)

(** What the stack operations leave alone in a job. *)
Definition smask (jb : QMGR_JOB) : QMGR_JOB :=
  set_j_stack_parent None (set_j_stack_children [] (set_j_stack_level 0
    (set_j_slots_available 0 (set_j_slots_used 0 jb)))).

(** Only stack data of jobs of transport [t] differs, and the transports. *)
Record stack_frame (t : nat) (st st' : qmgr) : Prop := {
  sf_m : messages st' = messages st;
  sf_others : others st' = others st;
  sf_j i : smask <$> jobs st' !! i = smask <$> jobs st !! i;
  sf_elsewhere i ib : jobs st !! i = Some ib -> j_transport ib <> t -> jobs st' !! i = Some ib
}.

Lemma smask_inv a b : smask a = smask b ->
  j_message a = j_message b /\ j_transport a = j_transport b /\ j_rcpt_limit a = j_rcpt_limit b /\
  j_rcpt_count a = j_rcpt_count b /\ j_blocker_tag a = j_blocker_tag b /\ j_peer_list a = j_peer_list b /\
  j_selected_entries a = j_selected_entries b /\ j_read_entries a = j_read_entries b.
Proof. destruct a, b. unfold smask. cbn. intros H. injection H. intros. subst. done. Qed.

Lemma sf_job t st st' i ib : stack_frame t st st' -> jobs st !! i = Some ib ->
  exists ib', jobs st' !! i = Some ib' /\ smask ib' = smask ib.
Proof. intros Hf Hi. apply (view_some smask _ _ _ (sf_j _ _ _ Hf i) Hi). Qed.

Lemma sf_refl t st : stack_frame t st st.
Proof. done. Qed.

Lemma sf_trans t s1 s2 s3 : stack_frame t s1 s2 -> stack_frame t s2 s3 -> stack_frame t s1 s3.
Proof.
  intros H1 H2. split.
  - by rewrite (sf_m _ _ _ H2), (sf_m _ _ _ H1).
  - by rewrite (sf_others _ _ _ H2), (sf_others _ _ _ H1).
  - intros i. by rewrite (sf_j _ _ _ H2), (sf_j _ _ _ H1).
  - intros i ib Hi Hn. apply (sf_elsewhere _ _ _ H2); [by apply (sf_elsewhere _ _ _ H1)|done].
Qed.

Lemma sf_put_job t st j jb jb' :
  jobs st !! j = Some jb -> smask jb' = smask jb -> j_transport jb = t -> stack_frame t st (put_job j jb' st).
Proof.
  intros Hj Hv Ht. split; [done|done| |].
  - intros i. cbn. rewrite lookup_insert_dec. case_decide; [subst; by rewrite Hj; cbn; rewrite Hv|done].
  - intros i ib Hi Hn. cbn. rewrite lookup_insert_dec. case_decide; [|done]. subst. congruence.
Qed.

Lemma map_sum_views {A B} (v : A -> B) (f : A -> Z) (m m' : gmap nat A) :
  (forall i, v <$> m' !! i = v <$> m !! i) -> (forall x y, v x = v y -> f x = f y) ->
  map_sum f m' = map_sum f m.
Proof.
  intros Hv Hf. revert m' Hv. induction m as [|i x m Hi IH] using map_ind; intros m' Hv.
  - assert (m' = ∅) as ->; [|done]. apply map_eq. intros i. specialize (Hv i).
    rewrite lookup_empty in *. by destruct (m' !! i).
  - pose proof (Hv i) as Hvi. rewrite lookup_insert_eq in Hvi.
    destruct (m' !! i) as [x'|] eqn:Hx'; [|done].
    assert (Hd : forall j, v <$> delete i m' !! j = v <$> m !! j).
    { intros j. destruct (decide (i = j)) as [<-|Hn]; [by rewrite lookup_delete_eq, Hi|].
      rewrite lookup_delete_ne by done. specialize (Hv j). by rewrite lookup_insert_ne in Hv. }
    rewrite map_sum_insert_new, <- (IH (delete i m') Hd), (map_sum_delete _ _ _ _ Hx') by done.
    cbn in Hvi. assert (E : f x' = f x) by (apply Hf; congruence). rewrite E. lia.
Qed.

(** The pools are as before, too. *)
Definition pools_eq (st st' : qmgr) : Prop :=
  forall t, t_rcpt_unused <$> transports st' !! t = t_rcpt_unused <$> transports st !! t.

Lemma conserved_stack t st st' : stack_frame t st st' -> pools_eq st st' -> conserved st st'.
Proof.
  intros Hf Hp. split; intros x; [unfold slots|unfold message_slots].
  - assert (E : map_sum (fun jb => if decide (j_transport jb = x) then j_rcpt_limit jb else 0) (jobs st') =
      map_sum (fun jb => if decide (j_transport jb = x) then j_rcpt_limit jb else 0) (jobs st)).
    { apply (map_sum_views smask); [apply Hf|]. intros a b (_ & -> & -> & _)%smask_inv. done. }
    rewrite E. specialize (Hp x). destruct (transports st' !! x), (transports st !! x); cbn in *; congruence.
  - assert (E : map_sum (fun jb => if decide (j_message jb = x) then j_rcpt_limit jb else 0) (jobs st') =
      map_sum (fun jb => if decide (j_message jb = x) then j_rcpt_limit jb else 0) (jobs st)).
    { apply (map_sum_views smask); [apply Hf|]. intros a b (-> & _ & -> & _)%smask_inv. done. }
    by rewrite E, (sf_m _ _ _ Hf).
Qed.

Lemma rise_stack t ex st st' : stack_frame t st st' -> pools_eq st st' -> rise ex st st'.
Proof.
  intros Hf Hp. split.
  - intros i ib' Hi. destruct (view_some smask _ _ _ (eq_sym (sf_j _ _ _ Hf i)) Hi) as (ib & Hib & Hv).
    exists ib. split; [done|]. intros _. apply smask_inv in Hv as (_ & _ & -> & _). lia.
  - intros x tr' Hx. destruct (view_some t_rcpt_unused _ _ _ (eq_sym (Hp x)) Hx) as (tr & Htr & Hv).
    exists tr. split; [done|lia].
Qed.

(** One round of the loop of qmgr_job_parent_gone(). *)
Definition adopted (job child : nat) (parent : option nat) (st st' : qmgr) : Prop :=
  jobs_changed (reparent child (Some job) parent) st st' /\ others st' = others st.

Lemma adopt_ok job jb parent child st (Q : unit -> qmgr -> Prop) (rest : M unit) :
  wf_core st -> jobs st !! job = Some jb -> child ∈ j_stack_children jb ->
  (forall p, parent = Some p -> exists pb, jobs st !! p = Some pb /\ j_stack_level pb < j_stack_level jb) ->
  (forall st', adopted job child parent st st' -> wp rest st' Q) ->
  wp (upd_job job (fun jb => set_j_stack_children (list_unlink child (j_stack_children jb)) jb);;
      (match parent with
       | Some parent => upd_job parent (fun pb => set_j_stack_children (j_stack_children pb ++ [child]) pb)
       | None => mret tt
       end);;
      upd_job child (set_j_stack_parent parent);; rest) st Q.
Proof.
  intros Hwf Hj Hc Hp Hrest. destruct (wf_children _ Hwf _ _ _ Hj Hc) as (cb & Hcb & Hcp).
  destruct (wf_parent _ Hwf _ _ _ Hcb Hcp) as (jb0 & Hj0 & _ & Hlev & _). assert (jb0 = jb) as -> by congruence.
  assert (Hcj : child <> job) by (intros ->; assert (cb = jb) as -> by congruence; lia).
  apply wp_bind, (wp_upd_job _ _ _ jb); [done|]. set (jb1 := set_j_stack_children _ jb).
  destruct parent as [p|].
  - destruct (Hp p eq_refl) as (pb & Hpb & Hpl).
    assert (Hpj : p <> job) by (intros ->; assert (pb = jb) as -> by congruence; lia).
    assert (Hpc : p <> child) by (intros ->; assert (pb = cb) as -> by congruence; lia).
    apply wp_bind, (wp_upd_job _ _ _ pb); [cbn; by rewrite lookup_insert_ne|].
    apply wp_bind, (wp_upd_job _ _ _ cb); [cbn; by rewrite !lookup_insert_ne|].
    apply Hrest. split; [split; [|done..]|done]. intros i. cbn. rewrite !lookup_insert_dec. unfold reparent.
    destruct (decide (child = i)) as [<-|Hci].
    { rewrite Hcb. cbn. rewrite !(decide_False (P := Some child = Some _)) by congruence. by rewrite decide_True. }
    destruct (decide (p = i)) as [<-|Hpi].
    { rewrite Hpb. cbn. rewrite (decide_False (P := Some p = Some job)), (decide_True (P := Some p = Some p)) by congruence.
      by rewrite decide_False by congruence. }
    destruct (decide (job = i)) as [<-|Hji].
    { rewrite Hj. cbn. rewrite (decide_True (P := Some job = Some job)), (decide_False (P := Some job = Some p)) by congruence.
      by rewrite decide_False by congruence. }
    destruct (jobs st !! i); [|done]. cbn. by rewrite !decide_False by congruence.
  - apply wp_bind, wp_ret. apply wp_bind, (wp_upd_job _ _ _ cb); [cbn; by rewrite !lookup_insert_ne|].
    apply Hrest. split; [split; [|done..]|done]. intros i. cbn. rewrite !lookup_insert_dec. unfold reparent.
    destruct (decide (child = i)) as [<-|Hci].
    { rewrite Hcb. cbn. rewrite !(decide_False (P := Some child = _)) by congruence. by rewrite decide_True. }
    destruct (decide (job = i)) as [<-|Hji].
    { rewrite Hj. cbn. rewrite (decide_True (P := Some job = Some job)), (decide_False (P := Some job = None)) by congruence.
      by rewrite decide_False by congruence. }
    destruct (jobs st !! i); [|done]. cbn. by rewrite !decide_False by congruence.
Qed.

Lemma smask_reparent c old new i jb : smask (reparent c old new i jb) = smask jb.
Proof. unfold reparent. repeat case_decide; done. Qed.

Lemma reparent_other c old new i jb : Some i <> old -> Some i <> new -> i <> c -> reparent c old new i jb = jb.
Proof. intros H1 H2 H3. unfold reparent. by rewrite !decide_False. Qed.

(** A possible parent for the children of a job. *)
Definition parent_ok (st : qmgr) (jb : QMGR_JOB) (parent : option nat) : Prop := forall p, parent = Some p ->
  exists pb, jobs st !! p = Some pb /\ j_transport pb = j_transport jb /\
    0 <= j_stack_level pb < j_stack_level jb.

Lemma adopted_frame st st' job jb child cb parent :
  wf_core st -> jobs st !! job = Some jb -> jobs st !! child = Some cb -> j_stack_parent cb = Some job ->
  parent_ok st jb parent -> adopted job child parent st st' ->
  wf_core st' /\ stack_frame (j_transport jb) st st'.
Proof.
  intros Hwf Hj Hc Hcp Hp [Hch Ho]. destruct (wf_parent _ Hwf _ _ _ Hc Hcp) as (jb0 & Hj0 & Et & Hl & _).
  assert (jb0 = jb) as -> by congruence. split.
  - apply (wf_core_reparent st st' child cb parent); [done|done| |by rewrite Hcp].
    intros q Hq. destruct (Hp q Hq) as (qb & Hqb & E & Hlq). split.
    + rewrite Hcp. intros [= <-]. assert (qb = jb) as -> by congruence. lia.
    + exists qb. split_and!; [done|congruence|lia|lia].
  - split; [apply Hch|done| |].
    + intros i. rewrite (jc_jobs _ _ _ Hch). destruct (jobs st !! i); [|done]. cbn. by rewrite smask_reparent.
    + intros i ib Hi Hn. rewrite (jc_jobs _ _ _ Hch), Hi. cbn. f_equal. apply reparent_other.
      * intros [= ->]. congruence.
      * intros Hq. destruct (Hp i (eq_sym Hq)) as (qb & Hqb & E & _). congruence.
      * intros ->. congruence.
Qed.

Definition slots_view (jb : QMGR_JOB) := (j_slots_available jb, j_slots_used jb).

Lemma parent_gone_loop_ok job parent l : forall st jb,
  wf_core st -> jobs st !! job = Some jb -> j_stack_children jb = l -> parent_ok st jb parent ->
  wp (parent_gone_loop job parent l) st (fun _ st' =>
    wf_core st' /\ stack_frame (j_transport jb) st st' /\ transports st' = transports st /\
    jobs st' !! job = Some (set_j_stack_children [] jb) /\
    (forall i, slots_view <$> jobs st' !! i = slots_view <$> jobs st !! i) /\
    (parent = None -> forall i, i <> job ->
       j_stack_children <$> jobs st' !! i = j_stack_children <$> jobs st !! i)).
Proof.
  induction l as [|child l IH]; intros st jb Hwf Hj Hch Hp; cbn [parent_gone_loop].
  { apply wp_ret. split_and!; [done|apply sf_refl|done| |done|done]. rewrite Hj, <- Hch. by destruct jb. }
  destruct (wf_children _ Hwf job jb child Hj) as (cb & Hcb & Hcp); [rewrite Hch; by left|].
  destruct (wf_parent _ Hwf _ _ _ Hcb Hcp) as (jb0 & Hj0 & _ & Hl & _). assert (jb0 = jb) as -> by congruence.
  assert (Hcj : child <> job) by (intros ->; assert (cb = jb) as -> by congruence; lia).
  apply (adopt_ok job jb); [done|done|rewrite Hch; by left| |].
  { intros p Hpp. destruct (Hp p Hpp) as (pb & Hpb & _ & H). exists pb. split; [done|lia]. }
  intros st1 Had. destruct (adopted_frame st st1 job jb child cb parent) as [Hwf1 Hf1]; [done..|].
  destruct Had as [Hch1 Ho1].
  assert (Hpj : parent <> Some job).
  { intros Hq. destruct (Hp job Hq) as (qb & Hqb & _ & H). assert (qb = jb) as -> by congruence. lia. }
  assert (Hj1 : jobs st1 !! job = Some (set_j_stack_children l jb)).
  { rewrite (jc_jobs _ _ _ Hch1), Hj. cbn. f_equal. unfold reparent.
    rewrite (decide_True (P := Some job = Some job)), (decide_False (P := Some job = parent)),
      (decide_False (P := job = child)) by congruence.
    rewrite Hch. unfold list_unlink. cbn. by rewrite !decide_True. }
  eapply wp_mono; [apply (IH st1 (set_j_stack_children l jb)); [done|done|done|]|].
  - intros p Hpp. destruct (Hp p Hpp) as (pb & Hpb & E & H).
    exists (reparent child (Some job) parent p pb). rewrite (jc_jobs _ _ _ Hch1), Hpb.
    destruct (reparent_fields child (Some job) parent p pb) as (_ & -> & -> & _). done.
  - intros _ st' (Hwf' & Hf' & Ht' & Hj' & Hn' & Hpar'). split_and!; [done| | |done| |].
    + by eapply sf_trans.
    + rewrite Ht'. apply Hch1.
    + intros i. rewrite Hn', (jc_jobs _ _ _ Hch1). destruct (jobs st !! i) as [ib|]; [|done]. cbn.
      f_equal. unfold slots_view, reparent. by repeat case_decide.
    + intros -> i Hi. rewrite (Hpar' eq_refl i Hi), (jc_jobs _ _ _ Hch1).
      destruct (jobs st !! i) as [ib|]; [|done]. cbn.
      destruct (reparent_fields child (Some job) None i ib) as (_ & _ & _ & _ & _ & ->). cbv zeta.
      by rewrite !decide_False by congruence.
Qed.

Lemma parent_gone_ok job jb parent st :
  wf_core st -> jobs st !! job = Some jb -> parent_ok st jb parent ->
  wp (qmgr_job_parent_gone job parent) st (fun _ st' =>
    wf_core st' /\ stack_frame (j_transport jb) st st' /\ transports st' = transports st /\
    jobs st' !! job = Some (set_j_stack_children [] jb) /\
    (forall i, slots_view <$> jobs st' !! i = slots_view <$> jobs st !! i) /\
    (parent = None -> forall i, i <> job ->
       j_stack_children <$> jobs st' !! i = j_stack_children <$> jobs st !! i)).
Proof.
  intros Hwf Hj Hp. unfold qmgr_job_parent_gone. apply wp_bind, (wp_get_job _ _ jb); [done|].
  by apply parent_gone_loop_ok.
Qed.

Lemma put_transport_id t tr st : transports st !! t = Some tr -> put_transport t tr st = st.
Proof. intros H. unfold put_transport, set_transports. rewrite insert_id by done. by destruct st. Qed.

(** Taking a job off its parent's list, in the two updates of qmgr_job_pop(). *)
Lemma leave_parent_changes job jb p pb st : jobs st !! p = Some pb -> jobs st !! job = Some jb -> p <> job ->
  jobs_changed (reparent job (Some p) None) st
    (put_job job (set_j_stack_parent None jb) (put_job p (set_j_stack_children (list_unlink job (j_stack_children pb)) pb) st)).
Proof.
  intros Hp Hj Hpj. split; [|done..]. intros i. cbn [jobs put_job set_jobs]. rewrite !lookup_insert_dec. unfold reparent.
  destruct (decide (job = i)) as [<-|Hi].
  { rewrite Hj. cbn. rewrite !(decide_False (P := Some job = _)) by congruence. by rewrite decide_True. }
  destruct (decide (p = i)) as [<-|Hpi].
  { rewrite Hp. cbn. rewrite (decide_True (P := Some p = Some p)), (decide_False (P := Some p = None)) by congruence.
    by rewrite decide_False by congruence. }
  destruct (jobs st !! i) as [ib|]; [|done]. cbn. by rewrite !decide_False by congruence.
Qed.

(** The first half of qmgr_job_pop(): the job leaves its parent. *)
Lemma leave_parent_ok job jb tr st (Q : unit -> qmgr -> Prop) (rest : M unit) :
  wf_core st -> jobs st !! job = Some jb -> transports st !! j_transport jb = Some tr -> 0 < j_stack_level jb ->
  (forall st', wf_core st' -> stack_frame (j_transport jb) st st' -> transports st' = transports st ->
     jobs st' !! job = Some (set_j_stack_parent None jb) -> parent_ok st' jb (j_stack_parent jb) ->
     (forall i ib, jobs st !! i = Some ib -> exists ib', jobs st' !! i = Some ib' /\
        j_slots_used ib' = j_slots_used ib /\
        j_slots_available ib' = j_slots_available ib -
          (if decide (j_stack_parent jb = Some i /\ j_stack_level jb = j_stack_level ib + 1)
           then j_slots_used jb * t_slot_cost tr else 0)) ->
     wp rest st' Q) ->
  wp ((match j_stack_parent jb with
       | Some parent =>
           pb ← get_job parent;
           if j_stack_level jb =? j_stack_level pb + 1 then
             upd_job parent (fun pb => set_j_slots_available
               (j_slots_available pb - j_slots_used jb * t_slot_cost tr) pb)
           else mret tt
       | None => mret tt
       end);;
      (match j_stack_parent jb with
       | Some parent =>
           upd_job parent (fun pb => set_j_stack_children (list_unlink job (j_stack_children pb)) pb);;
           upd_job job (set_j_stack_parent None)
       | None => mret tt
       end);; rest) st Q.
Proof.
  intros Hwf Hj Ht Hlev Hrest. destruct (j_stack_parent jb) as [p|] eqn:Hp.
  2:{ apply wp_bind, wp_ret. apply wp_bind, wp_ret. apply Hrest; [done|apply sf_refl|done| |by intros ?|].
      - rewrite Hj. f_equal. destruct jb. cbn in *. by subst.
      - intros i ib Hi. exists ib. rewrite decide_False by (by intros []). split_and!; [done|done|lia]. }
  destruct (wf_parent _ Hwf _ _ _ Hj Hp) as (pb & Hpb & Et & Hlp & Hin).
  assert (Hpj : p <> job) by (intros ->; assert (pb = jb) as -> by congruence; lia).
  set (d := if decide (j_stack_level jb = j_stack_level pb + 1) then j_slots_used jb * t_slot_cost tr else 0).
  set (pb1 := set_j_slots_available (j_slots_available pb - d) pb). set (st1 := put_job p pb1 st).
  apply wp_bind. apply wp_bind, (wp_get_job _ _ pb); [done|].
  assert (Hstep : wp (if j_stack_level jb =? j_stack_level pb + 1 then
             upd_job p (fun pb => set_j_slots_available (j_slots_available pb - j_slots_used jb * t_slot_cost tr) pb)
           else mret tt) st (fun _ st' => st' = st1)).
  { unfold st1, pb1, d. destruct (Z.eqb_spec (j_stack_level jb) (j_stack_level pb + 1)) as [E|E].
    - apply (wp_upd_job _ _ _ pb); [done|]. by rewrite decide_True.
    - apply wp_ret. rewrite decide_False by done. unfold put_job, set_jobs. rewrite Z.sub_0_r.
      rewrite insert_id; [by destruct st|]. rewrite Hpb. by destruct pb. }
  eapply wp_mono; [exact Hstep|]. intros [] st' ->. clear Hstep.
  assert (Hwf1 : wf_core st1) by (apply (wf_core_shape st); [by apply (shape_put_job _ _ pb)|done]).
  assert (Hp1 : jobs st1 !! p = Some pb1) by apply lookup_insert_eq.
  assert (Hj1 : jobs st1 !! job = Some jb) by (cbn; by rewrite lookup_insert_ne).
  apply wp_bind. apply wp_bind, (wp_upd_job _ _ _ pb1); [done|].
  apply (wp_upd_job _ _ _ jb); [cbn; by rewrite lookup_insert_ne|]. set (st2 := put_job job _ _).
  assert (Hch : jobs_changed (reparent job (Some p) None) st1 st2) by (by apply leave_parent_changes).
  apply Hrest.
  - apply (wf_core_reparent st1 st2 job jb None); [done|done|done|by rewrite Hp].
  - apply (sf_trans _ st st1 st2); [by apply (sf_put_job _ st p pb pb1)|]. split; [done|done| |].
    + intros i. rewrite (jc_jobs _ _ _ Hch). destruct (jobs st1 !! i); [|done]. cbn. by rewrite smask_reparent.
    + intros i ib Hi Hn. rewrite (jc_jobs _ _ _ Hch), Hi. cbn. f_equal. apply reparent_other; [|done|].
      * intros [= ->]. rewrite Hp1 in Hi. injection Hi as <-. by apply Hn.
      * intros ->. rewrite Hj1 in Hi. injection Hi as <-. by apply Hn.
  - done.
  - apply lookup_insert_eq.
  - intros q [= <-]. rewrite (jc_jobs _ _ _ Hch), Hp1. eexists. split; [done|].
    destruct (reparent_fields job (Some p) None p pb1) as (_ & -> & -> & _). split_and!; [done|cbn; lia|cbn; lia].
  - intros i ib Hi. rewrite (jc_jobs _ _ _ Hch). unfold st1. cbn [jobs put_job set_jobs]. rewrite lookup_insert_dec.
    assert (Hsl : forall x, j_slots_used (reparent job (Some p) None i x) = j_slots_used x /\
      j_slots_available (reparent job (Some p) None i x) = j_slots_available x).
    { intros x. unfold reparent. by repeat case_decide. }
    destruct (decide (p = i)) as [<-|Hpi].
    + assert (ib = pb) as -> by congruence. eexists. split; [done|]. destruct (Hsl pb1) as [-> ->].
      split; [done|]. cbn. unfold d. destruct (decide (j_stack_level jb = j_stack_level pb + 1)).
      * by rewrite decide_True.
      * rewrite decide_False; [lia|]. by intros [].
    + rewrite Hi. eexists. split; [done|]. destruct (Hsl ib) as [-> ->]. rewrite decide_False; [split; [done|lia]|].
      intros [[=] _]. done.
Qed.

(** What a popped job gives back to its parent, if that is the job it preempted:
    the difference of the slots it was charged and those it used. *)
Definition pop_slots (jb : QMGR_JOB) (tr : QMGR_TRANSPORT) (i : nat) (ib : QMGR_JOB) : Z :=
  if decide (j_stack_parent jb = Some i /\ j_stack_level jb = j_stack_level ib + 1)
  then j_slots_used jb * t_slot_cost tr else 0.

Definition popped (jb : QMGR_JOB) : QMGR_JOB :=
  set_j_stack_level 0 (set_j_stack_children [] (set_j_stack_parent None jb)).

Lemma pop_ok job jb tr st :
  wf_core st -> jobs st !! job = Some jb -> transports st !! j_transport jb = Some tr -> 0 < j_stack_level jb ->
  wp (qmgr_job_pop job) st (fun _ st' =>
    wf_core st' /\ stack_frame (j_transport jb) st st' /\
    transports st' = <[j_transport jb := set_t_candidate_cache_current None tr]> (transports st) /\
    jobs st' !! job = Some (popped jb) /\
    (forall i ib, jobs st !! i = Some ib -> exists ib', jobs st' !! i = Some ib' /\
       j_slots_used ib' = j_slots_used ib /\ j_slots_available ib' = j_slots_available ib - pop_slots jb tr i ib)).
Proof.
  intros Hwf Hj Ht Hlev. unfold qmgr_job_pop. apply wp_bind, (wp_get_job _ _ jb); [done|].
  apply wp_bind, (wp_get_transport _ _ tr); [done|].
  apply wp_bind, wp_panic_if; [by apply Z.leb_gt|].
  apply (leave_parent_ok job jb tr st); [done..|]. intros st1 Hwf1 Hf1 Ht1 Hj1 Hpar1 Hslots.
  apply wp_bind. eapply wp_mono; [apply (parent_gone_ok job (set_j_stack_parent None jb) (j_stack_parent jb)); done|].
  intros _ st2 (Hwf2 & Hf2 & Ht2 & Hj2 & Hsl2 & _).
  apply wp_bind, (wp_upd_job _ _ _ (set_j_stack_children [] (set_j_stack_parent None jb))); [done|].
  change (j_transport (set_j_stack_parent None jb)) with (j_transport jb) in Hf2.
  set (jb2 := set_j_stack_children [] (set_j_stack_parent None jb)) in *. set (st3 := put_job job _ st2).
  assert (Htr2 : transports st2 !! j_transport jb2 = Some tr) by (by rewrite Ht2, Ht1).
  destruct (wf_lists _ Hwf2 _ _ Htr2) as (Hnd & Hperm & Hin).
  assert (Hwf3 : wf_core st3).
  { unfold st3. rewrite <- (put_transport_id (j_transport jb2) tr (put_job job (set_j_stack_level 0 jb2) st2)) by done.
    apply (wf_core_set_level st2 job jb2 tr tr 0); [done..|by eapply wf_sorted|].
    intros i. destruct (decide (i = job)) as [->|Hn]; [|naive_solver].
    rewrite Hin. split; [intros _; left; split; [done|lia]|]. intros _. exists jb2. split_and!; [done|done|].
    cbn. lia. }
  apply (wp_upd_transport _ _ _ tr); [done|]. split_and!.
  - apply (wf_core_shape st3); [by apply (shape_put_transport _ _ tr)|done].
  - eapply sf_trans; [exact Hf1|]. eapply sf_trans; [exact Hf2|].
    apply (sf_trans _ st2 st3); [by apply (sf_put_job _ st2 job jb2)|]. done.
  - cbn. by rewrite Ht2, Ht1.
  - apply lookup_insert_eq.
  - intros i ib Hi. destruct (Hslots i ib Hi) as (ib1 & Hi1 & E1 & E2).
    destruct (view_some slots_view _ _ _ (Hsl2 i) Hi1) as (ib2 & Hi2 & E3). injection E3 as E3 E4.
    cbn. rewrite lookup_insert_dec. destruct (decide (job = i)) as [<-|Hn].
    + assert (ib2 = jb2) as -> by congruence. eexists. split; [done|]. cbn in *. unfold pop_slots. lia.
    + exists ib2. unfold pop_slots. split_and!; [done|lia|lia].
Qed.

Lemma put_put_transport t x y st : put_transport t x (put_transport t y st) = put_transport t x st.
Proof. unfold put_transport, set_transports. cbn. by rewrite insert_insert_eq. Qed.
Lemma put_put_job j x y st : put_job j x (put_job j y st) = put_job j x st.
Proof. unfold put_job, set_jobs. cbn. by rewrite insert_insert_eq. Qed.

Lemma put_job_lookup t x j y st k :
  jobs (put_transport t x (put_job j y st)) !! k = if decide (j = k) then Some y else jobs st !! k.
Proof. apply lookup_insert_dec. Qed.

Lemma next_in_elem x l y : next_in x l = Some y -> y ∈ after x l.
Proof. unfold next_in. destruct (after x l) as [|z l']; [done|]. intros [= ->]. by left. Qed.

Lemma sublist_after x l : before x l ++ after x l = list_unlink x l.
Proof. done. Qed.

Lemma sorted_unlink (R : nat -> nat -> Prop) x l : StronglySorted R l -> StronglySorted R (list_unlink x l).
Proof.
  intros Hs. destruct (decide (x ∈ l)) as [Hx|Hx]; [|by rewrite list_unlink_not_in].
  rewrite (before_after x l Hx) in Hs. unfold list_unlink. apply StronglySorted_app in Hs as (H1 & H2 & H3).
  apply StronglySorted_cons in H3 as [_ H3]. apply StronglySorted_app. split_and!; [|done|done].
  intros a b Ha Hb. apply H1; [done|by right].
Qed.

(** The transport without the job on its lists; the cursors are those that
    qmgr_job_unlink() leaves. *)
Definition unlisted (job : nat) (tr : QMGR_TRANSPORT) : QMGR_TRANSPORT :=
  let tr1 := if decide (t_job_current tr = Some job)
             then set_t_job_current (next_in job (t_job_list tr)) tr else tr in
  let tr2 := if decide (t_candidate_cache tr = Some job \/ t_candidate_cache_current tr = Some job)
             then set_t_candidate_cache_current None tr1 else tr1 in
  set_t_job_bytime (list_unlink job (t_job_bytime tr)) (set_t_job_list (list_unlink job (t_job_list tr)) tr2).

Lemma unlisted_fields job tr :
  t_job_byname (unlisted job tr) = t_job_byname tr /\ t_job_list (unlisted job tr) = list_unlink job (t_job_list tr) /\
  t_job_bytime (unlisted job tr) = list_unlink job (t_job_bytime tr) /\
  t_job_next_unread (unlisted job tr) = t_job_next_unread tr /\ t_rcpt_unused (unlisted job tr) = t_rcpt_unused tr /\
  t_candidate_cache (unlisted job tr) = t_candidate_cache tr.
Proof. unfold unlisted. by repeat case_decide. Qed.

Lemma unlisted_cursors t job tr st st' :
  cursors_ok st -> transports st !! t = Some tr -> transports st' = <[t := unlisted job tr]> (transports st) ->
  NoDup (t_job_list tr) -> job ∈ t_job_list tr -> t_job_next_unread tr <> Some job -> cursors_ok st'.
Proof.
  intros Hcur Ht Ht' Hnd Hjl Hun x trx. rewrite Ht', lookup_insert_dec. case_decide as Hd; [|apply Hcur]. intros [= <-].
  destruct (unlisted_fields job tr) as (_ & E2 & _ & E4 & _). rewrite E2, E4. destruct (Hcur _ _ Ht) as [Hc1 Hc2].
  split; intros i Hi; apply list_unlink_elem; try done; [|split; [by apply Hc2|congruence]].
  assert (Hi' : (if decide (t_job_current tr = Some job) then next_in job (t_job_list tr) else t_job_current tr) = Some i)
    by (unfold unlisted in Hi; by repeat case_decide).
  case_decide as Hdc; [|split; [by apply Hc1|congruence]]. apply next_in_elem in Hi'. split; [by eapply after_elem|].
  intros ->. by apply (after_not_self job (t_job_list tr)).
Qed.

Lemma unlisted_cache t job jb tr st st' :
  wf_core st -> cache_ok (fun x => x = t) st -> candidate_ok st tr -> transports st !! t = Some tr ->
  jobs st !! job = Some jb -> j_transport jb = t -> transports st' = <[t := unlisted job tr]> (transports st) ->
  (forall k, k <> job -> j_stack_children <$> jobs st' !! k = j_stack_children <$> jobs st !! k) ->
  cache_ok (fun _ => False) st'.
Proof.
  intros Hwf Hcache Hcand Ht Hj Ejt Ht' Hch x trx _ Hx c k Hc Hk. rewrite Ht', lookup_insert_dec in Hx.
  assert (Hkeep : k <> job -> forall kb, jobs st !! k = Some kb -> j_stack_children kb = [] ->
    exists kb', jobs st' !! k = Some kb' /\ j_stack_children kb' = []).
  { intros Hn kb Hkb Hkc. pose proof (Hch k Hn) as Hv. rewrite Hkb in Hv.
    destruct (view_some j_stack_children _ _ _ (Hch k Hn) Hkb) as (kb' & ? & ?). exists kb'. split; [done|congruence]. }
  case_decide as Hd.
  - injection Hx as <-. destruct (unlisted_fields job tr) as (_ & E2 & _ & _ & _ & E6). rewrite E6 in Hk. rewrite E2.
    destruct (decide (t_candidate_cache tr = Some job \/ t_candidate_cache_current tr = Some job)) as [Ho|Hnot].
    { unfold unlisted in Hc. rewrite (decide_True (P := _ \/ _)) in Hc by done. by case_decide. }
    assert (Hc' : t_candidate_cache_current tr = Some c).
    { unfold unlisted in Hc. rewrite (decide_False (P := _ \/ _)) in Hc by done. by case_decide. }
    destruct (Hcand c k Hc' Hk) as (H1 & H2 & kb & Hkb & Hkc). assert (Hkj : k <> job) by (intros ->; apply Hnot; by left).
    pose proof (proj1 (wf_lists _ Hwf _ _ Ht)) as Hnd. split_and!; [done|by apply list_unlink_elem|by eapply Hkeep].
  - destruct (Hcache x trx ltac:(by intros ->) Hx c k Hc Hk) as (H1 & H2 & kb & Hkb & Hkc). split_and!; [done|done|].
    eapply Hkeep; [|done..]. intros ->. destruct (proj1 (proj2 (proj2 (wf_lists _ Hwf x trx Hx)) job) H2) as (kb' & Hkb' & Hkt & _).
    apply Hd. congruence.
Qed.

(** The transport that the guards of qmgr_job_unlink() leave. *)
Lemma unlink_cursors_wp t job tr st (Q : unit -> qmgr -> Prop) (rest : M unit) : transports st !! t = Some tr ->
  wp rest (put_transport t (unlisted job tr) st) Q ->
  wp ((if decide (t_job_current tr = Some job) then upd_transport t (set_t_job_current (next_in job (t_job_list tr))) else mret tt);;
      (if decide (t_candidate_cache tr = Some job \/ t_candidate_cache_current tr = Some job)
       then upd_transport t (set_t_candidate_cache_current None) else mret tt);;
      upd_transport t (fun tr => set_t_job_list (list_unlink job (t_job_list tr)) tr);;
      upd_transport t (fun tr => set_t_job_bytime (list_unlink job (t_job_bytime tr)) tr);; rest) st Q.
Proof.
  intros Ht HQ.
  set (tr1 := if decide (t_job_current tr = Some job) then set_t_job_current (next_in job (t_job_list tr)) tr else tr).
  apply wp_bind. apply (wp_mono _ _ (fun _ st' => st' = put_transport t tr1 st)).
  { unfold tr1. apply wp_decide; intros Hd.
    - apply (wp_upd_transport _ _ _ tr); [done|]. by rewrite decide_True.
    - apply wp_ret. rewrite decide_False by done. by rewrite put_transport_id. }
  intros _ st' ->.
  set (tr2 := if decide (t_candidate_cache tr = Some job \/ t_candidate_cache_current tr = Some job)
             then set_t_candidate_cache_current None tr1 else tr1).
  apply wp_bind. apply (wp_mono _ _ (fun _ st' => st' = put_transport t tr2 st)).
  { unfold tr2. apply wp_decide; intros Hd.
    - apply (wp_upd_transport _ _ _ tr1); [apply lookup_insert_eq|]. by rewrite decide_True, put_put_transport.
    - apply wp_ret. by rewrite decide_False. }
  intros _ st' ->.
  apply wp_bind, (wp_upd_transport _ _ _ tr2); [apply lookup_insert_eq|]. rewrite put_put_transport.
  apply wp_bind. eapply wp_upd_transport; [apply lookup_insert_eq|]. rewrite put_put_transport.
  replace (set_t_job_bytime _ _) with (unlisted job tr); [done|].
  unfold unlisted. fold tr1. fold tr2. unfold tr2, tr1. by repeat case_decide.
Qed.

Lemma unlink_ok job jb tr st :
  wf_core st -> cursors_ok st -> cache_ok (fun x => x = j_transport jb) st ->
  candidate_ok st tr ->
  jobs st !! job = Some jb -> transports st !! j_transport jb = Some tr ->
  j_stack_level jb = 0 -> t_job_next_unread tr <> Some job ->
  wp (qmgr_job_unlink job) st (fun _ st' =>
    wf st' /\ stack_frame (j_transport jb) st st' /\
    transports st' = <[j_transport jb := unlisted job tr]> (transports st) /\
    jobs st' !! job = Some (set_j_stack_level (-1) (set_j_stack_children [] jb))).
Proof.
  intros Hwf Hcur Hcache Hcand Hj Ht Hlev Hun. unfold qmgr_job_unlink.
  pose proof (level_zero_no_parent _ _ _ Hwf Hj ltac:(lia)) as Hpar.
  apply wp_bind, (wp_get_job _ _ jb); [done|]. cbv zeta.
  apply wp_bind, wp_panic_if; [by rewrite Hlev|]. apply wp_bind, wp_panic_if; [by rewrite Hpar|].
  apply wp_bind. unfold stack_siblings_next. rewrite Hpar. apply wp_ret. apply wp_bind, wp_panic_if; [done|].
  apply wp_bind. eapply wp_mono; [apply (parent_gone_ok job jb None); [done|done|by intros ?]|].
  intros _ st1 (Hwf1 & Hf1 & Ht1 & Hj1 & _ & Hch). specialize (Hch eq_refl).
  rewrite <- Ht1 in Ht. set (t := j_transport jb) in *.
  apply wp_bind, (wp_get_transport _ _ tr); [done|].
  apply unlink_cursors_wp; [done|].
  apply (wp_upd_job _ _ _ (set_j_stack_children [] jb)); [done|]. set (jb1 := set_j_stack_children [] jb) in *.
  change (put_job job (set_j_stack_level (-1) jb1) (put_transport t (unlisted job tr) st1)) with
    (put_transport (j_transport jb1) (unlisted job tr) (put_job job (set_j_stack_level (-1) jb1) st1)).
  destruct (unlisted_fields job tr) as (E1 & E2 & E3 & E4 & E5 & E6).
  destruct (wf_lists _ Hwf1 _ _ Ht) as (Hnd & Hperm & Hin). pose proof (bytime_nodup _ _ _ Hwf1 Ht) as Hndt.
  assert (Hjl : job ∈ t_job_list tr) by (apply Hin; exists jb1; split_and!; [done|done|cbn; lia]).
  assert (Ht0 : transports st !! t = Some tr) by (by rewrite <- Ht1).
  split_and!; [split| | |apply lookup_insert_eq].
  - apply (wf_core_set_level st1 job jb1 tr); [done..|cbn; lia|done| | | |].
    + rewrite E2. by apply list_unlink_nodup.
    + rewrite E2, E3. apply (Permutation_cons_inv (a := job)).
      rewrite <- !list_unlink_perm by (rewrite ?Hperm; done). done.
    + rewrite E3. by apply sorted_unlink, (wf_sorted _ Hwf1 t).
    + intros i. rewrite E2, list_unlink_elem by done. naive_solver lia.
  - apply (unlisted_cursors t job tr st); [done..| |done|done|done]. cbn. by rewrite Ht1.
  - apply (unlisted_cache t job jb tr st); [done..| |]; [cbn; by rewrite Ht1|].
    intros k Hk. rewrite put_job_lookup, decide_False by done. by apply Hch.
  - eapply sf_trans; [exact Hf1|]. apply (sf_trans _ st1 (put_job job (set_j_stack_level (-1) jb1) st1)); [|done].
    by apply (sf_put_job _ st1 job jb1).
  - cbn. by rewrite Ht1.
Qed.

(** ** Retiring and freeing jobs *)

(** The parts of jobs, transports and messages that scheduling does not change. *)
Definition jstatic (jb : QMGR_JOB) : QMGR_JOB := set_j_rcpt_limit 0 (smask jb).
Definition tstatic (tr : QMGR_TRANSPORT) : QMGR_TRANSPORT :=
  set_t_rcpt_unused 0 (set_t_job_list [] (set_t_job_bytime [] (set_t_job_current None (set_t_job_next_unread None
    (set_t_candidate_cache None (set_t_candidate_cache_current None (set_t_candidate_cache_time 0 tr))))))).

Record static (st st' : qmgr) : Prop := {
  st_t t : tstatic <$> transports st' !! t = tstatic <$> transports st !! t;
  st_j j : jstatic <$> jobs st' !! j = jstatic <$> jobs st !! j;
  st_m m : mmask <$> messages st' !! m = mmask <$> messages st !! m;
  st_others : others st' = others st
}.

#[export] Instance static_preorder : PreOrder static.
Proof.
  split; [done|]. intros s1 s2 s3 H1 H2. split.
  - intros t. by rewrite (st_t _ _ H2), (st_t _ _ H1).
  - intros j. by rewrite (st_j _ _ H2), (st_j _ _ H1).
  - intros m. by rewrite (st_m _ _ H2), (st_m _ _ H1).
  - by rewrite (st_others _ _ H2), (st_others _ _ H1).
Qed.

Lemma tmask_static a b : tmask a = tmask b -> tstatic a = tstatic b.
Proof. destruct a, b. unfold tmask, tstatic. cbn. intros H. injection H. intros. by subst. Qed.
Lemma jmask_static a b : jmask a = jmask b -> jstatic a = jstatic b.
Proof. destruct a, b. unfold jmask, jstatic, smask. cbn. intros H. injection H. intros. by subst. Qed.
Lemma smask_static a b : smask a = smask b -> jstatic a = jstatic b.
Proof. destruct a, b. unfold smask, jstatic. cbn. intros H. injection H. intros. by subst. Qed.

Lemma jstatic_inv a b : jstatic a = jstatic b ->
  j_message a = j_message b /\ j_transport a = j_transport b /\ j_rcpt_count a = j_rcpt_count b /\
  j_blocker_tag a = j_blocker_tag b /\ j_peer_list a = j_peer_list b /\
  j_selected_entries a = j_selected_entries b /\ j_read_entries a = j_read_entries b.
Proof. destruct a, b. unfold jstatic, smask. cbn. intros H. injection H. intros. by subst. Qed.
Lemma tstatic_inv a b : tstatic a = tstatic b ->
  t_slot_cost a = t_slot_cost b /\ t_blocker_tag a = t_blocker_tag b /\ t_job_byname a = t_job_byname b /\
  t_rcpt_per_stack a = t_rcpt_per_stack b.
Proof. destruct a, b. unfold tstatic. cbn. intros H. injection H. intros. by subst. Qed.
Lemma mmask_inv a b : mmask a = mmask b ->
  m_rcpt_count a = m_rcpt_count b /\ m_rcpt_offset a = m_rcpt_offset b /\ m_rcpt_unread a = m_rcpt_unread b /\
  m_queue_id a = m_queue_id b /\ m_queued_time a = m_queued_time b /\ m_refcount a = m_refcount b.
Proof. destruct a, b. unfold mmask. cbn. intros H. injection H. intros. by subst. Qed.
Lemma tmask_inv a b : tmask a = tmask b ->
  t_job_current a = t_job_current b /\ t_candidate_cache a = t_candidate_cache b /\
  t_candidate_cache_current a = t_candidate_cache_current b /\ t_job_list a = t_job_list b.
Proof. destruct a, b. unfold tmask. cbn. intros H. injection H. intros. by subst. Qed.

Lemma limits_static st st' : limits_eq st st' -> static st st'.
Proof.
  intros H. split; [..|apply H|apply H].
  - intros t. eapply view_coarsen; [apply tmask_static|apply H].
  - intros j. eapply view_coarsen; [apply jmask_static|apply H].
Qed.

Lemma stack_static t st st' : stack_frame t st st' ->
  (forall x, tstatic <$> transports st' !! x = tstatic <$> transports st !! x) -> static st st'.
Proof.
  intros Hf Ht. split; [done|..|apply Hf].
  - intros j. eapply view_coarsen; [apply smask_static|apply Hf].
  - intros m. by rewrite (sf_m _ _ _ Hf).
Qed.

Lemma insert_view {B} (v : QMGR_TRANSPORT -> B) (f : gmap nat QMGR_TRANSPORT) t tr tr' x :
  f !! t = Some tr -> v tr' = v tr -> v <$> <[t := tr']> f !! x = v <$> f !! x.
Proof. intros Ht Hv. rewrite lookup_insert_dec. case_decide; [subst; rewrite Ht; cbn; by rewrite Hv|done]. Qed.

Lemma static_job st st' i ib : static st st' -> jobs st !! i = Some ib ->
  exists ib', jobs st' !! i = Some ib' /\ jstatic ib' = jstatic ib.
Proof. intros Hs Hi. apply (view_some jstatic _ _ _ (st_j _ _ Hs i) Hi). Qed.
Lemma static_transport st st' t tr : static st st' -> transports st !! t = Some tr ->
  exists tr', transports st' !! t = Some tr' /\ tstatic tr' = tstatic tr.
Proof. intros Hs Hi. apply (view_some tstatic _ _ _ (st_t _ _ Hs t) Hi). Qed.
Lemma static_message st st' m msg : static st st' -> messages st !! m = Some msg ->
  exists msg', messages st' !! m = Some msg' /\ mmask msg' = mmask msg.
Proof. intros Hs Hi. apply (view_some mmask _ _ _ (st_m _ _ Hs m) Hi). Qed.

Lemma limits_eq_sym st st' : limits_eq st st' -> limits_eq st' st.
Proof. intros []. by split. Qed.

Lemma limits_candidate st st' tr tr' :
  limits_eq st st' -> tmask tr' = tmask tr -> candidate_ok st tr -> candidate_ok st' tr'.
Proof.
  intros Hle (_ & E1 & E2 & E3)%tmask_inv H c k. rewrite E1, E2, E3. intros Hc Hk.
  destruct (H c k Hc Hk) as (H1 & H2 & kb & Hkb & Hkc). split_and!; [done..|].
  destruct (shape_job _ _ (limits_shape _ _ Hle) _ _ Hkb) as (kb' & Hkb' & _ & _ & _ & Hch & _).
  exists kb'. by rewrite Hch.
Qed.

Lemma limits_cache ex st st' : limits_eq st st' -> cache_ok ex st -> cache_ok ex st'.
Proof.
  intros Hle H t tr' Hn Ht.
  destruct (view_some tmask _ _ _ (le_t _ _ (limits_eq_sym _ _ Hle) t) Ht) as (tr & Htr & Hm).
  eapply limits_candidate; [done|symmetry; exact Hm|by apply (H t)].
Qed.

Lemma limits_cursors job t st st' : wf_core st -> limits_eq st st' -> unread_step job t st st' ->
  cursors_ok st -> cursors_ok st'.
Proof.
  intros Hwf Hle Hu Hc x tr' Ht'. destruct (Hu _ _ Ht') as (tr & Ht & Hor).
  pose proof (le_t _ _ Hle x) as Hv. rewrite Ht', Ht in Hv. cbn in Hv.
  assert (Hm : tmask tr' = tmask tr) by congruence. apply tmask_inv in Hm as (E1 & _ & _ & E2).
  destruct (Hc _ _ Ht) as [H1 H2]. rewrite E1, E2. split; [done|]. intros j Hj. destruct Hor as [[E _]|[-> E]].
  - apply H2. congruence.
  - eapply after_on_list; [done..|by apply E].
Qed.

(** The common start of qmgr_job_retire() and qmgr_job_free(): the job is taken
    off its stack, and hands back what it can. *)
Definition ready_to_unlink (job : nat) (jb : QMGR_JOB) (msg : QMGR_MESSAGE) (st st' : qmgr) : Prop :=
  wf_core st' /\ cursors_ok st' /\ cache_ok (fun _ => False) st' /\ conserved st st' /\ static st st' /\
  rise (eq job) st st' /\ (forall tr, transports st' !! j_transport jb = Some tr -> t_job_next_unread tr <> Some job) /\
  exists jb', jobs st' !! job = Some jb' /\ jstatic jb' = jstatic jb /\
    j_stack_level jb' = Z.min 0 (j_stack_level jb) /\
    j_rcpt_limit jb' = j_rcpt_limit jb - unused_slots jb msg.

Lemma pop_wf_ok job jb tr st :
  wf st -> jobs st !! job = Some jb -> transports st !! j_transport jb = Some tr -> 0 < j_stack_level jb ->
  wp (qmgr_job_pop job) st (fun _ st' =>
    wf st' /\ conserved st st' /\ static st st' /\ rise (eq job) st st' /\
    stack_frame (j_transport jb) st st' /\
    transports st' = <[j_transport jb := set_t_candidate_cache_current None tr]> (transports st) /\
    jobs st' !! job = Some (popped jb) /\
    (forall i ib, jobs st !! i = Some ib -> exists ib', jobs st' !! i = Some ib' /\
       j_slots_used ib' = j_slots_used ib /\ j_slots_available ib' = j_slots_available ib - pop_slots jb tr i ib)).
Proof.
  intros [Hwf Hcur Hcache] Hj Ht Hl. eapply wp_mono; [by apply (pop_ok job jb tr)|].
  intros _ st1 (Hwf1 & Hf1 & Ht1 & Hj1 & Hsl).
  assert (Hother : forall x trx, transports st1 !! x = Some trx -> exists trx0, transports st !! x = Some trx0 /\
    t_job_current trx = t_job_current trx0 /\ t_job_next_unread trx = t_job_next_unread trx0 /\
    t_job_list trx = t_job_list trx0 /\ (x <> j_transport jb -> trx = trx0)).
  { intros x trx. rewrite Ht1, lookup_insert_dec. case_decide as Hd; [|by exists trx].
    intros [= <-]. subst x. exists tr. by split_and!. }
  assert (Hv : forall (B : Type) (v : QMGR_TRANSPORT -> B), v (set_t_candidate_cache_current None tr) = v tr ->
    forall x, v <$> transports st1 !! x = v <$> transports st !! x).
  { intros B v Hv x. rewrite Ht1. by apply (insert_view _ _ _ tr). }
  split_and!; [split; [done|..]| | | |done..].
  - intros x trx Hx. destruct (Hother x trx Hx) as (trx0 & Hx0 & -> & -> & -> & _). by apply (Hcur x).
  - intros x trx _ Hx. destruct (decide (x = j_transport jb)) as [->|Hn].
    + rewrite Ht1, lookup_insert_eq in Hx. injection Hx as <-. by intros c k Hc.
    + destruct (Hother x trx Hx) as (trx0 & Hx0 & _ & _ & _ & E). rewrite (E Hn).
      intros c k Hc Hk. destruct (Hcache x trx0 ltac:(by intros []) Hx0 c k Hc Hk) as (H1 & H2 & kb & Hkb & Hkc).
      split_and!; [done..|]. exists kb. split; [|done]. apply (sf_elsewhere _ _ _ Hf1); [done|].
      destruct (proj1 (proj2 (proj2 (wf_lists _ Hwf x trx0 Hx0)) k) H2) as (kb' & Hkb' & Hkt & _). congruence.
  - apply (conserved_stack (j_transport jb)); [done|]. exact (Hv _ t_rcpt_unused eq_refl).
  - apply (stack_static (j_transport jb)); [done|]. exact (Hv _ tstatic eq_refl).
  - apply (rise_stack (j_transport jb)); [done|]. exact (Hv _ t_rcpt_unused eq_refl).
Qed.

Lemma pop_and_move_ok job jb msg st (Q : unit -> qmgr -> Prop) (rest : M unit) :
  wf st -> jobs st !! job = Some jb -> messages st !! j_message jb = Some msg ->
  (forall st', ready_to_unlink job jb msg st st' -> wp rest st' Q) ->
  wp ((if j_stack_level jb >? 0 then qmgr_job_pop job else mret tt);; qmgr_job_move_limits job;; rest) st Q.
Proof.
  intros Hwf0 Hj Hm Hrest. pose proof Hwf0 as [Hwf Hcur Hcache]. destruct (wf_refs _ Hwf _ _ Hj) as [[tr Ht] _].
  apply wp_bind. apply (wp_mono _ _ (fun _ st1 => wf_core st1 /\ cursors_ok st1 /\ cache_ok (fun _ => False) st1 /\
    conserved st st1 /\ static st st1 /\ rise (eq job) st st1 /\ messages st1 = messages st /\
    exists jb1, jobs st1 !! job = Some jb1 /\ smask jb1 = smask jb /\ j_stack_level jb1 = Z.min 0 (j_stack_level jb))).
  { rewrite Z.gtb_ltb. apply wp_if; intros Hl; zb.
    2:{ apply wp_ret. split_and!; [done..|]. exists jb. split_and!; [done|done|lia]. }
    eapply wp_mono; [by apply (pop_wf_ok job jb tr)|].
    intros _ st1 ([H1 H2 H3] & H4 & H5 & H6 & Hf & _ & Hj1 & _). split_and!; [done..|apply Hf|].
    exists (popped jb). split_and!; [done|done|cbn; lia]. }
  intros _ st1 (Hwf1 & Hcur1 & Hcache1 & Hc1 & Hs1 & Hr1 & Hm1 & jb1 & Hj1 & Hjm & Hjl).
  pose proof (smask_inv _ _ Hjm) as (E1 & E2 & E3 & E4 & _). rewrite <- E1, <- Hm1 in Hm.
  apply wp_bind. eapply wp_mono; [by apply (move_limits_ok job jb1 msg)|].
  intros _ st2 (Hle & Hc2 & Hu & Hr2 & jb2 & Hj2 & Hlim). apply Hrest.
  destruct (shape_job _ _ (limits_shape _ _ Hle) _ _ Hj1) as (jb2' & Hj2' & _ & _ & _ & _ & Elev).
  assert (jb2' = jb2) as -> by congruence.
  split_and!; [apply (wf_core_shape st1); [by apply limits_shape|done]|by eapply limits_cursors| | | | | |].
  - by eapply limits_cache.
  - by etrans.
  - etrans; [exact Hs1|by apply limits_static].
  - by etrans.
  - intros tr2 Ht2. rewrite <- E2 in Ht2. destruct (Hu _ _ Ht2) as (tr1 & Ht1 & [[E H]|[_ H]]).
    + rewrite E. by apply H.
    + intros Hn. by apply (after_not_self job (t_job_bytime tr1)); [eapply bytime_nodup|apply H].
  - exists jb2. split_and!; [done| |lia|].
    + pose proof (le_j _ _ Hle job) as Hv. rewrite Hj1, Hj2 in Hv. cbn in Hv.
      transitivity (jstatic jb1); [apply jmask_static; congruence|by apply smask_static].
    + rewrite Hlim, E3. unfold unused_slots. by rewrite E3, E4.
Qed.
