(* ===== verification/QmgrSched.v ===== *)
(** Correctness of the job scheduler's operations (QmgrJob.v): retiring, freeing,
    linking, preempting and choosing jobs keep the scheduler's structures
    well-formed, never panic, and neither create nor lose recipient slots. *)

From S2P Require Export QmgrJob.

(** ** Retiring *)

(** The job is off the lists, and alone. *)
Definition retired (job : nat) (jb : QMGR_JOB) (msg : QMGR_MESSAGE) (st : qmgr) : Prop :=
  exists jb', jobs st !! job = Some jb' /\ j_stack_level jb' = -1 /\ jstatic jb' = jstatic jb /\
    j_rcpt_limit jb' = j_rcpt_limit jb - unused_slots jb msg.

Lemma tstatic_unlisted job tr : tstatic (unlisted job tr) = tstatic tr.
Proof. unfold unlisted. by repeat case_decide. Qed.

Lemma unlink_ready_ok job jb msg st st1 :
  ready_to_unlink job jb msg st st1 -> 0 <= j_stack_level jb -> is_Some (transports st !! j_transport jb) ->
  wp (qmgr_job_unlink job) st1 (fun _ st' =>
    wf st' /\ conserved st st' /\ static st st' /\ rise (eq job) st st' /\ retired job jb msg st').
Proof.
  intros (Hwf & Hcur & Hcache & Hc & Hs & Hr & Hun & jb1 & Hj1 & Hst & Hlev & Hlim) Hl [tr0 Ht0].
  destruct (static_transport _ _ _ _ Hs Ht0) as (tr & Ht & _).
  pose proof (jstatic_inv _ _ Hst) as (_ & Et & _). rewrite <- Et in Ht.
  eapply wp_mono; [apply (unlink_ok job jb1 tr st1); try done|].
  - intros t trt Hn. apply Hcache. by intros [].
  - apply (Hcache (j_transport jb1)); [by intros []|done].
  - lia.
  - apply Hun. by rewrite <- Et.
  - intros _ st' (Hwf' & Hf & Ht' & Hj').
    assert (Hv : forall (B : Type) (v : QMGR_TRANSPORT -> B), v (unlisted job tr) = v tr ->
      forall x, v <$> transports st' !! x = v <$> transports st1 !! x).
    { intros B v Hv x. rewrite Ht'. by apply (insert_view _ _ _ tr). }
    split_and!; [done| | | |].
    + etrans; [exact Hc|]. apply (conserved_stack (j_transport jb1)); [done|]. exact (Hv _ t_rcpt_unused (proj1 (proj2 (proj2 (proj2 (proj2 (unlisted_fields _ _))))))).
    + etrans; [exact Hs|]. apply (stack_static (j_transport jb1)); [done|]. exact (Hv _ tstatic (tstatic_unlisted _ _)).
    + etrans; [exact Hr|]. apply (rise_stack (j_transport jb1)); [done|]. exact (Hv _ t_rcpt_unused (proj1 (proj2 (proj2 (proj2 (proj2 (unlisted_fields _ _))))))).
    + eexists. split_and!; [exact Hj'|done|by etrans|done].
Qed.

Lemma retire_ok job jb msg st :
  wf st -> jobs st !! job = Some jb -> messages st !! j_message jb = Some msg -> 0 <= j_stack_level jb ->
  wp (qmgr_job_retire job) st (fun _ st' =>
    wf st' /\ conserved st st' /\ static st st' /\ rise (eq job) st st' /\ retired job jb msg st').
Proof.
  intros Hwf Hj Hm Hl. unfold qmgr_job_retire. apply wp_bind, (wp_get_job _ _ jb); [done|].
  apply (pop_and_move_ok job jb msg); [done..|]. intros st1 Hready.
  apply (unlink_ready_ok job jb msg st); [done..|]. by apply (wf_refs _ (wf_wf_core _ Hwf)) in Hj as [? _].
Qed.

(** ** Freeing *)

Lemma sorted_ext_in (R S : nat -> nat -> Prop) l :
  (forall a b, a ∈ l -> b ∈ l -> R a b -> S a b) -> StronglySorted R l -> StronglySorted S l.
Proof.
  intros H Hs. induction Hs as [|x l Hl IH Hx]; constructor.
  - apply IH. intros a b Ha Hb. apply H; by right.
  - rewrite Forall_forall in *. intros y Hy. apply H; [by left|by right|by apply Hx].
Qed.

(** The state without the job; [l] is what remains on its message's job list. *)
Definition without_job (job : nat) (jb : QMGR_JOB) (tr : QMGR_TRANSPORT) (msg : QMGR_MESSAGE) (l : list nat)
    (st : qmgr) : qmgr :=
  set_jobs (delete job (jobs st))
    (put_transport (j_transport jb) (set_t_job_byname (delete (m_queue_id msg) (t_job_byname tr)) tr)
      (put_message (j_message jb) (set_m_job_list l msg) st)).

Section without.
Context (st : qmgr) (job : nat) (jb : QMGR_JOB) (tr : QMGR_TRANSPORT) (msg : QMGR_MESSAGE) (l : list nat).
Context (Hwf : wf_core st) (Hj : jobs st !! job = Some jb) (Hl : j_stack_level jb < 0).
Context (Ht : transports st !! j_transport jb = Some tr) (Hm : messages st !! j_message jb = Some msg).
Let st' := without_job job jb tr msg l st.

Lemma without_jobs i : jobs st' !! i = if decide (job = i) then None else jobs st !! i.
Proof using Type.
  unfold st', without_job. cbn. case_decide as Hd; [rewrite <- Hd; apply lookup_delete_eq|by apply lookup_delete_ne].
Qed.

Lemma without_transport t tr' : transports st' !! t = Some tr' -> exists tr0, transports st !! t = Some tr0 /\
  t_job_list tr' = t_job_list tr0 /\ t_job_bytime tr' = t_job_bytime tr0 /\ t_job_current tr' = t_job_current tr0 /\
  t_candidate_cache tr' = t_candidate_cache tr0 /\ t_candidate_cache_current tr' = t_candidate_cache_current tr0 /\
  t_rcpt_unused tr' = t_rcpt_unused tr0 /\ t_job_next_unread tr' = t_job_next_unread tr0 /\
  forall name j, t_job_byname tr' !! name = Some j -> t_job_byname tr0 !! name = Some j /\
    (t = j_transport jb -> name <> m_queue_id msg).
Proof using Ht.
  unfold st', without_job. cbn. rewrite lookup_insert_dec. case_decide as Hd.
  - intros [= <-]. subst t. exists tr. split_and!; [done..|]. cbn. intros name j.
    rewrite lookup_delete_Some. intros [H1 H2]. split; [done|]. by intros _ ->.
  - intros Hx. exists tr'. split_and!; [done..|].
    intros name j Hn. split; [done|]. by intros ->.
Qed.

Lemma without_message m msg' : messages st' !! m = Some msg' -> exists msg0, messages st !! m = Some msg0 /\
  m_queue_id msg' = m_queue_id msg0 /\ m_queued_time msg' = m_queued_time msg0 /\ m_rcpt_limit msg' = m_rcpt_limit msg0 /\
  m_rcpt_count msg' = m_rcpt_count msg0.
Proof using Hm.
  unfold st', without_job. cbn. rewrite lookup_insert_dec. case_decide as Hd.
  - intros [= <-]. subst m. by exists msg.
  - intros Hx. by exists msg'.
Qed.

Lemma without_has_message m msg0 : messages st !! m = Some msg0 -> exists msg', messages st' !! m = Some msg' /\
  m_queue_id msg' = m_queue_id msg0 /\ m_queued_time msg' = m_queued_time msg0 /\ m_rcpt_limit msg' = m_rcpt_limit msg0.
Proof using Hm.
  intros H. unfold st', without_job. cbn. rewrite lookup_insert_dec. case_decide; [|by exists msg0].
  subst m. assert (msg0 = msg) as -> by congruence. by exists (set_m_job_list l msg).
Qed.

Lemma without_qtime i : i <> job -> qtime st' i = qtime st i.
Proof using Hm.
  intros Hi. unfold qtime. rewrite without_jobs, decide_False by done. destruct (jobs st !! i) as [ib|]; [|done].
  destruct (messages st !! j_message ib) as [m0|] eqn:Hm0.
  - by destruct (without_has_message _ _ Hm0) as (m1 & -> & _ & -> & _).
  - destruct (messages st' !! j_message ib) as [m1|] eqn:Hm1; [|done].
    destruct (without_message _ _ Hm1) as (m2 & ? & _). congruence.
Qed.

Lemma without_on_list t i : on_list st' t i <-> on_list st t i.
Proof using Hj Hl.
  unfold on_list. rewrite without_jobs. case_decide; [|done]. subst i. rewrite Hj.
  split; [by intros (? & ? & _)|]. intros (x & [= <-] & _ & ?). lia.
Qed.
End without.

Lemma wf_without st job jb tr msg l :
  wf_core st -> jobs st !! job = Some jb -> j_stack_level jb < 0 -> transports st !! j_transport jb = Some tr ->
  messages st !! j_message jb = Some msg -> wf_core (without_job job jb tr msg l st).
Proof.
  intros Hwf Hj Hl Ht Hm. set (st' := without_job job jb tr msg l st).
  pose proof Hwf as [W1 W2 W3 W4 W5 W6 W7 W8 W9 W10].
  destruct (off_list_alone _ _ _ Hwf Hj Hl) as [Hpar Hch].
  assert (Hback : forall i ib, jobs st' !! i = Some ib -> i <> job /\ jobs st !! i = Some ib).
  { intros i ib. unfold st'. rewrite without_jobs. by case_decide; [|naive_solver]. }
  assert (Hfwd : forall i, i <> job -> jobs st' !! i = jobs st !! i).
  { intros i Hi. unfold st'. by rewrite without_jobs, decide_False. }
  split.
  - intros i ib [Hi Hib]%Hback. destruct (W1 _ _ Hib) as [[tri Hti] [msgi Hmi]]. split.
    + unfold st', without_job. cbn. rewrite lookup_insert_dec. case_decide; by eexists.
    + destruct (without_has_message st job jb tr msg l Hm _ _ Hmi) as (m' & ? & _). by exists m'.
  - intros i [ib [Hi Hib]%Hback]. apply W2. by exists ib.
  - intros t trx Htx. destruct (without_transport st job jb tr msg l Ht _ _ Htx) as (tr0 & Ht0 & -> & -> & _).
    destruct (W3 _ _ Ht0) as (H1 & H2 & H3). split_and!; [done..|]. intros i. rewrite H3.
    symmetry. by apply without_on_list.
  - intros t trx Htx. destruct (without_transport st job jb tr msg l Ht _ _ Htx) as (tr0 & Ht0 & Hl0 & -> & _).
    eapply sorted_ext_in; [|by apply (W4 t)]. intros a b Ha Hb. unfold by_time.
    assert (Hn : forall x, x ∈ t_job_bytime tr0 -> x <> job).
    { destruct (W3 _ _ Ht0) as (_ & Hp & Hin). intros x. rewrite Hp, Hin. intros (xb & Hx & _ & ?) ->.
      simplify_eq. lia. }
    rewrite !(without_qtime st job jb tr msg l Hm); auto.
  - intros i ib [Hi Hib]%Hback. by apply (W5 i).
  - intros i ib p [Hi Hib]%Hback Hp. destruct (W6 _ _ _ Hib Hp) as (pb & Hpb & H).
    exists pb. split; [|done]. rewrite Hfwd; [done|]. intros ->. simplify_eq. lia.
  - intros p pb c [Hp Hpb]%Hback Hc. destruct (W7 _ _ _ Hpb Hc) as (cb & Hcb & Hcp). exists cb.
    split; [|done]. rewrite Hfwd; [done|]. intros ->. congruence.
  - intros p pb [Hp Hpb]%Hback. by apply (W8 p).
  - intros t trx name i Htx Hn.
    destruct (without_transport st job jb tr msg l Ht _ _ Htx) as (tr0 & Ht0 & _ & _ & _ & _ & _ & _ & _ & Hnames).
    destruct (Hnames _ _ Hn) as [Hn0 Hne]. destruct (W9 _ _ _ _ Ht0 Hn0) as (ib & msgi & Hib & Hit & Hmi & Hid).
    destruct (without_has_message st job jb tr msg l Hm _ _ Hmi) as (m' & Hm' & Hid' & _).
    exists ib, m'. split_and!; [|done|done|congruence]. rewrite Hfwd; [done|]. intros ->. simplify_eq. by apply Hne.
  - intros m1 m2 g1 g2 H1 H2 Hid.
    destruct (without_message st job jb tr msg l Hm _ _ H1) as (a1 & Ha1 & E1 & _).
    destruct (without_message st job jb tr msg l Hm _ _ H2) as (a2 & Ha2 & E2 & _).
    apply (W10 m1 m2 a1 a2); congruence.
Qed.

Lemma cursors_without st job jb tr msg l :
  transports st !! j_transport jb = Some tr -> cursors_ok st -> cursors_ok (without_job job jb tr msg l st).
Proof.
  intros Ht Hc t trx Htx.
  destruct (without_transport st job jb tr msg l Ht _ _ Htx) as (tr0 & Ht0 & -> & _ & -> & _ & _ & _ & -> & _).
  by apply (Hc t).
Qed.

Lemma cache_without st job jb tr msg l :
  wf_core st -> jobs st !! job = Some jb -> j_stack_level jb < 0 -> transports st !! j_transport jb = Some tr ->
  cache_ok (fun _ => False) st -> cache_ok (fun _ => False) (without_job job jb tr msg l st).
Proof.
  intros Hwf Hj Hl Ht Hc t trx Hn Htx.
  destruct (without_transport st job jb tr msg l Ht _ _ Htx) as (tr0 & Ht0 & E1 & _ & _ & E2 & E3 & _).
  intros c k. rewrite E1, E2, E3. intros Hcc Hk. destruct (Hc t tr0 Hn Ht0 c k Hcc Hk) as (H1 & H2 & kb & Hkb & Hkc).
  split_and!; [done..|]. exists kb. split; [|done]. rewrite without_jobs, decide_False; [done|].
  intros <-. apply (wf_lists _ Hwf _ _ Ht0) in H2 as (kb' & ? & _ & ?). simplify_eq. lia.
Qed.

Lemma conserved_without st job jb tr msg l :
  jobs st !! job = Some jb -> j_rcpt_limit jb = 0 -> transports st !! j_transport jb = Some tr ->
  messages st !! j_message jb = Some msg -> conserved st (without_job job jb tr msg l st).
Proof.
  intros Hj Hlim Ht Hm. split; intros x.
  - unfold slots. cbn. rewrite (map_sum_delete _ _ _ _ Hj), lookup_insert_dec, Hlim.
    destruct (decide (j_transport jb = x)) as [<-|]; [rewrite Ht|]; cbn; lia.
  - unfold message_slots. cbn. rewrite (map_sum_delete _ _ _ _ Hj), lookup_insert_dec, Hlim.
    destruct (decide (j_message jb = x)) as [<-|]; [rewrite Hm|]; cbn; lia.
Qed.

(** What qmgr_job_free() does: nothing refers to the job any more, and its slots
    are with other jobs or in the pool. *)
Record freed (job : nat) (jb : QMGR_JOB) (msg : QMGR_MESSAGE) (st st' : qmgr) : Prop := {
  fr_wf : wf st';
  fr_conserved : conserved st st';
  fr_rise : rise (eq job) st st';
  fr_gone : jobs st' !! job = None;
  fr_jobs i : i <> job -> jstatic <$> jobs st' !! i = jstatic <$> jobs st !! i;
  fr_names tr : transports st !! j_transport jb = Some tr -> exists tr', transports st' !! j_transport jb = Some tr' /\
    t_job_byname tr' = delete (m_queue_id msg) (t_job_byname tr);
  fr_message : exists msg', messages st' !! j_message jb = Some msg' /\
    mmask msg' = set_m_job_list (list_unlink job (m_job_list msg)) (mmask msg);
  fr_messages m : m <> j_message jb -> mmask <$> messages st' !! m = mmask <$> messages st !! m;
  fr_others : others st' = others st
}.

Lemma rise_without job jb tr msg l st : transports st !! j_transport jb = Some tr ->
  rise (eq job) st (without_job job jb tr msg l st).
Proof.
  intros Ht. split.
  - intros i ib. rewrite without_jobs. case_decide; [done|]. intros Hi. by exists ib.
  - intros t trx Htx.
    destruct (without_transport st job jb tr msg l Ht _ _ Htx) as (tr0 & Ht0 & _ & _ & _ & _ & _ & -> & _).
    exists tr0. split; [done|lia].
Qed.

(** The last steps of qmgr_job_free(), from a job that is off the lists. *)
Lemma discard_ok job jb jb1 msg st st1 (Q : unit -> qmgr -> Prop) :
  messages st !! j_message jb = Some msg -> is_Some (transports st !! j_transport jb) ->
  wf st1 -> conserved st st1 -> static st st1 -> rise (eq job) st st1 ->
  jobs st1 !! job = Some jb1 -> jstatic jb1 = jstatic jb -> j_stack_level jb1 < 0 -> j_rcpt_limit jb1 = 0 ->
  (forall st', freed job jb msg st st' -> Q tt st') ->
  wp (msg ← get_message (j_message jb);
      upd_message (j_message jb) (set_m_job_list (list_unlink job (m_job_list msg)));;
      upd_transport (j_transport jb) (fun tr => set_t_job_byname (delete (m_queue_id msg) (t_job_byname tr)) tr);;
      modify (fun st => set_jobs (delete job (jobs st)) st)) st1 Q.
Proof.
  intros Hm [tr Ht] [Hwf Hcur Hcache] Hc Hs Hr Hj1 Hst Hl Hlim HQ.
  destruct (static_message _ _ _ _ Hs Hm) as (msg1 & Hm1 & Hmm), (static_transport _ _ _ _ Hs Ht) as (tr1 & Ht1 & Htt).
  apply jstatic_inv in Hst as (E1 & E2 & _). pose proof Hmm as (_ & _ & _ & E3 & _)%mmask_inv.
  apply tstatic_inv in Htt as (_ & _ & E4 & _).
  apply wp_bind, (wp_get_message _ _ msg1); [done|].
  apply wp_bind, (wp_upd_message _ _ _ msg1); [done|].
  apply wp_bind, (wp_upd_transport _ _ _ tr1); [done|]. apply wp_modify, HQ.
  set (l := list_unlink job (m_job_list msg1)). rewrite <- E1 in Hm1 |- *. rewrite <- E2 in Ht1 |- *.
  match goal with |- freed _ _ _ _ ?s => change s with (without_job job jb1 tr1 msg1 l st1) end.
  split.
  - split; [by apply wf_without|by apply cursors_without|by apply cache_without].
  - etrans; [exact Hc|by apply conserved_without].
  - etrans; [exact Hr|by apply rise_without].
  - by rewrite without_jobs, decide_True.
  - intros i Hi. rewrite without_jobs, decide_False by done. apply Hs.
  - intros tr0 Ht0. assert (tr0 = tr) as -> by congruence. eexists. rewrite <- E2.
    split; [apply lookup_insert_eq|]. cbn. by rewrite E3, E4.
  - eexists. rewrite <- E1. split; [apply lookup_insert_eq|]. unfold l.
    clear -Hmm. destruct msg, msg1. unfold mmask in *. cbn in *. injection Hmm. intros. by subst.
  - intros m Hn. cbn. rewrite lookup_insert_ne by congruence. apply Hs.
  - cbn. apply Hs.
Qed.

Lemma free_ok job jb msg st :
  wf st -> jobs st !! job = Some jb -> messages st !! j_message jb = Some msg ->
  j_rcpt_count jb = 0 -> unused_slots jb msg = j_rcpt_limit jb ->
  wp (qmgr_job_free job) st (fun _ st' => freed job jb msg st st').
Proof.
  intros Hwf Hj Hm Hcount Hunused. unfold qmgr_job_free.
  destruct (wf_refs _ (wf_wf_core _ Hwf) _ _ Hj) as [Htr _].
  apply wp_bind, (wp_get_job _ _ jb); [done|]. cbv zeta.
  apply wp_bind, wp_panic_if; [by rewrite Hcount|].
  apply (pop_and_move_ok job jb msg); [done..|]. intros st1 Hready.
  pose proof Hready as (Hwf1 & Hcur1 & Hcache1 & Hc1 & Hs1 & Hr1 & _ & jb1 & Hj1 & Hst1 & Hlev1 & Hlim1).
  apply wp_bind, (wp_get_job _ _ jb1); [done|].
  apply wp_bind, wp_panic_if; [by rewrite Hlim1, Hunused, Z.sub_diag|].
  apply wp_bind. apply wp_if; intros Hl; zb.
  - eapply wp_mono; [apply (unlink_ready_ok job jb msg st); [done|lia|done]|].
    intros _ st2 (Hwf2 & Hc2 & Hs2 & Hr2 & jb2 & Hj2 & Hlev2 & Hst2 & Hlim2).
    apply (discard_ok job jb jb2 msg st st2); [done..|lia|lia|done].
  - apply wp_ret. apply (discard_ok job jb jb1 msg st st1); [done..|lia|lia|done].
Qed.
