(* ===== verification/QmgrLink.v ===== *)
(** Linking and obtaining jobs: qmgr_job_link(), qmgr_job_create() and
    qmgr_job_obtain() of qmgr_job.c (src/src/qmgr) are correct. *)

From S2P Require Export QmgrSched.

(** ** The traversals *)

Lemma before_after_mid x l1 l2 : x ∉ l1 -> before x (l1 ++ x :: l2) = l1 /\ after x (l1 ++ x :: l2) = l2.
Proof.
  induction l1 as [|y l1 IH]; cbn; intros Hx; [by rewrite !decide_True|].
  apply not_elem_of_cons in Hx as [Hn Hx]. rewrite !decide_False by congruence.
  destruct (IH Hx) as [-> ->]. done.
Qed.

(** Linking after the last object of the first part. *)
Lemma list_link_split job l1 l2 : NoDup (l1 ++ l2) -> list_link (last l1) job (l1 ++ l2) = l1 ++ job :: l2.
Proof.
  induction l1 as [|p l1 _] using rev_ind; [done|]. intros Hnd. rewrite last_snoc.
  rewrite <- app_assoc in *. cbn in *. apply NoDup_app in Hnd as (_ & Hd & _).
  assert (Hp : p ∉ l1) by (intros Hp; apply (Hd p Hp); by left).
  unfold list_link. rewrite decide_True by (apply elem_of_app; right; by left).
  destruct (before_after_mid p l1 l2 Hp) as [-> ->]. by rewrite <- app_assoc.
Qed.

Lemma last_reverse_head (l : list nat) : last (reverse l) = head l.
Proof. destruct l as [|x l]; [done|]. by rewrite reverse_cons, last_snoc. Qed.

Section scans.
Context (st : qmgr) (queued_time : Z).

Definition readable (l : list nat) : Prop := forall x, x ∈ l -> exists xb xmsg,
  jobs st !! x = Some xb /\ messages st !! j_message xb = Some xmsg.

Lemma qtime_eq x xb xmsg : jobs st !! x = Some xb -> messages st !! j_message xb = Some xmsg ->
  qtime st x = m_queued_time xmsg.
Proof using Type. intros Hx Hm. unfold qtime. by rewrite Hx, Hm. Qed.

(** The scan of the time list stops where the job belongs. *)
Lemma bytime_scan_ok rl unread : readable rl ->
  wp (job_bytime_scan queued_time rl unread) st (fun r st' => st' = st /\ (r.2 = unread \/ r.2 = None) /\
    exists r1 r2, rl = r1 ++ r2 /\ r.1 = head r2 /\ Forall (fun x => queued_time < qtime st x) r1 /\
      forall x, head r2 = Some x -> qtime st x <= queued_time).
Proof using Type.
  revert unread. induction rl as [|x rl IH]; intros unread Hr; cbn [job_bytime_scan].
  - apply wp_ret. split_and!; [done|by left|]. exists [], []. by split_and!.
  - destruct (Hr x) as (xb & xmsg & Hx & Hm); [by left|]. apply wp_bind, (wp_get_job _ _ xb); [done|].
    apply wp_bind, (wp_get_message _ _ xmsg); [done|]. pose proof (qtime_eq _ _ _ Hx Hm) as Hq.
    apply wp_if; intros Hd; zb.
    + apply wp_ret. split_and!; [done|by left|]. exists [], (x :: rl). split_and!; [done..|]. intros y [= <-]. lia.
    + eapply wp_mono; [apply IH; intros y Hy; apply Hr; by right|].
      intros [p u] st' (-> & Hu & r1 & r2 & -> & Hp & Hall & Hh). split_and!; [done| |].
      * cbn in *. destruct Hu as [-> | ->]; [|by right]. case_decide; [by right|by left].
      * exists (x :: r1), r2. split_and!; [done|done| |done]. constructor; [lia|done].
Qed.

Lemma list_scan_ok rl current : readable rl ->
  wp (job_list_scan queued_time rl current) st (fun r st' => st' = st /\ (r.2 = current \/ r.2 = None) /\
    forall p, r.1 = Some p -> p ∈ rl).
Proof using Type.
  revert current. induction rl as [|x rl IH]; intros current Hr; cbn [job_list_scan].
  - apply wp_ret. by split_and!; [|left|].
  - destruct (Hr x) as (xb & xmsg & Hx & Hm); [by left|]. apply wp_bind, (wp_get_job _ _ xb); [done|].
    apply wp_bind, (wp_get_message _ _ xmsg); [done|].
    assert (Hrest : wp (job_list_scan queued_time rl (if decide (current = Some x) then None else current)) st
      (fun r st' => st' = st /\ (r.2 = current \/ r.2 = None) /\ forall p, r.1 = Some p -> p ∈ x :: rl)).
    { eapply wp_mono; [apply IH; intros y Hy; apply Hr; by right|].
      intros [p u] st' (-> & Hu & Hp). split_and!; [done| |intros q Hq; right; by apply Hp].
      cbn in *. destruct Hu as [-> | ->]; [|by right]. case_decide; [by right|by left]. }
    apply wp_decide; intros _; [|done]. apply wp_if; intros _; [|done].
    apply wp_ret. split_and!; [done|by left|]. intros p [= ->]. by left.
Qed.
End scans.

(** ** Well-formedness of the steps *)

Lemma wf_lend j d jb tr msg st :
  jobs st !! j = Some jb -> transports st !! j_transport jb = Some tr -> messages st !! j_message jb = Some msg ->
  wf st -> wf (lend j d jb tr msg st).
Proof.
  intros Hj Ht Hm [Hwf Hcur Hcache]. pose proof (lend_limits j d jb tr msg st Hj Ht Hm) as Hle. split.
  - by apply (wf_core_shape st); [apply limits_shape|].
  - intros t tr'. rewrite lend_transport. case_decide; [intros [= <-]; subst; by apply (Hcur _ _ Ht)|apply Hcur].
  - by eapply limits_cache.
Qed.

(** A transport with other cursors into the same lists. *)
Lemma wf_put_cursors st t tr tr' :
  transports st !! t = Some tr -> tshape tr' = tshape tr -> t_candidate_cache tr' = t_candidate_cache tr ->
  t_candidate_cache_current tr' = t_candidate_cache_current tr \/ t_candidate_cache_current tr' = None ->
  (forall j, t_job_current tr' = Some j -> j ∈ t_job_list tr) ->
  (forall j, t_job_next_unread tr' = Some j -> j ∈ t_job_list tr) ->
  wf st -> wf (put_transport t tr' st).
Proof.
  intros Ht Hs Hk Hcc Hj Hu [Hwf Hcur Hcache]. assert (El : t_job_list tr' = t_job_list tr) by (by injection Hs). split.
  - by apply (wf_core_shape st); [apply (shape_put_transport _ _ tr)|].
  - intros x trx. cbn. rewrite lookup_insert_dec. case_decide; [|apply Hcur]. intros [= <-]. by rewrite El.
  - intros x trx Hn. cbn. rewrite lookup_insert_dec. case_decide; [|by apply Hcache].
    intros [= <-]. subst x. intros c k Hc Hk'. rewrite El. rewrite Hk in Hk'. destruct Hcc as [Hcc|Hcc]; [|congruence].
    rewrite Hcc in Hc. by apply (Hcache _ _ Hn Ht).
Qed.

(** The lists with the job on them. *)
Definition linked_transport (list_prev : option nat) (prev : option nat) (job : nat) (tr : QMGR_TRANSPORT) :=
  set_t_job_bytime (list_link prev job (t_job_bytime tr)) (set_t_job_list (list_link list_prev job (t_job_list tr)) tr).

Lemma sorted_insert st (qt : Z) job l1 l2 :
  StronglySorted (by_time st) (l1 ++ l2) -> qtime st job = qt ->
  (forall x, last l1 = Some x -> qtime st x <= qt) -> Forall (fun x => qt < qtime st x) l2 ->
  StronglySorted (by_time st) (l1 ++ job :: l2).
Proof.
  intros Hs Hq Hlast Hl2. apply StronglySorted_app in Hs as (H12 & H1 & H2). apply StronglySorted_app.
  rewrite Forall_forall in Hl2. split_and!; [|done|constructor; [done|]].
  - intros a b Ha [->|Hb]%elem_of_cons; [|by apply H12]. unfold by_time. rewrite Hq.
    induction l1 as [|p l1 _] using rev_ind; [by apply not_elem_of_nil in Ha|].
    rewrite last_snoc in Hlast. specialize (Hlast p eq_refl).
    apply elem_of_app in Ha as [Ha|Ha%list_elem_of_singleton]; [|by subst].
    apply StronglySorted_app in H1 as (H1 & _). specialize (H1 a p Ha). unfold by_time in H1.
    etrans; [apply H1; by left|done].
  - rewrite Forall_forall. intros b Hb. specialize (Hl2 b Hb). unfold by_time. lia.
Qed.

Lemma wf_linked st job jb tr lp l1 l2 :
  wf st -> jobs st !! job = Some jb -> transports st !! j_transport jb = Some tr -> j_stack_level jb < 0 ->
  t_job_bytime tr = l1 ++ l2 -> StronglySorted (by_time st) (l1 ++ job :: l2) ->
  (forall p, lp = Some p -> p ∈ t_job_list tr) ->
  wf (put_transport (j_transport jb) (linked_transport lp (last l1) job tr) (put_job job (set_j_stack_level 0 jb) st)).
Proof.
  intros [Hwf Hcur Hcache] Hj Ht Hl Hb Hs Hlp.
  destruct (off_list_alone _ _ _ Hwf Hj Hl) as [Hpar Hch]. destruct (wf_lists _ Hwf _ _ Ht) as (Hnd & Hperm & Hin).
  assert (Hjn : job ∉ t_job_list tr) by (rewrite Hin; intros (? & ? & _ & ?); simplify_eq; lia).
  pose proof (list_link_perm lp job _ Hlp) as Hp.
  assert (Hbt : t_job_bytime (linked_transport lp (last l1) job tr) = l1 ++ job :: l2).
  { unfold linked_transport. cbn. rewrite Hb. apply list_link_split. rewrite <- Hb. by rewrite Hperm. }
  split.
  - apply (wf_core_set_level st job jb tr); [done..|lia|done| | | |]; rewrite ?Hbt; cbn.
    + rewrite Hp. by constructor.
    + rewrite Hp. rewrite <- Permutation_middle. constructor. by rewrite <- Hb.
    + done.
    + intros i. rewrite Hp, elem_of_cons. split; [|naive_solver].
      intros [->|Hi]; [by left|]. right. split; [by intros ->|done].
  - intros x trx. cbn. rewrite lookup_insert_dec. case_decide; [|apply Hcur]. intros [= <-]. cbn.
    destruct (Hcur _ _ Ht) as [H1 H2]. split; intros i Hi; rewrite Hp; right; auto.
  - intros x trx Hn. cbn. rewrite lookup_insert_dec.
    assert (Hk : forall k kb, jobs st !! k = Some kb -> j_stack_children kb = [] ->
      exists kb', jobs (put_transport (j_transport jb) (linked_transport lp (last l1) job tr) (put_job job (set_j_stack_level 0 jb) st)) !! k
        = Some kb' /\ j_stack_children kb' = []).
    { intros k kb Hk Hkc. rewrite put_job_lookup. case_decide; [subst; by eexists|by exists kb]. }
    case_decide.
    + intros [= <-]. subst x. intros c k Hc Hkk. cbn in *. destruct (Hcache _ _ Hn Ht c k Hc Hkk) as (H1 & H2 & kb & H3 & H4).
      split_and!; [done|rewrite Hp; by right|by eapply Hk].
    + intros Hx c k Hc Hkk. destruct (Hcache _ _ Hn Hx c k Hc Hkk) as (H1 & H2 & kb & H3 & H4).
      split_and!; [done..|by eapply Hk].
Qed.

Lemma static_put_transport st t tr tr' :
  transports st !! t = Some tr -> tstatic tr' = tstatic tr -> static st (put_transport t tr' st).
Proof. intros Ht Hs. split; [|done..]. intros x. by apply (insert_view _ _ _ tr). Qed.

(** What the scheduler promises after a step, besides well-formedness. *)
Definition kept (st st' : qmgr) : Prop := wf st' /\ conserved st st' /\ static st st'.

Lemma kept_trans s1 s2 s3 : kept s1 s2 -> kept s2 s3 -> kept s1 s3.
Proof. intros (_ & C1 & S1) (W2 & C2 & S2). split_and!; [done|by etrans|by etrans]. Qed.

Lemma kept_lend j d jb tr msg st :
  jobs st !! j = Some jb -> transports st !! j_transport jb = Some tr -> messages st !! j_message jb = Some msg ->
  wf st -> kept st (lend j d jb tr msg st).
Proof.
  intros Hj Ht Hm Hwf. split_and!; [by apply wf_lend|by apply lend_conserved|by apply limits_static, lend_limits].
Qed.

Lemma kept_put_cursors st t tr tr' :
  transports st !! t = Some tr -> tshape tr' = tshape tr -> tstatic tr' = tstatic tr ->
  t_rcpt_unused tr' = t_rcpt_unused tr -> t_candidate_cache tr' = t_candidate_cache tr ->
  t_candidate_cache_current tr' = t_candidate_cache_current tr \/ t_candidate_cache_current tr' = None ->
  (forall j, t_job_current tr' = Some j -> j ∈ t_job_list tr) ->
  (forall j, t_job_next_unread tr' = Some j -> j ∈ t_job_list tr) ->
  wf st -> kept st (put_transport t tr' st).
Proof.
  intros Ht Hs Hst Hu Hk Hcc Hj Hn Hwf.
  split_and!; [by apply (wf_put_cursors st t tr)|by apply (conserved_put_transport _ _ tr)|by apply (static_put_transport _ _ tr)].
Qed.

Lemma kept_move_limits job jb msg st :
  wf st -> jobs st !! job = Some jb -> messages st !! j_message jb = Some msg ->
  wp (qmgr_job_move_limits job) st (fun _ st' => kept st st' /\ limits_eq st st').
Proof.
  intros [Hwf Hcur Hcache] Hj Hm. eapply wp_mono; [by apply (move_limits_ok job jb msg)|].
  intros ? st' (Hle & Hc & Hu & _). split; [|done]. split_and!; [split|done|by apply limits_static].
  - by apply (wf_core_shape st); [apply limits_shape|].
  - by eapply limits_cursors.
  - by eapply limits_cache.
Qed.

(** Lending the whole pool to a job, as qmgr_job_link() does. *)
Lemma lend_pool_ok job jb tr msg st (Q : unit -> qmgr -> Prop) :
  wf st -> jobs st !! job = Some jb -> transports st !! j_transport jb = Some tr ->
  messages st !! j_message jb = Some msg ->
  (forall st', kept st st' -> limits_eq st st' -> Q tt st') ->
  wp (if t_rcpt_unused tr >? 0 then
        upd_job job (fun jb => set_j_rcpt_limit (j_rcpt_limit jb + t_rcpt_unused tr) jb);;
        upd_message (j_message jb) (fun msg => set_m_rcpt_limit (m_rcpt_limit msg + t_rcpt_unused tr) msg);;
        upd_transport (j_transport jb) (set_t_rcpt_unused 0)
      else mret tt) st Q.
Proof.
  intros Hwf Hj Ht Hm HQ. apply wp_if; intros _; [|by apply wp_ret, HQ].
  apply wp_bind, (wp_upd_job _ _ _ jb); [done|]. apply wp_bind, (wp_upd_message _ _ _ msg); [done|].
  apply (wp_upd_transport _ _ _ tr); [done|].
  match goal with |- Q tt ?s => assert (E : s = lend job (t_rcpt_unused tr) jb tr msg st) end.
  { unfold lend. by rewrite Z.sub_diag. }
  rewrite E. apply HQ; [by apply kept_lend|by apply lend_limits].
Qed.

(** What qmgr_job_link() does to the lists, with the cursors before the last
    steps. *)
Lemma link_lists_ok job jb tr msg st lp l1 l2 :
  wf st -> jobs st !! job = Some jb -> transports st !! j_transport jb = Some tr -> j_stack_level jb < 0 ->
  messages st !! j_message jb = Some msg ->
  t_job_bytime tr = l1 ++ l2 -> Forall (fun x => m_queued_time msg < qtime st x) l2 ->
  (forall x, last l1 = Some x -> qtime st x <= m_queued_time msg) ->
  (forall p, lp = Some p -> p ∈ t_job_list tr) ->
  kept st (put_transport (j_transport jb) (linked_transport lp (last l1) job tr) (put_job job (set_j_stack_level 0 jb) st)).
Proof.
  intros Hwf Hj Ht Hl Hm Hb Hl2 Hlast Hlp. split_and!.
  - apply wf_linked with l2; [done..| |done]. apply (sorted_insert st (m_queued_time msg)); [|by eapply qtime_eq|done|done].
    rewrite <- Hb. by apply (wf_sorted _ (wf_wf_core _ Hwf) (j_transport jb)).
  - etrans; [by apply (conserved_put_job st job jb (set_j_stack_level 0 jb))|]. by apply (conserved_put_transport _ _ tr).
  - apply (stack_static (j_transport jb)).
    + apply (sf_trans _ st (put_job job (set_j_stack_level 0 jb) st)); [by apply (sf_put_job _ st job jb)|done].
    + intros x. by apply (insert_view _ _ _ tr).
Qed.

(** The job as qmgr_job_link() leaves it. *)
Definition on_lists (job : nat) (jb : QMGR_JOB) (st : qmgr) : Prop :=
  exists jb', jobs st !! job = Some jb' /\ jstatic jb' = jstatic jb /\ 0 <= j_stack_level jb'.

Lemma on_lists_limits job jb st st' : limits_eq st st' -> on_lists job jb st -> on_lists job jb st'.
Proof.
  intros Hle (jb' & Hj & Hs & Hl). destruct (view_some jmask _ _ _ (le_j _ _ Hle job) Hj) as (jb2 & Hj2 & Hv).
  exists jb2. split_and!; [done| |].
  - transitivity (jstatic jb'); [by apply jmask_static|done].
  - assert (E : j_stack_level jb2 = j_stack_level jb').
    { clear -Hv. destruct jb2, jb'. unfold jmask in Hv. cbn in Hv |- *. injection Hv. intros. by subst. }
    lia.
Qed.

Lemma link_unread_ok job jb tr st (Q : unit -> qmgr -> Prop) (unread : option nat) :
  wf st -> jobs st !! job = Some jb -> transports st !! j_transport jb = Some tr -> job ∈ t_job_list tr ->
  (forall st', kept st st' -> limits_eq st st' -> Q tt st') ->
  wp (if decide (unread = None) then
        tr ← get_transport (j_transport jb);
        let unread := t_job_next_unread tr in
        upd_transport (j_transport jb) (set_t_job_next_unread (Some job));;
        match unread with Some unread => qmgr_job_move_limits unread | None => mret tt end
      else mret tt) st Q.
Proof.
  intros Hwf Hj Ht Hin HQ. apply wp_decide; intros _; [|by apply wp_ret, HQ].
  apply wp_bind, (wp_get_transport _ _ tr); [done|]. cbv zeta.
  apply wp_bind, (wp_upd_transport _ _ _ tr); [done|]. set (st1 := put_transport _ _ st).
  assert (Hk1 : kept st st1).
  { apply (kept_put_cursors _ _ tr); [done..|by left| |by intros ? [= <-]|done]. by apply (wf_wf_cursors _ Hwf _ _ Ht). }
  assert (Hle1 : limits_eq st st1) by (by apply (limits_put_transport _ _ tr)).
  destruct (t_job_next_unread tr) as [u|] eqn:Hu; [|by apply wp_ret, HQ].
  destruct (on_list_msg st _ tr u (wf_wf_core _ Hwf) Ht) as (ub & umsg & Hub & _ & Hum & _).
  { by apply (wf_wf_cursors _ Hwf _ _ Ht). }
  eapply wp_mono; [apply (kept_move_limits u ub umsg); [apply Hk1|done|done]|].
  intros [] st2 [Hk2 Hle2]. apply HQ; [by eapply kept_trans|by etrans].
Qed.

(** qmgr_job_link() puts a job on the lists of its transport. *)
Lemma link_ok job jb st :
  wf st -> jobs st !! job = Some jb -> j_stack_level jb < 0 ->
  wp (qmgr_job_link job) st (fun _ st' => kept st st' /\ on_lists job jb st').
Proof.
  intros Hwf Hj Hl. pose proof Hwf as [Hc Hcur Hcache]. destruct (wf_refs _ Hc _ _ Hj) as [[tr Ht] [msg Hm]].
  unfold qmgr_job_link. apply wp_bind, (wp_get_job _ _ jb); [done|].
  apply wp_bind, wp_panic_if; [rewrite Z.geb_leb; by apply Z.leb_gt|]. cbv zeta.
  apply wp_bind, (wp_get_message _ _ msg); [done|]. apply wp_bind, (wp_get_transport _ _ tr); [done|].
  assert (Hread : forall x, x ∈ t_job_list tr -> exists xb xmsg, jobs st !! x = Some xb /\ messages st !! j_message xb = Some xmsg).
  { intros x Hx. destruct (on_list_msg st _ tr x Hc Ht Hx) as (xb & xmsg & ? & _ & ? & _). by exists xb, xmsg. }
  destruct (wf_lists _ Hc _ _ Ht) as (Hnd & Hperm & _).
  apply wp_bind. eapply wp_mono; [apply list_scan_ok|].
  { intros x Hx. apply Hread. by rewrite elem_of_reverse in Hx. }
  intros [lp cur] ? (-> & Hcur' & Hlp). cbn in Hcur', Hlp.
  apply wp_bind. eapply wp_mono; [apply bytime_scan_ok|].
  { intros x Hx. rewrite elem_of_reverse, Hperm in Hx. by apply Hread. }
  intros [p unread] ? (-> & Hun & r1 & r2 & Hr & Hp & Hr1 & Hr2). cbn in Hun, Hp.
  assert (Hb : t_job_bytime tr = reverse r2 ++ reverse r1).
  { rewrite <- (reverse_involutive (t_job_bytime tr)), Hr. by rewrite reverse_app. }
  assert (Hlink : kept st (put_transport (j_transport jb) (linked_transport lp (last (reverse r2)) job tr)
     (put_job job (set_j_stack_level 0 jb) st))).
  { apply (link_lists_ok job jb tr msg st lp (reverse r2) (reverse r1)); [done..| | |].
    - by rewrite Forall_reverse.
    - by rewrite last_reverse_head.
    - intros q Hq. specialize (Hlp q Hq). by rewrite elem_of_reverse in Hlp. }
  rewrite last_reverse_head, <- Hp in Hlink.
  apply wp_bind, (wp_upd_job _ _ _ jb); [done|].
  apply wp_bind, (wp_upd_transport _ _ _ tr); [done|].
  apply wp_bind. eapply wp_upd_transport; [apply lookup_insert_eq|]. rewrite put_put_transport.
  set (jb1 := set_j_stack_level 0 jb) in *. change (j_transport jb) with (j_transport jb1) in *.
  change (j_message jb) with (j_message jb1) in *.
  match goal with |- context [put_transport _ ?x _] =>
    change x with (linked_transport lp p job tr) end.
  set (tr1 := linked_transport lp p job tr) in *. set (st1 := put_transport (j_transport jb1) tr1 _) in *.
  assert (Hin1 : job ∈ t_job_list tr1).
  { cbn. rewrite list_link_perm; [by left|]. intros q Hq. specialize (Hlp q Hq). by rewrite elem_of_reverse in Hlp. }
  assert (Ht1 : transports st1 !! j_transport jb1 = Some tr1) by apply lookup_insert_eq.
  assert (Hj1 : jobs st1 !! job = Some jb1) by apply lookup_insert_eq.
  apply wp_bind. apply (wp_mono _ _ (fun _ st2 => kept st1 st2 /\ jobs st2 = jobs st1 /\
    exists tr2, transports st2 !! j_transport jb1 = Some tr2 /\ t_job_list tr2 = t_job_list tr1)).
  { apply wp_decide; intros _.
    - apply (wp_upd_transport _ _ _ tr1); [done|]. split_and!; [|done|eexists; by split; [apply lookup_insert_eq|]].
      apply (kept_put_cursors _ _ tr1); [done..|by left|by intros ? [= <-]| |apply Hlink].
      apply (wf_wf_cursors _ (proj1 Hlink) _ _ Ht1).
    - apply wp_ret. split_and!; [|done|by exists tr1]. split_and!; [apply Hlink|done|done]. }
  intros ? st2 (Hk2 & Hjobs2 & tr2 & Ht2 & Hl2). rewrite <- Hjobs2 in Hj1.
  apply wp_bind. apply (link_unread_ok job jb1 tr2 st2); [apply Hk2|done|done|by rewrite Hl2|].
  intros st3 Hk3 Hle3. destruct (shape_job _ _ (limits_shape _ _ Hle3) _ _ Hj1) as (jb3 & Hj3 & E1 & E2 & _).
  destruct (wf_refs _ (wf_wf_core _ (proj1 Hk3)) _ _ Hj3) as [[tr3 Ht3] [msg3 Hm3]]. rewrite E1 in Hm3. rewrite E2 in Ht3.
  apply wp_bind, (wp_get_transport _ _ tr3); [done|]. rewrite <- E1, <- E2 in *.
  apply (lend_pool_ok job jb3 tr3 msg3); [apply Hk3|done..|].
  intros st4 Hk4 Hle4. split.
  - eapply kept_trans; [exact Hlink|]. eapply kept_trans; [exact Hk2|]. by eapply kept_trans.
  - apply (on_lists_limits _ _ st3 st4); [done|]. apply (on_lists_limits _ _ st2 st3); [done|].
    exists jb1. split_and!; [done|done|cbn; lia].
Qed.

(** ** Creating and obtaining jobs *)

(** The state with a new job, not yet on the lists. *)
Definition new_job (message transport : nat) : QMGR_JOB :=
  mk_qmgr_job message transport None [] (-1) 0 ∅ [] 0 0 0 0 0 0.
Definition with_job (job message transport : nat) (msg : QMGR_MESSAGE) (tr : QMGR_TRANSPORT) (st : qmgr) : qmgr :=
  put_transport transport (set_t_job_byname (<[m_queue_id msg := job]> (t_job_byname tr)) tr)
    (put_message message (set_m_job_list (m_job_list msg ++ [job]) msg)
      (put_job job (new_job message transport) (set_next_addr (S job) st))).

Section create.
Context (st : qmgr) (message transport : nat) (msg : QMGR_MESSAGE) (tr : QMGR_TRANSPORT).
Context (Hwf : wf st) (Hm : messages st !! message = Some msg) (Ht : transports st !! transport = Some tr).
Let job := next_addr st.
Let st' := with_job job message transport msg tr st.

Lemma fresh_job : jobs st !! job = None.
Proof using Hwf.
  destruct (jobs st !! job) as [jb|] eqn:Hj; [|done].
  pose proof (wf_fresh _ (wf_wf_core _ Hwf) job ltac:(by rewrite Hj)) as H. unfold job in H. lia.
Qed.

Lemma old_job i ib : jobs st !! i = Some ib -> i <> job /\ jobs st' !! i = Some ib.
Proof using Hwf.
  intros Hi. assert (Hn : i <> job) by (intros ->; pose proof fresh_job; congruence). split; [done|].
  cbn. by rewrite lookup_insert_ne.
Qed.

Lemma with_jobs i ib : jobs st' !! i = Some ib -> (i = job /\ ib = new_job message transport) \/ jobs st !! i = Some ib.
Proof using Type. cbn. rewrite lookup_insert_dec. case_decide; [intros [= <-]; by left|by right]. Qed.

Lemma with_transports t trt : transports st' !! t = Some trt -> exists tr0, transports st !! t = Some tr0 /\
  tstatic trt = set_t_job_byname (t_job_byname trt) (tstatic tr0) /\ t_rcpt_unused trt = t_rcpt_unused tr0 /\
  t_job_list trt = t_job_list tr0 /\ t_job_bytime trt = t_job_bytime tr0 /\ t_job_current trt = t_job_current tr0 /\
  t_job_next_unread trt = t_job_next_unread tr0 /\ t_candidate_cache trt = t_candidate_cache tr0 /\
  t_candidate_cache_current trt = t_candidate_cache_current tr0 /\
  forall name j, t_job_byname trt !! name = Some j -> t_job_byname tr0 !! name = Some j \/
    (t = transport /\ name = m_queue_id msg /\ j = job).
Proof using Ht.
  cbn. rewrite lookup_insert_dec. case_decide as Hd.
  - intros [= <-]. exists tr. split_and!; [congruence|done..|]. intros name j. cbn. rewrite lookup_insert_Some.
    intros [[<- <-]|[_ ?]]; [right|by left]. by split_and!.
  - intros H. exists trt. split_and!; [done|by destruct trt|done..|by left].
Qed.

Lemma with_messages m msg' : messages st' !! m = Some msg' -> exists msg0, messages st !! m = Some msg0 /\
  m_queue_id msg' = m_queue_id msg0 /\ m_queued_time msg' = m_queued_time msg0.
Proof using Hm.
  cbn. rewrite lookup_insert_dec. case_decide; [intros [= <-]; exists msg; by subst|intros; by exists msg'].
Qed.
Lemma with_messages_has m msg0 : messages st !! m = Some msg0 -> exists msg', messages st' !! m = Some msg' /\
  m_queue_id msg' = m_queue_id msg0 /\ m_queued_time msg' = m_queued_time msg0.
Proof using Hm.
  intros H. cbn. rewrite lookup_insert_dec. case_decide; [|by exists msg0]. eexists. split; [done|].
  cbn. by simplify_eq.
Qed.

Lemma with_qtime i : is_Some (jobs st !! i) -> qtime st' i = qtime st i.
Proof using Hwf Hm.
  intros [ib Hi]. destruct (old_job _ _ Hi) as [_ Hi']. destruct (wf_refs _ (wf_wf_core _ Hwf) _ _ Hi) as [_ [m0 Hm0]].
  destruct (with_messages_has _ _ Hm0) as (m1 & Hm1 & _ & E). by rewrite (qtime_eq _ _ _ _ Hi' Hm1), (qtime_eq _ _ _ _ Hi Hm0).
Qed.

Lemma with_on_list t i : on_list st' t i <-> on_list st t i.
Proof using Hwf.
  split; intros (ib & Hi & Et & Hl); exists ib.
  - destruct (with_jobs _ _ Hi) as [[-> ->]|H]; [cbn in Hl; lia|done].
  - by destruct (old_job _ _ Hi) as [_ ?].
Qed.
End create.

Lemma wf_with_job st message transport msg tr :
  wf st -> messages st !! message = Some msg -> transports st !! transport = Some tr ->
  wf (with_job (next_addr st) message transport msg tr st).
Proof.
  intros Hwf Hm Ht. set (st' := with_job _ _ _ _ _ st).
  pose proof Hwf as [[W1 W2 W3 W4 W5 W6 W7 W8 W9 W10] Hcur Hcache].
  pose proof (old_job st message transport msg tr Hwf) as Hold.
  pose proof (with_jobs st message transport msg tr) as Hback.
  pose proof (with_transports st message transport msg tr Ht) as Htr. fold st' in Hold, Hback, Htr.
  split; [split|..].
  - assert (Hkeep : forall t m, is_Some (transports st !! t) -> is_Some (messages st !! m) ->
      is_Some (transports st' !! t) /\ is_Some (messages st' !! m)).
    { intros t m ? ?. cbn. rewrite !lookup_insert_dec. split; by case_decide. }
    intros i ib [[-> ->]|Hi]%Hback; [apply Hkeep; by eexists|]. by apply Hkeep; apply (W1 i).
  - intros i [ib [[-> _]|Hi]%Hback]; cbn; [lia|]. apply Nat.lt_lt_succ_r, W2. by exists ib.
  - intros t trt Htt. destruct (Htr _ _ Htt) as (tr0 & Ht0 & _ & _ & -> & -> & _).
    destruct (W3 _ _ Ht0) as (H1 & H2 & H3). split_and!; [done..|]. intros i. rewrite H3. symmetry. by apply with_on_list.
  - intros t trt Htt. destruct (Htr _ _ Htt) as (tr0 & Ht0 & _ & _ & _ & -> & _).
    eapply sorted_ext_in; [|by apply (W4 t)]. destruct (W3 _ _ Ht0) as (_ & H2 & H3). intros a b. rewrite H2, !H3.
    intros (? & ? & _) (? & ? & _). unfold by_time, st'. by rewrite !with_qtime.
  - intros i ib [[-> ->]|Hi]%Hback; [done|by apply (W5 i)].
  - intros i ib p [[-> ->]|Hi]%Hback Hp; [done|]. destruct (W6 _ _ _ Hi Hp) as (pb & Hpb & H). exists pb.
    split; [by apply Hold|done].
  - intros p pb c [[-> ->]|Hi]%Hback Hc; [by apply not_elem_of_nil in Hc|].
    destruct (W7 _ _ _ Hi Hc) as (cb & Hcb & H). exists cb. split; [by apply Hold|done].
  - intros p pb [[-> ->]|Hi]%Hback; [constructor|by apply (W8 p)].
  - intros t trt name j Htt Hn. destruct (Htr _ _ Htt) as (tr0 & Ht0 & _ & _ & _ & _ & _ & _ & _ & _ & Hnames).
    destruct (Hnames _ _ Hn) as [Hn0|(-> & -> & ->)].
    + destruct (W9 _ _ _ _ Ht0 Hn0) as (jb & m0 & Hj & E & Hm0 & Hid).
      destruct (with_messages_has st message transport msg tr Hm _ _ Hm0) as (m1 & Hm1 & E1 & _).
      exists jb, m1. split_and!; [by apply Hold|done|done|congruence].
    + destruct (with_messages_has st message transport msg tr Hm _ _ Hm) as (m1 & Hm1 & E1 & _).
      exists (new_job message transport), m1. split_and!; [apply lookup_insert_eq|done|done|done].
  - intros m1 m2 g1 g2 H1 H2 Hid. destruct (with_messages st message transport msg tr Hm _ _ H1) as (a1 & Ha1 & E1 & _).
    destruct (with_messages st message transport msg tr Hm _ _ H2) as (a2 & Ha2 & E2 & _). apply (W10 m1 m2 a1 a2); congruence.
  - intros t trt Htt. destruct (Htr _ _ Htt) as (tr0 & Ht0 & _ & _ & -> & _ & -> & -> & _). by apply (Hcur t).
  - intros t trt Hn Htt. destruct (Htr _ _ Htt) as (tr0 & Ht0 & _ & _ & E1 & _ & _ & _ & E2 & E3 & _).
    intros c k. rewrite E1, E2, E3. intros Hc Hk. destruct (Hcache _ _ Hn Ht0 c k Hc Hk) as (H1 & H2 & kb & H3 & H4).
    split_and!; [done..|]. exists kb. split; [by apply Hold|done].
Qed.

Lemma conserved_with_job st message transport msg tr :
  wf st -> messages st !! message = Some msg -> transports st !! transport = Some tr ->
  conserved st (with_job (next_addr st) message transport msg tr st).
Proof.
  intros Hwf Hm Ht. pose proof (fresh_job st Hwf) as Hf. split; intros x.
  - unfold slots. cbn. rewrite (map_sum_insert_new _ _ _ _ Hf), lookup_insert_dec. cbn.
    destruct (decide (transport = x)) as [<-|]; [rewrite Ht; cbn|]; lia.
  - unfold message_slots. cbn. rewrite (map_sum_insert_new _ _ _ _ Hf), lookup_insert_dec. cbn.
    destruct (decide (message = x)) as [<-|]; [rewrite Hm; cbn|]; lia.
Qed.

(** Resetting the candidate cache, and a job's blocker tag. *)
Lemma kept_reset_cache t st (Q : unit -> qmgr -> Prop) tr :
  wf st -> transports st !! t = Some tr ->
  (kept st (put_transport t (set_t_candidate_cache_current None tr) st) ->
   Q tt (put_transport t (set_t_candidate_cache_current None tr) st)) ->
  wp (RESET_CANDIDATE_CACHE t) st Q.
Proof.
  intros Hwf Ht HQ. apply (wp_upd_transport _ _ _ tr); [done|]. apply HQ.
  apply (kept_put_cursors _ _ tr); [done..|by right| | |done]; apply (wf_wf_cursors _ Hwf _ _ Ht).
Qed.

Lemma wf_put_quiet st j jb jb' :
  jobs st !! j = Some jb -> jshape jb' = jshape jb -> wf st -> wf (put_job j jb' st).
Proof.
  intros Hj Hv [Hwf Hcur Hcache]. assert (E : j_stack_children jb' = j_stack_children jb) by (by injection Hv).
  split.
  - by apply (wf_core_shape st); [apply (shape_put_job _ _ jb)|].
  - exact Hcur.
  - intros t tr Hn Ht c k Hc Hk. destruct (Hcache _ _ Hn Ht c k Hc Hk) as (H1 & H2 & kb & H3 & H4).
    split_and!; [done..|]. cbn. rewrite lookup_insert_dec. case_decide as Hd; [|by exists kb]. exists jb'. split; [done|]. congruence.
Qed.

(** What qmgr_job_obtain() promises of the job it returns: it is the message's job
    for the transport, on the lists, and neither a blocker nor next to a cached
    candidate. *)
Record obtained (message transport : nat) (msg : QMGR_MESSAGE) (job : nat) (st : qmgr) : Prop := {
  ob_transport : exists tr, transports st !! transport = Some tr /\ job ∈ t_job_list tr /\
    t_job_byname tr !! m_queue_id msg = Some job /\ t_candidate_cache_current tr = None /\
    exists jb, jobs st !! job = Some jb /\ j_message jb = message /\ j_transport jb = transport /\
      0 <= j_stack_level jb /\ IS_BLOCKER jb tr = false
}.

(** Blocker tags of transports are odd, and so differ from the 0 of a job or queue
    that is not blocked. *)
Definition tags_odd (st : qmgr) : Prop := forall t tr, transports st !! t = Some tr -> Z.odd (t_blocker_tag tr) = true.

(** Nothing differs but what scheduling changes, and blocker tags of jobs. *)
Record retagged (st st' : qmgr) : Prop := {
  re_t t : tstatic <$> transports st' !! t = tstatic <$> transports st !! t;
  re_j j : set_j_blocker_tag 0 ∘ jstatic <$> jobs st' !! j = set_j_blocker_tag 0 ∘ jstatic <$> jobs st !! j;
  re_m m : mmask <$> messages st' !! m = mmask <$> messages st !! m;
  re_others : others st' = others st
}.

Lemma static_retagged st st' : static st st' -> retagged st st'.
Proof. intros [H1 H2 H3 H4]. split; [done| |done|done]. intros j. by rewrite !option_fmap_compose, H2. Qed.
Lemma retagged_trans s1 s2 s3 : retagged s1 s2 -> retagged s2 s3 -> retagged s1 s3.
Proof.
  intros [A1 A2 A3 A4] [B1 B2 B3 B4]. split; intros; [by rewrite B1|by rewrite B2|by rewrite B3|congruence].
Qed.

(** The last part of qmgr_job_obtain(). *)
Lemma ready_job_ok message transport msg job jb tr st (Q : nat -> qmgr -> Prop) :
  wf st -> tags_odd st -> jobs st !! job = Some jb -> transports st !! transport = Some tr ->
  j_message jb = message -> j_transport jb = transport -> 0 <= j_stack_level jb ->
  t_job_byname tr !! m_queue_id msg = Some job ->
  (forall st', wf st' -> conserved st st' -> obtained message transport msg job st' ->
     retagged st st' -> Q job st') ->
  wp (RESET_CANDIDATE_CACHE transport;;
      jb ← get_job job;
      tr ← get_transport transport;
      (if IS_BLOCKER jb tr then
         upd_job job (set_j_blocker_tag 0);;
         upd_transport transport (set_t_job_current (head (t_job_list tr)))
       else mret tt);;
      mret job) st Q.
Proof.
  intros Hwf Hodd Hj Ht Hjm Hjt Hl Hn HQ.
  assert (Hin : job ∈ t_job_list tr) by (apply (wf_lists _ (wf_wf_core _ Hwf) _ _ Ht); by exists jb).
  apply wp_bind. apply (kept_reset_cache _ _ _ tr); [done..|]. intros (Hwf1 & Hc1 & _).
  set (tr1 := set_t_candidate_cache_current None tr) in *. set (st1 := put_transport transport tr1 st) in *.
  apply wp_bind, (wp_get_job _ _ jb); [done|]. apply wp_bind, (wp_get_transport _ _ tr1); [apply lookup_insert_eq|].
  apply wp_bind. apply wp_if; intros Hb.
  - apply wp_bind, (wp_upd_job _ _ _ jb); [done|]. apply (wp_upd_transport _ _ _ tr1); [apply lookup_insert_eq|].
    apply wp_ret. set (jb' := set_j_blocker_tag 0 jb). set (tr2 := set_t_job_current _ tr1).
    set (st2 := put_transport transport tr2 (put_job job jb' st1)).
    assert (Hwf2 : wf (put_job job jb' st1)) by (by apply (wf_put_quiet _ _ jb)).
    assert (Hwf3 : wf st2).
    { apply (wf_put_cursors _ _ tr1); [apply lookup_insert_eq|done|done|by left| | |done].
      - intros i Hi. cbn in *. destruct (t_job_list tr) as [|x l]; [done|]. injection Hi as ->. by left.
      - apply (wf_wf_cursors _ Hwf1 transport tr1), lookup_insert_eq. }
    apply HQ; [done| | |].
    + etrans; [exact Hc1|]. etrans; [by apply (conserved_put_job _ job jb jb')|].
      apply (conserved_put_transport _ _ tr1); [apply lookup_insert_eq|done].
    + split. exists tr2. split_and!; [apply lookup_insert_eq|done|done|done|]. exists jb'.
      split_and!; [apply lookup_insert_eq|done..|]. change (0 =? t_blocker_tag tr = false). apply Z.eqb_neq. intros E.
      specialize (Hodd _ _ Ht). by rewrite <- E in Hodd.
    + split; [|intros j; cbn; rewrite lookup_insert_dec; case_decide; [subst; by rewrite Hj|done]|done|done].
      intros t. cbn. rewrite insert_insert_eq, lookup_insert_dec. case_decide; [subst; by rewrite Ht|done].
  - apply wp_ret, wp_ret, HQ; [done|done| |].
    + split. exists tr1. split_and!; [apply lookup_insert_eq|done|done|done|]. by exists jb.
    + split; [|done..]. intros t. cbn. rewrite lookup_insert_dec. case_decide; [subst; by rewrite Ht|done].
Qed.

(** What happens to the jobs that were there before. *)
Definition jobs_kept (st st' : qmgr) : Prop := forall j jb, jobs st !! j = Some jb -> exists jb',
  jobs st' !! j = Some jb' /\ set_j_blocker_tag 0 (jstatic jb') = set_j_blocker_tag 0 (jstatic jb).

Lemma static_tags st st' : static st st' -> tags_odd st -> tags_odd st'.
Proof.
  intros Hs H t tr' Ht'. destruct (view_some tstatic _ _ _ (eq_sym (st_t _ _ Hs t)) Ht') as (tr & Ht & E).
  apply tstatic_inv in E as (_ & E & _). rewrite <- E. by apply (H t).
Qed.

(** From the job that was found or created, linked or not. *)
Lemma obtain_rest_ok message transport msg job jb tr st (Q : nat -> qmgr -> Prop) :
  wf st -> tags_odd st -> jobs st !! job = Some jb -> transports st !! transport = Some tr ->
  j_message jb = message -> j_transport jb = transport -> t_job_byname tr !! m_queue_id msg = Some job ->
  (forall st', wf st' -> conserved st st' -> obtained message transport msg job st' -> retagged st st' -> Q job st') ->
  wp (jb ← get_job job;
      (if j_stack_level jb <? 0 then qmgr_job_link job else mret tt);;
      RESET_CANDIDATE_CACHE transport;;
      jb ← get_job job;
      tr ← get_transport transport;
      (if IS_BLOCKER jb tr then
         upd_job job (set_j_blocker_tag 0);;
         upd_transport transport (set_t_job_current (head (t_job_list tr)))
       else mret tt);;
      mret job) st Q.
Proof.
  intros Hwf Hodd Hj Ht Hjm Hjt Hn HQ. apply wp_bind, (wp_get_job _ _ jb); [done|].
  apply wp_bind. apply (wp_mono _ _ (fun _ st1 => kept st st1 /\ on_lists job jb st1)).
  { apply wp_if; intros Hl; zb; [by apply link_ok|]. apply wp_ret. split; [by split_and!|]. exists jb. by split_and!. }
  intros ? st1 [(Hwf1 & Hc1 & Hs1) (jb1 & Hj1 & Hst & Hl1)].
  destruct (static_transport _ _ _ _ Hs1 Ht) as (tr1 & Ht1 & (_ & _ & En & _)%tstatic_inv).
  pose proof Hst as (E1 & E2 & _)%jstatic_inv.
  apply (ready_job_ok message transport msg job jb1 tr1); [done|by apply (static_tags st)|done|done|congruence..|done|congruence|].
  intros st2 Hwf2 Hc2 Hob Hr2. apply HQ; [done|by etrans|done|]. eapply retagged_trans; [by apply static_retagged|done].
Qed.

Lemma retagged_jobs st st' : retagged st st' -> jobs_kept st st'.
Proof.
  intros Hr j jb Hj. destruct (view_some (set_j_blocker_tag 0 ∘ jstatic) _ _ _ (re_j _ _ Hr j) Hj) as (jb' & Hj' & E). by exists jb'.
Qed.

(** The job that qmgr_job_obtain() returns was there, or is new. *)
Definition obtained_from (message transport : nat) (msg : QMGR_MESSAGE) (tr : QMGR_TRANSPORT) (st : qmgr) (job : nat) (st' : qmgr) : Prop :=
  (t_job_byname tr !! m_queue_id msg = Some job /\ retagged st st') \/
  (t_job_byname tr !! m_queue_id msg = None /\ job = next_addr st /\ retagged (with_job job message transport msg tr st) st').

Lemma job_obtain_cases message transport msg tr st :
  wf st -> tags_odd st -> messages st !! message = Some msg -> transports st !! transport = Some tr ->
  wp (qmgr_job_obtain message transport) st (fun job st' =>
    wf st' /\ conserved st st' /\ obtained message transport msg job st' /\ obtained_from message transport msg tr st job st').
Proof.
  intros Hwf Hodd Hm Ht. unfold qmgr_job_obtain, qmgr_job_find.
  apply wp_bind, wp_bind, (wp_get_message _ _ msg); [done|]. apply wp_bind, (wp_get_transport _ _ tr); [done|].
  apply wp_ret. destruct (t_job_byname tr !! m_queue_id msg) as [job|] eqn:Hn.
  - destruct (wf_names _ (wf_wf_core _ Hwf) _ _ _ _ Ht Hn) as (jb & m0 & Hj & Et & Hm0 & Hid).
    assert (Em : j_message jb = message) by (by eapply (wf_ids _ (wf_wf_core _ Hwf))).
    apply wp_bind, wp_ret. apply (obtain_rest_ok message transport msg job jb tr); try done.
    intros st2 Hwf2 Hc2 Hob Hr. split_and!; [done..|]. by left.
  - apply wp_bind. unfold qmgr_job_create. apply wp_bind, wp_alloc, wp_bind, (wp_get_message _ _ msg); [done|].
    set (job := next_addr st). apply wp_bind, wp_modify, wp_bind, (wp_upd_message _ _ _ msg); [done|].
    apply wp_bind, (wp_upd_transport _ _ _ tr); [done|]. apply wp_ret.
    match goal with |- wp _ ?s _ => change s with (with_job job message transport msg tr st) end.
    set (st1 := with_job _ _ _ _ _ st).
    assert (Hodd1 : tags_odd st1).
    { intros t trt. cbn. rewrite lookup_insert_dec. case_decide; [intros [= <-]; exact (Hodd _ _ Ht)|apply Hodd]. }
    eapply (obtain_rest_ok message transport msg job (new_job message transport));
      [by apply wf_with_job|done|apply lookup_insert_eq|apply lookup_insert_eq|done|done|cbn; apply lookup_insert_eq|].
    intros st2 Hwf2 Hc2 Hob Hr. split_and!; [done| |done|by right]. etrans; [|exact Hc2]. by apply conserved_with_job.
Qed.

Lemma job_obtain_wp message transport msg tr st :
  wf st -> tags_odd st -> messages st !! message = Some msg -> transports st !! transport = Some tr ->
  wp (qmgr_job_obtain message transport) st (fun job st' =>
    wf st' /\ conserved st st' /\ obtained message transport msg job st' /\ jobs_kept st st').
Proof.
  intros Hwf Hodd Hm Ht. eapply wp_mono; [by apply (job_obtain_cases message transport msg tr)|].
  intros job st' (H1 & H2 & H3 & [[_ Hr]|(_ & -> & Hr)]); (split; [done|]); (split; [done|]); (split; [done|]); [by apply retagged_jobs|].
  intros j jb Hj. apply (retagged_jobs _ _ Hr). by apply (old_job st message transport msg tr Hwf).
Qed.

(** A state without jobs, to start from. *)
Lemma wf_no_jobs st :
  jobs st = ∅ ->
  (forall t tr, transports st !! t = Some tr -> t_job_list tr = [] /\ t_job_bytime tr = [] /\ t_job_byname tr = ∅ /\
     t_job_current tr = None /\ t_job_next_unread tr = None /\ t_candidate_cache_current tr = None) ->
  (forall m1 m2 msg1 msg2, messages st !! m1 = Some msg1 -> messages st !! m2 = Some msg2 ->
     m_queue_id msg1 = m_queue_id msg2 -> m1 = m2) -> wf st.
Proof.
  intros Hj Ht Hids. assert (Hno : forall j jb, jobs st !! j = Some jb -> False) by (intros j jb; by rewrite Hj, lookup_empty).
  split; [split|..]; try (intros; exfalso; by eapply Hno); try done.
  - intros j [jb ?]. exfalso. by eapply Hno.
  - intros t tr H. destruct (Ht _ _ H) as (-> & -> & _). split_and!; [constructor|done|].
    intros j. split; [by intros ?%not_elem_of_nil|]. intros (jb & ? & _). exfalso. by eapply Hno.
  - intros t tr H. destruct (Ht _ _ H) as (_ & -> & _). constructor.
  - intros t tr name j H. destruct (Ht _ _ H) as (_ & _ & -> & _). by rewrite lookup_empty.
  - intros t tr H. destruct (Ht _ _ H) as (-> & _ & _ & -> & -> & _). by split.
  - intros t tr _ H c k. destruct (Ht _ _ H) as (_ & _ & _ & _ & _ & ->). done.
Qed.

Definition base_feedback : QMGR_FEEDBACK := mk_qmgr_feedback 1 (S754_zero false) 0.
Definition base_transport : QMGR_TRANSPORT :=
  mk_qmgr_transport 0 0 20 5 1000 2000 100 5 5 3 50 3 ∅ [] ∅ [] [] None None
    None None 0 1 None base_feedback base_feedback 1 0 0.
Definition base_message (id : bytes) (time unread : Z) : QMGR_MESSAGE :=
  mk_qmgr_message id 0 time 0 0 0 100 unread [].
Definition base_state : qmgr :=
  mk_qmgr {[1%nat := base_transport]} ∅ ∅
    (<[21%nat := base_message (str "A") 50 90]> {[22%nat := base_message (str "B") 100 0]}) ∅ ∅
    [1%nat] 30 300 0 0 20000 ∅ ∅ ∅.

Lemma base_wf : wf base_state /\ tags_odd base_state.
Proof.
  split.
  - apply wf_no_jobs; [done| |].
    + intros t tr H. cbn [base_state transports] in H. by apply lookup_singleton_Some in H as [<- <-].
    + intros m1 m2 msg1 msg2 H1 H2 Hid. cbn [base_state messages] in H1, H2.
      apply lookup_insert_Some in H1 as [[<- <-]|[_ [<- <-]%lookup_singleton_Some]];
        apply lookup_insert_Some in H2 as [[<- <-]|[_ [<- <-]%lookup_singleton_Some]]; done.
  - intros t tr H. cbn [base_state transports] in H. by apply lookup_singleton_Some in H as [<- <-].
Qed.

(** ** Properties *)

(** C28: qmgr_job_obtain() returns the job of the message for the transport, found,
    revived or created: it completes (qmgr_job_link() does not panic), the job is on
    the job lists, not marked as a blocker, no candidate stays cached, and the
    scheduler's structures stay well-formed: in particular the time list is in
    order of arrival with the job at its place. No recipient slot is created or
    lost, and other jobs keep their counters. *)
Theorem job_obtain_ok message transport msg tr st :
  wf st -> tags_odd st -> messages st !! message = Some msg -> transports st !! transport = Some tr ->
  wp (qmgr_job_obtain message transport) st (fun job st' =>
    wf st' /\ conserved st st' /\ obtained message transport msg job st' /\ jobs_kept st st').
Proof. apply job_obtain_wp. Qed.

Lemma job_obtain_ok_witness :
  wp (qmgr_job_obtain 21 1) base_state (fun job st' =>
    wf st' /\ conserved base_state st' /\ obtained 21 1 (base_message (str "A") 50 90) job st' /\ jobs_kept base_state st').
Proof. apply (job_obtain_ok 21 1 _ base_transport); [apply base_wf|apply base_wf|reflexivity|reflexivity]. Defined.

(** The base state after some operations. *)
Definition run {A} (m : M A) (st : qmgr) : qmgr := match m st with Ret (_, st') => st' | _ => st end.
Lemma wp_run_inv {A} (m : M A) st (Q : A -> qmgr -> Prop) : wp m st Q -> exists a, Q a (run m st).
Proof. unfold wp, run. destruct (m st) as [[a st']| |]; [|done..]. by exists a. Qed.

Definition two_jobs : qmgr := run (qmgr_job_obtain 22 1) (run (qmgr_job_obtain 21 1) base_state).

Lemma two_jobs_wf : wf two_jobs.
Proof.
  destruct (wp_run_inv (qmgr_job_obtain 21 1) base_state _
    (job_obtain_wp 21 1 _ base_transport _ (proj1 base_wf) (proj2 base_wf) eq_refl eq_refl)) as (j1 & Hwf1 & _).
  set (st1 := run (qmgr_job_obtain 21 1) base_state) in *.
  destruct (transports st1 !! 1%nat) as [tr1|] eqn:Ht1; [|by vm_compute in Ht1].
  assert (E1 : transports st1 = {[1%nat := default base_transport (transports st1 !! 1%nat)]}) by by vm_compute.
  assert (Hm : exists msg, messages st1 !! 22%nat = Some msg).
  { destruct (messages st1 !! 22%nat) as [msg|] eqn:Hm; [by exists msg|]. by vm_compute in Hm. }
  destruct Hm as [msg Hm].
  assert (Hodd : tags_odd st1).
  { intros t tr H. rewrite E1 in H. apply lookup_singleton_Some in H as [<- <-]. by vm_compute. }
  destruct (wp_run_inv (qmgr_job_obtain 22 1) st1 _ (job_obtain_wp 22 1 msg tr1 st1 Hwf1 Hodd Hm Ht1)) as (j2 & Hwf2 & _).
  exact Hwf2.
Qed.
