(* ===== verification/QmgrPreempt.v ===== *)
(** Choosing a candidate and preempting the current job: qmgr_job_candidate(),
    qmgr_job_preempt() and qmgr_job_pop() of qmgr_job.c (src/src/qmgr) are
    correct. *)

From S2P Require Export QmgrLink.

(** ** Candidates *)

(** The jobs that the search may return for the current job: further down the job
    list, with no children on the stack, not blocked, and with entries left, no
    more of them than the current job can ever accumulate slots for. *)
Definition suitable (st : qmgr) (tr : QMGR_TRANSPORT) (l : list nat) (max_slots : Z) (k : nat) : Prop :=
  k ∈ l /\ exists kb kmsg, jobs st !! k = Some kb /\ messages st !! j_message kb = Some kmsg /\
    j_stack_children kb = [] /\ IS_BLOCKER kb tr = false /\
    0 < MAX_ENTRIES kb kmsg - j_selected_entries kb <= max_slots.

Lemma suitable_cons st tr x l n k : suitable st tr l n k -> suitable st tr (x :: l) n k.
Proof. intros [Hk H]. split; [by right|done]. Qed.

Lemma candidate_loop_ok st tr now n l best score :
  readable st l ->
  wp (candidate_loop tr now n l best score) st (fun r st' => st' = st /\
    (r = best \/ exists k, r = Some k /\ suitable st tr l n k)).
Proof.
  revert best score. induction l as [|x l IH]; intros best score Hr; cbn [candidate_loop]; [apply wp_ret; by split; [|left]|].
  assert (Hr' : readable st l) by (intros y Hy; apply Hr; by right).
  assert (Hrest : forall b s (best : option nat), (b = best \/ exists k, b = Some k /\ suitable st tr (x :: l) n k) ->
    wp (candidate_loop tr now n l b s) st (fun r st' => st' = st /\
      (r = best \/ exists k, r = Some k /\ suitable st tr (x :: l) n k))).
  { intros b s best' Hb. eapply wp_mono; [by apply IH|]. intros r st' [-> Hor]. split; [done|].
    destruct Hor as [->|(k & -> & Hk)]; [done|]. right. exists k. split; [done|by apply suitable_cons]. }
  destruct (Hr x) as (xb & xmsg & Hx & Hm); [by left|]. apply wp_bind, (wp_get_job _ _ xb); [done|].
  apply wp_if; intros Hskip; [apply Hrest; by left|]. apply orb_false_elim in Hskip as [Hch Hbl].
  apply negb_false_iff, bool_decide_eq_true in Hch.
  apply wp_bind, (wp_get_message _ _ xmsg); [done|]. cbv zeta.
  destruct (if (MAX_ENTRIES xb xmsg - j_selected_entries xb >? 0) && _ then _ else (best, score)) as [b s] eqn:Hbs.
  assert (Hb : b = best \/ exists k, b = Some k /\ suitable st tr (x :: l) n k).
  { destruct (_ && _) eqn:Hfit in Hbs; [|left; congruence].
    destruct (SFltb score _); [|left; congruence]. right. exists x. split; [congruence|].
    split; [by left|]. exists xb, xmsg. split_and!; [done..|lia|lia]. }
  apply wp_if; intros _; [|by apply Hrest]. apply wp_ret. by split.
Qed.

(** A transport that differs in its candidate cache only. *)
Definition cache_mask (tr : QMGR_TRANSPORT) : QMGR_TRANSPORT :=
  set_t_candidate_cache None (set_t_candidate_cache_current None (set_t_candidate_cache_time 0 tr)).

(** What qmgr_job_candidate() does to the state. *)
Definition cache_update (t : nat) (st st' : qmgr) : Prop := exists tr tr',
  transports st !! t = Some tr /\ st' = put_transport t tr' st /\ cache_mask tr' = cache_mask tr.

Lemma put_transport_same t tr st : transports st !! t = Some tr -> st = put_transport t tr st.
Proof. intros H. by rewrite put_transport_id. Qed.

Lemma cache_mask_inv a b : cache_mask a = cache_mask b ->
  tshape a = tshape b /\ tstatic a = tstatic b /\ t_rcpt_unused a = t_rcpt_unused b /\
  t_job_current a = t_job_current b /\ t_job_next_unread a = t_job_next_unread b.
Proof. destruct a, b. unfold cache_mask. cbn. intros H. injection H. intros. by subst. Qed.

Lemma after_readable st t tr c : wf_core st -> transports st !! t = Some tr -> readable st (after c (t_job_list tr)).
Proof.
  intros Hwf Ht x Hx%after_elem. destruct (on_list_msg _ _ _ _ Hwf Ht Hx) as (xb & xmsg & ? & _ & ? & _). by exists xb, xmsg.
Qed.

(** The current job is none of the jobs after it. *)
Lemma suitable_candidate st t tr c n k :
  wf_core st -> transports st !! t = Some tr -> suitable st tr (after c (t_job_list tr)) n k ->
  k <> c /\ k ∈ t_job_list tr /\ exists kb, jobs st !! k = Some kb /\ j_stack_children kb = [].
Proof.
  intros Hwf Ht (Hk & kb & _ & Hkb & _ & Hch & _). split_and!; [|by eapply after_elem|by exists kb].
  intros ->. by apply (after_not_self c (t_job_list tr)); [apply (wf_lists _ Hwf _ _ Ht)|].
Qed.

Lemma candidate_wp_ok current cb tr st :
  wf st -> jobs st !! current = Some cb -> transports st !! j_transport cb = Some tr -> t_slot_cost tr <> 0 ->
  wp (qmgr_job_candidate current) st (fun r st' =>
    wf st' /\ cache_update (j_transport cb) st st' /\
    (forall k, r = Some k -> k <> current /\ k ∈ t_job_list tr /\ exists kb, jobs st !! k = Some kb /\ j_stack_children kb = []) /\
    (t_candidate_cache_current tr <> Some current -> forall k, r = Some k ->
       suitable st tr (after current (t_job_list tr))
         (Z.quot (MIN_ENTRIES cb - j_selected_entries cb + j_slots_available cb) (t_slot_cost tr)) k)).
Proof.
  intros Hwf Hj Ht Hcost. pose proof Hwf as [Hc Hcur Hcache]. unfold qmgr_job_candidate.
  apply wp_bind, (wp_get_job _ _ cb); [done|]. apply wp_bind, (wp_get_transport _ _ tr); [done|].
  apply wp_bind, wp_gets. apply wp_decide; intros Hhit.
  - apply wp_ret. destruct Hhit as [Hcc _]. split_and!; [done| | |done].
    + exists tr, tr. split_and!; [done|by apply put_transport_same|done].
    + intros k Hk. by apply (Hcache _ _ ltac:(by intros []) Ht current k).
  - apply wp_bind, wp_c_div; [done|]. set (n := Z.quot _ _).
    apply wp_bind. apply (wp_mono _ _ (fun r st' => st' = st /\ forall k, r = Some k -> suitable st tr (after current (t_job_list tr)) n k)).
    { apply wp_if; intros _; [|by apply wp_ret].
      eapply wp_mono; [apply candidate_loop_ok; by eapply after_readable|]. intros r st' [-> Hor]. split; [done|].
      intros k ->. destruct Hor as [?|(k' & [= <-] & H)]; done. }
    intros best ? [-> Hbest]. assert (Hcand : forall k, best = Some k -> k <> current /\ k ∈ t_job_list tr /\
      exists kb, jobs st !! k = Some kb /\ j_stack_children kb = []).
    { intros k Hk. eapply suitable_candidate; [done..|by apply Hbest]. }
    apply wp_bind, (wp_upd_transport _ _ _ tr); [done|].
    apply wp_bind. eapply wp_upd_transport; [apply lookup_insert_eq|]. rewrite put_put_transport.
    apply wp_bind. eapply wp_upd_transport; [apply lookup_insert_eq|]. rewrite put_put_transport. apply wp_ret.
    set (tr' := set_t_candidate_cache_time _ _). split_and!; [split|by exists tr, tr'|done|by intros _].
    + by apply (wf_core_shape st); [apply (shape_put_transport _ _ tr)|].
    + intros x trx. cbn. rewrite lookup_insert_dec. case_decide; [intros [= <-]; by apply (Hcur _ _ Ht)|apply Hcur].
    + intros x trx Hn. cbn. rewrite lookup_insert_dec. case_decide; [|by apply Hcache].
      intros [= <-] c k [= <-] Hk. by apply Hcand.
Qed.

(** ** Taking the place in front of the current job *)

(** The job list with the job in front of the current one. *)
Definition in_front (job current : nat) (l : list nat) : list nat :=
  list_link_before current job (list_unlink job l).

Lemma in_front_perm job current l : NoDup l -> job ∈ l -> current ∈ l -> job <> current -> in_front job current l ≡ₚ l.
Proof.
  intros Hnd Hj Hc Hn. unfold in_front. rewrite list_link_before_perm.
  - by rewrite <- list_unlink_perm.
  - by apply list_unlink_elem.
Qed.

(** The stack and the lists after the preemption. *)
Definition attached_transport (job current : nat) (tr : QMGR_TRANSPORT) : QMGR_TRANSPORT :=
  set_t_candidate_cache_current None (set_t_job_current (Some job)
    (set_t_job_list (in_front job current (t_job_list tr)) tr)).
Definition attached (job current : nat) (jb cb : QMGR_JOB) (tr : QMGR_TRANSPORT) (st : qmgr) : qmgr :=
  put_transport (j_transport jb) (attached_transport job current tr)
    (put_job job (set_j_stack_level (j_stack_level cb + 1) (set_j_stack_parent (Some current) jb))
      (put_job current (set_j_stack_children (j_stack_children cb ++ [job]) cb) st)).

Lemma attached_jobs job current jb cb tr st i :
  jobs (attached job current jb cb tr st) !! i =
    if decide (job = i) then Some (set_j_stack_level (j_stack_level cb + 1) (set_j_stack_parent (Some current) jb))
    else if decide (current = i) then Some (set_j_stack_children (j_stack_children cb ++ [job]) cb) else jobs st !! i.
Proof. cbn. by rewrite !lookup_insert_dec. Qed.

Lemma wf_attached job current jb cb tr st :
  wf st -> jobs st !! job = Some jb -> jobs st !! current = Some cb -> transports st !! j_transport jb = Some tr ->
  job <> current -> j_transport cb = j_transport jb -> j_stack_parent jb = None -> j_stack_children jb = [] ->
  0 <= j_stack_level jb -> 0 <= j_stack_level cb -> wf (attached job current jb cb tr st).
Proof.
  intros [Hwf Hcur Hcache] Hj Hc Ht Hn Het Hpar Hch Hlj Hlc.
  destruct (wf_lists _ Hwf _ _ Ht) as (Hnd & Hperm & Hin).
  assert (Hjin : job ∈ t_job_list tr) by (apply Hin; by exists jb).
  assert (Hcin : current ∈ t_job_list tr) by (apply Hin; by exists cb).
  pose proof (in_front_perm _ _ _ Hnd Hjin Hcin Hn) as Hp.
  set (lv := j_stack_level cb + 1). set (tr' := attached_transport job current tr).
  set (st1 := put_transport (j_transport jb) tr' (put_job job (set_j_stack_level lv jb) st)).
  assert (Hl' : t_job_list tr' ≡ₚ t_job_list tr) by done.
  assert (Hwf1 : wf_core st1).
  { apply (wf_core_set_level st job jb tr); [done..|unfold lv; lia|done| | | |].
    - by rewrite Hl'.
    - by rewrite Hl'.
    - by apply (wf_sorted _ Hwf (j_transport jb) tr).
    - intros i. rewrite Hl'. destruct (decide (i = job)) as [->|]; [|naive_solver].
      split; [intros _; left; split; [done|unfold lv; lia]|done]. }
  split.
  - apply (wf_core_reparent st1 _ job (set_j_stack_level lv jb) (Some current)); [done|apply lookup_insert_eq| |].
    + intros q [= <-]. cbn. rewrite Hpar. split; [done|]. exists cb. rewrite lookup_insert_ne by done.
      split_and!; [done|done|done|unfold lv; lia].
    + split; [|done..]. intros i. rewrite attached_jobs. unfold st1. rewrite put_job_lookup. unfold reparent.
      change (j_stack_parent (set_j_stack_level lv jb)) with (j_stack_parent jb). rewrite Hpar.
      destruct (decide (job = i)) as [<-|Hi].
      * cbn. rewrite (decide_False (P := Some job = None)), (decide_False (P := Some job = Some current)) by congruence.
        by rewrite decide_True.
      * destruct (decide (current = i)) as [<-|Hi'].
        -- rewrite Hc. cbn. by rewrite (decide_True (P := Some current = Some current)), decide_False by congruence.
        -- destruct (jobs st !! i); [|done]. cbn. by rewrite !decide_False by congruence.
  - intros x trx. cbn. rewrite lookup_insert_dec. case_decide; [|apply Hcur]. intros [= <-]. subst.
    destruct (Hcur _ _ Ht) as [H1 H2].
    assert (Hin' : forall i, i ∈ t_job_list tr -> i ∈ t_job_list tr') by (intros i; by rewrite Hl').
    split; intros i; [intros [= <-]|intros Hi]; apply Hin'; auto.
  - intros x trx Hx. cbn. rewrite lookup_insert_dec. case_decide as Hd; [by intros [= <-] c k|].
    intros Htx c k Hcc Hk. destruct (Hcache _ _ Hx Htx c k Hcc Hk) as (H1 & H2 & kb & Hkb & Hkc).
    split_and!; [done..|]. exists kb. rewrite attached_jobs.
    apply (wf_lists _ Hwf _ _ Htx) in H2 as (kb' & Hkb' & Et & _).
    rewrite !decide_False; [done|intros <-; congruence..].
Qed.

Lemma conserved_attached job current jb cb tr st :
  jobs st !! job = Some jb -> jobs st !! current = Some cb -> transports st !! j_transport jb = Some tr ->
  job <> current -> conserved st (attached job current jb cb tr st).
Proof.
  intros Hj Hc Ht Hn. unfold attached. etrans; [by apply (conserved_put_job _ current cb (set_j_stack_children (j_stack_children cb ++ [job]) cb))|].
  etrans; [apply (conserved_put_job _ job jb (set_j_stack_level (j_stack_level cb + 1) (set_j_stack_parent (Some current) jb)));
    [cbn; by rewrite lookup_insert_ne|done..]|].
  by apply (conserved_put_transport _ _ tr).
Qed.

Lemma put_job_around j i x y z st : j <> i ->
  put_job j x (put_job i y (put_job j z st)) = put_job j x (put_job i y st).
Proof.
  intros Hn. unfold put_job, set_jobs. cbn. f_equal. apply map_eq. intros k. rewrite !lookup_insert_dec.
  repeat case_decide; congruence.
Qed.

(** The middle of qmgr_job_preempt(), for a job that is on no stack. *)
Lemma attach_ok job current jb cb tr st (Q : nat -> qmgr -> Prop) (rest : M nat) :
  jobs st !! job = Some jb -> jobs st !! current = Some cb -> transports st !! j_transport jb = Some tr ->
  job <> current ->
  wp rest (attached job current jb cb tr st) Q ->
  wp (upd_transport (j_transport jb) (fun tr => set_t_job_list (list_unlink job (t_job_list tr)) tr);;
      upd_transport (j_transport jb) (fun tr => set_t_job_list (list_link_before current job (t_job_list tr)) tr);;
      upd_job job (set_j_stack_parent (Some current));;
      upd_job current (fun cb => set_j_stack_children (j_stack_children cb ++ [job]) cb);;
      cb ← get_job current;
      upd_job job (set_j_stack_level (j_stack_level cb + 1));;
      upd_transport (j_transport jb) (set_t_job_current (Some job));;
      RESET_CANDIDATE_CACHE (j_transport jb);; rest) st Q.
Proof.
  intros Hj Hc Ht Hn Hrest.
  apply wp_bind, (wp_upd_transport _ _ _ tr); [done|].
  apply wp_bind. eapply wp_upd_transport; [apply lookup_insert_eq|]. rewrite put_put_transport.
  apply wp_bind, (wp_upd_job _ _ _ jb); [done|].
  apply wp_bind, (wp_upd_job _ _ _ cb); [cbn; by rewrite lookup_insert_ne|].
  apply wp_bind. eapply wp_get_job; [apply lookup_insert_eq|].
  apply wp_bind, (wp_upd_job _ _ _ (set_j_stack_parent (Some current) jb)).
  { cbn. rewrite lookup_insert_ne by done. apply lookup_insert_eq. }
  rewrite put_job_around by done.
  apply wp_bind. eapply wp_upd_transport; [apply lookup_insert_eq|].
  apply wp_bind. eapply wp_upd_transport; [apply lookup_insert_eq|].
  match goal with |- wp _ ?s _ => assert (E : s = attached job current jb cb tr st) end.
  { unfold attached, put_transport, put_job, set_transports, set_jobs. cbn. by rewrite !insert_insert_eq. }
  by rewrite E.
Qed.

(** ** Preemption *)

(** The job has taken the place of the current one: it is its child on the stack,
    in front of it on the job list, and the next current job; [expected] is what the
    preempting job is charged in advance, and [available] what is left. *)
Definition preempted (current job : nat) (expected available : Z) (st : qmgr) : Prop :=
  exists jb cb tr, jobs st !! job = Some jb /\ jobs st !! current = Some cb /\
    transports st !! j_transport cb = Some tr /\ j_transport jb = j_transport cb /\
    j_stack_parent jb = Some current /\ j_stack_level jb = j_stack_level cb + 1 /\
    j_slots_used jb = - expected /\ j_slots_available cb = available /\
    t_job_current tr = Some job /\ next_in job (t_job_list tr) = Some current.

Lemma next_in_front job current l : NoDup l -> current ∈ l -> job <> current ->
  next_in job (in_front job current l) = Some current.
Proof.
  intros Hnd Hc Hn. unfold in_front, list_link_before.
  assert (Hc' : current ∈ list_unlink job l) by (by apply list_unlink_elem).
  rewrite decide_True by done. unfold next_in.
  assert (Hb : job ∉ before current (list_unlink job l)).
  { intros Hb. assert (Hj : job ∈ list_unlink job l).
    { rewrite (before_after current (list_unlink job l) Hc'). apply elem_of_app. by left. }
    by apply list_unlink_elem in Hj as [_ ?]. }
  by destruct (before_after_mid job _ (current :: after current (list_unlink job l)) Hb) as [_ ->].
Qed.

(** Shape-preserving updates of the two jobs. *)
Lemma kept_put_job st j jb jb' :
  jobs st !! j = Some jb -> jshape jb' = jshape jb -> jstatic jb' = jstatic jb -> j_rcpt_limit jb' = j_rcpt_limit jb ->
  wf st -> kept st (put_job j jb' st).
Proof.
  intros Hj Hs Hst Hl Hwf. split_and!.
  - by apply (wf_put_quiet st j jb).
  - apply (conserved_put_job _ j jb); [done|done| |]; by injection Hs.
  - split; [done| |done..]. intros i. cbn. rewrite lookup_insert_dec.
    case_decide; [subst; rewrite Hj; cbn; by rewrite Hst|done].
Qed.

Lemma static_attached job current jb cb tr st :
  jobs st !! job = Some jb -> jobs st !! current = Some cb -> transports st !! j_transport jb = Some tr ->
  static st (attached job current jb cb tr st).
Proof.
  intros Hj Hc Ht. split; [| |done..].
  - intros x. by apply (insert_view _ _ _ tr).
  - intros i. rewrite attached_jobs. case_decide; [subst; by rewrite Hj|]. case_decide; [subst; by rewrite Hc|done].
Qed.

(** The slots for reading more recipients that a preempting job gets. *)
Definition stack_slots (tr : QMGR_TRANSPORT) : Z := Z.quot (t_rcpt_per_stack tr + t_rcpt_unused tr + 1) 2.

Lemma preempt_rest_ok job current jb cb tr msg (unread : bool) expected st (Q : nat -> qmgr -> Prop) :
  wf st -> jobs st !! job = Some jb -> jobs st !! current = Some cb -> transports st !! j_transport jb = Some tr ->
  messages st !! j_message jb = Some msg -> job <> current -> j_transport cb = j_transport jb ->
  j_stack_parent jb = None -> j_stack_children jb = [] -> 0 <= j_stack_level jb -> 0 <= j_stack_level cb ->
  (forall st', kept st st' ->
     preempted current job expected (j_slots_available cb - expected * t_slot_cost tr) st' -> Q job st') ->
  wp (upd_transport (j_transport jb) (fun tr => set_t_job_list (list_unlink job (t_job_list tr)) tr);;
      upd_transport (j_transport jb) (fun tr => set_t_job_list (list_link_before current job (t_job_list tr)) tr);;
      upd_job job (set_j_stack_parent (Some current));;
      upd_job current (fun cb => set_j_stack_children (j_stack_children cb ++ [job]) cb);;
      cb ← get_job current;
      upd_job job (set_j_stack_level (j_stack_level cb + 1));;
      upd_transport (j_transport jb) (set_t_job_current (Some job));;
      RESET_CANDIDATE_CACHE (j_transport jb);;
      upd_job current (fun cb => set_j_slots_available (j_slots_available cb - expected * t_slot_cost tr) cb);;
      upd_job job (set_j_slots_used (- expected));;
      (if unread then
         tr ← get_transport (j_transport jb);
         let rcpt_slots := Z.quot (t_rcpt_per_stack tr + t_rcpt_unused tr + 1) 2 in
         upd_job job (fun jb => set_j_rcpt_limit (j_rcpt_limit jb + rcpt_slots) jb);;
         upd_message (j_message jb) (fun msg => set_m_rcpt_limit (m_rcpt_limit msg + rcpt_slots) msg);;
         upd_transport (j_transport jb) (fun tr => set_t_rcpt_unused (t_rcpt_unused tr - rcpt_slots) tr)
       else mret tt);;
      mret job) st Q.
Proof.
  intros Hwf Hj Hc Ht Hm Hn Het Hpar Hch Hlj Hlc HQ.
  apply (attach_ok job current jb cb tr); [done..|]. set (st1 := attached job current jb cb tr st).
  assert (Hk1 : kept st st1).
  { split_and!; [by apply wf_attached|by apply conserved_attached|by apply static_attached]. }
  set (jb1 := set_j_stack_level (j_stack_level cb + 1) (set_j_stack_parent (Some current) jb)).
  set (cb1 := set_j_stack_children (j_stack_children cb ++ [job]) cb).
  assert (Hj1 : jobs st1 !! job = Some jb1) by (unfold st1; by rewrite attached_jobs, decide_True).
  assert (Hc1 : jobs st1 !! current = Some cb1) by (unfold st1; by rewrite attached_jobs, decide_False, decide_True).
  apply wp_bind, (wp_upd_job _ _ _ cb1); [done|].
  set (cb2 := set_j_slots_available (j_slots_available cb1 - expected * t_slot_cost tr) cb1).
  set (st2 := put_job current cb2 st1). assert (Hk2 : kept st1 st2) by (apply (kept_put_job _ _ cb1); [done..|apply Hk1]).
  assert (Hj2 : jobs st2 !! job = Some jb1) by (cbn -[st1]; rewrite lookup_insert_ne; done).
  apply wp_bind, (wp_upd_job _ _ _ jb1); [done|]. set (jb3 := set_j_slots_used (- expected) jb1).
  set (st3 := put_job job jb3 st2). assert (Hk3 : kept st2 st3) by (apply (kept_put_job _ _ jb1); [done..|apply Hk2]).
  assert (Hk : kept st st3) by (eapply kept_trans; [exact Hk1|by eapply kept_trans]).
  assert (Hj3 : jobs st3 !! job = Some jb3) by apply lookup_insert_eq.
  assert (Hc3 : jobs st3 !! current = Some cb2) by (cbn -[st2]; rewrite lookup_insert_ne by done; apply lookup_insert_eq).
  set (tr1 := attached_transport job current tr). change (j_transport jb) with (j_transport jb3).
  assert (Ht3 : transports st3 !! j_transport jb3 = Some tr1) by apply lookup_insert_eq.
  assert (Hin : next_in job (t_job_list tr1) = Some current).
  { apply next_in_front; [| |done]. - apply (wf_lists _ (wf_wf_core _ Hwf) _ _ Ht).
    - apply (wf_lists _ (wf_wf_core _ Hwf) _ _ Ht). by exists cb. }
  apply wp_bind. apply wp_if; intros _.
  - apply wp_bind, (wp_get_transport _ _ tr1); [done|]. cbv zeta.
    apply wp_bind, (wp_upd_job _ _ _ jb3); [done|]. apply wp_bind, (wp_upd_message _ _ _ msg); [done|].
    apply (wp_upd_transport _ _ _ tr1); [done|].
    match goal with |- wp _ ?s _ => change s with (lend job (stack_slots tr1) jb3 tr1 msg st3) end.
    apply wp_ret, HQ; [eapply kept_trans; [exact Hk|apply kept_lend; [done..|apply Hk]]|].
    eexists _, cb2, _. rewrite !lend_job, decide_True, decide_False, lend_transport, decide_True by done.
    by split_and!.
  - apply wp_ret, wp_ret, HQ; [done|]. exists jb3, cb2, tr1.
    change (j_transport cb2) with (j_transport cb). rewrite Het. by split_and!.
Qed.

Lemma cache_update_kept t st st' : wf st' -> cache_update t st st' -> kept st st' /\ jobs st' = jobs st /\
  messages st' = messages st.
Proof.
  intros Hwf (tr & tr' & Ht & -> & Hm). apply cache_mask_inv in Hm as (_ & Hst & Hu & _).
  split_and!; [split_and!|done|done]; [done|by apply (conserved_put_transport _ _ tr)|by apply (static_put_transport _ _ tr)].
Qed.

(** The candidate leaves the stack that it is on; the current job stays as it is, unless the
    candidate was its child. *)
Lemma leave_stack_wp current cb tr st job jb st1 :
  wf st -> jobs st !! current = Some cb -> 0 <= j_stack_level cb -> transports st !! j_transport cb = Some tr ->
  wf st1 -> cache_update (j_transport cb) st st1 -> jobs st !! job = Some jb -> j_transport jb = j_transport cb ->
  j_stack_children jb = [] -> 0 <= j_stack_level jb -> job <> current ->
  wp (if j_stack_level jb >? 0 then qmgr_job_pop job else mret tt) st1 (fun _ st2 => kept st1 st2 /\
    (exists tr2, transports st2 !! j_transport cb = Some tr2 /\ t_slot_cost tr2 = t_slot_cost tr /\
       current ∈ t_job_list tr2) /\
    messages st2 = messages st1 /\
    (exists jb2, jobs st2 !! job = Some jb2 /\ j_transport jb2 = j_transport jb /\ j_message jb2 = j_message jb /\
       j_stack_parent jb2 = None /\ j_stack_children jb2 = [] /\ 0 <= j_stack_level jb2) /\
    (exists cb2, jobs st2 !! current = Some cb2 /\ j_transport cb2 = j_transport cb /\
       (j_stack_parent jb <> Some current -> j_slots_available cb2 = j_slots_available cb))).
Proof.
  intros Hwf Hc Hl Ht Hwf1 Hup Hj Et Hch Hlj Hn. destruct (cache_update_kept _ _ _ Hwf1 Hup) as (_ & Ej & _).
  destruct Hup as (tr0 & tr1 & Ht0 & -> & Hmask). assert (tr0 = tr) as -> by congruence.
  set (st1 := put_transport (j_transport cb) tr1 st) in *.
  assert (Ht1 : transports st1 !! j_transport cb = Some tr1) by apply lookup_insert_eq.
  apply cache_mask_inv in Hmask as (Esh & (Ecost & _)%tstatic_inv & _).
  assert (Hin1 : current ∈ t_job_list tr1) by (apply (wf_lists _ (wf_wf_core _ Hwf1) _ _ Ht1); by exists cb).
  rewrite Z.gtb_ltb. apply wp_if; intros Hlev; zb.
  - eapply wp_mono; [apply (pop_wf_ok job jb tr1); [done|done|by rewrite Et|done]|].
    intros _ st2 (Hwf2 & Hc2 & Hs2 & _ & Hf2 & Ht2 & Hj2 & Hsl). split_and!; [by split_and!| |apply Hf2| |].
    + rewrite Ht2, Et, lookup_insert_eq. by eexists.
    + exists (popped jb). split_and!; done.
    + destruct (Hsl current cb Hc) as (cb2 & Hc2' & _ & Ea). exists cb2. split_and!; [done| |].
      * destruct (static_job _ _ _ _ Hs2 Hc) as (x & Hx & (_ & E & _)%jstatic_inv). congruence.
      * intros Hp. rewrite Ea. unfold pop_slots. rewrite decide_False; [lia|]. by intros [? _].
  - apply wp_ret. split_and!; [by split_and!|by exists tr1|done| |by exists cb].
    exists jb. split_and!; [done..|by eapply level_zero_no_parent; [apply Hwf|done|lia]|done|done].
Qed.

Lemma job_preempt_wp current cb tr st :
  wf st -> jobs st !! current = Some cb -> 0 <= j_stack_level cb -> transports st !! j_transport cb = Some tr ->
  2 <= t_slot_cost tr ->
  wp (qmgr_job_preempt current) st (fun job st' => kept st st' /\
    ((job = current /\ jobs st' = jobs st) \/
     (job <> current /\ on_list st' (j_transport cb) job /\ exists jb msg, jobs st !! job = Some jb /\ messages st !! j_message jb = Some msg /\
        0 < j_slots_available cb /\
        (forall cmsg, messages st !! j_message cb = Some cmsg -> t_min_slots tr * t_slot_cost tr <= MAX_ENTRIES cb cmsg) /\
        (j_stack_parent jb <> Some current ->
         let expected := MAX_ENTRIES jb msg - j_selected_entries jb in
         preempted current job expected (j_slots_available cb - expected * t_slot_cost tr) st')))).
Proof.
  intros Hwf Hc Hl Ht Hcost. pose proof (wf_wf_core _ Hwf) as Hw. destruct (wf_refs _ Hw _ _ Hc) as [_ [cmsg Hcm]].
  assert (Hstay : wp (mret current) st (fun job st' => kept st st' /\ ((job = current /\ jobs st' = jobs st) \/ False))).
  { apply wp_ret. split; [by split_and!|by left]. }
  unfold qmgr_job_preempt. apply wp_bind, (wp_get_job _ _ cb); [done|].
  apply wp_bind, (wp_get_message _ _ cmsg); [done|]. apply wp_bind, (wp_get_transport _ _ tr); [done|].
  apply wp_if; intros Hguard; [eapply wp_mono; [exact Hstay|naive_solver]|]. clear Hstay.
  apply orb_false_elim in Hguard as [Hav Hmin]. zb.
  apply wp_bind. eapply wp_mono; [apply (candidate_wp_ok current cb tr); [done..|lia]|].
  intros r st1 (Hwf1 & Hup & Hcand & _). destruct (cache_update_kept _ _ _ Hwf1 Hup) as (Hk1 & Ej & Em).
  destruct r as [job|]; [|apply wp_ret; split; [done|by left]].
  destruct (Hcand job eq_refl) as (Hn & Hin & jb & Hj & Hch).
  apply (wf_lists _ Hw _ _ Ht) in Hin as (jb' & Hj' & Et & Hlj). assert (jb' = jb) as -> by congruence.
  destruct (wf_refs _ Hw _ _ Hj) as [_ [msg Hm]].
  apply wp_bind, (wp_get_job _ _ jb); [congruence|].
  apply wp_bind, wp_panic_if; [by apply bool_decide_eq_false|].
  apply wp_bind, wp_panic_if; [by rewrite bool_decide_eq_true_2|].
  apply wp_bind, wp_panic_if; [by apply Z.ltb_ge|].
  apply wp_bind, (wp_get_message _ _ msg); [congruence|]. cbv zeta.
  apply wp_bind, wp_c_div; [lia|]. apply wp_if; intros _; [apply wp_ret; split; [done|by left]|].
  set (expected := MAX_ENTRIES jb msg - j_selected_entries jb).
  (* off its old stack *)
  apply wp_bind. eapply wp_mono; [by apply (leave_stack_wp current cb tr st job jb)|].
  intros ? st2 (Hk2 & (tr2 & Ht2 & Ecost & Hin2) & Em2 & (jb2 & Hj2 & Et2 & Emj & Hp2 & Hch2 & Hl2) & (cb2 & Hc2 & Etc & Eav)).
  assert (Hlc2 : 0 <= j_stack_level cb2).
  { apply (wf_lists _ (wf_wf_core _ (proj1 Hk2)) _ _ Ht2) in Hin2 as (x & Hx & _ & ?).
    by assert (x = cb2) as <- by congruence. }
  rewrite <- Ecost, <- Emj. replace (j_transport cb) with (j_transport jb2) in * by congruence.
  assert (Hm2 : messages st2 !! j_message jb2 = Some msg) by congruence.
  apply (preempt_rest_ok job current jb2 cb2 tr2 msg); [apply Hk2|done|done|done|done|done|congruence|done..|].
  intros st3 Hk3 Hpre. assert (Hk : kept st st3) by (by eapply kept_trans; [|eapply kept_trans]). split; [done|]. right. split; [done|].
  split.
  { destruct Hpre as (x & y & _ & Hx & Hy & _ & Ex & Hp & _). exists x. split; [done|].
    destruct (static_job _ _ _ _ (proj2 (proj2 Hk3)) Hc2) as (y1 & Hy1 & (_ & Ey & _)%jstatic_inv). assert (y1 = y) as -> by congruence.
    destruct (wf_parent _ (wf_wf_core _ (proj1 Hk)) _ _ _ Hx Hp) as (? & _ & _ & Hlx & _). split; [congruence|lia]. }
  exists jb, msg. split_and!; [done|congruence|done| |]; [intros ? [= <-]%(eq_trans (eq_sym Hcm)); by rewrite Ecost|]. intros Hp. rewrite <- (Eav Hp). exact Hpre.
Qed.

(** ** Slot accounting *)

(** qmgr_job_count_slots(), once for each of [n] selected entries. *)
Fixpoint count_slots (n : nat) (job : nat) : M unit :=
  match n with
  | O => mret tt
  | S n => qmgr_job_count_slots job;; count_slots n job
  end.

Lemma count_slots_step job jb tr st :
  wf st -> jobs st !! job = Some jb -> transports st !! j_transport jb = Some tr ->
  wp (qmgr_job_count_slots job) st (fun _ st' => kept st st' /\
    jobs st' = <[job := set_j_slots_used (j_slots_used jb + 1) (set_j_slots_available (j_slots_available jb + 1) jb)]> (jobs st)).
Proof.
  intros Hwf Hj Ht. unfold qmgr_job_count_slots.
  apply wp_bind, (wp_upd_job _ _ _ jb); [done|].
  apply wp_bind. eapply wp_upd_job; [apply lookup_insert_eq|]. rewrite put_put_job.
  set (jb1 := set_j_slots_used _ _). set (st1 := put_job job jb1 st).
  assert (Hk1 : kept st st1) by (by apply (kept_put_job _ _ jb)).
  apply wp_bind, (wp_get_job _ _ jb1); [apply lookup_insert_eq|]. apply wp_bind, (wp_get_transport _ _ tr); [done|].
  apply wp_decide; intros _; [by apply wp_ret|].
  apply (kept_reset_cache _ _ _ tr); [apply Hk1|done|]. intros Hk2. split; [by eapply kept_trans|done].
Qed.

Lemma count_slots_ok n job jb st :
  wf st -> jobs st !! job = Some jb ->
  wp (count_slots n job) st (fun _ st' => kept st st' /\
    (forall i, i <> job -> jobs st' !! i = jobs st !! i) /\
    exists jb', jobs st' !! job = Some jb' /\ j_slots_used jb' = j_slots_used jb + Z.of_nat n /\
      j_slots_available jb' = j_slots_available jb + Z.of_nat n /\
      j_stack_parent jb' = j_stack_parent jb /\ j_stack_level jb' = j_stack_level jb /\ j_transport jb' = j_transport jb).
Proof.
  revert jb st. induction n as [|n IH]; intros jb st Hwf Hj; cbn [count_slots].
  - apply wp_ret. split_and!; [by split_and!|done|]. exists jb. split_and!; [done|lia|lia|done..].
  - destruct (wf_refs _ (wf_wf_core _ Hwf) _ _ Hj) as [[tr Ht] _].
    apply wp_bind. eapply wp_mono; [by apply (count_slots_step job jb tr)|]. intros _ st1 [Hk1 Hj1].
    set (jb1 := set_j_slots_used _ _) in Hj1.
    eapply wp_mono; [apply (IH jb1); [apply Hk1|rewrite Hj1; apply lookup_insert_eq]|].
    intros ? st2 (Hk2 & Ho & jb2 & Hj2 & E1 & E2 & E3). split_and!; [by eapply kept_trans| |].
    + intros i Hi. rewrite Ho, Hj1 by done. by apply lookup_insert_ne.
    + exists jb2. cbn in *. split_and!; [done|lia|lia|apply E3..].
Qed.

(** ** Properties *)

(** qmgr_job_preempt() never panics, whatever candidate is cached or found, and
    keeps the scheduler's structures and the recipient slots. Either the current
    job stays and no job changes, or another job takes its place: it becomes the
    child of the current job one level up, is linked in front of it and made
    current, and the current job is charged, in advance, slot_cost for each entry
    that the other may use. *)
Theorem job_preempt_ok current cb tr st :
  wf st -> jobs st !! current = Some cb -> 0 <= j_stack_level cb -> transports st !! j_transport cb = Some tr ->
  2 <= t_slot_cost tr ->
  wp (qmgr_job_preempt current) st (fun job st' => kept st st' /\
    ((job = current /\ jobs st' = jobs st) \/
     (job <> current /\ exists jb msg, jobs st !! job = Some jb /\ messages st !! j_message jb = Some msg /\
        0 < j_slots_available cb /\
        (forall cmsg, messages st !! j_message cb = Some cmsg -> t_min_slots tr * t_slot_cost tr <= MAX_ENTRIES cb cmsg) /\
        (j_stack_parent jb <> Some current ->
         let expected := MAX_ENTRIES jb msg - j_selected_entries jb in
         preempted current job expected (j_slots_available cb - expected * t_slot_cost tr) st')))).
Proof.
  intros H1 H2 H3 H4 H5. eapply wp_mono; [by apply (job_preempt_wp current cb tr)|].
  intros job st' [Hk [Hsame | (Hn & _ & Hpre)]]; (split; [done|]); [by left|by right].
Qed.

(** C29: The price of a preemption is what the preempting job really used: when a
    current job without children is preempted, [n] entries of the preempting job are
    selected and that job is popped from the stack, the job that was preempted has
    exactly n * slot_cost slots less than before, whatever was charged in advance;
    nothing panics. *)
Theorem preempt_accounting current cb tr n st :
  wf st -> jobs st !! current = Some cb -> 0 <= j_stack_level cb -> transports st !! j_transport cb = Some tr ->
  2 <= t_slot_cost tr -> j_stack_children cb = [] ->
  wp (job ← qmgr_job_preempt current;
      if decide (job = current) then mret None
      else count_slots n job;; qmgr_job_pop job;; mret (Some job)) st
     (fun r st' => kept st st' /\ exists cb', jobs st' !! current = Some cb' /\
        j_slots_available cb' = j_slots_available cb - match r with Some _ => Z.of_nat n * t_slot_cost tr | None => 0 end).
Proof.
  intros Hwf Hc Hl Ht Hcost Hch. apply wp_bind. eapply wp_mono; [by apply (job_preempt_wp current cb tr)|].
  intros job st1 [Hk1 [[-> Hjobs]|(Hn & _ & jb & msg & Hj & Hm & _ & _ & Hpre)]].
  { rewrite decide_True by done. apply wp_ret. split; [done|]. exists cb. rewrite Hjobs. split; [done|lia]. }
  rewrite decide_False by done.
  assert (Hpar : j_stack_parent jb <> Some current).
  { intros Hp. destruct (wf_parent _ (wf_wf_core _ Hwf) _ _ _ Hj Hp) as (pb & Hpb & _ & _ & Hin).
    assert (pb = cb) as -> by congruence. rewrite Hch in Hin. by apply not_elem_of_nil in Hin. }
  destruct (Hpre Hpar) as (jb1 & cb1 & tr1 & Hj1 & Hc1 & Ht1 & Et & Hp1 & Hl1 & Hu1 & Ha1 & _).
  apply wp_bind. eapply wp_mono; [by apply (count_slots_ok n job jb1); [apply Hk1|]|].
  intros ? st2 (Hk2 & Ho & jb2 & Hj2 & Hu2 & _ & Hp2 & Hl2 & Et2).
  assert (Hc2 : jobs st2 !! current = Some cb1) by (rewrite Ho by congruence; done).
  destruct (static_transport _ _ _ _ (proj2 (proj2 Hk2)) Ht1) as (tr2 & Ht2 & (E2 & _)%tstatic_inv).
  destruct (static_transport _ _ _ _ (proj2 (proj2 Hk1)) Ht) as (tr1' & Ht1' & (E1 & _)%tstatic_inv).
  destruct (wf_parent _ (wf_wf_core _ (proj1 Hk1)) _ _ _ Hj1 Hp1) as (pb & Hpb & _ & Hlev & _).
  assert (Ecb : j_transport cb1 = j_transport cb).
  { destruct (static_job _ _ _ _ (proj2 (proj2 Hk1)) Hc) as (x & Hx & (_ & E & _)%jstatic_inv). congruence. }
  apply wp_bind. eapply wp_mono; [apply (pop_wf_ok job jb2 tr2); [apply Hk2|done|by rewrite Et2, Et|lia]|].
  intros ? st3 (Hwf3 & Hcs3 & Hs3 & _ & _ & _ & _ & Hsl). apply wp_ret.
  split; [eapply kept_trans; [exact Hk1|]; eapply kept_trans; [exact Hk2|by split_and!]|].
  destruct (Hsl current cb1 Hc2) as (cb3 & Hc3 & _ & Ea). exists cb3. split; [done|]. rewrite Ea, Ha1.
  unfold pop_slots. rewrite decide_True by (split; congruence). rewrite Ecb in Ht1. replace tr1' with tr1 in E1 by congruence.
  rewrite E2, E1, Hu2, Hu1. lia.
Qed.

(** The first of two jobs has twenty entries in memory, and five slots to spare;
    the second needs four. *)
Definition two_jobs_a : QMGR_JOB := default (new_job 21 1) (jobs two_jobs !! 30%nat).
Definition two_jobs_b : QMGR_JOB := default (new_job 22 1) (jobs two_jobs !! 31%nat).
Definition busy_a : QMGR_JOB := set_j_slots_available 5 (set_j_read_entries 20 two_jobs_a).
Definition busy_jobs : qmgr :=
  put_job 31 (set_j_read_entries 4 two_jobs_b) (put_job 30 busy_a two_jobs).

Lemma busy_jobs_wf : wf busy_jobs.
Proof.
  unfold busy_jobs. apply (wf_put_quiet _ 31 two_jobs_b); [by vm_compute|done|].
  apply (wf_put_quiet _ 30 two_jobs_a); [by vm_compute|done|]. apply two_jobs_wf.
Qed.

Definition busy_transport : QMGR_TRANSPORT := default base_transport (transports busy_jobs !! 1%nat).

Lemma job_preempt_ok_witness :
  match qmgr_job_preempt 30 busy_jobs with Ret (job, _) => job = 31%nat | _ => False end /\
  wp (qmgr_job_preempt 30) busy_jobs (fun job st' => kept busy_jobs st' /\
    ((job = 30%nat /\ jobs st' = jobs busy_jobs) \/
     (job <> 30%nat /\ exists jb msg, jobs busy_jobs !! job = Some jb /\ messages busy_jobs !! j_message jb = Some msg /\
        0 < j_slots_available busy_a /\
        (forall cmsg, messages busy_jobs !! j_message busy_a = Some cmsg ->
           t_min_slots busy_transport * t_slot_cost busy_transport <= MAX_ENTRIES busy_a cmsg) /\
        (j_stack_parent jb <> Some 30%nat ->
         let expected := MAX_ENTRIES jb msg - j_selected_entries jb in
         preempted 30 job expected (j_slots_available busy_a - expected * t_slot_cost busy_transport) st')))).
Proof.
  split; [by vm_compute|].
  apply (job_preempt_ok 30 busy_a busy_transport busy_jobs busy_jobs_wf); by vm_compute.
Defined.

Lemma preempt_accounting_witness :
  wp (job ← qmgr_job_preempt 30;
      if decide (job = 30%nat) then mret None
      else count_slots 3 job;; qmgr_job_pop job;; mret (Some job)) busy_jobs
     (fun r st' => kept busy_jobs st' /\ exists cb', jobs st' !! 30%nat = Some cb' /\
        j_slots_available cb' = j_slots_available busy_a - match r with Some _ => Z.of_nat 3 * t_slot_cost busy_transport | None => 0 end).
Proof. apply (preempt_accounting 30 busy_a busy_transport 3 busy_jobs busy_jobs_wf); by vm_compute. Defined.

(** ** The order of jobs on level zero

    A comment in qmgr_job_link() says that the job list and the time list are the
    same when only jobs on stack level zero are considered.  This execution shows
    that orphaned children can break the order: message J is preempted by C, a job
    for K is linked and preempts C, J is retired, a job for the older message N is
    linked (in front of the orphan C), C is retired, which makes K a second orphan,
    and the job for M, older than N, is linked behind K and so behind N. *)
Definition order_state : qmgr :=
  mk_qmgr {[1%nat := base_transport]} ∅ ∅
    (<[21%nat := base_message (str "J") 10 0]> (<[22%nat := base_message (str "K") 20 0]>
    (<[23%nat := base_message (str "C") 50 0]> (<[24%nat := base_message (str "L") 30 1000]>
    (<[25%nat := base_message (str "N") 25 0]> {[26%nat := base_message (str "M") 22 0]}))))) ∅ ∅
    [1%nat] 40 300 0 0 20000 ∅ ∅ ∅.

(** A job with entries in memory and delivery slots available. *)
Definition obtain_with (message : nat) (entries slots : Z) : M nat :=
  job ← qmgr_job_obtain message 1;
  upd_job job (fun jb => set_j_slots_available slots (set_j_read_entries entries jb));;
  mret job.

Definition order_scenario : M unit :=
  j ← obtain_with 21 100 40;
  obtain_with 24 0 0;;
  c ← obtain_with 23 15 0;
  qmgr_job_preempt j;;
  upd_job c (set_j_slots_available 5);;
  obtain_with 22 3 0;;
  qmgr_job_preempt c;;
  qmgr_job_retire j;;
  obtain_with 25 1 0;;
  qmgr_job_retire c;;
  obtain_with 26 1 0;;
  mret tt.

(** The arrival times of the jobs of a list that are on level zero. *)
Definition level_zero_times (st : qmgr) (l : list nat) : list Z :=
  omap (fun j => jb ← jobs st !! j; if j_stack_level jb =? 0 then Some (qtime st j) else None) l.

Lemma level_zero_order_differs :
  match order_scenario order_state with
  | Ret (_, st) => exists tr, transports st !! 1%nat = Some tr /\
      level_zero_times st (t_job_list tr) = [25; 22; 30] /\
      level_zero_times st (t_job_bytime tr) = [22; 25; 30]
  | _ => False
  end.
Proof. vm_compute. eexists. by split_and!. Qed.
