(* ===== verification/QmgrMessage.v ===== *)
(** The scheduling part of messages: qmgr_message_move_limits() and
    qmgr_message_free() of qmgr_message.c (src/src/qmgr). *)

From S2P Require Export QmgrPreempt.

(** ** Operations *)

(** The loop over the message's job list, from job to next job. *)
Fixpoint move_limits_loop (l : list nat) : M unit :=
  match l with
  | [] => mret tt
  | job :: l => qmgr_job_move_limits job;; move_limits_loop l
  end.
Definition qmgr_message_move_limits (message : nat) : M unit :=
  msg ← get_message message;
  move_limits_loop (m_job_list msg).

(** [while ((job = message->job_list.next) != 0) qmgr_job_free(job);] *)
Fixpoint free_jobs (fuel : nat) (message : nat) : M unit :=
  msg ← get_message message;
  match head (m_job_list msg), fuel with
  | None, _ => mret tt
  | Some job, S fuel => qmgr_job_free job;; free_jobs fuel message
  | Some _, O => deref None
  end.

(** The queue file is closed: the stream is not part of the model. *)
Definition qmgr_message_free (message : nat) : M unit :=
  msg ← get_message message;
  panic_if (negb (m_refcount msg =? 0));;
  free_jobs (length (m_job_list msg)) message;;
  modify (fun st => set_messages (delete message (messages st)) st).

(** ** Freeing a message *)

(** All deliveries of the message are done: no recipient is in memory, and its job
    list has its jobs. *)
Record finished (message : nat) (l : list nat) (st : qmgr) : Prop := {
  fi_wf : wf st;
  fi_message : exists msg, messages st !! message = Some msg /\ m_job_list msg = l /\ m_refcount msg = 0 /\
    m_rcpt_count msg = 0;
  fi_nodup : NoDup l;
  fi_jobs j : j ∈ l <-> exists jb, jobs st !! j = Some jb /\ j_message jb = message;
  fi_counts j jb : jobs st !! j = Some jb -> j_message jb = message -> j_rcpt_count jb = 0 /\ 0 <= j_rcpt_limit jb;
  fi_slots : 0 <= message_slots st message
}.

(** Its jobs' slots are all unused, so that none will leak. *)
Lemma finished_unused message l st job jb msg :
  finished message l st -> jobs st !! job = Some jb -> j_message jb = message -> messages st !! message = Some msg ->
  unused_slots jb msg = j_rcpt_limit jb.
Proof.
  intros Hf Hj Hjm Hm. destruct (fi_message _ _ _ Hf) as (msg' & Hm' & _ & _ & Hc).
  assert (msg' = msg) as -> by congruence. destruct (fi_counts _ _ _ Hf _ _ Hj Hjm) as [Hjc Hlim].
  pose proof (fi_slots _ _ _ Hf) as Hs. unfold message_slots in Hs. rewrite Hm in Hs.
  pose proof (map_sum_ge_in (fun jb => if decide (j_message jb = message) then j_rcpt_limit jb else 0)
    (jobs st) job jb) as Hge. cbn beta in Hge. rewrite decide_True in Hge by done. unfold unused_slots. rewrite Hjc, Hc.
  enough (j_rcpt_limit jb <= map_sum (fun jb => if decide (j_message jb = message) then j_rcpt_limit jb else 0) (jobs st))
    by lia.
  apply Hge; [|done]. intros j y Hy. case_decide; [by eapply fi_counts|lia].
Qed.

Lemma finished_freed message l job jb msg st st' :
  finished message (job :: l) st -> jobs st !! job = Some jb -> j_message jb = message ->
  messages st !! message = Some msg -> freed job jb msg st st' -> finished message l st'.
Proof.
  intros [Hwf Hmsg Hnd Hjobs Hcounts Hslots] Hj Hjm Hm [Fw Fc [Fr _] Fg Fj _ Fm _ _].
  destruct Hmsg as (msg0 & Hm0 & Hl & Href & Hcnt). assert (msg0 = msg) as -> by congruence.
  apply NoDup_cons in Hnd as [Hnotin Hnd].
  assert (Hback : forall i ib', jobs st' !! i = Some ib' -> i <> job /\ exists ib, jobs st !! i = Some ib /\
    jstatic ib' = jstatic ib /\ j_rcpt_limit ib <= j_rcpt_limit ib').
  { intros i ib' Hi. assert (Hn : i <> job) by (intros ->; congruence). split; [done|].
    destruct (Fr _ _ Hi) as (ib & Hib & Hle). exists ib. split_and!; [done| |by apply Hle; congruence].
    specialize (Fj i Hn). rewrite Hi, Hib in Fj. cbn in Fj. congruence. }
  split; [done| |done| | |].
  - destruct Fm as (msg' & Hm' & Hmm). exists msg'. rewrite Hjm in Hm'. split; [done|].
    rewrite Hl in Hmm. unfold list_unlink in Hmm. cbn in Hmm. rewrite !decide_True in Hmm by done.
    destruct msg', msg. unfold mmask in Hmm. cbn in *. injection Hmm. intros. by subst.
  - intros j. split.
    + intros Hjl. assert (Hn : j <> job) by (by intros ->).
      destruct (proj1 (Hjobs j)) as (ib & Hib & Him); [by right|]. specialize (Fj j Hn). rewrite Hib in Fj.
      destruct (view_some jstatic _ _ _ Fj eq_refl) as (ib' & Hi' & Hst). exists ib'. split; [done|].
      apply jstatic_inv in Hst as (-> & _). done.
    + intros (ib' & Hi' & Him). destruct (Hback _ _ Hi') as (Hn & ib & Hib & Hst & _).
      apply jstatic_inv in Hst as (E & _).
      assert (Hin : j ∈ job :: l) by (apply Hjobs; exists ib; by rewrite <- E).
      apply elem_of_cons in Hin as [|]; done.
  - intros j ib' Hi' Him. destruct (Hback _ _ Hi') as (_ & ib & Hib & (E1 & _ & E2 & _)%jstatic_inv & Hle).
    destruct (Hcounts _ _ Hib) as [? ?]; [congruence|]. split; [congruence|lia].
  - destruct Fc as [_ Fc]. by rewrite Fc.
Qed.

(** What goes on around a message that is freed. *)
Definition frees (message : nat) (st st' : qmgr) : Prop :=
  conserved st st' /\ others st' = others st /\
  (forall j jb, jobs st !! j = Some jb -> j_message jb <> message ->
     exists jb', jobs st' !! j = Some jb' /\ jstatic jb' = jstatic jb /\ j_rcpt_limit jb <= j_rcpt_limit jb') /\
  (forall m, m <> message -> mmask <$> messages st' !! m = mmask <$> messages st !! m).

Lemma freed_frees message job jb msg st st' :
  jobs st !! job = Some jb -> j_message jb = message -> freed job jb msg st st' -> frees message st st'.
Proof.
  intros Hj Hm [_ Fc [Fr _] _ Fj _ _ Fms Fo]. split_and!; [done..| |by rewrite <- Hm].
  intros j ib Hi Hn. assert (Hne : j <> job) by (intros ->; congruence). specialize (Fj j Hne).
  rewrite Hi in Fj. destruct (view_some jstatic _ _ _ Fj eq_refl) as (ib' & Hi' & Hst).
  destruct (Fr _ _ Hi') as (ib0 & Hib0 & Hle). assert (ib0 = ib) as -> by congruence.
  exists ib'. split_and!; [done|done|apply Hle; congruence].
Qed.

Lemma frees_trans message s1 s2 s3 : frees message s1 s2 -> frees message s2 s3 -> frees message s1 s3.
Proof.
  intros (A1 & A2 & A3 & A4) (B1 & B2 & B3 & B4). split_and!; [by etrans|congruence| |].
  - intros j jb Hj Hn. destruct (A3 _ _ Hj Hn) as (jb2 & Hj2 & E2 & L2).
    destruct (B3 _ _ Hj2) as (jb3 & Hj3 & E3 & L3); [by apply jstatic_inv in E2 as (-> & _)|].
    exists jb3. split_and!; [done|congruence|lia].
  - intros m Hm. by rewrite B4, A4.
Qed.

Lemma free_jobs_ok message l st :
  finished message l st ->
  wp (free_jobs (length l) message) st (fun _ st' => finished message [] st' /\ frees message st st').
Proof.
  revert st. induction l as [|job l IH]; intros st Hf; destruct (fi_message _ _ _ Hf) as (msg & Hm & Hl & _); cbn [length free_jobs].
  - apply wp_bind, (wp_get_message _ _ msg); [done|]. rewrite Hl. cbn [head]. apply wp_ret. split; [done|].
    split_and!; [done|done| |done]. intros j jb Hj _. exists jb. split_and!; [done|done|lia].
  - apply wp_bind, (wp_get_message _ _ msg); [done|]. rewrite Hl. cbn [head].
    destruct (proj1 (fi_jobs _ _ _ Hf job)) as (jb & Hj & Hjm); [by left|].
    apply wp_bind. eapply wp_mono; [apply (free_ok job jb msg); [apply Hf|done|by rewrite Hjm| |]|].
    + by eapply fi_counts.
    + by eapply finished_unused.
    + intros ? st1 Hfr. cbn beta in Hfr. eapply wp_mono; [apply IH; by eapply finished_freed|].
      intros _ st2 [H1 H2]. split; [done|]. eapply frees_trans; [|done]. by eapply freed_frees.
Qed.

(** ** Dropping the message itself *)

Lemma wf_drop_message message st :
  (forall j jb, jobs st !! j = Some jb -> j_message jb <> message) -> wf st ->
  wf (set_messages (delete message (messages st)) st).
Proof.
  intros Hno [[W1 W2 W3 W4 W5 W6 W7 W8 W9 W10] Hcur Hcache].
  assert (Hq : forall x, is_Some (jobs st !! x) -> qtime (set_messages (delete message (messages st)) st) x = qtime st x).
  { intros x [xb Hx]. unfold qtime. cbn. rewrite Hx, lookup_delete_ne; [done|]. intros E. by apply (Hno x xb). }
  split; [split|exact Hcur|exact Hcache]; cbn; try assumption.
  - intros j jb Hj. rewrite lookup_delete_ne; [by apply (W1 j)|]. intros E. by apply (Hno j jb).
  - intros t tr Ht. eapply sorted_ext_in; [|by apply (W4 t)]. intros a b Ha Hb. unfold by_time.
    destruct (W3 _ _ Ht) as (_ & Hp & Hin). rewrite Hp in Ha, Hb. apply Hin in Ha as (? & ? & _), Hb as (? & ? & _).
    rewrite !Hq; [done|by eexists..].
  - intros t tr name j Ht Hn. destruct (W9 _ _ _ _ Ht Hn) as (jb & msg & Hj & E & Hm & Hid). exists jb, msg.
    rewrite lookup_delete_ne; [done|]. intros E'. by apply (Hno j jb).
  - intros m1 m2 g1 g2 [_ H1]%lookup_delete_Some [_ H2]%lookup_delete_Some. by apply (W10 m1 m2).
Qed.

(** ** Properties *)

(** C30: Freeing a finished message never leaks recipient slots: when no delivery
    is outstanding, qmgr_message_free() completes (none of the panics of
    qmgr_job_free(), qmgr_job_unlink() and qmgr_job_pop() is hit), the message and
    all its jobs are gone, the scheduler's structures are well-formed, and every
    transport has as many slots as before, in its pool or lent to its jobs. *)
Theorem message_free_no_leak message l st :
  finished message l st ->
  wp (qmgr_message_free message) st (fun _ st' =>
    wf st' /\ messages st' !! message = None /\
    (forall j jb, jobs st' !! j = Some jb -> j_message jb <> message) /\
    (forall t, slots st' t = slots st t) /\
    (forall j jb, jobs st !! j = Some jb -> j_message jb <> message ->
       exists jb', jobs st' !! j = Some jb' /\ jstatic jb' = jstatic jb /\ j_rcpt_limit jb <= j_rcpt_limit jb')).
Proof.
  intros Hf. destruct (fi_message _ _ _ Hf) as (msg & Hm & Hl & Href & _). unfold qmgr_message_free.
  apply wp_bind, (wp_get_message _ _ msg); [done|]. apply wp_bind, wp_panic_if; [by rewrite Href|].
  apply wp_bind. rewrite Hl. eapply wp_mono; [by apply free_jobs_ok|].
  intros ? st1 [Hf1 (Hc & _ & Hj & _)]. apply wp_modify.
  assert (Hno : forall j jb, jobs st1 !! j = Some jb -> j_message jb <> message).
  { intros j jb Hjb Hjm. assert (Hin : j ∈ @nil nat) by (apply (fi_jobs _ _ _ Hf1); by exists jb).
    by apply not_elem_of_nil in Hin. }
  split_and!; [apply wf_drop_message; [done|apply Hf1]|apply lookup_delete_eq|done| |done].
  intros t. apply Hc.
Qed.

Lemma two_jobs_finished : finished 21 [30%nat] two_jobs.
Proof.
  assert (Ej : jobs two_jobs = <[30%nat := two_jobs_a]> {[31%nat := two_jobs_b]}) by by vm_compute.
  assert (Hcases : forall j jb, jobs two_jobs !! j = Some jb -> j_message jb = 21%nat -> j = 30%nat /\ jb = two_jobs_a).
  { intros j jb. rewrite Ej. intros [[<- <-]|[_ [<- <-]%lookup_singleton_Some]]%lookup_insert_Some E; [done|].
    by vm_compute in E. }
  split.
  - apply two_jobs_wf.
  - vm_compute. eexists. by split_and!.
  - apply NoDup_singleton.
  - intros j. rewrite list_elem_of_singleton. split.
    + intros ->. exists two_jobs_a. by vm_compute.
    + intros (jb & Hj & Hm). by destruct (Hcases j jb Hj Hm).
  - intros j jb Hj Hm. destruct (Hcases j jb Hj Hm) as [_ ->]. by vm_compute.
  - by vm_compute.
Qed.

Lemma message_free_no_leak_witness :
  wp (qmgr_message_free 21) two_jobs (fun _ st' =>
    wf st' /\ messages st' !! 21%nat = None /\
    (forall j jb, jobs st' !! j = Some jb -> j_message jb <> 21%nat) /\
    (forall t, slots st' t = slots two_jobs t) /\
    (forall j jb, jobs two_jobs !! j = Some jb -> j_message jb <> 21%nat ->
       exists jb', jobs st' !! j = Some jb' /\ jstatic jb' = jstatic jb /\ j_rcpt_limit jb <= j_rcpt_limit jb')).
Proof. apply (message_free_no_leak 21 [30%nat] two_jobs two_jobs_finished). Defined.
