(* ===== verification/QmgrTransport.v ===== *)
(** Message transports: qmgr_transport.c, and what qmgr_deliver.c and qmgr_enable.c
    do to a transport (src/src/qmgr).

    The outcome of a connection request, of a delivery and of the search for a queue
    entry come from outside; the state of a transport's connection requests and
    deliveries is a state machine over the transports of the queue manager. *)

From S2P Require Export QmgrState.

(** ** Operations *)

Definition QMGR_TRANSPORT_STAT_DEAD : Z := Z.shiftl 1 1.
Definition QMGR_TRANSPORT_STAT_RATE_LOCK : Z := Z.shiftl 1 2.
Definition QMGR_TRANSPORT_MAX_PEND : Z := 2.

Definition has_flag (flags bit : Z) : bool := negb (Z.land flags bit =? 0).
Definition QMGR_TRANSPORT_THROTTLED (tr : QMGR_TRANSPORT) : bool := has_flag (t_flags tr) QMGR_TRANSPORT_STAT_DEAD.
Definition rate_locked (tr : QMGR_TRANSPORT) : bool := has_flag (t_flags tr) QMGR_TRANSPORT_STAT_RATE_LOCK.
Definition QMGR_QUEUE_READY (qu : QMGR_QUEUE) : bool := q_window qu >? 0.

Definition qmgr_transport_unthrottle (transport : nat) : M unit :=
  tr ← get_transport transport;
  (if QMGR_TRANSPORT_THROTTLED tr then
     upd_transport transport (set_t_flags (Z.land (t_flags tr) (Z.lnot QMGR_TRANSPORT_STAT_DEAD)));;
     panic_if (bool_decide (t_dsn tr = None));;
     upd_transport transport (set_t_dsn None);;
     modify (fun st => set_transport_timers (transport_timers st ∖ {[transport]}) st)
   else mret tt);;
  tr ← get_transport transport;
  if rate_locked tr then
    upd_transport transport (set_t_flags (Z.land (t_flags tr) (Z.lnot QMGR_TRANSPORT_STAT_RATE_LOCK)))
  else mret tt.

Definition qmgr_transport_throttle (transport : nat) (dsn : bytes) : M unit :=
  tr ← get_transport transport;
  if QMGR_TRANSPORT_THROTTLED tr then mret tt
  else
    upd_transport transport (set_t_flags (Z.lor (t_flags tr) QMGR_TRANSPORT_STAT_DEAD));;
    panic_if (bool_decide (is_Some (t_dsn tr)));;
    upd_transport transport (set_t_dsn (Some dsn));;
    modify (fun st => set_transport_timers (transport_timers st ∪ {[transport]}) st).

(** Completion of a connection request.  The result is the delay after which the
    requestor is to be notified, if it is not notified at once. *)
Definition qmgr_transport_event (transport : nat) : M (option Z) :=
  upd_transport transport (fun tr => set_t_pending (t_pending tr - 1) tr);;
  tr ← get_transport transport;
  if t_xport_rate_delay tr >? 0 then
    panic_if (negb (rate_locked tr));;
    mret (Some (t_xport_rate_delay tr))
  else mret None.

(** The inner loop of qmgr_transport_select(): is there room for [need] more
    deliveries in the queues? *)
Fixpoint queue_scan (need : Z) (l : list nat) : M bool :=
  match l with
  | [] => mret false
  | queue :: l =>
      qu ← get_queue queue;
      if negb (QMGR_QUEUE_READY qu) then queue_scan need l
      else
        let need := need - Z.min (q_window qu - q_busy_refcount qu) (q_todo_refcount qu) in
        if need <=? 0 then mret true else queue_scan need l
  end.

Fixpoint transport_scan (l : list nat) : M (option nat) :=
  match l with
  | [] => mret None
  | xport :: l =>
      tr ← get_transport xport;
      if QMGR_TRANSPORT_THROTTLED tr || rate_locked tr || (t_pending tr >=? QMGR_TRANSPORT_MAX_PEND)
      then transport_scan l
      else
        found ← queue_scan (t_pending tr + 1) (t_queue_list tr);
        if found : bool then
          modify (fun st => set_transport_list (list_rotate xport (transport_list st)) st);;
          mret (Some xport)
        else transport_scan l
  end.

Definition qmgr_transport_select : M (option nat) :=
  l ← gets transport_list;
  transport_scan l.

(** Connecting is left to the environment: the request is outstanding. *)
Definition qmgr_transport_alloc (transport : nat) : M unit :=
  tr ← get_transport transport;
  panic_if (QMGR_TRANSPORT_THROTTLED tr);;
  panic_if (rate_locked tr);;
  panic_if (t_pending tr >=? QMGR_TRANSPORT_MAX_PEND);;
  (if t_xport_rate_delay tr >? 0 then
     upd_transport transport (set_t_flags (Z.lor (t_flags tr) QMGR_TRANSPORT_STAT_RATE_LOCK))
   else mret tt);;
  upd_transport transport (fun tr => set_t_pending (t_pending tr + 1) tr).

(** How a call of qmgr_deliver() can end. *)
Inductive deliver_outcome :=
  | Unavailable      (* no delivery process, or an unhappy one *)
  | NoEntry          (* qmgr_job_entry_select() finds nothing *)
  | RequestFailed    (* qmgr_deliver_send_request() fails *)
  | Started.         (* wait for the delivery status report *)

(** What qmgr_deliver() does to its transport. *)
Definition deliver_transport (transport : nat) (o : deliver_outcome) (dsn : bytes) : M unit :=
  match o with
  | Unavailable => qmgr_transport_throttle transport dsn
  | NoEntry => mret tt
  | RequestFailed => qmgr_transport_throttle transport dsn
  | Started => mret tt
  end.

(** What qmgr_deliver_update() does to its transport. *)
Definition deliver_update_transport (transport : nat) (crash : bool) (dsn : bytes) : M unit :=
  if crash then qmgr_transport_throttle transport dsn else qmgr_transport_unthrottle transport.

(** The transport's part of qmgr_enable_transport(). *)
Definition enable_transport (transport : nat) : M unit :=
  tr ← get_transport transport;
  if QMGR_TRANSPORT_THROTTLED tr then qmgr_transport_unthrottle transport else mret tt.


(** qmgr_active_drain() (qmgr_active.c): the transports for which a delivery process
    was requested, [None] when the fuel runs out. *)
Fixpoint qmgr_active_drain (fuel : nat) : M (option (list nat)) :=
  match fuel with
  | O => mret None
  | S fuel =>
      transport ← qmgr_transport_select;
      match transport with
      | None => mret (Some [])
      | Some transport =>
          qmgr_transport_alloc transport;;
          l ← qmgr_active_drain fuel;
          mret (cons transport <$> l)
      end
  end.

(** ** Selection *)

(** The lists of transports and queues lead to objects. *)
Record lists_ok (st : qmgr) : Prop := mk_lists_ok {
  lo_transports : forall x, x ∈ transport_list st -> is_Some (transports st !! x);
  lo_queues : forall x tr q, transports st !! x = Some tr -> q ∈ t_queue_list tr -> is_Some (queues st !! q);
  lo_nodup : NoDup (transport_list st);
  lo_pending : forall x tr, transports st !! x = Some tr -> 0 <= t_pending tr
}.

(** How many deliveries a queue can start now. *)
Definition room (qu : QMGR_QUEUE) : Z :=
  if QMGR_QUEUE_READY qu then Z.min (q_window qu - q_busy_refcount qu) (q_todo_refcount qu) else 0.
Definition queue_room (st : qmgr) (queue : nat) : Z :=
  match queues st !! queue with Some qu => room qu | None => 0 end.
Fixpoint total_room (st : qmgr) (l : list nat) : Z :=
  match l with [] => 0 | q :: l => queue_room st q + total_room st l end.

(** No queue is over its concurrency window, and counters are counts. *)
Definition no_overcommit (st : qmgr) : Prop := forall q qu, queues st !! q = Some qu -> 0 <= room qu.

Definition available (tr : QMGR_TRANSPORT) : bool :=
  negb (QMGR_TRANSPORT_THROTTLED tr || rate_locked tr || (t_pending tr >=? QMGR_TRANSPORT_MAX_PEND)).

(** A transport that may get one more delivery process, and has work for all of its
    processes that are on the way. *)
Definition wanted (st : qmgr) (x : nat) : bool :=
  match transports st !! x with
  | Some tr => available tr && (t_pending tr <? total_room st (t_queue_list tr))
  | None => false
  end.

Lemma total_room_nonneg st l : no_overcommit st -> 0 <= total_room st l.
Proof.
  intros Hno. induction l as [|q l IH]; cbn; [lia|]. unfold queue_room.
  destruct (queues st !! q) as [qu|] eqn:E; [apply Hno in E|]; lia.
Qed.

Lemma queue_scan_eq st l : no_overcommit st -> (forall q, q ∈ l -> is_Some (queues st !! q)) ->
  forall need, 0 < need -> queue_scan need l st = Ret (need <=? total_room st l, st).
Proof.
  intros Hno. induction l as [|q l IH]; intros Hl need Hneed.
  { cbn. by rewrite (proj2 (Z.leb_gt need 0)). }
  destruct (Hl q) as [qu Hq]; [by left|]. assert (Hl' : forall x, x ∈ l -> is_Some (queues st !! x)) by (intros; apply Hl; by right).
  pose proof (total_room_nonneg st l Hno) as H0. pose proof (Hno q qu Hq) as Hqu.
  cbn. unfold mbind, M_bind, get_queue, queue_room. rewrite Hq. cbn. unfold room in *.
  destruct (QMGR_QUEUE_READY qu) eqn:Hr; cbn; [|by apply IH].
  case_match eqn:E; zb.
  { unfold mret, M_ret. do 2 f_equal. symmetry. apply Z.leb_le. lia. }
  rewrite IH by (done || lia). do 2 f_equal. apply Bool.eq_iff_eq_true. rewrite !Z.leb_le. lia.
Qed.

Lemma transport_scan_eq st l : lists_ok st -> no_overcommit st -> (forall x, x ∈ l -> x ∈ transport_list st) ->
  transport_scan l st
  = Ret match find (wanted st) l with
        | Some x => (Some x, set_transport_list (list_rotate x (transport_list st)) st)
        | None => (None, st)
        end.
Proof.
  intros Hok Hno. induction l as [|x l IH]; intros Hl; [done|].
  destruct (lo_transports _ Hok x) as [tr Hx]; [apply Hl; by left|].
  assert (Hl' : forall y, y ∈ l -> y ∈ transport_list st) by (intros; apply Hl; by right). specialize (IH Hl').
  cbn. unfold wanted at 1, mbind, M_bind, get_transport. rewrite Hx. cbn. unfold available.
  destruct (QMGR_TRANSPORT_THROTTLED tr || rate_locked tr || (t_pending tr >=? QMGR_TRANSPORT_MAX_PEND)); cbn; [exact IH|].
  pose proof (lo_pending _ Hok _ _ Hx). rewrite queue_scan_eq by (eauto using lo_queues || lia).
  replace (t_pending tr + 1 <=? total_room st (t_queue_list tr)) with (t_pending tr <? total_room st (t_queue_list tr)) by lia.
  destruct (t_pending tr <? total_room st (t_queue_list tr)); [done|exact IH].
Qed.

Lemma transport_select_eq st : lists_ok st -> no_overcommit st ->
  qmgr_transport_select st
  = Ret match find (wanted st) (transport_list st) with
        | Some x => (Some x, set_transport_list (list_rotate x (transport_list st)) st)
        | None => (None, st)
        end.
Proof. intros Hok Hno. unfold qmgr_transport_select, mbind, M_bind, gets. by apply transport_scan_eq. Qed.

Lemma find_split {A} (p : A -> bool) l y : find p l = Some y ->
  p y = true /\ exists l1 l2, l = l1 ++ y :: l2 /\ Forall (fun z => p z = false) l1.
Proof.
  induction l as [|z l IH]; cbn; [done|]. destruct (p z) eqn:Hz.
  { intros [= <-]. split; [done|]. by exists [], l. }
  intros H. destruct (IH H) as (Hy & l1 & l2 & -> & H1). split; [done|]. exists (z :: l1), l2. by repeat constructor.
Qed.

Lemma before_app x l1 l2 : x ∉ l1 -> before x (l1 ++ l2) = l1 ++ before x l2.
Proof.
  induction l1 as [|y l1 IH]; [done|]. intros [Hn Hx]%not_elem_of_cons. cbn. rewrite decide_False by congruence.
  by rewrite IH.
Qed.
Lemma after_app x l1 l2 : x ∉ l1 -> after x (l1 ++ l2) = after x l2.
Proof.
  induction l1 as [|y l1 IH]; [done|]. intros [Hn Hx]%not_elem_of_cons. cbn. rewrite decide_False by congruence.
  by apply IH.
Qed.
Lemma before_app_in x l1 l2 : x ∈ l1 -> before x (l1 ++ l2) = before x l1.
Proof.
  induction l1 as [|y l1 IH]; [by intros ?%not_elem_of_nil|]. intros Hx. cbn. case_decide; [done|].
  apply elem_of_cons in Hx as [->|Hx]; [done|]. by rewrite IH.
Qed.

(** The transport that is chosen goes to the end of the list, so that every other
    wanted transport comes one place closer to the front. *)
Lemma rotate_closer p x y l : NoDup l -> x ∈ l -> p x = true -> find p l = Some y -> x <> y ->
  length (before x l) = S (length (before x (list_rotate y l)) + length (before y l)).
Proof.
  intros Hnd Hx Hpx Hf Hne. apply find_split in Hf as (Hy & l1 & l2 & -> & H1).
  rewrite Forall_forall in H1. assert (Hx1 : x ∉ l1) by (intros E; apply H1 in E; congruence).
  assert (Hx2 : x ∈ l2). { apply elem_of_app in Hx as [Hx|Hx]; [done|]. apply elem_of_cons in Hx as [Hx|]; congruence. }
  apply NoDup_app in Hnd as (_ & Hd & _).
  assert (Hy1 : y ∉ l1) by (intros E; apply (Hd _ E); by left).
  unfold list_rotate. rewrite (after_app y), (before_app y), (before_app x) by done. cbn.
  rewrite (decide_False (P := y = x)), !(decide_True (P := y = y)) by congruence.
  rewrite before_app_in, !length_app by done. cbn. lia.
Qed.

(** Rounds of selection during which [x] is wanted: the transports chosen, and the
    number of transports created meanwhile.  Between two rounds anything can happen
    to the transports, but a transport is never destroyed, and a new one goes in
    front (qmgr_transport_create()). *)
Inductive rounds (x : nat) : qmgr -> list nat -> nat -> Prop :=
  | rounds_nil st : rounds x st [] 0
  | rounds_cons st y st1 new st2 ys k :
      lists_ok st -> no_overcommit st -> wanted st x = true ->
      qmgr_transport_select st = Ret (Some y, st1) ->
      transport_list st2 = new ++ transport_list st1 ->
      rounds x st2 ys k -> rounds x st (y :: ys) (length new + k).

Lemma rounds_closer x st ys k : rounds x st ys k -> x ∈ transport_list st -> x ∉ ys ->
  (length ys <= length (before x (transport_list st)) + k)%nat.
Proof.
  induction 1 as [|st y st1 new st2 ys k Hok Hno Hw Hs Hl Hr IH]; intros Hx Hys; [cbn; lia|].
  apply not_elem_of_cons in Hys as [Hne Hys]. rewrite transport_select_eq in Hs by done.
  destruct (find (wanted st) (transport_list st)) as [z|] eqn:E; [|done]. injection Hs as [= -> <-]. cbn in Hl.
  assert (Hx2 : x ∈ transport_list st2).
  { rewrite Hl. apply elem_of_app. right. apply find_split in E as (_ & l1 & l2 & E & _).
    rewrite list_rotate_perm; [done|]. rewrite E. set_solver. }
  pose proof (rotate_closer _ x y _ (lo_nodup _ Hok) Hx Hw E Hne) as Hc. specialize (IH Hx2 Hys). cbn.
  assert ((length (before x (transport_list st2)) <= length new + length (before x (list_rotate y (transport_list st))))%nat).
  { rewrite Hl. destruct (decide (x ∈ new)) as [Hi|Hi]; [|by rewrite before_app, length_app].
    rewrite before_app_in by done. rewrite (before_after x new Hi) at 2. rewrite length_app. lia. }
  lia.
Qed.

(** qmgr_transport_select() picks the first transport in the list that is alive, not
    rate-locked, has at most one connection pending, and whose ready queues together have
    room and work for one more delivery than there are pending; that transport moves to
    the end of the list and nothing else changes.  It returns null only if there is no
    such transport.  (No queue is over its window.) *)
Theorem transport_select_spec (st : qmgr) (Hok : lists_ok st) (Hno : no_overcommit st) :
  match qmgr_transport_select st with
  | Ret (Some x, st') =>
      wanted st x = true
      /\ (exists l1 l2, transport_list st = l1 ++ x :: l2 /\ Forall (fun y => wanted st y = false) l1
            /\ st' = set_transport_list (l2 ++ l1 ++ [x]) st)
  | Ret (None, st') => st' = st /\ Forall (fun y => wanted st y = false) (transport_list st)
  | _ => False
  end.
Proof.
  rewrite transport_select_eq by done. destruct (find (wanted st) (transport_list st)) as [x|] eqn:E.
  - apply find_split in E as (Hx & l1 & l2 & E & H1). split; [done|]. exists l1, l2. split_and!; [done..|].
    assert (x ∉ l1). { rewrite Forall_forall in H1. intros Hi. apply H1 in Hi. congruence. }
    unfold list_rotate. rewrite E, before_app, after_app by done. cbn. by rewrite !decide_True, app_nil_r by done.
  - split; [done|]. apply Forall_forall. intros x Hx. apply list_elem_of_In in Hx. by apply (find_none _ _ E).
Qed.


(** ** Control state

    What decides about the use of a transport, apart from the work that waits for it. *)

Record control := mk_control {
  c_dead : bool;      (* QMGR_TRANSPORT_STAT_DEAD *)
  c_locked : bool;    (* QMGR_TRANSPORT_STAT_RATE_LOCK *)
  c_reason : bool;    (* dsn is set *)
  c_timer : bool;     (* the timer of qmgr_transport_throttle() is set *)
  c_pending : Z;
  c_delay : Z
}.

Definition control_of (st : qmgr) (x : nat) : option control :=
  (fun tr => mk_control (QMGR_TRANSPORT_THROTTLED tr) (rate_locked tr) (bool_decide (is_Some (t_dsn tr)))
     (bool_decide (x ∈ transport_timers st)) (t_pending tr) (t_xport_rate_delay tr)) <$> transports st !! x.

Lemma control_of_inv st x c : control_of st x = Some c -> exists tr, transports st !! x = Some tr
  /\ c = mk_control (QMGR_TRANSPORT_THROTTLED tr) (rate_locked tr) (bool_decide (is_Some (t_dsn tr)))
          (bool_decide (x ∈ transport_timers st)) (t_pending tr) (t_xport_rate_delay tr).
Proof. unfold control_of. destruct (transports st !! x) as [tr|]; [|done]. intros [= <-]. by exists tr. Qed.

(** The operations on a transport leave the lists and the other transports alone. *)
Record only (t : nat) (st st' : qmgr) : Prop := mk_only {
  on_control : forall x, x <> t -> control_of st' x = control_of st x;
  on_list : transport_list st' = transport_list st;
  on_queues : queues st' = queues st;
  on_queue_list : forall x, t_queue_list <$> transports st' !! x = t_queue_list <$> transports st !! x;
  on_timers : forall x, x <> t -> x ∈ transport_timers st' <-> x ∈ transport_timers st
}.

Lemma only_refl t st : only t st st.
Proof. done. Qed.
#[export] Hint Resolve only_refl : postfix.

Lemma only_trans t st1 st2 st3 : only t st1 st2 -> only t st2 st3 -> only t st1 st3.
Proof.
  intros [H1 H2 H3 H4 H5] [K1 K2 K3 K4 K5]. split; [|congruence..|].
  - intros x Hx. by rewrite K1, H1.
  - intros x Hx. by rewrite K5, H5.
Qed.

(** Assigning to a transport, and to its timer. *)
Lemma only_put t tr tr' st : transports st !! t = Some tr -> t_queue_list tr' = t_queue_list tr ->
  only t st (put_transport t tr' st).
Proof.
  intros Ht Hq. split; [|done..| |done].
  - intros x Hx. unfold control_of. cbn. by rewrite lookup_insert_ne.
  - intros x. cbn. rewrite lookup_insert_dec. case_decide; [subst; by rewrite Ht; cbn; f_equal|done].
Qed.

Lemma only_timers t ts st : (forall x, x <> t -> x ∈ ts <-> x ∈ transport_timers st) -> only t st (set_transport_timers ts st).
Proof.
  intros H. split; [|done..|exact H]. intros x Hx. unfold control_of. cbn. destruct (transports st !! x); [|done]. cbn.
  do 2 f_equal. apply bool_decide_ext. by apply H.
Qed.

Lemma control_put t tr st : control_of (put_transport t tr st) t
  = Some (mk_control (QMGR_TRANSPORT_THROTTLED tr) (rate_locked tr) (bool_decide (is_Some (t_dsn tr)))
            (bool_decide (t ∈ transport_timers st)) (t_pending tr) (t_xport_rate_delay tr)).
Proof. unfold control_of. cbn. by rewrite lookup_insert_eq. Qed.

(** A throttled transport has a reason for it and a timer that ends it. *)
Definition coherent (c : control) : Prop := c_reason c = c_dead c /\ c_timer c = c_dead c.

Definition throttled_control (c : control) : control := mk_control true (c_locked c) true true (c_pending c) (c_delay c).
Definition open_control (c : control) : control := mk_control false false false false (c_pending c) (c_delay c).

Lemma dead_bit flags : has_flag flags QMGR_TRANSPORT_STAT_DEAD = Z.testbit flags 1.
Proof. by apply flag_test. Qed.
Lemma lock_bit flags : has_flag flags QMGR_TRANSPORT_STAT_RATE_LOCK = Z.testbit flags 2.
Proof. by apply flag_test. Qed.

Lemma flag_bits flags :
  has_flag (Z.lor flags QMGR_TRANSPORT_STAT_DEAD) QMGR_TRANSPORT_STAT_DEAD = true
  /\ has_flag (Z.lor flags QMGR_TRANSPORT_STAT_DEAD) QMGR_TRANSPORT_STAT_RATE_LOCK = has_flag flags QMGR_TRANSPORT_STAT_RATE_LOCK
  /\ has_flag (Z.lor flags QMGR_TRANSPORT_STAT_RATE_LOCK) QMGR_TRANSPORT_STAT_RATE_LOCK = true
  /\ has_flag (Z.lor flags QMGR_TRANSPORT_STAT_RATE_LOCK) QMGR_TRANSPORT_STAT_DEAD = has_flag flags QMGR_TRANSPORT_STAT_DEAD
  /\ has_flag (Z.land flags (Z.lnot QMGR_TRANSPORT_STAT_DEAD)) QMGR_TRANSPORT_STAT_DEAD = false
  /\ has_flag (Z.land flags (Z.lnot QMGR_TRANSPORT_STAT_DEAD)) QMGR_TRANSPORT_STAT_RATE_LOCK = has_flag flags QMGR_TRANSPORT_STAT_RATE_LOCK
  /\ has_flag (Z.land flags (Z.lnot QMGR_TRANSPORT_STAT_RATE_LOCK)) QMGR_TRANSPORT_STAT_RATE_LOCK = false
  /\ has_flag (Z.land flags (Z.lnot QMGR_TRANSPORT_STAT_RATE_LOCK)) QMGR_TRANSPORT_STAT_DEAD = has_flag flags QMGR_TRANSPORT_STAT_DEAD.
Proof.
  rewrite !dead_bit, !lock_bit. unfold QMGR_TRANSPORT_STAT_DEAD, QMGR_TRANSPORT_STAT_RATE_LOCK.
  by rewrite !flag_set, !flag_clear by lia.
Qed.

(** Compute the control state after assignments to the flags. *)
Ltac control_flags :=
  unfold QMGR_TRANSPORT_THROTTLED, rate_locked in *; cbn [t_flags set_t_flags set_t_dsn set_t_pending] in *;
  repeat match goal with
  | |- context [has_flag (_ (t_flags ?tr) _) _] =>
      destruct (flag_bits (t_flags tr)) as (?F1 & ?F2 & ?F3 & ?F4 & ?F5 & ?F6 & ?F7 & ?F8);
      rewrite ?F1, ?F2, ?F3, ?F4, ?F5, ?F6, ?F7, ?F8
  end.

Section handlers.
Context (t : nat) (st : qmgr) (c : control).
Hypothesis Hc : control_of st t = Some c.

Lemma throttle_wp dsn : coherent c ->
  wp (qmgr_transport_throttle t dsn) st (fun _ st' => only t st st'
    /\ control_of st' t = Some (if c_dead c then c else throttled_control c)).
Proof using Hc.
  intros [Hr Ht]. destruct (control_of_inv _ _ _ Hc) as (tr & E & ->). cbn in Hr, Ht |- *.
  apply wp_bind. eapply wp_get_transport; [exact E|].
  destruct (QMGR_TRANSPORT_THROTTLED tr) eqn:Hd; [by apply wp_ret|].
  apply wp_bind. eapply wp_upd_transport; [exact E|]. apply wp_bind, wp_panic_if; [done|].
  apply wp_bind. eapply wp_upd_transport; [apply lookup_insert_eq|]. apply wp_modify. split.
  - eapply only_trans; [|apply only_timers; cbn; set_solver].
    eapply only_trans; [|eapply only_put; [apply lookup_insert_eq|done]]. by eapply (only_put _ tr).
  - unfold control_of. cbn. rewrite lookup_insert_eq. cbn. unfold throttled_control. cbn. control_flags.
    by rewrite !bool_decide_true by set_solver.
Qed.

Lemma unthrottle_wp : coherent c ->
  wp (qmgr_transport_unthrottle t) st (fun _ st' => only t st st' /\ control_of st' t = Some (open_control c)).
Proof using Hc.
  intros [Hr Ht]. destruct (control_of_inv _ _ _ Hc) as (tr & E & Ec). subst c. cbn in Hr, Ht.
  apply wp_bind. eapply wp_get_transport; [exact E|]. apply wp_bind.
  apply wp_mono with (P := fun _ st1 => only t st st1 /\ exists tr1, transports st1 !! t = Some tr1
    /\ control_of st1 t = Some (mk_control false (rate_locked tr1) false false (t_pending tr) (t_xport_rate_delay tr))).
  - destruct (QMGR_TRANSPORT_THROTTLED tr) eqn:Hd.
    + apply wp_bind. eapply wp_upd_transport; [exact E|]. apply wp_bind, wp_panic_if.
      { apply bool_decide_false. intros E0. rewrite bool_decide_eq_true, E0 in Hr. by destruct Hr. }
      apply wp_bind. eapply wp_upd_transport; [apply lookup_insert_eq|]. apply wp_modify. split.
      * eapply only_trans; [|apply only_timers; cbn; set_solver].
    eapply only_trans; [|eapply only_put; [apply lookup_insert_eq|done]]. by eapply (only_put _ tr).
      * eexists. split; [apply lookup_insert_eq|]. unfold control_of. cbn. rewrite lookup_insert_eq. cbn. control_flags.
        by rewrite !bool_decide_false by set_solver.
    + apply wp_ret. split; [done|]. exists tr. split; [done|]. rewrite Hc. by rewrite Hr, Ht.
  - intros [] st1 (Ho & tr1 & E1 & Hc1). apply wp_bind. eapply wp_get_transport; [exact E1|].
    destruct (rate_locked tr1) eqn:Hl.
    + eapply wp_upd_transport; [exact E1|]. split; [eapply only_trans; [exact Ho|by eapply only_put]|].
      rewrite control_put. destruct (control_of_inv _ _ _ Hc1) as (tr1' & E1' & Hi). rewrite E1 in E1'. injection E1' as <-.
      injection Hi as Hi1 Hi2 Hi3 Hi4 Hi5 Hi6. unfold open_control. cbn. control_flags.
      rewrite <- Hi1, <- Hi3, <- Hi4, Hi5, Hi6. done.
    + apply wp_ret. by rewrite Hc1.
Qed.

Lemma event_wp : (0 < c_delay c -> c_locked c = true) ->
  wp (qmgr_transport_event t) st (fun r st' => only t st st'
    /\ r = (if 0 <? c_delay c then Some (c_delay c) else None)
    /\ control_of st' t = Some (mk_control (c_dead c) (c_locked c) (c_reason c) (c_timer c) (c_pending c - 1) (c_delay c))).
Proof using Hc.
  intros Hl. destruct (control_of_inv _ _ _ Hc) as (tr & E & Ec). subst c. cbn in Hl |- *.
  apply wp_bind. eapply wp_upd_transport; [exact E|]. apply wp_bind. eapply wp_get_transport; [apply lookup_insert_eq|].
  cbn. rewrite Z.gtb_ltb. apply wp_if; intros Hd; zb.
  - apply wp_bind, wp_panic_if; [change (negb (rate_locked tr) = false); by rewrite Hl|].
    apply wp_ret. split_and!; [by eapply only_put|by case_match; [|zb; lia]|by rewrite control_put].
  - apply wp_ret. split_and!; [by eapply only_put|by case_match; [zb; lia|]|by rewrite control_put].
Qed.

Lemma alloc_wp : c_dead c = false -> c_locked c = false -> c_pending c < QMGR_TRANSPORT_MAX_PEND ->
  wp (qmgr_transport_alloc t) st (fun _ st' => only t st st'
    /\ control_of st' t = Some (mk_control false (0 <? c_delay c) (c_reason c) (c_timer c) (c_pending c + 1) (c_delay c))).
Proof using Hc.
  intros Hd Hl Hp. destruct (control_of_inv _ _ _ Hc) as (tr & E & Ec). subst c. cbn in Hd, Hl, Hp |- *.
  apply wp_bind. eapply wp_get_transport; [exact E|].
  apply wp_bind, wp_panic_if; [done|]. apply wp_bind, wp_panic_if; [done|]. apply wp_bind, wp_panic_if; [lia|].
  apply wp_bind. rewrite Z.gtb_ltb. apply wp_if; intros Hdel.
  - eapply wp_upd_transport; [exact E|]. eapply wp_upd_transport; [apply lookup_insert_eq|].
    split.
    { eapply only_trans; [|eapply only_put; [apply lookup_insert_eq|done]]. by eapply (only_put _ tr). }
    rewrite control_put. cbn. rewrite <- Hd. by control_flags; rewrite Hdel.
  - apply wp_ret. eapply wp_upd_transport; [exact E|]. split; [by eapply only_put|].
    rewrite control_put. cbn. by control_flags; rewrite Hd, Hl, Hdel.
Qed.
End handlers.

(** ** Selection in any state *)

Lemma queue_scan_wp st l (Q : bool -> qmgr -> Prop) : (forall q, q ∈ l -> is_Some (queues st !! q)) ->
  (forall b, Q b st) -> forall need, wp (queue_scan need l) st Q.
Proof.
  induction l as [|q l IH]; intros Hl HQ need; [by apply wp_ret|].
  destruct (Hl q) as [qu Hq]; [by left|]. apply wp_bind. eapply wp_get_queue; [exact Hq|].
  assert (Hl' : forall x, x ∈ l -> is_Some (queues st !! x)) by (intros; apply Hl; by right).
  apply wp_if; intros _; [by apply IH|]. apply wp_if; intros _; [by apply wp_ret|by apply IH].
Qed.

Definition selected (st : qmgr) (r : option nat) (st' : qmgr) : Prop :=
  match r with
  | Some x => x ∈ transport_list st /\ (exists tr, transports st !! x = Some tr /\ available tr = true)
              /\ st' = set_transport_list (list_rotate x (transport_list st)) st
  | None => st' = st
  end.

Lemma transport_scan_wp st l : lists_ok st -> (forall x, x ∈ l -> x ∈ transport_list st) ->
  wp (transport_scan l) st (selected st).
Proof.
  intros Hok. induction l as [|x l IH]; intros Hl; [by apply wp_ret|].
  destruct (lo_transports _ Hok x) as [tr Hx]; [apply Hl; by left|].
  assert (Hl' : forall y, y ∈ l -> y ∈ transport_list st) by (intros; apply Hl; by right).
  apply wp_bind. eapply wp_get_transport; [exact Hx|]. apply wp_if; intros Ha; [by apply IH|].
  apply wp_bind, queue_scan_wp; [eauto using lo_queues|]. intros b. apply wp_if; intros _; [|by apply IH].
  apply wp_bind, wp_modify, wp_ret. split_and!; [apply Hl; by left| |done].
  exists tr. split; [done|]. unfold available. by rewrite Ha.
Qed.

Lemma select_wp st : lists_ok st -> wp qmgr_transport_select st (selected st).
Proof. intros Hok. apply wp_bind, wp_gets. by apply transport_scan_wp. Qed.

Lemma lists_ok_rotate st x : lists_ok st -> x ∈ transport_list st ->
  lists_ok (set_transport_list (list_rotate x (transport_list st)) st).
Proof.
  intros [H1 H2 H3 H4] Hx. split; cbn; [|done| |done].
  - intros y. rewrite list_rotate_perm by done. apply H1.
  - by rewrite list_rotate_perm.
Qed.

Lemma only_dom t st st' x : only t st st' -> is_Some (transports st' !! x) <-> is_Some (transports st !! x).
Proof. intros H. pose proof (on_queue_list _ _ _ H x) as E. by destruct (transports st' !! x), (transports st !! x). Qed.

(** The pending count of the transport itself is what may break. *)
Lemma only_lists_ok t st st' c : lists_ok st -> only t st st' -> control_of st' t = Some c -> 0 <= c_pending c -> lists_ok st'.
Proof.
  intros [H1 H2 H3 H4] Ho Hc Hp. split.
  - intros x. rewrite (on_list _ _ _ Ho), only_dom by done. apply H1.
  - intros x tr q Hx Hq. rewrite (on_queues _ _ _ Ho). pose proof (on_queue_list _ _ _ Ho x) as E.
    rewrite Hx in E. destruct (transports st !! x) as [tr0|] eqn:E0; [|done]. injection E as E. rewrite E in Hq. eauto.
  - by rewrite (on_list _ _ _ Ho).
  - intros x tr Hx. destruct (decide (x = t)) as [->|Hn].
    + destruct (control_of_inv _ _ _ Hc) as (tr' & E & ->). rewrite Hx in E. injection E as <-. done.
    + pose proof (on_control _ _ _ Ho x Hn) as E. unfold control_of in E. rewrite Hx in E.
      destruct (transports st !! x) as [tr0|] eqn:E0; [|done]. injection E as _ _ _ _ E _. rewrite E. eauto.
Qed.

(** ** Draining *)

(** How many more connections may be started. *)
Definition slack (st : qmgr) (x : nat) : nat :=
  match transports st !! x with Some tr => Z.to_nat (QMGR_TRANSPORT_MAX_PEND - t_pending tr) | None => O end.
Definition total_slack (st : qmgr) : nat := sum_list_with (slack st) (transport_list st).

Definition pending_of (st : qmgr) (x : nat) : Z :=
  match transports st !! x with Some tr => t_pending tr | None => 0 end.

Definition count (x : nat) (l : list nat) : Z := Z.of_nat (length (filter (fun y => y = x) l)).

Lemma count_nil x : count x [] = 0.
Proof. done. Qed.
Lemma count_cons x y l : count x (y :: l) = (if decide (y = x) then 1 else 0) + count x l.
Proof. unfold count. rewrite filter_cons. case_decide; cbn [length]; lia. Qed.
Lemma count_nonneg x l : 0 <= count x l.
Proof. unfold count. lia. Qed.
Lemma count_perm x l l' : l ≡ₚ l' -> count x l = count x l'.
Proof. intros H. unfold count. by rewrite H. Qed.
Lemma count_unlink x y l : y ∈ l -> count x (list_unlink y l) = count x l - (if decide (y = x) then 1 else 0).
Proof. intros H. rewrite (count_perm x l _ (list_unlink_perm y l H)), count_cons. lia. Qed.
Lemma count_in x l : x ∈ l -> 1 <= count x l.
Proof. intros H. rewrite (count_perm x l _ (list_unlink_perm x l H)), count_cons. pose proof (count_nonneg x (list_unlink x l)). case_decide; [lia|done]. Qed.

Lemma pending_of_control st st' x : control_of st' x = control_of st x -> pending_of st' x = pending_of st x.
Proof.
  unfold control_of, pending_of. destruct (transports st' !! x), (transports st !! x); cbn; intros [=]; congruence.
Qed.

Lemma slack_pending st x : is_Some (transports st !! x) -> slack st x = Z.to_nat (QMGR_TRANSPORT_MAX_PEND - pending_of st x).
Proof. unfold slack, pending_of. intros [tr ->]. done. Qed.

Lemma sum_list_with_lt {A} (f g : A -> nat) t l : t ∈ l -> (f t < g t)%nat -> (forall x, x ∈ l -> (f x <= g x)%nat) ->
  (sum_list_with f l < sum_list_with g l)%nat.
Proof.
  intros Ht Hlt. induction l as [|y l IH]; intros Hle; [by apply not_elem_of_nil in Ht|].
  assert (Hle' : (sum_list_with f l <= sum_list_with g l)%nat).
  { clear - Hle. induction l as [|z l IH]; cbn; [lia|]. pose proof (Hle z ltac:(set_solver)).
    enough (sum_list_with f l <= sum_list_with g l)%nat by lia. apply IH. set_solver. }
  cbn. apply elem_of_cons in Ht as [->|Ht]; [lia|]. pose proof (Hle y ltac:(by left)).
  enough (sum_list_with f l < sum_list_with g l)%nat by lia. apply IH; [done|]. intros. apply Hle. by right.
Qed.

Lemma sum_list_with_perm {A} (f : A -> nat) l l' : l ≡ₚ l' -> sum_list_with f l = sum_list_with f l'.
Proof. induction 1; cbn; lia. Qed.

Lemma drain_wp fuel : forall st, lists_ok st -> (total_slack st < fuel)%nat ->
  wp (qmgr_active_drain fuel) st (fun r st' => exists l, r = Some l /\ lists_ok st'
    /\ qmgr_transport_select st' = Ret (None, st')
    /\ (forall x, pending_of st' x = pending_of st x + count x l /\ (0 < count x l -> pending_of st' x <= QMGR_TRANSPORT_MAX_PEND))
    /\ queues st' = queues st /\ transport_list st' ≡ₚ transport_list st).
Proof.
  induction fuel as [|fuel IH]; intros st Hok Hf; [lia|]. cbn [qmgr_active_drain].
  apply wp_bind. pose proof (select_wp st Hok) as Hs. apply wp_run in Hs as (r & st1 & E & Hs).
  unfold wp at 1. rewrite E. destruct r as [t|]; cbn in Hs.
  2:{ subst st1. apply wp_ret. exists []. split_and!; [done..| |done|done]. intros x. rewrite count_nil. lia. }
  destruct Hs as (Hin & (tr & Htr & Ha) & ->). set (st1 := set_transport_list _ st).
  unfold available in Ha. apply negb_true_iff in Ha. zb.
  assert (Hp : t_pending tr < QMGR_TRANSPORT_MAX_PEND) by lia.
  pose proof (lists_ok_rotate st t Hok Hin : lists_ok st1) as Hok1.
  assert (Hc : exists c, control_of st1 t = Some c /\ c_dead c = false /\ c_locked c = false /\ c_pending c = t_pending tr).
  { eexists. split; [unfold control_of; cbn; by rewrite Htr|]. by cbn. }
  destruct Hc as (c & Hc & Hd & Hl & Hcp). apply wp_bind.
  eapply wp_mono; [apply (alloc_wp t st1 c Hc Hd Hl); lia|]. intros [] st2 (Ho & Hc2). cbn in Hc2.
  pose proof (lo_pending _ Hok _ _ Htr) as Hp0.
  pose proof (only_lists_ok _ _ _ _ Hok1 Ho Hc2 ltac:(cbn; lia)) as Hok2.
  assert (Hlist : transport_list st2 ≡ₚ transport_list st).
  { rewrite (on_list _ _ _ Ho). cbn. by apply list_rotate_perm. }
  assert (Hpt : pending_of st2 t = pending_of st t + 1).
  { unfold pending_of. rewrite Htr. destruct (control_of_inv _ _ _ Hc2) as (tr2 & -> & Ei). injection Ei as _ _ _ _ Ei _. lia. }
  assert (Hpx : forall x, x <> t -> pending_of st2 x = pending_of st x).
  { intros x Hx. by apply pending_of_control, (on_control _ _ _ Ho x Hx). }
  assert (Hpt0 : pending_of st t = t_pending tr) by (unfold pending_of; by rewrite Htr).
  assert (Hslack : (total_slack st2 < total_slack st)%nat).
  { pose proof (lo_transports _ Hok) as Hdom. assert (Hdom2 : forall x, x ∈ transport_list st -> is_Some (transports st2 !! x)).
    { intros x Hx. apply (lo_transports _ Hok2). by rewrite Hlist. }
    unfold total_slack. rewrite (sum_list_with_perm _ _ _ Hlist). apply (sum_list_with_lt _ _ t); [done| |].
    - rewrite !slack_pending by auto. unfold QMGR_TRANSPORT_MAX_PEND in *. lia.
    - intros x Hx. rewrite !slack_pending by auto. destruct (decide (x = t)) as [->|Hne]; [lia|]. by rewrite Hpx. }
  apply wp_bind. eapply wp_mono; [apply IH; [exact Hok2|lia]|].
  intros r st' (l & -> & Hok' & Hs' & Hpl & Hq & Hl'). apply wp_ret. exists (t :: l).
  split_and!; [done|done|done| | |by trans (transport_list st2)].
  - intros x. destruct (Hpl x) as [Hx1 Hx2]. rewrite count_cons. destruct (decide (t = x)) as [<-|Hne].
    + split; [lia|]. intros _. pose proof (count_nonneg t l).
      destruct (decide (count t l = 0)); [lia|]. apply Hx2. lia.
    + rewrite Hpx in Hx1 by congruence. split; [lia|]. intros. apply Hx2. lia.
  - rewrite Hq. apply (on_queues _ _ _ Ho).
Qed.

(** the loop of qmgr_active_drain() terminates: with more fuel than the transports
    can start connections, it ends when qmgr_transport_select() finds nothing.  It does
    not panic, each transport gets one pending connection for each time it was chosen,
    and no transport gets more than QMGR_TRANSPORT_MAX_PEND. *)
Theorem active_drain_terminates (st : qmgr) (fuel : nat) (Hok : lists_ok st) (Hfuel : (total_slack st < fuel)%nat) :
  exists l st', qmgr_active_drain fuel st = Ret (Some l, st')
    /\ qmgr_transport_select st' = Ret (None, st')
    /\ (forall x, pending_of st' x = pending_of st x + count x l)
    /\ (forall x, x ∈ l -> pending_of st' x <= QMGR_TRANSPORT_MAX_PEND)
    /\ transport_list st' ≡ₚ transport_list st.
Proof.
  destruct (proj1 (wp_run _ _ _) (drain_wp fuel st Hok Hfuel)) as (r & st' & E & l & -> & _ & Hs & Hp & _ & Hl).
  exists l, st'. split_and!; [done|done|apply Hp| |done]. intros x Hx. apply Hp. pose proof (count_in x l Hx). lia.
Qed.

(** ** The state machine *)

(** The queue manager with the connections under way (event handler
    qmgr_transport_event()), the delivery processes whose use waits for the rate delay
    (qmgr_transport_rate_event()), and the deliveries in progress
    (qmgr_deliver_update()); each is the list of the transports concerned. *)
Record system := mk_system {
  mgr : qmgr;
  requests : list nat;
  waits : list nat;
  deliveries : list nat
}.

Inductive event :=
  | Allocate                                                   (* an iteration of qmgr_active_drain() *)
  | Connected (t : nat) (o : deliver_outcome) (dsn : bytes)    (* qmgr_transport_event() *)
  | RateExpired (t : nat) (o : deliver_outcome) (dsn : bytes)  (* qmgr_transport_rate_event() *)
  | Finished (t : nat) (crash : bool) (dsn : bytes)            (* qmgr_deliver_update() *)
  | Timer (t : nat)                                            (* qmgr_transport_unthrottle_wrapper() *)
  | Enable (t : nat).                                          (* qmgr_enable_transport() *)

Definition enabled (e : event) (s : system) : Prop :=
  match e with
  | Allocate => True
  | Connected t _ _ => t ∈ requests s
  | RateExpired t _ _ => t ∈ waits s
  | Finished t _ _ => t ∈ deliveries s
  | Timer t => t ∈ transport_timers (mgr s)
  | Enable t => is_Some (transports (mgr s) !! t)
  end.

(** Run an operation of the queue manager. *)
Definition exec {A} (m : M A) (s : system) (k : A -> qmgr -> outcome system) : outcome system :=
  match m (mgr s) with Ret (a, st) => k a st | Panic => Panic | Undef => Undef end.

Definition deliver (t : nat) (o : deliver_outcome) (dsn : bytes) (s : system) : outcome system :=
  exec (deliver_transport t o dsn) s (fun _ st =>
    Ret (mk_system st (requests s) (waits s)
           (match o with Started => t :: deliveries s | _ => deliveries s end))).

Definition handle (e : event) (s : system) : outcome system :=
  match e with
  | Allocate =>
      exec (transport ← qmgr_transport_select;
            match transport with
            | None => mret None
            | Some t => qmgr_transport_alloc t;; mret (Some t)
            end) s (fun r st =>
        Ret (mk_system st (match r with Some t => t :: requests s | None => requests s end)
               (waits s) (deliveries s)))
  | Connected t o dsn =>
      exec (qmgr_transport_event t) s (fun delay st =>
        let s := mk_system st (list_unlink t (requests s)) (waits s) (deliveries s) in
        match delay with
        | Some _ => Ret (mk_system st (requests s) (t :: waits s) (deliveries s))
        | None => deliver t o dsn s
        end)
  | RateExpired t o dsn =>
      deliver t o dsn (mk_system (mgr s) (requests s) (list_unlink t (waits s)) (deliveries s))
  | Finished t crash dsn =>
      exec (deliver_update_transport t crash dsn) s (fun _ st =>
        Ret (mk_system st (requests s) (waits s) (list_unlink t (deliveries s))))
  | Timer t =>
      exec (qmgr_transport_unthrottle t) s (fun _ st => Ret (mk_system st (requests s) (waits s) (deliveries s)))
  | Enable t =>
      exec (enable_transport t) s (fun _ st => Ret (mk_system st (requests s) (waits s) (deliveries s)))
  end.

(** What the rest of the queue manager does: it changes the queues and the work, and
    creates transports (qmgr_transport_create()), but leaves the control state of the
    transports alone. *)
Record elsewhere (st st' : qmgr) : Prop := mk_elsewhere {
  ew_ok : lists_ok st';
  ew_control : forall x c, control_of st x = Some c -> control_of st' x = Some c;
  ew_new : forall x c, control_of st x = None -> control_of st' x = Some c ->
             c_dead c = false /\ c_locked c = false /\ c_reason c = false /\ c_pending c = 0;
  ew_timers : transport_timers st' = transport_timers st
}.

Inductive step : system -> system -> Prop :=
  | step_event e s s' : enabled e s -> handle e s = Ret s' -> step s s'
  | step_elsewhere s st : elsewhere (mgr s) st ->
      step s (mk_system st (requests s) (waits s) (deliveries s)).

(** At the start there are no transports. *)
Definition start (s : system) : Prop :=
  lists_ok (mgr s) /\ transports (mgr s) = ∅ /\ transport_timers (mgr s) = ∅
  /\ requests s = [] /\ waits s = [] /\ deliveries s = [].

Definition reachable (s : system) : Prop := exists s0, start s0 /\ rtc step s0 s.

(** The uses of a transport that are under way: connecting, waiting, delivering. *)
Definition under_way (s : system) (t : nat) : Z := count t (requests s) + count t (waits s) + count t (deliveries s).

(** What holds of each transport. *)
Record control_ok (s : system) (t : nat) (c : control) : Prop := mk_control_ok {
  co_coherent : coherent c;
  co_pending : c_pending c = count t (requests s);
  co_limit : c_pending c <= QMGR_TRANSPORT_MAX_PEND;
  co_rate : if 0 <? c_delay c
            then under_way s t <= 1 /\ (under_way s t = 1 -> c_locked c = true /\ c_dead c = false)
            else count t (waits s) = 0 /\ c_locked c = false
}.

Record system_ok (s : system) : Prop := mk_system_ok {
  so_lists : lists_ok (mgr s);
  so_control : forall t c, control_of (mgr s) t = Some c -> control_ok s t c;
  so_known : forall t, control_of (mgr s) t = None -> under_way s t = 0 /\ t ∉ transport_timers (mgr s)
}.

Lemma known s t : system_ok s -> 0 < under_way s t \/ t ∈ transport_timers (mgr s) ->
  exists c, control_of (mgr s) t = Some c /\ control_ok s t c.
Proof.
  intros Hs Hu. destruct (control_of (mgr s) t) as [c|] eqn:E; [exists c; split; [done|by apply Hs]|].
  destruct (so_known s Hs t E) as [H1 H2]. destruct Hu; [lia|done].
Qed.

Lemma exec_wp {A} (m : M A) s k (P : A -> qmgr -> Prop) (Q : system -> Prop) :
  wp m (mgr s) P -> (forall a st, P a st -> exists s', k a st = Ret s' /\ Q s') ->
  exists s', exec m s k = Ret s' /\ Q s'.
Proof.
  intros Hm Hk. apply wp_run in Hm as (a & st & E & HP). unfold exec. rewrite E. by apply Hk.
Qed.

(** Other transports than [t] keep their control state and their uses. *)
Definition frame (t : nat) (s s' : system) : Prop :=
  forall x, x <> t -> control_of (mgr s') x = control_of (mgr s) x /\ under_way s' x = under_way s x.

Lemma frame_refl t s : frame t s s.
Proof. done. Qed.
Lemma transport_frame_trans t s1 s2 s3 : frame t s1 s2 -> frame t s2 s3 -> frame t s1 s3.
Proof. intros H K x Hx. destruct (H x Hx) as [<- <-]. by apply K. Qed.

Definition safe_move (t : nat) (s s' : system) : Prop := system_ok s' /\ frame t s s'.

Lemma safe_move_trans t s1 s2 s3 : frame t s1 s2 -> safe_move t s2 s3 -> safe_move t s1 s3.
Proof. intros H [K1 K2]. split; [done|by eapply transport_frame_trans]. Qed.

(** One transport changes, others keep their uses. *)
Lemma system_ok_only s s' t c' :
  system_ok s -> only t (mgr s) (mgr s') -> control_of (mgr s') t = Some c' ->
  (forall x, x <> t -> count x (requests s') = count x (requests s) /\ count x (waits s') = count x (waits s)
     /\ count x (deliveries s') = count x (deliveries s)) ->
  control_ok s' t c' -> safe_move t s s'.
Proof.
  intros Hs Ho Hc Hcount Hok.
  assert (Hrest : forall x, x <> t -> under_way s' x = under_way s x).
  { intros x Hx. unfold under_way. destruct (Hcount x Hx) as (-> & -> & ->). done. }
  split; [split|].
  - eapply only_lists_ok; [apply Hs|exact Ho|exact Hc|]. rewrite (co_pending _ _ _ Hok). apply count_nonneg.
  - intros x c Hx. destruct (decide (x = t)) as [->|Hn]; [by simplify_eq|].
    rewrite (on_control _ _ _ Ho x Hn) in Hx. destruct (so_control s Hs x c Hx) as [H1 H2 H3 H4].
    destruct (Hcount x Hn) as (E1 & E2 & E3). split; [done|by rewrite E1|done|]. by rewrite (Hrest x Hn), E2.
  - intros x Hx. destruct (decide (x = t)) as [->|Hn]; [by simplify_eq|].
    rewrite (on_control _ _ _ Ho x Hn) in Hx. rewrite (Hrest x Hn). destruct (so_known s Hs x Hx) as [H1 H2].
    split; [done|]. by rewrite (on_timers _ _ _ Ho x Hn).
  - intros x Hx. split; [by apply (on_control _ _ _ Ho)|by apply Hrest].
Qed.

Lemma deliver_ok t o dsn s c : system_ok s -> control_of (mgr s) t = Some c ->
  (0 < c_delay c -> under_way s t = 0 /\ c_locked c = true /\ c_dead c = false) ->
  exists s', deliver t o dsn s = Ret s' /\ safe_move t s s'.
Proof.
  intros Hs Hc Hd. destruct (so_control s Hs t c Hc) as [H1 H2 H3 H4].
  assert (Hput : forall st c', only t (mgr s) st -> control_of st t = Some c' ->
    (c' = c \/ c' = throttled_control c) -> safe_move t s (mk_system st (requests s) (waits s) (deliveries s))).
  { intros st c' Ho Hc' E. eapply (system_ok_only s); [done|exact Ho|exact Hc'|done|].
    destruct E as [-> | ->]; [by split|]. split; [done|exact H2|exact H3|]. cbn.
    destruct (Z.ltb_spec 0 (c_delay c)) as [Hp|Hp]; [|exact H4]. destruct (Hd Hp) as [E _].
    change (under_way s t <= 1 /\ (under_way s t = 1 -> c_locked c = true /\ true = false)). lia. }
  unfold deliver. destruct o; cbn [deliver_transport].
  1,3: (eapply exec_wp; [by apply (throttle_wp t _ c)|]; intros ? st [Ho Hc']; eexists; split; [done|];
        eapply Hput; [done|exact Hc'|]; destruct (c_dead c); auto).
  - eapply exec_wp; [by apply (wp_ret _ _ (fun _ st => st = mgr s))|]. intros ? st ->. eexists. split; [done|]. split; [by destruct s|done].
  - eapply exec_wp; [by apply (wp_ret _ _ (fun _ st => st = mgr s))|]. intros ? st ->. eexists. split; [done|].
    eapply (system_ok_only s); [done|apply only_refl|exact Hc|..].
    + intros x Hx. cbn. rewrite count_cons, decide_False by congruence. done.
    + split; [done..|]. unfold under_way. cbn. rewrite count_cons, decide_True by done.
      destruct (Z.ltb_spec 0 (c_delay c)) as [Hp|Hp]; [|exact H4]. destruct (Hd Hp) as (E & ? & ?). unfold under_way in E.
      split; [lia|done].
Qed.

Lemma system_ok_rotate s x : system_ok s -> x ∈ transport_list (mgr s) ->
  system_ok (mk_system (set_transport_list (list_rotate x (transport_list (mgr s))) (mgr s))
               (requests s) (waits s) (deliveries s)).
Proof.
  intros Hs Hx. split; [by apply lists_ok_rotate, Hx; apply Hs| |apply Hs].
  intros t c Hc. destruct (so_control s Hs t c Hc). by split.
Qed.

Lemma under_way_nonneg s t : 0 <= under_way s t.
Proof. unfold under_way. pose proof (count_nonneg t (requests s)). pose proof (count_nonneg t (waits s)). pose proof (count_nonneg t (deliveries s)). lia. Qed.

(** A transport that is not locked has no use under way if it has a rate delay. *)
Lemma idle s t c : control_ok s t c -> 0 < c_delay c -> c_locked c = false \/ c_dead c = true -> under_way s t = 0.
Proof.
  intros [_ _ _ H] Hd Hl. rewrite (proj2 (Z.ltb_lt 0 (c_delay c)) Hd) in H. destruct H as [H1 H2].
  pose proof (under_way_nonneg s t). destruct (decide (under_way s t = 1)) as [E|]; [|lia].
  destruct (H2 E) as [E1 E2]. destruct Hl; congruence.
Qed.

(** Counting the uses of one transport after it left a list. *)
Ltac count_uses :=
  unfold under_way in *; cbn [requests waits deliveries mgr] in *;
  rewrite ?count_cons, ?count_unlink by done;
  rewrite ?(decide_True (P := _ = _)) by done; rewrite ?(decide_False (P := _ = _)) by congruence.

(** The transport that an event can change. *)
Definition target (e : event) (s : system) (t : nat) : Prop :=
  match e with
  | Allocate => exists c, control_of (mgr s) t = Some c /\ c_locked c = false
  | Connected t' _ _ | RateExpired t' _ _ | Finished t' _ _ => t = t'
  | Timer t' | Enable t' => t = t' /\ exists c, control_of (mgr s) t = Some c /\ c_dead c = true
  end.

(** An event leaves the system in order, and changes at most one transport. *)
Definition handled (e : event) (s s' : system) : Prop :=
  system_ok s' /\ (s' = s \/ exists t, target e s t /\ frame t s s').

Lemma safe_move_handled e t s s' : target e s t -> safe_move t s s' -> handled e s s'.
Proof. intros Ht [H1 H2]. split; [done|]. right. by exists t. Qed.

Lemma allocate_ok s : system_ok s -> exists s', handle Allocate s = Ret s' /\ handled Allocate s s'.
Proof.
  intros Hs. cbn [handle].
  eapply exec_wp with (P := fun r st => match r with
    | Some t => exists c st1, system_ok (mk_system st1 (requests s) (waits s) (deliveries s))
        /\ (forall x, control_of st1 x = control_of (mgr s) x) /\ control_of st1 t = Some c
        /\ c_dead c = false /\ c_locked c = false /\ c_pending c < QMGR_TRANSPORT_MAX_PEND /\ only t st1 st
        /\ control_of st t = Some (mk_control false (0 <? c_delay c) (c_reason c) (c_timer c) (c_pending c + 1) (c_delay c))
    | None => st = mgr s end).
  - apply wp_bind. eapply wp_mono; [apply select_wp, Hs|]. intros [t|] st1; cbn [selected]; [|intros ->; by apply wp_ret].
    intros (Hin & (tr & Htr & Ha) & ->). pose proof (system_ok_rotate s t Hs Hin) as Hs1. set (st1 := set_transport_list _ _) in *.
    assert (Hc : exists c, control_of st1 t = Some c) by (unfold control_of; cbn; rewrite Htr; eauto). destruct Hc as [c Hc].
    destruct (control_of_inv _ _ _ Hc) as (tr' & E & Ec). cbn in E. rewrite Htr in E. injection E as <-.
    unfold available in Ha. apply negb_true_iff in Ha. zb.
    assert (H123 : c_dead c = false /\ c_locked c = false /\ c_pending c < QMGR_TRANSPORT_MAX_PEND) by (subst c; cbn; split_and!; [done..|lia]).
    destruct H123 as (Ka & Kb & Kc). apply wp_bind. eapply wp_mono; [by apply (alloc_wp t st1 c)|].
    intros ? st [Ho Hc2]. apply wp_ret. exists c, st1. by split_and!.
  - intros [t|] st; [|intros ->; eexists; split; [done|split; [by destruct s|left; by destruct s]]].
    intros (c & st1 & Hs1 & Heq & Hc & H1 & H2 & H3 & Ho & Hc2). eexists. split; [done|].
    apply (safe_move_handled _ t); [exists c; by rewrite <- Heq|].
    apply (safe_move_trans _ _ (mk_system st1 (requests s) (waits s) (deliveries s))); [intros x _; split; [apply Heq|done]|].
    pose proof (so_control _ Hs1 t c Hc) as Hok. pose proof Hok as [Hco Hp Hl Hr].
    apply (system_ok_only _ (mk_system st (t :: requests s) (waits s) (deliveries s)) t _ Hs1 Ho Hc2).
    + intros x Hx. cbn. by rewrite count_cons, decide_False by congruence.
    + destruct Hco as [Hco1 Hco2]. rewrite H1 in Hco1, Hco2. split; cbn in *; [done| | |].
      * rewrite count_cons, decide_True by done. lia.
      * unfold QMGR_TRANSPORT_MAX_PEND in *. lia.
      * destruct (Z.ltb_spec 0 (c_delay c)) as [Hd|Hd].
        -- pose proof (idle _ _ _ Hok Hd ltac:(auto)) as Hu. count_uses. split; [lia|done].
        -- split; [apply Hr|done].
Qed.

Lemma connected_ok s t o dsn : system_ok s -> t ∈ requests s -> exists s', handle (Connected t o dsn) s = Ret s' /\ safe_move t s s'.
Proof.
  intros Hs Hin. pose proof (count_in t _ Hin) as Hcnt. pose proof (count_nonneg t (waits s)). pose proof (count_nonneg t (deliveries s)).
  destruct (known s t Hs) as (c & Hc & Hok); [left; unfold under_way; lia|]. pose proof Hok as [Hco Hp Hl Hr].
  assert (Hlock : 0 < c_delay c -> under_way s t = 1 /\ c_locked c = true /\ c_dead c = false).
  { intros Hd. rewrite (proj2 (Z.ltb_lt _ _) Hd) in Hr. unfold under_way in *. assert (E : count t (requests s) + count t (waits s) + count t (deliveries s) = 1) by lia.
    split; [done|]. by apply Hr. }
  cbn [handle]. eapply exec_wp; [apply (event_wp t _ c Hc); intros; by apply Hlock|].
  intros r st (Ho & -> & Hc'). cbv zeta. destruct (Z.ltb_spec 0 (c_delay c)) as [Hd|Hd].
  - destruct (Hlock Hd) as (Hu & Hlk & Hdd). eexists. split; [done|].
    apply (system_ok_only s (mk_system st (list_unlink t (requests s)) (t :: waits s) (deliveries s)) t _ Hs Ho Hc').
    + intros x Hx. count_uses. lia.
    + split; cbn; [exact Hco| |lia|]; count_uses; [lia|]. rewrite (proj2 (Z.ltb_lt _ _) Hd). split; [lia|done].
  - assert (Hm : safe_move t s (mk_system st (list_unlink t (requests s)) (waits s) (deliveries s))); cycle 1.
    { destruct (deliver_ok t o dsn _ _ (proj1 Hm) Hc') as (s' & E & Hs'); [cbn; lia|].
      exists s'. split; [exact E|]. by eapply safe_move_trans; [apply Hm|]. }
    apply (system_ok_only s (mk_system st (list_unlink t (requests s)) (waits s) (deliveries s)) t _ Hs Ho Hc').
    + intros x Hx. count_uses. lia.
    + split; cbn; [exact Hco| |lia|]; count_uses; [lia|]. by destruct (Z.ltb_spec 0 (c_delay c)); [lia|].
Qed.

Lemma rate_expired_ok s t o dsn : system_ok s -> t ∈ waits s -> exists s', handle (RateExpired t o dsn) s = Ret s' /\ safe_move t s s'.
Proof.
  intros Hs Hin. pose proof (count_in t _ Hin) as Hcnt. pose proof (count_nonneg t (requests s)). pose proof (count_nonneg t (deliveries s)).
  destruct (known s t Hs) as (c & Hc & Hok); [left; unfold under_way; lia|]. pose proof Hok as [Hco Hp Hl Hr].
  destruct (Z.ltb_spec 0 (c_delay c)) as [Hd|Hd]; [|lia]. destruct Hr as [Hr1 Hr2].
  assert (Hu : under_way s t = 1) by (unfold under_way in *; lia). specialize (Hr2 Hu). cbn [handle].
  assert (Hm : safe_move t s (mk_system (mgr s) (requests s) (list_unlink t (waits s)) (deliveries s))); cycle 1.
  { destruct (deliver_ok t o dsn _ c (proj1 Hm) Hc) as (s' & E & Hs'); [intros _; split; [count_uses; lia|done]|].
    exists s'. split; [exact E|]. by eapply safe_move_trans; [apply Hm|]. }
  apply (system_ok_only s (mk_system (mgr s) (requests s) (list_unlink t (waits s)) (deliveries s)) t _ Hs (only_refl _ _) Hc).
  - intros x Hx. count_uses. lia.
  - split; [done..|]. rewrite (proj2 (Z.ltb_lt _ _) Hd). split; [count_uses; lia|]. done.
Qed.

(** Taking a transport out of the deliveries, with its new control state. *)
Lemma finished_ok s t crash dsn : system_ok s -> t ∈ deliveries s -> exists s', handle (Finished t crash dsn) s = Ret s' /\ safe_move t s s'.
Proof.
  intros Hs Hin. pose proof (count_in t _ Hin) as Hcnt. pose proof (count_nonneg t (requests s)). pose proof (count_nonneg t (waits s)).
  destruct (known s t Hs) as (c & Hc & Hok); [left; unfold under_way; lia|]. pose proof Hok as [Hco Hp Hl Hr].
  assert (Hput : forall st c', only t (mgr s) st -> control_of st t = Some c' ->
    c' = c \/ c' = throttled_control c \/ c' = open_control c ->
    safe_move t s (mk_system st (requests s) (waits s) (list_unlink t (deliveries s)))).
  { intros st c' Ho Hc' E. apply (system_ok_only s (mk_system st (requests s) (waits s) (list_unlink t (deliveries s))) t c' Hs Ho Hc'); [intros x Hx; count_uses; lia|].
    assert (Hcc : coherent c' /\ c_pending c' = c_pending c /\ c_delay c' = c_delay c /\ (c_locked c = false -> c_locked c' = false))
      by (destruct E as [-> | [-> | ->]]; done). destruct Hcc as (E1 & E2 & E3 & E4).
    split; [done|by rewrite E2|by rewrite E2|]. rewrite E3. destruct (Z.ltb_spec 0 (c_delay c)) as [Hd|Hd].
    - count_uses. split; [lia|]. intros. lia.
    - split; [apply Hr|apply E4, Hr]. }
  cbn [handle]. unfold deliver_update_transport. destruct crash.
  - eapply exec_wp; [by apply (throttle_wp t _ c)|]. intros ? st [Ho Hc']. eexists. split; [done|].
    eapply Hput; [done|exact Hc'|]. destruct (c_dead c); auto.
  - eapply exec_wp; [by apply (unthrottle_wp t _ c)|]. intros ? st [Ho Hc']. eexists. split; [done|].
    eapply Hput; [done|exact Hc'|]. auto.
Qed.

Lemma unthrottled_ok s t c st : system_ok s -> control_of (mgr s) t = Some c -> c_dead c = true ->
  only t (mgr s) st -> control_of st t = Some (open_control c) -> safe_move t s (mk_system st (requests s) (waits s) (deliveries s)).
Proof.
  intros Hs Hc Hdead Ho Hc'. pose proof (so_control s Hs t c Hc) as Hok. pose proof Hok as [Hco Hp Hl Hr].
  apply (system_ok_only s (mk_system st (requests s) (waits s) (deliveries s)) t _ Hs Ho Hc'); [done|]. split; [done..|]. cbn. destruct (Z.ltb_spec 0 (c_delay c)) as [Hd|Hd]; [|split; [apply Hr|done]].
  pose proof (idle s t c Hok Hd ltac:(auto)) as Hu. unfold under_way in *. cbn. lia.
Qed.

Lemma timer_ok s t : system_ok s -> t ∈ transport_timers (mgr s) -> exists s', handle (Timer t) s = Ret s' /\ handled (Timer t) s s'.
Proof.
  intros Hs Hin. destruct (known s t Hs) as (c & Hc & Hok); [by right|].
  assert (Hdead : c_dead c = true).
  { rewrite <- (proj2 (co_coherent _ _ _ Hok)). destruct (control_of_inv _ _ _ Hc) as (tr & _ & ->). by apply bool_decide_true. }
  cbn [handle]. eapply exec_wp; [apply (unthrottle_wp t _ c Hc), Hok|]. intros ? st [Ho Hc']. eexists. split; [done|].
  apply (safe_move_handled _ t); [split; [done|by exists c]|by eapply unthrottled_ok].
Qed.

Lemma enable_ok s t : system_ok s -> is_Some (transports (mgr s) !! t) -> exists s', handle (Enable t) s = Ret s' /\ handled (Enable t) s s'.
Proof.
  intros Hs [tr Htr]. cbn [handle].
  eapply exec_wp with (P := fun _ st => handled (Enable t) s (mk_system st (requests s) (waits s) (deliveries s))); [|eauto].
  apply wp_bind. eapply wp_get_transport; [exact Htr|]. apply wp_if; intros Hd; [|apply wp_ret; split; [by destruct s|left; by destruct s]].
  assert (Hc : exists c, control_of (mgr s) t = Some c /\ c_dead c = true).
  { unfold control_of. rewrite Htr. eexists. split; [done|]. done. }
  destruct Hc as (c & Hc & Hdead). eapply wp_mono; [apply (unthrottle_wp t _ c Hc), (so_control s Hs t c Hc)|].
  intros ? st [Ho Hc']. apply (safe_move_handled _ t); [split; [done|by exists c]|by eapply unthrottled_ok].
Qed.

Lemma elsewhere_ok s st : system_ok s -> elsewhere (mgr s) st -> system_ok (mk_system st (requests s) (waits s) (deliveries s)).
Proof.
  intros Hs [H1 H2 H3 H4]. split; [done| |].
  - intros t c Hc. cbn in Hc. destruct (control_of (mgr s) t) as [c0|] eqn:E.
    + pose proof (H2 _ _ E) as E'. simplify_eq. destruct (so_control s Hs t c E). by split.
    + destruct (so_known s Hs t E) as [Hu Ht]. destruct (H3 t c E Hc) as (E1 & E2 & E3 & E4).
      assert (Ht' : c_timer c = false).
      { destruct (control_of_inv _ _ _ Hc) as (tr & _ & ->). apply bool_decide_false. by rewrite H4. }
      pose proof (count_nonneg t (requests s)). pose proof (count_nonneg t (waits s)). pose proof (count_nonneg t (deliveries s)).
      unfold under_way in Hu. split; [split; congruence|cbn; lia|rewrite E4; done|].
      destruct (Z.ltb_spec 0 (c_delay c)); unfold under_way; cbn; lia.
  - intros t Hc. cbn in Hc. destruct (control_of (mgr s) t) as [c0|] eqn:E; [by rewrite (H2 _ _ E) in Hc|].
    cbn. rewrite H4. by apply (so_known s Hs).
Qed.

Lemma transport_handle_ok s e : system_ok s -> enabled e s -> exists s', handle e s = Ret s' /\ handled e s s'.
Proof.
  intros Hs He. destruct e; cbn [enabled] in He.
  - by apply allocate_ok.
  - destruct (connected_ok s t o dsn Hs He) as (s' & E & Hm). exists s'. split; [done|]. by eapply safe_move_handled.
  - destruct (rate_expired_ok s t o dsn Hs He) as (s' & E & Hm). exists s'. split; [done|]. by eapply safe_move_handled.
  - destruct (finished_ok s t crash dsn Hs He) as (s' & E & Hm). exists s'. split; [done|]. by eapply safe_move_handled.
  - by apply timer_ok.
  - by apply enable_ok.
Qed.

Lemma step_ok s s' : system_ok s -> step s s' -> system_ok s'.
Proof.
  intros Hs H. destruct H as [e s s2 He Hh|s st Hst]; [|exact (elsewhere_ok s st Hs Hst)].
  destruct (transport_handle_ok s e Hs He) as (s3 & E & H3 & _). rewrite Hh in E. by injection E as ->.
Qed.

Lemma steps_ok s s' : system_ok s -> rtc step s s' -> system_ok s'.
Proof. intros Hs. induction 1 as [|s1 s2 s3 H12 _ IH]; [done|]. by apply IH, (step_ok s1). Qed.

Lemma start_ok s : start s -> system_ok s.
Proof.
  intros (Hok & H1 & H2 & H3 & H4 & H5). split; [done| |].
  - intros t c Hc. unfold control_of in Hc. by rewrite H1, lookup_empty in Hc.
  - intros t _. unfold under_way. rewrite H2, H3, H4, H5. split; [done|set_solver].
Qed.

Lemma reachable_ok s : reachable s -> system_ok s.
Proof. intros (s0 & H0 & H). eapply steps_ok; [by apply start_ok|done]. Qed.

(** ** Properties of the machine *)

(** A transport with a rate delay that is locked, alive, and not in use. *)
Definition stuck (s : system) (t : nat) : Prop :=
  exists c, control_of (mgr s) t = Some c /\ c_locked c = true /\ c_dead c = false /\ under_way s t = 0.

Lemma stuck_target s e t : system_ok s -> enabled e s -> stuck s t -> ~ target e s t.
Proof.
  intros Hs He (c & Hc & Hl & Hd & Hu) Ht.
  unfold under_way in Hu. pose proof (count_nonneg t (requests s)). pose proof (count_nonneg t (waits s)). pose proof (count_nonneg t (deliveries s)).
  destruct e; cbn in He, Ht.
  - destruct Ht as (c' & Hc' & Hl'). congruence.
  - subst. apply count_in in He. lia.
  - subst. apply count_in in He. lia.
  - subst. apply count_in in He. lia.
  - destruct Ht as (<- & c' & Hc' & Hd'). congruence.
  - destruct Ht as (<- & c' & Hc' & Hd'). congruence.
Qed.

Lemma stuck_step s s' t : system_ok s -> step s s' -> stuck s t -> stuck s' t.
Proof.
  intros Hs H. destruct H as [e s s' He Hh|s st Hst]; intros Hst'.
  - destruct (transport_handle_ok s e Hs He) as (s3 & E & _ & Hf). rewrite Hh in E. injection E as <-.
    destruct Hf as [->|(x & Hx & Hf)]; [done|]. destruct (decide (t = x)) as [->|Hn]; [by destruct (stuck_target s e x Hs He Hst')|].
    destruct Hst' as (c & Hc & Hl & Hd & Hu). destruct (Hf t Hn) as [E1 E2]. exists c. by rewrite E1, E2.
  - destruct Hst' as (c & Hc & Hl & Hd & Hu). exists c. split_and!; [by apply (ew_control _ _ Hst)|done..].
Qed.

Lemma stuck_steps s s' t : system_ok s -> rtc step s s' -> stuck s t -> stuck s' t.
Proof.
  intros Hs. induction 1 as [|s1 s2 s3 H12 _ IH]; [done|]. intros H. apply IH; [by eapply step_ok|by eapply stuck_step].
Qed.

(** C31: the connection and delivery events of the queue manager never run into a panic
    or a null pointer: in every reachable state, the handler of every event that can
    occur completes.  (qmgr_transport_alloc() panics on a dead, rate-locked or
    over-committed transport, qmgr_transport_event() on a missing rate lock, throttling
    and unthrottling on a spurious or missing reason.) *)
Theorem transport_machine_safe (s : system) (e : event) (Hs : reachable s) (He : enabled e s) :
  exists s', handle e s = Ret s'.
Proof. destruct (transport_handle_ok s e (reachable_ok s Hs) He) as (s' & E & _). by exists s'. Qed.

(** in every reachable state, the pending count of a transport is the number of its
    connections under way, at most two; a transport is throttled exactly when it has a
    reason for it and a timer that ends it; and a transport with a rate delay is in use
    at most once, and then it is locked and not throttled, while one without a rate
    delay is never locked. *)
Theorem transport_control_invariant (s : system) (t : nat) (tr : QMGR_TRANSPORT)
  (Hs : reachable s) (Ht : transports (mgr s) !! t = Some tr) :
  t_pending tr = count t (requests s) /\ t_pending tr <= QMGR_TRANSPORT_MAX_PEND
  /\ (QMGR_TRANSPORT_THROTTLED tr = true <-> is_Some (t_dsn tr))
  /\ (QMGR_TRANSPORT_THROTTLED tr = true <-> t ∈ transport_timers (mgr s))
  /\ (0 < t_xport_rate_delay tr -> under_way s t <= 1
        /\ (under_way s t = 1 -> rate_locked tr = true /\ QMGR_TRANSPORT_THROTTLED tr = false))
  /\ (t_xport_rate_delay tr <= 0 -> rate_locked tr = false /\ t ∉ waits s).
Proof.
  assert (Hc : exists c, control_of (mgr s) t = Some c) by (unfold control_of; rewrite Ht; eauto). destruct Hc as [c Hc].
  pose proof (so_control s (reachable_ok s Hs) t c Hc) as [[H1 H2] H3 H4 H5].
  destruct (control_of_inv _ _ _ Hc) as (tr' & E & ->). rewrite Ht in E. injection E as <-. cbn in *.
  split_and!; [done|done| | | |].
  - by rewrite <- H1, bool_decide_eq_true.
  - by rewrite <- H2, bool_decide_eq_true.
  - intros Hd. by rewrite (proj2 (Z.ltb_lt _ _) Hd) in H5.
  - intros Hd. rewrite (proj2 (Z.ltb_ge _ _) Hd) in H5. split; [apply H5|]. intros Hi%count_in. lia.
Qed.

(** when the delivery process of a transport with a rate delay becomes available and
    qmgr_job_entry_select() finds nothing to deliver, qmgr_deliver() releases neither
    the lock nor a timer that would: whatever happens afterwards, the transport is never
    selected again. *)
Theorem rate_lock_stuck (s s1 s2 : system) (t : nat) (dsn : bytes) (x : nat) (st : qmgr)
  (Hs : reachable s) (Ht : t ∈ waits s) (Hh : handle (RateExpired t NoEntry dsn) s = Ret s1)
  (Hsteps : rtc step s1 s2) (Hsel : qmgr_transport_select (mgr s2) = Ret (Some x, st)) : x <> t.
Proof.
  pose proof (reachable_ok s Hs) as Hok. pose proof (count_in t _ Ht) as Hcnt.
  pose proof (count_nonneg t (requests s)). pose proof (count_nonneg t (deliveries s)).
  destruct (known s t Hok) as (c & Hc & Hco); [left; unfold under_way; lia|].
  pose proof Hco as [_ _ _ Hr]. destruct (Z.ltb_spec 0 (c_delay c)) as [Hd|Hd]; [|lia]. destruct Hr as [Hr1 Hr2].
  assert (Hu : under_way s t = 1) by (unfold under_way in *; lia). destruct (Hr2 Hu) as [Hl Hdead].
  destruct (transport_handle_ok s (RateExpired t NoEntry dsn) Hok Ht) as (s3 & E & Hok1 & _). rewrite Hh in E. injection E as <-.
  assert (Hstuck : stuck s1 t).
  { cbn in Hh. injection Hh as <-. exists c. split_and!; [done..|]. count_uses. lia. }
  pose proof (stuck_steps s1 s2 t Hok1 Hsteps Hstuck) as (c2 & Hc2 & Hl2 & _).
  pose proof (select_wp (mgr s2) (so_lists _ (steps_ok _ _ Hok1 Hsteps))) as Hw. unfold wp in Hw. rewrite Hsel in Hw.
  destruct Hw as (_ & (tr & Htr & Ha) & _). intros ->. destruct (control_of_inv _ _ _ Hc2) as (tr' & E & ->).
  rewrite Htr in E. injection E as <-. cbn in Hl2. unfold available in Ha. rewrite Hl2, orb_true_r in Ha. done.
Qed.

(** ** A small system *)

Definition demo_feedback : QMGR_FEEDBACK := mk_qmgr_feedback 1 (S754_zero false) 0.
(** A transport with the queues [l] and the rate delay [delay]. *)
Definition demo_transport (l : list nat) (delay : Z) : QMGR_TRANSPORT :=
  mk_qmgr_transport 0 0 20 5 1000 2000 100 5 5 3 50 3 ∅ l ∅ [] [] None None
    None None 0 1 None demo_feedback demo_feedback 1 delay 0.
(** A queue of transport [t] with concurrency window 5, and [busy] and [todo] entries. *)
Definition demo_queue (t : nat) (busy todo : Z) : QMGR_QUEUE :=
  mk_qmgr_queue 0 0 (str "example.com") todo busy 5 (S754_zero false) (S754_zero false) (S754_zero false) t [] [] None 0.
Definition demo_mgr (ts : gmap nat QMGR_TRANSPORT) (qs : gmap nat QMGR_QUEUE) (l : list nat) : qmgr :=
  mk_qmgr ts qs ∅ ∅ ∅ ∅ l 30 300 0 2 20000 ∅ ∅ ∅.

Definition demo_empty : system := mk_system (demo_mgr ∅ ∅ []) [] [] [].
Definition demo_state : qmgr :=
  demo_mgr (<[1%nat := demo_transport [11%nat] 0]> {[2%nat := demo_transport [12%nat] 1]})
    (<[11%nat := demo_queue 1 0 3]> {[12%nat := demo_queue 2 1 3]}) [1%nat; 2%nat].
Definition demo_system : system := mk_system demo_state [] [] [].

Lemma demo_transports x tr : transports demo_state !! x = Some tr ->
  (x = 1%nat /\ tr = demo_transport [11%nat] 0) \/ (x = 2%nat /\ tr = demo_transport [12%nat] 1).
Proof. cbn. intros [[<- <-]|[_ [<- <-]%lookup_singleton_Some]]%lookup_insert_Some; auto. Qed.

Lemma demo_lists_ok : lists_ok demo_state.
Proof.
  split.
  - intros x Hx. cbn in Hx. assert (E : x = 1%nat \/ x = 2%nat) by set_solver. destruct E as [-> | ->]; by eexists.
  - intros x tr q Hx Hq. apply demo_transports in Hx as [[-> ->]|[-> ->]]; cbn in Hq; apply list_elem_of_singleton in Hq as ->; by eexists.
  - by apply (bool_decide_unpack _).
  - intros x tr Hx. apply demo_transports in Hx as [[-> ->]|[-> ->]]; done.
Qed.

Lemma demo_no_overcommit : no_overcommit demo_state.
Proof. intros q qu. cbn. by intros [[<- <-]|[_ [<- <-]%lookup_singleton_Some]]%lookup_insert_Some. Qed.

Lemma demo_reachable : reachable demo_system.
Proof.
  exists demo_empty. split.
  - split_and!; try done. split; cbn; [by intros ? ?%not_elem_of_nil|intros ?????; by simplify_map_eq|constructor|intros ???; by simplify_map_eq].
  - apply rtc_once. apply (step_elsewhere demo_empty demo_state). split; [apply demo_lists_ok|done| |done].
    intros x c _ Hc. apply control_of_inv in Hc as (tr & Htr & ->). apply demo_transports in Htr as [[-> ->]|[-> ->]]; by vm_compute.
Qed.

#[export] Instance enabled_dec e s : Decision (enabled e s).
Proof. destruct e; cbn; apply _. Defined.

Fixpoint run_events (es : list event) (s : system) : outcome system :=
  match es with
  | [] => Ret s
  | e :: es => if decide (enabled e s) then handle e s ≫= run_events es else Undef
  end.

Lemma run_events_steps es : forall s s', run_events es s = Ret s' -> rtc step s s'.
Proof.
  induction es as [|e es IH]; cbn; intros s s' H; [by injection H as ->|].
  destruct (decide (enabled e s)) as [He|]; [|done]. inv_ret. eapply rtc_l; [by eapply step_event|]. by apply IH.
Qed.

(** Both transports get a process; that of the second one waits for the rate delay. *)
Definition demo_waiting : system :=
  match run_events [Allocate; Allocate; Connected 2 Started []] demo_system with Ret s => s | _ => demo_system end.

Lemma demo_waiting_run : run_events [Allocate; Allocate; Connected 2 Started []] demo_system = Ret demo_waiting.
Proof. by vm_compute. Qed.

Lemma demo_waiting_reachable : reachable demo_waiting.
Proof.
  destruct demo_reachable as (s0 & H0 & H). exists s0. split; [done|]. trans demo_system; [exact H|].
  apply (run_events_steps _ _ _ demo_waiting_run).
Qed.

Lemma demo_waiting_waits : 2%nat ∈ waits demo_waiting.
Proof. apply (bool_decide_unpack _). by vm_compute. Qed.

Lemma transport_select_spec_witness :
  match qmgr_transport_select demo_state with
  | Ret (Some x, st') =>
      wanted demo_state x = true
      /\ (exists l1 l2, transport_list demo_state = l1 ++ x :: l2 /\ Forall (fun y => wanted demo_state y = false) l1
            /\ st' = set_transport_list (l2 ++ l1 ++ [x]) demo_state)
  | Ret (None, st') => st' = demo_state /\ Forall (fun y => wanted demo_state y = false) (transport_list demo_state)
  | _ => False
  end.
Proof. apply (transport_select_spec demo_state); [apply demo_lists_ok|apply demo_no_overcommit]. Defined.

Lemma demo_rounds : rounds 2 demo_state [1%nat; 2%nat] 0.
Proof.
  assert (Hok2 : lists_ok (set_transport_list (list_rotate 1 (transport_list demo_state)) demo_state))
    by (apply lists_ok_rotate; [apply demo_lists_ok|by apply (bool_decide_unpack _)]).
  apply (rounds_cons 2 _ _ _ [] _ _ 0 demo_lists_ok demo_no_overcommit eq_refl eq_refl eq_refl).
  eapply (rounds_cons 2 _ _ _ [] _ _ 0 Hok2 demo_no_overcommit eq_refl eq_refl); [reflexivity|]. apply rounds_nil.
Qed.


Lemma active_drain_terminates_witness :
  exists l st', qmgr_active_drain 10 demo_state = Ret (Some l, st')
    /\ qmgr_transport_select st' = Ret (None, st')
    /\ (forall x, pending_of st' x = pending_of demo_state x + count x l)
    /\ (forall x, x ∈ l -> pending_of st' x <= QMGR_TRANSPORT_MAX_PEND)
    /\ transport_list st' ≡ₚ transport_list demo_state.
Proof. apply (active_drain_terminates demo_state 10 demo_lists_ok). vm_compute. lia. Defined.

(** The transport without a rate delay gets two connections, the other one gets one. *)
Example demo_drain : match qmgr_active_drain 10 demo_state with Ret (r, _) => r | _ => None end = Some [1%nat; 2%nat; 1%nat].
Proof. by vm_compute. Qed.

Lemma transport_machine_safe_witness : exists s', handle (RateExpired 2 Started []) demo_waiting = Ret s'.
Proof. apply (transport_machine_safe demo_waiting _ demo_waiting_reachable). exact demo_waiting_waits. Defined.

Lemma transport_control_invariant_witness :
  exists tr, transports (mgr demo_waiting) !! 2%nat = Some tr
  /\ t_pending tr = count 2 (requests demo_waiting) /\ t_pending tr <= QMGR_TRANSPORT_MAX_PEND
  /\ (QMGR_TRANSPORT_THROTTLED tr = true <-> is_Some (t_dsn tr))
  /\ (QMGR_TRANSPORT_THROTTLED tr = true <-> 2%nat ∈ transport_timers (mgr demo_waiting))
  /\ (0 < t_xport_rate_delay tr -> under_way demo_waiting 2 <= 1
        /\ (under_way demo_waiting 2 = 1 -> rate_locked tr = true /\ QMGR_TRANSPORT_THROTTLED tr = false))
  /\ (t_xport_rate_delay tr <= 0 -> rate_locked tr = false /\ 2%nat ∉ waits demo_waiting).
Proof.
  destruct (transports (mgr demo_waiting) !! 2%nat) as [tr|] eqn:E; [|by vm_compute in E].
  exists tr. split; [done|]. apply (transport_control_invariant demo_waiting 2 tr demo_waiting_reachable E).
Defined.

Definition demo_stuck : system :=
  match handle (RateExpired 2 NoEntry []) demo_waiting with Ret s => s | _ => demo_waiting end.

Lemma rate_lock_stuck_witness : (1%nat) <> 2%nat.
Proof.
  refine (rate_lock_stuck demo_waiting demo_stuck demo_stuck 2 [] 1 _ demo_waiting_reachable demo_waiting_waits _ (rtc_refl _ _) _).
  - by vm_compute.
  - by vm_compute.
Defined.

(** A transport that could start a delivery at one destination is not selected when
    another destination is over its (reduced) concurrency window: the room of the latter
    counts as a negative number. *)
Example overcommit_blocks_select :
  let st := demo_mgr {[1%nat := demo_transport [11%nat; 12%nat] 0]}
              (<[11%nat := demo_queue 1 8 9]> {[12%nat := demo_queue 1 0 1]}) [1%nat] in
  queue_room st 12 = 1 /\ match qmgr_transport_select st with Ret (None, _) => True | _ => False end.
Proof. by vm_compute. Qed.
