(* ===== verification/Double.v ===== *)
(** Bounds on double arithmetic.

    The doubles of the queue manager's feedback computations are Stdlib's executable
    binary64 numbers.  A finite double has an integer value, in units of 2^-3000; the
    result of an operation is bounded by every double that bounds the exact result. *)

From S2P Require Export QmgrState.

#[local] Notation fexp := (SpecFloat.fexp 53 1024).

(** ** Values *)

Definition mag (m e : Z) : Z := m * 2 ^ (e + 3000).
Definition unit1 : Z := 2 ^ 3000.
Definition signed (s : bool) (n : Z) : Z := if s then - n else n.

Definition val (x : spec_float) : Z :=
  match x with S754_finite s m e => signed s (mag (Z.pos m) e) | _ => 0 end.
Definition finite (x : spec_float) : Prop :=
  match x with
  | S754_zero _ => True
  | S754_finite _ m e => bounded 53 1024 m e = true
  | _ => False
  end.

Lemma unit1_pos : 0 < unit1.
Proof. unfold unit1. apply Z.pow_pos_nonneg; lia. Qed.

Lemma fexp_eq n : fexp n = Z.max (n - 53) (-1074).
Proof. reflexivity. Qed.

Lemma pow_split a b : 0 <= a -> 0 <= b -> 2 ^ (a + b) = 2 ^ a * 2 ^ b.
Proof. intros. by apply Z.pow_add_r. Qed.

Lemma mag_shift m e k : 0 <= k -> 0 <= e + 3000 -> mag m (e + k) = mag (m * 2 ^ k) e.
Proof. intros. unfold mag. replace (e + k + 3000) with (k + (e + 3000)) by lia. rewrite pow_split by lia. ring. Qed.
Lemma mag_le m n e : 0 <= e + 3000 -> mag m e <= mag n e <-> m <= n.
Proof. intros. unfold mag. assert (0 < 2 ^ (e + 3000)) by (apply Z.pow_pos_nonneg; lia). nia. Qed.
Lemma mag_lt m n e : 0 <= e + 3000 -> mag m e < mag n e <-> m < n.
Proof. intros. unfold mag. assert (0 < 2 ^ (e + 3000)) by (apply Z.pow_pos_nonneg; lia). nia. Qed.

(** ** Digits *)

Lemma digits2_pos_spec p : 2 ^ (Z.pos (digits2_pos p) - 1) <= Z.pos p < 2 ^ Z.pos (digits2_pos p).
Proof.
  induction p as [p IH|p IH|]; cbn [digits2_pos]; [| |done];
    rewrite Pos2Z.inj_succ; replace (Z.succ (Z.pos (digits2_pos p)) - 1) with (1 + (Z.pos (digits2_pos p) - 1)) by lia;
    rewrite pow_split, Z.pow_succ_r by lia; lia.
Qed.

Lemma Zdigits2_spec m : 0 <= m -> 0 <= Zdigits2 m /\ m < 2 ^ Zdigits2 m /\ (0 < m -> 0 < Zdigits2 m /\ 2 ^ (Zdigits2 m - 1) <= m).
Proof.
  intros Hm. destruct m as [|p|p]; [done| |lia]. cbn [Zdigits2]. pose proof (digits2_pos_spec p). lia.
Qed.

Lemma digits_of m d : 0 < d -> 2 ^ (d - 1) <= m < 2 ^ d -> Zdigits2 m = d.
Proof.
  intros Hd [H1 H2]. assert (0 < 2 ^ (d - 1)) by (apply Z.pow_pos_nonneg; lia).
  destruct (Zdigits2_spec m) as (H3 & H4 & [H5 H6]); [lia|lia|].
  assert (d - 1 < Zdigits2 m) by (apply (Z.pow_lt_mono_r_iff 2); lia).
  assert (Zdigits2 m - 1 < d) by (apply (Z.pow_lt_mono_r_iff 2); lia). lia.
Qed.

Lemma digits_le m d : 0 <= d -> 0 <= m < 2 ^ d -> Zdigits2 m <= d.
Proof.
  intros Hd Hm. destruct (decide (m = 0)) as [->|Hn]; [done|]. destruct (Zdigits2_spec m) as (H3 & H4 & [H5 H6]); [lia|lia|].
  assert (Zdigits2 m - 1 < d) by (apply (Z.pow_lt_mono_r_iff 2); lia). lia.
Qed.

(** A bound on the value bounds the exponent. *)
Lemma digits_bound m e b : 0 < m -> 0 <= e + 3000 -> mag m e < 2 ^ (b + 3000) -> 0 <= b -> Zdigits2 m + e <= b.
Proof.
  intros Hm He Hv Hb. destruct (Zdigits2_spec m) as (H3 & H4 & [H5 H6]); [lia|lia|]. unfold mag in Hv.
  assert (2 ^ (Zdigits2 m - 1 + (e + 3000)) < 2 ^ (b + 3000)).
  { rewrite pow_split by lia. assert (0 < 2 ^ (e + 3000)) by (apply Z.pow_pos_nonneg; lia). nia. }
  assert (Zdigits2 m - 1 + (e + 3000) < b + 3000) by (apply (Z.pow_lt_mono_r_iff 2); lia). lia.
Qed.

(** ** Shifting *)

Section shifting.
Context (m : Z) (exact : bool) (Hm : 0 <= m).

(** A record that was shifted [n] times. *)
Definition shifted (n : Z) (r : shr_record) : Prop :=
  0 <= n /\ shr_m r = m / 2 ^ n /\ (exact = true -> m mod 2 ^ n = 0 -> shr_r r = false /\ shr_s r = false).

Lemma shr_1_half r : 0 <= shr_m r -> shr_m (shr_1 r) = shr_m r / 2 /\ shr_r (shr_1 r) = Z.odd (shr_m r)
  /\ shr_s (shr_1 r) = shr_r r || shr_s r.
Proof using Type.
  destruct r as [k r s]. cbn [shr_m]. intros Hk. destruct k as [|[p|p|]|p]; [done| | |done|lia]; cbn -[Z.div]; (split; [|done]).
  - rewrite (Pos2Z.inj_xI p). Z.div_mod_to_equations. lia.
  - rewrite (Pos2Z.inj_xO p). Z.div_mod_to_equations. lia.
Qed.

Lemma shifted_step n r : shifted n r -> shifted (n + 1) (shr_1 r).
Proof using Hm.
  intros (Hn & Em & He). assert (H2 : 0 < 2 ^ n) by (apply Z.pow_pos_nonneg; lia).
  destruct (shr_1_half r) as (E1 & E2 & E3); [rewrite Em; by apply Z.div_pos|].
  split; [lia|]. rewrite E1, E2, E3, Em, pow_split by lia. change (2 ^ 1) with 2. split; [by rewrite Z.div_div by lia|].
  intros Hx H0. rewrite Z.rem_mul_r in H0 by lia.
  pose proof (Z.mod_pos_bound m (2 ^ n) H2). pose proof (Z.mod_pos_bound (m / 2 ^ n) 2).
  destruct (He Hx) as [-> ->]; [nia|]. split; [|done]. rewrite Zodd_mod.
  apply Z.eqb_neq. nia.
Qed.

Lemma shifted_iter p n r : shifted n r -> shifted (n + Z.pos p) (SpecFloat.iter_pos shr_1 p r).
Proof using Hm.
  revert n r. induction p as [p IH|p IH|]; intros n r Hr; cbn [SpecFloat.iter_pos].
  - replace (n + Z.pos p~1) with (n + 1 + Z.pos p + Z.pos p) by lia. by apply IH, IH, shifted_step.
  - replace (n + Z.pos p~0) with (n + Z.pos p + Z.pos p) by lia. by apply IH, IH.
  - by apply shifted_step.
Qed.
End shifting.

Lemma shr_fexp_spec m e l : 0 <= m -> e <= fexp (Zdigits2 m + e) ->
  exists r, shr_fexp 53 1024 m e l = (r, fexp (Zdigits2 m + e))
    /\ shr_m r = m / 2 ^ (fexp (Zdigits2 m + e) - e)
    /\ (l = loc_Exact -> m mod 2 ^ (fexp (Zdigits2 m + e) - e) = 0 -> loc_of_shr_record r = loc_Exact).
Proof.
  intros Hm He. unfold shr_fexp. set (k := fexp (Zdigits2 m + e) - e).
  assert (Hs : shifted m (match l with loc_Exact => true | _ => false end) 0 (shr_record_of_loc m l)).
  { split; [done|]. change (2 ^ 0) with 1. rewrite Z.div_1_r. by destruct l as [|[]]. }
  assert (Hend : forall r, shifted m (match l with loc_Exact => true | _ => false end) k r ->
     shr_m r = m / 2 ^ k /\ (l = loc_Exact -> m mod 2 ^ k = 0 -> loc_of_shr_record r = loc_Exact)).
  { intros r (_ & E & H). split; [done|]. intros -> H0. destruct (H eq_refl H0) as [E1 E2]. destruct r. cbn in *. by subst. }
  unfold shr. destruct k as [|p|p] eqn:Ek; [| |unfold k in Ek; lia].
  - exists (shr_record_of_loc m l). split; [f_equal; unfold k in Ek; lia|]. by apply Hend.
  - eexists. split; [f_equal; unfold k in Ek; lia|]. apply Hend. exact (shifted_iter m _ Hm p 0 _ Hs).
Qed.

(** [n], of exponent [fexp], is the lower or upper neighbour of [m] and what [l] says is
    left of it. *)
Definition neighbour (m e : Z) (l : location) (n : Z) : Prop :=
  let k := fexp (Zdigits2 m + e) - e in
  n = m / 2 ^ k \/ (n = m / 2 ^ k + 1 /\ ~ (l = loc_Exact /\ m mod 2 ^ k = 0)).

Lemma round_neighbour m e l r : 
  shr_m r = m / 2 ^ (fexp (Zdigits2 m + e) - e) ->
  (l = loc_Exact -> m mod 2 ^ (fexp (Zdigits2 m + e) - e) = 0 -> loc_of_shr_record r = loc_Exact) ->
  neighbour m e l (round_nearest_even (shr_m r) (loc_of_shr_record r)).
Proof.
  intros Em Hx. unfold neighbour. rewrite Em. set (q := m / _) in *.
  destruct (loc_of_shr_record r) as [|[]] eqn:El; cbn [round_nearest_even]; [by left| |by left|].
  - destruct (Z.even q); [by left|]. right. split; [done|]. intros [H1 H2]. by specialize (Hx H1 H2).
  - right. split; [done|]. intros [H1 H2]. by specialize (Hx H1 H2).
Qed.

(** The bits of the quotient: at most 53, and exactly 53 unless the exponent is the
    smallest one. *)
Lemma quotient_bits m e : 0 <= m -> e <= fexp (Zdigits2 m + e) ->
  let ef := fexp (Zdigits2 m + e) in
  0 <= m / 2 ^ (ef - e) < 2 ^ 53 /\ (-1074 < ef -> 2 ^ 52 <= m / 2 ^ (ef - e)).
Proof.
  intros Hm He ef. pose proof (fexp_eq (Zdigits2 m + e)) as Ef. fold ef in Ef, He.
  destruct (Zdigits2_spec m Hm) as (Hd & Hlt & Hge). assert (Hp : 0 < 2 ^ (ef - e)) by (apply Z.pow_pos_nonneg; lia). split.
  - split; [by apply Z.div_pos|]. apply Z.div_lt_upper_bound; [done|]. rewrite <- pow_split by lia.
    eapply Z.lt_le_trans; [exact Hlt|]. apply Z.pow_le_mono_r; lia.
  - intros Hef. assert (Hm0 : 0 < m) by (destruct (decide (m = 0)) as [->|]; [cbn in *; lia|lia]).
    destruct (Hge Hm0) as [_ H2]. apply Z.div_le_lower_bound; [done|]. rewrite <- pow_split by lia.
    etrans; [|exact H2]. apply Z.pow_le_mono_r; lia.
Qed.

Lemma canonical m e : 0 < Z.pos m < 2 ^ 53 -> -1074 <= e -> (-1074 < e -> 2 ^ 52 <= Z.pos m) -> e <= 971 ->
  bounded 53 1024 m e = true.
Proof.
  intros Hm He Hbig Hmax. unfold bounded, canonical_mantissa. change (Z.pos (digits2_pos m)) with (Zdigits2 (Z.pos m)).
  rewrite fexp_eq. apply andb_true_intro. split; [|by apply Z.leb_le]. apply Z.eqb_eq.
  destruct (decide (e = -1074)) as [->|Hn].
  - pose proof (digits_le (Z.pos m) 53). lia.
  - rewrite (digits_of (Z.pos m) 53); [lia|lia|]. change (53 - 1) with 52. lia.
Qed.

(** Rounding gives a neighbour. *)
Lemma round_aux_spec s m e l : 0 <= m -> e <= fexp (Zdigits2 m + e) -> Zdigits2 m + e <= 1000 ->
  let r := binary_round_aux 53 1024 s m e l in
  exists n, neighbour m e l n /\ finite r /\ val r = signed s (mag n (fexp (Zdigits2 m + e))).
Proof.
  intros Hm He Hd. cbn zeta. set (ef := fexp (Zdigits2 m + e)) in *.
  assert (Hef : -1074 <= ef <= 947) by (unfold ef; rewrite fexp_eq; lia).
  destruct (shr_fexp_spec m e l Hm He) as (r1 & E1 & Em1 & Hx1). fold ef in E1, Em1, Hx1.
  pose proof (round_neighbour m e l r1 Em1 Hx1) as Hn. set (n := round_nearest_even _ _) in Hn. exists n. split; [done|].
  destruct (quotient_bits m e Hm He) as [Hq Hq2]. fold ef in Hq, Hq2.
  assert (Hnr : 0 <= n <= 2 ^ 53 /\ (-1074 < ef -> 2 ^ 52 <= n)) by (unfold neighbour in Hn; fold ef in Hn; cbn zeta in Hn; lia).
  clear Hn. unfold binary_round_aux. rewrite E1. fold n. clearbody n. destruct Hnr as [Hn1 Hn2].
  destruct (decide (n = 2 ^ 53)) as [->|Hne].
  - change (shr_fexp 53 1024 (2 ^ 53) ef loc_Exact) with (shr (shr_record_of_loc (2 ^ 53) loc_Exact) ef (fexp (54 + ef) - ef)).
    replace (fexp (54 + ef) - ef) with 1 by (rewrite fexp_eq; lia). change (2 ^ 53) with 9007199254740992. cbn -[Z.add mag Z.sub Z.leb].
    destruct (Z.leb_spec (ef + 1) (1024 - 53)); [|lia]. split; [apply canonical; lia|].
    cbn [val]. by rewrite (mag_shift 4503599627370496 ef 1) by lia.
  - assert (Hns : fexp (Zdigits2 n + ef) - ef <= 0).
    { rewrite fexp_eq. pose proof (digits_le n 53). lia. }
    assert (E2 : shr_fexp 53 1024 n ef loc_Exact = (Build_shr_record n false false, ef)).
    { unfold shr_fexp, shr. cbn [shr_record_of_loc]. destruct (fexp (Zdigits2 n + ef) - ef); [done|lia|done]. }
    rewrite E2. cbn [shr_m]. destruct n as [|p|p]; [| |lia]; [cbn; split; [done|by destruct s]|].
    destruct (Z.leb_spec ef (1024 - 53)); [|lia]. split; [apply canonical; lia|done].
Qed.

(** ** Rounding is faithful *)

Lemma fin_bounds s m e : finite (S754_finite s m e) -> Z.pos m < 2 ^ 53 /\ -1074 <= e <= 971 /\ (-1074 < e -> 2 ^ 52 <= Z.pos m).
Proof.
  cbn. unfold bounded, canonical_mantissa. change (Z.pos (digits2_pos m)) with (Zdigits2 (Z.pos m)). rewrite fexp_eq.
  intros [H1 H2]%andb_prop. apply Z.eqb_eq in H1. apply Z.leb_le in H2.
  destruct (Zdigits2_spec (Z.pos m)) as (Hd & Hlt & Hge); [lia|]. destruct (Hge ltac:(lia)) as [Hd0 Hge']. split_and!; [|lia|lia|].
  - eapply Z.lt_le_trans; [exact Hlt|]. apply Z.pow_le_mono_r; lia.
  - intros. etrans; [|exact Hge']. apply Z.pow_le_mono_r; lia.
Qed.

(** A non-negative double above or below a number is above or below its neighbours. *)
Lemma neighbour_faithful m e l n z : 0 <= m -> -3000 <= e -> e <= fexp (Zdigits2 m + e) -> neighbour m e l n -> finite z ->
  (mag m e <= val z -> (l <> loc_Exact -> mag m e < val z) -> mag n (fexp (Zdigits2 m + e)) <= val z) /\
  (val z <= mag m e -> val z <= mag n (fexp (Zdigits2 m + e))).
Proof.
  intros Hm He3 He Hn Hz. destruct (quotient_bits m e Hm He) as [Hq Hq2]. unfold neighbour in Hn.
  set (ef := fexp (Zdigits2 m + e)) in *. cbn zeta in *. set (k := ef - e) in *.
  assert (Hef : -1074 <= ef) by (unfold ef; rewrite fexp_eq; lia). assert (Hk : 0 <= k) by (unfold k; lia).
  assert (Hk2 : 0 < 2 ^ k) by (apply Z.pow_pos_nonneg; lia).
  assert (Emag : forall x, mag x ef = mag (x * 2 ^ k) e).
  { intros x. replace ef with (e + k) by (unfold k; lia). by rewrite mag_shift by lia. }
  pose proof (Z.div_mod m (2 ^ k) ltac:(lia)) as Edm. pose proof (Z.mod_pos_bound m (2 ^ k) Hk2) as Hmod. set (q := m / 2 ^ k) in *.
  assert (Hmagpos : 0 <= mag m e) by (unfold mag; apply Z.mul_nonneg_nonneg; [done|apply Z.pow_nonneg; lia]).
  assert (Hmagn : 0 <= mag n ef) by (unfold mag; apply Z.mul_nonneg_nonneg; [lia|apply Z.pow_nonneg; lia]).
  (* a multiple of 2^ef *)
  assert (Hgrid : forall x, 0 <= x ->
     (mag m e <= mag x ef -> (l <> loc_Exact -> mag m e < mag x ef) -> mag n ef <= mag x ef) /\ (mag x ef <= mag m e -> mag x ef <= mag n ef)).
  { intros x Hx. rewrite !Emag, !mag_le, !mag_lt by lia. split.
    - intros H1 H2. destruct Hn as [->|[-> Hne]]; [nia|]. assert (q < x \/ x = q) as [?| ->] by nia; [nia|].
      exfalso. assert (Hmk : m = q * 2 ^ k) by nia. destruct l as [|c]; [apply Hne; split; [done|lia]|]. specialize (H2 ltac:(done)). lia.
    - intros H1. assert (x < q + 1) by (apply (Z.mul_lt_mono_pos_r (2 ^ k)); lia). destruct Hn as [->|[-> _]]; nia. }
  destruct z as [sz|sz| |sz mz ez]; try done.
  - exact (Hgrid 0 ltac:(lia)).
  - destruct sz; cbn [val signed].
    { assert (0 < mag (Z.pos mz) ez) by (unfold mag; apply Z.mul_pos_pos; [lia|apply Z.pow_pos_nonneg; apply fin_bounds in Hz; lia]). lia. }
    destruct (fin_bounds _ _ _ Hz) as (Hz1 & Hz2 & _). destruct (Z.le_gt_cases ef ez) as [Hle|Hgt].
    + replace (mag (Z.pos mz) ez) with (mag (Z.pos mz * 2 ^ (ez - ef)) ef); [apply Hgrid; lia|].
      rewrite <- mag_shift by lia. f_equal. lia.
    + assert (Hbelow : mag (Z.pos mz) ez < mag q ef).
      { assert (mag (Z.pos mz) ez < mag (2 ^ 53) ez) by (apply mag_lt; lia).
        assert (mag (2 ^ 53) ez = mag (2 ^ 52) (ez + 1)) as E by (rewrite mag_shift by lia; done).
        assert (mag (2 ^ 52) (ez + 1) <= mag (2 ^ 52) ef).
        { replace ef with (ez + 1 + (ef - ez - 1)) by lia. rewrite (mag_shift _ (ez + 1)) by lia. apply mag_le; [lia|].
          assert (0 < 2 ^ (ef - ez - 1)) by (apply Z.pow_pos_nonneg; lia). lia. }
        assert (mag (2 ^ 52) ef <= mag q ef) by (apply mag_le; lia). lia. }
      assert (mag q ef <= mag m e) by (rewrite Emag, mag_le by lia; lia).
      assert (mag q ef <= mag n ef) by (apply mag_le; lia). lia.
Qed.

Lemma val_opp x : val (SFopp x) = - val x.
Proof. destruct x as [?|?| |s m e]; cbn; try done. destruct s; cbn; lia. Qed.
Lemma fin_opp x : finite x -> finite (SFopp x).
Proof. by destruct x. Qed.

(** A result is bounded by every double that bounds the exact value. *)
Definition faithful (v : Z) (r : spec_float) : Prop :=
  finite r /\ forall z, finite z -> (v <= val z -> val r <= val z) /\ (val z <= v -> val z <= val r).

Lemma faithful_exact x : finite x -> faithful (val x) x.
Proof. done. Qed.

(** Rounding an integer of exponent [e]. *)
Lemma binary_round_spec s p e : -1074 <= e -> Zdigits2 (Z.pos p) + e <= 1000 ->
  exists n e' l, 0 <= n /\ -3000 <= e' /\ e' <= fexp (Zdigits2 n + e') /\ l = loc_Exact /\ mag n e' = mag (Z.pos p) e
    /\ binary_round 53 1024 s p e = binary_round_aux 53 1024 s n e' l /\ Zdigits2 n + e' <= 1000
    /\ (Zdigits2 (Z.pos p) <= 53 -> e = 0 -> fexp (Zdigits2 n + e') = e').
Proof.
  intros He Hd. unfold binary_round. change (Z.pos (digits2_pos p)) with (Zdigits2 (Z.pos p)). unfold shl_align.
  destruct (fexp (Zdigits2 (Z.pos p) + e) - e) as [|k|k] eqn:Ek.
  - exists (Z.pos p), e, loc_Exact. split_and!; [lia..|done|done|done|lia|lia].
  - exists (Z.pos p), e, loc_Exact. split_and!; [lia..|done|done|done|lia|]. intros. subst. rewrite fexp_eq in Ek. lia.
  - set (q := Pos.iter xO p k). set (e' := fexp (Zdigits2 (Z.pos p) + e)) in *.
    assert (Eq : Z.pos q = Z.pos p * 2 ^ Z.pos k).
    { unfold q. change (Z.pos p * 2 ^ Z.pos k) with (Z.pos p * Z.pow_pos 2 k). unfold Z.pow_pos.
      clear. induction k as [|k IH] using Pos.peano_ind; [cbn; lia|]. rewrite !Pos.iter_succ. lia. }
    destruct (Zdigits2_spec (Z.pos p)) as (_ & Hlt & Hge); [lia|]. destruct (Hge ltac:(lia)) as [Hd0 Hge'].
    assert (Edig : Zdigits2 (Z.pos q) = Zdigits2 (Z.pos p) + Z.pos k).
    { apply digits_of; [lia|]. rewrite Eq. replace (Zdigits2 (Z.pos p) + Z.pos k - 1) with (Zdigits2 (Z.pos p) - 1 + Z.pos k) by lia.
      rewrite !pow_split by lia. assert (0 < 2 ^ Z.pos k) by (apply Z.pow_pos_nonneg; lia). nia. }
    assert (Hsum : Zdigits2 (Z.pos q) + e' = Zdigits2 (Z.pos p) + e) by lia.
    assert (He' : -1074 <= e') by (unfold e'; rewrite fexp_eq; lia).
    exists (Z.pos q), e', loc_Exact. rewrite Hsum. split_and!; [lia|lia|lia|done| |done|lia|done].
    replace e with (e' + Z.pos k) by lia. by rewrite mag_shift, Eq by lia.
Qed.

Lemma round_faithful s p e : -1074 <= e -> Zdigits2 (Z.pos p) + e <= 1000 ->
  faithful (signed s (mag (Z.pos p) e)) (binary_round 53 1024 s p e).
Proof.
  intros He Hd. destruct (binary_round_spec s p e He Hd) as (n & e' & l & Hn & He3 & He' & -> & Em & -> & Hd' & _).
  destruct (round_aux_spec s n e' loc_Exact Hn He' Hd') as (x & Hx & Hf & Hv). split; [done|]. intros z Hz. rewrite Hv, <- Em.
  destruct s; cbn [signed].
  - destruct (neighbour_faithful n e' loc_Exact x (SFopp z) Hn He3 He' Hx) as [H1 H2]; [by apply fin_opp|].
    rewrite val_opp in H1, H2. split; intros H; [apply Z.opp_le_mono; rewrite Z.opp_involutive; apply H2; lia|].
    assert (mag x (fexp (Zdigits2 n + e')) <= - val z) by (apply H1; [lia|done]). lia.
  - destruct (neighbour_faithful n e' loc_Exact x z Hn He3 He' Hx Hz) as [H1 H2]. split; [|done]. intros H. by apply H1.
Qed.

Lemma normalize_faithful m e : -1074 <= e -> Zdigits2 m + e <= 1000 -> faithful (mag m e) (binary_normalize 53 1024 m e false).
Proof.
  intros He Hd. destruct m as [|p|p]; cbn [binary_normalize].
  - by apply (faithful_exact (S754_zero false)).
  - by apply (round_faithful false).
  - replace (mag (Z.neg p) e) with (signed true (mag (Z.pos p) e)) by (unfold mag; cbn; lia). by apply (round_faithful true).
Qed.

(** ** Operations *)

Definition large : Z := 2 ^ 80 * unit1.

Lemma aligned m e ez : ez <= e -> -3000 <= ez -> mag (Z.pos (shl_align m e ez).1) ez = mag (Z.pos m) e.
Proof.
  intros He Hez. unfold shl_align. destruct (ez - e) as [|k|k] eqn:Ek; [by replace e with ez by lia|lia|]. cbn [fst].
  replace e with (ez + Z.pos k) by lia. rewrite mag_shift by lia. f_equal.
  unfold Z.pow. unfold Z.pow_pos. clear. induction k as [|k IH] using Pos.peano_ind; [cbn; lia|]. rewrite !Pos.iter_succ. lia.
Qed.

Lemma mag_signed s m e : mag (cond_Zopp s m) e = signed s (mag m e).
Proof. destruct s; unfold mag; cbn; lia. Qed.
Lemma mag_add m n e : mag (m + n) e = mag m e + mag n e.
Proof. unfold mag. ring. Qed.

Lemma normalize_bounded m e : -1074 <= e -> Z.abs (mag m e) < 2 ^ 82 * unit1 -> faithful (mag m e) (binary_normalize 53 1024 m e false).
Proof.
  intros He Hm. destruct (decide (m = 0)) as [->|Hn]; [by apply (faithful_exact (S754_zero false))|].
  apply normalize_faithful; [done|]. assert (Em : Z.abs (mag m e) = mag (Z.abs m) e).
  { unfold mag. rewrite Z.abs_mul, (Z.abs_eq (2 ^ _)); [done|]. apply Z.pow_nonneg; lia. }
  replace (Zdigits2 m) with (Zdigits2 (Z.abs m)) by (by destruct m). etrans; [|apply (Z.le_refl 1000)].
  apply digits_bound; [lia|lia| |lia]. rewrite <- Em. eapply Z.lt_le_trans; [exact Hm|]. unfold unit1.
  rewrite <- pow_split by lia. apply Z.pow_le_mono_r; lia.
Qed.

Lemma double_add_faithful x y : finite x -> finite y -> Z.abs (val x) <= large -> Z.abs (val y) <= large ->
  faithful (val x + val y) (double_add x y).
Proof.
  intros Hx Hy Bx By. destruct x as [sx|?| |sx mx ex], y as [sy|?| |sy my ey]; try exact (False_ind _ Hx); try exact (False_ind _ Hy).
  - by destruct sx, sy.
  - by apply (faithful_exact (S754_finite sy my ey)).
  - cbn [val]. rewrite Z.add_0_r. by apply (faithful_exact (S754_finite sx mx ex)).
  - pose proof (fin_bounds _ _ _ Hx) as (_ & Fx & _). pose proof (fin_bounds _ _ _ Hy) as (_ & Fy & _).
    unfold double_add, SFadd. set (ez := Z.min ex ey).
    assert (E : mag (cond_Zopp sx (Z.pos (shl_align mx ex ez).1) + cond_Zopp sy (Z.pos (shl_align my ey ez).1)) ez
      = val (S754_finite sx mx ex) + val (S754_finite sy my ey)).
    { rewrite mag_add, !mag_signed, !aligned by lia. done. }
    rewrite <- E. apply normalize_bounded; [lia|]. rewrite E. unfold large in *. pose proof unit1_pos. lia.
Qed.

Lemma double_sub_faithful x y : finite x -> finite y -> Z.abs (val x) <= large -> Z.abs (val y) <= large ->
  faithful (val x - val y) (double_sub x y).
Proof.
  intros Hx Hy Bx By. destruct x as [sx|?| |sx mx ex], y as [sy|?| |sy my ey]; try exact (False_ind _ Hx); try exact (False_ind _ Hy).
  - by destruct sx, sy.
  - replace (val (S754_zero sx) - val (S754_finite sy my ey)) with (val (S754_finite (negb sy) my ey))
      by (destruct sy; cbn; lia). by apply (faithful_exact (S754_finite (negb sy) my ey)).
  - cbn [val]. rewrite Z.sub_0_r. by apply (faithful_exact (S754_finite sx mx ex)).
  - pose proof (fin_bounds _ _ _ Hx) as (_ & Fx & _). pose proof (fin_bounds _ _ _ Hy) as (_ & Fy & _).
    unfold double_sub, SFsub. set (ez := Z.min ex ey).
    assert (E : mag (cond_Zopp sx (Z.pos (shl_align mx ex ez).1) - cond_Zopp sy (Z.pos (shl_align my ey ez).1)) ez
      = val (S754_finite sx mx ex) - val (S754_finite sy my ey)).
    { rewrite <- Z.add_opp_r, mag_add. replace (mag (- _) ez) with (- mag (cond_Zopp sy (Z.pos (shl_align my ey ez).1)) ez) by (unfold mag; lia).
      rewrite !mag_signed, !aligned by lia. cbn [val]. lia. }
    rewrite <- E. apply normalize_bounded; [lia|]. rewrite E. unfold large in *. pose proof unit1_pos. lia.
Qed.

(** Integers are exact. *)
Lemma double_of_val z : Z.abs z < 2 ^ 53 -> finite (double_of z) /\ val (double_of z) = z * unit1.
Proof.
  intros Hz. assert (Hp : forall s p, Z.pos p < 2 ^ 53 -> finite (binary_round 53 1024 s p 0) /\ val (binary_round 53 1024 s p 0) = signed s (Z.pos p * unit1)).
  { intros s p Hp. pose proof (digits_le (Z.pos p) 53 ltac:(lia) ltac:(lia)) as Hd.
    destruct (binary_round_spec s p 0) as (n & e' & l & Hn & He3 & He' & -> & Em & -> & Hd' & Hex); [lia|lia|].
    destruct (round_aux_spec s n e' loc_Exact Hn He' Hd') as (x & Hx & Hf & Hv). split; [done|]. rewrite Hv.
    specialize (Hex Hd eq_refl). f_equal. change (Z.pos p * unit1) with (mag (Z.pos p) 0). rewrite <- Em, Hex.
    unfold neighbour in Hx. rewrite Hex, Z.sub_diag in Hx. change (2 ^ 0) with 1 in Hx. rewrite Z.div_1_r, Z.mod_1_r in Hx.
    destruct Hx as [->|[_ Hx]]; [done|]. by destruct Hx. }
  destruct z as [|p|p]; cbn [double_of binary_normalize].
  - done.
  - apply (Hp false). lia.
  - destruct (Hp true p) as [H1 H2]; [lia|]. split; [done|]. unfold double_of. cbn [binary_normalize]. rewrite H2. cbn. lia.
Qed.

(** The quotient of the shifted dividend has enough digits. *)
Lemma quotient_digits mx my s q rem : 0 <= s -> Z.pos mx * 2 ^ s = Z.pos my * q + rem -> 0 <= rem < Z.pos my -> 0 <= q ->
  Zdigits2 (Z.pos mx) + s - Zdigits2 (Z.pos my) <= Zdigits2 q.
Proof.
  intros Hs Eq Hrem Hq. assert (H2s : 0 < 2 ^ s) by (apply Z.pow_pos_nonneg; lia).
  destruct (Zdigits2_spec (Z.pos mx)) as (_ & X1 & X2); [lia|]. destruct (X2 ltac:(lia)) as [X3 X4].
  destruct (Zdigits2_spec (Z.pos my)) as (_ & Y1 & Y2); [lia|]. destruct (Y2 ltac:(lia)) as [Y3 Y4].
  destruct (Zdigits2_spec q Hq) as (Q0 & Q1 & Q2). set (d1 := Zdigits2 (Z.pos mx)) in *. set (d2 := Zdigits2 (Z.pos my)) in *.
  destruct (Z.le_gt_cases (d1 + s - d2) (Zdigits2 q)) as [?|Hgt]; [done|]. exfalso.
  assert (H1 : 2 ^ (d1 - 1 + s) <= Z.pos mx * 2 ^ s) by (rewrite pow_split by lia; nia).
  assert (H3 : Z.pos mx * 2 ^ s < 2 ^ (d2 + Zdigits2 q)).
  { rewrite pow_split by lia. assert (q + 1 <= 2 ^ Zdigits2 q) by lia. nia. }
  assert (2 ^ (d2 + Zdigits2 q) <= 2 ^ (d1 - 1 + s)) by (apply Z.pow_le_mono_r; lia). lia.
Qed.

(** The quotient and the remainder in terms of values. *)
Lemma quotient_value mx ex my ey e' q rem : let s := ex - ey - e' in 0 <= s -> -3000 <= e' -> -3000 <= ex -> -3000 <= ey ->
  Z.pos mx * 2 ^ s = Z.pos my * q + rem ->
  mag q e' * mag (Z.pos my) ey + mag rem e' * 2 ^ (ey + 3000) = mag (Z.pos mx) ex * unit1.
Proof.
  intros s Hs He He1 He2 Eq. unfold mag, unit1. transitivity ((Z.pos my * q + rem) * (2 ^ (e' + 3000) * 2 ^ (ey + 3000))); [ring|].
  rewrite <- Eq. rewrite <- pow_split by lia.
  replace (e' + 3000 + (ey + 3000)) with (ex - ey - s + 3000 + ey + 3000) by (unfold s; lia).
  transitivity (Z.pos mx * (2 ^ s * 2 ^ (ex - ey - s + 3000 + ey + 3000))); [ring|]. rewrite <- pow_split by (unfold s in *; lia).
  replace (s + (ex - ey - s + 3000 + ey + 3000)) with (ex + 3000 + 3000) by lia. rewrite pow_split by (unfold s in *; lia). ring.
Qed.

(** Division of non-negative doubles. *)
Lemma double_div_faithful x y : finite x -> finite y -> 0 <= val x -> 0 < val y -> val x * unit1 <= large * val y ->
  let r := double_div x y in
  finite r /\ 0 <= val r /\ forall z, finite z -> val x * unit1 <= val z * val y -> val r <= val z.
Proof.
  intros Hx Hy Bx By Bq. pose proof unit1_pos as Hu.
  destruct y as [sy|?| |[] my ey]; try exact (False_ind _ Hy); [cbn in By; lia|..].
  { cbn in By. assert (0 <= mag (Z.pos my) ey) by (unfold mag; apply Z.mul_nonneg_nonneg; [lia|apply Z.pow_nonneg; lia]). lia. }
  destruct x as [sx|?| |[] mx ex]; try exact (False_ind _ Hx).
  { split; [done|]. split; [done|]. intros z Hz H. change (0 <= val z * val (S754_finite false my ey)) in H. change (0 <= val z). nia. }
  { pose proof (fin_bounds _ _ _ Hx) as (_ & Fx & _). cbn in Bx.
    assert (0 < mag (Z.pos mx) ex) by (unfold mag; apply Z.mul_pos_pos; [lia|apply Z.pow_pos_nonneg; lia]). lia. }
  pose proof (fin_bounds _ _ _ Hx) as (Gx & Fx & _). pose proof (fin_bounds _ _ _ Hy) as (Gy & Fy & _).
  cbn zeta. unfold double_div, SFdiv, SFdiv_core_binary.
  set (d1 := Zdigits2 (Z.pos mx)). set (d2 := Zdigits2 (Z.pos my)).
  set (e' := Z.min (fexp (d1 + ex - (d2 + ey))) (ex - ey)). set (s := ex - ey - e').
  assert (Hs : 0 <= s) by (unfold s, e'; lia).
  assert (Em' : match s with 0 => Z.pos mx | Z.pos _ => Z.shiftl (Z.pos mx) s | Z.neg _ => 0 end = Z.pos mx * 2 ^ s).
  { destruct s; [cbn; lia| |lia]. by rewrite Z.shiftl_mul_pow2 by lia. }
  rewrite Em'. pose proof (Z_div_mod (Z.pos mx * 2 ^ s) (Z.pos my) ltac:(lia)) as Hdiv.
  destruct (Z.div_eucl (Z.pos mx * 2 ^ s) (Z.pos my)) as [q rem]. destruct Hdiv as [Eq Hrem].
  cbn [xorb]. assert (H2s : 0 < 2 ^ s) by (apply Z.pow_pos_nonneg; lia). assert (Hq : 0 <= q) by nia.
  assert (He3 : -2100 <= e') by (unfold e'; rewrite fexp_eq; lia).
  destruct (Zdigits2_spec q Hq) as (Q0 & Q1 & Q2). pose proof (quotient_digits mx my s q rem Hs Eq ltac:(lia) Hq) as Hdq. fold d1 d2 in Hdq.
  assert (He' : e' <= fexp (Zdigits2 q + e')).
  { assert (fexp (d1 + ex - (d2 + ey)) <= fexp (Zdigits2 q + e')) by (rewrite !fexp_eq; unfold s in Hdq; lia). unfold e' at 1. lia. }
  assert (Hval : mag q e' * (val (S754_finite false my ey)) + mag rem e' * 2 ^ (ey + 3000) = val (S754_finite false mx ex) * unit1)
    by (apply quotient_value; [exact Hs|lia|lia|lia|exact Eq]).
  set (vx := val (S754_finite false mx ex)) in *. set (vy := val (S754_finite false my ey)) in *.
  assert (Hpe : 0 < 2 ^ (e' + 3000)) by (apply Z.pow_pos_nonneg; lia). assert (Hpy : 0 < 2 ^ (ey + 3000)) by (apply Z.pow_pos_nonneg; lia).
  assert (Hrem0 : 0 <= mag rem e' * 2 ^ (ey + 3000)) by (unfold mag; nia).
  assert (Hbelow : forall z, vx * unit1 <= z * vy -> mag q e' <= z /\ (rem <> 0 -> mag q e' < z)).
  { intros z Hz. split; [nia|]. intros Hr. assert (0 < mag rem e' * 2 ^ (ey + 3000)) by (unfold mag; nia). nia. }
  assert (Hloc : new_location (Z.pos my) rem <> loc_Exact -> rem <> 0).
  { intros Hl ->. apply Hl. unfold new_location, new_location_even, new_location_odd. by destruct (Z.even _). }
  assert (Hqx : mag q e' <= large) by (by apply Hbelow).
  assert (Hd : Zdigits2 q + e' <= 1000).
  { clearbody e'. destruct (decide (q = 0)) as [->|Hq0].
    - rewrite fexp_eq in He'. cbn [Zdigits2] in *. lia.
    - apply digits_bound; [lia|lia| |lia]. eapply Z.le_lt_trans; [exact Hqx|]. unfold large, unit1.
      rewrite <- pow_split by lia. apply Z.pow_lt_mono_r; lia. }
  destruct (round_aux_spec false q e' (new_location (Z.pos my) rem) Hq He' Hd) as (x & Hx' & Hf & Hv).
  split; [done|]. cbn [signed] in Hv. rewrite Hv. split.
  - unfold neighbour in Hx'. destruct (quotient_bits q e' Hq He') as [? _].
    unfold mag. apply Z.mul_nonneg_nonneg; [lia|apply Z.pow_nonneg; lia].
  - intros z Hz Hle. destruct (Hbelow _ Hle) as [H1 H2].
    apply (proj1 (neighbour_faithful q e' _ x z Hq ltac:(lia) He' Hx' Hz)); [done|]. intros Hl. by apply H2, Hloc.
Qed.

(** ** Comparison *)

Lemma compare_val x y : finite x -> finite y -> SFcompare x y = Some (val x ?= val y).
Proof.
  intros Hx Hy.
  assert (Hpos : forall s m e, finite (S754_finite s m e) -> 0 < mag (Z.pos m) e).
  { intros s m e H. apply fin_bounds in H. unfold mag. apply Z.mul_pos_pos; [lia|apply Z.pow_pos_nonneg; lia]. }
  assert (Hlt : forall s1 s2 m1 e1 m2 e2, finite (S754_finite s1 m1 e1) -> finite (S754_finite s2 m2 e2) -> e1 < e2 -> mag (Z.pos m1) e1 < mag (Z.pos m2) e2).
  { intros s1 s2 m1 e1 m2 e2 H1 H2 He. apply fin_bounds in H1 as (A1 & A2 & _), H2 as (B1 & B2 & B3).
    replace e2 with (e1 + (e2 - e1)) by lia. rewrite mag_shift by lia. apply mag_lt; [lia|].
    assert (2 ^ 1 <= 2 ^ (e2 - e1)) by (apply Z.pow_le_mono_r; lia). change (2 ^ 1) with 2 in *. specialize (B3 ltac:(lia)). nia. }
  destruct x as [sx|?| |sx mx ex], y as [sy|?| |sy my ey]; try done; cbn [SFcompare val]; f_equal.
  - pose proof (Hpos _ _ _ Hy). destruct sy; cbn [signed]; symmetry; [apply Z.compare_gt_iff|apply Z.compare_lt_iff]; lia.
  - pose proof (Hpos _ _ _ Hx). destruct sx; cbn [signed]; symmetry; [apply Z.compare_lt_iff|apply Z.compare_gt_iff]; lia.
  - pose proof (Hpos _ _ _ Hx). pose proof (Hpos _ _ _ Hy).
    assert (Hcmp : match Z.compare ex ey with Lt => Lt | Gt => Gt | Eq => Pos.compare_cont Eq mx my end = (mag (Z.pos mx) ex ?= mag (Z.pos my) ey)).
    { symmetry. destruct (Z.compare_spec ex ey) as [->|He|He].
      - change (Pos.compare_cont Eq mx my) with (Z.pos mx ?= Z.pos my).
        destruct (Z.compare_spec (Z.pos mx) (Z.pos my)) as [->|Hm|Hm]; [by rewrite Z.compare_refl| |].
        + apply Z.compare_lt_iff, mag_lt; [apply fin_bounds in Hy; lia|done].
        + apply Z.compare_gt_iff, mag_lt; [apply fin_bounds in Hy; lia|done].
      - apply Z.compare_lt_iff. by eapply Hlt.
      - apply Z.compare_gt_iff. by eapply Hlt. }
    destruct sx, sy; cbn [signed]; [|symmetry; apply Z.compare_lt_iff; lia|symmetry; apply Z.compare_gt_iff; lia|exact Hcmp].
    rewrite (Z.compare_opp (mag (Z.pos mx) ex) (mag (Z.pos my) ey)), (Z.compare_antisym (mag (Z.pos mx) ex)), <- Hcmp.
    by destruct (ex ?= ey).
Qed.

Lemma SFltb_val x y : finite x -> finite y -> SFltb x y = (val x <? val y).
Proof. intros Hx Hy. unfold SFltb. by rewrite compare_val. Qed.
Lemma SFleb_val x y : finite x -> finite y -> SFleb x y = (val x <=? val y).
Proof. intros Hx Hy. unfold SFleb, Z.leb. rewrite compare_val by done. by destruct (val x ?= val y). Qed.
