(* ===== verification/QmgrQueue.v ===== *)
(** Destination queues: qmgr_queue.c, with the feedback parameters of qmgr_feedback.c
    and the configuration of a transport (src/src/qmgr).

    A queue is ready with a concurrency window, throttled after failures, or suspended
    on a rate-limited transport.  Positive and negative feedback are accumulated in
    doubles; Double.v bounds them. *)

From S2P Require Import QueueId.
From S2P Require Export Double QmgrLink QmgrTransport.

(** ** Feedback parameters *)

Definition QMGR_FEEDBACK_IDX_NONE : Z := 0.
Definition QMGR_FEEDBACK_IDX_WIN : Z := 1.
Definition CONC_FDBACK_NAME_WIN : bytes := str "concurrency".
Definition INT_MAX : Z := 2 ^ 31 - 1.

Definition INCLUSIVE_BOUNDS (v low high : spec_float) : bool := SFleb low v && SFleb v high.

(** What sscanf() finds in the text of a parameter: a number; a number, a slash and a
    word, with the number that the word is, if it is one; something else. *)
Inductive scanned :=
  | ScanNumber (enum_val : spec_float)
  | ScanFraction (enum_val : spec_float) (denom_str : bytes) (denom_val : option spec_float)
  | ScanOther.

Definition qmgr_feedback_map (name : bytes) : Z :=
  if MailQueue.strcasecmp_eq name CONC_FDBACK_NAME_WIN then QMGR_FEEDBACK_IDX_WIN else QMGR_FEEDBACK_IDX_NONE.

(** The base is -1 when the text is in error. *)
Definition feedback_parse (s : scanned) : Z * spec_float :=
  match s with
  | ScanNumber v => (QMGR_FEEDBACK_IDX_NONE, v)
  | ScanFraction v denom_str denom_val =>
      let index := qmgr_feedback_map denom_str in
      if negb (index =? QMGR_FEEDBACK_IDX_NONE) then (index, v)
      else if INCLUSIVE_BOUNDS v (double_of 0) (double_of INT_MAX) then
        match denom_val with
        | Some d =>
            if INCLUSIVE_BOUNDS d (double_div (double_of 1) (double_of INT_MAX)) (double_of INT_MAX)
            then (index, double_div v d) else (index, double_of (-1))
        | None => (index, double_of (-1))
        end
      else (index, double_of (-1))
  | ScanOther => (QMGR_FEEDBACK_IDX_NONE, double_of (-1))    (* the index is not set *)
  end.

Definition qmgr_feedback_init (s : scanned) : QMGR_FEEDBACK :=
  let (index, base) := feedback_parse s in
  if negb (INCLUSIVE_BOUNDS base (double_of 0) (double_of 1))
  then mk_qmgr_feedback 1 (double_of 1) QMGR_FEEDBACK_IDX_NONE
  else mk_qmgr_feedback 1 base index.

Definition QMGR_FEEDBACK_VAL (fb : QMGR_FEEDBACK) (win : Z) : spec_float :=
  if f_index fb =? QMGR_FEEDBACK_IDX_NONE then f_base fb else double_div (f_base fb) (double_of win).

(** ** Creating a transport *)

(** The configuration values of a transport. *)
Record transport_conf := mk_conf {
  conf_dest_con_limit : Z;
  conf_init_dest_concurrency : Z;
  conf_xport_rate_delay : Z;
  conf_rate_delay : Z;
  conf_slot_cost : Z;
  conf_slot_loan : Z;
  conf_slot_discount : Z;
  conf_min_slots : Z;
  conf_rcpt_limit : Z;
  conf_stack_rcpt_limit : Z;
  conf_refill_limit : Z;
  conf_refill_delay : Z;
  conf_pos_feedback : scanned;
  conf_neg_feedback : scanned;
  conf_cohort_limit : Z
}.

(** The transport that qmgr_transport_create() allocates; its name and its place in the
    table of names are not part of the state. *)
Definition new_transport (c : transport_conf) : QMGR_TRANSPORT :=
  let dest_concurrency_limit := if conf_rate_delay c >? 0 then 1 else conf_dest_con_limit c in
  let init_dest_concurrency :=
    if negb (dest_concurrency_limit =? 0) && (dest_concurrency_limit <? conf_init_dest_concurrency c)
    then dest_concurrency_limit else conf_init_dest_concurrency c in
  {| t_flags := 0;
     t_pending := 0;
     t_dest_concurrency_limit := dest_concurrency_limit;
     t_init_dest_concurrency := init_dest_concurrency;
     t_rcpt_per_stack := conf_stack_rcpt_limit c;
     t_rcpt_unused := conf_rcpt_limit c;
     t_refill_limit := conf_refill_limit c;
     t_refill_delay := conf_refill_delay c;
     t_slot_cost := conf_slot_cost c;
     t_slot_loan := conf_slot_loan c;
     t_slot_loan_factor := 100 - conf_slot_discount c;
     t_min_slots := conf_min_slots c;
     t_queue_byname := ∅;
     t_queue_list := [];
     t_job_byname := ∅;
     t_job_list := [];
     t_job_bytime := [];
     t_job_current := None;
     t_job_next_unread := None;
     t_candidate_cache := None;
     t_candidate_cache_current := None;
     t_candidate_cache_time := 0;
     t_blocker_tag := 1;
     t_dsn := None;
     t_pos_feedback := qmgr_feedback_init (conf_pos_feedback c);
     t_neg_feedback := qmgr_feedback_init (conf_neg_feedback c);
     t_fail_cohort_limit := conf_cohort_limit c;
     t_xport_rate_delay := conf_xport_rate_delay c;
     t_rate_delay := conf_rate_delay c |}.

(** ** Queues *)

Definition QMGR_QUEUE_STAT_THROTTLED : Z := 0.
Definition QMGR_QUEUE_STAT_SUSPENDED : Z := -1.
Definition QMGR_QUEUE_THROTTLED (qu : QMGR_QUEUE) : bool := q_window qu =? QMGR_QUEUE_STAT_THROTTLED.
Definition QMGR_QUEUE_SUSPENDED (qu : QMGR_QUEUE) : bool := q_window qu =? QMGR_QUEUE_STAT_SUSPENDED.

Definition qmgr_queue_create (transport : nat) (name : bytes) : M nat :=
  tr ← get_transport transport;
  queue ← alloc;
  modify (fun st => set_qmgr_queue_count (qmgr_queue_count st + 1) st);;
  modify (put_queue queue (mk_qmgr_queue 0 0 name 0 0 (t_init_dest_concurrency tr) (double_of 0) (double_of 0)
    (double_of 0) transport [] [] None 0));;
  upd_transport transport (fun tr => set_t_queue_list (t_queue_list tr ++ [queue]) tr);;
  upd_transport transport (fun tr => set_t_queue_byname (<[name := queue]> (t_queue_byname tr)) tr);;
  mret queue.

Definition qmgr_queue_find (transport : nat) (name : bytes) : M (option nat) :=
  tr ← get_transport transport;
  mret (t_queue_byname tr !! name).

Definition qmgr_queue_done (queue : nat) : M unit :=
  qu ← get_queue queue;
  panic_if (negb (q_busy_refcount qu =? 0) || negb (q_todo_refcount qu =? 0));;
  panic_if (negb (bool_decide (q_todo qu = [])) || negb (bool_decide (q_busy qu = [])));;
  panic_if (negb (QMGR_QUEUE_READY qu));;
  panic_if (bool_decide (is_Some (q_dsn qu)));;
  upd_transport (q_transport qu) (fun tr => set_t_queue_list (list_unlink queue (t_queue_list tr)) tr);;
  tr ← get_transport (q_transport qu);
  panic_if (bool_decide (t_queue_byname tr !! q_name qu = None));;
  upd_transport (q_transport qu) (fun tr => set_t_queue_byname (delete (q_name qu) (t_queue_byname tr)) tr);;
  modify (fun st => set_qmgr_queue_count (qmgr_queue_count st - 1) st);;
  modify (fun st => set_queues (delete queue (queues st)) st).

(** ** Feedback *)

(** The loops run at most twice (Double.v bounds their variables). *)
Definition feedback_fuel : nat := 3.

Fixpoint widen_loop (fuel : nat) (hysteresis : Z) (feedback : spec_float) (qu : QMGR_QUEUE) : option QMGR_QUEUE :=
  match fuel with
  | O => None
  | S fuel =>
      if SFleb (double_of hysteresis) (double_add (q_success qu) (double_div feedback (double_of 2))) then
        widen_loop fuel hysteresis feedback
          (set_q_failure (double_of 0) (set_q_success (double_sub (q_success qu) (double_of hysteresis))
            (set_q_window (q_window qu + hysteresis) qu)))
      else Some qu
  end.

Fixpoint narrow_loop (fuel : nat) (hysteresis : Z) (feedback : spec_float) (qu : QMGR_QUEUE) : option QMGR_QUEUE :=
  match fuel with
  | O => None
  | S fuel =>
      if SFltb (double_sub (q_failure qu) (double_div feedback (double_of 2))) (double_of 0) then
        narrow_loop fuel hysteresis feedback
          (set_q_failure (double_add (q_failure qu) (double_of hysteresis)) (set_q_success (double_of 0)
            (set_q_window (q_window qu - hysteresis) qu)))
      else Some qu
  end.

Definition qmgr_queue_unthrottle (queue : nat) : M unit :=
  qu ← get_queue queue;
  tr ← get_transport (q_transport qu);
  panic_if (negb (QMGR_QUEUE_READY qu) && negb (QMGR_QUEUE_THROTTLED qu));;
  upd_queue queue (set_q_fail_cohorts (double_of 0));;
  if QMGR_QUEUE_THROTTLED qu then
    modify (fun st => set_queue_timers (queue_timers st ∖ {[queue]}) st);;
    panic_if (bool_decide (q_dsn qu = None));;
    upd_queue queue (set_q_dsn None);;
    upd_queue queue (set_q_window (if q_busy_refcount qu >? 0 then q_busy_refcount qu else t_init_dest_concurrency tr));;
    upd_queue queue (fun qu => set_q_success (double_of 0) (set_q_failure (double_of 0) qu))
  else if (t_dest_concurrency_limit tr =? 0) || (t_dest_concurrency_limit tr >? q_window qu) then
    if q_window qu <? q_busy_refcount qu + t_init_dest_concurrency tr then
      let fb := t_pos_feedback tr in
      let feedback := QMGR_FEEDBACK_VAL fb (q_window qu) in
      upd_queue queue (fun qu => set_q_success (double_add (q_success qu) feedback) qu);;
      qu ← get_queue queue;
      qu ← deref (widen_loop feedback_fuel (f_hysteresis fb) feedback qu);
      upd_queue queue (fun _ => qu);;
      if (t_dest_concurrency_limit tr >? 0) && (q_window qu >? t_dest_concurrency_limit tr)
      then upd_queue queue (set_q_window (t_dest_concurrency_limit tr)) else mret tt
    else mret tt
  else mret tt.

Definition qmgr_queue_throttle (queue : nat) (dsn : bytes) : M unit :=
  qu ← get_queue queue;
  tr ← get_transport (q_transport qu);
  panic_if (negb (QMGR_QUEUE_READY qu));;
  panic_if (bool_decide (is_Some (q_dsn qu)));;
  let fail_cohorts := double_add (q_fail_cohorts qu) (double_div (double_of 1) (double_of (q_window qu))) in
  upd_queue queue (set_q_fail_cohorts fail_cohorts);;
  (if (t_fail_cohort_limit tr >? 0) && SFleb (double_of (t_fail_cohort_limit tr)) fail_cohorts
   then upd_queue queue (set_q_window QMGR_QUEUE_STAT_THROTTLED) else mret tt);;
  qu ← get_queue queue;
  (if QMGR_QUEUE_READY qu then
     let fb := t_neg_feedback tr in
     let feedback := QMGR_FEEDBACK_VAL fb (q_window qu) in
     upd_queue queue (fun qu => set_q_failure (double_sub (q_failure qu) feedback) qu);;
     qu ← get_queue queue;
     qu ← deref (narrow_loop feedback_fuel (f_hysteresis fb) feedback qu);
     upd_queue queue (fun _ => qu);;
     if q_window qu <? 1 then upd_queue queue (set_q_window 1) else mret tt
   else mret tt);;
  qu ← get_queue queue;
  if QMGR_QUEUE_THROTTLED qu then
    upd_queue queue (set_q_dsn (Some dsn));;
    modify (fun st => set_queue_timers (queue_timers st ∪ {[queue]}) st);;
    upd_queue queue (set_q_dflags 0)
  else mret tt.

(** ** Timers *)

(** A pending timer is a queue in [resume_timers] or [queue_timers]: the delays are the
    event manager's. *)
Definition qmgr_queue_suspend (queue : nat) (delay : Z) : M unit :=
  qu ← get_queue queue;
  panic_if (negb (QMGR_QUEUE_READY qu));;
  panic_if (q_busy_refcount qu >? 0);;
  upd_queue queue (set_q_window QMGR_QUEUE_STAT_SUSPENDED);;
  modify (fun st => set_resume_timers (resume_timers st ∪ {[queue]}) st).

(** The queue is removed when it is empty. *)
Definition queue_cleanup (queue : nat) (otherwise : M unit) : M unit :=
  qu ← get_queue queue;
  if QMGR_QUEUE_READY qu && bool_decide (q_todo qu = []) && bool_decide (q_busy qu = [])
  then qmgr_queue_done queue else otherwise.

(** A timer is gone when its routine is called. *)
Definition qmgr_queue_resume (queue : nat) : M unit :=
  modify (fun st => set_resume_timers (resume_timers st ∖ {[queue]}) st);;
  qu ← get_queue queue;
  panic_if (negb (QMGR_QUEUE_SUSPENDED qu));;
  upd_queue queue (set_q_window 1);;
  queue_cleanup queue (qmgr_job_blocker_update queue).

Definition qmgr_queue_unthrottle_wrapper (queue : nat) : M unit :=
  modify (fun st => set_queue_timers (queue_timers st ∖ {[queue]}) st);;
  qmgr_queue_unthrottle queue;;
  queue_cleanup queue (mret tt).

(** qmgr_enable_queue() *)
Definition qmgr_enable_queue (queue : nat) : M unit :=
  qu ← get_queue queue;
  (if QMGR_QUEUE_THROTTLED qu then qmgr_queue_unthrottle queue else mret tt);;
  queue_cleanup queue (mret tt).

(** ** Bounds on feedback *)

Definition half1 : Z := 2 ^ 2999.
Lemma unit1_half : unit1 = 2 * half1.
Proof. unfold unit1, half1. by rewrite <- Z.pow_succ_r by lia. Qed.
Lemma half1_pos : 0 < half1.
Proof. pose proof unit1_pos. rewrite unit1_half in *. lia. Qed.

Definition double_half : spec_float := S754_finite false (2 ^ 52) (-53).
Lemma double_half_ok : finite double_half /\ val double_half = half1.
Proof.
  split; [reflexivity|]. change (val double_half) with (2 ^ 52 * 2 ^ (-53 + 3000)). unfold half1. by rewrite <- Z.pow_add_r by lia.
Qed.

Lemma double_int z : Z.abs z < 2 ^ 53 -> finite (double_of z).
Proof. intros. by apply double_of_val. Qed.
Lemma val_int z : Z.abs z < 2 ^ 53 -> val (double_of z) = z * unit1.
Proof. intros. by apply double_of_val. Qed.

(** Between 0 and 1. *)
Definition small (x : spec_float) : Prop := finite x /\ 0 <= val x <= unit1.

Lemma half_small x : small x -> finite (double_div x (double_of 2)) /\ 0 <= val (double_div x (double_of 2)) <= half1.
Proof.
  intros [Hx Bx]. pose proof unit1_half as Eu. pose proof half1_pos as Hh. destruct double_half_ok as [Fh Vh].
  destruct (double_div_faithful x (double_of 2)) as (F & V & B); [done|by apply double_int|lia| | |].
  - rewrite val_int by done. lia.
  - rewrite val_int by done. unfold large. nia.
  - split; [done|]. split; [done|]. rewrite <- Vh. apply B; [done|]. rewrite val_int, Vh by done. nia.
Qed.

Definition feedback_ok (fb : QMGR_FEEDBACK) : Prop := f_hysteresis fb = 1 /\ small (f_base fb).

Lemma feedback_val_small fb win : feedback_ok fb -> 1 <= win < 2 ^ 31 -> small (QMGR_FEEDBACK_VAL fb win).
Proof.
  intros [_ [Hb Bb]] Hw. unfold QMGR_FEEDBACK_VAL. case_match; [done|]. pose proof unit1_pos as Hu.
  destruct (double_div_faithful (f_base fb) (double_of win)) as (F & V & B); [done|apply double_int; lia|lia| | |].
  - rewrite val_int by lia. nia.
  - rewrite val_int by lia. unfold large. nia.
  - split; [done|]. split; [done|]. assert (H1 := B (f_base fb) Hb). rewrite val_int in H1 by lia.
    etrans; [apply H1; nia|lia].
Qed.

(** Accumulated success and failure. *)
Definition success_ok (s : spec_float) : Prop := finite s /\ - unit1 <= val s <= unit1.
Definition failure_ok (s : spec_float) : Prop := finite s /\ 0 <= val s <= 3 * half1.

Section loops.
Context (f : spec_float) (Hf : small f).

Lemma widen_test s : finite s -> - unit1 <= val s <= 2 * unit1 ->
  if SFleb (double_of 1) (double_add s (double_div f (double_of 2))) then 0 < val s else val s < unit1.
Proof using Hf.
  intros Hs Bs. pose proof unit1_half as Eu. pose proof half1_pos as Hh. destruct (half_small f Hf) as [F B].
  destruct (double_add_faithful s _ Hs F) as [Fr Hr]; [unfold large; lia..|].
  rewrite SFleb_val, (val_int 1) by (try apply double_int; done). destruct double_half_ok as [Fh Vh].
  destruct (Hr double_half Fh) as [H1 _]. destruct (Hr (double_of 1)) as [_ H2]; [by apply double_int|]. rewrite Vh in H1.
  rewrite (val_int 1) in H2 by done. destruct (Z.leb_spec (1 * unit1) (val (double_add s (double_div f (double_of 2))))); lia.
Qed.

Lemma minus_one s b : finite s -> 0 <= val s <= 2 * unit1 -> val s <= (b + 1) * unit1 -> 0 <= b <= 1 ->
  finite (double_sub s (double_of 1)) /\ - unit1 <= val (double_sub s (double_of 1)) <= b * unit1.
Proof.
  intros Hs Bs Hb Bb. pose proof unit1_pos as Hu. destruct (double_sub_faithful s (double_of 1)) as [Fr Hr];
    [done|by apply double_int|unfold large; lia|rewrite val_int by done; unfold large; lia|]. rewrite (val_int 1) in Hr by done.
  split; [done|]. destruct (Hr (double_of b)) as [H1 _]; [apply double_int; lia|].
  destruct (Hr (double_of (-1))) as [_ H2]; [by apply double_int|]. rewrite val_int in H1, H2 by lia. lia.
Qed.

(** The window grows by at most 2 times the hysteresis of 1. *)
Lemma widen_ok qu : finite (q_success qu) -> - unit1 <= val (q_success qu) <= 2 * unit1 ->
  exists k s fl, widen_loop feedback_fuel 1 f qu = Some (set_q_failure fl (set_q_success s (set_q_window (q_window qu + k) qu)))
    /\ 0 <= k <= 2 /\ success_ok s /\ (fl = q_failure qu \/ fl = double_of 0).
Proof using Hf.
  intros Hs Bs. pose proof unit1_pos as Hu. unfold feedback_fuel. cbn [widen_loop]. pose proof (widen_test _ Hs Bs) as H1.
  destruct (SFleb _ _); cbn [q_success set_q_success set_q_failure set_q_window].
  2:{ exists 0, (q_success qu), (q_failure qu). split; [|split; [lia|]; split; [split; [done|lia]|by left]]. rewrite Z.add_0_r. by destruct qu. }
  destruct (minus_one (q_success qu) 1) as [F2 B2]; [done|lia..|].
  pose proof (widen_test _ F2 ltac:(lia)) as H2. destruct (SFleb _ _); cbn [q_success q_window set_q_success set_q_failure set_q_window].
  2:{ eexists 1, _, (double_of 0). split; [reflexivity|]. split; [lia|]. split; [split; [done|lia]|by right]. }
  destruct (minus_one (double_sub (q_success qu) (double_of 1)) 0) as [F3 B3]; [done|lia..|].
  pose proof (widen_test _ F3 ltac:(lia)) as H3. destruct (SFleb _ _); [lia|].
  exists 2, (double_sub (double_sub (q_success qu) (double_of 1)) (double_of 1)), (double_of 0). split; [by rewrite <- Z.add_assoc|]. split; [lia|]. split; [split; [done|lia]|by right].
Qed.

Lemma narrow_test s : finite s -> - unit1 <= val s <= 3 * half1 ->
  if SFltb (double_sub s (double_div f (double_of 2))) (double_of 0) then val s < half1 else 0 <= val s.
Proof using Hf.
  intros Hs Bs. pose proof unit1_half as Eu. pose proof half1_pos as Hh. destruct (half_small f Hf) as [F B].
  destruct (double_sub_faithful s _ Hs F) as [Fr Hr]; [unfold large; lia..|].
  rewrite SFltb_val, (val_int 0) by (try apply double_int; done).
  destruct (Hr s Hs) as [H1 _]. destruct (Hr (double_of 0)) as [_ H2]; [by apply double_int|]. rewrite (val_int 0) in H2 by done.
  destruct (Z.ltb_spec (val (double_sub s (double_div f (double_of 2)))) (0 * unit1)); lia.
Qed.

Definition double_three_halves : spec_float := S754_finite false (3 * 2 ^ 51) (-52).
Lemma three_halves_ok : finite double_three_halves /\ val double_three_halves = 3 * half1.
Proof using Type.
  split; [reflexivity|]. change (val double_three_halves) with (3 * 2 ^ 51 * 2 ^ (-52 + 3000)). unfold half1.
  by rewrite <- Z.mul_assoc, <- Z.pow_add_r by lia.
Qed.

Lemma plus_one s a : finite s -> - unit1 <= val s <= half1 -> a = -1 \/ a = 0 -> a * unit1 <= val s ->
  finite (double_add s (double_of 1)) /\ (a + 1) * unit1 <= val (double_add s (double_of 1)) <= 3 * half1.
Proof.
  intros Hs Bs Ha Hb. pose proof unit1_half as Eu. pose proof half1_pos as Hh.
  destruct (double_add_faithful s (double_of 1)) as [Fr Hr];
    [done|by apply double_int|unfold large; lia|rewrite val_int by done; unfold large; lia|]. rewrite (val_int 1) in Hr by done.
  split; [done|]. destruct three_halves_ok as [Ft Vt]. destruct (Hr _ Ft) as [H1 _].
  destruct (Hr (double_of (a + 1))) as [_ H2]; [apply double_int; lia|]. rewrite Vt in H1. rewrite val_int in H2 by lia. lia.
Qed.

Lemma narrow_ok qu : finite (q_failure qu) -> - unit1 <= val (q_failure qu) <= 3 * half1 ->
  exists k s fl, narrow_loop feedback_fuel 1 f qu = Some (set_q_failure fl (set_q_success s (set_q_window (q_window qu - k) qu)))
    /\ 0 <= k <= 2 /\ failure_ok fl /\ (s = q_success qu \/ s = double_of 0).
Proof using Hf.
  intros Hs Bs. pose proof unit1_half as Eu. pose proof half1_pos as Hh. unfold feedback_fuel. cbn [narrow_loop]. pose proof (narrow_test _ Hs Bs) as H1.
  destruct (SFltb _ _); cbn [q_failure set_q_success set_q_failure set_q_window].
  2:{ exists 0, (q_success qu), (q_failure qu). split; [|split; [lia|]; split; [split; [done|lia]|by left]]. rewrite Z.sub_0_r. by destruct qu. }
  destruct (plus_one (q_failure qu) (-1)) as [F2 B2]; [done|lia|by left|lia|].
  pose proof (narrow_test _ F2 ltac:(lia)) as H2. destruct (SFltb _ _); cbn [q_failure q_window set_q_success set_q_failure set_q_window].
  2:{ eexists 1, (double_of 0), _. split; [reflexivity|]. split; [lia|]. split; [split; [done|lia]|by right]. }
  destruct (plus_one (double_add (q_failure qu) (double_of 1)) 0) as [F3 B3]; [done|lia|by right|lia|].
  pose proof (narrow_test _ F3 ltac:(lia)) as H3. destruct (SFltb _ _); [lia|].
  exists 2, (double_of 0), (double_add (double_add (q_failure qu) (double_of 1)) (double_of 1)). split; [by rewrite <- Z.sub_add_distr|]. split; [lia|]. split; [split; [done|lia]|by right].
Qed.
End loops.

(** ** The configuration is sane *)

(** The C library's numbers are valid doubles. *)
Definition scanned_ok (s : scanned) : Prop :=
  match s with
  | ScanNumber v => valid_binary 53 1024 v = true
  | ScanFraction v _ d => valid_binary 53 1024 v = true /\ match d with Some d => valid_binary 53 1024 d = true | None => True end
  | ScanOther => True
  end.

Lemma inclusive_ok v low high : valid_binary 53 1024 v = true -> finite low -> finite high ->
  INCLUSIVE_BOUNDS v low high = true -> finite v /\ val low <= val v <= val high.
Proof.
  intros Hv Hl Hh [H1 H2]%andb_prop. assert (Hf : finite v).
  { destruct v as [?|[]| |]; [done| | | |exact Hv].
    - by destruct low as [?|?| |[]].
    - by destruct high as [?|?| |[]].
    - by destruct low. }
  rewrite SFleb_val in H1, H2 by done. split; [done|]. lia.
Qed.

Lemma smallest_denominator : double_div (double_of 1) (double_of INT_MAX) = S754_finite false 4503599629467648 (-83).
Proof. vm_compute. reflexivity. Qed.

Lemma feedback_parse_base s : scanned_ok s -> INCLUSIVE_BOUNDS (feedback_parse s).2 (double_of 0) (double_of 1) = true ->
  small (feedback_parse s).2.
Proof.
  intros Hs Hi. pose proof unit1_pos as Hu.
  assert (Hsmall : forall v, valid_binary 53 1024 v = true -> INCLUSIVE_BOUNDS v (double_of 0) (double_of 1) = true -> small v).
  { intros v Hv H. apply inclusive_ok in H as [Hf Hb]; [|done|by apply double_int..]. rewrite !val_int in Hb by done. split; [done|lia]. }
  destruct s as [v|v denom d|]; cbn [feedback_parse snd] in *; [by apply Hsmall| |done]. destruct Hs as [Hv Hd].
  destruct (negb (qmgr_feedback_map denom =? QMGR_FEEDBACK_IDX_NONE)); [by apply Hsmall|].
  destruct (INCLUSIVE_BOUNDS v (double_of 0) (double_of INT_MAX)) eqn:E1; [|done].
  destruct d as [d|]; [|done]. destruct (INCLUSIVE_BOUNDS d _ _) eqn:E2; [|done]. cbn [snd] in *.
  apply inclusive_ok in E1 as [Fv Bv]; [|done|by apply double_int..]. rewrite smallest_denominator in E2.
  apply inclusive_ok in E2 as [Fd Bd]; [|done|reflexivity|by apply double_int]. rewrite !val_int in Bv by done.
  assert (Hlow : val (S754_finite false 4503599629467648 (-83)) = 4503599629467648 * 2 ^ 2917) by reflexivity.
  assert (Hunit : unit1 = 2 ^ 83 * 2 ^ 2917) by (unfold unit1; by rewrite <- Z.pow_add_r by lia).
  assert (Hp : 0 < 2 ^ 2917) by (apply Z.pow_pos_nonneg; lia). unfold INT_MAX in Bv.
  destruct (double_div_faithful v d) as (F & V & _); [done|done|lia|lia|unfold large; rewrite Hunit in *; nia|].
  apply Hsmall; [|done]. by destruct (double_div v d).
Qed.

Lemma feedback_init_ok s : scanned_ok s -> feedback_ok (qmgr_feedback_init s).
Proof.
  intros Hs. unfold qmgr_feedback_init. pose proof (feedback_parse_base s Hs) as Hb. pose proof unit1_pos as Hu.
  destruct (feedback_parse s) as [index base]. cbn [snd] in Hb. destruct (INCLUSIVE_BOUNDS base _ _); (split; [done|]).
  - by apply Hb.
  - split; [by apply double_int|]. cbn [f_base negb]. rewrite val_int by done. lia.
Qed.

(** What the configuration lookup guarantees; the initial concurrency is not absurd. *)
Record conf_ok (c : transport_conf) : Prop := mk_conf_ok {
  cf_limit : 0 <= conf_dest_con_limit c <= INT_MAX;
  cf_init : 1 <= conf_init_dest_concurrency c < 2 ^ 30;
  cf_refill : 1 <= conf_refill_limit c;
  cf_pos : scanned_ok (conf_pos_feedback c);
  cf_neg : scanned_ok (conf_neg_feedback c)
}.

Record transport_ok (tr : QMGR_TRANSPORT) : Prop := mk_transport_ok {
  tk_pos : feedback_ok (t_pos_feedback tr);
  tk_neg : feedback_ok (t_neg_feedback tr);
  tk_limit : 0 <= t_dest_concurrency_limit tr <= INT_MAX;
  tk_init : 1 <= t_init_dest_concurrency tr < 2 ^ 30;
  tk_refill : 1 <= t_refill_limit tr;
  tk_init_limit : t_dest_concurrency_limit tr <> 0 -> t_init_dest_concurrency tr <= t_dest_concurrency_limit tr;
  tk_rate : 0 < t_rate_delay tr -> t_dest_concurrency_limit tr = 1
}.

Lemma new_transport_ok c : conf_ok c -> transport_ok (new_transport c).
Proof.
  intros [H1 H2 H3 H4 H5]. unfold INT_MAX in *. split; cbn; try (by apply feedback_init_ok); unfold INT_MAX; repeat case_match; lia.
Qed.

(** ** Control of one queue *)

(** The deliveries of a queue at one time: far more than there can be processes. *)
Definition MAX_BUSY : Z := 2 ^ 30 - 2.

Record queue_fits (tr : QMGR_TRANSPORT) (qu : QMGR_QUEUE) : Prop := mk_queue_fits {
  qf_window : -1 <= q_window qu <= INT_MAX;
  qf_busy : 0 <= q_busy_refcount qu <= MAX_BUSY;
  qf_limit : 0 < t_dest_concurrency_limit tr ->
    q_window qu <= t_dest_concurrency_limit tr /\ q_busy_refcount qu <= t_dest_concurrency_limit tr;
  qf_success : success_ok (q_success qu);
  qf_failure : failure_ok (q_failure qu);
  qf_dsn : is_Some (q_dsn qu) <-> q_window qu = QMGR_QUEUE_STAT_THROTTLED;
  qf_suspended : q_window qu = QMGR_QUEUE_STAT_SUSPENDED -> q_busy_refcount qu = 0 /\ 0 < t_rate_delay tr
}.

(** The parts of a queue that its control does not change. *)
Definition qstatic (qu : QMGR_QUEUE) :=
  (q_last_done qu, q_name qu, q_todo_refcount qu, q_busy_refcount qu, q_transport qu, (q_todo qu, q_busy qu, q_blocker_tag qu)).

Lemma put_queue_twice q a b st : put_queue q b (put_queue q a st) = put_queue q b st.
Proof. unfold put_queue. cbn. by rewrite insert_insert_eq. Qed.
Lemma put_queue_id q qu st : queues st !! q = Some qu -> put_queue q qu st = st.
Proof. intros H. unfold put_queue. rewrite insert_id by done. by destruct st. Qed.

Lemma wp_get_here q a st (Q : QMGR_QUEUE -> qmgr -> Prop) : Q a (put_queue q a st) -> wp (get_queue q) (put_queue q a st) Q.
Proof. intros H. by apply (wp_get_queue _ q a); [apply lookup_insert_eq|]. Qed.
Lemma wp_upd_here q f a st (Q : unit -> qmgr -> Prop) : Q tt (put_queue q (f a) st) -> wp (upd_queue q f) (put_queue q a st) Q.
Proof. intros H. apply (wp_upd_queue _ q f a); [apply lookup_insert_eq|]. by rewrite put_queue_twice. Qed.

Lemma double_zero_ok : success_ok (double_of 0) /\ failure_ok (double_of 0).
Proof. pose proof unit1_pos. pose proof half1_pos. split; (split; [done|]); rewrite val_int by done; lia. Qed.

(** [st'] is [st] with another control state of [q]. *)
Definition controlled (q : nat) (tr : QMGR_TRANSPORT) (qu qu' : QMGR_QUEUE) (T : gset nat) (st st' : qmgr) : Prop :=
  st' = put_queue q qu' (set_queue_timers T st) /\ queue_fits tr qu' /\ qstatic qu' = qstatic qu.

Lemma unthrottle_queue_wp q qu tr st :
  queues st !! q = Some qu -> transports st !! q_transport qu = Some tr -> transport_ok tr -> queue_fits tr qu ->
  0 <= q_window qu ->
  wp (qmgr_queue_unthrottle q) st (fun _ st' => exists qu', 0 < q_window qu' /\ (0 < q_window qu -> q_window qu <= q_window qu' <= q_window qu + 2) /\
    controlled q tr qu qu' (if QMGR_QUEUE_THROTTLED qu then queue_timers st ∖ {[q]} else queue_timers st) st st').
Proof.
  intros Hq Ht [K1 K2 K3 K4 K5 K6] [F1 F2 F3 F4 F5 F6 F7] Hw. unfold INT_MAX, MAX_BUSY, QMGR_QUEUE_STAT_THROTTLED in *.
  destruct double_zero_ok as [Z1 Z2].
  unfold qmgr_queue_unthrottle. apply wp_bind, (wp_get_queue _ _ qu); [done|]. apply wp_bind, (wp_get_transport _ _ tr); [done|].
  apply wp_bind, wp_panic_if.
  { unfold QMGR_QUEUE_READY, QMGR_QUEUE_THROTTLED, QMGR_QUEUE_STAT_THROTTLED. lia. }
  rewrite <- (put_queue_id q qu st Hq) at 1. apply wp_bind, wp_upd_here.
  unfold QMGR_QUEUE_THROTTLED, QMGR_QUEUE_STAT_THROTTLED. destruct (Z.eqb_spec (q_window qu) 0) as [Hz|Hz].
  - apply wp_bind, wp_modify. apply wp_bind, wp_panic_if.
    { apply bool_decide_eq_false. intros E. apply F6 in Hz. rewrite E in Hz. by destruct Hz. }
    set (T := queue_timers _ ∖ _). change (queue_timers (put_queue _ _ _)) with (queue_timers st) in T.
    change (set_queue_timers T (put_queue q ?x st)) with (put_queue q x (set_queue_timers T st)).
    do 2 apply wp_bind, wp_upd_here. apply wp_upd_here.
    eexists. split; [|split; [|split; [reflexivity|]]]; [cbn; destruct (Z.gtb_spec (q_busy_refcount qu) 0); lia|cbn; lia|]. split; [|done].
    split; cbn; unfold INT_MAX, MAX_BUSY; [destruct (Z.gtb_spec (q_busy_refcount qu) 0); lia|lia| |done|done| |].
    + intros Hl. destruct (Z.gtb_spec (q_busy_refcount qu) 0); lia.
    + unfold QMGR_QUEUE_STAT_THROTTLED. split; [by intros []|]. destruct (Z.gtb_spec (q_busy_refcount qu) 0); lia.
    + unfold QMGR_QUEUE_STAT_SUSPENDED. destruct (Z.gtb_spec (q_busy_refcount qu) 0); lia.
  - destruct ((t_dest_concurrency_limit tr =? 0) || _) eqn:El; [|apply wp_ret; eexists; split; [|split; [|by split]]; cbn; lia].
    destruct (q_window qu <? _) eqn:Ew; [|apply wp_ret; eexists; split; [|split; [|by split]]; cbn; lia].
    destruct K1 as [Eh Kb]. rewrite Eh. pose proof (feedback_val_small (t_pos_feedback tr) (q_window qu) (conj Eh Kb) ltac:(lia)) as [Ff Bf].
    set (f := QMGR_FEEDBACK_VAL _ _) in *. apply wp_bind, wp_upd_here, wp_bind, wp_get_here. destruct F4 as [Fs Bs].
    pose proof unit1_pos as Hu.
    destruct (double_add_faithful (q_success qu) f Fs Ff) as [Fr Hr]; [unfold large; lia..|].
    destruct (widen_ok f (conj Ff Bf) (set_q_success (double_add (q_success qu) f) (set_q_fail_cohorts (double_of 0) qu))) as (k & s & fl & Ek & Hk & Hs & Hfl);
      [done| |].
    { cbn [q_success set_q_success]. destruct (Hr (double_of 2)) as [H1 _]; [by apply double_int|].
      destruct (Hr (double_of (-1))) as [_ H2]; [by apply double_int|]. rewrite val_int in H1, H2 by done. lia. }
    change (q_success (set_q_fail_cohorts (double_of 0) qu)) with (q_success qu). rewrite Ek. apply wp_bind, wp_ret, wp_bind, wp_upd_here. cbn [q_success q_failure q_window set_q_success set_q_failure set_q_window set_q_fail_cohorts] in *.
    assert (Hfl' : failure_ok fl) by (destruct Hfl as [->| ->]; done).
    destruct ((t_dest_concurrency_limit tr >? 0) && _) eqn:Ec; [apply wp_upd_here|apply wp_ret]; eexists;
      (split; [|split; [|split; [reflexivity|split; [|done]]]]); cbn; try lia; split; cbn; unfold INT_MAX, MAX_BUSY, QMGR_QUEUE_STAT_THROTTLED, QMGR_QUEUE_STAT_SUSPENDED; try done; try lia.
    all: split; [intros E%F6|]; lia.
Qed.

Lemma throttle_queue_wp q qu tr dsn st :
  queues st !! q = Some qu -> transports st !! q_transport qu = Some tr -> transport_ok tr -> queue_fits tr qu ->
  0 < q_window qu ->
  wp (qmgr_queue_throttle q dsn) st (fun _ st' => exists qu', 0 <= q_window qu' <= q_window qu /\
    controlled q tr qu qu' (if QMGR_QUEUE_THROTTLED qu' then queue_timers st ∪ {[q]} else queue_timers st) st st').
Proof.
  intros Hq Ht [K1 K2 K3 K4 K5 K6] [F1 F2 F3 F4 F5 F6 F7] Hw. unfold INT_MAX, MAX_BUSY, QMGR_QUEUE_STAT_THROTTLED in *.
  destruct double_zero_ok as [Z1 Z2].
  assert (Hdsn : q_dsn qu = None).
  { destruct (q_dsn qu); [|done]. assert (q_window qu = 0) by by apply F6. lia. }
  unfold qmgr_queue_throttle. apply wp_bind, (wp_get_queue _ _ qu); [done|]. apply wp_bind, (wp_get_transport _ _ tr); [done|].
  apply wp_bind, wp_panic_if; [unfold QMGR_QUEUE_READY; lia|]. apply wp_bind, wp_panic_if; [by rewrite Hdsn|].
  rewrite <- (put_queue_id q qu st Hq) at 1. apply wp_bind, wp_upd_here. apply wp_bind.
  set (fc := double_add _ _). destruct ((t_fail_cohort_limit tr >? 0) && _).
  - (* the queue is declared dead *)
    apply wp_upd_here, wp_bind, wp_get_here. unfold QMGR_QUEUE_READY, QMGR_QUEUE_STAT_THROTTLED. cbn [q_window set_q_window].
    change (0 >? 0) with false. cbn iota. apply wp_bind, wp_ret, wp_bind, wp_get_here. unfold QMGR_QUEUE_THROTTLED, QMGR_QUEUE_STAT_THROTTLED.
    cbn [q_window set_q_window]. change (0 =? 0) with true. cbn iota.
    apply wp_bind, wp_upd_here. apply wp_bind, wp_modify.
    set (T := queue_timers _ ∪ _). change (queue_timers (put_queue _ _ _)) with (queue_timers st) in T.
    change (set_queue_timers T (put_queue q ?x st)) with (put_queue q x (set_queue_timers T st)). apply wp_upd_here.
    exists (set_q_dflags 0 (set_q_dsn (Some dsn) (set_q_window 0 (set_q_fail_cohorts fc qu)))).
    split; [cbn; lia|]. split; [reflexivity|]. split; [|done].
    split; cbn; unfold INT_MAX, MAX_BUSY, QMGR_QUEUE_STAT_THROTTLED, QMGR_QUEUE_STAT_SUSPENDED; try done; try lia.
  - apply wp_ret, wp_bind, wp_get_here. unfold QMGR_QUEUE_READY. cbn [q_window set_q_fail_cohorts].
    assert (Hr : (q_window qu >? 0) = true) by lia. rewrite Hr. cbn iota.
    destruct K2 as [Eh Kb]. rewrite Eh. pose proof (feedback_val_small (t_neg_feedback tr) (q_window qu) (conj Eh Kb) ltac:(lia)) as [Ff Bf].
    set (f := QMGR_FEEDBACK_VAL _ _) in *. apply wp_bind, wp_bind, wp_upd_here, wp_bind, wp_get_here. destruct F5 as [Fs Bs].
    pose proof unit1_half as Eu. pose proof half1_pos as Hu.
    destruct (double_sub_faithful (q_failure qu) f Fs Ff) as [Fr Hrr]; [unfold large; lia..|].
    destruct (narrow_ok f (conj Ff Bf) (set_q_failure (double_sub (q_failure qu) f) (set_q_fail_cohorts fc qu))) as (k & s & fl & Ek & Hk & Hfl & Hs);
      [done| |].
    { cbn [q_failure set_q_failure]. destruct three_halves_ok as [Ft Vt]. destruct (Hrr _ Ft) as [H1 _].
      destruct (Hrr (double_of (-1))) as [_ H2]; [by apply double_int|]. rewrite Vt in H1. rewrite val_int in H2 by done. lia. }
    change (q_failure (set_q_fail_cohorts fc qu)) with (q_failure qu). rewrite Ek. apply wp_bind, wp_ret, wp_bind, wp_upd_here.
    cbn [q_success q_failure q_window set_q_success set_q_failure set_q_window set_q_fail_cohorts] in *.
    assert (Hs' : success_ok s) by (destruct Hs as [->| ->]; done).
    set (qu1 := set_q_window (if q_window qu - k <? 1 then 1 else q_window qu - k)
      (set_q_failure fl (set_q_success s (set_q_fail_cohorts fc qu)))).
    assert (Hqu1 : wp (if q_window qu - k <? 1 then upd_queue q (set_q_window 1) else mret tt)
      (put_queue q (set_q_failure fl (set_q_success s (set_q_window (q_window qu - k)
        (set_q_failure (double_sub (q_failure qu) f) (set_q_fail_cohorts fc qu))))) st) (fun _ st' => st' = put_queue q qu1 st)).
    { unfold qu1. destruct (q_window qu - k <? 1); [by apply wp_upd_here|by apply wp_ret]. }
    eapply wp_mono; [exact Hqu1|]. intros ? ? ->. apply wp_bind, wp_get_here.
    assert (Hw1 : 1 <= q_window qu1 <= q_window qu) by (unfold qu1; cbn; destruct (Z.ltb_spec (q_window qu - k) 1); lia).
    assert (Hnt : QMGR_QUEUE_THROTTLED qu1 = false) by (unfold QMGR_QUEUE_THROTTLED, QMGR_QUEUE_STAT_THROTTLED; lia).
    rewrite Hnt. apply wp_ret. exists qu1. rewrite Hnt. split; [lia|]. split; [done|]. split; [|done].
    split; [unfold INT_MAX; lia|exact F2| |exact Hs'|exact Hfl| |unfold QMGR_QUEUE_STAT_SUSPENDED; lia].
    + intros Hl. change (q_busy_refcount qu1) with (q_busy_refcount qu). specialize (F3 Hl). lia.
    + change (q_dsn qu1) with (q_dsn qu). rewrite Hdsn. unfold QMGR_QUEUE_STAT_THROTTLED. split; [by intros []|lia].
Qed.

(** ** Properties *)

(** C33: the concurrency feedback of a destination is bounded.  Whatever the configured
    feedback, base values between 0 and 1 are in effect; then the accumulated success and
    failure stay small doubles, the loops that adjust the window end, a success widens the
    window of a ready queue by at most 2, a failure never widens it, and the window stays
    between 1 and the transport's limit unless the queue is throttled. *)
Theorem queue_feedback_bounds q qu tr dsn st :
  queues st !! q = Some qu -> transports st !! q_transport qu = Some tr -> queue_fits tr qu -> 0 < q_window qu ->
  (forall c, conf_ok c -> transport_ok (new_transport c)) /\
  (transport_ok tr ->
   wp (qmgr_queue_unthrottle q) st (fun _ st' => exists qu', st' = put_queue q qu' st /\ queue_fits tr qu' /\
     qstatic qu' = qstatic qu /\ q_window qu <= q_window qu' <= q_window qu + 2) /\
   wp (qmgr_queue_throttle q dsn) st (fun _ st' => exists qu' T, st' = put_queue q qu' (set_queue_timers T st) /\ queue_fits tr qu' /\
     qstatic qu' = qstatic qu /\ 0 <= q_window qu' <= q_window qu)).
Proof.
  intros Hq Ht Hf Hw. split; [apply new_transport_ok|]. intros Hk. split.
  - eapply wp_mono; [apply (unthrottle_queue_wp q qu tr); (done || lia)|]. intros _ st' (qu' & _ & Hw' & -> & Hf' & Hs).
    exists qu'. assert (Hn : QMGR_QUEUE_THROTTLED qu = false) by (unfold QMGR_QUEUE_THROTTLED, QMGR_QUEUE_STAT_THROTTLED; lia).
    rewrite Hn. split; [by destruct st|]. split; [done|]. split; [done|lia].
  - eapply wp_mono; [by apply (throttle_queue_wp q qu tr)|]. intros _ st' (qu' & Hw' & -> & Hf' & Hs). by eexists qu', _.
Qed.

(** A transport with 1/concurrency feedback, and a queue with a window of 2. *)
Definition demo_feedback : scanned := ScanFraction (double_of 1) (str "concurrency") None.
Definition demo_conf : transport_conf := mk_conf 20 5 0 0 5 3 50 3 20000 50 100 5 demo_feedback demo_feedback 1.
Definition demo_queue : QMGR_QUEUE := mk_qmgr_queue 0 0 (str "example.com") 1 2 2 (double_of 0) (double_of 0) (double_of 0) 0 [13%nat] [11%nat; 12%nat] None 0.
Definition demo_queue_state : qmgr :=
  mk_qmgr {[0%nat := new_transport demo_conf]} {[10%nat := demo_queue]} ∅ ∅ ∅ ∅ [0%nat] 20 0 3 1 20000 ∅ ∅ ∅.

Lemma demo_conf_ok : conf_ok demo_conf.
Proof. split; [cbn; unfold INT_MAX; lia|cbn; lia|cbn; lia|by split|by split]. Qed.
Lemma demo_queue_fits : queue_fits (new_transport demo_conf) demo_queue.
Proof.
  destruct double_zero_ok. split; cbn; unfold INT_MAX, MAX_BUSY, QMGR_QUEUE_STAT_THROTTLED, QMGR_QUEUE_STAT_SUSPENDED; try done; try lia.
Qed.

Lemma queue_feedback_bounds_witness :
  wp (qmgr_queue_unthrottle 10) demo_queue_state (fun _ st' => exists qu', st' = put_queue 10 qu' demo_queue_state
    /\ queue_fits (new_transport demo_conf) qu' /\ qstatic qu' = qstatic demo_queue /\ q_window demo_queue <= q_window qu' <= q_window demo_queue + 2).
Proof.
  destruct (queue_feedback_bounds 10 demo_queue (new_transport demo_conf) [] demo_queue_state eq_refl eq_refl demo_queue_fits eq_refl)
    as [_ H]. exact (proj1 (H (new_transport_ok _ demo_conf_ok))).
Defined.

(** Two successes widen the window from 2 to 3; then a failure throttles the queue. *)
Example demo_feedback_run :
  (fun r => match r with Ret (_, st) => (fun qu => (q_window qu, q_dsn qu)) <$> queues st !! 10%nat | _ => None end)
    ((qmgr_queue_unthrottle 10;; qmgr_queue_unthrottle 10) demo_queue_state) = Some (3, None)
  /\ (fun r => match r with Ret (_, st) => (fun qu => (q_window qu, q_dsn qu)) <$> queues st !! 10%nat | _ => None end)
    ((qmgr_queue_throttle 10 (str "4.4.1");; qmgr_queue_throttle 10 (str "4.4.1")) demo_queue_state) = Some (0, Some (str "4.4.1")).
Proof. split; vm_compute; reflexivity. Qed.
