(* ===== verification/QmgrEntry.v ===== *)
(** Peers and queue entries: qmgr_peer.c, qmgr_entry.c and the assignment of recipients
    in qmgr_message.c (src/src/qmgr).

    An entry is a delivery request: it waits on the todo list of its queue and on the
    list of its peer, and moves to the busy list of the queue while it is delivered. *)

From S2P Require Export QmgrQueue.

(** ** Peers *)

Definition qmgr_peer_create (job queue : nat) : M nat :=
  qu ← get_queue queue;
  peer ← alloc;
  modify (put_peer peer (mk_qmgr_peer job queue 0 []));;
  upd_job job (fun jb => set_j_peer_list (j_peer_list jb ++ [peer]) jb);;
  upd_job job (fun jb => set_j_peer_byname (<[q_name qu := peer]> (j_peer_byname jb)) jb);;
  mret peer.

Definition qmgr_peer_free (peer : nat) : M unit :=
  pe ← get_peer peer;
  let job := p_job pe in
  let queue := p_queue pe in
  panic_if (negb (p_refcount pe =? 0));;
  panic_if (negb (bool_decide (p_entry_list pe = [])));;
  upd_job job (fun jb => set_j_peer_list (list_unlink peer (j_peer_list jb)) jb);;
  qu ← get_queue queue;
  jb ← get_job job;
  panic_if (bool_decide (j_peer_byname jb !! q_name qu = None));;
  upd_job job (fun jb => set_j_peer_byname (delete (q_name qu) (j_peer_byname jb)) jb);;
  modify (fun st => set_peers (delete peer (peers st)) st).

Definition qmgr_peer_find (job queue : nat) : M (option nat) :=
  jb ← get_job job;
  qu ← get_queue queue;
  mret (j_peer_byname jb !! q_name qu).

Definition qmgr_peer_obtain (job queue : nat) : M nat :=
  peer ← qmgr_peer_find job queue;
  match peer with
  | Some peer => mret peer
  | None => qmgr_peer_create job queue
  end.

Fixpoint peer_scan (job : nat) (l : list nat) : M (option nat) :=
  match l with
  | [] => mret None
  | peer :: l =>
      pe ← get_peer peer;
      qu ← get_queue (p_queue pe);
      if (q_window qu >? q_busy_refcount qu) && negb (bool_decide (p_entry_list pe = [])) then
        upd_job job (fun jb => set_j_peer_list (list_rotate peer (j_peer_list jb)) jb);;
        mret (Some peer)
      else peer_scan job l
  end.
Definition qmgr_peer_select (job : nat) : M (option nat) :=
  jb ← get_job job;
  peer_scan job (j_peer_list jb).

(** ** Entries *)

Definition DEL_REQ_FLAG_CONN_LOAD : Z := Z.shiftl 1 11.
Definition DEL_REQ_FLAG_CONN_STORE : Z := Z.shiftl 1 12.
Definition DEL_REQ_FLAG_CONN_MASK : Z := Z.lor DEL_REQ_FLAG_CONN_LOAD DEL_REQ_FLAG_CONN_STORE.

(** Session caching flags; [now] is event_time(). *)
Definition BACK_TO_BACK_DELIVERY (now : Z) (qu : QMGR_QUEUE) : bool := q_last_done qu + 1 >=? now.
Definition conn_dflags (now : Z) (qu : QMGR_QUEUE) : Z :=
  if Z.land (q_dflags qu) DEL_REQ_FLAG_CONN_STORE =? 0 then
    if BACK_TO_BACK_DELIVERY now qu then Z.lor (q_dflags qu) DEL_REQ_FLAG_CONN_MASK else q_dflags qu
  else
    if negb ((q_busy_refcount qu >? 1) || BACK_TO_BACK_DELIVERY now qu)
    then Z.land (q_dflags qu) (Z.lnot DEL_REQ_FLAG_CONN_STORE) else q_dflags qu.

Definition qmgr_entry_select (peer : nat) (now : Z) : M (option nat) :=
  pe ← get_peer peer;
  match head (p_entry_list pe) with
  | None => mret None
  | Some entry =>
      en ← get_entry entry;
      let queue := e_queue en in
      upd_queue queue (fun qu => set_q_todo (list_unlink entry (q_todo qu)) qu);;
      upd_queue queue (fun qu => set_q_todo_refcount (q_todo_refcount qu - 1) qu);;
      upd_queue queue (fun qu => set_q_busy (q_busy qu ++ [entry]) qu);;
      upd_queue queue (fun qu => set_q_busy_refcount (q_busy_refcount qu + 1) qu);;
      upd_peer peer (fun pe => set_p_entry_list (list_unlink entry (p_entry_list pe)) pe);;
      upd_job (p_job pe) (fun jb => set_j_selected_entries (j_selected_entries jb + 1) jb);;
      upd_queue queue (fun qu => set_q_dflags (conn_dflags now qu) qu);;
      mret (Some entry)
  end.

Definition qmgr_entry_unselect (entry : nat) : M unit :=
  en ← get_entry entry;
  let peer := e_peer en in
  let queue := e_queue en in
  upd_queue queue (fun qu => set_q_busy (list_unlink entry (q_busy qu)) qu);;
  upd_queue queue (fun qu => set_q_busy_refcount (q_busy_refcount qu - 1) qu);;
  upd_queue queue (fun qu => set_q_todo (q_todo qu ++ [entry]) qu);;
  upd_queue queue (fun qu => set_q_todo_refcount (q_todo_refcount qu + 1) qu);;
  upd_peer peer (fun pe => set_p_entry_list (entry :: p_entry_list pe) pe);;
  pe ← get_peer peer;
  upd_job (p_job pe) (fun jb => set_j_selected_entries (j_selected_entries jb - 1) jb).

(** The warnings about a clogged destination are left out. *)
Definition qmgr_entry_create (peer message : nat) : M nat :=
  pe ← get_peer peer;
  let queue := p_queue pe in
  qu ← get_queue queue;
  panic_if (QMGR_QUEUE_THROTTLED qu);;
  entry ← alloc;
  modify (put_entry entry (mk_qmgr_entry false message [] queue peer));;
  upd_message message (fun msg => set_m_refcount (m_refcount msg + 1) msg);;
  upd_peer peer (fun pe => set_p_entry_list (p_entry_list pe ++ [entry]) pe);;
  upd_peer peer (fun pe => set_p_refcount (p_refcount pe + 1) pe);;
  upd_queue queue (fun qu => set_q_todo (q_todo qu ++ [entry]) qu);;
  upd_queue queue (fun qu => set_q_todo_refcount (q_todo_refcount qu + 1) qu);;
  upd_job (p_job pe) (fun jb => set_j_read_entries (j_read_entries jb + 1) jb);;
  mret entry.

Inductive which_list := QMGR_QUEUE_TODO | QMGR_QUEUE_BUSY.

(** The jobs that get their recipient slots back: [l] is the rest of the message's list. *)
Fixpoint sponsor_loop (message job : nat) (l : list nat) : M unit :=
  match l with
  | [] => mret tt
  | sponsor :: l =>
      sb ← get_job sponsor;
      msg ← get_message message;
      (if (j_rcpt_count sb >=? j_rcpt_limit sb) || bool_decide (sponsor = job) then mret tt
       else if (j_stack_level sb <? 0) || (m_rcpt_offset msg =? 0) then qmgr_job_move_limits sponsor
       else mret tt);;
      sponsor_loop message job l
  end.

(** Take an entry off its lists. *)
Definition entry_unlink (entry : nat) (en : QMGR_ENTRY) (job : nat) (which : which_list) : M unit :=
  let queue := e_queue en in
  match which with
  | QMGR_QUEUE_BUSY =>
      upd_queue queue (fun qu => set_q_busy (list_unlink entry (q_busy qu)) qu);;
      upd_queue queue (fun qu => set_q_busy_refcount (q_busy_refcount qu - 1) qu)
  | QMGR_QUEUE_TODO =>
      upd_peer (e_peer en) (fun pe => set_p_entry_list (list_unlink entry (p_entry_list pe)) pe);;
      upd_job job (fun jb => set_j_selected_entries (j_selected_entries jb + 1) jb);;
      upd_queue queue (fun qu => set_q_todo (list_unlink entry (q_todo qu)) qu);;
      upd_queue queue (fun qu => set_q_todo_refcount (q_todo_refcount qu - 1) qu)
  end.

(** Decrease the recipient counts and free the entry. *)
Definition entry_release (entry : nat) (en : QMGR_ENTRY) (job : nat) : M unit :=
  let len := Z.of_nat (length (e_rcpt_list en)) in
  upd_job job (fun jb => set_j_rcpt_count (j_rcpt_count jb - len) jb);;
  upd_message (e_message en) (fun msg => set_m_rcpt_count (m_rcpt_count msg - len) msg);;
  modify (fun st => set_qmgr_recipient_count (qmgr_recipient_count st - len) st);;
  modify (fun st => set_entries (delete entry (entries st)) st).

Definition is_busy (which : which_list) : bool := match which with QMGR_QUEUE_BUSY => true | QMGR_QUEUE_TODO => false end.

(** A rate-limited queue is suspended after a delivery. *)
Definition entry_rate_delay (queue transport : nat) (which : which_list) : M unit :=
  tr ← get_transport transport;
  if is_busy which && (t_rate_delay tr >? 0) then
    qu ← get_queue queue;
    panic_if (q_window qu >? 1);;
    (if QMGR_QUEUE_THROTTLED qu then qmgr_queue_unthrottle queue else mret tt);;
    qu ← get_queue queue;
    if QMGR_QUEUE_READY qu then qmgr_queue_suspend queue (t_rate_delay tr) else mret tt
  else mret tt.

Definition entry_unblock (queue transport : nat) : M unit :=
  qu ← get_queue queue;
  tr ← get_transport transport;
  if negb (QMGR_QUEUE_SUSPENDED qu) && (q_blocker_tag qu =? t_blocker_tag tr)
  then qmgr_job_blocker_update queue else mret tt.

Definition peer_release (peer : nat) : M unit :=
  upd_peer peer (fun pe => set_p_refcount (p_refcount pe - 1) pe);;
  pe ← get_peer peer;
  if p_refcount pe =? 0 then qmgr_peer_free peer else mret tt.

(** An empty queue is discarded unless it is dead or suspended; a dead one is discarded
    too when there are many. *)
Definition queue_release (queue : nat) : M unit :=
  qu ← get_queue queue;
  if bool_decide (q_todo qu = []) && bool_decide (q_busy qu = []) then
    queue_count ← gets qmgr_queue_count;
    rcpt_limit ← gets var_qmgr_rcpt_limit;
    (if QMGR_QUEUE_THROTTLED qu && (queue_count >? 2 * rcpt_limit) then qmgr_queue_unthrottle queue else mret tt);;
    qu ← get_queue queue;
    if QMGR_QUEUE_READY qu then qmgr_queue_done queue else mret tt
  else mret tt.

(** The result tells whether the message has no more references: then
    qmgr_active_done() is called at the end. *)
Definition qmgr_entry_done (entry : nat) (which : which_list) (now : Z) : M bool :=
  en ← get_entry entry;
  let queue := e_queue en in
  let message := e_message en in
  let peer := e_peer en in
  pe ← get_peer peer;
  let job := p_job pe in
  jb ← get_job job;
  let transport := j_transport jb in
  panic_if (e_stream en);;
  entry_unlink entry en job which;;
  entry_release entry en job;;
  msg ← get_message message;
  sponsor_loop message job (m_job_list msg);;
  (if m_rcpt_offset msg =? 0 then qmgr_job_move_limits job else mret tt);;
  entry_rate_delay queue transport which;;
  entry_unblock queue transport;;
  peer_release peer;;
  (if is_busy which then upd_queue queue (set_q_last_done now) else mret tt);;
  queue_release queue;;
  upd_message message (fun msg => set_m_refcount (m_refcount msg - 1) msg);;
  msg ← get_message message;
  mret (m_refcount msg =? 0).

Definition swap_rcpt_lists (e1 e2 : nat) : M unit :=
  en1 ← get_entry e1;
  en2 ← get_entry e2;
  upd_entry e1 (set_e_rcpt_list (e_rcpt_list en2));;
  upd_entry e2 (set_e_rcpt_list (e_rcpt_list en1)).

Definition qmgr_entry_move_todo (dst_queue entry : nat) (now : Z) : M bool :=
  dqu ← get_queue dst_queue;
  let dst_transport := q_transport dqu in
  en ← get_entry entry;
  let message := e_message en in
  src_pe ← get_peer (e_peer en);
  let src_job := p_job src_pe in
  let rcpt_count := Z.of_nat (length (e_rcpt_list en)) in
  panic_if (e_stream en);;
  panic_if (QMGR_QUEUE_THROTTLED dqu);;
  dtr ← get_transport dst_transport;
  panic_if (QMGR_TRANSPORT_THROTTLED dtr);;
  dst_job ← qmgr_job_obtain message dst_transport;
  dst_peer ← qmgr_peer_obtain dst_job dst_queue;
  new_entry ← qmgr_entry_create dst_peer message;
  swap_rcpt_lists entry new_entry;;
  upd_job src_job (fun jb => set_j_rcpt_count (j_rcpt_count jb - rcpt_count) jb);;
  upd_job dst_job (fun jb => set_j_rcpt_count (j_rcpt_count jb + rcpt_count) jb);;
  qmgr_entry_done entry QMGR_QUEUE_TODO now.

(** ** Assigning recipients *)

Definition LIMIT_OK (limit count : Z) : bool := (limit =? 0) || (count <? limit).

(** Add a recipient to the last entry of a peer, or to a new one. *)
Definition assign_entry (message peer : nat) (single_rcpt : bool) (recipient_limit recipient : Z) : M unit :=
  pe ← get_peer peer;
  reuse ← (match last (p_entry_list pe) with
           | None => mret None
           | Some entry =>
               en ← get_entry entry;
               mret (if single_rcpt || negb (LIMIT_OK recipient_limit (Z.of_nat (length (e_rcpt_list en)))) then None
                     else Some entry)
           end);
  entry ← (match reuse with Some entry => mret entry | None => qmgr_entry_create peer message end);
  upd_entry entry (fun en => set_e_rcpt_list (e_rcpt_list en ++ [recipient]) en);;
  upd_job (p_job pe) (fun jb => set_j_rcpt_count (j_rcpt_count jb + 1) jb);;
  upd_message message (fun msg => set_m_rcpt_count (m_rcpt_count msg + 1) msg);;
  modify (fun st => set_qmgr_recipient_count (qmgr_recipient_count st + 1) st).
