(* ===== verification/QmgrBooks.v ===== *)
(** The books of the delivery requests: which entries, peers, queues, jobs and messages
    belong together, and what their counters count.

    Every clause is stated on the columns of the state that matter to it, such as the
    links of all entries, or the todo and busy lists of all queues.  An operation changes
    few columns, and the scheduling of jobs (QmgrJob.v) changes none. *)

From S2P Require Export QmgrEntry.

(** ** Columns *)

Definition elink (en : QMGR_ENTRY) : QMGR_ENTRY := mk_qmgr_entry false (e_message en) [] (e_queue en) (e_peer en).
Definition eload (en : QMGR_ENTRY) : QMGR_ENTRY := set_e_stream false en.
Definition qlists (qu : QMGR_QUEUE) : list nat * list nat := (q_todo qu, q_busy qu).
Definition qplace (qu : QMGR_QUEUE) : nat * bytes := (q_transport qu, q_name qu).
Definition qcontrol (qu : QMGR_QUEUE) : QMGR_QUEUE :=
  mk_qmgr_queue 0 0 (q_name qu) (q_todo_refcount qu) (q_busy_refcount qu) (q_window qu) (q_success qu) (q_failure qu)
    (double_of 0) (q_transport qu) [] [] (q_dsn qu) 0.
Definition plink (pe : QMGR_PEER) : nat * nat := (p_job pe, p_queue pe).
Definition pload (pe : QMGR_PEER) : nat * list nat := (p_job pe, p_entry_list pe).
Definition jlink (jb : QMGR_JOB) : nat * nat := (j_message jb, j_transport jb).
Definition jpeers (jb : QMGR_JOB) : list nat * gmap bytes nat := (j_peer_list jb, j_peer_byname jb).
Definition jcounts (jb : QMGR_JOB) : Z * Z := (j_read_entries jb - j_selected_entries jb, j_rcpt_count jb).
Definition mcounts (msg : QMGR_MESSAGE) : Z * Z := (m_refcount msg, m_rcpt_count msg).
Definition tcontrol (tr : QMGR_TRANSPORT) : QMGR_TRANSPORT :=
  mk_qmgr_transport 0 0 (t_dest_concurrency_limit tr) (t_init_dest_concurrency tr) 0 0 (t_refill_limit tr) 0 0 0 0 0
    (t_queue_byname tr) (t_queue_list tr) ∅ [] [] None None None None 0 0 None (t_pos_feedback tr) (t_neg_feedback tr) 0 0
    (t_rate_delay tr).

Definition tdead (tr : QMGR_TRANSPORT) : bool * bool := (QMGR_TRANSPORT_THROTTLED tr, bool_decide (is_Some (t_dsn tr))).

(** ** Clauses *)

Definition count_if (b : bool) : Z := if b then 1 else 0.
(** A reference that is about to be dropped still counts. *)
Definition owed (x : nat) (o : option nat) : Z := count_if (bool_decide (o = Some x)).
Definition len (en : QMGR_ENTRY) : Z := Z.of_nat (length (e_rcpt_list en)).
Definition size_of (l : list nat) : Z := Z.of_nat (length l).

Section clauses.
Context (E R : gmap nat QMGR_ENTRY) (L : gmap nat (list nat * list nat)) (N : gmap nat (nat * bytes)) (C : gmap nat QMGR_QUEUE).
Context (PL : gmap nat (nat * nat)) (PW : gmap nat (nat * list nat)) (PR : gmap nat Z).
Context (JL : gmap nat (nat * nat)) (JP : gmap nat (list nat * gmap bytes nat)) (JC : gmap nat (Z * Z)).
Context (MC : gmap nat (Z * Z)) (MJ : gmap nat (list nat)) (T : gmap nat QMGR_TRANSPORT).

(** The queue of an entry has it on its todo list or on its busy list. *)
Definition lists_books : Prop :=
  (forall q l, L !! q = Some l -> NoDup (l.1 ++ l.2) /\
     forall e, e ∈ l.1 ++ l.2 <-> exists en, E !! e = Some en /\ e_queue en = q) /\
  (forall e en, E !! e = Some en -> is_Some (L !! e_queue en)).

Definition queue_counts : Prop := forall q l c, L !! q = Some l -> C !! q = Some c ->
  q_todo_refcount c = size_of l.1 /\ q_busy_refcount c = size_of l.2.

(** The peer of an entry is for the same queue, and lists the entries that wait. *)
Definition entry_peers : Prop := forall e en, E !! e = Some en -> exists pl, PL !! e_peer en = Some pl /\ pl.2 = e_queue en.
Definition peer_lists : Prop := forall p w, PW !! p = Some w -> NoDup w.2 /\
  forall e, e ∈ w.2 <-> exists en l, E !! e = Some en /\ e_peer en = p /\ L !! e_queue en = Some l /\ e ∈ l.1.

(** A peer has entries, except for one that was just created. *)
Definition peer_counts (dp np : option nat) : Prop := forall p n, PR !! p = Some n ->
  n = map_sum (fun en => count_if (bool_decide (e_peer en = p))) E + owed p dp /\ (np <> Some p -> 0 < n).

(** A peer and its job. *)
Definition peer_jobs : Prop :=
  (forall p pl, PL !! p = Some pl -> exists jl jp n, JL !! pl.1 = Some jl /\ JP !! pl.1 = Some jp /\ N !! pl.2 = Some n /\
     n.1 = jl.2 /\ p ∈ jp.1 /\ jp.2 !! n.2 = Some p) /\
  (forall j jp, JP !! j = Some jp -> NoDup jp.1 /\
     (forall p, p ∈ jp.1 -> exists pl, PL !! p = Some pl /\ pl.1 = j) /\
     (forall name p, jp.2 !! name = Some p -> exists pl n, PL !! p = Some pl /\ pl.1 = j /\ N !! pl.2 = Some n /\ n.2 = name)).

Definition entry_jobs : Prop := forall e en pl, E !! e = Some en -> PL !! e_peer en = Some pl ->
  exists jl, JL !! pl.1 = Some jl /\ jl.1 = e_message en.

(** The entries and recipients of a job. *)
Definition job_waiting (j : nat) : Z := map_sum (fun w => if decide (w.1 = j) then size_of w.2 else 0) PW.
Definition job_rcpts (j : nat) : Z := map_sum (fun en => if decide (fst <$> PL !! e_peer en = Some j) then len en else 0) R.
Definition job_books : Prop := forall j c, JC !! j = Some c -> c.1 = job_waiting j /\ c.2 = job_rcpts j.

(** The entries and recipients of a message. *)
Definition message_books (dm : option nat) : Prop :=
  (forall m c, MC !! m = Some c -> c.1 = map_sum (fun en => count_if (bool_decide (e_message en = m))) E + owed m dm) /\
  (forall e en, E !! e = Some en -> is_Some (MC !! e_message en)).
Definition message_rcpts : Prop := forall m c, MC !! m = Some c ->
  c.2 = map_sum (fun en => if decide (e_message en = m) then len en else 0) R.
Definition message_jobs : Prop := forall m l j, MJ !! m = Some l -> j ∈ l -> exists jl, JL !! j = Some jl /\ jl.1 = m.

(** The queues of a transport, by name; the control of a queue, and its timers. *)
Definition transport_queues : Prop :=
  (forall t tr, T !! t = Some tr -> NoDup (t_queue_list tr) /\
     (forall q, q ∈ t_queue_list tr -> exists n, N !! q = Some n /\ n.1 = t) /\
     (forall name q, t_queue_byname tr !! name = Some q -> N !! q = Some (t, name))) /\
  (forall q n, N !! q = Some n -> exists tr, T !! n.1 = Some tr /\ q ∈ t_queue_list tr /\ t_queue_byname tr !! n.2 = Some q).
Definition queue_control (throttled resume : gset nat) : Prop :=
  (forall t tr, T !! t = Some tr -> transport_ok tr) /\
  (forall q c, C !! q = Some c -> exists tr, T !! q_transport c = Some tr /\ queue_fits tr c /\
     (q ∈ throttled <-> q_window c = QMGR_QUEUE_STAT_THROTTLED) /\ (q ∈ resume <-> q_window c = QMGR_QUEUE_STAT_SUSPENDED)) /\
  (forall q, q ∈ throttled \/ q ∈ resume -> is_Some (C !! q)).

Definition totals (recipients queue_count : Z) : Prop :=
  recipients = map_sum len R /\ queue_count = Z.of_nat (size N).
Definition all_fresh (next : nat) : Prop := forall x,
  is_Some (E !! x) \/ is_Some (PL !! x) \/ is_Some (N !! x) -> (x < next)%nat.
End clauses.

(** A waiting entry is not being delivered. *)
Definition streams_ok (E : gmap nat QMGR_ENTRY) (L : gmap nat (list nat * list nat)) : Prop := forall e en l,
  E !! e = Some en -> L !! e_queue en = Some l -> e ∈ l.1 -> e_stream en = false.

(** A transport is throttled for a reason, until a timer expires. *)
Definition throttled_transports (D : gmap nat (bool * bool)) (timers : gset nat) : Prop :=
  (forall t d, D !! t = Some d -> d.2 = d.1 /\ (t ∈ timers <-> d.1 = true)) /\ (forall t, t ∈ timers -> is_Some (D !! t)).

(** A job is found by the queue ID of its message. *)
Definition job_names (JL : gmap nat (nat * nat)) (Q : gmap nat bytes) (B : gmap nat (gmap bytes nat)) : Prop := forall j jl,
  JL !! j = Some jl -> exists id names, Q !! jl.1 = Some id /\ B !! jl.2 = Some names /\ names !! id = Some j.

(** The next recipient record of a message: zero when there is none. *)
Definition offsets_ok (O : gmap nat Z) : Prop := forall m o, O !! m = Some o -> 0 <= o.

Record books (np dp dm : option nat) (st : qmgr) : Prop := mk_books {
  bk_lists : lists_books (elink <$> entries st) (qlists <$> queues st);
  bk_queue_counts : queue_counts (qlists <$> queues st) (qcontrol <$> queues st);
  bk_entry_peers : entry_peers (elink <$> entries st) (plink <$> peers st);
  bk_peer_lists : peer_lists (elink <$> entries st) (qlists <$> queues st) (pload <$> peers st);
  bk_peer_counts : peer_counts (elink <$> entries st) (p_refcount <$> peers st) dp np;
  bk_peer_jobs : peer_jobs (qplace <$> queues st) (plink <$> peers st) (jlink <$> jobs st) (jpeers <$> jobs st);
  bk_entry_jobs : entry_jobs (elink <$> entries st) (plink <$> peers st) (jlink <$> jobs st);
  bk_job_books : job_books (eload <$> entries st) (plink <$> peers st) (pload <$> peers st) (jcounts <$> jobs st);
  bk_message_books : message_books (elink <$> entries st) (mcounts <$> messages st) dm;
  bk_message_rcpts : message_rcpts (eload <$> entries st) (mcounts <$> messages st);
  bk_message_jobs : message_jobs (jlink <$> jobs st) (m_job_list <$> messages st);
  bk_transport_queues : transport_queues (qplace <$> queues st) (tcontrol <$> transports st);
  bk_control : queue_control (qcontrol <$> queues st) (tcontrol <$> transports st) (queue_timers st) (resume_timers st);
  bk_totals : totals (eload <$> entries st) (qplace <$> queues st) (qmgr_recipient_count st) (qmgr_queue_count st);
  bk_fresh : all_fresh (elink <$> entries st) (qplace <$> queues st) (plink <$> peers st) (next_addr st);
  bk_streams : streams_ok (entries st) (qlists <$> queues st);
  bk_throttled : throttled_transports (tdead <$> transports st) (transport_timers st);
  bk_names : job_names (jlink <$> jobs st) (m_queue_id <$> messages st) (t_job_byname <$> transports st);
  bk_offsets : offsets_ok (m_rcpt_offset <$> messages st)
}.

(** ** Sums *)

Lemma count_positive {A} (P : A -> Prop) `{!forall x, Decision (P x)} (m : gmap nat A) :
  0 < map_sum (fun x => count_if (bool_decide (P x))) m -> exists i x, m !! i = Some x /\ P x.
Proof.
  induction m as [|i x m Hi IH] using map_ind; intros Hs; [by rewrite map_sum_empty in Hs|]. rewrite map_sum_insert_new in Hs by done.
  destruct (decide (P x)) as [Hp|Hn]; [exists i, x; by rewrite lookup_insert_eq|].
  rewrite bool_decide_false in Hs by done. destruct IH as (j & y & Hj & Hy); [exact Hs|]. exists j, y. split; [|done].
  rewrite lookup_insert_ne; [done|]. congruence.
Qed.

Lemma count_none {A} (P : A -> Prop) `{!forall x, Decision (P x)} (m : gmap nat A) :
  (forall i x, m !! i = Some x -> ~ P x) -> map_sum (fun x => count_if (bool_decide (P x))) m = 0.
Proof.
  intros Hs. rewrite (map_sum_ext _ (fun _ => 0)); [apply map_sum_zero|].
  intros i x Hx. rewrite bool_decide_false; [done|]. by apply (Hs i).
Qed.

Lemma owed_cases x o : (o = Some x /\ owed x o = 1) \/ (o <> Some x /\ owed x o = 0).
Proof. unfold owed. destruct (decide (o = Some x)); [left; by rewrite bool_decide_true|right; by rewrite bool_decide_false]. Qed.
Lemma owed_none x : owed x None = 0.
Proof. done. Qed.

Lemma size_of_app l1 l2 : size_of (l1 ++ l2) = size_of l1 + size_of l2.
Proof. unfold size_of. rewrite length_app. lia. Qed.
Lemma size_of_perm l1 l2 : l1 ≡ₚ l2 -> size_of l1 = size_of l2.
Proof. unfold size_of. by intros ->. Qed.
Lemma size_of_snoc l x : size_of (l ++ [x]) = size_of l + 1.
Proof. rewrite size_of_app. done. Qed.
Lemma size_of_unlink e l : e ∈ l -> size_of (list_unlink e l) = size_of l - 1.
Proof. intros H. rewrite (size_of_perm l (e :: list_unlink e l)) by (by apply list_unlink_perm). unfold size_of. cbn. lia. Qed.

(** ** The lists of a queue *)

Ltac at_key := rewrite ?lookup_insert_dec; try case_decide; simplify_eq.

Lemma lookup_delete_dec {A} (m : gmap nat A) i j : delete i m !! j = if decide (i = j) then None else m !! j.
Proof. case_decide; [subst; apply lookup_delete_eq|by apply lookup_delete_ne]. Qed.

Section lists.
Context (E : gmap nat QMGR_ENTRY) (L : gmap nat (list nat * list nat)) (H : lists_books E L).

Lemma lists_move q l l' : L !! q = Some l -> l'.1 ++ l'.2 ≡ₚ l.1 ++ l.2 -> lists_books E (<[q := l']> L).
Proof using H.
  intros Hq Hp. destruct H as [H1 H2]. split.
  - intros x lx. rewrite lookup_insert_dec. case_decide; [|apply H1]. intros [= <-]. subst x.
    destruct (H1 _ _ Hq) as [Hnd Hin]. split; [by rewrite Hp|]. intros e. rewrite Hp. apply Hin.
  - intros e en He. rewrite lookup_insert_dec. case_decide; [by eexists|]. by apply (H2 e).
Qed.

Lemma lists_add e en l l' : L !! e_queue en = Some l -> l'.1 ++ l'.2 ≡ₚ e :: l.1 ++ l.2 -> E !! e = None ->
  lists_books (<[e := en]> E) (<[e_queue en := l']> L).
Proof using H.
  intros Hq Hp He. destruct H as [H1 H2]. split.
  - intros x lx. rewrite lookup_insert_dec. case_decide as Hd.
    + intros [= <-]. subst x. destruct (H1 _ _ Hq) as [Hnd Hin]. rewrite Hp. split.
      * apply NoDup_cons. split; [|done]. rewrite Hin. intros (? & ? & _). congruence.
      * intros y. rewrite Hp, elem_of_cons, Hin, lookup_insert_dec. case_decide; [subst y|]; naive_solver.
    + intros Hx. destruct (H1 _ _ Hx) as [Hnd Hin]. split; [done|]. intros y. rewrite Hin, lookup_insert_dec.
      case_decide; [subst y|done]. split; intros (? & ? & ?); congruence.
  - intros x xn. rewrite !lookup_insert_dec. case_decide; [intros [= <-]; by rewrite decide_True|]. intros Hx.
    case_decide; [by eexists|]. by apply (H2 x).
Qed.

Lemma lists_drop e en l l' : E !! e = Some en -> L !! e_queue en = Some l -> l.1 ++ l.2 ≡ₚ e :: l'.1 ++ l'.2 ->
  lists_books (delete e E) (<[e_queue en := l']> L).
Proof using H.
  intros He Hq Hp. destruct H as [H1 H2]. split.
  - intros x lx. rewrite lookup_insert_dec. case_decide as Hd.
    + intros [= <-]. subst x. destruct (H1 _ _ Hq) as [Hnd Hin]. rewrite Hp in Hnd. apply NoDup_cons in Hnd as [Hn Hnd].
      split; [done|]. intros y. rewrite lookup_delete_dec. specialize (Hin y). rewrite Hp, elem_of_cons in Hin.
      case_decide; [subst y; naive_solver|]. naive_solver.
    + intros Hx. destruct (H1 _ _ Hx) as [Hnd Hin]. split; [done|]. intros y. rewrite Hin, lookup_delete_dec.
      case_decide; [subst y|done]. split; [|naive_solver]. intros (? & ? & ?). congruence.
  - intros x xn. rewrite lookup_delete_dec. case_decide; [done|]. intros Hx. rewrite lookup_insert_dec.
    case_decide; [by eexists|]. by apply (H2 x).
Qed.

Lemma lists_new q : L !! q = None -> lists_books E (<[q := ([], [])]> L).
Proof using H.
  intros Hq. destruct H as [H1 H2]. split.
  - intros x lx. rewrite lookup_insert_dec. case_decide; [|apply H1]. intros [= <-]. subst x. split; [constructor|].
    intros e. split; [by intros ?%not_elem_of_nil|]. intros (en & He & Eq). destruct (H2 _ _ He). congruence.
  - intros e en He. rewrite lookup_insert_dec. case_decide; [by eexists|]. by apply (H2 e).
Qed.

Lemma lists_gone q : L !! q = Some ([], []) -> lists_books E (delete q L).
Proof using H.
  intros Hq. destruct H as [H1 H2]. split.
  - intros x lx. rewrite lookup_delete_dec. case_decide; [done|apply H1].
  - intros e en He. rewrite lookup_delete_dec. case_decide; [|by apply (H2 e)]. subst q. exfalso.
    destruct (H1 _ _ Hq) as [_ Hin]. apply (not_elem_of_nil (A := nat) e), Hin. by exists en.
Qed.

(** A queue whose lists are empty has no entry. *)
Lemma lists_empty q e en : L !! q = Some ([], []) -> E !! e = Some en -> e_queue en <> q.
Proof using H. intros Hq He Eq. destruct H as [H1 _]. apply (not_elem_of_nil (A := nat) e), (proj2 (H1 _ _ Hq)). by exists en. Qed.
End lists.

(** ** The lists of a peer *)

(** Entry [e] waits for peer [p]. *)
Definition waits (E : gmap nat QMGR_ENTRY) (L : gmap nat (list nat * list nat)) (e p : nat) : Prop :=
  exists en l, E !! e = Some en /\ e_peer en = p /\ L !! e_queue en = Some l /\ e ∈ l.1.

(** Entry [e] of peer [p] comes to wait, or waits no longer. *)
Lemma peer_lists_change E E' L L' PW e p j l l' : peer_lists E L PW -> PW !! p = Some (j, l) ->
  (forall x y, x <> e -> waits E' L' x y <-> waits E L x y) ->
  (forall y, y <> p -> ~ waits E L e y /\ ~ waits E' L' e y) ->
  NoDup l' -> (forall x, x <> e -> x ∈ l' <-> x ∈ l) -> (e ∈ l' <-> waits E' L' e p) ->
  peer_lists E' L' (<[p := (j, l')]> PW).
Proof.
  intros H Hp Hsame Hother Hnd Hl He y w. rewrite lookup_insert_dec. case_decide as Hd.
  - intros [= <-]. subst y. split; [done|]. intros x. cbn [snd]. destruct (decide (x = e)) as [->|Hx]; [exact He|].
    rewrite Hl by done. rewrite (proj2 (H _ _ Hp)). symmetry. by apply Hsame.
  - intros Hy. destruct (H _ _ Hy) as [Hnw Hin]. split; [done|]. intros x. rewrite Hin. fold (waits E L x y). fold (waits E' L' x y).
    destruct (decide (x = e)) as [->|Hx]; [|symmetry; by apply Hsame]. by destruct (Hother y).
Qed.

Lemma peer_lists_ext E E' L L' PW : peer_lists E L PW -> (forall x y, waits E' L' x y <-> waits E L x y) -> peer_lists E' L' PW.
Proof. intros H Hs y w Hy. destruct (H _ _ Hy) as [Hn Hin]. split; [done|]. intros x. rewrite Hin. symmetry. apply Hs. Qed.

(** The queue's lists change at [e] only. *)
Lemma waits_move E L q l l' e x y : L !! q = Some l -> (forall z, z <> e -> z ∈ l'.1 <-> z ∈ l.1) -> x <> e ->
  waits E (<[q := l']> L) x y <-> waits E L x y.
Proof.
  intros Hq Hl Hx. unfold waits. split; intros (en & lx & He & Ep & HL & Hin).
  - rewrite lookup_insert_dec in HL. case_decide; [|by exists en, lx]. injection HL as <-. subst q. exists en, l.
    split; [done|]. split; [done|]. split; [done|]. by apply Hl.
  - destruct (decide (q = e_queue en)) as [Hd|Hd].
    + exists en, l'. rewrite lookup_insert_dec, decide_True by done. subst q. assert (lx = l) as -> by congruence.
      split; [done|]. split; [done|]. split; [done|]. by apply Hl.
    + exists en, lx. by rewrite lookup_insert_ne.
Qed.
Lemma waits_insert E L e en x y : x <> e -> waits (<[e := en]> E) L x y <-> waits E L x y.
Proof. intros Hx. unfold waits. by setoid_rewrite lookup_insert_ne; [|congruence]. Qed.
Lemma waits_delete E L e x y : x <> e -> waits (delete e E) L x y <-> waits E L x y.
Proof. intros Hx. unfold waits. by setoid_rewrite lookup_delete_ne; [|congruence]. Qed.
Lemma waits_peer E L e en y : E !! e = Some en -> waits E L e y -> y = e_peer en.
Proof. intros He (en' & ? & ? & ? & _). congruence. Qed.

(** ** Reference counts *)

Lemma count_insert (P : QMGR_ENTRY -> Prop) `{!forall x, Decision (P x)} (E : gmap nat QMGR_ENTRY) e en : E !! e = None ->
  map_sum (fun x => count_if (bool_decide (P x))) (<[e := en]> E)
  = map_sum (fun x => count_if (bool_decide (P x))) E + count_if (bool_decide (P en)).
Proof. intros He. rewrite map_sum_insert_new by done. lia. Qed.

Lemma count_delete (P : QMGR_ENTRY -> Prop) `{!forall x, Decision (P x)} (E : gmap nat QMGR_ENTRY) e en : E !! e = Some en ->
  map_sum (fun x => count_if (bool_decide (P x))) (delete e E)
  = map_sum (fun x => count_if (bool_decide (P x))) E - count_if (bool_decide (P en)).
Proof. intros He. by rewrite (map_sum_delete _ _ _ _ He). Qed.

Lemma count_if_dec (P : Prop) `{Decision P} : count_if (bool_decide P) = if decide P then 1 else 0.
Proof. unfold count_if. destruct (decide P); [by rewrite bool_decide_true|by rewrite bool_decide_false]. Qed.

Section peer_counts.
Context (E : gmap nat QMGR_ENTRY) (PR : gmap nat Z) (dp np : option nat) (H : peer_counts E PR dp np).

Lemma peer_counts_add e en n n' : E !! e = None -> PR !! e_peer en = Some n -> n' = n + 1 -> 0 <= n ->
  np = None \/ np = Some (e_peer en) -> peer_counts (<[e := en]> E) (<[e_peer en := n']> PR) dp None.
Proof using H.
  intros He Hp -> H0 Hnp p m. rewrite count_insert, count_if_dec, lookup_insert_dec by done. case_decide as Hd.
  - intros [= <-]. subst p. destruct (H _ _ Hp). lia.
  - intros Hm. destruct (H _ _ Hm) as [Hm1 Hm2]. split; [lia|]. intros _. apply Hm2.
    destruct Hnp as [->| ->]; congruence.
Qed.

Lemma peer_counts_drop e en : E !! e = Some en -> dp = None -> peer_counts (delete e E) PR (Some (e_peer en)) np.
Proof using H.
  intros He Hdp p m Hm. destruct (H _ _ Hm) as [Hm1 Hm2]. split; [|done]. rewrite Hm1, Hdp, (count_delete _ _ e en), count_if_dec by done.
  rewrite owed_none. destruct (owed_cases p (Some (e_peer en))) as [[Ep ->]|[Ep ->]]; [rewrite decide_True by congruence|rewrite decide_False by congruence]; lia.
Qed.

Lemma peer_counts_dec p n n' : PR !! p = Some n -> n' = n - 1 -> dp = Some p -> np = None ->
  forall np', np' = Some p \/ (np' = None /\ n' <> 0) -> peer_counts E (<[p := n']> PR) None np'.
Proof using H.
  intros Hp -> -> -> np' Hnp q m. rewrite lookup_insert_dec. case_decide as Hd.
  - intros [= <-]. subst q. destruct (H _ _ Hp) as [Hm1 Hm2].
    destruct (owed_cases p (Some p)) as [[_ E1]|[? _]]; [|done]. rewrite E1 in Hm1. rewrite owed_none. specialize (Hm2 ltac:(done)).
    split; [lia|]. destruct Hnp as [->|[-> ?]]; [done|lia].
  - intros Hm. destruct (H _ _ Hm) as [Hm1 Hm2]. destruct (owed_cases q (Some p)) as [[? _]|[_ E1]]; [congruence|]. rewrite E1 in Hm1.
    rewrite owed_none. split; [done|]. intros _. by apply Hm2.
Qed.

Lemma peer_counts_free p : np = Some p -> peer_counts E (delete p PR) dp None.
Proof using H.
  intros -> q m. rewrite lookup_delete_dec. case_decide; [done|]. intros Hm. destruct (H _ _ Hm) as [Hm1 Hm2].
  split; [done|]. intros _. apply Hm2. congruence.
Qed.

Lemma peer_counts_create p : (forall e en, E !! e = Some en -> e_peer en <> p) -> np = None -> dp = None ->
  peer_counts E (<[p := 0]> PR) None (Some p).
Proof using H.
  intros Hno -> -> q m. rewrite lookup_insert_dec. case_decide as Hd.
  - intros [= <-]. subst q. split; [|done]. by rewrite count_none.
  - intros Hm. destruct (H _ _ Hm) as [Hm1 Hm2]. split; [done|]. intros _. by apply Hm2.
Qed.

(** The last reference of a peer. *)
Lemma peer_unused p : PR !! p = Some 0 -> forall e en, E !! e = Some en -> e_peer en <> p.
Proof using H.
  intros Hp e en He Ep. destruct (H _ _ Hp) as [H0 _].
  pose proof (map_sum_ge_in (fun en => count_if (bool_decide (e_peer en = p))) E e en) as Hge. cbn beta in Hge.
  rewrite count_if_dec, decide_True in Hge by done. destruct (owed_cases p dp) as [[_ E1]|[_ E1]]; rewrite E1 in H0;
    (assert (1 <= 0); [|lia]); (etrans; [apply Hge; [|done]|lia]); intros ? x _; rewrite count_if_dec; case_decide; lia.
Qed.

(** A peer without debts has an entry. *)
Lemma peer_in_use p n : PR !! p = Some n -> np = None -> dp = None -> exists e en, E !! e = Some en /\ e_peer en = p.
Proof using H.
  intros Hp -> ->. destruct (H _ _ Hp) as [Hn Hpos]. rewrite owed_none in Hn. specialize (Hpos ltac:(done)).
  apply (count_positive (fun en => e_peer en = p) E). lia.
Qed.
End peer_counts.

Section message_counts.
Context (E : gmap nat QMGR_ENTRY) (MC : gmap nat (Z * Z)) (dm : option nat) (H : message_books E MC dm).

Lemma message_books_add e en c c' : E !! e = None -> MC !! e_message en = Some c -> c'.1 = c.1 + 1 ->
  message_books (<[e := en]> E) (<[e_message en := c']> MC) dm.
Proof using H.
  intros He Hm Hc. destruct H as [H1 H2]. split.
  - intros m x. rewrite count_insert, count_if_dec, lookup_insert_dec by done. case_decide as Hd.
    + intros [= <-]. subst m. specialize (H1 _ _ Hm). lia.
    + intros Hx. specialize (H1 _ _ Hx). lia.
  - intros x xn. rewrite !lookup_insert_dec. case_decide; [intros [= <-]; by rewrite decide_True|]. intros Hx.
    case_decide; [by eexists|]. by apply (H2 x).
Qed.

(** A change that keeps the reference counts. *)
Lemma message_books_keep m c c' : MC !! m = Some c -> c'.1 = c.1 -> message_books E (<[m := c']> MC) dm.
Proof using H.
  intros Hm Hc. destruct H as [H1 H2]. split.
  - intros x y. rewrite lookup_insert_dec. case_decide; [|apply H1]. intros [= <-]. subst x. rewrite Hc. by apply H1.
  - intros e en He. rewrite lookup_insert_dec. case_decide; [by eexists|]. by apply (H2 e).
Qed.

Lemma message_books_drop e en : E !! e = Some en -> dm = None -> message_books (delete e E) MC (Some (e_message en)).
Proof using H.
  intros He Hdm. destruct H as [H1 H2]. split.
  - intros m c Hm. rewrite (H1 _ _ Hm), Hdm, (count_delete _ _ e en), count_if_dec by done. rewrite owed_none.
    destruct (owed_cases m (Some (e_message en))) as [[Ep ->]|[Ep ->]]; [rewrite decide_True by congruence|rewrite decide_False by congruence]; lia.
  - intros x xn. rewrite lookup_delete_dec. case_decide; [done|]. apply H2.
Qed.

Lemma message_books_dec m c c' : MC !! m = Some c -> c'.1 = c.1 - 1 -> dm = Some m -> message_books E (<[m := c']> MC) None.
Proof using H.
  intros Hm Hc ->. destruct H as [H1 H2]. split.
  - intros x y. rewrite lookup_insert_dec. case_decide as Hd.
    + intros [= <-]. subst x. specialize (H1 _ _ Hm). destruct (owed_cases m (Some m)) as [[_ E1]|[? _]]; [|done]. rewrite owed_none. lia.
    + intros Hy. specialize (H1 _ _ Hy). destruct (owed_cases x (Some m)) as [[? _]|[_ E1]]; [congruence|]. rewrite owed_none. lia.
  - intros e en He. rewrite lookup_insert_dec. case_decide; [by eexists|]. by apply (H2 e).
Qed.
End message_counts.

(** ** Peers and jobs *)

Lemma entry_peers_add E PL e en pl : entry_peers E PL -> PL !! e_peer en = Some pl -> pl.2 = e_queue en -> entry_peers (<[e := en]> E) PL.
Proof. intros H Hp Eq x xn. rewrite lookup_insert_dec. case_decide; [|apply H]. intros [= <-]. by exists pl. Qed.
Lemma entry_peers_drop E PL e : entry_peers E PL -> entry_peers (delete e E) PL.
Proof. intros H x xn. rewrite lookup_delete_dec. case_decide; [done|]. apply H. Qed.
Lemma entry_peers_create E PL p pl : entry_peers E PL -> PL !! p = None -> entry_peers E (<[p := pl]> PL).
Proof. intros H Hp e en He. destruct (H _ _ He) as (x & Hx & Eq). exists x. rewrite lookup_insert_ne; [done|]. intros ->. congruence. Qed.
Lemma entry_peers_free E PL p : entry_peers E PL -> (forall e en, E !! e = Some en -> e_peer en <> p) -> entry_peers E (delete p PL).
Proof. intros H Hno e en He. destruct (H _ _ He) as (x & Hx & Eq). exists x. rewrite lookup_delete_ne; [done|]. intros ->. by apply (Hno e en). Qed.

Lemma entry_jobs_add E PL JL e en pl jl : entry_jobs E PL JL -> PL !! e_peer en = Some pl -> JL !! pl.1 = Some jl -> jl.1 = e_message en ->
  entry_jobs (<[e := en]> E) PL JL.
Proof.
  intros H Hp Hj Em x xn y. rewrite lookup_insert_dec. case_decide; [|apply H]. intros [= <-] Hy. exists jl.
  assert (y = pl) as -> by congruence. done.
Qed.
Lemma entry_jobs_drop E PL JL e : entry_jobs E PL JL -> entry_jobs (delete e E) PL JL.
Proof. intros H x xn y. rewrite lookup_delete_dec. case_decide; [done|]. apply H. Qed.
Lemma entry_jobs_create E PL JL p pl : entry_jobs E PL JL -> entry_peers E PL -> PL !! p = None -> entry_jobs E (<[p := pl]> PL) JL.
Proof.
  intros H Hep Hp e en x He. destruct (Hep _ _ He) as (y & Hy & _). rewrite lookup_insert_ne by (intros ->; congruence). by apply (H e).
Qed.
Lemma entry_jobs_free E PL JL p : entry_jobs E PL JL -> entry_jobs E (delete p PL) JL.
Proof. intros H e en x He. rewrite lookup_delete_dec. case_decide; [done|]. by apply (H e). Qed.
Lemma entry_jobs_new E PL JL j jl : entry_jobs E PL JL -> JL !! j = None -> entry_jobs E PL (<[j := jl]> JL).
Proof. intros H Hj e en x He Hx. destruct (H _ _ _ He Hx) as (y & Hy & Em). exists y. rewrite lookup_insert_ne; [done|]. intros ->. congruence. Qed.

Section peer_jobs.
Context (N : gmap nat (nat * bytes)) (PL : gmap nat (nat * nat)) (JL : gmap nat (nat * nat)) (JP : gmap nat (list nat * gmap bytes nat)).
Context (H : peer_jobs N PL JL JP).

Lemma peer_jobs_create p j q jl jp n : PL !! p = None -> JL !! j = Some jl -> JP !! j = Some jp -> N !! q = Some n -> n.1 = jl.2 ->
  jp.2 !! n.2 = None -> peer_jobs N (<[p := (j, q)]> PL) JL (<[j := (jp.1 ++ [p], <[n.2 := p]> jp.2)]> JP).
Proof using H.
  intros Hp Hj Hjp Hn Et Hname. destruct H as [H1 H2]. destruct (H2 _ _ Hjp) as (Hnd & Hl & Hb). split.
  - intros x xl. rewrite lookup_insert_dec. case_decide as Hd.
    + intros [= <-]. subst x. exists jl, (jp.1 ++ [p], <[n.2 := p]> jp.2), n. cbn. rewrite !lookup_insert_eq.
      do 4 (split; [done|]). split; [|done]. apply elem_of_app. right. by left.
    + intros Hx. destruct (H1 _ _ Hx) as (al & ap & an & A1 & A2 & A3 & A4 & A5 & A6). rewrite lookup_insert_dec. case_decide as Hjx.
      * exists al, (jp.1 ++ [p], <[n.2 := p]> jp.2), an. assert (ap = jp) as -> by congruence. cbn.
        do 4 (split; [done|]). split; [apply elem_of_app; by left|]. rewrite lookup_insert_ne; [done|]. congruence.
      * by exists al, ap, an.
  - intros i ip. rewrite lookup_insert_dec. case_decide as Hd.
    + intros [= <-]. subst i. cbn. split; [|split].
      * apply NoDup_app. split; [done|]. split; [|apply NoDup_singleton]. intros x Hx ->%list_elem_of_singleton.
        destruct (Hl _ Hx) as (? & ? & _). congruence.
      * intros x [Hx| ->%list_elem_of_singleton]%elem_of_app; [|exists (j, q); by rewrite lookup_insert_eq].
        destruct (Hl _ Hx) as (xl & Hxl & Ex). exists xl. rewrite lookup_insert_ne; [done|]. congruence.
      * intros name x. rewrite lookup_insert_Some. intros [[<- <-]|[Hn' Hx]]; [exists (j, q), n; by rewrite lookup_insert_eq|].
        destruct (Hb _ _ Hx) as (xl & xn & Hxl & Hx'). exists xl, xn. rewrite lookup_insert_ne; [done|]. congruence.
    + intros Hi. destruct (H2 _ _ Hi) as (Hnd' & Hl' & Hb'). split; [done|]. split.
      * intros x Hx. destruct (Hl' _ Hx) as (xl & Hxl & Ex). exists xl. rewrite lookup_insert_ne; [done|]. congruence.
      * intros name x Hx. destruct (Hb' _ _ Hx) as (xl & xn & Hxl & Hx'). exists xl, xn. rewrite lookup_insert_ne; [done|]. congruence.
Qed.

Lemma peer_jobs_free p j q jp n : PL !! p = Some (j, q) -> JP !! j = Some jp -> N !! q = Some n ->
  peer_jobs N (delete p PL) JL (<[j := (list_unlink p jp.1, delete n.2 jp.2)]> JP).
Proof using H.
  intros Hp Hjp Hn. destruct H as [H1 H2]. destruct (H2 _ _ Hjp) as (Hnd & Hl & Hb).
  destruct (H1 _ _ Hp) as (jl & jp' & n' & B1 & B2 & B3 & B4 & B5 & B6). cbn in B1, B2, B3.
  assert (jp' = jp) as -> by congruence. assert (n' = n) as -> by congruence. split.
  - intros x xl. rewrite lookup_delete_dec. case_decide as Hd; [done|]. intros Hx.
    destruct (H1 _ _ Hx) as (al & ap & an & A1 & A2 & A3 & A4 & A5 & A6). rewrite lookup_insert_dec. case_decide as Hjx; [|by exists al, ap, an].
    assert (ap = jp) as -> by congruence. exists al, (list_unlink p jp.1, delete n.2 jp.2), an. cbn.
    do 4 (split; [done|]). split; [by apply list_unlink_elem|]. rewrite lookup_delete_ne; [done|]. congruence.
  - intros i ip. rewrite lookup_insert_dec. case_decide as Hd.
    + intros [= <-]. subst i. cbn. split; [by apply list_unlink_nodup|]. split.
      * intros x [Hx Hne]%list_unlink_elem; [|done]. rewrite lookup_delete_ne by done. by apply Hl.
      * intros name x. rewrite lookup_delete_Some. intros [Hne Hx]. destruct (Hb _ _ Hx) as (xl & xn & Hxl & Ej & Hx' & En).
        exists xl, xn. rewrite lookup_delete_ne; [done|]. intros <-. assert (Exl : xl = (j, q)) by congruence. rewrite Exl in Hx'. cbn in Hx'. congruence.
    + intros Hi. destruct (H2 _ _ Hi) as (Hnd' & Hl' & Hb'). split; [done|]. split.
      * intros x Hx. destruct (Hl' _ Hx) as (xl & Hxl & Ex). exists xl. rewrite lookup_delete_ne; [done|]. intros <-.
        rewrite Hp in Hxl. injection Hxl as <-. exact (Hd Ex).
      * intros name x Hx. destruct (Hb' _ _ Hx) as (xl & xn & Hxl & Ej & Hx'). exists xl, xn. rewrite lookup_delete_ne; [done|]. intros <-.
        rewrite Hp in Hxl. injection Hxl as <-. exact (Hd Ej).
Qed.

Lemma peer_jobs_new_queue q n : N !! q = None -> peer_jobs (<[q := n]> N) PL JL JP.
Proof using H.
  intros Hq. destruct H as [H1 H2]. assert (Hk : forall x y, N !! x = Some y -> <[q := n]> N !! x = Some y).
  { intros x y Hx. rewrite lookup_insert_ne; [done|]. congruence. }
  split.
  - intros p pl Hp. destruct (H1 _ _ Hp) as (jl & jp & m & A1 & A2 & A3 & A4). exists jl, jp, m. auto.
  - intros j jp Hj. destruct (H2 _ _ Hj) as (A1 & A2 & A3). split; [done|]. split; [done|].
    intros name p Hp. destruct (A3 _ _ Hp) as (pl & m & B1 & B2 & B3 & B4). exists pl, m. auto.
Qed.

Lemma peer_jobs_gone_queue q : (forall p pl, PL !! p = Some pl -> pl.2 <> q) -> peer_jobs (delete q N) PL JL JP.
Proof using H.
  intros Hno. destruct H as [H1 H2]. split.
  - intros p pl Hp. destruct (H1 _ _ Hp) as (jl & jp & m & A1 & A2 & A3 & A4). exists jl, jp, m.
    rewrite lookup_delete_ne; [done|]. intros ->. by apply (Hno p pl).
  - intros j jp Hj. destruct (H2 _ _ Hj) as (A1 & A2 & A3). split; [done|]. split; [done|].
    intros name p Hp. destruct (A3 _ _ Hp) as (pl & m & B1 & B2 & B3 & B4). exists pl, m.
    rewrite lookup_delete_ne; [done|]. intros ->. by apply (Hno p pl).
Qed.

Lemma peer_jobs_new_job j jl : JL !! j = None -> peer_jobs N PL (<[j := jl]> JL) (<[j := ([], ∅)]> JP).
Proof using H.
  intros Hj. destruct H as [H1 H2]. split.
  - intros p pl Hp. destruct (H1 _ _ Hp) as (al & ap & m & A1 & A2 & A3). exists al, ap, m.
    assert (j <> pl.1) by (intros Ej; rewrite Ej in Hj; congruence). by rewrite !lookup_insert_ne by done.
  - intros i ip. rewrite lookup_insert_dec. case_decide; [|apply H2]. intros [= <-]. split; [constructor|]. split.
    + by intros x ?%not_elem_of_nil.
    + intros name p. cbn. by rewrite lookup_empty.
Qed.
End peer_jobs.

Lemma message_jobs_new JL MJ j m l jl : message_jobs JL MJ -> JL !! j = None -> MJ !! m = Some l -> jl.1 = m ->
  message_jobs (<[j := jl]> JL) (<[m := l ++ [j]]> MJ).
Proof.
  intros H Hj Hm Em x lx y. rewrite (lookup_insert_dec MJ). case_decide as Hd.
  - intros [= <-] [Hy| ->%list_elem_of_singleton]%elem_of_app; [|exists jl; rewrite lookup_insert_eq; naive_solver].
    subst x. destruct (H _ _ _ Hm Hy) as (yl & Hyl & Ey). exists yl. rewrite lookup_insert_ne; [done|]. congruence.
  - intros Hx Hy. destruct (H _ _ _ Hx Hy) as (yl & Hyl & Ey). exists yl. rewrite lookup_insert_ne; [done|]. congruence.
Qed.

(** ** Entries and recipients of a job *)

Section loads.
Context (P : QMGR_ENTRY -> Prop) `{!forall x, Decision (P x)} (R : gmap nat QMGR_ENTRY) (e : nat).
Let load (m : gmap nat QMGR_ENTRY) : Z := map_sum (fun en => if decide (P en) then len en else 0) m.

Lemma load_add en : R !! e = None -> len en = 0 -> load (<[e := en]> R) = load R.
Proof. intros He Hl. unfold load. rewrite map_sum_insert_new by done. case_decide; lia. Qed.
Lemma load_drop en : R !! e = Some en -> load (delete e R) = load R - (if decide (P en) then len en else 0).
Proof. intros He. unfold load. by rewrite (map_sum_delete _ _ _ _ He). Qed.
Lemma load_more en en' d : R !! e = Some en -> (P en' <-> P en) -> len en' = len en + d ->
  load (<[e := en']> R) = load R + (if decide (P en) then d else 0).
Proof.
  intros He Hp Hl. unfold load. rewrite (map_sum_insert _ _ _ _ _ He). destruct (decide (P en)) as [H1|H1].
  - rewrite decide_True by by apply Hp. lia.
  - rewrite decide_False by (intros H2; apply H1, Hp, H2). lia.
Qed.
End loads.

Section job_books.
Context (R : gmap nat QMGR_ENTRY) (PL : gmap nat (nat * nat)) (PW : gmap nat (nat * list nat)) (JC : gmap nat (Z * Z)).
Context (H : job_books R PL PW JC).

Lemma job_books_change R' p j l l' c c' d : JC !! j = Some c -> PW !! p = Some (j, l) ->
  (forall i, job_rcpts R' PL i = job_rcpts R PL i + if decide (j = i) then d else 0) ->
  c'.1 = c.1 + size_of l' - size_of l -> c'.2 = c.2 + d ->
  job_books R' PL (<[p := (j, l')]> PW) (<[j := c']> JC).
Proof using H.
  intros Hj Hp Hr E1 E2 i ci. rewrite Hr. unfold job_waiting. rewrite (map_sum_insert _ _ _ _ _ Hp), lookup_insert_dec. cbn [fst snd].
  fold (job_waiting PW i). case_decide as Hd.
  - intros [= <-]. subst i. destruct (H _ _ Hj). lia.
  - intros Hi. destruct (H _ _ Hi). lia.
Qed.

(** Recipients come or go. *)
Lemma job_books_load R' j c c' d : JC !! j = Some c ->
  (forall i, job_rcpts R' PL i = job_rcpts R PL i + if decide (j = i) then d else 0) ->
  c'.1 = c.1 -> c'.2 = c.2 + d -> job_books R' PL PW (<[j := c']> JC).
Proof using H.
  intros Hj Hr E1 E2 i ci. rewrite Hr, lookup_insert_dec. case_decide as Hd.
  - intros [= <-]. subst i. destruct (H _ _ Hj). lia.
  - intros Hi. destruct (H _ _ Hi). lia.
Qed.

Lemma job_books_create p j q : PL !! p = None -> PW !! p = None -> (forall e en, R !! e = Some en -> e_peer en <> p) ->
  job_books R (<[p := (j, q)]> PL) (<[p := (j, [])]> PW) JC.
Proof using H.
  intros Hp Hw Hno i ci Hi. destruct (H _ _ Hi) as [E1 E2]. rewrite E1, E2. unfold job_waiting, job_rcpts. split.
  - rewrite map_sum_insert_new by done. cbn [fst snd]. case_decide; done.
  - apply map_sum_ext. intros e en He. rewrite lookup_insert_ne; [done|]. intros ->. by apply (Hno e en).
Qed.

Lemma job_books_free p j : PW !! p = Some (j, []) -> (forall e en, R !! e = Some en -> e_peer en <> p) ->
  job_books R (delete p PL) (delete p PW) JC.
Proof using H.
  intros Hw Hno i ci Hi. destruct (H _ _ Hi) as [E1 E2]. rewrite E1, E2. unfold job_waiting, job_rcpts. split.
  - rewrite (map_sum_delete _ _ _ _ Hw). cbn [fst snd]. change (size_of []) with 0. case_decide; lia.
  - apply map_sum_ext. intros e en He. rewrite lookup_delete_ne; [done|]. intros ->. by apply (Hno e en).
Qed.

Lemma job_books_new_job j : (forall p w, PW !! p = Some w -> w.1 <> j) -> (forall p pl, PL !! p = Some pl -> pl.1 <> j) ->
  job_books R PL PW (<[j := (0, 0)]> JC).
Proof using H.
  intros Hno Hno' i ci. rewrite lookup_insert_dec. case_decide; [|apply H]. intros [= <-]. subst i. unfold job_waiting, job_rcpts.
  split; symmetry.
  - rewrite (map_sum_ext _ (fun _ => 0)); [apply map_sum_zero|]. intros p w Hp. rewrite decide_False; [done|]. by apply (Hno p).
  - rewrite (map_sum_ext _ (fun _ => 0)); [apply map_sum_zero|]. intros e en He. rewrite decide_False; [done|].
    destruct (PL !! e_peer en) as [pl|] eqn:Hp; [|done]. intros [= E]. by apply (Hno' (e_peer en) pl).
Qed.

(** A job whose peers list nothing has no entry that waits. *)
Lemma job_rcpts_add e en i : R !! e = None -> len en = 0 -> job_rcpts (<[e := en]> R) PL i = job_rcpts R PL i.
Proof using Type. apply (load_add (fun en => fst <$> PL !! e_peer en = Some i)). Qed.
Lemma job_rcpts_drop e en j q i : R !! e = Some en -> PL !! e_peer en = Some (j, q) ->
  job_rcpts (delete e R) PL i = job_rcpts R PL i + if decide (j = i) then - len en else 0.
Proof using Type.
  intros He Hp. unfold job_rcpts. rewrite (load_drop (fun en => fst <$> PL !! e_peer en = Some i) _ _ _ He), Hp. cbn.
  destruct (decide (j = i)) as [->|Hn]; [rewrite decide_True by done|rewrite decide_False by congruence]; lia.
Qed.
Lemma job_rcpts_more e en en' j q d i : R !! e = Some en -> PL !! e_peer en = Some (j, q) -> e_peer en' = e_peer en ->
  len en' = len en + d -> job_rcpts (<[e := en']> R) PL i = job_rcpts R PL i + if decide (j = i) then d else 0.
Proof using Type.
  intros He Hp Ep Hl. unfold job_rcpts. rewrite (load_more (fun en => fst <$> PL !! e_peer en = Some i) _ _ _ _ d He);
    [|by rewrite Ep|done]. rewrite Hp. cbn.
  destruct (decide (j = i)) as [->|Hn]; [rewrite decide_True by done|rewrite decide_False by congruence]; lia.
Qed.
End job_books.

(** ** Recipients of a message, and of all messages *)

Section message_rcpts.
Context (R : gmap nat QMGR_ENTRY) (MC : gmap nat (Z * Z)) (H : message_rcpts R MC).

Lemma message_rcpts_change R' m c c' d : MC !! m = Some c -> c'.2 = c.2 + d ->
  (forall i, map_sum (fun en => if decide (e_message en = i) then len en else 0) R'
     = map_sum (fun en => if decide (e_message en = i) then len en else 0) R + if decide (m = i) then d else 0) ->
  message_rcpts R' (<[m := c']> MC).
Proof using H.
  intros Hm Hc Hr i ci. rewrite Hr, lookup_insert_dec. case_decide as Hd.
  - intros [= <-]. subst i. rewrite Hc, (H _ _ Hm). lia.
  - intros Hi. rewrite (H _ _ Hi). lia.
Qed.
End message_rcpts.

Lemma message_load_add (R : gmap nat QMGR_ENTRY) e en i : R !! e = None -> len en = 0 ->
  map_sum (fun en => if decide (e_message en = i) then len en else 0) (<[e := en]> R)
  = map_sum (fun en => if decide (e_message en = i) then len en else 0) R + if decide (e_message en = i) then 0 else 0.
Proof. intros He Hl. rewrite (load_add (fun en => e_message en = i)) by done. case_decide; lia. Qed.
Lemma message_load_drop (R : gmap nat QMGR_ENTRY) e en i : R !! e = Some en ->
  map_sum (fun en => if decide (e_message en = i) then len en else 0) (delete e R)
  = map_sum (fun en => if decide (e_message en = i) then len en else 0) R + if decide (e_message en = i) then - len en else 0.
Proof. intros He. rewrite (load_drop (fun en => e_message en = i) _ _ _ He). case_decide; lia. Qed.
Lemma message_load_more (R : gmap nat QMGR_ENTRY) e en en' d i : R !! e = Some en -> e_message en' = e_message en -> len en' = len en + d ->
  map_sum (fun en => if decide (e_message en = i) then len en else 0) (<[e := en']> R)
  = map_sum (fun en => if decide (e_message en = i) then len en else 0) R + if decide (e_message en = i) then d else 0.
Proof. intros He Em Hl. by rewrite (load_more (fun en => e_message en = i) _ _ _ _ d He) by (done || by rewrite Em). Qed.

(** ** Queues and transports *)

Section transport_queues.
Context (N : gmap nat (nat * bytes)) (T : gmap nat QMGR_TRANSPORT) (H : transport_queues N T).

Lemma transport_queues_new q t name tr tr' : N !! q = None -> T !! t = Some tr -> t_queue_byname tr !! name = None ->
  t_queue_list tr' = t_queue_list tr ++ [q] -> t_queue_byname tr' = <[name := q]> (t_queue_byname tr) ->
  transport_queues (<[q := (t, name)]> N) (<[t := tr']> T).
Proof using H.
  intros Hq Ht Hn El Eb. destruct H as [H1 H2]. destruct (H1 _ _ Ht) as (Hnd & Hl & Hb). split.
  - intros x trx. rewrite lookup_insert_dec. case_decide as Hd.
    + intros [= <-]. subst x. rewrite El, Eb. split; [|split].
      * apply NoDup_app. split; [done|]. split; [|apply NoDup_singleton]. intros y Hy ->%list_elem_of_singleton.
        destruct (Hl _ Hy) as (? & ? & _). congruence.
      * intros y [Hy| ->%list_elem_of_singleton]%elem_of_app; [|exists (t, name); by rewrite lookup_insert_eq].
        destruct (Hl _ Hy) as (n & Hy' & En). exists n. rewrite lookup_insert_ne; [done|congruence].
      * intros nm y. rewrite lookup_insert_Some. intros [[<- <-]|[_ Hy]]; [apply lookup_insert_eq|].
        specialize (Hb _ _ Hy). rewrite lookup_insert_ne; [done|congruence].
    + intros Hx. destruct (H1 _ _ Hx) as (Hnd' & Hl' & Hb'). split; [done|]. split.
      * intros y Hy. destruct (Hl' _ Hy) as (n & Hy' & En). exists n. rewrite lookup_insert_ne; [done|congruence].
      * intros nm y Hy. specialize (Hb' _ _ Hy). rewrite lookup_insert_ne; [done|congruence].
  - intros x n. rewrite lookup_insert_dec. case_decide as Hd.
    + intros [= <-]. subst x. exists tr'. cbn. rewrite lookup_insert_eq, El, Eb, lookup_insert_eq. split; [done|]. split; [|done].
      apply elem_of_app. right. by left.
    + intros Hx. destruct (H2 _ _ Hx) as (trx & Htx & Hlx & Hbx). rewrite lookup_insert_dec. case_decide as Hdt; [|by exists trx].
      assert (trx = tr) as -> by congruence. exists tr'. rewrite El, Eb. split; [done|]. split; [apply elem_of_app; by left|].
      rewrite lookup_insert_ne; [done|]. congruence.
Qed.

Lemma transport_queues_gone q t name tr tr' : N !! q = Some (t, name) -> T !! t = Some tr ->
  t_queue_list tr' = list_unlink q (t_queue_list tr) -> t_queue_byname tr' = delete name (t_queue_byname tr) ->
  transport_queues (delete q N) (<[t := tr']> T).
Proof using H.
  intros Hq Ht El Eb. destruct H as [H1 H2]. destruct (H1 _ _ Ht) as (Hnd & Hl & Hb). split.
  - intros x trx. rewrite lookup_insert_dec. case_decide as Hd.
    + intros [= <-]. subst x. rewrite El, Eb. split; [by apply list_unlink_nodup|]. split.
      * intros y [Hy Hne]%list_unlink_elem; [|done]. rewrite lookup_delete_ne by done. by apply Hl.
      * intros nm y. rewrite lookup_delete_Some. intros [Hne Hy]. specialize (Hb _ _ Hy). rewrite lookup_delete_ne; [done|congruence].
    + intros Hx. destruct (H1 _ _ Hx) as (Hnd' & Hl' & Hb'). split; [done|]. split.
      * intros y Hy. destruct (Hl' _ Hy) as (n & Hy' & En). exists n. rewrite lookup_delete_ne; [done|]. intros <-.
        rewrite Hq in Hy'. injection Hy' as <-. exact (Hd En).
      * intros nm y Hy. specialize (Hb' _ _ Hy). rewrite lookup_delete_ne; [done|congruence].
  - intros x n. rewrite lookup_delete_dec. case_decide as Hd; [done|]. intros Hx.
    destruct (H2 _ _ Hx) as (trx & Htx & Hlx & Hbx). rewrite lookup_insert_dec. case_decide as Hdt; [|by exists trx].
    assert (trx = tr) as -> by congruence. exists tr'. rewrite El, Eb. split; [done|]. split; [by apply list_unlink_elem|].
    rewrite lookup_delete_ne; [done|]. intros En.
    destruct (H2 _ _ Hq) as (tr0 & B1 & _ & B2). cbn in B1, B2. congruence.
Qed.
End transport_queues.

(** The parts of a transport that control its queues. *)
Definition tcontrols (tr : QMGR_TRANSPORT) :=
  (t_dest_concurrency_limit tr, t_init_dest_concurrency tr, t_pos_feedback tr, t_neg_feedback tr, t_rate_delay tr, t_refill_limit tr).

Lemma transport_ok_same tr tr' : tcontrols tr' = tcontrols tr -> transport_ok tr -> transport_ok tr'.
Proof. intros [= E1 E2 E3 E4 E5 E6] []. split; rewrite ?E1, ?E2, ?E3, ?E4, ?E5, ?E6; done. Qed.
Lemma queue_fits_same tr tr' c : tcontrols tr' = tcontrols tr -> queue_fits tr c -> queue_fits tr' c.
Proof. intros [= E1 E2 E3 E4 E5 _] []. split; rewrite ?E1, ?E2, ?E3, ?E4, ?E5; done. Qed.
Lemma queue_fits_control tr c : queue_fits tr (qcontrol c) <-> queue_fits tr c.
Proof. split; intros []; by split. Qed.
Lemma queue_fits_transport tr c : queue_fits (tcontrol tr) c <-> queue_fits tr c.
Proof. split; apply queue_fits_same; done. Qed.
Lemma transport_ok_control tr : transport_ok (tcontrol tr) <-> transport_ok tr.
Proof. split; apply transport_ok_same; done. Qed.

Section control.
Context (C : gmap nat QMGR_QUEUE) (T : gmap nat QMGR_TRANSPORT) (throttled resume : gset nat).
Context (H : queue_control C T throttled resume).

Lemma queue_control_put q c c' tr throttled' resume' : C !! q = Some c -> q_transport c' = q_transport c -> T !! q_transport c = Some tr ->
  queue_fits tr c' -> (forall x, x <> q -> (x ∈ throttled' <-> x ∈ throttled) /\ (x ∈ resume' <-> x ∈ resume)) ->
  (q ∈ throttled' <-> q_window c' = QMGR_QUEUE_STAT_THROTTLED) -> (q ∈ resume' <-> q_window c' = QMGR_QUEUE_STAT_SUSPENDED) ->
  queue_control (<[q := c']> C) T throttled' resume'.
Proof using H.
  intros Hq Et Ht Hf Hs Hth Hre. destruct H as (H1 & H2 & H3). split; [done|]. split.
  - intros x cx. rewrite lookup_insert_dec. case_decide as Hd.
    + intros [= <-]. subst x. exists tr. by rewrite Et.
    + intros Hx. destruct (H2 _ _ Hx) as (trx & A1 & A2 & A3 & A4). exists trx. destruct (Hs x ltac:(congruence)) as [-> ->]. done.
  - intros x Hx. rewrite lookup_insert_dec. case_decide; [by eexists|]. destruct (Hs x ltac:(congruence)) as [E1 E2].
    apply H3. destruct Hx as [Hx|Hx]; [left; by apply E1|right; by apply E2].
Qed.

Lemma control_transport t tr tr' : T !! t = Some tr -> tcontrols tr' = tcontrols tr ->
  queue_control C (<[t := tr']> T) throttled resume.
Proof using H.
  intros Ht Et. destruct H as (H1 & H2 & H3). split; [|split; [|done]].
  - intros x trx. rewrite lookup_insert_dec. case_decide; [|apply H1]. intros [= <-]. apply (transport_ok_same tr); [done|by apply (H1 t)].
  - intros q c Hq. destruct (H2 _ _ Hq) as (trx & A1 & A2 & A3). rewrite lookup_insert_dec. case_decide; [|by exists trx].
    exists tr'. split; [done|]. split; [|done]. apply (queue_fits_same tr); [done|]. congruence.
Qed.

Lemma control_new q c tr : C !! q = None -> T !! q_transport c = Some tr -> queue_fits tr c -> 0 < q_window c ->
  queue_control (<[q := c]> C) T throttled resume.
Proof using H.
  intros Hq Ht Hf Hw. destruct H as (H1 & H2 & H3). split; [done|]. split.
  - intros x cx. rewrite lookup_insert_dec. case_decide as Hd; [|apply H2]. intros [= <-]. subst x. exists tr. split; [done|]. split; [done|].
    unfold QMGR_QUEUE_STAT_THROTTLED, QMGR_QUEUE_STAT_SUSPENDED.
    assert (Hno : q ∉ throttled /\ q ∉ resume).
    { split; intros Hx; (destruct (H3 q) as [? ?]; [by (left + right)|congruence]). }
    split; (split; [by intros ?%Hno|lia]).
  - intros x Hx. rewrite lookup_insert_dec. case_decide; [by eexists|by apply H3].
Qed.

Lemma control_gone q c : C !! q = Some c -> 0 < q_window c -> queue_control (delete q C) T throttled resume.
Proof using H.
  intros Hq Hw. destruct H as (H1 & H2 & H3). split; [done|]. split.
  - intros x cx. rewrite lookup_delete_dec. case_decide; [done|]. apply H2.
  - intros x Hx. rewrite lookup_delete_dec. case_decide as Hd; [|by apply H3]. subst x. exfalso.
    destruct (H2 _ _ Hq) as (tr & _ & _ & A1 & A2). unfold QMGR_QUEUE_STAT_THROTTLED, QMGR_QUEUE_STAT_SUSPENDED in *.
    destruct Hx as [Hx|Hx]; [apply A1 in Hx|apply A2 in Hx]; lia.
Qed.
End control.

Lemma queue_counts_put L C q l c : queue_counts L C -> q_todo_refcount c = size_of l.1 -> q_busy_refcount c = size_of l.2 ->
  queue_counts (<[q := l]> L) (<[q := c]> C).
Proof.
  intros H E1 E2 x lx cx. rewrite !lookup_insert_dec. case_decide; [|apply H]. by intros [= <-] [= <-].
Qed.
Lemma queue_counts_control L C q c c' : queue_counts L C -> C !! q = Some c -> q_todo_refcount c' = q_todo_refcount c ->
  q_busy_refcount c' = q_busy_refcount c -> queue_counts L (<[q := c']> C).
Proof.
  intros H Hq E1 E2 x lx cx Hx. rewrite lookup_insert_dec. case_decide; [|by apply H]. intros [= <-]. subst x. rewrite E1, E2. by apply (H q).
Qed.
Lemma queue_counts_gone L C q : queue_counts L C -> queue_counts (delete q L) (delete q C).
Proof. intros H x lx cx. rewrite !lookup_delete_dec. case_decide; [done|]. apply H. Qed.

Lemma fresh_mono E N PL n n' : all_fresh E N PL n -> (n <= n')%nat -> all_fresh E N PL n'.
Proof. intros H Hn x Hx. specialize (H x Hx). lia. Qed.
Lemma fresh_insert_entry E N PL n e en : all_fresh E N PL n -> (e < n)%nat -> all_fresh (<[e := en]> E) N PL n.
Proof.
  intros H He x. rewrite lookup_insert_dec. case_decide; [intros _; lia|]. apply H.
Qed.
Lemma fresh_insert_queue E N PL n q x : all_fresh E N PL n -> (q < n)%nat -> all_fresh E (<[q := x]> N) PL n.
Proof. intros H He y. rewrite lookup_insert_dec. case_decide; [intros _; lia|]. apply H. Qed.
Lemma fresh_insert_peer E N PL n p x : all_fresh E N PL n -> (p < n)%nat -> all_fresh E N (<[p := x]> PL) n.
Proof. intros H He y. rewrite lookup_insert_dec. case_decide; [intros _; lia|]. apply H. Qed.
Lemma fresh_delete E N PL n : all_fresh E N PL n ->
  (forall e, all_fresh (delete e E) N PL n) /\ (forall q, all_fresh E (delete q N) PL n) /\ (forall p, all_fresh E N (delete p PL) n).
Proof.
  intros H. split; [|split]; intros y x; rewrite lookup_delete_dec; (case_decide; [intros [[? ?]|[[? ?]|[? ?]]]|]); try done; apply H; eauto.
Qed.
