(* ===== verification/QmgrDelivery.v ===== *)
(** Deliveries: the operations on peers and queue entries (QmgrEntry.v) keep the books
    (QmgrBooks.v), the control of the destinations and the scheduler's structures. *)

From S2P Require Export QmgrBooks.

(** ** Frames for the scheduler *)

Definition tview (tr : QMGR_TRANSPORT) :=
  (tshape tr, t_job_current tr, t_job_next_unread tr, (t_candidate_cache tr, t_candidate_cache_current tr), t_blocker_tag tr).

Lemma tview_inv a b : tview a = tview b -> t_job_list a = t_job_list b /\ t_job_current a = t_job_current b /\
  t_job_next_unread a = t_job_next_unread b /\ t_candidate_cache a = t_candidate_cache b /\
  t_candidate_cache_current a = t_candidate_cache_current b /\ t_blocker_tag a = t_blocker_tag b.
Proof. unfold tview, tshape. intros H. injection H. intros. by repeat split. Qed.

(** Nothing differs that the scheduler's invariant looks at. *)
Record quiet (st st' : qmgr) : Prop := mk_quiet {
  qt_t : tview <$> transports st' = tview <$> transports st;
  qt_j : jshape <$> jobs st' = jshape <$> jobs st;
  qt_m : mshape <$> messages st' = mshape <$> messages st;
  qt_next : (next_addr st <= next_addr st')%nat
}.

Lemma col_lookup {A B} (f : A -> B) (m m' : gmap nat A) i : f <$> m' = f <$> m -> f <$> m' !! i = f <$> m !! i.
Proof. intros H. by rewrite <- !lookup_fmap, H. Qed.
Lemma col_some {A B} (f : A -> B) (m m' : gmap nat A) i x : f <$> m' = f <$> m -> m' !! i = Some x -> exists y, m !! i = Some y /\ f x = f y.
Proof. intros H Hx. pose proof (col_lookup f m m' i H) as E. rewrite Hx in E. destruct (m !! i) as [y|]; [|done]. exists y. split; [done|]. cbn in E. congruence. Qed.
Lemma col_coarsen {A B C} (f : A -> B) (g : A -> C) (m m' : gmap nat A) :
  (forall a b, f a = f b -> g a = g b) -> f <$> m' = f <$> m -> g <$> m' = g <$> m.
Proof.
  intros Hfg H. apply map_eq. intros i. rewrite !lookup_fmap. pose proof (col_lookup f m m' i H) as E.
  destruct (m' !! i), (m !! i); cbn in *; try done. f_equal. apply Hfg. congruence.
Qed.
Lemma col_from_lookups {A B C} (f : A -> B) (g : A -> C) (m m' : gmap nat A) :
  (forall a b, f a = f b -> g a = g b) -> (forall i, f <$> m' !! i = f <$> m !! i) -> g <$> m' = g <$> m.
Proof. intros Hfg H. apply (col_coarsen f); [done|]. apply map_eq. intros i. by rewrite !lookup_fmap. Qed.

Lemma wf_next n st : wf st -> (next_addr st <= n)%nat -> wf (set_next_addr n st).
Proof.
  intros [[W1 W2 W3 W4 W5 W6 W7 W8 W9 W10] Hcur Hcache] Hn. split; [split|exact Hcur|exact Hcache]; try assumption.
  intros j Hj. specialize (W2 j Hj). cbn. lia.
Qed.

Lemma quiet_wf st st' : quiet st st' -> wf st -> wf st'.
Proof.
  intros [Ht Hj Hm Hn] Hwf. apply (wf_next (next_addr st')) in Hwf as [Hc Hcur Hcache]; [|done].
  assert (Hse : shape_eq (set_next_addr (next_addr st') st) st').
  { split; [|intros; by apply col_lookup|intros; by apply col_lookup|done].
    intros t. apply col_lookup. apply (col_coarsen tview); [|done]. intros a b E. unfold tview in E. congruence. }
  split; [by apply (wf_core_shape (set_next_addr (next_addr st') st))| |].
  - intros t tr Htr. destruct (col_some _ _ _ _ _ Ht Htr) as (tr0 & Htr0 & E). apply tview_inv in E as (E2 & E3 & E4 & _). rewrite E2, E3, E4. by apply (Hcur t).
  - intros t tr Hno Htr. destruct (col_some _ _ _ _ _ Ht Htr) as (tr0 & Htr0 & E). apply tview_inv in E as (E2 & _ & _ & E5 & E6 & _).
    intros c k. rewrite E5, E6, E2. intros H1 H2. destruct (Hcache t tr0 Hno Htr0 c k H1 H2) as (A1 & A2 & kb & A3 & A4).
    split; [done|]. split; [done|]. destruct (col_some _ _ _ k kb (eq_sym Hj) A3) as (kb' & Hkb' & E7). exists kb'. split; [done|].
    injection E7 as _ _ _ E7 _. congruence.
Qed.

Lemma quiet_tags st st' : quiet st st' -> tags_odd st -> tags_odd st'.
Proof. intros [Ht _ _ _] H t tr Htr. destruct (col_some _ _ _ _ _ Ht Htr) as (tr0 & Htr0 & E). apply tview_inv in E as (_ & _ & _ & _ & _ & E). rewrite E. by apply (H t). Qed.

(** Scheduling changes no column of the books. *)
Lemma retagged_books np dp dm st st' : retagged st st' -> books np dp dm st -> books np dp dm st'.
Proof.
  intros [Ht Hj Hm Ho]. unfold others in Ho. injection Ho as E1 E2 E3 E4 E5 E6 E7 E8 E9 E10 E11 E12.
  assert (Et : tcontrol <$> transports st' = tcontrol <$> transports st).
  { apply (col_from_lookups tstatic); [|done]. intros [] []. unfold tstatic, tcontrol. cbn. intros E. injection E. intros. by subst. }
  assert (Ej : forall C (g : QMGR_JOB -> C), (forall a b, set_j_blocker_tag 0 (jstatic a) = set_j_blocker_tag 0 (jstatic b) -> g a = g b) ->
    g <$> jobs st' = g <$> jobs st).
  { intros C g Hg. by apply (col_from_lookups (set_j_blocker_tag 0 ∘ jstatic)). }
  assert (Em : forall C (g : QMGR_MESSAGE -> C), (forall a b, mmask a = mmask b -> g a = g b) -> g <$> messages st' = g <$> messages st).
  { intros C g Hg. by apply (col_from_lookups mmask). }
  assert (Ed : tdead <$> transports st' = tdead <$> transports st).
  { apply (col_from_lookups tstatic); [|done]. intros [] []. unfold tstatic, tdead, QMGR_TRANSPORT_THROTTLED. cbn. intros E. injection E. intros. by subst. }
  assert (En : t_job_byname <$> transports st' = t_job_byname <$> transports st).
  { apply (col_from_lookups tstatic); [|done]. intros [] []. unfold tstatic. cbn. intros E. injection E. intros. by subst. }
  intros []. split; rewrite ?E1, ?E2, ?E3, ?E5, ?E7, ?E8, ?E10, ?E11, ?E12, ?Et, ?Ed, ?En, ?(Em _ m_queue_id), ?(Em _ m_rcpt_offset), ?(Ej _ jlink), ?(Ej _ jpeers), ?(Ej _ jcounts), ?(Em _ mcounts), ?(Em _ m_job_list);
    try done; intros [] []; unfold mmask, jstatic, smask; cbn; intros E; injection E; intros; by subst.
Qed.

(** ** Automation *)

Ltac st_cbn := cbn [put_transport put_queue put_entry put_message put_job put_peer set_transports set_queues set_entries set_messages
  set_jobs set_peers set_next_addr set_qmgr_recipient_count set_qmgr_queue_count set_queue_timers set_resume_timers
  transports queues entries messages jobs peers transport_list next_addr sane_time qmgr_recipient_count qmgr_queue_count
  var_qmgr_rcpt_limit resume_timers queue_timers transport_timers].
Ltac look := st_cbn; first [eassumption | apply lookup_insert_eq].

(** One step of a routine; an updated object gets a name. *)
Ltac name_update :=
  lazymatch goal with
  | |- wp _ (put_transport _ ?x _) _ => let y := fresh "tr" in set (y := x)
  | |- wp _ (put_queue _ ?x _) _ => let y := fresh "qu" in set (y := x)
  | |- wp _ (put_entry _ ?x _) _ => let y := fresh "en" in set (y := x)
  | |- wp _ (put_message _ ?x _) _ => let y := fresh "msg" in set (y := x)
  | |- wp _ (put_job _ ?x _) _ => let y := fresh "jb" in set (y := x)
  | |- wp _ (put_peer _ ?x _) _ => let y := fresh "pe" in set (y := x)
  | |- _ => idtac
  end.
Ltac step :=
  lazymatch goal with
  | |- wp (mbind _ _) _ _ => apply wp_bind; step
  | |- wp (get_transport _) _ _ => eapply wp_get_transport; [look|]
  | |- wp (get_queue _) _ _ => eapply wp_get_queue; [look|]
  | |- wp (get_entry _) _ _ => eapply wp_get_entry; [look|]
  | |- wp (get_message _) _ _ => eapply wp_get_message; [look|]
  | |- wp (get_job _) _ _ => eapply wp_get_job; [look|]
  | |- wp (get_peer _) _ _ => eapply wp_get_peer; [look|]
  | |- wp (upd_transport _ _) _ _ => eapply wp_upd_transport; [look|]; cbn beta; name_update
  | |- wp (upd_queue _ _) _ _ => eapply wp_upd_queue; [look|]; cbn beta; name_update
  | |- wp (upd_entry _ _) _ _ => eapply wp_upd_entry; [look|]; cbn beta; name_update
  | |- wp (upd_message _ _) _ _ => eapply wp_upd_message; [look|]; cbn beta; name_update
  | |- wp (upd_job _ _) _ _ => eapply wp_upd_job; [look|]; cbn beta; name_update
  | |- wp (upd_peer _ _) _ _ => eapply wp_upd_peer; [look|]; cbn beta; name_update
  | |- wp (modify _) _ _ => apply wp_modify
  | |- wp (gets _) _ _ => apply wp_gets
  | |- wp alloc _ _ => apply wp_alloc
  | |- wp (mret _) _ _ => apply wp_ret
  end; cbv beta zeta.

(** The columns of an updated state, in terms of the columns before. *)
Lemma col_at {A B} (f : A -> B) (m : gmap nat A) i x : m !! i = Some x -> (f <$> m) !! i = Some (f x).
Proof. intros H. by rewrite lookup_fmap, H. Qed.
Lemma col_inv {A B} (f : A -> B) (m : gmap nat A) i y : (f <$> m) !! i = Some y -> exists x, m !! i = Some x /\ y = f x.
Proof. rewrite lookup_fmap. destruct (m !! i) as [x|]; [|done]. intros [= <-]. by exists x. Qed.
Ltac col_id :=
  repeat match goal with
  | |- context [<[?i := ?y]> (?f <$> ?m)] => rewrite (insert_id (f <$> m) i y) by (erewrite col_at; [|eassumption]; reflexivity)
  end.
Ltac cols := st_cbn; rewrite ?insert_insert_eq, ?fmap_insert, ?fmap_delete; col_id.

(** ** The invariant *)

Definition sound (np dp dm : option nat) (st : qmgr) : Prop := wf st /\ tags_odd st /\ books np dp dm st.

(** The entry's objects. *)
Record placed (st : qmgr) (en : QMGR_ENTRY) (pe : QMGR_PEER) (qu : QMGR_QUEUE) (jb : QMGR_JOB) (msg : QMGR_MESSAGE) (tr : QMGR_TRANSPORT) : Prop := mk_placed {
  pl_peer : peers st !! e_peer en = Some pe;
  pl_queue : queues st !! e_queue en = Some qu;
  pl_same : p_queue pe = e_queue en;
  pl_job : jobs st !! p_job pe = Some jb;
  pl_message : messages st !! e_message en = Some msg;
  pl_job_message : j_message jb = e_message en;
  pl_transport : transports st !! j_transport jb = Some tr;
  pl_queue_transport : q_transport qu = j_transport jb
}.

Lemma entry_placed np dp dm st e en : sound np dp dm st -> entries st !! e = Some en ->
  exists pe qu jb msg tr, placed st en pe qu jb msg tr.
Proof.
  intros (Hwf & _ & H) He. pose proof (col_at elink _ _ _ He) as Ce.
  destruct (bk_entry_peers _ _ _ _ H _ _ Ce) as (pl & (pe & Hp & ->)%col_inv & Eq). cbn in Hp, Eq.
  destruct (proj2 (bk_lists _ _ _ _ H) _ _ Ce) as (l & (qu & Hq & _)%col_inv). cbn in Hq.
  destruct (bk_entry_jobs _ _ _ _ H _ _ _ Ce (col_at plink _ _ _ Hp)) as (jl & (jb & Hj & ->)%col_inv & Em). cbn in Hj, Em.
  destruct (wf_refs _ (wf_wf_core _ Hwf) _ _ Hj) as [[tr Ht] [msg Hm]].
  destruct (proj1 (bk_peer_jobs _ _ _ _ H) _ _ (col_at plink _ _ _ Hp)) as (jl & jp & n & Hjl & _ & Hn & Et & _).
  cbn in Hjl, Hn. rewrite lookup_fmap, Hj in Hjl. injection Hjl as <-. rewrite Eq, lookup_fmap, Hq in Hn. injection Hn as <-. cbn in Et.
  rewrite Em in Hm. by exists pe, qu, jb, msg, tr.
Qed.
Ltac open_books H := destruct H as [Blists Bqcounts Bepeers Bplists Bpcounts Bpjobs Bejobs Bjob Bmsg Brcpts Bmjobs Btransport Bcontrol Btotals Bfresh Bstreams Bdead Bnames Boffsets].

(** ** Moving an entry between the todo and busy lists *)

Lemma col_inv_at {A B} (f : A -> B) (m : gmap nat A) i x y : m !! i = Some x -> (f <$> m) !! i = Some y -> y = f x.
Proof. intros H. rewrite (col_at f m i x H). by intros [= <-]. Qed.

Lemma waits_iff st e en qu p : entries st !! e = Some en -> queues st !! e_queue en = Some qu ->
  waits (elink <$> entries st) (qlists <$> queues st) e p <-> p = e_peer en /\ e ∈ q_todo qu.
Proof.
  intros He Hq. pose proof (col_at elink _ _ _ He) as Ce. pose proof (col_at qlists _ _ _ Hq) as Cq. split.
  - intros (x & l & Hx & Ep & Hl & Hin). assert (x = elink en) as -> by congruence. cbn in *.
    assert (l = qlists qu) as -> by congruence. done.
  - intros [-> Hin]. exists (elink en), (qlists qu). done.
Qed.

Lemma move_perm e l1 l2 : e ∈ l1 -> list_unlink e l1 ++ l2 ++ [e] ≡ₚ l1 ++ l2.
Proof.
  intros He. trans ((e :: list_unlink e l1) ++ l2); [|by rewrite <- list_unlink_perm].
  rewrite app_assoc, Permutation_app_comm. done.
Qed.

Section moved.
Context (st : qmgr) (entry : nat) (en : QMGR_ENTRY) (qu : QMGR_QUEUE) (pe : QMGR_PEER).
Context (He : entries st !! entry = Some en) (Hq : queues st !! e_queue en = Some qu) (Hp : peers st !! e_peer en = Some pe).
Context (Bplists : peer_lists (elink <$> entries st) (qlists <$> queues st) (pload <$> peers st)).
Context (Blists : lists_books (elink <$> entries st) (qlists <$> queues st)).

Lemma peer_waits x : x ∈ p_entry_list pe <-> waits (elink <$> entries st) (qlists <$> queues st) x (e_peer en).
Proof using Bplists Hp. exact (proj2 (Bplists _ _ (col_at pload _ _ _ Hp)) x). Qed.
Lemma entry_waits : entry ∈ p_entry_list pe <-> entry ∈ q_todo qu.
Proof using Bplists Hp He Hq. rewrite peer_waits, (waits_iff _ _ _ _ _ He Hq). naive_solver. Qed.
Lemma lists_nodup : NoDup (q_todo qu) /\ NoDup (q_busy qu) /\ (forall x, x ∈ q_todo qu -> x ∉ q_busy qu).
Proof using Blists Hq. destruct (proj1 Blists _ _ (col_at qlists _ _ _ Hq)) as [Hnd _]. apply NoDup_app in Hnd. naive_solver. Qed.
Lemma entry_listed : entry ∈ q_todo qu \/ entry ∈ q_busy qu.
Proof using Blists Hq He.
  destruct (proj1 Blists _ _ (col_at qlists _ _ _ Hq)) as [_ Hin]. apply elem_of_app, Hin. exists (elink en).
  split; [by apply col_at|done].
Qed.
Lemma peer_nodup : NoDup (p_entry_list pe).
Proof using Bplists Hp. exact (proj1 (Bplists _ _ (col_at pload _ _ _ Hp))). Qed.

(** The lists of the peer and of the queue change at the entry alone. *)
Lemma peer_lists_moved lq l : (forall x, x <> entry -> x ∈ lq.1 <-> x ∈ q_todo qu) -> NoDup l ->
  (forall x, x <> entry -> x ∈ l <-> x ∈ p_entry_list pe) -> (entry ∈ l <-> entry ∈ lq.1) ->
  peer_lists (elink <$> entries st) (<[e_queue en := lq]> (qlists <$> queues st)) (<[e_peer en := (p_job pe, l)]> (pload <$> peers st)).
Proof using Bplists He Hq Hp.
  intros Hlq Hnd Hl Hin. pose proof (col_at elink _ _ _ He) as Ce. pose proof (col_at qlists _ _ _ Hq) as Cq.
  apply (peer_lists_change (elink <$> entries st) _ (qlists <$> queues st) _ _ entry _ _ (p_entry_list pe)); [done|exact (col_at pload _ _ _ Hp)| | |done|done|].
  - intros x y Hx. by apply (waits_move _ _ _ _ _ entry _ _ Cq).
  - intros y Hy. split; intros Hw; apply Hy; by apply (waits_peer _ _ _ _ _ Ce) in Hw.
  - rewrite Hin. split.
    + intros Hx. exists (elink en), lq. cbn. by rewrite lookup_insert_eq.
    + intros (x & lx & Hx & _ & Hlx & Hi). assert (x = elink en) as -> by congruence. cbn in Hlx. rewrite lookup_insert_eq in Hlx.
      by injection Hlx as ->.
Qed.
End moved.

Lemma streams_moved E L q l l' : streams_ok E L -> L !! q = Some l ->
  (forall e en, E !! e = Some en -> e ∈ l'.1 -> e ∈ l.1 \/ e_stream en = false) -> streams_ok E (<[q := l']> L).
Proof.
  intros H Hq Hl e en le He. rewrite lookup_insert_dec. case_decide as Hd; [|by apply H].
  intros [= <-] Hin. destruct (Hl _ _ He Hin) as [Hin'|]; [|done]. apply (H e en l); [done|congruence|done].
Qed.

(** Only the counters of a queue change. *)
Definition qsteady (qu : QMGR_QUEUE) := (q_window qu, q_success qu, q_failure qu, q_dsn qu, q_transport qu, q_name qu).

Lemma control_counts st q qu qu' : queue_control (qcontrol <$> queues st) (tcontrol <$> transports st) (queue_timers st) (resume_timers st) ->
  queues st !! q = Some qu -> qsteady qu' = qsteady qu -> 0 <= q_busy_refcount qu' <= MAX_BUSY ->
  (forall tr, queue_fits tr qu -> q_busy_refcount qu' <= q_busy_refcount qu \/ 0 < q_window qu /\ q_busy_refcount qu' <= q_window qu) ->
  queue_control (<[q := qcontrol qu']> (qcontrol <$> queues st)) (tcontrol <$> transports st) (queue_timers st) (resume_timers st).
Proof.
  intros H Hq Hs Hb Hc. injection Hs as E1 E2 E3 E4 E5 E6.
  destruct (proj1 (proj2 H) _ _ (col_at qcontrol _ _ _ Hq)) as (tr0 & K1 & Hf & K3 & K4).
  apply (queue_control_put _ _ _ _ H _ (qcontrol qu) _ tr0); [by apply col_at|done|done| |done|cbn; by rewrite E1|cbn; by rewrite E1].
  rewrite queue_fits_control in Hf. specialize (Hc _ Hf). destruct Hf as [F1 F2 F3 F4 F5 F6 F7].
  split; cbn; rewrite ?E1, ?E2, ?E3, ?E4; try done; unfold QMGR_QUEUE_STAT_SUSPENDED in *; lia.
Qed.

(** Select an entry for delivery. *)
Lemma entry_select_wp peer pe entry l en qu now st :
  sound None None None st -> peers st !! peer = Some pe -> p_entry_list pe = entry :: l -> entries st !! entry = Some en ->
  queues st !! e_queue en = Some qu -> q_busy_refcount qu < q_window qu -> q_busy_refcount qu < MAX_BUSY ->
  wp (qmgr_entry_select peer now) st (fun r st' => r = Some entry /\ sound None None None st' /\ entries st' = entries st /\
    quiet st st' /\ exists qu', queues st' !! e_queue en = Some qu' /\ entry ∈ q_busy qu' /\
      q_transport qu' = q_transport qu /\ q_window qu' = q_window qu /\ q_busy_refcount qu' = q_busy_refcount qu + 1).
Proof.
  intros Hs Hp El He Hq Hw Hmax. destruct (entry_placed _ _ _ _ _ _ Hs He) as (pe0 & qu0 & jb & msg & tr & [P1 P2 P3 P4 P5 P6 P7 P8]).
  destruct Hs as (Hwf & Hodd & H). open_books H.
  assert (Ep : e_peer en = peer).
  { destruct (Bplists _ _ (col_at pload _ _ _ Hp)) as [_ Hin]. cbn [pload snd] in Hin. rewrite El in Hin.
    destruct (proj1 (Hin entry)) as (x & y & Hx & Hy & _); [by left|]. rewrite lookup_fmap, He in Hx. by injection Hx as <-. }
  subst peer. assert (pe0 = pe) as -> by congruence. assert (qu0 = qu) as -> by congruence.
  assert (Hin : entry ∈ q_todo qu) by (rewrite <- (entry_waits st entry en qu pe) by done; rewrite El; by left).
  destruct (lists_nodup st en qu Hq Blists) as (N1 & N2 & N3). pose proof (peer_nodup st en pe Hp Bplists) as N4.
  destruct (Bqcounts _ _ _ (col_at qlists _ _ _ Hq) (col_at qcontrol _ _ _ Hq)) as [C1 C2]. cbn in C1, C2.
  assert (Hinp : entry ∈ p_entry_list pe) by (rewrite El; by left).
  unfold qmgr_entry_select. step. rewrite El. cbn [head]. do 9 step. split; [done|].
  assert (Hquiet : quiet st (put_queue (e_queue en) qu4 (put_job (p_job pe) jb0 (put_peer (e_peer en) pe0
    (put_queue (e_queue en) qu3 (put_queue (e_queue en) qu2 (put_queue (e_queue en) qu1 (put_queue (e_queue en) qu0 st)))))))).
  { split; cols; done. }
  split; [|split; [done|]; split; [done|]].
  2:{ exists qu4. split; [apply lookup_insert_eq|]. cbn. split; [apply elem_of_app; right; by left|done]. }
  split; [by eapply quiet_wf|]. split; [by eapply quiet_tags|]. split; cols; try assumption.
  - apply (lists_move _ _ Blists _ (qlists qu)); [by apply col_at|]. by apply move_perm.
  - apply queue_counts_put; [done|cbn..]; [rewrite size_of_unlink by done; lia|rewrite size_of_snoc; lia].
  - apply (peer_lists_moved st entry en qu pe); try done; cbn; [|by apply list_unlink_nodup| |].
    + intros x Hx. rewrite list_unlink_elem by done. naive_solver.
    + intros x Hx. rewrite list_unlink_elem by done. naive_solver.
    + rewrite !list_unlink_elem by done. naive_solver.
  - apply (job_books_change _ _ _ _ Bjob _ _ _ (p_entry_list pe) _ (jcounts jb) _ 0); [by apply col_at|exact (col_at pload _ _ _ Hp)| |cbn..].
    + intros i. case_decide; lia.
    + rewrite size_of_unlink by done. lia.
    + lia.
  - apply (control_counts st (e_queue en) qu qu4); [done|done|done|cbn; unfold size_of in C2; lia|]. intros tr0 Hf. cbn. destruct Hf. lia.
  - apply (streams_moved _ _ _ (qlists qu)); [done|by apply col_at|]. cbn. intros x xn _ [Hx _]%list_unlink_elem; [|done]. by left.
Qed.

(** Put a selected entry back. *)
Lemma entry_unselect_wp entry en qu st :
  sound None None None st -> entries st !! entry = Some en -> e_stream en = false ->
  queues st !! e_queue en = Some qu -> entry ∈ q_busy qu ->
  wp (qmgr_entry_unselect entry) st (fun _ st' => sound None None None st' /\ entries st' = entries st /\ transports st' = transports st).
Proof.
  intros Hs He Hstream Hq Hin. destruct (entry_placed _ _ _ _ _ _ Hs He) as (pe & qu0 & jb & msg & tr & [P1 P2 P3 P4 P5 P6 P7 P8]).
  destruct Hs as (Hwf & Hodd & H). open_books H. assert (qu0 = qu) as -> by congruence.
  destruct (lists_nodup st en qu Hq Blists) as (N1 & N2 & N3). pose proof (peer_nodup st en pe P1 Bplists) as N4.
  destruct (Bqcounts _ _ _ (col_at qlists _ _ _ Hq) (col_at qcontrol _ _ _ Hq)) as [C1 C2]. cbn in C1, C2.
  assert (Hnt : entry ∉ q_todo qu) by (intros Ht; by apply (N3 entry)).
  assert (Hnp : entry ∉ p_entry_list pe) by (by rewrite (entry_waits st entry en qu pe)).
  unfold qmgr_entry_unselect. do 8 step. split; [|done].
  match goal with |- sound _ _ _ ?s => assert (Hquiet : quiet st s) by (split; cols; done) end.
  split; [by eapply quiet_wf|]. split; [by eapply quiet_tags|]. split; cols; try assumption.
  - apply (lists_move _ _ Blists _ (qlists qu)); [by apply col_at|]. cbn. rewrite <- app_assoc. apply Permutation_app_head. cbn.
    symmetry. by apply list_unlink_perm.
  - apply queue_counts_put; [done|cbn..]; [rewrite size_of_snoc; lia|rewrite size_of_unlink by done; lia].
  - apply (peer_lists_moved st entry en qu pe); try done; cbn.
    + intros x Hx. rewrite elem_of_app, list_elem_of_singleton. naive_solver.
    + by apply NoDup_cons.
    + intros x Hx. rewrite elem_of_cons. naive_solver.
    + rewrite elem_of_cons, elem_of_app, list_elem_of_singleton. naive_solver.
  - apply (job_books_change _ _ _ _ Bjob _ _ _ (p_entry_list pe) _ (jcounts jb) _ 0); [by apply col_at|exact (col_at pload _ _ _ P1)| |cbn..].
    + intros i. case_decide; lia.
    + unfold size_of. cbn [length]. lia.
    + lia.
  - assert (1 <= q_busy_refcount qu). { rewrite C2. unfold size_of. destruct (q_busy qu); [by apply not_elem_of_nil in Hin|cbn; lia]. }
    destruct (proj1 (proj2 Bcontrol) _ _ (col_at qcontrol _ _ _ Hq)) as (tr0 & _ & Hf%queue_fits_control & _).
    apply (control_counts st (e_queue en) qu qu3); [done|done|done|cbn; destruct Hf; cbn in *; lia|]. intros tr1 Hf1. cbn. lia.
  - apply (streams_moved _ _ _ (qlists qu)); [done|by apply col_at|]. cbn.
    intros x xn Hx [Hi| ->%list_elem_of_singleton]%elem_of_app; [by left|right; congruence].
Qed.

(** ** New entries *)

Lemma entry_fresh np dp dm st : books np dp dm st -> entries st !! next_addr st = None /\ peers st !! next_addr st = None /\ queues st !! next_addr st = None.
Proof.
  intros H. open_books H.
  split; [|split]; apply eq_None_not_Some; intros [x Hx]; assert (Hlt : (next_addr st < next_addr st)%nat); try lia; apply Bfresh.
  - left. exists (elink x). by apply col_at.
  - right. left. exists (plink x). by apply col_at.
  - right. right. exists (qplace x). by apply col_at.
Qed.

Definition new_entry (message peer queue : nat) : QMGR_ENTRY := mk_qmgr_entry false message [] queue peer.

(** The queue with one more entry that waits. *)
Definition queued_entry (entry : nat) (qu : QMGR_QUEUE) : QMGR_QUEUE :=
  set_q_todo_refcount (q_todo_refcount qu + 1) (set_q_todo (q_todo qu ++ [entry]) qu).

Lemma entry_create_wp np peer message pe qu jb msg st :
  sound np None None st -> np = None \/ np = Some peer -> peers st !! peer = Some pe -> queues st !! p_queue pe = Some qu ->
  jobs st !! p_job pe = Some jb -> j_message jb = message -> messages st !! message = Some msg -> QMGR_QUEUE_THROTTLED qu = false ->
  wp (qmgr_entry_create peer message) st (fun e st' => sound None None None st' /\ e = next_addr st /\
    entries st' = <[e := new_entry message peer (p_queue pe)]> (entries st) /\
    queues st' = <[p_queue pe := queued_entry e qu]> (queues st) /\ plink <$> peers st' = plink <$> peers st /\
    jlink <$> jobs st' = jlink <$> jobs st /\ transports st' = transports st /\ quiet st st').
Proof.
  intros Hs Hnp Hp Hq Hj Hjm Hm Hth. destruct Hs as (Hwf & Hodd & H). pose proof (entry_fresh _ _ _ _ H) as (Fe & Fp & Fq). open_books H.
  destruct (Bqcounts _ _ _ (col_at qlists _ _ _ Hq) (col_at qcontrol _ _ _ Hq)) as [C1 C2]. cbn in C1, C2.
  assert (Fe' : forall B (f : QMGR_ENTRY -> B), (f <$> entries st) !! next_addr st = None) by (intros; by rewrite lookup_fmap, Fe).
  set (e := next_addr st) in *. set (en := new_entry message peer (p_queue pe)).
  assert (Hn : e ∉ q_todo qu ++ q_busy qu).
  { intros Hin. apply (proj2 (proj1 Blists _ _ (col_at qlists _ _ _ Hq))) in Hin as (x & Hx & _). by rewrite Fe' in Hx. }
  assert (Hnp' : e ∉ p_entry_list pe).
  { intros Hin. apply (proj2 (Bplists _ _ (col_at pload _ _ _ Hp))) in Hin as (x & l & Hx & _). by rewrite Fe' in Hx. }
  destruct (Bpcounts _ _ (col_at p_refcount _ _ _ Hp)) as [Ec _]. rewrite owed_none in Ec.
  assert (Hge : 0 <= p_refcount pe).
  { rewrite Ec. enough (0 <= map_sum (fun en => count_if (bool_decide (e_peer en = peer))) (elink <$> entries st)) by lia.
    apply map_sum_nonneg. intros x. rewrite count_if_dec. case_decide; lia. }
  unfold qmgr_entry_create. do 2 step. apply wp_bind, wp_panic_if; [done|]. do 9 step.
  split; [|do 2 (split; [done|]); split; [by st_cbn; rewrite insert_insert_eq|]; split; [|split; [|split; [done|split; cols; (done || lia)]]]].
  2:{ st_cbn. rewrite insert_insert_eq, fmap_insert. apply insert_id. by rewrite (col_at plink _ _ _ Hp). }
  2:{ st_cbn. rewrite fmap_insert. apply insert_id. by rewrite (col_at jlink _ _ _ Hj). }
  match goal with |- sound _ _ _ ?s => assert (Hquiet : quiet st s) by (split; cols; (done || lia)) end.
  split; [by eapply quiet_wf|]. split; [by eapply quiet_tags|]. fold e. fold en. split; cols; try assumption.
  - apply (lists_add _ _ Blists e (elink en) (qlists qu)); [exact (col_at qlists _ _ _ Hq)| |by apply Fe'].
    cbn. rewrite <- app_assoc. cbn. by rewrite <- Permutation_middle.
  - apply queue_counts_put; [done|cbn..]; [rewrite size_of_snoc; lia|lia].
  - apply (entry_peers_add _ _ _ _ (plink pe)); [done|by apply (col_at plink)|done].
  - apply (peer_lists_change (elink <$> entries st) _ (qlists <$> queues st) _ _ e _ _ (p_entry_list pe)); [done|exact (col_at pload _ _ _ Hp)| | | | |].
    + intros x y Hx. rewrite waits_insert by done. apply (waits_move _ _ _ (qlists qu) _ e); [by apply col_at| |done].
      intros z Hz. cbn. rewrite elem_of_app, list_elem_of_singleton. naive_solver.
    + intros y Hy. split; intros (x & l & Hx & Ey & _); [by rewrite Fe' in Hx|]. rewrite lookup_insert_eq in Hx. injection Hx as <-. by apply Hy.
    + cbn. apply NoDup_app. split; [exact (proj1 (Bplists _ _ (col_at pload _ _ _ Hp)))|]. split; [|apply NoDup_singleton].
      by intros x Hx ->%list_elem_of_singleton.
    + intros x Hx. cbn. rewrite elem_of_app, list_elem_of_singleton. naive_solver.
    + split; [|intros _; cbn; apply elem_of_app; right; by left]. intros _. exists (elink en), (qlists qu1). cbn. rewrite !lookup_insert_eq.
      do 3 (split; [done|]). apply elem_of_app. right. by left.
  - apply (peer_counts_add _ _ _ _ Bpcounts e (elink en) (p_refcount pe)); [by apply Fe'|exact (col_at p_refcount _ _ _ Hp)|done|done|].
    destruct Hnp as [->| ->]; [by left|by right].
  - apply (entry_jobs_add _ _ _ _ _ (plink pe) (jlink jb)); [done|by apply (col_at plink)|exact (col_at jlink _ _ _ Hj)|done].
  - apply (job_books_change _ _ _ _ Bjob _ _ _ (p_entry_list pe) _ (jcounts jb) _ 0); [by apply col_at|exact (col_at pload _ _ _ Hp)| |cbn..].
    + intros i. rewrite job_rcpts_add by (by apply Fe' || done). case_decide; lia.
    + rewrite size_of_snoc. lia.
    + lia.
  - apply (message_books_add _ _ _ Bmsg e (elink en) (mcounts msg)); [by apply Fe'|by apply (col_at mcounts)|done].
  - apply (message_rcpts_change _ _ Brcpts _ _ (mcounts msg) _ 0); [by apply col_at|cbn; lia|]. intros i.
    rewrite (message_load_add _ _ (eload en)) by (by apply Fe' || done). case_decide; case_decide; lia.
  - apply (control_counts st (p_queue pe) qu qu1); [done|done|done| |intros; cbn; lia].
    destruct (proj1 (proj2 Bcontrol) _ _ (col_at qcontrol _ _ _ Hq)) as (tr0 & _ & Hf%queue_fits_control & _). by destruct Hf.
  - destruct Btotals as [T1 T2]. split; [|done]. by rewrite T1, map_sum_insert_new by by apply Fe'.
  - apply fresh_insert_entry; [by eapply fresh_mono; [|apply Nat.le_succ_diag_r]|lia].
  - intros x xn l Hx Hl Hin. rewrite lookup_insert_dec in Hx. case_decide as Hd; [by injection Hx as <-|].
    rewrite lookup_insert_dec in Hl. case_decide as Hdq; [|by apply (Bstreams x xn l)]. injection Hl as <-.
    apply (Bstreams x xn (qlists qu)); [done|rewrite <- Hdq; exact (col_at qlists _ _ _ Hq)|]. cbn in Hin.
    apply elem_of_app in Hin as [Hin| ->%list_elem_of_singleton]; [done|by destruct Hd].
Qed.

(** ** Adding a recipient *)

Lemma entry_load_wp entry en pe recipient st :
  sound None None None st -> entries st !! entry = Some en -> peers st !! e_peer en = Some pe ->
  wp (upd_entry entry (fun en => set_e_rcpt_list (e_rcpt_list en ++ [recipient]) en);;
      upd_job (p_job pe) (fun jb => set_j_rcpt_count (j_rcpt_count jb + 1) jb);;
      upd_message (e_message en) (fun msg => set_m_rcpt_count (m_rcpt_count msg + 1) msg);;
      modify (fun st => set_qmgr_recipient_count (qmgr_recipient_count st + 1) st)) st
    (fun _ st' => sound None None None st' /\ quiet st st' /\ queues st' = queues st /\ peers st' = peers st /\
       jlink <$> jobs st' = jlink <$> jobs st /\
       entries st' = <[entry := set_e_rcpt_list (e_rcpt_list en ++ [recipient]) en]> (entries st)).
Proof.
  intros Hs He Hp. destruct (entry_placed _ _ _ _ _ _ Hs He) as (pe0 & qu & jb & msg & tr & [P1 P2 P3 P4 P5 P6 P7 P8]).
  destruct Hs as (Hwf & Hodd & H). open_books H. assert (pe0 = pe) as -> by congruence.
  do 4 step. match goal with |- sound _ _ _ ?s /\ _ => assert (Hquiet : quiet st s) by (split; cols; done) end.
  split; [|split; [done|]; do 2 (split; [done|]); split; [by cols|done]].
  split; [by eapply quiet_wf|]. split; [by eapply quiet_tags|].
  assert (El : len (eload en0) = len (eload en) + 1) by (unfold len; cbn; rewrite length_app; cbn; lia).
  split; cols; try assumption.
  - apply (job_books_load _ _ _ _ Bjob _ _ (jcounts jb) _ 1); [by apply col_at| |cbn; lia|cbn; lia].
    intros i. apply (job_rcpts_more _ _ entry (eload en) _ _ (p_queue pe)); [by apply col_at|by apply (col_at plink)|done|done].
  - apply (message_books_keep _ _ _ Bmsg _ (mcounts msg)); [by apply col_at|done].
  - apply (message_rcpts_change _ _ Brcpts _ _ (mcounts msg) _ 1); [by apply col_at|cbn; lia|]. intros i.
    by rewrite (message_load_more _ _ (eload en) _ 1) by (done || by apply col_at).
  - destruct Btotals as [T1 T2]. split; [|done]. rewrite (map_sum_insert _ _ _ _ _ (col_at eload _ _ _ He)), T1. lia.
  - intros x xn l Hx. rewrite lookup_insert_dec in Hx. case_decide as Hd; [|by apply Bstreams]. injection Hx as <-. subst x.
    exact (Bstreams entry en l He).
Qed.

(** ** Dropping an entry *)

Definition tflags (tr : QMGR_TRANSPORT) := (tcontrols tr, t_flags tr).
Definition tkeeps (tr : QMGR_TRANSPORT) := (tflags tr, t_queue_list tr).
Lemma tkeeps_flags st st' : tkeeps <$> transports st' = tkeeps <$> transports st -> tflags <$> transports st' = tflags <$> transports st.
Proof. apply col_coarsen. unfold tkeeps. congruence. Qed.
Lemma tkeeps_queues st st' : tkeeps <$> transports st' = tkeeps <$> transports st -> t_queue_list <$> transports st' = t_queue_list <$> transports st.
Proof. apply col_coarsen. unfold tkeeps. congruence. Qed.
(** Nothing happens to other queues. *)
Definition elsewhere_same (q : nat) (st st' : qmgr) : Prop := forall x, x <> q -> queues st' !! x = queues st !! x.
#[export] Instance elsewhere_same_preorder q : PreOrder (elsewhere_same q).
Proof. split; [done|]. intros s1 s2 s3 H1 H2 x Hx. by rewrite H2, H1. Qed.

(** What stays the same while an entry is disposed of. *)
Record linked (st st' : qmgr) : Prop := mk_linked {
  lk_p : plink <$> peers st' = plink <$> peers st;
  lk_j : jlink <$> jobs st' = jlink <$> jobs st;
  lk_q : qplace <$> queues st' = qplace <$> queues st;
  lk_m : mshape <$> messages st' = mshape <$> messages st;
  lk_t : tkeeps <$> transports st' = tkeeps <$> transports st
}.
#[export] Instance linked_preorder : PreOrder linked.
Proof. split; [done|]. intros s1 s2 s3 [] []. split; congruence. Qed.

Definition on_which (which : which_list) (qu : QMGR_QUEUE) : list nat := if is_busy which then q_busy qu else q_todo qu.

(** The queue without the entry. *)
Definition dropped_queue (which : which_list) (entry : nat) (qu : QMGR_QUEUE) : QMGR_QUEUE :=
  if is_busy which then set_q_busy_refcount (q_busy_refcount qu - 1) (set_q_busy (list_unlink entry (q_busy qu)) qu)
  else set_q_todo_refcount (q_todo_refcount qu - 1) (set_q_todo (list_unlink entry (q_todo qu)) qu).

Lemma dropped_perm which entry qu : entry ∈ on_which which qu ->
  q_todo qu ++ q_busy qu ≡ₚ entry :: q_todo (dropped_queue which entry qu) ++ q_busy (dropped_queue which entry qu).
Proof.
  unfold on_which, dropped_queue. destruct which; cbn; intros H.
  - by rewrite (list_unlink_perm entry (q_todo qu)) at 1.
  - rewrite (list_unlink_perm entry (q_busy qu)) at 1 by done. by rewrite Permutation_middle.
Qed.

Definition dropped_peer (which : which_list) (entry : nat) (pe : QMGR_PEER) : QMGR_PEER :=
  if is_busy which then pe else set_p_entry_list (list_unlink entry (p_entry_list pe)) pe.
Definition dropped_job (which : which_list) (jb : QMGR_JOB) : QMGR_JOB :=
  if is_busy which then jb else set_j_selected_entries (j_selected_entries jb + 1) jb.

Lemma put_peer_id p pe st : peers st !! p = Some pe -> put_peer p pe st = st.
Proof. intros H. unfold put_peer. rewrite insert_id by done. by destruct st. Qed.
Lemma put_job_id j jb st : jobs st !! j = Some jb -> put_job j jb st = st.
Proof. intros H. unfold put_job. rewrite insert_id by done. by destruct st. Qed.

Lemma entry_unlink_wp entry en which qu pe jb st (Q : unit -> qmgr -> Prop) :
  queues st !! e_queue en = Some qu -> peers st !! e_peer en = Some pe -> jobs st !! p_job pe = Some jb ->
  Q tt (put_peer (e_peer en) (dropped_peer which entry pe) (put_job (p_job pe) (dropped_job which jb)
    (put_queue (e_queue en) (dropped_queue which entry qu) st))) ->
  wp (entry_unlink entry en (p_job pe) which) st Q.
Proof.
  intros Hq Hp Hj HQ. destruct which; cbn [entry_unlink].
  - do 3 step. eapply wp_upd_queue; [look|]. cbn in HQ. unfold put_queue, put_peer, put_job in *. cbn in *. by rewrite insert_insert_eq.
  - step. eapply wp_upd_queue; [look|]. unfold dropped_peer, dropped_job, dropped_queue in HQ. cbn [is_busy] in HQ.
    rewrite put_job_id, put_peer_id in HQ by done. by rewrite put_queue_twice.
Qed.

Lemma dropped_todo which entry qu x : NoDup (q_todo qu) -> entry ∈ on_which which qu -> (entry ∈ q_todo qu -> entry ∉ q_busy qu) ->
  x ∈ q_todo (dropped_queue which entry qu) <-> x ∈ q_todo qu /\ x <> entry.
Proof. unfold on_which, dropped_queue. destruct which; cbn; intros; [by apply list_unlink_elem|]. naive_solver. Qed.

Section drop.
Context (st : qmgr) (entry : nat) (en : QMGR_ENTRY) (which : which_list) (qu : QMGR_QUEUE) (pe : QMGR_PEER) (jb : QMGR_JOB).
Context (Hb : books None None None st) (He : entries st !! entry = Some en) (Hq : queues st !! e_queue en = Some qu)
  (Hp : peers st !! e_peer en = Some pe) (Hj : jobs st !! p_job pe = Some jb) (Hpq : p_queue pe = e_queue en) (Hin : entry ∈ on_which which qu).
#[local] Set Default Proof Using "Type".
#[local] Notation qu' := (dropped_queue which entry qu).
#[local] Notation pe' := (dropped_peer which entry pe).
#[local] Notation jb' := (dropped_job which jb).

Lemma drop_todo x : x ∈ q_todo qu' <-> x ∈ q_todo qu /\ x <> entry.
Proof using Hb Hq Hin.
  destruct (lists_nodup st en qu Hq (bk_lists _ _ _ _ Hb)) as (N1 & N2 & N3). apply dropped_todo; [done..|]. intros H1 H2. by apply (N3 entry).
Qed.
Lemma drop_peer_list x : x ∈ p_entry_list pe' <-> x ∈ p_entry_list pe /\ x <> entry.
Proof using Hb He Hq Hp Hin.
  pose proof (peer_nodup st en pe Hp (bk_peer_lists _ _ _ _ Hb)) as N4.
  pose proof (entry_waits st entry en qu pe He Hq Hp (bk_peer_lists _ _ _ _ Hb)) as Hw.
  destruct (lists_nodup st en qu Hq (bk_lists _ _ _ _ Hb)) as (N1 & N2 & N3).
  unfold dropped_peer. unfold on_which in Hin. destruct which; cbn in *; [by apply list_unlink_elem|]. naive_solver.
Qed.

Lemma drop_peer_lists : peer_lists (delete entry (elink <$> entries st)) (<[e_queue en := qlists qu']> (qlists <$> queues st))
  (<[e_peer en := (p_job pe, p_entry_list pe')]> (pload <$> peers st)).
Proof using Hb He Hq Hp Hin.
  pose proof (peer_nodup st en pe Hp (bk_peer_lists _ _ _ _ Hb)) as N4.
  apply (peer_lists_change (elink <$> entries st) _ (qlists <$> queues st) _ _ entry _ _ (p_entry_list pe)); [apply Hb|exact (col_at pload _ _ _ Hp)| | | | |].
  - intros x y Hx. rewrite waits_delete by done. apply (waits_move _ _ _ (qlists qu) _ entry); [by apply col_at| |done].
    intros z Hz. cbn. rewrite drop_todo. naive_solver.
  - intros y Hy. split; intros Hx; [by apply (waits_peer _ _ _ _ _ (col_at elink _ _ _ He)) in Hx|].
    destruct Hx as (x & l & Hx & _). by rewrite lookup_delete_eq in Hx.
  - unfold dropped_peer. destruct which; cbn; [by apply list_unlink_nodup|done].
  - intros x Hx. rewrite drop_peer_list. naive_solver.
  - rewrite drop_peer_list. split; [naive_solver|]. intros (x & l & Hx & _). by rewrite lookup_delete_eq in Hx.
Qed.

Lemma drop_job_books jb0 : jcounts jb0 = jcounts (set_j_rcpt_count (j_rcpt_count jb' - len (eload en)) jb') ->
  job_books (delete entry (eload <$> entries st)) (plink <$> peers st) (<[e_peer en := (p_job pe, p_entry_list pe')]> (pload <$> peers st))
    (<[p_job pe := jcounts jb0]> (jcounts <$> jobs st)).
Proof using Hb He Hq Hp Hj Hpq Hin.
  intros ->. pose proof (entry_waits st entry en qu pe He Hq Hp (bk_peer_lists _ _ _ _ Hb)) as Hw.
  pose proof (peer_nodup st en pe Hp (bk_peer_lists _ _ _ _ Hb)) as N4.
  apply (job_books_change _ _ _ _ (bk_job_books _ _ _ _ Hb) _ _ _ (p_entry_list pe) (p_entry_list pe') (jcounts jb) _ (- len (eload en)));
    [by apply col_at|exact (col_at pload _ _ _ Hp)| | |].
  - intros i. apply (job_rcpts_drop _ _ entry (eload en) _ (p_queue pe)); [by apply col_at|by apply (col_at plink)].
  - unfold dropped_job, dropped_peer. unfold on_which in Hin. destruct which; cbn in *; [|lia]. rewrite size_of_unlink by (by apply Hw). lia.
  - unfold dropped_job, len. destruct which; cbn; lia.
Qed.

Lemma drop_control : queue_control (<[e_queue en := qcontrol qu']> (qcontrol <$> queues st)) (tcontrol <$> transports st) (queue_timers st) (resume_timers st).
Proof using Hb Hq Hin.
  clear He Hp Hj Hpq. destruct (bk_queue_counts _ _ _ _ Hb _ _ _ (col_at qlists _ _ _ Hq) (col_at qcontrol _ _ _ Hq)) as [C1 C2]. cbn in C1, C2.
  assert (0 < q_busy_refcount qu' + 1 <= q_busy_refcount qu + 1).
  { unfold dropped_queue, on_which in *. destruct which; cbn in *; unfold size_of in C2; [lia|].
    destruct (q_busy qu); [by apply not_elem_of_nil in Hin|cbn in *; lia]. }
  pose proof (bk_control _ _ _ _ Hb) as Bcontrol.
  destruct (proj1 (proj2 Bcontrol) _ _ (col_at qcontrol _ _ _ Hq)) as (tr0 & _ & Hf%queue_fits_control & _).
  apply (control_counts st (e_queue en) qu qu'); [done|done|by destruct which|destruct Hf; cbn in *; lia|]. intros tr1 Hf1. lia.
Qed.
End drop.

Lemma entry_drop_wp entry en which qu pe jb msg st :
  sound None None None st -> entries st !! entry = Some en -> queues st !! e_queue en = Some qu -> peers st !! e_peer en = Some pe ->
  jobs st !! p_job pe = Some jb -> messages st !! e_message en = Some msg -> entry ∈ on_which which qu ->
  wp (entry_unlink entry en (p_job pe) which;; entry_release entry en (p_job pe)) st (fun _ st' =>
    sound None (Some (e_peer en)) (Some (e_message en)) st' /\ linked st st' /\ elsewhere_same (e_queue en) st st' /\
    queues st' !! e_queue en = Some (dropped_queue which entry qu) /\ entries st' = delete entry (entries st)).
Proof.
  intros Hs He Hq P1 P4 P5 Hin. destruct (entry_placed _ _ _ _ _ _ Hs He) as (pe0 & qu0 & jb0 & msg0 & tr & [R1 R2 P3 R4 R5 P6 P7 P8]).
  assert (pe0 = pe) as -> by congruence. assert (qu0 = qu) as -> by congruence. assert (jb0 = jb) as -> by congruence.
  destruct Hs as (Hwf & Hodd & Hbooks). pose proof Hbooks as H. open_books H.
  destruct (lists_nodup st en qu Hq Blists) as (N1 & N2 & N3). pose proof (peer_nodup st en pe P1 Bplists) as N4.
  destruct (Bqcounts _ _ _ (col_at qlists _ _ _ Hq) (col_at qcontrol _ _ _ Hq)) as [C1 C2]. cbn in C1, C2.
  pose proof (entry_waits st entry en qu pe He Hq P1 Bplists) as Hw.
  assert (Hj' : forall x, j_rcpt_count x = j_rcpt_count (dropped_job which x)) by (by destruct which).
  apply wp_bind, (entry_unlink_wp _ _ _ qu _ jb); [done..|]. unfold entry_release. cbv zeta. do 4 step.
  set (qu' := dropped_queue which entry qu). set (pe' := dropped_peer which entry pe) in *. set (jb' := dropped_job which jb) in *.
  assert (Eq : qsteady qu' = qsteady qu /\ qplace qu' = qplace qu) by (by destruct which). destruct Eq as [Eqs Eqp].
  assert (Ep : plink pe' = plink pe /\ p_refcount pe' = p_refcount pe) by (by destruct which). destruct Ep as [Epl Epr].
  assert (Ej : jlink jb' = jlink jb /\ jpeers jb' = jpeers jb /\ jshape jb' = jshape jb) by (by destruct which). destruct Ej as (Ej1 & Ej2 & Ej3).
  assert (Hcols : plink <$> <[e_peer en := pe']> (peers st) = plink <$> peers st /\ p_refcount <$> <[e_peer en := pe']> (peers st) = p_refcount <$> peers st /\
    qplace <$> <[e_queue en := qu']> (queues st) = qplace <$> queues st).
  { rewrite !fmap_insert, Epl, Epr, Eqp. split; [|split]; apply insert_id; by apply col_at. }
  destruct Hcols as (K1 & K2 & K3). match goal with |- sound _ _ _ ?s /\ _ => set (st' := s) end.
  assert (Ej1' : jlink jb0 = jlink jb) by exact Ej1. assert (Ej2' : jpeers jb0 = jpeers jb) by exact Ej2.
  assert (Hjc : jlink <$> jobs st' = jlink <$> jobs st /\ jpeers <$> jobs st' = jpeers <$> jobs st /\ jshape <$> jobs st' = jshape <$> jobs st).
  { unfold st'. st_cbn. rewrite insert_insert_eq, !fmap_insert, Ej1', Ej2'. split; [|split]; apply insert_id; [by apply col_at..|].
    rewrite (col_at jshape _ _ _ P4). by f_equal. }
  destruct Hjc as (K4 & K5 & K6).
  assert (Kp : plink <$> peers st' = plink <$> peers st) by exact K1. assert (Kr : p_refcount <$> peers st' = p_refcount <$> peers st) by exact K2.
  assert (Kq : qplace <$> queues st' = qplace <$> queues st) by exact K3.
  assert (Hquiet : quiet st st') by (split; [done|exact K6|unfold st'; cols; done|done]).
  split; [|split; [|split; [by intros x Hx; apply lookup_insert_ne|split; [apply lookup_insert_eq|done]]]]; [|split; [exact Kp|exact K4|exact Kq|unfold st'; cols; done|done]].
  split; [by eapply quiet_wf|]. split; [by eapply quiet_tags|].
  assert (Epw : pload pe' = (p_job pe, p_entry_list pe')) by (by destruct which).
  pose proof (dropped_perm which entry qu Hin) as Hperm. fold qu' in Hperm.
  split; rewrite ?Kp, ?Kr, ?Kq, ?K4, ?K5; try assumption; unfold st'; cols; rewrite ?Epw; try assumption.
  - by apply (lists_drop _ _ Blists entry (elink en) (qlists qu)); [apply col_at|exact (col_at qlists _ _ _ Hq)|].
  - apply queue_counts_put; [done|..]; unfold qu', dropped_queue, on_which in *; destruct which; cbn in *; rewrite ?size_of_unlink by done; lia.
  - by apply entry_peers_drop.
  - by apply drop_peer_lists.
  - by apply (peer_counts_drop _ _ _ _ Bpcounts entry (elink en)); [apply col_at|].
  - by apply entry_jobs_drop.
  - by apply (drop_job_books st entry en which qu pe jb).
  - apply (message_books_keep _ (mcounts <$> messages st) (Some (e_message en))) with (c := mcounts msg0); [|by apply col_at|done].
    by apply (message_books_drop _ _ _ Bmsg entry (elink en)); [apply col_at|].
  - apply (message_rcpts_change _ _ Brcpts _ _ (mcounts msg0) _ (- len (eload en))); [by apply col_at|unfold len; cbn; lia|].
    intros i. by rewrite (message_load_drop _ _ (eload en)) by by apply col_at.
  - by apply (drop_control st entry).
  - destruct Btotals as [T1 T2]. split; [|done]. rewrite (map_sum_delete _ _ _ _ (col_at eload _ _ _ He)), T1. done.
  - apply (proj1 (fresh_delete _ _ _ _ Bfresh)).
  - intros x xn l Hx Hl Hi. rewrite lookup_delete_dec in Hx. case_decide as Hd; [done|]. rewrite lookup_insert_dec in Hl.
    case_decide as Hdq; [|by apply (Bstreams x xn l)]. injection Hl as <-. apply (Bstreams x xn (qlists qu)); [done|rewrite <- Hdq; by apply (col_at qlists)|].
    cbn in Hi. by apply (drop_todo st entry en which qu Hbooks Hq Hin) in Hi as [? _].
Qed.

(** ** Dropping references *)

Lemma cols_entry_free E N PL n p : all_fresh E N PL n -> all_fresh E N (delete p PL) n.
Proof. intros H. apply (proj2 (proj2 (fresh_delete _ _ _ _ H))). Qed.

Lemma peer_free_wp peer pe dm st :
  sound (Some peer) None dm st -> peers st !! peer = Some pe -> p_refcount pe = 0 ->
  wp (qmgr_peer_free peer) st (fun _ st' => sound None None dm st' /\ queues st' = queues st /\ entries st' = entries st /\
    messages st' = messages st /\ transports st' = transports st /\ jlink <$> jobs st' = jlink <$> jobs st).
Proof.
  intros (Hwf & Hodd & H) Hp Hz. open_books H.
  assert (Hno : forall e en, (elink <$> entries st) !! e = Some en -> e_peer en <> peer).
  { apply (peer_unused _ _ _ _ Bpcounts). by rewrite (col_at _ _ _ _ Hp), Hz. }
  destruct (proj1 Bpjobs _ _ (col_at plink _ _ _ Hp)) as (jl & jp & n & (jb & Hj & ->)%col_inv & Hjp & (qu & Hq & ->)%col_inv & Et & Hin & Hname).
  cbn in Hj, Hjp, Hq, Et, Hname. apply (col_inv_at _ _ _ _ _ Hj) in Hjp as ->. cbn in Hin, Hname.
  assert (Hempty : p_entry_list pe = []).
  { destruct (p_entry_list pe) as [|e l] eqn:El; [done|]. exfalso.
    destruct (proj1 (proj2 (Bplists _ _ (col_at pload _ _ _ Hp)) e)) as (x & y & Hx & Ep & _); [cbn; rewrite El; by left|].
    by apply (Hno e x). }
  unfold qmgr_peer_free. step. apply wp_bind, wp_panic_if; [by rewrite Hz|]. apply wp_bind, wp_panic_if; [by rewrite Hempty|].
  do 3 step. apply wp_bind, wp_panic_if; [apply bool_decide_eq_false; cbn; rewrite Hname; done|]. do 2 step.
  match goal with |- sound _ _ _ ?s /\ _ => assert (Hquiet : quiet st s) by (split; cols; done) end.
  split; [|do 4 (split; [done|]); cols; done].
  split; [by eapply quiet_wf|]. split; [by eapply quiet_tags|]. split; cols; try assumption.
  - by apply entry_peers_free.
  - intros p w. rewrite lookup_delete_dec. case_decide; [done|]. apply Bplists.
  - by apply (peer_counts_free _ _ _ _ Bpcounts).
  - apply (peer_jobs_free _ _ _ _ Bpjobs _ _ (p_queue pe) (jpeers jb) (qplace qu)); [exact (col_at plink _ _ _ Hp)|by apply col_at..].
  - by apply entry_jobs_free.
  - apply (job_books_free _ _ _ _ Bjob _ (p_job pe)); [rewrite (col_at _ _ _ _ Hp); unfold pload; by rewrite Hempty|].
    intros e en (x & Hx & ->)%col_inv. apply (Hno e (elink x)). by apply col_at.
  - by apply cols_entry_free.
Qed.

Lemma peer_release_wp peer pe dm st :
  sound None (Some peer) dm st -> peers st !! peer = Some pe ->
  wp (peer_release peer) st (fun _ st' => sound None None dm st' /\ queues st' = queues st /\ entries st' = entries st /\
    messages st' = messages st /\ transports st' = transports st /\ jlink <$> jobs st' = jlink <$> jobs st).
Proof.
  intros (Hwf & Hodd & H) Hp. open_books H. unfold peer_release. do 2 step.
  set (st1 := put_peer peer pe0 st). assert (Hquiet : quiet st st1) by (split; unfold st1; cols; done).
  assert (Hs : forall np, np = Some peer \/ (np = None /\ p_refcount pe0 <> 0) -> sound np None dm st1).
  { intros np Hnp. split; [by eapply quiet_wf|]. split; [by eapply quiet_tags|]. split; unfold st1; cols; try assumption.
    apply (peer_counts_dec _ _ _ _ Bpcounts _ (p_refcount pe)); [by apply col_at|done|done|done|exact Hnp]. }
  destruct (Z.eqb_spec (p_refcount pe0) 0) as [Hz|Hz].
  - eapply wp_mono; [apply (peer_free_wp peer pe0 dm st1); [apply Hs; by left|apply lookup_insert_eq|done]|].
    by intros ? st' Hx.
  - apply wp_ret. split; [|done]. apply Hs. by right.
Qed.

Lemma message_release_wp message msg st (Q : bool -> qmgr -> Prop) :
  sound None None (Some message) st -> messages st !! message = Some msg ->
  (forall st', sound None None None st' -> queues st' = queues st -> peers st' = peers st -> jobs st' = jobs st -> entries st' = entries st ->
     transports st' = transports st -> messages st' = <[message := set_m_refcount (m_refcount msg - 1) msg]> (messages st) -> Q (m_refcount msg - 1 =? 0) st') ->
  wp (upd_message message (fun msg => set_m_refcount (m_refcount msg - 1) msg);;
      msg ← get_message message;
      mret (m_refcount msg =? 0)) st Q.
Proof.
  intros (Hwf & Hodd & H) Hm HQ. open_books H. do 3 step. apply HQ; try done.
  match goal with |- sound _ _ _ ?s => assert (Hquiet : quiet st s) by (split; cols; done) end.
  split; [by eapply quiet_wf|]. split; [by eapply quiet_tags|]. split; cols; try assumption.
  - apply (message_books_dec _ _ _ Bmsg _ (mcounts msg)); [by apply col_at|done|done].
  - apply (message_rcpts_change _ _ Brcpts _ _ (mcounts msg) _ 0); [by apply col_at|cbn; lia|]. intros i. case_decide; lia.
Qed.

(** ** Controlling a queue *)

(** [st] with another control state of [q], and other timers for it. *)
Definition recontrolled (q : nat) (qu' : QMGR_QUEUE) (T R : gset nat) (st : qmgr) : qmgr :=
  put_queue q qu' (set_queue_timers T (set_resume_timers R st)).

(** The books do not depend on control. *)
Definition steady (st st' : qmgr) : Prop := linked st st' /\ qlists <$> queues st' = qlists <$> queues st /\
  entries st' = entries st /\ peers st' = peers st /\ m_job_list <$> messages st' = m_job_list <$> messages st.

#[export] Instance steady_preorder : PreOrder steady.
Proof.
  split; [done|]. intros s1 s2 s3 (A1 & A2 & A3 & A4 & A5) (B1 & B2 & B3 & B4 & B5).
  split; [by etrans|]. repeat split; congruence.
Qed.

Lemma queue_controlled np dp dm st q qu : sound np dp dm st -> queues st !! q = Some qu -> exists tr,
  transports st !! q_transport qu = Some tr /\ transport_ok tr /\ queue_fits tr qu /\
  (q ∈ queue_timers st <-> q_window qu = QMGR_QUEUE_STAT_THROTTLED) /\ (q ∈ resume_timers st <-> q_window qu = QMGR_QUEUE_STAT_SUSPENDED).
Proof.
  intros (_ & _ & H) Hq. destruct (bk_control _ _ _ _ H) as (H1 & H2 & _).
  destruct (H2 _ _ (col_at qcontrol _ _ _ Hq)) as (x & Hx & Hf & Ht). cbn in Hx, Ht. pose proof Hx as (tr & Htr & ->)%col_inv.
  exists tr. split; [done|]. split; [by apply transport_ok_control, (H1 _ _ Hx)|]. split; [|done].
  by apply queue_fits_control, queue_fits_transport.
Qed.

Lemma recontrolled_sound np dp dm st q qu qu' tr T R :
  sound np dp dm st -> queues st !! q = Some qu -> transports st !! q_transport qu = Some tr -> queue_fits tr qu' -> qstatic qu' = qstatic qu ->
  (forall x, x <> q -> (x ∈ T <-> x ∈ queue_timers st) /\ (x ∈ R <-> x ∈ resume_timers st)) ->
  (q ∈ T <-> q_window qu' = QMGR_QUEUE_STAT_THROTTLED) -> (q ∈ R <-> q_window qu' = QMGR_QUEUE_STAT_SUSPENDED) ->
  sound np dp dm (recontrolled q qu' T R st) /\ steady st (recontrolled q qu' T R st) /\ elsewhere_same q st (recontrolled q qu' T R st).
Proof.
  intros (Hwf & Hodd & H) Hq Ht Hf Hs Hx HT HR. unfold qstatic in Hs. injection Hs as E1 E2 E3 E4 E5 E6 E7 E8. open_books H.
  assert (El : qlists qu' = qlists qu) by (unfold qlists; congruence). assert (Ep : qplace qu' = qplace qu) by (unfold qplace; congruence).
  assert (Hcol : qlists <$> <[q := qu']> (queues st) = qlists <$> queues st /\ qplace <$> <[q := qu']> (queues st) = qplace <$> queues st).
  { rewrite !fmap_insert, El, Ep. split; apply insert_id; by apply col_at. }
  destruct Hcol as [Cl Cp].
  assert (Hquiet : quiet st (recontrolled q qu' T R st)) by done.
  split; [|split; [|by intros x Hnx; apply lookup_insert_ne]]; [|split; [split; try done; exact Cp|]; repeat split; exact Cl].
  split; [by eapply quiet_wf|]. split; [by eapply quiet_tags|].
  split; unfold recontrolled; st_cbn; rewrite ?Cl, ?Cp; try assumption; cols.
  - apply (queue_counts_control _ _ _ (qcontrol qu)); [done|by apply col_at|done|done].
  - apply (queue_control_put _ _ _ _ Bcontrol _ (qcontrol qu) _ (tcontrol tr)); [by apply col_at|done|by apply (col_at tcontrol)| |done|exact HT|exact HR].
    by apply queue_fits_control, queue_fits_transport.
Qed.

(** After qmgr_queue_unthrottle(). *)
Lemma unthrottle_sound np dp dm q qu st :
  sound np dp dm st -> queues st !! q = Some qu -> 0 <= q_window qu ->
  wp (qmgr_queue_unthrottle q) st (fun _ st' => sound np dp dm st' /\ steady st st' /\ elsewhere_same q st st' /\
    exists qu', queues st' !! q = Some qu' /\ qstatic qu' = qstatic qu /\ 0 < q_window qu' /\
      transports st' = transports st /\ jobs st' = jobs st /\ messages st' = messages st).
Proof.
  intros Hs Hq Hw. destruct (queue_controlled _ _ _ _ _ _ Hs Hq) as (tr & Ht & Hk & Hf & HT & HR).
  eapply wp_mono; [by apply (unthrottle_queue_wp q qu tr)|]. intros ? st' (qu' & Hw' & _ & -> & Hf' & Hst).
  set (T := if QMGR_QUEUE_THROTTLED qu then _ else _). change (set_queue_timers T st) with (set_queue_timers T (set_resume_timers (resume_timers st) st)).
  fold (recontrolled q qu' T (resume_timers st) st).
  assert (Hr : sound np dp dm (recontrolled q qu' T (resume_timers st) st) /\ steady st (recontrolled q qu' T (resume_timers st) st) /\
    elsewhere_same q st (recontrolled q qu' T (resume_timers st) st)).
  { unfold QMGR_QUEUE_STAT_THROTTLED, QMGR_QUEUE_STAT_SUSPENDED, QMGR_QUEUE_THROTTLED in *. apply (recontrolled_sound _ _ _ _ _ qu _ tr); try done.
    - intros x Hx. split; [|done]. unfold T, QMGR_QUEUE_STAT_THROTTLED. case_match; [|done]. set_solver.
    - unfold T, QMGR_QUEUE_STAT_THROTTLED. split; [|unfold QMGR_QUEUE_STAT_THROTTLED; lia]. case_match; [set_solver|]. intros HTq%HT. lia.
    - unfold QMGR_QUEUE_STAT_SUSPENDED. split; [|lia]. intros HRq%HR. lia. }
  destruct Hr as (R1 & R2 & R3). split; [done|]. split; [done|]. split; [done|]. exists qu'. split; [apply lookup_insert_eq|]. done.
Qed.

Lemma throttle_sound np dp dm q qu dsn st :
  sound np dp dm st -> queues st !! q = Some qu -> 0 < q_window qu ->
  wp (qmgr_queue_throttle q dsn) st (fun _ st' => sound np dp dm st' /\ steady st st' /\ elsewhere_same q st st' /\
    exists qu', queues st' !! q = Some qu' /\ qstatic qu' = qstatic qu /\ 0 <= q_window qu').
Proof.
  intros Hs Hq Hw. destruct (queue_controlled _ _ _ _ _ _ Hs Hq) as (tr & Ht & Hk & Hf & HT & HR).
  eapply wp_mono; [by apply (throttle_queue_wp q qu tr)|]. intros ? st' (qu' & Hw' & -> & Hf' & Hst).
  set (T := if QMGR_QUEUE_THROTTLED qu' then _ else _). change (set_queue_timers T st) with (set_queue_timers T (set_resume_timers (resume_timers st) st)).
  fold (recontrolled q qu' T (resume_timers st) st).
  assert (Hr : sound np dp dm (recontrolled q qu' T (resume_timers st) st) /\ steady st (recontrolled q qu' T (resume_timers st) st) /\
    elsewhere_same q st (recontrolled q qu' T (resume_timers st) st)).
  { unfold QMGR_QUEUE_STAT_THROTTLED, QMGR_QUEUE_STAT_SUSPENDED, QMGR_QUEUE_THROTTLED in *. apply (recontrolled_sound _ _ _ _ _ qu _ tr); try done.
    - intros x Hx. split; [|done]. unfold T, QMGR_QUEUE_STAT_THROTTLED. case_match; [|done]. set_solver.
    - unfold T, QMGR_QUEUE_STAT_THROTTLED. destruct (Z.eqb_spec (q_window qu') 0) as [E|E]; [set_solver|]. split; [|done]. intros HTq%HT. lia.
    - unfold QMGR_QUEUE_STAT_SUSPENDED. split; [|lia]. intros HRq%HR. lia. }
  destruct Hr as (R1 & R2 & R3). split; [done|]. split; [done|]. split; [done|]. exists qu'. split; [apply lookup_insert_eq|]. by destruct Hw'.
Qed.

Lemma suspend_sound np dp dm q qu tr delay st :
  sound np dp dm st -> queues st !! q = Some qu -> 0 < q_window qu -> q_busy_refcount qu = 0 ->
  transports st !! q_transport qu = Some tr -> 0 < t_rate_delay tr ->
  wp (qmgr_queue_suspend q delay) st (fun _ st' => sound np dp dm st' /\ steady st st' /\ elsewhere_same q st st').
Proof.
  intros Hs Hq Hw Hb Ht Hd. destruct (queue_controlled _ _ _ _ _ _ Hs Hq) as (tr' & Ht' & Hk & Hf & HT & HR).
  assert (tr' = tr) as -> by congruence. unfold qmgr_queue_suspend. step. apply wp_bind, wp_panic_if; [unfold QMGR_QUEUE_READY; lia|].
  apply wp_bind, wp_panic_if; [lia|]. do 2 step.
  match goal with |- sound _ _ _ ?s /\ _ => change s with (recontrolled q qu0 (queue_timers st) (resume_timers st ∪ {[q]}) st) end.
  unfold QMGR_QUEUE_STAT_THROTTLED, QMGR_QUEUE_STAT_SUSPENDED in *.
  apply (recontrolled_sound _ _ _ _ _ qu _ tr); try done.
  - destruct Hf. split; cbn; unfold QMGR_QUEUE_STAT_THROTTLED, QMGR_QUEUE_STAT_SUSPENDED, INT_MAX in *; try done; try lia. rewrite qf_dsn. lia.
  - intros x Hx. set_solver.
  - cbn. rewrite HT. unfold QMGR_QUEUE_STAT_THROTTLED. lia.
  - cbn. unfold QMGR_QUEUE_STAT_SUSPENDED. set_solver.
Qed.

(** The queue and its transport, seen through the columns. *)
Lemma steady_queue st st' q qu : steady st st' -> queues st !! q = Some qu -> exists qu',
  queues st' !! q = Some qu' /\ q_transport qu' = q_transport qu /\ q_name qu' = q_name qu /\ q_todo qu' = q_todo qu /\ q_busy qu' = q_busy qu.
Proof.
  intros ([_ _ Hp _ _] & Hl & _) Hq. destruct (col_some _ _ _ _ _ (eq_sym Hp) Hq) as (qu' & Hq' & E1).
  destruct (col_some _ _ _ _ _ (eq_sym Hl) Hq) as (qu2 & Hq2 & E2). assert (qu2 = qu') as -> by congruence. exists qu'.
  unfold qplace, qlists in *. split; [done|]. injection E1. injection E2. intros. by repeat split.
Qed.
Lemma linked_transport_some st st' t tr : linked st st' -> transports st !! t = Some tr -> exists tr', transports st' !! t = Some tr' /\ tcontrols tr' = tcontrols tr /\ t_flags tr' = t_flags tr.
Proof. intros [_ _ _ _ Ht] H. destruct (col_some _ _ _ _ _ (eq_sym Ht) H) as (tr' & ? & E). exists tr'. unfold tkeeps, tflags in E. split; [done|]. split; congruence. Qed.

Lemma entry_rate_delay_wp np dp dm queue transport which qu st :
  sound np dp dm st -> queues st !! queue = Some qu -> q_transport qu = transport -> (is_busy which = true -> forall tr,
    transports st !! transport = Some tr -> 0 < t_rate_delay tr -> q_busy_refcount qu = 0) ->
  wp (entry_rate_delay queue transport which) st (fun _ st' => sound np dp dm st' /\ steady st st' /\ elsewhere_same queue st st').
Proof.
  intros Hs Hq Hqt Hb. destruct (queue_controlled _ _ _ _ _ _ Hs Hq) as (tr & Ht & Hk & Hf & _). rewrite Hqt in Ht.
  unfold entry_rate_delay. step. destruct (is_busy which && (t_rate_delay tr >? 0)) eqn:E; [|by step].
  apply andb_prop in E as [E1 E2]. assert (Hrd : 0 < t_rate_delay tr) by lia. specialize (Hb E1 tr Ht Hrd).
  assert (Hlim : t_dest_concurrency_limit tr = 1) by (by apply Hk). destruct (qf_limit _ _ Hf) as [Hw1 _]; [lia|].
  step. apply wp_bind, wp_panic_if; [lia|]. apply wp_bind.
  apply (wp_mono _ _ (fun _ st1 => sound np dp dm st1 /\ steady st st1 /\ elsewhere_same queue st st1 /\
    exists qu1, queues st1 !! queue = Some qu1 /\ qstatic qu1 = qstatic qu)).
  { apply wp_if; intros Hth; [|apply wp_ret; split; [done|]; split; [done|]; split; [done|]; by exists qu].
    unfold QMGR_QUEUE_THROTTLED, QMGR_QUEUE_STAT_THROTTLED in Hth.
    eapply wp_mono; [apply (unthrottle_sound np dp dm queue qu); [done|done|lia]|]. intros ? st1 (H1 & H2 & He & qu1 & H3 & H4 & _).
    split; [done|]. split; [done|]. split; [done|]. by exists qu1. }
  intros ? st1 (H1 & H2 & He & qu1 & Hq1 & Hst). unfold qstatic in Hst. injection Hst as _ _ _ Eb Et _ _ _.
  step. apply wp_if; intros Hr; [|by step]. unfold QMGR_QUEUE_READY in Hr.
  destruct (linked_transport_some _ _ _ _ (proj1 H2) Ht) as (tr1 & Ht1 & E & _). unfold tcontrols in E. injection E as _ _ _ _ E _.
  eapply wp_mono; [apply (suspend_sound np dp dm queue qu1 tr1 _ st1); [done|done|lia|lia|congruence|congruence]|].
  intros ? st2 (S1 & S2 & S3). split; [done|]. split; by etrans.
Qed.

Lemma blocker_update_wp np dp dm queue st qu :
  sound np dp dm st -> queues st !! queue = Some qu ->
  wp (qmgr_job_blocker_update queue) st (fun _ st' => sound np dp dm st' /\ steady st st' /\ elsewhere_same queue st st').
Proof.
  intros Hs Hq. destruct (queue_controlled _ _ _ _ _ _ Hs Hq) as (tr & Ht & _). destruct Hs as (Hwf & Hodd & H).
  unfold qmgr_job_blocker_update. do 2 step. apply wp_if; intros _; [|by step].
  apply wp_bind. apply (wp_mono _ _ (fun _ st1 => exists tr1, st1 = put_transport (q_transport qu) tr1 st /\ tcontrol tr1 = tcontrol tr /\ t_flags tr1 = t_flags tr /\ t_queue_list tr1 = t_queue_list tr /\
    sound np dp dm st1)).
  { apply wp_if; intros _.
    - do 3 step. set (tr2 := set_t_candidate_cache_current None tr1). exists tr2. rewrite !put_put_transport.
      do 4 (split; [done|]). split; [|split].
      + apply (wf_put_cursors _ _ tr); try done; [by right| |].
        * cbn. intros j Hj. destruct (t_job_list tr) as [|x l]; [done|]. injection Hj as ->. by left.
        * apply (wf_wf_cursors _ Hwf _ _ Ht).
      + intros t trx. st_cbn. rewrite lookup_insert_dec. case_decide; [|apply Hodd]. intros [= <-]. cbn.
        rewrite Z.odd_add, (Hodd _ _ Ht). done.
      + open_books H. split; cols; done.
    - step. exists tr. split; [|do 3 (split; [done|]); by split]. unfold put_transport. rewrite insert_id by done. by destruct st. }
  intros ? st1 (tr1 & -> & Etr & Efl & Eql & Hs1). set (st1 := put_transport (q_transport qu) tr1 st) in *.
  assert (Hst1 : steady st st1).
  { split; [split; unfold st1; cols; try done|done]. apply insert_id. rewrite (col_at tkeeps _ _ _ Ht). f_equal.
    unfold tkeeps, tflags. rewrite Efl, Eql. do 2 f_equal. change (tcontrols (tcontrol tr) = tcontrols (tcontrol tr1)). by rewrite Etr. }
  apply wp_if; intros _; [|by step]. assert (Hq1 : queues st1 !! queue = Some qu) by done. step.
  destruct (queue_controlled _ _ _ _ _ _ Hs1 Hq1) as (tr2 & Ht2 & _). destruct Hs1 as (Hwf1 & Hodd1 & H1).
  match goal with |- sound _ _ _ ?s /\ _ => assert (Hquiet : quiet st1 s) by (split; cols; done) end.
  split; [split; [by eapply quiet_wf|]; split; [by eapply quiet_tags|]; open_books H1; split; cols; done|].
  split; [|by intros x Hx; apply lookup_insert_ne].
  etrans; [exact Hst1|]. split; [split; cols; done|]. repeat split. cols. done.
Qed.

Lemma entry_unblock_wp np dp dm queue transport st qu :
  sound np dp dm st -> queues st !! queue = Some qu -> is_Some (transports st !! transport) ->
  wp (entry_unblock queue transport) st (fun _ st' => sound np dp dm st' /\ steady st st' /\ elsewhere_same queue st st').
Proof.
  intros Hs Hq [tr Ht]. unfold entry_unblock. do 2 step. apply wp_if; intros _; [|by step]. by eapply blocker_update_wp.
Qed.

(** ** Creating and discarding queues *)

Lemma queue_create_wp transport name tr st :
  sound None None None st -> transports st !! transport = Some tr -> t_queue_byname tr !! name = None ->
  wp (qmgr_queue_create transport name) st (fun q st' => sound None None None st' /\
    messages st' = messages st /\ jobs st' = jobs st /\ peers st' = peers st /\ entries st' = entries st /\
    queues st !! q = None /\ tflags <$> transports st' = tflags <$> transports st /\
    t_queue_list <$> transports st' = <[transport := t_queue_list tr ++ [q]]> (t_queue_list <$> transports st) /\
    exists qu, queues st' = <[q := qu]> (queues st) /\ q_transport qu = transport /\ q_name qu = name /\ 0 < q_window qu).
Proof.
  intros (Hwf & Hodd & H) Ht Hn. pose proof (entry_fresh _ _ _ _ H) as (Fe & Fp & Fq). open_books H.
  unfold qmgr_queue_create. do 7 step.
  match goal with |- sound _ _ _ ?s /\ _ => assert (Hquiet : quiet st s) by (split; cols; (done || lia)); set (st' := s) in * end.
  assert (Hk : transport_ok tr) by (apply transport_ok_control, (proj1 Bcontrol transport), col_at; done).
  split; [|do 5 (split; [done|]); split; [unfold st'; cols; done|]; split; [unfold st'; cols; done|];
    eexists; split; [reflexivity|]; cbn; destruct Hk; split; [done|split; [done|lia]]].
  assert (F : forall B (f : QMGR_QUEUE -> B), (f <$> queues st) !! next_addr st = None) by (intros; by rewrite lookup_fmap, Fq).
  split; [by eapply quiet_wf|]. split; [by eapply quiet_tags|]. split; unfold st'; cols; try assumption.
  - by apply (lists_new _ _ Blists), F.
  - by apply queue_counts_put.
  - apply (peer_lists_ext _ _ _ _ _ Bplists). intros x y. unfold waits. split; intros (en & l & A1 & A2 & A3 & A4).
    + rewrite lookup_insert_dec in A3. case_decide; [|by exists en, l]. injection A3 as <-. by apply not_elem_of_nil in A4.
    + exists en, l. rewrite lookup_insert_ne; [done|]. intros E. rewrite <- E, F in A3. done.
  - by apply (peer_jobs_new_queue _ _ _ _ Bpjobs), F.
  - apply (transport_queues_new _ _ Btransport _ _ _ (tcontrol tr)); [apply F|by apply col_at|done|done|done].
  - apply (control_transport _ _ _ _) with (tr := tcontrol tr); [|by apply col_at|done].
    apply (control_new _ _ _ _ Bcontrol _ _ (tcontrol tr)); [apply F|by apply (col_at tcontrol)| |cbn; destruct Hk; lia].
    apply queue_fits_control, queue_fits_transport. destruct Hk, double_zero_ok. unfold INT_MAX in *.
    split; cbn; unfold INT_MAX, MAX_BUSY, QMGR_QUEUE_STAT_THROTTLED, QMGR_QUEUE_STAT_SUSPENDED; try done; try lia. split; [by intros []|lia].
  - destruct Btotals as [T1 T2]. split; [done|]. rewrite T2, map_size_insert_None by apply F. lia.
  - apply fresh_insert_queue; [by eapply fresh_mono; [|apply Nat.le_succ_diag_r]|lia].
  - intros x xn l Hx. rewrite lookup_insert_dec. case_decide; [|by apply (Bstreams x)]. intros [= <-] Hi. by apply not_elem_of_nil in Hi.
Qed.

Lemma queue_done_wp dm q qu st :
  sound None None dm st -> queues st !! q = Some qu -> q_todo qu = [] -> q_busy qu = [] -> 0 < q_window qu ->
  wp (qmgr_queue_done q) st (fun _ st' => sound None None dm st' /\ messages st' = messages st /\ jobs st' = jobs st /\ peers st' = peers st /\ entries st' = entries st /\
    tflags <$> transports st' = tflags <$> transports st /\ queues st' = delete q (queues st) /\
    exists tr, transports st !! q_transport qu = Some tr /\
      t_queue_list <$> transports st' = <[q_transport qu := list_unlink q (t_queue_list tr)]> (t_queue_list <$> transports st)).
Proof.
  intros Hs Hq E1 E2 Hw. destruct (queue_controlled _ _ _ _ _ _ Hs Hq) as (tr & Ht & _ & Hf & _). destruct Hs as (Hwf & Hodd & H). open_books H.
  destruct (Bqcounts _ _ _ (col_at qlists _ _ _ Hq) (col_at qcontrol _ _ _ Hq)) as [C1 C2]. cbn in C1, C2. rewrite E1 in C1. rewrite E2 in C2.
  change (size_of []) with 0 in *.
  assert (Hl : (qlists <$> queues st) !! q = Some ([], [])) by (rewrite (col_at _ _ _ _ Hq); unfold qlists; by rewrite E1, E2).
  destruct (proj2 Btransport _ _ (col_at qplace _ _ _ Hq)) as (x & Hx & Hin & Hname). cbn in Hx, Hname.
  apply (col_inv_at _ _ _ _ _ Ht) in Hx as ->. cbn in Hin, Hname.
  assert (Hnop : forall p pl, (plink <$> peers st) !! p = Some pl -> pl.2 <> q).
  { intros p pl (pe & Hp & ->)%col_inv Eq. destruct (peer_in_use _ _ _ _ Bpcounts _ _ (col_at p_refcount _ _ _ Hp)) as (e & en & He & Ep); [done..|].
    destruct (Bepeers _ _ He) as (pl' & Hpl' & Eq'). rewrite Ep, (col_at _ _ _ _ Hp) in Hpl'. injection Hpl' as <-.
    apply (lists_empty _ _ Blists q e en Hl He). congruence. }
  unfold qmgr_queue_done. step. apply wp_bind, wp_panic_if; [by rewrite C1, C2|]. apply wp_bind, wp_panic_if; [by rewrite E1, E2|].
  apply wp_bind, wp_panic_if; [unfold QMGR_QUEUE_READY; lia|].
  apply wp_bind, wp_panic_if.
  { apply bool_decide_eq_false. intros Hd%(qf_dsn _ _ Hf). unfold QMGR_QUEUE_STAT_THROTTLED in Hd. lia. }
  do 2 step. apply wp_bind, wp_panic_if; [apply bool_decide_eq_false; cbn; rewrite Hname; done|]. do 3 step.
  match goal with |- sound _ _ _ ?s /\ _ => assert (Hquiet : quiet st s) by (split; cols; (done || lia)); set (st' := s) in * end.
  split; [|do 4 (split; [done|]); split; [|split; [done|exists tr; split; [done|]]]]; [|unfold st'; cols; done..].
  split; [by eapply quiet_wf|]. split; [by eapply quiet_tags|]. split; unfold st'; cols; try assumption.
  - by apply (lists_gone _ _ Blists).
  - by apply queue_counts_gone.
  - apply (peer_lists_ext _ _ _ _ _ Bplists). intros x y. unfold waits. split; intros (en & l & A1 & A2 & A3 & A4).
    + rewrite lookup_delete_dec in A3. case_decide; [done|]. by exists en, l.
    + exists en, l. rewrite lookup_delete_ne; [done|]. intros E. rewrite <- E, Hl in A3. injection A3 as <-. by apply not_elem_of_nil in A4.
  - by apply (peer_jobs_gone_queue _ _ _ _ Bpjobs).
  - apply (transport_queues_gone _ _ Btransport _ _ (q_name qu) (tcontrol tr)); [by apply (col_at qplace)|by apply col_at|done|done].
  - apply (control_transport _ _ _ _) with (tr := tcontrol tr); [|by apply col_at|done].
    by apply (control_gone _ _ _ _ Bcontrol _ (qcontrol qu)); [apply col_at|].
  - destruct Btotals as [T1 T2]. split; [done|]. rewrite T2, map_size_delete_Some by (by eexists; apply col_at).
    assert (size (qplace <$> queues st) <> 0%nat); [|lia]. rewrite map_size_ne_0_lookup. exists q. by eexists; apply col_at.
  - apply (proj1 (proj2 (fresh_delete _ _ _ _ Bfresh))).
  - intros x xn l Hx. rewrite lookup_delete_dec. case_decide; [done|]. by apply (Bstreams x).
Qed.

(** The frame of the last steps of an operation. *)
Definition tail_frame (st st' : qmgr) : Prop := m_refcount <$> messages st' = m_refcount <$> messages st /\ entries st' = entries st.

Lemma bool_decide_nil {A} (l : list A) : bool_decide (l = []) = true -> l = [].
Proof. intros H. by apply bool_decide_eq_true in H. Qed.

(** The queue is ready, or gone. *)
Definition recovered (q : nat) (st : qmgr) : Prop := forall qu, queues st !! q = Some qu -> QMGR_QUEUE_READY qu = true.

(** Timers and operator commands discard a queue that has become empty and ready. *)
Lemma queue_cleanup_wp (P : qmgr -> Prop) dm q qu otherwise st :
  sound None None dm st -> queues st !! q = Some qu -> (forall st', queues st' = delete q (queues st) -> P st') ->
  (wp otherwise st (fun _ st' => sound None None dm st' /\ entries st' = entries st /\ P st')) ->
  wp (queue_cleanup q otherwise) st (fun _ st' => sound None None dm st' /\ entries st' = entries st /\ P st').
Proof.
  intros Hs Hq HP Ho. unfold queue_cleanup. step. apply wp_if; intros E; [|done]. apply andb_prop in E as [[E1 E2]%andb_prop E3].
  unfold QMGR_QUEUE_READY in E1. eapply wp_mono; [apply (queue_done_wp dm q qu); [done|done|by apply bool_decide_nil..|lia]|].
  intros ? st' (H1 & _ & _ & _ & H3 & _ & H5 & _). split; [done|]. split; [done|]. by apply HP.
Qed.

(** A queue keeps its lists, or it was empty and is gone. *)
Definition rests (q : nat) (qu : QMGR_QUEUE) (st st' : qmgr) : Prop :=
  ((exists qu', queues st' !! q = Some qu' /\ qplace qu' = qplace qu /\ q_todo qu' = q_todo qu /\ q_busy qu' = q_busy qu) /\
   t_queue_list <$> transports st' = t_queue_list <$> transports st) \/
  ((queues st' !! q = None /\ q_todo qu = [] /\ q_busy qu = []) /\
   exists tr, transports st !! q_transport qu = Some tr /\
     t_queue_list <$> transports st' = <[q_transport qu := list_unlink q (t_queue_list tr)]> (t_queue_list <$> transports st)).

Lemma queue_release_wp dm q qu st :
  sound None None dm st -> queues st !! q = Some qu ->
  wp (queue_release q) st (fun _ st' => sound None None dm st' /\ m_job_list <$> messages st' = m_job_list <$> messages st /\
    mshape <$> messages st' = mshape <$> messages st /\ entries st' = entries st /\
    tflags <$> transports st' = tflags <$> transports st /\ elsewhere_same q st st' /\ rests q qu st st').
Proof.
  intros Hs Hq. unfold queue_release. step.
  apply wp_if; intros E; [|step; do 6 (split; [done|]); left; split; [by exists qu|done]]. apply andb_prop in E as [E1%bool_decide_nil E2%bool_decide_nil].
  do 2 step. apply wp_bind.
  apply (wp_mono _ _ (fun _ st1 => sound None None dm st1 /\ steady st st1 /\ elsewhere_same q st st1 /\
    exists qu1, queues st1 !! q = Some qu1 /\ qplace qu1 = qplace qu /\ q_todo qu1 = [] /\ q_busy qu1 = [])).
  { apply wp_if; intros Hth; [|apply wp_ret; do 3 (split; [done|]); by exists qu].
    apply andb_prop in Hth as [Hth _]. unfold QMGR_QUEUE_THROTTLED, QMGR_QUEUE_STAT_THROTTLED in Hth.
    eapply wp_mono; [apply (unthrottle_sound None None dm q qu); [done|done|lia]|]. intros ? st1 (H1 & H2 & H3 & _).
    destruct (steady_queue _ _ _ _ H2 Hq) as (qu1 & Hq1 & F3 & F4 & F1 & F2). do 3 (split; [done|]). exists qu1. split; [done|].
    split; [unfold qplace; congruence|]. split; congruence. }
  intros ? st1 (H1 & (L1 & L2 & L3 & L4 & L5) & H3 & qu1 & Hq1 & F0 & F1 & F2). step.
  apply wp_if; intros Hr; [|step; do 2 (split; [done|]); split; [apply L1|]; split; [done|]; split; [apply tkeeps_flags, L1|]; split; [done|];
    left; split; [exists qu1; do 2 (split; [done|]); split; congruence|apply tkeeps_queues, L1]].
  unfold QMGR_QUEUE_READY in Hr. eapply wp_mono; [apply (queue_done_wp dm q qu1); [done..|lia]|].
  intros ? st2 (S1 & S2 & _ & _ & S3 & S4 & S5 & S6). split; [done|]. rewrite S2, S3, S4. split; [done|]. split; [apply L1|]. split; [done|].
  split; [apply tkeeps_flags, L1|]. split; [|right; split; [split; [by rewrite S5, lookup_delete_eq|done]|]].
  - intros x Hx. rewrite S5, lookup_delete_ne by done. by apply H3.
  - destruct S6 as (tr1 & Ht1 & S6). unfold qplace in F0. injection F0 as Eqt _. rewrite Eqt in *.
    destruct (col_some _ _ _ _ _ (lk_t _ _ L1) Ht1) as (tr & Ht & E). exists tr. split; [done|].
    rewrite S6. f_equal; [by apply (f_equal snd) in E; cbn in E; rewrite E|]. apply tkeeps_queues, L1.
Qed.

(** ** Peers and jobs for new recipients *)

Lemma peer_create_wp job queue jb qu st :
  sound None None None st -> jobs st !! job = Some jb -> queues st !! queue = Some qu -> q_transport qu = j_transport jb ->
  j_peer_byname jb !! q_name qu = None ->
  wp (qmgr_peer_create job queue) st (fun p st' => sound (Some p) None None st' /\
    peers st' !! p = Some (mk_qmgr_peer job queue 0 []) /\ queues st' = queues st /\ messages st' = messages st /\ entries st' = entries st /\
    jlink <$> jobs st' = jlink <$> jobs st /\ transports st' = transports st /\
    (forall x pe, peers st !! x = Some pe -> peers st' !! x = Some pe) /\ quiet st st').
Proof.
  intros (Hwf & Hodd & H) Hj Hq Et Hn. pose proof (entry_fresh _ _ _ _ H) as (Fe & Fp & Fq). open_books H.
  assert (F : forall B (f : QMGR_PEER -> B), (f <$> peers st) !! next_addr st = None) by (intros; by rewrite lookup_fmap, Fp).
  assert (Hno : forall e en, (elink <$> entries st) !! e = Some en -> e_peer en <> next_addr st).
  { intros e en He Ep. destruct (Bepeers _ _ He) as (pl & Hpl & _). by rewrite Ep, F in Hpl. }
  unfold qmgr_peer_create. do 6 step. set (p := next_addr st) in *.
  match goal with |- sound _ _ _ ?s /\ _ => assert (Hquiet : quiet st s) by (split; cols; (done || lia)); set (st' := s) in * end.
  split; [|split; [apply lookup_insert_eq|]; do 3 (split; [done|]); split; [by unfold st'; cols|split; [done|split; [|done]]]].
  2:{ intros x pe Hx. unfold st'. st_cbn. rewrite lookup_insert_ne; [done|]. intros <-. congruence. }
  split; [by eapply quiet_wf|]. split; [by eapply quiet_tags|]. split; unfold st'; cols; try assumption.
  - apply (entry_peers_create _ _ _ (plink (mk_qmgr_peer job queue 0 []))); [done|apply F].
  - intros y w. rewrite lookup_insert_dec. case_decide as Hd; [|apply Bplists]. intros [= <-]. subst y. cbn. split; [constructor|].
    intros e. split; [by intros ?%not_elem_of_nil|]. intros (en & l & He & Ep & _). by destruct (Hno e en).
  - by apply (peer_counts_create _ _ _ _ Bpcounts).
  - apply (peer_jobs_create _ _ _ _ Bpjobs _ _ _ (jlink jb) (jpeers jb) (qplace qu)); [apply F|by apply col_at..|done|done].
  - apply entry_jobs_create; [done..|apply F].
  - apply (job_books_create _ _ _ _ Bjob _ job queue); [apply F|apply F|]. intros e en (x & Hx & ->)%col_inv. apply (Hno e (elink x)). by apply col_at.
  - apply fresh_insert_peer; [by eapply fresh_mono; [|apply Nat.le_succ_diag_r]|lia].
Qed.

(** The peer of a job for a queue. *)
Lemma peer_obtain_wp job queue jb qu st :
  sound None None None st -> jobs st !! job = Some jb -> queues st !! queue = Some qu -> q_transport qu = j_transport jb ->
  wp (qmgr_peer_obtain job queue) st (fun p st' => exists np pe, (np = None \/ np = Some p) /\ sound np None None st' /\
    peers st' !! p = Some pe /\ p_job pe = job /\ p_queue pe = queue /\ (np = Some p -> p_entry_list pe = []) /\
    queues st' = queues st /\ messages st' = messages st /\ entries st' = entries st /\ jlink <$> jobs st' = jlink <$> jobs st /\
    transports st' = transports st /\ (forall x pe, peers st !! x = Some pe -> peers st' !! x = Some pe) /\ quiet st st').
Proof.
  intros Hs Hj Hq Et. unfold qmgr_peer_obtain, qmgr_peer_find. apply wp_bind, wp_bind, (wp_get_job _ _ jb); [done|].
  apply wp_bind, (wp_get_queue _ _ qu); [done|]. apply wp_ret. destruct (j_peer_byname jb !! q_name qu) as [p|] eqn:Hn.
  - apply wp_ret. destruct Hs as (Hwf & Hodd & H). pose proof H as H0. open_books H.
    destruct (proj2 (proj2 (proj2 Bpjobs _ _ (col_at jpeers _ _ _ Hj))) _ _ Hn) as (pl & n & (pe & Hp & ->)%col_inv & Ej & (qu' & Hq' & ->)%col_inv & En).
    cbn in Ej, Hq', En. exists None, pe. split; [by left|]. split; [by split|]. split; [done|]. split; [done|]. split; [|by split_and!].
    (* queues with one name and one transport are one queue *)
    destruct (proj1 Bpjobs _ _ (col_at plink _ _ _ Hp)) as (jl & _ & n & Hjl & _ & Hn' & Et' & _). cbn in Hjl, Hn'. rewrite Ej in Hjl.
    apply (col_inv_at _ _ _ _ _ Hj) in Hjl as ->. apply (col_inv_at _ _ _ _ _ Hq') in Hn' as ->. cbn in Et'.
    destruct (proj2 Btransport _ _ (col_at qplace _ _ _ Hq)) as (t1 & T1 & _ & N1), (proj2 Btransport _ _ (col_at qplace _ _ _ Hq')) as (t2 & T2 & _ & N2).
    cbn in *. rewrite Et', <- Et, T1 in T2. injection T2 as <-. congruence.
  - eapply wp_mono; [by apply (peer_create_wp job queue jb qu)|]. intros p st' (H1 & H2 & H3 & H4 & H5 & H6 & H7 & H8 & H9).
    exists (Some p), (mk_qmgr_peer job queue 0 []). split; [by right|]. by split_and!.
Qed.

(** What scheduling keeps. *)
Lemma retagged_tags st st' : retagged st st' -> tags_odd st -> tags_odd st'.
Proof.
  intros Hr H t tr' Ht'. destruct (view_some tstatic _ _ _ (eq_sym (re_t _ _ Hr t)) Ht') as (tr & Ht & E).
  apply tstatic_inv in E as (_ & E & _). rewrite <- E. by apply (H t).
Qed.

Lemma retagged_steady st st' : retagged st st' -> steady st st'.
Proof.
  intros [Ht Hj Hm Ho]. unfold others in Ho. injection Ho as E1 E2 E3 E4 E5 E6 E7 E8 E9 E10 E11 E12.
  split; [split|]; rewrite ?E1, ?E2, ?E3; try done.
  - apply (col_from_lookups (set_j_blocker_tag 0 ∘ jstatic)); [|done]. intros [] []. unfold jstatic, smask, jlink. cbn. intros E. injection E. intros. by subst.
  - apply (col_from_lookups mmask); [|done]. intros [] []. unfold mmask, mshape. cbn. intros E. injection E. intros. by subst.
  - apply (col_from_lookups tstatic); [|done]. intros [] []. unfold tstatic, tcontrols. cbn. intros E. injection E. intros. by subst.
  - repeat split; try done. apply (col_from_lookups mmask); [|done]. intros [] []. unfold mmask. cbn. intros E. injection E. intros. by subst.
Qed.

Lemma kept_sound np dp dm st st' : kept st st' -> sound np dp dm st -> sound np dp dm st' /\ steady st st'.
Proof.
  intros (Hwf & _ & Hr%static_retagged) (_ & Hodd & H). split; [|by apply retagged_steady].
  split; [done|]. split; [by eapply retagged_tags|by eapply retagged_books].
Qed.

Lemma kept_refl st : wf st -> kept st st.
Proof. by split. Qed.

Lemma sponsor_loop_ok message job l st : wf st -> is_Some (messages st !! message) ->
  (forall s, s ∈ l -> exists sb, jobs st !! s = Some sb /\ j_message sb = message) ->
  wp (sponsor_loop message job l) st (fun _ st' => kept st st').
Proof.
  revert st. induction l as [|s l IH]; intros st Hwf [msg Hm] Hl; cbn [sponsor_loop]; [by apply wp_ret, kept_refl|].
  destruct (Hl s) as (sb & Hs & Esm); [by left|]. do 2 step. apply wp_bind.
  apply (wp_mono _ _ (fun _ st1 => kept st st1)).
  { apply wp_if; intros _; [by apply wp_ret, kept_refl|]. apply wp_if; intros _; [|by apply wp_ret, kept_refl].
    eapply wp_mono; [apply (kept_move_limits s sb msg); [done|done|by rewrite Esm]|]. by intros ? st' [? _]. }
  intros ? st1 Hk. pose proof Hk as (Hwf1 & _ & Hst). eapply wp_mono; [apply IH; [done| |]|].
  - destruct (static_message _ _ _ _ Hst Hm) as (msg1 & ? & _). by exists msg1.
  - intros x Hx. destruct (Hl x) as (xb & Hxb & Ex); [by right|]. destruct (static_job _ _ _ _ Hst Hxb) as (xb1 & ? & (E & _)%jstatic_inv).
    exists xb1. split; [done|congruence].
  - intros ? st2 Hk2. by eapply kept_trans.
Qed.

Section with_job_books.
Context (st : qmgr) (message transport : nat) (msg : QMGR_MESSAGE) (tr : QMGR_TRANSPORT) (np dp dm : option nat).
Context (Hs : sound np dp dm st) (Hm : messages st !! message = Some msg) (Ht : transports st !! transport = Some tr)
  (Hn : t_job_byname tr !! m_queue_id msg = None).
Let job := next_addr st.

Lemma with_job_books : books np dp dm (with_job job message transport msg tr st).
Proof using Hs Hm Ht Hn.
  destruct Hs as (Hwf & Hodd & H). pose proof (fresh_job st Hwf) as Fj.
  assert (F : forall B (f : QMGR_JOB -> B), (f <$> jobs st) !! job = None) by (intros; unfold job; rewrite lookup_fmap; by rewrite Fj).
  open_books H.
  assert (Hno : forall p pl, (plink <$> peers st) !! p = Some pl -> pl.1 <> job).
  { intros p pl Hp Ej. destruct (proj1 Bpjobs _ _ Hp) as (jl & _ & _ & Hjl & _). by rewrite Ej, F in Hjl. }
  split; unfold with_job; cols; try assumption.
  - by apply (peer_jobs_new_job _ _ _ _ Bpjobs), F.
  - apply entry_jobs_new; [done|apply F].
  - apply (job_books_new_job _ _ _ _ Bjob); [|done]. intros p w (pe & Hp & ->)%col_inv. apply (Hno p (plink pe)). by apply col_at.
  - apply (message_jobs_new _ _ _ _ (m_job_list msg)); [done|apply F|by apply (col_at m_job_list)|done].
  - by eapply fresh_mono; [|apply Nat.le_succ_diag_r].
  - intros j jl. rewrite lookup_insert_dec. case_decide as Hd.
    + intros [= <-]. subst j. cbn. exists (m_queue_id msg), (<[m_queue_id msg := job]> (t_job_byname tr)). split; [by apply col_at|].
      by rewrite !lookup_insert_eq.
    + intros Hjl. destruct (Bnames _ _ Hjl) as (id & names & N1 & N2 & N3). exists id. rewrite lookup_insert_dec. case_decide as Hdt; [|by exists names].
      subst transport. apply (col_inv_at _ _ _ _ _ Ht) in N2 as ->. eexists. split; [done|]. split; [done|].
      cbn. rewrite lookup_insert_ne; [done|]. intros <-. congruence.
Qed.

Lemma with_job_tags : tags_odd (with_job job message transport msg tr st).
Proof using Hs Ht.
  destruct Hs as (_ & Hodd & _). intros t trt. cbn. rewrite lookup_insert_dec. case_decide; [intros [= <-]; exact (Hodd _ _ Ht)|apply Hodd].
Qed.
End with_job_books.

(** The job of a message for a transport. *)
Lemma job_obtain_sound message transport msg tr st :
  sound None None None st -> messages st !! message = Some msg -> transports st !! transport = Some tr ->
  wp (qmgr_job_obtain message transport) st (fun job st' => sound None None None st' /\
    (exists jb, jobs st' !! job = Some jb /\ j_message jb = message /\ j_transport jb = transport) /\
    queues st' = queues st /\ peers st' = peers st /\ entries st' = entries st /\
    (forall j jb, jobs st !! j = Some jb -> exists jb', jobs st' !! j = Some jb' /\ jlink jb' = jlink jb) /\
    (forall m, is_Some (messages st !! m) -> is_Some (messages st' !! m)) /\ tkeeps <$> transports st' = tkeeps <$> transports st).
Proof.
  intros Hs Hm Ht. pose proof Hs as (Hwf & Hodd & H).
  eapply wp_mono; [by apply (job_obtain_cases message transport msg tr)|].
  intros job st' (Hwf' & _ & [(trx & Htx & _ & _ & _ & jb & Hj & Em & Et & _)] & Hfrom).
  assert (Hr : exists st1, retagged st1 st' /\ books None None None st1 /\ tags_odd st1 /\ queues st1 = queues st /\ peers st1 = peers st /\
    entries st1 = entries st /\ (forall j jb, jobs st !! j = Some jb -> jobs st1 !! j = Some jb) /\ (forall m, is_Some (messages st !! m) -> is_Some (messages st1 !! m)) /\
    tkeeps <$> transports st1 = tkeeps <$> transports st).
  { destruct Hfrom as [[_ Hr]|(Hnn & -> & Hr)]; [by exists st|]. eexists. split; [exact Hr|].
    split; [by apply with_job_books|]. split; [by eapply with_job_tags|]. do 3 (split; [done|]). split; [|split].
    - intros j ib Hi. by apply (old_job st message transport msg tr Hwf).
    - intros m Hsm. cbn. rewrite lookup_insert_dec. case_decide; [by eexists|done].
    - cbn. rewrite fmap_insert. apply insert_id. exact (col_at tkeeps _ _ _ Ht). }
  destruct Hr as (st1 & Hr & Hb1 & Ho1 & E1 & E2 & E3 & E4 & E5 & E6). pose proof (re_others _ _ Hr) as Ho. unfold others in Ho. injection Ho as F1 F2 F3 _ _ _ _ _ _ _ _ _.
  split; [split; [done|]; split; [by eapply retagged_tags|by eapply retagged_books]|].
  split; [by exists jb|]. split; [congruence|]. split; [congruence|]. split; [congruence|]. split.
  - intros j ib Hi. apply E4 in Hi. destruct (col_some _ _ _ _ _ (eq_sym (lk_j _ _ (proj1 (retagged_steady _ _ Hr)))) Hi) as (ib' & ? & E). by exists ib'.
  - split; [|rewrite <- E6; apply (lk_t _ _ (proj1 (retagged_steady _ _ Hr)))]. intros m [mm Hmm]%E5. destruct (col_some _ _ _ _ _ (eq_sym (lk_m _ _ (proj1 (retagged_steady _ _ Hr)))) Hmm) as (mm' & ? & _). by exists mm'.
Qed.

(** ** Disposing of an entry *)

(** What disposing of an entry leaves alone. *)
Record disposed (entry queue : nat) (st st' : qmgr) : Prop := mk_disposed {
  dp_entries : entries st' = delete entry (entries st);
  dp_t : tflags <$> transports st' = tflags <$> transports st;
  dp_m : mshape <$> messages st' = mshape <$> messages st;
  dp_elsewhere : elsewhere_same queue st st'
}.

Lemma wp_seq {A B C} (m1 : M A) (m2 : M B) (k : M C) st Q :
  wp (m1 ≫= fun _ => m2) st (fun _ st' => wp k st' Q) -> wp (m1 ≫= fun _ => m2 ≫= fun _ => k) st Q.
Proof. unfold wp, mbind, M_bind. destruct (m1 st) as [[a st1]| |]; [|done..]. by destruct (m2 st1) as [[b st2]| |]. Qed.

(** The slots of the recipients go to other jobs of the message. *)
Lemma reassign_slots_wp dp dm message job jb msg (b : bool) st :
  sound None dp dm st -> messages st !! message = Some msg -> jobs st !! job = Some jb -> j_message jb = message ->
  wp (sponsor_loop message job (m_job_list msg);; (if b then qmgr_job_move_limits job else mret tt)) st (fun _ st' =>
    sound None dp dm st' /\ steady st st' /\ queues st' = queues st).
Proof.
  intros Hs Hm Hj Em. apply wp_bind. eapply wp_mono; [apply (sponsor_loop_ok message); [apply Hs|by exists msg|]|].
  { intros s Hsl. destruct (bk_message_jobs _ _ _ _ (proj2 (proj2 Hs)) _ _ _ (col_at m_job_list _ _ _ Hm) Hsl) as (jl & (sb & Hsb & ->)%col_inv & E). by exists sb. }
  intros ? st1 Hk1. destruct (kept_sound _ _ _ _ _ Hk1 Hs) as [Hs1 T1]. apply (wp_mono _ _ (fun _ st2 => kept st1 st2)).
  { apply wp_if; intros _; [|apply wp_ret, kept_refl, Hs1].
    destruct (col_some _ _ _ _ _ (eq_sym (lk_j _ _ (proj1 T1))) Hj) as (jb1 & Hj1 & E1).
    destruct (col_some _ _ _ _ _ (eq_sym (lk_m _ _ (proj1 T1))) Hm) as (msg1 & Hm1 & _).
    assert (Em1 : j_message jb1 = message) by (unfold jlink in *; congruence).
    eapply wp_mono; [apply (kept_move_limits job jb1 msg1); [apply Hs1|done|by rewrite Em1]|]. by intros ? st2 [? _]. }
  intros ? st2 Hk2. destruct (kept_sound _ _ _ _ _ Hk2 Hs1) as [Hs2 T2]. split; [done|]. split; [by etrans|].
  pose proof (st_others _ _ (proj2 (proj2 Hk1))) as O1. pose proof (st_others _ _ (proj2 (proj2 Hk2))) as O2. unfold others in O1, O2. congruence.
Qed.

(** A queue with a rate delay has one delivery at a time. *)
Lemma rate_limited_idle np dp dm st entry which q qu tr : sound np dp dm st -> queues st !! q = Some qu -> transports st !! q_transport qu = Some tr ->
  entry ∈ on_which which qu -> is_busy which = true -> 0 < t_rate_delay tr -> q_busy_refcount (dropped_queue which entry qu) = 0.
Proof.
  intros Hs Hq Ht Hin Eb Hd. destruct (queue_controlled _ _ _ _ _ _ Hs Hq) as (tr0 & Ht0 & Hk0 & Hf0 & _).
  assert (tr0 = tr) as -> by congruence.
  destruct (bk_queue_counts _ _ _ _ (proj2 (proj2 Hs)) _ _ _ (col_at qlists _ _ _ Hq) (col_at qcontrol _ _ _ Hq)) as [_ C2].
  pose proof (tk_rate _ Hk0 Hd) as El. destruct (qf_limit _ _ Hf0) as [_ Hl]; [lia|]. unfold on_which, dropped_queue in *. rewrite Eb in *. cbn in *.
  rewrite C2 in *. unfold size_of in *. destruct (q_busy qu); [by apply not_elem_of_nil in Hin|cbn in *; lia].
Qed.

Lemma stamp_wp dm (b : bool) q qu now st : sound None None dm st -> queues st !! q = Some qu ->
  wp (if b then upd_queue q (set_q_last_done now) else mret tt) st (fun _ st' => sound None None dm st' /\ entries st' = entries st /\
    messages st' = messages st /\ transports st' = transports st /\ elsewhere_same q st st' /\
    exists qu', queues st' !! q = Some qu' /\ qplace qu' = qplace qu /\ q_todo qu' = q_todo qu /\ q_busy qu' = q_busy qu).
Proof.
  intros Hs Hq. apply wp_if; intros _; [|step; do 5 (split; [done|]); by exists qu].
  step. destruct Hs as (Hwf & Hodd & H).
  match goal with |- sound _ _ _ ?s /\ _ => assert (Hquiet : quiet st s) by (split; cols; done) end.
  split; [|do 3 (split; [done|]); split; [by intros x Hx; apply lookup_insert_ne|]; eexists; split; [apply lookup_insert_eq|done]].
  split; [by eapply quiet_wf|]. split; [by eapply quiet_tags|]. open_books H. split; cols; done.
Qed.

Lemma entry_done_wp entry which en qu now st :
  sound None None None st -> entries st !! entry = Some en -> e_stream en = false -> queues st !! e_queue en = Some qu ->
  entry ∈ on_which which qu ->
  wp (qmgr_entry_done entry which now) st (fun b st' => sound None None None st' /\ disposed entry (e_queue en) st st' /\
    rests (e_queue en) (dropped_queue which entry qu) st st' /\
    exists msg', messages st' !! e_message en = Some msg' /\ b = (m_refcount msg' =? 0)).
Proof.
  intros Hs He Hstream Hq Hin. destruct (entry_placed _ _ _ _ _ _ Hs He) as (pe & qu0 & jb & msg & tr & [P1 P2 P3 P4 P5 P6 P7 P8]).
  assert (qu0 = qu) as -> by congruence. assert (Ht0 : transports st !! q_transport qu = Some tr) by (by rewrite P8).
  unfold qmgr_entry_done. do 3 step. apply wp_bind, wp_panic_if; [done|].
  apply wp_seq. eapply wp_mono; [by apply (entry_drop_wp entry en which qu pe jb msg)|].
  intros ? st1 (Hs1 & L1 & X1 & Hq1 & He1).
  destruct (col_some _ _ _ _ _ (eq_sym (lk_m _ _ L1)) P5) as (msg1 & Hm1 & _).
  apply wp_bind, (wp_get_message _ _ msg1); [done|].
  destruct (col_some _ _ _ _ _ (eq_sym (lk_j _ _ L1)) P4) as (jb1 & Hj1 & E1).
  apply wp_seq. eapply wp_mono; [apply (reassign_slots_wp (Some (e_peer en)) (Some (e_message en)) _ _ jb1 msg1 _ _ Hs1 Hm1 Hj1); unfold jlink in *; congruence|].
  intros ? st3 (Hs3 & T13 & Eq3). assert (Hq3 : queues st3 !! e_queue en = Some (dropped_queue which entry qu)) by (by rewrite Eq3).
  assert (L3 : linked st st3) by (etrans; [exact L1|apply T13]).
  destruct (linked_transport_some _ _ _ _ L3 P7) as (tr3 & Ht3 & Etr3 & _).
  (* the queue is suspended, or its jobs are reconsidered *)
  apply wp_bind. eapply wp_mono; [apply (entry_rate_delay_wp None (Some (e_peer en)) (Some (e_message en)) _ _ _ _ _ Hs3 Hq3)|].
  { rewrite <- P8. by destruct which. }
  { intros Eb trx Htx Hd. apply (rate_limited_idle None None None st entry which (e_queue en) qu tr); try done.
    assert (trx = tr3) as -> by congruence. unfold tcontrols in Etr3. congruence. }
  intros ? st4 (Hs4 & T4 & X4). destruct (steady_queue _ _ _ _ T4 Hq3) as (qu4 & Hq4 & _).
  apply wp_bind. eapply wp_mono; [apply (entry_unblock_wp None (Some (e_peer en)) (Some (e_message en)) _ _ _ _ Hs4 Hq4)|].
  { destruct (linked_transport_some _ _ _ _ (proj1 T4) Ht3) as (tr4 & ? & _). by exists tr4. }
  intros ? st5 (Hs5 & T5 & X5). assert (T35 : steady st3 st5) by by etrans. destruct (steady_queue _ _ _ _ T35 Hq3) as (qu5 & Hq5 & Et5 & En5 & Etd5 & Ebz5).
  (* references are dropped *)
  destruct (col_some _ _ _ _ _ (eq_sym (lk_p _ _ (transitivity L3 (proj1 T35)))) P1) as (pe5 & Hp5 & _).
  apply wp_bind. eapply wp_mono; [by apply (peer_release_wp (e_peer en) pe5 (Some (e_message en)) st5)|].
  intros ? st6 (Hs6 & Q6 & E6 & M6 & R6 & _).
  assert (Hq6 : queues st6 !! e_queue en = Some qu5) by (by rewrite Q6).
  apply wp_bind. eapply wp_mono; [apply (stamp_wp (Some (e_message en)) _ _ qu5); [done|exact Hq6]|].
  intros ? st7 (Hs7 & E7 & M7 & R7 & X7 & qu7 & Hq7 & Ep7 & Etd7 & Ebz7).
  apply wp_bind. eapply wp_mono; [by apply (queue_release_wp (Some (e_message en)) (e_queue en) qu7)|].
  intros ? st8 (Hs8 & _ & M8 & E8 & R8 & X8 & Z8).
  assert (M58 : mshape <$> messages st8 = mshape <$> messages st5) by (by rewrite M8, M7, M6).
  pose proof (transitivity L3 (proj1 T35)) as L5.
  destruct (col_some _ _ _ _ _ (eq_sym (lk_m _ _ L5)) P5) as (msg5 & Hm5 & _).
  destruct (col_some _ _ _ _ _ (eq_sym M58) Hm5) as (msg8 & Hm8 & _). apply (message_release_wp _ msg8); [done|done|].
  intros st9 Hs9 Eq9 _ _ E9 Et9 M9. split; [done|]. split; [|split].
  - split.
    + rewrite E9, E8, E7, E6. destruct T35 as (_ & _ & -> & _), T13 as (_ & _ & -> & _). done.
    + rewrite Et9, R8, R7, R6. apply tkeeps_flags, L5.
    + rewrite M9, fmap_insert, insert_id by exact (col_at mshape _ _ _ Hm8). rewrite M58. apply L5.
    + intros x Hx. rewrite Eq9, X8, X7, Q6, X5, X4 by done. rewrite Eq3. by apply X1.
  - unfold qplace in Ep7. injection Ep7 as Ep7 Ep7'.
    assert (Q7 : t_queue_list <$> transports st7 = t_queue_list <$> transports st) by (rewrite R7, R6; apply tkeeps_queues, L5).
    destruct Z8 as [((qu8 & Hq8 & Ep & Etd8 & Ebz8) & Z8)|((Hn & Etd8 & Ebz8) & trz & Htz & Z8)]; [left|right].
    + split; [|by rewrite Et9, Z8]. exists qu8. rewrite Eq9. split; [done|]. split; [|split; congruence]. rewrite Ep. unfold qplace. congruence.
    + split; [rewrite Eq9; split; [done|]; split; congruence|]. rewrite Et9, Z8, Q7. assert (E : q_transport qu7 = q_transport (dropped_queue which entry qu)) by congruence.
      rewrite E in *. destruct (col_some _ _ _ _ _ Q7 Htz) as (try & Hty & E2). exists try. by rewrite E2.
  - eexists. rewrite M9. split; [apply lookup_insert_eq|done].
Qed.
