(* ===== verification/QmgrDefer.v ===== *)
(** Deferred deliveries: qmgr_error.c and qmgr_defer.c (src/src/qmgr). The entries that
    wait for a destination move to a queue of the retry service, or are disposed of. *)

From S2P Require Export QmgrDelivery.

(** ** Operations *)

(** The transport is the one that qmgr_transport_find() or qmgr_transport_create()
    gives for the service. *)
Definition qmgr_error_transport (transport : nat) : M (option nat) :=
  tr ← get_transport transport;
  mret (if QMGR_TRANSPORT_THROTTLED tr then None else Some transport).

(** [nexthop] is the result of qmgr_error_nexthop(). *)
Definition qmgr_error_queue (service : nat) (nexthop : bytes) : M (option nat) :=
  transport ← qmgr_error_transport service;
  match transport with
  | None => mret None
  | Some transport =>
      queue ← qmgr_queue_find transport nexthop;
      queue ← (match queue with Some queue => mret queue | None => qmgr_queue_create transport nexthop end);
      qu ← get_queue queue;
      mret (if QMGR_QUEUE_THROTTLED qu then None else Some queue)
  end.

(** The loop of qmgr_defer_todo(), at [entry]; logging by qmgr_defer_recipient() is left
    out. The result has the messages for which qmgr_active_done() is called. *)
Fixpoint defer_loop (fuel : nat) (queue : nat) (retry_queue : option nat) (entry : option nat) (now : Z) : M (list nat) :=
  match entry, fuel with
  | None, _ => mret []
  | Some _, O => deref None
  | Some entry, S fuel =>
      qu ← get_queue queue;
      en ← get_entry entry;
      let next := next_in entry (q_todo qu) in
      done ← (match retry_queue with
              | Some retry_queue => qmgr_entry_move_todo retry_queue entry now
              | None => qmgr_entry_done entry QMGR_QUEUE_TODO now
              end);
      l ← defer_loop fuel queue retry_queue next now;
      mret (if done : bool then e_message en :: l else l)
  end.

Definition qmgr_defer_todo (service : nat) (queue : nat) (dsn : bytes) (now : Z) : M (list nat) :=
  retry_queue ← qmgr_error_queue service dsn;
  qu ← get_queue queue;
  defer_loop (length (q_todo qu)) queue retry_queue (head (q_todo qu)) now.

(** The loop of qmgr_defer_transport(), at [queue]. *)
Fixpoint defer_queues (fuel : nat) (service transport : nat) (queue : option nat) (dsn : bytes) (now : Z) : M (list nat) :=
  match queue, fuel with
  | None, _ => mret []
  | Some _, O => deref None
  | Some queue, S fuel =>
      tr ← get_transport transport;
      let next := next_in queue (t_queue_list tr) in
      l1 ← qmgr_defer_todo service queue dsn now;
      l2 ← defer_queues fuel service transport next dsn now;
      mret (l1 ++ l2)
  end.

Definition qmgr_defer_transport (service transport : nat) (dsn : bytes) (now : Z) : M (list nat) :=
  tr ← get_transport transport;
  defer_queues (length (t_queue_list tr)) service transport (head (t_queue_list tr)) dsn now.

(** ** Moving an entry *)

Lemma move_load (R : gmap nat QMGR_ENTRY) (P : QMGR_ENTRY -> Prop) `{!forall x, Decision (P x)} x y a b a' b' n :
  R !! x = Some a -> R !! y = Some b -> x <> y -> (P a' <-> P a) -> (P b' <-> P b) -> len a' = len a - n -> len b' = len b + n ->
  (P a <-> P b) ->
  map_sum (fun en => if decide (P en) then len en else 0) (<[y := b']> (<[x := a']> R))
  = map_sum (fun en => if decide (P en) then len en else 0) R.
Proof.
  intros Ha Hb Hn Pa Pb La Lb Pab. rewrite (load_more P _ y b b' n); [|by rewrite lookup_insert_ne|done|done].
  rewrite (load_more P _ x a a' (- n)); [|done|done|lia]. destruct (decide (P b)) as [Hp|Hp].
  - rewrite decide_True by by apply Pab. lia.
  - rewrite decide_False; [lia|]. intros Hpa. by apply Hp, Pab.
Qed.

Definition loaded (l : list Z) (en : QMGR_ENTRY) : QMGR_ENTRY := set_e_rcpt_list l en.

Lemma swap_loads_wp entry new en ne pe pn st :
  sound None None None st -> entries st !! entry = Some en -> entries st !! new = Some ne -> entry <> new ->
  e_rcpt_list ne = [] -> e_message ne = e_message en -> peers st !! e_peer en = Some pe -> peers st !! e_peer ne = Some pn ->
  wp (swap_rcpt_lists entry new;;
      upd_job (p_job pe) (fun jb => set_j_rcpt_count (j_rcpt_count jb - len en) jb);;
      upd_job (p_job pn) (fun jb => set_j_rcpt_count (j_rcpt_count jb + len en) jb)) st (fun _ st' =>
    sound None None None st' /\ entries st' = <[new := loaded (e_rcpt_list en) ne]> (<[entry := loaded [] en]> (entries st)) /\
    queues st' = queues st /\ peers st' = peers st /\ messages st' = messages st /\ transports st' = transports st).
Proof.
  intros Hs He Hne Hn El Em Hp Hpn. destruct (entry_placed _ _ _ _ _ _ Hs He) as (pe0 & qu & jb & msg & tr & [P1 P2 P3 P4 P5 P6 P7 P8]).
  destruct (entry_placed _ _ _ _ _ _ Hs Hne) as (pn0 & qn & jn & msn & tn & [N1 N2 N3 N4 N5 N6 N7 N8]).
  assert (pe0 = pe) as -> by congruence. assert (pn0 = pn) as -> by congruence.
  destruct Hs as (Hwf & Hodd & H). open_books H.
  pose proof (col_at eload _ _ _ He) as Le. pose proof (col_at eload _ _ _ Hne) as Ln.
  unfold swap_rcpt_lists. do 3 step. eapply wp_upd_entry; [st_cbn; by rewrite lookup_insert_ne|]. name_update. step.
  set (st1 := put_job _ _ _).
  assert (Hj1 : exists j1, jobs st1 !! p_job pn = Some j1 /\ jlink j1 = jlink jn /\ jpeers j1 = jpeers jn /\ jshape j1 = jshape jn /\
    j1 = if decide (p_job pe = p_job pn) then jb0 else jn).
  { unfold st1. st_cbn. rewrite lookup_insert_dec. case_decide as Hd; [|by exists jn]. exists jb0. split; [done|].
    rewrite Hd, N4 in P4. injection P4 as <-. by repeat split. }
  destruct Hj1 as (j1 & Hj1 & J1 & J2 & J3 & J4). eapply wp_upd_job; [exact Hj1|]. cbn beta.
  set (j2 := set_j_rcpt_count _ j1).
  split; [|unfold st1; st_cbn; split; [|done]; unfold en0, en1, loaded; by rewrite El].
  assert (C1 : forall B (f : QMGR_JOB -> B), f jb0 = f jb -> f j2 = f jn -> f <$> <[p_job pn := j2]> (<[p_job pe := jb0]> (jobs st)) = f <$> jobs st).
  { intros B f E1 E2. rewrite !fmap_insert, E1, E2. rewrite (insert_id (f <$> jobs st) (p_job pe)) by by apply col_at.
    apply insert_id. by apply col_at. }
  assert (C2 : forall B (f : QMGR_ENTRY -> B), f en0 = f en -> f en1 = f ne -> f <$> <[new := en1]> (<[entry := en0]> (entries st)) = f <$> entries st).
  { intros B f E1 E2. rewrite !fmap_insert, E1, E2. rewrite (insert_id (f <$> entries st) entry) by by apply col_at.
    apply insert_id. by apply col_at. }
  assert (L0 : len (eload en0) = len (eload en) - len en) by (unfold len; cbn; rewrite El; cbn; lia).
  assert (L1 : len (eload en1) = len (eload ne) + len en) by (unfold len; cbn; rewrite El; cbn; lia).
  match goal with |- sound _ _ _ ?s => assert (Hquiet : quiet st s) end.
  { unfold st1. split; st_cbn; [done|by apply C1|done|done]. }
  split; [by eapply quiet_wf|]. split; [by eapply quiet_tags|]. unfold st1.
  split; st_cbn; rewrite ?(C1 _ jlink), ?(C1 _ jpeers), ?(C2 _ elink) by done; try assumption; rewrite ?fmap_insert.
  - assert (B1 : job_books (<[entry := eload en0]> (eload <$> entries st)) (plink <$> peers st) (pload <$> peers st)
      (<[p_job pe := jcounts jb0]> (jcounts <$> jobs st))).
    { apply (job_books_load _ _ _ _ Bjob _ _ (jcounts jb) _ (- len en)); [by apply col_at| |done|cbn; lia].
      intros i. apply (job_rcpts_more _ _ entry (eload en) _ _ (p_queue pe)); [done|by apply (col_at plink)|done|lia]. }
    apply (job_books_load _ _ _ _ B1 _ _ (jcounts j1) _ (len en)); [| |done|cbn; lia].
    + rewrite <- fmap_insert. apply col_at. exact Hj1.
    + intros i. apply (job_rcpts_more _ _ new (eload ne) _ _ (p_queue pn)); [by rewrite lookup_insert_ne|by apply (col_at plink)|done|done].
  - intros m c Hm. rewrite (move_load _ (fun en => e_message en = m) entry new (eload en) (eload ne) _ _ (len en));
      [by apply Brcpts|done|done|done|done|done|done|done|cbn; by rewrite Em].
  - destruct Btotals as [T1 T2]. split; [|done]. assert (Ln' : <[entry := eload en0]> (eload <$> entries st) !! new = Some (eload ne)) by by rewrite lookup_insert_ne.
    rewrite (map_sum_insert _ _ _ _ _ Ln'), (map_sum_insert _ _ _ _ _ Le). lia.
  - intros x xn l Hx. rewrite !lookup_insert_dec in Hx. case_decide as Hd1; [injection Hx as <-; subst x; exact (Bstreams _ _ l Hne)|].
    case_decide as Hd2; [injection Hx as <-; subst x; exact (Bstreams _ _ l He)|]. by apply Bstreams.
Qed.

Lemma wp_seq3 {A B C D} (m1 : M A) (m2 : M B) (m3 : M C) (k : M D) st Q :
  wp (m1;; m2;; m3) st (fun _ st' => wp k st' Q) -> wp (m1;; m2;; m3;; k) st Q.
Proof.
  unfold wp, mbind, M_bind. destruct (m1 st) as [[a st1]| |]; [|done..]. destruct (m2 st1) as [[b st2]| |]; [|done..].
  by destruct (m3 st2) as [[c st3]| |].
Qed.

(** Queues that can take entries: neither the queue nor its transport is throttled. *)
Definition can_take (st : qmgr) (q : nat) : Prop := exists qu tr, queues st !! q = Some qu /\ QMGR_QUEUE_THROTTLED qu = false /\
  transports st !! q_transport qu = Some tr /\ QMGR_TRANSPORT_THROTTLED tr = false.

Lemma can_take_frame q st st' : can_take st q -> (exists qu qu', queues st !! q = Some qu /\ queues st' !! q = Some qu' /\
    q_window qu' = q_window qu /\ q_transport qu' = q_transport qu) -> tflags <$> transports st' = tflags <$> transports st -> can_take st' q.
Proof.
  intros (qu & tr & Hq & Hth & Ht & Hd) (qu0 & qu' & Hq0 & Hq' & Ew & Et) Hf. assert (qu0 = qu) as -> by congruence.
  destruct (col_some _ _ _ _ _ (eq_sym Hf) Ht) as (tr' & Ht' & E). exists qu', tr'. split; [done|].
  unfold QMGR_QUEUE_THROTTLED, QMGR_TRANSPORT_THROTTLED in *. rewrite Ew, Et. split; [done|]. split; [done|].
  unfold tflags in E. injection E as _ _ _ _ _ _ E. by rewrite <- E.
Qed.

Definition others_stay (entry : nat) (st st' : qmgr) : Prop := forall x xn, x <> entry -> entries st !! x = Some xn -> entries st' !! x = Some xn.

(** An entry that waits moves to another queue. *)
(** The recipients of [en] wait for another destination. *)
Definition moved (dst : nat) (en : QMGR_ENTRY) (st' : qmgr) : Prop := exists e' en' qu', entries st' !! e' = Some en' /\
  e_rcpt_list en' = e_rcpt_list en /\ e_message en' = e_message en /\ e_queue en' = dst /\ queues st' !! dst = Some qu' /\ e' ∈ q_todo qu'.

Lemma move_todo_wp dst entry en qu now st :
  sound None None None st -> entries st !! entry = Some en -> queues st !! e_queue en = Some qu -> entry ∈ q_todo qu ->
  can_take st dst -> dst <> e_queue en ->
  wp (qmgr_entry_move_todo dst entry now) st (fun _ st' => sound None None None st' /\ entries st' !! entry = None /\
    others_stay entry st st' /\ can_take st' dst /\ tflags <$> transports st' = tflags <$> transports st /\
    rests (e_queue en) (dropped_queue QMGR_QUEUE_TODO entry qu) st st' /\
    (forall x, x <> e_queue en -> x <> dst -> queues st' !! x = queues st !! x) /\ moved dst en st').
Proof.
  intros Hs He Hq Hin (dqu & dtr & Hdq & Hdth & Hdt & Hdd) Hne. destruct (entry_placed _ _ _ _ _ _ Hs He) as (pe & qu0 & jb & msg & tr & [P1 P2 P3 P4 P5 P6 P7 P8]).
  assert (qu0 = qu) as -> by congruence.
  assert (Hstr : e_stream en = false) by (by apply (bk_streams _ _ _ _ (proj2 (proj2 Hs)) entry en (qlists qu)); [|apply col_at|]).
  unfold qmgr_entry_move_todo. do 3 step. do 2 (apply wp_bind, wp_panic_if; [done|]). step. apply wp_bind, wp_panic_if; [done|].
  apply wp_bind. eapply wp_mono; [apply (job_obtain_sound (e_message en) _ msg dtr); [done|done|exact Hdt]|].
  intros j1 st1 (Hs1 & (jb1 & Hj1 & Em1 & Et1) & Q1 & P1' & E1 & J1 & M1 & T1).
  apply wp_bind. eapply wp_mono; [apply (peer_obtain_wp j1 dst jb1 dqu); [done|done|by rewrite Q1|done]|].
  intros p2 st2 (np & pn & Hnp & Hs2 & Hpn & Epj & Epq & _ & Q2 & M2 & E2 & J2 & T2 & P2' & _).
  destruct (M1 (e_message en)) as [msg1 Hm1]; [by exists msg|].
  destruct (col_some _ _ _ _ _ (eq_sym J2) Hj1) as (jb2 & Hj2 & El2).
  apply wp_bind. eapply wp_mono; [apply (entry_create_wp np p2 (e_message en) pn dqu jb2 msg1); [done|by destruct Hnp; auto|done| | | | |done]|].
  { by rewrite Epq, Q2, Q1. } { by rewrite Epj. } { unfold jlink in El2. congruence. } { by rewrite M2. }
  intros e3 st3 (Hs3 & -> & E3 & Q3 & P3' & J3 & T3 & _). set (e3 := next_addr st2) in *. rewrite Epq in *.
  assert (Hfr : entries st2 !! e3 = None) by (apply (entry_fresh _ _ _ _ (proj2 (proj2 Hs2)))).
  assert (He2 : entries st2 !! entry = Some en) by (by rewrite E2, E1).
  assert (Hee : entry <> e3) by (intros ->; congruence).
  assert (He3 : entries st3 !! entry = Some en) by (by rewrite E3, lookup_insert_ne).
  assert (Hp2 : peers st2 !! e_peer en = Some pe) by (apply P2'; by rewrite P1').
  destruct (col_some _ _ _ _ _ (eq_sym P3') Hp2) as (pe3 & Hp3 & Ep3). destruct (col_some _ _ _ _ _ (eq_sym P3') Hpn) as (pn3 & Hpn3 & Epn3).
  unfold plink in Ep3, Epn3. injection Ep3 as Ep3 _. injection Epn3 as Epn3 _.
  (* the recipient lists are swapped *)
  rewrite Ep3. rewrite <- Epj, Epn3.
  apply wp_seq3. eapply wp_mono; [apply (swap_loads_wp entry e3 en (new_entry (e_message en) p2 dst) pe3 pn3); [done|done|by rewrite E3, lookup_insert_eq|done..]|].
  intros ? st4 (Hs4 & E4 & Q4 & P4' & M4 & T4).
  assert (He4 : entries st4 !! entry = Some (loaded [] en)) by (rewrite E4, lookup_insert_ne by done; apply lookup_insert_eq).
  assert (Hq4 : queues st4 !! e_queue en = Some qu) by (by rewrite Q4, Q3, lookup_insert_ne, Q2, Q1).
  assert (T04 : tkeeps <$> transports st4 = tkeeps <$> transports st) by (by rewrite T4, T3, T2, T1).
  eapply wp_mono; [by apply (entry_done_wp entry QMGR_QUEUE_TODO (loaded [] en) qu)|].
  intros b st5 (Hs5 & [D1 D2 D3 D4] & R5 & _). cbn [e_queue loaded set_e_rcpt_list] in *.
  assert (T05 : tflags <$> transports st5 = tflags <$> transports st) by (rewrite D2; by apply tkeeps_flags).
  split; [done|]. split; [rewrite D1; apply lookup_delete_eq|]. split; [|split; [|split; [done|split]]].
  - intros x xn Hx Hxn. assert (Hx3 : x <> e3) by (intros ->; congruence).
    rewrite D1, lookup_delete_ne, E4, !lookup_insert_ne, E3, lookup_insert_ne, E2, E1 by done. done.
  - apply (can_take_frame dst st); [by exists dqu, dtr| |done]. exists dqu, (queued_entry e3 dqu).
    rewrite D4, Q4, Q3, lookup_insert_eq by done. done.
  - destruct R5 as [[Ha Hb]|[Ha (try & Hty & Hb)]]; [left|right]; (split; [done|]).
    + rewrite Hb. by apply tkeeps_queues.
    + destruct (col_some _ _ _ _ _ T04 Hty) as (trz & Htz & E). exists trz. split; [done|]. rewrite Hb.
      apply (f_equal snd) in E. cbn in E. rewrite E. f_equal. by apply tkeeps_queues.
  - split; [intros x Hx1 Hx2; rewrite D4, Q4, Q3, lookup_insert_ne, Q2, Q1 by done; done|].
    exists e3, (loaded (e_rcpt_list en) (new_entry (e_message en) p2 dst)), (queued_entry e3 dqu). rewrite D1, lookup_delete_ne, E4, lookup_insert_eq by done.
    do 4 (split; [done|]). split; [by rewrite D4, Q4, Q3, lookup_insert_eq by done|]. cbn. apply elem_of_app. right. by left.
Qed.

(** ** The queue of the retry service *)

Lemma error_queue_wp service nexthop tr st :
  sound None None None st -> transports st !! service = Some tr ->
  wp (qmgr_error_queue service nexthop) st (fun r st' => sound None None None st' /\ entries st' = entries st /\
    (forall x qu, queues st !! x = Some qu -> queues st' !! x = Some qu) /\ tflags <$> transports st' = tflags <$> transports st /\
    (forall t, t <> service \/ QMGR_TRANSPORT_THROTTLED tr = true ->
       t_queue_list <$> transports st' !! t = t_queue_list <$> transports st !! t) /\
    (forall q, r = Some q -> can_take st' q) /\ peers st' = peers st /\ jobs st' = jobs st /\ messages st' = messages st).
Proof.
  intros Hs Ht. unfold qmgr_error_queue, qmgr_error_transport. do 2 step.
  destruct (QMGR_TRANSPORT_THROTTLED tr) eqn:Hd; [step; by split_and!|]. unfold qmgr_queue_find. do 2 step.
  apply wp_bind. apply (wp_mono _ _ (fun q st' => sound None None None st' /\ entries st' = entries st /\
    (forall x qu, queues st !! x = Some qu -> queues st' !! x = Some qu) /\ tflags <$> transports st' = tflags <$> transports st /\
    (forall t, t <> service \/ false = true -> t_queue_list <$> transports st' !! t = t_queue_list <$> transports st !! t) /\
    (peers st' = peers st /\ jobs st' = jobs st /\ messages st' = messages st) /\
    exists qu, queues st' !! q = Some qu /\ q_transport qu = service)).
  { destruct (t_queue_byname tr !! nexthop) as [q|] eqn:Hn.
    - step. do 6 (split; [done|]).
      pose proof (proj2 (proj2 (proj1 (bk_transport_queues _ _ _ _ (proj2 (proj2 Hs))) _ _ (col_at tcontrol _ _ _ Ht))) _ _ Hn) as (qu & Hq & E)%col_inv.
      exists qu. split; [done|]. unfold qplace in E. congruence.
    - eapply wp_mono; [by apply (queue_create_wp service nexthop tr)|].
      intros q st' (H1 & M & J & P & H2 & H3 & H4 & H5 & qu & H6 & H7 & _). do 2 (split; [done|]). split.
      + intros x xu Hx. rewrite H6, lookup_insert_ne; [done|]. congruence.
      + split; [done|]. split; [|split; [done|exists qu; by rewrite H6, lookup_insert_eq]].
        intros t [Hnt|]; [|done]. rewrite <- !lookup_fmap, H5. by apply lookup_insert_ne. }
  intros q st' (H1 & H2 & H3 & H4 & H5 & Hsame & qu & Hq & Et). do 2 step. do 5 (split; [done|]). split; [|done]. intros q'.
  destruct (QMGR_QUEUE_THROTTLED qu) eqn:Hth; [done|]. intros [= <-].
  destruct (col_some _ _ _ _ _ (eq_sym H4) Ht) as (tr' & Ht' & E). exists qu, tr'. rewrite Et. do 3 (split; [done|]).
  unfold tflags, QMGR_TRANSPORT_THROTTLED in *. injection E as _ _ _ _ _ _ E. by rewrite <- E.
Qed.

(** ** The todo list of a destination *)

Definition emptied (q : nat) (qu : QMGR_QUEUE) (st' : qmgr) : Prop :=
  (exists qu', queues st' !! q = Some qu' /\ qplace qu' = qplace qu /\ q_todo qu' = [] /\ q_busy qu' = q_busy qu) \/
  (queues st' !! q = None /\ q_busy qu = []).
Definition unlinks (q : nat) (st st' : qmgr) : Prop :=
  t_queue_list <$> transports st' = t_queue_list <$> transports st \/
  exists t tr, transports st !! t = Some tr /\ t_queue_list <$> transports st' = <[t := list_unlink q (t_queue_list tr)]> (t_queue_list <$> transports st).

Lemma defer_loop_wp l queue qu retry now : forall fuel st,
  sound None None None st -> queues st !! queue = Some qu -> q_todo qu = l -> (length l <= fuel)%nat ->
  (forall r, retry = Some r -> can_take st r /\ r <> queue) ->
  wp (defer_loop fuel queue retry (head l) now) st (fun _ st' => sound None None None st' /\
    (forall x xn, x ∉ l -> entries st !! x = Some xn -> entries st' !! x = Some xn) /\
    tflags <$> transports st' = tflags <$> transports st /\ emptied queue qu st' /\ unlinks queue st st' /\
    (forall x, x <> queue -> retry <> Some x -> queues st' !! x = queues st !! x)).
Proof.
  revert qu. induction l as [|entry l IH]; intros qu fuel st Hs Hq El Hf Hr.
  { destruct fuel; cbn [defer_loop head]; (apply wp_ret; split; [done|]; split; [done|]; split; [done|]; split; [left; by exists qu|]; split; [by left|done]). }
  destruct fuel as [|fuel]; [cbn in Hf; lia|]. cbn [defer_loop head].
  assert (Hin : entry ∈ q_todo qu) by (rewrite El; by left).
  pose proof (proj2 (proj2 Hs)) as H.
  destruct (proj1 (proj2 (proj1 (bk_lists _ _ _ _ H) _ _ (col_at qlists _ _ _ Hq)) entry)) as (x & (en & He & ->)%col_inv & Eq);
    [apply elem_of_app; by left|]. cbn in Eq. subst queue.
  assert (Hnd : entry ∉ l).
  { destruct (lists_nodup st en qu Hq (bk_lists _ _ _ _ H)) as (N & _). rewrite El in N. by apply NoDup_cons in N as [? _]. }
  do 2 step. rewrite El. unfold next_in. cbn [after]. rewrite decide_True by done.
  assert (Hstr : e_stream en = false) by (by apply (bk_streams _ _ _ _ H entry en (qlists qu)); [|apply col_at|]).
  assert (Eu : list_unlink entry (entry :: l) = l) by (unfold list_unlink; cbn; by rewrite !decide_True).
  apply wp_bind. apply (wp_mono _ _ (fun _ st1 => sound None None None st1 /\ others_stay entry st st1 /\
    tflags <$> transports st1 = tflags <$> transports st /\ rests (e_queue en) (dropped_queue QMGR_QUEUE_TODO entry qu) st st1 /\
    (forall r, retry = Some r -> can_take st1 r) /\
    (forall x, x <> e_queue en -> retry <> Some x -> queues st1 !! x = queues st !! x))).
  { destruct retry as [r|].
    - destruct (Hr r eq_refl) as [Hc Hne]. eapply wp_mono; [by apply (move_todo_wp r entry en qu)|].
      intros ? st1 (S1 & _ & S2 & S3 & S4 & S5 & S6). do 4 (split; [done|]). split; [by intros ? [= <-]|].
      intros x Hx Hxr. apply S6; [done|]. congruence.
    - eapply wp_mono; [by apply (entry_done_wp entry QMGR_QUEUE_TODO en qu)|].
      intros ? st1 (S1 & [D1 D2 D3 D4] & R & _). split; [done|]. split; [intros x xn Hx Hxn; by rewrite D1, lookup_delete_ne|].
      do 2 (split; [done|]). split; [done|]. intros x Hx _. by apply D4. }
  intros b st1 (Hs1 & O1 & T1 & R1 & C1 & X1).
  assert (Hrest : forall st2, (forall x xn, x ∉ l -> entries st1 !! x = Some xn -> entries st2 !! x = Some xn) ->
    forall x xn, x ∉ entry :: l -> entries st !! x = Some xn -> entries st2 !! x = Some xn).
  { intros st2 Hk x xn [Hx1 Hx2]%not_elem_of_cons Hxn. apply Hk; [done|]. by apply O1. }
  destruct R1 as [((qu1 & Hq1 & Ep1 & Etd1 & Ebz1) & L1)|((Hn1 & Etd1 & Ebz1) & tr1 & Ht1 & L1)]; cbn in Etd1; rewrite El, Eu in Etd1.
  - apply wp_bind. eapply wp_mono; [apply (IH qu1 fuel st1); [done|done|done|cbn in Hf; lia|]|].
    { intros r Er. split; [by apply C1|by apply (Hr r)]. }
    intros l2 st2 (Hs2 & O2 & T2 & M2 & U2 & X2). step. split; [done|]. split; [by apply Hrest|]. split; [by rewrite T2|]. split; [|split].
    + change (qplace qu1 = qplace qu) in Ep1. change (q_busy qu1 = q_busy qu) in Ebz1. destruct M2 as [(qu2 & A1 & A2 & A3 & A4)|[A1 A2]]; [left; exists qu2; do 1 (split; [done|]); split; [|split]; congruence|right; split; congruence].
    + destruct U2 as [U2|(t & tr & A1 & U2)]; [left; congruence|right]. destruct (col_some _ _ _ _ _ L1 A1) as (tr0 & A0 & E).
      exists t, tr0. split; [done|]. congruence.
    + intros x Hx1 Hx2. rewrite X2 by done. by apply X1.
  - subst l. apply wp_bind. destruct fuel; cbn [defer_loop head]; (step; step; split; [done|]; split; [by apply Hrest|]; split; [done|]; split; [by right|]; split; [|done];
      right; by eexists _, _).
Qed.

(** [q] is a destination for which deliveries stop. *)
Lemma defer_todo_wp service queue dsn qu tr now st :
  sound None None None st -> transports st !! service = Some tr -> queues st !! queue = Some qu -> ~ can_take st queue ->
  wp (qmgr_defer_todo service queue dsn now) st (fun _ st' => sound None None None st' /\
    (forall x xn, x ∉ q_todo qu -> entries st !! x = Some xn -> entries st' !! x = Some xn) /\
    tflags <$> transports st' = tflags <$> transports st /\ emptied queue qu st' /\
    (forall t trt, transports st !! t = Some trt -> QMGR_TRANSPORT_THROTTLED trt = true -> exists trt', transports st' !! t = Some trt' /\
       (t_queue_list trt' = t_queue_list trt \/ t_queue_list trt' = list_unlink queue (t_queue_list trt))) /\
    (forall x xu, queues st !! x = Some xu -> x <> queue -> ~ can_take st x -> queues st' !! x = Some xu)).
Proof.
  intros Hs Ht Hq Hno. unfold qmgr_defer_todo. apply wp_bind. eapply wp_mono; [by apply (error_queue_wp service dsn tr)|].
  intros r st1 (Hs1 & E1 & K1 & F1 & L1 & R1 & _). pose proof (K1 _ _ Hq) as Hq1. step.
  assert (Hback : forall x xu, queues st !! x = Some xu -> can_take st1 x -> can_take st x).
  { intros x xu Hx Hc. apply (can_take_frame x st1); [done| |done]. exists xu, xu. split; [by apply K1|]. by split. }
  eapply wp_mono; [apply (defer_loop_wp (q_todo qu) queue qu r now); [done|done|done|done|]|].
  { intros r0 Er. pose proof (R1 _ Er) as Hc. split; [done|]. intros ->. apply Hno. by apply (Hback _ qu). }
  intros l st2 (Hs2 & O2 & F2 & M2 & U2 & X2). split; [done|]. split; [intros x xn Hx Hxn; apply O2; [done|by rewrite E1]|].
  split; [by rewrite F2|]. split; [done|]. split.
  - intros t trt Htt Hd. assert (Hlt : t_queue_list <$> transports st1 !! t = Some (t_queue_list trt)).
    { rewrite L1, Htt; [done|]. destruct (decide (t = service)) as [->|]; [right; congruence|by left]. }
    destruct (transports st1 !! t) as [tr1|] eqn:Ht1; [|done]. injection Hlt as Hlt.
    assert (Hl2 : forall l, (t_queue_list <$> transports st2) !! t = Some l -> exists tr2, transports st2 !! t = Some tr2 /\ t_queue_list tr2 = l).
    { intros l0. rewrite lookup_fmap. destruct (transports st2 !! t) as [tr2|]; [|done]. intros [= <-]. by exists tr2. }
    destruct U2 as [U2|(t' & tr' & A1 & U2)].
    + destruct (Hl2 (t_queue_list trt)) as (tr2 & ? & ?); [by rewrite U2, lookup_fmap, Ht1; cbn; rewrite Hlt|]. exists tr2. auto.
    + destruct (decide (t' = t)) as [->|Hn].
      * destruct (Hl2 (list_unlink queue (t_queue_list trt))) as (tr2 & ? & ?); [rewrite U2, lookup_insert_eq; congruence|]. exists tr2. auto.
      * destruct (Hl2 (t_queue_list trt)) as (tr2 & ? & ?); [by rewrite U2, lookup_insert_ne, lookup_fmap, Ht1 by done; cbn; rewrite Hlt|]. exists tr2. auto.
  - intros x xu Hx Hne Hnc. rewrite X2; [by apply K1|done|]. intros Er. apply Hnc. by apply (Hback _ xu), R1.
Qed.

(** ** All destinations of a transport *)

Definition of_transport (st : qmgr) (t x : nat) : Prop := exists xu, queues st !! x = Some xu /\ q_transport xu = t.
Definition waits_for (st : qmgr) (t e : nat) : Prop := exists x xu, queues st !! x = Some xu /\ q_transport xu = t /\ e ∈ q_todo xu.

Lemma listed_queue np dp dm st t tr x : sound np dp dm st -> transports st !! t = Some tr ->
  x ∈ t_queue_list tr <-> exists xu, queues st !! x = Some xu /\ q_transport xu = t.
Proof.
  intros (_ & _ & H) Ht. destruct (bk_transport_queues _ _ _ _ H) as [H1 H2]. split.
  - intros Hx. destruct (proj1 (proj2 (H1 _ _ (col_at tcontrol _ _ _ Ht))) x Hx) as (n & (xu & Hxu & ->)%col_inv & E). by exists xu.
  - intros (xu & Hxu & E). destruct (H2 _ _ (col_at qplace _ _ _ Hxu)) as (tr' & Ht' & Hin & _). cbn in Ht'. rewrite E in Ht'.
    apply (col_inv_at _ _ _ _ _ Ht) in Ht' as ->. exact Hin.
Qed.

Lemma listed_nodup np dp dm st t tr : sound np dp dm st -> transports st !! t = Some tr -> NoDup (t_queue_list tr).
Proof. intros (_ & _ & H) Ht. exact (proj1 (proj1 (bk_transport_queues _ _ _ _ H) _ _ (col_at tcontrol _ _ _ Ht))). Qed.

Lemma next_in_mid x l1 l2 : x ∉ l1 -> next_in x (l1 ++ x :: l2) = head l2.
Proof. intros H. unfold next_in. by destruct (before_after_mid x l1 l2 H) as [_ ->]. Qed.
Lemma list_unlink_mid x l1 l2 : x ∉ l1 -> list_unlink x (l1 ++ x :: l2) = l1 ++ l2.
Proof. intros H. unfold list_unlink. by destruct (before_after_mid x l1 l2 H) as [-> ->]. Qed.

Lemma defer_queues_wp service t dsn now l : forall l0 fuel st tr,
  sound None None None st -> is_Some (transports st !! service) -> transports st !! t = Some tr -> QMGR_TRANSPORT_THROTTLED tr = true ->
  t_queue_list tr = l0 ++ l -> (forall x xu, x ∈ l0 -> queues st !! x = Some xu -> q_todo xu = []) -> (length l <= fuel)%nat ->
  wp (defer_queues fuel service t (head l) dsn now) st (fun _ st' => sound None None None st' /\
    (forall e en, ~ waits_for st t e -> entries st !! e = Some en -> entries st' !! e = Some en) /\
    tflags <$> transports st' = tflags <$> transports st /\ (forall e, ~ waits_for st' t e)).
Proof.
  induction l as [|q l IH]; intros l0 fuel st tr Hs Hsv Ht Hd El Hl0 Hf.
  { destruct fuel; cbn [defer_queues head]; (apply wp_ret; split; [done|]; split; [done|]; split; [done|]);
      intros e (x & xu & Hx & Et & Hin); rewrite (Hl0 x xu) in Hin; (try done; try by apply not_elem_of_nil in Hin);
      rewrite app_nil_r in El; rewrite <- El; apply (proj2 (listed_queue _ _ _ _ _ _ x Hs Ht)); by exists xu. }
  destruct fuel as [|fuel]; [cbn in Hf; lia|]. cbn [defer_queues head]. step.
  pose proof (listed_nodup _ _ _ _ _ _ Hs Ht) as Hnd. rewrite El in Hnd.
  assert (Hq0 : q ∉ l0). { apply NoDup_app in Hnd as (_ & Hnd & _). intros Hin. apply (Hnd q Hin). by left. }
  rewrite El, next_in_mid by done.
  destruct (proj1 (listed_queue _ _ _ _ _ _ q Hs Ht)) as (qu & Hq & Eqt); [rewrite El; apply elem_of_app; right; by left|].
  assert (Hblocked : forall x xu, queues st !! x = Some xu -> q_transport xu = t -> ~ can_take st x).
  { intros x xu Hx Ex (xu' & tr' & Hx' & _ & Ht' & Hd'). assert (xu' = xu) as -> by congruence. congruence. }
  destruct Hsv as [svt Hsv]. apply wp_bind. eapply wp_mono; [apply (defer_todo_wp service q dsn qu svt); [done|done|done|by apply (Hblocked q qu)]|].
  intros r1 st1 (Hs1 & O1 & F1 & M1 & U1 & X1).
  destruct (U1 t tr Ht Hd) as (tr1 & Ht1 & Hl1). assert (Hd1 : QMGR_TRANSPORT_THROTTLED tr1 = true).
  { destruct (col_some _ _ _ _ _ F1 Ht1) as (tr2 & Ht2 & E). assert (tr2 = tr) as -> by congruence. unfold QMGR_TRANSPORT_THROTTLED in *.
    apply (f_equal snd) in E. cbn in E. by rewrite E. }
  assert (Hsv1 : is_Some (transports st1 !! service)).
  { destruct (col_some _ _ _ _ _ (eq_sym F1) Hsv) as (sv1 & ? & _). by exists sv1. }
  (* the queues that were visited *)
  assert (Hl1' : exists l1, t_queue_list tr1 = l1 ++ l /\ forall x, x ∈ l1 -> x ∈ l0 \/ x = q).
  { rewrite El in Hl1. destruct Hl1 as [Hl1|Hl1].
    - exists (l0 ++ [q]). rewrite Hl1, <- app_assoc. split; [done|]. intros x [?| ->%list_elem_of_singleton]%elem_of_app; auto.
    - exists l0. rewrite Hl1, list_unlink_mid by done. auto. }
  destruct Hl1' as (l1 & El1 & Hin1).
  assert (Hempty : forall x xu, x ∈ l1 -> queues st1 !! x = Some xu -> q_todo xu = []).
  { intros x xu Hx Hxu. destruct (Hin1 x Hx) as [Hx0| ->].
    - destruct (proj1 (listed_queue _ _ _ _ _ _ x Hs Ht)) as (xu0 & Hxu0 & Ex); [rewrite El; apply elem_of_app; by left|].
      rewrite (X1 x xu0) in Hxu; [|done|by intros ->|by apply (Hblocked x xu0)]. injection Hxu as <-. by apply (Hl0 x).
    - destruct M1 as [(qu1 & A1 & _ & A2 & _)|[A1 _]]; congruence. }
  apply wp_bind. eapply wp_mono; [apply (IH l1 fuel st1 tr1); [done..|cbn in Hf; lia]|].
  intros r2 st2 (Hs2 & O2 & F2 & W2). step. split; [done|]. split; [|split; [by rewrite F2|done]].
  intros e en Hw He. apply O2; [|apply O1; [|done]].
  - intros (x & xu & Hx & Ex & Hin). destruct (decide (x = q)) as [->|Hne].
    + destruct M1 as [(qu1 & A1 & _ & A2 & _)|[A1 _]]; [|congruence]. assert (qu1 = xu) as -> by congruence. rewrite A2 in Hin.
      by apply not_elem_of_nil in Hin.
    + apply Hw. assert (Hxl : x ∈ t_queue_list tr).
      { assert (Hxl : x ∈ t_queue_list tr1) by (apply (proj2 (listed_queue _ _ _ _ _ _ x Hs1 Ht1)); by exists xu).
        rewrite El. destruct Hl1 as [Hl1|Hl1]; rewrite Hl1 in Hxl; [by rewrite El in Hxl|]. rewrite El, list_unlink_mid in Hxl by done.
        apply elem_of_app in Hxl. apply elem_of_app. destruct Hxl; [by left|right; by right]. }
      destruct (proj1 (listed_queue _ _ _ _ _ _ x Hs Ht) Hxl) as (xu0 & Hxu0 & Ex0).
      rewrite (X1 x xu0) in Hx; [|done|done|by apply (Hblocked x xu0)]. injection Hx as <-. by exists x, xu0.
  - intros Hin. apply Hw. by exists q, qu.
Qed.

Lemma defer_transport_wp service t dsn tr now st :
  sound None None None st -> is_Some (transports st !! service) -> transports st !! t = Some tr -> QMGR_TRANSPORT_THROTTLED tr = true ->
  wp (qmgr_defer_transport service t dsn now) st (fun _ st' => sound None None None st' /\
    (forall e en, ~ waits_for st t e -> entries st !! e = Some en -> entries st' !! e = Some en) /\
    tflags <$> transports st' = tflags <$> transports st /\ (forall e, ~ waits_for st' t e)).
Proof.
  intros Hs Hsv Ht Hd. unfold qmgr_defer_transport. step. apply (defer_queues_wp service t dsn now (t_queue_list tr) [] _ _ tr); [done..| |done].
  by intros x xu ?%not_elem_of_nil.
Qed.
