(* ===== verification/QmgrDeliver.v ===== *)
(** Delivery requests: qmgr_deliver.c and the wrappers of qmgr_queue.c and qmgr_enable.c
    (src/src/qmgr). How the status reports of delivery agents change destinations,
    transports and entries. *)

From S2P Require Export QmgrDefer Dsn.

(** ** Operations *)

(** What qmgr_deliver_final_reply() finds: the process failed; or the status, and the
    status code and reason of the site problem that the agent reports. *)
Inductive delivery_report :=
  | Crashed
  | Reported (defer : bool) (dsn_status reason : bytes).

Definition SUSPENDED : bytes := str "delivery temporarily suspended: ".

(** A deferred delivery with a status code is a site problem. *)
Definition site_problem (defer : bool) (dsn_status : bytes) : bool := defer && negb (bool_decide (dsn_status = [])).
Definition final_status (dsn_status : bytes) : bytes := if (dsn_valid dsn_status =? 0)%nat then str "4.0.0" else dsn_status.
Definition final_reason (defer : bool) (dsn_status reason : bytes) : bytes :=
  if site_problem defer dsn_status then SUSPENDED ++ (if bool_decide (reason = []) then str "unknown error" else reason) else reason.
(** The two texts of a DSN, as qmgr_error_nexthop() joins them. *)
Definition dsn_text (dsn_status reason : bytes) : bytes := dsn_status ++ [" "%ch] ++ reason.

Definition mail_transport_error : bytes := dsn_text (str "4.3.0") (str "unknown mail transport error").
Definition mail_transport_unavailable : bytes := dsn_text (str "4.3.0") (str "mail transport unavailable").

(** Back off from a site. *)
Definition site_backoff (service queue : nat) (defer : bool) (dsn_status reason : bytes) (now : Z) : M (list nat) :=
  if site_problem defer dsn_status then
    let dsn := dsn_text (final_status dsn_status) (final_reason defer dsn_status reason) in
    qu ← get_queue queue;
    if QMGR_QUEUE_READY qu then
      qmgr_queue_throttle queue dsn;;
      qu ← get_queue queue;
      if QMGR_QUEUE_THROTTLED qu then qmgr_defer_todo service queue dsn now else mret []
    else mret []
  else mret [].

(** The watchdog timer, the delivery agent's stream and the message flags are left out:
    of the stream it is known whether it is open. The result has the messages for which
    qmgr_active_done() is called. *)
Definition qmgr_deliver_update (service entry : nat) (report : delivery_report) (now : Z) : M (list nat) :=
  en ← get_entry entry;
  let queue := e_queue en in
  qu ← get_queue queue;
  let transport := q_transport qu in
  match report with
  | Crashed =>
      qmgr_transport_throttle transport mail_transport_error;;
      upd_entry entry (set_e_stream false);;
      qmgr_entry_unselect entry;;
      qmgr_defer_transport service transport mail_transport_error now
  | Reported defer dsn_status reason =>
      l ← site_backoff service queue defer dsn_status reason now;
      qmgr_transport_unthrottle transport;;
      (if bool_decide (final_reason defer dsn_status reason = []) then qmgr_queue_unthrottle queue else mret tt);;
      upd_entry entry (set_e_stream false);;
      done ← qmgr_entry_done entry QMGR_QUEUE_BUSY now;
      mret (l ++ (if done : bool then [e_message en] else []))
  end.

(** No delivery process, or an unhappy one. *)
Definition deliver_unavailable (service transport : nat) (now : Z) : M (list nat) :=
  qmgr_transport_throttle transport mail_transport_unavailable;;
  qmgr_defer_transport service transport mail_transport_unavailable now.

(** The rest of qmgr_deliver(), once [entry] is selected; [sent] is the outcome of
    qmgr_deliver_send_request(). *)
Definition deliver_entry (service transport entry : nat) (sent : bool) (now : Z) : M (list nat) :=
  if sent then upd_entry entry (set_e_stream true);; mret []
  else
    qmgr_entry_unselect entry;;
    deliver_unavailable service transport now.

(** ** Transports *)

Lemma tcontrol_dsn tr f d : tcontrol (set_t_dsn d (set_t_flags f tr)) = tcontrol tr.
Proof. done. Qed.

(** Only the flags, the reason and the timer of a transport change. *)
Lemma transport_control_sound np dp dm t tr tr' T st :
  sound np dp dm st -> transports st !! t = Some tr -> tview tr' = tview tr -> tcontrol tr' = tcontrol tr ->
  (tdead tr').2 = (tdead tr').1 -> (t ∈ T <-> (tdead tr').1 = true) -> (forall x, x <> t -> x ∈ T <-> x ∈ transport_timers st) ->
  sound np dp dm (set_transport_timers T (put_transport t tr' st)).
Proof.
  intros (Hwf & Hodd & H) Ht Ev Ec Hd HT Hx. open_books H.
  set (st' := set_transport_timers T (put_transport t tr' st)).
  assert (Ct : forall B (f : QMGR_TRANSPORT -> B), f tr' = f tr -> f <$> transports st' = f <$> transports st).
  { intros B f E. unfold st'. cbn. rewrite fmap_insert, E. apply insert_id. by apply col_at. }
  assert (Hquiet : quiet st st') by (split; [by apply Ct|done|done|done]).
  split; [by eapply quiet_wf|]. split; [by eapply quiet_tags|]. assert (Eb : t_job_byname tr' = t_job_byname tr) by (unfold tview, tshape in Ev; congruence).
  split; rewrite ?(Ct _ tcontrol), ?(Ct _ t_job_byname) by done; try assumption.
  unfold st'. cbn. rewrite fmap_insert. destruct Bdead as [D1 D2]. split.
  - intros x d. rewrite lookup_insert_dec. case_decide as Hne; [intros [= <-]; by subst x|]. intros Hxd. rewrite Hx by congruence. by apply D1.
  - intros x Hin. rewrite lookup_insert_dec. case_decide as Hne; [by eexists|]. apply D2, Hx; [congruence|done].
Qed.

Definition same_but_transports (st st' : qmgr) : Prop :=
  queues st' = queues st /\ entries st' = entries st /\ peers st' = peers st /\ jobs st' = jobs st /\ messages st' = messages st.

Lemma dead_books np dp dm t tr st : sound np dp dm st -> transports st !! t = Some tr ->
  bool_decide (is_Some (t_dsn tr)) = QMGR_TRANSPORT_THROTTLED tr /\ (t ∈ transport_timers st <-> QMGR_TRANSPORT_THROTTLED tr = true).
Proof. intros (_ & _ & H) Ht. exact (proj1 (bk_throttled _ _ _ _ H) _ _ (col_at tdead _ _ _ Ht)). Qed.

Lemma put_transport_twice t a b st : put_transport t b (put_transport t a st) = put_transport t b st.
Proof. unfold put_transport. cbn. by rewrite insert_insert_eq. Qed.

Lemma transport_throttle_wp np dp dm t tr dsn st :
  sound np dp dm st -> transports st !! t = Some tr ->
  wp (qmgr_transport_throttle t dsn) st (fun _ st' => sound np dp dm st' /\ same_but_transports st st' /\
    exists tr', transports st' = <[t := tr']> (transports st) /\ QMGR_TRANSPORT_THROTTLED tr' = true).
Proof.
  intros Hs Ht. destruct (dead_books _ _ _ _ _ _ Hs Ht) as [Hd1 Hd2]. unfold qmgr_transport_throttle. step.
  apply wp_if; intros Hd.
  { step. split; [done|]. split; [done|]. exists tr. by rewrite insert_id. }
  step. apply wp_bind, wp_panic_if; [by rewrite Hd1, Hd|]. do 2 step. rewrite put_transport_twice.
  assert (Hdead : QMGR_TRANSPORT_THROTTLED tr1 = true) by apply (flag_bits (t_flags tr)).
  split; [|split; [done|by exists tr1]].
  apply (transport_control_sound np dp dm t tr tr1); [done..| | |]; cbn [tdead fst snd].
  - by rewrite Hdead.
  - rewrite Hdead. set_solver.
  - set_solver.
Qed.

Lemma unlocked_bits flags : has_flag (Z.land flags (Z.lnot QMGR_TRANSPORT_STAT_RATE_LOCK)) QMGR_TRANSPORT_STAT_DEAD = has_flag flags QMGR_TRANSPORT_STAT_DEAD.
Proof. apply (flag_bits flags). Qed.
Lemma undead_bits flags : has_flag (Z.land flags (Z.lnot QMGR_TRANSPORT_STAT_DEAD)) QMGR_TRANSPORT_STAT_DEAD = false.
Proof. apply (flag_bits flags). Qed.

Lemma transport_unthrottle_wp np dp dm t tr st :
  sound np dp dm st -> transports st !! t = Some tr ->
  wp (qmgr_transport_unthrottle t) st (fun _ st' => sound np dp dm st' /\ same_but_transports st st' /\
    exists tr', transports st' = <[t := tr']> (transports st) /\ QMGR_TRANSPORT_THROTTLED tr' = false).
Proof.
  intros Hs Ht. destruct (dead_books _ _ _ _ _ _ Hs Ht) as [Hd1 Hd2]. unfold qmgr_transport_unthrottle. step.
  apply wp_bind. apply (wp_mono _ _ (fun _ st' => sound np dp dm st' /\ same_but_transports st st' /\
    exists tr', transports st' = <[t := tr']> (transports st) /\ QMGR_TRANSPORT_THROTTLED tr' = false)).
  { apply wp_if; intros Hd.
    - step. apply wp_bind, wp_panic_if.
      { apply bool_decide_eq_false. rewrite Hd in Hd1. apply bool_decide_eq_true in Hd1 as [x Hx]. congruence. }
      do 2 step. rewrite put_transport_twice. assert (Hdead : QMGR_TRANSPORT_THROTTLED tr1 = false) by apply (undead_bits (t_flags tr)).
      split; [|split; [done|by exists tr1]].
      apply (transport_control_sound np dp dm t tr tr1); [done..| | |]; cbn [tdead fst snd].
      + by rewrite Hdead.
      + rewrite Hdead. set_solver.
      + set_solver.
    - step. split; [done|]. split; [done|]. exists tr. by rewrite insert_id. }
  intros ? st1 (Hs1 & (S1 & S2 & S3 & S4 & S5) & tr1 & T1 & Hd). assert (Ht1 : transports st1 !! t = Some tr1) by (by rewrite T1, lookup_insert_eq).
  apply wp_bind. eapply wp_get_transport; [exact Ht1|].
  apply wp_if; intros Hl; [|by step; split_and!; [..|exists tr1]].
  eapply wp_upd_transport; [exact Ht1|]. cbn beta. set (tr0 := set_t_flags _ tr1).
  destruct (dead_books _ _ _ _ _ _ Hs1 Ht1) as [Hd3 Hd4].
  assert (Hdead : QMGR_TRANSPORT_THROTTLED tr0 = QMGR_TRANSPORT_THROTTLED tr1) by apply (unlocked_bits (t_flags tr1)).
  assert (Hid : put_transport t tr0 st1 = set_transport_timers (transport_timers st1) (put_transport t tr0 st1)) by (by destruct st1).
  split; [|split; [done|exists tr0; split; [st_cbn; by rewrite T1, insert_insert_eq|by rewrite Hdead]]].
  rewrite Hid. apply (transport_control_sound np dp dm t tr1 tr0); [done..| | |done]; cbn [tdead fst snd]; rewrite Hdead; done.
Qed.

(** ** Streams *)

Lemma put_entry_stream np dp dm e en b st : sound np dp dm st -> entries st !! e = Some en ->
  (b = true -> exists qu, queues st !! e_queue en = Some qu /\ e ∉ q_todo qu) -> sound np dp dm (put_entry e (set_e_stream b en) st).
Proof.
  intros (Hwf & Hodd & H) He Hb. open_books H. set (st' := put_entry _ _ st).
  assert (Hquiet : quiet st st') by (split; done).
  split; [by eapply quiet_wf|]. split; [by eapply quiet_tags|]. split; unfold st'; cols; try assumption.
  intros x xn l Hx Hl Hin. rewrite lookup_insert_dec in Hx. case_decide as Hd; [|by apply (Bstreams x xn l)].
  injection Hx as <-. subst x. cbn in *. destruct b; [|done]. destruct (Hb eq_refl) as (qu & Hq & Hn).
  apply (col_inv_at _ _ _ _ _ Hq) in Hl as ->. by destruct Hn.
Qed.

(** ** Reports *)

Definition on_busy (st : qmgr) (e : nat) : Prop := exists en qu, entries st !! e = Some en /\ queues st !! e_queue en = Some qu /\ e ∈ q_busy qu.

Lemma busy_not_suspended np dp dm st q qu e : sound np dp dm st -> queues st !! q = Some qu -> e ∈ q_busy qu -> 0 <= q_window qu.
Proof.
  intros Hs Hq Hin. destruct (queue_controlled _ _ _ _ _ _ Hs Hq) as (tr & _ & _ & [W _ _ _ _ _ Hsu] & _).
  pose proof (proj2 (bk_queue_counts _ _ _ _ (proj2 (proj2 Hs)) _ _ _ (col_at qlists _ _ _ Hq) (col_at qcontrol _ _ _ Hq))) as C. cbn in C.
  unfold QMGR_QUEUE_STAT_SUSPENDED in *. destruct (decide (q_window qu = -1)) as [E|]; [|lia]. apply Hsu in E as [E _]. rewrite C in E.
  unfold size_of in E. destruct (q_busy qu); [by apply not_elem_of_nil in Hin|done].
Qed.

Lemma ready_window qu : QMGR_QUEUE_READY qu = true -> 0 < q_window qu.
Proof. unfold QMGR_QUEUE_READY. lia. Qed.
Lemma throttled_cannot st q qu : queues st !! q = Some qu -> QMGR_QUEUE_THROTTLED qu = true -> ~ can_take st q.
Proof. intros Hq Hth (qu' & tr & Hq' & Hn & _). congruence. Qed.

Lemma site_backoff_wp service queue defer dsn_status reason now e en qu svc st :
  sound None None None st -> transports st !! service = Some svc -> queues st !! queue = Some qu -> e ∈ q_busy qu -> entries st !! e = Some en -> e_queue en = queue ->
  wp (site_backoff service queue defer dsn_status reason now) st (fun _ st' => sound None None None st' /\
    entries st' !! e = Some en /\ tflags <$> transports st' = tflags <$> transports st /\
    exists qu', queues st' !! queue = Some qu' /\ qplace qu' = qplace qu /\ e ∈ q_busy qu').
Proof.
  intros Hs Hsv Hq Hin He Eq. unfold site_backoff.
  assert (Hskip : sound None None None st /\ entries st !! e = Some en /\ tflags <$> transports st = tflags <$> transports st /\
    exists qu', queues st !! queue = Some qu' /\ qplace qu' = qplace qu /\ e ∈ q_busy qu') by (split_and!; [done..|by exists qu]).
  apply wp_if; intros _; [|by step]. step. apply wp_if; intros Hr; [|by step]. apply ready_window in Hr.
  apply wp_bind. eapply wp_mono; [apply (throttle_sound None None None queue qu); done|].
  intros ? st1 (Hs1 & H1 & X1 & qu1 & Hq1 & E1 & W1). step. unfold qstatic in E1. injection E1 as _ En _ _ Et Etd Ebz _.
  pose proof H1 as (L1 & _ & Ee & _).
  assert (F1 : tflags <$> transports st1 = tflags <$> transports st) by (apply tkeeps_flags, L1).
  assert (Hkeep : sound None None None st1 /\ entries st1 !! e = Some en /\ tflags <$> transports st1 = tflags <$> transports st /\
    exists qu', queues st1 !! queue = Some qu' /\ qplace qu' = qplace qu /\ e ∈ q_busy qu').
  { split; [done|]. split; [by rewrite Ee|]. split; [done|]. exists qu1. unfold qplace. split; [done|]. split; congruence. }
  apply wp_if; intros Hth; [|by step]. destruct (col_some _ _ _ _ _ (eq_sym F1) Hsv) as (svc1 & Hsv1 & _).
  eapply wp_mono; [apply (defer_todo_wp service queue _ qu1 svc1); [done..|by eapply throttled_cannot]|].
  intros ? st2 (Hs2 & O2 & F2 & M2 & _ & _). split; [done|]. split; [|split; [by rewrite F2|]].
  - apply O2; [|by rewrite Ee]. rewrite Etd. destruct (lists_nodup st en qu) as (_ & _ & N3); [by rewrite Eq|apply (bk_lists _ _ _ _ (proj2 (proj2 Hs)))|].
    intros Ht. by apply (N3 e).
  - destruct M2 as [(qu2 & A1 & A2 & A3 & A4)|[_ A2]]; [|rewrite Ebz in A2; rewrite A2 in Hin; by apply not_elem_of_nil in Hin].
    exists qu2. split; [done|]. split; [rewrite A2; unfold qplace; congruence|]. by rewrite A4, Ebz.
Qed.

(** What a report leads to. *)
Definition reported (entry : nat) (transport : nat) (report : delivery_report) (st' : qmgr) : Prop :=
  match report with
  | Crashed => (exists tr, transports st' !! transport = Some tr /\ QMGR_TRANSPORT_THROTTLED tr = true) /\
      forall e, ~ waits_for st' transport e
  | Reported _ _ _ => entries st' !! entry = None /\ exists tr, transports st' !! transport = Some tr /\ QMGR_TRANSPORT_THROTTLED tr = false
  end.

Lemma sound_service np dp dm st q qu : sound np dp dm st -> queues st !! q = Some qu -> is_Some (transports st !! q_transport qu).
Proof. intros Hs Hq. destruct (queue_controlled _ _ _ _ _ _ Hs Hq) as (tr & Ht & _). by exists tr. Qed.

Lemma flags_throttled st st' t tr : tflags <$> transports st' = tflags <$> transports st -> transports st !! t = Some tr ->
  exists tr', transports st' !! t = Some tr' /\ QMGR_TRANSPORT_THROTTLED tr' = QMGR_TRANSPORT_THROTTLED tr.
Proof.
  intros Hf Ht. destruct (col_some _ _ _ _ _ (eq_sym Hf) Ht) as (tr' & Ht' & E). exists tr'. split; [done|].
  apply (f_equal snd) in E. cbn in E. unfold QMGR_TRANSPORT_THROTTLED. by rewrite E.
Qed.

Lemma unavailable_wp service t tr dsn now st :
  sound None None None st -> transports st !! t = Some tr -> is_Some (transports st !! service) ->
  wp (qmgr_transport_throttle t dsn;; qmgr_defer_transport service t dsn now) st (fun _ st' => sound None None None st' /\
    (exists tr', transports st' !! t = Some tr' /\ QMGR_TRANSPORT_THROTTLED tr' = true) /\ (forall e, ~ waits_for st' t e) /\
    (forall e en, ~ waits_for st t e -> entries st !! e = Some en -> entries st' !! e = Some en)).
Proof.
  intros Hs Ht [svc Hsv]. apply wp_bind. eapply wp_mono; [by apply (transport_throttle_wp None None None t tr)|].
  intros ? st1 (Hs1 & (Q1 & E1 & _) & tr1 & T1 & Hd1).
  assert (Ht1 : transports st1 !! t = Some tr1) by (by rewrite T1, lookup_insert_eq).
  eapply wp_mono; [apply (defer_transport_wp service t dsn tr1); [done| |done..]|].
  { rewrite T1, lookup_insert_dec. case_decide; [by eexists|by exists svc]. }
  intros ? st2 (Hs2 & O2 & F2 & W2). destruct (flags_throttled _ _ _ _ F2 Ht1) as (tr2 & Ht2 & Hd2).
  split; [done|]. split; [exists tr2; split; [done|congruence]|]. split; [done|]. intros e en Hw He. apply O2; [|by rewrite E1].
  intros (x & xu & Hx & Hw'). apply Hw. exists x, xu. by rewrite <- Q1.
Qed.

Lemma deliver_update_wp service entry report now st :
  sound None None None st -> on_busy st entry -> is_Some (transports st !! service) ->
  wp (qmgr_deliver_update service entry report now) st (fun _ st' => sound None None None st' /\
    forall en qu, entries st !! entry = Some en -> queues st !! e_queue en = Some qu -> reported entry (q_transport qu) report st').
Proof.
  intros Hs (en & qu & He & Hq & Hin) [svc Hsv]. unfold qmgr_deliver_update. do 2 step.
  destruct (sound_service _ _ _ _ _ _ Hs Hq) as [tr Ht].
  assert (Hpost : forall (P : nat -> qmgr -> Prop) (st' : qmgr), P (q_transport qu) st' -> forall en0 qu0, entries st !! entry = Some en0 -> queues st !! e_queue en0 = Some qu0 -> P (q_transport qu0) st').
  { intros P st' HP en0 qu0 He0 Hq0. assert (en0 = en) as -> by congruence. assert (qu0 = qu) as -> by congruence. done. }
  destruct report as [|defer dsn_status reason].
  - (* the agent failed *)
    apply wp_bind. eapply wp_mono; [by apply (transport_throttle_wp None None None (q_transport qu) tr)|].
    intros ? st1 (Hs1 & (Q1 & E1 & _) & tr1 & T1 & Hd1). assert (He1 : entries st1 !! entry = Some en) by (by rewrite E1). step.
    pose proof (put_entry_stream _ _ _ _ _ false _ Hs1 He1) as Hs2. specialize (Hs2 ltac:(done)). fold en0 in Hs2.
    apply wp_bind. eapply wp_mono; [apply (entry_unselect_wp entry en0 qu); [done|apply lookup_insert_eq|done|by st_cbn; rewrite Q1|done]|].
    intros ? st3 (Hs3 & E3 & T3).
    assert (Ht3 : transports st3 !! q_transport qu = Some tr1) by (by rewrite T3; st_cbn; rewrite T1, lookup_insert_eq).
    eapply wp_mono; [apply (defer_transport_wp service (q_transport qu) mail_transport_error tr1); [done| |done..]|].
    { rewrite T3. st_cbn. rewrite T1, lookup_insert_dec. case_decide; [by eexists|by exists svc]. }
    intros ? st4 (Hs4 & _ & F4 & W4). split; [done|]. apply (Hpost (fun t st' => reported entry t Crashed st')).
    destruct (flags_throttled _ _ _ _ F4 Ht3) as (tr4 & Ht4 & Hd4). split; [exists tr4; split; [done|congruence]|done].
  - (* the agent reports *)
    apply wp_bind. eapply wp_mono; [by apply (site_backoff_wp service (e_queue en) defer dsn_status reason now entry en qu svc)|].
    intros l st1 (Hs1 & He1 & F1 & qu1 & Hq1 & Ep1 & Hin1). unfold qplace in Ep1. injection Ep1 as Et1 _.
    destruct (flags_throttled _ _ _ _ F1 Ht) as (tr1 & Ht1 & _).
    apply wp_bind. eapply wp_mono; [by apply (transport_unthrottle_wp None None None (q_transport qu) tr1)|].
    intros ? st2 (Hs2 & (Q2 & E2 & _) & tr2 & T2 & Hd2). assert (Ht2 : transports st2 !! q_transport qu = Some tr2) by (by rewrite T2, lookup_insert_eq).
    assert (Hq2 : queues st2 !! e_queue en = Some qu1) by (by rewrite Q2).
    apply wp_bind. apply (wp_mono _ _ (fun _ st3 => sound None None None st3 /\ entries st3 !! entry = Some en /\
      tflags <$> transports st3 = tflags <$> transports st2 /\ exists qu3, queues st3 !! e_queue en = Some qu3 /\ entry ∈ q_busy qu3)).
    { assert (He2 : entries st2 !! entry = Some en) by (by rewrite E2). apply wp_if; intros _; [|step; split_and!; [done..|by exists qu1]].
      eapply wp_mono; [apply (unthrottle_sound None None None (e_queue en) qu1); [done|done|by eapply busy_not_suspended]|].
      intros ? st3 (Hs3 & (L3 & _ & E3 & _) & _ & qu3 & Hq3 & Est & _). unfold qstatic in Est. injection Est as _ _ _ _ _ _ Eb _.
      split; [done|]. split; [by rewrite E3|]. split; [apply tkeeps_flags, L3|]. exists qu3. split; [done|]. by rewrite Eb. }
    intros ? st3 (Hs3 & He3 & F3 & qu3 & Hq3 & Hin3). step.
    pose proof (put_entry_stream _ _ _ _ _ false _ Hs3 He3 ltac:(done)) as Hs4. fold en0 in Hs4.
    apply wp_bind. eapply wp_mono; [apply (entry_done_wp entry QMGR_QUEUE_BUSY en0 qu3); [done|apply lookup_insert_eq|done..]|].
    intros b st5 (Hs5 & [D1 D2 D3 D4] & _). step. split; [done|]. apply (Hpost (fun t st' => reported entry t (Reported defer dsn_status reason) st')).
    split; [rewrite D1; apply lookup_delete_eq|]. destruct (flags_throttled _ _ _ _ F3 Ht2) as (tr3 & Ht3 & Hd3).
    destruct (flags_throttled _ _ _ tr3 D2 Ht3) as (tr5 & Ht5 & Hd5). exists tr5. split; [done|congruence].
Qed.

Lemma deliver_unavailable_wp service t now st :
  sound None None None st -> is_Some (transports st !! t) -> is_Some (transports st !! service) ->
  wp (deliver_unavailable service t now) st (fun _ st' => sound None None None st').
Proof.
  intros Hs [tr Ht] Hsv. unfold deliver_unavailable. eapply wp_mono; [by apply (unavailable_wp service t tr)|]. by intros ? st' (? & _).
Qed.

(** An entry that was just selected. *)
Lemma deliver_entry_wp service t entry sent now st :
  sound None None None st -> on_busy st entry -> (forall en, entries st !! entry = Some en -> e_stream en = false) ->
  is_Some (transports st !! t) -> is_Some (transports st !! service) ->
  wp (deliver_entry service t entry sent now) st (fun _ st' => sound None None None st').
Proof.
  intros Hs (en & qu & He & Hq & Hin) Hstr Ht Hsv. unfold deliver_entry. apply wp_if; intros _.
  - do 2 step. apply put_entry_stream; [done|done|]. intros _. exists qu. split; [done|].
    destruct (lists_nodup st en qu Hq (bk_lists _ _ _ _ (proj2 (proj2 Hs)))) as (_ & _ & N3). intros Hn. by apply (N3 entry).
  - apply wp_bind. eapply wp_mono; [apply (entry_unselect_wp entry en qu); auto|]. intros ? st1 (Hs1 & E1 & T1).
    apply deliver_unavailable_wp; [done|by rewrite T1..].
Qed.

(** ** Timers and operator commands *)

(** The concurrency window of a queue. *)
Definition same_window (q : nat) (st st' : qmgr) : Prop := q_window <$> queues st' !! q = q_window <$> queues st !! q.
#[export] Instance same_window_preorder q : PreOrder (same_window q).
Proof. split; [done|]. intros s1 s2 s3 H1 H2. unfold same_window in *. congruence. Qed.

Lemma blocker_update_window q x : keeps (same_window q) (qmgr_job_blocker_update x).
Proof.
  unfold qmgr_job_blocker_update. repeat first [progress intros | apply (keeps_bind (same_window q)) | apply (keeps_ret (same_window q))
    | apply (keeps_deref (same_window q)) | apply keeps_upd_transport; reflexivity | case_match].
  apply keeps_upd_queue. intros st y Hy. unfold same_window. cbn. rewrite lookup_insert_dec. case_decide as Hd; [|done]. subst q. by rewrite Hy.
Qed.

Lemma gone_recovered q st st' : queues st' = delete q (queues st) -> recovered q st'.
Proof. intros E qu. by rewrite E, lookup_delete_eq. Qed.

(** A suspended destination becomes ready. *)
Lemma queue_resume_wp q st :
  sound None None None st -> q ∈ resume_timers st ->
  wp (qmgr_queue_resume q) st (fun _ st' => sound None None None st' /\ entries st' = entries st /\ recovered q st').
Proof.
  intros Hs Hin. pose proof (proj2 (proj2 Hs)) as H. destruct (proj2 (proj2 (bk_control _ _ _ _ H)) q (or_intror Hin)) as (c & (qu & Hq & _)%col_inv).
  destruct (queue_controlled _ _ _ _ _ _ Hs Hq) as (tr & Ht & Hk & Hf & HT & HR). pose proof (proj1 HR Hin) as Ew.
  unfold qmgr_queue_resume. do 2 step. apply wp_bind, wp_panic_if.
  { unfold QMGR_QUEUE_SUSPENDED. rewrite Ew. done. }
  step. match goal with |- wp _ ?s _ => change s with (recontrolled q (set_q_window 1 qu) (queue_timers st) (resume_timers st ∖ {[q]}) st) end.
  destruct (recontrolled_sound None None None st q qu (set_q_window 1 qu) tr (queue_timers st) (resume_timers st ∖ {[q]})) as (Hs1 & H1 & X1).
  - done.
  - done.
  - done.
  - unfold QMGR_QUEUE_STAT_THROTTLED, QMGR_QUEUE_STAT_SUSPENDED in *. destruct Hf. destruct Hk. unfold INT_MAX in *.
    split; cbn; unfold QMGR_QUEUE_STAT_THROTTLED, QMGR_QUEUE_STAT_SUSPENDED, INT_MAX; try done; try lia. rewrite qf_dsn. unfold QMGR_QUEUE_STAT_THROTTLED. lia.
  - done.
  - intros x Hx. split; [done|]. set_solver.
  - cbn. rewrite HT, Ew. done.
  - cbn. unfold QMGR_QUEUE_STAT_SUSPENDED. set_solver.
  - eapply wp_mono; [eapply (queue_cleanup_wp (recovered q)); [exact Hs1|apply lookup_insert_eq|by intros; eapply gone_recovered|]|done].
    eapply wp_mono; [apply (wp_keeps (same_window q)); [apply blocker_update_window|]; apply (blocker_update_wp None None None q _ (set_q_window 1 qu)); [done|apply lookup_insert_eq]|].
    intros ? st' [(Hs' & (_ & _ & E & _) & _) Hwin]. split; [done|]. split; [by rewrite E|]. intros y Hy. unfold same_window in Hwin.
    rewrite Hy in Hwin. unfold recontrolled in Hwin. cbn in Hwin. rewrite lookup_insert_eq in Hwin. injection Hwin as Hwin.
    unfold QMGR_QUEUE_READY. by rewrite Hwin.
Qed.

Lemma queue_unthrottle_wrapper_wp q st :
  sound None None None st -> q ∈ queue_timers st ->
  wp (qmgr_queue_unthrottle_wrapper q) st (fun _ st' => sound None None None st' /\ entries st' = entries st /\ recovered q st').
Proof.
  intros Hs Hin. pose proof (proj2 (proj2 Hs)) as H. destruct (proj2 (proj2 (bk_control _ _ _ _ H)) q (or_introl Hin)) as (c & (qu & Hq & _)%col_inv).
  destruct (queue_controlled _ _ _ _ _ _ Hs Hq) as (tr & Ht & Hk & Hf & HT & HR). pose proof (proj1 HT Hin) as Ew.
  unfold qmgr_queue_unthrottle_wrapper. step. apply wp_bind.
  eapply wp_mono; [apply (unthrottle_queue_wp q qu tr); [done..|unfold QMGR_QUEUE_STAT_THROTTLED in Ew; lia]|].
  intros ? st1 (qu1 & Hw1 & _ & -> & Hf1 & Est). unfold QMGR_QUEUE_THROTTLED. rewrite Ew. cbn [Z.eqb QMGR_QUEUE_STAT_THROTTLED].
  match goal with |- wp _ ?s _ => change s with (recontrolled q qu1 (queue_timers st ∖ {[q]} ∖ {[q]}) (resume_timers st) st) end.
  destruct (recontrolled_sound None None None st q qu qu1 tr (queue_timers st ∖ {[q]} ∖ {[q]}) (resume_timers st)) as (Hs1 & H1 & X1); [done..| | | |].
  - intros x Hx. split; [set_solver|done].
  - unfold QMGR_QUEUE_STAT_THROTTLED. set_solver by lia.
  - unfold QMGR_QUEUE_STAT_SUSPENDED in *. rewrite HR, Ew. unfold QMGR_QUEUE_STAT_THROTTLED. lia.
  - eapply wp_mono; [eapply (queue_cleanup_wp (recovered q)); [exact Hs1|apply lookup_insert_eq|by intros; eapply gone_recovered|]|done].
    step. split; [done|]. split; [done|]. intros y. unfold recontrolled. cbn. rewrite lookup_insert_eq. intros [= <-]. unfold QMGR_QUEUE_READY. lia.
Qed.

Lemma enable_queue_wp q qu st :
  sound None None None st -> queues st !! q = Some qu ->
  wp (qmgr_enable_queue q) st (fun _ st' => sound None None None st' /\ entries st' = entries st).
Proof.
  intros Hs Hq. unfold qmgr_enable_queue. step. apply wp_bind.
  apply (wp_mono _ _ (fun _ st1 => sound None None None st1 /\ entries st1 = entries st /\ exists qu1, queues st1 !! q = Some qu1)).
  { apply wp_if; intros Hth; [|step; split_and!; [done..|by exists qu]].
    eapply wp_mono; [apply (unthrottle_sound None None None q qu); [done|done|]|].
    - unfold QMGR_QUEUE_THROTTLED, QMGR_QUEUE_STAT_THROTTLED in Hth. lia.
    - intros ? st1 (H1 & (_ & _ & E & _) & _ & qu1 & Hq1 & _). split; [done|]. split; [done|]. by exists qu1. }
  intros ? st1 (Hs1 & E1 & qu1 & Hq1). eapply wp_mono; [eapply (queue_cleanup_wp (fun _ => True)); [done|done|done|by apply wp_ret]|].
  intros ? st2 (H2 & E2 & _). split; [done|congruence].
Qed.
