(* ===== verification/DeliverRequest.v ===== *)
(** Delivery requests between the queue manager and the delivery agents: deliver_request.c,
    recipient_list.c, rcpt_print.c, rcpt_buf.c, dsn_print.c, dsb_scan.c,
    msg_stats_print.c, msg_stats_scan.c, verp_sender.c, mail_open_ok.c (src/src/global)
    and the messages of qmgr_deliver.c (src/src/qmgr).

    Both ends of the conversation: the agent says that it is ready, the queue manager
    sends a request, the agent reads it and opens the queue file, and reports the outcome.
    Each side is a function of what it reads, to what it writes. *)

From S2P Require Import Prelude Codec QueueId Utf8 Attr QmgrDeliver.
Import MailQueue.

(** ** Attribute names (mail_proto.h) *)

Definition MAIL_ATTR_STATUS : bytes := str "status".
Definition MAIL_ATTR_FLAGS : bytes := str "flags".
Definition MAIL_ATTR_QUEUE : bytes := str "queue_name".
Definition MAIL_ATTR_QUEUEID : bytes := str "queue_id".
Definition MAIL_ATTR_SENDER : bytes := str "sender".
Definition MAIL_ATTR_RCPT_COUNT : bytes := str "recipient_count".
Definition MAIL_ATTR_ORCPT : bytes := str "original_recipient".
Definition MAIL_ATTR_RECIP : bytes := str "recipient".
Definition MAIL_ATTR_WHY : bytes := str "reason".
Definition MAIL_ATTR_OFFSET : bytes := str "offset".
Definition MAIL_ATTR_SIZE : bytes := str "size".
Definition MAIL_ATTR_TIME : bytes := str "time".
Definition MAIL_ATTR_NEXTHOP : bytes := str "nexthop".
Definition MAIL_ATTR_SASL_METHOD : bytes := str "sasl_method".
Definition MAIL_ATTR_SASL_USERNAME : bytes := str "sasl_username".
Definition MAIL_ATTR_SASL_SENDER : bytes := str "sasl_sender".
Definition MAIL_ATTR_LOG_IDENT : bytes := str "log_ident".
Definition MAIL_ATTR_RWR_CONTEXT : bytes := str "rewrite_context".
Definition MAIL_ATTR_ENCODING : bytes := str "encoding".
Definition MAIL_ATTR_LOG_CLIENT_NAME : bytes := str "log_client_name".
Definition MAIL_ATTR_LOG_CLIENT_ADDR : bytes := str "log_client_address".
Definition MAIL_ATTR_LOG_CLIENT_PORT : bytes := str "log_client_port".
Definition MAIL_ATTR_LOG_HELO_NAME : bytes := str "log_helo_name".
Definition MAIL_ATTR_LOG_PROTO_NAME : bytes := str "log_protocol_name".
Definition MAIL_ATTR_DSN_STATUS : bytes := str "status".
Definition MAIL_ATTR_DSN_DTYPE : bytes := str "diag_type".
Definition MAIL_ATTR_DSN_DTEXT : bytes := str "diag_text".
Definition MAIL_ATTR_DSN_MTYPE : bytes := str "mta_type".
Definition MAIL_ATTR_DSN_MNAME : bytes := str "mta_mname".
Definition MAIL_ATTR_DSN_ACTION : bytes := str "action".
Definition MAIL_ATTR_DSN_ENVID : bytes := str "envelope_id".
Definition MAIL_ATTR_DSN_RET : bytes := str "ret_flags".
Definition MAIL_ATTR_DSN_NOTIFY : bytes := str "notify_flags".
Definition MAIL_ATTR_DSN_ORCPT : bytes := str "dsn_orig_rcpt".
Definition MAIL_ATTR_SMTPUTF8 : bytes := str "smtputf8".

(** ** Recipient lists (recipient_list.c) *)

(** [rcpt_u] is the union at the end: a status, a null pointer, or not initialized. *)
Record RECIPIENT := mk_recipient {
  rcpt_offset : Z;
  rcpt_dsn_orcpt : bytes;
  rcpt_dsn_notify : Z;
  rcpt_orig_addr : bytes;
  rcpt_address : bytes;
  rcpt_u : option Z
}.

(** The objects of the array, whose number is [len]; [avail] is its allocated size. *)
Record RECIPIENT_LIST := mk_rcpt_list {
  rl_info : list RECIPIENT;
  rl_avail : Z;
  rl_variant : Z
}.
Definition rl_len (l : RECIPIENT_LIST) : Z := Z.of_nat (length (rl_info l)).

Definition RCPT_LIST_INIT_STATUS : Z := 1.
Definition RCPT_LIST_INIT_QUEUE : Z := 2.
Definition RCPT_LIST_INIT_ADDR : Z := 3.

Definition recipient_list_init (variant : Z) : RECIPIENT_LIST := mk_rcpt_list [] 1 variant.

(** The store behind the end of the array would be undefined. *)
Definition recipient_list_add (l : RECIPIENT_LIST) (offset : Z) (dsn_orcpt : bytes) (dsn_notify : Z) (orig_rcpt rcpt : bytes) : outcome RECIPIENT_LIST :=
  let avail := if rl_len l >=? rl_avail l then rl_avail l * 2 else rl_avail l in
  if rl_len l >=? avail then Undef else
  let u := if (rl_variant l =? RCPT_LIST_INIT_STATUS) || (rl_variant l =? RCPT_LIST_INIT_QUEUE) || (rl_variant l =? RCPT_LIST_INIT_ADDR)
           then Some 0 else None in
  Ret (mk_rcpt_list (rl_info l ++ [mk_recipient offset dsn_orcpt dsn_notify orig_rcpt rcpt u]) avail (rl_variant l)).

Definition recipient_list_swap (a b : RECIPIENT_LIST) : outcome (RECIPIENT_LIST * RECIPIENT_LIST) :=
  if negb (rl_variant b =? rl_variant a) then Panic else
  Ret (mk_rcpt_list (rl_info b) (rl_avail b) (rl_variant a), mk_rcpt_list (rl_info a) (rl_avail a) (rl_variant b)).

(** *** rcpt_print.c and rcpt_buf.c *)

Definition rcpt_print (rcpt : RECIPIENT) (flags : Z) : outcome bytes :=
  attr_print0 (Z.lor flags ATTR_FLAG_MORE)
    [SEND_ATTR_STR MAIL_ATTR_ORCPT (rcpt_orig_addr rcpt);
     SEND_ATTR_STR MAIL_ATTR_RECIP (rcpt_address rcpt);
     SEND_ATTR_LONG MAIL_ATTR_OFFSET (rcpt_offset rcpt);
     SEND_ATTR_STR MAIL_ATTR_DSN_ORCPT (rcpt_dsn_orcpt rcpt);
     SEND_ATTR_INT MAIL_ATTR_DSN_NOTIFY (rcpt_dsn_notify rcpt)].

Definition rcpb_requests : list recv_attr :=
  [RECV_ATTR_STR MAIL_ATTR_ORCPT; RECV_ATTR_STR MAIL_ATTR_RECIP; RECV_ATTR_LONG MAIL_ATTR_OFFSET;
   RECV_ATTR_STR MAIL_ATTR_DSN_ORCPT; RECV_ATTR_INT MAIL_ATTR_DSN_NOTIFY].
Definition rcpb_scan (flags : Z) (fp : bytes) : outcome scan_result :=
  r ← attr_scan0 (Z.lor flags ATTR_FLAG_MORE) rcpb_requests fp; let '(ret, vs, fp) := r in
  Ret (if ret =? 5 then 1 else -1, vs, fp).

(** ** Delivery status (dsn_print.c, dsb_scan.c) *)

Record DSN := mk_dsn {
  dsn_status : bytes;
  dsn_action : bytes;
  dsn_reason : bytes;
  dsn_dtype : bytes;
  dsn_dtext : bytes;
  dsn_mtype : bytes;
  dsn_mname : bytes
}.

Definition dsn_print (dsn : DSN) (flags : Z) : outcome bytes :=
  attr_print0 (Z.lor flags ATTR_FLAG_MORE)
    [SEND_ATTR_STR MAIL_ATTR_DSN_STATUS (dsn_status dsn);
     SEND_ATTR_STR MAIL_ATTR_DSN_DTYPE (dsn_dtype dsn);
     SEND_ATTR_STR MAIL_ATTR_DSN_DTEXT (dsn_dtext dsn);
     SEND_ATTR_STR MAIL_ATTR_DSN_MTYPE (dsn_mtype dsn);
     SEND_ATTR_STR MAIL_ATTR_DSN_MNAME (dsn_mname dsn);
     SEND_ATTR_STR MAIL_ATTR_DSN_ACTION (dsn_action dsn);
     SEND_ATTR_STR MAIL_ATTR_WHY (dsn_reason dsn)].

Definition dsb_requests : list recv_attr :=
  [RECV_ATTR_STR MAIL_ATTR_DSN_STATUS; RECV_ATTR_STR MAIL_ATTR_DSN_DTYPE; RECV_ATTR_STR MAIL_ATTR_DSN_DTEXT;
   RECV_ATTR_STR MAIL_ATTR_DSN_MTYPE; RECV_ATTR_STR MAIL_ATTR_DSN_MNAME; RECV_ATTR_STR MAIL_ATTR_DSN_ACTION;
   RECV_ATTR_STR MAIL_ATTR_WHY].
Definition dsb_scan (flags : Z) (fp : bytes) : outcome scan_result :=
  r ← attr_scan0 (Z.lor flags ATTR_FLAG_MORE) dsb_requests fp; let '(ret, vs, fp) := r in
  Ret (if ret =? 7 then 1 else -1, vs, fp).

(** ** Time stamps (msg_stats_print.c, msg_stats_scan.c)

    The structure is sent as the bytes of its representation: five [struct timeval] of 16
    bytes, and the reuse count with its padding. *)
Definition sizeof_timeval : nat := 16.
Definition sizeof_MSG_STATS : nat := 88.
Definition agent_handoff_at : nat := 32.

Definition msg_stats_print (stats : bytes) (flags : Z) : outcome bytes :=
  attr_print0 (Z.lor flags ATTR_FLAG_MORE) [SEND_ATTR_DATA MAIL_ATTR_TIME stats].

Definition msg_stats_scan (flags : Z) (fp : bytes) : outcome scan_result :=
  r ← attr_scan0 (Z.lor flags ATTR_FLAG_MORE) [RECV_ATTR_DATA MAIL_ATTR_TIME] fp; let '(ret, vs, fp) := r in
  if ret =? 1 then
    match vs with
    | [V_DATA buf] => Ret (if (length buf =? sizeof_MSG_STATS)%nat then ret else -1, vs, fp)
    | _ => Undef
    end
  else Ret (ret, vs, fp).

(** QMGR_MSG_STATS(). *)
Definition QMGR_MSG_STATS (arrival_time active_time : bytes) : bytes :=
  arrival_time ++ active_time ++ replicate (sizeof_MSG_STATS - 2 * sizeof_timeval) 0.

(** The seconds (the first eight bytes) of the hand-off time are zero; store it. *)
Definition handoff_unset (stats : bytes) : bool := forallb (Z.eqb 0) (take 8 (drop agent_handoff_at stats)).
Definition set_handoff (now stats : bytes) : bytes :=
  take agent_handoff_at stats ++ now ++ drop (agent_handoff_at + sizeof_timeval) stats.

(** ** verp_sender.c *)

(** A character of a string, or its terminator. *)
Definition char_at (s : bytes) (i : nat) : outcome Z := if (i <=? length s)%nat then Ret (cp s i) else Undef.

(** The length of the local part. *)
Definition local_len (s : bytes) : nat := match strrchr s "@"%ch with Some n => n | None => length s end.
(** Is there something after the "@"? *)
Definition has_domain (s : bytes) : bool :=
  negb (cp s (local_len s) =? 0) && negb (cp s (local_len s + 1) =? 0).

Definition verp_sender (delimiters sender : bytes) (rcpt_info : RECIPIENT) : outcome bytes :=
  let send_local_len := local_len sender in
  let recipient := if negb (cp (rcpt_orig_addr rcpt_info) 0 =? 0) then rcpt_orig_addr rcpt_info else rcpt_address rcpt_info in
  let rcpt_local_len := local_len recipient in
  d0 ← char_at delimiters 0;
  let buf := take send_local_len sender ++ [Z.land d0 255] ++ take rcpt_local_len recipient in
  buf ← (if has_domain recipient then
           d1 ← char_at delimiters 1;
           Ret (buf ++ [Z.land d1 255] ++ drop (rcpt_local_len + 1) recipient)
         else Ret buf);
  Ret (if has_domain sender then buf ++ ["@"%ch] ++ drop (send_local_len + 1) sender else buf).

(** verp_delims_verify(), with the parameter verp_delimiter_filter; no message when the
    delimiters are good. *)
Definition verp_delims_verify (var_verp_filter delims : bytes) : option bytes :=
  if negb (length delims =? 2)%nat then Some (str "bad VERP delimiter character count") else
  if negb (existsb (Z.eqb (cp delims 0)) var_verp_filter) then Some (str "bad first VERP delimiter character") else
  if negb (existsb (Z.eqb (cp delims 1)) var_verp_filter) then Some (str "bad second VERP delimiter character") else
  None.

(** ** The queue manager sends a request (qmgr_deliver.c) *)

Definition DEL_REQ_FLAG_SUCCESS : Z := Z.shiftl 1 0.
Definition DEL_REQ_FLAG_BOUNCE : Z := Z.shiftl 1 1.
Definition DEL_REQ_FLAG_DEFLT : Z := Z.lor DEL_REQ_FLAG_SUCCESS DEL_REQ_FLAG_BOUNCE.

Definition SMTPUTF8_FLAG_SENDER : Z := Z.shiftl 1 2.
Definition SMTPUTF8_FLAG_RECIPIENT : Z := Z.shiftl 1 3.

(** What a request tells about a message: these members of QMGR_MESSAGE; the times are
    [struct timeval]. *)
Record message_info := mk_message_info {
  mi_tflags : Z;
  mi_queue_name : bytes;
  mi_queue_id : bytes;
  mi_data_offset : Z;
  mi_cont_length : Z;
  mi_encoding : bytes;
  mi_smtputf8 : Z;
  mi_sender : bytes;
  mi_verp_delims : option bytes;
  mi_inspect_xport : bool;
  mi_dsn_envid : bytes;
  mi_dsn_ret : Z;
  mi_arrival_time : bytes;
  mi_active_time : bytes;
  mi_client_name : bytes;
  mi_client_addr : bytes;
  mi_client_port : bytes;
  mi_client_proto : bytes;
  mi_client_helo : bytes;
  mi_sasl_method : bytes;
  mi_sasl_username : bytes;
  mi_sasl_sender : bytes;
  mi_log_ident : bytes;
  mi_rewrite_context : bytes
}.

Section send.
Context (var_smtputf8_enable : bool).

(** The recipients that need SMTPUTF8. *)
Definition utf8_recipient (rcpt : RECIPIENT) : bool :=
  let addr := rcpt_address rcpt in
  var_smtputf8_enable && negb (cp addr 0 =? 0) && negb (allascii_len addr (-1)) && valid_utf8_string addr (Z.of_nat (length addr)).

Fixpoint request_smtputf8 (list : list RECIPIENT) (message : message_info) (smtputf8 : Z) : Z :=
  match list with
  | [] => smtputf8
  | recipient :: list =>
      request_smtputf8 list message
        (if utf8_recipient recipient then
           let smtputf8 := Z.lor smtputf8 SMTPUTF8_FLAG_RECIPIENT in
           match mi_verp_delims message with Some _ => Z.lor smtputf8 SMTPUTF8_FLAG_SENDER | None => smtputf8 end
         else smtputf8)
  end.

Definition request_sender (message : message_info) (list : list RECIPIENT) : outcome bytes :=
  match mi_verp_delims message with
  | None => Ret (mi_sender message)
  | Some delims => match list with rcpt :: _ => verp_sender delims (mi_sender message) rcpt | [] => Undef end
  end.

Definition request_flags (message : message_info) (dflags : Z) : Z :=
  Z.lor (Z.lor (mi_tflags message) dflags) (if mi_inspect_xport message then DEL_REQ_FLAG_BOUNCE else DEL_REQ_FLAG_DEFLT).

Definition request_attrs (message : message_info) (dflags : Z) (nexthop sender : bytes) (list : list RECIPIENT) : Datatypes.list send_attr :=
  [SEND_ATTR_INT MAIL_ATTR_FLAGS (request_flags message dflags);
   SEND_ATTR_STR MAIL_ATTR_QUEUE (mi_queue_name message);
   SEND_ATTR_STR MAIL_ATTR_QUEUEID (mi_queue_id message);
   SEND_ATTR_LONG MAIL_ATTR_OFFSET (mi_data_offset message);
   SEND_ATTR_LONG MAIL_ATTR_SIZE (mi_cont_length message);
   SEND_ATTR_STR MAIL_ATTR_NEXTHOP nexthop;
   SEND_ATTR_STR MAIL_ATTR_ENCODING (mi_encoding message);
   SEND_ATTR_INT MAIL_ATTR_SMTPUTF8 (request_smtputf8 list message (mi_smtputf8 message));
   SEND_ATTR_STR MAIL_ATTR_SENDER sender;
   SEND_ATTR_STR MAIL_ATTR_DSN_ENVID (mi_dsn_envid message);
   SEND_ATTR_INT MAIL_ATTR_DSN_RET (mi_dsn_ret message);
   SEND_ATTR_FUNC (msg_stats_print (QMGR_MSG_STATS (mi_arrival_time message) (mi_active_time message)));
   SEND_ATTR_STR MAIL_ATTR_LOG_CLIENT_NAME (mi_client_name message);
   SEND_ATTR_STR MAIL_ATTR_LOG_CLIENT_ADDR (mi_client_addr message);
   SEND_ATTR_STR MAIL_ATTR_LOG_CLIENT_PORT (mi_client_port message);
   SEND_ATTR_STR MAIL_ATTR_LOG_PROTO_NAME (mi_client_proto message);
   SEND_ATTR_STR MAIL_ATTR_LOG_HELO_NAME (mi_client_helo message);
   SEND_ATTR_STR MAIL_ATTR_SASL_METHOD (mi_sasl_method message);
   SEND_ATTR_STR MAIL_ATTR_SASL_USERNAME (mi_sasl_username message);
   SEND_ATTR_STR MAIL_ATTR_SASL_SENDER (mi_sasl_sender message);
   SEND_ATTR_STR MAIL_ATTR_LOG_IDENT (mi_log_ident message);
   SEND_ATTR_STR MAIL_ATTR_RWR_CONTEXT (mi_rewrite_context message);
   SEND_ATTR_INT MAIL_ATTR_RCPT_COUNT (Z.of_nat (length list))].

Fixpoint send_recipients (list : list RECIPIENT) : outcome bytes :=
  match list with
  | [] => Ret []
  | recipient :: list =>
      out ← attr_print0 ATTR_FLAG_NONE [SEND_ATTR_FUNC (rcpt_print recipient)];
      rest ← send_recipients list;
      Ret (out ++ rest)
  end.

(** What is written to the delivery process. *)
Definition qmgr_deliver_send_request (message : message_info) (dflags : Z) (nexthop : bytes) (list : list RECIPIENT) : outcome bytes :=
  sender ← request_sender message list;
  out ← attr_print0 ATTR_FLAG_NONE (request_attrs message dflags nexthop sender list);
  rcpts ← send_recipients list;
  Ret (out ++ rcpts).
End send.

(** ** The queue manager reads replies (qmgr_deliver.c) *)

Definition DELIVER_STAT_OK : Z := 0.
Definition DELIVER_STAT_DEFER : Z := 1.
Definition DELIVER_STAT_CRASH : Z := 2.

(** [peek_ok]: peekfd() finds no error on the connection.  The status, and what is left to
    read. *)
Definition qmgr_deliver_initial_reply (peek_ok : bool) (stream : bytes) : outcome (Z * bytes) :=
  if negb peek_ok then Ret (DELIVER_STAT_CRASH, stream) else
  r ← attr_scan0 ATTR_FLAG_STRICT [RECV_ATTR_INT MAIL_ATTR_STATUS] stream; let '(ret, vs, stream) := r in
  if negb (ret =? 1) then Ret (DELIVER_STAT_CRASH, stream) else
  match vs with
  | [V_INT stat] => Ret (if negb (stat =? 0) then DELIVER_STAT_DEFER else 0, stream)
  | _ => Undef
  end.

Definition final_requests : list recv_attr := [RECV_ATTR_FUNC dsb_scan; RECV_ATTR_INT MAIL_ATTR_STATUS].
(** The status, and the delivery status buffer unless the reply is malformed. *)
Definition qmgr_deliver_final_reply (peek_ok : bool) (stream : bytes) : outcome (Z * option DSN) :=
  if negb peek_ok then Ret (DELIVER_STAT_CRASH, None) else
  r ← attr_scan0 ATTR_FLAG_STRICT final_requests stream; let '(ret, vs, _) := r in
  if negb (ret =? 2) then Ret (DELIVER_STAT_CRASH, None) else
  match vs with
  | [V_FUNC [V_STR status; V_STR dtype; V_STR dtext; V_STR mtype; V_STR mname; V_STR action; V_STR reason]; V_INT stat] =>
      Ret (if negb (stat =? 0) then DELIVER_STAT_DEFER else 0, Some (mk_dsn status action reason dtype dtext mtype mname))
  | _ => Undef
  end.

(** What qmgr_deliver_update() (QmgrDeliver.v) looks at. *)
Definition report_of (reply : Z * option DSN) : outcome delivery_report :=
  let '(status, dsb) := reply in
  if status =? DELIVER_STAT_CRASH then Ret Crashed else
  match dsb with
  | Some dsb => Ret (Reported (status =? DELIVER_STAT_DEFER) (dsn_status dsb) (dsn_reason dsb))
  | None => Undef
  end.

(** ** The delivery agent (deliver_request.c) *)

Record DELIVER_REQUEST := mk_deliver_request {
  rq_flags : Z;
  rq_queue_name : bytes;
  rq_queue_id : bytes;
  rq_data_offset : Z;
  rq_data_size : Z;
  rq_nexthop : bytes;
  rq_encoding : bytes;
  rq_smtputf8 : Z;
  rq_sender : bytes;
  rq_msg_stats : bytes;
  rq_rcpt_list : RECIPIENT_LIST;
  rq_client_name : bytes;
  rq_client_addr : bytes;
  rq_client_port : bytes;
  rq_client_proto : bytes;
  rq_client_helo : bytes;
  rq_sasl_method : bytes;
  rq_sasl_username : bytes;
  rq_sasl_sender : bytes;
  rq_log_ident : bytes;
  rq_rewrite_context : bytes;
  rq_dsn_envid : bytes;
  rq_dsn_ret : Z
}.

(** deliver_request_initial() and deliver_request_final(): what they write. *)
Definition deliver_request_initial : outcome bytes := attr_print0 ATTR_FLAG_NONE [SEND_ATTR_INT MAIL_ATTR_STATUS 0].

Definition dummy_dsn : DSN := mk_dsn [] [] [] [] [] [] [].
Definition deliver_request_final (hop_status : option DSN) (status : Z) : outcome bytes :=
  let hop_status := match hop_status with Some dsn => dsn | None => dummy_dsn end in
  attr_print0 ATTR_FLAG_NONE [SEND_ATTR_FUNC (dsn_print hop_status); SEND_ATTR_INT MAIL_ATTR_STATUS status].

(** *** Files *)

Record file_stat := mk_stat { st_mode : Z; st_nlink : Z }.
Definition S_IFMT : Z := 0xf000.
Definition S_IFREG : Z := 0x8000.
Definition S_IRWXU : Z := 0x1c0.
Definition S_ISREG (mode : Z) : bool := Z.land mode S_IFMT =? S_IFREG.
Definition MAIL_QUEUE_STAT_READY : Z := S_IRWXU.
Definition ENOENT : Z := 2.

Section agent.
(** The queue configuration, and the answers of the system: the status of a file; the
    error when a file is opened for reading and writing, if any; is the shared lock
    granted at once; the time. *)
Context (hash_queue_names : list bytes) (var_hash_queue_depth : Z).
Context (lstat : bytes -> option file_stat) (open_error : bytes -> option Z) (lock_ok : bytes -> bool) (now : bytes).

(** mail_open_ok(): the path of the file, if it is good. *)
Definition mail_open_ok (queue_name queue_id : bytes) : outcome (option bytes) :=
  if negb (mail_queue_name_ok queue_name) then Ret None else
  if negb (mail_queue_id_ok queue_id) then Ret None else
  path ← mail_queue_path hash_queue_names var_hash_queue_depth queue_name queue_id;
  match lstat path with
  | None => Ret None
  | Some st =>
      if negb (S_ISREG (st_mode st)) then Ret None else
      if negb (Z.land (st_mode st) S_IRWXU =? MAIL_QUEUE_STAT_READY) then Ret None else Ret (Some path)
  end.

Definition get_requests : list recv_attr :=
  [RECV_ATTR_INT MAIL_ATTR_FLAGS; RECV_ATTR_STR MAIL_ATTR_QUEUE; RECV_ATTR_STR MAIL_ATTR_QUEUEID;
   RECV_ATTR_LONG MAIL_ATTR_OFFSET; RECV_ATTR_LONG MAIL_ATTR_SIZE; RECV_ATTR_STR MAIL_ATTR_NEXTHOP;
   RECV_ATTR_STR MAIL_ATTR_ENCODING; RECV_ATTR_INT MAIL_ATTR_SMTPUTF8; RECV_ATTR_STR MAIL_ATTR_SENDER;
   RECV_ATTR_STR MAIL_ATTR_DSN_ENVID; RECV_ATTR_INT MAIL_ATTR_DSN_RET; RECV_ATTR_FUNC msg_stats_scan;
   RECV_ATTR_STR MAIL_ATTR_LOG_CLIENT_NAME; RECV_ATTR_STR MAIL_ATTR_LOG_CLIENT_ADDR; RECV_ATTR_STR MAIL_ATTR_LOG_CLIENT_PORT;
   RECV_ATTR_STR MAIL_ATTR_LOG_PROTO_NAME; RECV_ATTR_STR MAIL_ATTR_LOG_HELO_NAME; RECV_ATTR_STR MAIL_ATTR_SASL_METHOD;
   RECV_ATTR_STR MAIL_ATTR_SASL_USERNAME; RECV_ATTR_STR MAIL_ATTR_SASL_SENDER; RECV_ATTR_STR MAIL_ATTR_LOG_IDENT;
   RECV_ATTR_STR MAIL_ATTR_RWR_CONTEXT; RECV_ATTR_INT MAIL_ATTR_RCPT_COUNT].

(** The request without its recipients, and their number. *)
Definition request_of (vs : list recv_value) : option (DELIVER_REQUEST * Z) :=
  match vs with
  | [V_INT flags; V_STR queue_name; V_STR queue_id; V_LONG data_offset; V_LONG data_size; V_STR nexthop;
     V_STR encoding; V_INT smtputf8; V_STR address; V_STR dsn_envid; V_INT dsn_ret; V_FUNC [V_DATA msg_stats];
     V_STR client_name; V_STR client_addr; V_STR client_port; V_STR client_proto; V_STR client_helo; V_STR sasl_method;
     V_STR sasl_username; V_STR sasl_sender; V_STR log_ident; V_STR rewrite_context; V_INT rcpt_count] =>
      Some (mk_deliver_request flags queue_name queue_id data_offset data_size nexthop encoding smtputf8 address msg_stats
              (recipient_list_init RCPT_LIST_INIT_STATUS) client_name client_addr client_port client_proto client_helo
              sasl_method sasl_username sasl_sender log_ident rewrite_context dsn_envid dsn_ret, rcpt_count)
  | _ => None
  end.

(** The loop that reads the recipients; [None] when it fails.  Every step but the last
    reads something, so that the length of the stream is enough fuel.  The decrement of
    the smallest integer is undefined. *)
Fixpoint get_recipients (fuel : nat) (rcpt_count : Z) (l : RECIPIENT_LIST) (stream : bytes) : outcome (option RECIPIENT_LIST * bytes) :=
  match fuel with
  | O => Undef
  | S fuel =>
      if rcpt_count =? - 2 ^ 31 then Undef else
      if rcpt_count <=? 0 then Ret (Some l, stream) else
      r ← attr_scan0 ATTR_FLAG_STRICT [RECV_ATTR_FUNC rcpb_scan] stream; let '(ret, vs, stream) := r in
      if negb (ret =? 1) then Ret (None, stream) else
      match vs with
      | [V_FUNC [V_STR orig_addr; V_STR address; V_LONG offset; V_STR dsn_orcpt; V_INT dsn_notify]] =>
          l ← recipient_list_add l offset dsn_orcpt dsn_notify orig_addr address;
          get_recipients fuel (rcpt_count - 1) l stream
      | _ => Undef
      end
  end.

Definition with_stats_and_rcpts (stats : bytes) (l : RECIPIENT_LIST) (r : DELIVER_REQUEST) : DELIVER_REQUEST :=
  mk_deliver_request (rq_flags r) (rq_queue_name r) (rq_queue_id r) (rq_data_offset r) (rq_data_size r) (rq_nexthop r)
    (rq_encoding r) (rq_smtputf8 r) (rq_sender r) stats l (rq_client_name r) (rq_client_addr r) (rq_client_port r)
    (rq_client_proto r) (rq_client_helo r) (rq_sasl_method r) (rq_sasl_username r) (rq_sasl_sender r) (rq_log_ident r)
    (rq_rewrite_context r) (rq_dsn_envid r) (rq_dsn_ret r).

(** How reading a request ends: with the request and its open queue file, with a result
    of -1, or in msg_fatal(). *)
Inductive got := Got (request : DELIVER_REQUEST) (path : bytes) | Refused | Fatal.

(** Open the queue file and set a shared lock. *)
Definition open_queue_file (request : DELIVER_REQUEST) (path : bytes) : got :=
  match open_error path with
  | Some errno => if negb (errno =? ENOENT) then Fatal else Refused
  | None => if negb (lock_ok path) then Fatal else Got request path
  end.

Definition deliver_request_get (stream : bytes) : outcome (got * bytes) :=
  r ← attr_scan0 ATTR_FLAG_STRICT get_requests stream; let '(ret, vs, stream) := r in
  if negb (ret =? 23) then Ret (Refused, stream) else
  match request_of vs with
  | None => Undef
  | Some (request, rcpt_count) =>
      ok ← mail_open_ok (rq_queue_name request) (rq_queue_id request);
      match ok with
      | None => Ret (Refused, stream)
      | Some _ =>
          let stats := rq_msg_stats request in
          let stats := if handoff_unset stats then set_handoff now stats else stats in
          r ← get_recipients (S (length stream)) rcpt_count (rq_rcpt_list request) stream; let '(l, stream) := r in
          match l with
          | None => Ret (Refused, stream)
          | Some l =>
              if rl_len l <=? 0 then Ret (Refused, stream) else
              path ← mail_queue_path hash_queue_names var_hash_queue_depth (rq_queue_name request) (rq_queue_id request);
              Ret (open_queue_file (with_stats_and_rcpts stats l request) path, stream)
          end
      end
  end.

(** deliver_request_read(): what it writes, and the request or a null pointer; no value
    after msg_fatal().  [flush_ok]: the initial status could be written; [stream]: all
    that arrives, nothing when the queue manager has changed its mind. *)
Definition deliver_request_read (flush_ok : bool) (stream : bytes) : outcome (bytes * option (option (DELIVER_REQUEST * bytes))) :=
  initial ← deliver_request_initial;
  if negb flush_ok then Ret (initial, Some None) else
  match stream with
  | [] => Ret (initial, Some None)
  | _ =>
      r ← deliver_request_get stream; let '(g, _) := r in
      match g with
      | Got request path => Ret (initial, Some (Some (request, path)))
      | Refused => final ← deliver_request_final None (-1); Ret (initial ++ final, Some None)
      | Fatal => Ret (initial, None)
      end
  end.
End agent.

(** ** Lemmas *)

(** Names and texts that are written out are C strings. *)
Definition c_string_ok (s : bytes) : bool := forallb (in_range 1 255) s.
Lemma c_string_of s : c_string_ok s = true -> Forall is_cchar s.
Proof.
  intros H%forallb_Forall. eapply Forall_impl; [exact H|]. intros c Hc. unfold in_range in Hc. unfold is_cchar.
  apply andb_true_iff in Hc as [H1%Z.leb_le H2%Z.leb_le]. lia.
Qed.
Lemma c_name_of s : s <> [] -> c_string_ok s = true -> c_name s.
Proof. split; [done|by apply c_string_of]. Qed.

(** A list of single values, one request after the other. *)
Ltac deliver_value :=
  match goal with
  | |- delivers _ _ (_ :: _) _ _ ?n =>
      let m := eval vm_compute in (n - 1) in
      eapply (dl_value _ _ _ _ _ _ _ _ _ m); [by constructor|reflexivity|apply c_name_of; [discriminate|reflexivity]|]
  end.
Ltac deliver_values := repeat deliver_value.

(** What was sent is what is received. *)
Ltac received :=
  repeat match goal with
  | H : Forall2 _ (_ :: _) ?vs |- _ => apply Forall2_cons_inv_l in H as (? & ? & ? & H & ?); cbn beta in *; subst
  | H : Forall2 _ [] ?vs |- _ => apply Forall2_nil_inv_l in H as ->
  end.

(** *** Recipients *)

Record good_recipient (r : RECIPIENT) : Prop := mk_good_recipient {
  gr_offset : int_range 64 (rcpt_offset r);
  gr_dsn_orcpt : Forall is_cchar (rcpt_dsn_orcpt r);
  gr_dsn_notify : int_range 32 (rcpt_dsn_notify r);
  gr_orig_addr : Forall is_cchar (rcpt_orig_addr r);
  gr_address : Forall is_cchar (rcpt_address r)
}.

Definition rcpt_values (r : RECIPIENT) : list recv_value :=
  [V_STR (rcpt_orig_addr r); V_STR (rcpt_address r); V_LONG (rcpt_offset r); V_STR (rcpt_dsn_orcpt r); V_INT (rcpt_dsn_notify r)].

Lemma rcpt_exchange r pf rf : good_recipient r -> flags_ok pf = true -> flags_ok rf = true ->
  exists wire, rcpt_print r pf = Ret wire /\ wire <> [] /\ forall rest, rcpb_scan rf (wire ++ rest) = Ret (1, rcpt_values r, rest).
Proof.
  intros [H1 H2 H3 H4 H5] Hpf Hrf.
  destruct (attr_exchange (Z.lor pf ATTR_FLAG_MORE) (Z.lor rf ATTR_FLAG_MORE)
    [SEND_ATTR_STR MAIL_ATTR_ORCPT (rcpt_orig_addr r); SEND_ATTR_STR MAIL_ATTR_RECIP (rcpt_address r);
     SEND_ATTR_LONG MAIL_ATTR_OFFSET (rcpt_offset r); SEND_ATTR_STR MAIL_ATTR_DSN_ORCPT (rcpt_dsn_orcpt r);
     SEND_ATTR_INT MAIL_ATTR_DSN_NOTIFY (rcpt_dsn_notify r)] rcpb_requests
    (map (fun v v' => v' = v) (rcpt_values r)) 5) as (wire & vs & Ew & Hvs & Hne & Hs).
  - by apply flags_ok_more.
  - by apply flags_ok_more.
  - by rewrite !has_more.
  - cbn [map rcpt_values]. deliver_values. apply dl_nil.
  - exists wire. split_and!; [done|by apply Hne|]. intros rest. unfold rcpb_scan. rewrite Hs. cbn [mbind outcome_bind].
    cbn [map rcpt_values] in Hvs. received. done.
Qed.

Lemma send_recipient r : good_recipient r ->
  exists wire, attr_print0 ATTR_FLAG_NONE [SEND_ATTR_FUNC (rcpt_print r)] = Ret wire /\ wire <> [] /\
    forall rest, attr_scan0 ATTR_FLAG_STRICT [RECV_ATTR_FUNC rcpb_scan] (wire ++ rest) = Ret (1, [V_FUNC (rcpt_values r)], rest).
Proof.
  intros Hr. destruct (rcpt_exchange r (Z.lor ATTR_FLAG_NONE ATTR_FLAG_MORE) (Z.lor ATTR_FLAG_STRICT ATTR_FLAG_MORE) Hr) as (w & Ew & Hw & Hs); [reflexivity..|].
  destruct (attr_exchange ATTR_FLAG_NONE ATTR_FLAG_STRICT [SEND_ATTR_FUNC (rcpt_print r)] [RECV_ATTR_FUNC rcpb_scan]
    [(fun v => v = V_FUNC (rcpt_values r))] 1) as (wire & vs & E & Hvs & Hne & Hscan); [reflexivity..| |].
  - by apply (dl_func _ _ _ _ w _ 1 _ _ _ 0); [| | |lia|apply dl_nil].
  - received. exists wire. split_and!; [done|by apply Hne|done].
Qed.

(** The recipient as the agent stores it. *)
Definition received_recipient (r : RECIPIENT) : RECIPIENT :=
  mk_recipient (rcpt_offset r) (rcpt_dsn_orcpt r) (rcpt_dsn_notify r) (rcpt_orig_addr r) (rcpt_address r) (Some 0).

(** The array has room for its objects, and does not become empty. *)
Definition list_ok (l : RECIPIENT_LIST) : Prop :=
  rl_len l <= rl_avail l /\ 0 < rl_avail l /\ rl_variant l = RCPT_LIST_INIT_STATUS.

Lemma init_list_ok : list_ok (recipient_list_init RCPT_LIST_INIT_STATUS).
Proof. unfold list_ok, rl_len. cbn. split_and!; [lia..|done]. Qed.

Lemma list_add_ok l offset dsn_orcpt dsn_notify orig rcpt : list_ok l ->
  exists l', recipient_list_add l offset dsn_orcpt dsn_notify orig rcpt = Ret l' /\ list_ok l' /\
    rl_info l' = rl_info l ++ [mk_recipient offset dsn_orcpt dsn_notify orig rcpt (Some 0)].
Proof.
  intros (H1 & H2 & H3). unfold recipient_list_add. rewrite H3.
  destruct (Z.geb_spec (rl_len l) (rl_avail l)) as [E|E].
  - destruct (Z.geb_spec (rl_len l) (rl_avail l * 2)); [lia|]. eexists. split; [reflexivity|]. split; [|done].
    unfold list_ok, rl_len in *. cbn [rl_info rl_avail rl_variant]. rewrite length_app. cbn [length]. split_and!; [lia..|done].
  - destruct (Z.geb_spec (rl_len l) (rl_avail l)); [lia|]. eexists. split; [reflexivity|]. split; [|done].
    unfold list_ok, rl_len in *. cbn [rl_info rl_avail rl_variant]. rewrite length_app. cbn [length]. split_and!; [lia..|done].
Qed.

Lemma recipients_exchange rs : Forall good_recipient rs -> exists wire, send_recipients rs = Ret wire /\ (length rs <= length wire)%nat /\
  forall fuel l rest, list_ok l -> (length rs < fuel)%nat ->
  exists l', get_recipients fuel (Z.of_nat (length rs)) l (wire ++ rest) = Ret (Some l', rest) /\ list_ok l' /\
    rl_info l' = rl_info l ++ map received_recipient rs.
Proof.
  induction 1 as [|r rs Hr Hrs IH].
  - exists []. split_and!; [done|done|]. intros fuel l rest Hl Hf. destruct fuel as [|fuel]; [lia|].
    exists l. rewrite app_nil_r. done.
  - destruct IH as (wire & Ew & Hlen & IH). destruct (send_recipient r Hr) as (w & Ewr & Hne & Hscan).
    exists (w ++ wire). cbn [send_recipients]. rewrite Ewr. cbn [mbind outcome_bind]. rewrite Ew. split_and!; [done| |].
    { rewrite length_app. destruct w; [done|]. cbn [length]. lia. }
    intros fuel l rest Hl Hf. destruct fuel as [|fuel]; [lia|]. cbn [length] in *. cbn [get_recipients].
    rewrite (proj2 (Z.eqb_neq _ _)), (proj2 (Z.leb_gt _ _)) by lia. rewrite <- app_assoc, Hscan. cbn [mbind outcome_bind rcpt_values].
    rewrite Z.eqb_refl. cbn [negb].
    destruct (list_add_ok l (rcpt_offset r) (rcpt_dsn_orcpt r) (rcpt_dsn_notify r) (rcpt_orig_addr r) (rcpt_address r) Hl) as (l1 & -> & Hl1 & Ei).
    cbn [mbind outcome_bind]. replace (Z.of_nat (S (length rs)) - 1) with (Z.of_nat (length rs)) by lia.
    destruct (IH fuel l1 rest Hl1 ltac:(lia)) as (l' & E & Hl' & Ei'). exists l'. split_and!; [done|done|].
    rewrite Ei', Ei, <- app_assoc. done.
Qed.

(** *** Delivery status *)

Record good_dsn (d : DSN) : Prop := mk_good_dsn {
  gd_status : Forall is_cchar (dsn_status d);
  gd_action : Forall is_cchar (dsn_action d);
  gd_reason : Forall is_cchar (dsn_reason d);
  gd_dtype : Forall is_cchar (dsn_dtype d);
  gd_dtext : Forall is_cchar (dsn_dtext d);
  gd_mtype : Forall is_cchar (dsn_mtype d);
  gd_mname : Forall is_cchar (dsn_mname d)
}.

Definition dsn_values (d : DSN) : list recv_value :=
  [V_STR (dsn_status d); V_STR (dsn_dtype d); V_STR (dsn_dtext d); V_STR (dsn_mtype d); V_STR (dsn_mname d); V_STR (dsn_action d); V_STR (dsn_reason d)].

Lemma dsn_exchange d pf rf : good_dsn d -> flags_ok pf = true -> flags_ok rf = true ->
  exists wire, dsn_print d pf = Ret wire /\ wire <> [] /\ forall rest, dsb_scan rf (wire ++ rest) = Ret (1, dsn_values d, rest).
Proof.
  intros [H1 H2 H3 H4 H5 H6 H7] Hpf Hrf.
  destruct (attr_exchange (Z.lor pf ATTR_FLAG_MORE) (Z.lor rf ATTR_FLAG_MORE)
    [SEND_ATTR_STR MAIL_ATTR_DSN_STATUS (dsn_status d); SEND_ATTR_STR MAIL_ATTR_DSN_DTYPE (dsn_dtype d);
     SEND_ATTR_STR MAIL_ATTR_DSN_DTEXT (dsn_dtext d); SEND_ATTR_STR MAIL_ATTR_DSN_MTYPE (dsn_mtype d);
     SEND_ATTR_STR MAIL_ATTR_DSN_MNAME (dsn_mname d); SEND_ATTR_STR MAIL_ATTR_DSN_ACTION (dsn_action d);
     SEND_ATTR_STR MAIL_ATTR_WHY (dsn_reason d)] dsb_requests
    (map (fun v v' => v' = v) (dsn_values d)) 7) as (wire & vs & Ew & Hvs & Hne & Hs).
  - by apply flags_ok_more.
  - by apply flags_ok_more.
  - by rewrite !has_more.
  - cbn [map dsn_values]. deliver_values. apply dl_nil.
  - exists wire. split_and!; [done|by apply Hne|]. intros rest. unfold dsb_scan. rewrite Hs. cbn [mbind outcome_bind].
    cbn [map dsn_values] in Hvs. received. done.
Qed.

(** The final report, as the queue manager reads it. *)
Lemma final_exchange d status : good_dsn d -> int_range 32 status ->
  exists wire, attr_print0 ATTR_FLAG_NONE [SEND_ATTR_FUNC (dsn_print d); SEND_ATTR_INT MAIL_ATTR_STATUS status] = Ret wire /\
    forall rest, attr_scan0 ATTR_FLAG_STRICT final_requests (wire ++ rest) = Ret (2, [V_FUNC (dsn_values d); V_INT status], rest).
Proof.
  intros Hd Hstat. destruct (dsn_exchange d (Z.lor ATTR_FLAG_NONE ATTR_FLAG_MORE) (Z.lor ATTR_FLAG_STRICT ATTR_FLAG_MORE) Hd) as (w & Ew & Hw & Hs); [reflexivity..|].
  destruct (attr_exchange ATTR_FLAG_NONE ATTR_FLAG_STRICT [SEND_ATTR_FUNC (dsn_print d); SEND_ATTR_INT MAIL_ATTR_STATUS status] final_requests
    [(fun v => v = V_FUNC (dsn_values d)); (fun v => v = V_INT status)] 2) as (wire & vs & E & Hvs & _ & Hscan); [reflexivity..| |].
  - apply (dl_func _ _ _ _ w _ 1 _ _ _ 1); [done|done|done|lia|]. deliver_values. apply dl_nil.
  - received. by exists wire.
Qed.

(** *** Time stamps *)

Lemma stats_exchange stats pf rf : Forall is_byte stats -> length stats = sizeof_MSG_STATS -> flags_ok pf = true -> flags_ok rf = true ->
  exists wire, msg_stats_print stats pf = Ret wire /\ wire <> [] /\ forall rest, msg_stats_scan rf (wire ++ rest) = Ret (1, [V_DATA stats], rest).
Proof.
  intros Hb Hl Hpf Hrf.
  destruct (attr_exchange (Z.lor pf ATTR_FLAG_MORE) (Z.lor rf ATTR_FLAG_MORE) [SEND_ATTR_DATA MAIL_ATTR_TIME stats] [RECV_ATTR_DATA MAIL_ATTR_TIME]
    [(fun v => v = V_DATA stats)] 1) as (wire & vs & Ew & Hvs & Hne & Hs).
  - by apply flags_ok_more.
  - by apply flags_ok_more.
  - by rewrite !has_more.
  - deliver_values. apply dl_nil.
  - exists wire. split_and!; [done|by apply Hne|]. intros rest. unfold msg_stats_scan. rewrite Hs. cbn [mbind outcome_bind].
    received. rewrite Z.eqb_refl, Hl, Nat.eqb_refl. done.
Qed.

(** *** Senders and flags *)

Lemma char_at_cchar s i : Forall is_cchar s -> (i < length s)%nat -> exists c, char_at s i = Ret c /\ is_cchar (Z.land c 255).
Proof.
  intros Hs Hi. exists (cp s i). unfold char_at. rewrite (proj2 (Nat.leb_le _ _)) by lia. split; [done|].
  destruct (lookup_lt_is_Some_2 s i Hi) as [c Hc]. unfold cp. rewrite (nth_lookup_Some s i 0 c Hc).
  rewrite Forall_lookup in Hs. specialize (Hs i c Hc). unfold is_cchar in *.
  change 255 with (2 ^ 8 - 1). rewrite land_mask, Z.mod_small by lia. lia.
Qed.

(** The VERP sender of a message is a C string. *)
Lemma verp_sender_cchar delims sender r : (2 <= length delims)%nat -> Forall is_cchar delims -> Forall is_cchar sender -> good_recipient r ->
  exists s, verp_sender delims sender r = Ret s /\ Forall is_cchar s.
Proof.
  intros Hl Hd Hs [_ _ _ Ho Ha]. unfold verp_sender.
  set (recipient := if negb (cp (rcpt_orig_addr r) 0 =? 0) then rcpt_orig_addr r else rcpt_address r).
  assert (Hr : Forall is_cchar recipient) by (unfold recipient; by case_match).
  destruct (char_at_cchar delims 0 Hd) as (d0 & -> & H0); [lia|]. destruct (char_at_cchar delims 1 Hd) as (d1 & E1 & H1); [lia|].
  cbn [mbind outcome_bind].
  assert (Hbuf : exists buf, (if has_domain recipient then d1 ← char_at delims 1; Ret ((take (local_len sender) sender ++ [Z.land d0 255] ++ take (local_len recipient) recipient) ++ [Z.land d1 255] ++ drop (local_len recipient + 1) recipient) else Ret (take (local_len sender) sender ++ [Z.land d0 255] ++ take (local_len recipient) recipient)) = Ret buf /\ Forall is_cchar buf).
  { destruct (has_domain recipient); [rewrite E1|]; eexists; (split; [reflexivity|]); rewrite ?Forall_app; split_and?;
      try (by apply Forall_take); try (by apply Forall_drop); by apply Forall_singleton. }
  destruct Hbuf as (buf & -> & Hbuf). cbn [mbind outcome_bind]. eexists. split; [reflexivity|].
  destruct (has_domain sender); [|done]. rewrite !Forall_app. split_and!; [done|apply Forall_singleton; unfold is_cchar; lia|by apply Forall_drop].
Qed.

(** A message that can be sent. *)
Record good_message (m : message_info) : Prop := mk_good_message {
  gm_tflags : 0 <= mi_tflags m < 2 ^ 31;
  gm_smtputf8 : 0 <= mi_smtputf8 m < 2 ^ 31;
  gm_dsn_ret : int_range 32 (mi_dsn_ret m);
  gm_data_offset : int_range 64 (mi_data_offset m);
  gm_cont_length : int_range 64 (mi_cont_length m);
  gm_strings : Forall (Forall is_cchar)
    [mi_queue_name m; mi_queue_id m; mi_encoding m; mi_sender m; mi_dsn_envid m; mi_client_name m; mi_client_addr m; mi_client_port m;
     mi_client_proto m; mi_client_helo m; mi_sasl_method m; mi_sasl_username m; mi_sasl_sender m; mi_log_ident m; mi_rewrite_context m];
  gm_verp : match mi_verp_delims m with Some d => Forall is_cchar d /\ length d = 2%nat | None => True end;
  gm_arrival : Forall is_byte (mi_arrival_time m) /\ length (mi_arrival_time m) = sizeof_timeval;
  gm_active : Forall is_byte (mi_active_time m) /\ length (mi_active_time m) = sizeof_timeval
}.

Lemma flag_range k : 0 <= k < 31 -> 0 <= Z.shiftl 1 k < 2 ^ 31.
Proof.
  intros Hk. rewrite Z.shiftl_1_l. split; [apply Z.pow_nonneg; lia|]. apply Z.pow_lt_mono_r; lia.
Qed.

Lemma smtputf8_range enable list message : forall smtputf8, 0 <= smtputf8 < 2 ^ 31 -> 0 <= request_smtputf8 enable list message smtputf8 < 2 ^ 31.
Proof.
  induction list as [|r list IH]; intros v Hv; [done|]. cbn [request_smtputf8]. apply IH.
  destruct (utf8_recipient enable r); [|done]. destruct (mi_verp_delims message); repeat apply lor_range; try lia; by apply flag_range.
Qed.

Lemma range_int v : 0 <= v < 2 ^ 31 -> int_range 32 v.
Proof. unfold int_range. cbn. lia. Qed.

Lemma request_flags_range message dflags : good_message message -> 0 <= dflags < 2 ^ 31 -> 0 <= request_flags message dflags < 2 ^ 31.
Proof.
  intros Hm Hd. unfold request_flags. repeat apply lor_range; try lia; try apply (gm_tflags _ Hm).
  destruct (mi_inspect_xport message); [by apply flag_range|]. apply lor_range; [lia|by apply flag_range..].
Qed.

Lemma sender_cchar message list : good_message message -> Forall good_recipient list -> list <> [] ->
  exists sender, request_sender message list = Ret sender /\ Forall is_cchar sender.
Proof.
  intros Hm Hl Hne. unfold request_sender. pose proof (gm_verp _ Hm) as Hv. pose proof (gm_strings _ Hm) as Hs.
  assert (Hsender : Forall is_cchar (mi_sender message)) by exact (Forall_lookup_1 _ _ 3 _ Hs eq_refl).
  destruct (mi_verp_delims message) as [d|]; [|by eexists]. destruct Hv as [Hd Hlen]. destruct list as [|r list]; [done|].
  apply Forall_cons in Hl as [Hr _]. apply verp_sender_cchar; [lia|done..].
Qed.

(** The values of a request, as the agent receives them. *)
Definition request_values (enable : bool) (m : message_info) (dflags : Z) (nexthop sender : bytes) (l : list RECIPIENT) : list recv_value :=
  [V_INT (request_flags m dflags); V_STR (mi_queue_name m); V_STR (mi_queue_id m); V_LONG (mi_data_offset m); V_LONG (mi_cont_length m);
   V_STR nexthop; V_STR (mi_encoding m); V_INT (request_smtputf8 enable l m (mi_smtputf8 m)); V_STR sender; V_STR (mi_dsn_envid m);
   V_INT (mi_dsn_ret m); V_FUNC [V_DATA (QMGR_MSG_STATS (mi_arrival_time m) (mi_active_time m))];
   V_STR (mi_client_name m); V_STR (mi_client_addr m); V_STR (mi_client_port m); V_STR (mi_client_proto m); V_STR (mi_client_helo m);
   V_STR (mi_sasl_method m); V_STR (mi_sasl_username m); V_STR (mi_sasl_sender m); V_STR (mi_log_ident m); V_STR (mi_rewrite_context m);
   V_INT (Z.of_nat (length l))].

Lemma request_exchange enable m dflags nexthop sender l : good_message m -> 0 <= dflags < 2 ^ 31 -> Forall is_cchar nexthop -> Forall is_cchar sender ->
  Z.of_nat (length l) < 2 ^ 31 ->
  exists wire, attr_print0 ATTR_FLAG_NONE (request_attrs enable m dflags nexthop sender l) = Ret wire /\
    forall rest, attr_scan0 ATTR_FLAG_STRICT get_requests (wire ++ rest) = Ret (23, request_values enable m dflags nexthop sender l, rest).
Proof.
  intros Hm Hd Hn Hsend Hl. pose proof (range_int _ (request_flags_range m dflags Hm Hd)) as Hflags.
  pose proof (range_int _ (smtputf8_range enable l m _ (gm_smtputf8 _ Hm))) as Hutf8.
  destruct Hm as [_ _ Hret Hoff Hlen Hstr _ [Ha La] [Hb Lb]].
  assert (Hcount : int_range 32 (Z.of_nat (length l))) by (apply range_int; lia).
  repeat match goal with H : Forall (Forall is_cchar) (_ :: _) |- _ => apply Forall_cons in H as [? H] end.
  destruct (stats_exchange (QMGR_MSG_STATS (mi_arrival_time m) (mi_active_time m)) (Z.lor ATTR_FLAG_NONE ATTR_FLAG_MORE) (Z.lor ATTR_FLAG_STRICT ATTR_FLAG_MORE))
    as (w & Ew & Hw & Hs); [|by unfold QMGR_MSG_STATS; rewrite !length_app, La, Lb|reflexivity..|].
  { unfold QMGR_MSG_STATS. rewrite !Forall_app. split_and!; [done|done|]. apply Forall_replicate. unfold is_byte. lia. }
  destruct (attr_exchange ATTR_FLAG_NONE ATTR_FLAG_STRICT (request_attrs enable m dflags nexthop sender l) get_requests
    (map (fun v v' => v' = v) (request_values enable m dflags nexthop sender l)) 23) as (wire & vs & E & Hvs & _ & Hscan); [reflexivity..| |].
  - unfold request_attrs, get_requests, request_values. cbn [map]. do 11 deliver_value.
    apply (dl_func _ _ _ _ w _ 1 _ _ _ 11); [done|done|done|lia|]. deliver_values. apply dl_nil.
  - exists wire. split; [done|]. intros rest. rewrite Hscan. unfold request_values in *. cbn [map] in Hvs. received. done.
Qed.

(** The time of the hand-off is stored in a request from the queue manager. *)
Lemma handoff_stored a b now : length a = sizeof_timeval -> length b = sizeof_timeval ->
  handoff_unset (QMGR_MSG_STATS a b) = true /\ set_handoff now (QMGR_MSG_STATS a b) = a ++ b ++ now ++ replicate 40 0.
Proof.
  intros Ha Hb. unfold handoff_unset, set_handoff, QMGR_MSG_STATS, agent_handoff_at, sizeof_timeval, sizeof_MSG_STATS in *.
  assert (H32 : length (a ++ b) = 32%nat) by (rewrite length_app; lia).
  set (z := replicate (88 - 2 * 16) 0). rewrite (app_assoc a b z).
  rewrite (drop_app_length' (a ++ b) z), (take_app_length' (a ++ b) z) by done. split; [done|]. rewrite <- !app_assoc. do 3 f_equal.
  rewrite (app_assoc a b z), drop_app_ge, H32 by lia. done.
Qed.

(** A scan of requests without tables, whatever arrives. *)
Lemma scan_any flags rs fp : flags_ok flags = true -> Forall recv_ok rs -> forallb (fun r => negb (is_table r)) rs = true -> Forall is_byte fp ->
  exists ret vs fp', attr_scan0 flags rs fp = Ret (ret, vs, fp') /\ fp' `suffix_of` fp /\ -1 <= ret <= Z.of_nat (length rs) /\
    (ret = Z.of_nat (length rs) -> Forall2 typed rs vs).
Proof.
  intros Hf Hok Ht Hfp. destruct (attr_scan0_post flags rs fp Hf Hok Hfp) as (ret & vs & fp' & E & Hs & Hr & H).
  destruct (H eq_refl Ht) as [H1 H2]. exists ret, vs, fp'. cbn [app] in E. split_and!; [done|done|lia|lia|done].
Qed.

(** The values of requests that are answered. *)
Ltac typed_values :=
  repeat match goal with
  | H : Forall2 typed (_ :: _) ?vs |- _ =>
      let v := fresh "v" in let Hv := fresh "Hv" in
      apply Forall2_cons_inv_l in H as (v & ? & Hv & H & ?); subst; destruct v; try done; cbn [typed] in Hv
  | H : Forall2 typed [] ?vs |- _ => apply Forall2_nil_inv_l in H as ->
  end.

(** What the scan functions store when they succeed. *)
Definition rcpb_values (vs : list recv_value) : Prop :=
  exists r, good_recipient r /\ vs = rcpt_values r.
Definition dsb_values (vs : list recv_value) : Prop := exists d, good_dsn d /\ vs = dsn_values d.

Lemma rcpb_scan_any flags fp : flags_ok flags = true -> Forall is_byte fp ->
  exists ret vs fp', rcpb_scan flags fp = Ret (ret, vs, fp') /\ fp' `suffix_of` fp /\ (0 <= ret -> rcpb_values vs).
Proof.
  intros Hf Hfp. destruct (scan_any (Z.lor flags ATTR_FLAG_MORE) rcpb_requests fp) as (ret & vs & fp' & E & Hs & _ & H);
    [by apply flags_ok_more|by repeat constructor|done|done|].
  unfold rcpb_scan. rewrite E. cbn [mbind outcome_bind]. eexists _, vs, fp'. split_and!; [done|done|].
  destruct (Z.eqb_spec ret 5) as [->|]; [|lia]. intros _. specialize (H eq_refl). unfold rcpb_requests in H. typed_values.
  eexists (mk_recipient _ _ _ _ _ None). split; [|reflexivity]. by split.
Qed.

Lemma dsb_scan_any flags fp : flags_ok flags = true -> Forall is_byte fp ->
  exists ret vs fp', dsb_scan flags fp = Ret (ret, vs, fp') /\ fp' `suffix_of` fp /\ (0 <= ret -> dsb_values vs).
Proof.
  intros Hf Hfp. destruct (scan_any (Z.lor flags ATTR_FLAG_MORE) dsb_requests fp) as (ret & vs & fp' & E & Hs & _ & H);
    [by apply flags_ok_more|by repeat constructor|done|done|].
  unfold dsb_scan. rewrite E. cbn [mbind outcome_bind]. eexists _, vs, fp'. split_and!; [done|done|].
  destruct (Z.eqb_spec ret 7) as [->|]; [|lia]. intros _. specialize (H eq_refl). unfold dsb_requests in H. typed_values.
  eexists (mk_dsn _ _ _ _ _ _ _). split; [|reflexivity]. by split.
Qed.

(** The scan of the time stamps succeeds also when it has found none. *)
Lemma scan_data_none flags name fp vs fp' : attr_scan0 flags [RECV_ATTR_DATA name] fp = Ret (0, vs, fp') -> vs = [].
Proof.
  unfold attr_scan0. destruct (negb (flags_ok flags)); [done|]. destruct fp as [|c fp]; [by intros [= <- _]|].
  remember (c :: fp) as fp0 eqn:Efp. clear Efp c fp. replace (S (length fp0 + length [RECV_ATTR_DATA name]))%nat with (S (S (length fp0))) by (cbn [length]; lia).
  remember (S (length fp0)) as k eqn:Ek. cbn [scan_loop].
  destruct (locate (S (length fp0)) flags (W_NAME name) fp0) as [w n fp1|fp1|fp1|]; [|by intros [= <- _]..|done].
  destruct (convert (RECV_ATTR_DATA name) fp1) as [[v fp2]|]; [|done]. rewrite Ek. cbn [scan_loop].
  destruct (has flags ATTR_FLAG_MORE); [done|]. by destruct (locate (S (length fp2)) flags W_END fp2).
Qed.

Definition stats_values (vs : list recv_value) : Prop := exists buf, vs = [V_DATA buf] /\ length buf = sizeof_MSG_STATS.
Lemma stats_scan_any flags fp : flags_ok flags = true -> Forall is_byte fp ->
  exists ret vs fp', msg_stats_scan flags fp = Ret (ret, vs, fp') /\ fp' `suffix_of` fp /\ (0 <= ret -> vs = [] \/ stats_values vs).
Proof.
  intros Hf Hfp. destruct (scan_any (Z.lor flags ATTR_FLAG_MORE) [RECV_ATTR_DATA MAIL_ATTR_TIME] fp) as (ret & vs & fp' & E & Hs & Hr & H);
    [by apply flags_ok_more|by repeat constructor|done|done|].
  unfold msg_stats_scan. rewrite E. cbn [mbind outcome_bind]. destruct (Z.eqb_spec ret 1) as [->|Hne].
  - specialize (H eq_refl). typed_values. eexists _, _, fp'. split_and!; [done|done|].
    destruct (Nat.eqb_spec (length s) sizeof_MSG_STATS); [|lia]. intros _. right. by exists s.
  - exists ret, vs, fp'. split_and!; [done|done|]. cbn [length] in Hr. intros Hret. left.
    assert (ret = 0) as -> by lia. by eapply scan_data_none.
Qed.

Lemma rcpb_scan_fn_ok : scan_fn_ok rcpb_scan.
Proof. intros flags fp Hf Hfp. destruct (rcpb_scan_any flags fp Hf Hfp) as (ret & vs & fp' & E & Hs & _). by exists ret, vs, fp'. Qed.
Lemma dsb_scan_fn_ok : scan_fn_ok dsb_scan.
Proof. intros flags fp Hf Hfp. destruct (dsb_scan_any flags fp Hf Hfp) as (ret & vs & fp' & E & Hs & _). by exists ret, vs, fp'. Qed.
Lemma stats_scan_fn_ok : scan_fn_ok msg_stats_scan.
Proof. intros flags fp Hf Hfp. destruct (stats_scan_any flags fp Hf Hfp) as (ret & vs & fp' & E & Hs & _). by exists ret, vs, fp'. Qed.

(** A recipient that is read takes a part of the stream. *)
Lemma recipient_any stream : Forall is_byte stream ->
  exists ret vs stream', attr_scan0 ATTR_FLAG_STRICT [RECV_ATTR_FUNC rcpb_scan] stream = Ret (ret, vs, stream') /\ stream' `suffix_of` stream /\
    (ret = 1 -> (length stream' < length stream)%nat /\ exists r, good_recipient r /\ vs = [V_FUNC (rcpt_values r)]).
Proof.
  intros Hfp. destruct (scan_any ATTR_FLAG_STRICT [RECV_ATTR_FUNC rcpb_scan] stream) as (ret & vs & stream' & E & Hs & _ & H);
    [done|repeat constructor; exact rcpb_scan_fn_ok|done|done|].
  exists ret, vs, stream'. split_and!; [done|done|]. intros ->. split.
  - apply (scan_func_reads ATTR_FLAG_STRICT rcpb_scan stream 1 vs); [reflexivity|done| |exact E|lia]. intros flags r vs1 fp1 Hf Er Hr.
    unfold rcpb_scan in Er. destruct (scan_any (Z.lor flags ATTR_FLAG_MORE) rcpb_requests stream) as (n & vs2 & fp2 & En & Hs2 & _ & _);
      [by apply flags_ok_more|by repeat constructor|done|done|].
    rewrite En in Er. cbn [mbind outcome_bind] in Er. injection Er as <- <- <-. split; [|done].
    apply (scan_value_reads (Z.lor flags ATTR_FLAG_MORE) (RECV_ATTR_STR MAIL_ATTR_ORCPT) MAIL_ATTR_ORCPT _ stream n vs2 fp2 (flags_ok_more _ Hf) eq_refl) in En;
      [done|by repeat constructor|done|]. destruct (Z.eqb_spec n 5); lia.
  - specialize (H eq_refl). typed_values. destruct Hv as (flags & fp & r & fp' & Hf & Hb & Er & Hr).
    destruct (rcpb_scan_any flags fp Hf Hb) as (r' & vs' & fp2 & E' & _ & Hv'). rewrite E' in Er. injection Er as -> -> ->.
    destruct (Hv' Hr) as (rc & Hrc & ->). by exists rc.
Qed.

Lemma recipients_any fuel : forall rcpt_count l stream, list_ok l -> Forall is_byte stream -> (length stream < fuel)%nat -> - 2 ^ 31 < rcpt_count ->
  exists res stream', get_recipients fuel rcpt_count l stream = Ret (res, stream') /\
    forall l', res = Some l' -> exists added, rl_info l' = rl_info l ++ map received_recipient added /\ Forall good_recipient added /\
      length added = Z.to_nat rcpt_count.
Proof.
  induction fuel as [|fuel IH]; intros rcpt_count l stream Hl Hb Hf Hc; [lia|]. cbn [get_recipients].
  rewrite (proj2 (Z.eqb_neq _ _)) by lia. destruct (rcpt_count <=? 0) eqn:E; zb.
  { exists (Some l), stream. split; [done|]. intros l' [= <-]. exists []. rewrite app_nil_r. split_and!; [done|done|cbn; lia]. }
  destruct (recipient_any stream Hb) as (ret & vs & stream' & -> & Hs & H). cbn [mbind outcome_bind].
  destruct (Z.eqb_spec ret 1) as [->|]; cbn [negb]; [|by exists None, stream'].
  destruct (H eq_refl) as (Hlt & r & Hr & ->). cbn [rcpt_values].
  destruct (list_add_ok l (rcpt_offset r) (rcpt_dsn_orcpt r) (rcpt_dsn_notify r) (rcpt_orig_addr r) (rcpt_address r) Hl) as (l1 & -> & Hl1 & Ei).
  cbn [mbind outcome_bind]. destruct (IH (rcpt_count - 1) l1 stream' Hl1) as (res & s2 & -> & Hres); [by eapply suffix_is_byte|lia|lia|].
  exists res, s2. split; [done|]. intros l' El'. destruct (Hres l' El') as (added & E1 & E2 & E3). exists (r :: added).
  rewrite E1, Ei, <- app_assoc. split_and!; [done|by constructor|]. cbn [length]. lia.
Qed.

(** A good queue file has the path of its queue and its ID. *)
Lemma mail_open_path names depth lstat queue_name queue_id path : mail_open_ok names depth lstat queue_name queue_id = Ret (Some path) ->
  mail_queue_path names depth queue_name queue_id = Ret path /\ mail_queue_name_ok queue_name = true /\ mail_queue_id_ok queue_id = true.
Proof.
  unfold mail_open_ok. destruct (mail_queue_name_ok queue_name); [|done]. destruct (mail_queue_id_ok queue_id); [|done]. cbn [negb].
  destruct (mail_queue_path names depth queue_name queue_id) as [p| |]; [|done|done]. cbn [mbind outcome_bind].
  destruct (lstat p) as [st|]; [|done]. repeat case_match; try done. by intros [= ->].
Qed.

(** mail_open_ok() completes. *)
Lemma mail_open_total names depth lstat queue_name queue_id : 1 <= depth ->
  exists ok, mail_open_ok names depth lstat queue_name queue_id = Ret ok /\
    forall path, ok = Some path -> mail_queue_name_ok queue_name = true /\ mail_queue_id_ok queue_id = true /\
      mail_queue_path names depth queue_name queue_id = Ret path /\
      exists dirs, path = queue_name ++ ["/"%ch] ++ flat_map (fun d => [d; "/"%ch]) dirs ++ queue_id /\ Forall (fun c => path_char c = true) dirs.
Proof.
  intros Hd. unfold mail_open_ok. destruct (mail_queue_name_ok queue_name) eqn:Hn; [|by exists None]. destruct (mail_queue_id_ok queue_id) eqn:Hi; [|by exists None].
  cbn [negb]. destruct (mail_queue_path_safe names depth queue_name queue_id Hd Hn Hi) as (dirs & -> & Hdirs & _). cbn [mbind outcome_bind].
  destruct (lstat _) as [st|]; [|by exists None]. destruct (negb (S_ISREG (st_mode st))); [by exists None|].
  destruct (negb _); [by exists None|]. eexists. split; [reflexivity|]. intros path [= <-]. split_and!; [done..|]. by exists dirs.
Qed.

(** ** Theorems *)

Section queue_file.
Context (var_smtputf8_enable : bool) (hash_queue_names : list bytes) (var_hash_queue_depth : Z).
Context (lstat : bytes -> option file_stat) (open_error : bytes -> option Z) (lock_ok : bytes -> bool) (now : bytes).

(** The request that an agent should get. *)
Definition expected_request (m : message_info) (dflags : Z) (nexthop sender : bytes) (recipients : list RECIPIENT) (l : RECIPIENT_LIST) : DELIVER_REQUEST :=
  mk_deliver_request (request_flags m dflags) (mi_queue_name m) (mi_queue_id m) (mi_data_offset m) (mi_cont_length m) nexthop
    (mi_encoding m) (request_smtputf8 var_smtputf8_enable recipients m (mi_smtputf8 m)) sender
    (mi_arrival_time m ++ mi_active_time m ++ now ++ replicate 40 0) l
    (mi_client_name m) (mi_client_addr m) (mi_client_port m) (mi_client_proto m) (mi_client_helo m)
    (mi_sasl_method m) (mi_sasl_username m) (mi_sasl_sender m) (mi_log_ident m) (mi_rewrite_context m) (mi_dsn_envid m) (mi_dsn_ret m).

(** C14: the delivery agent gets the request that the queue manager sends: for every message,
    destination and non-empty list of recipients, qmgr_deliver_send_request() completes,
    and deliver_request_get() reads from its output, whatever comes next, exactly the
    request: every member has the value that was sent, numbers with their sign, the
    recipients in their order, the sender with the VERP recipient, and the time of the
    hand-off filled in; provided that the queue file can be opened and locked. *)
Theorem deliver_request_roundtrip (m : message_info) (dflags : Z) (nexthop path : bytes) (recipients : list RECIPIENT)
  (Hm : good_message m) (Hd : 0 <= dflags < 2 ^ 31) (Hn : Forall is_cchar nexthop)
  (Hr : Forall good_recipient recipients) (Hlen : 0 < Z.of_nat (length recipients) < 2 ^ 31)
  (Hok : mail_open_ok hash_queue_names var_hash_queue_depth lstat (mi_queue_name m) (mi_queue_id m) = Ret (Some path))
  (Hopen : open_error path = None) (Hlock : lock_ok path = true) :
  exists wire sender, qmgr_deliver_send_request var_smtputf8_enable m dflags nexthop recipients = Ret wire
    /\ request_sender m recipients = Ret sender
    /\ forall rest, exists l, rl_info l = map received_recipient recipients /\
       deliver_request_get hash_queue_names var_hash_queue_depth lstat open_error lock_ok now (wire ++ rest)
       = Ret (Got (expected_request m dflags nexthop sender recipients l) path, rest).
Proof using Type.
  destruct (sender_cchar m recipients Hm Hr) as (sender & Es & Hs); [intros ->; cbn in Hlen; lia|].
  destruct (request_exchange var_smtputf8_enable m dflags nexthop sender recipients Hm Hd Hn Hs ltac:(lia)) as (w1 & Ew1 & Hs1).
  destruct (recipients_exchange recipients Hr) as (w2 & Ew2 & Hlw & Hs2).
  destruct (handoff_stored _ _ now (proj2 (gm_arrival _ Hm)) (proj2 (gm_active _ Hm))) as [Hu Hset].
  destruct (mail_open_path _ _ _ _ _ _ Hok) as [Hpath _].
  exists (w1 ++ w2), sender. split_and!; [|done|].
  { unfold qmgr_deliver_send_request. rewrite Es. cbn [mbind outcome_bind]. rewrite Ew1. cbn [mbind outcome_bind]. by rewrite Ew2. }
  intros rest. destruct (Hs2 (S (length (w2 ++ rest))) (recipient_list_init RCPT_LIST_INIT_STATUS) rest) as (l & El & _ & Ei); [apply init_list_ok|rewrite length_app; lia|].
  exists l. split; [done|]. unfold deliver_request_get. rewrite <- app_assoc, Hs1. cbn [mbind outcome_bind].
  rewrite Z.eqb_refl. cbn [negb request_of request_values rq_queue_name rq_queue_id rq_msg_stats rq_rcpt_list].
  rewrite Hok. cbn [mbind outcome_bind]. rewrite El. cbn [mbind outcome_bind].
  unfold rl_len. rewrite Ei, length_app, length_map, (proj2 (Z.leb_gt _ _)) by (cbn; lia). rewrite Hpath. cbn [mbind outcome_bind].
  unfold open_queue_file. rewrite Hopen, Hlock. cbn [negb]. rewrite Hu, Hset. done.
Qed.

(** What an agent can rely on. *)
Record good_request (r : DELIVER_REQUEST) (path : bytes) : Prop := mk_good_request {
  gq_recipients : 0 < rl_len (rq_rcpt_list r) /\ Forall good_recipient (rl_info (rq_rcpt_list r));
  gq_file : mail_queue_name_ok (rq_queue_name r) = true /\ mail_queue_id_ok (rq_queue_id r) = true;
  gq_path : exists dirs, path = rq_queue_name r ++ ["/"%ch] ++ flat_map (fun d => [d; "/"%ch]) dirs ++ rq_queue_id r
    /\ Forall (fun c => path_char c = true) dirs;
  gq_strings : Forall (Forall is_cchar)
    [rq_nexthop r; rq_encoding r; rq_sender r; rq_client_name r; rq_client_addr r; rq_client_port r; rq_client_proto r; rq_client_helo r;
     rq_sasl_method r; rq_sasl_username r; rq_sasl_sender r; rq_log_ident r; rq_rewrite_context r; rq_dsn_envid r];
  gq_ints : Forall (int_range 32) [rq_flags r; rq_smtputf8 r; rq_dsn_ret r] /\ Forall (int_range 64) [rq_data_offset r; rq_data_size r];
  gq_stats : length (rq_msg_stats r) = sizeof_MSG_STATS
}.

(** The values of the common attributes: the request that they make is good, but for its
    recipients, unless the time stamps are missing. *)
Lemma common_attributes stream : Forall is_byte stream ->
  exists ret vs stream', attr_scan0 ATTR_FLAG_STRICT get_requests stream = Ret (ret, vs, stream') /\ stream' `suffix_of` stream /\
    (ret = 23 -> vs !! 11%nat = Some (V_FUNC []) \/
       exists r count, request_of vs = Some (r, count) /\ vs !! 22%nat = Some (V_INT count) /\ int_range 32 count /\
         rq_rcpt_list r = recipient_list_init RCPT_LIST_INIT_STATUS /\ length (rq_msg_stats r) = sizeof_MSG_STATS /\
         Forall (Forall is_cchar)
           [rq_nexthop r; rq_encoding r; rq_sender r; rq_client_name r; rq_client_addr r; rq_client_port r; rq_client_proto r; rq_client_helo r;
            rq_sasl_method r; rq_sasl_username r; rq_sasl_sender r; rq_log_ident r; rq_rewrite_context r; rq_dsn_envid r] /\
         Forall (int_range 32) [rq_flags r; rq_smtputf8 r; rq_dsn_ret r] /\ Forall (int_range 64) [rq_data_offset r; rq_data_size r]).
Proof using Type.
  intros Hb. destruct (scan_any ATTR_FLAG_STRICT get_requests stream) as (ret & vs & stream' & E & Hs & _ & H);
    [done|repeat constructor; exact stats_scan_fn_ok|done|done|].
  exists ret, vs, stream'. split_and!; [done|done|]. intros ->. specialize (H eq_refl). unfold get_requests in H. typed_values.
  match goal with H : exists flags fp ret fp', _ |- _ => destruct H as (flags & fp & ret & fp' & Hf & Hfp & Er & Hret) end.
  destruct (stats_scan_any flags fp Hf Hfp) as (ret1 & vs1 & fp1 & E1 & _ & Hst). rewrite E1 in Er. injection Er as -> -> ->.
  destruct (Hst Hret) as [-> | (buf & -> & Hbuf)]; [by left|right].
  eexists _, _. split; [reflexivity|]. cbn. split_and!; [done..| | |]; repeat (apply Forall_cons; split; [assumption|]); by apply Forall_nil.
Qed.

(** C15: deliver_request_get() is safe from its peer.  Whatever bytes arrive: it does not
    panic or loop; it refuses, or fails for a file that cannot be opened or locked, or
    gives a good request, whose queue file lies in the queue directory, with at least one
    recipient.  Undefined behavior is left in two cases: a recipient count of -2^31, and a
    request without time stamps. *)
Theorem deliver_request_get_safe (stream : bytes) (Hb : Forall is_byte stream) (Hdepth : 1 <= var_hash_queue_depth) (Hnow : length now = sizeof_timeval) :
  match deliver_request_get hash_queue_names var_hash_queue_depth lstat open_error lock_ok now stream with
  | Ret (Got r path, _) => good_request r path
  | Ret (_, _) => True
  | Panic => False
  | Undef => exists vs rest, attr_scan0 ATTR_FLAG_STRICT get_requests stream = Ret (23, vs, rest) /\
      (vs !! 11%nat = Some (V_FUNC []) \/ vs !! 22%nat = Some (V_INT (- 2 ^ 31)))
  end.
Proof using Type.
  destruct (common_attributes stream Hb) as (ret & vs & s1 & E & Hs & H). unfold deliver_request_get. rewrite E. cbn [mbind outcome_bind].
  destruct (Z.eqb_spec ret 23) as [->|]; cbn [negb]; [|done]. destruct (H eq_refl) as [Hno|(r & count & Er & Hc & Hrange & El & Hst & Hstr & Hi32 & Hi64)].
  { destruct (request_of vs) as [[r count]|] eqn:Er; [|by exists vs, s1; auto]. exfalso.
    unfold request_of in Er. repeat case_match; try discriminate Er. subst. cbn in Hno. discriminate Hno. }
  rewrite Er. destruct (mail_open_total hash_queue_names var_hash_queue_depth lstat (rq_queue_name r) (rq_queue_id r) Hdepth) as (ok & Eok & Hok). rewrite Eok. cbn [mbind outcome_bind].
  destruct ok as [path|]; [|done]. rewrite El.
  destruct (Z.eq_dec count (- 2 ^ 31)) as [->|Hmin]; [by exists vs, s1; auto|].
  destruct (recipients_any (S (length s1)) count (recipient_list_init RCPT_LIST_INIT_STATUS) s1) as (res & s2 & -> & Hres);
    [apply init_list_ok|by eapply suffix_is_byte|lia|unfold int_range in Hrange; cbn in *; lia|].
  cbn [mbind outcome_bind]. destruct res as [l|]; [|done]. destruct (Hres l eq_refl) as (added & Ei & Hadd & _).
  destruct (rl_len l <=? 0) eqn:Elen; [done|]. destruct (Hok path eq_refl) as (Hn & Hid & Hpath & Hshape). rewrite Hpath. cbn [mbind outcome_bind].
  unfold open_queue_file. destruct (open_error path) as [errno|]; [by destruct (negb (errno =? ENOENT))|].
  destruct (lock_ok path); [|done]. cbn [negb].
  assert (Hlen : length (if handoff_unset (rq_msg_stats r) then set_handoff now (rq_msg_stats r) else rq_msg_stats r) = sizeof_MSG_STATS).
  { destruct (handoff_unset (rq_msg_stats r)); [|done]. unfold set_handoff, agent_handoff_at, sizeof_timeval, sizeof_MSG_STATS in *.
    rewrite !length_app, length_take, length_drop. lia. }
  split; [|done|exact Hshape|done|done|exact Hlen].
  split; [by apply Z.leb_gt in Elen|]. cbn [rq_rcpt_list with_stats_and_rcpts]. rewrite Ei. apply Forall_map. eapply Forall_impl; [exact Hadd|]. by intros r' [].
Qed.
End queue_file.

(** The status of a report: the reason of a delivery agent, or none. *)
Definition report_dsn (hop_status : option DSN) : DSN := match hop_status with Some dsn => dsn | None => dummy_dsn end.

Lemma initial_reply_ok : exists wire, deliver_request_initial = Ret wire /\
  forall rest, qmgr_deliver_initial_reply true (wire ++ rest) = Ret (0, rest).
Proof.
  destruct (attr_exchange ATTR_FLAG_NONE ATTR_FLAG_STRICT [SEND_ATTR_INT MAIL_ATTR_STATUS 0] [RECV_ATTR_INT MAIL_ATTR_STATUS] [(fun v => v = V_INT 0)] 1)
    as (wire & vs & E & Hvs & _ & Hs); [reflexivity..| |].
  { apply (dl_value _ _ _ _ _ MAIL_ATTR_STATUS _ _ _ 0); [apply ans_int; unfold int_range; lia|reflexivity|by apply c_name_of|apply dl_nil]. }
  received. exists wire. split; [done|]. intros rest. unfold qmgr_deliver_initial_reply. cbn [negb]. by rewrite Hs.
Qed.

Lemma final_reply_ok hop_status status : good_dsn (report_dsn hop_status) -> int_range 32 status ->
  exists wire, deliver_request_final hop_status status = Ret wire /\
    forall rest, (reply ← qmgr_deliver_final_reply true (wire ++ rest); report_of reply)
      = Ret (Reported (negb (status =? 0)) (dsn_status (report_dsn hop_status)) (dsn_reason (report_dsn hop_status))).
Proof.
  intros Hd Hst. destruct (final_exchange (report_dsn hop_status) status Hd Hst) as (wire & E & Hs).
  exists wire. split; [done|]. intros rest. unfold qmgr_deliver_final_reply. cbn [negb]. rewrite Hs. cbn. by destruct (status =? 0).
Qed.

Lemma final_reply_any peek_ok stream : Forall is_byte stream ->
  exists report, (reply ← qmgr_deliver_final_reply peek_ok stream; report_of reply) = Ret report /\
    match report with Crashed => True | Reported _ dsn_status reason => Forall is_cchar dsn_status /\ Forall is_cchar reason end.
Proof.
  intros Hb. unfold qmgr_deliver_final_reply. destruct (negb peek_ok); [by exists Crashed|].
  destruct (scan_any ATTR_FLAG_STRICT final_requests stream) as (ret & vs & s1 & -> & _ & _ & H);
    [done|repeat constructor; exact dsb_scan_fn_ok|done|done|].
  cbn [mbind outcome_bind]. destruct (Z.eqb_spec ret 2) as [->|]; cbn [negb]; [|by exists Crashed].
  specialize (H eq_refl). unfold final_requests in H. typed_values. destruct Hv as (flags & fp & r & fp' & Hf & Hfp & Er & Hr).
  destruct (dsb_scan_any flags fp Hf Hfp) as (r' & vs' & fp2 & E' & _ & Hv'). rewrite E' in Er. injection Er as -> -> ->.
  destruct (Hv' Hr) as (d & [H1 _ H3 _ _ _ _] & ->). cbn [dsn_values mbind outcome_bind].
  destruct (negb (v =? 0)); eexists; (split; [reflexivity|done]).
Qed.

(** C16: the replies of a delivery agent reach the queue manager.  The initial reply is taken
    for a good one, and the rest is left.  The final report, with any status and any
    delivery status information, is read as a delivery report with the same status code
    and reason, deferred exactly when the status is not zero; a request that the agent
    cannot accept is reported as a deferred delivery without a site problem.  Whatever
    bytes a broken agent sends instead, the queue manager finds a crash, or a report whose
    texts are C strings; it does not panic. *)
Theorem delivery_reports :
  (exists wire, deliver_request_initial = Ret wire /\ forall rest, qmgr_deliver_initial_reply true (wire ++ rest) = Ret (0, rest))
  /\ (forall hop_status status, good_dsn (report_dsn hop_status) -> int_range 32 status ->
      exists wire, deliver_request_final hop_status status = Ret wire /\
        forall rest, (reply ← qmgr_deliver_final_reply true (wire ++ rest); report_of reply)
          = Ret (Reported (negb (status =? 0)) (dsn_status (report_dsn hop_status)) (dsn_reason (report_dsn hop_status))))
  /\ (forall names depth lstat open_error lock_ok now stream rest,
      stream <> [] -> deliver_request_get names depth lstat open_error lock_ok now stream = Ret (Refused, rest) ->
      exists initial final, deliver_request_read names depth lstat open_error lock_ok now true stream = Ret (initial ++ final, Some None)
        /\ qmgr_deliver_initial_reply true (initial ++ final) = Ret (0, final)
        /\ (reply ← qmgr_deliver_final_reply true final; report_of reply) = Ret (Reported true [] []))
  /\ (forall peek_ok stream, Forall is_byte stream ->
      exists report, (reply ← qmgr_deliver_final_reply peek_ok stream; report_of reply) = Ret report /\
        match report with Crashed => True | Reported _ dsn_status reason => Forall is_cchar dsn_status /\ Forall is_cchar reason end).
Proof.
  split_and!; [exact initial_reply_ok|exact final_reply_ok| |exact final_reply_any].
  intros names depth lstat open_error lock_ok now stream rest Hne Hget. destruct initial_reply_ok as (initial & Ei & Hi).
  destruct (final_reply_ok None (-1)) as (final & Ef & Hf); [by split|unfold int_range; lia|].
  exists initial, final. split_and!; [|done|specialize (Hf []); by rewrite app_nil_r in Hf].
  unfold deliver_request_read. rewrite Ei. cbn [mbind outcome_bind negb]. destruct stream as [|c s]; [done|].
  rewrite Hget. cbn [mbind outcome_bind]. by rewrite Ef.
Qed.

(** *** Witnesses and examples *)

Definition example_message : message_info :=
  mk_message_info 256 (str "active") (str "4Rxyz23kLmz8Tq") 300 12345 (str "8bit") 0 (str "list@example.com") (Some (str "+=")) false
    (str "env") 1 (replicate 16 1) (replicate 16 2) (str "mail.example.net") (str "192.0.2.1") (str "25") (str "ESMTP") (str "helo")
    [] [] [] (str "4Rxyz23kLmz8Tq") (str "local").
Definition example_recipient : RECIPIENT := mk_recipient 77 (str "rfc822;u@example.org") (-3) (str "user@example.org") (str "user@example.org") None.
Definition example_lstat (path : bytes) : option file_stat := Some (mk_stat 0x81c0 1).

Lemma example_strings : Forall is_cchar (str "4Rxyz23kLmz8Tq").
Proof. by apply c_string_of. Qed.

Lemma example_message_ok : good_message example_message.
Proof.
  split; cbn [mi_tflags mi_smtputf8 mi_dsn_ret mi_data_offset mi_cont_length mi_verp_delims mi_arrival_time mi_active_time example_message]; try lia;
    try (unfold int_range; lia).
  - repeat (apply Forall_cons; split; [by apply c_string_of|]). by apply Forall_nil.
  - split; [by apply c_string_of|done].
  - split; [apply Forall_replicate; unfold is_byte; lia|done].
  - split; [apply Forall_replicate; unfold is_byte; lia|done].
Qed.

Lemma example_recipient_ok : good_recipient example_recipient.
Proof. split; cbn; try (by apply c_string_of); unfold int_range; lia. Qed.

Lemma deliver_request_roundtrip_witness :
  exists wire sender, qmgr_deliver_send_request true example_message 0 (str "[mx.example.org]") [example_recipient] = Ret wire
    /\ request_sender example_message [example_recipient] = Ret sender
    /\ forall rest, exists l, rl_info l = map received_recipient [example_recipient] /\
       deliver_request_get [] 1 example_lstat (fun _ => None) (fun _ => true) (replicate 16 3) (wire ++ rest)
       = Ret (Got (expected_request true (replicate 16 3) example_message 0 (str "[mx.example.org]") sender [example_recipient] l) (str "active/4Rxyz23kLmz8Tq"), rest).
Proof.
  apply (deliver_request_roundtrip true [] 1 example_lstat (fun _ => None) (fun _ => true) (replicate 16 3) example_message 0 (str "[mx.example.org]")
    (str "active/4Rxyz23kLmz8Tq") [example_recipient]);
    [exact example_message_ok|lia|by apply c_string_of|apply Forall_singleton; exact example_recipient_ok|cbn; lia|by vm_compute|done|done].
Defined.

Lemma deliver_request_get_safe_witness :
  match deliver_request_get [] 1 example_lstat (fun _ => None) (fun _ => true) (replicate 16 3) (str "flags" ++ [0; 55; 0]) with
  | Ret (Got r path, _) => good_request r path
  | Ret (_, _) => True
  | Panic => False
  | Undef => exists vs rest, attr_scan0 ATTR_FLAG_STRICT get_requests (str "flags" ++ [0; 55; 0]) = Ret (23, vs, rest) /\
      (vs !! 11%nat = Some (V_FUNC []) \/ vs !! 22%nat = Some (V_INT (- 2 ^ 31)))
  end.
Proof.
  apply (deliver_request_get_safe [] 1 example_lstat (fun _ => None) (fun _ => true) (replicate 16 3) (str "flags" ++ [0; 55; 0])); [|lia|done].
  repeat constructor; unfold is_byte; cbn; lia.
Defined.

(** A request whose first part ends before the time stamps: the scan of the time stamps
    returns 0 at the end of that list, which is not an error for its caller, so that the
    request is accepted, with a structure of time stamps that was never written. *)
Example time_stamps_missing :
  (let attrs := request_attrs true example_message 0 (str "mx") (str "sender") [example_recipient] in
   a ← attr_print0 ATTR_FLAG_NONE (take 11 attrs); b ← attr_print0 ATTR_FLAG_NONE (drop 12 attrs);
   '(ret, vs, _) ← attr_scan0 ATTR_FLAG_STRICT get_requests (a ++ b); Ret (ret, vs !! 11%nat)) = Ret (23, Some (V_FUNC [])).
Proof. vm_compute. reflexivity. Qed.

(** The loop that reads the recipients decrements the smallest integer. *)
Example recipient_count_underflow :
  (a ← attr_print0 ATTR_FLAG_NONE (take 22 (request_attrs true example_message 0 (str "mx") (str "sender") [example_recipient])
                                   ++ [SEND_ATTR_INT MAIL_ATTR_RCPT_COUNT (- 2 ^ 31)]);
   deliver_request_get [] 1 example_lstat (fun _ => None) (fun _ => true) (replicate 16 3) a) = Undef.
Proof. vm_compute. reflexivity. Qed.

(** An attribute that the agent does not understand is not skipped: the request is
    refused. *)
Example unknown_attribute_refused :
  (a ← attr_print0 ATTR_FLAG_NONE (SEND_ATTR_STR (str "new_attribute") [] :: request_attrs true example_message 0 (str "mx") (str "sender") [example_recipient]);
   b ← send_recipients [example_recipient];
   r ← deliver_request_get [] 1 example_lstat (fun _ => None) (fun _ => true) (replicate 16 3) (a ++ b); Ret (fst r)) = Ret Refused.
Proof. vm_compute. reflexivity. Qed.
