(* ===== verification/QmgrLoad.v ===== *)
(** Loading recipients: qmgr_message_read(), qmgr_message_resolve(), qmgr_message_assign(),
    qmgr_message_alloc() and qmgr_message_realloc() of qmgr_message.c (src/src/qmgr), as
    far as they concern the recipient counts, destinations, jobs, peers and entries. *)

From S2P Require Export QmgrMessage QmgrDeliver.

(** ** Operations *)

(** A recipient that qmgr_message_resolve() gives a destination: the transport of the
    resolver's reply, and the queue name that is made of the reply's next hop and recipient.
    Recipients that are discarded or bounced are left out. A message with a redirect address
    is one with a single recipient, and with no more to read. *)
Record resolved := mk_resolved {
  r_transport : nat;
  r_queue_name : bytes;
  r_recipient : Z
}.

(** What one call of qmgr_message_read() finds in the queue file. *)
Record reading := mk_reading {
  rd_recipients : list resolved;
  rd_offset : Z;
  rd_unread : Z
}.

(** The queue files: opening the one of a message, to read on from an offset, gives a
    function that reads up to a number of recipients. Nothing when the file does not open
    (or another process has it locked); and nothing is read when the file is malformed. *)
Definition queue_files : Type := nat -> Z -> option (Z -> option reading).

Definition tolower (c : Z) : Z := if ISUPPER c then c + 32 else c.
Definition lowercase (s : bytes) : bytes := map tolower s.

Section operations.
(** The retry transport, and the recipient limit of each transport. *)
Context (service : nat) (recipient_limit : nat -> Z).
Context (file : queue_files).
(** qsort() with qmgr_message_sort_compare(). *)
Context (sorted : list (option nat * Z) -> list (option nat * Z)).

(** A recipient of a dead transport goes to the retry transport, if that is alive. *)
Definition live_transport (flush : bool) (transport : nat) (queue : option nat) (queue_name : bytes) : M (option nat * option nat * bytes) :=
  tr ← get_transport transport;
  (if flush && QMGR_TRANSPORT_THROTTLED tr then qmgr_transport_unthrottle transport else mret tt);;
  tr ← get_transport transport;
  if QMGR_TRANSPORT_THROTTLED tr then
    retry ← qmgr_error_transport service;
    mret (retry, match retry with Some _ => None | None => queue end, lowercase (default [] (t_dsn tr)))
  else mret (Some transport, queue, queue_name).

Definition same_name (queue : option nat) (queue_name : bytes) : M bool :=
  match queue with Some queue => qu ← get_queue queue; mret (bool_decide (q_name qu = queue_name)) | None => mret false end.

(** One iteration of qmgr_message_resolve(), from the transport lookup on: the queue of the
    recipient, and the variables [transport] and [queue] for the next one. *)
Definition resolve_one (flush : bool) (transport queue : option nat) (r : resolved) : M (option nat * (option nat * option nat)) :=
  '(transport, queue, queue_name) ← live_transport flush (r_transport r)
    (if decide (transport = Some (r_transport r)) then queue else None) (r_queue_name r);
  match transport with
  | None => mret (None, (None, queue))
  | Some transport =>
      same ← same_name queue queue_name;
      queue ← (match queue, same with
               | Some queue, true => mret queue
               | _, _ =>
                   found ← qmgr_queue_find transport queue_name;
                   match found with Some queue => mret queue | None => qmgr_queue_create transport queue_name end
               end);
      qu ← get_queue queue;
      (if flush && QMGR_QUEUE_THROTTLED qu then qmgr_queue_unthrottle queue else mret tt);;
      qu ← get_queue queue;
      if QMGR_QUEUE_THROTTLED qu then
        retry ← qmgr_error_queue service (default [] (q_dsn qu));
        mret (retry, (Some transport, retry))
      else mret (Some queue, (Some transport, Some queue))
  end.

Fixpoint resolve_loop (flush : bool) (transport queue : option nat) (l : list resolved) : M (list (option nat * Z)) :=
  match l with
  | [] => mret []
  | r :: l =>
      '(q, (transport, queue)) ← resolve_one flush transport queue r;
      rest ← resolve_loop flush transport queue l;
      mret ((q, r_recipient r) :: rest)
  end.
Definition qmgr_message_resolve (flush : bool) (l : list resolved) : M (list (option nat * Z)) := resolve_loop flush None None l.

Fixpoint assign_loop (message : nat) (single_rcpt : bool) (job peer : option nat) (l : list (option nat * Z)) : M unit :=
  match l with
  | [] => mret tt
  | (None, _) :: l => assign_loop message single_rcpt job peer l
  | (Some queue, recipient) :: l =>
      qu ← get_queue queue;
      '(job, peer) ← (match job with
                      | None => job ← qmgr_job_obtain message (q_transport qu); mret (job, None)
                      | Some job =>
                          jb ← get_job job;
                          if decide (q_transport qu = j_transport jb) then mret (job, peer)
                          else job ← qmgr_job_obtain message (q_transport qu); mret (job, None)
                      end);
      peer ← (match peer with
              | None => qmgr_peer_obtain job queue
              | Some peer => pe ← get_peer peer; if decide (queue = p_queue pe) then mret peer else qmgr_peer_obtain job queue
              end);
      assign_entry message peer single_rcpt (recipient_limit (q_transport qu)) recipient;;
      assign_loop message single_rcpt (Some job) (Some peer) l
  end.

(** The candidate caches that may have changed. *)
Fixpoint reset_caches (l : list nat) : M unit :=
  match l with
  | [] => mret tt
  | job :: l =>
      jb ← get_job job;
      tr ← get_transport (j_transport jb);
      (if HAS_ENTRIES jb && negb (IS_BLOCKER jb tr) then RESET_CANDIDATE_CACHE (j_transport jb) else mret tt);;
      reset_caches l
  end.

Definition qmgr_message_assign (message : nat) (single_rcpt : bool) (l : list (option nat * Z)) : M unit :=
  assign_loop message single_rcpt None None l;;
  msg ← get_message message;
  reset_caches (m_job_list msg).

Definition qmgr_message_read (read : Z -> option reading) (message : nat) : M (option (list resolved)) :=
  msg ← get_message message;
  recipient_count ← gets qmgr_recipient_count;
  rcpt_limit ← gets var_qmgr_rcpt_limit;
  now ← gets sane_time;
  let limit := if negb (m_rcpt_offset msg =? 0) then m_rcpt_limit msg - m_rcpt_count msg
               else if rcpt_limit - recipient_count <? m_rcpt_limit msg then m_rcpt_limit msg else rcpt_limit - recipient_count in
  let limit := if limit >? 5000 then 5000 else limit in
  panic_if (limit <=? 0);;
  upd_message message (set_m_refill_time now);;
  match read limit with
  | None => mret None
  | Some rd =>
      upd_message message (fun msg => set_m_rcpt_unread (rd_unread rd) (set_m_rcpt_offset (rd_offset rd) msg));;
      mret (Some (rd_recipients rd))
  end.

(** The common part of qmgr_message_alloc() and qmgr_message_realloc(). *)
Definition message_load (message : nat) (flush single_rcpt : bool) (l : list resolved) : M unit :=
  l ← qmgr_message_resolve flush l;
  qmgr_message_assign message single_rcpt (sorted l);;
  msg ← get_message message;
  if m_rcpt_offset msg =? 0 then qmgr_message_move_limits message else mret tt.

Definition qmgr_message_realloc (message : nat) (flush single_rcpt : bool) : M bool :=
  msg ← get_message message;
  panic_if (m_rcpt_offset msg <=? 0);;
  match file message (m_rcpt_offset msg) with
  | None => mret false
  | Some read =>
      l ← qmgr_message_read read message;
      match l with
      | None => mret false
      | Some l => message_load message flush single_rcpt l;; mret true
      end
  end.

(** [message] is the address of the new structure. A file that is locked gives the same
    result here as one that does not open; the defer log is left out. *)
Definition qmgr_message_alloc (message : nat) (queue_id : bytes) (rcpt_limit : Z) (flush single_rcpt : bool) : M bool :=
  now ← gets sane_time;
  modify (put_message message (mk_qmgr_message queue_id 0 now 0 0 0 rcpt_limit 0 []));;
  match file message 0 with
  | None => qmgr_message_free message;; mret false
  | Some read =>
      l ← qmgr_message_read read message;
      match l with
      | None => qmgr_message_free message;; mret false
      | Some l => message_load message flush single_rcpt l;; mret true
      end
  end.
End operations.

(** ** What loading leaves alone *)

(** The job list of a transport. *)
Definition same_list (t : nat) (st st' : qmgr) : Prop := t_job_list <$> transports st' !! t = t_job_list <$> transports st !! t.
#[export] Instance same_list_preorder t : PreOrder (same_list t).
Proof. split; [done|]. intros s1 s2 s3 H1 H2. unfold same_list in *. congruence. Qed.

Lemma same_list_put t x tr tr' st : transports st !! x = Some tr -> x <> t \/ t_job_list tr' = t_job_list tr -> same_list t st (put_transport x tr' st).
Proof.
  intros Hx H. unfold same_list. cbn. rewrite lookup_insert_dec. case_decide as Hd; [|done]. subst x. rewrite Hx. cbn.
  destruct H as [|E]; [done|by rewrite E].
Qed.

Ltac keep :=
  repeat first
    [ progress intros
    | apply (keeps_bind (same_list _)) | apply (keeps_ret (same_list _)) | apply (keeps_panic_if (same_list _)) | apply (keeps_gets (same_list _))
    | apply (keeps_deref (same_list _))
    | apply keeps_modify; reflexivity | apply keeps_alloc; reflexivity
    | apply keeps_upd_job; reflexivity | apply keeps_upd_message; reflexivity
    | apply keeps_upd_queue; reflexivity | apply keeps_upd_entry; reflexivity | apply keeps_upd_peer; reflexivity
    | apply keeps_upd_transport; intros; eapply same_list_put; [eassumption|first [right; reflexivity|left; assumption]]
    | case_match
    | progress cbv zeta ].

Lemma next_unread_keeps t l : keeps (same_list t) (next_unread_from l).
Proof. induction l as [|x l IH]; cbn [next_unread_from]; keep; done. Qed.
Lemma list_scan_keeps t qt l cur : keeps (same_list t) (job_list_scan qt l cur).
Proof. revert cur. induction l as [|x l IH]; intros cur; cbn [job_list_scan]; keep; apply IH. Qed.
Lemma bytime_scan_keeps t qt l cur : keeps (same_list t) (job_bytime_scan qt l cur).
Proof. revert cur. induction l as [|x l IH]; intros cur; cbn [job_bytime_scan]; keep; apply IH. Qed.

Lemma move_limits_keeps t job : keeps (same_list t) (qmgr_job_move_limits job).
Proof. unfold qmgr_job_move_limits. keep; apply next_unread_keeps. Qed.

(** Linking a job touches the list of its own transport only. *)
Lemma link_keeps t job st r st' : (forall jb, jobs st !! job = Some jb -> j_transport jb <> t) ->
  qmgr_job_link job st = Ret (r, st') -> same_list t st st'.
Proof.
  intros Hn H. unfold qmgr_job_link in H. apply bind_inv in H as (jb & st1 & H1 & H). unfold get_job, deref in H1.
  destruct (jobs st !! job) as [x|] eqn:Hj; [|done]. injection H1 as -> ->. specialize (Hn jb eq_refl). revert H.
  match goal with |- ?m _ = _ -> _ => enough (keeps (same_list t) m) as Hk by apply Hk end. clear Hj.
  keep; first [apply list_scan_keeps|apply bytime_scan_keeps|apply next_unread_keeps|apply move_limits_keeps].
Qed.

Definition in_transport (st : qmgr) (t j : nat) : Prop := exists jb, jobs st !! j = Some jb /\ j_transport jb = t.

Lemma create_in_transport message transport st job st' : qmgr_job_create message transport st = Ret (job, st') -> in_transport st' transport job.
Proof.
  intros H. unfold qmgr_job_create in H. apply bind_inv in H as (x & s1 & _ & H). apply bind_inv in H as (msg & s2 & _ & H).
  apply bind_inv in H as (u1 & s3 & E3 & H). injection E3 as _ <-. apply bind_inv in H as (u2 & s4 & E4 & H).
  apply bind_inv in H as (u3 & s5 & E5 & H). injection H as -> <-. unfold upd_message in E4. unfold upd_transport in E5.
  destruct (messages _ !! message) in E4; [|done]. injection E4 as _ <-. destruct (transports _ !! transport) in E5; [|done]. injection E5 as _ <-.
  eexists. cbn. by rewrite lookup_insert_eq.
Qed.

(** Looking up a job touches the list of its transport, and only if the job is not there. *)
Lemma obtain_keeps t message transport st r st' : wf st ->
  t <> transport \/ (exists msg tr job, messages st !! message = Some msg /\ transports st !! transport = Some tr /\
    t_job_byname tr !! m_queue_id msg = Some job /\ QmgrJob.on_list st transport job) ->
  qmgr_job_obtain message transport st = Ret (r, st') -> same_list t st st'.
Proof.
  intros Hwf Hor H. unfold qmgr_job_obtain in H. apply bind_inv in H as (found & st1 & H1 & H).
  assert (H1' : exists msg tr, messages st !! message = Some msg /\ transports st !! transport = Some tr /\
    found = t_job_byname tr !! m_queue_id msg /\ st1 = st).
  { unfold qmgr_job_find in H1. apply bind_inv in H1 as (msg & s1 & E1 & H1). apply bind_inv in H1 as (tr & s2 & E2 & H1).
    unfold get_message, get_transport, deref in E1, E2. destruct (messages st !! message) as [x|]; [|done]. injection E1 as -> ->.
    destruct (transports s1 !! transport) as [y|] eqn:Ht; [|done]. injection E2 as -> ->. injection H1 as <- <-. by exists msg, tr. }
  clear H1. destruct H1' as (msg & tr & Hm & Ht & -> & ->). apply bind_inv in H as (job & st2 & H2 & H).
  (* the job belongs to the transport *)
  assert (Hjob : same_list t st st2 /\ in_transport st2 transport job /\ (t <> transport \/ QmgrJob.on_list st2 transport job)).
  { destruct (t_job_byname tr !! m_queue_id msg) as [j|] eqn:Hn.
    - injection H2 as <- <-. split; [done|]. destruct (wf_names _ (wf_wf_core _ Hwf) _ _ _ _ Ht Hn) as (jb & _ & Hj & Et & _).
      split; [by exists jb|]. destruct Hor as [|(msg' & tr' & job' & A1 & A2 & A3 & A4)]; [by left|right].
      assert (job' = j) as -> by congruence. done.
    - destruct Hor as [Hne|(msg' & tr' & job' & A1 & A2 & A3 & A4)]; [|congruence]. split; [|split; [|by left]].
      + assert (Hk : keeps (same_list t) (qmgr_job_create message transport)) by (unfold qmgr_job_create; keep). by apply Hk in H2.
      + by apply create_in_transport in H2. }
  destruct Hjob as (H12 & (jb & Hj & Et) & Hon). apply bind_inv in H as (jb' & st3 & H3 & H).
  unfold get_job, deref in H3. rewrite Hj in H3. injection H3 as <- <-. apply bind_inv in H as (u & st4 & H4 & H).
  assert (H24 : same_list t st2 st4).
  { destruct (j_stack_level jb <? 0) eqn:Hl; [|by injection H4 as _ <-].
    apply (link_keeps t job _ _ _) in H4; [done|]. intros jb2 Hj2. assert (jb2 = jb) as -> by congruence.
    destruct Hon as [|(jb3 & Hj3 & _ & Hl3)]; [congruence|]. assert (jb3 = jb) as -> by congruence. lia. }
  etrans; [exact H12|]. etrans; [exact H24|].
  revert H. match goal with |- ?m _ = _ -> _ => assert (Hk : keeps (same_list t) m); [|apply Hk] end.
  unfold RESET_CANDIDATE_CACHE. keep.
Qed.

Lemma wp_lists {A} (m : M A) st Q : (forall t, keeps (same_list t) m) -> wp m st Q -> wp m st (fun a st' => Q a st' /\ forall t, same_list t st st').
Proof.
  intros Hk Hw. apply (wp_keeps (fun st st' => forall t, same_list t st st')); [|done]. intros s a s' H t. by eapply Hk.
Qed.

(** ** Loading only adds *)

Record grows (m : nat) (st st' : qmgr) : Prop := mk_grows {
  gr_q x xu : queues st !! x = Some xu -> exists xu', queues st' !! x = Some xu' /\ qplace xu' = qplace xu /\ q_busy xu' = q_busy xu /\
    (QMGR_QUEUE_THROTTLED xu = false -> QMGR_QUEUE_THROTTLED xu' = false);
  gr_t t : is_Some (transports st !! t) -> is_Some (transports st' !! t);
  gr_j j jb : jobs st !! j = Some jb -> exists jb', jobs st' !! j = Some jb' /\ jlink jb' = jlink jb;
  gr_m x : is_Some (messages st !! x) -> is_Some (messages st' !! x);
  gr_p p pe : peers st !! p = Some pe -> exists pe', peers st' !! p = Some pe' /\ plink pe' = plink pe;
  gr_e e en : entries st !! e = Some en -> exists en', entries st' !! e = Some en' /\ elink en' = elink en /\ e_stream en' = e_stream en;
  gr_l t j : QmgrJob.on_list st t j -> (exists jb, jobs st !! j = Some jb /\ j_message jb = m) -> QmgrJob.on_list st' t j /\ same_list t st st'
}.

#[export] Instance grows_preorder m : PreOrder (grows m).
Proof.
  split.
  - intros st. split; [eauto|auto|eauto|auto|eauto|eauto|by intros].
  - intros s1 s2 s3 [A1 A2 A3 A4 A5 A6 A7] [B1 B2 B3 B4 B5 B6 B7]. split.
    + intros x xu Hx. destruct (A1 _ _ Hx) as (x2 & H2 & P2 & Q2 & R2). destruct (B1 _ _ H2) as (x3 & H3 & P3 & Q3 & R3).
      exists x3. split; [done|]. split; [congruence|]. split; [congruence|auto].
    + auto.
    + intros j jb Hj. destruct (A3 _ _ Hj) as (j2 & H2 & E2). destruct (B3 _ _ H2) as (j3 & H3 & E3). exists j3. split; [done|congruence].
    + auto.
    + intros p pe Hp. destruct (A5 _ _ Hp) as (p2 & H2 & E2). destruct (B5 _ _ H2) as (p3 & H3 & E3). exists p3. split; [done|congruence].
    + intros e en He. destruct (A6 _ _ He) as (e2 & H2 & E2 & F2). destruct (B6 _ _ H2) as (e3 & H3 & E3 & F3). exists e3. split; [done|]. split; congruence.
    + intros t j Hl (jb & Hj & Em). destruct (A7 t j Hl) as [Hl2 L2]; [by exists jb|]. destruct (A3 _ _ Hj) as (j2 & H2 & E2).
      destruct (B7 t j Hl2) as [Hl3 L3]; [exists j2; split; [done|]; unfold jlink in E2; congruence|]. split; [done|by etrans].
Qed.

(** Nothing happens to jobs, peers and entries. *)
Lemma grows_same m st st' :
  (forall x xu, queues st !! x = Some xu -> exists xu', queues st' !! x = Some xu' /\ qplace xu' = qplace xu /\ q_busy xu' = q_busy xu /\
    (QMGR_QUEUE_THROTTLED xu = false -> QMGR_QUEUE_THROTTLED xu' = false)) ->
  (forall t, is_Some (transports st !! t) -> is_Some (transports st' !! t)) ->
  jobs st' = jobs st -> messages st' = messages st -> peers st' = peers st -> entries st' = entries st -> (forall t, same_list t st st') -> grows m st st'.
Proof.
  intros Hq Ht Ej Em Ep Ee Hl. split; rewrite ?Ej, ?Em, ?Ep, ?Ee; eauto. intros t j (jb & Hj & H) _. split; [|apply Hl]. exists jb. by rewrite Ej.
Qed.
Lemma queues_same_grow st st' : queues st' = queues st ->
  forall x xu, queues st !! x = Some xu -> exists xu', queues st' !! x = Some xu' /\ qplace xu' = qplace xu /\ q_busy xu' = q_busy xu /\
    (QMGR_QUEUE_THROTTLED xu = false -> QMGR_QUEUE_THROTTLED xu' = false).
Proof. intros -> x xu Hx. eauto. Qed.

Definition valid (st : qmgr) (queue : option nat) : Prop := forall q, queue = Some q -> is_Some (queues st !! q).
Lemma valid_grows m st st' queue : grows m st st' -> valid st queue -> valid st' queue.
Proof. intros Hg Hv q E. destruct (Hv q E) as [xu Hx]. destruct (gr_q _ _ _ Hg _ _ Hx) as (xu' & ? & _). by exists xu'. Qed.

Section resolve.
Context (service message : nat).

Lemma unthrottle_keeps t x : keeps (same_list t) (qmgr_transport_unthrottle x).
Proof using Type. unfold qmgr_transport_unthrottle. keep. Qed.
Lemma queue_create_keeps t x name : keeps (same_list t) (qmgr_queue_create x name).
Proof using Type. unfold qmgr_queue_create. keep. Qed.
Lemma queue_unthrottle_keeps t q : keeps (same_list t) (qmgr_queue_unthrottle q).
Proof using Type. unfold qmgr_queue_unthrottle. keep. Qed.

Lemma error_queue_keeps t x name : keeps (same_list t) (qmgr_error_queue x name).
Proof using Type. unfold qmgr_error_queue, qmgr_error_transport, qmgr_queue_find, qmgr_queue_create. keep. Qed.

Lemma live_transport_wp flush transport queue name st :
  sound None None None st -> is_Some (transports st !! transport) -> is_Some (transports st !! service) -> valid st queue ->
  wp (live_transport service flush transport queue name) st (fun r st' => sound None None None st' /\ grows message st st' /\
    valid st' r.1.2 /\ forall t, r.1.1 = Some t -> is_Some (transports st' !! t)).
Proof using Type.
  intros Hs [tr Ht] Hsv Hv. unfold live_transport. step. apply wp_bind.
  apply (wp_mono _ _ (fun _ st1 => sound None None None st1 /\ grows message st st1)).
  { apply wp_if; intros _; [|by step]. eapply wp_mono; [apply wp_lists; [intros; apply unthrottle_keeps|by apply (transport_unthrottle_wp None None None transport tr)]|].
    intros ? st1 ((Hs1 & (Q1 & E1 & P1 & J1 & M1) & tr1 & T1 & _) & L1). split; [done|].
    apply grows_same; try done; [by apply queues_same_grow|]. intros x [y Hy]. rewrite T1, lookup_insert_dec. case_decide; [by eexists|by exists y]. }
  intros ? st1 (Hs1 & G1). destruct (gr_t _ _ _ G1 transport) as [tr1 Ht1]; [by exists tr|]. destruct (gr_t _ _ _ G1 _ Hsv) as [sv1 Hsv1].
  pose proof (valid_grows _ _ _ _ G1 Hv) as Hv1. step. apply wp_if; intros _.
  - unfold qmgr_error_transport. do 3 step. do 2 (split; [done|]). destruct (QMGR_TRANSPORT_THROTTLED sv1); (split; [done|]); cbn; [done|].
    intros t [= <-]. by exists sv1.
  - step. do 3 (split; [done|]). intros t [= <-]. by exists tr1.
Qed.

Lemma same_name_wp queue name st : valid st queue -> wp (same_name queue name) st (fun b st' => st' = st /\ (b = true -> is_Some queue)).
Proof using Type.
  intros Hv. unfold same_name. destruct queue as [q|]; [|by step]. destruct (Hv q eq_refl) as [qu Hq]. by do 2 step.
Qed.

Lemma find_or_create_wp transport name tr st :
  sound None None None st -> transports st !! transport = Some tr ->
  wp (found ← qmgr_queue_find transport name;
      match found with Some queue => mret queue | None => qmgr_queue_create transport name end) st
    (fun q st' => sound None None None st' /\ grows message st st' /\ is_Some (queues st' !! q)).
Proof using Type.
  intros Hs Ht. unfold qmgr_queue_find. do 2 step. destruct (t_queue_byname tr !! name) as [q|] eqn:Hn.
  - step. split; [done|]. split; [done|].
    pose proof (proj2 (proj2 (proj1 (bk_transport_queues _ _ _ _ (proj2 (proj2 Hs))) _ _ (col_at tcontrol _ _ _ Ht))) _ _ Hn) as (qu & Hq & _)%col_inv.
    by exists qu.
  - eapply wp_mono; [apply wp_lists; [intros; apply queue_create_keeps|by apply (queue_create_wp transport name tr)]|].
    intros q st' ((H1 & H2 & H3 & H4 & H5 & H6 & H7 & _ & qu & H8 & _) & L). split; [done|]. split.
    + apply grows_same; try done.
      * intros x xu Hx. rewrite H8, lookup_insert_ne by congruence. eauto.
      * intros t [y Hy]. destruct (col_some _ _ _ _ _ (eq_sym H7) Hy) as (y' & ? & _). by exists y'.
    + rewrite H8, lookup_insert_eq. by eexists.
Qed.

Lemma resolve_one_wp flush transport queue r st :
  sound None None None st -> is_Some (transports st !! r_transport r) -> is_Some (transports st !! service) -> valid st queue ->
  wp (resolve_one service flush transport queue r) st (fun res st' => sound None None None st' /\ grows message st st' /\
    valid st' res.2.2 /\ forall q, res.1 = Some q -> exists qu, queues st' !! q = Some qu /\ QMGR_QUEUE_THROTTLED qu = false).
Proof using Type.
  intros Hs Ht Hsv Hv. unfold resolve_one. apply wp_bind.
  eapply wp_mono; [apply live_transport_wp; [done|done|done|]|]; [by case_decide|].
  intros [[t q] name] st1 (Hs1 & G1 & Hv1 & Ht1). cbn in Hv1, Ht1. destruct t as [t|]; [|by step; split_and!].
  destruct (Ht1 t eq_refl) as [tr1 Htr1]. apply wp_bind. eapply wp_mono; [by apply same_name_wp|]. intros same ? [-> Hsame].
  apply wp_bind. apply (wp_mono _ _ (fun q st2 => sound None None None st2 /\ grows message st1 st2 /\ is_Some (queues st2 !! q))).
  { destruct q as [q|]; [|by eapply find_or_create_wp]. destruct same; [|by eapply find_or_create_wp]. step. split; [done|]. split; [done|].
    by apply Hv1. }
  intros q2 st2 (Hs2 & G2 & [qu2 Hq2]). step. apply wp_bind.
  apply (wp_mono _ _ (fun _ st3 => sound None None None st3 /\ grows message st2 st3)).
  { apply wp_if; intros Hb; [|by step]. apply andb_prop in Hb as [_ Hth]. unfold QMGR_QUEUE_THROTTLED, QMGR_QUEUE_STAT_THROTTLED in Hth.
    eapply wp_mono; [apply (unthrottle_sound None None None q2 qu2); [done|done|lia]|].
    intros ? st3 (H1 & (_ & _ & H4 & H5 & _) & X & qu3 & Hq3 & E & W & T3 & J3 & M3). split; [done|].
    apply grows_same; [|by rewrite T3|done..|by intros t'; unfold same_list; rewrite T3].
    intros x xu Hx. destruct (decide (x = q2)) as [->|Hne]; [|rewrite X by done; eauto]. assert (xu = qu2) as -> by congruence.
    exists qu3. split; [done|]. unfold qstatic in E. injection E as _ En _ _ Et _ Eb _. unfold qplace, QMGR_QUEUE_THROTTLED, QMGR_QUEUE_STAT_THROTTLED.
    split; [congruence|]. split; [done|lia]. }
  intros ? st3 (Hs3 & G3). destruct (gr_q _ _ _ G3 _ _ Hq2) as (qu3 & Hq3 & _).
  assert (G13 : grows message st st3) by (etrans; [exact G1|by etrans]). step. apply wp_if; intros Hth.
  - destruct (gr_t _ _ _ G13 _ Hsv) as [sv3 Hsv3].
    apply wp_bind. eapply wp_mono; [apply wp_lists; [intros; apply error_queue_keeps|by apply (error_queue_wp service _ sv3)]|].
    intros retry st4 ((Hs4 & E4 & K4 & F4 & _ & R4 & P4 & J4 & M4) & L4). step.
    split; [done|]. split; [etrans; [exact G13|]|].
    + apply grows_same; try done; [intros x xu Hx; apply K4 in Hx; eauto|].
      intros t' [y Hy]. destruct (col_some _ _ _ _ _ (eq_sym F4) Hy) as (y' & ? & _). by exists y'.
    + cbn. split; intros q' E'; destruct (R4 q' E') as (qu4 & tr4 & Hq4 & Hth4 & _); by exists qu4.
  - step. split; [done|]. split; [done|]. cbn. split; intros q' [= <-]; [by exists qu3|by exists qu3].
Qed.
End resolve.

Lemma resolve_loop_wp service message flush l : forall transport queue st,
  sound None None None st -> (forall r, r ∈ l -> is_Some (transports st !! r_transport r)) -> is_Some (transports st !! service) -> valid st queue ->
  wp (resolve_loop service flush transport queue l) st (fun res st' => sound None None None st' /\ grows message st st' /\
    forall q x, (Some q, x) ∈ res -> exists qu, queues st' !! q = Some qu /\ QMGR_QUEUE_THROTTLED qu = false).
Proof.
  induction l as [|r l IH]; intros transport queue st Hs Hl Hsv Hv; cbn [resolve_loop].
  { step. split; [done|]. split; [done|]. by intros q x ?%not_elem_of_nil. }
  apply wp_bind. eapply wp_mono; [apply (resolve_one_wp service message); [done|apply Hl; by left|done|done]|].
  intros [q [t' q']] st1 (Hs1 & G1 & Hv1 & Hq1). cbn in Hv1, Hq1. apply wp_bind.
  eapply wp_mono; [apply IH; [done| |by apply (gr_t _ _ _ G1)|done]|].
  { intros r' Hr'. apply (gr_t _ _ _ G1), Hl. by right. }
  intros res st2 (Hs2 & G2 & Hq2). step. split; [done|]. split; [by etrans|]. intros q0 x [[= <- _]|Hin]%elem_of_cons; [|by eapply Hq2].
  destruct (Hq1 _ eq_refl) as (qu & Hqu & Hth). destruct (gr_q _ _ _ G2 _ _ Hqu) as (qu2 & Hqu2 & _ & _ & Hth2). exists qu2. auto.
Qed.

(** ** Assigning *)

Lemma grows_quiet m st st' : quiet st st' ->
  (forall x xu, queues st !! x = Some xu -> exists xu', queues st' !! x = Some xu' /\ qplace xu' = qplace xu /\ q_busy xu' = q_busy xu /\
    (QMGR_QUEUE_THROTTLED xu = false -> QMGR_QUEUE_THROTTLED xu' = false)) ->
  jlink <$> jobs st' = jlink <$> jobs st ->
  (forall p pe, peers st !! p = Some pe -> exists pe', peers st' !! p = Some pe' /\ plink pe' = plink pe) ->
  (forall e en, entries st !! e = Some en -> exists en', entries st' !! e = Some en' /\ elink en' = elink en /\ e_stream en' = e_stream en) ->
  grows m st st'.
Proof.
  intros [Qt Qj Qm _] Hq Hj Hp He. split; try done.
  - intros t [tr Ht]. destruct (col_some _ _ _ _ _ (eq_sym Qt) Ht) as (tr' & ? & _). by exists tr'.
  - intros j jb Hjb. destruct (col_some _ _ _ _ _ (eq_sym Hj) Hjb) as (jb' & ? & E). by exists jb'.
  - intros x [msg Hm]. destruct (col_some _ _ _ _ _ (eq_sym Qm) Hm) as (msg' & ? & _). by exists msg'.
  - intros t j (jb & Hjb & Et & Hl) _. split.
    + destruct (col_some _ _ _ _ _ (eq_sym Qj) Hjb) as (jb' & ? & E). exists jb'. unfold jshape in E. injection E as _ E1 _ _ E2. by rewrite <- E1, <- E2.
    + unfold same_list. pose proof (col_lookup _ _ _ t Qt) as E. destruct (transports st' !! t), (transports st !! t); cbn in *; try done.
      f_equal. apply Some_inj in E. by apply tview_inv in E as (E & _).
Qed.

Lemma listed_stays st st' t j : wf st -> wf st' -> same_list t st st' -> QmgrJob.on_list st t j -> QmgrJob.on_list st' t j.
Proof.
  intros Hwf Hwf' Hsame Hon. pose proof Hon as (jb & Hjb & Et & Hlev). destruct (wf_refs _ (wf_wf_core _ Hwf) _ _ Hjb) as [[tr Ht] _].
  rewrite Et in Ht. assert (Hin : j ∈ t_job_list tr) by (by apply (wf_lists _ (wf_wf_core _ Hwf) _ _ Ht)).
  unfold same_list in Hsame. rewrite Ht in Hsame. destruct (transports st' !! t) as [tr'|] eqn:Ht'; [|done]. injection Hsame as Hsame.
  rewrite <- Hsame in Hin. by apply (wf_lists _ (wf_wf_core _ Hwf') _ _ Ht').
Qed.

Lemma job_obtain_grows message transport st :
  sound None None None st -> is_Some (messages st !! message) -> is_Some (transports st !! transport) ->
  wp (qmgr_job_obtain message transport) st (fun job st' => sound None None None st' /\ grows message st st' /\
    queues st' = queues st /\ exists jb, jobs st' !! job = Some jb /\ j_message jb = message /\ j_transport jb = transport).
Proof.
  intros Hs [msg Hm] [tr Ht]. pose proof Hs as (Hwf & _ & H).
  eapply wp_mono; [apply wp_and_run; [by apply (job_obtain_sound message transport msg tr)|]|].
  { intros r st' E. exact (fun t Hor => obtain_keeps t message transport st r st' Hwf Hor E). }
  intros job st' ((Hs' & Hj & Q1 & P1 & E1 & J1 & M1 & T1) & Hl). split; [done|]. split; [|done]. split; rewrite ?Q1, ?P1, ?E1; eauto.
  - intros t [y Hy]. destruct (col_some _ _ _ _ _ (eq_sym T1) Hy) as (y' & ? & _). by exists y'.
  - intros t j Hon (jb & Hjb & Em).
    assert (Hsame : same_list t st st').
    { apply Hl. destruct (decide (t = transport)) as [->|]; [right|by left]. exists msg, tr, j. do 2 (split; [done|]). split; [|done].
      destruct (bk_names _ _ _ _ H _ _ (col_at jlink _ _ _ Hjb)) as (id & names & N1 & N2 & N3). cbn in N1, N2. rewrite Em in N1.
      apply (col_inv_at _ _ _ _ _ Hm) in N1 as ->. destruct Hon as (jb' & Hjb' & Et & _). assert (jb' = jb) as -> by congruence. rewrite Et in N2.
      by apply (col_inv_at _ _ _ _ _ Ht) in N2 as ->. }
    split; [|done]. apply (listed_stays st); [done|apply Hs'|done|done].
Qed.

Lemma assign_entry_wp np message peer single_rcpt limit recipient pe qu jb st :
  sound np None None st -> np = None \/ np = Some peer -> (np = Some peer -> p_entry_list pe = []) -> peers st !! peer = Some pe -> queues st !! p_queue pe = Some qu -> QMGR_QUEUE_THROTTLED qu = false ->
  jobs st !! p_job pe = Some jb -> j_message jb = message ->
  wp (assign_entry message peer single_rcpt limit recipient) st (fun _ st' => sound None None None st' /\ grows message st st').
Proof.
  intros Hs Hnp Hnew Hp Hq Hth Hj Em. unfold assign_entry. step.
  destruct (wf_refs _ (wf_wf_core _ (proj1 Hs)) _ _ Hj) as [_ [msg Hm]]. rewrite Em in Hm.
  (* the entry: an old one, or a new one *)
  apply wp_bind. apply (wp_mono _ _ (fun reuse st' => st' = st /\ forall e, reuse = Some e -> np = None /\ exists en, entries st !! e = Some en /\ e_peer en = peer)).
  { destruct (last (p_entry_list pe)) as [e|] eqn:El; [|by step; split].
    assert (Hn : np = None) by (destruct Hnp as [|Hnp]; [done|]; by rewrite (Hnew Hnp) in El).
    assert (Hin : e ∈ p_entry_list pe) by (by apply last_Some_elem_of).
    apply (proj2 (bk_peer_lists _ _ _ _ (proj2 (proj2 Hs)) _ _ (col_at pload _ _ _ Hp))) in Hin as (x & l & (en & He & ->)%col_inv & Ep & _).
    do 2 step. split; [done|]. case_match; [done|]. intros e' [= <-]. split; [done|by exists en]. }
  intros reuse ? [-> Hreuse]. apply wp_bind.
  apply (wp_mono _ _ (fun e st1 => sound None None None st1 /\ grows message st st1 /\ exists en pe1, entries st1 !! e = Some en /\ e_peer en = peer /\
    peers st1 !! peer = Some pe1 /\ p_job pe1 = p_job pe)).
  { destruct reuse as [e|].
    - destruct (Hreuse e eq_refl) as (-> & en & He & Ep). step. split; [done|]. split; [done|]. by exists en, pe.
    - eapply wp_mono; [apply (entry_create_wp np peer message pe qu jb msg); done|].
      intros e st1 (Hs1 & -> & E1 & Q1 & P1 & J1 & T1 & Hquiet). split; [done|].
      destruct (col_some _ _ _ _ _ (eq_sym P1) Hp) as (pe1 & Hp1 & Epe). split.
      + apply grows_quiet; [done| |done| |].
        * intros x xu Hx. rewrite Q1, lookup_insert_dec. case_decide as Hd; [|eauto]. subst x. assert (xu = qu) as -> by congruence. by eexists.
        * intros p pp Hpp. destruct (col_some _ _ _ _ _ (eq_sym P1) Hpp) as (pp' & ? & E). by exists pp'.
        * intros x xn Hx. rewrite E1, lookup_insert_ne; [by exists xn|]. intros <-.
          destruct (entry_fresh _ _ _ _ (proj2 (proj2 Hs))) as (Fe & _). congruence.
      + eexists _, pe1. rewrite E1, lookup_insert_eq. split; [done|]. split; [done|]. split; [done|]. unfold plink in Epe. congruence. }
  intros e st1 (Hs1 & G1 & en & pe1 & He & Ep & Hp1 & Ej). rewrite <- Ej.
  assert (Hmsg : e_message en = message).
  { destruct (entry_placed _ _ _ _ _ _ Hs1 He) as (pe2 & qu2 & jb2 & msg2 & tr2 & [R1 _ _ R4 _ R6 _ _]). rewrite Ep in R1.
    assert (pe2 = pe1) as -> by congruence. destruct (gr_j _ _ _ G1 _ _ Hj) as (jb1 & Hj1 & El). rewrite Ej in R4. assert (jb2 = jb1) as -> by congruence.
    unfold jlink in El. congruence. }
  rewrite <- Hmsg in *. eapply wp_mono; [apply (entry_load_wp e en pe1 recipient); [done|done|by rewrite Ep]|].
  intros ? st2 (Hs2 & Hquiet & Q2 & P2 & J2 & E2). split; [done|]. etrans; [exact G1|]. apply grows_quiet; [done| |done| |].
  - rewrite Q2. eauto.
  - rewrite P2. eauto.
  - intros x xn Hx. rewrite E2, lookup_insert_dec. case_decide as Hd; [|eauto]. subst x. assert (xn = en) as -> by congruence. by eexists.
Qed.

Section assign.
Context (recipient_limit : nat -> Z) (message : nat) (single_rcpt : bool).

Lemma peer_obtain_grows job queue jb qu st :
  sound None None None st -> jobs st !! job = Some jb -> queues st !! queue = Some qu -> q_transport qu = j_transport jb ->
  wp (qmgr_peer_obtain job queue) st (fun p st' => exists np pe, (np = None \/ np = Some p) /\ sound np None None st' /\ grows message st st' /\
    peers st' !! p = Some pe /\ p_job pe = job /\ p_queue pe = queue /\ (np = Some p -> p_entry_list pe = []) /\ queues st' = queues st).
Proof using Type.
  intros Hs Hj Hq Et. eapply wp_mono; [by apply (peer_obtain_wp job queue jb qu)|].
  intros p st' (np & pe & H1 & H2 & H3 & H4 & H5 & H6 & Q & M & E & J & T & P & Hquiet). exists np, pe. do 2 (split; [done|]).
  split; [|done]. apply grows_quiet; [done| |done| |]; [rewrite Q; eauto|eauto|rewrite E; eauto].
Qed.

(** The variables [job] and [peer] of qmgr_message_assign(). *)
Definition cached_job (st : qmgr) (job : option nat) : Prop := forall j, job = Some j -> exists jb, jobs st !! j = Some jb /\ j_message jb = message.
Definition cached_peer (st : qmgr) (job peer : option nat) : Prop := forall p, peer = Some p -> exists pe, peers st !! p = Some pe /\ job = Some (p_job pe).

Lemma cached_grows st st' job peer : grows message st st' -> cached_job st job -> cached_peer st job peer ->
  cached_job st' job /\ cached_peer st' job peer.
Proof using Type.
  intros Hg Hj Hp. split.
  - intros j E. destruct (Hj j E) as (jb & Hjb & Em). destruct (gr_j _ _ _ Hg _ _ Hjb) as (jb' & ? & El). exists jb'. unfold jlink in El.
    split; [done|congruence].
  - intros p E. destruct (Hp p E) as (pe & Hpe & Ej). destruct (gr_p _ _ _ Hg _ _ Hpe) as (pe' & ? & El). exists pe'. unfold plink in El.
    split; [done|congruence].
Qed.

Definition alive (st : qmgr) (l : list (option nat * Z)) : Prop :=
  forall q x, (Some q, x) ∈ l -> exists qu, queues st !! q = Some qu /\ QMGR_QUEUE_THROTTLED qu = false.
Lemma alive_grows st st' l : grows message st st' -> alive st l -> alive st' l.
Proof using Type.
  intros Hg H q x Hin. destruct (H q x Hin) as (qu & Hq & Hth). destruct (gr_q _ _ _ Hg _ _ Hq) as (qu' & ? & _ & _ & Hth'). exists qu'. auto.
Qed.

Lemma assign_loop_wp l : forall job peer st,
  sound None None None st -> is_Some (messages st !! message) -> alive st l -> cached_job st job -> cached_peer st job peer ->
  wp (assign_loop recipient_limit message single_rcpt job peer l) st (fun _ st' => sound None None None st' /\ grows message st st').
Proof using Type.
  induction l as [|[[queue|] x] l IH]; intros job peer st Hs Hm Hl Hj Hp; cbn [assign_loop]; [by step| |].
  2:{ apply IH; [done..| |done|done]. intros q y Hin. apply (Hl q y). by right. }
  destruct (Hl queue x) as (qu & Hq & Hth); [by left|]. step. pose proof (sound_service _ _ _ _ _ _ Hs Hq) as Ht.
  (* the job *)
  apply wp_bind. apply (wp_mono _ _ (fun r st1 => sound None None None st1 /\ grows message st st1 /\ queues st1 = queues st /\
    (exists jb, jobs st1 !! r.1 = Some jb /\ j_message jb = message /\ j_transport jb = q_transport qu) /\ cached_peer st1 (Some r.1) r.2)).
  { assert (Hob : wp (job ← qmgr_job_obtain message (q_transport qu); mret (job, None : option nat)) st (fun r st1 => sound None None None st1 /\
      grows message st st1 /\ queues st1 = queues st /\ (exists jb, jobs st1 !! r.1 = Some jb /\ j_message jb = message /\ j_transport jb = q_transport qu) /\
      cached_peer st1 (Some r.1) r.2)).
    { apply wp_bind. eapply wp_mono; [by apply (job_obtain_grows message (q_transport qu))|]. intros j st1 (H1 & H2 & H3 & H4). by step. }
    destruct job as [job|]; [|exact Hob]. destruct (Hj job eq_refl) as (jb & Hjb & Em). step. apply wp_decide; intros Et; [|exact Hob].
    step. split; [done|]. split; [done|]. split; [done|]. split; [by exists jb|done]. }
  intros [job1 peer1] st1 (Hs1 & G1 & Q1 & (jb1 & Hj1 & Em1 & Et1) & Hp1). cbn [fst snd] in *.
  assert (Hq1 : queues st1 !! queue = Some qu) by (by rewrite Q1).
  (* the peer *)
  apply wp_bind. apply (wp_mono _ _ (fun p st2 => exists np pe, (np = None \/ np = Some p) /\ sound np None None st2 /\ grows message st1 st2 /\
    peers st2 !! p = Some pe /\ p_job pe = job1 /\ p_queue pe = queue /\ (np = Some p -> p_entry_list pe = []) /\ queues st2 = queues st1)).
  { destruct peer1 as [p|]; [|by eapply peer_obtain_grows]. destruct (Hp1 p eq_refl) as (pe & Hpe & [= Ejob]). step.
    apply wp_decide; intros Eq; [|by eapply peer_obtain_grows]. step. exists None, pe. split; [by left|]. by split_and!. }
  intros p st2 (np & pe & Hnp & Hs2 & G2 & Hpe & Ejob & Equ & Hnew & Q2). destruct (gr_j _ _ _ G2 _ _ Hj1) as (jb2 & Hj2 & El2).
  apply wp_bind. eapply wp_mono; [apply (assign_entry_wp np message p single_rcpt _ x pe qu jb2); [done|done|done|done| |done| |]|].
  { by rewrite Equ, Q2. } { by rewrite Ejob. } { unfold jlink in El2. congruence. }
  intros ? st3 (Hs3 & G3). assert (G03 : grows message st st3) by (etrans; [exact G1|by etrans]).
  destruct (cached_grows st2 st3 (Some job1) (Some p)) as [C1 C2]; [done| | |].
  { intros j [= <-]. exists jb2. unfold jlink in El2. split; [done|congruence]. }
  { intros p' [= <-]. exists pe. by rewrite Ejob. }
  eapply wp_mono; [apply IH; [done|by apply (gr_m _ _ _ G03)| |done|done]|].
  { apply (alive_grows st); [done|]. intros q y Hin. apply (Hl q y). by right. }
  intros ? st4 (Hs4 & G4). split; [done|by etrans].
Qed.
End assign.

(** Scheduling. *)
Lemma kept_grows m st st' : wf st -> kept st st' -> (forall t, same_list t st st') -> grows m st st'.
Proof.
  intros Hwf (Hwf' & _ & Hst) Hl. pose proof (retagged_steady _ _ (static_retagged _ _ Hst)) as ([_ Hj _ Hm Ht] & _).
  pose proof (st_others _ _ Hst) as Ho. unfold others in Ho. injection Ho as E1 E2 E3 _ _ _ _ _ _ _ _ _. split; rewrite ?E1, ?E2, ?E3; eauto.
  - intros t [y Hy]. destruct (col_some _ _ _ _ _ (eq_sym Ht) Hy) as (y' & ? & _). by exists y'.
  - intros j jb Hjb. destruct (col_some _ _ _ _ _ (eq_sym Hj) Hjb) as (y' & ? & E). by exists y'.
  - intros x [y Hy]. destruct (col_some _ _ _ _ _ (eq_sym Hm) Hy) as (y' & ? & _). by exists y'.
  - intros t j Hon _. split; [by apply (listed_stays st)|done].
Qed.

Lemma reset_caches_wp m l : forall st, sound None None None st -> (forall j, j ∈ l -> is_Some (jobs st !! j)) ->
  wp (reset_caches l) st (fun _ st' => sound None None None st' /\ grows m st st').
Proof.
  induction l as [|j l IH]; intros st Hs Hl; cbn [reset_caches]; [by step|]. destruct (Hl j) as [jb Hj]; [by left|]. step.
  destruct (wf_refs _ (wf_wf_core _ (proj1 Hs)) _ _ Hj) as [[tr Ht] _]. step. apply wp_bind.
  apply (wp_mono _ _ (fun _ st1 => sound None None None st1 /\ grows m st st1)).
  { apply wp_if; intros _; [|by step]. eapply wp_mono.
    - apply wp_lists; [intros t; unfold RESET_CANDIDATE_CACHE; keep|]. apply (kept_reset_cache _ _ (fun _ st' => kept st st') tr); [apply Hs|done|done].
    - intros ? st1 [Hk L]. destruct (kept_sound _ _ _ _ _ Hk Hs) as [Hs1 _]. split; [done|]. apply kept_grows; [apply Hs|done|done]. }
  intros ? st1 (Hs1 & G1). eapply wp_mono; [apply IH; [done|]|].
  - intros x Hx. destruct (Hl x) as [xb Hxb]; [by right|]. destruct (gr_j _ _ _ G1 _ _ Hxb) as (xb' & ? & _). by exists xb'.
  - intros ? st2 (Hs2 & G2). split; [done|by etrans].
Qed.

Lemma message_jobs_exist np dp dm st m msg j : sound np dp dm st -> messages st !! m = Some msg -> j ∈ m_job_list msg ->
  exists jb, jobs st !! j = Some jb /\ j_message jb = m.
Proof.
  intros (_ & _ & H) Hm Hj. destruct (bk_message_jobs _ _ _ _ H _ _ _ (col_at m_job_list _ _ _ Hm) Hj) as (jl & (jb & Hjb & ->)%col_inv & E). by exists jb.
Qed.

Lemma move_limits_loop_wp m msg0 l : forall st, sound None None None st -> messages st !! m = Some msg0 ->
  (forall j, j ∈ l -> exists jb, jobs st !! j = Some jb /\ j_message jb = m) ->
  wp (move_limits_loop l) st (fun _ st' => sound None None None st' /\ grows m st st').
Proof.
  revert msg0. induction l as [|j l IH]; intros msg0 st Hs Hm Hl; cbn [move_limits_loop]; [by step|].
  destruct (Hl j) as (jb & Hj & Em); [by left|]. apply wp_bind. eapply wp_mono.
  - apply wp_lists; [intros; apply move_limits_keeps|]. apply (kept_move_limits j jb msg0); [apply Hs|done|by rewrite Em].
  - intros ? st1 [[Hk _] L]. destruct (kept_sound _ _ _ _ _ Hk Hs) as [Hs1 _]. pose proof (kept_grows m _ _ (proj1 Hs) Hk L) as G1.
    destruct (gr_m _ _ _ G1 m) as [msg1 Hm1]; [by exists msg0|]. eapply wp_mono; [apply (IH msg1); [done|done|]|].
    + intros x Hx. destruct (Hl x) as (xb & Hxb & Ex); [by right|]. destruct (gr_j _ _ _ G1 _ _ Hxb) as (xb' & ? & El). exists xb'.
      unfold jlink in El. split; [done|congruence].
    + intros ? st2 (Hs2 & G2). split; [done|by etrans].
Qed.

(** ** Reading *)

(** Nothing but the state of reading changes in a message. *)
Lemma message_reading_sound m msg msg' st : sound None None None st -> messages st !! m = Some msg ->
  mshape msg' = mshape msg -> mcounts msg' = mcounts msg -> m_job_list msg' = m_job_list msg -> 0 <= m_rcpt_offset msg' ->
  sound None None None (put_message m msg' st) /\ grows m st (put_message m msg' st).
Proof.
  intros (Hwf & Hodd & H) Hm E1 E2 E3 Ho. set (st' := put_message m msg' st). pose proof (f_equal fst E1) as E4. cbn in E4.
  assert (C : forall B (f : QMGR_MESSAGE -> B), f msg' = f msg -> f <$> messages st' = f <$> messages st).
  { intros B f E. unfold st'. cbn. rewrite fmap_insert, E. apply insert_id. by apply col_at. }
  assert (Hquiet : quiet st st') by (split; [done|done|by apply C|done]).
  split; [|apply grows_quiet; [done|eauto|done|eauto|eauto]].
  split; [by eapply quiet_wf|]. split; [by eapply quiet_tags|]. open_books H. split; rewrite ?(C _ mcounts), ?(C _ m_job_list), ?(C _ m_queue_id) by done; try done.
  unfold st'. cbn. rewrite fmap_insert. intros x o. rewrite lookup_insert_dec. case_decide; [by intros [= <-]|apply Boffsets].
Qed.

(** The number of recipients that qmgr_message_read() is to read. *)
Definition room_to_read (st : qmgr) (msg : QMGR_MESSAGE) : Prop :=
  if m_rcpt_offset msg =? 0 then 0 < m_rcpt_limit msg \/ qmgr_recipient_count st < var_qmgr_rcpt_limit st
  else m_rcpt_count msg < m_rcpt_limit msg.

Lemma message_read_wp (read : Z -> option reading) m msg st : sound None None None st -> messages st !! m = Some msg -> room_to_read st msg ->
  (forall n rd, read n = Some rd -> 0 <= rd_offset rd) ->
  wp (qmgr_message_read read m) st (fun r st' => sound None None None st' /\ grows m st st' /\
    match r with
    | None => jobs st' = jobs st /\ transports st' = transports st /\ exists msg', messages st' = <[m := msg']> (messages st) /\
        m_job_list msg' = m_job_list msg /\ m_refcount msg' = m_refcount msg
    | Some l => exists n rd, read n = Some rd /\ l = rd_recipients rd end).
Proof.
  intros Hs Hm Hroom Hoff. pose proof (bk_offsets _ _ _ _ (proj2 (proj2 Hs)) _ _ (col_at m_rcpt_offset _ _ _ Hm)) as Ho.
  unfold qmgr_message_read. do 4 step. apply wp_bind, wp_panic_if.
  { unfold room_to_read in Hroom. destruct (Z.eqb_spec (m_rcpt_offset msg) 0); cbn [negb]; repeat case_match; lia. }
  step. set (st1 := put_message m msg0 st).
  destruct (message_reading_sound m msg msg0 st Hs Hm) as [Hs1 G1]; [done..|]. fold st1 in Hs1, G1.
  destruct (read _) as [rd|] eqn:Ef; [|step; do 2 (split; [done|]); split; [done|]; split; [done|]; by exists msg0]. apply wp_bind. eapply wp_upd_message; [apply lookup_insert_eq|]. cbn beta. step.
  set (msg1 := set_m_rcpt_unread _ _). destruct (message_reading_sound m msg0 msg1 st1 Hs1) as [Hs2 G2]; [apply lookup_insert_eq|done..|by eapply Hoff|].
  split; [done|]. split; [by etrans|]. by eexists _, rd.
Qed.

Section load.
Context (service : nat) (recipient_limit : nat -> Z) (file : queue_files) (sorted : list (option nat * Z) -> list (option nat * Z)).
(** Sorting does not make up recipients; transports are known before their recipients. *)
Context (Hsorted : forall l, sorted l ≡ₚ l).

Lemma message_load_wp m flush single_rcpt l st : sound None None None st -> is_Some (messages st !! m) -> is_Some (transports st !! service) ->
  (forall r, r ∈ l -> is_Some (transports st !! r_transport r)) ->
  wp (message_load service recipient_limit sorted m flush single_rcpt l) st (fun _ st' => sound None None None st' /\ grows m st st').
Proof using Hsorted.
  intros Hs Hm Hsv Hl. unfold message_load, qmgr_message_resolve. apply wp_bind. eapply wp_mono; [by apply (resolve_loop_wp service m)|].
  intros res st1 (Hs1 & G1 & A1). unfold qmgr_message_assign. apply wp_bind, wp_bind.
  eapply wp_mono; [apply assign_loop_wp; [done|by apply (gr_m _ _ _ G1)| |done|done]|].
  { intros q x Hin. rewrite Hsorted in Hin. by apply (A1 q x). }
  intros ? st2 (Hs2 & G2). assert (G02 : grows m st st2) by by etrans. destruct (gr_m _ _ _ G02 _ Hm) as [msg2 Hm2].
  apply wp_bind, (wp_get_message _ _ msg2); [done|]. eapply wp_mono; [apply (reset_caches_wp m); [done|]|].
  { intros j Hj. destruct (message_jobs_exist _ _ _ _ _ _ _ Hs2 Hm2 Hj) as (jb & ? & _). by exists jb. }
  intros ? st3 (Hs3 & G3). assert (G03 : grows m st st3) by by etrans. destruct (gr_m _ _ _ G03 _ Hm) as [msg3 Hm3].
  apply wp_bind, (wp_get_message _ _ msg3); [done|]. apply wp_if; intros _; [|by step].
  unfold qmgr_message_move_limits. apply wp_bind, (wp_get_message _ _ msg3); [done|].
  eapply wp_mono; [apply (move_limits_loop_wp m msg3); [done|done|]|].
  { intros j Hj. by apply (message_jobs_exist _ _ _ _ _ _ _ Hs3 Hm3 Hj). }
  intros ? st4 (Hs4 & G4). split; [done|by etrans].
Qed.

(** What the queue files name exists. *)
Definition file_ok (st : qmgr) : Prop := is_Some (transports st !! service) /\
  forall m offset read n rd, file m offset = Some read -> read n = Some rd -> 0 <= rd_offset rd /\
    forall r, r ∈ rd_recipients rd -> is_Some (transports st !! r_transport r).

Lemma file_ok_grows m st st' : grows m st st' -> file_ok st -> file_ok st'.
Proof using Type. intros Hg [H1 H2]. split; [by apply (gr_t _ _ _ Hg)|]. intros m1 o read n rd Hf Hn.
  destruct (H2 _ _ _ _ _ Hf Hn) as [H3 H4]. split; [done|]. intros r Hr. by apply (gr_t _ _ _ Hg), H4. Qed.

Lemma message_realloc_wp m msg flush single_rcpt st : sound None None None st -> file_ok st -> messages st !! m = Some msg ->
  0 < m_rcpt_offset msg -> m_rcpt_count msg < m_rcpt_limit msg ->
  wp (qmgr_message_realloc service recipient_limit file sorted m flush single_rcpt) st (fun _ st' => sound None None None st' /\ grows m st st').
Proof using Hsorted.
  intros Hs [Hsv Hf] Hm Ho Hc. unfold qmgr_message_realloc. step. apply wp_bind, wp_panic_if; [lia|].
  destruct (file m _) as [read|] eqn:Ef; [|by step].
  apply wp_bind. eapply wp_mono; [apply (message_read_wp read m msg); [done|done| |intros; by eapply Hf]|].
  { unfold room_to_read. by rewrite (proj2 (Z.eqb_neq _ _)) by lia. }
  intros [l|] st1 (Hs1 & G1 & Hr); [|by step]. destruct Hr as (n & rd & Erd & ->). apply wp_bind.
  eapply wp_mono; [apply message_load_wp; [done|apply (gr_m _ _ _ G1); by exists msg|by apply (gr_t _ _ _ G1)|]|].
  { intros r Hr. apply (gr_t _ _ _ G1). by eapply Hf. }
  intros ? st2 (Hs2 & G2). step. split; [done|by etrans].
Qed.
End load.

(** ** A new message *)

Section new_message.
Context (st : qmgr) (m : nat) (msg : QMGR_MESSAGE) (Hs : sound None None None st) (Hm : messages st !! m = None).
Context (Hid : forall x y, messages st !! x = Some y -> m_queue_id y <> m_queue_id msg).
Context (Hnew : mcounts msg = (0, 0)) (Hjobs : m_job_list msg = []) (Hoff : m_rcpt_offset msg = 0).
Let st' := put_message m msg st.

Lemma new_message_old j jb : jobs st !! j = Some jb -> j_message jb <> m.
Proof using Hs Hm. intros Hj E. destruct (wf_refs _ (wf_wf_core _ (proj1 Hs)) _ _ Hj) as [_ [y Hy]]. congruence. Qed.

Lemma new_message_lookup x y : messages st !! x = Some y -> messages st' !! x = Some y.
Proof using Hm. intros Hx. unfold st'. cbn. rewrite lookup_insert_ne; [done|]. congruence. Qed.

Lemma new_message_qtime j : qtime st' j = qtime st j.
Proof using Hs Hm.
  unfold qtime. change (jobs st') with (jobs st). destruct (jobs st !! j) as [jb|] eqn:Hj; [|done].
  unfold st'. cbn. rewrite lookup_insert_ne; [done|]. intros E. by apply (new_message_old j jb Hj).
Qed.

Lemma new_message_wf : wf st'.
Proof using All.
  destruct Hs as ([[W1 W2 W3 W4 W5 W6 W7 W8 W9 W10] Hcur Hcache] & _). split; [split|exact Hcur|exact Hcache]; try assumption.
  - intros j jb Hj. destruct (W1 _ _ Hj) as [? [y Hy]]. split; [done|]. exists y. by apply new_message_lookup.
  - intros t tr Ht. eapply sorted_ext_in; [|by apply (W4 t tr)]. intros a b _ _. unfold by_time. by rewrite !new_message_qtime.
  - intros t tr name j Ht Hn. destruct (W9 _ _ _ _ Ht Hn) as (jb & y & A1 & A2 & A3 & A4). exists jb, y. do 2 (split; [done|]).
    split; [by apply new_message_lookup|done].
  - intros m1 m2 msg1 msg2. unfold st'. cbn. rewrite !lookup_insert_dec. repeat case_decide; intros E1 E2 E3; simplify_eq; try done.
    + by apply Hid in E2.
    + by apply Hid in E1.
    + by eapply W10.
Qed.

Lemma new_message_sound : sound None None None st' /\ grows m st st'.
Proof using All.
  split.
  - destruct Hs as (_ & Hodd & H). split; [apply new_message_wf|]. split; [done|].
    assert (Hno : forall e en, (elink <$> entries st) !! e = Some en -> e_message en <> m).
    { intros e en He E. destruct (proj2 (bk_message_books _ _ _ _ H) _ _ He) as (c & (y & Hy & _)%col_inv). congruence. }
    assert (Hz : forall e en, (eload <$> entries st) !! e = Some en -> e_message en <> m).
    { intros e en (x & Hx & ->)%col_inv. cbn. apply (Hno e (elink x)). by apply col_at. }
    open_books H. split; unfold st'; cols; try assumption; rewrite ?Hnew, ?Hjobs.
    + destruct Bmsg as [B1 B2]. split.
      * intros x c. rewrite lookup_insert_dec. case_decide as Hd; [|apply B1]. intros [= <-]. subst x. cbn. rewrite count_none; [done|].
        intros e en He. by apply (Hno e).
      * intros e en He. rewrite lookup_insert_dec. case_decide; [by eexists|]. by apply (B2 e).
    + intros x c. rewrite lookup_insert_dec. case_decide as Hd; [|apply Brcpts]. intros [= <-]. subst x. cbn.
      rewrite (map_sum_ext _ (fun _ => 0)); [symmetry; apply map_sum_zero|]. intros e en He. rewrite decide_False; [done|]. by apply (Hz e).
    + intros x l j. rewrite lookup_insert_dec. case_decide as Hd; [|apply Bmjobs]. intros [= <-] ?%not_elem_of_nil. done.
    + intros j jl Hj. destruct (Bnames _ _ Hj) as (id & names & N1 & N2 & N3). exists id, names. split; [|done].
      rewrite lookup_insert_ne; [done|]. intros E. rewrite <- E, lookup_fmap, Hm in N1. done.
    + intros x o. rewrite lookup_insert_dec. case_decide; [rewrite Hoff; by intros [= <-]|apply Boffsets].
  - split; eauto.
    + intros x [y Hy]. exists y. by apply new_message_lookup.
    + by intros.
Qed.
End new_message.

(** ** A message that goes away *)

Lemma count_zero_none {A} (P : A -> Prop) `{!forall x, Decision (P x)} (m : gmap nat A) :
  map_sum (fun x => count_if (bool_decide (P x))) m = 0 -> forall i x, m !! i = Some x -> ~ P x.
Proof.
  intros Hz i x Hi Hp. assert (Hge : count_if (bool_decide (P x)) <= map_sum (fun x => count_if (bool_decide (P x))) m).
  { apply (map_sum_ge (fun x => count_if (bool_decide (P x))) m i x); [|done]. intros y. rewrite count_if_dec. case_decide; lia. }
  rewrite bool_decide_true in Hge by done. unfold count_if in Hge at 1. lia.
Qed.

Section gone_message.
Context (st : qmgr) (m : nat) (msg : QMGR_MESSAGE) (Hs : sound None None None st) (Hm : messages st !! m = Some msg).
Context (Hcount : m_refcount msg = 0) (Hjobs : forall j jb, jobs st !! j = Some jb -> j_message jb <> m).
Let st' := set_messages (delete m (messages st)) st.

Lemma no_references e en : entries st !! e = Some en -> e_message en <> m.
Proof using Hs Hm Hcount.
  intros He E. destruct Hs as (_ & _ & H). destruct (bk_message_books _ _ _ _ H) as [B1 _]. specialize (B1 _ _ (col_at mcounts _ _ _ Hm)).
  cbn in B1. rewrite Hcount, owed_none in B1.
  refine (count_zero_none (fun en => e_message en = m) (elink <$> entries st) _ e (elink en) _ _); [lia|by apply col_at|done].
Qed.

Lemma gone_message_lookup x y : x <> m -> messages st !! x = Some y -> messages st' !! x = Some y.
Proof using Type. intros Hne Hx. unfold st'. cbn. by rewrite lookup_delete_ne. Qed.

Lemma gone_message_qtime j : qtime st' j = qtime st j.
Proof using Hjobs.
  unfold qtime. change (jobs st') with (jobs st). destruct (jobs st !! j) as [jb|] eqn:Hj; [|done].
  unfold st'. cbn. rewrite lookup_delete_ne; [done|]. intros E. by apply (Hjobs j jb Hj).
Qed.

Lemma gone_message_sound : sound None None None st'.
Proof using Hs Hm Hcount Hjobs.
  pose proof no_references as Hno. destruct Hs as (Hwf & Hodd & H). split; [|split; [done|]].
  - destruct Hwf as [[W1 W2 W3 W4 W5 W6 W7 W8 W9 W10] Hcur Hcache]. split; [split|exact Hcur|exact Hcache]; try assumption.
    + intros j jb Hj. destruct (W1 _ _ Hj) as [? [y Hy]]. split; [done|]. exists y. apply gone_message_lookup; [by apply (Hjobs j jb)|done].
    + intros t tr Ht. eapply sorted_ext_in; [|by apply (W4 t tr)]. intros a b _ _. unfold by_time. by rewrite !gone_message_qtime.
    + intros t tr name j Ht Hn. destruct (W9 _ _ _ _ Ht Hn) as (jb & y & A1 & A2 & A3 & A4). exists jb, y. do 2 (split; [done|]).
      split; [apply gone_message_lookup; [by apply (Hjobs j jb)|done]|done].
    + intros m1 m2 msg1 msg2. unfold st'. cbn. rewrite !lookup_delete_dec. repeat case_decide; try done. apply W10.
  - open_books H. split; unfold st'; cols; try assumption.
    + destruct Bmsg as [B1 B2]. split.
      * intros x c. rewrite lookup_delete_dec. case_decide; [done|]. apply B1.
      * intros e en He. destruct (col_inv _ _ _ _ He) as (x & Hx & E). rewrite lookup_delete_ne; [by apply (B2 e)|]. rewrite E. intros E'. by apply (Hno _ _ Hx).
    + intros x c. rewrite lookup_delete_dec. case_decide; [done|]. apply Brcpts.
    + intros x l j. rewrite lookup_delete_dec. case_decide; [done|]. apply Bmjobs.
    + intros j jl Hj. destruct (Bnames _ _ Hj) as (id & names & N1 & N2 & N3). exists id, names. split; [|done].
      rewrite lookup_delete_ne; [done|]. destruct (col_inv _ _ _ _ Hj) as (jb & Hjb & ->). cbn. intros E. by apply (Hjobs _ _ Hjb).
    + intros x o. rewrite lookup_delete_dec. case_decide; [done|]. apply Boffsets.
Qed.
End gone_message.

(** A new message whose recipients could not be read goes away again. *)
Lemma free_unread st m msg msg2 st2 : sound None None None st -> messages st !! m = None -> m_job_list msg = [] -> m_refcount msg = 0 ->
  sound None None None st2 -> jobs st2 = jobs st -> transports st2 = transports st -> messages st2 = <[m := msg2]> (<[m := msg]> (messages st)) ->
  m_job_list msg2 = m_job_list msg -> m_refcount msg2 = m_refcount msg ->
  wp (qmgr_message_free m;; mret false) st2
    (fun b st' => sound None None None st' /\ (forall t, is_Some (transports st !! t) -> is_Some (transports st' !! t)) /\
       match b with true => is_Some (messages st' !! m) | false => messages st' = messages st end).
Proof.
  intros Hs Hm Hl0 Hc0 Hs2 J2 T2 M2 L2 C2. assert (Hm2 : messages st2 !! m = Some msg2) by (by rewrite M2, lookup_insert_eq).
  unfold qmgr_message_free. apply wp_bind, wp_bind, (wp_get_message _ _ msg2); [done|]. apply wp_bind, wp_panic_if; [by rewrite C2, Hc0|].
  rewrite L2, Hl0. cbn [length free_jobs]. apply wp_bind, wp_bind, (wp_get_message _ _ msg2); [done|]. rewrite L2, Hl0. cbn [head].
  do 2 step. split; [|split].
  - apply (gone_message_sound st2 m msg2); [done|done|by rewrite C2|]. rewrite J2. intros j jb Hj. by apply (new_message_old st m Hs Hm j).
  - intros t. st_cbn. by rewrite T2.
  - st_cbn. rewrite M2, insert_insert_eq. by apply delete_insert_id.
Qed.

Lemma message_alloc_wp service recipient_limit file sorted m queue_id rcpt_limit flush single_rcpt st :
  (forall l, sorted l ≡ₚ l) -> sound None None None st -> file_ok service file st -> messages st !! m = None ->
  (forall x y, messages st !! x = Some y -> m_queue_id y <> queue_id) -> 0 < rcpt_limit ->
  wp (qmgr_message_alloc service recipient_limit file sorted m queue_id rcpt_limit flush single_rcpt) st
    (fun b st' => sound None None None st' /\ (forall t, is_Some (transports st !! t) -> is_Some (transports st' !! t)) /\
       match b with true => is_Some (messages st' !! m) | false => messages st' = messages st end).
Proof.
  intros Hsorted Hs Hf Hm Hid Hlim. unfold qmgr_message_alloc. do 2 step.
  set (msg := mk_qmgr_message queue_id 0 (sane_time st) 0 0 0 rcpt_limit 0 []). set (st1 := put_message m msg st).
  assert (Hs1 : sound None None None st1 /\ grows m st st1) by (by apply new_message_sound). destruct Hs1 as [Hs1 G1].
  assert (Hm1 : messages st1 !! m = Some msg) by apply lookup_insert_eq.
  pose proof (file_ok_grows service file _ _ _ G1 Hf) as Hf1.
  destruct (file m 0) as [read|] eqn:Ef; [|by apply (free_unread st m msg msg); [..|apply symmetry, insert_insert_eq| |]].
  apply wp_bind. eapply wp_mono; [apply (message_read_wp read m msg); [done|done|by left|intros; by eapply (proj2 Hf)]|].
  intros [l|] st2 (Hs2 & G2 & Hr).
  - destruct Hr as (n & rd & Erd & ->). apply wp_bind. assert (G02 : grows m st st2) by by etrans.
    eapply wp_mono; [apply message_load_wp; [done|done|apply (gr_m _ _ _ G2); by exists msg|by apply (gr_t _ _ _ G02), Hf|]|].
    { intros r Hr. apply (gr_t _ _ _ G02). by eapply (proj2 Hf). }
    intros ? st3 (Hs3 & G3). step. split; [done|]. split; [intros t Ht; by apply (gr_t _ _ _ G3), (gr_t _ _ _ G02)|].
    apply (gr_m _ _ _ G3), (gr_m _ _ _ G2). by exists msg.
  - destruct Hr as (J2 & T2 & msg2 & M2 & L2 & C2). by apply (free_unread st m msg msg2).
Qed.
