(* ===== verification/QmgrSelect.v ===== *)
(** Selecting entries: qmgr_job_peer_select() and qmgr_job_entry_select() of qmgr_job.c,
    and qmgr_deliver() of qmgr_deliver.c (src/src/qmgr). *)

From S2P Require Export QmgrPreempt QmgrLoad.

(** ** Operations *)

Section operations.
(** As for loading (QmgrLoad.v); and of each message, whether its destinations are
    flushed and its recipients delivered one by one. *)
Context (service : nat) (recipient_limit : nat -> Z) (file : queue_files)
  (sorted : list (option nat * Z) -> list (option nat * Z)) (flush single_rcpt : nat -> bool).

Definition realloc (message : nat) : M unit :=
  qmgr_message_realloc service recipient_limit file sorted message (flush message) (single_rcpt message);; mret tt.

(** There is enough room for recipients, or some room for a while. *)
Definition refill_due (now : Z) (msg : QMGR_MESSAGE) (tr : QMGR_TRANSPORT) : bool :=
  negb (m_rcpt_offset msg =? 0) && (m_refcount msg >? 0) &&
  ((m_rcpt_limit msg - m_rcpt_count msg >=? t_refill_limit tr) ||
   ((m_rcpt_limit msg >? m_rcpt_count msg) && (now - m_refill_time msg >=? t_refill_delay tr))).
Definition last_chance (msg : QMGR_MESSAGE) : bool :=
  negb (m_rcpt_offset msg =? 0) && (m_refcount msg >? 0) && (m_rcpt_limit msg >? m_rcpt_count msg).

Definition select_if_any (job : nat) : M (option nat) :=
  jb ← get_job job;
  if HAS_ENTRIES jb then qmgr_peer_select job else mret None.

Definition qmgr_job_peer_select (job : nat) : M (option nat) :=
  jb ← get_job job;
  let message := j_message jb in
  msg ← get_message message;
  tr ← get_transport (j_transport jb);
  now ← gets sane_time;
  (if refill_due now msg tr then realloc message else mret tt);;
  peer ← select_if_any job;
  match peer with
  | Some peer => mret (Some peer)
  | None =>
      msg ← get_message message;
      if last_chance msg then realloc message;; select_if_any job else mret None
  end.

(** The queues of the waiting entries of a job. *)
Fixpoint mark_queues (blocker_tag : Z) (l : list nat) : M unit :=
  match l with
  | [] => mret tt
  | peer :: l =>
      pe ← get_peer peer;
      (if bool_decide (p_entry_list pe = []) then mret tt
       else upd_queue (p_queue pe) (set_q_blocker_tag blocker_tag));;
      mark_queues blocker_tag l
  end.
Definition mark_blocker (transport job : nat) : M unit :=
  tr ← get_transport transport;
  upd_job job (set_j_blocker_tag (t_blocker_tag tr));;
  jb ← get_job job;
  mark_queues (t_blocker_tag tr) (j_peer_list jb).

Definition retire_if_done (job : nat) : M unit :=
  jb ← get_job job;
  msg ← get_message (j_message jb);
  if negb (HAS_ENTRIES jb) && (m_rcpt_offset msg =? 0) then qmgr_job_retire job else mret tt.

(** The loop of qmgr_job_entry_select(); [now] is event_time(). Each round leaves the
    rest of the job list alone, so that the length of the list is enough fuel. *)
Fixpoint select_loop (fuel : nat) (transport : nat) (now : Z) (job : option nat) : M (option nat) :=
  match job with
  | None => upd_transport transport (set_t_job_current None);; mret None
  | Some job =>
      match fuel with
      | O => deref None
      | S fuel =>
          tr ← get_transport transport;
          let next := next_in job (t_job_list tr) in
          jb ← get_job job;
          if IS_BLOCKER jb tr then select_loop fuel transport now next
          else
            peer ← qmgr_job_peer_select job;
            match peer with
            | Some peer =>
                entry ← qmgr_entry_select peer now;
                qmgr_job_count_slots job;;
                upd_transport transport (set_t_job_current (Some job));;
                retire_if_done job;;
                mret entry
            | None =>
                jb ← get_job job;
                (if HAS_ENTRIES jb then mark_blocker transport job else qmgr_job_retire job);;
                select_loop fuel transport now next
            end
      end
  end.

Definition qmgr_job_entry_select (transport : nat) (now : Z) : M (option nat) :=
  tr ← get_transport transport;
  match t_job_current tr with
  | None => mret None
  | Some job =>
      job ← (if t_slot_cost tr >=? 2 then qmgr_job_preempt job else mret job);
      tr ← get_transport transport;
      select_loop (length (t_job_list tr)) transport now (Some job)
  end.

(** qmgr_deliver(): whether the delivery process is there and happy, and whether it took
    the request. The result has the messages for which qmgr_active_done() is called. *)
Definition qmgr_deliver (transport : nat) (available sent : bool) (now : Z) : M (list nat) :=
  if available then
    entry ← qmgr_job_entry_select transport now;
    match entry with
    | None => mret []
    | Some entry => deliver_entry service transport entry sent now
    end
  else deliver_unavailable service transport now.
End operations.

(** ** Room for deliveries *)

(** Every destination has fewer deliveries than there can ever be. *)
Definition spare (st : qmgr) : Prop := forall q qu, queues st !! q = Some qu -> size_of (q_busy qu) < MAX_BUSY.
Definition spares (st st' : qmgr) : Prop := spare st -> spare st'.
#[export] Instance spares_preorder : PreOrder spares.
Proof. split; [intros st H; exact H|]. intros s1 s2 s3 H1 H2 H. apply H2, H1, H. Qed.

Lemma spares_same st st' : queues st' = queues st -> spares st st'.
Proof. intros E H. unfold spare. rewrite E. exact H. Qed.
Lemma spares_put q qu' st : q_busy qu' = [] \/ (exists qu, queues st !! q = Some qu /\ q_busy qu' = q_busy qu) -> spares st (put_queue q qu' st).
Proof.
  intros H Hs x xu. cbn. rewrite lookup_insert_dec. case_decide as Hd; [|apply Hs]. intros [= <-]. subst x.
  destruct H as [-> | (qu & Hq & ->)]; [unfold size_of, MAX_BUSY; cbn; lia|]. by apply (Hs q).
Qed.

Lemma room_widen {A} q fuel h fb (k : QMGR_QUEUE -> M A) : (forall qu, keeps spares (k qu)) ->
  keeps spares (qu ← get_queue q; qu ← deref (widen_loop fuel h fb qu); upd_queue q (fun _ => qu);; k qu).
Proof.
  intros Hk st a st' H. apply bind_inv in H as (qu & st1 & H1 & H). unfold get_queue, deref in H1.
  destruct (queues st !! q) as [x|] eqn:Hq; [|done]. injection H1 as -> <-. apply bind_inv in H as (qu' & st1 & H1 & H).
  unfold deref in H1. destruct (widen_loop fuel h fb qu) as [x|] eqn:Hw; [|done]. injection H1 as -> <-. apply bind_inv in H as (u & st1 & H1 & H).
  unfold upd_queue in H1. rewrite Hq in H1. injection H1 as _ <-. etrans; [|by eapply Hk]. apply spares_put. right. exists qu. split; [done|]. clear -Hw. revert qu Hw.
  induction fuel as [|fuel IH]; intros qu; cbn [widen_loop]; [done|]. case_match; [|by intros [= <-]]. intros E. by rewrite (IH _ E).
Qed.

Create HintDb room.
Ltac keep_room :=
  repeat first
    [ progress intros
    | solve [eauto 1 with room nocore]
    | apply room_widen | apply (keeps_bind spares) | apply (keeps_ret spares) | apply (keeps_panic_if spares) | apply (keeps_gets spares)
    | apply (keeps_deref spares)
    | apply keeps_modify; intros; apply spares_same; reflexivity | apply keeps_alloc; intros; apply spares_same; reflexivity
    | apply keeps_upd_job; intros; apply spares_same; reflexivity | apply keeps_upd_message; intros; apply spares_same; reflexivity
    | apply keeps_upd_transport; intros; apply spares_same; reflexivity | apply keeps_upd_entry; intros; apply spares_same; reflexivity
    | apply keeps_upd_peer; intros; apply spares_same; reflexivity
    | apply keeps_upd_queue; intros; apply spares_put; right; eexists; split; [eassumption|reflexivity]
    | case_match
    | progress cbv zeta ].

Lemma room_queue_unthrottle q : keeps spares (qmgr_queue_unthrottle q).
Proof. unfold qmgr_queue_unthrottle. keep_room. Qed.
Lemma room_transport_unthrottle t : keeps spares (qmgr_transport_unthrottle t).
Proof. unfold qmgr_transport_unthrottle. keep_room. Qed.
#[export] Hint Resolve room_queue_unthrottle room_transport_unthrottle : room.

Lemma room_queue_create t name : keeps spares (qmgr_queue_create t name).
Proof.
  unfold qmgr_queue_create. keep_room. apply keeps_modify. intros st. apply spares_put. by left.
Qed.
#[export] Hint Resolve room_queue_create : room.
Lemma room_error_queue x name : keeps spares (qmgr_error_queue x name).
Proof. unfold qmgr_error_queue, qmgr_error_transport, qmgr_queue_find. keep_room. Qed.
#[export] Hint Resolve room_error_queue : room.

Lemma room_next_unread l : keeps spares (next_unread_from l).
Proof. induction l as [|x l IH]; cbn [next_unread_from]; keep_room; done. Qed.
Lemma room_list_scan qt l cur : keeps spares (job_list_scan qt l cur).
Proof. revert cur. induction l as [|x l IH]; intros cur; cbn [job_list_scan]; keep_room; apply IH. Qed.
Lemma room_bytime_scan qt l cur : keeps spares (job_bytime_scan qt l cur).
Proof. revert cur. induction l as [|x l IH]; intros cur; cbn [job_bytime_scan]; keep_room; apply IH. Qed.
#[export] Hint Resolve room_next_unread room_list_scan room_bytime_scan : room.
Lemma room_move_limits job : keeps spares (qmgr_job_move_limits job).
Proof. unfold qmgr_job_move_limits. keep_room. Qed.
#[export] Hint Resolve room_move_limits : room.
Lemma room_job_obtain message transport : keeps spares (qmgr_job_obtain message transport).
Proof. unfold qmgr_job_obtain, qmgr_job_find, qmgr_job_create, qmgr_job_link, RESET_CANDIDATE_CACHE. keep_room. Qed.
Lemma room_peer_obtain job queue : keeps spares (qmgr_peer_obtain job queue).
Proof. unfold qmgr_peer_obtain, qmgr_peer_find, qmgr_peer_create. keep_room. Qed.
Lemma room_entry_create peer message : keeps spares (qmgr_entry_create peer message).
Proof. unfold qmgr_entry_create. keep_room. Qed.
#[export] Hint Resolve room_job_obtain room_peer_obtain room_entry_create : room.

Section room.
Context (service : nat) (recipient_limit : nat -> Z) (file : queue_files)
  (sorted : list (option nat * Z) -> list (option nat * Z)) (flush single_rcpt : nat -> bool).

Lemma room_resolve b t q l : keeps spares (resolve_loop service b t q l).
Proof using Type.
  revert t q. induction l as [|r l IH]; intros t q; cbn [resolve_loop]; [keep_room|].
  apply (keeps_bind spares); [|intros [? []]; keep_room; apply IH]. unfold resolve_one, live_transport, qmgr_error_transport, same_name, qmgr_queue_find. keep_room.
Qed.
Lemma room_assign message b job peer l : keeps spares (assign_loop recipient_limit message b job peer l).
Proof using Type.
  revert job peer. induction l as [|[[q|] r] l IH]; intros job peer; cbn [assign_loop]; [keep_room| |apply IH].
  unfold assign_entry. keep_room; apply IH.
Qed.
Lemma room_caches l : keeps spares (reset_caches l).
Proof using Type. induction l as [|j l IH]; cbn [reset_caches]; unfold RESET_CANDIDATE_CACHE; keep_room; apply IH. Qed.
Lemma room_limits l : keeps spares (move_limits_loop l).
Proof using Type. induction l as [|j l IH]; cbn [move_limits_loop]; keep_room; apply IH. Qed.
Hint Resolve room_resolve room_assign room_caches room_limits : room.

(** Reading recipients starts no deliveries. *)
Lemma room_realloc message : keeps spares (realloc service recipient_limit file sorted flush single_rcpt message).
Proof using Type.
  unfold realloc, qmgr_message_realloc, qmgr_message_read, message_load, qmgr_message_resolve, qmgr_message_assign, qmgr_message_move_limits. keep_room.
Qed.
End room.

(** ** Choosing a peer *)

(** The peers of a job, and their queues. *)
Lemma job_peers np dp dm st job jb p : sound np dp dm st -> jobs st !! job = Some jb -> p ∈ j_peer_list jb ->
  exists pe qu, peers st !! p = Some pe /\ p_job pe = job /\ queues st !! p_queue pe = Some qu.
Proof.
  intros (_ & _ & H) Hj Hp. destruct (bk_peer_jobs _ _ _ _ H) as [H1 H2].
  destruct (proj1 (proj2 (H2 _ _ (col_at jpeers _ _ _ Hj))) _ Hp) as (pl & Hpl & Ej).
  destruct (H1 _ _ Hpl) as (_ & _ & n & _ & _ & (qu & Hq & _)%col_inv & _).
  apply col_inv in Hpl as (pe & Hpe & ->). by exists pe, qu.
Qed.

(** Another order of the peers of a job. *)
Lemma rotated_sound np dp dm st job jb l : sound np dp dm st -> jobs st !! job = Some jb -> l ≡ₚ j_peer_list jb ->
  sound np dp dm (put_job job (set_j_peer_list l jb) st) /\ quiet st (put_job job (set_j_peer_list l jb) st).
Proof.
  intros (Hwf & Hodd & H) Hj Hl. set (jb' := set_j_peer_list l jb). set (st' := put_job job jb' st).
  assert (Hquiet : quiet st st') by (split; unfold st'; cols; done).
  split; [|done]. split; [by eapply quiet_wf|]. split; [by eapply quiet_tags|]. open_books H. split; unfold st'; cols; try assumption.
  destruct Bpjobs as [B1 B2]. pose proof (col_at jpeers _ _ _ Hj) as Hjp. split.
  - intros p pl Hpl. destruct (B1 _ _ Hpl) as (jl & jp & n & C1 & C2 & C3 & C4 & C5 & C6). exists jl.
    rewrite lookup_insert_dec. case_decide as Hd; [|by exists jp, n]. exists (jpeers jb'), n. do 3 (split; [done|]).
    rewrite <- Hd, Hjp in C2. injection C2 as <-. split; [done|]. split; [|done]. cbn. by rewrite Hl.
  - intros j jp. rewrite lookup_insert_dec. case_decide as Hd; [|apply B2]. intros [= <-]. subst j.
    destruct (B2 _ _ Hjp) as (C1 & C2 & C3). split; [cbn; by rewrite Hl|]. split; [|done].
    intros p Hp. apply C2. cbn in *. by rewrite <- Hl.
Qed.

(** A peer with an entry to deliver, and a destination with room for it. *)
Definition selectable (st : qmgr) (job peer : nat) : Prop := exists pe qu e l, peers st !! peer = Some pe /\ p_job pe = job /\
  p_entry_list pe = e :: l /\ queues st !! p_queue pe = Some qu /\ q_busy_refcount qu < q_window qu.

Lemma peer_scan_wp np dp dm job jb st l : sound np dp dm st -> jobs st !! job = Some jb -> (forall p, p ∈ l -> p ∈ j_peer_list jb) ->
  wp (peer_scan job l) st (fun r st' => match r with
    | None => st' = st
    | Some p => selectable st' job p /\ exists l', l' ≡ₚ j_peer_list jb /\ st' = put_job job (set_j_peer_list l' jb) st end).
Proof.
  intros Hs Hj. induction l as [|p l IH]; intros Hl; cbn [peer_scan]; [by step|].
  destruct (job_peers _ _ _ _ _ _ p Hs Hj) as (pe & qu & Hp & Ej & Hq); [apply Hl; by left|]. do 2 step. apply wp_if; intros E.
  - apply andb_prop in E as [E1 E2]. apply negb_true_iff, bool_decide_eq_false in E2. do 2 step. split.
    + destruct (p_entry_list pe) as [|e l'] eqn:El; [done|]. exists pe, qu, e, l'. do 4 (split; [done|]). lia.
    + eexists. split; [|done]. apply list_rotate_perm, Hl. by left.
  - apply IH. intros x Hx. apply Hl. by right.
Qed.

Lemma quiet_grows_jobs m st j jb jb' : quiet st (put_job j jb' st) -> jobs st !! j = Some jb -> jlink jb' = jlink jb -> grows m st (put_job j jb' st).
Proof.
  intros Hq Hj El. apply grows_quiet; [done|eauto| |eauto|eauto]. cbn. rewrite fmap_insert. apply insert_id. by rewrite El, lookup_fmap, Hj.
Qed.

(** ** The rest of the job list *)

Definition rest_of (job : nat) (l : list nat) : list nat := filter (.≠ job) l.
Lemma rest_unlink job l : rest_of job (list_unlink job l) = rest_of job l.
Proof.
  unfold rest_of. destruct (decide (job ∈ l)) as [Hin|Hin]; [|by rewrite list_unlink_not_in].
  rewrite (before_after _ _ Hin) at 2. unfold list_unlink. rewrite !filter_app, filter_cons_False by auto. done.
Qed.
Lemma rest_not_in job l : job ∉ l -> rest_of job l = l.
Proof.
  unfold rest_of. induction l as [|x l IH]; [done|]. intros [Hn Hi]%not_elem_of_cons. rewrite filter_cons_True by congruence. by rewrite IH.
Qed.

(** The job after this one stays, and fewer jobs come after it. *)
Lemma next_stays job l l' next : NoDup l -> next_in job l = Some next -> l' = l \/ l' = rest_of job l ->
  next ∈ l' /\ (length (after next l') < length (after job l))%nat.
Proof.
  intros Hnd Hn Hl'. assert (Hin : job ∈ l).
  { destruct (decide (job ∈ l)) as [|Hni]; [done|]. unfold next_in in Hn. by rewrite (proj1 (not_in_after _ _ Hni)) in Hn. }
  unfold next_in in Hn. set (a := before job l) in *. set (b := after job l) in *. assert (El : l = a ++ job :: b) by (by apply before_after).
  destruct b as [|x b']; [done|]. injection Hn as ->. rewrite El in Hnd. apply NoDup_app in Hnd as (Na & Nd & Nb).
  apply NoDup_cons in Nb as [Nj Nb]. apply not_elem_of_cons in Nj as [Nj1 Nj2]. pose proof Nb as [Nn _]%NoDup_cons.
  assert (Hna : next ∉ a) by (intros Ha; apply (Nd _ Ha); right; by left).
  assert (Hja : job ∉ a) by (intros Ha; apply (Nd _ Ha); by left).
  destruct Hl' as [-> | ->]; rewrite El.
  - change (a ++ job :: next :: b') with (a ++ [job] ++ next :: b'). rewrite app_assoc. split; [apply elem_of_app; right; by left|].
    rewrite (proj2 (before_after_mid next (a ++ [job]) b' ltac:(rewrite not_elem_of_app, list_elem_of_singleton; auto))). cbn. lia.
  - unfold rest_of. rewrite filter_app, filter_cons_False by auto. fold (rest_of job a) (rest_of job (next :: b')).
    rewrite !rest_not_in by (rewrite ?not_elem_of_cons; auto). split; [apply elem_of_app; right; by left|].
    rewrite (proj2 (before_after_mid next a b' Hna)). cbn. lia.
Qed.

Definition same_rest (t job : nat) (st st' : qmgr) : Prop :=
  rest_of job ∘ t_job_list <$> transports st' !! t = rest_of job ∘ t_job_list <$> transports st !! t.
#[export] Instance same_rest_preorder t job : PreOrder (same_rest t job).
Proof. split; [done|]. intros s1 s2 s3 H1 H2. unfold same_rest in *. congruence. Qed.
Lemma same_rest_put t job x tr tr' st : transports st !! x = Some tr -> rest_of job (t_job_list tr') = rest_of job (t_job_list tr) ->
  same_rest t job st (put_transport x tr' st).
Proof. intros Hx E. unfold same_rest. cbn. rewrite lookup_insert_dec. case_decide as Hd; [|done]. subst x. rewrite Hx. cbn. by rewrite E. Qed.

Ltac keep_rest :=
  repeat first
    [ progress intros
    | apply (keeps_bind (same_rest _ _)) | apply (keeps_ret (same_rest _ _)) | apply (keeps_panic_if (same_rest _ _))
    | apply (keeps_gets (same_rest _ _)) | apply (keeps_deref (same_rest _ _))
    | apply keeps_upd_job; reflexivity | apply keeps_upd_message; reflexivity
    | apply keeps_upd_transport; intros; eapply same_rest_put; [eassumption|first [reflexivity|apply rest_unlink]]
    | case_match
    | progress cbv zeta ].

Lemma rest_parent_gone t j job parent l : keeps (same_rest t j) (parent_gone_loop job parent l).
Proof. induction l as [|c l IH]; cbn [parent_gone_loop]; keep_rest; apply IH. Qed.
Lemma rest_next_unread t j l : keeps (same_rest t j) (next_unread_from l).
Proof. induction l as [|x l IH]; cbn [next_unread_from]; keep_rest; done. Qed.

(** Retiring a job takes nothing else off the list. *)
Lemma rest_retire t job : keeps (same_rest t job) (qmgr_job_retire job).
Proof.
  unfold qmgr_job_retire, qmgr_job_pop, qmgr_job_move_limits, qmgr_job_unlink, stack_siblings_next, RESET_CANDIDATE_CACHE.
  keep_rest; first [apply rest_parent_gone|apply rest_next_unread|unfold stack_siblings_next; keep_rest].
Qed.

(** Transports are never dropped. *)
Definition more (st st' : qmgr) : Prop := forall t, is_Some (transports st !! t) -> is_Some (transports st' !! t).
#[export] Instance more_preorder : PreOrder more.
Proof. split; [by intros st t|]. intros s1 s2 s3 H1 H2 t H. by apply H2, H1. Qed.
Lemma steady_more st st' : steady st st' -> more st st'.
Proof. intros Hst t [tr Ht]. destruct (col_some _ _ _ _ _ (eq_sym (lk_t _ _ (proj1 Hst))) Ht) as (tr' & ? & _). by exists tr'. Qed.
Lemma quiet_more st st' : quiet st st' -> more st st'.
Proof. intros Hq t [tr Ht]. destruct (col_some _ _ _ _ _ (eq_sym (qt_t _ _ Hq)) Ht) as (tr' & ? & _). by exists tr'. Qed.

Section ready.
Context (service : nat) (file : queue_files).

Lemma file_ok_more st st' : more st st' -> file_ok service file st -> file_ok service file st'.
Proof using Type.
  intros Ht [H1 H2]. split; [by apply Ht|]. intros m o read n rd Hf Hn. destruct (H2 _ _ _ _ _ Hf Hn) as [H3 H4]. split; [done|]. intros r Hr. by apply Ht, H4.
Qed.

(** The states between the steps of a selection. *)
Record ready (st : qmgr) : Prop := mk_ready {
  rdy_sound : sound None None None st;
  rdy_file : file_ok service file st;
  rdy_spare : spare st
}.

(** Scheduling steps. *)
Lemma kept_ready st st' : ready st -> kept st st' -> ready st' /\ steady st st'.
Proof using Type.
  intros [H1 H2 H3] Hk. destruct (kept_sound _ _ _ _ _ Hk H1) as [H1' Hst]. split; [|done]. split; [done| |].
  - apply (file_ok_more st); [by apply steady_more|done].
  - apply (spares_same st); [|done]. destruct Hk as (_ & _ & [_ _ _ Ho]). unfold others in Ho. by injection Ho.
Qed.

Lemma retire_ready_wp job jb tr st : ready st -> jobs st !! job = Some jb -> transports st !! j_transport jb = Some tr -> 0 <= j_stack_level jb ->
  wp (qmgr_job_retire job) st (fun _ st' => ready st' /\ steady st st' /\ exists tr', transports st' !! j_transport jb = Some tr' /\
    t_job_list tr' = rest_of job (t_job_list tr)).
Proof using Type.
  intros Hr Hj Ht Hl. pose proof (rdy_sound _ Hr) as (Hwf & _). destruct (wf_refs _ (wf_wf_core _ Hwf) _ _ Hj) as [_ [msg Hm]].
  eapply wp_mono; [apply (wp_keeps (same_rest (j_transport jb) job)); [apply rest_retire|by apply (retire_ok job jb msg)]|].
  intros ? st' [(H1 & H2 & H3 & _ & jb' & Hj' & Hlv & _) Hrest]. assert (Hk : kept st st') by by split_and!.
  destruct (kept_ready _ _ Hr Hk) as [Hr' Hst]. split; [done|]. split; [done|].
  unfold same_rest in Hrest. rewrite Ht in Hrest. destruct (transports st' !! j_transport jb) as [tr'|] eqn:Ht'; [|done]. injection Hrest as E.
  cbn in E. exists tr'. split; [done|]. rewrite <- E, rest_not_in; [done|]. intros Hin.
  apply (wf_lists _ (wf_wf_core _ H1) _ _ Ht') in Hin as (x & Hx & _ & Hlx). assert (x = jb') as -> by congruence. lia.
Qed.

(** Marking blockers. *)
Lemma tagged_queue_ready q qu tag st : ready st -> queues st !! q = Some qu -> ready (put_queue q (set_q_blocker_tag tag qu) st).
Proof using Type.
  intros [(Hwf & Hodd & H) H2 H3] Hq. set (st' := put_queue _ _ st). assert (Hquiet : quiet st st') by done. split; [|done|].
  - split; [by eapply quiet_wf|]. split; [by eapply quiet_tags|]. open_books H. split; unfold st'; cols; done.
  - apply (spares_put q); [|done]. right. by exists qu.
Qed.
Lemma tagged_job_ready j jb tag st : ready st -> jobs st !! j = Some jb -> ready (put_job j (set_j_blocker_tag tag jb) st).
Proof using Type.
  intros [(Hwf & Hodd & H) H2 H3] Hj. set (st' := put_job _ _ st). assert (Hquiet : quiet st st') by (split; unfold st'; cols; done). split; [|done|done].
  split; [by eapply quiet_wf|]. split; [by eapply quiet_tags|]. open_books H. split; unfold st'; cols; done.
Qed.

Lemma mark_queues_wp tag l : forall st, ready st -> (forall p, p ∈ l -> exists pe, peers st !! p = Some pe /\ is_Some (queues st !! p_queue pe)) ->
  wp (mark_queues tag l) st (fun _ st' => ready st' /\ transports st' = transports st).
Proof using Type.
  induction l as [|p l IH]; intros st Hr Hl; cbn [mark_queues]; [by step|]. destruct (Hl p) as (pe & Hp & [qu Hq]); [by left|]. step. apply wp_bind.
  apply (wp_mono _ _ (fun _ st1 => ready st1 /\ transports st1 = transports st /\ peers st1 = peers st /\ forall q, is_Some (queues st !! q) -> is_Some (queues st1 !! q))).
  { case_match; [by step|]. step. split; [by apply tagged_queue_ready|]. do 2 (split; [done|]). intros q Hx. st_cbn. rewrite lookup_insert_dec. case_decide; [by eexists|done]. }
  intros ? st1 (Hr1 & T1 & P1 & Q1). eapply wp_mono; [apply IH; [done|]|].
  - intros x Hx. destruct (Hl x) as (pe' & Hp' & Hq'); [by right|]. exists pe'. rewrite P1. split; [done|by apply Q1].
  - intros ? st2 (Hr2 & T2). split; [done|congruence].
Qed.

Lemma mark_blocker_wp t job jb st : ready st -> is_Some (transports st !! t) -> jobs st !! job = Some jb ->
  wp (mark_blocker t job) st (fun _ st' => ready st' /\ transports st' = transports st).
Proof using Type.
  intros Hr [tr Ht] Hj. unfold mark_blocker. do 2 step. pose proof (tagged_job_ready _ _ (t_blocker_tag tr) _ Hr Hj) as Hr1. fold jb0 in Hr1. step.
  eapply wp_mono; [apply mark_queues_wp; [done|]|by intros].
  intros p Hp. destruct (job_peers _ _ _ _ _ _ p (rdy_sound _ Hr) Hj Hp) as (pe & qu & Hpe & _ & Hq). exists pe. split; [done|by exists qu].
Qed.

(** ** Choosing an entry *)

(** What a selection returns: an entry for the transport that is about to be delivered;
    its destination is within its concurrency window. *)
Definition chosen (t : nat) (st : qmgr) (e : nat) : Prop := exists en qu, entries st !! e = Some en /\ e_stream en = false /\
  queues st !! e_queue en = Some qu /\ e ∈ q_busy qu /\ q_transport qu = t /\ q_busy_refcount qu <= q_window qu.
Lemma chosen_busy t st e : chosen t st e -> on_busy st e /\ forall en, entries st !! e = Some en -> e_stream en = false.
Proof using Type.
  intros (en & qu & He & Hs & Hq & Hin & _). split; [by exists en, qu|]. intros en' He'. congruence.
Qed.

Lemma kept_chosen t st st' e : kept st st' -> chosen t st e -> chosen t st' e.
Proof using Type.
  intros (_ & _ & [_ _ _ Ho]) (en & qu & H). unfold others in Ho. injection Ho as E1 E2 _ _ _ _ _ _ _ _ _ _. exists en, qu. by rewrite E1, E2.
Qed.

(** The entry is selected, counted, and the job is remembered, or retired. *)
Lemma take_entry_wp t now job jb peer st : ready st -> jobs st !! job = Some jb -> j_transport jb = t -> 0 <= j_stack_level jb -> selectable st job peer ->
  wp (entry ← qmgr_entry_select peer now; qmgr_job_count_slots job;; upd_transport t (set_t_job_current (Some job));; retire_if_done job;; mret entry) st
    (fun r st' => sound None None None st' /\ more st st' /\ exists e, r = Some e /\ chosen t st' e).
Proof using Type.
  intros Hr Hj Et Hl (pe & qu & e & l & Hp & Ej & El & Hq & Hw). pose proof (rdy_sound _ Hr) as Hs. pose proof Hs as (_ & _ & H).
  assert (Hin : e ∈ p_entry_list pe) by (rewrite El; by left).
  destruct (proj1 (proj2 (bk_peer_lists _ _ _ _ H _ _ (col_at pload _ _ _ Hp)) e) Hin) as (x & lq & (en & He & ->)%col_inv & Ep & Hlq & Htodo).
  cbn in Ep, Hlq. destruct (entry_placed _ _ _ _ _ _ Hs He) as (pe0 & qu0 & jb0 & msg & tr & [P1 P2 P3 P4 P5 P6 P7 P8]).
  rewrite Ep, Hp in P1. injection P1 as <-. rewrite <- P3, Hq in P2. injection P2 as <-.
  assert (Hmax : q_busy_refcount qu < MAX_BUSY).
  { pose proof (rdy_spare _ Hr _ _ Hq) as Hsp. pose proof (bk_queue_counts _ _ _ _ H _ _ _ (col_at qlists _ _ _ Hq) (col_at qcontrol _ _ _ Hq)) as [_ C].
    cbn in C. by rewrite C. }
  apply wp_bind. eapply wp_mono; [apply (entry_select_wp peer pe e l en qu); try done; by rewrite <- P3|].
  intros r st1 (-> & Hs1 & E1 & Hquiet & qu1 & Hq1 & Hin1 & Et1' & Ew1 & Eb1).
  destruct (col_some _ _ _ _ _ (eq_sym (qt_j _ _ Hquiet)) Hj) as (jb1 & Hj1 & [= Em1 Et1 _ _ El1]).
  assert (Hc1 : chosen t st1 e).
  { exists en, qu1. rewrite E1. split; [done|]. split; [exact (bk_streams _ _ _ _ H _ _ _ He Hlq Htodo)|]. split; [done|].
    split; [done|]. split; [|lia]. rewrite Et1', P8. rewrite Ej, Hj in P4. by injection P4 as <-. }
  destruct (wf_refs _ (wf_wf_core _ (proj1 Hs1)) _ _ Hj1) as [[tr1 Ht1] _].
  apply wp_bind. eapply wp_mono; [apply (count_slots_step job jb1 tr1); [apply Hs1|done|done]|].
  intros ? st2 [Hk2 J2]. destruct (kept_sound _ _ _ _ _ Hk2 Hs1) as [Hs2 S2]. set (jb2 := set_j_slots_used _ _) in J2.
  assert (Hj2 : jobs st2 !! job = Some jb2) by (rewrite J2; apply lookup_insert_eq). assert (Et2 : j_transport jb2 = t) by (cbn; congruence).
  destruct (wf_refs _ (wf_wf_core _ (proj1 Hs2)) _ _ Hj2) as [[tr2 Ht2] [msg2 Hm2]]. rewrite Et2 in Ht2.
  (* the job is remembered *)
  step. set (st3 := put_transport t tr0 st2).
  assert (Hon : job ∈ t_job_list tr2).
  { apply (wf_lists _ (wf_wf_core _ (proj1 Hs2)) _ _ Ht2). exists jb2. split; [done|]. split; [done|]. cbn. lia. }
  assert (Hk3 : kept st2 st3).
  { apply (kept_put_cursors st2 t tr2); try done; [by left|by intros ? [= <-]| |apply Hs2]. apply (wf_wf_cursors _ (proj1 Hs2) _ _ Ht2). }
  destruct (kept_sound _ _ _ _ _ Hk3 Hs2) as [Hs3 S3]. assert (S13 : steady st1 st3) by by etrans.
  apply wp_bind. apply (wp_mono _ _ (fun _ st4 => sound None None None st4 /\ steady st3 st4 /\ kept st3 st4)).
  { unfold retire_if_done. do 2 step. apply wp_if; intros _; [|step; split; [done|]; split; [done|]; apply kept_refl, Hs3].
    eapply wp_mono; [apply (retire_ok job jb2 msg2); [apply Hs3|done|done|cbn; lia]|].
    intros ? st4 (H1 & H2 & H3 & _). assert (Hk4 : kept st3 st4) by by split_and!. destruct (kept_sound _ _ _ _ _ Hk4 Hs3). by split_and!. }
  intros ? st4 (Hs4 & S4 & Hk4). step. split; [done|]. split; [|exists e; split; [done|]; apply (kept_chosen _ st3); [done|]; apply (kept_chosen _ st2); [done|]; by apply (kept_chosen _ st1)].
  etrans; [by apply quiet_more|]. etrans; by apply steady_more.
Qed.
End ready.

(** ** Selection *)

Section select.
Context (service : nat) (recipient_limit : nat -> Z) (file : queue_files)
  (sorted : list (option nat * Z) -> list (option nat * Z)) (flush single_rcpt : nat -> bool).
Context (Hsorted : forall l, sorted l ≡ₚ l).
Local Notation with_files f := (f service recipient_limit file sorted flush single_rcpt) (only parsing).

Local Notation ready := (ready service file).

Lemma select_if_any_wp m job jb st : ready st -> jobs st !! job = Some jb ->
  wp (select_if_any job) st (fun r st' => ready st' /\ grows m st st' /\ forall p, r = Some p -> selectable st' job p).
Proof using Type.
  intros [H1 H2 H3] Hj. unfold select_if_any. step. apply wp_if; intros _; [|by step]. unfold qmgr_peer_select. step.
  eapply wp_mono; [by apply (peer_scan_wp None None None job jb)|]. intros [p|] st'; [|by intros ->].
  intros (Hsel & l' & Hl & ->). destruct (rotated_sound _ _ _ _ _ _ _ H1 Hj Hl) as [H1' Hquiet].
  pose proof (quiet_grows_jobs m _ _ _ _ Hquiet Hj ltac:(done)) as G. split; [|split; [done|by intros ? [= <-]]].
  split; [done|by eapply file_ok_grows|by apply (spares_same st)].
Qed.

Lemma realloc_wp m msg st : ready st -> messages st !! m = Some msg -> m_rcpt_offset msg <> 0 -> m_rcpt_count msg < m_rcpt_limit msg ->
  wp (with_files realloc m) st (fun _ st' => ready st' /\ grows m st st').
Proof using Hsorted.
  intros [H1 H2 H3] Hm Ho Hc. pose proof (bk_offsets _ _ _ _ (proj2 (proj2 H1)) _ _ (col_at m_rcpt_offset _ _ _ Hm)) as Hoff.
  eapply wp_mono; [apply (wp_keeps spares _ _ (fun _ st' => sound None None None st' /\ grows m st st')); [apply room_realloc|]|].
  - unfold realloc. apply wp_bind. eapply wp_mono; [apply (message_realloc_wp _ _ _ _ Hsorted m msg); [done|done|done|lia|done]|].
    intros ? st' H. step. exact H.
  - intros ? st' [[Hs' G] Hsp]. split; [|done]. split; [done|by eapply file_ok_grows|by apply Hsp].
Qed.

Lemma job_peer_select_wp job jb st : ready st -> jobs st !! job = Some jb ->
  wp (with_files qmgr_job_peer_select job) st (fun r st' => ready st' /\ grows (j_message jb) st st' /\ forall p, r = Some p -> selectable st' job p).
Proof using Hsorted.
  intros Hr Hj. destruct (wf_refs _ (wf_wf_core _ (proj1 (rdy_sound _ _ _ Hr))) _ _ Hj) as [[tr Ht] [msg Hm]]. unfold qmgr_job_peer_select.
  do 4 step. apply wp_bind. apply (wp_mono _ _ (fun _ st1 => ready st1 /\ grows (j_message jb) st st1)).
  { apply wp_if; intros E; [|by step]. unfold refill_due in E. apply andb_prop in E as [[E1 _]%andb_prop E2]. apply (realloc_wp _ msg); [done|done|lia|].
    pose proof (proj1 (bk_control _ _ _ _ (proj2 (proj2 (rdy_sound _ _ _ Hr)))) _ _ (col_at tcontrol _ _ _ Ht)) as [_ _ _ _ Hrf _ _]. cbn in Hrf.
    apply orb_prop in E2 as [E2|E2]; [lia|]. apply andb_prop in E2 as [E2 _]. lia. }
  intros ? st1 (Hr1 & G1). destruct (gr_j _ _ _ G1 _ _ Hj) as (jb1 & Hj1 & _). apply wp_bind.
  eapply wp_mono; [by apply (select_if_any_wp (j_message jb) job jb1)|]. intros [p|] st2 (Hr2 & G2 & Hsel).
  { step. split; [done|]. split; [by etrans|done]. }
  assert (G02 : grows (j_message jb) st st2) by by etrans. destruct (gr_m _ _ _ G02 (j_message jb)) as [msg2 Hm2]; [by exists msg|]. step.
  apply wp_if; intros E; [|by step]. unfold last_chance in E. apply andb_prop in E as [[E1 _]%andb_prop E2].
  apply wp_bind. eapply wp_mono; [apply (realloc_wp _ msg2); [done|done|lia|lia]|]. intros ? st3 (Hr3 & G3).
  assert (G03 : grows (j_message jb) st st3) by by etrans. destruct (gr_j _ _ _ G03 _ _ Hj) as (jb3 & Hj3 & _).
  eapply wp_mono; [by apply (select_if_any_wp (j_message jb) job jb3)|]. intros r st4 (Hr4 & G4 & Hsel4). split; [done|]. split; [by etrans|done].
Qed.


(** The loop ends with an entry that is about to be delivered, or without a current job;
    the fuel is enough because every round passes a job for good. *)
Lemma select_loop_wp fuel t now : forall job st tr, ready st -> transports st !! t = Some tr ->
  (forall j, job = Some j -> j ∈ t_job_list tr /\ (length (after j (t_job_list tr)) < fuel)%nat) ->
  wp (with_files select_loop fuel t now job) st (fun r st' => sound None None None st' /\ more st st' /\
    forall e, r = Some e -> chosen t st' e).
Proof using Hsorted.
  induction fuel as [|fuel IH]; intros job st tr Hr Ht Hjob.
  { destruct job as [j|]; [destruct (Hjob j eq_refl); lia|]. cbn [select_loop]. do 2 step.
    destruct (kept_ready service file st (put_transport t tr0 st)) as [[H1 _ _] Hst]; [done| |split; [done|]; split; [by apply steady_more|done]].
    pose proof (rdy_sound _ _ _ Hr) as (Hwf & _). apply (kept_put_cursors st t tr); try done; [by left|]. apply (wf_wf_cursors _ Hwf _ _ Ht). }
  destruct job as [j|]; [|cbn [select_loop]].
  2:{ do 2 step. destruct (kept_ready service file st (put_transport t tr0 st)) as [[H1 _ _] Hst]; [done| |split; [done|]; split; [by apply steady_more|done]].
    pose proof (rdy_sound _ _ _ Hr) as (Hwf & _). apply (kept_put_cursors st t tr); try done; [by left|]. apply (wf_wf_cursors _ Hwf _ _ Ht). }
  destruct (Hjob j eq_refl) as [Hin Hlen]. pose proof (rdy_sound _ _ _ Hr) as (Hwf & _).
  pose proof (wf_lists _ (wf_wf_core _ Hwf) _ _ Ht) as (Hnd & _ & Hlist). pose proof (proj1 (Hlist j) Hin) as Hon. pose proof Hon as (jb & Hj & Et & Hl).
  (* going on with the next job *)
  assert (Hgo : forall st' tr', ready st' -> transports st' !! t = Some tr' -> t_job_list tr' = t_job_list tr \/ t_job_list tr' = rest_of j (t_job_list tr) ->
    wp (with_files select_loop fuel t now (next_in j (t_job_list tr))) st' (fun r s => sound None None None s /\ more st' s /\ forall e, r = Some e -> chosen t s e)).
  { intros st' tr' Hr' Ht' Hrest. apply (IH _ _ tr'); [done|done|]. intros n Hn.
    destruct (next_stays j (t_job_list tr) (t_job_list tr') n) as [H1 H2]; [done..|]. split; [done|lia]. }
  cbn [select_loop]. do 2 step. apply wp_if; intros _; [apply (Hgo st tr); [done|done|by left]|].
  apply wp_bind. eapply wp_mono; [by apply (job_peer_select_wp j jb)|]. intros peer st1 (Hr1 & G1 & Hsel).
  destruct (gr_j _ _ _ G1 _ _ Hj) as (jb1 & Hj1 & [= Em1 Et1]).
  destruct (gr_l _ _ _ G1 t j Hon) as [(x & Hx & Etx & Hl1) Hsame]; [by exists jb|]. assert (x = jb1) as -> by congruence.
  destruct peer as [peer|].
  { eapply wp_mono; [apply (take_entry_wp service file t now j jb1 peer); [done|done|congruence|done|by apply Hsel]|].
    intros r st2 (H1 & H2 & e & -> & Hc). split; [done|]. split; [etrans; [exact (gr_t _ _ _ G1)|done]|]. by intros ? [= <-]. }
  unfold same_list in Hsame. rewrite Ht in Hsame. destruct (transports st1 !! t) as [tr1|] eqn:Ht1; [|done]. injection Hsame as El1.
  step. apply wp_bind. apply (wp_mono _ _ (fun _ st2 => ready st2 /\ more st1 st2 /\ exists tr2, transports st2 !! t = Some tr2 /\
    (t_job_list tr2 = t_job_list tr \/ t_job_list tr2 = rest_of j (t_job_list tr)))).
  2:{ intros ? st2 (Hr2 & M2 & tr2 & Ht2 & Hrest). eapply wp_mono; [by apply (Hgo st2 tr2)|]. intros r st3 (H1 & H2 & H3).
      split; [done|]. split; [|done]. etrans; [exact (gr_t _ _ _ G1)|by etrans]. }
  apply wp_if; intros _.
  - eapply wp_mono; [apply (mark_blocker_wp service file t j jb1); [done|by exists tr1|done]|]. intros ? st2 [Hr2 T2].
    split; [done|]. split; [intros x; by rewrite T2|]. exists tr1. rewrite T2. split; [done|by left].
  - eapply wp_mono; [apply (retire_ready_wp service file j jb1 tr1); [done|done|congruence|done]|]. intros ? st2 (Hr2 & S2 & tr2 & Ht2 & E2).
    split; [done|]. split; [by apply steady_more|]. exists tr2. rewrite <- Etx at 1. split; [done|]. right. congruence.
Qed.

Lemma job_entry_select_wp t now st : ready st -> is_Some (transports st !! t) ->
  wp (with_files qmgr_job_entry_select t now) st (fun r st' => sound None None None st' /\ more st st' /\
    forall e, r = Some e -> chosen t st' e).
Proof using Hsorted.
  intros Hr [tr Ht]. unfold qmgr_job_entry_select. step. pose proof (rdy_sound _ _ _ Hr) as (Hwf & _).
  destruct (t_job_current tr) as [j|] eqn:Hc; [|step; split; [apply Hr|]; by split].
  assert (Hin : j ∈ t_job_list tr) by (by apply (proj1 (wf_wf_cursors _ Hwf _ _ Ht))).
  pose proof (proj1 (proj2 (proj2 (wf_lists _ (wf_wf_core _ Hwf) _ _ Ht)) j) Hin) as (jb & Hj & Et & Hl).
  apply wp_bind. apply (wp_mono _ _ (fun job st1 => ready st1 /\ steady st st1 /\ QmgrJob.on_list st1 t job)).
  { apply wp_if; intros Hcost; [|step; split; [done|]; split; [done|]; by exists jb].
    eapply wp_mono; [apply (job_preempt_wp j jb tr); [done|done|done|by rewrite Et|lia]|].
    intros job st1 [Hk Hcase]. destruct (kept_ready _ _ _ _ Hr Hk) as [Hr1 Hst]. split; [done|]. split; [done|].
    destruct Hcase as [[-> Hjobs]|(_ & Hon & _)]; [exists jb; by rewrite Hjobs|congruence]. }
  intros job st1 (Hr1 & Hst & Hon). destruct (col_some _ _ _ _ _ (eq_sym (lk_t _ _ (proj1 Hst))) Ht) as (tr1 & Ht1 & _). step.
  eapply wp_mono; [apply (select_loop_wp _ t now _ _ tr1); [done|done|]|].
  - intros ? [= <-]. assert (Hin1 : job ∈ t_job_list tr1) by (by apply (wf_lists _ (wf_wf_core _ (proj1 (rdy_sound _ _ _ Hr1))) _ _ Ht1)).
    split; [done|]. rewrite (before_after job (t_job_list tr1)) at 2 by done. rewrite length_app. cbn. lia.
  - intros r st2 (H1 & H2 & H3). split; [done|]. split; [|done]. etrans; [by apply steady_more|done].
Qed.

(** Whatever the delivery process does, nothing panics, and the invariant holds. *)
Lemma deliver_wp t available sent now st : ready st -> is_Some (transports st !! t) ->
  wp (with_files qmgr_deliver t available sent now) st (fun _ st' => sound None None None st').
Proof using Hsorted.
  intros Hr Ht. pose proof Hr as [Hs [Hsv _] _]. unfold qmgr_deliver. apply wp_if; intros _; [|by apply deliver_unavailable_wp].
  apply wp_bind. eapply wp_mono; [by apply job_entry_select_wp|]. intros [e|] st1 (Hs1 & M1 & Hc); [|by step].
  destruct (chosen_busy _ _ _ (Hc e eq_refl)) as [Hb He]. apply deliver_entry_wp; [done|done|done|by apply M1..].
Qed.
End select.
