(* ===== verification/QmgrMachine.v ===== *)
(** The queue manager's delivery machine: the event handlers of the queue manager
    (src/src/qmgr) in any order, from the start of the program. *)

From S2P Require Export QmgrSelect.

(** ** Transports are never dropped *)

Lemma more_put t tr st : more st (put_transport t tr st).
Proof. intros x H. st_cbn. rewrite lookup_insert_dec. case_decide; [by eexists|done]. Qed.
Lemma more_same st st' : transports st' = transports st -> more st st'.
Proof. intros E x. by rewrite E. Qed.

Create HintDb more.
Ltac keep_more :=
  repeat first
    [ progress intros
    | solve [eauto 1 with more nocore]
    | apply (keeps_bind more) | apply (keeps_ret more) | apply (keeps_panic_if more) | apply (keeps_gets more)
    | apply (keeps_deref more)
    | apply keeps_modify; intros; apply more_same; reflexivity | apply keeps_alloc; intros; apply more_same; reflexivity
    | apply keeps_upd_job; intros; apply more_same; reflexivity | apply keeps_upd_message; intros; apply more_same; reflexivity
    | apply keeps_upd_queue; intros; apply more_same; reflexivity | apply keeps_upd_entry; intros; apply more_same; reflexivity
    | apply keeps_upd_peer; intros; apply more_same; reflexivity | apply keeps_upd_transport; intros; apply more_put
    | case_match
    | progress cbv zeta ].
Lemma more_panic : keeps more (@msg_panic unit).
Proof. by intros st. Qed.
Lemma more_c_div a b : keeps more (c_div a b).
Proof. intros st x st'. unfold c_div. case_match; [done|]. by intros [= <- <-]. Qed.
#[export] Hint Resolve more_panic more_c_div : more.

Lemma more_next_unread l : keeps more (next_unread_from l).
Proof. induction l as [|x l IH]; cbn [next_unread_from]; keep_more; done. Qed.
Lemma more_list_scan qt l cur : keeps more (job_list_scan qt l cur).
Proof. revert cur. induction l as [|x l IH]; intros cur; cbn [job_list_scan]; keep_more; apply IH. Qed.
Lemma more_bytime_scan qt l cur : keeps more (job_bytime_scan qt l cur).
Proof. revert cur. induction l as [|x l IH]; intros cur; cbn [job_bytime_scan]; keep_more; apply IH. Qed.
Lemma more_parent_gone job parent l : keeps more (parent_gone_loop job parent l).
Proof. induction l as [|c l IH]; cbn [parent_gone_loop]; keep_more; apply IH. Qed.
Lemma more_candidate_loop tr now n l best score : keeps more (candidate_loop tr now n l best score).
Proof. revert best score. induction l as [|c l IH]; intros best score; cbn [candidate_loop]; keep_more; apply IH. Qed.
#[export] Hint Resolve more_next_unread more_list_scan more_bytime_scan more_parent_gone more_candidate_loop : more.
Lemma more_move_limits job : keeps more (qmgr_job_move_limits job).
Proof. unfold qmgr_job_move_limits. keep_more. Qed.
#[export] Hint Resolve more_move_limits : more.
Lemma more_pop job : keeps more (qmgr_job_pop job).
Proof. unfold qmgr_job_pop, qmgr_job_parent_gone, RESET_CANDIDATE_CACHE. keep_more. Qed.
#[export] Hint Resolve more_pop : more.
Lemma more_unlink job : keeps more (qmgr_job_unlink job).
Proof. unfold qmgr_job_unlink, qmgr_job_parent_gone, stack_siblings_next, RESET_CANDIDATE_CACHE. keep_more. Qed.
#[export] Hint Resolve more_unlink : more.
Lemma more_retire job : keeps more (qmgr_job_retire job).
Proof. unfold qmgr_job_retire. keep_more. Qed.
Lemma more_obtain message transport : keeps more (qmgr_job_obtain message transport).
Proof. unfold qmgr_job_obtain, qmgr_job_find, qmgr_job_create, qmgr_job_link, RESET_CANDIDATE_CACHE. keep_more. Qed.
Lemma more_preempt job : keeps more (qmgr_job_preempt job).
Proof. unfold qmgr_job_preempt, qmgr_job_candidate, max_slots, RESET_CANDIDATE_CACHE. keep_more. Qed.
Lemma more_blocker_update queue : keeps more (qmgr_job_blocker_update queue).
Proof. unfold qmgr_job_blocker_update. keep_more. Qed.
Lemma more_peer_obtain job queue : keeps more (qmgr_peer_obtain job queue).
Proof. unfold qmgr_peer_obtain, qmgr_peer_find, qmgr_peer_create. keep_more. Qed.
Lemma more_peer_free peer : keeps more (qmgr_peer_free peer).
Proof. unfold qmgr_peer_free. keep_more. Qed.
Lemma more_entry_create peer message : keeps more (qmgr_entry_create peer message).
Proof. unfold qmgr_entry_create. keep_more. Qed.
Lemma more_sponsor message job l : keeps more (sponsor_loop message job l).
Proof. induction l as [|c l IH]; cbn [sponsor_loop]; keep_more; apply IH. Qed.
Lemma more_queue_throttle queue dsn : keeps more (qmgr_queue_throttle queue dsn).
Proof. unfold qmgr_queue_throttle. keep_more. Qed.
Lemma more_queue_unthrottle queue : keeps more (qmgr_queue_unthrottle queue).
Proof. unfold qmgr_queue_unthrottle. keep_more. Qed.
Lemma more_queue_suspend queue delay : keeps more (qmgr_queue_suspend queue delay).
Proof. unfold qmgr_queue_suspend. keep_more. Qed.
Lemma more_queue_done queue : keeps more (qmgr_queue_done queue).
Proof. unfold qmgr_queue_done. keep_more. Qed.
Lemma more_queue_create transport name : keeps more (qmgr_queue_create transport name).
Proof. unfold qmgr_queue_create. keep_more. Qed.
#[export] Hint Resolve more_retire more_obtain more_preempt more_blocker_update more_peer_obtain more_peer_free more_entry_create
  more_sponsor more_queue_throttle more_queue_unthrottle more_queue_suspend more_queue_done more_queue_create : more.
Lemma more_entry_done entry which now : keeps more (qmgr_entry_done entry which now).
Proof. unfold qmgr_entry_done, entry_unlink, entry_release, entry_rate_delay, entry_unblock, peer_release, queue_release. keep_more. Qed.
#[export] Hint Resolve more_entry_done : more.
Lemma more_move_todo queue entry now : keeps more (qmgr_entry_move_todo queue entry now).
Proof. unfold qmgr_entry_move_todo, swap_rcpt_lists. keep_more. Qed.
#[export] Hint Resolve more_move_todo : more.
Lemma more_error_queue service nexthop : keeps more (qmgr_error_queue service nexthop).
Proof. unfold qmgr_error_queue, qmgr_error_transport, qmgr_queue_find. keep_more. Qed.
Lemma more_defer_loop fuel queue retry entry now : keeps more (defer_loop fuel queue retry entry now).
Proof. revert entry. induction fuel as [|fuel IH]; intros entry; cbn [defer_loop]; keep_more; apply IH. Qed.
#[export] Hint Resolve more_error_queue more_defer_loop : more.
Lemma more_defer_queues fuel service transport queue dsn now : keeps more (defer_queues fuel service transport queue dsn now).
Proof. revert queue. induction fuel as [|fuel IH]; intros queue; cbn [defer_queues]; unfold qmgr_defer_todo; keep_more; apply IH. Qed.
Lemma more_transport_throttle t dsn : keeps more (qmgr_transport_throttle t dsn).
Proof. unfold qmgr_transport_throttle. keep_more. Qed.
Lemma more_transport_unthrottle t : keeps more (qmgr_transport_unthrottle t).
Proof. unfold qmgr_transport_unthrottle. keep_more. Qed.
#[export] Hint Resolve more_defer_queues more_transport_throttle more_transport_unthrottle : more.
Lemma more_deliver_update service entry report now : keeps more (qmgr_deliver_update service entry report now).
Proof. unfold qmgr_deliver_update, site_backoff, qmgr_defer_todo, qmgr_defer_transport, qmgr_entry_unselect. keep_more. Qed.
Lemma more_unavailable service t now : keeps more (deliver_unavailable service t now).
Proof. unfold deliver_unavailable, qmgr_defer_transport. keep_more. Qed.
Lemma more_peer_scan job l : keeps more (peer_scan job l).
Proof. induction l as [|p l IH]; cbn [peer_scan]; keep_more; apply IH. Qed.
Lemma more_mark_queues tag l : keeps more (mark_queues tag l).
Proof. induction l as [|p l IH]; cbn [mark_queues]; keep_more; apply IH. Qed.
#[export] Hint Resolve more_deliver_update more_unavailable more_peer_scan more_mark_queues : more.

Lemma more_reset_caches l : keeps more (reset_caches l).
Proof. induction l as [|p l IH]; cbn [reset_caches]; unfold RESET_CANDIDATE_CACHE; keep_more; apply IH. Qed.
Lemma more_limits l : keeps more (move_limits_loop l).
Proof. induction l as [|p l IH]; cbn [move_limits_loop]; keep_more; apply IH. Qed.
Lemma more_free_jobs fuel message : keeps more (free_jobs fuel message).
Proof. induction fuel as [|fuel IH]; cbn [free_jobs]; unfold qmgr_job_free; keep_more; apply IH. Qed.
#[export] Hint Resolve more_reset_caches more_limits more_free_jobs : more.

Section files.
Context (service : nat) (recipient_limit : nat -> Z) (file : queue_files)
  (sorted : list (option nat * Z) -> list (option nat * Z)) (flush single_rcpt : nat -> bool).
Local Notation with_files f := (f service recipient_limit file sorted flush single_rcpt) (only parsing).

Lemma more_resolve b t q l : keeps more (resolve_loop service b t q l).
Proof using Type.
  revert t q. induction l as [|r l IH]; intros t q; cbn [resolve_loop]; [keep_more|].
  apply (keeps_bind more); [|intros [? []]; keep_more; apply IH]. unfold resolve_one, live_transport, qmgr_error_transport, same_name, qmgr_queue_find. keep_more.
Qed.
Lemma more_assign message b job peer l : keeps more (assign_loop recipient_limit message b job peer l).
Proof using Type.
  revert job peer. induction l as [|[[q|] r] l IH]; intros job peer; cbn [assign_loop]; [keep_more| |apply IH].
  unfold assign_entry. keep_more; apply IH.
Qed.
Hint Resolve more_resolve more_assign : more.
Lemma more_load message b single l : keeps more (message_load service recipient_limit sorted message b single l).
Proof using Type. unfold message_load, qmgr_message_resolve, qmgr_message_assign, qmgr_message_move_limits. keep_more. Qed.
Hint Resolve more_load : more.
Lemma more_realloc message : keeps more (with_files realloc message).
Proof using Type. unfold realloc, qmgr_message_realloc, qmgr_message_read. keep_more. Qed.
Lemma more_alloc message queue_id limit b single : keeps more (qmgr_message_alloc service recipient_limit file sorted message queue_id limit b single).
Proof using Type. unfold qmgr_message_alloc, qmgr_message_read, qmgr_message_free. keep_more. Qed.
Hint Resolve more_realloc more_alloc : more.
Lemma more_job_peer_select job : keeps more (with_files qmgr_job_peer_select job).
Proof using Type. unfold qmgr_job_peer_select, select_if_any, qmgr_peer_select. keep_more. Qed.
Hint Resolve more_job_peer_select : more.
Lemma more_select_loop fuel t now job : keeps more (with_files select_loop fuel t now job).
Proof using Type.
  revert job. induction fuel as [|fuel IH]; intros job; cbn [select_loop]; [keep_more|].
  unfold retire_if_done, mark_blocker, qmgr_entry_select, qmgr_job_count_slots, RESET_CANDIDATE_CACHE. keep_more; apply IH.
Qed.
Hint Resolve more_select_loop : more.
Lemma more_deliver t available sent now : keeps more (with_files qmgr_deliver t available sent now).
Proof using Type. unfold qmgr_deliver, qmgr_job_entry_select, deliver_entry, qmgr_entry_unselect. keep_more. Qed.
End files.
#[export] Hint Resolve more_realloc more_alloc more_deliver : more.

(** ** The machine *)

(** What can happen: a message arrives in the active queue; a delivery process of a
    transport is offered, or cannot be had; a delivery process reports; timers expire;
    the operator enables a destination or a transport; time passes. *)
Inductive event :=
  | Arrive (message : nat) (queue_id : bytes)
  | Offer (transport : nat) (available sent : bool)
  | Report (entry : nat) (report : delivery_report)
  | QueueTimer (queue : nat)
  | ResumeTimer (queue : nat)
  | TransportTimer (transport : nat)
  | EnableQueue (queue : nat)
  | EnableTransport (transport : nat)
  | Clock (now : Z).

Section machine.
Context (service : nat) (recipient_limit : nat -> Z) (file : queue_files)
  (sorted : list (option nat * Z) -> list (option nat * Z)) (flush single_rcpt : nat -> bool).
(** The transports and their configuration, the recipient limits of the queue manager. *)
Context (conf : gmap nat transport_conf) (qmgr_msg_rcpt_limit qmgr_rcpt_limit : Z).

Definition no_result (m : M unit) : M (list nat) := m;; mret [].

(** The handler of an event, at time [now]; it returns the messages that have no more
    deliveries, for qmgr_active_done(). *)
Definition handle (ev : event) (now : Z) : M (list nat) :=
  match ev with
  | Arrive message queue_id =>
      loaded ← qmgr_message_alloc service recipient_limit file sorted message queue_id qmgr_msg_rcpt_limit (flush message) (single_rcpt message);
      if loaded : bool then
        msg ← get_message message;
        mret (if m_refcount msg =? 0 then [message] else [])
      else mret []
  | Offer transport available sent => qmgr_deliver service recipient_limit file sorted flush single_rcpt transport available sent now
  | Report entry report => qmgr_deliver_update service entry report now
  | QueueTimer queue => no_result (qmgr_queue_unthrottle_wrapper queue)
  | ResumeTimer queue => no_result (qmgr_queue_resume queue)
  | TransportTimer transport => no_result (qmgr_transport_unthrottle transport)
  | EnableQueue queue => no_result (qmgr_enable_queue queue)
  | EnableTransport transport => no_result (enable_transport transport)
  | Clock time => no_result (modify (set_sane_time time))
  end.

(** When an event can happen. Queue IDs are unique, reports come from processes that
    deliver, timers are pending, and there are never more delivery processes than
    [MAX_BUSY]. *)
Definition enabled (ev : event) (st : qmgr) : Prop :=
  match ev with
  | Arrive message queue_id => messages st !! message = None /\ forall x y, messages st !! x = Some y -> m_queue_id y <> queue_id
  | Offer transport _ _ => is_Some (transports st !! transport) /\ spare st
  | Report entry _ => exists en, entries st !! entry = Some en /\ e_stream en = true
  | QueueTimer queue => queue ∈ queue_timers st
  | ResumeTimer queue => queue ∈ resume_timers st
  | TransportTimer transport => transport ∈ transport_timers st
  | EnableQueue queue => is_Some (queues st !! queue)
  | EnableTransport transport => is_Some (transports st !! transport)
  | Clock _ => True
  end.

(** No messages, no destinations; addresses below the first one are those of the transports. *)
Definition initial : qmgr :=
  mk_qmgr (new_transport <$> conf) ∅ ∅ ∅ ∅ ∅ (fst <$> map_to_list conf) 0 0 0 0 qmgr_rcpt_limit ∅ ∅ ∅.

Inductive reachable : qmgr -> Prop :=
  | reach_start : reachable initial
  | reach_step st ev now r st' : reachable st -> enabled ev st -> handle ev now st = Ret (r, st') -> reachable st'.

(** What is known of the surroundings: sorting does not make up recipients; the
    configuration is in bounds; the queue files name transports that exist. *)
Record surroundings_ok : Prop := mk_surroundings_ok {
  su_sorted l : sorted l ≡ₚ l;
  su_conf t c : conf !! t = Some c -> conf_ok c;
  su_limit : 0 < qmgr_msg_rcpt_limit;
  su_service : is_Some (conf !! service);
  su_file m offset read n rd : file m offset = Some read -> read n = Some rd -> 0 <= rd_offset rd /\ forall r, r ∈ rd_recipients rd -> is_Some (conf !! r_transport r)
}.
Context (Hsu : surroundings_ok).

Lemma initial_wf : wf initial.
Proof using Type.
  assert (Hnew : forall t tr, transports initial !! t = Some tr -> exists c, tr = new_transport c).
  { intros t tr. cbn. rewrite lookup_fmap. destruct (conf !! t) as [c|]; [|done]. intros [= <-]. by exists c. }
  apply wf_no_jobs; try done. intros t tr Ht. destruct (Hnew t tr Ht) as [c ->]. by split_and!.
Qed.

Lemma initial_sound : sound None None None initial.
Proof using Hsu.
  split; [apply initial_wf|]. split.
  { intros t tr. cbn. rewrite lookup_fmap. destruct (conf !! t) as [c|]; [|done]. by intros [= <-]. }
  assert (Hnew : forall B (f : QMGR_TRANSPORT -> B) t y, (f <$> transports initial) !! t = Some y -> exists c, conf !! t = Some c /\ y = f (new_transport c)).
  { intros B f t y. cbn. rewrite !lookup_fmap. destruct (conf !! t) as [c|]; [|done]. intros [= <-]. by exists c. }
  split; cbn [initial entries queues peers jobs messages transports queue_timers resume_timers transport_timers qmgr_recipient_count qmgr_queue_count next_addr];
    rewrite ?fmap_empty.
  - split; [intros q l; by rewrite lookup_empty|intros e en; by rewrite lookup_empty].
  - intros q l c. by rewrite lookup_empty.
  - intros e en. by rewrite lookup_empty.
  - intros p w. by rewrite lookup_empty.
  - intros p n. by rewrite lookup_empty.
  - split; [intros p pl; by rewrite lookup_empty|intros j jp; by rewrite lookup_empty].
  - intros e en pl. by rewrite lookup_empty.
  - intros j c. by rewrite lookup_empty.
  - split; [intros m c; by rewrite lookup_empty|intros e en; by rewrite lookup_empty].
  - intros m c. by rewrite lookup_empty.
  - intros m l j. by rewrite lookup_empty.
  - split; [|intros q n; by rewrite lookup_empty]. intros t tr Ht. apply Hnew in Ht as (c & _ & ->). cbn.
    split; [constructor|]. split; [by intros q ?%not_elem_of_nil|]. intros name q. by rewrite lookup_empty.
  - split; [|split; [intros q c; by rewrite lookup_empty|intros q; rewrite !elem_of_empty; by intros []]].
    intros t tr Ht. apply Hnew in Ht as (c & Hc & ->). by apply transport_ok_control, new_transport_ok, (su_conf Hsu t).
  - by split; rewrite ?map_sum_empty.
  - intros x. rewrite !lookup_empty. by intros [[]|[[]|[]]].
  - intros e en l. by rewrite lookup_empty.
  - split; [|intros t; by rewrite elem_of_empty]. intros t d Ht. apply Hnew in Ht as (c & _ & ->). cbn. split; [done|]. by rewrite elem_of_empty.
  - intros j jl. by rewrite lookup_empty.
  - intros m o. by rewrite lookup_empty.
Qed.

(** ** Every handler completes *)

(** The invariant: the books are right, and the transports are still there. *)
Definition running (st : qmgr) : Prop := sound None None None st /\ forall t, is_Some (conf !! t) -> is_Some (transports st !! t).

Lemma running_file st : running st -> file_ok service file st.
Proof using Hsu.
  intros [_ Ht]. split; [apply Ht, (su_service Hsu)|]. intros m o read n rd Hf Hn. destruct (su_file Hsu _ _ _ _ _ Hf Hn) as [H1 H2].
  split; [done|]. intros r Hr. by apply Ht, H2.
Qed.

Lemma initial_running : running initial.
Proof using Hsu. split; [apply initial_sound|]. intros t [c Hc]. exists (new_transport c). cbn. by rewrite lookup_fmap, Hc. Qed.

Lemma no_result_wp (m : M unit) st (P : qmgr -> Prop) : wp m st (fun _ st' => P st') -> wp (no_result m) st (fun _ st' => P st').
Proof using Type. intros H. unfold no_result. apply wp_bind. eapply wp_mono; [exact H|]. intros ? st' HP. by step. Qed.

(** An entry whose stream is open is being delivered. *)
Lemma streaming_busy st entry en : sound None None None st -> entries st !! entry = Some en -> e_stream en = true -> on_busy st entry.
Proof using Type.
  intros Hs He Hstr. destruct (entry_placed _ _ _ _ _ _ Hs He) as (pe & qu & jb & msg & tr & [P1 P2 _ _ _ _ _ _]).
  destruct Hs as (_ & _ & H). destruct (entry_listed st entry en qu He P2 (bk_lists _ _ _ _ H)) as [Ht|Hb]; [|by exists en, qu].
  pose proof (bk_streams _ _ _ _ H _ _ _ He (col_at qlists _ _ _ P2) Ht) as Hf. congruence.
Qed.

Lemma handle_sound ev now st : running st -> enabled ev st -> wp (handle ev now) st (fun _ st' => sound None None None st').
Proof using Hsu.
  intros Hrun Hen. pose proof (running_file _ Hrun) as Hf. destruct Hrun as [Hs Ht]. pose proof Hf as [Hsv _].
  destruct ev as [message queue_id|t available sent|entry report|queue|queue|t|queue|t|time]; cbn [handle enabled] in *.
  - destruct Hen as [Hm Hid]. apply wp_bind. eapply wp_mono.
    + apply (message_alloc_wp service recipient_limit file sorted); [apply (su_sorted Hsu)|done..|apply (su_limit Hsu)].
    + intros [] st1 (Hs1 & _ & Hr); [|by step]. destruct Hr as [msg Hmsg]. by do 2 step.
  - destruct Hen as [Hx Hsp]. apply deliver_wp; [apply (su_sorted Hsu)|by split|done].
  - destruct Hen as (en & He & Hstr). eapply wp_mono; [apply deliver_update_wp; [done|by eapply streaming_busy|done]|]. by intros ? st' [].
  - apply no_result_wp. eapply wp_mono; [by apply queue_unthrottle_wrapper_wp|]. by intros ? st' [].
  - apply no_result_wp. eapply wp_mono; [by apply queue_resume_wp|]. by intros ? st' [].
  - apply no_result_wp. destruct (proj2 (bk_throttled _ _ _ _ (proj2 (proj2 Hs))) _ Hen) as (d & (tr & Htr & _)%col_inv).
    eapply wp_mono; [by apply (transport_unthrottle_wp None None None t tr)|]. by intros ? st' [].
  - destruct Hen as [qu Hq]. apply no_result_wp. eapply wp_mono; [by apply (enable_queue_wp queue qu)|]. by intros ? st' [].
  - destruct Hen as [tr Htr]. apply no_result_wp. unfold enable_transport. step. apply wp_if; intros _; [|by step].
    eapply wp_mono; [by apply (transport_unthrottle_wp None None None t tr)|]. by intros ? st' [].
  - apply no_result_wp. step. destruct Hs as (Hwf & Hodd & H). split; [by apply (quiet_wf st)|]. split; [done|]. by destruct H.
Qed.

Lemma handle_more ev now : keeps more (handle ev now).
Proof using Type.
  destruct ev; unfold handle, no_result, qmgr_queue_unthrottle_wrapper, qmgr_queue_resume, qmgr_enable_queue, queue_cleanup, enable_transport; keep_more.
Qed.

Lemma handle_running ev now st : running st -> enabled ev st -> wp (handle ev now) st (fun _ st' => running st').
Proof using Hsu.
  intros Hrun Hen. eapply wp_mono; [apply (wp_keeps more); [apply handle_more|by apply handle_sound]|].
  intros r st' [Hs Hm]. split; [done|]. intros t Ht. by apply Hm, Hrun.
Qed.

Lemma reachable_running st : reachable st -> running st.
Proof using Hsu.
  induction 1 as [|st ev now r st' Hr IH Hen Hst]; [apply initial_running|].
  pose proof (handle_running ev now st IH Hen) as Hw. unfold wp in Hw. by rewrite Hst in Hw.
Qed.
End machine.
