(* ===== verification/QmgrRuns.v ===== *)
(** What holds in every run of the queue manager's delivery machine (QmgrMachine.v):
    no handler panics, no pointer dangles, every counter counts, and no destination
    stays throttled for want of a timer. *)

From S2P Require Export QmgrMachine.

(** ** Types of pointers *)

(** Every pointer leads to an object of its kind, and the objects agree. *)
Record well_typed (st : qmgr) : Prop := mk_well_typed {
  ty_entry e en : entries st !! e = Some en -> exists pe qu jb msg tr, placed st en pe qu jb msg tr /\ (e ∈ q_todo qu \/ e ∈ q_busy qu);
  ty_peer p pe : peers st !! p = Some pe -> exists jb qu, jobs st !! p_job pe = Some jb /\ queues st !! p_queue pe = Some qu /\
    q_transport qu = j_transport jb /\ p ∈ j_peer_list jb /\ j_peer_byname jb !! q_name qu = Some p;
  ty_peer_entries p pe e : peers st !! p = Some pe -> e ∈ p_entry_list pe -> exists en, entries st !! e = Some en /\ e_peer en = p;
  ty_job j jb : jobs st !! j = Some jb -> is_Some (messages st !! j_message jb) /\ is_Some (transports st !! j_transport jb) /\
    (forall p, p ∈ j_peer_list jb -> exists pe, peers st !! p = Some pe /\ p_job pe = j) /\
    (forall c, c ∈ j_stack_children jb -> exists cb, jobs st !! c = Some cb /\ j_stack_parent cb = Some j) /\
    (forall p, j_stack_parent jb = Some p -> exists pb, jobs st !! p = Some pb /\ j_transport pb = j_transport jb /\ j ∈ j_stack_children pb);
  ty_queue q qu : queues st !! q = Some qu -> (exists tr, transports st !! q_transport qu = Some tr /\ q ∈ t_queue_list tr /\
      t_queue_byname tr !! q_name qu = Some q) /\
    (forall e, e ∈ q_todo qu ++ q_busy qu -> exists en, entries st !! e = Some en /\ e_queue en = q);
  ty_transport t tr : transports st !! t = Some tr ->
    (forall q, q ∈ t_queue_list tr -> exists qu, queues st !! q = Some qu /\ q_transport qu = t) /\
    (forall j, j ∈ t_job_list tr -> exists jb, jobs st !! j = Some jb /\ j_transport jb = t) /\
    (forall j, t_job_current tr = Some j \/ t_job_next_unread tr = Some j -> j ∈ t_job_list tr);
  ty_message m msg j : messages st !! m = Some msg -> j ∈ m_job_list msg -> exists jb, jobs st !! j = Some jb /\ j_message jb = m
}.

Lemma sound_well_typed st : sound None None None st -> well_typed st.
Proof.
  intros Hs. pose proof Hs as (Hwf & _ & H). pose proof (wf_wf_core _ Hwf) as Hw. split.
  - intros e en He. destruct (entry_placed _ _ _ _ _ _ Hs He) as (pe & qu & jb & msg & tr & Hp). exists pe, qu, jb, msg, tr. split; [done|].
    by apply (entry_listed st e en qu); [|apply (pl_queue _ _ _ _ _ _ _ Hp)|apply (bk_lists _ _ _ _ H)].
  - intros p pe Hp. destruct (proj1 (bk_peer_jobs _ _ _ _ H) _ _ (col_at plink _ _ _ Hp)) as (jl & jp & n & (jb & Hj & ->)%col_inv & Hjp & (qu & Hq & ->)%col_inv & E1 & E2 & E3).
    cbn in Hj, Hjp, Hq, E1, E3. apply (col_inv_at _ _ _ _ _ Hj) in Hjp as ->. by exists jb, qu.
  - intros p pe e Hp Hin. destruct (proj1 (proj2 (bk_peer_lists _ _ _ _ H _ _ (col_at pload _ _ _ Hp)) e) Hin) as (x & l & (en & He & ->)%col_inv & Ep & _).
    by exists en.
  - intros j jb Hj. destruct (wf_refs _ Hw _ _ Hj) as [H1 H2]. do 2 (split; [done|]). split.
    + intros p Hp. destruct (proj1 (proj2 (proj2 (bk_peer_jobs _ _ _ _ H) _ _ (col_at jpeers _ _ _ Hj))) p Hp) as (pl & (pe & Hpe & ->)%col_inv & E). by exists pe.
    + split; [intros c; by apply (wf_children _ Hw)|]. intros p Hp. destruct (wf_parent _ Hw _ _ _ Hj Hp) as (pb & ? & ? & _ & ?). by exists pb.
  - intros q qu Hq. split.
    + destruct (proj2 (bk_transport_queues _ _ _ _ H) _ _ (col_at qplace _ _ _ Hq)) as (x & (tr & Ht & ->)%col_inv & H1 & H2). by exists tr.
    + intros e Hin. destruct (proj1 (proj2 (proj1 (bk_lists _ _ _ _ H) _ _ (col_at qlists _ _ _ Hq)) e) Hin) as (x & (en & He & ->)%col_inv & E). by exists en.
  - intros t tr Ht. split; [|split].
    + intros q Hq. destruct (proj1 (proj2 (proj1 (bk_transport_queues _ _ _ _ H) _ _ (col_at tcontrol _ _ _ Ht))) q Hq) as (n & (qu & ? & ->)%col_inv & E). by exists qu.
    + intros j Hj. apply (wf_lists _ Hw _ _ Ht) in Hj as (jb & ? & ? & _). by exists jb.
    + intros j. destruct (wf_wf_cursors _ Hwf _ _ Ht) as [H1 H2]. intros [Hj|Hj]; auto.
  - intros m msg j Hm Hj. by apply (message_jobs_exist _ _ _ _ _ _ _ Hs Hm Hj).
Qed.

(** ** Counters *)

(** The counters of the queue manager. *)
Definition entries_of (st : qmgr) (P : QMGR_ENTRY -> bool) : Z := map_sum (fun en => count_if (P en)) (entries st).
Definition recipients_of (st : qmgr) (P : QMGR_ENTRY -> bool) : Z := map_sum (fun en => if P en then len en else 0) (entries st).
Definition job_of (st : qmgr) (en : QMGR_ENTRY) : option nat := p_job <$> peers st !! e_peer en.

Record well_counted (st : qmgr) : Prop := mk_well_counted {
  ct_queue q qu : queues st !! q = Some qu -> NoDup (q_todo qu ++ q_busy qu) /\
    q_todo_refcount qu = size_of (q_todo qu) /\ q_busy_refcount qu = size_of (q_busy qu);
  ct_peer p pe : peers st !! p = Some pe -> 0 < p_refcount pe /\ p_refcount pe = entries_of st (fun en => bool_decide (e_peer en = p)) /\
    NoDup (p_entry_list pe) /\
    forall e, e ∈ p_entry_list pe <-> exists en qu, entries st !! e = Some en /\ e_peer en = p /\ queues st !! e_queue en = Some qu /\ e ∈ q_todo qu;
  ct_job j jb : jobs st !! j = Some jb ->
    j_read_entries jb - j_selected_entries jb = map_sum (fun pe => if decide (p_job pe = j) then size_of (p_entry_list pe) else 0) (peers st) /\
    j_rcpt_count jb = recipients_of st (fun en => bool_decide (job_of st en = Some j));
  ct_message m msg : messages st !! m = Some msg -> m_refcount msg = entries_of st (fun en => bool_decide (e_message en = m)) /\
    m_rcpt_count msg = recipients_of st (fun en => bool_decide (e_message en = m));
  ct_recipients : qmgr_recipient_count st = recipients_of st (fun _ => true);
  ct_queues : qmgr_queue_count st = Z.of_nat (size (queues st))
}.

Lemma sound_well_counted st : sound None None None st -> well_counted st.
Proof.
  intros Hs. pose proof Hs as (_ & _ & H). split.
  - intros q qu Hq. split; [apply (proj1 (bk_lists _ _ _ _ H) _ _ (col_at qlists _ _ _ Hq))|].
    exact (bk_queue_counts _ _ _ _ H _ _ _ (col_at qlists _ _ _ Hq) (col_at qcontrol _ _ _ Hq)).
  - intros p pe Hp. destruct (bk_peer_counts _ _ _ _ H _ _ (col_at p_refcount _ _ _ Hp)) as [E1 E2]. rewrite owed_none, map_sum_fmap in E1.
    destruct (bk_peer_lists _ _ _ _ H _ _ (col_at pload _ _ _ Hp)) as [Hnd Hin]. split; [by apply E2|]. split; [unfold entries_of; cbn in E1; lia|]. split; [done|].
    intros e. cbn in Hin. rewrite Hin. split.
    + intros (x & l & (en & He & ->)%col_inv & Ep & (qu & Hq & ->)%col_inv & Hl). by exists en, qu.
    + intros (en & qu & He & Ep & Hq & Hl). exists (elink en), (qlists qu). split; [by apply col_at|]. split; [done|]. split; [by apply (col_at qlists)|done].
  - intros j jb Hj. destruct (bk_job_books _ _ _ _ H _ _ (col_at jcounts _ _ _ Hj)) as [E1 E2]. cbn in E1, E2.
    unfold job_waiting in E1. rewrite map_sum_fmap in E1. unfold job_rcpts in E2. rewrite map_sum_fmap in E2. split; [done|]. rewrite E2.
    apply map_sum_ext. intros e en He. unfold job_of. rewrite lookup_fmap, <- option_fmap_compose. cbn.
    change (p_job <$> peers st !! e_peer en) with ((fst ∘ plink) <$> peers st !! e_peer en). by rewrite <- decide_bool_decide.
  - intros m msg Hm. pose proof (proj1 (bk_message_books _ _ _ _ H) _ _ (col_at mcounts _ _ _ Hm)) as E1. cbn in E1. rewrite owed_none, map_sum_fmap in E1.
    pose proof (bk_message_rcpts _ _ _ _ H _ _ (col_at mcounts _ _ _ Hm)) as E2. cbn in E2. rewrite map_sum_fmap in E2.
    split; [unfold entries_of; cbn in E1; lia|]. rewrite E2. apply map_sum_ext. intros e en He. cbn. by rewrite <- decide_bool_decide.
  - rewrite (proj1 (bk_totals _ _ _ _ H)), map_sum_fmap. done.
  - rewrite (proj2 (bk_totals _ _ _ _ H)). by rewrite map_size_fmap.
Qed.

(** ** A run *)

(** Two transports, the first of which is the retry service; a message with three
    recipients at two sites. *)
Definition slow_conf : transport_conf := mk_conf 20 1 0 0 5 3 50 3 20000 50 100 5 demo_feedback demo_feedback 1.
Definition demo_confs : gmap nat transport_conf := {[0%nat := slow_conf; 1%nat := slow_conf]}.
Definition demo_file : queue_files := fun message offset => Some (fun limit =>
  Some (mk_reading [mk_resolved 1 (str "example.com") 5; mk_resolved 1 (str "example.com") 6; mk_resolved 1 (str "example.org") 7] 0 0)).
Definition no_flag (message : nat) : bool := false.
Definition demo_handle : event -> Z -> M (list nat) := handle 0 (fun _ => 1) demo_file id no_flag no_flag 1000.
Definition demo_reachable : qmgr -> Prop := reachable 0 (fun _ => 1) demo_file id no_flag no_flag demo_confs 1000 20000.

Definition demo_start : qmgr := initial demo_confs 20000.
Definition demo_arrived : qmgr := run (demo_handle (Arrive 100 (str "A")) 0) demo_start.
Definition demo_sent : qmgr := run (demo_handle (Offer 1 true true) 0) demo_arrived.
(** The first delivery fails, and the second one waits for the retry service. *)
Definition demo_failed : qmgr := run (demo_handle (Report 4 (Reported true (str "4.4.1") (str "timeout"))) 0) demo_sent.

Lemma slow_conf_ok : conf_ok slow_conf.
Proof. split; [cbn; unfold INT_MAX; lia|cbn; lia|cbn; lia|by split|by split]. Qed.

Lemma demo_surroundings : surroundings_ok 0 demo_file id demo_confs 1000.
Proof.
  split.
  - done.
  - intros t c. unfold demo_confs. rewrite lookup_insert_Some, lookup_singleton_Some. intros [[_ <-]|[_ [_ <-]]]; apply slow_conf_ok.
  - lia.
  - by exists slow_conf.
  - intros m offset read n rd [= <-] [= <-]. split; [cbn; lia|]. intros r Hr.
    cbn in Hr. rewrite !elem_of_cons in Hr. destruct Hr as [-> |[-> |[-> |[]%not_elem_of_nil]]]; by exists slow_conf.
Qed.

(** One step of a run, checked by computation. *)
Definition completes {A} (o : outcome A) : bool := match o with Ret _ => true | _ => false end.
Lemma demo_step ev now st : demo_reachable st -> enabled ev st -> completes (demo_handle ev now st) = true -> demo_reachable (run (demo_handle ev now) st).
Proof.
  unfold run. intros Hr Hen. destruct (demo_handle ev now st) as [[r st']| |] eqn:E; [|done..]. intros _.
  by apply (reach_step _ _ _ _ _ _ _ _ _ st ev now r).
Qed.
Lemma streaming st entry : from_option e_stream false (entries st !! entry) = true -> exists en, entries st !! entry = Some en /\ e_stream en = true.
Proof. destruct (entries st !! entry) as [en|]; [|done]. by exists en. Qed.

Lemma demo_reach_arrived : demo_reachable demo_arrived.
Proof. apply demo_step; [apply reach_start|by split|by vm_compute]. Qed.
Lemma demo_few_deliveries q qu : queues demo_arrived !! q = Some qu -> size_of (q_busy qu) < MAX_BUSY.
Proof.
  assert (H : bool_decide (map_Forall (fun _ l => l = []) (q_busy <$> queues demo_arrived)) = true) by by vm_compute.
  apply bool_decide_eq_true in H. intros Hq. rewrite (H q (q_busy qu)) by (by rewrite lookup_fmap, Hq). unfold size_of, MAX_BUSY. cbn. lia.
Qed.
Lemma demo_offer : is_Some (transports demo_arrived !! 1%nat) /\ spare demo_arrived.
Proof. split; [vm_compute; by eexists|]. intros q qu. apply demo_few_deliveries. Qed.
Lemma demo_reach_sent : demo_reachable demo_sent.
Proof. apply demo_step; [apply demo_reach_arrived|apply demo_offer|by vm_compute]. Qed.
Lemma demo_report : exists en, entries demo_sent !! 4%nat = Some en /\ e_stream en = true.
Proof. apply streaming. by vm_compute. Qed.
Lemma demo_reach_failed : demo_reachable demo_failed.
Proof. apply demo_step; [apply demo_reach_sent|apply demo_report|by vm_compute]. Qed.

(** ** Properties *)

Section runs.
Context (service : nat) (recipient_limit : nat -> Z) (file : queue_files)
  (sorted : list (option nat * Z) -> list (option nat * Z)) (flush single_rcpt : nat -> bool).
Context (conf : gmap nat transport_conf) (qmgr_msg_rcpt_limit qmgr_rcpt_limit : Z).
Context (Hsu : surroundings_ok service file sorted conf qmgr_msg_rcpt_limit).
Local Notation reachable := (reachable service recipient_limit file sorted flush single_rcpt conf qmgr_msg_rcpt_limit qmgr_rcpt_limit).
Local Notation handle := (handle service recipient_limit file sorted flush single_rcpt qmgr_msg_rcpt_limit).

Lemma reachable_sound st : reachable st -> sound None None None st.
Proof using Hsu. intros Hr. eapply reachable_running; [exact Hsu|exact Hr]. Qed.



(** C2: Every counter counts, in every reachable state: the reference counts of queues,
    peers and messages, the entries of a job that are not selected, the recipients in
    memory of each job, of each message and in all, and the number of queues; a queue has
    each of its entries once, on the todo list or on the busy list, and a peer lists those
    that wait. *)
Theorem counters_count st : reachable st -> well_counted st.
Proof using Hsu. intros Hr. by apply sound_well_counted, reachable_sound. Qed.

(** C4: The concurrency limits are kept in every reachable state: a destination has at most
    as many deliveries at a time as the configuration of its transport allows, one if
    deliveries are rate-limited; its window stays in the machine's range; it has a reason
    exactly when it is throttled; and the success and failure counts are finite numbers. *)
Theorem concurrency_limited st q qu : reachable st -> queues st !! q = Some qu -> exists tr,
  transports st !! q_transport qu = Some tr /\ queue_fits tr qu /\
  (0 < t_dest_concurrency_limit tr -> size_of (q_busy qu) <= t_dest_concurrency_limit tr) /\
  (0 < t_rate_delay tr -> size_of (q_busy qu) <= 1).
Proof using Hsu.
  intros Hr Hq. pose proof (reachable_sound _ Hr) as Hs. destruct (queue_controlled _ _ _ _ _ _ Hs Hq) as (tr & Ht & Hk & Hf & _).
  destruct (ct_queue _ (sound_well_counted _ Hs) _ _ Hq) as (_ & _ & E). rewrite <- E. exists tr. do 2 (split; [done|]).
  split; [intros Hl; by apply (qf_limit _ _ Hf)|]. intros Hd. pose proof (tk_rate _ Hk Hd) as E1. destruct (qf_limit _ _ Hf); lia.
Qed.

(** C5: No destination or transport stays out of service: whenever one is throttled or
    suspended its timer is pending, and the handler of that timer completes and leaves
    it ready for deliveries (or discarded, if it has no entries). *)
Theorem out_of_service_recovers st : reachable st ->
  (forall q qu, queues st !! q = Some qu -> QMGR_QUEUE_THROTTLED qu = true -> enabled (QueueTimer q) st /\
     forall now, exists r st', handle (QueueTimer q) now st = Ret (r, st') /\ recovered q st') /\
  (forall q qu, queues st !! q = Some qu -> QMGR_QUEUE_SUSPENDED qu = true -> enabled (ResumeTimer q) st /\
     forall now, exists r st', handle (ResumeTimer q) now st = Ret (r, st') /\ recovered q st') /\
  (forall t tr, transports st !! t = Some tr -> QMGR_TRANSPORT_THROTTLED tr = true -> enabled (TransportTimer t) st /\
     forall now, exists r st', handle (TransportTimer t) now st = Ret (r, st') /\
       exists tr', transports st' !! t = Some tr' /\ QMGR_TRANSPORT_THROTTLED tr' = false).
Proof using Hsu.
  intros Hr. pose proof (reachable_sound _ Hr) as Hs. split; [|split].
  - intros q qu Hq Hth. destruct (queue_controlled _ _ _ _ _ _ Hs Hq) as (tr & _ & _ & _ & HT & _). unfold QMGR_QUEUE_THROTTLED in Hth.
    assert (Hin : q ∈ queue_timers st) by (apply HT; lia). split; [done|]. intros now. apply wp_run, no_result_wp.
    eapply wp_mono; [by apply queue_unthrottle_wrapper_wp|]. by intros ? st' (_ & _ & H).
  - intros q qu Hq Hsus. destruct (queue_controlled _ _ _ _ _ _ Hs Hq) as (tr & _ & _ & _ & _ & HR). unfold QMGR_QUEUE_SUSPENDED in Hsus.
    assert (Hin : q ∈ resume_timers st) by (apply HR; lia). split; [done|]. intros now. apply wp_run, no_result_wp.
    eapply wp_mono; [by apply queue_resume_wp|]. by intros ? st' (_ & _ & H).
  - intros t tr Ht Hd. destruct (dead_books _ _ _ _ _ _ Hs Ht) as [_ HT]. split; [by apply HT|]. intros now. apply wp_run, no_result_wp.
    eapply wp_mono; [by apply (transport_unthrottle_wp None None None t tr)|]. intros ? st' (_ & _ & tr' & E & H). exists tr'. by rewrite E, lookup_insert_eq.
Qed.


(** C7: Whatever preemption, blocked jobs and reading of more recipients do,
    qmgr_job_entry_select() completes (its loop over the job list ends), and an entry that
    it returns is one of the transport's, now on the busy list of its destination, which
    is within its concurrency window. *)
Theorem selection_ok st t now : reachable st -> is_Some (transports st !! t) -> spare st ->
  exists r st', qmgr_job_entry_select service recipient_limit file sorted flush single_rcpt t now st = Ret (r, st') /\
    well_typed st' /\ well_counted st' /\ forall e, r = Some e -> chosen t st' e.
Proof using Hsu.
  intros Hr Ht Hsp. apply wp_run. assert (Hrun : running conf st) by (by eapply reachable_running).
  eapply wp_mono; [apply job_entry_select_wp; [apply Hsu|split; [apply Hrun|by eapply running_file|done]|done]|].
  intros r st' (Hs & _ & H). split; [by apply sound_well_typed|]. split; [by apply sound_well_counted|done].
Qed.

(** C8: When a delivery process cannot be had, the transport is out of service and no
    entry waits for it any more, neither at its own destinations nor at those that were
    created meanwhile; entries that wait for other transports, and all deliveries in
    progress, are as before. *)
Theorem unavailable_outcome st t sent now : reachable st -> is_Some (transports st !! t) ->
  exists r st', handle (Offer t false sent) now st = Ret (r, st') /\
    (exists tr', transports st' !! t = Some tr' /\ QMGR_TRANSPORT_THROTTLED tr' = true) /\ (forall e, ~ waits_for st' t e) /\
    (forall e en, ~ waits_for st t e -> entries st !! e = Some en -> entries st' !! e = Some en).
Proof using Hsu.
  intros Hr [tr Ht]. apply wp_run. assert (Hrun : running conf st) by (by eapply reachable_running).
  eapply wp_mono; [by apply (unavailable_wp service t tr); [apply Hrun| |apply Hrun, Hsu]|]. by intros r st' (_ & H).
Qed.

(** C9: Moving a waiting entry to another destination loses no recipients: the entry is
    gone, an entry of the same message with the same recipients waits for the other
    destination, and all other entries are as before; nothing panics, even when the
    entry's destination, peer or the retry service's job come and go. *)
Theorem move_todo_keeps_recipients st dst entry now en qu : reachable st -> entries st !! entry = Some en ->
  queues st !! e_queue en = Some qu -> entry ∈ q_todo qu -> can_take st dst -> dst <> e_queue en ->
  exists r st', qmgr_entry_move_todo dst entry now st = Ret (r, st') /\ entries st' !! entry = None /\ moved dst en st' /\
    others_stay entry st st' /\ well_typed st' /\ well_counted st'.
Proof using Hsu.
  intros Hr He Hq Hin Hc Hne. apply wp_run. eapply wp_mono; [apply (move_todo_wp dst entry en qu); [by apply reachable_sound|done..]|].
  intros r st' (Hs & H1 & H2 & _ & _ & _ & _ & H3). split_and!; [done..|by apply sound_well_typed|by apply sound_well_counted].
Qed.
End runs.

Lemma counters_count_witness : well_counted demo_failed.
Proof. exact (counters_count _ _ _ _ _ _ _ _ _ demo_surroundings _ demo_reach_failed). Defined.

(** The destination of the failed delivery; queue 0 is for example.com. *)
Definition demo_site : QMGR_QUEUE := default demo_queue (queues demo_failed !! 0%nat).
Lemma demo_site_found : queues demo_failed !! 0%nat = Some demo_site.
Proof.
  unfold demo_site. assert (H : bool_decide (is_Some (queues demo_failed !! 0%nat)) = true) by by vm_compute.
  apply bool_decide_eq_true in H as [qu ->]. done.
Qed.
Lemma concurrency_limited_witness : exists tr, transports demo_failed !! q_transport demo_site = Some tr /\ queue_fits tr demo_site /\
  (0 < t_dest_concurrency_limit tr -> size_of (q_busy demo_site) <= t_dest_concurrency_limit tr) /\
  (0 < t_rate_delay tr -> size_of (q_busy demo_site) <= 1).
Proof. exact (concurrency_limited _ _ _ _ _ _ _ _ _ demo_surroundings _ 0%nat demo_site demo_reach_failed demo_site_found). Defined.
Lemma demo_site_throttled : QMGR_QUEUE_THROTTLED demo_site = true.
Proof. by vm_compute. Qed.
Lemma out_of_service_recovers_witness : enabled (QueueTimer 0) demo_failed /\
  exists r st', demo_handle (QueueTimer 0) 0 demo_failed = Ret (r, st') /\ recovered 0 st'.
Proof.
  destruct (out_of_service_recovers _ _ _ _ _ _ _ _ _ demo_surroundings _ demo_reach_failed) as [H _].
  destruct (H 0%nat demo_site demo_site_found demo_site_throttled) as [H1 H2]. exact (conj H1 (H2 0)).
Defined.
(** The delivery in progress. *)
Lemma demo_delivery : exists en qu, entries demo_sent !! 4%nat = Some en /\ e_stream en = true /\ queues demo_sent !! e_queue en = Some qu.
Proof.
  destruct demo_report as (en & He & Hs). destruct (ty_entry _ (sound_well_typed _ (reachable_sound _ _ _ _ _ _ _ _ _ demo_surroundings _ demo_reach_sent)) _ _ He)
    as (pe & qu & jb & msg & tr & Hp & _). exists en, qu. split; [done|]. split; [done|apply Hp].
Qed.
Lemma selection_ok_witness : exists r st', qmgr_job_entry_select 0 (fun _ => 1) demo_file id no_flag no_flag 1 0 demo_arrived = Ret (r, st') /\
  well_typed st' /\ well_counted st' /\ forall e, r = Some e -> chosen 1 st' e.
Proof. exact (selection_ok _ _ _ _ _ _ _ _ _ demo_surroundings _ 1%nat 0 demo_reach_arrived (proj1 demo_offer) (proj2 demo_offer)). Defined.
Lemma unavailable_outcome_witness : exists r st', demo_handle (Offer 1 false false) 0 demo_sent = Ret (r, st') /\
  (exists tr', transports st' !! 1%nat = Some tr' /\ QMGR_TRANSPORT_THROTTLED tr' = true) /\ (forall e, ~ waits_for st' 1 e) /\
  (forall e en, ~ waits_for demo_sent 1 e -> entries demo_sent !! e = Some en -> entries st' !! e = Some en).
Proof.
  assert (Ht : is_Some (transports demo_sent !! 1%nat)) by (vm_compute; by eexists).
  exact (unavailable_outcome _ _ _ _ _ _ _ _ _ demo_surroundings _ 1%nat false 0 demo_reach_sent Ht).
Defined.

(** The entry for example.org moves to the queue of the retry service. *)
Definition demo_waiting : QMGR_ENTRY := mk_qmgr_entry false 100 [7] 1 6.
Definition demo_org : QMGR_QUEUE := default demo_queue (queues demo_failed !! 1%nat).
Lemma demo_org_found : entries demo_failed !! 7%nat = Some demo_waiting /\ queues demo_failed !! 1%nat = Some demo_org /\ 7%nat ∈ q_todo demo_org.
Proof.
  split; [by vm_compute|]. split; [|apply list_elem_of_In; vm_compute; by left]. unfold demo_org.
  assert (H : bool_decide (is_Some (queues demo_failed !! 1%nat)) = true) by by vm_compute.
  by apply bool_decide_eq_true in H as [qu ->].
Qed.
Definition can_take_b (st : qmgr) (q : nat) : bool :=
  match queues st !! q with
  | Some qu => negb (QMGR_QUEUE_THROTTLED qu) && match transports st !! q_transport qu with Some tr => negb (QMGR_TRANSPORT_THROTTLED tr) | None => false end
  | None => false
  end.
Lemma can_take_check st q : can_take_b st q = true -> can_take st q.
Proof.
  unfold can_take_b. destruct (queues st !! q) as [qu|] eqn:Hq; [|done]. intros [H1%negb_true_iff H2]%andb_prop.
  destruct (transports st !! q_transport qu) as [tr|] eqn:Ht; [|done]. apply negb_true_iff in H2. by exists qu, tr.
Qed.
Lemma move_todo_keeps_recipients_witness : exists r st', qmgr_entry_move_todo 8 7 0 demo_failed = Ret (r, st') /\ entries st' !! 7%nat = None /\
  moved 8 demo_waiting st' /\ others_stay 7 demo_failed st' /\ well_typed st' /\ well_counted st'.
Proof.
  destruct demo_org_found as (H1 & H2 & H3).
  exact (move_todo_keeps_recipients _ _ _ _ _ _ _ _ _ demo_surroundings _ 8%nat 7%nat 0 demo_waiting demo_org demo_reach_failed H1 H2 H3
    (can_take_check demo_failed 8 ltac:(by vm_compute)) ltac:(done)).
Defined.

(** ** A retry queue without entries *)

(** One recipient, whose delivery fails. *)
Definition single_file : queue_files := fun _ _ => Some (fun _ => Some (mk_reading [mk_resolved 1 (str "example.com") 5] 0 0)).
Definition single_handle : event -> Z -> M (list nat) := handle 0 (fun _ => 1) single_file id no_flag no_flag 1000.
Definition single_reachable : qmgr -> Prop := reachable 0 (fun _ => 1) single_file id no_flag no_flag demo_confs 1000 20000.
Definition single_arrived : qmgr := run (single_handle (Arrive 100 (str "A")) 0) demo_start.
Definition single_sent : qmgr := run (single_handle (Offer 1 true true) 0) single_arrived.
Definition single_failed : qmgr := run (single_handle (Report 3 (Reported true (str "4.4.1") (str "timeout"))) 0) single_sent.

Lemma single_step ev now st : single_reachable st -> enabled ev st -> completes (single_handle ev now st) = true -> single_reachable (run (single_handle ev now) st).
Proof.
  unfold run. intros Hr Hen. destruct (single_handle ev now st) as [[r st']| |] eqn:E; [|done..]. intros _.
  by apply (reach_step _ _ _ _ _ _ _ _ _ st ev now r).
Qed.

(** A queue that no entry, timer or throttle keeps. *)
Definition left_over (st : qmgr) (q : nat) : bool :=
  from_option (fun qu => QMGR_QUEUE_READY qu && bool_decide (q_todo qu = []) && bool_decide (q_busy qu = [])) false (queues st !! q) &&
  bool_decide (q ∉ queue_timers st) && bool_decide (q ∉ resume_timers st).

(** When a destination without waiting entries is throttled, qmgr_defer_todo() creates a
    queue of the retry service for the reason, and puts nothing into it: only
    qmgr_entry_done() and timers release queues, so that it stays until the same reason
    is needed again. *)
Lemma retry_queue_leaks : exists st q, single_reachable st /\ entries st = ∅ /\ left_over st q = true.
Proof.
  exists single_failed. exists 4%nat. split; [|split; [by vm_compute|by vm_compute]].
  apply single_step; [apply single_step; [apply single_step; [apply reach_start|by split|by vm_compute]| |by vm_compute]| |by vm_compute].
  - split; [vm_compute; by eexists|]. intros q qu Hq.
    assert (H : bool_decide (map_Forall (fun _ l => l = []) (q_busy <$> queues single_arrived)) = true) by by vm_compute.
    apply bool_decide_eq_true in H. rewrite (H q (q_busy qu)) by (by rewrite lookup_fmap, Hq). unfold size_of, MAX_BUSY. cbn. lia.
  - apply streaming. by vm_compute.
Qed.
