(* ===== verification/IpMatch.v ===== *)
(** IP address patterns: ip_match.c (src/src/util).

    A pattern such as [1.2.3.[4;6..8]] is compiled to byte code, which is run against an
    address.  The specification is a syntax tree: the texts that denote a pattern, its
    code, and the addresses that it matches. *)

From S2P Require Export Prelude.

(** ** Byte codes *)

Definition AF_INET : Z := 2.
Definition IP_MATCH_CODE_OPEN : Z := "["%ch.
Definition IP_MATCH_CODE_CLOSE : Z := "]"%ch.
Definition IP_MATCH_CODE_OVAL : Z := "N"%ch.
Definition IP_MATCH_CODE_RANGE : Z := "R"%ch.
Definition IP_MATCH_CODE_EOF : Z := 0.
Definition IP_MATCH_CODE_ERR : Z := 256.

Definition INT_MAX : Z := 2 ^ 31 - 1.

(** ** Tokens

    A pointer into the pattern is the text that it points to.  [oval] is the variable
    that receives the value of a number; it has no value at first. *)

(** The digits after the first one; the value is an [int], whose overflow is undefined. *)
Fixpoint octet_loop (oval type : Z) (cp : bytes) : outcome (Z * Z * bytes) :=
  match cp with
  | c :: cp' =>
      if ISDIGIT c then
        let oval := oval * 10 + (c - "0"%ch) in
        if INT_MAX <? oval then Undef
        else octet_loop oval (if 255 <? oval then IP_MATCH_CODE_ERR else type) cp'
      else Ret (oval, type, cp)
  | [] => Ret (oval, type, cp)
  end.

(** The token type, the text after the token, and the variable. *)
Definition ip_match_next_token (cp : bytes) (oval : option Z) : outcome (Z * bytes * option Z) :=
  match cp with
  | [] => Ret (IP_MATCH_CODE_EOF, cp, oval)
  | c :: cp' =>
      if ISDIGIT c then
        '(oval, type, next) ← octet_loop (c - "0"%ch) IP_MATCH_CODE_OVAL cp';
        Ret (type, next, Some oval)
      else Ret (c, cp', oval)
  end.

(** ** Parser *)

(** The byte code, or an error message (in the same buffer). *)
Inductive parsed (A : Type) := Codes (a : A) | Error (message : bytes).
Arguments Codes {A} a.
Arguments Error {A} message.

(** The error, and the pattern with the token in error marked. *)
Definition ipmatch_print_parse_error {A} (start here next : bytes) (text : bytes) : parsed A :=
  Error (text ++ str " at " ++ [34] ++ take (length start - length here) start ++ str ">"
         ++ take (length here - length next) here ++ str "<" ++ next ++ [34]).

(** Use the variable; it may not have been set. *)
Definition value (oval : option Z) : outcome Z := match oval with Some v => Ret v | None => Undef end.

(** A sequence inside [], after its opening bracket. *)
Fixpoint seq_loop (fuel : nat) (pattern cp : bytes) (oval : option Z) (codes : bytes)
  : outcome (parsed (bytes * option Z * bytes)) :=
  match fuel with
  | O => Undef
  | S fuel =>
      let separator (look_ahead : Z) saved_cp cp oval codes :=
        if look_ahead =? ";"%ch then seq_loop fuel pattern cp oval codes
        else if look_ahead =? IP_MATCH_CODE_CLOSE then Ret (Codes (cp, oval, codes ++ [IP_MATCH_CODE_CLOSE]))
        else Ret (ipmatch_print_parse_error pattern saved_cp cp (str "need " ++ [34] ++ str ";" ++ [34] ++ str " or " ++ [34] ++ str "]" ++ [34])) in
      '(token_type, cp1, oval) ← ip_match_next_token cp oval;
      if token_type =? IP_MATCH_CODE_OVAL then
        let saved_oval := oval in
        '(look_ahead, cp2, oval) ← ip_match_next_token cp1 oval;
        if look_ahead =? "."%ch then
          '(token_type, cp3, oval) ← ip_match_next_token cp2 oval;
          if token_type =? "."%ch then
            '(token_type, cp4, oval) ← ip_match_next_token cp3 oval;
            if token_type =? IP_MATCH_CODE_OVAL then
              lo ← value saved_oval;
              hi ← value oval;
              if lo <=? hi then
                '(look_ahead, cp5, oval) ← ip_match_next_token cp4 oval;
                separator look_ahead cp4 cp5 oval (codes ++ [IP_MATCH_CODE_RANGE; lo; hi])
              else Ret (ipmatch_print_parse_error pattern cp3 cp4 (str "numeric range error"))
            else Ret (ipmatch_print_parse_error pattern cp3 cp4 (str "numeric range error"))
          else Ret (ipmatch_print_parse_error pattern cp2 cp3 (str "numeric range error"))
        else
          v ← value saved_oval;
          separator look_ahead cp1 cp2 oval (codes ++ [IP_MATCH_CODE_OVAL; v])
      else Ret (ipmatch_print_parse_error pattern cp cp1 (str "need decimal number 0..255"))
  end.

(** One address field. *)
Definition field_code (fuel : nat) (pattern cp : bytes) (oval : option Z) (codes : bytes)
  : outcome (parsed (bytes * option Z * bytes)) :=
  '(token_type, cp1, oval) ← ip_match_next_token cp oval;
  if token_type =? IP_MATCH_CODE_OVAL then
    v ← value oval;
    Ret (Codes (cp1, oval, codes ++ [IP_MATCH_CODE_OVAL; v]))
  else if token_type =? IP_MATCH_CODE_OPEN then
    seq_loop fuel pattern cp1 oval (codes ++ [IP_MATCH_CODE_OPEN])
  else Ret (ipmatch_print_parse_error pattern cp cp1 (str "need decimal number 0..255 or " ++ [34] ++ str "[" ++ [34])).

(** The fields that are left, at least one. *)
Fixpoint field_loop (fuel : nat) (left : nat) (pattern cp : bytes) (oval : option Z) (codes : bytes)
  : outcome (parsed bytes) :=
  field ← field_code fuel pattern cp oval codes;
  match field with
  | Error e => Ret (Error e)
  | Codes (cp, oval, codes) =>
      match left with
      | S (S _ as left) =>
          '(token_type, cp1, oval) ← ip_match_next_token cp oval;
          if token_type =? "."%ch then field_loop fuel left pattern cp1 oval codes
          else Ret (ipmatch_print_parse_error pattern cp cp1 (str "need " ++ [34] ++ str "." ++ [34]))
      | _ =>
          match cp with
          | [] => Ret (Codes (codes ++ [0]))
          | _ =>
              '(_, cp1, _) ← ip_match_next_token cp oval;
              Ret (ipmatch_print_parse_error pattern cp cp1 (str "garbage after pattern"))
          end
      end
  end.

(** FIND_TERMINATOR: the text in front of the bracket that closes the first one, and
    the bracket with the text after it. *)
Fixpoint find_terminator (level : Z) (cp : bytes) : bytes * bytes :=
  match cp with
  | [] => ([], [])
  | c :: cp' =>
      let level := if c =? "["%ch then level + 1 else level in
      let next level := let (a, b) := find_terminator level cp' in (c :: a, b) in
      if negb (c =? "]"%ch) then next level
      else if level - 1 =? 0 then ([], cp) else next (level - 1)
  end.

(** The parser proper; each round of its inner loop takes at least two tokens. *)
Definition parse_fields (pattern : bytes) : outcome (parsed bytes) :=
  match pattern with
  | [] => Ret (Error (str "empty address pattern"))
  | _ => field_loop (S (length pattern)) 4 pattern pattern None [AF_INET]
  end.

Definition ip_match_parse (pattern : bytes) : outcome (parsed bytes) :=
  match pattern with
  | c :: pattern' =>
      if c =? "["%ch then
        match find_terminator 0 pattern with
        | (_, []) => Ret (Error (str "missing " ++ [34] ++ str "]" ++ [34] ++ str " character"))
        | (inner, [_]) => parse_fields (tail inner)
        | _ => parse_fields pattern
        end
      else parse_fields pattern
  | [] => parse_fields pattern
  end.

(** ** Execution *)

(** A sequence, after its opening bracket: does the octet match, and the code after it. *)
Fixpoint wildcard_loop (octet : Z) (matched : bool) (bp : bytes) : outcome (bool * bytes) :=
  match bp with
  | [] => Undef
  | ch :: bp =>
      if ch =? IP_MATCH_CODE_RANGE then
        match bp with
        | lo :: hi :: bp => wildcard_loop octet (if matched then matched else (lo <=? octet) && (octet <=? hi)) bp
        | _ => Undef
        end
      else if ch =? IP_MATCH_CODE_OVAL then
        match bp with
        | v :: bp => wildcard_loop octet (if matched then matched else octet =? v) bp
        | _ => Undef
        end
      else if ch =? IP_MATCH_CODE_CLOSE then Ret (matched, bp)
      else Panic
  end.

Fixpoint execute_loop (bp addr : bytes) : outcome bool :=
  match addr with
  | [] => Ret true
  | octet :: addr =>
      match bp with
      | [] => Undef
      | ch :: bp =>
          if ch =? IP_MATCH_CODE_OVAL then
            match bp with
            | v :: bp => if octet =? v then execute_loop bp addr else Ret false
            | [] => Undef
            end
          else if ch =? IP_MATCH_CODE_OPEN then
            '(matched, bp) ← wildcard_loop octet false bp;
            if negb matched then Ret false else execute_loop bp addr
          else Panic
      end
  end.

(** [addr_bytes] has four bytes. *)
Definition ip_match_execute (byte_codes addr_bytes : bytes) : outcome bool :=
  match byte_codes with
  | family :: bp => if negb (family =? AF_INET) then Panic else execute_loop bp addr_bytes
  | [] => Undef
  end.

(** ** Printing *)

(** The format %d for a byte. *)
Definition decimal (n : Z) : bytes :=
  (if 100 <=? n then ["0"%ch + n / 100] else []) ++ (if 10 <=? n then ["0"%ch + n / 10 mod 10] else [])
  ++ ["0"%ch + n mod 10].

Fixpoint dump_wildcard (bp out : bytes) : outcome (bytes * bytes) :=
  let separator bp out :=
    match bp with
    | c :: _ => Ret (if negb (c =? IP_MATCH_CODE_CLOSE) then out ++ str ";" else out)
    | [] => Undef
    end in
  match bp with
  | [] => Undef
  | ch :: bp =>
      if ch =? IP_MATCH_CODE_RANGE then
        match bp with
        | lo :: hi :: bp =>
            out ← separator bp (out ++ decimal lo ++ str ".." ++ decimal hi);
            dump_wildcard bp out
        | _ => Undef
        end
      else if ch =? IP_MATCH_CODE_OVAL then
        match bp with
        | v :: bp =>
            out ← separator bp (out ++ decimal v);
            dump_wildcard bp out
        | [] => Undef
        end
      else if ch =? IP_MATCH_CODE_CLOSE then Ret (bp, out)
      else Panic
  end.

(** The fields that are left, at least one. *)
Fixpoint dump_loop (left : nat) (bp out : bytes) : outcome bytes :=
  match bp with
  | [] => Undef
  | ch :: bp =>
      '(bp, out) ← (if ch =? IP_MATCH_CODE_OVAL then
                      match bp with v :: bp => Ret (bp, out ++ decimal v) | [] => Undef end
                    else if ch =? IP_MATCH_CODE_OPEN then
                      '(bp, out) ← dump_wildcard bp (out ++ str "[");
                      Ret (bp, out ++ str "]")
                    else Panic);
      match bp with
      | [] => Undef
      | c :: _ =>
          match left with
          | S (S _ as left) => if c =? 0 then Panic else dump_loop left bp (out ++ str ".")
          | _ => if negb (c =? 0) then Panic else Ret out
          end
      end
  end.

Definition ip_match_dump (byte_codes : bytes) : outcome bytes :=
  match byte_codes with
  | family :: bp => if negb (family =? AF_INET) then Panic else dump_loop 4 bp []
  | [] => Undef
  end.

(** ** Patterns *)

Inductive member := Num (n : Z) | Range (lo hi : Z).
Inductive field := Octet (n : Z) | Choice (ms : list member).

(** The text of an octet: any decimal number up to 255, leading zeros allowed. *)
Definition add_digit (n c : Z) : Z := n * 10 + (c - "0"%ch).
Definition number (t : bytes) : Z := fold_left add_digit t 0.
Definition octet_text (t : bytes) (n : Z) : Prop :=
  t <> [] /\ forallb ISDIGIT t = true /\ number t = n /\ n <= 255.

Inductive member_text : bytes -> member -> Prop :=
  | num_text t n : octet_text t n -> member_text t (Num n)
  | range_text t1 lo t2 hi : octet_text t1 lo -> octet_text t2 hi -> lo <= hi ->
      member_text (t1 ++ str ".." ++ t2) (Range lo hi).

Inductive members_text : bytes -> list member -> Prop :=
  | last_member t m : member_text t m -> members_text t [m]
  | next_member t m ts ms : member_text t m -> members_text ts ms -> members_text (t ++ str ";" ++ ts) (m :: ms).

Inductive field_text : bytes -> field -> Prop :=
  | octet_field t n : octet_text t n -> field_text t (Octet n)
  | choice_field ts ms : members_text ts ms -> field_text (str "[" ++ ts ++ str "]") (Choice ms).

Inductive fields_text : bytes -> list field -> Prop :=
  | last_field t f : field_text t f -> fields_text t [f]
  | next_field t f ts fs : field_text t f -> fields_text ts fs -> fields_text (t ++ str "." ++ ts) (f :: fs).

(** Four fields, possibly with brackets around the whole. *)
Definition denotes (s : bytes) (p : list field) : Prop :=
  length p = 4%nat /\ (fields_text s p \/ exists t, s = str "[" ++ t ++ str "]" /\ fields_text t p).

(** The code of a pattern. *)
Definition member_code (m : member) : bytes :=
  match m with
  | Num n => [IP_MATCH_CODE_OVAL; n]
  | Range lo hi => [IP_MATCH_CODE_RANGE; lo; hi]
  end.
Definition members_code (ms : list member) : bytes := concat (map member_code ms).
Definition code_of_field (f : field) : bytes :=
  match f with
  | Octet n => [IP_MATCH_CODE_OVAL; n]
  | Choice ms => [IP_MATCH_CODE_OPEN] ++ members_code ms ++ [IP_MATCH_CODE_CLOSE]
  end.
Definition fields_code (p : list field) : bytes := concat (map code_of_field p).
Definition pattern_code (p : list field) : bytes := [AF_INET] ++ fields_code p ++ [0].

(** The addresses that it matches. *)
Definition member_matches (octet : Z) (m : member) : bool :=
  match m with Num n => octet =? n | Range lo hi => (lo <=? octet) && (octet <=? hi) end.
Definition field_matches (f : field) (octet : Z) : bool :=
  match f with Octet n => octet =? n | Choice ms => existsb (member_matches octet) ms end.
Definition pattern_matches (p : list field) (addr : bytes) : bool :=
  forallb (fun '(f, octet) => field_matches f octet) (combine p addr).

(** Texts that the tokenizer is made for: no capital N, which it takes for the type code
    of a number, and no number of ten digits or more, which may overflow an [int]. *)
Fixpoint short_numbers (k : nat) (s : bytes) : bool :=
  match s with
  | [] => true
  | c :: s => if ISDIGIT c then (k <? 9)%nat && short_numbers (S k) s else short_numbers 0 s
  end.
Definition clean (s : bytes) : bool := forallb (fun c => negb (c =? "N"%ch)) s && short_numbers 0 s.

(** ** Tokens of clean texts *)

Definition no_digit (s : bytes) : Prop := match s with c :: _ => ISDIGIT c = false | [] => True end.

Lemma short_numbers_le s : forall k k', (k' <= k)%nat -> short_numbers k s = true -> short_numbers k' s = true.
Proof.
  induction s as [|c s IH]; intros k k' Hk; cbn [short_numbers]; [done|]. destruct (ISDIGIT c); [|done].
  rewrite !andb_true_iff, !Nat.ltb_lt. intros [H1 H2]. split; [lia|]. apply (IH (S k)); [lia|done].
Qed.

Lemma clean_cons c s : clean (c :: s) = true -> c <> "N"%ch /\ clean s = true.
Proof.
  unfold clean. cbn. rewrite !andb_true_iff. intros [[H1 H2] H3]. split; [by zb|]. split; [done|].
  destruct (ISDIGIT c); [|done]. apply (short_numbers_le s 1 0); [lia|done].
Qed.

Lemma clean_app t s : clean (t ++ s) = true -> clean s = true.
Proof. induction t as [|c t IH]; [done|]. cbn [app]. intros [_ H]%clean_cons. by apply IH. Qed.

Lemma fold_digits_ge t : forall v, 0 <= v -> forallb ISDIGIT t = true -> v <= fold_left add_digit t v.
Proof.
  induction t as [|c t IH]; cbn; intros v Hv H; [lia|]. apply andb_true_iff in H as [Hc H].
  unfold add_digit at 2. assert (v <= v * 10 + (c - 48)) by (zb; lia).
  etrans; [|apply IH; [unfold add_digit; zb; lia|done]]. unfold add_digit. lia.
Qed.

Lemma octet_loop_eq t next : no_digit next -> forallb ISDIGIT t = true -> forall k v ty,
  short_numbers k (t ++ next) = true -> 0 <= v < 10 ^ Z.of_nat k -> (255 < v -> ty = IP_MATCH_CODE_ERR) ->
  octet_loop v ty (t ++ next)
  = Ret (fold_left add_digit t v, if 255 <? fold_left add_digit t v then IP_MATCH_CODE_ERR else ty, next).
Proof.
  intros Hnext. induction t as [|c t IH]; intros Ht k v ty Hs Hv Hty; cbn in Ht |- *.
  { replace (if 255 <? v then IP_MATCH_CODE_ERR else ty) with ty by (case_match; [zb; apply Hty; lia|done]).
    destruct next as [|c next]; [done|]. cbn in Hnext |- *. by rewrite Hnext. }
  apply andb_true_iff in Ht as [Hc Ht]. rewrite Hc. cbn [app short_numbers] in Hs. rewrite Hc in Hs. apply andb_true_iff in Hs as [Hk Hs].
  apply Nat.ltb_lt in Hk. assert (Hc' : 0 <= c - 48 <= 9) by (zb; lia).
  assert (Hp : 10 ^ Z.of_nat (S k) = 10 * 10 ^ Z.of_nat k) by (rewrite Nat2Z.inj_succ, Z.pow_succ_r; lia).
  assert (Hp9 : 10 ^ Z.of_nat (S k) <= 10 ^ 9) by (apply Z.pow_le_mono_r; lia).
  change (10 ^ 9) with 1000000000 in Hp9.
  assert (Hi : (INT_MAX <? v * 10 + (c - 48)) = false) by (unfold INT_MAX; lia). rewrite Hi.
  rewrite (IH Ht (S k)) by (done || lia || (intros; rewrite (proj2 (Z.ltb_lt _ _)); [done|lia])).
  fold (add_digit v c). do 3 f_equal. pose proof (fold_digits_ge t (add_digit v c) ltac:(unfold add_digit; lia) Ht).
  repeat case_match; zb; try done. lia.
Qed.

(** A token at the start of a text. *)
Inductive token (oval : option Z) : bytes -> Z -> bytes -> option Z -> Prop :=
  | tok_eof : token oval [] IP_MATCH_CODE_EOF [] oval
  | tok_octet t n next : octet_text t n -> no_digit next -> token oval (t ++ next) IP_MATCH_CODE_OVAL next (Some n)
  | tok_error t next v : token oval (t ++ next) IP_MATCH_CODE_ERR next v
  | tok_literal c next : ISDIGIT c = false -> c <> "N"%ch -> token oval (c :: next) c next oval.

Lemma span_digits s : exists t next, s = t ++ next /\ forallb ISDIGIT t = true /\ no_digit next.
Proof.
  induction s as [|c s (t & next & -> & Ht & Hn)]; [by exists [], []|].
  destruct (ISDIGIT c) eqn:Hc; [|by exists [], (c :: t ++ next)].
  exists (c :: t), next. cbn. by rewrite Hc.
Qed.

(** A number at the start of a text is taken up to its last digit. *)
Lemma next_token_number t next oval : t <> [] -> forallb ISDIGIT t = true -> no_digit next -> clean (t ++ next) = true ->
  ip_match_next_token (t ++ next) oval
  = Ret (if 255 <? number t then IP_MATCH_CODE_ERR else IP_MATCH_CODE_OVAL, next, Some (number t)).
Proof.
  intros Hne Ht Hn Hc. destruct t as [|c t]; [done|]. cbn in Ht. apply andb_true_iff in Ht as [Hd Ht]. cbn.
  rewrite Hd. unfold clean in Hc. apply andb_true_iff in Hc as [_ Hc]. cbn in Hc. rewrite Hd in Hc.
  rewrite (octet_loop_eq t next Hn Ht 1) by (done || (zb; cbn; lia)).
  cbn. unfold number. cbn. by replace (add_digit 0 c) with (c - 48) by (unfold add_digit; lia).
Qed.

Lemma next_token_total cp oval : clean cp = true -> exists type next oval',
  ip_match_next_token cp oval = Ret (type, next, oval') /\ token oval cp type next oval' /\ clean next = true
  /\ (length next <= length cp)%nat.
Proof.
  intros Hc. destruct (span_digits cp) as (t & next & -> & Ht & Hn). destruct t as [|d t].
  - cbn in Hc |- *. destruct next as [|c next].
    + exists IP_MATCH_CODE_EOF, [], oval. split_and!; [done|constructor|done|done].
    + cbn in Hn. cbn [ip_match_next_token]. rewrite Hn. apply clean_cons in Hc as [H1 H2].
      exists c, next, oval. split_and!; [done|by constructor|done|cbn; lia].
  - rewrite (next_token_number (d :: t) next oval) by done. eexists _, next, _. split_and!; [done| |by eapply clean_app|].
    + case_match; [apply tok_error|]. apply tok_octet; [|done]. split_and!; [done..|zb; lia].
    + rewrite length_app. lia.
Qed.

Lemma octet_token t n next oval : octet_text t n -> no_digit next -> clean (t ++ next) = true ->
  ip_match_next_token (t ++ next) oval = Ret (IP_MATCH_CODE_OVAL, next, Some n).
Proof.
  intros (H1 & H2 & <- & H4) Hn Hc. rewrite next_token_number by done. by rewrite (proj2 (Z.ltb_ge _ _) H4).
Qed.

Lemma literal_token c next oval : ISDIGIT c = false -> ip_match_next_token (c :: next) oval = Ret (c, next, oval).
Proof. intros Hc. cbn. by rewrite Hc. Qed.

Lemma token_octet_inv oval cp next v : token oval cp IP_MATCH_CODE_OVAL next v ->
  exists t n, cp = t ++ next /\ octet_text t n /\ v = Some n.
Proof.
  remember IP_MATCH_CODE_OVAL as ty eqn:E. intros H. destruct H as [|t n next Ht _|t next v|c next Hd Hn]; try done.
  by exists t, n.
Qed.

Lemma token_literal_inv oval cp type next v c : token oval cp type next v -> type = c ->
  c <> IP_MATCH_CODE_EOF -> c <> IP_MATCH_CODE_ERR -> c <> IP_MATCH_CODE_OVAL -> cp = c :: next /\ v = oval.
Proof. intros H. by destruct H; intros <-. Qed.

(** ** The parser is sound *)

Definition seq_result (cp codes : bytes) (r : parsed (bytes * option Z * bytes)) : Prop :=
  match r with
  | Error _ => True
  | Codes (cp', _, codes') => exists ts ms, cp = ts ++ str "]" ++ cp' /\ members_text ts ms
      /\ codes' = codes ++ members_code ms ++ [IP_MATCH_CODE_CLOSE] /\ clean cp' = true
  end.

(** Read the next token. *)
Ltac read_token :=
  match goal with
  | Hc : clean ?cp = true |- context [ip_match_next_token ?cp ?oval] =>
      let type := fresh "type" in let next := fresh "next" in let v := fresh "v" in
      let E := fresh "E" in let Ht := fresh "Ht" in let Hn := fresh "Hn" in let Hl := fresh "Hl" in
      destruct (next_token_total cp oval Hc) as (type & next & v & E & Ht & Hn & Hl);
      rewrite E; cbn [mbind outcome_bind]; clear E
  end.
Ltac bad_token := eexists; split; [reflexivity|done].

Lemma seq_loop_sound fuel pattern : forall cp oval codes, clean cp = true -> (length cp < fuel)%nat ->
  exists r, seq_loop fuel pattern cp oval codes = Ret r /\ seq_result cp codes r.
Proof.
  induction fuel as [|fuel IH]; intros cp oval codes Hc Hf; [lia|]. cbn [seq_loop].
  read_token. destruct (Z.eqb_spec type IP_MATCH_CODE_OVAL) as [->|]; [|bad_token].
  apply token_octet_inv in Ht as (t & n & -> & Ht & ->). rewrite length_app in Hf.
  assert (Hsep : forall la cp' v m tm saved codes1, clean cp' = true -> (length cp' <= length next)%nat ->
    (la = ";"%ch \/ la = "]"%ch -> exists u, t ++ next = tm ++ [la] ++ cp' /\ u = tt) ->
    member_text tm m -> codes1 = codes ++ member_code m ->
    exists r, (if la =? ";"%ch then seq_loop fuel pattern cp' v codes1
        else if la =? IP_MATCH_CODE_CLOSE then Ret (Codes (cp', v, codes1 ++ [IP_MATCH_CODE_CLOSE]))
        else Ret (ipmatch_print_parse_error pattern saved cp' (str "need " ++ [34] ++ str ";" ++ [34] ++ str " or " ++ [34] ++ str "]" ++ [34])))
      = Ret r /\ seq_result (t ++ next) codes r).
  { intros la cp' v m tm saved codes1 Hc' Hl' Htm Hm ->. destruct (Z.eqb_spec la ";"%ch) as [->|].
    - destruct Htm as (_ & E & _); [by left|]. rewrite E.
      assert (Hlen : (length cp' < fuel)%nat) by (destruct Ht as [Hne _]; destruct t; [done|cbn in Hf; lia]).
      destruct (IH cp' v (codes ++ member_code m) Hc' Hlen) as (r & Hr & Hs). exists r. split; [done|].
      destruct r as [[[cp2 v2] codes2]|]; [|done]. destruct Hs as (ts & ms & -> & Hms & -> & Hc2).
      exists (tm ++ str ";" ++ ts), (m :: ms). split_and!; [by rewrite <- !app_assoc|by constructor| |done].
      unfold members_code. cbn [map concat]. by rewrite <- !app_assoc.
    - destruct (Z.eqb_spec la IP_MATCH_CODE_CLOSE) as [->|]; [|bad_token].
      destruct Htm as (_ & E & _); [by right|]. eexists. split; [reflexivity|]. rewrite E. exists tm, [m].
      split_and!; [done|by constructor| |done]. unfold members_code. cbn. by rewrite app_nil_r, <- !app_assoc. }
  read_token. destruct (Z.eqb_spec type "."%ch) as [->|Hdot].
  - apply (token_literal_inv _ _ _ _ _ "."%ch) in Ht0 as [-> ->]; [|done..].
    read_token. destruct (Z.eqb_spec type "."%ch) as [->|]; [|bad_token].
    apply (token_literal_inv _ _ _ _ _ "."%ch) in Ht0 as [-> ->]; [|done..].
    read_token. destruct (Z.eqb_spec type IP_MATCH_CODE_OVAL) as [->|]; [|bad_token].
    apply token_octet_inv in Ht0 as (t2 & n2 & -> & Ht2 & ->). cbn [value mbind outcome_bind].
    destruct (Z.leb_spec n n2) as [Hle|]; [|bad_token]. read_token.
    eapply Hsep with (m := Range n n2) (tm := t ++ str ".." ++ t2).
    + done.
    + rewrite length_app in Hl2. cbn. rewrite length_app. lia.
    + intros Hla. apply (token_literal_inv _ _ _ _ _ type) in Ht0 as [-> _]; [|done|by destruct Hla; subst..].
      exists tt. split; [|done]. by rewrite <- !app_assoc.
    + by constructor.
    + done.
  - cbn [value mbind outcome_bind]. eapply Hsep with (m := Num n) (tm := t); [done| |  |by constructor|done].
    + done.
    + intros Hla. apply (token_literal_inv _ _ _ _ _ type) in Ht0 as [-> _]; [|done|by destruct Hla; subst..].
      by exists tt.
Qed.

Definition field_result (cp codes : bytes) (r : parsed (bytes * option Z * bytes)) : Prop :=
  match r with
  | Error _ => True
  | Codes (cp', _, codes') => exists t f, cp = t ++ cp' /\ field_text t f /\ codes' = codes ++ code_of_field f /\ clean cp' = true
  end.

Lemma field_code_sound fuel pattern cp oval codes : clean cp = true -> (length cp < fuel)%nat ->
  exists r, field_code fuel pattern cp oval codes = Ret r /\ field_result cp codes r.
Proof.
  intros Hc Hf. unfold field_code. read_token.
  destruct (Z.eqb_spec type IP_MATCH_CODE_OVAL) as [->|].
  { apply token_octet_inv in Ht as (t & n & -> & Ht & ->). cbn [value mbind outcome_bind]. eexists. split; [reflexivity|].
    exists t, (Octet n). split_and!; [done|by constructor|done|done]. }
  destruct (Z.eqb_spec type IP_MATCH_CODE_OPEN) as [->|]; [|bad_token].
  apply (token_literal_inv _ _ _ _ _ IP_MATCH_CODE_OPEN) in Ht as [-> ->]; [|done..].
  destruct (seq_loop_sound fuel pattern next oval (codes ++ [IP_MATCH_CODE_OPEN]) Hn) as (r & Hr & Hs); [cbn in Hf; lia|].
  exists r. split; [done|]. destruct r as [[[cp2 v2] codes2]|]; [|done]. destruct Hs as (ts & ms & -> & Hms & -> & Hc2).
  exists (str "[" ++ ts ++ str "]"), (Choice ms). split_and!; [|by constructor| |done].
  - by rewrite <- !app_assoc.
  - by rewrite <- !app_assoc.
Qed.

Lemma field_loop_sound fuel pattern left : forall cp oval codes, clean cp = true -> (length cp < fuel)%nat ->
  exists r, field_loop fuel (S left) pattern cp oval codes = Ret r
    /\ match r with
       | Error _ => True
       | Codes c => exists p, fields_text cp p /\ length p = S left /\ c = codes ++ fields_code p ++ [0]
       end.
Proof.
  induction left as [|left IH]; intros cp oval codes Hc Hf; cbn [field_loop];
    destruct (field_code_sound fuel pattern cp oval codes Hc Hf) as (r & -> & Hr); cbn [mbind outcome_bind];
    (destruct r as [[[cp1 v1] codes1]|]; [|bad_token]); destruct Hr as (t & f & -> & Hft & -> & Hc1).
  - destruct cp1 as [|c cp1].
    + eexists. split; [reflexivity|]. exists [f]. rewrite app_nil_r. split_and!; [by constructor|done|].
      unfold fields_code. cbn. by rewrite app_nil_r, <- app_assoc.
    + read_token. bad_token.
  - read_token. destruct (Z.eqb_spec type "."%ch) as [->|]; [|bad_token].
    apply (token_literal_inv _ _ _ _ _ "."%ch) in Ht as [-> ->]; [|done..].
    destruct (IH next v1 (codes ++ code_of_field f) Hn) as (r & Hr & Hs); [rewrite length_app in Hf; cbn in Hf; lia|].
    exists r. split; [done|]. destruct r as [c|]; [|done]. destruct Hs as (p & Hp & Hl1 & ->).
    exists (f :: p). split_and!; [by constructor|cbn; lia|]. unfold fields_code. cbn. by rewrite <- !app_assoc.
Qed.

Lemma parse_fields_sound s : clean s = true ->
  exists r, parse_fields s = Ret r
    /\ match r with
       | Error _ => True
       | Codes c => exists p, fields_text s p /\ length p = 4%nat /\ c = pattern_code p
       end.
Proof.
  intros Hc. unfold parse_fields. destruct s as [|c s]; [bad_token|].
  destruct (field_loop_sound (S (length (c :: s))) (c :: s) 3 (c :: s) None [AF_INET] Hc) as (r & Hr & Hs); [lia|].
  exists r. split; [exact Hr|]. destruct r as [codes|]; [|done]. destruct Hs as (p & Hp & Hl & ->). by exists p.
Qed.

Lemma find_terminator_split cp : forall level a b, find_terminator level cp = (a, b) ->
  cp = a ++ b /\ (b = [] \/ exists b', b = "]"%ch :: b').
Proof.
  induction cp as [|c cp IH]; cbn [find_terminator]; intros level a b H.
  { injection H as <- <-. auto. }
  destruct (Z.eqb_spec c "]"%ch) as [->|]; cbn [negb] in H.
  - case_match eqn:E; [injection H as <- <-; split; [done|right; by eexists]|].
    destruct (find_terminator _ cp) as [a' b'] eqn:E'. injection H as <- <-. apply IH in E' as [-> Hb]. by split.
  - destruct (find_terminator _ cp) as [a' b'] eqn:E'. injection H as <- <-. apply IH in E' as [-> Hb]. by split.
Qed.

Lemma clean_prefix t s : clean (t ++ s) = true -> no_digit s -> clean t = true.
Proof.
  unfold clean. rewrite forallb_app. intros H Hs. rewrite !andb_true_iff in *. destruct H as [[H1 _] H2]. split; [done|].
  revert H2. generalize 0%nat. induction t as [|c t IH]; intros k H2; [done|]. cbn [app short_numbers forallb] in *.
  apply andb_true_iff in H1 as [_ H1]. destruct (ISDIGIT c); [|by apply IH].
  apply andb_true_iff in H2 as [H3 H2]. by rewrite H3, IH.
Qed.

Lemma ip_match_parse_sound s : clean s = true ->
  exists r, ip_match_parse s = Ret r
    /\ match r with Error _ => True | Codes c => exists p, denotes s p /\ c = pattern_code p end.
Proof.
  intros Hc. assert (Hplain : exists r, parse_fields s = Ret r
    /\ match r with Error _ => True | Codes c => exists p, denotes s p /\ c = pattern_code p end).
  { destruct (parse_fields_sound s Hc) as (r & Hr & H). exists r. split; [done|]. destruct r as [c|]; [|done].
    destruct H as (p & Hp & Hl & ->). exists p. split; [|done]. split; [done|by left]. }
  unfold ip_match_parse. destruct s as [|c s]; [done|]. destruct (Z.eqb_spec c "["%ch) as [->|]; [|done].
  destruct (find_terminator 0 ("["%ch :: s)) as [inner rest] eqn:E.
  destruct rest as [|x [|y rest]]; [bad_token| |done].
  pose proof (find_terminator_split _ _ _ _ E) as [Es [Hb|[b' Hb]]]; [done|]. injection Hb as -> <-.
  destruct inner as [|i inner]; [done|]. injection Es as <- Es. cbn [tail].
  apply clean_cons in Hc as [_ Hc]. rewrite Es in Hc. apply clean_prefix in Hc; [|done].
  destruct (parse_fields_sound inner Hc) as (r & Hr & H). exists r. split; [done|]. destruct r as [c|]; [|done].
  destruct H as (p & Hp & Hl & ->). exists p. split; [|done]. split; [done|right]. exists inner. by rewrite Es.
Qed.

(** ** The parser is complete *)

Lemma member_complete fuel pattern tm m la rest oval codes :
  member_text tm m -> la = ";"%ch \/ la = "]"%ch -> clean (tm ++ la :: rest) = true ->
  exists v, seq_loop (S fuel) pattern (tm ++ la :: rest) oval codes
    = if la =? ";"%ch then seq_loop fuel pattern rest v (codes ++ member_code m)
      else Ret (Codes (rest, v, (codes ++ member_code m) ++ [IP_MATCH_CODE_CLOSE])).
Proof.
  intros Hm Hla Hc. assert (Hd : ISDIGIT la = false) by (by destruct Hla; subst).
  cbn [seq_loop]. destruct Hm as [t n Ht|t1 lo t2 hi H1 H2 Hle].
  - rewrite (octet_token t n) by done. cbn [mbind outcome_bind]. rewrite Z.eqb_refl.
    rewrite literal_token by done. cbn [mbind outcome_bind value].
    exists (Some n). by destruct Hla; subst.
  - rewrite <- !app_assoc in Hc |- *. rewrite (octet_token t1 lo) by done. cbn [mbind outcome_bind]. rewrite Z.eqb_refl.
    change (str ".." ++ t2 ++ la :: rest) with ("."%ch :: "."%ch :: t2 ++ la :: rest) in *.
    rewrite literal_token by done. cbn [mbind outcome_bind]. rewrite Z.eqb_refl.
    rewrite literal_token by done. cbn [mbind outcome_bind]. rewrite Z.eqb_refl.
    apply clean_app in Hc. apply clean_cons in Hc as [_ Hc]. apply clean_cons in Hc as [_ Hc].
    rewrite (octet_token t2 hi) by done. cbn [mbind outcome_bind value]. rewrite Z.eqb_refl.
    rewrite (proj2 (Z.leb_le _ _) Hle). rewrite literal_token by done. cbn [mbind outcome_bind].
    exists (Some hi). by destruct Hla; subst.
Qed.

Lemma member_nonempty t m : member_text t m -> t <> [].
Proof. intros H. destruct H as [t n [H _]|t1 lo t2 hi [H _] _ _]; [done|]. by destruct t1. Qed.

Lemma seq_loop_complete pattern ts ms : members_text ts ms -> forall fuel rest oval codes,
  (length ts <= fuel)%nat -> clean (ts ++ "]"%ch :: rest) = true ->
  exists v, seq_loop fuel pattern (ts ++ "]"%ch :: rest) oval codes
    = Ret (Codes (rest, v, codes ++ members_code ms ++ [IP_MATCH_CODE_CLOSE])).
Proof.
  induction 1 as [t m Hm|t m ts ms Hm Hms IH]; intros fuel rest oval codes Hf Hc;
    pose proof (member_nonempty t m Hm) as Hne; destruct t as [|c t]; try done;
    (destruct fuel as [|fuel]; [cbn in Hf; lia|]).
  - destruct (member_complete fuel pattern (c :: t) m "]"%ch rest oval codes Hm) as [v Hv]; [by right|done|].
    exists v. rewrite Hv. cbn [Z.eqb Pos.eqb]. unfold members_code. cbn. by rewrite app_nil_r, <- app_assoc.
  - rewrite <- !app_assoc in Hc |- *. change (str ";" ++ ts ++ "]"%ch :: rest) with (";"%ch :: ts ++ "]"%ch :: rest) in *.
    destruct (member_complete fuel pattern (c :: t) m ";"%ch (ts ++ "]"%ch :: rest) oval codes Hm) as [v Hv]; [by left|done|].
    rewrite Hv. cbn [Z.eqb Pos.eqb]. apply clean_app, clean_cons in Hc as [_ Hc].
    rewrite !length_app in Hf. cbn in Hf.
    destruct (IH fuel rest v (codes ++ member_code m)) as [v' Hv']; [lia|done|]. exists v'. rewrite Hv'.
    unfold members_code. cbn [map concat]. by rewrite <- !app_assoc.
Qed.

Lemma field_complete fuel pattern t f rest oval codes : field_text t f -> no_digit rest ->
  (length t <= fuel)%nat -> clean (t ++ rest) = true ->
  exists v, field_code fuel pattern (t ++ rest) oval codes = Ret (Codes (rest, v, codes ++ code_of_field f)).
Proof.
  intros Ht Hr Hf Hc. unfold field_code. destruct Ht as [t n Ht|ts ms Hms].
  - rewrite (octet_token t n) by done. by exists (Some n).
  - rewrite <- !app_assoc in Hc |- *. change (str "[" ++ ts ++ str "]" ++ rest) with ("["%ch :: ts ++ "]"%ch :: rest) in *.
    rewrite literal_token by done. cbn [mbind outcome_bind]. change (IP_MATCH_CODE_OPEN =? IP_MATCH_CODE_OVAL) with false.
    change ("["%ch =? IP_MATCH_CODE_OVAL) with false. cbv iota. rewrite Z.eqb_refl.
    apply clean_cons in Hc as [_ Hc]. rewrite !length_app in Hf. cbn in Hf.
    destruct (seq_loop_complete pattern ts ms Hms fuel rest oval (codes ++ [IP_MATCH_CODE_OPEN])) as [v Hv]; [lia|done|].
    exists v. rewrite Hv. cbn [code_of_field]. by rewrite <- !app_assoc.
Qed.

Lemma field_loop_complete fuel pattern ts p : fields_text ts p -> forall oval codes,
  (length ts <= fuel)%nat -> clean ts = true ->
  field_loop fuel (length p) pattern ts oval codes = Ret (Codes (codes ++ fields_code p ++ [0])).
Proof.
  induction 1 as [t f Hf|t f ts fs Hf Hfs IH]; intros oval codes Hl Hc.
  - cbn [length field_loop]. destruct (field_complete fuel pattern t f [] oval codes Hf) as [v Hv]; [done|done|by rewrite app_nil_r|].
    rewrite app_nil_r in Hv. rewrite Hv. cbn. unfold fields_code. cbn. by rewrite app_nil_r, <- app_assoc.
  - change (t ++ str "." ++ ts) with (t ++ "."%ch :: ts) in *. rewrite length_app in Hl. cbn in Hl.
    cbn [length field_loop]. destruct (field_complete fuel pattern t f ("."%ch :: ts) oval codes Hf) as [v Hv]; [done|lia|done|].
    rewrite Hv. cbn [mbind outcome_bind]. apply clean_app, clean_cons in Hc as [_ Hc].
    specialize (IH v (codes ++ code_of_field f)). destruct (length fs) eqn:E; [by destruct Hfs|].
    rewrite literal_token by done. cbn [mbind outcome_bind]. rewrite Z.eqb_refl, IH by (done || lia).
    unfold fields_code. cbn [map concat]. by rewrite <- !app_assoc.
Qed.

Lemma field_nonempty t f : field_text t f -> t <> [].
Proof. intros H. by destruct H as [t n [H _]|]. Qed.

Lemma parse_fields_complete s p : fields_text s p -> length p = 4%nat -> clean s = true ->
  parse_fields s = Ret (Codes (pattern_code p)).
Proof.
  intros Hp Hl Hc. unfold parse_fields. destruct s as [|c s].
  { inversion Hp as [t f Ht|t f ts fs Ht]; subst; apply field_nonempty in Ht; [done|by destruct t]. }
  rewrite <- Hl. rewrite (field_loop_complete _ _ _ p Hp) by (done || lia). done.
Qed.

(** Brackets: the terminator of an opening bracket. *)
Definition no_bracket (c : Z) : bool := negb (c =? "["%ch) && negb (c =? "]"%ch).

Lemma find_terminator_skip t cp level : forallb no_bracket t = true ->
  find_terminator level (t ++ cp) = (t ++ (find_terminator level cp).1, (find_terminator level cp).2).
Proof.
  induction t as [|c t IH]; cbn [forallb app]; intros H; [by destruct (find_terminator level cp)|].
  apply andb_true_iff in H as [Hc H]. unfold no_bracket in Hc. apply andb_true_iff in Hc as [H1 H2].
  cbn [find_terminator]. apply negb_true_iff in H1. rewrite H1, H2, IH by done. done.
Qed.

Lemma octet_no_bracket t n : octet_text t n -> forallb no_bracket t = true.
Proof.
  intros (_ & H & _). revert H. rewrite !forallb_forall. intros H x Hx. specialize (H x Hx). unfold no_bracket. zb. lia.
Qed.

Lemma members_no_bracket ts ms : members_text ts ms -> forallb no_bracket ts = true.
Proof.
  assert (Hm : forall t m, member_text t m -> forallb no_bracket t = true).
  { intros t m H. destruct H as [t n H|t1 lo t2 hi H1 H2 _]; [by eapply octet_no_bracket|].
    rewrite !forallb_app, (octet_no_bracket t1 lo), (octet_no_bracket t2 hi) by done. done. }
  induction 1; rewrite ?forallb_app; [by eapply Hm|]. by rewrite (Hm _ _ H), IHmembers_text.
Qed.

Lemma find_terminator_open ts ms level r : members_text ts ms -> 0 <= level ->
  find_terminator level (str "[" ++ ts ++ str "]" ++ r)
  = if level =? 0 then (str "[" ++ ts, str "]" ++ r)
    else (str "[" ++ ts ++ str "]" ++ (find_terminator level r).1, (find_terminator level r).2).
Proof.
  intros H Hl. cbn [str app find_terminator]. change (str "[" ++ ts ++ str "]" ++ r) with ("["%ch :: ts ++ "]"%ch :: r).
  cbn [find_terminator]. rewrite Z.eqb_refl. change (negb ("["%ch =? "]"%ch)) with true. cbv iota.
  rewrite find_terminator_skip by (by eapply members_no_bracket). cbn [find_terminator].
  change ("]"%ch =? "["%ch) with false. rewrite Z.eqb_refl. cbn [negb]. cbv iota.
  replace (level + 1 - 1) with level by lia. destruct (Z.eqb_spec level 0) as [->|]; cbn.
  - by rewrite app_nil_r.
  - by destruct (find_terminator level r).
Qed.

Lemma find_terminator_fields t p r level : fields_text t p -> 0 < level ->
  find_terminator level (t ++ r) = (t ++ (find_terminator level r).1, (find_terminator level r).2).
Proof.
  intros H Hl. assert (Hf : forall u f r, field_text u f ->
    find_terminator level (u ++ r) = (u ++ (find_terminator level r).1, (find_terminator level r).2)).
  { intros u f r' Hu. destruct Hu as [u n Hu|ts ms Hms]; [apply find_terminator_skip; by eapply octet_no_bracket|].
    rewrite <- !app_assoc, (find_terminator_open ts ms) by (done || lia). rewrite (proj2 (Z.eqb_neq level 0)) by lia. done. }
  revert r. induction H as [u f Hu|u f ts fs Hu _ IH]; intros r; [by eapply Hf|].
  rewrite <- !app_assoc, (Hf u f) by done. rewrite (find_terminator_skip (str ".")), IH by done. done.
Qed.

Lemma ip_match_parse_complete s p : denotes s p -> clean s = true -> ip_match_parse s = Ret (Codes (pattern_code p)).
Proof.
  intros [Hl [Hp|(t & -> & Hp)]] Hc.
  - pose proof (parse_fields_complete s p Hp Hl Hc) as E. unfold ip_match_parse. destruct s as [|c s]; [done|].
    destruct (Z.eqb_spec c "["%ch) as [->|]; [|done].
    inversion Hp as [u f Hu Es|u f ts fs Hu Hfs Es]; subst p; [done|].
    destruct Hu as [u n (Hne & Hd & _)|ms0 ms Hms].
    { destruct u as [|d u]; [done|]. injection Es as -> _. done. }
    change ("["%ch :: s) with (str "[" ++ s) in Es. rewrite <- !app_assoc in Es. apply (app_inv_head (str "[")) in Es. subst s.
    rewrite <- !app_assoc. rewrite (find_terminator_open ms0 ms 0 _ Hms) by lia. exact E.
  - change (str "[" ++ t ++ str "]") with ("["%ch :: t ++ ["]"%ch]) in *. unfold ip_match_parse. rewrite Z.eqb_refl.
    cbn [find_terminator]. rewrite Z.eqb_refl. change (negb ("["%ch =? "]"%ch)) with true. cbv iota.
    rewrite (find_terminator_fields t p) by (done || lia). cbn.
    apply clean_cons in Hc as [_ Hc]. apply clean_prefix in Hc; [|done]. rewrite app_nil_r.
    by apply parse_fields_complete.
Qed.

(** ** The code matches what the pattern matches *)

Lemma wildcard_loop_eq octet ms bp : forall matched,
  wildcard_loop octet matched (members_code ms ++ IP_MATCH_CODE_CLOSE :: bp)
  = Ret (matched || existsb (member_matches octet) ms, bp).
Proof.
  induction ms as [|m ms IH]; intros matched; [by rewrite orb_false_r|].
  unfold members_code in *. cbn [map concat existsb]. rewrite <- app_assoc, orb_assoc.
  destruct m as [n|lo hi]; cbn in *; rewrite IH; by destruct matched.
Qed.

Lemma execute_loop_eq p : forall addr rest, length p = length addr ->
  execute_loop (fields_code p ++ rest) addr = Ret (pattern_matches p addr).
Proof.
  unfold fields_code, pattern_matches. induction p as [|f p IH]; intros [|octet addr] rest Hl; try done.
  injection Hl as Hl. cbn [map concat combine forallb]. rewrite <- app_assoc. destruct f as [n|ms].
  - cbn. destruct (octet =? n); [by apply IH|done].
  - cbn [code_of_field]. rewrite <- !app_assoc. cbn [app execute_loop].
    change (IP_MATCH_CODE_OPEN =? IP_MATCH_CODE_OVAL) with false. rewrite Z.eqb_refl. cbv iota.
    rewrite wildcard_loop_eq. cbn [mbind outcome_bind orb field_matches].
    destruct (existsb (member_matches octet) ms); [by apply IH|done].
Qed.

(** ** The printed code *)

Definition octet_ok (n : Z) : Prop := 0 <= n <= 255.
Definition member_ok (m : member) : Prop :=
  match m with Num n => octet_ok n | Range lo hi => octet_ok lo /\ octet_ok hi /\ lo <= hi end.
Definition field_ok (f : field) : Prop :=
  match f with Octet n => octet_ok n | Choice ms => ms <> [] /\ Forall member_ok ms end.

Definition print_member (m : member) : bytes :=
  match m with Num n => decimal n | Range lo hi => decimal lo ++ str ".." ++ decimal hi end.
Fixpoint print_members (ms : list member) : bytes :=
  match ms with
  | [] => []
  | [m] => print_member m
  | m :: ms => print_member m ++ str ";" ++ print_members ms
  end.
Definition print_field (f : field) : bytes :=
  match f with Octet n => decimal n | Choice ms => str "[" ++ print_members ms ++ str "]" end.
Fixpoint print_pattern (p : list field) : bytes :=
  match p with
  | [] => []
  | [f] => print_field f
  | f :: p => print_field f ++ str "." ++ print_pattern p
  end.

Lemma octet_text_ok t n : octet_text t n -> octet_ok n.
Proof. intros (_ & H1 & <- & H2). split; [|done]. by apply (fold_digits_ge t 0). Qed.

Lemma fields_text_ok t p : fields_text t p -> Forall field_ok p.
Proof.
  assert (Hmem : forall u m, member_text u m -> member_ok m).
  { intros u m H. destruct H; cbn; [by eapply octet_text_ok|]. split_and!; [by eapply octet_text_ok..|done]. }
  assert (Hms : forall u ms, members_text u ms -> ms <> [] /\ Forall member_ok ms).
  { induction 1 as [u m Hm|u m us ms Hm _ [_ IH]]; (split; [done|]); repeat constructor; eauto. }
  assert (Hf : forall u f, field_text u f -> field_ok f).
  { intros u f H. destruct H as [u n H|us ms H]; [by eapply octet_text_ok|by eapply Hms]. }
  induction 1; constructor; eauto.
Qed.

Lemma decimal_octet n : octet_ok n -> octet_text (decimal n) n.
Proof.
  intros [H1 H2]. assert (H : Forall (fun n => octet_text (decimal n) n) (seqZ 0 256)).
  { apply (bool_decide_unpack (Forall (fun n => decimal n <> [] /\ forallb ISDIGIT (decimal n) = true
      /\ number (decimal n) = n /\ n <= 255) (seqZ 0 256))). by vm_compute. }
  rewrite Forall_forall in H. apply H, elem_of_seqZ. lia.
Qed.

Lemma print_members_text ms : ms <> [] -> Forall member_ok ms -> members_text (print_members ms) ms.
Proof.
  assert (Hm : forall m, member_ok m -> member_text (print_member m) m).
  { intros [n|lo hi]; cbn; [intros; constructor; by apply decimal_octet|].
    intros (H1 & H2 & H3). constructor; [by apply decimal_octet..|done]. }
  induction ms as [|m [|m' ms] IH]; [done|..]; intros _ H; apply Forall_cons in H as [H1 H2].
  - constructor. by apply Hm.
  - change (print_members (m :: m' :: ms)) with (print_member m ++ str ";" ++ print_members (m' :: ms)).
    constructor; [by apply Hm|by apply IH].
Qed.

Lemma print_pattern_text p : p <> [] -> Forall field_ok p -> fields_text (print_pattern p) p.
Proof.
  assert (Hf : forall f, field_ok f -> field_text (print_field f) f).
  { intros [n|ms]; cbn; [intros; constructor; by apply decimal_octet|]. intros [H1 H2]. constructor. by apply print_members_text. }
  induction p as [|f [|f' p] IH]; [done|..]; intros _ H; apply Forall_cons in H as [H1 H2].
  - constructor. by apply Hf.
  - change (print_pattern (f :: f' :: p)) with (print_field f ++ str "." ++ print_pattern (f' :: p)).
    constructor; [by apply Hf|by apply IH].
Qed.

Lemma dump_wildcard_eq ms bp : ms <> [] -> forall out,
  dump_wildcard (members_code ms ++ IP_MATCH_CODE_CLOSE :: bp) out = Ret (bp, out ++ print_members ms).
Proof.
  unfold members_code. induction ms as [|m [|m' ms] IH]; [done|..]; intros _ out.
  - destruct m as [n|lo hi]; cbn; by rewrite <- ?app_assoc.
  - cbn [map concat]. rewrite <- app_assoc. specialize (IH ltac:(done)). cbn [map concat] in IH. rewrite <- app_assoc in IH.
    destruct m as [n|lo hi], m' as [n'|lo' hi']; cbn [member_code app dump_wildcard] in *; cbn in *;
      rewrite IH; by rewrite <- ?app_assoc.
Qed.

Lemma dump_field_eq f bp out : field_ok f ->
  match code_of_field f ++ bp with
  | ch :: bp' =>
      (if ch =? IP_MATCH_CODE_OVAL then
         match bp' with v :: bp' => Ret (bp', out ++ decimal v) | [] => Undef end
       else if ch =? IP_MATCH_CODE_OPEN then
         '(bp', out) ← dump_wildcard bp' (out ++ str "["); Ret (bp', out ++ str "]")
       else Panic) = Ret (bp, out ++ print_field f)
  | [] => False
  end.
Proof.
  destruct f as [n|ms]; intros Hok; [done|]. destruct Hok as [Hne _].
  cbn [code_of_field]. rewrite <- !app_assoc. cbn [app]. change (IP_MATCH_CODE_OPEN =? IP_MATCH_CODE_OVAL) with false.
  rewrite Z.eqb_refl. cbv iota. rewrite dump_wildcard_eq by done. cbn. by rewrite <- !app_assoc.
Qed.

Lemma code_of_field_head f : exists c r, code_of_field f = c :: r /\ c <> 0.
Proof. destruct f as [n|ms]; by eexists _, _. Qed.

Lemma dump_loop_eq p : p <> [] -> Forall field_ok p -> forall out,
  dump_loop (length p) (fields_code p ++ [0]) out = Ret (out ++ print_pattern p).
Proof.
  unfold fields_code. induction p as [|f p IH]; [done|]. intros _ H out. apply Forall_cons in H as [H1 H2].
  cbn [map concat length]. rewrite <- app_assoc. pose proof (dump_field_eq f (concat (map code_of_field p) ++ [0]) out H1) as E.
  cbn [dump_loop]. destruct (code_of_field f ++ concat (map code_of_field p) ++ [0]) as [|ch bp'] eqn:Ec; [done|].
  rewrite E. cbn [mbind outcome_bind]. destruct p as [|f' p].
  - done.
  - destruct (code_of_field_head f') as (c & r & Ef & Hc). specialize (IH ltac:(done) H2 ((out ++ print_field f) ++ str ".")).
    cbn [map concat length] in *. rewrite Ef in *. cbn [app] in *. rewrite (proj2 (Z.eqb_neq c 0)) by done.
    rewrite IH. cbn [print_pattern]. by rewrite <- !app_assoc.
Qed.

(** A text of digits, dots, semicolons and brackets has no capital N. *)
Definition no_letter (c : Z) : bool := negb (c =? "N"%ch).

Lemma fields_no_letter t p : fields_text t p -> forallb no_letter t = true.
Proof.
  assert (Ho : forall u n, octet_text u n -> forallb no_letter u = true).
  { intros u n (_ & H & _). revert H. rewrite !forallb_forall. intros H x Hx. specialize (H x Hx). unfold no_letter. zb. lia. }
  assert (Hmem : forall u m, member_text u m -> forallb no_letter u = true).
  { intros u m H. destruct H; rewrite ?forallb_app; cbn; rewrite ?andb_true_iff; split_and?; eauto. }
  assert (Hms : forall u ms, members_text u ms -> forallb no_letter u = true).
  { induction 1; rewrite ?forallb_app; cbn; rewrite ?andb_true_iff; split_and?; eauto. }
  assert (Hf : forall u f, field_text u f -> forallb no_letter u = true).
  { intros u f H. destruct H; cbn; rewrite ?forallb_app; cbn; rewrite ?andb_true_iff; split_and?; eauto. }
  induction 1; rewrite ?forallb_app; cbn; rewrite ?andb_true_iff; split_and?; eauto.
Qed.

(** A short number, then something else. *)
Lemma short_number_app t rest : forallb ISDIGIT t = true -> no_digit rest -> forall k, (k + length t <= 9)%nat ->
  short_numbers k (t ++ rest) = short_numbers 0 rest.
Proof.
  intros Ht Hr. induction t as [|c t IH]; intros k Hk.
  - destruct rest as [|c rest]; [done|]. cbn in Hr |- *. by rewrite Hr.
  - cbn [forallb] in Ht. apply andb_true_iff in Ht as [Hc Ht]. cbn [app short_numbers length] in *. rewrite Hc.
    rewrite IH by (done || lia). by rewrite (proj2 (Nat.ltb_lt k 9)) by lia.
Qed.

Lemma decimal_short n rest : octet_ok n -> no_digit rest -> short_numbers 0 (decimal n ++ rest) = short_numbers 0 rest.
Proof.
  intros Hn Hr. destruct (decimal_octet n Hn) as (_ & Hd & _). apply short_number_app; [done..|].
  unfold decimal. repeat case_match; cbn; lia.
Qed.

Lemma print_members_short ms rest : ms <> [] -> Forall member_ok ms -> no_digit rest ->
  short_numbers 0 (print_members ms ++ rest) = short_numbers 0 rest.
Proof.
  assert (Hm : forall m r, member_ok m -> no_digit r -> short_numbers 0 (print_member m ++ r) = short_numbers 0 r).
  { intros [n|lo hi] r; cbn [member_ok print_member]; [apply decimal_short|]. intros (H1 & H2 & _) Hr.
    rewrite <- !app_assoc, (decimal_short lo) by done. cbn. by apply decimal_short. }
  induction ms as [|m [|m' ms] IH]; [done|..]; intros _ H Hr; apply Forall_cons in H as [H1 H2]; [by apply Hm|].
  change (print_members (m :: m' :: ms)) with (print_member m ++ str ";" ++ print_members (m' :: ms)).
  rewrite <- !app_assoc, Hm by done. cbn [str app short_numbers]. by apply IH.
Qed.

Lemma print_pattern_short p : p <> [] -> Forall field_ok p -> short_numbers 0 (print_pattern p) = true.
Proof.
  assert (Hf : forall f r, field_ok f -> no_digit r -> short_numbers 0 (print_field f ++ r) = short_numbers 0 r).
  { intros [n|ms] r; cbn [field_ok print_field]; [apply decimal_short|]. intros [H1 H2] Hr.
    rewrite <- !app_assoc. change (short_numbers 0 (print_members ms ++ str "]" ++ r) = short_numbers 0 r).
    by rewrite print_members_short. }
  induction p as [|f [|f' p] IH]; [done|..]; intros _ H; apply Forall_cons in H as [H1 H2].
  - cbn [print_pattern]. rewrite <- (app_nil_r (print_field f)). by rewrite Hf.
  - change (print_pattern (f :: f' :: p)) with (print_field f ++ str "." ++ print_pattern (f' :: p)).
    rewrite Hf by done. change (short_numbers 0 (print_pattern (f' :: p)) = true). by apply IH.
Qed.

(** ** Properties *)



(** ip_match_dump() prints the code of a pattern without panic, and the printed text
    is a pattern with the same code. *)
Theorem ip_match_dump_roundtrip (s c : bytes) (Hs : clean s = true) (Hc : ip_match_parse s = Ret (Codes c)) :
  exists t, ip_match_dump c = Ret t /\ ip_match_parse t = Ret (Codes c).
Proof.
  destruct (ip_match_parse_sound s Hs) as (r & E & H). rewrite Hc in E. injection E as <-.
  destruct H as (p & [Hl Hp] & ->).
  assert (Hok : Forall field_ok p) by (destruct Hp as [Hp|(t & _ & Hp)]; by eapply fields_text_ok).
  assert (Hne : p <> []) by (by destruct p). exists (print_pattern p). split.
  - unfold ip_match_dump, pattern_code. cbn [app]. rewrite Z.eqb_refl. cbn [negb]. rewrite <- Hl. by rewrite dump_loop_eq.
  - pose proof (print_pattern_text p Hne Hok) as Ht. apply ip_match_parse_complete; [split; [done|by left]|].
    unfold clean. rewrite print_pattern_short by done. rewrite andb_true_r. by apply (fields_no_letter _ p).
Qed.

Lemma ip_match_dump_roundtrip_witness :
  exists t, ip_match_dump [2; 78; 1; 91; 78; 2; 93; 78; 3; 91; 78; 4; 82; 6; 8; 93; 0] = Ret t
    /\ ip_match_parse t = Ret (Codes [2; 78; 1; 91; 78; 2; 93; 78; 3; 91; 78; 4; 82; 6; 8; 93; 0]).
Proof. apply (ip_match_dump_roundtrip (str "[001.[2].3.[4;6..8]]")); reflexivity. Defined.

(** A capital N is taken for a number: the one before it. *)
Example capital_n_accepted : ip_match_parse (str "1.N.3.4") = Ret (Codes (pattern_code [Octet 1; Octet 1; Octet 3; Octet 4])).
Proof. reflexivity. Qed.

(** At the start of a pattern, there is no number before it: an uninitialized variable. *)
Example capital_n_uninitialized : ip_match_parse (str "N.2.3.4") = Undef.
Proof. reflexivity. Qed.
