(* ===== verification/Ring.v ===== *)
(** Circular doubly-linked lists: ring.c, ring.h (src/src/util).

    The pointer operations on a store of links, and the list operations that they
    implement.  The event manager and the cache tables use the latter. *)

From S2P Require Export Prelude.

(** ** Operations on links *)

(** A [RING] in memory; null pointers are [None]. *)
Record RING := mk_ring { succ : option nat; pred : option nat }.
Abbreviation rings := (gmap nat RING).

Definition ring_succ (h : rings) (c : nat) : outcome (option nat) :=
  match h !! c with Some r => Ret (succ r) | None => Undef end.
Definition ring_pred (h : rings) (c : nat) : outcome (option nat) :=
  match h !! c with Some r => Ret (pred r) | None => Undef end.

(** Assignments through a pointer. *)
Definition set_succ (p v : option nat) (h : rings) : outcome rings :=
  match p with
  | Some c => match h !! c with Some r => Ret (<[c := mk_ring v (pred r)]> h) | None => Undef end
  | None => Undef
  end.
Definition set_pred (p v : option nat) (h : rings) : outcome rings :=
  match p with
  | Some c => match h !! c with Some r => Ret (<[c := mk_ring (succ r) v]> h) | None => Undef end
  | None => Undef
  end.

Definition ring_init (ring : nat) (h : rings) : outcome rings :=
  h ← set_succ (Some ring) (Some ring) h;
  set_pred (Some ring) (Some ring) h.

Definition ring_append (ring entry : nat) (h : rings) : outcome rings :=
  s ← ring_succ h ring;
  h ← set_succ (Some entry) s h;
  h ← set_pred (Some entry) (Some ring) h;
  s ← ring_succ h ring;
  h ← set_pred s (Some entry) h;
  set_succ (Some ring) (Some entry) h.

Definition ring_prepend (ring entry : nat) (h : rings) : outcome rings :=
  p ← ring_pred h ring;
  h ← set_pred (Some entry) p h;
  h ← set_succ (Some entry) (Some ring) h;
  p ← ring_pred h ring;
  h ← set_succ p (Some entry) h;
  set_pred (Some ring) (Some entry) h.

Definition ring_detach (entry : nat) (h : rings) : outcome rings :=
  s ← ring_succ h entry;
  p ← ring_pred h entry;
  h ← set_succ p s h;
  h ← set_pred s p h;
  h ← set_succ (Some entry) None h;
  set_pred (Some entry) None h.

(** RING_FOREACH: the entries, at most [fuel] of them; [None] when there are more. *)
Fixpoint foreach_from (fuel : nat) (head entry : nat) (h : rings) : outcome (option (list nat)) :=
  if decide (entry = head) then Ret (Some [])
  else
    match fuel with
    | O => Ret None
    | S fuel =>
        s ← ring_succ h entry;
        match s with
        | None => Undef
        | Some s => l ← foreach_from fuel head s h; Ret (option_map (cons entry) l)
        end
    end.
Definition ring_foreach (fuel : nat) (head : nat) (h : rings) : outcome (option (list nat)) :=
  s ← ring_succ h head;
  match s with Some s => foreach_from fuel head s h | None => Undef end.

(** ** Operations on lists

    The entries of a ring from the successor of its head to the predecessor. *)

Fixpoint ring_before (x : nat) (l : list nat) : list nat :=
  match l with
  | [] => []
  | y :: l => if decide (y = x) then [] else y :: ring_before x l
  end.
Fixpoint ring_after (x : nat) (l : list nat) : list nat :=
  match l with
  | [] => []
  | y :: l => if decide (y = x) then l else ring_after x l
  end.
Definition list_detach (x : nat) (l : list nat) : list nat := ring_before x l ++ ring_after x l.

Lemma before_after_ring x l : x ∈ l -> l = ring_before x l ++ x :: ring_after x l.
Proof.
  induction l as [|y l IH]; [by intros ?%not_elem_of_nil|]. intros Hx. cbn. case_decide; [by subst|].
  apply elem_of_cons in Hx as [->|Hx]; [done|]. cbn. by rewrite <- IH.
Qed.

(** ** The list that a ring represents *)

Definition succ_of (h : rings) (p : nat) : option nat := h !! p ≫= succ.
Definition pred_of (h : rings) (p : nat) : option nat := h !! p ≫= pred.

(** From [a] the successors are [l] and then [b], and back. *)
Fixpoint linked (h : rings) (a : nat) (l : list nat) (b : nat) : Prop :=
  match l with
  | [] => succ_of h a = Some b /\ pred_of h b = Some a
  | x :: l => succ_of h a = Some x /\ pred_of h x = Some a /\ linked h x l b
  end.

Definition is_ring (h : rings) (head : nat) (l : list nat) : Prop := NoDup (head :: l) /\ linked h head l head.

Lemma linked_app h a l1 x l2 b : linked h a (l1 ++ x :: l2) b <-> linked h a l1 x /\ linked h x l2 b.
Proof.
  revert a. induction l1 as [|y l1 IH]; intros a; cbn; [naive_solver|]. rewrite IH. naive_solver.
Qed.

(** Only the successors of [a] and [l] and the predecessors of [l] and [b] matter. *)
Lemma linked_frame h h' a l b :
  (forall p, p ∈ a :: l -> succ_of h' p = succ_of h p) -> (forall p, p ∈ l ++ [b] -> pred_of h' p = pred_of h p) ->
  linked h a l b -> linked h' a l b.
Proof.
  revert a. induction l as [|x l IH]; intros a Hs Hp; cbn.
  - rewrite (Hs a), (Hp b) by set_solver. done.
  - intros (H1 & H2 & H3). rewrite (Hs a), (Hp x) by set_solver. split_and!; [done..|]. apply IH; [|set_solver|done].
    intros p Hi. apply Hs. by right.
Qed.

Lemma linked_ends h a l b : linked h a l b ->
  succ_of h a = Some (default b (head l)) /\ pred_of h b = Some (default a (last l)).
Proof.
  revert a. induction l as [|x l IH]; intros a; cbn; [done|]. intros (H1 & H2 & H3). split; [done|].
  apply IH in H3 as [_ H3]. rewrite H3. destruct l as [|y l]; [done|]. cbn. by destruct (last (y :: l)) eqn:E; [|apply last_None in E].
Qed.

Lemma linked_in h a l b p : linked h a l b -> p ∈ a :: l -> is_Some (h !! p).
Proof.
  revert a. induction l as [|x l IH]; intros a Hl Hp.
  - destruct Hl as [Hs _]. apply list_elem_of_singleton in Hp as ->. unfold succ_of in Hs. by destruct (h !! a).
  - destruct Hl as (Hs & _ & Hl). apply elem_of_cons in Hp as [->|Hp]; [|by apply (IH x)].
    unfold succ_of in Hs. by destruct (h !! a).
Qed.

(** The links after an assignment. *)
Lemma set_succ_ok h p v : is_Some (h !! p) -> exists h', set_succ (Some p) v h = Ret h'
  /\ (forall q, succ_of h' q = if decide (q = p) then v else succ_of h q) /\ (forall q, pred_of h' q = pred_of h q)
  /\ (forall q, is_Some (h' !! q) <-> is_Some (h !! q)).
Proof.
  intros [r Hr]. cbn. rewrite Hr. eexists. split; [done|]. unfold succ_of, pred_of. split_and!; intros q.
  - case_decide; [subst; by rewrite lookup_insert_eq|by rewrite lookup_insert_ne].
  - destruct (decide (q = p)) as [->|]; [by rewrite lookup_insert_eq, Hr|by rewrite lookup_insert_ne].
  - destruct (decide (q = p)) as [->|]; [rewrite lookup_insert_eq, Hr; by split|by rewrite lookup_insert_ne].
Qed.
Lemma set_pred_ok h p v : is_Some (h !! p) -> exists h', set_pred (Some p) v h = Ret h'
  /\ (forall q, pred_of h' q = if decide (q = p) then v else pred_of h q) /\ (forall q, succ_of h' q = succ_of h q)
  /\ (forall q, is_Some (h' !! q) <-> is_Some (h !! q)).
Proof.
  intros [r Hr]. cbn. rewrite Hr. eexists. split; [done|]. unfold succ_of, pred_of. split_and!; intros q.
  - case_decide; [subst; by rewrite lookup_insert_eq|by rewrite lookup_insert_ne].
  - destruct (decide (q = p)) as [->|]; [by rewrite lookup_insert_eq, Hr|by rewrite lookup_insert_ne].
  - destruct (decide (q = p)) as [->|]; [rewrite lookup_insert_eq, Hr; by split|by rewrite lookup_insert_ne].
Qed.

Lemma ring_succ_eq h p v : succ_of h p = Some v -> ring_succ h p = Ret (Some v).
Proof. unfold succ_of, ring_succ. destruct (h !! p); cbn; congruence. Qed.
Lemma ring_pred_eq h p v : pred_of h p = Some v -> ring_pred h p = Ret (Some v).
Proof. unfold pred_of, ring_pred. destruct (h !! p); cbn; congruence. Qed.

(** Execute the next assignment, keeping what it does to the links. *)
Ltac assign :=
  match goal with
  | |- context [set_succ (Some ?p) ?v ?h] =>
      let h' := fresh "h" in let E := fresh "E" in let Hs := fresh "Hs" in let Hp := fresh "Hp" in let Hd := fresh "Hd" in
      destruct (set_succ_ok h p v) as (h' & E & Hs & Hp & Hd); [|rewrite E; cbn [mbind outcome_bind]; clear E]
  | |- context [set_pred (Some ?p) ?v ?h] =>
      let h' := fresh "h" in let E := fresh "E" in let Hs := fresh "Hs" in let Hp := fresh "Hp" in let Hd := fresh "Hd" in
      destruct (set_pred_ok h p v) as (h' & E & Hp & Hs & Hd); [|rewrite E; cbn [mbind outcome_bind]; clear E]
  end.

Lemma ring_init_ok h x : is_Some (h !! x) -> exists h', ring_init x h = Ret h' /\ is_ring h' x []
  /\ (forall p, p <> x -> h' !! p = h !! p).
Proof.
  intros [r Hr]. unfold ring_init, set_succ, set_pred. rewrite Hr. cbn. rewrite lookup_insert_eq. eexists. split; [done|].
  split; [split|].
  - apply NoDup_singleton.
  - unfold linked, succ_of, pred_of. by rewrite lookup_insert_eq.
  - intros p Hp. by rewrite !lookup_insert_ne.
Qed.

(** Decide the addresses in the links of an updated store. *)
Ltac links :=
  repeat match goal with
  | H : forall q, succ_of ?h q = _ |- context [succ_of ?h _] => rewrite H
  | H : forall q, pred_of ?h q = _ |- context [pred_of ?h _] => rewrite H
  end.

Lemma nodup_head_notin (x y : nat) l : NoDup (x :: l) -> y ∈ l -> y <> x.
Proof. intros [H _]%NoDup_cons Hy ->. done. Qed.

Lemma ring_append_ok h r e l : is_ring h r l -> e ∉ r :: l -> is_Some (h !! e) ->
  exists h', ring_append r e h = Ret h' /\ is_ring h' r (e :: l).
Proof.
  intros [Hnd Hl] He Hin. pose proof (linked_ends _ _ _ _ Hl) as [Hs _].
  set (x := default r (head l)) in *. assert (Hx : x ∈ r :: l) by (unfold x; destruct l; set_solver).
  apply not_elem_of_cons in He as [Her Hel]. assert (Hxe : x <> e) by (intros ->; set_solver).
  pose proof (linked_in _ _ _ _ x Hl Hx) as Hxin. pose proof (linked_in _ _ _ _ r Hl ltac:(set_solver)) as Hrin.
  unfold ring_append. rewrite (ring_succ_eq _ _ _ Hs). cbn [mbind outcome_bind].
  assign; [done|]. assign; [by apply Hd|].
  rewrite (ring_succ_eq h1 r x); [cbn [mbind outcome_bind]|links; by rewrite decide_False].
  assign; [by apply Hd0, Hd|]. destruct (set_succ_ok h2 r (Some e)) as (h3 & -> & Hs3 & Hp3 & _); [by apply Hd1, Hd0, Hd|].
  exists h3. split; [done|]. split; [apply NoDup_cons in Hnd as [? ?]; constructor; [set_solver|by constructor]|].
  assert (Er : succ_of h3 r = Some e /\ pred_of h3 e = Some r).
  { links. split; repeat case_decide; congruence. }
  cbn. split_and!; [apply Er|apply Er|].
  assert (Ee : succ_of h3 e = Some x /\ pred_of h3 x = Some e).
  { links. split; repeat case_decide; congruence. }
  destruct l as [|y l]; cbn in x; [exact Ee|]. destruct Hl as (_ & _ & Hl). cbn. split_and!; [apply Ee|apply Ee|].
  apply NoDup_cons in Hnd as [Hr [Hy _]%NoDup_cons].
  apply (linked_frame h); [| |exact Hl]; intros q Hq; links; rewrite !decide_False; try done; intros ->; set_solver.
Qed.

(** The mirror image of a store of links, and of a list. *)
Lemma ring_prepend_ok h r e l : is_ring h r l -> e ∉ r :: l -> is_Some (h !! e) ->
  exists h', ring_prepend r e h = Ret h' /\ is_ring h' r (l ++ [e]).
Proof.
  intros [Hnd Hl] He Hin. pose proof (linked_ends _ _ _ _ Hl) as [_ Hs].
  set (x := default r (last l)) in *.
  assert (Hx : x ∈ r :: l). { unfold x. destruct (last l) eqn:E; [|by left]. apply last_Some_elem_of in E. by right. }
  apply not_elem_of_cons in He as [Her Hel]. assert (Hxe : x <> e) by (intros ->; set_solver).
  pose proof (linked_in _ _ _ _ x Hl Hx) as Hxin. pose proof (linked_in _ _ _ _ r Hl ltac:(set_solver)) as Hrin.
  unfold ring_prepend. rewrite (ring_pred_eq _ _ _ Hs). cbn [mbind outcome_bind].
  assign; [done|]. assign; [by apply Hd|].
  rewrite (ring_pred_eq h1 r x); [cbn [mbind outcome_bind]|links; by rewrite decide_False].
  assign; [by apply Hd0, Hd|]. destruct (set_pred_ok h2 r (Some e)) as (h3 & -> & Hs3 & Hp3 & _); [by apply Hd1, Hd0, Hd|].
  exists h3. split; [done|]. apply NoDup_cons in Hnd as [Hr Hnd]. split.
  { constructor; [set_solver|]. apply NoDup_app. split_and!; [done|set_solver|apply NoDup_singleton]. }
  apply linked_app. split; cbn; [|links; split; repeat case_decide; congruence].
  assert (Ee : succ_of h3 x = Some e /\ pred_of h3 e = Some x) by (links; split; repeat case_decide; congruence).
  destruct (decide (l = [])) as [->|Hne]; [exact Ee|].
  destruct (exists_last Hne) as (l' & y & ->). unfold x in *. rewrite last_snoc in *. cbn in Ee.
  apply linked_app in Hl as [Hl _]. apply NoDup_app in Hnd as (_ & Hy & _).
  apply linked_app. split; [|exact Ee].
  apply (linked_frame h); [| |exact Hl]; intros q Hq; links; rewrite !decide_False; try done; intros ->; set_solver.
Qed.

Lemma ring_detach_ok h r e l : is_ring h r l -> e ∈ l ->
  exists h', ring_detach e h = Ret h' /\ is_ring h' r (list_detach e l).
Proof.
  intros [Hnd Hl] He. unfold list_detach. pose proof (before_after_ring e l He) as El.
  set (l1 := ring_before e l) in *. set (l2 := ring_after e l) in *. clearbody l1 l2. subst l. clear He.
  apply linked_app in Hl as [Hl1 Hl2]. pose proof (linked_ends _ _ _ _ Hl1) as [_ Hp]. pose proof (linked_ends _ _ _ _ Hl2) as [Hs _].
  set (p := default r (last l1)) in *. set (s := default r (head l2)) in *.
  assert (Hpin : p ∈ r :: l1). { unfold p. destruct (last l1) eqn:E; [|by left]. apply last_Some_elem_of in E. by right. }
  assert (Hsin : s ∈ r :: l2) by (unfold s; destruct l2; set_solver).
  apply NoDup_cons in Hnd as [Hr Hnd]. apply NoDup_app in Hnd as (Hnd1 & Hd12 & [He2 Hnd2]%NoDup_cons).
  assert (Hpe : p <> e) by (intros ->; set_solver). assert (Hse : s <> e) by (intros ->; set_solver).
  assert (F1 : forall q, q ∈ l2 -> q <> p /\ q <> e).
  { clear -Hpin Hr Hd12 He2. intros q Hq. split; intros ->; [|done]. apply elem_of_cons in Hpin as [->|Hi]; set_solver. }
  assert (F2 : forall q, q ∈ tail l2 ++ [r] -> l2 <> [] -> q <> s /\ q <> e).
  { intros q Hq Hne. unfold s. clear -Hr He2 Hnd2 Hq Hne. destruct l2 as [|y l2]; [done|]. cbn in *.
    apply NoDup_cons in Hnd2 as [Hy _]. split; intros ->; set_solver. }
  assert (F3 : forall q l1', q ∈ r :: l1' -> l1 = l1' ++ [p] -> q <> p /\ q <> e).
  { intros q l1' Hq E. clear -Hr Hnd1 Hd12 Hq E. rewrite E in *. apply NoDup_app in Hnd1 as (_ & Hy & _).
    split; intros ->; set_solver. }
  assert (F4 : forall q, q ∈ l1 -> q <> s /\ q <> e).
  { clear -Hr Hd12 Hsin. intros q Hq. split; intros ->; [|set_solver]. apply elem_of_cons in Hsin as [->|Hi]; set_solver. }
  pose proof (linked_in _ _ _ _ p Hl1 Hpin) as Hpd. pose proof (linked_in _ _ _ _ e Hl2 ltac:(set_solver)) as Hed.
  assert (Hsd : is_Some (h !! s)).
  { apply elem_of_cons in Hsin as [->|Hsin]; [by apply (linked_in _ _ _ _ r Hl1); left|]. apply (linked_in _ _ _ _ s Hl2). by right. }
  unfold ring_detach. rewrite (ring_succ_eq _ _ _ Hs), (ring_pred_eq _ _ _ Hp). cbn [mbind outcome_bind].
  assign; [done|]. assign; [by apply Hd|]. assign; [by apply Hd0, Hd|].
  destruct (set_pred_ok h2 e None) as (h3 & -> & Hs3 & Hp3 & _); [by apply Hd1, Hd0, Hd|].
  exists h3. split; [done|]. split.
  { constructor; [set_solver|]. apply NoDup_app. split_and!; [done|set_solver|done]. }
  assert (Eps : succ_of h3 p = Some s /\ pred_of h3 s = Some p) by (links; split; repeat case_decide; congruence).
  assert (H2 : linked h3 p l2 r).
  { destruct l2 as [|y l2]; [exact Eps|]. cbn in s. destruct Hl2 as (_ & _ & Hl2). cbn. split_and!; [apply Eps|apply Eps|].
    apply (linked_frame h); [| |exact Hl2]; intros q Hq; links; rewrite !decide_False; try done;
      solve [by apply F1|by apply F2]. }
  destruct (decide (l1 = [])) as [->|Hne]; [exact H2|]. destruct (exists_last Hne) as (l1' & y & E).
  assert (Ey : y = p) by (unfold p; by rewrite E, last_snoc). rewrite Ey in E. rewrite E, <- app_assoc. cbn [app].
  rewrite E in Hl1. apply linked_app. split; [|exact H2]. apply linked_app in Hl1 as [Hl1 _].
  apply (linked_frame h); [| |exact Hl1]; intros q Hq; links; rewrite !decide_False; try done;
    solve [by apply (F3 q l1')|apply F4; by rewrite E].
Qed.

Lemma foreach_from_ok h r l : forall a, linked h a l r -> r ∉ l -> forall fuel, (length l <= fuel)%nat ->
  exists x, succ_of h a = Some x /\ foreach_from fuel r x h = Ret (Some l).
Proof.
  induction l as [|x l IH]; intros a Hl Hr fuel Hf.
  { destruct Hl as [Hs _]. exists r. split; [done|]. destruct fuel; cbn; by rewrite decide_True. }
  destruct Hl as (Hs & _ & Hl). apply not_elem_of_cons in Hr as [Hx Hr]. exists x. split; [done|].
  destruct fuel as [|fuel]; cbn in Hf; [lia|]. destruct (IH x Hl Hr fuel) as (y & Hy & E); [lia|].
  cbn [foreach_from]. rewrite decide_False by congruence. rewrite (ring_succ_eq _ _ _ Hy). cbn. by rewrite E.
Qed.

(** the ring operations implement the list operations of the event manager and the
    cache tables: on a ring that represents the list [l], initialization gives the empty
    list, ring_append() puts a new entry in front, ring_prepend() at the end,
    ring_detach() removes an entry, and RING_FOREACH visits the entries in order and
    ends; none of them follows a null pointer. *)
Theorem ring_operations (h : rings) (r : nat) (l : list nat) (Hr : is_ring h r l) :
  (exists h', ring_init r h = Ret h' /\ is_ring h' r [])
  /\ (forall e, e ∉ r :: l -> is_Some (h !! e) ->
        (exists h', ring_append r e h = Ret h' /\ is_ring h' r (e :: l))
        /\ (exists h', ring_prepend r e h = Ret h' /\ is_ring h' r (l ++ [e])))
  /\ (forall e, e ∈ l -> exists h', ring_detach e h = Ret h' /\ is_ring h' r (list_detach e l))
  /\ (forall fuel, (length l <= fuel)%nat -> ring_foreach fuel r h = Ret (Some l)).
Proof.
  split_and!.
  - destruct (ring_init_ok h r) as (h' & E & H & _); [destruct Hr as [_ Hl]; apply (linked_in _ _ _ _ r Hl); by left|]. by exists h'.
  - intros e He Hin. split; [by apply ring_append_ok|by apply ring_prepend_ok].
  - intros e He. by apply ring_detach_ok.
  - intros fuel Hf. destruct Hr as [[Hn _]%NoDup_cons Hl]. unfold ring_foreach.
    destruct (foreach_from_ok h r l r Hl Hn fuel Hf) as (x & Hx & E). rewrite (ring_succ_eq _ _ _ Hx). cbn. done.
Qed.

Definition demo_ring : rings :=
  <[1%nat := mk_ring (Some 2%nat) (Some 2%nat)]> (<[2%nat := mk_ring (Some 1%nat) (Some 1%nat)]> {[3%nat := mk_ring None None]}).

Lemma ring_operations_witness :
  is_ring demo_ring 1 [2%nat]
  /\ (exists h', ring_append 1 3 demo_ring = Ret h' /\ is_ring h' 1 [3%nat; 2%nat])
  /\ (exists h', ring_detach 2 demo_ring = Ret h' /\ is_ring h' 1 []).
Proof.
  assert (Hr : is_ring demo_ring 1 [2%nat]) by (split; [by apply (bool_decide_unpack _)|by vm_compute]).
  split; [exact Hr|]. destruct (ring_operations demo_ring 1 [2%nat] Hr) as (_ & H1 & H2 & _). split.
  - apply (H1 3%nat); [by apply (bool_decide_unpack _)|by eexists].
  - apply (H2 2%nat). by left.
Defined.
