(* ===== verification/Events.v ===== *)
(** The event manager: events.c (src/src/util), with the epoll(7) filter.

    The timer queue is the list of a ring (Ring.v).  Callback functions are the
    application's: a callback is run by asking the application which calls of the event
    manager it makes.  The kernel's answers and the clock are inputs; the calls of
    epoll_ctl() are recorded. *)

From Stdlib Require Export Sorting.Sorted.
From S2P Require Export Prelude.

(** ** State *)

(** Callback functions and contexts are compared as pointers. *)
Record EVENT_TIMER := mk_timer {
  when : Z;
  callback : nat;
  context : nat;
  loop_instance : Z
}.

(** A registered descriptor has its callback in the table. *)
Record EVENT_FDTABLE := mk_fdtable { fd_callback : nat; fd_context : nat }.

Inductive epoll_op :=
  | EPOLL_CREATE
  | EPOLL_ADD (fd : Z) (write : bool)
  | EPOLL_DEL (fd : Z) (write : bool).

Record events := mk_events {
  event_timers : list EVENT_TIMER;     (* event_timer_head *)
  event_present : Z;
  event_loop_instance : Z;
  event_fdlimit : Z;
  event_fdslots : Z;
  event_fdtable : gmap Z EVENT_FDTABLE;
  event_rmask : gset Z;
  event_wmask : gset Z;
  event_xmask : gset Z;
  event_max_fd : Z;
  event_nested : Z;
  epoll_log : list epoll_op            (* latest call last *)
}.

Definition with_timers (l : list EVENT_TIMER) (ev : events) : events :=
  mk_events l (event_present ev) (event_loop_instance ev) (event_fdlimit ev) (event_fdslots ev) (event_fdtable ev)
    (event_rmask ev) (event_wmask ev) (event_xmask ev) (event_max_fd ev) (event_nested ev) (epoll_log ev).
Definition with_present (now : Z) (ev : events) : events :=
  mk_events (event_timers ev) now (event_loop_instance ev) (event_fdlimit ev) (event_fdslots ev) (event_fdtable ev)
    (event_rmask ev) (event_wmask ev) (event_xmask ev) (event_max_fd ev) (event_nested ev) (epoll_log ev).
Definition with_instance (n : Z) (ev : events) : events :=
  mk_events (event_timers ev) (event_present ev) n (event_fdlimit ev) (event_fdslots ev) (event_fdtable ev)
    (event_rmask ev) (event_wmask ev) (event_xmask ev) (event_max_fd ev) (event_nested ev) (epoll_log ev).
Definition with_nested (n : Z) (ev : events) : events :=
  mk_events (event_timers ev) (event_present ev) (event_loop_instance ev) (event_fdlimit ev) (event_fdslots ev) (event_fdtable ev)
    (event_rmask ev) (event_wmask ev) (event_xmask ev) (event_max_fd ev) n (epoll_log ev).
Definition with_slots (n : Z) (ev : events) : events :=
  mk_events (event_timers ev) (event_present ev) (event_loop_instance ev) (event_fdlimit ev) n (event_fdtable ev)
    (event_rmask ev) (event_wmask ev) (event_xmask ev) (event_max_fd ev) (event_nested ev) (epoll_log ev).
Definition with_fdtable (t : gmap Z EVENT_FDTABLE) (ev : events) : events :=
  mk_events (event_timers ev) (event_present ev) (event_loop_instance ev) (event_fdlimit ev) (event_fdslots ev) t
    (event_rmask ev) (event_wmask ev) (event_xmask ev) (event_max_fd ev) (event_nested ev) (epoll_log ev).
Definition with_masks (r w x : gset Z) (max_fd : Z) (log : list epoll_op) (ev : events) : events :=
  mk_events (event_timers ev) (event_present ev) (event_loop_instance ev) (event_fdlimit ev) (event_fdslots ev) (event_fdtable ev)
    r w x max_fd (event_nested ev) log.

(** event_init(), with the limit that open_limit() gives and the time. *)
Definition EVENT_ALLOC_INCR : Z := 10.
Definition event_init (fdlimit now : Z) : events :=
  mk_events [] now 0 fdlimit EVENT_ALLOC_INCR ∅ ∅ ∅ ∅ (-1) 0 [EPOLL_CREATE].

(** ** Timers *)

Definition timer_is (cb ctx : nat) (t : EVENT_TIMER) : bool :=
  bool_decide (callback t = cb) && bool_decide (context t = ctx).

(** Find the request and detach it. *)
Fixpoint detach_timer (cb ctx : nat) (l : list EVENT_TIMER) : option (EVENT_TIMER * list EVENT_TIMER) :=
  match l with
  | [] => None
  | t :: l =>
      if timer_is cb ctx t then Some (t, l)
      else match detach_timer cb ctx l with Some (u, l) => Some (u, t :: l) | None => None end
  end.

(** Insert before the first request for a later time. *)
Fixpoint insert_timer (t : EVENT_TIMER) (l : list EVENT_TIMER) : list EVENT_TIMER :=
  match l with
  | [] => [t]
  | u :: l' => if when t <? when u then t :: l else u :: insert_timer t l'
  end.

Definition event_request_timer (cb ctx : nat) (delay now : Z) (ev : events) : outcome (Z * events) :=
  if delay <? 0 then Panic
  else
    let ev := with_present now ev in
    let timer := mk_timer (event_present ev + delay) cb ctx (event_loop_instance ev) in
    let rest := match detach_timer cb ctx (event_timers ev) with Some (_, l) => l | None => event_timers ev end in
    Ret (when timer, with_timers (insert_timer timer rest) ev).

Definition event_cancel_timer (cb ctx : nat) (ev : events) : Z * events :=
  match detach_timer cb ctx (event_timers ev) with
  | Some (timer, l) =>
      let time_left := when timer - event_present ev in
      (if time_left <? 0 then 0 else time_left, with_timers l ev)
  | None => (-1, ev)
  end.

(** ** Descriptors *)

Definition event_extend (fd : Z) (ev : events) : events :=
  with_slots (if event_fdslots ev >? fd / 2 then 2 * event_fdslots ev else fd + EVENT_ALLOC_INCR) ev.

(** The table has [event_fdslots] slots. *)
Definition set_callback (fd : Z) (cb ctx : nat) (ev : events) : outcome events :=
  if fd >=? event_fdslots ev then Undef
  else Ret (with_fdtable (<[fd := mk_fdtable cb ctx]> (event_fdtable ev)) ev).

Definition event_enable_read (fd : Z) (cb ctx : nat) (ev : events) : outcome events :=
  if (fd <? 0) || (fd >=? event_fdlimit ev) then Panic
  else
    let ev := if fd >=? event_fdslots ev then event_extend fd ev else ev in
    if bool_decide (fd ∈ event_wmask ev) then Panic
    else
      let ev := if bool_decide (fd ∈ event_rmask ev) then ev
                else with_masks (event_rmask ev ∪ {[fd]}) (event_wmask ev) (event_xmask ev ∪ {[fd]})
                       (if event_max_fd ev <? fd then fd else event_max_fd ev) (epoll_log ev ++ [EPOLL_ADD fd false]) ev in
      set_callback fd cb ctx ev.

Definition event_enable_write (fd : Z) (cb ctx : nat) (ev : events) : outcome events :=
  if (fd <? 0) || (fd >=? event_fdlimit ev) then Panic
  else
    let ev := if fd >=? event_fdslots ev then event_extend fd ev else ev in
    if bool_decide (fd ∈ event_rmask ev) then Panic
    else
      let ev := if bool_decide (fd ∈ event_wmask ev) then ev
                else with_masks (event_rmask ev) (event_wmask ev ∪ {[fd]}) (event_xmask ev ∪ {[fd]})
                       (if event_max_fd ev <? fd then fd else event_max_fd ev) (epoll_log ev ++ [EPOLL_ADD fd true]) ev in
      set_callback fd cb ctx ev.

Definition event_disable_readwrite (fd : Z) (ev : events) : outcome events :=
  if (fd <? 0) || (fd >=? event_fdlimit ev) then Panic
  else if fd >=? event_fdslots ev then Ret ev
  else
    let log := if bool_decide (fd ∈ event_rmask ev) then epoll_log ev ++ [EPOLL_DEL fd false]
               else if bool_decide (fd ∈ event_wmask ev) then epoll_log ev ++ [EPOLL_DEL fd true]
               else epoll_log ev in
    Ret (with_fdtable (delete fd (event_fdtable ev))
           (with_masks (event_rmask ev ∖ {[fd]}) (event_wmask ev ∖ {[fd]}) (event_xmask ev ∖ {[fd]})
              (event_max_fd ev) log ev)).

(** ** The event loop *)

(** A call that a callback function makes; [now] is what time() returns in it. *)
Inductive command :=
  | RequestTimer (cb ctx : nat) (delay now : Z)
  | CancelTimer (cb ctx : nat)
  | EnableRead (fd : Z) (cb ctx : nat)
  | EnableWrite (fd : Z) (cb ctx : nat)
  | DisableReadWrite (fd : Z).

Definition run_command (ev : events) (c : command) : outcome events :=
  match c with
  | RequestTimer cb ctx delay now => '(_, ev) ← event_request_timer cb ctx delay now ev; Ret ev
  | CancelTimer cb ctx => Ret (event_cancel_timer cb ctx ev).2
  | EnableRead fd cb ctx => event_enable_read fd cb ctx ev
  | EnableWrite fd cb ctx => event_enable_write fd cb ctx ev
  | DisableReadWrite fd => event_disable_readwrite fd ev
  end.

Fixpoint run_commands (cs : list command) (ev : events) : outcome events :=
  match cs with
  | [] => Ret ev
  | c :: cs => ev ← run_command ev c; run_commands cs ev
  end.

Inductive event_type := EVENT_READ | EVENT_WRITE | EVENT_XCPT | EVENT_TIME.

(** A delivered event: its type, the callback and its context. *)
Definition delivery : Type := event_type * nat * nat.

Section loop.
(** The application: its state, and what a callback does. *)
Context {App : Type} (notify : nat -> nat -> event_type -> App -> list command * App).

Definition call (cb ctx : nat) (type : event_type) (app : App) (ev : events) : outcome (App * events) :=
  let (cs, app) := notify cb ctx type app in
  ev ← run_commands cs ev;
  Ret (app, ev).

(** Deliver timer events: [None] when the fuel runs out. *)
Fixpoint timer_loop (fuel : nat) (app : App) (ev : events) : outcome (option (list EVENT_TIMER * App * events)) :=
  match fuel with
  | O => Ret None
  | S fuel =>
      match event_timers ev with
      | [] => Ret (Some ([], app, ev))
      | timer :: l =>
          if when timer >? event_present ev then Ret (Some ([], app, ev))
          else if loop_instance timer =? event_loop_instance ev then Ret (Some ([], app, ev))
          else
            '(app, ev) ← call (callback timer) (context timer) EVENT_TIME app (with_timers l ev);
            r ← timer_loop fuel app ev;
            match r with
            | Some (done, app, ev) => Ret (Some (timer :: done, app, ev))
            | None => Ret None
            end
      end
  end.

(** Deliver I/O events: the descriptors that the kernel reports, with EPOLLIN and
    EPOLLOUT. *)
Fixpoint io_loop (buf : list (Z * bool * bool)) (app : App) (ev : events) : outcome (list (Z * delivery) * App * events) :=
  match buf with
  | [] => Ret ([], app, ev)
  | (fd, can_read, can_write) :: buf =>
      if (fd <? 0) || (fd >? event_max_fd ev) then Panic
      else if bool_decide (fd ∈ event_xmask ev) then
        match event_fdtable ev !! fd with
        | None => Undef
        | Some fdp =>
            let type := if can_read : bool then EVENT_READ else if can_write : bool then EVENT_WRITE else EVENT_XCPT in
            '(app, ev) ← call (fd_callback fdp) (fd_context fdp) type app ev;
            '(done, app, ev) ← io_loop buf app ev;
            Ret ((fd, (type, fd_callback fdp, fd_context fdp)) :: done, app, ev)
        end
      else io_loop buf app ev
  end.

(** How long to wait: with the time, if it is looked up. *)
Definition select_delay (delay now : Z) (ev : events) : Z :=
  match event_timers ev with
  | timer :: _ =>
      let d := when timer - now in
      if d <? 0 then 0 else if (delay >=? 0) && (d >? delay) then delay else d
  | [] => delay
  end.

(** [buf] is what epoll_wait() reports ([None]: interrupted), [now1] and [now2] the
    times before and after waiting.  The result tells the events delivered. *)
Definition event_loop (fuel : nat) (now1 now2 : Z) (buf : option (list (Z * bool * bool))) (app : App) (ev : events)
  : outcome (option (list EVENT_TIMER * list (Z * delivery) * App * events)) :=
  let ev := match event_timers ev with [] => ev | _ => with_present now1 ev end in
  match buf with
  | None => Ret (Some ([], [], app, ev))
  | Some buf =>
      if event_nested ev >? 0 then Panic
      else
        let ev := with_nested (event_nested ev + 1) ev in
        let ev := with_instance (event_loop_instance ev + 1) (with_present now2 ev) in
        r ← timer_loop fuel app ev;
        match r with
        | None => Ret None
        | Some (timers, app, ev) =>
            '(ios, app, ev) ← io_loop buf app ev;
            Ret (Some (timers, ios, app, with_nested (event_nested ev - 1) ev))
        end
  end.
End loop.

(** ** Invariant *)

(** Earlier first; requests for the same time in the order in which they were made, as
    far as event_loop() instances tell. *)
Definition timer_le (t u : EVENT_TIMER) : Prop :=
  when t < when u \/ (when t = when u /\ loop_instance t <= loop_instance u).

Definition timer_key (t : EVENT_TIMER) : nat * nat := (callback t, context t).

Record timers_ok (ev : events) : Prop := mk_timers_ok {
  to_sorted : StronglySorted timer_le (event_timers ev);
  to_unique : NoDup (map timer_key (event_timers ev));
  to_instance : Forall (fun t => loop_instance t <= event_loop_instance ev) (event_timers ev)
}.

(** The descriptors that epoll_ctl() was told to watch; [None] after a call that fails. *)
Fixpoint watched (log : list epoll_op) (w : gmap Z bool) : option (gmap Z bool) :=
  match log with
  | [] => Some w
  | EPOLL_CREATE :: log => watched log ∅
  | EPOLL_ADD fd write :: log => match w !! fd with None => watched log (<[fd := write]> w) | Some _ => None end
  | EPOLL_DEL fd _ :: log => match w !! fd with Some _ => watched log (delete fd w) | None => None end
  end.

Record fds_ok (ev : events) : Prop := mk_fds_ok {
  fo_watched : exists w, watched (epoll_log ev) ∅ = Some w
     /\ forall fd, (fd ∈ event_rmask ev <-> w !! fd = Some false) /\ (fd ∈ event_wmask ev <-> w !! fd = Some true);
  fo_wanted : forall fd, fd ∈ event_xmask ev <-> fd ∈ event_rmask ev \/ fd ∈ event_wmask ev;
  fo_callback : forall fd, fd ∈ event_xmask ev -> is_Some (event_fdtable ev !! fd);
  fo_range : forall fd, fd ∈ event_xmask ev -> 0 <= fd <= event_max_fd ev;
  fo_slots : 0 < event_fdslots ev /\ event_max_fd ev < event_fdslots ev
}.

(** ** The timer queue *)

Lemma insert_timer_split t l : exists l1 l2, insert_timer t l = l1 ++ t :: l2 /\ l = l1 ++ l2
  /\ Forall (fun u => when u <= when t) l1 /\ match l2 with u :: _ => when t < when u | [] => True end.
Proof.
  induction l as [|u l (l1 & l2 & E & -> & H1 & H2)]; cbn; [by exists [], []|].
  destruct (Z.ltb_spec (when t) (when u)) as [Hlt|Hge]; [by exists [], (u :: l1 ++ l2)|].
  exists (u :: l1), l2. rewrite E. split_and!; [done|done|by constructor|done].
Qed.

Lemma timer_le_when t u : timer_le t u -> when t <= when u.
Proof. unfold timer_le. lia. Qed.

Lemma sorted_app_iff (l1 l2 : list EVENT_TIMER) : StronglySorted timer_le (l1 ++ l2) <->
  StronglySorted timer_le l1 /\ StronglySorted timer_le l2 /\ Forall (fun t => Forall (timer_le t) l2) l1.
Proof.
  induction l1 as [|t l1 IH]; cbn.
  - split; [intros H; by repeat constructor|tauto].
  - split.
    + intros H. inversion H as [|? ? Hs Ht]; subst. apply IH in Hs as (H1 & H2 & H3). apply Forall_app in Ht as [Ht1 Ht2].
      split_and!; [by constructor|done|by constructor].
    + intros (H1 & H2 & H3). inversion H1 as [|? ? Hs Ht]; subst. inversion H3 as [|? ? Ht2 Hr]; subst.
      constructor; [by apply IH|by apply Forall_app].
Qed.

Lemma insert_timer_spec t l : StronglySorted timer_le l -> Forall (fun u => loop_instance u <= loop_instance t) l ->
  StronglySorted timer_le (insert_timer t l)
  /\ exists l1 l2, insert_timer t l = l1 ++ t :: l2 /\ l = l1 ++ l2
     /\ Forall (fun u => when u <= when t) l1 /\ Forall (fun u => when t < when u) l2.
Proof.
  intros Hs Hi. destruct (insert_timer_split t l) as (l1 & l2 & E & -> & H1 & H2).
  apply sorted_app_iff in Hs as (Hs1 & Hs2 & Hs12). apply Forall_app in Hi as [Hi1 Hi2].
  assert (H2' : Forall (fun u => when t < when u) l2).
  { destruct l2 as [|u l2]; [constructor|]. inversion Hs2 as [|? ? _ Hu]; subst. constructor; [done|].
    eapply Forall_impl; [exact Hu|]. intros x Hx%timer_le_when. lia. }
  split; [|by exists l1, l2]. rewrite E. apply sorted_app_iff. split_and!; [done| |].
  - constructor; [done|]. eapply Forall_impl; [exact H2'|]. intros x Hx. by left.
  - rewrite !Forall_forall in *. intros x Hx. constructor; [|by apply Hs12].
    specialize (H1 x Hx). specialize (Hi1 x Hx). unfold timer_le. cbn in *. lia.
Qed.

Lemma timer_is_key cb ctx t : timer_is cb ctx t = true <-> timer_key t = (cb, ctx).
Proof. unfold timer_is, timer_key. rewrite andb_true_iff, !bool_decide_eq_true. split; [intros [-> ->]; done|by intros [=]]. Qed.

Lemma detach_timer_spec cb ctx l :
  match detach_timer cb ctx l with
  | Some (t, l') => timer_key t = (cb, ctx) /\ exists l1 l2, l = l1 ++ t :: l2 /\ l' = l1 ++ l2
  | None => (cb, ctx) ∉ map timer_key l
  end.
Proof.
  induction l as [|u l IH]; cbn; [apply not_elem_of_nil|]. destruct (timer_is cb ctx u) eqn:E.
  { apply timer_is_key in E. split; [done|]. by exists [], l. }
  assert (Hn : timer_key u <> (cb, ctx)) by (intros H; apply timer_is_key in H; congruence).
  destruct (detach_timer cb ctx l) as [[t l']|].
  - destruct IH as (Hk & l1 & l2 & -> & ->). split; [done|]. by exists (u :: l1), l2.
  - apply not_elem_of_cons. split; [congruence|done].
Qed.

(** The queue without the request for a callback and context. *)
Definition others (cb ctx : nat) (l : list EVENT_TIMER) : list EVENT_TIMER :=
  match detach_timer cb ctx l with Some (_, l) => l | None => l end.

Lemma others_spec cb ctx l : StronglySorted timer_le l -> NoDup (map timer_key l) ->
  StronglySorted timer_le (others cb ctx l) /\ NoDup (map timer_key (others cb ctx l))
  /\ (cb, ctx) ∉ map timer_key (others cb ctx l) /\ (forall t, t ∈ others cb ctx l -> t ∈ l)
  /\ (forall t, t ∈ l -> timer_key t <> (cb, ctx) -> t ∈ others cb ctx l).
Proof.
  intros Hs Hn. unfold others. pose proof (detach_timer_spec cb ctx l) as H.
  destruct (detach_timer cb ctx l) as [[t l']|]; [|by split_and!].
  destruct H as (Hk & l1 & l2 & -> & ->). apply sorted_app_iff in Hs as (Hs1 & Hs2 & Hs3).
  inversion Hs2 as [|? ? Hs2' _]; subst. rewrite !map_app in *. cbn in Hn. apply NoDup_app in Hn as (Hn1 & Hn12 & [Hn2 Hn3]%NoDup_cons).
  split_and!.
  - apply sorted_app_iff. split_and!; [done..|]. eapply Forall_impl; [exact Hs3|]. intros x Hx. by inversion Hx.
  - apply NoDup_app. split_and!; [done| |done]. intros x Hx Hx2. apply (Hn12 x Hx). by right.
  - rewrite <- Hk, elem_of_app. intros [Hi|Hi]; [|done]. apply (Hn12 _ Hi). by left.
  - intros x. rewrite !elem_of_app, elem_of_cons. tauto.
  - intros x. rewrite !elem_of_app, elem_of_cons. naive_solver.
Qed.

(** Requests with another instance number than the current one: those made before this
    run of event_loop(). *)
Definition old_timers (ev : events) : list EVENT_TIMER :=
  filter (fun t => loop_instance t <> event_loop_instance ev) (event_timers ev).

(** What a call of the event manager leaves alone. *)
Record frame (ev ev' : events) : Prop := mk_frame {
  fr_instance : event_loop_instance ev' = event_loop_instance ev;
  fr_limit : event_fdlimit ev' = event_fdlimit ev;
  fr_nested : event_nested ev' = event_nested ev;
  fr_max_fd : event_max_fd ev <= event_max_fd ev';
  fr_old : (length (old_timers ev') <= length (old_timers ev))%nat;
  fr_new : forall t, t ∈ event_timers ev' -> t ∈ event_timers ev \/ loop_instance t = event_loop_instance ev
}.

Lemma frame_refl_events ev : frame ev ev.
Proof. split; [done..|]. by left. Qed.
#[export] Hint Resolve frame_refl_events : postfix.

Lemma frame_trans_events ev1 ev2 ev3 : frame ev1 ev2 -> frame ev2 ev3 -> frame ev1 ev3.
Proof.
  intros [H1 H2 H3 H4 H5 H6] [K1 K2 K3 K4 K5 K6]. split; [congruence|congruence|congruence|lia|lia|].
  intros t [Ht|Ht]%K6; [by apply H6|right; congruence].
Qed.

Lemma filter_length_le_sub (P : EVENT_TIMER -> Prop) `{forall t, Decision (P t)} cb ctx l :
  (length (filter P (others cb ctx l)) <= length (filter P l))%nat.
Proof.
  unfold others. pose proof (detach_timer_spec cb ctx l) as Hd. destruct (detach_timer cb ctx l) as [[t l']|]; [|done].
  destruct Hd as (_ & l1 & l2 & -> & ->). rewrite !filter_app, !length_app, filter_cons. case_decide; cbn; lia.
Qed.

Lemma request_timer_ok cb ctx delay now ev : timers_ok ev -> 0 <= delay ->
  exists ev', event_request_timer cb ctx delay now ev = Ret (now + delay, ev')
    /\ timers_ok ev' /\ event_present ev' = now /\ frame ev ev'
    /\ ev' = with_timers (event_timers ev') (with_present now ev)
    /\ exists l1 l2, event_timers ev' = l1 ++ mk_timer (now + delay) cb ctx (event_loop_instance ev) :: l2
         /\ others cb ctx (event_timers ev) = l1 ++ l2
         /\ Forall (fun u => when u <= now + delay) l1 /\ Forall (fun u => now + delay < when u) l2.
Proof.
  intros [Hs Hu Hi] Hd. unfold event_request_timer. rewrite (proj2 (Z.ltb_ge delay 0)) by done.
  cbn. fold (others cb ctx (event_timers ev)).
  set (t := mk_timer (now + delay) cb ctx (event_loop_instance ev)). eexists. split; [done|].
  destruct (others_spec cb ctx _ Hs Hu) as (Hs' & Hu' & Hnk & Hin & _).
  assert (Hi' : Forall (fun u => loop_instance u <= event_loop_instance ev) (others cb ctx (event_timers ev))).
  { rewrite Forall_forall in *. intros x Hx. by apply Hi, Hin. }
  destruct (insert_timer_spec t _ Hs' Hi') as (Hsi & l1 & l2 & E & E' & H1 & H2).
  split_and!; [|done| |done|by exists l1, l2].
  - split; cbn; [exact Hsi| |].
    + rewrite E, map_app. cbn. rewrite <- Permutation_middle. rewrite E', map_app in Hu', Hnk. by constructor.
    + rewrite E, Forall_app, Forall_cons. rewrite E', Forall_app in Hi'. cbn. destruct Hi' as [Hi1 Hi2]. split_and!; [done|lia|done].
  - split; cbn; try done.
    + unfold old_timers. cbn. rewrite E. etrans; [|apply (filter_length_le_sub _ cb ctx)].
      rewrite E'. rewrite !filter_app, !length_app, filter_cons. rewrite decide_False by (cbn; intros Hne; by apply Hne). done.
    + intros x. rewrite E, elem_of_app, elem_of_cons. intros [Hx|[->|Hx]]; [left|by right|left]; apply Hin; rewrite E', elem_of_app; auto.
Qed.

Lemma cancel_timer_ok cb ctx ev : timers_ok ev ->
  timers_ok (event_cancel_timer cb ctx ev).2 /\ frame ev (event_cancel_timer cb ctx ev).2
  /\ (event_cancel_timer cb ctx ev).2 = with_timers (others cb ctx (event_timers ev)) ev.
Proof.
  intros [Hs Hu Hi]. assert (E : (event_cancel_timer cb ctx ev).2 = with_timers (others cb ctx (event_timers ev)) ev).
  { unfold event_cancel_timer, others. destruct (detach_timer cb ctx (event_timers ev)) as [[t l]|]; [done|by destruct ev]. }
  rewrite E. destruct (others_spec cb ctx _ Hs Hu) as (Hs' & Hu' & _ & Hin & _). split_and!; [| |done].
  - split; cbn; [done|done|]. rewrite Forall_forall in *. intros x Hx. by apply Hi, Hin.
  - split; cbn; try done; [apply filter_length_le_sub|]. intros x Hx. left. by apply Hin.
Qed.

(** ** Descriptors *)

Lemma watched_app log1 log2 : forall w, watched (log1 ++ log2) w = watched log1 w ≫= watched log2.
Proof.
  induction log1 as [|op log1 IH]; intros w; [done|]. destruct op as [|fd wr|fd wr]; cbn; [apply IH| |]; destruct (w !! fd); done || apply IH.
Qed.

(** A call that is about descriptors leaves the timers and the clock alone. *)
Record fd_frame (ev ev' : events) : Prop := mk_fd_frame {
  ff_timers : event_timers ev' = event_timers ev;
  ff_present : event_present ev' = event_present ev;
  ff_frame : frame ev ev'
}.

Lemma fd_frame_intro ev ev' : event_timers ev' = event_timers ev -> event_present ev' = event_present ev ->
  event_loop_instance ev' = event_loop_instance ev -> event_fdlimit ev' = event_fdlimit ev ->
  event_nested ev' = event_nested ev -> event_max_fd ev <= event_max_fd ev' -> fd_frame ev ev'.
Proof.
  intros H1 H2 H3 H4 H5 H6. split; [done|done|]. split; [done..| |].
  - unfold old_timers. by rewrite H1, H3.
  - rewrite H1. by left.
Qed.

Lemma fd_frame_timers ev ev' : fd_frame ev ev' -> timers_ok ev -> timers_ok ev'.
Proof. intros [H1 _ [H2 _ _ _ _ _]] [K1 K2 K3]. split; rewrite ?H1, ?H2; done. Qed.

Lemma extend_ok fd ev : fds_ok ev -> 0 <= fd ->
  let ev' := if fd >=? event_fdslots ev then event_extend fd ev else ev in
  fds_ok ev' /\ fd_frame ev ev' /\ fd < event_fdslots ev'
  /\ event_rmask ev' = event_rmask ev /\ event_wmask ev' = event_wmask ev /\ event_max_fd ev' = event_max_fd ev
  /\ event_fdlimit ev' = event_fdlimit ev.
Proof.
  intros [H1 H2 H3 H4 [H5 H6]] Hfd ev'. unfold ev'. destruct (fd >=? event_fdslots ev) eqn:E.
  - assert (Hsl : fd < event_fdslots (event_extend fd ev) /\ event_fdslots ev <= event_fdslots (event_extend fd ev)).
    { cbn. unfold EVENT_ALLOC_INCR. destruct (event_fdslots ev >? fd / 2) eqn:E2; [|lia].
      assert (fd / 2 < event_fdslots ev) by lia. plia. }
    split; [split; [done..|cbn; cbn in Hsl; lia]|]. split; [by apply fd_frame_intro|]. split; [apply Hsl|done].
  - split_and!; [by split|by apply fd_frame_intro|lia|done..].
Qed.

Lemma set_callback_ok fd cb ctx ev : fds_ok ev -> fd < event_fdslots ev ->
  exists ev', set_callback fd cb ctx ev = Ret ev' /\ fds_ok ev' /\ fd_frame ev ev'
    /\ event_rmask ev' = event_rmask ev /\ event_wmask ev' = event_wmask ev.
Proof.
  intros [H1 H2 H3 H4 H5] Hfd. unfold set_callback. assert (Hge : (fd >=? event_fdslots ev) = false) by lia. rewrite Hge. eexists.
  split; [done|]. split_and!; [|by apply fd_frame_intro|done|done].
  split; [done..| |done|done]. cbn. intros x Hx. destruct (decide (x = fd)) as [->|Hn]; [by rewrite lookup_insert_eq|].
  rewrite lookup_insert_ne by done. by apply H3.
Qed.

(** Enabling: the two functions differ in the masks. *)
Lemma masks_add_ok ev fd (write : bool) (r w : gset Z) : fds_ok ev -> 0 <= fd < event_fdslots ev ->
  fd ∉ event_rmask ev -> fd ∉ event_wmask ev ->
  r = (if write then event_rmask ev else event_rmask ev ∪ {[fd]}) ->
  w = (if write then event_wmask ev ∪ {[fd]} else event_wmask ev) ->
  forall cb ctx, exists ev', set_callback fd cb ctx (with_masks r w (event_xmask ev ∪ {[fd]})
      (if event_max_fd ev <? fd then fd else event_max_fd ev) (epoll_log ev ++ [EPOLL_ADD fd write]) ev) = Ret ev'
    /\ fds_ok ev' /\ fd_frame ev ev' /\ event_rmask ev' = r /\ event_wmask ev' = w.
Proof.
  intros [(wt & Hw & Hm) H2 H3 H4 H5] Hfd Hr Hwm -> -> cb ctx. unfold set_callback. cbn [event_fdslots with_masks].
  assert (Hge : (fd >=? event_fdslots ev) = false) by lia. rewrite Hge. eexists. split; [done|].
  assert (Hmax : event_max_fd ev <= (if event_max_fd ev <? fd then fd else event_max_fd ev)
    /\ fd <= (if event_max_fd ev <? fd then fd else event_max_fd ev)
    /\ (if event_max_fd ev <? fd then fd else event_max_fd ev) < event_fdslots ev) by (case_match; lia).
  split_and!; [|apply fd_frame_intro; try done; cbn; lia|done|done].
  assert (Hnone : wt !! fd = None).
  { destruct (wt !! fd) as [[]|] eqn:E; [|..|done]; apply Hm in E; done. }
  split; cbn.
  - exists (<[fd := write]> wt). rewrite watched_app, Hw. cbn. rewrite Hnone. split; [done|]. intros x.
    destruct (Hm x) as [C D].
    destruct (decide (x = fd)) as [->|Hn]; [rewrite lookup_insert_eq|rewrite lookup_insert_ne by done];
      destruct write; set_solver.
  - intros x. destruct write; set_solver.
  - intros x Hx. destruct (decide (x = fd)) as [->|Hn]; [by rewrite lookup_insert_eq|].
    rewrite lookup_insert_ne by done. apply H3. set_solver.
  - intros x Hx. apply elem_of_union in Hx as [Hx|Hx%elem_of_singleton]; [apply H4 in Hx|subst x]; lia.
  - lia.
Qed.

Lemma enable_read_ok fd cb ctx ev : fds_ok ev -> 0 <= fd < event_fdlimit ev -> fd ∉ event_wmask ev ->
  exists ev', event_enable_read fd cb ctx ev = Ret ev' /\ fds_ok ev' /\ fd_frame ev ev'
    /\ event_rmask ev' = event_rmask ev ∪ {[fd]} /\ event_wmask ev' = event_wmask ev.
Proof.
  intros Hok Hfd Hw. unfold event_enable_read.
  destruct (extend_ok fd ev Hok) as (H1 & H2 & H3 & H4 & H5 & H6 & H7); [lia|].
  assert (E : (fd <? 0) || (fd >=? event_fdlimit ev) = false) by lia. rewrite E.
  set (ev1 := if fd >=? event_fdslots ev then event_extend fd ev else ev) in *. rewrite bool_decide_false by (by rewrite H5).
  assert (Hff : forall ev', fd_frame ev1 ev' -> fd_frame ev ev').
  { intros ev' [K1 K2 K3]. destruct H2 as [L1 L2 L3]. split; [congruence|congruence|by eapply frame_trans_events]. }
  case_bool_decide as Hin.
  - destruct (set_callback_ok fd cb ctx ev1 H1 H3) as (ev' & E' & K1 & K2 & K3 & K4). exists ev'.
    split_and!; [done|done|by apply Hff| |by rewrite K4, H5]. rewrite K3, H4. rewrite H4 in Hin. set_solver.
  - destruct (masks_add_ok ev1 fd false _ _ H1 ltac:(lia) Hin ltac:(by rewrite H5) eq_refl eq_refl cb ctx)
      as (ev' & E' & K1 & K2 & K3 & K4). exists ev'.
    split_and!; [exact E'|done|by apply Hff|by rewrite K3, H4|by rewrite K4, H5].
Qed.

Lemma enable_write_ok fd cb ctx ev : fds_ok ev -> 0 <= fd < event_fdlimit ev -> fd ∉ event_rmask ev ->
  exists ev', event_enable_write fd cb ctx ev = Ret ev' /\ fds_ok ev' /\ fd_frame ev ev'
    /\ event_rmask ev' = event_rmask ev /\ event_wmask ev' = event_wmask ev ∪ {[fd]}.
Proof.
  intros Hok Hfd Hw. unfold event_enable_write.
  destruct (extend_ok fd ev Hok) as (H1 & H2 & H3 & H4 & H5 & H6 & H7); [lia|].
  assert (E : (fd <? 0) || (fd >=? event_fdlimit ev) = false) by lia. rewrite E.
  set (ev1 := if fd >=? event_fdslots ev then event_extend fd ev else ev) in *. rewrite bool_decide_false by (by rewrite H4).
  assert (Hff : forall ev', fd_frame ev1 ev' -> fd_frame ev ev').
  { intros ev' [K1 K2 K3]. destruct H2 as [L1 L2 L3]. split; [congruence|congruence|by eapply frame_trans_events]. }
  case_bool_decide as Hin.
  - destruct (set_callback_ok fd cb ctx ev1 H1 H3) as (ev' & E' & K1 & K2 & K3 & K4). exists ev'.
    split_and!; [done|done|by apply Hff|by rewrite K3, H4|]. rewrite K4, H5. rewrite H5 in Hin. set_solver.
  - destruct (masks_add_ok ev1 fd true _ _ H1 ltac:(lia) ltac:(by rewrite H4) Hin eq_refl eq_refl cb ctx)
      as (ev' & E' & K1 & K2 & K3 & K4). exists ev'.
    split_and!; [exact E'|done|by apply Hff|by rewrite K3, H4|by rewrite K4, H5].
Qed.

Lemma disable_ok fd ev : fds_ok ev -> 0 <= fd < event_fdlimit ev ->
  exists ev', event_disable_readwrite fd ev = Ret ev' /\ fds_ok ev' /\ fd_frame ev ev'
    /\ event_rmask ev' = event_rmask ev ∖ {[fd]} /\ event_wmask ev' = event_wmask ev ∖ {[fd]}.
Proof.
  intros [(wt & Hw & Hm) H2 H3 H4 H5] Hfd. unfold event_disable_readwrite.
  assert (E : (fd <? 0) || (fd >=? event_fdlimit ev) = false) by lia. rewrite E.
  destruct (fd >=? event_fdslots ev) eqn:E2.
  { assert (Hx : fd ∉ event_xmask ev) by (intros Hx%H4; lia). rewrite H2 in Hx.
    exists ev. split_and!; [done|split; [by exists wt|done..]|by apply fd_frame_intro|set_solver|set_solver]. }
  eexists. split; [reflexivity|]. split_and!; [|by apply fd_frame_intro|done|done]. split; cbn.
  - exists (delete fd wt). split.
    + destruct (Hm fd) as [A B].
      assert (Hdel : forall b, wt !! fd = Some b -> watched (epoll_log ev ++ [EPOLL_DEL fd b]) ∅ = Some (delete fd wt)).
      { intros b Hb. rewrite watched_app, Hw. cbn. by rewrite Hb. }
      case_bool_decide as Hr; [by apply Hdel, A|]. case_bool_decide as Hwm; [by apply Hdel, B|].
      rewrite Hw. f_equal. symmetry. apply delete_id. destruct (wt !! fd) as [[]|]; [|..|done]; naive_solver.
    + intros x. destruct (Hm x) as [C D]. destruct (decide (x = fd)) as [->|Hn];
        [rewrite lookup_delete_eq|rewrite lookup_delete_ne by done]; set_solver.
  - intros x. set_solver.
  - intros x Hx. rewrite lookup_delete_ne by set_solver. apply H3. set_solver.
  - intros x Hx. apply H4. set_solver.
  - done.
Qed.

(** ** The loop *)

(** What the application may do: it uses a descriptor below the limit for reading or for
    writing ([writes]), not for both, does not ask for a timer in the past, and the
    clock reads between [c0] and [c1]. *)
Definition command_ok (writes : Z -> bool) (limit c0 c1 : Z) (c : command) : Prop :=
  match c with
  | RequestTimer _ _ delay now => 0 <= delay /\ c0 <= now <= c1
  | CancelTimer _ _ => True
  | EnableRead fd _ _ => 0 <= fd < limit /\ writes fd = false
  | EnableWrite fd _ _ => 0 <= fd < limit /\ writes fd = true
  | DisableReadWrite fd => 0 <= fd < limit
  end.

Record events_ok (writes : Z -> bool) (limit : Z) (ev : events) : Prop := mk_events_ok {
  eo_timers : timers_ok ev;
  eo_fds : fds_ok ev;
  eo_limit : event_fdlimit ev = limit;
  eo_reads : forall fd, fd ∈ event_rmask ev -> writes fd = false;
  eo_writes : forall fd, fd ∈ event_wmask ev -> writes fd = true
}.

(** During a run of event_loop() that began at [c0]: the requests made since then are
    not for an earlier time. *)
Record during (c0 c1 : Z) (ev : events) : Prop := mk_during {
  du_present : c0 <= event_present ev <= c1;
  du_new : Forall (fun t => loop_instance t = event_loop_instance ev -> c0 <= when t) (event_timers ev)
}.

Section application.
Context (writes : Z -> bool) (limit c0 c1 : Z).

Lemma run_command_ok c ev : events_ok writes limit ev -> during c0 c1 ev -> command_ok writes limit c0 c1 c ->
  exists ev', run_command ev c = Ret ev' /\ events_ok writes limit ev' /\ during c0 c1 ev' /\ frame ev ev'.
Proof.
  intros [H1 H2 H3 H4 H5] [D1 D2] Hc.
  assert (Hfd : forall ev', fds_ok ev' -> fd_frame ev ev' -> (forall fd, fd ∈ event_rmask ev' -> writes fd = false) ->
    (forall fd, fd ∈ event_wmask ev' -> writes fd = true) -> events_ok writes limit ev' /\ during c0 c1 ev' /\ frame ev ev').
  { intros ev' K1 K2 K3 K4. pose proof K2 as [L1 L2 [L3 L4 L5 L6 _]]. split_and!; [|split|by apply K2].
    - split; [by eapply fd_frame_timers|done|congruence|done|done].
    - by rewrite L2.
    - by rewrite L1, L3. }
  destruct c as [cb ctx delay now|cb ctx|fd cb ctx|fd cb ctx|fd]; cbn [run_command command_ok] in *.
  - destruct (request_timer_ok cb ctx delay now ev H1) as (ev' & E & K1 & K2 & K3 & K4 & l1 & l2 & E1 & E2 & K5 & K6); [lia|].
    rewrite E. cbn [mbind outcome_bind]. exists ev'. split; [done|]. split_and!; [| |done].
    + destruct H2 as [F1 F2 F3 F4 F5]. rewrite K4. split; cbn; [by rewrite K4 in K1|by split|done..].
    + split; [lia|]. rewrite (fr_instance _ _ K3). apply Forall_forall. intros t Ht Hi.
      rewrite E1 in Ht. apply elem_of_app in Ht. rewrite elem_of_cons in Ht.
      assert (Ht' : t = mk_timer (now + delay) cb ctx (event_loop_instance ev) \/ t ∈ others cb ctx (event_timers ev)).
      { rewrite E2, elem_of_app. tauto. }
      destruct Ht' as [->|Ht']; [cbn; lia|]. destruct (others_spec cb ctx _ (to_sorted _ H1) (to_unique _ H1)) as (_ & _ & _ & Hin & _).
      rewrite Forall_forall in D2. by apply D2, Hi; apply Hin.
  - destruct (cancel_timer_ok cb ctx ev H1) as (K1 & K2 & K3). eexists. split; [reflexivity|].
    destruct H2 as [F1 F2 F3 F4 F5]. rewrite K3 in K1, K2 |- *. split_and!; [|split; cbn; [done|]|done].
    + split; cbn; [done|by split|done..].
    + destruct (others_spec cb ctx _ (to_sorted _ H1) (to_unique _ H1)) as (_ & _ & _ & Hin & _).
      rewrite Forall_forall in *. intros t Ht. by apply D2, Hin.
  - destruct Hc as [Hc1 Hc2]. destruct (enable_read_ok fd cb ctx ev H2) as (ev' & E & K1 & K2 & K3 & K4).
    { by rewrite H3. } { intros Hw%H5. congruence. }
    exists ev'. split; [done|]. apply Hfd; [done|done|set_solver|set_solver].
  - destruct Hc as [Hc1 Hc2]. destruct (enable_write_ok fd cb ctx ev H2) as (ev' & E & K1 & K2 & K3 & K4).
    { by rewrite H3. } { intros Hw%H4. congruence. }
    exists ev'. split; [done|]. apply Hfd; [done|done|set_solver|set_solver].
  - destruct (disable_ok fd ev H2) as (ev' & E & K1 & K2 & K3 & K4); [by rewrite H3|].
    exists ev'. split; [done|]. apply Hfd; [done|done|set_solver|set_solver].
Qed.

Lemma run_commands_ok cs : forall ev, events_ok writes limit ev -> during c0 c1 ev -> Forall (command_ok writes limit c0 c1) cs ->
  exists ev', run_commands cs ev = Ret ev' /\ events_ok writes limit ev' /\ during c0 c1 ev' /\ frame ev ev'.
Proof.
  induction cs as [|c cs IH]; intros ev Hev Hdu Hcs; [exists ev; auto with postfix|]. apply Forall_cons in Hcs as [Hc Hcs].
  destruct (run_command_ok c ev Hev Hdu Hc) as (ev1 & E1 & H1 & D1 & F1). cbn. rewrite E1. cbn [mbind outcome_bind].
  destruct (IH ev1 H1 D1 Hcs) as (ev2 & E2 & H2 & D2 & F2). exists ev2. split_and!; [done..|by eapply frame_trans_events].
Qed.

(** Taking the first request from the queue. *)
Lemma pop_timer_ok ev t l : events_ok writes limit ev -> during c0 c1 ev -> event_timers ev = t :: l ->
  loop_instance t <> event_loop_instance ev ->
  events_ok writes limit (with_timers l ev) /\ during c0 c1 (with_timers l ev)
  /\ (length (old_timers (with_timers l ev)) < length (old_timers ev))%nat.
Proof.
  intros [[T1 T2 T3] [F1 F2 F3 F4 F5] H3 H4 H5] [D1 D2] E Hi. rewrite E in T1, T2, T3, D2. cbn in T2.
  inversion T1; subst. apply NoDup_cons in T2 as [_ T2]. apply Forall_cons in T3 as [_ T3]. apply Forall_cons in D2 as [_ D2].
  split_and!; [split; [by split|by split|done..]|by split|]. unfold old_timers. rewrite E. cbn [event_timers with_timers event_loop_instance].
  rewrite filter_cons, decide_True by done. cbn. lia.
Qed.

(** The requests left: made since the start of the loop, or for a later time. *)
Definition served (ev : events) : Prop :=
  Forall (fun t => loop_instance t = event_loop_instance ev \/ c0 < when t) (event_timers ev).

Lemma served_future ev t l : timers_ok ev -> during c0 c1 ev -> event_timers ev = t :: l -> event_present ev < when t -> served ev.
Proof using c0 c1 writes.
  intros [T1 _ _] [D1 _] E Ht. unfold served. rewrite E in T1 |- *. inversion T1 as [|? ? _ Hl]; subst.
  constructor; [right; lia|]. eapply Forall_impl; [exact Hl|]. intros u Hu%timer_le_when. right. lia.
Qed.

Lemma served_new ev t l : timers_ok ev -> during c0 c1 ev -> event_timers ev = t :: l ->
  loop_instance t = event_loop_instance ev -> served ev.
Proof using c0 c1 writes.
  intros [T1 _ T3] [D1 D2] E Ht. unfold served. rewrite E in T1, T3, D2 |- *. inversion T1 as [|? ? _ Hl]; subst.
  apply Forall_cons in D2 as [D2 _]. apply Forall_cons in T3 as [_ T3]. specialize (D2 Ht).
  constructor; [by left|]. rewrite Forall_forall in *. intros u Hu. specialize (Hl u Hu). specialize (T3 u Hu).
  unfold timer_le in Hl. destruct Hl as [Hl|[Hl1 Hl2]]; [right; lia|left; lia].
Qed.

Context {App : Type} (notify : nat -> nat -> event_type -> App -> list command * App).
Hypothesis notify_ok : forall cb ctx type app, Forall (command_ok writes limit c0 c1) (notify cb ctx type app).1.

Lemma call_ok cb ctx type app ev : events_ok writes limit ev -> during c0 c1 ev ->
  exists app' ev', call notify cb ctx type app ev = Ret (app', ev') /\ events_ok writes limit ev' /\ during c0 c1 ev' /\ frame ev ev'.
Proof using notify_ok.
  intros Hev Hdu. unfold call. specialize (notify_ok cb ctx type app). destruct (notify cb ctx type app) as [cs app'].
  destruct (run_commands_ok cs ev Hev Hdu notify_ok) as (ev' & E & H). exists app', ev'. rewrite E. by split.
Qed.

Lemma timer_loop_ok fuel : forall app ev, events_ok writes limit ev -> during c0 c1 ev -> (length (old_timers ev) < fuel)%nat ->
  exists done app' ev', timer_loop notify fuel app ev = Ret (Some (done, app', ev'))
    /\ events_ok writes limit ev' /\ during c0 c1 ev' /\ frame ev ev' /\ served ev'
    /\ (length done + length (old_timers ev') <= length (old_timers ev))%nat
    /\ Forall (fun t => when t <= c1 /\ loop_instance t <> event_loop_instance ev) done.
Proof using notify_ok.
  induction fuel as [|fuel IH]; intros app ev Hev Hdu Hf; [lia|]. cbn [timer_loop].
  assert (Hstop : served ev -> exists done app' ev', Ret (Some ([], app, ev)) = Ret (Some (done, app', ev'))
    /\ events_ok writes limit ev' /\ during c0 c1 ev' /\ frame ev ev' /\ served ev'
    /\ (length done + length (old_timers ev') <= length (old_timers ev))%nat
    /\ Forall (fun t => when t <= c1 /\ loop_instance t <> event_loop_instance ev) done).
  { intros Hs. exists [], app, ev. split_and!; [done..|apply frame_refl_events|done|cbn; lia|done]. }
  destruct (event_timers ev) as [|t l] eqn:E; [apply Hstop; unfold served; by rewrite E|].
  destruct (when t >? event_present ev) eqn:Ew.
  { apply Hstop. eapply served_future; [apply Hev|done|exact E|lia]. }
  destruct (loop_instance t =? event_loop_instance ev) eqn:Ei.
  { apply Hstop. eapply served_new; [apply Hev|done|exact E|lia]. }
  assert (Hi : loop_instance t <> event_loop_instance ev) by lia. assert (Hw : when t <= c1) by (destruct Hdu; lia).
  destruct (pop_timer_ok ev t l Hev Hdu E Hi) as (Hev1 & Hdu1 & Hold).
  destruct (call_ok (callback t) (context t) EVENT_TIME app _ Hev1 Hdu1) as (app2 & ev2 & E2 & Hev2 & Hdu2 & F2).
  rewrite E2. cbn [mbind outcome_bind]. pose proof (fr_old _ _ F2) as Hold2.
  destruct (IH app2 ev2 Hev2 Hdu2) as (done' & app3 & ev3 & E3 & Hev3 & Hdu3 & F3 & Hs3 & Hl3 & Hd3); [lia|].
  rewrite E3. cbn [mbind outcome_bind]. exists (t :: done'), app3, ev3.
  split_and!; [done..| |done| |].
  - eapply frame_trans_events; [|exact F3]. destruct F2 as [G1 G2 G3 G4 G5 G6]. split; [exact G1|exact G2|exact G3|exact G4|lia|].
    intros x [Hx|Hx]%G6; [left; rewrite E; by right|by right].
  - cbn. lia.
  - constructor; [done|]. rewrite (fr_instance _ _ F2) in Hd3. exact Hd3.
Qed.

Lemma io_loop_ok buf : forall app ev, events_ok writes limit ev -> during c0 c1 ev ->
  Forall (fun x => 0 <= x.1.1 <= event_max_fd ev) buf ->
  exists done app' ev', io_loop notify buf app ev = Ret (done, app', ev')
    /\ events_ok writes limit ev' /\ during c0 c1 ev' /\ frame ev ev'
    /\ Forall (fun d => d.1 ∈ map (fun x => x.1.1) buf) done.
Proof using notify_ok.
  induction buf as [|[[fd r] w] buf IH]; intros app ev Hev Hdu Hb; [exists [], app, ev; auto with postfix|].
  apply Forall_cons in Hb as [Hfd Hb]. cbn in Hfd. cbn [io_loop].
  assert (E : (fd <? 0) || (fd >? event_max_fd ev) = false) by lia. rewrite E. case_bool_decide as Hin.
  - destruct (fo_callback _ (eo_fds _ _ _ Hev) fd Hin) as [fdp Hfdp]. rewrite Hfdp.
    destruct (call_ok (fd_callback fdp) (fd_context fdp) (if r then EVENT_READ else if w then EVENT_WRITE else EVENT_XCPT) app ev Hev Hdu)
      as (app2 & ev2 & E2 & Hev2 & Hdu2 & F2). rewrite E2. cbn [mbind outcome_bind].
    destruct (IH app2 ev2 Hev2 Hdu2) as (done' & app3 & ev3 & E3 & Hev3 & Hdu3 & F3 & Hd3).
    { eapply Forall_impl; [exact Hb|]. cbn. pose proof (fr_max_fd _ _ F2). intros x Hx. lia. }
    rewrite E3. cbn [mbind outcome_bind]. eexists _, app3, ev3. split; [reflexivity|].
    split_and!; [done..|by eapply frame_trans_events|].
    constructor; [by left|]. eapply Forall_impl; [exact Hd3|]. intros x Hx. by right.
  - destruct (IH app ev Hev Hdu Hb) as (done' & app3 & ev3 & E3 & Hev3 & Hdu3 & F3 & Hd3).
    exists done', app3, ev3. split_and!; [done..|]. eapply Forall_impl; [exact Hd3|]. intros x Hx. by right.
Qed.
End application.

(** ** Properties *)

(** Between two runs of event_loop(). *)
Lemma fresh_instance_ok writes limit ev now : events_ok writes limit ev ->
  events_ok writes limit (with_instance (event_loop_instance ev + 1) (with_present now ev))
  /\ Forall (fun t => loop_instance t <> event_loop_instance ev + 1) (event_timers ev).
Proof.
  intros [[T1 T2 T3] [F1 F2 F3 F4 F5] H3 H4 H5].
  assert (Hlt : Forall (fun t => loop_instance t <= event_loop_instance ev + 1) (event_timers ev))
    by (eapply Forall_impl; [exact T3|]; intros t Ht; cbn in *; lia).
  split; [split; [by split|by split|done..]|]. eapply Forall_impl; [exact T3|]. intros t Ht. cbn in *. lia.
Qed.

Lemma with_nested_ok writes limit ev n : events_ok writes limit ev -> events_ok writes limit (with_nested n ev).
Proof. intros [[T1 T2 T3] [F1 F2 F3 F4 F5] H3 H4 H5]. split; [by split|by split|done..]. Qed.

Lemma with_present_ok writes limit ev now : events_ok writes limit ev -> events_ok writes limit (with_present now ev).
Proof. intros [[T1 T2 T3] [F1 F2 F3 F4 F5] H3 H4 H5]. split; [by split|by split|done..]. Qed.


(** event_request_timer() makes the one request for the callback and context: the
    request that it replaces is gone, the others stay in their order, and the new one is
    after all requests for the same or an earlier time and before those for a later
    time.  event_cancel_timer() removes the request and tells the time left. *)
Theorem event_timer_requests (cb ctx : nat) (delay now : Z) (ev : events) (Hev : timers_ok ev) (Hdelay : 0 <= delay) :
  exists ev' l1 l2, event_request_timer cb ctx delay now ev = Ret (now + delay, ev') /\ timers_ok ev'
    /\ event_timers ev' = l1 ++ mk_timer (now + delay) cb ctx (event_loop_instance ev) :: l2
    /\ l1 ++ l2 = filter (fun t => timer_key t <> (cb, ctx)) (event_timers ev)
    /\ Forall (fun u => when u <= now + delay) l1 /\ Forall (fun u => now + delay < when u) l2
    /\ event_cancel_timer cb ctx ev' = (delay, with_timers (l1 ++ l2) ev').
Proof.
  destruct (request_timer_ok cb ctx delay now ev Hev Hdelay) as (ev' & E & H1 & H2 & H3 & H4 & l1 & l2 & E1 & E2 & H5 & H6).
  exists ev', l1, l2. pose proof Hev as [T1 T2 T3].
  destruct (others_spec cb ctx _ T1 T2) as (_ & _ & Hnk & _ & _). rewrite E2 in Hnk. split_and!; [done|done|done| |done|done|].
  - rewrite <- E2. unfold others. pose proof (detach_timer_spec cb ctx (event_timers ev)) as Hd.
    assert (Hall : forall l, (cb, ctx) ∉ map timer_key l -> filter (fun t => timer_key t <> (cb, ctx)) l = l).
    { induction l as [|x l IHl]; [done|]. cbn [map]. intros [Hx Hl]%not_elem_of_cons. rewrite filter_cons, decide_True by congruence. by rewrite IHl. }
    unfold others in Hnk, E2. destruct (detach_timer cb ctx (event_timers ev)) as [[t l']|].
    + destruct Hd as (Hk & m1 & m2 & Em & ->). rewrite Em, filter_app, filter_cons, decide_False by tauto.
      rewrite <- E2, map_app, not_elem_of_app in Hnk. destruct Hnk. by rewrite !Hall.
    + symmetry. by apply Hall.
  - unfold event_cancel_timer. pose proof (detach_timer_spec cb ctx (event_timers ev')) as Hd.
    destruct (detach_timer cb ctx (event_timers ev')) as [[t l']|].
    + destruct Hd as (Hk & m1 & m2 & Em & ->). rewrite E1 in Em.
      assert (Hu : NoDup (map timer_key (event_timers ev'))) by apply H1. rewrite E1 in Hu.
      assert (E' : m1 = l1 /\ t = mk_timer (now + delay) cb ctx (event_loop_instance ev) /\ m2 = l2).
      { clear -Em Hk Hnk. revert m1 Em Hnk. induction l1 as [|x l1 IH]; intros [|y m1] Em Hnk; cbn in *.
        - injection Em as -> ->. done.
        - injection Em as <- ->. rewrite map_app in Hnk. cbn in Hnk. set_solver.
        - injection Em as -> _. set_solver.
        - injection Em as -> Em. destruct (IH m1 Em) as (-> & -> & ->); [set_solver|done]. }
      destruct E' as (-> & -> & ->). cbn [when]. rewrite H2. replace (now + delay - now) with delay by lia.
      by rewrite (proj2 (Z.ltb_ge delay 0)).
    + exfalso. apply Hd. rewrite E1, map_app. cbn. apply elem_of_app. right. by left.
Qed.

(** ** A run *)

(** Callback 1 asks for itself again without delay, and cancels the request of 2. *)
Definition demo_notify (cb ctx : nat) (type : event_type) (app : nat) : list command * nat :=
  match cb with
  | 1%nat => ([RequestTimer 1 ctx 0 101; CancelTimer 2 0; EnableRead 3 5 0], S app)
  | _ => ([DisableReadWrite 3], S app)
  end.

Definition demo_events : events :=
  match run_commands [RequestTimer 1 0 0 100; RequestTimer 2 0 0 100; RequestTimer 3 0 60 100; EnableRead 4 5 0] (event_init 64 100) with
  | Ret ev => ev
  | _ => event_init 64 100
  end.

Lemma event_init_ok writes limit now : events_ok writes limit (event_init limit now).
Proof.
  split; [split; cbn; constructor| |done|set_solver|set_solver].
  split; cbn; [exists ∅; split; [done|]; set_solver|set_solver..|done].
Qed.

Lemma demo_events_ok : events_ok (fun _ => false) 64 demo_events.
Proof.
  destruct (run_commands_ok (fun _ => false) 64 100 100
    [RequestTimer 1 0 0 100; RequestTimer 2 0 0 100; RequestTimer 3 0 60 100; EnableRead 4 5 0] (event_init 64 100)
    (event_init_ok _ _ _)) as (ev & E & H & _).
  - split; [cbn; lia|constructor].
  - repeat (constructor; [cbn; lia|]). constructor.
  - unfold demo_events. rewrite E. exact H.
Qed.

Lemma demo_notify_ok cb ctx type app : Forall (command_ok (fun _ => false) 64 101 105) (demo_notify cb ctx type app).1.
Proof.
  destruct cb as [|[|cb]]; cbn; repeat (constructor; [cbn; try split; try lia; done|]); constructor.
Qed.


Lemma event_timer_requests_witness :
  exists ev' l1 l2, event_request_timer 2 0 60 101 demo_events = Ret (161, ev') /\ timers_ok ev'
    /\ event_timers ev' = l1 ++ mk_timer 161 2 0 (event_loop_instance demo_events) :: l2
    /\ l1 ++ l2 = filter (fun t => timer_key t <> (2%nat, 0%nat)) (event_timers demo_events)
    /\ Forall (fun u => when u <= 161) l1 /\ Forall (fun u => 161 < when u) l2
    /\ event_cancel_timer 2 0 ev' = (60, with_timers (l1 ++ l2) ev').
Proof. apply (event_timer_requests 2 0 60 101 demo_events); [apply demo_events_ok|lia]. Defined.
