(* ===== verification/Ctable.v ===== *)
(** Least-recently-used caches: ctable.c (src/src/util).

    A cache finds its entries through a table with string keys, of which it needs what
    Table.v promises; the hash table of Htable.v is one.  The entries are in a ring
    (Ring.v), most recently used first.  The constructor and the destructor of values
    are the application's. *)

From stdpp Require Import strings.
From S2P Require Export Ring Table Htable.

Section ctable.
Context {V App T : Type} `{TableLaws T nat}.
Context (create : bytes -> App -> V * App) (destroy : V -> App -> App).
#[local] Set Default Proof Using "All".

(** ** State *)

Record CTABLE_ENTRY := mk_entry { ce_key : bytes; ce_value : V }.

(** The entries by address; the ring is the list of its entries from the head on. *)
Record CTABLE := mk_ctable {
  ct_table : T;
  ct_limit : Z;
  ct_used : Z;
  ct_ring : list nat;
  ct_entries : gmap nat CTABLE_ENTRY;
  ct_fresh : nat
}.

Definition CTABLE_MIN_SIZE : Z := 5.

(** ** Operations *)

Definition ctable_create (limit : Z) : outcome CTABLE :=
  if limit <? 1 then Panic
  else Ret (mk_ctable (table_create limit) (if limit <? CTABLE_MIN_SIZE then CTABLE_MIN_SIZE else limit) 0 [] ∅ 0).

Definition entry_at (x : nat) (c : CTABLE) : outcome CTABLE_ENTRY :=
  match ct_entries c !! x with Some e => Ret e | None => Undef end.

(** Make room: the entry to use, the cache and the application's state. *)
Definition ctable_purge (c : CTABLE) (s : App) : outcome (nat * CTABLE * App) :=
  if ct_used c >=? ct_limit c then
    match last (ct_ring c) with
    | None => Undef                     (* the head is not an entry *)
    | Some x =>
        entry ← entry_at x c;
        let s := destroy (ce_value entry) s in
        table ← table_delete (ct_table c) (ce_key entry);
        Ret (x, mk_ctable table (ct_limit c) (ct_used c) (list_detach x (ct_ring c)) (ct_entries c) (ct_fresh c), s)
    end
  else
    let x := ct_fresh c in
    Ret (x, mk_ctable (ct_table c) (ct_limit c) (ct_used c + 1) (ct_ring c) (ct_entries c) (S x), s).

(** Move an entry to the front of the ring, if it is not there. *)
Definition ctable_touch (x : nat) (c : CTABLE) : CTABLE :=
  if decide (head (ct_ring c) = Some x) then c
  else mk_ctable (ct_table c) (ct_limit c) (ct_used c) (x :: list_detach x (ct_ring c)) (ct_entries c) (ct_fresh c).

Definition ctable_locate (c : CTABLE) (key : bytes) (s : App) : outcome (V * CTABLE * App) :=
  p ← table_find (ct_table c) key;
  match p with
  | None =>
      '(x, c, s) ← ctable_purge c s;
      let (value, s) := create key s in
      table ← table_enter (ct_table c) key x;
      Ret (value, mk_ctable table (ct_limit c) (ct_used c) (x :: ct_ring c)
                    (<[x := mk_entry key value]> (ct_entries c)) (ct_fresh c), s)
  | Some x =>
      entry ← entry_at x c;
      Ret (ce_value entry, ctable_touch x c, s)
  end.

Definition ctable_refresh (c : CTABLE) (key : bytes) (s : App) : outcome (V * CTABLE * App) :=
  p ← table_find (ct_table c) key;
  match p with
  | None => ctable_locate c key s
  | Some x =>
      entry ← entry_at x c;
      let s := destroy (ce_value entry) s in
      let (value, s) := create key s in
      let c := mk_ctable (ct_table c) (ct_limit c) (ct_used c) (ct_ring c)
                 (<[x := mk_entry (ce_key entry) value]> (ct_entries c)) (ct_fresh c) in
      Ret (value, ctable_touch x c, s)
  end.

(** The application's state after all values are destroyed. *)
Fixpoint destroy_entries (l : list nat) (c : CTABLE) (s : App) : outcome App :=
  match l with
  | [] => Ret s
  | x :: l => entry ← entry_at x c; destroy_entries l c (destroy (ce_value entry) s)
  end.
Definition ctable_free (c : CTABLE) (s : App) : outcome App :=
  l ← table_free (ct_table c);
  destroy_entries l c s.

(** ctable_walk(): the keys and values from the front of the ring on. *)
Fixpoint walk_entries (l : list nat) (c : CTABLE) : outcome (list (bytes * V)) :=
  match l with
  | [] => Ret []
  | x :: l => entry ← entry_at x c; r ← walk_entries l c; Ret ((ce_key entry, ce_value entry) :: r)
  end.
Definition ctable_walk (c : CTABLE) : outcome (list (bytes * V)) := walk_entries (ct_ring c) c.

(** ** Specification

    A cache is a list of keys and values, most recently used first, of limited length. *)

Fixpoint cache_find (key : bytes) (l : list (bytes * V)) : option V :=
  match l with
  | [] => None
  | (k, v) :: l => if decide (k = key) then Some v else cache_find key l
  end.
Definition cache_remove (key : bytes) (l : list (bytes * V)) : list (bytes * V) := filter (fun kv => kv.1 <> key) l.

(** Drop the least recently used entry when the cache is full. *)
Definition cache_purge (limit : Z) (l : list (bytes * V)) (s : App) : list (bytes * V) * App :=
  if limit <=? Z.of_nat (length l) then
    match last l with Some kv => (take (pred (length l)) l, destroy kv.2 s) | None => (l, s) end
  else (l, s).

Definition cache_locate (limit : Z) (key : bytes) (l : list (bytes * V)) (s : App) : V * list (bytes * V) * App :=
  match cache_find key l with
  | Some v => (v, (key, v) :: cache_remove key l, s)
  | None =>
      let (l, s) := cache_purge limit l s in
      let (v, s) := create key s in
      (v, (key, v) :: l, s)
  end.

Definition cache_refresh (limit : Z) (key : bytes) (l : list (bytes * V)) (s : App) : V * list (bytes * V) * App :=
  match cache_find key l with
  | Some v =>
      let s := destroy v s in
      let (v, s) := create key s in
      (v, (key, v) :: cache_remove key l, s)
  | None => cache_locate limit key l s
  end.

(** ** Refinement *)

(** The cache [c] holds [l]. *)
Record holds (c : CTABLE) (l : list (bytes * V)) : Prop := mk_holds {
  ho_limit : 1 <= ct_limit c;
  ho_used : ct_used c = Z.of_nat (length l) /\ Z.of_nat (length l) <= ct_limit c;
  ho_nodup : NoDup (ct_ring c);
  ho_keys : NoDup (map fst l);
  ho_entries : Forall2 (fun x kv => ct_entries c !! x = Some (mk_entry kv.1 kv.2)) (ct_ring c) l;
  ho_fresh : forall x, x ∈ ct_ring c -> (x < ct_fresh c)%nat;
  ho_table : exists m, table_rep (ct_table c) m
     /\ forall k x, m !! k = Some x <-> x ∈ ct_ring c /\ exists v, ct_entries c !! x = Some (mk_entry k v)
}.

Lemma holds_lookup c l x : holds c l -> x ∈ ct_ring c -> exists kv, ct_entries c !! x = Some (mk_entry kv.1 kv.2) /\ kv ∈ l.
Proof.
  intros H1 Hx. apply list_elem_of_lookup in Hx as [i Hi].
  destruct (Forall2_lookup_l _ _ _ _ _ (ho_entries _ _ H1) Hi) as (kv & Hkv & E). exists kv. split; [done|].
  by eapply list_elem_of_lookup_2.
Qed.

(** An entry of the ring has a key of the list. *)
Lemma entry_key (es : gmap nat CTABLE_ENTRY) (r : list nat) (l : list (bytes * V)) y k w : Forall2 (fun x kv => es !! x = Some (mk_entry kv.1 kv.2)) r l -> y ∈ r ->
  es !! y = Some (mk_entry k w) -> k ∈ map fst l.
Proof.
  intros F Hy Hw. apply list_elem_of_lookup in Hy as [i Hi]. destruct (Forall2_lookup_l _ _ _ _ _ F Hi) as ([k2 w2] & Hkv & E2).
  rewrite Hw in E2. injection E2 as -> ->. apply list_elem_of_fmap. exists (k2, w2). split; [done|]. by eapply list_elem_of_lookup_2.
Qed.

(** Entries of other addresses do not matter. *)
Lemma entries_insert (es : gmap nat CTABLE_ENTRY) (r : list nat) (l : list (bytes * V)) x e :
  Forall2 (fun x kv => es !! x = Some (mk_entry kv.1 kv.2)) r l -> x ∉ r ->
  Forall2 (fun y kv => <[x := e]> es !! y = Some (mk_entry kv.1 kv.2)) r l.
Proof.
  induction 1 as [|y kv r l Hy F IH]; intros Hx; constructor; apply not_elem_of_cons in Hx as [Hn Hx]; [|by apply IH].
  by rewrite lookup_insert_ne.
Qed.

Lemma cache_find_in key l v : cache_find key l = Some v -> (key, v) ∈ l.
Proof.
  induction l as [|[k w] l IH]; cbn; [done|]. case_decide; [intros [= ->]; subst; by left|]. right. by apply IH.
Qed.
Lemma cache_find_none key l : cache_find key l = None <-> key ∉ map fst l.
Proof.
  induction l as [|[k w] l IH]; cbn; [split; [intros _; apply not_elem_of_nil|done]|].
  rewrite not_elem_of_cons. case_decide; [naive_solver|]. rewrite IH. naive_solver.
Qed.

(** The table finds the entry of the ring that has the key. *)
Lemma find_ok c l key : holds c l -> exists p, table_find (ct_table c) key = Ret p
  /\ match p with
     | Some x => exists v, x ∈ ct_ring c /\ ct_entries c !! x = Some (mk_entry key v) /\ cache_find key l = Some v
     | None => cache_find key l = None
     end.
Proof.
  intros Hh. destruct (ho_table _ _ Hh) as (m & Hm & Hmx). exists (m !! key). split; [by apply find_rep|].
  destruct (m !! key) as [x|] eqn:E.
  - apply Hmx in E as (Hx & v & Hv). exists v. split_and!; [done|done|].
    destruct (holds_lookup c l x Hh Hx) as ([k w] & Ek & Hin). rewrite Hv in Ek. injection Ek as <- <-.
    destruct (cache_find key l) as [w|] eqn:Ef.
    + apply cache_find_in in Ef. f_equal. pose proof (ho_keys _ _ Hh) as Hnd. clear -Hnd Ef Hin.
      induction l as [|[k u] l IH]; [by apply not_elem_of_nil in Ef|]. cbn in Hnd. apply NoDup_cons in Hnd as [Hk Hnd].
      apply elem_of_cons in Ef as [Ef|Ef]; apply elem_of_cons in Hin as [Hin|Hin]; simplify_eq/=.
      * done.
      * destruct Hk. apply list_elem_of_fmap. by exists (k, v).
      * destruct Hk. apply list_elem_of_fmap. by exists (k, w).
      * by apply IH.
    + apply cache_find_none in Ef. destruct Ef. apply list_elem_of_fmap. by exists (key, v).
  - apply cache_find_none. intros Hk. apply list_elem_of_fmap in Hk as ([k v] & -> & Hkv). cbn in E.
    apply list_elem_of_lookup in Hkv as [i Hi]. destruct (Forall2_lookup_r _ _ _ _ _ (ho_entries _ _ Hh) Hi) as (x & Hx & Ex).
    assert (m !! k = Some x) by (apply Hmx; split; [by eapply list_elem_of_lookup_2|by exists v]). congruence.
Qed.

(** An entry in the ring and in the list. *)
Lemma holds_split c l x key v : holds c l -> x ∈ ct_ring c -> ct_entries c !! x = Some (mk_entry key v) ->
  exists r1 r2 l1 l2, ct_ring c = r1 ++ x :: r2 /\ l = l1 ++ (key, v) :: l2
    /\ list_detach x (ct_ring c) = r1 ++ r2 /\ cache_remove key l = l1 ++ l2
    /\ Forall2 (fun x kv => ct_entries c !! x = Some (mk_entry kv.1 kv.2)) r1 l1
    /\ Forall2 (fun x kv => ct_entries c !! x = Some (mk_entry kv.1 kv.2)) r2 l2
    /\ x ∉ r1 ++ r2 /\ key ∉ map fst (l1 ++ l2).
Proof.
  intros [_ _ Hnd Hk He _ _] Hx Ex. exists (ring_before x (ct_ring c)), (ring_after x (ct_ring c)).
  pose proof (before_after_ring x _ Hx) as Er. rewrite Er in He, Hnd.
  apply Forall2_app_inv_l in He as (l1 & l2' & H1 & H2 & ->). inversion H2 as [|? kv ? l2 Hkv H2']; subst.
  rewrite Ex in Hkv. destruct kv as [k w]. injection Hkv as <- <-. exists l1, l2.
  rewrite map_app in Hk. cbn in Hk. rewrite <- Permutation_middle in Hk. apply NoDup_cons in Hk as [Hk _].
  rewrite <- Permutation_middle in Hnd. apply NoDup_cons in Hnd as [Hxn _]. rewrite <- map_app in Hk.
  split_and!; [done|done|done| |done|done|done|done].
  assert (Hrem : forall l : list (bytes * V), key ∉ map fst l -> filter (fun kv : bytes * V => kv.1 <> key) l = l).
  { induction l as [|[k u] l IH]; [done|]. cbn [map]. intros [Hn Hl]%not_elem_of_cons.
    rewrite filter_cons, decide_True by (cbn in *; congruence). f_equal. by apply IH. }
  unfold cache_remove. rewrite filter_app, filter_cons, decide_False by (cbn; tauto).
  rewrite map_app, not_elem_of_app in Hk. destruct Hk as [Hk1 Hk2]. by rewrite Hrem, Hrem.
Qed.

Lemma touch_ok c l x key v : holds c l -> x ∈ ct_ring c -> ct_entries c !! x = Some (mk_entry key v) ->
  holds (ctable_touch x c) ((key, v) :: cache_remove key l).
Proof.
  intros Hh Hx Ex. destruct (holds_split c l x key v Hh Hx Ex) as (r1 & r2 & l1 & l2 & Er & El & Ed & Ec & F1 & F2 & Hxr & Hkr).
  pose proof Hh as [G1 [G2 G2'] G3 G4 G5 G6 G7]. unfold ctable_touch. rewrite Ec. case_decide as Hhd.
  - destruct r1 as [|y r1]; [|rewrite Er in Hhd; injection Hhd as ->; destruct Hxr; set_solver].
    inversion F1; subst l1. cbn in El |- *. by rewrite <- El.
  - rewrite Ed. split; cbn; [done| | | | | |].
    + rewrite El in G2, G2'. rewrite length_app in *. cbn in *. lia.
    + rewrite Er, <- Permutation_middle in G3. exact G3.
    + rewrite El, map_app in G4. cbn in G4. rewrite <- Permutation_middle, <- map_app in G4. exact G4.
    + constructor; [done|by apply Forall2_app].
    + intros y Hy. apply G6. rewrite Er, <- Permutation_middle. exact Hy.
    + destruct G7 as (m & Hm & Hmx). exists m. split; [done|]. intros k y. rewrite Hmx, Er, <- Permutation_middle. done.
Qed.

(** After purging, [x] is free for a new entry. *)
Record ready (x : nat) (c : CTABLE) (l : list (bytes * V)) : Prop := mk_ready {
  re_limit : 1 <= ct_limit c;
  re_used : ct_used c = Z.of_nat (length l) + 1 /\ Z.of_nat (length l) + 1 <= ct_limit c;
  re_nodup : NoDup (x :: ct_ring c);
  re_keys : NoDup (map fst l);
  re_entries : Forall2 (fun x kv => ct_entries c !! x = Some (mk_entry kv.1 kv.2)) (ct_ring c) l;
  re_fresh : forall y, y ∈ x :: ct_ring c -> (y < ct_fresh c)%nat;
  re_table : exists m, table_rep (ct_table c) m
     /\ forall k y, m !! k = Some y <-> y ∈ ct_ring c /\ exists v, ct_entries c !! y = Some (mk_entry k v)
}.

Lemma purge_ok c l s : holds c l -> exists x c1, ctable_purge c s = Ret (x, c1, (cache_purge (ct_limit c) l s).2)
  /\ ready x c1 (cache_purge (ct_limit c) l s).1 /\ ct_limit c1 = ct_limit c
  /\ (forall kv, kv ∈ (cache_purge (ct_limit c) l s).1 -> kv ∈ l).
Proof.
  intros Hh. pose proof Hh as [G1 [G2 G2'] G3 G4 G5 G6 G7]. unfold ctable_purge, cache_purge. rewrite G2.
  destruct (Z.leb_spec (ct_limit c) (Z.of_nat (length l))) as [Hfull|Hroom].
  - assert (Hge : (Z.of_nat (length l) >=? ct_limit c) = true) by lia. rewrite Hge.
    pose proof (Forall2_length _ _ _ G5) as Hlen.
    destruct (last (ct_ring c)) as [x|] eqn:Ex; [|apply last_None in Ex; rewrite Ex in Hlen; cbn in Hlen; lia].
    pose proof (last_Some_elem_of _ _ Ex) as Hx. destruct (holds_lookup c l x Hh Hx) as ([k v] & Ek & _). cbn in Ek.
    destruct (holds_split c l x k v Hh Hx Ek) as (r1 & r2 & l1 & l2 & Er & El & Ed & Ec & F1 & F2 & Hxr & Hkr).
    assert (r2 = []).
    { destruct r2 as [|y r2]; [done|]. rewrite Er in Ex. destruct (exists_last (l := y :: r2)) as (r3 & z & Ez); [done|].
      rewrite Ez, app_comm_cons, app_assoc, last_snoc in Ex. injection Ex as ->. destruct Hxr. rewrite Ez. set_solver. }
    subst r2. inversion F2; subst l2. unfold entry_at. rewrite Ek. cbn [mbind outcome_bind ce_key ce_value].
    destruct G7 as (m & Hm & Hmx). assert (Emk : m !! k = Some x) by (apply Hmx; split; [done|by exists v]).
    destruct (delete_rep _ m k x Hm Emk) as (t' & -> & Ht'). cbn [mbind outcome_bind].
    rewrite El. rewrite last_snoc. cbn [fst snd]. rewrite length_app. cbn [length]. replace (pred (length l1 + 1))%nat with (length l1) by lia.
    rewrite take_app_length. eexists x, _. split; [reflexivity|]. rewrite Ed. rewrite app_nil_r in Hxr, Hkr |- *.
    split_and!; [|done|intros kv Hkv; set_solver]. split; cbn; [done| | | | | |].
    + rewrite El, length_app in *. cbn in *. lia.
    + rewrite Er in G3. rewrite <- Permutation_middle, app_nil_r in G3. exact G3.
    + rewrite El, map_app in G4. by apply NoDup_app in G4 as [? _].
    + exact F1.
    + intros y Hy. apply G6. rewrite Er. set_solver.
    + exists (delete k m). split; [done|]. intros k' y. rewrite lookup_delete_Some, Hmx, Er.
      assert (Hyx : forall w, ct_entries c !! y = Some (mk_entry k' w) -> k = k' -> y ∈ r1 -> False).
      { intros w Hw <- Hy. by apply Hkr, (entry_key _ _ _ _ _ _ F1 Hy Hw). }
      split.
      * intros (Hk' & Hy & w & Hw). split; [|by exists w]. apply elem_of_app in Hy as [Hy|Hy]; [done|].
        apply list_elem_of_singleton in Hy as ->. rewrite Ek in Hw. injection Hw as -> _. done.
      * intros (Hy & w & Hw). split; [intros E; by apply (Hyx w)|]. split; [set_solver|by exists w].
  - assert (Hge : (Z.of_nat (length l) >=? ct_limit c) = false) by lia. rewrite Hge.
    eexists _, _. split; [reflexivity|]. split_and!; [|done|done]. cbn. split; cbn; [done|lia| |done|done| |done].
    + constructor; [|done]. intros Hi%G6. lia.
    + intros y [->|Hy]%elem_of_cons; [lia|]. apply G6 in Hy. lia.
Qed.

Lemma locate_refines c l key s : holds c l ->
  let '(v, l', s') := cache_locate (ct_limit c) key l s in
  exists c', ctable_locate c key s = Ret (v, c', s') /\ holds c' l' /\ ct_limit c' = ct_limit c.
Proof.
  intros Hh. unfold cache_locate, ctable_locate. destruct (find_ok c l key Hh) as (p & Ep & Hp). rewrite Ep. cbn [mbind outcome_bind].
  destruct p as [x|].
  - destruct Hp as (v & Hx & Ex & Ef). rewrite Ef. unfold entry_at. rewrite Ex. cbn. eexists. split; [reflexivity|].
    split; [by apply touch_ok|]. unfold ctable_touch. by case_decide.
  - rewrite Hp. destruct (purge_ok c l s Hh) as (x & c1 & E1 & Hr & Hl1 & Hsub). rewrite E1. cbn [mbind outcome_bind].
    destruct (cache_purge (ct_limit c) l s) as [l1 s1]. cbn [fst snd] in *. destruct (create key s1) as [v s2].
    destruct Hr as [R1 [R2 R2'] R3 R4 R5 R6 (m & Hm & Hmx)].
    assert (Hkl : key ∉ map fst l1).
    { apply cache_find_none in Hp. intros Hi. apply Hp. apply list_elem_of_fmap in Hi as (kv & -> & Hkv).
      apply list_elem_of_fmap. exists kv. split; [done|by apply Hsub]. }
    apply NoDup_cons in R3 as [Rx R3].
    assert (Hne : forall y, y ∈ ct_ring c1 -> y <> x) by (intros y Hy ->; done).
    assert (Emk : m !! key = None).
    { destruct (m !! key) as [y|] eqn:Ey; [|done]. apply Hmx in Ey as (Hy & w & Hw). destruct Hkl. exact (entry_key _ _ _ _ _ _ R5 Hy Hw). }
    destruct (enter_rep _ m key x Hm Emk) as (t' & -> & Ht'). cbn [mbind outcome_bind]. eexists. split; [reflexivity|].
    split; [|done]. split; cbn; [done|lia| | | | |].
    + by constructor.
    + by constructor.
    + constructor; [by rewrite lookup_insert_eq|by apply entries_insert].
    + exact R6.
    + exists (<[key := x]> m). split; [done|]. intros k y. rewrite lookup_insert_Some, Hmx, elem_of_cons. split.
      * intros [[<- <-]|(Hk & Hy & w & Hw)]; [split; [by left|exists v; by rewrite lookup_insert_eq]|].
        split; [by right|]. exists w. by rewrite lookup_insert_ne by (symmetry; by apply Hne).
      * intros ([->|Hy] & w & Hw).
        -- rewrite lookup_insert_eq in Hw. injection Hw as <- _. by left.
        -- rewrite lookup_insert_ne in Hw by (symmetry; by apply Hne). right. split; [|by eauto].
           intros <-. destruct Hkl. exact (entry_key _ _ _ _ _ _ R5 Hy Hw).
Qed.
Lemma refresh_refines c l key s : holds c l ->
  let '(v, l', s') := cache_refresh (ct_limit c) key l s in
  exists c', ctable_refresh c key s = Ret (v, c', s') /\ holds c' l' /\ ct_limit c' = ct_limit c.
Proof.
  intros Hh. unfold cache_refresh, ctable_refresh. destruct (find_ok c l key Hh) as (p & Ep & Hp). rewrite Ep. cbn [mbind outcome_bind].
  destruct p as [x|]; [|rewrite Hp; by apply locate_refines].
  destruct Hp as (v & Hx & Ex & Ef). rewrite Ef. unfold entry_at. rewrite Ex. cbn. destruct (create key (destroy v s)) as [v' s'] eqn:Ev.
  destruct (holds_split c l x key v Hh Hx Ex) as (r1 & r2 & l1 & l2 & Er & El & Ed & Ec & F1 & F2 & Hxr & Hkr).
  set (c' := mk_ctable _ _ _ _ _ _). eexists. split; [reflexivity|].
  assert (Hrem : cache_remove key l = cache_remove key (l1 ++ (key, v') :: l2)).
  { rewrite El. unfold cache_remove. rewrite !filter_app, !filter_cons. by rewrite !decide_False by (cbn; tauto). }
  assert (Hh' : holds c' (l1 ++ (key, v') :: l2)).
  { destruct Hh as [G1 [G2 G2'] G3 G4 G5 G6 G7]. split; cbn; [done| |done| | |done|].
    - rewrite El, length_app in *. cbn in *. lia.
    - rewrite El, map_app in G4. rewrite map_app. exact G4.
    - rewrite Er. rewrite not_elem_of_app in Hxr. destruct Hxr as [Hx1 Hx2].
      apply Forall2_app; [|constructor; [by rewrite lookup_insert_eq|]].
      + by apply entries_insert.
      + by apply entries_insert.
    - destruct G7 as (m & Hm & Hmx). exists m. split; [done|]. intros k y. rewrite Hmx. split; intros (Hy & w & Hw); split; try done.
      + destruct (decide (y = x)) as [->|Hn]; [|exists w; by rewrite lookup_insert_ne].
        rewrite Ex in Hw. injection Hw as <- _. exists v'. by rewrite lookup_insert_eq.
      + destruct (decide (y = x)) as [->|Hn]; [|exists w; by rewrite lookup_insert_ne in Hw].
        rewrite lookup_insert_eq in Hw. injection Hw as <- _. by exists v. }
  rewrite Hrem. split; [|unfold ctable_touch; by case_decide].
  eapply (touch_ok c' (l1 ++ (key, v') :: l2) x key v'); [done|done|]. cbn. by rewrite lookup_insert_eq.
Qed.

(** Destroying all values, in some order. *)
Lemma destroy_entries_ok r l c s : Forall2 (fun x kv => ct_entries c !! x = Some (mk_entry kv.1 kv.2)) r l ->
  destroy_entries r c s = Ret (foldl (fun s kv => destroy kv.2 s) s l).
Proof.
  intros F. revert s. induction F as [|x kv r l Hx F IH]; intros s; cbn; [done|]. unfold entry_at. rewrite Hx. cbn. apply IH.
Qed.

Lemma free_refines c l s : holds c l ->
  exists l', l' ≡ₚ l /\ ctable_free c s = Ret (foldl (fun s kv => destroy kv.2 s) s l').
Proof.
  intros Hh. destruct (ho_table _ _ Hh) as (m & Hm & Hmx). destruct (free_rep _ m Hm) as (r & Er & Hr).
  assert (Hperm : r ≡ₚ ct_ring c).
  { rewrite Hr. apply NoDup_Permutation; [|exact (ho_nodup _ _ Hh)|].
    - apply NoDup_fmap_2_strong; [|apply NoDup_map_to_list]. intros [k1 x1] [k2 x2] H1 H2 E. cbn in E. subst x2.
      apply elem_of_map_to_list in H1, H2. apply Hmx in H1 as (_ & v1 & E1), H2 as (_ & v2 & E2).
      rewrite E1 in E2. by injection E2 as -> _.
    - intros x. rewrite list_elem_of_fmap. split.
      + intros ([k y] & -> & Hy%elem_of_map_to_list). cbn. by apply Hmx in Hy as [Hy _].
      + intros Hx. destruct (holds_lookup c l x Hh Hx) as ([k v] & Ek & _). exists (k, x). split; [done|].
        apply elem_of_map_to_list, Hmx. split; [done|by exists v]. }
  unfold ctable_free. rewrite Er. cbn [mbind outcome_bind].
  destruct (Permutation_Forall2 (symmetry Hperm) (ho_entries _ _ Hh)) as (l' & Hl' & F).
  exists l'. split; [by symmetry|]. by apply destroy_entries_ok.
Qed.

Lemma walk_entries_ok r l c : Forall2 (fun x kv => ct_entries c !! x = Some (mk_entry kv.1 kv.2)) r l ->
  walk_entries r c = Ret l.
Proof.
  intros F. induction F as [|x [k v] r l Hx F IH]; cbn; [done|]. unfold entry_at. rewrite Hx. cbn. by rewrite IH.
Qed.

Lemma create_holds limit : 1 <= limit -> exists c, ctable_create limit = Ret c /\ holds c [] /\ ct_limit c = Z.max CTABLE_MIN_SIZE limit.
Proof.
  intros Hl. unfold ctable_create. rewrite (proj2 (Z.ltb_ge limit 1)) by lia. eexists. split; [reflexivity|].
  unfold CTABLE_MIN_SIZE. split; [|cbn; case_match; lia]. split; cbn; [case_match; lia|case_match; lia|constructor|constructor|constructor|set_solver|].
  exists ∅. split; [apply create_rep|]. intros k x. rewrite lookup_empty. split; [done|]. by intros [Hx%not_elem_of_nil _].
Qed.
End ctable.

(** C36: a cache behaves like a list of keys and values, most recently used first, whose
    length is limited: ctable_locate() returns the value of a known key and moves it to the
    front, and otherwise evicts the value at the end when the cache is full, constructs a
    value and puts it in front; ctable_refresh() replaces a known value; ctable_walk()
    visits the list in order; ctable_free() destroys each of its values once.  Nothing is
    assumed of the table but the interface, nor of the constructor and destructor. *)
Theorem ctable_refines_lru {V App T : Type} `{TableLaws T nat} (create : bytes -> App -> V * App) (destroy : V -> App -> App) limit :
  1 <= limit ->
  (exists c, ctable_create limit = Ret c /\ holds (V := V) c [] /\ ct_limit c = Z.max CTABLE_MIN_SIZE limit) /\
  forall (c : CTABLE) (l : list (bytes * V)) (s : App), holds c l ->
    (forall key, let '(v, l', s') := cache_locate create destroy (ct_limit c) key l s in
      exists c', ctable_locate create destroy c key s = Ret (v, c', s') /\ holds c' l' /\ ct_limit c' = ct_limit c) /\
    (forall key, let '(v, l', s') := cache_refresh create destroy (ct_limit c) key l s in
      exists c', ctable_refresh create destroy c key s = Ret (v, c', s') /\ holds c' l' /\ ct_limit c' = ct_limit c) /\
    ctable_walk c = Ret l /\
    exists l', l' ≡ₚ l /\ ctable_free destroy c s = Ret (foldl (fun s kv => destroy kv.2 s) s l').
Proof.
  intros Hl. split; [by apply (create_holds create destroy)|]. intros c l s Hh. split_and!.
  - intros key. by apply locate_refines.
  - intros key. by apply refresh_refines.
  - apply (walk_entries_ok create destroy), Hh.
  - by apply (free_refines create).
Qed.

(** ** Every value is destroyed once *)

(** An application that records the values it constructs and destroys. *)
Record ledger := mk_ledger { made : list nat; gone : list nat }.
Definition make (key : bytes) (s : ledger) : nat * ledger := let v := length (made s) in (v, mk_ledger (v :: made s) (gone s)).
Definition discard (v : nat) (s : ledger) : ledger := mk_ledger (made s) (v :: gone s).

Inductive request := Locate (key : bytes) | Refresh (key : bytes).

Section values.
Context {T : Type} `{TableLaws T nat}.
#[local] Set Default Proof Using "All".

Fixpoint serve (l : list request) (c : CTABLE (V := nat) (T := T)) (s : ledger) : outcome (CTABLE * ledger) :=
  match l with
  | [] => Ret (c, s)
  | Locate key :: l => '(_, c, s) ← ctable_locate make discard c key s; serve l c s
  | Refresh key :: l => '(_, c, s) ← ctable_refresh make discard c key s; serve l c s
  end.

(** The values that were made are those in the cache and those that are gone. *)
Definition balanced (l : list (bytes * nat)) (s : ledger) : Prop := NoDup (made s) /\ made s ≡ₚ l.*2 ++ gone s
  /\ forall v, v ∈ made s -> (v < length (made s))%nat.

Lemma make_balanced key l s v s' : balanced l s -> make key s = (v, s') -> balanced ((key, v) :: l) s'.
Proof.
  intros (H1 & H2 & H3) [= <- <-]. split_and!; cbn.
  - constructor; [|done]. intros Hi%H3. lia.
  - by rewrite H2 at 2.
  - intros v [->|Hv]%elem_of_cons; [lia|]. apply H3 in Hv. lia.
Qed.
Lemma discard_balanced key v l l' s : l ≡ₚ (key, v) :: l' -> balanced l s -> balanced l' (discard v s).
Proof.
  intros Hp (H1 & H2 & H3). split_and!; cbn; [done| |done]. rewrite H2, Hp. cbn. by rewrite Permutation_middle.
Qed.
Lemma cache_remove_perm key v (l : list (bytes * nat)) : NoDup (map fst l) -> cache_find key l = Some v -> l ≡ₚ (key, v) :: cache_remove key l.
Proof.
  intros Hnd Hf. induction l as [|[k w] l IH]; [done|]. cbn in Hnd, Hf. apply NoDup_cons in Hnd as [Hk Hnd]. unfold cache_remove.
  rewrite filter_cons. case_decide as E.
  - injection Hf as ->. subst k. rewrite decide_False by (cbn; tauto). f_equiv. clear IH Hnd.
    induction l as [|[k u] l IH]; [done|]. cbn in Hk. apply not_elem_of_cons in Hk as [Hn Hl].
    rewrite filter_cons, decide_True by (cbn; congruence). f_equiv. by apply IH.
  - rewrite decide_True by done. rewrite (IH Hnd Hf) at 1. apply perm_swap.
Qed.
Lemma balanced_perm l l' s : l ≡ₚ l' -> balanced l s -> balanced l' s.
Proof. intros Hp (H1 & H2 & H3). split_and!; [done| |done]. by rewrite <- Hp. Qed.

Lemma purge_balanced limit (l : list (bytes * nat)) s : balanced l s ->
  balanced (cache_purge discard limit l s).1 (cache_purge discard limit l s).2.
Proof.
  intros Hb. unfold cache_purge. case_match; [|done]. destruct (last l) as [[k v]|] eqn:E; [|done]. cbn.
  apply last_Some in E as [l' ->]. rewrite length_app. cbn [length]. replace (pred (length l' + 1))%nat with (length l') by lia.
  rewrite take_app_length. apply (discard_balanced k v (l' ++ [(k, v)])); [|done]. by rewrite Permutation_app_comm.
Qed.

Lemma locate_balanced limit key l s v l' s' : NoDup (map fst l) -> balanced l s ->
  cache_locate make discard limit key l s = (v, l', s') -> balanced l' s'.
Proof.
  intros Hnd Hb. unfold cache_locate. destruct (cache_find key l) as [w|] eqn:E.
  - intros [= <- <- <-]. eapply balanced_perm; [by apply cache_remove_perm|done].
  - pose proof (purge_balanced limit l s Hb) as Hp. destruct (cache_purge discard limit l s) as [l1 s1].
    destruct (make key s1) as [w s2] eqn:Em. intros [= <- <- <-]. by eapply make_balanced.
Qed.
Lemma refresh_balanced limit key l s v l' s' : NoDup (map fst l) -> balanced l s ->
  cache_refresh make discard limit key l s = (v, l', s') -> balanced l' s'.
Proof.
  intros Hnd Hb. unfold cache_refresh. destruct (cache_find key l) as [w|] eqn:E; [|by apply locate_balanced].
  destruct (make key (discard w s)) as [u s2] eqn:Em. intros [= <- <- <-]. eapply make_balanced; [|exact Em].
  eapply discard_balanced; [by apply cache_remove_perm|done].
Qed.

Lemma serve_balanced reqs c l s : holds c l -> balanced l s ->
  exists c' l' s', serve reqs c s = Ret (c', s') /\ holds c' l' /\ balanced l' s' /\ ct_limit c' = ct_limit c.
Proof.
  revert c l s. induction reqs as [|[key|key] reqs IH]; intros c l s Hh Hb; cbn [serve].
  - by exists c, l, s.
  - pose proof (locate_refines make discard c l key s Hh) as Hr.
    destruct (cache_locate make discard (ct_limit c) key l s) as [[v l1] s1] eqn:E. destruct Hr as (c1 & -> & Hh1 & <-). cbn.
    apply (IH _ l1); [done|]. eapply locate_balanced; [apply Hh|done|exact E].
  - pose proof (refresh_refines make discard c l key s Hh) as Hr.
    destruct (cache_refresh make discard (ct_limit c) key l s) as [[v l1] s1] eqn:E. destruct Hr as (c1 & -> & Hh1 & <-). cbn.
    apply (IH _ l1); [done|]. eapply refresh_balanced; [apply Hh|done|exact E].
Qed.

Lemma discard_all l s : made (foldl (fun s (kv : bytes * nat) => discard kv.2 s) s l) = made s
  /\ gone (foldl (fun s (kv : bytes * nat) => discard kv.2 s) s l) ≡ₚ l.*2 ++ gone s.
Proof.
  revert s. induction l as [|kv l IH]; intros s; cbn; [done|]. destruct (IH (discard kv.2 s)) as [-> ->]. split; [done|].
  cbn. by rewrite <- Permutation_middle.
Qed.
End values.

(** a cache neither leaks a value nor destroys one twice.  Whatever keys are looked up
    or refreshed, never are more values alive than the cache's limit, and after
    ctable_free() the values that the destructor was called for are exactly those that the
    constructor returned. *)
Theorem ctable_values {T : Type} `{TableLaws T nat} limit reqs : 1 <= limit ->
  exists (c0 c : CTABLE (V := nat) (T := T)) s s',
    ctable_create limit = Ret c0 /\ serve reqs c0 (mk_ledger [] []) = Ret (c, s) /\
    (Z.of_nat (length (made s)) <= Z.of_nat (length (gone s)) + Z.max CTABLE_MIN_SIZE limit) /\
    ctable_free discard c s = Ret s' /\ made s' = made s /\ NoDup (made s') /\ gone s' ≡ₚ made s'.
Proof.
  intros Hl. destruct (create_holds (V := nat) (T := T) make discard limit Hl) as (c0 & E0 & Hc0 & L0).
  destruct (serve_balanced reqs c0 [] (mk_ledger [] []) Hc0) as (c & l & s & E & Hh & (B1 & B2 & B3) & L).
  { split_and!; cbn; [constructor|done|set_solver]. }
  destruct (free_refines make discard c l s Hh) as (l' & Hp & Ef). exists c0, c, s, (foldl (fun s kv => discard kv.2 s) s l').
  destruct (discard_all l' s) as [Em Eg]. split_and!; [done|done| |done|done|by rewrite Em|].
  - rewrite <- L0, <- L, B2, length_app, length_fmap. destruct (ho_used _ _ Hh). lia.
  - by rewrite Em, Eg, Hp, B2.
Qed.

Lemma ctable_refines_lru_witness : exists c, ctable_create (T := HTABLE nat) (V := nat) 1 = Ret c
  /\ holds (V := nat) c [] /\ ct_limit c = 5.
Proof. exact (proj1 (ctable_refines_lru (T := HTABLE nat) make discard 1 ltac:(lia))). Defined.

(** Seven keys in a cache of five, one of them looked up again before it is evicted. *)
Definition seven : list request := map (fun n => Locate (str n)) ["a"; "b"; "c"; "d"; "e"; "a"; "f"; "g"]%string.
Lemma ctable_values_witness : exists (c0 c : CTABLE (V := nat) (T := HTABLE nat)) s s',
    ctable_create 1 = Ret c0 /\ serve seven c0 (mk_ledger [] []) = Ret (c, s) /\
    (Z.of_nat (length (made s)) <= Z.of_nat (length (gone s)) + Z.max CTABLE_MIN_SIZE 1) /\
    ctable_free discard c s = Ret s' /\ made s' = made s /\ NoDup (made s') /\ gone s' ≡ₚ made s'.
Proof. apply (ctable_values (T := HTABLE nat) 1 seven). lia. Defined.

Example seven_run : (c ← ctable_create (T := HTABLE nat) 1; '(c, s) ← serve seven c (mk_ledger [] []); l ← ctable_walk c; Ret (map snd l, gone s))
  = Ret ([6; 5; 0; 4; 3], [2; 1])%nat.
Proof. vm_compute. reflexivity. Qed.
