(* ===== verification/Anvil.v ===== *)
(** The connection count and request rate server: anvil.c (src/src/anvil), with the part of
    its server skeleton, multi_server.c (src/src/master), that runs it.

    The SMTP servers tell anvil(8) about the connections and requests of their clients; it
    answers with the number of connections that the client has and with the number of
    requests that it made in the present time window.  The handlers are functions of the
    state, the clients are objects in a finite map by address, and the table that finds them
    is the hash table of Htable.v, through the interface of Table.v.  The specification at
    the end of the file knows neither counters nor timers nor addresses: it has a client for
    each server process, and for each client the requests in its window. *)

From stdpp Require Import strings.
From S2P Require Export Table Htable.

(** ** State *)

(** What is counted per time unit; the members of ANVIL_REMOTE that the macros for rates
    are used with. *)
Inductive rate_kind := Rate | Mail | Rcpt | Ntls | Auth.
#[export] Instance rate_kind_eq_dec : EqDecision rate_kind.
Proof. solve_decision. Defined.

(** A (service, client) pair. *)
Record ANVIL_REMOTE := mk_remote {
  ar_ident : bytes;
  ar_count : Z;                (* connection count *)
  ar_rates : rate_kind -> Z;   (* the members rate, mail, rcpt, ntls and auth *)
  ar_start : Z                 (* time of first rate sample *)
}.

(** A connection of a server process, which has at most one client. *)
Record ANVIL_LOCAL := mk_local { al_remote : option nat }.

(** The peak values: the connection count, and a rate of each kind. *)
Inductive max_kind := MaxCount | MaxRate (k : rate_kind).
#[export] Instance max_kind_eq_dec : EqDecision max_kind.
Proof. solve_decision. Defined.
Record ANVIL_MAX := mk_max { am_value : Z; am_ident : option bytes; am_when : Z }.

(** The global variables of the program.  [an_present] is event_present of events.c, and
    [an_readings] what the system clock will show in the running handler: every call of
    time() takes one reading.  A stream that is open has an entry in [an_streams], with its
    context; a pending anvil_remote_expire() timer has one in [an_expire], with its time. *)
Record anvil := mk_anvil {
  an_present : Z;
  an_readings : list Z;
  an_remote_map : HTABLE nat;
  an_remotes : gmap nat ANVIL_REMOTE;
  an_fresh : nat;
  an_streams : gmap nat (option ANVIL_LOCAL);
  an_expire : gmap nat Z;
  an_status : option Z;        (* anvil_status_update() is due *)
  an_idle : option Z;          (* multi_server_timeout() is due *)
  an_client_count : Z;
  an_use_count : Z;
  an_max : max_kind -> ANVIL_MAX;
  an_max_cache : Z * Z;        (* size and time *)
  an_idle_limit : Z            (* var_idle_limit, after post_jail_init() *)
}.

Definition with_present (t : Z) (l : list Z) (s : anvil) : anvil :=
  mk_anvil t l (an_remote_map s) (an_remotes s) (an_fresh s) (an_streams s) (an_expire s)
    (an_status s) (an_idle s) (an_client_count s) (an_use_count s) (an_max s) (an_max_cache s) (an_idle_limit s).
Definition with_table (t : HTABLE nat) (s : anvil) : anvil :=
  mk_anvil (an_present s) (an_readings s) t (an_remotes s) (an_fresh s) (an_streams s) (an_expire s)
    (an_status s) (an_idle s) (an_client_count s) (an_use_count s) (an_max s) (an_max_cache s) (an_idle_limit s).
Definition with_remotes (m : gmap nat ANVIL_REMOTE) (n : nat) (s : anvil) : anvil :=
  mk_anvil (an_present s) (an_readings s) (an_remote_map s) m n (an_streams s) (an_expire s)
    (an_status s) (an_idle s) (an_client_count s) (an_use_count s) (an_max s) (an_max_cache s) (an_idle_limit s).
Definition with_streams (m : gmap nat (option ANVIL_LOCAL)) (s : anvil) : anvil :=
  mk_anvil (an_present s) (an_readings s) (an_remote_map s) (an_remotes s) (an_fresh s) m (an_expire s)
    (an_status s) (an_idle s) (an_client_count s) (an_use_count s) (an_max s) (an_max_cache s) (an_idle_limit s).
Definition with_expire (m : gmap nat Z) (s : anvil) : anvil :=
  mk_anvil (an_present s) (an_readings s) (an_remote_map s) (an_remotes s) (an_fresh s) (an_streams s) m
    (an_status s) (an_idle s) (an_client_count s) (an_use_count s) (an_max s) (an_max_cache s) (an_idle_limit s).
Definition with_status (t : option Z) (s : anvil) : anvil :=
  mk_anvil (an_present s) (an_readings s) (an_remote_map s) (an_remotes s) (an_fresh s) (an_streams s) (an_expire s)
    t (an_idle s) (an_client_count s) (an_use_count s) (an_max s) (an_max_cache s) (an_idle_limit s).
Definition with_idle (t : option Z) (s : anvil) : anvil :=
  mk_anvil (an_present s) (an_readings s) (an_remote_map s) (an_remotes s) (an_fresh s) (an_streams s) (an_expire s)
    (an_status s) t (an_client_count s) (an_use_count s) (an_max s) (an_max_cache s) (an_idle_limit s).
Definition with_counts (c u : Z) (s : anvil) : anvil :=
  mk_anvil (an_present s) (an_readings s) (an_remote_map s) (an_remotes s) (an_fresh s) (an_streams s) (an_expire s)
    (an_status s) (an_idle s) c u (an_max s) (an_max_cache s) (an_idle_limit s).
Definition with_max (f : max_kind -> ANVIL_MAX) (c : Z * Z) (s : anvil) : anvil :=
  mk_anvil (an_present s) (an_readings s) (an_remote_map s) (an_remotes s) (an_fresh s) (an_streams s) (an_expire s)
    (an_status s) (an_idle s) (an_client_count s) (an_use_count s) f c (an_idle_limit s).

Definition INT_MAX : Z := 2 ^ 31 - 1.

(** The attributes of a reply. *)
Definition reply : Type := list (bytes * Z).
Definition ANVIL_STAT_OK : Z := 0.
Definition ANVIL_STAT_FAIL : Z := -1.

Section anvil.
Context (var_anvil_time_unit var_anvil_stat_time : Z).
#[local] Set Default Proof Using "All".

(** ** The clock and the timers *)

Definition event_time (s : anvil) : Z := an_present s.

(** time(&event_present): the next reading. *)
Definition read_clock (s : anvil) : anvil :=
  match an_readings s with
  | t :: l => with_present t l s
  | [] => s
  end.

(** event_request_timer() for each of the callback functions: the time it is due. *)
Definition event_due (delay : Z) (s : anvil) : outcome (Z * anvil) :=
  _ ← assert_or_panic (0 <=? delay);
  let s := read_clock s in
  Ret (an_present s + delay, s).
Definition request_expire (r : nat) (s : anvil) : outcome anvil :=
  '(due, s) ← event_due var_anvil_time_unit s;
  Ret (with_expire (<[r := due]> (an_expire s)) s).
Definition request_status (s : anvil) : outcome anvil :=
  '(due, s) ← event_due var_anvil_stat_time s;
  Ret (with_status (Some due) s).
Definition request_idle (delay : Z) (s : anvil) : outcome anvil :=
  '(due, s) ← event_due delay s;
  Ret (with_idle (Some due) s).
Definition cancel_expire (r : nat) (s : anvil) : anvil := with_expire (delete r (an_expire s)) s.

(** Cancelling the idle timer: the time that was left, or -1. *)
Definition cancel_idle (s : anvil) : Z * anvil :=
  (match an_idle s with None => -1 | Some due => Z.max 0 (due - an_present s) end, with_idle None s).

(** ** Clients *)

Definition remote_at (r : nat) (s : anvil) : outcome ANVIL_REMOTE :=
  match an_remotes s !! r with Some x => Ret x | None => Undef end.
Definition set_remote (r : nat) (x : ANVIL_REMOTE) (s : anvil) : anvil :=
  with_remotes (<[r := x]> (an_remotes s)) (an_fresh s) s.
Definition set_count (n : Z) (x : ANVIL_REMOTE) : ANVIL_REMOTE := mk_remote (ar_ident x) n (ar_rates x) (ar_start x).
Definition set_rate (what : rate_kind) (n : Z) (x : ANVIL_REMOTE) : ANVIL_REMOTE :=
  mk_remote (ar_ident x) (ar_count x) (fun k => if decide (k = what) then n else ar_rates x k) (ar_start x).

Definition ANVIL_REMOTE_FIRST_CONN (ident : bytes) (now : Z) : ANVIL_REMOTE :=
  mk_remote ident 1 (fun k => if decide (k = Rate) then 1 else 0) now.
Definition ANVIL_REMOTE_RSET_RATE (start : Z) (x : ANVIL_REMOTE) : ANVIL_REMOTE :=
  mk_remote (ar_ident x) (ar_count x) (fun _ => 0) start.
Definition ANVIL_REMOTE_INCR_RATE (what : rate_kind) (r : nat) (s : anvil) : outcome anvil :=
  x ← remote_at r s;
  let now := event_time s in
  let x := if ar_start x + var_anvil_time_unit <? now then ANVIL_REMOTE_RSET_RATE now x else x in
  let x := if ar_rates x what <? INT_MAX then set_rate what (ar_rates x what + 1) x else x in
  Ret (set_remote r x s).

(** The connection count is an int: counting past its maximum is undefined. *)
Definition ANVIL_REMOTE_NEXT_CONN (r : nat) (s : anvil) : outcome anvil :=
  s ← ANVIL_REMOTE_INCR_RATE Rate r s;
  x ← remote_at r s;
  let s := if ar_count x =? 0 then cancel_expire r s else s in
  if ar_count x >=? INT_MAX then Undef
  else Ret (set_remote r (set_count (ar_count x + 1) x) s).

(** For a pointer that is not null. *)
Definition ANVIL_REMOTE_DROP_ONE (r : nat) (s : anvil) : outcome anvil :=
  x ← remote_at r s;
  if 0 <? ar_count x then
    let s := set_remote r (set_count (ar_count x - 1) x) s in
    if ar_count x - 1 =? 0 then request_expire r s else Ret s
  else Ret s.

(** vstream_context(): of a stream that is open. *)
Definition vstream_context (fd : nat) (s : anvil) : outcome (option ANVIL_LOCAL) :=
  match an_streams s !! fd with Some c => Ret c | None => Undef end.
Definition set_local (fd : nat) (local : ANVIL_LOCAL) (s : anvil) : anvil :=
  with_streams (<[fd := Some local]> (an_streams s)) s.

Definition ANVIL_LOCAL_INIT : ANVIL_LOCAL := mk_local None.
Definition ANVIL_LOCAL_ADD_ONE (fd : nat) (local : ANVIL_LOCAL) (r : nat) (s : anvil) : outcome anvil :=
  s ← match al_remote local with Some r' => ANVIL_REMOTE_DROP_ONE r' s | None => Ret s end;
  Ret (set_local fd (mk_local (Some r)) s).
Definition ANVIL_LOCAL_REMOTE_LINKED (local : ANVIL_LOCAL) (r : nat) : bool := bool_decide (al_remote local = Some r).
Definition ANVIL_LOCAL_DROP_ONE (fd : nat) (local : ANVIL_LOCAL) (r : nat) (s : anvil) : anvil :=
  if ANVIL_LOCAL_REMOTE_LINKED local r then set_local fd (mk_local None) s else s.

(** ** Peak usage *)

Definition set_max (k : max_kind) (m : ANVIL_MAX) (s : anvil) : anvil :=
  with_max (fun k' => if decide (k' = k) then m else an_max s k') (an_max_cache s) s.

(** With the comparison that every use of the macro makes first. *)
Definition ANVIL_MAX_UPDATE (k : max_kind) (value : Z) (ident : bytes) (s : anvil) : anvil :=
  if value >? am_value (an_max s k) then set_max k (mk_max value (Some ident) (event_time s)) s else s.

(** The value that is logged, if any; printing a null pointer is undefined. *)
Definition ANVIL_MAX_REPORT (k : max_kind) (s : anvil) : outcome (list (max_kind * Z * bytes) * anvil) :=
  let m := an_max s k in
  if am_value m >? 0 then
    match am_ident m with
    | None => Undef
    | Some ident => Ret ([(k, am_value m, ident)], set_max k (mk_max 0 (am_ident m) (am_when m)) s)
    end
  else Ret ([], s).

(** ** Requests *)

Definition attr_status (v : Z) : bytes * Z := (str "status", v).
Definition attr_count (v : Z) : bytes * Z := (str "count", v).
Definition attr_rate (v : Z) : bytes * Z := (str "rate", v).

(** anvil_remote_expire(), the timer of a client without connections. *)
Definition anvil_remote_expire (r : nat) (s : anvil) : outcome anvil :=
  x ← remote_at r s;
  if negb (ar_count x =? 0) then Panic
  else
    table ← table_delete (an_remote_map s) (ar_ident x);
    Ret (with_remotes (delete r (an_remotes s)) (an_fresh s) (with_table table s)).

(** Do not report stale information. *)
Definition reset_stale (r : nat) (s : anvil) : outcome anvil :=
  x ← remote_at r s;
  if negb (ar_start x =? 0) && (ar_start x + var_anvil_time_unit <? event_time s)
  then Ret (set_remote r (ANVIL_REMOTE_RSET_RATE 0 x) s) else Ret s.

Definition lookup_reply (count : Z) (rates : rate_kind -> Z) : reply :=
  [attr_status ANVIL_STAT_OK; attr_count count; attr_rate (rates Rate); (str "mail", rates Mail);
   (str "rcpt", rates Rcpt); (str "newtls", rates Ntls); (str "auth", rates Auth)].
Definition anvil_remote_lookup (fd : nat) (ident : bytes) (s : anvil) : outcome (reply * anvil) :=
  p ← table_find (an_remote_map s) ident;
  match p with
  | None => Ret (lookup_reply 0 (fun _ => 0), s)
  | Some r =>
      s ← reset_stale r s;
      x ← remote_at r s;
      Ret (lookup_reply (ar_count x) (ar_rates x), s)
  end.

(** anvil_remote_conn_update(): find or create the client, and count the connection; then
    record it under the local server. *)
Definition count_connection (ident : bytes) (s : anvil) : outcome (nat * anvil) :=
  p ← table_find (an_remote_map s) ident;
  match p with
  | None =>
      let r := an_fresh s in
      let s := with_remotes (<[r := ANVIL_REMOTE_FIRST_CONN ident (event_time s)]> (an_remotes s)) (S r) s in
      table ← table_enter (an_remote_map s) ident r;
      let s := with_table table s in
      Ret (r, if fst (an_max_cache s) <? table_used (an_remote_map s)
              then with_max (an_max s) (table_used (an_remote_map s), event_time s) s else s)
  | Some r => s ← ANVIL_REMOTE_NEXT_CONN r s; Ret (r, s)
  end.
Definition anvil_remote_conn_update (fd : nat) (ident : bytes) (s : anvil) : outcome (nat * anvil) :=
  '(r, s) ← count_connection ident s;
  context ← vstream_context fd s;
  s ← ANVIL_LOCAL_ADD_ONE fd (default ANVIL_LOCAL_INIT context) r s;
  Ret (r, s).

Definition anvil_remote_connect (fd : nat) (ident : bytes) (s : anvil) : outcome (reply * anvil) :=
  '(r, s) ← anvil_remote_conn_update fd ident s;
  x ← remote_at r s;
  let s := ANVIL_MAX_UPDATE (MaxRate Rate) (ar_rates x Rate) (ar_ident x) s in
  let s := ANVIL_MAX_UPDATE MaxCount (ar_count x) (ar_ident x) s in
  Ret ([attr_status ANVIL_STAT_OK; attr_count (ar_count x); attr_rate (ar_rates x Rate)], s).

(** The common body of anvil_remote_mail(), anvil_remote_rcpt(), anvil_remote_auth() and
    anvil_remote_newtls(). *)
Definition register_event (what : rate_kind) (fd : nat) (ident : bytes) (s : anvil) : outcome (reply * anvil) :=
  p ← table_find (an_remote_map s) ident;
  '(r, s) ← match p with None => anvil_remote_conn_update fd ident s | Some r => Ret (r, s) end;
  s ← ANVIL_REMOTE_INCR_RATE what r s;
  x ← remote_at r s;
  let s := ANVIL_MAX_UPDATE (MaxRate what) (ar_rates x what) (ar_ident x) s in
  Ret ([attr_status ANVIL_STAT_OK; attr_rate (ar_rates x what)], s).
Definition anvil_remote_mail : nat -> bytes -> anvil -> outcome (reply * anvil) := register_event Mail.
Definition anvil_remote_rcpt : nat -> bytes -> anvil -> outcome (reply * anvil) := register_event Rcpt.
Definition anvil_remote_auth : nat -> bytes -> anvil -> outcome (reply * anvil) := register_event Auth.
Definition anvil_remote_newtls : nat -> bytes -> anvil -> outcome (reply * anvil) := register_event Ntls.

Definition anvil_remote_newtls_stat (fd : nat) (ident : bytes) (s : anvil) : outcome (reply * anvil) :=
  p ← table_find (an_remote_map s) ident;
  match p with
  | None => Ret ([attr_status ANVIL_STAT_OK; attr_rate 0], s)
  | Some r =>
      s ← reset_stale r s;
      x ← remote_at r s;
      Ret ([attr_status ANVIL_STAT_OK; attr_rate (ar_rates x Ntls)], s)
  end.

Definition anvil_remote_disconnect (fd : nat) (ident : bytes) (s : anvil) : outcome (reply * anvil) :=
  context ← vstream_context fd s;
  s ← match context with
    | None => Ret s
    | Some local =>
        p ← table_find (an_remote_map s) ident;
        match p with
        | None => Ret s
        | Some r =>
            if ANVIL_LOCAL_REMOTE_LINKED local r
            then s ← ANVIL_REMOTE_DROP_ONE r s; Ret (ANVIL_LOCAL_DROP_ONE fd local r s)
            else Ret s
        end
    end;
  Ret ([attr_status ANVIL_STAT_OK], s).

(** ANVIL_LOCAL_DROP_ALL, with the reply that anvil_remote_disconnect() writes. *)
Definition ANVIL_LOCAL_DROP_ALL (fd : nat) (local : ANVIL_LOCAL) (s : anvil) : outcome (list reply * anvil) :=
  match al_remote local with
  | None => Ret ([], s)
  | Some r =>
      x ← remote_at r s;
      '(rep, s) ← anvil_remote_disconnect fd (ar_ident x) s;
      Ret ([rep], s)
  end.

(** The local state is freed: the context of the stream is not used again. *)
Definition anvil_service_done (fd : nat) (s : anvil) : outcome (list reply * anvil) :=
  context ← vstream_context fd s;
  match context with
  | None => Ret ([], s)
  | Some local => ANVIL_LOCAL_DROP_ALL fd local s
  end.

Definition ANVIL_MAX_KINDS : list max_kind :=
  [MaxRate Rate; MaxCount; MaxRate Mail; MaxRate Rcpt; MaxRate Ntls; MaxRate Auth].
Fixpoint report_all (l : list max_kind) (s : anvil) : outcome (list (max_kind * Z * bytes) * anvil) :=
  match l with
  | [] => Ret ([], s)
  | k :: l =>
      '(rep, s) ← ANVIL_MAX_REPORT k s;
      '(reps, s) ← report_all l s;
      Ret (rep ++ reps, s)
  end.

(** The values that are logged, and the cache size if it is. *)
Definition anvil_status_dump (s : anvil) : outcome (list (max_kind * Z * bytes) * option Z * anvil) :=
  '(reps, s) ← report_all ANVIL_MAX_KINDS s;
  Ret (if fst (an_max_cache s) >? 0
       then (reps, Some (fst (an_max_cache s)), with_max (an_max s) (0, snd (an_max_cache s)) s)
       else (reps, None, s)).
Definition anvil_status_update (s : anvil) : outcome anvil :=
  '(_, s) ← anvil_status_dump s;
  request_status s.

(** ** The server skeleton *)

Definition multi_server_disconnect (fd : nat) (s : anvil) : outcome (list reply * anvil) :=
  '(reps, s) ← anvil_service_done fd s;
  let s := with_streams (delete fd (an_streams s)) s in
  let count := an_client_count s - 1 in
  let s := with_counts count (if an_use_count s <? INT_MAX then an_use_count s + 1 else an_use_count s) s in
  s ← if count =? 0 then request_idle (an_idle_limit s) s else Ret s;
  Ret (reps, s).

Definition request_table : list (bytes * (nat -> bytes -> anvil -> outcome (reply * anvil))) :=
  [(str "connect", anvil_remote_connect); (str "message", anvil_remote_mail);
   (str "recipient", anvil_remote_rcpt); (str "newtls", anvil_remote_newtls);
   (str "disconnect", anvil_remote_disconnect); (str "newtls_status", anvil_remote_newtls_stat);
   (str "auth", anvil_remote_auth); (str "lookup", anvil_remote_lookup)].
Fixpoint find_action {A} (request : bytes) (rp : list (bytes * A)) : option A :=
  match rp with
  | [] => None
  | (name, action) :: rp => if decide (name = request) then Some action else find_action request rp
  end.

(** [None] stands for input that attr_scan_plain() does not find the two attributes in. *)
Definition anvil_service (fd : nat) (input : option (bytes * bytes)) (s : anvil) : outcome (list reply * anvil) :=
  match input with
  | None => multi_server_disconnect fd s
  | Some (request, ident) =>
      match find_action request request_table with
      | None => Ret ([[attr_status ANVIL_STAT_FAIL]], s)
      | Some action => '(rep, s) ← action fd ident s; Ret ([rep], s)
      end
  end.

(** multi_server_execute(): peekfd() finds input, or else the client disconnected. *)
Definition multi_server_execute (fd : nat) (peek : option (option (bytes * bytes))) (s : anvil) : outcome (list reply * anvil) :=
  match peek with
  | Some input => anvil_service fd input s
  | None => multi_server_disconnect fd s
  end.

(** multi_server_accept_local(): the descriptor of the new stream, if accept() succeeds. *)
Definition multi_server_accept_local (fd : option nat) (s : anvil) : outcome anvil :=
  let '(time_left, s) := if (an_client_count s =? 0) && (0 <? an_idle_limit s) then cancel_idle s else (-1, s) in
  match fd with
  | None => if time_left >=? 0 then request_idle time_left s else Ret s
  | Some fd =>
      let s := with_counts (an_client_count s + 1) (an_use_count s) s in
      Ret (with_streams (<[fd := None]> (an_streams s)) s)
  end.

(** What the event loop calls. *)
Inductive event :=
  | Wakeup (now : Z)                                            (* event_loop() sets event_present *)
  | Accept (fd : option nat)
  | Execute (fd : nat) (peek : option (option (bytes * bytes)))
  | Expire (r : nat)
  | StatusUpdate.

(** The event manager takes a timer off its list before it makes the call. *)
Definition handle (e : event) (s : anvil) : outcome (list reply * anvil) :=
  match e with
  | Wakeup now => Ret ([], with_present now [] s)
  | Accept fd => s ← multi_server_accept_local fd s; Ret ([], s)
  | Execute fd peek => multi_server_execute fd peek s
  | Expire r => s ← anvil_remote_expire r (cancel_expire r s); Ret ([], s)
  | StatusUpdate => s ← anvil_status_update (with_status None s); Ret ([], s)
  end.

(** The clock does not go back, and is past the first time unit. *)
Fixpoint clock_from (now : Z) (readings : list Z) : Prop :=
  match readings with [] => True | t :: l => now <= t /\ clock_from t l end.
Definition readings_ok (readings : list Z) (s : anvil) : Prop := clock_from (an_present s) readings.

(** What can happen: descriptors are numbers of the int type, and timers are called when
    they are due. *)
Definition event_ok (e : event) (s : anvil) : Prop :=
  match e with
  | Wakeup now => an_present s <= now
  | Accept None => True
  | Accept (Some fd) => an_streams s !! fd = None /\ Z.of_nat (size (an_streams s)) < INT_MAX - 1
  | Execute fd _ => is_Some (an_streams s !! fd)
  | Expire r => exists due, an_expire s !! r = Some due /\ due <= an_present s
  | StatusUpdate => exists due, an_status s = Some due /\ due <= an_present s
  end.

(** post_jail_init(), and the first timer of multi_server_main(). *)
Definition post_jail_init (now var_idle_limit : Z) : outcome anvil :=
  request_status (mk_anvil now [] (table_create 1000) ∅ 0 ∅ ∅ None None 0 0 (fun _ => mk_max 0 None 0) (0, 0)
    (if var_idle_limit <? var_anvil_time_unit then var_anvil_time_unit else var_idle_limit)).
Definition multi_server_main (now var_idle_limit : Z) : outcome anvil :=
  s ← post_jail_init now var_idle_limit;
  if 0 <? an_idle_limit s then request_idle (an_idle_limit s) s else Ret s.
Definition conf_ok (now : Z) : Prop := 1 <= var_anvil_time_unit < now /\ 1 <= var_anvil_stat_time.

(** The states with the replies that led to them, the last first. *)
Inductive reachable (now var_idle_limit : Z) : list (event * list reply) -> anvil -> Prop :=
  | reach_init s : multi_server_main now var_idle_limit = Ret s -> reachable now var_idle_limit [] s
  | reach_step tr s e readings out s' :
      reachable now var_idle_limit tr s -> event_ok e s -> readings_ok readings s ->
      handle e (with_present (an_present s) readings s) = Ret (out, s') ->
      reachable now var_idle_limit ((e, out) :: tr) s'.

(** ** Specification

    A connected server process has at most one client; each known client has the requests
    of its present time window, oldest first, and the time since which it has no
    connections, if it has none. *)

Record spec := mk_spec {
  sp_links : gmap nat (option bytes);
  sp_windows : gmap bytes (list (rate_kind * Z));
  sp_since : gmap bytes Z
}.

(** A window begins with its first request, and is over after the time unit. *)
Definition sp_current (now : Z) (w : list (rate_kind * Z)) : list (rate_kind * Z) :=
  match w with
  | (_, start) :: _ => if start + var_anvil_time_unit <? now then [] else w
  | [] => []
  end.
Definition occurrences (k : rate_kind) (w : list (rate_kind * Z)) : Z := Z.of_nat (length (filter (fun p => p.1 = k) w)).
Definition sp_rate (w : list (rate_kind * Z)) (k : rate_kind) : Z := Z.min INT_MAX (occurrences k w).
Definition sp_count (ident : bytes) (links : gmap nat (option bytes)) : Z :=
  map_sum (fun o => if decide (o = Some ident) then 1 else 0) links.
Definition sp_window (ident : bytes) (a : spec) : list (rate_kind * Z) := default [] (sp_windows a !! ident).

(** A request of a client at some time. *)
Definition sp_sample (k : rate_kind) (now : Z) (ident : bytes) (a : spec) : spec :=
  mk_spec (sp_links a) (<[ident := sp_current now (sp_window ident a) ++ [(k, now)]]> (sp_windows a)) (sp_since a).

(** Another client, or none, for a server process: at time [d] the last client may have
    lost its last connection. *)
Definition sp_link (d : Z) (fd : nat) (new : option bytes) (a : spec) : spec :=
  let links := <[fd := new]> (sp_links a) in
  mk_spec links (sp_windows a)
    match sp_links a !! fd with
    | Some (Some old) => if sp_count old links =? 0 then <[old := d]> (sp_since a) else sp_since a
    | _ => sp_since a
    end.
Definition sp_connect (now d : Z) (fd : nat) (ident : bytes) (a : spec) : spec :=
  let a := sp_sample Rate now ident a in
  sp_link d fd (Some ident) (mk_spec (sp_links a) (sp_windows a) (delete ident (sp_since a))).

Inductive request_kind := Connect | Register (k : rate_kind) | Disconnect | Report | Lookup.
Definition sp_requests : list (bytes * request_kind) :=
  [(str "connect", Connect); (str "message", Register Mail); (str "recipient", Register Rcpt);
   (str "newtls", Register Ntls); (str "disconnect", Disconnect); (str "newtls_status", Report);
   (str "auth", Register Auth); (str "lookup", Lookup)].

(** The reply to a request and what it does: it comes at time [now], the client that it
    replaces loses its connection at [d], and it is complete at [later]. *)
Definition sp_request (now d later : Z) (kind : request_kind) (fd : nat) (ident : bytes) (a : spec) : reply * spec :=
  let fresh := mk_spec (sp_links a) (<[ident := sp_current now (sp_window ident a)]> (sp_windows a)) (sp_since a) in
  match kind with
  | Connect =>
      let a := sp_connect now d fd ident a in
      ([attr_status ANVIL_STAT_OK; attr_count (sp_count ident (sp_links a)); attr_rate (sp_rate (sp_window ident a) Rate)], a)
  | Register k =>
      let a := match sp_windows a !! ident with Some _ => a | None => sp_connect now d fd ident a end in
      let a := sp_sample k later ident a in
      ([attr_status ANVIL_STAT_OK; attr_rate (sp_rate (sp_window ident a) k)], a)
  | Disconnect =>
      ([attr_status ANVIL_STAT_OK], if decide (sp_links a !! fd = Some (Some ident)) then sp_link d fd None a else a)
  | Report =>
      match sp_windows a !! ident with
      | None => ([attr_status ANVIL_STAT_OK; attr_rate 0], a)
      | Some _ => ([attr_status ANVIL_STAT_OK; attr_rate (sp_rate (sp_window ident fresh) Ntls)], fresh)
      end
  | Lookup =>
      match sp_windows a !! ident with
      | None => (lookup_reply 0 (fun _ => 0), a)
      | Some _ => (lookup_reply (sp_count ident (sp_links a)) (sp_rate (sp_window ident fresh)), fresh)
      end
  end.

(** The end of a connection. *)
Definition sp_close (d : Z) (fd : nat) (a : spec) : list reply * spec :=
  match sp_links a !! fd with
  | Some (Some _) =>
      let a := sp_link d fd None a in
      ([[attr_status ANVIL_STAT_OK]], mk_spec (delete fd (sp_links a)) (sp_windows a) (sp_since a))
  | _ => ([], mk_spec (delete fd (sp_links a)) (sp_windows a) (sp_since a))
  end.

(** A step between the times [now] and [later].  What is known of a client is forgotten
    when it had no connections for the time unit. *)
Definition spec_step (now later : Z) (e : event) (a : spec) (out : list reply) (a' : spec) : Prop :=
  exists d, now <= d <= later /\
  match e with
  | Wakeup _ | StatusUpdate | Accept None => (out, a') = ([], a)
  | Accept (Some fd) => (out, a') = ([], mk_spec (<[fd := None]> (sp_links a)) (sp_windows a) (sp_since a))
  | Execute fd (Some (Some (request, ident))) =>
      match find_action request sp_requests with
      | None => (out, a') = ([[attr_status ANVIL_STAT_FAIL]], a)
      | Some kind => let '(rep, a1) := sp_request now d later kind fd ident a in (out, a') = ([rep], a1)
      end
  | Execute fd _ => (out, a') = sp_close d fd a
  | Expire _ => exists ident since,
      sp_since a !! ident = Some since /\ since + var_anvil_time_unit <= now /\ sp_count ident (sp_links a) = 0 /\
      (out, a') = ([], mk_spec (sp_links a) (delete ident (sp_windows a)) (delete ident (sp_since a)))
  end.

(** The histories of the specification, the last step first. *)
Inductive spec_run (now0 : Z) : list (event * list reply) -> Z -> spec -> Prop :=
  | spec_init later : now0 <= later -> spec_run now0 [] later (mk_spec ∅ ∅ ∅)
  | spec_next tr now later e a out a' :
      spec_run now0 tr now a -> now <= later -> spec_step now later e a out a' -> spec_run now0 ((e, out) :: tr) later a'.

(** ** The invariant *)

Definition linkof (c : option ANVIL_LOCAL) : option nat := c ≫= al_remote.
Definition links (r : nat) (streams : gmap nat (option ANVIL_LOCAL)) : Z :=
  map_sum (fun c => if decide (linkof c = Some r) then 1 else 0) streams.

(** [extra] is a client whose connection is counted, and not linked to its stream yet. *)
Record inv (extra : option nat) (s : anvil) : Prop := {
  inv_clock : var_anvil_time_unit < an_present s /\ clock_from (an_present s) (an_readings s);
  inv_limit : var_anvil_time_unit <= an_idle_limit s;
  inv_table : exists m, table_rep (an_remote_map s) m
    /\ forall ident r, m !! ident = Some r <-> exists x, an_remotes s !! r = Some x /\ ar_ident x = ident;
  inv_fresh : forall r, is_Some (an_remotes s !! r) -> (r < an_fresh s)%nat;
  inv_count : forall r x, an_remotes s !! r = Some x -> ar_count x = links r (an_streams s) + (if decide (extra = Some r) then 1 else 0);
  inv_live : forall r, extra = Some r \/ (exists fd c, an_streams s !! fd = Some c /\ linkof c = Some r) -> is_Some (an_remotes s !! r);
  inv_timers : forall r, is_Some (an_expire s !! r) <-> exists x, an_remotes s !! r = Some x /\ ar_count x = 0;
  inv_due : forall r due, an_expire s !! r = Some due -> due <= an_present s + var_anvil_time_unit;
  inv_clients : an_client_count s = Z.of_nat (size (an_streams s)) /\ an_client_count s < INT_MAX;
  inv_idle : forall idle, an_idle s = Some idle -> an_streams s = ∅ /\ forall r due, an_expire s !! r = Some due -> due <= idle;
  inv_max : forall k, am_value (an_max s k) > 0 -> is_Some (am_ident (an_max s k))
}.

(** The client of the specification that a client of the program is. *)
Definition window_of (x : ANVIL_REMOTE) (w : list (rate_kind * Z)) : Prop :=
  (forall k, ar_rates x k = sp_rate w k) /\ ar_start x = match w with [] => 0 | (_, start) :: _ => start end
  /\ Forall (fun p => 0 < p.2) w.
Definition ident_of (m : gmap nat ANVIL_REMOTE) (c : option ANVIL_LOCAL) : option bytes := r ← linkof c; ar_ident <$> m !! r.
Record abs (s : anvil) (a : spec) : Prop := {
  abs_links : sp_links a = ident_of (an_remotes s) <$> an_streams s;
  abs_windows : forall r x, an_remotes s !! r = Some x -> exists w, sp_windows a !! ar_ident x = Some w /\ window_of x w;
  abs_known : forall ident, is_Some (sp_windows a !! ident) -> exists r x, an_remotes s !! r = Some x /\ ar_ident x = ident;
  abs_since : forall r x, an_remotes s !! r = Some x ->
    (fun d => d + var_anvil_time_unit) <$> sp_since a !! ar_ident x = an_expire s !! r
}.
End anvil.
(** ** The program does what the specification says *)

Section proofs.
Context (var_anvil_time_unit var_anvil_stat_time : Z) (Hu : 1 <= var_anvil_time_unit) (Hs : 1 <= var_anvil_stat_time).
#[local] Set Default Proof Using "All".
#[local] Notation inv := (inv var_anvil_time_unit).
#[local] Notation abs := (abs var_anvil_time_unit).
#[local] Notation sp_current := (sp_current var_anvil_time_unit).

(** *** Windows *)

Lemma occurrences_app k w1 w2 : occurrences k (w1 ++ w2) = occurrences k w1 + occurrences k w2.
Proof. unfold occurrences. rewrite filter_app, length_app. lia. Qed.

(** The rates after a request, as ANVIL_REMOTE_INCR_RATE sets them. *)
Definition incr_rate (what : rate_kind) (now : Z) (x : ANVIL_REMOTE) : ANVIL_REMOTE :=
  let x := if ar_start x + var_anvil_time_unit <? now then ANVIL_REMOTE_RSET_RATE now x else x in
  if ar_rates x what <? INT_MAX then set_rate what (ar_rates x what + 1) x else x.

Lemma window_incr what now x w : var_anvil_time_unit < now -> window_of x w ->
  window_of (incr_rate what now x) (sp_current now w ++ [(what, now)]).
Proof.
  intros Hn (Hr & Hst & Hp). unfold incr_rate.
  set (y := if ar_start x + _ <? _ then _ else _).
  assert (Hy : (forall k, ar_rates y k = sp_rate (sp_current now w) k) /\ Forall (fun p => 0 < p.2) (sp_current now w)
    /\ ar_start y = match sp_current now w with [] => now | (_, t) :: _ => t end).
  { unfold y. rewrite Hst. destruct w as [|[k t] w]; cbn.
    - rewrite (proj2 (Z.ltb_lt _ _)) by lia. by repeat split.
    - destruct (t + var_anvil_time_unit <? now) eqn:E; by repeat split. }
  clearbody y. destruct Hy as (Hyr & Hyp & Hys). set (v := sp_current now w) in *. clearbody v.
  split_and!.
  - intros k. rewrite Hyr. unfold sp_rate. rewrite occurrences_app.
    assert (E : occurrences k [(what, now)] = if decide (k = what) then 1 else 0).
    { unfold occurrences. rewrite filter_cons. cbn. repeat case_decide; try done; congruence. }
    rewrite E. destruct (Z.ltb_spec (Z.min INT_MAX (occurrences what v)) INT_MAX); cbn; repeat case_decide; subst;
      try rewrite Hyr; unfold sp_rate; unfold occurrences in *; lia.
  - transitivity (ar_start y); [by destruct (_ <? INT_MAX)|]. rewrite Hys. by destruct v as [|[? ?] ?].
  - apply Forall_app. split; [done|]. constructor; [cbn; lia|done].
Qed.

(** *** Finding clients *)

Lemma inv_unique e s r r' x x' : inv e s -> an_remotes s !! r = Some x -> an_remotes s !! r' = Some x' ->
  ar_ident x = ar_ident x' -> r = r'.
Proof.
  intros H Hx Hx' E. destruct (inv_table _ _ _ H) as (m & _ & Hm).
  assert (m !! ar_ident x = Some r) by (apply Hm; eauto). assert (m !! ar_ident x = Some r') by (apply Hm; eauto). congruence.
Qed.

Lemma client_find_ok e s ident : inv e s -> exists p, table_find (an_remote_map s) ident = Ret p /\
  match p with
  | Some r => exists x, an_remotes s !! r = Some x /\ ar_ident x = ident
  | None => forall r x, an_remotes s !! r = Some x -> ar_ident x <> ident
  end.
Proof.
  intros H. destruct (inv_table _ _ _ H) as (m & Hrep & Hm). rewrite (find_rep _ _ ident Hrep). eexists. split; [done|].
  destruct (m !! ident) as [r|] eqn:E; [by apply Hm|]. intros r x Hx Ei.
  assert (m !! ident = Some r) by (apply Hm; eauto). congruence.
Qed.

(** What the specification knows about a client that is found, or not. *)
Lemma known_window e s a r x : inv e s -> abs s a -> an_remotes s !! r = Some x ->
  sp_windows a !! ar_ident x = Some (sp_window (ar_ident x) a) /\ window_of x (sp_window (ar_ident x) a).
Proof.
  intros H Ha Hx. destruct (abs_windows _ _ _ Ha r x Hx) as (w & Ew & Hw). unfold sp_window. by rewrite Ew.
Qed.
Lemma unknown_window s a ident : abs s a -> (forall r x, an_remotes s !! r = Some x -> ar_ident x <> ident) ->
  sp_windows a !! ident = None.
Proof.
  intros Ha Hn. apply eq_None_not_Some. intros (r & x & Hx & E)%(abs_known _ _ _ Ha). by destruct (Hn r x).
Qed.

(** *** Counting connections *)

Definition links_live (streams : gmap nat (option ANVIL_LOCAL)) (m : gmap nat ANVIL_REMOTE) : Prop :=
  forall fd c r, streams !! fd = Some c -> linkof c = Some r -> is_Some (m !! r).

(** The connections of a client, in the program and in the specification. *)
Lemma links_eq streams m r x : links_live streams m ->
  (forall r' x', m !! r' = Some x' -> ar_ident x' = ar_ident x -> r' = r) -> m !! r = Some x ->
  sp_count (ar_ident x) (ident_of m <$> streams) = links r streams.
Proof.
  intros Hl Hun Hx. unfold sp_count, links. rewrite map_sum_fmap. apply map_sum_ext. intros fd c Hc.
  unfold ident_of. destruct (linkof c) as [r'|] eqn:El; [|done]. cbn.
  destruct (Hl fd c r' Hc El) as [x' Hx']. rewrite Hx'. cbn.
  repeat case_decide; try done; [|congruence]. exfalso. by rewrite (Hun r' x') in *; [..|congruence].
Qed.

Lemma inv_links_live e s : inv e s -> links_live (an_streams s) (an_remotes s).
Proof. intros H fd c r Hc El. apply (inv_live _ _ _ H). right. eauto. Qed.

Lemma count_eq s a r x : inv None s -> abs s a -> an_remotes s !! r = Some x -> ar_count x = sp_count (ar_ident x) (sp_links a).
Proof.
  intros H Ha Hx. rewrite (abs_links _ _ _ Ha), (links_eq _ _ r x); [|exact (inv_links_live _ s H)| |done].
  - rewrite (inv_count _ _ _ H r x Hx). rewrite decide_False by done. lia.
  - intros r' x' Hx' E. by eapply inv_unique.
Qed.

(** Only the clients' identities matter for the links. *)
Lemma ident_of_ext (m m' : gmap nat ANVIL_REMOTE) (streams : gmap nat (option ANVIL_LOCAL)) :
  (forall fd c r, streams !! fd = Some c -> linkof c = Some r -> ar_ident <$> m' !! r = ar_ident <$> m !! r) ->
  ident_of m' <$> streams = ident_of m <$> streams.
Proof.
  intros E. apply map_fmap_ext. intros fd c Hc. unfold ident_of. destruct (linkof c) as [r|] eqn:El; [|done]. cbn. by eapply E.
Qed.

(** *** Updating clients

    A step that keeps the clients and their identities, and changes their counts and rates,
    the links and the timers. *)

Lemma update_inv e e' s s' (f : nat -> ANVIL_REMOTE -> ANVIL_REMOTE) : inv e s ->
  (forall r, an_remotes s' !! r = f r <$> an_remotes s !! r) -> (forall r x, an_remotes s !! r = Some x -> ar_ident (f r x) = ar_ident x) ->
  an_remote_map s' = an_remote_map s -> an_fresh s' = an_fresh s -> an_idle_limit s' = an_idle_limit s ->
  an_present s <= an_present s' -> clock_from (an_present s') (an_readings s') ->
  links_live (an_streams s') (an_remotes s) -> (forall r, e' = Some r -> is_Some (an_remotes s !! r)) ->
  (forall r x, an_remotes s !! r = Some x ->
    ar_count (f r x) = links r (an_streams s') + (if decide (e' = Some r) then 1 else 0)
    /\ (is_Some (an_expire s' !! r) <-> ar_count (f r x) = 0)) ->
  (forall r due, an_expire s' !! r = Some due -> is_Some (an_remotes s !! r) /\ due <= an_present s' + var_anvil_time_unit) ->
  an_client_count s' = Z.of_nat (size (an_streams s')) /\ an_client_count s' < INT_MAX ->
  (forall idle, an_idle s' = Some idle -> an_streams s' = ∅ /\ forall r due, an_expire s' !! r = Some due -> due <= idle) ->
  (forall k, am_value (an_max s' k) > 0 -> is_Some (am_ident (an_max s' k))) ->
  inv e' s'.
Proof.
  intros [Hclk Hlim Htab Hfr Hcnt Hlive Htim Hdue Hcl Hidle Hmax] Hf Hid Emap Efr Elim Hpr Hck Hll Hle Hc Hex Hcl' Hidle' Hmax'.
  assert (Hd : forall r, is_Some (an_remotes s' !! r) <-> is_Some (an_remotes s !! r)) by (intros r; by rewrite Hf, fmap_is_Some).
  assert (Hin : forall r z, an_remotes s' !! r = Some z -> exists x, an_remotes s !! r = Some x /\ z = f r x)
    by (intros r z; rewrite Hf; intros (x & -> & Hx)%fmap_Some; eauto).
  split; try done.
  - split; [lia|done].
  - by rewrite Elim.
  - destruct Htab as (m & Hrep & Hm). exists m. rewrite Emap. split; [done|]. intros ident r. rewrite Hm. split.
    + intros (x & Hx & <-). exists (f r x). by rewrite Hf, Hx, (Hid r x).
    + intros (z & (x & Hx & ->)%Hin & <-). exists x. by rewrite (Hid r x).
  - intros r. rewrite Hd, Efr. apply Hfr.
  - intros r z (x & Hx & ->)%Hin. by apply Hc.
  - intros r Hr. apply Hd. destruct Hr as [Hr|(fd & c & Hc' & Hl)]; [by apply Hle|by eapply Hll].
  - intros r. split.
    + intros Hr. pose proof Hr as [due Hdue']. destruct (Hex r due Hdue') as [[x Hx] _]. exists (f r x).
      rewrite Hf, Hx. split; [done|]. by apply Hc.
    + intros (z & (x & Hx & ->)%Hin & Hz). by apply (Hc r x).
  - intros r due Hr. by eapply Hex.
Qed.

Lemma update_abs s s' a a' (f : nat -> ANVIL_REMOTE -> ANVIL_REMOTE) : abs s a ->
  (forall r, an_remotes s' !! r = f r <$> an_remotes s !! r) -> (forall r x, an_remotes s !! r = Some x -> ar_ident (f r x) = ar_ident x) ->
  sp_links a' = ident_of (an_remotes s) <$> an_streams s' ->
  (forall ident, is_Some (sp_windows a' !! ident) <-> is_Some (sp_windows a !! ident)) ->
  (forall r x, an_remotes s !! r = Some x -> window_of (f r x) (sp_window (ar_ident x) a')
    /\ (fun d => d + var_anvil_time_unit) <$> sp_since a' !! ar_ident x = an_expire s' !! r) ->
  abs s' a'.
Proof.
  intros Ha Hf Hid Hl Hk Hx.
  assert (Hin : forall r z, an_remotes s' !! r = Some z -> exists x, an_remotes s !! r = Some x /\ z = f r x)
    by (intros r z; rewrite Hf; intros (x & -> & Hx')%fmap_Some; eauto).
  split.
  - rewrite Hl. symmetry. apply ident_of_ext. intros fd c r _ _. rewrite Hf.
    destruct (an_remotes s !! r) as [x|] eqn:E; [|done]. cbn. by rewrite (Hid r x).
  - intros r z (x & Hxr & ->)%Hin. rewrite (Hid r x Hxr). destruct (Hx r x Hxr) as [Hw _]. unfold sp_window in Hw.
    destruct (abs_windows _ _ _ Ha r x Hxr) as (w & Ew & _). destruct (proj2 (Hk (ar_ident x))) as [w' Ew']; [by eexists|].
    rewrite Ew' in *. by exists w'.
  - intros ident (r & x & Hxr & E)%Hk%(abs_known _ _ _ Ha). exists r, (f r x). by rewrite Hf, Hxr, (Hid r x).
  - intros r z (x & Hxr & ->)%Hin. rewrite (Hid r x Hxr). by apply Hx.
Qed.

(** A client is replaced by one with the same identity. *)
Lemma insert_as_fmap {A} (m : gmap nat A) r x x' y : m !! r = Some x ->
  <[r := x']> m !! y = (fun z => if decide (y = r) then x' else z) <$> m !! y.
Proof. intros Hx. case_decide as Hy; [subst; by rewrite lookup_insert_eq, Hx|]. rewrite lookup_insert_ne by done. by destruct (m !! y). Qed.

Lemma insert_known s a r x w : abs s a -> an_remotes s !! r = Some x -> forall ident,
  is_Some (<[ar_ident x := w]> (sp_windows a) !! ident) <-> is_Some (sp_windows a !! ident).
Proof.
  intros Ha Hx ident. rewrite lookup_insert_is_Some. destruct (decide (ar_ident x = ident)) as [<-|]; [|tauto].
  destruct (abs_windows _ _ _ Ha r x Hx) as (w' & -> & _). split; [by eexists|by left].
Qed.
Lemma sp_window_set ident w links since ident' a :
  sp_window ident' (mk_spec links (<[ident := w]> (sp_windows a)) since) = if decide (ident' = ident) then w else sp_window ident' a.
Proof. unfold sp_window. cbn. case_decide; [subst; by rewrite lookup_insert_eq|by rewrite lookup_insert_ne]. Qed.

Lemma incr_rate_fields what now x : ar_ident (incr_rate what now x) = ar_ident x /\ ar_count (incr_rate what now x) = ar_count x.
Proof. unfold incr_rate. by repeat case_match. Qed.

(** The specification with another window for a client. *)
Definition sp_set (ident : bytes) (w : list (rate_kind * Z)) (a : spec) : spec :=
  mk_spec (sp_links a) (<[ident := w]> (sp_windows a)) (sp_since a).

Lemma set_window_ok e s a r x x' w : inv e s -> abs s a -> an_remotes s !! r = Some x ->
  ar_ident x' = ar_ident x -> ar_count x' = ar_count x -> window_of x' w ->
  inv e (set_remote r x' s) /\ abs (set_remote r x' s) (sp_set (ar_ident x) w a).
Proof.
  intros H Ha Hx Hi Hc Hw. set (f y z := if decide (y = r) then x' else z).
  assert (Hf : forall y, an_remotes (set_remote r x' s) !! y = f y <$> an_remotes s !! y) by (intros y; by apply (insert_as_fmap _ r x)).
  assert (Hid : forall y z, an_remotes s !! y = Some z -> ar_ident (f y z) = ar_ident z /\ ar_count (f y z) = ar_count z).
  { intros y z Hz. unfold f. case_decide; [subst; by simplify_eq|done]. }
  split.
  - apply (update_inv e e s _ f); try done; try apply H; [by apply Hid|exact (inv_links_live _ s H)|intros ? ?; apply (inv_live _ _ _ H); by left| |].
    + intros y z Hz. rewrite (proj2 (Hid y z Hz)). split; [by apply (inv_count _ _ _ H)|]. cbn. rewrite (inv_timers _ _ _ H). naive_solver.
    + cbn. intros y due Hy. split; [|by eapply (inv_due _ _ _ H)].
      destruct (proj1 (inv_timers _ _ _ H y)) as (z & Hz & _); by eexists.
  - apply (update_abs s _ a _ f); try done; [by apply Hid|apply Ha|by eapply insert_known|].
    intros y z Hz. split; [|by apply (abs_since _ _ _ Ha)]. unfold sp_set. rewrite sp_window_set. unfold f. repeat case_decide; subst.
    + done.
    + by simplify_eq.
    + by destruct (inv_unique e s y r z x).
    + by eapply known_window.
Qed.

Lemma incr_ok e s a r x what : inv e s -> abs s a -> an_remotes s !! r = Some x ->
  let s' := set_remote r (incr_rate what (an_present s) x) s in
  ANVIL_REMOTE_INCR_RATE var_anvil_time_unit what r s = Ret s' /\ inv e s'
  /\ abs s' (sp_sample var_anvil_time_unit what (an_present s) (ar_ident x) a).
Proof.
  intros H Ha Hx. split; [unfold ANVIL_REMOTE_INCR_RATE, remote_at; by rewrite Hx|].
  apply (set_window_ok e s a r x); [done..|apply incr_rate_fields|apply incr_rate_fields|].
  apply window_incr; [apply (inv_clock _ _ _ H)|by eapply known_window].
Qed.

(** *** Counting a connection *)

Lemma links_bounds r streams : 0 <= links r streams <= Z.of_nat (size streams).
Proof.
  unfold links. induction streams as [|fd c m Hc IH] using map_ind.
  - by rewrite map_sum_empty, map_size_empty.
  - rewrite map_sum_insert_new, map_size_insert_None by done. case_decide; lia.
Qed.
Lemma links_zero r streams : (forall fd c, streams !! fd = Some c -> linkof c <> Some r) -> links r streams = 0.
Proof.
  intros Hn. unfold links. rewrite (map_sum_ext _ (fun _ => 0)).
  - apply map_sum_zero.
  - intros fd c Hc. rewrite decide_False; [done|]. by apply (Hn fd).
Qed.

(** A client that gets a connection, before it is recorded under the local server. *)
Definition sp_enter (now : Z) (ident : bytes) (a : spec) : spec :=
  let a := sp_sample var_anvil_time_unit Rate now ident a in mk_spec (sp_links a) (sp_windows a) (delete ident (sp_since a)).

Lemma timer_zero e s r : inv e s -> is_Some (an_expire s !! r) -> exists x, an_remotes s !! r = Some x /\ ar_count x = 0.
Proof. intros H. apply (inv_timers _ _ _ H). Qed.

(** ANVIL_REMOTE_NEXT_CONN after the rate. *)
Lemma add_one_ok s a r x : inv None s -> abs s a -> an_remotes s !! r = Some x ->
  let s' := set_remote r (set_count (ar_count x + 1) x) (with_expire (delete r (an_expire s)) s) in
  inv (Some r) s' /\ abs s' (mk_spec (sp_links a) (sp_windows a) (delete (ar_ident x) (sp_since a))).
Proof.
  intros H Ha Hx. cbn zeta. set (x' := set_count _ x). set (f y z := if decide (y = r) then x' else z).
  set (s' := set_remote _ _ _).
  assert (Hf : forall y, an_remotes s' !! y = f y <$> an_remotes s !! y) by (intros y; by apply (insert_as_fmap _ r x)).
  assert (Hid : forall y z, an_remotes s !! y = Some z -> ar_ident (f y z) = ar_ident z).
  { intros y z Hz. unfold f. case_decide; [subst; by simplify_eq|done]. }
  pose proof (inv_count _ _ _ H r x Hx) as Hcx. rewrite decide_False in Hcx by done. pose proof (links_bounds r (an_streams s)) as Hb.
  split.
  - apply (update_inv None (Some r) s _ f); try done; try apply H; [exact (inv_links_live _ s H)|intros ? [= <-]; by eexists| | |].
    + intros y z Hz. unfold f, s'. cbn. case_decide as Hy; [subst|].
      * rewrite decide_True, lookup_delete_eq by done. cbn. split; [lia|]. split; [by intros []|lia].
      * pose proof (inv_count _ _ _ H y z Hz) as Hcy. rewrite decide_False in Hcy by done.
        rewrite decide_False, lookup_delete_ne by congruence. split; [lia|]. rewrite (inv_timers _ _ _ H). naive_solver.
    + cbn. intros y due [_ Hy]%lookup_delete_Some. split; [|by eapply (inv_due _ _ _ H)].
      destruct (timer_zero None s y H) as (z & Hz & _); by eexists.
    + cbn. intros idle Hi. destruct (inv_idle _ _ _ H idle Hi) as [He Hd]. split; [done|].
      intros y due [_ Hy]%lookup_delete_Some. by eapply Hd.
  - apply (update_abs s _ a _ f); try done; [apply Ha|].
    intros y z Hz. cbn. split.
    + pose proof (proj2 (known_window None s a y z H Ha Hz)) as Hw. unfold f. case_decide; [|done]. subst. by simplify_eq.
    + destruct (decide (y = r)) as [->|Hy]; [simplify_eq; by rewrite !lookup_delete_eq|].
      rewrite !lookup_delete_ne; [by apply (abs_since _ _ _ Ha)|done|]. intros E. apply Hy. by eapply inv_unique.
Qed.

Lemma next_conn_ok s a r x : inv None s -> abs s a -> an_remotes s !! r = Some x ->
  exists s', ANVIL_REMOTE_NEXT_CONN var_anvil_time_unit r s = Ret s' /\ inv (Some r) s' /\ abs s' (sp_enter (an_present s) (ar_ident x) a)
    /\ an_present s' = an_present s /\ an_streams s' = an_streams s /\ ar_ident <$> an_remotes s' !! r = Some (ar_ident x).
Proof.
  intros H Ha Hx. destruct (incr_ok None s a r x Rate H Ha Hx) as (E1 & H1 & Ha1). unfold ANVIL_REMOTE_NEXT_CONN. rewrite E1.
  destruct (incr_rate_fields Rate (an_present s) x) as [Hi _].
  set (x1 := incr_rate Rate (an_present s) x) in *. set (s1 := set_remote r x1 s) in *.
  assert (Hx1 : an_remotes s1 !! r = Some x1) by apply lookup_insert_eq. cbn [mbind outcome_bind]. unfold remote_at. rewrite Hx1. cbn [mbind outcome_bind].
  pose proof (inv_count _ _ _ H1 r x1 Hx1) as Hc. rewrite decide_False in Hc by done.
  pose proof (links_bounds r (an_streams s1)) as Hb. pose proof (inv_clients _ _ _ H1) as Hcl.
  assert (Eg : (ar_count x1 >=? INT_MAX) = false) by (destruct (Z.geb_spec (ar_count x1) INT_MAX); lia). rewrite Eg.
  assert (Es : (if ar_count x1 =? 0 then cancel_expire r s1 else s1) = with_expire (delete r (an_expire s1)) s1).
  { destruct (Z.eqb_spec (ar_count x1) 0) as [|Hn]; [done|]. rewrite delete_id; [by destruct s1|]. apply eq_None_not_Some.
    intros (y & Hy & Hy0)%(timer_zero None s1 r H1). congruence. }
  rewrite Es. destruct (add_one_ok s1 _ r x1 H1 Ha1 Hx1) as [H2 Ha2]. eexists. split; [reflexivity|].
  split_and!; [done| |done|done|cbn; by rewrite lookup_insert_eq; cbn; rewrite Hi]. by rewrite Hi in Ha2.
Qed.

(** The state with a new client. *)
Definition add_client (r : nat) (ident : bytes) (table : HTABLE nat) (cache : Z * Z) (s : anvil) : anvil :=
  with_max (an_max s) cache (with_table table
    (with_remotes (<[r := ANVIL_REMOTE_FIRST_CONN ident (an_present s)]> (an_remotes s)) (S r) s)).

Lemma add_client_inv s ident m table cache : inv None s -> table_rep table (<[ident := an_fresh s]> m) ->
  (forall i r, m !! i = Some r <-> exists x, an_remotes s !! r = Some x /\ ar_ident x = i) -> m !! ident = None ->
  inv (Some (an_fresh s)) (add_client (an_fresh s) ident table cache s).
Proof.
  intros [Hclk Hlim _ Hfr Hcnt Hlive Htim Hdue Hcl Hidle Hmax] Hrep Hm Hn. set (r := an_fresh s) in *.
  assert (Hr : an_remotes s !! r = None).
  { apply eq_None_not_Some. intros Hr%Hfr. unfold r in Hr. lia. }
  assert (Hl0 : links r (an_streams s) = 0).
  { apply links_zero. intros fd c Hc El. destruct (Hlive r) as [? ?]; [right; eauto|congruence]. }
  split; cbn -[r]; try done.
  - eexists. split; [exact Hrep|]. intros i y. destruct (decide (y = r)) as [->|Hy].
    + rewrite lookup_insert_eq. destruct (decide (i = ident)) as [->|Hi].
      * rewrite lookup_insert_eq. split; [|done]. intros _. by eexists.
      * rewrite lookup_insert_ne by done. rewrite Hm, Hr. split; [by intros (? & ? & _)|]. by intros (x & [= <-] & ?).
    + rewrite (lookup_insert_ne (an_remotes s)) by done. rewrite <- Hm. destruct (decide (i = ident)) as [->|Hi].
      * rewrite lookup_insert_eq, Hn. split; [|done]. by intros [= ?].
      * by rewrite lookup_insert_ne.
  - intros y [z [[<- _]|[_ Hz]]%lookup_insert_Some]; [unfold r; lia|]. specialize (Hfr y ltac:(by eexists)). unfold r. lia.
  - intros y z [[<- <-]|[Hy Hz]]%lookup_insert_Some; [rewrite decide_True by done; cbn; lia|].
    rewrite (Hcnt y z Hz), !decide_False; [done|congruence|done].
  - intros y Hy. apply lookup_insert_is_Some. destruct (decide (r = y)) as [|Hne]; [by left|right]. split; [done|].
    destruct Hy as [[=]|Hy]; [done|]. apply Hlive. by right.
  - intros y. rewrite Htim. destruct (decide (y = r)) as [->|Hy].
    + rewrite lookup_insert_eq, Hr. split; [by intros (? & ? & _)|]. by intros (x & [= <-] & ?).
    + by rewrite lookup_insert_ne.
Qed.

Lemma add_client_abs s a ident table cache : inv None s -> abs s a ->
  (forall r x, an_remotes s !! r = Some x -> ar_ident x <> ident) ->
  abs (add_client (an_fresh s) ident table cache s) (sp_enter (an_present s) ident a).
Proof.
  intros H Ha Hn. set (r := an_fresh s).
  assert (Hr : an_remotes s !! r = None).
  { apply eq_None_not_Some. intros Hr%(inv_fresh _ _ _ H). unfold r in Hr. lia. }
  pose proof (proj1 (inv_clock _ _ _ H)) as Hck.
  assert (Ew : sp_window ident a = []) by (unfold sp_window; by rewrite (unknown_window s a ident Ha Hn)).
  unfold sp_enter, sp_sample. rewrite Ew. split; cbn -[r].
  - rewrite (abs_links _ _ _ Ha). symmetry. apply ident_of_ext. intros fd c y Hc El. rewrite lookup_insert_ne; [done|].
    intros <-. destruct (inv_live _ _ _ H r) as [? ?]; [right; eauto|congruence].
  - intros y z [[<- <-]|[Hy Hz]]%lookup_insert_Some.
    + eexists. rewrite lookup_insert_eq. split; [done|]. split_and!; [by intros []|done|]. constructor; [cbn; lia|done].
    + rewrite lookup_insert_ne; [by apply (abs_windows _ _ _ Ha y)|]. intros E. by apply (Hn y z).
  - intros i [<-|[_ Hi]]%lookup_insert_is_Some; [exists r; eexists; by rewrite lookup_insert_eq|].
    destruct (abs_known _ _ _ Ha i Hi) as (y & z & Hz & E). exists y, z. rewrite lookup_insert_ne; [done|]. intros <-. congruence.
  - intros y z [[<- <-]|[Hy Hz]]%lookup_insert_Some.
    + cbn. rewrite lookup_delete_eq. symmetry. apply eq_None_not_Some. intros (? & ? & _)%(timer_zero None s r H). congruence.
    + rewrite lookup_delete_ne; [by apply (abs_since _ _ _ Ha)|]. intros E. by apply (Hn y z).
Qed.

Lemma count_connection_ok s a ident : inv None s -> abs s a ->
  exists r s', count_connection var_anvil_time_unit ident s = Ret (r, s') /\ inv (Some r) s' /\ abs s' (sp_enter (an_present s) ident a)
    /\ an_present s' = an_present s /\ an_streams s' = an_streams s /\ ar_ident <$> an_remotes s' !! r = Some ident.
Proof.
  intros H Ha. unfold count_connection. destruct (client_find_ok None s ident H) as (p & E & Hp). rewrite E. cbn [mbind outcome_bind].
  destruct p as [r|].
  - destruct Hp as (x & Hx & <-). destruct (next_conn_ok s a r x H Ha Hx) as (s' & E' & Hs'). rewrite E'. by exists r, s'.
  - destruct (inv_table _ _ _ H) as (m & Hrep & Hm).
    assert (Hmn : m !! ident = None) by (apply eq_None_not_Some; intros [r (x & Hx & Ei)%Hm]; by apply (Hp r x)).
    destruct (enter_rep _ m ident (an_fresh s) Hrep Hmn) as (table & Et & Hrep'). cbn [with_remotes an_remote_map]. rewrite Et. cbn [mbind outcome_bind].
    exists (an_fresh s). eexists. split; [reflexivity|].
    set (cache := if fst (an_max_cache s) <? table_used table then (table_used table, an_present s) else an_max_cache s).
    match goal with |- inv _ ?t /\ _ => assert (Es : t = add_client (an_fresh s) ident table cache s) end.
    { unfold cache, add_client. cbn. by case_match. }
    rewrite Es. split_and!; [by eapply add_client_inv|by apply add_client_abs|done..|]. cbn. by rewrite lookup_insert_eq.
Qed.

(** *** Recording the client of a server process *)

Section link.
Context (e : option nat) (s : anvil) (a : spec) (fd : nat) (c : option ANVIL_LOCAL).
Context (H : inv e s) (Ha : abs s a) (Hc : an_streams s !! fd = Some c).
Let streams := <[fd := Some (mk_local e)]> (an_streams s).

Lemma link_live : links_live streams (an_remotes s).
Proof.
  intros fd' c' r. unfold streams. rewrite lookup_insert_Some. intros [[<- <-]|[_ Hc']] El; apply (inv_live _ _ _ H); [by left|right; eauto].
Qed.

Lemma link_links r : links r streams = links r (an_streams s) - (if decide (linkof c = Some r) then 1 else 0) + (if decide (e = Some r) then 1 else 0).
Proof. unfold links, streams. by rewrite (map_sum_insert _ _ _ _ _ Hc). Qed.

Lemma link_sp_count r x : an_remotes s !! r = Some x ->
  sp_count (ar_ident x) (<[fd := ident_of (an_remotes s) (Some (mk_local e))]> (sp_links a)) = links r streams.
Proof.
  intros Hx. rewrite (abs_links _ _ _ Ha), <- fmap_insert. apply (links_eq _ _ r x); [apply link_live| |done].
  intros r' x' Hx' E. by eapply inv_unique.
Qed.

(** The clients with their new counts, and the timers. *)
Lemma link_core now readings (remotes : gmap nat ANVIL_REMOTE) expire :
  an_present s <= now -> clock_from now readings ->
  (forall r, remotes !! r = (fun x => set_count (links r streams) x) <$> an_remotes s !! r) ->
  (forall r, expire !! r = x ← an_remotes s !! r;
     if links r streams =? 0 then (if ar_count x =? 0 then an_expire s !! r else Some (now + var_anvil_time_unit)) else None) ->
  let s' := with_streams streams (with_expire expire (with_remotes remotes (an_fresh s) (with_present now readings s))) in
  inv None s' /\ abs s' (sp_link now fd (ident_of (an_remotes s) (Some (mk_local e))) a).
Proof.
  intros Hn Hck Hr He. cbn zeta. set (s' := with_streams _ _). set (f r x := set_count (links r streams) x).
  assert (Hone : forall r x, an_remotes s !! r = Some x -> ar_count x = links r (an_streams s) + (if decide (e = Some r) then 1 else 0)) by apply (inv_count _ _ _ H).
  assert (Hle : forall r, linkof c = Some r -> 1 <= links r (an_streams s)).
  { intros r El. pose proof (map_sum_ge (fun c => if decide (linkof c = Some r) then 1 else 0) (an_streams s) fd c) as Hg.
    cbn in Hg. rewrite decide_True in Hg by done. apply Hg; [|done]. intros c'. case_decide; lia. }
  assert (Hidle : an_idle s = None).
  { destruct (an_idle s) as [i|] eqn:Ei; [|done]. destruct (inv_idle _ _ _ H i Ei) as [E _]. rewrite E in Hc. done. }
  split.
  - apply (update_inv e None s s' f); try done; [apply link_live| | | | |apply H].
    + intros r x Hx. cbn. rewrite decide_False, He, Hx by done. split; [lia|]. cbn. pose proof (link_links r) as Hlr.
      specialize (Hone r x Hx). pose proof (inv_timers _ _ _ H r) as Ht.
      destruct (Z.eqb_spec (links r streams) 0) as [E|E]; [|split; [by intros []|done]]. split; [done|]. intros _.
      destruct (Z.eqb_spec (ar_count x) 0); [apply Ht; eauto|by eexists].
    + intros r due. cbn. rewrite He. intros (x & Hx & Hd)%bind_Some. split; [by eexists|].
      repeat case_match; simplify_eq; [|lia]. pose proof (inv_due _ _ _ H r due Hd). lia.
    + cbn. unfold streams. rewrite map_size_insert_Some by eauto. apply (inv_clients _ _ _ H).
    + cbn. rewrite Hidle. done.
  - apply (update_abs s s' a _ f); try done.
    + cbn. unfold streams. by rewrite fmap_insert, (abs_links _ _ _ Ha).
    + intros r x Hx. split; [by apply (known_window e s a r x)|]. pose proof (link_sp_count r x Hx) as Hsc.
      set (new := ident_of (an_remotes s) (Some (mk_local e))) in *. clearbody new. cbn. rewrite He, Hx. cbn.
      pose proof (link_links r) as Hlr. specialize (Hone r x Hx). specialize (Hle r).
      pose proof (abs_since _ _ _ Ha r x Hx) as Hsi. pose proof (inv_timers _ _ _ H r) as Ht.
      pose proof (links_bounds r (an_streams s)) as Hb.
      assert (Hold : sp_links a !! fd = Some (Some (ar_ident x)) <-> linkof c = Some r).
      { rewrite (abs_links _ _ _ Ha), lookup_fmap, Hc. cbn. unfold ident_of. destruct (linkof c) as [r'|] eqn:El; [|done]. cbn.
        destruct (inv_live _ _ _ H r') as [x' Hx']; [right; eauto|]. rewrite Hx'. cbn. split; [|intros [= ->]; congruence].
        intros [= E]. f_equal. by eapply inv_unique. }
      destruct (decide (linkof c = Some r)) as [El|El].
      * rewrite (proj2 Hold El), Hsc. specialize (Hle El). destruct (Z.eqb_spec (links r streams) 0).
        -- rewrite lookup_insert_eq. rewrite (proj2 (Z.eqb_neq _ _)) by (repeat case_decide; lia). done.
        -- rewrite Hsi. apply eq_None_not_Some. intros (? & ? & ?)%Ht. simplify_eq. repeat case_decide; lia.
      * assert (Hsi' : (fun d => d + var_anvil_time_unit) <$> (match sp_links a !! fd with
            | Some (Some old) => if sp_count old (<[fd:=new]> (sp_links a)) =? 0
                                 then <[old:=now]> (sp_since a) else sp_since a
            | _ => sp_since a end) !! ar_ident x = an_expire s !! r).
        { destruct (sp_links a !! fd) as [[old|]|] eqn:Eo; [|exact Hsi..]. destruct (_ =? 0); [|exact Hsi]. rewrite lookup_insert_ne; [exact Hsi|].
          intros ->. by apply El, Hold. }
        rewrite Hsi'. destruct (Z.eqb_spec (links r streams) 0) as [E|E].
        -- rewrite (proj2 (Z.eqb_eq _ _)) by (repeat case_decide; lia). done.
        -- apply eq_None_not_Some. intros (? & ? & ?)%Ht. simplify_eq. repeat case_decide; lia.
Qed.
End link.

Ltac dec_lia := repeat match goal with H : context [decide ?P] |- _ => destruct (decide P) end; try congruence; lia.

Lemma read_clock_ok s : clock_from (an_present s) (an_readings s) -> exists now l,
  read_clock s = with_present now l s /\ an_present s <= now /\ clock_from now l.
Proof.
  unfold read_clock. destruct (an_readings s) as [|t l] eqn:E; intros Hc.
  - exists (an_present s), []. rewrite <- E at 1. split_and!; [by destruct s|lia|done].
  - exists t, l. by destruct Hc.
Qed.
Lemma event_due_ok delay s : 0 <= delay -> clock_from (an_present s) (an_readings s) -> exists now l,
  event_due delay s = Ret (now + delay, with_present now l s) /\ an_present s <= now /\ clock_from now l.
Proof.
  intros Hd Hc. destruct (read_clock_ok s Hc) as (now & l & E & Hn & Hl). exists now, l. split; [|done].
  unfold event_due. rewrite (proj2 (Z.leb_le _ _) Hd). cbn. by rewrite E.
Qed.

Lemma set_count_id n x : ar_count x = n -> set_count n x = x.
Proof. intros <-. by destruct x. Qed.

Lemma expire_none e s r : inv e s -> an_remotes s !! r = None -> an_expire s !! r = None.
Proof. intros H Hr. apply eq_None_not_Some. intros (x & Hx & _)%(timer_zero e s r H). congruence. Qed.
Lemma expire_count e s r x : inv e s -> an_remotes s !! r = Some x ->
  an_expire s !! r = if ar_count x =? 0 then an_expire s !! r else None.
Proof.
  intros H Hx. destruct (Z.eqb_spec (ar_count x) 0); [done|]. apply eq_None_not_Some. intros (y & Hy & Hy0)%(timer_zero e s r H). congruence.
Qed.

(** Dropping the client that a server process had, and giving it another or none. *)
Lemma drop_link_ok e s a fd c : inv e s -> abs s a -> an_streams s !! fd = Some c ->
  exists s1, match linkof c with Some r => ANVIL_REMOTE_DROP_ONE var_anvil_time_unit r s | None => Ret s end = Ret s1
    /\ an_present s <= an_present s1 /\ an_streams s1 = an_streams s
    /\ inv None (set_local fd (mk_local e) s1)
    /\ abs (set_local fd (mk_local e) s1) (sp_link (an_present s1) fd (ident_of (an_remotes s) (Some (mk_local e))) a)
    /\ (forall r, ar_ident <$> an_remotes s1 !! r = ar_ident <$> an_remotes s !! r).
Proof.
  intros H Ha Hc. pose proof (proj2 (inv_clock _ _ _ H)) as Hck. pose proof (link_links e s a fd c H Ha Hc) as Hll.
  pose proof (inv_count _ _ _ H) as Hcnt. set (streams := <[fd:=Some (mk_local e)]> (an_streams s)) in *.
  destruct (linkof c) as [r'|] eqn:El.
  - destruct (inv_live _ _ _ H r') as [x' Hx']; [right; eauto|]. unfold ANVIL_REMOTE_DROP_ONE, remote_at. rewrite Hx'. cbn [mbind outcome_bind].
    assert (Hpos : 1 <= ar_count x').
    { specialize (Hcnt r' x' Hx'). specialize (Hll r'). pose proof (links_bounds r' streams). dec_lia. }
    rewrite (proj2 (Z.ltb_lt _ _)) by lia. set (s2 := set_remote r' _ s).
    set (finish := fun now l => with_expire (if ar_count x' - 1 =? 0 then <[r' := now + var_anvil_time_unit]> (an_expire s) else an_expire s)
      (with_remotes (<[r' := set_count (ar_count x' - 1) x']> (an_remotes s)) (an_fresh s) (with_present now l s))).
    assert (Es1 : exists now l, (if ar_count x' - 1 =? 0 then request_expire var_anvil_time_unit r' s2 else Ret s2) = Ret (finish now l)
      /\ an_present s <= now /\ clock_from now l).
    { unfold finish. destruct (ar_count x' - 1 =? 0).
      - destruct (event_due_ok var_anvil_time_unit s2) as (now & l & E & Hn & Hl); [lia|done|]. exists now, l. unfold request_expire. by rewrite E.
      - exists (an_present s), (an_readings s). split_and!; [|lia|done]. by destruct s. }
    destruct Es1 as (now & l & -> & Hn & Hl). exists (finish now l).
    destruct (link_core e s a fd c H Ha Hc now l (an_remotes (finish now l)) (an_expire (finish now l)) Hn Hl) as [Hi Hb].
    { intros r. cbn. rewrite (insert_as_fmap _ r' x' _ r Hx'). destruct (an_remotes s !! r) as [x|] eqn:Ex; [|done]. cbn. f_equal.
      specialize (Hcnt r x Ex). specialize (Hll r). fold streams. destruct (decide (r = r')) as [->|Hne]; [simplify_eq; f_equal; dec_lia|].
      symmetry. apply set_count_id. dec_lia. }
    { intros r. cbn. fold streams. destruct (an_remotes s !! r) as [x|] eqn:Ex; cbn.
      - specialize (Hcnt r x Ex). specialize (Hll r). destruct (decide (r = r')) as [->|Hne].
        + simplify_eq. replace (links r' streams) with (ar_count x' - 1) by dec_lia.
          rewrite (proj2 (Z.eqb_neq (ar_count x') 0)) by lia.
          destruct (ar_count x' - 1 =? 0); [by rewrite lookup_insert_eq|]. rewrite (expire_count e s r' x' H Hx'). by rewrite (proj2 (Z.eqb_neq (ar_count x') 0)) by lia.
        + replace (links r streams) with (ar_count x) by dec_lia.
          transitivity (an_expire s !! r); [destruct (_ - 1 =? 0); [by rewrite lookup_insert_ne|done]|]. pose proof (expire_count e s r x H Ex) as Ee.
          by destruct (ar_count x =? 0).
      - transitivity (an_expire s !! r); [|by eapply expire_none]. destruct (_ - 1 =? 0); [|done]. rewrite lookup_insert_ne; [done|]. congruence. }
    split_and!; [done..|]. intros r. cbn. rewrite (insert_as_fmap _ r' x' _ r Hx'). destruct (an_remotes s !! r) eqn:Er; [|done]. cbn.
    case_decide; [subst; by simplify_eq|done].
  - exists s. destruct (link_core e s a fd c H Ha Hc (an_present s) (an_readings s) (an_remotes s) (an_expire s) ltac:(lia) Hck) as [Hi Hb].
    { intros r. destruct (an_remotes s !! r) as [x|] eqn:Ex; [|done]. cbn. f_equal. symmetry. apply set_count_id.
      fold streams. specialize (Hcnt r x Ex). specialize (Hll r). dec_lia. }
    { intros r. destruct (an_remotes s !! r) as [x|] eqn:Ex; cbn; [|by eapply expire_none].
      specialize (Hcnt r x Ex). specialize (Hll r). fold streams. replace (links r streams) with (ar_count x) by dec_lia.
      pose proof (expire_count e s r x H Ex) as Ee. by destruct (ar_count x =? 0). }
    split_and!; [done|lia|done| | |done]; by destruct s.
Qed.

(** ** Requests *)

Lemma conn_update_ok s a fd c ident : inv None s -> abs s a -> an_streams s !! fd = Some c ->
  exists r s', anvil_remote_conn_update var_anvil_time_unit fd ident s = Ret (r, s') /\ inv None s'
    /\ abs s' (sp_connect var_anvil_time_unit (an_present s) (an_present s') fd ident a)
    /\ an_present s <= an_present s' /\ ar_ident <$> an_remotes s' !! r = Some ident.
Proof.
  intros H Ha Hc. destruct (count_connection_ok s a ident H Ha) as (r & s1 & E1 & H1 & Ha1 & Ep & Est & Er).
  rewrite <- Est in Hc. destruct (drop_link_ok (Some r) s1 _ fd c H1 Ha1 Hc) as (s2 & E2 & Hp & Est2 & H2 & Ha2 & Hid).
  unfold anvil_remote_conn_update. rewrite E1. cbn [mbind outcome_bind]. unfold vstream_context. rewrite Hc. cbn [mbind outcome_bind].
  unfold ANVIL_LOCAL_ADD_ONE. replace (al_remote (default ANVIL_LOCAL_INIT c)) with (linkof c) by (by destruct c). rewrite E2. cbn [mbind outcome_bind].
  exists r. eexists. split; [reflexivity|]. split_and!; [exact H2| |cbn; lia|cbn; by rewrite Hid].
  replace (ident_of (an_remotes s1) (Some (mk_local (Some r)))) with (Some ident) in Ha2 by (unfold ident_of; cbn; by rewrite Er).
  exact Ha2.
Qed.

Lemma max_update_ok s a k v ident : inv None s -> abs s a ->
  let s' := ANVIL_MAX_UPDATE k v ident s in inv None s' /\ abs s' a /\ an_remotes s' = an_remotes s /\ an_present s' = an_present s.
Proof.
  intros H Ha. cbn zeta. unfold ANVIL_MAX_UPDATE. destruct (v >? _); [|done].
  split_and!; [|by destruct Ha; split|done..]. destruct H as [Hclk Hlim Htab Hfr Hcnt Hlive Htim Hdue Hcl Hidle Hmax]. split; try done.
  intros k'. cbn. case_decide; [by eexists|apply Hmax].
Qed.

(** What a reply says of a client. *)
Lemma reply_fields s a r ident : inv None s -> abs s a -> ar_ident <$> an_remotes s !! r = Some ident -> exists x,
  an_remotes s !! r = Some x /\ ar_ident x = ident /\ ar_count x = sp_count ident (sp_links a)
  /\ (forall k, ar_rates x k = sp_rate (sp_window ident a) k) /\ is_Some (sp_windows a !! ident).
Proof.
  intros H Ha (x & Hx & ->)%fmap_Some. exists x. destruct (known_window None s a r x H Ha Hx) as (Ew & Hw & _).
  split_and!; [done..|by apply (count_eq s a r)|done|by eexists].
Qed.

(** A handler that answers as the specification does. *)
Definition answers (s : anvil) (a : spec) (out : outcome (reply * anvil)) (kind : request_kind) (fd : nat) (ident : bytes) : Prop :=
  exists rep s' d a', out = Ret (rep, s') /\ an_present s <= d <= an_present s'
    /\ sp_request var_anvil_time_unit (an_present s) d (an_present s') kind fd ident a = (rep, a') /\ inv None s' /\ abs s' a'.

Lemma connect_ok s a fd c ident : inv None s -> abs s a -> an_streams s !! fd = Some c ->
  answers s a (anvil_remote_connect var_anvil_time_unit fd ident s) Connect fd ident.
Proof.
  intros H Ha Hc. destruct (conn_update_ok s a fd c ident H Ha Hc) as (r & s1 & E1 & H1 & Ha1 & Hp & Er).
  destruct (reply_fields s1 _ r ident H1 Ha1 Er) as (x & Hx & Hi & Hcx & Hrx & _).
  unfold answers, anvil_remote_connect. rewrite E1. cbn [mbind outcome_bind]. unfold remote_at. rewrite Hx. cbn [mbind outcome_bind].
  destruct (max_update_ok s1 _ (MaxRate Rate) (ar_rates x Rate) (ar_ident x) H1 Ha1) as (H2 & Ha2 & _ & P2).
  destruct (max_update_ok _ _ MaxCount (ar_count x) (ar_ident x) H2 Ha2) as (H3 & Ha3 & _ & P3). rewrite P2 in P3.
  eexists _, _, (an_present s1), _. split; [reflexivity|]. rewrite P3. split; [lia|]. split; [|by split]. cbn [sp_request]. by rewrite Hcx, Hrx.
Qed.

Lemma register_ok s a fd c ident what : inv None s -> abs s a -> an_streams s !! fd = Some c ->
  answers s a (register_event var_anvil_time_unit what fd ident s) (Register what) fd ident.
Proof.
  intros H Ha Hc. unfold answers, register_event. destruct (client_find_ok None s ident H) as (p & E & Hp). rewrite E. cbn [mbind outcome_bind].
  assert (H1 : exists r s1, match p with None => anvil_remote_conn_update var_anvil_time_unit fd ident s | Some r => Ret (r, s) end = Ret (r, s1)
    /\ inv None s1 /\ abs s1 match sp_windows a !! ident with Some _ => a | None => sp_connect var_anvil_time_unit (an_present s) (an_present s1) fd ident a end
    /\ an_present s <= an_present s1 /\ ar_ident <$> an_remotes s1 !! r = Some ident).
  { destruct p as [r|].
    - destruct Hp as (x & Hx & <-). exists r, s. rewrite (proj1 (known_window None s a r x H Ha Hx)), Hx. by split_and!.
    - rewrite (unknown_window s a ident Ha Hp). by apply (conn_update_ok s a fd c). }
  destruct H1 as (r & s1 & -> & H1 & Ha1 & Hp1 & (x & Hx & Hi)%fmap_Some). cbn [mbind outcome_bind].
  destruct (incr_ok None s1 _ r x what H1 Ha1 Hx) as (-> & H2 & Ha2). cbn [mbind outcome_bind]. set (s2 := set_remote r _ s1) in *.
  rewrite <- Hi in Ha2. destruct (reply_fields s2 _ r ident H2 Ha2) as (y & Hy & Hiy & _ & Hry & _).
  { cbn. rewrite lookup_insert_eq. cbn. by rewrite (proj1 (incr_rate_fields _ _ _)), Hi. }
  unfold remote_at. rewrite Hy. cbn [mbind outcome_bind].
  destruct (max_update_ok s2 _ (MaxRate what) (ar_rates y what) (ar_ident y) H2 Ha2) as (H3 & Ha3 & _ & P3).
  eexists _, _, (an_present s1), _. split; [reflexivity|]. rewrite P3. split; [cbn; lia|]. split; [|by split]. cbn [sp_request]. by rewrite Hry.
Qed.

Lemma insert_same (a : spec) ident : is_Some (sp_windows a !! ident) -> sp_set ident (sp_window ident a) a = a.
Proof. intros [w E]. unfold sp_set, sp_window. rewrite E. cbn. rewrite insert_id by done. by destruct a. Qed.

Lemma reset_stale_ok s a r x : inv None s -> abs s a -> an_remotes s !! r = Some x -> exists s',
  reset_stale var_anvil_time_unit r s = Ret s' /\ inv None s' /\ an_present s' = an_present s
  /\ abs s' (sp_set (ar_ident x) (sp_current (an_present s) (sp_window (ar_ident x) a)) a) /\ ar_ident <$> an_remotes s' !! r = Some (ar_ident x).
Proof.
  intros H Ha Hx. destruct (known_window None s a r x H Ha Hx) as [Ew (Hr & Hst & Hp)]. unfold reset_stale, remote_at. rewrite Hx. cbn [mbind outcome_bind].
  set (w := sp_window (ar_ident x) a) in *.
  assert (Hcase : negb (ar_start x =? 0) && (ar_start x + var_anvil_time_unit <? event_time s) = true /\ sp_current (an_present s) w = []
    \/ negb (ar_start x =? 0) && (ar_start x + var_anvil_time_unit <? event_time s) = false /\ sp_current (an_present s) w = w).
  { rewrite Hst. destruct w as [|[k t] w']; [by right|]. apply Forall_cons in Hp as [Hp _]. cbn in Hp |- *.
    rewrite (proj2 (Z.eqb_neq t 0)) by lia. cbn. unfold event_time. destruct (_ <? an_present s); [by left|by right]. }
  destruct Hcase as [[-> ->]|[-> ->]]; cbn [mbind outcome_bind].
  - destruct (set_window_ok None s a r x (ANVIL_REMOTE_RSET_RATE 0 x) [] H Ha Hx) as [H1 Ha1]; [done..|by repeat split|].
    eexists. split; [reflexivity|]. split_and!; [done..|]. cbn. by rewrite lookup_insert_eq.
  - exists s. unfold w. rewrite insert_same by (rewrite Ew; by eexists). split_and!; [done..|]. by rewrite Hx.
Qed.

Lemma report_ok s a fd ident : inv None s -> abs s a ->
  answers s a (anvil_remote_newtls_stat var_anvil_time_unit fd ident s) Report fd ident.
Proof.
  intros H Ha. unfold answers, anvil_remote_newtls_stat. destruct (client_find_ok None s ident H) as (p & E & Hp). rewrite E. cbn [mbind outcome_bind].
  destruct p as [r|].
  - destruct Hp as (x & Hx & <-). destruct (reset_stale_ok s a r x H Ha Hx) as (s1 & -> & H1 & P1 & Ha1 & Er). cbn [mbind outcome_bind].
    destruct (reply_fields s1 _ r _ H1 Ha1 Er) as (y & Hy & _ & _ & Hry & _). unfold remote_at. rewrite Hy. cbn [mbind outcome_bind].
    eexists _, s1, (an_present s), _. split; [reflexivity|]. rewrite P1. split; [lia|]. split; [|by split].
    cbn [sp_request]. rewrite (proj1 (known_window None s a r x H Ha Hx)), Hry. done.
  - eexists _, s, (an_present s), a. split; [reflexivity|]. split; [lia|]. split; [|by split].
    cbn [sp_request]. by rewrite (unknown_window s a ident Ha Hp).
Qed.

Lemma lookup_ok s a fd ident : inv None s -> abs s a ->
  answers s a (anvil_remote_lookup var_anvil_time_unit fd ident s) Lookup fd ident.
Proof.
  intros H Ha. unfold answers, anvil_remote_lookup. destruct (client_find_ok None s ident H) as (p & E & Hp). rewrite E. cbn [mbind outcome_bind].
  destruct p as [r|].
  - destruct Hp as (x & Hx & <-). destruct (reset_stale_ok s a r x H Ha Hx) as (s1 & -> & H1 & P1 & Ha1 & Er). cbn [mbind outcome_bind].
    destruct (reply_fields s1 _ r _ H1 Ha1 Er) as (y & Hy & _ & Hcy & Hry & _). unfold remote_at. rewrite Hy. cbn [mbind outcome_bind].
    eexists _, s1, (an_present s), _. split; [reflexivity|]. rewrite P1. split; [lia|]. split; [|by split].
    cbn [sp_request]. rewrite (proj1 (known_window None s a r x H Ha Hx)), Hcy. unfold lookup_reply. by rewrite !Hry.
  - eexists _, s, (an_present s), a. split; [reflexivity|]. split; [lia|]. split; [|by split].
    cbn [sp_request]. by rewrite (unknown_window s a ident Ha Hp).
Qed.

(** *** Disconnecting *)

Lemma sp_linked s a fd c ident : inv None s -> abs s a -> an_streams s !! fd = Some c ->
  sp_links a !! fd = Some (Some ident) <-> exists r x, linkof c = Some r /\ an_remotes s !! r = Some x /\ ar_ident x = ident.
Proof.
  intros H Ha Hc. rewrite (abs_links _ _ _ Ha), lookup_fmap, Hc. cbn. unfold ident_of. split.
  - intros [= E]. apply bind_Some in E as (r & El & E). apply fmap_Some in E as (x & Hx & ->). by exists r, x.
  - intros (r & x & -> & Hx & <-). cbn. by rewrite Hx.
Qed.

Lemma disconnect_linked_ok s a fd c r x : inv None s -> abs s a -> an_streams s !! fd = Some c -> linkof c = Some r -> an_remotes s !! r = Some x ->
  exists s', anvil_remote_disconnect var_anvil_time_unit fd (ar_ident x) s = Ret ([attr_status ANVIL_STAT_OK], s')
    /\ an_present s <= an_present s' /\ inv None s' /\ abs s' (sp_link (an_present s') fd None a)
    /\ an_streams s' !! fd = Some (Some (mk_local None)).
Proof.
  intros H Ha Hc El Hx. destruct (drop_link_ok None s a fd c H Ha Hc) as (s1 & E1 & Hp & Est & H1 & Ha1 & _). rewrite El in E1.
  unfold anvil_remote_disconnect, vstream_context. rewrite Hc. cbn [mbind outcome_bind]. destruct c as [local|]; [|done].
  destruct (client_find_ok None s (ar_ident x) H) as (p & E & Hp'). rewrite E. cbn [mbind outcome_bind].
  destruct p as [r'|]; [|by destruct (Hp' r x)]. destruct Hp' as (x' & Hx' & Ei).
  assert (r' = r) as -> by (by apply (inv_unique None s r' r x' x)). unfold ANVIL_LOCAL_REMOTE_LINKED at 1. change (linkof (Some local)) with (al_remote local) in El.
  rewrite El, bool_decide_true by done. rewrite E1. cbn [mbind outcome_bind]. unfold ANVIL_LOCAL_DROP_ONE, ANVIL_LOCAL_REMOTE_LINKED.
  rewrite El, bool_decide_true by done. eexists. split; [reflexivity|]. split_and!; [done..|]. cbn. by rewrite lookup_insert_eq.
Qed.

Lemma disconnect_ok s a fd c ident : inv None s -> abs s a -> an_streams s !! fd = Some c ->
  answers s a (anvil_remote_disconnect var_anvil_time_unit fd ident s) Disconnect fd ident.
Proof.
  intros H Ha Hc. pose proof (sp_linked s a fd c ident H Ha Hc) as Hl. unfold answers. cbn [sp_request].
  destruct (decide (sp_links a !! fd = Some (Some ident))) as [Hy|Hn].
  - apply Hl in Hy as (r & x & El & Hx & <-). destruct (disconnect_linked_ok s a fd c r x H Ha Hc El Hx) as (s' & E & Hp & H1 & Ha1 & _).
    eexists _, s', (an_present s'), _. split; [exact E|]. split; [lia|]. by split_and!.
  - eexists _, s, (an_present s), a. split; [|split; [lia|by split_and!]]. unfold anvil_remote_disconnect, vstream_context. rewrite Hc. cbn [mbind outcome_bind].
    destruct c as [local|]; [|done]. destruct (client_find_ok None s ident H) as (p & E & Hp). rewrite E. cbn [mbind outcome_bind].
    destruct p as [r|]; [|done]. destruct Hp as (x & Hx & Ei). unfold ANVIL_LOCAL_REMOTE_LINKED. rewrite bool_decide_false; [done|].
    intros El. apply Hn, Hl. by exists r, x.
Qed.

Lemma service_done_ok s a fd c : inv None s -> abs s a -> an_streams s !! fd = Some c ->
  exists out s' d a', anvil_service_done var_anvil_time_unit fd s = Ret (out, s') /\ an_present s <= d <= an_present s'
    /\ sp_close d fd a = (out, mk_spec (delete fd (sp_links a')) (sp_windows a') (sp_since a')) /\ inv None s' /\ abs s' a'
    /\ exists c', an_streams s' !! fd = Some c' /\ linkof c' = None.
Proof.
  intros H Ha Hc. unfold anvil_service_done, vstream_context. rewrite Hc. cbn [mbind outcome_bind].
  assert (Hnone : linkof c = None -> sp_close (an_present s) fd a = ([], mk_spec (delete fd (sp_links a)) (sp_windows a) (sp_since a))).
  { intros El. unfold sp_close. rewrite (abs_links _ _ _ Ha), lookup_fmap, Hc. cbn. unfold ident_of. by rewrite El. }
  destruct c as [local|].
  - unfold ANVIL_LOCAL_DROP_ALL. destruct (al_remote local) as [r|] eqn:El.
    + destruct (inv_live _ _ _ H r) as [x Hx]; [right; by exists fd, (Some local)|]. unfold remote_at. rewrite Hx. cbn [mbind outcome_bind].
      destruct (disconnect_linked_ok s a fd (Some local) r x H Ha Hc El Hx) as (s' & E & Hp & H1 & Ha1 & Hc'). rewrite E. cbn [mbind outcome_bind].
      eexists _, s', (an_present s'), _. split; [reflexivity|]. split; [lia|]. split; [|split_and!; [exact H1|exact Ha1|by eexists]].
      unfold sp_close. rewrite (proj2 (sp_linked s a fd (Some local) (ar_ident x) H Ha Hc)); [done|by exists r, x].
    + eexists _, s, (an_present s), a. split; [reflexivity|]. split; [lia|]. split; [by apply Hnone|]. split_and!; [done..|by eexists].
  - eexists _, s, (an_present s), a. split; [reflexivity|]. split; [lia|]. split; [by apply Hnone|]. split_and!; [done..|by eexists].
Qed.

(** ** The server *)

(** A step that leaves the clients alone. *)
Lemma frame_inv s s' : inv None s -> an_remotes s' = an_remotes s -> an_expire s' = an_expire s ->
  an_remote_map s' = an_remote_map s -> an_fresh s' = an_fresh s -> an_idle_limit s' = an_idle_limit s ->
  an_present s <= an_present s' -> clock_from (an_present s') (an_readings s') ->
  links_live (an_streams s') (an_remotes s) -> (forall r, links r (an_streams s') = links r (an_streams s)) ->
  an_client_count s' = Z.of_nat (size (an_streams s')) /\ an_client_count s' < INT_MAX ->
  (forall idle, an_idle s' = Some idle -> an_streams s' = ∅ /\ forall r due, an_expire s !! r = Some due -> due <= idle) ->
  (forall k, am_value (an_max s' k) > 0 -> is_Some (am_ident (an_max s' k))) -> inv None s'.
Proof.
  intros H Er Ee Em Ef El Hp Hc Hll Hl Hcl Hi Hm. apply (update_inv None None s s' (fun _ x => x)); try done.
  - intros r. rewrite Er. by destruct (an_remotes s !! r).
  - intros r x Hx. rewrite Hl, Ee. split; [by apply (inv_count _ _ _ H)|]. rewrite (inv_timers _ _ _ H). naive_solver.
  - intros r due. rewrite Ee. intros Hr. destruct (timer_zero None s r H) as (x & Hx & _); [by eexists|].
    split; [by eexists|]. pose proof (inv_due _ _ _ H r due Hr). lia.
  - intros idle Hid. rewrite Ee. by apply Hi.
Qed.
Lemma frame_abs s s' a a' : abs s a -> an_remotes s' = an_remotes s -> an_expire s' = an_expire s ->
  sp_links a' = ident_of (an_remotes s) <$> an_streams s' -> sp_windows a' = sp_windows a -> sp_since a' = sp_since a -> abs s' a'.
Proof. intros [Hl Hw Hk Hs'] Er Ee El Ew Es. split; rewrite ?Er, ?Ee, ?Ew, ?Es; done. Qed.

Lemma no_streams s : inv None s -> an_client_count s = 0 -> an_streams s = ∅.
Proof. intros H Hz. apply map_size_empty_iff. pose proof (inv_clients _ _ _ H). lia. Qed.

Lemma close_ok s a fd c : inv None s -> abs s a -> an_streams s !! fd = Some c ->
  exists out s' d a', multi_server_disconnect var_anvil_time_unit fd s = Ret (out, s') /\ an_present s <= d <= an_present s'
    /\ sp_close d fd a = (out, a') /\ inv None s' /\ abs s' a'.
Proof.
  intros H Ha Hc. destruct (service_done_ok s a fd c H Ha Hc) as (out & s1 & d & a1 & E & Hd & Ec & H1 & Ha1 & c1 & Hc1 & El).
  unfold multi_server_disconnect. rewrite E. cbn [mbind outcome_bind].
  cbv zeta. change (an_client_count (with_streams _ s1)) with (an_client_count s1).
  set (s2 := with_counts _ _ _). pose proof (inv_clients _ _ _ H1) as [Hcl Hmax]. pose proof (inv_clock _ _ _ H1) as [_ Hck].
  set (streams := delete fd (an_streams s1)).
  assert (Hsz : Z.of_nat (size streams) = an_client_count s1 - 1).
  { unfold streams. rewrite map_size_delete_Some by eauto.
    assert (size (an_streams s1) <> 0%nat) by (intros E0; apply map_size_empty_iff in E0; rewrite E0 in Hc1; done). lia. }
  assert (Hlk : forall r, links r streams = links r (an_streams s1)).
  { intros r. unfold links, streams. rewrite (map_sum_delete _ _ _ _ Hc1), El, decide_False by done. lia. }
  assert (Hll : links_live streams (an_remotes s1)).
  { intros fd' c' r [_ Hc']%lookup_delete_Some. by apply (inv_links_live None s1 H1 fd' c'). }
  assert (Hidle : an_idle s1 = None).
  { destruct (an_idle s1) as [i|] eqn:Ei; [|done]. destruct (inv_idle _ _ _ H1 i Ei) as [E0 _]. rewrite E0 in Hc1. done. }
  assert (E3 : exists now l idle, (if an_client_count s1 - 1 =? 0 then request_idle (an_idle_limit s2) s2 else Ret s2)
      = Ret (with_idle idle (with_present now l s2)) /\ an_present s1 <= now /\ clock_from now l
      /\ (forall i, idle = Some i -> an_client_count s1 = 1 /\ an_present s1 + var_anvil_time_unit <= i)).
  { pose proof (inv_limit _ _ _ H1) as Hlim. destruct (Z.eqb_spec (an_client_count s1 - 1) 0) as [Hz|Hz].
    - destruct (event_due_ok (an_idle_limit s2) s2) as (now & l & Ee & Hn & Hl); [cbn; lia|done|]. cbn in Hn.
      exists now, l, (Some (now + an_idle_limit s2)). unfold request_idle. rewrite Ee. split_and!; [done..|].
      intros i [= <-]. cbn. lia.
    - exists (an_present s1), (an_readings s1), None. split_and!; [|lia|done..]. cbn. rewrite <- Hidle. done. }
  destruct E3 as (now & l & idle & -> & Hn & Hl & Hi). cbn [mbind outcome_bind].
  eexists out, _, d, _. split; [reflexivity|]. split; [cbn; lia|]. split; [exact Ec|]. split.
  - apply (frame_inv s1); try done; [cbn; fold streams; lia| |apply H1]. cbn. intros i [Hi1 Hi2]%Hi. split.
    + fold streams. apply map_size_empty_iff. lia.
    + intros r due Hr. pose proof (inv_due _ _ _ H1 r due Hr). lia.
  - apply (frame_abs s1 _ a1); try done. cbn. fold streams. unfold streams. by rewrite fmap_delete, (abs_links _ _ _ Ha1).
Qed.

Lemma accept_ok s a fd : inv None s -> abs s a ->
  match fd with Some fd => an_streams s !! fd = None /\ Z.of_nat (size (an_streams s)) < INT_MAX - 1 | None => True end ->
  exists s', multi_server_accept_local fd s = Ret s' /\ an_present s <= an_present s' /\ inv None s'
    /\ abs s' match fd with Some fd => mk_spec (<[fd := None]> (sp_links a)) (sp_windows a) (sp_since a) | None => a end.
Proof.
  intros H Ha Hfd. unfold multi_server_accept_local. pose proof (inv_clock _ _ _ H) as [_ Hck].
  pose proof (inv_limit _ _ _ H) as Hlim. pose proof (inv_clients _ _ _ H) as [Hcl Hmax]. pose proof (inv_links_live _ _ H) as Hll.
  rewrite (proj2 (Z.ltb_lt 0 (an_idle_limit s))) by lia. rewrite andb_true_r.
  assert (Hbusy : an_client_count s <> 0 -> an_idle s = None).
  { intros Hz. destruct (an_idle s) as [i|] eqn:Ei; [|done]. destruct (inv_idle _ _ _ H i Ei) as [E0 _]. by rewrite E0 in Hcl. }
  destruct fd as [fd|].
  - destruct Hfd as [Hn Hsz]. set (streams := <[fd := None]> (an_streams s)).
    assert (Hlk : forall r, links r streams = links r (an_streams s)) by (intros r; unfold links, streams; by rewrite map_sum_insert_new).
    assert (Hll' : links_live streams (an_remotes s)).
    { intros fd' c r [[<- <-]|[_ Hc]]%lookup_insert_Some Hr; [done|by eapply Hll]. }
    assert (Es : exists time_left, (if an_client_count s =? 0 then cancel_idle s else (-1, s)) = (time_left, with_idle None s)).
    { destruct (Z.eqb_spec (an_client_count s) 0) as [|Hz]; [by eexists|]. exists (-1). specialize (Hbusy Hz). destruct s; cbn in *. by subst. }
    destruct Es as [time_left ->]. eexists. split; [reflexivity|]. split; [cbn; lia|]. split.
    + apply (frame_inv s); try done; [|apply H]. cbn. fold streams. unfold streams. rewrite map_size_insert_None by done. lia.
    + apply (frame_abs s _ a); try done. cbn. by rewrite fmap_insert, (abs_links _ _ _ Ha).
  - destruct (Z.eqb_spec (an_client_count s) 0) as [Hz|Hz]; [|by exists s]. cbn [cancel_idle].
    destruct (an_idle s) as [due|] eqn:Ei.
    + rewrite (proj2 (Z.geb_le _ 0)) by lia.
      destruct (event_due_ok (Z.max 0 (due - an_present s)) (with_idle None s)) as (now & l & E & Hn & Hl); [lia|done|]. cbn in Hn.
      unfold request_idle. rewrite E. cbn [mbind outcome_bind]. eexists. split; [reflexivity|]. split; [done|].
      destruct (inv_idle _ _ _ H due Ei) as [E0 Hd]. split; [apply (frame_inv s); try done; [|apply H]|by apply (frame_abs s _ a); [..|apply (abs_links _ _ _ Ha)| |]].
      cbn. intros i [= <-]. split; [done|]. intros r dr Hr. specialize (Hd r dr Hr). lia.
    + cbn. eexists. split; [reflexivity|]. split; [cbn; lia|].
      split; [by apply (frame_inv s); [..|apply H]|by apply (frame_abs s _ a); [..|apply (abs_links _ _ _ Ha)| |]].
Qed.

Lemma expire_ok s a r due : inv None s -> abs s a -> an_expire s !! r = Some due -> due <= an_present s ->
  exists s' ident since, anvil_remote_expire r (cancel_expire r s) = Ret s' /\ an_present s' = an_present s /\ inv None s'
    /\ sp_since a !! ident = Some since /\ since + var_anvil_time_unit <= an_present s /\ sp_count ident (sp_links a) = 0
    /\ abs s' (mk_spec (sp_links a) (delete ident (sp_windows a)) (delete ident (sp_since a))).
Proof.
  intros H Ha Hr Hdue. destruct (timer_zero None s r H) as (x & Hx & Hx0); [by eexists|].
  unfold anvil_remote_expire, remote_at. cbn [cancel_expire with_expire an_remotes]. rewrite Hx. cbn [mbind outcome_bind].
  rewrite (proj2 (Z.eqb_eq _ _) Hx0). cbn [negb an_remote_map with_expire cancel_expire].
  destruct (inv_table _ _ _ H) as (m & Hrep & Hm).
  destruct (delete_rep _ m (ar_ident x) r Hrep) as (table & E & Hrep'); [apply Hm; eauto|]. rewrite E. cbn [mbind outcome_bind].
  pose proof (abs_since _ _ _ Ha r x Hx) as Hsi. rewrite Hr in Hsi. apply fmap_Some in Hsi as (since & Hsi & Ed).
  assert (Hnl : forall fd c, an_streams s !! fd = Some c -> linkof c <> Some r).
  { intros fd c Hc El. pose proof (inv_count _ _ _ H r x Hx) as Hcx. rewrite decide_False in Hcx by done.
    pose proof (map_sum_ge (fun c => if decide (linkof c = Some r) then 1 else 0) (an_streams s) fd c) as Hg.
    cbn in Hg. rewrite decide_True in Hg by done. enough (1 <= links r (an_streams s)) by lia. apply Hg; [|done].
    intros c'. case_decide; lia. }
  eexists _, (ar_ident x), since. split; [reflexivity|]. split; [done|]. split; [|split; [done|split; [lia|split]]].
  - destruct H as [Hclk Hlim Htab Hfr Hcnt Hlive Htim Hdu Hcl Hidle Hmax]. split; cbn; try done.
    + eexists. split; [exact Hrep'|]. intros i y. rewrite lookup_delete_Some, Hm. split.
      * intros (Hi & z & Hz & <-). exists z. rewrite lookup_delete_ne; [done|]. intros ->. by simplify_eq.
      * intros (z & [Hy Hz]%lookup_delete_Some & <-). split; [|eauto]. intros Ei. apply Hy.
        assert (m !! ar_ident z = Some y) by (apply Hm; eauto). assert (m !! ar_ident x = Some r) by (apply Hm; eauto). congruence.
    + intros y [z [_ Hz]%lookup_delete_Some]. apply Hfr. by eexists.
    + intros y z [_ Hz]%lookup_delete_Some. by apply Hcnt.
    + intros y [[=]|(fd & c & Hc & El)]. rewrite lookup_delete_ne; [apply Hlive; right; eauto|]. intros ->. by eapply Hnl.
    + intros y. destruct (decide (r = y)) as [<-|Hy].
      * rewrite !lookup_delete_eq. split; [by intros []|by intros (? & ? & _)].
      * rewrite !lookup_delete_ne by done. apply Htim.
    + intros y d [_ Hy]%lookup_delete_Some. by eapply Hdu.
    + intros i Hi. destruct (Hidle i Hi) as [E0 Hd]. split; [done|]. intros y d [_ Hy]%lookup_delete_Some. by eapply Hd.
  - rewrite <- (count_eq s a r x); done.
  - split; cbn.
    + rewrite (abs_links _ _ _ Ha). symmetry. apply ident_of_ext. intros fd c y Hc El. rewrite lookup_delete_ne; [done|]. intros ->. by eapply Hnl.
    + intros y z [Hy Hz]%lookup_delete_Some. rewrite lookup_delete_ne; [by apply (abs_windows _ _ _ Ha y)|].
      intros Ei. apply Hy. by apply (inv_unique None s r y x z).
    + intros i [w [Hi Hw]%lookup_delete_Some]. destruct (abs_known _ _ _ Ha i) as (y & z & Hz & Ez); [by eexists|].
      exists y, z. rewrite lookup_delete_ne; [done|]. intros ->. by simplify_eq.
    + intros y z [Hy Hz]%lookup_delete_Some. rewrite !lookup_delete_ne; [by apply (abs_since _ _ _ Ha)|done|].
      intros Ei. apply Hy. by apply (inv_unique None s r y x z).
Qed.

Lemma report_all_ok l : forall s a, inv None s -> abs s a ->
  exists reps s', report_all l s = Ret (reps, s') /\ an_present s' = an_present s /\ inv None s' /\ abs s' a.
Proof.
  induction l as [|k l IH]; intros s a H Ha; [by eexists _, s|]. cbn.
  assert (E : exists rep s', ANVIL_MAX_REPORT k s = Ret (rep, s') /\ an_present s' = an_present s /\ inv None s' /\ abs s' a).
  { unfold ANVIL_MAX_REPORT. destruct (Z.gtb_spec (am_value (an_max s k)) 0) as [Hv|Hv]; [|by eexists _, s].
    destruct (inv_max _ _ _ H k) as [ident Ei]; [lia|]. rewrite Ei. eexists _, _. split; [reflexivity|]. split; [done|].
    split; [|apply (frame_abs s _ a); try done; apply (abs_links _ _ _ Ha)].
    apply (frame_inv s); try done; try exact (inv_links_live _ s H); try apply H. intros k'. cbn. case_decide; [cbn; lia|apply H]. }
  destruct E as (rep & s1 & -> & P1 & H1 & Ha1). cbn [mbind outcome_bind].
  destruct (IH s1 a H1 Ha1) as (reps & s2 & -> & P2 & H2 & Ha2). cbn [mbind outcome_bind]. exists (rep ++ reps), s2. by rewrite P2, P1.
Qed.

Lemma status_ok s a : inv None s -> abs s a ->
  exists s', anvil_status_update var_anvil_stat_time (with_status None s) = Ret s' /\ an_present s <= an_present s' /\ inv None s' /\ abs s' a.
Proof.
  intros H Ha. destruct (report_all_ok ANVIL_MAX_KINDS (with_status None s) a) as (reps & s1 & E & P1 & H1 & Ha1).
  { apply (frame_inv s); try done; try exact (inv_links_live _ s H); try apply H. } { apply (frame_abs s _ a); try done; apply (abs_links _ _ _ Ha). }
  unfold anvil_status_update, anvil_status_dump. rewrite E. cbn [mbind outcome_bind].
  set (s2 := if fst (an_max_cache s1) >? 0 then with_max (an_max s1) (0, snd (an_max_cache s1)) s1 else s1).
  assert (E2 : exists x, (if fst (an_max_cache s1) >? 0 then (reps, Some (fst (an_max_cache s1)), with_max (an_max s1) (0, snd (an_max_cache s1)) s1)
    else (reps, None, s1)) = (x, s2)) by (unfold s2; case_match; by eexists).
  destruct E2 as [x ->]. assert (H2 : inv None s2 /\ abs s2 a /\ an_present s2 = an_present s1).
  { unfold s2. case_match; [|done]. split_and!; [destruct H1; by split|destruct Ha1; by split|done]. }
  destruct H2 as (H2 & Ha2 & P2). clearbody s2. unfold request_status.
  destruct (event_due_ok var_anvil_stat_time s2) as (now & l & Ed & Hn & Hl); [lia|apply (inv_clock _ _ _ H2)|].
  rewrite Ed. cbn [mbind outcome_bind]. eexists. split; [reflexivity|]. split; [cbn in *; lia|].
  split; [apply (frame_inv s2); try done; try exact (inv_links_live _ s2 H2); try apply H2|apply (frame_abs s2 _ a); try done; apply (abs_links _ _ _ Ha2)].
Qed.

(** *** Every event *)

(** An action of the program, and what the specification calls it. *)
Definition action_ok (p : bytes * (nat -> bytes -> anvil -> outcome (reply * anvil))) (q : bytes * request_kind) : Prop :=
  p.1 = q.1 /\ forall s a fd c ident, inv None s -> abs s a -> an_streams s !! fd = Some c -> answers s a (p.2 fd ident s) q.2 fd ident.

Lemma table_ok : Forall2 action_ok (request_table var_anvil_time_unit) sp_requests.
Proof.
  repeat constructor; intros s a fd c ident H Ha Hc;
    solve [by apply (connect_ok s a fd c)|by apply (register_ok s a fd c)|by apply (disconnect_ok s a fd c)|by apply report_ok|by apply lookup_ok].
Qed.

Lemma find_action_ok request l l' : Forall2 action_ok l l' ->
  match find_action request l, find_action request l' with
  | Some p, Some q => action_ok (request, p) (request, q)
  | None, None => True
  | _, _ => False
  end.
Proof.
  induction 1 as [|[n p] [n' q] l l' [En Hpq] _ IH]; [done|]. cbn in En. subst n'. cbn. by case_decide; [|].
Qed.

Lemma execute_ok s a fd c peek : inv None s -> abs s a -> an_streams s !! fd = Some c ->
  exists out s' a', multi_server_execute var_anvil_time_unit fd peek s = Ret (out, s') /\ inv None s' /\ abs s' a' /\ an_present s <= an_present s'
    /\ spec_step var_anvil_time_unit (an_present s) (an_present s') (Execute fd peek) a out a'.
Proof.
  intros H Ha Hc. destruct peek as [[[request ident]|]|].
  - unfold multi_server_execute, anvil_service, spec_step. pose proof (find_action_ok request _ _ table_ok) as Hf.
    destruct (find_action request (request_table _)) as [action|]; destruct (find_action request sp_requests) as [kind|] eqn:Ek; try done.
    + destruct Hf as [_ Hf]. destruct (Hf s a fd c ident H Ha Hc) as (rep & s' & d & a' & E & Hd & Er & H1 & Ha1). cbn in E. rewrite E. cbn [mbind outcome_bind].
      exists [rep], s', a'. split_and!; [done..|lia|]. exists d. split; [done|]. cbn in Er. by rewrite Er.
    + exists [[attr_status ANVIL_STAT_FAIL]], s, a. split_and!; [done..|lia|]. exists (an_present s). split; [lia|done].
  - destruct (close_ok s a fd c H Ha Hc) as (out & s' & d & a' & E & Hd & Er & H1 & Ha1). exists out, s', a'.
    split_and!; [exact E|done..|lia|]. exists d. split; [done|]. by rewrite Er.
  - destruct (close_ok s a fd c H Ha Hc) as (out & s' & d & a' & E & Hd & Er & H1 & Ha1). exists out, s', a'.
    split_and!; [exact E|done..|lia|]. exists d. split; [done|]. by rewrite Er.
Qed.

(** Every event that can happen is handled, as the specification says. *)
Lemma anvil_step_ok e s a : inv None s -> abs s a -> event_ok e s ->
  exists out s' a', handle var_anvil_time_unit var_anvil_stat_time e s = Ret (out, s') /\ inv None s' /\ abs s' a' /\ an_present s <= an_present s'
    /\ spec_step var_anvil_time_unit (an_present s) (an_present s') e a out a'.
Proof.
  intros H Ha He. destruct e as [now|fd|fd peek|r|]; cbn [handle event_ok] in *.
  - exists [], (with_present now [] s), a. split_and!; [done| | |done|by exists (an_present s)].
    + apply (frame_inv s); try done; try exact (inv_links_live _ s H); apply H.
    + apply (frame_abs s _ a); try done. apply (abs_links _ _ _ Ha).
  - destruct (accept_ok s a fd H Ha) as (s' & -> & Hp & H1 & Ha1); [by destruct fd|]. cbn [mbind outcome_bind].
    exists [], s'. eexists. split_and!; [done..|]. exists (an_present s). split; [lia|]. by destruct fd.
  - destruct He as [c Hc]. by apply (execute_ok s a fd c).
  - destruct He as (due & Hr & Hd). destruct (expire_ok s a r due H Ha Hr Hd) as (s' & ident & since & -> & Hp & H1 & Hsi & Hle & Hcn & Ha1).
    cbn [mbind outcome_bind]. exists [], s'. eexists. split_and!; [done..|lia|]. exists (an_present s). split; [lia|]. by exists ident, since.
  - destruct (status_ok s a H Ha) as (s' & -> & Hp & H1 & Ha1). cbn [mbind outcome_bind]. exists [], s', a.
    split_and!; [done..|]. exists (an_present s). split; [lia|done].
Qed.

Lemma clock_inv s a readings : inv None s -> abs s a -> readings_ok readings s ->
  inv None (with_present (an_present s) readings s) /\ abs (with_present (an_present s) readings s) a.
Proof.
  intros H Ha Hr. split.
  - apply (frame_inv s); try done; try exact (inv_links_live _ s H); apply H.
  - apply (frame_abs s _ a); try done. apply (abs_links _ _ _ Ha).
Qed.

Lemma init_ok now limit s : var_anvil_time_unit < now -> multi_server_main var_anvil_time_unit var_anvil_stat_time now limit = Ret s ->
  inv None s /\ abs s (mk_spec ∅ ∅ ∅) /\ now <= an_present s.
Proof.
  intros Hn. unfold multi_server_main, post_jail_init. set (lim := if limit <? _ then _ else _).
  assert (Hlim : var_anvil_time_unit <= lim) by (unfold lim; destruct (Z.ltb_spec limit var_anvil_time_unit); lia).
  clearbody lim. unfold request_status, event_due. rewrite (proj2 (Z.leb_le 0 var_anvil_stat_time)) by lia. cbn [mbind outcome_bind assert_or_panic].
  unfold read_clock. cbn [an_readings]. cbn [an_idle_limit with_status]. rewrite (proj2 (Z.ltb_lt 0 lim)) by lia.
  unfold request_idle, event_due. rewrite (proj2 (Z.leb_le 0 lim)) by lia. cbn. intros [= <-]. split; [|split; [|cbn; lia]].
  - split; cbn -[table_create table_rep]; try done.
    + exists ∅. split; [exact (create_rep 1000)|]. intros ident r. rewrite lookup_empty. split; [done|by intros (? & ? & _)].
    + intros r [x Hx]. by rewrite lookup_empty in Hx.
    + intros r [[=]|(? & ? & Hc & _)]. by rewrite lookup_empty in Hc.
    + intros r. rewrite !lookup_empty. split; [by intros []|by intros (? & ? & _)].
  - split; cbn; [by rewrite fmap_empty|done|intros ident [w Hw]; by rewrite lookup_empty in Hw|done].
Qed.

Lemma anvil_reachable_ok now limit tr s : var_anvil_time_unit < now ->
  reachable var_anvil_time_unit var_anvil_stat_time now limit tr s ->
  inv None s /\ exists a, spec_run var_anvil_time_unit now tr (an_present s) a /\ abs s a.
Proof.
  intros Hn. induction 1 as [s E|tr s e readings out s' _ [IH1 (a & Hrun & Ha)] He Hr E].
  - destruct (init_ok now limit s Hn E) as (H & Ha & Hp). split; [done|]. eexists. split; [by constructor|done].
  - destruct (clock_inv s a readings IH1 Ha Hr) as [H1 Ha1].
    destruct (anvil_step_ok e _ a H1 Ha1) as (out' & s1 & a' & E' & H2 & Ha2 & Hp & Hst); [by destruct e as [|[]| | |]|].
    rewrite E in E'. injection E' as <- <-. split; [done|]. exists a'. split; [|done]. eapply spec_next; [exact Hrun|done|exact Hst].
Qed.
End proofs.

(** ** Properties *)

Section windows.
Context (unit : Z) (Hu : 1 <= unit).
#[local] Set Default Proof Using "All".

(** The requests of a window are within the time unit from the first. *)
Definition window_span (now : Z) (w : list (rate_kind * Z)) : Prop :=
  match w with [] => True | (_, start) :: _ => Forall (fun p => start <= p.2 <= start + unit /\ p.2 <= now) w end.

Lemma span_later now later w : now <= later -> window_span now w -> window_span later w.
Proof. destruct w as [|[k start] w]; [done|]. intros Hn H. eapply Forall_impl; [exact H|]. intros p. cbn. lia. Qed.
Lemma span_current now w : window_span now w -> window_span now (sp_current unit now w).
Proof. destruct w as [|[k start] w]; [done|]. cbn. by case_match. Qed.
Lemma span_add now w k : window_span now w -> window_span now (sp_current unit now w ++ [(k, now)]).
Proof.
  destruct w as [|[k0 start] w]; cbn; [intros _; repeat constructor; cbn; lia|].
  intros H. destruct (Z.ltb_spec (start + unit) now); cbn; [repeat constructor; cbn; lia|].
  apply Forall_cons in H as [H1 H2]. constructor; [done|]. apply Forall_app. split; [done|]. repeat constructor; cbn in *; lia.
Qed.

Definition all_span (now : Z) (a : spec) : Prop := forall ident w, sp_windows a !! ident = Some w -> window_span now w.
Lemma all_span_window now a ident : all_span now a -> window_span now (sp_window ident a).
Proof. intros H. unfold sp_window. destruct (sp_windows a !! ident) eqn:E; [by eapply H|done]. Qed.
Lemma all_span_set now a links since ident w : all_span now a -> window_span now w ->
  all_span now (mk_spec links (<[ident := w]> (sp_windows a)) since).
Proof. intros H Hw i v. cbn. rewrite lookup_insert_Some. intros [[_ <-]|[_ Hv]]; [done|by eapply H]. Qed.
Lemma all_span_same now a links since : all_span now a -> all_span now (mk_spec links (sp_windows a) since).
Proof. done. Qed.
Lemma all_span_later now later a : now <= later -> all_span now a -> all_span later a.
Proof. intros Hn H ident w Hw. eapply span_later; [done|by eapply H]. Qed.
Lemma all_span_sample now a k ident : all_span now a -> all_span now (sp_sample unit k now ident a).
Proof. intros H. apply all_span_set; [done|]. by apply span_add, all_span_window. Qed.

Lemma request_span now d later kind fd ident a rep a' : now <= later -> all_span now a ->
  sp_request unit now d later kind fd ident a = (rep, a') -> all_span later a'.
Proof.
  intros Hn H.
  assert (Hf : all_span now (mk_spec (sp_links a) (<[ident := sp_current unit now (sp_window ident a)]> (sp_windows a)) (sp_since a)))
    by (by apply all_span_set, span_current, all_span_window).
  assert (Hcn : all_span now (sp_connect unit now d fd ident a)) by (by apply all_span_sample).
  destruct kind as [|k| | |]; cbn; intros E.
  - injection E as _ <-. by eapply all_span_later.
  - injection E as _ <-. apply all_span_sample. case_match; by eapply all_span_later.
  - injection E as _ <-. eapply all_span_later; [done|]. by case_match.
  - case_match; injection E as _ <-; by eapply all_span_later.
  - case_match; injection E as _ <-; by eapply all_span_later.
Qed.

Lemma step_span now later e a out a' : now <= later -> all_span now a -> spec_step unit now later e a out a' -> all_span later a'.
Proof.
  intros Hn H (d & _ & Hst). pose proof (all_span_later now later a Hn H) as Hl.
  assert (Hclose : forall fd, (out, a') = sp_close d fd a -> all_span later a')
    by (intros fd; unfold sp_close; repeat case_match; intros [= _ ->]; done).
  destruct e as [|[fd|]|fd [[[request ident]|]|]|r|]; [by injection Hst as _ ->..| |by eapply Hclose|by eapply Hclose| |by injection Hst as _ ->].
  - case_match; [|by injection Hst as _ ->]. destruct (sp_request _ _ _ _ _ _ _ _) as [rep a1] eqn:E. injection Hst as _ ->.
    by eapply request_span.
  - destruct Hst as (ident & since & _ & _ & _ & [= _ ->]). intros i w Hw. cbn in Hw. apply lookup_delete_Some in Hw as [_ Hw]. by eapply Hl.
Qed.

(** What the specification calls a window: whatever happens, all of its requests were made
    within the time unit from the first one. *)
Lemma spec_windows_span now tr later a : spec_run unit now tr later a -> all_span later a.
Proof.
  induction 1 as [|tr t later e a out a' _ IH Hn Hst]; [intros ident w Hw; cbn in Hw; by rewrite lookup_empty in Hw|].
  by eapply step_span.
Qed.
End windows.

Lemma sp_rate_bounds w k : 0 <= sp_rate w k <= INT_MAX.
Proof. unfold sp_rate, occurrences, INT_MAX. lia. Qed.

(** C12: Anvil(8) counts connections and requests as it promises.  Whatever the servers send
    and however the clock advances, every event is handled, and the replies are those of a
    server that knows neither counters nor timers: the connection count is the number of
    server processes that have the client now, each rate is the number of requests of that
    kind in the client's time window (up to the largest int), the window is never longer than
    the time unit, and a client is forgotten only when it had no connections for the time
    unit. *)
Theorem anvil_counts unit stat now limit tr s : conf_ok unit stat now -> reachable unit stat now limit tr s ->
  (exists a, spec_run unit now tr (an_present s) a
    /\ sp_links a = ident_of (an_remotes s) <$> an_streams s
    /\ (forall r x, an_remotes s !! r = Some x -> forall k, ar_rates x k = sp_rate (sp_window (ar_ident x) a) k)
    /\ (forall ident w, sp_windows a !! ident = Some w -> window_span unit (an_present s) w))
  /\ (forall e readings, event_ok e s -> readings_ok readings s ->
       exists out s', handle unit stat e (with_present (an_present s) readings s) = Ret (out, s')).
Proof.
  intros [[Hu Hn] Hs] H. destruct (anvil_reachable_ok unit stat Hu Hs now limit tr s Hn H) as (Hi & a & Hrun & Ha). split.
  - exists a. split_and!; [done|apply Ha| |].
    + intros r x Hx. by apply (known_window unit stat Hu Hs None s a r x Hi Ha Hx).
    + by eapply spec_windows_span.
  - intros e readings He Hr. destruct (clock_inv unit stat Hu Hs s a readings Hi Ha Hr) as [H1 Ha1].
    destruct (anvil_step_ok unit stat Hu Hs e _ a H1 Ha1) as (out & s' & _ & E & _); [by destruct e as [|[]| | |]|]. by exists out, s'.
Qed.

(** C13: The bookkeeping of anvil(8) in every reachable state: a client's connection count is
    the number of streams that are linked to it, no stream is linked to a client that was
    freed, the expiry timer of a client is pending exactly while it has no connections, the
    rates stay within an int, and the server does not exit for idleness before the time
    unit of every client that it still knows has ended. *)
Theorem anvil_bookkeeping unit stat now limit tr s : conf_ok unit stat now -> reachable unit stat now limit tr s ->
  (forall r x, an_remotes s !! r = Some x ->
    ar_count x = links r (an_streams s) /\ (is_Some (an_expire s !! r) <-> ar_count x = 0) /\ forall k, 0 <= ar_rates x k <= INT_MAX)
  /\ (forall r, (exists fd c, an_streams s !! fd = Some c /\ linkof c = Some r) \/ is_Some (an_expire s !! r) -> is_Some (an_remotes s !! r))
  /\ (forall idle, an_idle s = Some idle -> idle <= an_present s ->
       an_streams s = ∅ /\ forall r x, an_remotes s !! r = Some x -> exists due, an_expire s !! r = Some due /\ due <= an_present s).
Proof.
  intros [[Hu Hn] Hs] H. destruct (anvil_reachable_ok unit stat Hu Hs now limit tr s Hn H) as (Hi & a & _ & Ha). split_and!.
  - intros r x Hx. pose proof (inv_count _ _ _ Hi r x Hx) as Hc. rewrite decide_False in Hc by done. split; [lia|]. split.
    + rewrite (inv_timers _ _ _ Hi). split; [intros (y & Hy & ?); by simplify_eq|eauto].
    + intros k. destruct (known_window unit stat Hu Hs None s a r x Hi Ha Hx) as (_ & Hr & _). rewrite Hr. apply sp_rate_bounds.
  - intros r [Hl|(x & Hx & _)%(inv_timers _ _ _ Hi)]; [apply (inv_live _ _ _ Hi); by right|by eexists].
  - intros idle Hid Hle. destruct (inv_idle _ _ _ Hi idle Hid) as [E Hd]. split; [done|]. intros r x Hx.
    assert (Hz : ar_count x = 0).
    { pose proof (inv_count _ _ _ Hi r x Hx) as Hc. rewrite decide_False in Hc by done. rewrite E in Hc. unfold links in Hc. rewrite map_sum_empty in Hc. lia. }
    destruct (proj2 (inv_timers _ _ _ Hi r)) as [due Hr]; [eauto|]. exists due. split; [done|]. specialize (Hd r due Hr). lia.
Qed.

(** *** A run *)

(** Handle events one after the other, with a clock that shows no other time. *)
Fixpoint run_events (unit stat : Z) (es : list event) (tr : list (event * list reply)) (s : anvil) : outcome (list (event * list reply) * anvil) :=
  match es with
  | [] => Ret (tr, s)
  | e :: es => '(out, s) ← handle unit stat e (with_present (an_present s) [] s); run_events unit stat es ((e, out) :: tr) s
  end.
Fixpoint events_ok (unit stat : Z) (es : list event) (s : anvil) : Prop :=
  match es with
  | [] => True
  | e :: es => event_ok e s /\ match handle unit stat e (with_present (an_present s) [] s) with Ret (_, s) => events_ok unit stat es s | _ => True end
  end.
Lemma run_events_reachable unit stat now limit es : forall tr s tr' s', reachable unit stat now limit tr s -> events_ok unit stat es s ->
  run_events unit stat es tr s = Ret (tr', s') -> reachable unit stat now limit tr' s'.
Proof.
  induction es as [|e es IH]; intros tr s tr' s' H Hok E; cbn in *; [by simplify_eq|].
  apply outcome_bind_Ret_inv in E as ([out s1] & E1 & E). destruct Hok as [He Hok]. rewrite E1 in Hok.
  eapply IH; [|exact Hok|exact E]. by eapply (reach_step unit stat now limit tr s e []).
Qed.

(** Two connections of a client, a message, and the disconnects; a minute after the last one
    the client is forgotten. *)
Definition demo_start : anvil := match multi_server_main 60 600 1000 100 with Ret s => s | _ => with_present 0 [] (mk_anvil 0 [] (table_create 0) ∅ 0 ∅ ∅ None None 0 0 (fun _ => mk_max 0 None 0) (0, 0) 0) end.
Definition demo_events : list event :=
  let request fd r := Execute fd (Some (Some (r, str "smtp:192.0.2.1"))) in
  [Accept (Some 7%nat); request 7%nat (str "connect"); Accept (Some 8%nat); request 8%nat (str "connect"); request 7%nat (str "message");
   Execute 7 None; Wakeup 1061; request 8%nat (str "disconnect"); request 8%nat (str "lookup"); Wakeup 1121; Expire 0].
Definition demo_replies : list (list reply) :=
  let ok l := [(str "status", 0) :: l] in
  [[]; ok [(str "count", 1); (str "rate", 1)]; []; ok [(str "count", 2); (str "rate", 2)]; ok [(str "rate", 1)];
   ok []; []; ok []; [lookup_reply 0 (fun _ => 0)]; []; []].
Definition demo_end : list (event * list reply) * anvil :=
  match run_events 60 600 demo_events [] demo_start with Ret p => p | _ => ([], demo_start) end.

Lemma anvil_demo_reachable : reachable 60 600 1000 100 demo_end.1 demo_end.2.
Proof.
  apply (run_events_reachable 60 600 1000 100 demo_events [] demo_start).
  - apply reach_init. vm_compute. reflexivity.
  - vm_compute. repeat split; try (by eexists); try lia; try discriminate.
  - vm_compute. reflexivity.
Qed.

(** The client that the two connections of the run belong to. *)
Definition demo_busy : list (event * list reply) * anvil :=
  match run_events 60 600 (take 5 demo_events) [] demo_start with Ret p => p | _ => ([], demo_start) end.
Lemma anvil_demo_busy_reachable : reachable 60 600 1000 100 demo_busy.1 demo_busy.2.
Proof.
  apply (run_events_reachable 60 600 1000 100 (take 5 demo_events) [] demo_start).
  - apply reach_init. vm_compute. reflexivity.
  - vm_compute. repeat split; try (by eexists); try lia; try discriminate.
  - vm_compute. reflexivity.
Qed.

Lemma anvil_counts_witness : rev (snd <$> demo_end.1) = demo_replies
  /\ exists a, spec_run 60 1000 demo_end.1 (an_present demo_end.2) a.
Proof.
  split; [vm_compute; reflexivity|].
  destruct (anvil_counts 60 600 1000 100 demo_end.1 demo_end.2) as [(a & H & _) _]; [split; lia|exact anvil_demo_reachable|].
  exists a. exact H.
Defined.

Lemma anvil_bookkeeping_witness :
  (ar_count <$> an_remotes demo_busy.2 !! 0%nat) = Some 2 /\ links 0 (an_streams demo_busy.2) = 2.
Proof.
  split; [vm_compute; reflexivity|].
  destruct (an_remotes demo_busy.2 !! 0%nat) as [x|] eqn:Hx; [|vm_compute in Hx; discriminate Hx].
  destruct (anvil_bookkeeping 60 600 1000 100 demo_busy.1 demo_busy.2) as [H _]; [split; lia|exact anvil_demo_busy_reachable|].
  destruct (H 0%nat x Hx) as [<- _]. assert (E : ar_count <$> an_remotes demo_busy.2 !! 0%nat = Some 2) by (vm_compute; reflexivity).
  rewrite Hx in E. injection E as E. exact E.
Defined.
